(* ===== verification/_CoqProject ===== *)
-Q . S2P
Prelude.v
Model.v
OperationTypes.v
OperationPolicy.v
ApprovalStore.v
ApprovalProtocol.v
AuditStore.v
GraceStore.v
SecurityStore.v
Adoption.v
Settings.v
Gate.v
PipelinePlan.v
PipelineVars.v
PipelineEngine.v
PipelineRun.v
PipelineTasks.v
Channels.v
LogParse.v
LogFold.v
LogBuffer.v
LogHistory.v
LogTheorems.v
AgentHealth.v
DebugSession.v
Programs.v
Provision.v
LeaseStore.v
Lease.v
LeaseTheorems.v
LeaseSystem.v
ProvisionGate.v
DataSources.v
Paths.v
ConfigChange.v
ConfigValid.v
ConfigPlan.v
Slices.v
ConfigHeap.v
Identities.v
ConfigFlow.v
LocalConfig.v
PortMirror.v
HostKeys.v
Tunnels.v
Templates.v
TemplateStore.v
Rely.v
Process.v
ProcessTheorems.v
ProcessSafety.v
ProcessRaces.v
Heaps.v
Pages.v
LogStore.v
LogStoreTheorems.v
LogFlow.v
LogBackends.v
LogQueries.v
LogMerge.v
RemoteSearch.v
RemotePages.v
RemoteExamples.v
FederatedPages.v
Ingress.v
IngressStore.v
IngressStoreTheorems.v
IngressService.v
CertService.v
IngressTheorems.v
CertTheorems.v
IngressHandlers.v
IngressExamples.v
