(* ===== verification/Prelude.v ===== *)
(** * SuperDev agent: a verification development

    SuperDev runs an agent (Go, under [src/agent]) on every machine it manages.
    The agent starts and stops deployments, runs deployment pipelines, opens
    debuggers, and exposes all of this over HTTP to a desktop application, to
    other control planes and to AI tools.  Because AI tools call it, its core is
    a gate: an operation is first turned into a plan with a fingerprint, and the
    plan runs only if the policy allows it, if a grace window covers it, or if
    somebody approved exactly that plan.  This development models that gate, the
    stores and credentials it relies on, what it guards (runs of the pipeline
    engine, changes of a project's configuration, temporary databases), public
    entries and their certificates, the tunnels to other machines, and what tells operators (and the AI tools) what
    happened: the agent monitor, the log buffer, the table of log entries behind it
    and the searches that read it on this machine and on others.

    ** Parts of the program and where they are modelled

    - [Prelude] (this file): Go results, times, [strings.TrimSpace], [strconv.Atoi],
      stable sorting, files that hold a JSON document, the [World] of one store
      call, and the shared tactics and lemmas (retention of records above all).
    - [Model]: the records of [model/model.go] and [model/pipeline.go].
    - [OperationTypes]: [operation/types.go]; JSON values with sorted keys, the
      digests of fingerprints and tokens behind the classes [Digest] and
      [CollisionFree].
    - [OperationPolicy]: [operation/policy.go], one Definition per planner.
    - [ApprovalStore]: the approval half of [operation/store.go]; each operation takes
      a [World] and the store and returns the new store and a Go result.
    - [ApprovalProtocol]: the abstract protocol of approvals (events, what a history
      allows), reachable stores under any interleaving of operations, and the
      refinement of the protocol by the store.
    - [AuditStore]: the audit half of [operation/store.go], a durable outbox.
    - [GraceStore]: [operation/grace.go], windows in which a project needs no approval.
    - [SecurityStore]: [security/store.go] and the middleware of
      [api/security_handler.go]: bootstrap, credentials, revocation, authentication.
    - [Adoption]: [security/adoption.go], adoption of an agent by a new control plane.
    - [Settings]: [config/settings.go].
    - [Gate]: [api/handler_operations.go]: [authorizeOperation], the decision handlers,
      the routing of approvals that belong to another host, target resolution.
      The state is the record [App]; [authorizeOperation] calls the operations of
      the stores in the order of the code.
    - [PipelinePlan]: [pipeline/dag.go], [planner.go], [concurrency.go], [run_if.go],
      [reserved_vars.go].
    - [PipelineVars]: [template/vars.go] (pipeline variables) and
      [pipeline/project_resolver.go].
    - [PipelineEngine]: [pipeline/engine.go], [executor.go], [validation.go].
    - [PipelineRun]: the theorems on the engine, from the plan to the end of a run.
    - [PipelineTasks]: what a finished step says of its tasks, for every interleaving.
    - [Channels]: buffered Go channels (send, close, receive, the select with a
      default) and a publisher with its subscribers; used by the next two parts.
    - [LogParse]: [logparse/normalize.go], with the regular expressions it compiles run
      by a matcher written here.
    - [LogFold]: [logbuf/fold.go], the folding of repeated lines of one deployment.
    - [LogBuffer]: [logbuf/buffer.go], the ring and the subscribers of the live view;
      a run of the program is a list of [action]s, one per lock region.
    - [LogHistory]: the specification of the buffer (the log as one list of
      rows) and the proof that ring, tracker and rows stay related.
    - [LogTheorems]: the theorems on the buffer.
    - [AgentHealth]: [agenthealth/monitor.go], polling of remote agents.
    - [DebugSession]: [debugsession/store.go] and [api/handler_debug_sessions.go], the
      shared record of a debugging session.
    - [Programs]: programs as trees of calls with answers, their weakest
      preconditions, traces, and runs against a state.
    - [Provision]: [dbprovision/types.go], [naming.go], [provisioner.go] and the pool of
      [redis.go]: names and plans of temporary test databases.
    - [LeaseStore]: [store/provision.go], the two tables with their unique keys.
    - [Lease]: [dbprovision/lease.go], each method of [Manager] as a program whose
      calls are the methods of its dependencies.
    - [LeaseTheorems]: what these programs do, whatever the calls answer.
    - [LeaseSystem]: the programs run against the tables of [LeaseStore] and a
      server, one call per step, any number of them interleaved.
    - [ProvisionGate]: [api/provision_approval_gate.go], the gate that [Acquire] asks,
      on top of the stores of approvals and grace windows.
    - [DataSources]: [dbprovision/registry.go], updates in the two halves that the
      probe between them separates.
    - [Paths]: [path/filepath] on Unix and the containment check of
      [langruntime/types.go].
    - [ConfigChange]: [configchange/types.go], [merge.go] and [validate.go] on plain
      values, what a change is meant to do; [ConfigValid] says in its own words which
      projects are valid; [ConfigPlan] has [diff.go], [plan.go] and the JSON documents
      behind a fingerprint.
    - [Slices]: Go slices as arrays on a heap with their lengths, and [append].
    - [ConfigHeap]: the operations of [ConfigChange] on shared slices, as the program
      runs them on a project that it copied by value; [view] relates the two.
    - [Identities]: [assignIDsAvoiding] and its loops ([api/server.go]), on values and
      on the heap.
    - [ConfigFlow]: [api/handler_config_changes.go], preview and application of a
      change, calling [ConfigHeap], [Identities], [ConfigPlan] and the gate in turn.
    - [LocalConfig]: [config/localfile.go], [config/paths.go] and the split format of
      [config/loader.go], the two files of a project: the shared one and the one that
      stays on the machine.  A document is a record of what its YAML tags write.
    - [PortMirror]: [portmirror/manager.go], the reconciler of local ports.
    - [HostKeys]: host-key pins of [tunnel/tunnel.go], base64, the SSH dialler.
    - [Tunnels]: [tunnel/manager.go], one connection per machine, with goroutines that
      dial outside the lock; a state is the manager and the goroutines under way.
    - [Templates]: [template/vars.go], [expand.go] and [template.go], includes of
      templates in pipelines; [TemplateStore]: [template/store.go], published
      versions and drafts in the file system.
    - [Rely]: programs of atomic sections that run side by side, start goroutines and
      wait; a rely-guarantee condition on a program, and its soundness.
    - [Process]: [process/manager.go], [reconcile.go], [runner.go], [exitinfo.go] and
      [launchd.go]; a state has the manager, its runners and the process groups of the
      kernel.  [ProcessTheorems]: the methods when they run alone; [ProcessSafety]: the
      invariant under every interleaving; [ProcessRaces]: concrete runs.
    - [Heaps]: the package container/heap of Go's library, on lists; [Pages]: pages of a
      sorted selection, before and after a position.
    - [LogStore]: the table of log entries of [store/store.go], one Definition per
      statement, and [api/log_cleanup.go]; [LogStoreTheorems]: what the table satisfies.
    - [LogFlow]: the log buffer writing to that table.
    - [LogBackends]: [logbackend/cursor.go], [sqlite.go], [remote.go], [federated.go];
      another agent is the record [NodeApi] of its answers.
    - [LogQueries]: [api/handler_logs.go], [handler_log_search.go],
      [handler_deployment_logs.go], which answer those requests ([agent_api]).
    - [LogMerge]: [api/remote_search_merge.go]; [RemoteSearch]:
      [api/handler_remote_search.go], searches across agents; [RemotePages]: following
      their cursor to the end; [RemoteExamples]: concrete searches.
    - [FederatedPages]: following the cursor of the federated backend to the end, for
      every backend that satisfies the class [PagesBack].
    - [Ingress]: [ingress/model.go] and [cert_deployment.go], declarations of public
      entries and their certificates; [IngressStore]: [ingress/store.go], three files,
      and the handlers of declarations; [IngressService]: [ingress/service.go] as
      programs of calls; [CertService]: [certservice.go] and [certmanager.go];
      [IngressHandlers]: [infer.go], [api/handler_ingress.go],
      [handler_ingress_certs.go] and the hosts of [ingress_app.go].
    - [IngressStoreTheorems]: the files as maps; [IngressTheorems], [CertTheorems]: what
      the programs do, whatever the calls answer; [IngressExamples]: concrete runs.

    ** What the theorems show

    - The gate: nothing passes it unless the plan is not denied and one of three
      reasons holds ([Gate.authorizeOperation_sound]); what a refusal leaves behind;
      conflicts of decisions; grace windows from grant to use; policy switches.
    - Approvals: the store refines the protocol; a token serves one plan, once; the
      first decision wins; the life cycle of an approval; asking twice gives one
      prompt; retention never drops an approval that still matters.
    - Plans: the complete policy of the runtime planners and when two plans share a
      fingerprint.
    - Credentials: authentication, single-use bootstrap, restart against reinstall,
      precise revocation; adoption refines its own protocol and is rate-limited.
    - Settings: what is loaded is valid, and what is saved is loaded again.
    - Pipelines: [ValidateDAG] is exact on every branch and terminates; a built plan
      has one skeleton per step; a run whose directories can be made and whose steps keep
      their names settles every step, respects the needs of every step, skips the
      deployment after a failed build and runs the finally phase whatever happened
      before ([RunWithOptions_contract], which also says what a run without its
      directories leaves); a step succeeds only if all its tasks did; retries are bounded;
      variables come from the closest layer.
    - Logs: the buffer shows the last rows of the log, every pushed line is counted
      by exactly one row, the store receives every count, and only a push after
      the end can panic ([LogTheorems]); templates mask every number.
    - Agent health: one poll loop per agent at a time, and the result of an outdated
      probe is dropped.
    - Debug sessions: a closed session never changes, events are only appended, in
      order, and are read back as they were written.
    - Temporary databases: an acquisition registers before it creates, asks for the
      approval of all plans before anything, and delivers all or gives back what it
      created; the ledgers of [LeaseTheorems] go by the answers of the calls, so that
      what a failed call leaves open stays on them; what two acquisitions deliver are
      different databases, under any interleaving; what a release, a renewal and a dry
      run leave; names are safe identifiers; data sources keep unique names.
    - Configuration changes: on the shared slices of the program a change does what it
      does on values (what else it writes is among the defects); validation is exact;
      a fingerprint binds the change; what is saved was validated and passed the
      gate; runtime paths stay inside the project.
    - Local configuration: values of the machine never reach the shared file; what of a
      project that is saved and loaded again comes back, and in which places
      ([save_load_roundtrip]).
    - Port mirrors: which mirrors a frame calls for, what the table of forwards
      satisfies at every moment, and that two frames without failures converge when no
      two machines want one local port.
    - Tunnels: a connection is used only if the machine proved the pinned key; a
      result that was overtaken is closed and not published; the table, under every
      interleaving; every call returns.
    - Processes: a deployment that is reported as stopped has no live process that was
      not sent SIGKILL, if its starts and stops come one at a time and the kernel does
      not refuse the signal, whatever runs beside them; what a start
      that runs alone leaves behind on every branch; the lines that an exit keeps.
    - Templates: expansion respects the order of the steps around and inside an
      include; expansion is determined by the digests it was locked with; a
      published version whose identifier is one path element never changes.
    - Historical logs: every row of the buffer reaches the table with its last count
      ([LogFlow.log_reaches_table]); paging through the table, through several backends
      and through a search across agents shows every entry once and in order, and ends
      ([paging_reads_log], [federated_history_complete], [search_pages_complete]).
      The last two are proved against the classes [PagesBack] and [AnswersPages], which
      the local table and the interface of another agent then satisfy.
    - Public entries: the three files are five maps; nothing is changed before
      everything was checked, records come before hosts ([Apply_sound]); only
      confirmed orphans are removed; certificates keep their material unless the issuer
      gave a new one, and go to hosts only when active ([certificates_kept]); no
      handler of certificates answers with a private key.
    Some theorems state defects of the code instead of merits: their doc comments
    say so ([PlanRuntime_unknown_location], [Provision_lost_write],
    [NewStore_untrimmed_bootstrap], [dated_step_not_found], [executeOneTask_cancelled],
    [flush_overtakes], [fold_crosses_runs], [events_overtake], [quota_race],
    [reconcile_drops_fresh], [release_leaks], [replan_skips_gate],
    [Renew_outlives_limit], [Update_resurrects], [Update_unsaved_in_force],
    [fingerprint_ignores_clearing], [spare_capacity_race], [preview_hides_edits],
    [copied_project_unapprovable], [save_erases_shared_path],
    [emptied_env_unshadows], [demoted_loser_drops_winner], [two_machines_one_port], [nested_number_rendered],
    [later_include_unlinked], [imported_outside_library],
    [draft_overwrites_published], [published_among_drafts], [refused_kill_forgotten], [crash_reported_running], [concurrent_starts_leak],
    [stop_overtaken_by_start], [launchd_logs_never_start], [failed_probe_forgotten],
    [stale_probe_fails_successor], [clean_exit_reported_failed], [crash_not_notified],
    [folded_run_loses_batch], [overtaken_batch_lowers_count], [retention_forgets_numbers],
    [search_range_ignored], [deployment_search_finds_nothing], [failed_host_restarts],
    [project_search_repeats_exhausted], [service_without_hosts_times_out],
    [failed_child_given_up], [tied_entries_lost], [remote_page_falls_back],
    [issue_spoils_manual], [failed_renewal_not_retried], [partial_redeploy_forgotten],
    [apply_undoes_renewal], [blank_value_not_replaced], [manual_dns_with_tls_valid],
    [create_overwrites_other_project], [deleted_host_blocks_orphans]).

    ** Conventions and assumptions

    - Go strings are byte strings; enumerations are strings, as in the code.  Texts
      that the code treats rune by rune are assumed to be valid UTF-8.
    - [int] and [time.Duration] are [Z]; where a sum can overflow (the number of
      attempts, [Time.Sub]) the wrap-around or saturation is written out.
    - The clock, random identifiers and tokens, and the outcome of every file access
      are inputs of an operation ([World], [Env]): theorems hold for all of them,
      in particular for writes that fail or tear.  Stores that write to a temporary
      file and rename keep the old content when a write fails; the grace store
      writes in place.  Where a theorem needs random identifiers or tokens to be
      new, it says so ([fresh]).
    - Digests are a parameter.  [CollisionFree] is assumed only by the theorems that
      relate a digest to what was digested; an instance shows it can hold.
    - Mutexes: an operation under one lock is one step; [Adoption.Exchange], which
      releases its lock, is two.  The tasks of a pipeline batch are programs of
      atomic actions, interleaved by a schedule that the world chooses; a plugin
      call takes effect at one moment within the call.  In the log buffer and
      the agent monitor a run is a list of actions, one per lock region of a
      goroutine, and theorems hold for every list, hence every interleaving.  The
      lease manager holds no lock: every call to the database or to a server is a
      step of its own, and other operations run in between.  The methods of the
      tunnel manager are cut at their locks; its generation numbers are [uint64]s.
      The methods of the process manager are programs whose steps are the sections
      under a lock; the kernel may give the number of a group that has ended to others,
      and refuse to send a signal.
    - Slices and maps that two values share are arrays and maps on a heap.  How much
      spare room [append] leaves is the parameter [grow], of which nothing is assumed.
    - Lower case beyond ASCII ([UnicodeCase]), the text of addresses ([IpText]), [net/url] ([UrlParser]), the SSH library
      ([SSH]) and the text of YAML documents are parameters; random identifiers are
      a stream.  Numbers of JSON documents are integers below 2^53.
    - A process has an epoch of its own, and a run identifier is used for one run: so the
      rows that a process adds to the table are new ([written] in [LogFlow]).
    - The process-wide counter behind fold keys, and log text times in RFC 3339
      form, which the code only carries along, are inputs: a key does not repeat.
    - Go map iteration: the order is an argument where it matters.
    - Fuel: [trim_left_fuel] and [render] consume a character per step, so that the
      length of the text is enough; [drain] finishes a step per iteration, and
      [ValidateDAG_verdict] shows that more fuel changes nothing; [batches] starts a
      batch per unit and [batches_cover] shows that all tasks are covered;
      [uniqueUUID] draws one identifier more than there are used ones, which
      [draw_id_total] shows to be enough if the stream does not repeat;
      [replace_all] consumes a byte per step; [expandSteps] is structural in the
      levels of nesting that remain.
    - SQL: a statement is a function of the rows of its table, one after the other;
      [LIKE] is a parameter, and so is the size of the file.  [delete_rounds] needs a
      round per hundred rows, which [size_limit_ends] shows to be enough.
      [sort.Slice] is any function that sorts, where the order of equivalent elements
      shows.
    - Plugins, hooks, the context, [time.ParseDuration], [filepath.Join] and
      directories of the operating system are parameters of the engine.

    ** Not modelled

    Network and process I/O (transports, the providers of certificates, DNS records
    and proxies, debug adapters, browser control, database servers), the SQL of pipeline runs and artifacts, schema
    upgrades, the MCP front end, the desktop application and the validation harnesses
    are left out: they mostly pass data on, and what they do is decided by programs
    outside the repository.  So are the byte streams inside a tunnel, live
    subscriptions over WebSockets, symbolic links, and the text of YAML, JSON and
    base64 documents. *)
From stdpp Require Import base list strings gmap sorting pretty.
From Stdlib Require Import ZArith Lia Ascii.


Declare Scope go_scope.
Delimit Scope go_scope with go.

(** ** Go results: a value or an error *)

Inductive result (E A : Type) : Type :=
| Ok (a : A)
| Err (e : E).
Arguments Ok {E A} _.
Arguments Err {E A} _.

Definition rbind {E A B} (r : result E A) (k : A -> result E B) : result E B :=
  match r with Ok a => k a | Err e => Err e end.

Definition map_result {E A B} (f : A -> B) (r : result E A) : result E B :=
  rbind r (fun a => Ok (f a)).

Notation "'let?' x ':=' r 'in' k" := (rbind r (fun x => k))
  (at level 10, x pattern, r at level 100, k at level 200) : go_scope.

(** ** Time

    [time.Time] is the number of nanoseconds since Go's zero time, so that
    [IsZero] is a comparison with 0; [time.Duration] is an int64. *)

Abbreviation time := Z.
Abbreviation duration := Z.

Definition time_is_zero (t : time) : bool := (t =? 0)%Z.
Definition time_after (t u : time) : bool := (u <? t)%Z.
Definition time_before (t u : time) : bool := (t <? u)%Z.
Definition time_add (t : time) (d : duration) : time := (t + d)%Z.

Definition min_int64 : Z := (- 2 ^ 63)%Z.
Definition max_int64 : Z := (2 ^ 63 - 1)%Z.

(** [Time.Sub] saturates at the bounds of [time.Duration]. *)
Definition time_sub (t u : time) : duration :=
  Z.max min_int64 (Z.min max_int64 (t - u))%Z.

Definition nanosecond : duration := 1%Z.
Definition millisecond : duration := (1000000 * nanosecond)%Z.
Definition second : duration := (1000 * millisecond)%Z.
Definition minute : duration := (60 * second)%Z.

(** ** strings.TrimSpace

    Go strings are byte strings.  [TrimSpace] removes leading and trailing
    code points with the Unicode White_Space property, i.e. the UTF-8
    encodings listed here. *)

Definition byte_of (n : nat) : ascii := ascii_of_nat n.

Definition space_encodings : list (list ascii) :=
  [[byte_of 9]; [byte_of 10]; [byte_of 11]; [byte_of 12]; [byte_of 13]; [byte_of 32];
   [byte_of 194; byte_of 133]; [byte_of 194; byte_of 160];
   [byte_of 225; byte_of 154; byte_of 128]] ++
  ((fun b => [byte_of 226; byte_of 128; byte_of b]) <$> seq 128 11) ++
  [[byte_of 226; byte_of 128; byte_of 168]; [byte_of 226; byte_of 128; byte_of 169];
   [byte_of 226; byte_of 128; byte_of 175]; [byte_of 226; byte_of 129; byte_of 159];
   [byte_of 227; byte_of 128; byte_of 128]].

Fixpoint strip_prefix (p l : list ascii) : option (list ascii) :=
  match p, l with
  | [], _ => Some l
  | a :: p', b :: l' => if Ascii.eqb a b then strip_prefix p' l' else None
  | _ :: _, [] => None
  end.

Fixpoint strip_any (ps : list (list ascii)) (l : list ascii) : option (list ascii) :=
  match ps with
  | [] => None
  | p :: ps' =>
      match strip_prefix p l with
      | Some l' => Some l'
      | None => strip_any ps' l
      end
  end.

Fixpoint trim_left_fuel (ps : list (list ascii)) (n : nat) (l : list ascii) : list ascii :=
  match n with
  | O => l
  | S n' =>
      match strip_any ps l with
      | Some l' => trim_left_fuel ps n' l'
      | None => l
      end
  end.

Definition trim_left (l : list ascii) : list ascii :=
  trim_left_fuel space_encodings (length l) l.

Definition trim_right (l : list ascii) : list ascii :=
  rev (trim_left_fuel (@rev ascii <$> space_encodings) (length l) (rev l)).

Definition TrimSpace (s : string) : string :=
  String.string_of_list_ascii (trim_right (trim_left (String.list_ascii_of_string s))).

(** ** strconv.Atoi *)

Definition digit_value (c : ascii) : option Z :=
  let n := Z.of_nat (nat_of_ascii c) in
  if (48 <=? n)%Z && (n <=? 57)%Z then Some (n - 48)%Z else None.

Fixpoint digits_value (acc : Z) (l : list ascii) : option Z :=
  match l with
  | [] => Some acc
  | c :: l' =>
      match digit_value c with
      | Some d => digits_value (10 * acc + d) l'
      | None => None
      end
  end.

Definition in_int64 (n : Z) : option Z :=
  if (min_int64 <=? n)%Z && (n <=? max_int64)%Z then Some n else None.

(** An optional sign, at least one digit, and a value that fits an int64. *)
Definition Atoi (s : string) : option Z :=
  let number l := match l with [] => None | _ => digits_value 0 l end in
  match String.list_ascii_of_string s with
  | "+"%char :: l => number l ≫= in_int64
  | "-"%char :: l => number l ≫= (fun n => in_int64 (- n))
  | l => number l ≫= in_int64
  end.

(** ** sort.SliceStable *)

Section StableSort.
Context {A : Type} (less : A -> A -> bool).

Fixpoint sinsert (x : A) (l : list A) : list A :=
  match l with
  | [] => [x]
  | y :: l' => if less y x then y :: sinsert x l' else x :: l
  end.

Definition SliceStable (l : list A) : list A := foldr sinsert [] l.
End StableSort.

(** [sort.Strings]: byte-wise lexicographic order. *)
Definition sort_strings (l : list string) : list string := SliceStable String.ltb l.

(** ** Files holding a JSON document *)

Inductive file (S : Type) : Type :=
| Missing
| Empty
| Corrupt
| Content (st : S).
Arguments Missing {S}.
Arguments Empty {S}.
Arguments Corrupt {S}.
Arguments Content {S} _.

(** What a [load] that treats an absent or empty file as the zero state reads. *)
Definition contents {S} (zero : S) (f : file S) : option S :=
  match f with
  | Missing | Empty => Some zero
  | Corrupt => None
  | Content st => Some st
  end.

(** [World] gathers what a store operation reads from its environment: the
    clock, the random generators and the outcome of its file accesses. *)

Inductive save_outcome : Type :=
| SaveOk
| SaveFailed   (** an error before the target file is touched *)
| SaveTorn.    (** an error while the bytes are written *)

Record World : Type := mkWorld {
  w_now : time;          (** [time.Now().UTC()] *)
  w_id : string;         (** the next random identifier *)
  w_token : string;      (** the next random token *)
  w_read_ok : bool;      (** [os.ReadFile] succeeds, or the file is absent *)
  w_save : save_outcome; (** what the write of the operation does *)
}.

(** Write to a temporary file, then rename: the target is replaced or kept. *)
Definition write_rename {S} (o : save_outcome) (old : file S) (st : S) : file S * bool :=
  match o with
  | SaveOk => (Content st, true)
  | SaveFailed | SaveTorn => (old, false)
  end.

(** A direct [os.WriteFile] truncates the target first. *)
Definition write_direct {S} (o : save_outcome) (old : file S) (st : S) : file S * bool :=
  match o with
  | SaveOk => (Content st, true)
  | SaveFailed => (old, false)
  | SaveTorn => (Corrupt, false)
  end.

(** ** Tactics *)

(** Case analysis on every [match] and [if] of the hypotheses and the goal. *)
Ltac go_step :=
  match goal with
  | |- context [if ?b then _ else _] => destruct b eqn:?
  | H : context [if ?b then _ else _] |- _ => destruct b eqn:?
  | |- context [match ?x with _ => _ end] => destruct x eqn:?
  | H : context [match ?x with _ => _ end] |- _ => destruct x eqn:?
  end.
Ltac go_crush := repeat (simplify_eq/=; try done; try go_step); simplify_eq/=; try done.

(** Turn boolean tests into propositions, then let [lia] finish. *)
Ltac bool_prop :=
  repeat match goal with
  | H : _ && _ = true |- _ => apply andb_prop in H as [? ?]
  | H : negb _ = true |- _ => apply negb_true_iff in H
  | H : negb _ = false |- _ => apply negb_false_iff in H
  | H : (_ && _ = false) |- _ => apply andb_false_iff in H
  | H : _ || _ = true |- _ => apply orb_prop in H
  | H : _ || _ = false |- _ => apply orb_false_iff in H as [? ?]
  | H : (_ <? _)%Z = true |- _ => apply Z.ltb_lt in H
  | H : (_ <? _)%Z = false |- _ => apply Z.ltb_ge in H
  | H : (_ <=? _)%Z = true |- _ => apply Z.leb_le in H
  | H : (_ <=? _)%Z = false |- _ => apply Z.leb_gt in H
  | H : (_ =? _)%Z = true |- _ => apply Z.eqb_eq in H
  | H : (_ =? _)%Z = false |- _ => apply Z.eqb_neq in H
  | H : (_ =? _)%string = true |- _ => apply String.eqb_eq in H
  | H : (_ =? _)%string = false |- _ => apply String.eqb_neq in H
  end.

Create HintDb go.

(** ** Lemmas: trimming *)

Lemma strip_prefix_app p l l' : strip_prefix p l = Some l' -> l = p ++ l'.
Proof.
  revert l; induction p as [|a p IH]; intros [|b l] H; simplify_eq/=; auto.
  destruct (Ascii.eqb_spec a b); simplify_eq. f_equal; auto.
Qed.

Lemma strip_prefix_self p l : strip_prefix p (p ++ l) = Some l.
Proof.
  induction p as [|a p IH]; simpl; [by destruct l|].
  by rewrite Ascii.eqb_refl.
Qed.

Lemma strip_any_Some ps l l' :
  strip_any ps l = Some l' -> exists p, p ∈ ps /\ l = p ++ l'.
Proof.
  induction ps as [|p ps IH]; intros H; simplify_eq/=.
  destruct (strip_prefix p l) as [k|] eqn:E; simplify_eq.
  - apply strip_prefix_app in E. exists p. split; [left|done].
  - destruct (IH H) as (q & ? & ?). exists q. split; [by right|done].
Qed.

Lemma strip_any_None ps l :
  strip_any ps l = None <-> forall p l', p ∈ ps -> l <> p ++ l'.
Proof.
  induction ps as [|p ps IH]; simpl.
  { split; [|done]. intros _ p l' Hp. by apply elem_of_nil in Hp. }
  destruct (strip_prefix p l) as [k|] eqn:E.
  - apply strip_prefix_app in E. split; [done|].
    intros H. exfalso. apply (H p k); [left|done].
  - rewrite IH. split.
    + intros H q l' [->|Hq]%elem_of_cons; [|by apply H].
      intros ->. by rewrite strip_prefix_self in E.
    + intros H q l' Hq. apply H. by right.
Qed.

(** A prefix of a list without leading space has no leading space. *)
Lemma strip_any_prefix ps l l' :
  strip_any ps (l ++ l') = None -> strip_any ps l = None.
Proof.
  rewrite !strip_any_None. intros H p k Hp ->.
  apply (H p (k ++ l') Hp). by rewrite app_assoc.
Qed.

Lemma trim_left_fuel_suffix ps n l : exists k, l = k ++ trim_left_fuel ps n l.
Proof.
  revert l; induction n as [|n IH]; intros l; simpl; [by exists []|].
  destruct (strip_any ps l) as [l'|] eqn:E; [|by exists []].
  apply strip_any_Some in E as (p & _ & ->).
  destruct (IH l') as [k Hk]. exists (p ++ k).
  rewrite <-app_assoc. by f_equal.
Qed.

Lemma trim_left_fuel_id ps n l :
  strip_any ps l = None -> trim_left_fuel ps n l = l.
Proof. intros H. destruct n; simpl; [done|by rewrite H]. Qed.

Lemma trim_left_fuel_stripped ps n l :
  [] ∉ ps -> length l <= n -> strip_any ps (trim_left_fuel ps n l) = None.
Proof.
  intros Hps. revert l; induction n as [|n IH]; intros l Hl; simpl.
  - destruct l; simpl in *; [|lia].
    apply strip_any_None. intros [|a p] l' Hp; [done|by simpl].
  - destruct (strip_any ps l) as [l'|] eqn:E; [|done].
    apply strip_any_Some in E as (p & Hp & ->). apply IH.
    rewrite length_app in Hl. destruct p; [done|simpl in *; lia].
Qed.

Lemma space_encodings_nonempty : [] ∉ space_encodings.
Proof. apply (bool_decide_eq_true_1 ([] ∉ space_encodings)). by vm_compute. Qed.

Lemma rev_space_encodings_nonempty : [] ∉ (@rev ascii <$> space_encodings).
Proof.
  apply (bool_decide_eq_true_1 ([] ∉ (@rev ascii <$> space_encodings))). by vm_compute.
Qed.

Lemma trim_left_stripped l : strip_any space_encodings (trim_left l) = None.
Proof. apply trim_left_fuel_stripped; [apply space_encodings_nonempty|done]. Qed.

Lemma trim_right_prefix l : exists k, l = trim_right l ++ k.
Proof.
  destruct (trim_left_fuel_suffix (@rev ascii <$> space_encodings) (length l) (rev l))
    as [k Hk].
  exists (rev k). unfold trim_right.
  by rewrite <-rev_app_distr, <-Hk, rev_involutive.
Qed.

Lemma trim_right_id l :
  strip_any (@rev ascii <$> space_encodings) (rev l) = None -> trim_right l = l.
Proof. intros H. unfold trim_right. by rewrite trim_left_fuel_id, rev_involutive. Qed.

Lemma trim_right_stripped l :
  strip_any (@rev ascii <$> space_encodings) (rev (trim_right l)) = None.
Proof.
  unfold trim_right. rewrite rev_involutive.
  apply trim_left_fuel_stripped; [apply rev_space_encodings_nonempty|].
  by rewrite length_rev.
Qed.

Lemma TrimSpace_idem s : TrimSpace (TrimSpace s) = TrimSpace s.
Proof.
  unfold TrimSpace. rewrite String.list_ascii_of_string_of_list_ascii.
  set (m := trim_left (String.list_ascii_of_string s)).
  assert (strip_any space_encodings (trim_right m) = None) as Hl.
  { destruct (trim_right_prefix m) as [k Hk].
    apply (strip_any_prefix _ _ k). rewrite <-Hk. apply trim_left_stripped. }
  unfold trim_left at 1. rewrite (trim_left_fuel_id _ _ _ Hl).
  by rewrite (trim_right_id (trim_right m)) by apply trim_right_stripped.
Qed.

Example TrimSpace_ex :
  TrimSpace (String (byte_of 9) (String (byte_of 194) (String (byte_of 160) "a b  "))) = "a b"%string.
Proof. by vm_compute. Qed.

(** ** Lemmas: stable sorting *)

Section StableSortLemmas.
Context {A : Type} (less : A -> A -> bool).
Implicit Types (l : list A).

Lemma sinsert_perm x l : sinsert less x l ≡ₚ x :: l.
Proof.
  induction l as [|y l IH]; simpl; [done|].
  destruct (less y x); [|done]. rewrite IH. by constructor.
Qed.

Lemma SliceStable_perm l : SliceStable less l ≡ₚ l.
Proof.
  induction l as [|x l IH]; simpl; [done|].
  by rewrite sinsert_perm, IH.
Qed.

Lemma SliceStable_elem x l : x ∈ SliceStable less l <-> x ∈ l.
Proof. by rewrite SliceStable_perm. Qed.

Lemma SliceStable_length l : length (SliceStable less l) = length l.
Proof. by rewrite SliceStable_perm. Qed.
End StableSortLemmas.

(** When [less] decides the strict part of a total preorder [R], the result is
    ordered by [R] and an already ordered list is left alone. *)
Section StableSortOrder.
Context {A : Type} (less : A -> A -> bool) (R : relation A) `{!Transitive R}.
Context (less_true : forall x y, less x y = true -> R x y).
Context (less_false : forall x y, less x y = false -> R y x).

Lemma sinsert_sorted x l : StronglySorted R l -> StronglySorted R (sinsert less x l).
Proof using All.
  induction 1 as [|y l Hs IH Hy]; simpl; [by repeat constructor|].
  destruct (less y x) eqn:E.
  - constructor; [done|]. rewrite sinsert_perm. constructor; auto.
  - constructor; [by constructor|]. constructor; [auto|].
    eapply Forall_impl; [done|]. intros z ?. etransitivity; [|done]. auto.
Qed.

Lemma SliceStable_sorted l : StronglySorted R (SliceStable less l).
Proof using All. induction l; simpl; [constructor|by apply sinsert_sorted]. Qed.

Lemma SliceStable_perm_eq `{!AntiSymm (=) R} l k :
  l ≡ₚ k -> SliceStable less l = SliceStable less k.
Proof using All.
  intros H. apply (StronglySorted_unique R); [apply SliceStable_sorted..|].
  by rewrite !SliceStable_perm.
Qed.
End StableSortOrder.

(** Sorting records by an integer key, ascending and descending. *)
Section SortByKey.
Context {A : Type} (key : A -> Z).

Definition key_less (x y : A) : bool := (key x <? key y)%Z.
Definition key_greater (x y : A) : bool := (key y <? key x)%Z.
Definition key_le (x y : A) : Prop := (key x <= key y)%Z.
Definition key_ge (x y : A) : Prop := (key y <= key x)%Z.

Lemma SliceStable_ascending l : StronglySorted key_le (SliceStable key_less l).
Proof.
  apply SliceStable_sorted; unfold key_less, key_le; [intros ???; lia|..];
    intros; bool_prop; lia.
Qed.

Lemma SliceStable_descending l : StronglySorted key_ge (SliceStable key_greater l).
Proof.
  apply SliceStable_sorted; unfold key_greater, key_ge; [intros ???; lia|..];
    intros; bool_prop; lia.
Qed.

Lemma SliceStable_id l : StronglySorted key_le l -> SliceStable key_less l = l.
Proof.
  induction 1 as [|x l Hs IH Hx]; simpl; [done|]. rewrite IH.
  destruct l as [|y l]; simpl; [done|].
  inversion Hx as [|? ? Hxy _]; subst. unfold key_less, key_le in *.
  by replace (key y <? key x)%Z with false by (symmetry; apply Z.ltb_ge; lia).
Qed.
End SortByKey.

Lemma sort_strings_perm_eq l k : l ≡ₚ k -> sort_strings l = sort_strings k.
Proof.
  intros H. apply (SliceStable_perm_eq _ String.le); [| |apply _|done].
  - intros x y Hxy. unfold String.le, String.leb. unfold String.ltb in Hxy.
    by destruct (String.compare x y).
  - intros x y Hxy. unfold String.le, String.leb. unfold String.ltb in Hxy.
    rewrite String.compare_antisym. by destruct (String.compare x y).
Qed.

(** Dropping from the front of a list ordered by [R] keeps the [R]-largest. *)
Lemma StronglySorted_drop_split {A} (R : A -> A -> Prop) n (l : list A) x y :
  StronglySorted R l -> x ∈ take n l -> y ∈ drop n l -> R x y.
Proof.
  revert l; induction n as [|n IH]; intros [|z l] Hs Hx Hy; simpl in *;
    try by apply elem_of_nil in Hx.
  inversion Hs as [|? ? Hs' Hz]; subst.
  apply elem_of_cons in Hx as [->|Hx]; [|by eapply IH].
  eapply Forall_forall; [exact Hz|].
  by apply (subseteq_drop n l).
Qed.

(** ** Retention: keep some records unconditionally, the newest of the others

    The shape shared by the approval and the audit store: order by age, set the
    protected records apart, drop the oldest of the rest, restore the order of
    creation. *)

Lemma filter_Permutation_bool {A} (f : A -> bool) l k :
  l ≡ₚ k -> List.filter f l ≡ₚ List.filter f k.
Proof.
  induction 1 as [|x ? ? _ IH|x y ?|? ? ? _ IH1 _ IH2]; simpl; [done|..].
  - destruct (f x); by rewrite ?IH.
  - destruct (f x), (f y); by repeat constructor.
  - by rewrite IH1.
Qed.

(** [if len(l) > n { l = l[len(l)-n:] }] *)
Definition keep_last {A} (n : nat) (l : list A) : list A := drop (length l - n) l.

Section Retain.
Context {A : Type} (age creation : A -> Z) (keep : A -> bool).

Definition retain (n : nat) (l : list A) : list A :=
  let sorted := SliceStable (key_less age) l in
  let kept := List.filter keep sorted in
  let trimmable := List.filter (fun x => negb (keep x)) sorted in
  SliceStable (key_less creation) (kept ++ keep_last n trimmable).

Lemma filter_split l :
  List.filter keep l ++ List.filter (fun x => negb (keep x)) l ≡ₚ l.
Proof.
  induction l as [|x l IH]; simpl; [done|]. destruct (keep x); simpl.
  - by rewrite IH.
  - by rewrite <-Permutation_middle, IH.
Qed.

(** What [retain] drops, with the records it keeps, is the whole list. *)
Lemma retain_split n l :
  exists dropped,
    (retain n l ++ dropped) ≡ₚ l /\
    Forall (fun x => keep x = false) dropped /\
    length dropped = (length (List.filter (fun x => negb (keep x)) l) - n)%nat /\
    (forall x y, x ∈ dropped -> y ∈ retain n l -> keep y = false -> (age x <= age y)%Z).
Proof.
  set (sorted := SliceStable (key_less age) l).
  set (trimmable := List.filter (fun x => negb (keep x)) sorted).
  assert (Permutation trimmable (List.filter (fun x => negb (keep x)) l)) as HT.
  { apply filter_Permutation_bool, SliceStable_perm. }
  exists (take (length trimmable - n) trimmable). split_and!.
  - unfold retain. fold sorted. fold trimmable. rewrite SliceStable_perm.
    unfold keep_last. rewrite <-app_assoc, (Permutation_app_comm (drop _ _)), take_drop.
    unfold trimmable. rewrite filter_split. apply SliceStable_perm.
  - apply Forall_take, Forall_forall. intros x [_ Hx]%list_elem_of_In%filter_In.
    by apply negb_true_iff.
  - rewrite length_take, HT. lia.
  - intros x y Hx Hy Hk. unfold retain in Hy. fold sorted in Hy. fold trimmable in Hy.
    rewrite SliceStable_elem in Hy. apply elem_of_app in Hy as [Hy|Hy].
    { apply list_elem_of_In, filter_In in Hy as [_ Hy]. congruence. }
    eapply (StronglySorted_drop_split (key_le age)); [|exact Hx|exact Hy].
    assert (StronglySorted (key_le age) sorted) as Hs by apply SliceStable_ascending.
    unfold trimmable. clear -Hs. induction Hs as [|z l' Hs IH Hz]; simpl; [constructor|].
    destruct (negb (keep z)); [|done]. constructor; [done|].
    apply Forall_forall. intros u [Hu _]%list_elem_of_In%filter_In.
    eapply Forall_forall in Hz; [done|by apply list_elem_of_In].
Qed.

Lemma retain_elem n l x : x ∈ retain n l -> x ∈ l.
Proof.
  destruct (retain_split n l) as (k & HP & _). intros Hx. rewrite <-HP.
  apply elem_of_app. by left.
Qed.

Lemma retain_keep n l x : x ∈ l -> keep x = true -> x ∈ retain n l.
Proof.
  destruct (retain_split n l) as (k & HP & Hk & _). intros Hx Ht.
  assert (x ∈ retain n l ++ k) as [?|Hx']%elem_of_app by (by rewrite HP); [done|].
  eapply Forall_forall in Hk; [|exact Hx'].
  simpl in Hk. congruence.
Qed.

Lemma retain_length n l :
  length (retain n l) =
    length (List.filter keep l) + min n (length (List.filter (fun x => negb (keep x)) l)).
Proof.
  destruct (retain_split n l) as (k & HP & _ & Hk & _).
  apply Permutation_length in HP. rewrite length_app in HP.
  pose proof (Permutation_length (filter_split l)) as HL. rewrite length_app in HL. lia.
Qed.

Lemma retain_sorted n l : StronglySorted (key_le creation) (retain n l).
Proof. apply SliceStable_ascending. Qed.

Lemma retain_NoDup_fmap {B} (f : A -> B) n l : NoDup (f <$> l) -> NoDup (f <$> retain n l).
Proof.
  destruct (retain_split n l) as (k & HP & _). rewrite <-HP at 1. rewrite fmap_app.
  by intros [? _]%NoDup_app.
Qed.
End Retain.
#[export] Hint Resolve retain_keep : go.

(** ** Lemmas: decimal numbers *)

Lemma digit_value_char (d : N) : (d < 10)%N -> digit_value (pretty_N_char d) = Some (Z.of_N d).
Proof.
  intros. assert (d = 0 \/ d = 1 \/ d = 2 \/ d = 3 \/ d = 4 \/ d = 5 \/ d = 6 \/ d = 7 \/ d = 8 \/ d = 9)%N
    as Hd by lia.
  by repeat destruct Hd as [-> | Hd]; [..|subst].
Qed.

Lemma digits_value_pretty (x : N) s : exists k : nat, forall acc,
  digits_value acc (String.list_ascii_of_string (pretty_N_go x s))
  = digits_value (acc * 10 ^ Z.of_nat k + Z.of_N x) (String.list_ascii_of_string s).
Proof.
  revert s. induction (N.lt_wf_0 x) as [x _ IH]; intros s.
  destruct (decide (x = 0)%N) as [->|Hx].
  { exists 0%nat. intros acc. rewrite pretty_N_go_0. f_equal. lia. }
  rewrite pretty_N_go_step by lia.
  destruct (IH (x `div` 10)%N ltac:(apply N.div_lt; lia) (String (pretty_N_char (x `mod` 10)) s))
    as [k Hk].
  exists (S k). intros acc. rewrite Hk. cbn [String.list_ascii_of_string digits_value].
  rewrite digit_value_char by (by apply N.mod_lt). f_equal.
  rewrite Nat2Z.inj_succ, Z.pow_succ_r by lia.
  rewrite (N.div_mod x 10) at 3 by done. rewrite N2Z.inj_add, N2Z.inj_mul. lia.
Qed.

Lemma Atoi_digits s n :
  s <> ""%string -> digits_value 0 (String.list_ascii_of_string s) = Some n ->
  (min_int64 <= n <= max_int64)%Z -> Atoi s = Some n.
Proof.
  intros Hs Hn [H1 H2]. unfold Atoi.
  assert (in_int64 n = Some n) as Hin.
  { unfold in_int64. by rewrite (proj2 (Z.leb_le _ _) H1), (proj2 (Z.leb_le _ _) H2). }
  destruct s as [|[[] [] [] [] [] [] [] []] s]; [done|..]; simpl in Hn |- *; try done;
    rewrite Hn; exact Hin.
Qed.

(** [Atoi] reads back what [Itoa] wrote. *)
Lemma Atoi_pretty z : (0 <= z <= max_int64)%Z -> Atoi (pretty z) = Some z.
Proof.
  intros [H0 H1].
  assert (exists x, z = Z.of_N x /\ pretty z = pretty x) as (x & -> & ->).
  { destruct z as [|p|p]; [by exists 0%N|by exists (Npos p)|lia]. }
  unfold pretty, pretty_N. case_decide as Hx; [by subst|].
  destruct (digits_value_pretty x ""%string) as [k Hk].
  apply Atoi_digits; [|by rewrite Hk|unfold min_int64; lia].
  intros He. specialize (Hk 0%Z). rewrite He in Hk. simpl in Hk. injection Hk. lia.
Qed.
