(* ===== verification/Model.v ===== *)
(** * Shared data model (agent/model)

    The records of [agent/model/model.go] and [agent/model/pipeline.go] that the
    verified components read or write, with the derived accessors the code
    defines on them.  Enumerations are Go string types, so any string can occur
    and every [switch] keeps its default branch.  A Go map is [option (gmap ..)]
    where the code distinguishes the nil map, a pointer is an [option]. *)
From stdpp Require Import base list strings gmap.
From S2P Require Import Prelude.
Local Open Scope string_scope.

(** [interface{}] values as they come out of a JSON or YAML document.  A float64 that
    is not an integer is carried as the text [json.Marshal] gives it. *)
#[warnings="-register-all"]
Inductive any : Type :=
| ANil
| ABool (b : bool)
| AInt (z : Z)
| AFloat (text : string)
| AStr (s : string)
| AList (l : list any)
| AMap (m : list (string * any)).

(** ** Enumerations *)

Abbreviation DeployLocation := string (only parsing).
Definition LocationLocal : DeployLocation := "local".
Definition LocationRemote : DeployLocation := "remote".

Abbreviation RuntimeType := string (only parsing).
Definition RuntimeTypeCommand : RuntimeType := "command".
Definition RuntimeTypeLanguage : RuntimeType := "language".
Definition RuntimeTypeSystemd : RuntimeType := "systemd".
Definition RuntimeTypeLaunchd : RuntimeType := "launchd".
Definition RuntimeTypeDocker : RuntimeType := "docker".
Definition RuntimeTypeNginxStatic : RuntimeType := "nginx_static".
Definition RuntimeTypeExternal : RuntimeType := "external".

Abbreviation ControlMode := string (only parsing).
Definition ControlModeMonitor : ControlMode := "monitor".
Definition ControlModeManaged : ControlMode := "managed".

Abbreviation ServiceLanguage := string (only parsing).
Definition LanguageGo : ServiceLanguage := "go".
Definition LanguageNode : ServiceLanguage := "node".
Definition LanguagePython : ServiceLanguage := "python".
Definition LanguageJava : ServiceLanguage := "java".
Definition LanguageKotlin : ServiceLanguage := "kotlin".
Definition LanguageRust : ServiceLanguage := "rust".
Definition LanguageCpp : ServiceLanguage := "cpp".

(** [ServiceLanguage.Known] *)
Definition Known (l : ServiceLanguage) : bool :=
  bool_decide (l ∈ [LanguageGo; LanguageNode; LanguagePython;
                    LanguageJava; LanguageKotlin; LanguageRust; LanguageCpp]).

Abbreviation CodeDebugMode := string (only parsing).
Definition CodeDebugModeLaunch : CodeDebugMode := "launch".

Abbreviation CodeDebugPolicy := string (only parsing).
Definition CodeDebugPolicyAuto : CodeDebugPolicy := "auto".
Definition CodeDebugPolicyEnabled : CodeDebugPolicy := "enabled".
Definition CodeDebugPolicyDisabled : CodeDebugPolicy := "disabled".

(** [CodeDebugPolicy.Valid] *)
Definition Valid (p : CodeDebugPolicy) : bool :=
  bool_decide (p ∈ [""; CodeDebugPolicyAuto; CodeDebugPolicyEnabled; CodeDebugPolicyDisabled]).

(** [CodeDebugPolicy.Effective] *)
Definition Effective (p : CodeDebugPolicy) : CodeDebugPolicy :=
  if (p =? "")%string then CodeDebugPolicyAuto else p.

(** ** Deployments *)

Record RuntimeConfig : Type := {
  rc_Type : RuntimeType;
  rc_Command : string;
  rc_Executable : string;
  rc_Args : list string;
  rc_WorkingDir : string;
  rc_EnvFile : string;
  rc_EnvVars : option (gmap string string);
  rc_CWD : string;
  rc_Env : option (gmap string string);
  rc_Config : list (string * any);
  rc_ServiceName : string;
  rc_ReleaseDir : string;
  rc_CurrentDir : string;
  rc_ExecStart : string;
  rc_Label : string;
  rc_PlistPath : string;
  rc_Container : string;
  rc_Domain : string;
}.

Definition EffectiveCWD (r : RuntimeConfig) : string :=
  if negb (rc_CWD r =? "")%string then rc_CWD r else rc_WorkingDir r.

Definition EffectiveEnv (r : RuntimeConfig) : option (gmap string string) :=
  match rc_Env r with
  | Some e => Some e
  | None => rc_EnvVars r
  end.

Record LogConfig : Type := {
  lc_Type : string;
  lc_Target : string;
  lc_Path : string;
  lc_Command : string;
  lc_ExtraArgs : list string;
}.

Record WebReadinessConfig : Type := {
  wr_Type : string;
  wr_TimeoutSeconds : Z;
}.

Record WebAIDebugConfig : Type := {
  ai_Enabled : bool;
}.

Record WebEntrypointConfig : Type := {
  web_Enabled : bool;
  web_URL : string;
  web_DefaultPath : string;
  web_Readiness : WebReadinessConfig;
  web_AIDebug : WebAIDebugConfig;
}.

Record CodeDebugConfig : Type := {
  cd_Policy : CodeDebugPolicy;
  cd_Mode : CodeDebugMode;
  cd_AdapterCommand : string;
  cd_AdapterArgs : list string;
  cd_StopOnEntry : bool;
}.

Record ReadinessProbe : Type := {
  rp_Type : string;
  rp_Target : string;
  rp_TimeoutSeconds : Z;
}.

Record Deployment : Type := {
  dep_ID : string;
  dep_EnvName : string;
  dep_Location : DeployLocation;
  dep_ControlMode : ControlMode;
  dep_Runtime : option RuntimeConfig;
  dep_Logs : option LogConfig;
  dep_Web : option WebEntrypointConfig;
  dep_Ports : option (list Z);
  dep_CodeDebug : option CodeDebugConfig;
  dep_StartOnBoot : bool;
  dep_DependsOn : list string;
  dep_Readiness : option ReadinessProbe;
  dep_Command : string;
  dep_WorkDir : string;
  dep_EnvFile : string;
  dep_Env : option (gmap string string);
  dep_HostIDs : option (list string);
  dep_LogType : string;
  dep_LogTarget : string;
  dep_ExtraArgs : option (list string);
  dep_ReadOnly : bool;
  dep_StartCommand : string;
  dep_StopCommand : string;
  dep_Status : string;
  dep_PID : Z;
}.

Definition EffectiveControlMode (d : Deployment) : ControlMode :=
  if negb (dep_ControlMode d =? "")%string then dep_ControlMode d
  else if dep_ReadOnly d then ControlModeMonitor
  else ControlModeManaged.

Definition IsReadOnly (d : Deployment) : bool :=
  (EffectiveControlMode d =? ControlModeMonitor)%string.

Record Environment : Type := {
  env_ID : string;
  env_Name : string;
  env_IsDev : bool;
  env_Order : Z;
  env_AINote : string;
  env_AuthHint : string;
}.

(** The zero value [model.Environment{}]. *)
Definition Environment_zero : Environment :=
  {| env_ID := ""; env_Name := ""; env_IsDev := false; env_Order := 0;
     env_AINote := ""; env_AuthHint := "" |}.

(** ** Pipelines *)

Abbreviation PipelinePhase := string (only parsing).
Definition PhaseBuild : PipelinePhase := "build".
Definition PhaseDeploy : PipelinePhase := "deploy".
Definition PhaseFinally : PipelinePhase := "finally".

Record Step : Type := {
  step_Name : string;
  step_Type : string;
  step_Needs : list string;
  step_Roles : list string;
  step_RunIf : string;
  step_Concurrency : string;
  step_Retries : Z;
  step_RetryDelay : string;
  step_With : list (string * any);
}.

Record Pipeline : Type := {
  pl_Variables : gmap string string;
  pl_Roles : gmap string (list string);
  pl_Build : list Step;
  pl_Deploy : list Step;
  pl_Finally : list Step;
}.

Abbreviation RunStatus := string (only parsing).
Definition StatusPending : RunStatus := "pending".
Definition RunStatusRunning : RunStatus := "running".
Definition StatusSuccess : RunStatus := "success".
Definition RunStatusFailed : RunStatus := "failed".
Definition StatusSkipped : RunStatus := "skipped".
Definition StatusCanceled : RunStatus := "canceled".

Record Task : Type := {
  task_HostID : string;
  task_HostName : string;
  task_HostAddress : string;
  task_Status : RunStatus;
  task_ExitCode : Z;
  task_StartedAt : Z;
  task_FinishedAt : Z;
}.

Record StepRun : Type := {
  sr_StepName : string;
  sr_Type : string;
  sr_Phase : PipelinePhase;
  sr_Needs : list string;
  sr_Status : RunStatus;
  sr_Tasks : list Task;
}.

Record Run : Type := {
  run_ID : string;
  run_ProjectID : string;
  run_PipelineID : string;
  run_EnvName : string;
  run_DeploymentID : string;
  run_ArtifactVersion : string;
  run_Status : RunStatus;
  run_StepRuns : list StepRun;
  run_StartedAt : Z;
  run_FinishedAt : Z;
}.

Record HostRef : Type := {
  host_ID : string;
  host_Name : string;
  host_Address : string;
}.

(** A remote machine. *)
Record Host : Type := {
  hst_ID : string;
  hst_Name : string;
  hst_PublicIP : string;
  hst_PrivateIP : string;
  hst_Tags : list string;
  hst_SSHHost : string;
  hst_SSHPort : Z;
  hst_SSHUser : string;
  hst_SSHPassword : string;
  hst_SSHPrivateKey : string;
  hst_SSHHostKeyFingerprint : string;
  hst_DevMachineMode : bool;
  hst_PendingTunnelInvalidationRevision : string;
}.

Record ProjectPipelineRole : Type := {
  role_FromService : string;
  role_Hosts : list string;
  role_Environments : gmap string (list string);
}.

Record ProjectPipeline : Type := {
  pp_ID : string;
  pp_Name : string;
  pp_Services : list string;
  pp_ArtifactKind : string;
  pp_Variables : gmap string string;
  pp_Environments : gmap string (gmap string string);
  pp_Roles : gmap string ProjectPipelineRole;
  pp_SyncMode : string;
  pp_SyncCommand : string;
  pp_Pipeline : Pipeline;
}.

(** ** Services and projects *)

Record DebugCredential : Type := {
  dc_Name : string;
  dc_Value : string;
  dc_Desc : string;
}.

Record DebugCredentialHint : Type := {
  dch_Name : string;
  dch_Desc : string;
  dch_Source : string;
}.

Record Service : Type := {
  svc_ID : string;
  svc_ProjectID : string;
  svc_Name : string;
  svc_Required : bool;
  svc_Order : Z;
  svc_AINote : string;
  svc_AuthHint : string;
  svc_Language : ServiceLanguage;
  svc_Deployments : list Deployment;
  svc_DebugCredentials : list DebugCredential;
  svc_HasDebugCredentials : bool;
  svc_DebugCredentialHints : list DebugCredentialHint;
  svc_Status : string;
  svc_PID : Z;
}.

Record SuspectEntry : Type := {
  se_Scope : string;
  se_Service : string;
  se_Env : string;
  se_Key : string;
  se_Masked : string;
  se_Reason : string;
  se_Pipeline : string;
  se_Detail : string;
  se_WarnOnly : bool;
}.

(** [DataSourceBinding] is data of package [dbprovision] that no modelled
    operation reads; it is carried as the decoded document value. *)
Record Project : Type := {
  prj_ID : string;
  prj_Name : string;
  prj_RootPath : string;
  prj_ConfigFormat : string;
  prj_ConfigStaleLegacy : bool;
  prj_SharedSecretWarnings : list SuspectEntry;
  prj_Variables : option (gmap string string);
  prj_Environments : list Environment;
  prj_Services : list Service;
  prj_AINote : string;
  prj_AuthHint : string;
  prj_DebugCredentials : list DebugCredential;
  prj_HasDebugCredentials : bool;
  prj_DebugCredentialHints : list DebugCredentialHint;
  prj_Pipelines : list ProjectPipeline;
  prj_EnvSelectedServiceIDs : gmap string (list string);
  prj_HomeHostID : string;
  prj_HomeHostName : string;
  prj_DataSourceBinding : option any;
}.

(** [LogEntry]: a line, or a folded run of lines, of a deployment. *)
Record LogEntry : Type := mkLogEntry {
  log_ID : Z;
  log_DeploymentID : string;
  log_SourceID : string;
  log_RunID : string;
  log_Timestamp : time;
  log_Level : string;
  log_Message : string;
  log_Stream : string;
  log_RepeatCount : Z;
  log_FoldKey : string;
  log_Seq : Z;
  log_LastSeenAt : option time;
}.

(** ** Lemmas *)

Lemma IsReadOnly_spec d :
  IsReadOnly d = true <->
  dep_ControlMode d = ControlModeMonitor \/ (dep_ControlMode d = "" /\ dep_ReadOnly d = true).
Proof.
  unfold IsReadOnly, EffectiveControlMode. rewrite String.eqb_eq.
  destruct (String.eqb_spec (dep_ControlMode d) "") as [->|Hne]; simpl.
  - destruct (dep_ReadOnly d); naive_solver.
  - naive_solver.
Qed.

(** ** Small values, to run the development on examples *)

Definition example_deployment (id env location : string) (readOnly : bool) : Deployment :=
  {| dep_ID := id; dep_EnvName := env; dep_Location := location; dep_ControlMode := "";
     dep_Runtime := None; dep_Logs := None; dep_Web := None; dep_Ports := None;
     dep_CodeDebug := None; dep_StartOnBoot := false; dep_DependsOn := []; dep_Readiness := None;
     dep_Command := "make"; dep_WorkDir := ""; dep_EnvFile := ""; dep_Env := None;
     dep_HostIDs := None; dep_LogType := ""; dep_LogTarget := ""; dep_ExtraArgs := None;
     dep_ReadOnly := readOnly; dep_StartCommand := ""; dep_StopCommand := "";
     dep_Status := ""; dep_PID := 0 |}.

Definition example_service (id name : string) (deps : list Deployment) : Service :=
  {| svc_ID := id; svc_ProjectID := "p1"; svc_Name := name; svc_Required := false; svc_Order := 0;
     svc_AINote := ""; svc_AuthHint := ""; svc_Language := LanguageGo; svc_Deployments := deps;
     svc_DebugCredentials := []; svc_HasDebugCredentials := false;
     svc_DebugCredentialHints := []; svc_Status := ""; svc_PID := 0 |}.

Definition example_environment (id name : string) (isDev : bool) : Environment :=
  {| env_ID := id; env_Name := name; env_IsDev := isDev; env_Order := 0; env_AINote := "";
     env_AuthHint := "" |}.

Definition example_project (envs : list Environment) (services : list Service) : Project :=
  {| prj_ID := "p1"; prj_Name := "shop"; prj_RootPath := "/srv/shop"; prj_ConfigFormat := "";
     prj_ConfigStaleLegacy := false; prj_SharedSecretWarnings := []; prj_Variables := None;
     prj_Environments := envs; prj_Services := services; prj_AINote := ""; prj_AuthHint := "";
     prj_DebugCredentials := []; prj_HasDebugCredentials := false;
     prj_DebugCredentialHints := []; prj_Pipelines := []; prj_EnvSelectedServiceIDs := ∅;
     prj_HomeHostID := ""; prj_HomeHostName := ""; prj_DataSourceBinding := None |}.
