(* ===== verification/OperationTypes.v ===== *)
(** * Operation safety gate: data (agent/operation/types.go)

    Plans, approvals, audit events and grace grants with the constants and
    errors of the package, and the JSON values a fingerprint is computed from. *)
From stdpp Require Import base list strings gmap countable pretty.
From S2P Require Import Prelude Model.
Local Open Scope string_scope.

(** ** Constants *)

Definition OperationRuntimeStart := "runtime.start".
Definition OperationRuntimeStop := "runtime.stop".
Definition OperationRuntimeRestart := "runtime.restart".
Definition OperationRuntimeStartSelected := "runtime.start_selected".
Definition OperationBrowserDebugOpen := "browser_debug.open".
Definition OperationCodeDebugOpen := "code_debug.open".
Definition OperationCodeDebugEvaluate := "code_debug.evaluate".
Definition OperationTestDatabaseTerminate := "test_database.terminate_connections".
Definition OperationBrowserDebugControl := "browser_debug.control".
Definition OperationTemplateImport := "template.import".
Definition OperationConfigProjectUpsert := "config.project.upsert".
Definition OperationConfigServiceUpsert := "config.service.upsert".
Definition OperationConfigPipelineUpsert := "config.pipeline.upsert".
Definition OperationPipelineRun := "pipeline.run".
Definition OperationTunnelInvalidate := "tunnel.invalidate".
Definition KindPortMirrorStopOccupier := "port_mirror.stop_occupier".
Definition KindProjectTransfer := "project.transfer".
Definition KindAgentAdopt := "agent.adopt".

Definition RiskLow := "low".
Definition RiskMedium := "medium".
Definition RiskHigh := "high".
Definition RiskCritical := "critical".

Definition ApprovalPending := "pending".
Definition ApprovalApproved := "approved".
Definition ApprovalRejected := "rejected".
Definition ApprovalExpired := "expired".
Definition ApprovalUsed := "used".

Definition AuditApprovalRequired := "approval_required".
Definition AuditApproved := "approved".
Definition AuditRejected := "rejected".
Definition AuditPrepared := "prepared".
Definition AuditExecuted := "executed".
Definition AuditFailed := "failed".
Definition AuditApprovedByGrace := "approved_by_grace".
Definition AuditGraceGranted := "grace_granted".
Definition AuditApprovalProxied := "approval_proxied".

Definition DefaultPlanTTL : duration := (10 * minute)%Z.
Definition DefaultApprovalTTL : duration := (10 * minute)%Z.
Definition DefaultTokenTTL : duration := (5 * minute)%Z.

(** ** Errors; the last two are the wrapped I/O errors of [load] and [save] *)
Inductive error : Type :=
| ErrInvalidOperation
| ErrApprovalNotFound
| ErrApprovalRejected
| ErrApprovalExpired
| ErrApprovalTokenInvalid
| ErrApprovalTokenConsumed
| ErrApprovalAlreadyDecided
| ErrGraceRequiresProject
| ErrLoad
| ErrSave.

#[export] Instance error_eq_dec : EqDecision error.
Proof. solve_decision. Defined.

(** ** Records *)

Record Target : Type := {
  ProjectID : string;
  ProjectName : string;
  EnvName : string;
  ServiceID : string;
  ServiceName : string;
  DeploymentID : string;
  HostID : string;
  TemplatePath : string;
  TemplateDigest : string;
  PipelineID : string;
  ArtifactVersion : string;
  DebugSessionID : string;
  RequestOrigin : string;
  PairingCode : string;
}.

(** The zero value [Target{}]. *)
Definition Target_zero : Target :=
  {| ProjectID := ""; ProjectName := ""; EnvName := ""; ServiceID := "";
     ServiceName := ""; DeploymentID := ""; HostID := ""; TemplatePath := "";
     TemplateDigest := ""; PipelineID := ""; ArtifactVersion := "";
     DebugSessionID := ""; RequestOrigin := ""; PairingCode := "" |}.

Record Check : Type := mkCheck {
  chk_Name : string;
  chk_Status : string;
  chk_Message : string;
}.

Record Plan : Type := {
  plan_ID : string;
  plan_Kind : string;
  plan_Target : Target;
  plan_TargetSummary : string;
  plan_RiskLevel : string;
  plan_RequiresApproval : bool;
  plan_Denied : bool;
  plan_Reasons : list string;
  plan_ExpectedEffects : list string;
  plan_Checks : list Check;
  plan_Fingerprint : string;
  plan_CreatedAt : time;
  plan_ExpiresAt : time;
}.

Record TemplateSummary : Type := {
  ts_Source : string;
  ts_ID : string;
  ts_Name : string;
  ts_Version : string;
  ts_Digest : string;
}.

Record TemplateImportRequest : Type := {
  tir_Path : string;
  tir_Digest : string;
  tir_Summary : TemplateSummary;
}.

Record CodeDebugEvaluateRequest : Type := {
  cder_ProjectID : string;
  cder_ProjectName : string;
  cder_DeploymentID : string;
  cder_DebugSessionID : string;
  cder_ExpressionHash : string;
}.

Record TunnelInvalidationRequest : Type := {
  tnl_HostID : string;
  tnl_Trigger : string;
  tnl_ChangedFields : list string;
}.

Record Approval : Type := {
  app_ID : string;
  app_Plan : Plan;
  app_Status : string;
  app_RequestedBy : string;
  app_RequesterLabel : string;
  app_CreatedAt : time;
  app_UpdatedAt : time;
  app_ExpiresAt : time;
  app_DecidedAt : option time;
  app_DecidedBy : string;
  app_DecisionNote : string;
  app_TokenHash : string;
  app_TokenIssuedAt : option time;
  app_TokenExpiresAt : option time;
  app_OriginHostID : string;
}.

Record AuditEvent : Type := {
  ev_ID : string;
  ev_Kind : string;
  ev_Action : string;
  ev_ApprovalID : string;
  ev_Plan : Plan;
  ev_Summary : string;
  ev_Data : list (string * any);
  ev_CreatedAt : time;
}.

Record GraceGrant : Type := {
  gr_ProjectID : string;
  gr_GrantedBy : string;
  gr_GrantedFrom : string;
  gr_CreatedAt : time;
  gr_ExpiresAt : time;
}.

Record ApprovalFilter : Type := {
  af_Status : string;
  af_ProjectID : string;
  af_Limit : Z;
}.

Record AuditFilter : Type := {
  uf_ProjectID : string;
  uf_Kind : string;
  uf_ApprovalID : string;
  uf_Since : time;
  uf_Limit : Z;
}.

Definition trim (s : string) : string := TrimSpace s.

(** ** What a fingerprint is computed from

    [stableFingerprint] and [tokenHash] apply SHA-256 to a JSON document.  The
    document is a [json] value and the digest is an operation of the class
    below; a client that needs collision resistance asks for [Inj]. *)
#[warnings="-register-all"]
Inductive json : Type :=
| JBool (b : bool)
| JInt (z : Z)
| JStr (s : string)
| JRaw (text : string)   (** null, and numbers that are not integers *)
| JArr (l : list json)
| JObj (m : list (string * json)).

Class Digest : Type := {
  json_digest : json -> string;    (** hex(sha256(json.Marshal(v))) *)
  bytes_digest : string -> string; (** hex(sha256([]byte(s))) *)
}.

Class CollisionFree (D : Digest) : Prop := {
  json_digest_inj :: Inj (=) (=) (@json_digest D);
  bytes_digest_inj :: Inj (=) (=) (@bytes_digest D);
  bytes_digest_nonempty : forall s, @bytes_digest D s <> "";
}.

Definition stableFingerprint `{Digest} (parts : json) : string :=
  "sha256:" ++ json_digest parts.

(** [json.Marshal] of a Go map: the keys come out sorted.  Strings are taken to
    be valid UTF-8, as every decoded document gives them. *)
Definition json_map (m : list (string * json)) : json :=
  JObj (SliceStable (fun a b => String.ltb a.1 b.1) m).

Definition tokenHash `{Digest} (token : string) : string :=
  "sha256:" ++ bytes_digest token.

(** A struct field with the [omitempty] option. *)
Definition omitempty (name value : string) : list (string * json) :=
  if (value =? "")%string then [] else [(name, JStr value)].

(** [json.Marshal] of a [Target]: the struct tags of [types.go]. *)
Definition target_json (t : Target) : json :=
  JObj (omitempty "project_id" (ProjectID t) ++
        omitempty "project_name" (ProjectName t) ++
        omitempty "env_name" (EnvName t) ++
        omitempty "service_id" (ServiceID t) ++
        omitempty "service_name" (ServiceName t) ++
        omitempty "deployment_id" (DeploymentID t) ++
        omitempty "host_id" (HostID t) ++
        omitempty "template_path" (TemplatePath t) ++
        omitempty "template_digest" (TemplateDigest t) ++
        omitempty "pipeline_id" (PipelineID t) ++
        omitempty "artifact_version" (ArtifactVersion t) ++
        omitempty "debug_session_id" (DebugSessionID t) ++
        omitempty "request_origin" (RequestOrigin t) ++
        omitempty "pairing_code" (PairingCode t)).

Definition strings_json (l : list string) : json := JArr (JStr <$> l).

(** ** Lemmas *)

Lemma tokenHash_nonempty `{Digest} t : tokenHash t <> "".
Proof. done. Qed.

Lemma tokenHash_inj {D : Digest} `{!CollisionFree D} t u : tokenHash t = tokenHash u -> t = u.
Proof. unfold tokenHash. intros ?. by simplify_eq/=. Qed.

Lemma stableFingerprint_inj {D : Digest} `{!CollisionFree D} a b :
  stableFingerprint a = stableFingerprint b -> a = b.
Proof. unfold stableFingerprint. intros ?. by simplify_eq/=. Qed.

Lemma strings_json_inj l k : strings_json l = strings_json k -> l = k.
Proof.
  unfold strings_json. intros [= H]. revert k H.
  induction l as [|x l IH]; intros [|y k] H; simplify_eq/=; [done|].
  f_equal. by apply IH.
Qed.

(** Dropping empty fields loses nothing: absent means empty. *)
Lemma omitempty_app_inj n v w r s :
  (forall x, (n, JStr x) ∉ r) -> (forall x, (n, JStr x) ∉ s) ->
  (omitempty n v ++ r = omitempty n w ++ s)%list -> v = w /\ r = s.
Proof.
  unfold omitempty. intros Hr Hs.
  destruct (String.eqb_spec v "") as [->|], (String.eqb_spec w "") as [->|];
    simpl; intros E.
  - done.
  - exfalso. apply (Hr w). rewrite E. left.
  - exfalso. apply (Hs v). rewrite <-E. left.
  - by simplify_eq.
Qed.

Lemma omitempty_notin n m v (r : list (string * json)) :
  n <> m -> (forall x, (n, JStr x) ∉ r) -> forall x, (n, JStr x) ∉ (omitempty m v ++ r)%list.
Proof.
  intros Hne Hr x [Hx|Hx]%elem_of_app; [|by apply (Hr x)].
  unfold omitempty in Hx. destruct (v =? "")%string.
  - by apply elem_of_nil in Hx.
  - apply list_elem_of_singleton in Hx. congruence.
Qed.

Ltac solve_omitempty_notin :=
  repeat (apply omitempty_notin; [discriminate|]);
  try (intros ? Hnil; by apply elem_of_nil in Hnil).

Lemma target_json_inj t u : target_json t = target_json u -> t = u.
Proof.
  unfold target_json. intros [= H].
  rewrite <-(app_nil_r (omitempty "pairing_code" (PairingCode t))) in H.
  rewrite <-(app_nil_r (omitempty "pairing_code" (PairingCode u))) in H.
  repeat (apply omitempty_app_inj in H; [destruct H as [? H]|solve_omitempty_notin..]).
  destruct t, u; simpl in *; by subst.
Qed.
#[export] Hint Resolve tokenHash_inj stableFingerprint_inj strings_json_inj target_json_inj : go.

(** ** A concrete collision-free digest, to run the development on examples *)

Section JsonInd.
Context (P : json -> Prop).
Context (PBool : forall b, P (JBool b)) (PInt : forall z, P (JInt z))
  (PStr : forall s, P (JStr s)) (PRaw : forall s, P (JRaw s)) (PArr : forall l, Forall P l -> P (JArr l))
  (PObj : forall m, Forall (fun kv => P kv.2) m -> P (JObj m)).

Fixpoint json_nested_ind (j : json) : P j :=
  match j with
  | JBool b => PBool b
  | JInt z => PInt z
  | JStr s => PStr s
  | JRaw s => PRaw s
  | JArr l => PArr l ((fix go l := match l return Forall P l with
      | [] => Forall_nil_2 _
      | x :: l => Forall_cons_2 _ _ _ (json_nested_ind x) (go l)
      end) l)
  | JObj m => PObj m ((fix go m := match m return Forall (fun kv => P kv.2) m with
      | [] => Forall_nil_2 _
      | kv :: m => Forall_cons_2 _ _ _ (json_nested_ind kv.2) (go m)
      end) m)
  end.
End JsonInd.

Definition json_leaf : Type := bool + Z + string.

Fixpoint json_tree (j : json) : gen_tree json_leaf :=
  match j with
  | JBool b => GenLeaf (inl (inl b))
  | JInt z => GenLeaf (inl (inr z))
  | JStr s => GenLeaf (inr s)
  | JRaw s => GenNode 2 [GenLeaf (inr s)]
  | JArr l => GenNode 0 (json_tree <$> l)
  | JObj m => GenNode 1 ((fun kv => GenNode 0 [GenLeaf (inr kv.1); json_tree kv.2]) <$> m)
  end.

Lemma json_tree_inj : Inj (=) (=) json_tree.
Proof.
  intros j. induction j as [b|z|s|s|l IH|m IH] using json_nested_ind;
    intros [| | | |l'|m'] H; simplify_eq/=; try done.
  - f_equal. revert l' H. induction IH as [|x l Hx _ IHl]; intros [|y l'] H;
      simplify_eq/=; [done|]. f_equal; auto.
  - f_equal. revert m' H. induction IH as [|[k x] m Hx _ IHm]; intros [|[k' y] m'] H;
      simplify_eq/=; [done|]. f_equal; [f_equal; by apply Hx|by apply IHm].
Qed.

#[export] Instance json_eq_dec : EqDecision json.
Proof.
  intros a b. destruct (decide (json_tree a = json_tree b)) as [H|H].
  - left. by apply json_tree_inj.
  - right. congruence.
Defined.

Definition identity_digest : Digest :=
  {| json_digest := fun j => pretty (Npos (encode (json_tree j)));
     bytes_digest := fun s => "#" ++ s |}.

Lemma identity_digest_collision_free : CollisionFree identity_digest.
Proof.
  split; simpl; [|intros ?? H; by injection H|done].
  intros a b H. apply json_tree_inj. by simplify_eq.
Qed.
