(* ===== verification/OperationPolicy.v ===== *)
(** * Operation safety gate: planning (agent/operation/policy.go)

    Every planner of the file, in its order: what a write operation would do,
    whether it is denied, whether it needs an approval, and the fingerprint a
    later approval token is bound to. *)
From stdpp Require Import base list strings gmap pretty.
From S2P Require Import Prelude Model OperationTypes.
Local Open Scope string_scope.

Record RuntimeDeploymentTarget : Type := {
  rdt_Service : Service;
  rdt_Deployment : Deployment;
}.

Definition effectiveDeployLocation (dep : Deployment) : DeployLocation :=
  if (dep_Location dep =? "")%string then LocationLocal else dep_Location dep.

Fixpoint find_env (envs : list Environment) (envName : string) : option Environment :=
  match envs with
  | [] => None
  | env :: envs' => if (env_Name env =? envName)%string then Some env else find_env envs' envName
  end.

(** Returns the environment and its [IsDev] mark; the zero value when absent. *)
Definition findEnvironment (project : Project) (envName : string) : Environment * bool :=
  match find_env (prj_Environments project) envName with
  | Some env => (env, env_IsDev env)
  | None => (Environment_zero, false)
  end.

Definition envIsDev (project : Project) (envName : string) : bool :=
  match find_env (prj_Environments project) envName with
  | Some env => env_IsDev env
  | None => false
  end.

Definition runtimeVerb (kind : string) : string :=
  if (kind =? OperationRuntimeStart)%string then "start"
  else if (kind =? OperationRuntimeStop)%string then "stop"
  else if (kind =? OperationRuntimeRestart)%string then "restart"
  else "operate".

(** The mutable [plan] of a planner: the assignments of the policy part. *)
Definition require_high (reason : string) (p : Plan) : Plan :=
  {| plan_ID := plan_ID p; plan_Kind := plan_Kind p; plan_Target := plan_Target p;
     plan_TargetSummary := plan_TargetSummary p; plan_RiskLevel := RiskHigh;
     plan_RequiresApproval := true; plan_Denied := plan_Denied p;
     plan_Reasons := (plan_Reasons p ++ [reason])%list;
     plan_ExpectedEffects := plan_ExpectedEffects p; plan_Checks := plan_Checks p;
     plan_Fingerprint := plan_Fingerprint p; plan_CreatedAt := plan_CreatedAt p;
     plan_ExpiresAt := plan_ExpiresAt p |}.

Definition deny_critical (reason : string) (p : Plan) : Plan :=
  {| plan_ID := plan_ID p; plan_Kind := plan_Kind p; plan_Target := plan_Target p;
     plan_TargetSummary := plan_TargetSummary p; plan_RiskLevel := RiskCritical;
     plan_RequiresApproval := plan_RequiresApproval p; plan_Denied := true;
     plan_Reasons := (plan_Reasons p ++ [reason])%list;
     plan_ExpectedEffects := plan_ExpectedEffects p; plan_Checks := plan_Checks p;
     plan_Fingerprint := plan_Fingerprint p; plan_CreatedAt := plan_CreatedAt p;
     plan_ExpiresAt := plan_ExpiresAt p |}.

Definition allow_low (p : Plan) : Plan :=
  {| plan_ID := plan_ID p; plan_Kind := plan_Kind p; plan_Target := plan_Target p;
     plan_TargetSummary := plan_TargetSummary p; plan_RiskLevel := RiskLow;
     plan_RequiresApproval := false; plan_Denied := plan_Denied p;
     plan_Reasons := plan_Reasons p;
     plan_ExpectedEffects := plan_ExpectedEffects p; plan_Checks := plan_Checks p;
     plan_Fingerprint := plan_Fingerprint p; plan_CreatedAt := plan_CreatedAt p;
     plan_ExpiresAt := plan_ExpiresAt p |}.

Definition with_fingerprint (fp : string) (p : Plan) : Plan :=
  {| plan_ID := plan_ID p; plan_Kind := plan_Kind p; plan_Target := plan_Target p;
     plan_TargetSummary := plan_TargetSummary p; plan_RiskLevel := plan_RiskLevel p;
     plan_RequiresApproval := plan_RequiresApproval p; plan_Denied := plan_Denied p;
     plan_Reasons := plan_Reasons p;
     plan_ExpectedEffects := plan_ExpectedEffects p; plan_Checks := plan_Checks p;
     plan_Fingerprint := fp; plan_CreatedAt := plan_CreatedAt p;
     plan_ExpiresAt := plan_ExpiresAt p |}.

Definition when (b : bool) (f : Plan -> Plan) (p : Plan) : Plan := if b then f p else p.

Section Policy.
Context {D : Digest}.

(** What a fingerprint of a runtime plan covers. *)
Definition runtime_parts (p : Plan) : json :=
  json_map [("kind", JStr (plan_Kind p)); ("target", target_json (plan_Target p));
        ("expected_effects", strings_json (plan_ExpectedEffects p));
        ("denied", JBool (plan_Denied p))].

Definition PlanTestDatabaseTerminate (w : World) (projectID template : string)
    (count : Z) (detail : string) : Plan :=
  let now := w_now w in
  let summary := "断开开发库 " ++ template ++ " 上的 " ++ pretty count ++
                 " 个活跃连接以克隆临时库" in
  {| plan_ID := w_id w;
     plan_Kind := OperationTestDatabaseTerminate;
     plan_Target := {| ProjectID := projectID; ProjectName := ""; EnvName := "";
       ServiceID := ""; ServiceName := ""; DeploymentID := ""; HostID := "";
       TemplatePath := ""; TemplateDigest := ""; PipelineID := ""; ArtifactVersion := "";
       DebugSessionID := ""; RequestOrigin := ""; PairingCode := "" |};
     plan_TargetSummary := summary;
     plan_RiskLevel := RiskMedium;
     plan_RequiresApproval := true;
     plan_Denied := false;
     plan_Reasons := [];
     plan_ExpectedEffects := [summary];
     plan_Checks := if (detail =? "")%string then []
                    else [mkCheck "active_connections" "warning" detail];
     plan_Fingerprint := stableFingerprint
       (json_map [("kind", JStr OperationTestDatabaseTerminate); ("project", JStr projectID);
              ("template", JStr template); ("count", JInt count); ("detail", JStr detail)]);
     plan_CreatedAt := now;
     plan_ExpiresAt := time_add now DefaultPlanTTL |}.

(** The loop of [PlanTunnelInvalidation] over the changed fields. *)
Fixpoint normalize_fields (seen : list string) (fields : list string) : list string :=
  match fields with
  | [] => []
  | field :: rest =>
      let field := trim field in
      if (field =? "")%string then normalize_fields seen rest
      else if bool_decide (field ∈ seen) then normalize_fields seen rest
      else field :: normalize_fields (field :: seen) rest
  end.

Definition PlanTunnelInvalidation (w : World) (req : TunnelInvalidationRequest)
    : result error Plan :=
  let hostID := trim (tnl_HostID req) in
  let trigger := trim (tnl_Trigger req) in
  let changedFields := normalize_fields [] (tnl_ChangedFields req) in
  if (hostID =? "")%string || (trigger =? "")%string || (length changedFields =? 0)%nat
  then Err ErrInvalidOperation
  else
    let changedFields := sort_strings changedFields in
    let now := w_now w in
    let target := {| ProjectID := ""; ProjectName := ""; EnvName := "";
       ServiceID := ""; ServiceName := ""; DeploymentID := ""; HostID := hostID;
       TemplatePath := ""; TemplateDigest := ""; PipelineID := ""; ArtifactVersion := "";
       DebugSessionID := ""; RequestOrigin := ""; PairingCode := "" |} in
    Ok {| plan_ID := w_id w;
          plan_Kind := OperationTunnelInvalidate;
          plan_Target := target;
          plan_TargetSummary := "stale tunnel runtime on host " ++ hostID;
          plan_RiskLevel := RiskLow;
          plan_RequiresApproval := false;
          plan_Denied := false;
          plan_Reasons := [];
          plan_ExpectedEffects :=
            ["disconnect stale tunnel runtime and clear cached host-key evidence"];
          plan_Checks := [mkCheck "prepared_audit_required" "passed"
            "connection target mutation is gated on durable prepared audit"];
          plan_Fingerprint := stableFingerprint
            (json_map [("kind", JStr OperationTunnelInvalidate); ("target", target_json target);
                   ("trigger", JStr trigger); ("changed_fields", strings_json changedFields)]);
          plan_CreatedAt := now;
          plan_ExpiresAt := time_add now DefaultPlanTTL |}.

Definition deployment_target (project : Project) (service : Service) (dep : Deployment)
    : Target :=
  {| ProjectID := prj_ID project; ProjectName := prj_Name project;
     EnvName := dep_EnvName dep; ServiceID := svc_ID service;
     ServiceName := svc_Name service; DeploymentID := dep_ID dep; HostID := "";
     TemplatePath := ""; TemplateDigest := ""; PipelineID := ""; ArtifactVersion := "";
     DebugSessionID := ""; RequestOrigin := ""; PairingCode := "" |}.

Definition effect_location (location : DeployLocation) : string :=
  if (location =? LocationRemote)%string then "remote" else "local".

Definition PlanRuntime (w : World) (kind : string) (project : Project)
    (service : Service) (dep : Deployment) : result error Plan :=
  if negb (kind =? OperationRuntimeStart)%string &&
     negb (kind =? OperationRuntimeStop)%string &&
     negb (kind =? OperationRuntimeRestart)%string
  then Err ErrInvalidOperation
  else
    let now := w_now w in
    let '(env, isDev) := findEnvironment project (dep_EnvName dep) in
    let location := effectiveDeployLocation dep in
    let plan :=
      {| plan_ID := w_id w;
         plan_Kind := kind;
         plan_Target := deployment_target project service dep;
         plan_TargetSummary :=
           prj_Name project ++ "/" ++ dep_EnvName dep ++ "/" ++ svc_Name service;
         plan_RiskLevel := RiskLow;
         plan_RequiresApproval := false;
         plan_Denied := false;
         plan_Reasons := [];
         plan_ExpectedEffects :=
           [runtimeVerb kind ++ " " ++ effect_location location ++ " deployment " ++ dep_ID dep];
         plan_Checks := [mkCheck "target_resolved" "passed" "deployment target resolved by agent"];
         plan_Fingerprint := "";
         plan_CreatedAt := now;
         plan_ExpiresAt := time_add now DefaultPlanTTL |} in
    let plan := when (env_Name env =? "")%string
                  (require_high "environment definition not found") plan in
    let plan := when (IsReadOnly dep) (deny_critical "deployment is read-only") plan in
    let plan := when ((location =? LocationRemote)%string && negb (plan_Denied plan))
                  (require_high "remote deployment control requires approval") plan in
    let plan := when ((location =? LocationLocal)%string && negb isDev && negb (plan_Denied plan))
                  (require_high "environment is not marked as dev") plan in
    let plan := when ((location =? LocationLocal)%string && isDev && negb (plan_Denied plan))
                  allow_low plan in
    Ok (with_fingerprint (stableFingerprint (runtime_parts plan)) plan).

Definition PlanRuntimeOnHost (w : World) (kind : string) (project : Project)
    (service : Service) (dep : Deployment) (hostID : string) : result error Plan :=
  let hostID := trim hostID in
  if (hostID =? "")%string || negb (effectiveDeployLocation dep =? LocationRemote)%string
  then Err ErrInvalidOperation
  else
    match PlanRuntime w kind project service dep with
    | Err e => Err e
    | Ok plan =>
        let t := plan_Target plan in
        let plan :=
          {| plan_ID := plan_ID plan;
             plan_Kind := plan_Kind plan;
             plan_Target :=
               {| ProjectID := ProjectID t; ProjectName := ProjectName t;
                  EnvName := EnvName t; ServiceID := ServiceID t;
                  ServiceName := ServiceName t; DeploymentID := DeploymentID t;
                  HostID := hostID; TemplatePath := TemplatePath t;
                  TemplateDigest := TemplateDigest t; PipelineID := PipelineID t;
                  ArtifactVersion := ArtifactVersion t; DebugSessionID := DebugSessionID t;
                  RequestOrigin := RequestOrigin t; PairingCode := PairingCode t |};
             plan_TargetSummary := prj_Name project ++ "/" ++ dep_EnvName dep ++ "/" ++
               svc_Name service ++ " on " ++ hostID;
             plan_RiskLevel := plan_RiskLevel plan;
             plan_RequiresApproval := plan_RequiresApproval plan;
             plan_Denied := plan_Denied plan;
             plan_Reasons := plan_Reasons plan;
             plan_ExpectedEffects := [runtimeVerb kind ++ " remote deployment " ++
               dep_ID dep ++ " on host " ++ hostID];
             plan_Checks := plan_Checks plan;
             plan_Fingerprint := plan_Fingerprint plan;
             plan_CreatedAt := plan_CreatedAt plan;
             plan_ExpiresAt := plan_ExpiresAt plan |} in
        Ok (with_fingerprint (stableFingerprint (runtime_parts plan)) plan)
    end.

(** The loop of [PlanRuntimeStartSelected]: denials, effects and ids. *)
Record selected_acc : Type := {
  sa_plan : Plan;
  sa_ids : list string;
  sa_effects : list string;
  sa_remote : bool;
}.

Definition selected_step (envName : string) (acc : selected_acc)
    (item : RuntimeDeploymentTarget) : selected_acc :=
  let dep := rdt_Deployment item in
  let location := effectiveDeployLocation dep in
  let plan := when (negb (dep_EnvName dep =? envName)%string)
    (deny_critical ("deployment " ++ dep_ID dep ++ " is not in environment " ++ envName))
    (sa_plan acc) in
  let plan := when (IsReadOnly dep)
    (deny_critical ("deployment " ++ dep_ID dep ++ " is read-only")) plan in
  {| sa_plan := plan;
     sa_ids := (sa_ids acc ++ [dep_ID dep])%list;
     sa_effects := app (sa_effects acc)
       ["start " ++ effect_location location ++ " deployment " ++ dep_ID dep];
     sa_remote := sa_remote acc || (location =? LocationRemote)%string |}.

Definition with_effects (effects : list string) (p : Plan) : Plan :=
  {| plan_ID := plan_ID p; plan_Kind := plan_Kind p; plan_Target := plan_Target p;
     plan_TargetSummary := plan_TargetSummary p; plan_RiskLevel := plan_RiskLevel p;
     plan_RequiresApproval := plan_RequiresApproval p; plan_Denied := plan_Denied p;
     plan_Reasons := plan_Reasons p; plan_ExpectedEffects := effects;
     plan_Checks := plan_Checks p; plan_Fingerprint := plan_Fingerprint p;
     plan_CreatedAt := plan_CreatedAt p; plan_ExpiresAt := plan_ExpiresAt p |}.

Definition PlanRuntimeStartSelected (w : World) (project : Project) (envName : string)
    (targets : list RuntimeDeploymentTarget) : result error Plan :=
  let envName := trim envName in
  if (envName =? "")%string || (length targets =? 0)%nat then Err ErrInvalidOperation
  else
    let now := w_now w in
    let '(env, isDev) := findEnvironment project envName in
    let plan :=
      {| plan_ID := w_id w;
         plan_Kind := OperationRuntimeStartSelected;
         plan_Target :=
           {| ProjectID := prj_ID project; ProjectName := prj_Name project;
              EnvName := envName; ServiceID := ""; ServiceName := ""; DeploymentID := "";
              HostID := ""; TemplatePath := ""; TemplateDigest := ""; PipelineID := "";
              ArtifactVersion := ""; DebugSessionID := ""; RequestOrigin := "";
              PairingCode := "" |};
         plan_TargetSummary := prj_Name project ++ "/" ++ envName ++ " selected services";
         plan_RiskLevel := RiskLow;
         plan_RequiresApproval := false;
         plan_Denied := false;
         plan_Reasons := [];
         plan_ExpectedEffects := [];
         plan_Checks := [mkCheck "target_resolved" "passed"
           (pretty (Z.of_nat (length targets)) ++ " deployment target(s) resolved by agent")];
         plan_Fingerprint := "";
         plan_CreatedAt := now;
         plan_ExpiresAt := time_add now DefaultPlanTTL |} in
    let acc := foldl (selected_step envName)
      {| sa_plan := plan; sa_ids := []; sa_effects := []; sa_remote := false |} targets in
    let deploymentIDs := sort_strings (sa_ids acc) in
    let plan := with_effects (sort_strings (sa_effects acc)) (sa_plan acc) in
    let plan := when (env_Name env =? "")%string
                  (require_high "environment definition not found") plan in
    let plan := when (negb (plan_Denied plan) && sa_remote acc)
                  (require_high "remote deployment control requires approval") plan in
    let plan := when (negb (plan_Denied plan) && negb isDev)
                  (require_high "environment is not marked as dev") plan in
    let plan := when (negb (plan_Denied plan) && isDev && negb (sa_remote acc))
                  allow_low plan in
    Ok (with_fingerprint (stableFingerprint
          (json_map [("kind", JStr (plan_Kind plan)); ("target", target_json (plan_Target plan));
                 ("deployment_ids", strings_json deploymentIDs);
                 ("expected_effects", strings_json (plan_ExpectedEffects plan));
                 ("denied", JBool (plan_Denied plan))])) plan).

Definition PlanBrowserDebugOpen (w : World) (project : Project) (service : Service)
    (dep : Deployment) (targetURL : string) : result error Plan :=
  let targetURL := trim targetURL in
  if (dep_ID dep =? "")%string || (targetURL =? "")%string then Err ErrInvalidOperation
  else
    let now := w_now w in
    let plan :=
      {| plan_ID := w_id w;
         plan_Kind := OperationBrowserDebugOpen;
         plan_Target := deployment_target project service dep;
         plan_TargetSummary :=
           prj_Name project ++ "/" ++ dep_EnvName dep ++ "/" ++ svc_Name service;
         plan_RiskLevel := RiskMedium;
         plan_RequiresApproval := true;
         plan_Denied := false;
         plan_Reasons := [];
         plan_ExpectedEffects := ["open debug browser for " ++ targetURL];
         plan_Checks := [mkCheck "target_resolved" "passed"
           "local frontend target resolved by agent"];
         plan_Fingerprint := "";
         plan_CreatedAt := now;
         plan_ExpiresAt := time_add now DefaultPlanTTL |} in
    let plan := when (negb (effectiveDeployLocation dep =? LocationLocal)%string)
      (deny_critical "browser debug v1 supports local deployments only") plan in
    Ok (with_fingerprint (stableFingerprint
          (json_map [("kind", JStr (plan_Kind plan)); ("target", target_json (plan_Target plan));
                 ("target_url", JStr targetURL);
                 ("expected_effects", strings_json (plan_ExpectedEffects plan));
                 ("denied", JBool (plan_Denied plan))])) plan).

Definition codeDebugRuntimeType (dep : Deployment) : RuntimeType :=
  match dep_Runtime dep with
  | Some r => if (rc_Type r =? "")%string then RuntimeTypeCommand else rc_Type r
  | None => RuntimeTypeCommand
  end.

Definition codeDebugRuntimeSupported (dep : Deployment) : bool :=
  (codeDebugRuntimeType dep =? RuntimeTypeLanguage)%string.

(** The reason to refuse code debugging; the empty string allows it. *)
Definition codeDebugDeniedReason (project : Project) (dep : Deployment)
    (lang : ServiceLanguage) : string :=
  if negb (effectiveDeployLocation dep =? LocationLocal)%string ||
     negb (EffectiveControlMode dep =? ControlModeManaged)%string ||
     negb (codeDebugRuntimeSupported dep)
  then "code debug supports local managed language runtime deployments only"
  else
    let policy := match dep_CodeDebug dep with
                  | Some c => Effective (cd_Policy c)
                  | None => CodeDebugPolicyAuto
                  end in
    if (policy =? CodeDebugPolicyDisabled)%string
    then "code debug is disabled for this deployment"
    else if negb (Known lang) then "service language does not support code debug"
    else if (policy =? CodeDebugPolicyEnabled)%string then ""
    else if negb (envIsDev project (dep_EnvName dep))
    then "code debug is only available in dev environments by default"
    else "".

Definition PlanCodeDebugOpen (w : World) (project : Project) (service : Service)
    (dep : Deployment) (lang : ServiceLanguage) : result error Plan :=
  if (dep_ID dep =? "")%string then Err ErrInvalidOperation
  else
    let effectProvider := if (lang =? "")%string then "configured" else lang in
    let now := w_now w in
    let plan :=
      {| plan_ID := w_id w;
         plan_Kind := OperationCodeDebugOpen;
         plan_Target := deployment_target project service dep;
         plan_TargetSummary :=
           prj_Name project ++ "/" ++ dep_EnvName dep ++ "/" ++ svc_Name service;
         plan_RiskLevel := RiskMedium;
         plan_RequiresApproval := true;
         plan_Denied := false;
         plan_Reasons := [];
         plan_ExpectedEffects := ["launch " ++ effectProvider ++
           " code debug session for deployment " ++ dep_ID dep];
         plan_Checks := [mkCheck "target_resolved" "passed"
           "local code debug target resolved by agent"];
         plan_Fingerprint := "";
         plan_CreatedAt := now;
         plan_ExpiresAt := time_add now DefaultPlanTTL |} in
    let reason := codeDebugDeniedReason project dep lang in
    let plan := when (negb (reason =? "")%string) (deny_critical reason) plan in
    Ok (with_fingerprint (stableFingerprint
          (json_map [("kind", JStr (plan_Kind plan)); ("target", target_json (plan_Target plan));
                 ("language", JStr lang);
                 ("expected_effects", strings_json (plan_ExpectedEffects plan));
                 ("denied", JBool (plan_Denied plan))])) plan).

Definition PlanCodeDebugEvaluate (w : World) (req : CodeDebugEvaluateRequest)
    : result error Plan :=
  let projectID := trim (cder_ProjectID req) in
  let projectName := trim (cder_ProjectName req) in
  let deploymentID := trim (cder_DeploymentID req) in
  let debugSessionID := trim (cder_DebugSessionID req) in
  let expressionHash := trim (cder_ExpressionHash req) in
  if (debugSessionID =? "")%string || (expressionHash =? "")%string
  then Err ErrInvalidOperation
  else
    let now := w_now w in
    let target :=
      {| ProjectID := projectID; ProjectName := projectName; EnvName := "";
         ServiceID := ""; ServiceName := ""; DeploymentID := deploymentID; HostID := "";
         TemplatePath := ""; TemplateDigest := ""; PipelineID := ""; ArtifactVersion := "";
         DebugSessionID := debugSessionID; RequestOrigin := ""; PairingCode := "" |} in
    let effects := ["evaluate expression in code debug session " ++ debugSessionID] in
    Ok {| plan_ID := w_id w;
          plan_Kind := OperationCodeDebugEvaluate;
          plan_Target := target;
          plan_TargetSummary := "code debug session " ++ debugSessionID;
          plan_RiskLevel := RiskHigh;
          plan_RequiresApproval := true;
          plan_Denied := false;
          plan_Reasons := [];
          plan_ExpectedEffects := effects;
          plan_Checks := [mkCheck "expression_hashed" "passed"
            "evaluate expression is represented by hash only"];
          plan_Fingerprint := stableFingerprint
            (json_map [("kind", JStr OperationCodeDebugEvaluate); ("target", target_json target);
                   ("expression_hash", JStr expressionHash);
                   ("expected_effects", strings_json effects)]);
          plan_CreatedAt := now;
          plan_ExpiresAt := time_add now DefaultPlanTTL |}.

Definition PlanTemplateImport (w : World) (req : TemplateImportRequest)
    : result error Plan :=
  let path := trim (tir_Path req) in
  let digest := trim (tir_Digest req) in
  if (path =? "")%string || (digest =? "")%string then Err ErrInvalidOperation
  else
    let now := w_now w in
    let summary := tir_Summary req in
    let target :=
      {| ProjectID := ""; ProjectName := ""; EnvName := "";
         ServiceID := ""; ServiceName := ""; DeploymentID := ""; HostID := "";
         TemplatePath := path; TemplateDigest := digest; PipelineID := "";
         ArtifactVersion := ""; DebugSessionID := ""; RequestOrigin := "";
         PairingCode := "" |} in
    let effects := ["import user pipeline template " ++ ts_ID summary ++ "@" ++
                    ts_Version summary] in
    Ok {| plan_ID := w_id w;
          plan_Kind := OperationTemplateImport;
          plan_Target := target;
          plan_TargetSummary := ts_ID summary ++ "@" ++ ts_Version summary ++
            " from " ++ path;
          plan_RiskLevel := RiskMedium;
          plan_RequiresApproval := true;
          plan_Denied := false;
          plan_Reasons := [];
          plan_ExpectedEffects := effects;
          plan_Checks := [mkCheck "template_preview" "passed"
            "template preview succeeded before import"];
          plan_Fingerprint := stableFingerprint
            (json_map [("kind", JStr OperationTemplateImport); ("target", target_json target);
                   ("expected_effects", strings_json effects)]);
          plan_CreatedAt := now;
          plan_ExpiresAt := time_add now DefaultPlanTTL |}.

Definition PlanPipelineRun (w : World) (project : Project) (pipelineID envName : string)
    (isRollback : bool) (artifactVersion : string) : result error Plan :=
  let pipelineID := trim pipelineID in
  if (pipelineID =? "")%string then Err ErrInvalidOperation
  else
    let now := w_now w in
    let verb := if isRollback then "rollback" else "deploy" in
    let target :=
      {| ProjectID := prj_ID project; ProjectName := prj_Name project;
         EnvName := trim envName; ServiceID := ""; ServiceName := ""; DeploymentID := "";
         HostID := ""; TemplatePath := ""; TemplateDigest := ""; PipelineID := pipelineID;
         ArtifactVersion := trim artifactVersion; DebugSessionID := "";
         RequestOrigin := ""; PairingCode := "" |} in
    let effects := [verb ++ " pipeline " ++ pipelineID ++ " in " ++ trim envName] in
    Ok {| plan_ID := w_id w;
          plan_Kind := OperationPipelineRun;
          plan_Target := target;
          plan_TargetSummary := prj_Name project ++ "/" ++ trim envName ++ " pipeline " ++
            pipelineID ++ " (" ++ verb ++ ")";
          plan_RiskLevel := RiskHigh;
          plan_RequiresApproval := true;
          plan_Denied := false;
          plan_Reasons := [];
          plan_ExpectedEffects := effects;
          plan_Checks := [mkCheck "target_resolved" "passed"
            "pipeline target resolved by agent"];
          plan_Fingerprint := stableFingerprint
            (json_map [("kind", JStr OperationPipelineRun); ("target", target_json target);
                   ("expected_effects", strings_json effects);
                   ("is_rollback", JBool isRollback);
                   ("artifact_version", JStr (trim artifactVersion))]);
          plan_CreatedAt := now;
          plan_ExpiresAt := time_add now DefaultPlanTTL |}.

(** The fingerprint is the adoption request id itself, not a digest. *)
Definition PlanAgentAdopt (w : World) (requestID name origin pairingCode : string)
    : result error Plan :=
  let requestID := trim requestID in
  if (requestID =? "")%string then Err ErrInvalidOperation
  else
    let name := if (trim name =? "")%string then "控制面" else trim name in
    let origin := if (trim origin =? "")%string then "unknown" else trim origin in
    let pairingCode := trim pairingCode in
    let now := w_now w in
    Ok {| plan_ID := w_id w;
          plan_Kind := KindAgentAdopt;
          plan_Target :=
            {| ProjectID := ""; ProjectName := ""; EnvName := "";
               ServiceID := ""; ServiceName := ""; DeploymentID := ""; HostID := "";
               TemplatePath := ""; TemplateDigest := ""; PipelineID := "";
               ArtifactVersion := ""; DebugSessionID := ""; RequestOrigin := origin;
               PairingCode := pairingCode |};
          plan_TargetSummary := "adopt request from " ++ origin ++ " (pairing code " ++
            pairingCode ++ ", self-reported name: " ++ name ++ ")";
          plan_RiskLevel := RiskHigh;
          plan_RequiresApproval := true;
          plan_Denied := false;
          plan_Reasons := [];
          plan_ExpectedEffects :=
            ["issue independent long-term credential to control plane at " ++ origin ++
             " (self-reported name: " ++ name ++ ")"];
          plan_Checks := [mkCheck "adoption_request_pending" "passed"
            "adoption request awaiting approval"];
          plan_Fingerprint := requestID;
          plan_CreatedAt := now;
          plan_ExpiresAt := time_add now DefaultPlanTTL |}.
End Policy.

(** ** Conditional updates of a plan, projection by projection *)

Section When.
Context (b : bool) (r fp : string) (p : Plan).
Lemma denied_require_high : plan_Denied (when b (require_high r) p) = plan_Denied p.
Proof. by destruct b. Qed.
Lemma denied_allow_low : plan_Denied (when b allow_low p) = plan_Denied p.
Proof. by destruct b. Qed.
Lemma denied_deny_critical : plan_Denied (when b (deny_critical r) p) = b || plan_Denied p.
Proof. by destruct b. Qed.
Lemma requires_require_high :
  plan_RequiresApproval (when b (require_high r) p) = b || plan_RequiresApproval p.
Proof. by destruct b. Qed.
Lemma requires_allow_low :
  plan_RequiresApproval (when b allow_low p) = negb b && plan_RequiresApproval p.
Proof. by destruct b. Qed.
Lemma requires_deny_critical :
  plan_RequiresApproval (when b (deny_critical r) p) = plan_RequiresApproval p.
Proof. by destruct b. Qed.
Lemma risk_require_high :
  plan_RiskLevel (when b (require_high r) p) = if b then RiskHigh else plan_RiskLevel p.
Proof. by destruct b. Qed.
Lemma risk_allow_low :
  plan_RiskLevel (when b allow_low p) = if b then RiskLow else plan_RiskLevel p.
Proof. by destruct b. Qed.
Lemma risk_deny_critical :
  plan_RiskLevel (when b (deny_critical r) p) = if b then RiskCritical else plan_RiskLevel p.
Proof. by destruct b. Qed.
Lemma kind_require_high : plan_Kind (when b (require_high r) p) = plan_Kind p.
Proof. by destruct b. Qed.
Lemma kind_deny_critical : plan_Kind (when b (deny_critical r) p) = plan_Kind p.
Proof. by destruct b. Qed.
Lemma kind_allow_low : plan_Kind (when b allow_low p) = plan_Kind p.
Proof. by destruct b. Qed.
Lemma target_require_high : plan_Target (when b (require_high r) p) = plan_Target p.
Proof. by destruct b. Qed.
Lemma target_deny_critical : plan_Target (when b (deny_critical r) p) = plan_Target p.
Proof. by destruct b. Qed.
Lemma target_allow_low : plan_Target (when b allow_low p) = plan_Target p.
Proof. by destruct b. Qed.
Lemma effects_require_high :
  plan_ExpectedEffects (when b (require_high r) p) = plan_ExpectedEffects p.
Proof. by destruct b. Qed.
Lemma effects_deny_critical :
  plan_ExpectedEffects (when b (deny_critical r) p) = plan_ExpectedEffects p.
Proof. by destruct b. Qed.
Lemma effects_allow_low : plan_ExpectedEffects (when b allow_low p) = plan_ExpectedEffects p.
Proof. by destruct b. Qed.
End When.

Create Rewrite HintDb when.
#[export] Hint Rewrite denied_require_high denied_allow_low denied_deny_critical
  requires_require_high requires_allow_low requires_deny_critical
  risk_require_high risk_allow_low risk_deny_critical
  kind_require_high kind_deny_critical kind_allow_low
  target_require_high target_deny_critical target_allow_low
  effects_require_high effects_deny_critical effects_allow_low : when.

(** ** Policy of a single runtime operation *)

Lemma findEnvironment_isDev project envName :
  (findEnvironment project envName).2 = envIsDev project envName.
Proof. unfold findEnvironment, envIsDev. by destruct (find_env _ _). Qed.

Lemma find_env_name envs envName env :
  find_env envs envName = Some env -> env_Name env = envName /\ env ∈ envs.
Proof.
  induction envs as [|e envs IH]; intros H; simplify_eq/=.
  destruct (String.eqb_spec (env_Name e) envName); simplify_eq.
  - split; [done|left].
  - destruct (IH H). split; [done|by right].
Qed.

(** The environment is undefined, or it is the one without a name. *)
Definition envUndefined (project : Project) (envName : string) : bool :=
  (env_Name (findEnvironment project envName).1 =? "")%string.

Lemma envUndefined_spec project envName :
  envUndefined project envName = true <->
  find_env (prj_Environments project) envName = None \/ envName = "".
Proof.
  unfold envUndefined, findEnvironment. destruct (find_env _ _) as [e|] eqn:E; simpl.
  - apply find_env_name in E as [-> _]. rewrite String.eqb_eq. naive_solver.
  - naive_solver.
Qed.

(** Closed form of the plan: the chain of conditional updates, evaluated. *)
Definition runtime_requires (dep : Deployment) (undefined isDev : bool) : bool :=
  let location := effectiveDeployLocation dep in
  if IsReadOnly dep then undefined
  else if (location =? LocationRemote)%string then true
  else if (location =? LocationLocal)%string then negb isDev
  else undefined.

Definition runtime_risk (dep : Deployment) (undefined isDev : bool) : string :=
  let location := effectiveDeployLocation dep in
  if IsReadOnly dep then RiskCritical
  else if (location =? LocationRemote)%string then RiskHigh
  else if (location =? LocationLocal)%string then (if isDev then RiskLow else RiskHigh)
  else if undefined then RiskHigh else RiskLow.

Section PolicyFacts.
Context {D : Digest}.

Lemma PlanRuntime_inv w kind project service dep p :
  PlanRuntime w kind project service dep = Ok p ->
  plan_Kind p = kind /\ plan_Target p = deployment_target project service dep /\
  plan_ExpectedEffects p =
    [runtimeVerb kind ++ " " ++ effect_location (effectiveDeployLocation dep) ++
     " deployment " ++ dep_ID dep] /\
  plan_Denied p = IsReadOnly dep /\
  plan_RequiresApproval p =
    runtime_requires dep (envUndefined project (dep_EnvName dep))
      (envIsDev project (dep_EnvName dep)) /\
  plan_RiskLevel p =
    runtime_risk dep (envUndefined project (dep_EnvName dep))
      (envIsDev project (dep_EnvName dep)) /\
  plan_Fingerprint p = stableFingerprint (runtime_parts p).
Proof.
  unfold PlanRuntime, runtime_requires, runtime_risk, envUndefined.
  rewrite <-findEnvironment_isDev.
  destruct (findEnvironment project (dep_EnvName dep)) as [env isDev].
  destruct (negb _ && negb _ && negb _); [done|]. cbv beta iota zeta.
  intros H. injection H as <-. unfold with_fingerprint, runtime_parts.
  cbn [plan_Kind plan_Target plan_RequiresApproval plan_Denied plan_RiskLevel
       plan_ExpectedEffects plan_Fingerprint fst snd].
  autorewrite with when.
  cbn [plan_Kind plan_Target plan_RequiresApproval plan_Denied plan_RiskLevel
       plan_ExpectedEffects plan_Fingerprint].
  split_and!; try reflexivity; [by rewrite orb_false_r|..];
    destruct (env_Name env =? "")%string, (IsReadOnly dep), isDev;
    destruct (String.eqb_spec (effectiveDeployLocation dep) LocationRemote) as [->|];
    try destruct (effectiveDeployLocation dep =? LocationLocal)%string; reflexivity.
Qed.

Lemma PlanRuntime_total w kind project service dep :
  kind ∈ [OperationRuntimeStart; OperationRuntimeStop; OperationRuntimeRestart] ->
  exists p, PlanRuntime w kind project service dep = Ok p.
Proof.
  intros Hk. unfold PlanRuntime.
  destruct (findEnvironment project (dep_EnvName dep)) as [env isDev].
  rewrite !elem_of_cons, elem_of_nil in Hk.
  by destruct Hk as [->|[->|[->|[]]]]; eexists.
Qed.

(** The complete policy of [PlanRuntime]: a monitor-only deployment is
    denied whatever its environment; a remote one always needs an approval; a
    local one needs one exactly outside a dev environment. *)
Theorem PlanRuntime_policy w kind project service dep p :
  PlanRuntime w kind project service dep = Ok p ->
  plan_Denied p = IsReadOnly dep /\
  (IsReadOnly dep = true -> plan_RiskLevel p = RiskCritical) /\
  (IsReadOnly dep = false -> effectiveDeployLocation dep = LocationRemote ->
     plan_RequiresApproval p = true /\ plan_RiskLevel p = RiskHigh) /\
  (IsReadOnly dep = false -> effectiveDeployLocation dep = LocationLocal ->
     plan_RequiresApproval p = negb (envIsDev project (dep_EnvName dep)) /\
     plan_RiskLevel p = if envIsDev project (dep_EnvName dep) then RiskLow else RiskHigh).
Proof.
  intros (_ & _ & _ & -> & -> & -> & _)%PlanRuntime_inv.
  unfold runtime_requires, runtime_risk.
  split_and!; [done|by intros ->|intros -> ->; done|intros -> ->; done].
Qed.

(** A location that is neither local nor remote escapes the policy: in any
    defined environment, dev or not, the operation is neither denied nor
    subject to an approval. *)
Theorem PlanRuntime_unknown_location w kind project service dep p :
  PlanRuntime w kind project service dep = Ok p ->
  IsReadOnly dep = false ->
  effectiveDeployLocation dep <> LocationLocal ->
  effectiveDeployLocation dep <> LocationRemote ->
  dep_EnvName dep <> "" ->
  is_Some (find_env (prj_Environments project) (dep_EnvName dep)) ->
  plan_Denied p = false /\ plan_RequiresApproval p = false /\ plan_RiskLevel p = RiskLow.
Proof.
  intros (_ & _ & _ & -> & -> & -> & _)%PlanRuntime_inv Hro Hl Hr He [env Henv].
  unfold runtime_requires, runtime_risk. rewrite Hro.
  apply String.eqb_neq in Hl. apply String.eqb_neq in Hr. rewrite Hl, Hr.
  destruct (envUndefined _ _) eqn:E; [|done].
  apply envUndefined_spec in E as [?|?]; congruence.
Qed.

(** An approval token of one runtime plan can only serve a plan with the
    same operation, target, effect and denial; and planning again at another
    time gives the same fingerprint, so an approval stays usable. *)
Theorem PlanRuntime_fingerprint {HD : CollisionFree D}
    w w' k k' prj prj' svc svc' dep dep' p p' :
  PlanRuntime w k prj svc dep = Ok p ->
  PlanRuntime w' k' prj' svc' dep' = Ok p' ->
  plan_Fingerprint p = plan_Fingerprint p' <->
  k = k' /\ deployment_target prj svc dep = deployment_target prj' svc' dep' /\
  plan_ExpectedEffects p = plan_ExpectedEffects p' /\ IsReadOnly dep = IsReadOnly dep'.
Proof.
  intros (Hk & Ht & _ & Hd & _ & _ & ->)%PlanRuntime_inv
         (Hk' & Ht' & _ & Hd' & _ & _ & ->)%PlanRuntime_inv.
  rewrite <-Ht, <-Ht', <-Hd, <-Hd', <-Hk, <-Hk'. split.
  - intros [= E1 E2 E3 E4]%stableFingerprint_inj.
    split_and!; [done| |by apply strings_json_inj; unfold strings_json; f_equal|done].
    apply target_json_inj. unfold target_json. by f_equal.
  - intros (E1 & E2 & E3 & E4). unfold runtime_parts. by rewrite E1, E2, E3, E4.
Qed.
End PolicyFacts.

(** ** Policy of a batch start *)

Section SelectedFacts.
Context {D : Digest}.

Definition target_foreign (envName : string) (t : RuntimeDeploymentTarget) : bool :=
  negb (dep_EnvName (rdt_Deployment t) =? envName)%string || IsReadOnly (rdt_Deployment t).

Definition target_remote (t : RuntimeDeploymentTarget) : bool :=
  (effectiveDeployLocation (rdt_Deployment t) =? LocationRemote)%string.

Definition target_effect (t : RuntimeDeploymentTarget) : string :=
  "start " ++ effect_location (effectiveDeployLocation (rdt_Deployment t)) ++
  " deployment " ++ dep_ID (rdt_Deployment t).

Lemma selected_fold envName targets acc :
  let acc' := foldl (selected_step envName) acc targets in
  sa_ids acc' = (sa_ids acc ++ (dep_ID ∘ rdt_Deployment <$> targets))%list /\
  sa_effects acc' = (sa_effects acc ++ (target_effect <$> targets))%list /\
  sa_remote acc' = sa_remote acc || existsb target_remote targets /\
  plan_Kind (sa_plan acc') = plan_Kind (sa_plan acc) /\
  plan_Target (sa_plan acc') = plan_Target (sa_plan acc) /\
  plan_RequiresApproval (sa_plan acc') = plan_RequiresApproval (sa_plan acc) /\
  plan_Denied (sa_plan acc') =
    plan_Denied (sa_plan acc) || existsb (target_foreign envName) targets /\
  plan_RiskLevel (sa_plan acc') =
    if existsb (target_foreign envName) targets then RiskCritical
    else plan_RiskLevel (sa_plan acc).
Proof.
  revert acc; induction targets as [|t ts IH]; intros acc; simpl.
  { rewrite !app_nil_r, !orb_false_r. done. }
  destruct (IH (selected_step envName acc t)) as (E1 & E2 & E3 & E4 & E5 & E6 & E7 & E8).
  rewrite E1, E2, E3, E4, E5, E6, E7, E8. simpl. rewrite <-!app_assoc, !orb_assoc.
  unfold target_foreign.
  destruct (negb _), (IsReadOnly _); simpl; rewrite ?orb_true_r, ?orb_false_r;
    split_and!; try done; destruct (existsb (λ t, _) ts); reflexivity.
Qed.

Lemma existsb_perm {A} (f : A -> bool) l k : l ≡ₚ k -> existsb f l = existsb f k.
Proof.
  induction 1 as [|x l k _ IH|x y l|l1 l2 l3 _ IH1 _ IH2]; simpl; [done|..].
  - by rewrite IH.
  - by destruct (f x), (f y).
  - by rewrite IH1.
Qed.

(** What a successful batch plan is, field by field. *)
Lemma PlanRuntimeStartSelected_inv w project envName targets p :
  PlanRuntimeStartSelected w project envName targets = Ok p ->
  let env := trim envName in
  let isDev := envIsDev project env in
  let remote := existsb target_remote targets in
  let effects := sort_strings (target_effect <$> targets) in
  env <> "" /\ targets <> [] /\
  plan_Denied p = existsb (target_foreign env) targets /\
  plan_RequiresApproval p =
    (if plan_Denied p then envUndefined project env else remote || negb isDev) /\
  plan_RiskLevel p =
    (if plan_Denied p then (if envUndefined project env then RiskHigh else RiskCritical)
     else if remote || negb isDev then RiskHigh else RiskLow) /\
  plan_ExpectedEffects p = effects /\
  plan_Fingerprint p = stableFingerprint
    (json_map [("kind", JStr OperationRuntimeStartSelected);
           ("target", target_json (plan_Target p));
           ("deployment_ids", strings_json (sort_strings (dep_ID ∘ rdt_Deployment <$> targets)));
           ("expected_effects", strings_json effects);
           ("denied", JBool (plan_Denied p))]) /\
  ProjectID (plan_Target p) = prj_ID project /\
  ProjectName (plan_Target p) = prj_Name project /\ EnvName (plan_Target p) = env /\
  plan_Target p =
    {| ProjectID := prj_ID project; ProjectName := prj_Name project;
       EnvName := env; ServiceID := ""; ServiceName := ""; DeploymentID := "";
       HostID := ""; TemplatePath := ""; TemplateDigest := ""; PipelineID := "";
       ArtifactVersion := ""; DebugSessionID := ""; RequestOrigin := "";
       PairingCode := "" |}.
Proof.
  unfold PlanRuntimeStartSelected, envUndefined. set (env := trim envName).
  rewrite <-(findEnvironment_isDev project env).
  destruct (String.eqb_spec env "") as [|Hne]; [done|].
  destruct targets as [|t ts]; [done|]. set (targets := t :: ts). simpl (length _ =? 0)%nat.
  destruct (findEnvironment project env) as [e isDev]. cbv beta iota zeta.
  match goal with |- context [foldl _ ?a targets] =>
    pose proof (selected_fold env targets a) as (E1 & E2 & E3 & E4 & E5 & E6 & E7 & E8);
    set (acc := foldl _ a targets) in *; clearbody acc end.
  cbn [sa_ids sa_effects sa_remote sa_plan app orb plan_Kind plan_Target
       plan_RequiresApproval plan_Denied plan_RiskLevel] in E1, E2, E3, E4, E5, E6, E7, E8.
  intros H. injection H as <-.
  unfold with_fingerprint.
  cbn [plan_Kind plan_Target plan_RequiresApproval plan_Denied plan_RiskLevel
       plan_ExpectedEffects plan_Fingerprint].
  autorewrite with when. unfold with_effects.
  cbn [plan_Kind plan_Target plan_RequiresApproval plan_Denied plan_RiskLevel
       plan_ExpectedEffects plan_Fingerprint fst snd].
  rewrite E1, E2, E3, E4, E5, E6, E7, E8.
  cbn [ProjectID ProjectName EnvName].
  split_and!; try reflexivity; [done|done| |];
    destruct (existsb (target_foreign env) targets), (existsb target_remote targets),
      isDev, (env_Name e =? "")%string; reflexivity.
Qed.

(** A batch start is denied exactly when some target is read-only or
    belongs to another environment; otherwise it runs without approval only
    when every target is not remote and the environment is a dev one. *)
Theorem PlanRuntimeStartSelected_policy w project envName targets p :
  PlanRuntimeStartSelected w project envName targets = Ok p ->
  (plan_Denied p = true <-> exists t, t ∈ targets /\
     (dep_EnvName (rdt_Deployment t) <> trim envName \/ IsReadOnly (rdt_Deployment t) = true)) /\
  (plan_Denied p = false -> plan_RequiresApproval p = false ->
     envIsDev project (trim envName) = true /\
     forall t, t ∈ targets -> effectiveDeployLocation (rdt_Deployment t) <> LocationRemote).
Proof.
  intros (_ & _ & Hd & Hr & _)%PlanRuntimeStartSelected_inv. split.
  - rewrite Hd, existsb_exists. setoid_rewrite list_elem_of_In.
    unfold target_foreign. setoid_rewrite orb_true_iff.
    setoid_rewrite negb_true_iff. setoid_rewrite String.eqb_neq. done.
  - intros Hd' Hr'. rewrite Hd' in Hr. rewrite Hr' in Hr. symmetry in Hr.
    apply orb_false_iff in Hr as [Hrem Hdev]. split; [by apply negb_false_iff|].
    intros t Ht He. assert (existsb target_remote targets = true) as Hx; [|congruence].
    apply existsb_exists. exists t. split; [by apply list_elem_of_In|].
    unfold target_remote. by rewrite He.
Qed.

(** The fingerprint of a batch start does not depend on the order in which
    the targets are listed, so an approval survives a reordering. *)
Theorem PlanRuntimeStartSelected_order w w' project envName targets targets' p p' :
  targets ≡ₚ targets' ->
  PlanRuntimeStartSelected w project envName targets = Ok p ->
  PlanRuntimeStartSelected w' project envName targets' = Ok p' ->
  plan_Fingerprint p = plan_Fingerprint p' /\ plan_Denied p = plan_Denied p' /\
  plan_RequiresApproval p = plan_RequiresApproval p'.
Proof.
  intros HP.
  intros (_ & _ & Hd & Hr & _ & _ & Hf & _ & _ & _ & Ht)%PlanRuntimeStartSelected_inv
         (_ & _ & Hd' & Hr' & _ & _ & Hf' & _ & _ & _ & Ht')%PlanRuntimeStartSelected_inv.
  assert (plan_Denied p = plan_Denied p') as Heq.
  { rewrite Hd, Hd'. by apply existsb_perm. }
  split_and!; [|done|].
  - rewrite Hf, Hf', Ht, Ht', Heq.
    rewrite (sort_strings_perm_eq (target_effect <$> targets) (target_effect <$> targets'))
      by by apply fmap_Permutation.
    rewrite (sort_strings_perm_eq (dep_ID ∘ rdt_Deployment <$> targets)
      (dep_ID ∘ rdt_Deployment <$> targets')) by by apply fmap_Permutation.
    done.
  - rewrite Hr, Hr', Heq. by rewrite (existsb_perm _ _ _ HP).
Qed.
End SelectedFacts.

(** ** Examples *)

Section Examples.
Local Instance policy_digest : Digest := identity_digest.
Local Instance policy_collision_free : CollisionFree policy_digest :=
  identity_digest_collision_free.

Definition policy_world (now : time) : World := mkWorld now "op_1" "" true SaveOk.

Definition example_shop : Project :=
  example_project [example_environment "e1" "dev" true; example_environment "e2" "prod" false]
    [example_service "s1" "web"
       [example_deployment "d1" "dev" "local" false; example_deployment "d2" "prod" "local" false;
        example_deployment "d3" "prod" "cloud" false; example_deployment "d4" "dev" "" false]].

Definition example_web : Service := example_service "s1" "web" [].

Lemma PlanRuntime_policy_witness :
  exists p, PlanRuntime (policy_world 1) OperationRuntimeStop example_shop example_web
              (example_deployment "d2" "prod" "local" false) = Ok p /\
            plan_RequiresApproval p = true /\ plan_RiskLevel p = RiskHigh.
Proof.
  edestruct (PlanRuntime_total (policy_world 1) OperationRuntimeStop example_shop example_web
    (example_deployment "d2" "prod" "local" false)) as [p Hp]; [right; left|].
  exists p. split; [exact Hp|].
  destruct (PlanRuntime_policy _ _ _ _ _ _ Hp) as (_ & _ & _ & H).
  destruct (H eq_refl eq_refl) as [H1 H2]. split; [exact H1|exact H2].
Defined.

Lemma PlanRuntime_unknown_location_witness :
  exists p, PlanRuntime (policy_world 1) OperationRuntimeStop example_shop example_web
              (example_deployment "d3" "prod" "cloud" false) = Ok p /\
            plan_RequiresApproval p = false /\ envIsDev example_shop "prod" = false.
Proof.
  edestruct (PlanRuntime_total (policy_world 1) OperationRuntimeStop example_shop example_web
    (example_deployment "d3" "prod" "cloud" false)) as [p Hp]; [right; left|].
  exists p. split; [exact Hp|].
  destruct (PlanRuntime_unknown_location _ _ _ _ _ _ Hp) as (_ & H & _);
    [reflexivity|discriminate|discriminate|discriminate|by eexists|].
  split; [exact H|reflexivity].
Defined.

Lemma PlanRuntime_fingerprint_witness :
  let d := example_deployment "d2" "prod" "local" false in
  exists p p', PlanRuntime (policy_world 1) OperationRuntimeStart example_shop example_web d = Ok p /\
    PlanRuntime (policy_world 99) OperationRuntimeStop example_shop example_web d = Ok p' /\
    plan_Fingerprint p <> plan_Fingerprint p'.
Proof.
  intros d.
  edestruct (PlanRuntime_total (policy_world 1) OperationRuntimeStart example_shop example_web d)
    as [p Hp]; [left|].
  edestruct (PlanRuntime_total (policy_world 99) OperationRuntimeStop example_shop example_web d)
    as [p' Hp']; [right; left|].
  exists p, p'. split; [exact Hp|split; [exact Hp'|]].
  intros [Hk _]%(PlanRuntime_fingerprint _ _ _ _ _ _ _ _ _ _ _ _ Hp Hp'). discriminate.
Defined.

Definition example_targets : list RuntimeDeploymentTarget :=
  [{| rdt_Service := example_web; rdt_Deployment := example_deployment "d1" "dev" "local" false |};
   {| rdt_Service := example_web; rdt_Deployment := example_deployment "d4" "dev" "" false |}].

Lemma PlanRuntimeStartSelected_policy_witness :
  exists p, PlanRuntimeStartSelected (policy_world 1) example_shop " dev " example_targets = Ok p /\
    plan_RequiresApproval p = false /\ envIsDev example_shop (trim " dev ") = true.
Proof.
  eexists. split; [unfold PlanRuntimeStartSelected; reflexivity|].
  edestruct (PlanRuntimeStartSelected_policy (policy_world 1) example_shop " dev " example_targets)
    as [_ H]; [unfold PlanRuntimeStartSelected; reflexivity|].
  split; [reflexivity|]. by apply H.
Defined.

Lemma PlanRuntimeStartSelected_order_witness :
  exists p p',
    PlanRuntimeStartSelected (policy_world 1) example_shop "dev" example_targets = Ok p /\
    PlanRuntimeStartSelected (policy_world 2) example_shop "dev" (rev example_targets) = Ok p' /\
    plan_Fingerprint p = plan_Fingerprint p'.
Proof.
  eexists _, _. split; [unfold PlanRuntimeStartSelected; reflexivity|].
  split; [unfold PlanRuntimeStartSelected; reflexivity|].
  apply (PlanRuntimeStartSelected_order (policy_world 1) (policy_world 2) example_shop "dev"
    example_targets (rev example_targets)); [apply perm_swap|reflexivity|reflexivity].
Defined.
End Examples.
