(* ===== verification/ApprovalProtocol.v ===== *)
(** * Operation safety gate: what the approval store promises

    A history is the list of the events the store acknowledged, newest first.
    [legal] is the abstract protocol; [Reach] runs the store of
    [ApprovalStore] from an absent file under any interleaving of calls, any
    clock and any I/O failure.  Random identifiers and tokens are new. *)
From stdpp Require Import base list strings gmap relations pretty.
From S2P Require Import Prelude Model OperationTypes ApprovalStore.
Local Open Scope string_scope.

(** ** The abstract protocol *)

Inductive event : Type :=
| Created (id fingerprint : string) (t : time)
| Decided (id status decidedBy : string) (t : time)
| Issued (id token : string) (t : time)
| Consumed (token id fingerprint : string) (t : time).

Definition event_id (e : event) : string :=
  match e with
  | Created id _ _ | Decided id _ _ _ | Issued id _ _ | Consumed _ id _ _ => id
  end.

(** The token issued last for an approval, with the time of issue. *)
Fixpoint last_token (h : list event) (id : string) : option (string * time) :=
  match h with
  | [] => None
  | Issued id' tok t :: h' => if (id' =? id)%string then Some (tok, t) else last_token h' id
  | _ :: h' => last_token h' id
  end.

(** [e] may follow [h]: an approval is created once; decided once, within
    [DefaultApprovalTTL] of its creation; a token is new and is issued for an
    approved, unused approval; a token is consumed within its own lifetime and
    the approval's, if it is the one issued last, for the fingerprint of the
    approved plan, and at most once per approval. *)
Definition allowed (h : list event) (e : event) : Prop :=
  match e with
  | Created id _ _ => forall fp t, Created id fp t ∉ h
  | Decided id status _ t =>
      (status = ApprovalApproved \/ status = ApprovalRejected) /\
      (exists fp t0, Created id fp t0 ∈ h /\ (t <= t0 + DefaultApprovalTTL)%Z) /\
      (forall status' by' t', Decided id status' by' t' ∉ h)
  | Issued id tok t =>
      (forall id' t', Issued id' tok t' ∉ h) /\
      (exists by' t1, Decided id ApprovalApproved by' t1 ∈ h) /\
      (exists fp t0, Created id fp t0 ∈ h /\ (t <= t0 + DefaultApprovalTTL)%Z) /\
      (forall tok' fp t', Consumed tok' id fp t' ∉ h)
  | Consumed tok id fp t =>
      (exists t2, last_token h id = Some (tok, t2) /\ (t <= t2 + DefaultTokenTTL)%Z) /\
      (exists by' t1, Decided id ApprovalApproved by' t1 ∈ h) /\
      (exists t0, Created id fp t0 ∈ h /\ (t <= t0 + DefaultApprovalTTL)%Z) /\
      (forall tok' fp' t', Consumed tok' id fp' t' ∉ h)
  end.

Fixpoint legal (h : list event) : Prop :=
  match h with
  | [] => True
  | e :: h' => allowed h' e /\ legal h'
  end.

(** ** Runs of the store *)

Inductive op : Type :=
| OpFindOrCreatePending (plan : Plan) (requestedBy requesterLabel : string)
| OpApprove (id decidedBy note : string)
| OpReject (id decidedBy note : string)
| OpIssueToken (id : string)
| OpConsumeToken (token fingerprint : string).

Section Protocol.
Context {D : Digest}.

(** One call of the store, with the event it acknowledges to its caller. *)
Definition exec (w : World) (o : op) (s : ApprovalFileStore)
    : ApprovalFileStore * option event :=
  let now := w_now w in
  match o with
  | OpFindOrCreatePending plan requestedBy requesterLabel =>
      let '(s', r) := FindOrCreatePending w s plan requestedBy requesterLabel in
      (s', match r with
           | Ok a => if (app_ID a =? w_id w)%string
                     then Some (Created (app_ID a) (plan_Fingerprint (app_Plan a)) now)
                     else None
           | Err _ => None
           end)
  | OpApprove id decidedBy note =>
      let '(s', r) := Approve w s id decidedBy note in
      (s', match r with
           | Ok a => Some (Decided (app_ID a) (app_Status a) (app_DecidedBy a) now)
           | Err _ => None
           end)
  | OpReject id decidedBy note =>
      let '(s', r) := Reject w s id decidedBy note in
      (s', match r with
           | Ok a => Some (Decided (app_ID a) (app_Status a) (app_DecidedBy a) now)
           | Err _ => None
           end)
  | OpIssueToken id =>
      let '(s', r) := IssueToken w s id in
      (s', match r with
           | Ok (token, a) => Some (Issued (app_ID a) token now)
           | Err _ => None
           end)
  | OpConsumeToken token fingerprint =>
      let '(s', r) := ConsumeToken w s token fingerprint in
      (s', match r with
           | Ok a => Some (Consumed (TrimSpace token) (app_ID a) (TrimSpace fingerprint) now)
           | Err _ => None
           end)
  end.

Definition record_event (e : option event) (h : list event) : list event :=
  match e with Some e => e :: h | None => h end.

(** The random generators do not repeat themselves. *)
Definition fresh (w : World) (h : list event) : Prop :=
  (forall fp t, Created (w_id w) fp t ∉ h) /\ (forall id t, Issued id (w_token w) t ∉ h).

Inductive Reach (limit : Z) : ApprovalFileStore -> list event -> Prop :=
| Reach_start : Reach limit (mkApprovalFileStore limit Missing) []
| Reach_step s h w o :
    Reach limit s h -> fresh w h ->
    Reach limit (exec w o s).1 (record_event (exec w o s).2 h).

(** ** Invariant *)

Definition status_ok (h : list event) (a : Approval) : Prop :=
  let id := app_ID a in
  (app_Status a = ApprovalPending /\ last_token h id = None /\
   forall st by' t, Decided id st by' t ∉ h) \/
  (app_Status a = ApprovalApproved /\ (exists by' t, Decided id ApprovalApproved by' t ∈ h) /\
   forall tok fp t, Consumed tok id fp t ∉ h) \/
  app_Status a = ApprovalRejected \/ app_Status a = ApprovalExpired \/
  app_Status a = ApprovalUsed.

Record approval_ok (h : list event) (a : Approval) : Prop := {
  ok_created : exists t0, Created (app_ID a) (plan_Fingerprint (app_Plan a)) t0 ∈ h /\
                          app_ExpiresAt a = (t0 + DefaultApprovalTTL)%Z;
  ok_status : status_ok h a;
  ok_token : match last_token h (app_ID a) with
             | Some (tok, t) => app_TokenHash a = tokenHash tok /\
                                app_TokenExpiresAt a = Some (t + DefaultTokenTTL)%Z
             | None => app_TokenHash a = ""
             end;
}.

Record inv (s : ApprovalFileStore) (h : list event) : Prop := {
  inv_contents : exists l, contents [] (afs_file s) = Some l /\
                           NoDup (app_ID <$> l) /\ Forall (approval_ok h) l;
  inv_legal : legal h;
}.

(** *** Lemmas on histories *)

Lemma last_token_Some h id tok t : last_token h id = Some (tok, t) -> Issued id tok t ∈ h.
Proof.
  induction h as [|e h IH]; simpl; [done|].
  destruct e as [| |id' tok' t'|]; try (by intros ?%IH; right).
  destruct (String.eqb_spec id' id) as [->|]; [|by intros ?%IH; right].
  intros [= -> ->]. left.
Qed.

Lemma legal_consumed h tok id fp t :
  legal h -> Consumed tok id fp t ∈ h -> exists by' t1, Decided id ApprovalApproved by' t1 ∈ h.
Proof.
  induction h as [|e h IH]; [intros _ Hc; by apply elem_of_nil in Hc|].
  intros [Hall Hleg] [<-|Hc]%elem_of_cons.
  - destruct Hall as (_ & (by' & t1 & ?) & _). exists by', t1. by right.
  - destruct (IH Hleg Hc) as (by' & t1 & ?). exists by', t1. by right.
Qed.

Lemma legal_decided h id st by' t :
  legal h -> Decided id st by' t ∈ h -> exists fp t0, Created id fp t0 ∈ h.
Proof.
  induction h as [|e h IH]; [intros _ Hc; by apply elem_of_nil in Hc|].
  intros [Hall Hleg] [<-|Hc]%elem_of_cons.
  - destruct Hall as (_ & (fp & t0 & ? & _) & _). exists fp, t0. by right.
  - destruct (IH Hleg Hc) as (fp & t0 & ?). exists fp, t0. by right.
Qed.

Lemma legal_issued h id tok t :
  legal h -> Issued id tok t ∈ h -> exists fp t0, Created id fp t0 ∈ h.
Proof.
  induction h as [|e h IH]; [intros _ Hc; by apply elem_of_nil in Hc|].
  intros [Hall Hleg] [<-|Hc]%elem_of_cons.
  - destruct Hall as (_ & _ & (fp & t0 & ? & _) & _). exists fp, t0. by right.
  - destruct (IH Hleg Hc) as (fp & t0 & ?). exists fp, t0. by right.
Qed.

Lemma fresh_last_token w h : legal h -> fresh w h -> last_token h (w_id w) = None.
Proof.
  intros Hleg [Hid _]. destruct (last_token h (w_id w)) as [[tok t]|] eqn:E; [|done].
  apply last_token_Some in E. apply legal_issued in E as (?&?&Hc); [|done]. by apply Hid in Hc.
Qed.

Lemma last_token_other h e id : event_id e <> id -> last_token (e :: h) id = last_token h id.
Proof.
  destruct e as [| |id' tok t|]; try done. simpl. intros Hne.
  by destruct (String.eqb_spec id' id).
Qed.

Lemma approval_ok_other h e a :
  event_id e <> app_ID a -> approval_ok h a -> approval_ok (e :: h) a.
Proof.
  intros Hne [(t0 & Hc & He) Hs Ht]. split.
  - exists t0. split; [by right|done].
  - unfold status_ok in *. rewrite last_token_other by done.
    destruct Hs as [(?&?&Hd)|[(?&(by' & t & ?)&Hd)|?]]; [left|right; left|by right; right];
      split_and!; try done.
    + intros st by' t [<-|?]%elem_of_cons; [done|by eapply Hd].
    + exists by', t. by right.
    + intros tok fp t' [<-|?]%elem_of_cons; [done|by eapply Hd].
  - by rewrite last_token_other.
Qed.

(** Expiring a record in place keeps the invariant. *)
Lemma approval_ok_expired h now a :
  approval_ok h a -> approval_ok h (set_status ApprovalExpired now a).
Proof. intros [Hc Hs Ht]. split; [done| |done]. unfold status_ok. simpl. tauto. Qed.

Lemma approval_ok_expire h now a : approval_ok h a -> approval_ok h (expire now a).
Proof. unfold expire. destruct (_ && _); [apply approval_ok_expired|done]. Qed.

Lemma expire_ID now a : app_ID (expire now a) = app_ID a.
Proof. unfold expire. by destruct (_ && _). Qed.

Lemma fmap_expire_ID now (l : list Approval) : app_ID <$> (expire now <$> l) = app_ID <$> l.
Proof. rewrite <-list_fmap_compose. apply list_fmap_ext. intros. apply expire_ID. Qed.

Lemma trimApprovals_elem l limit now a : a ∈ trimApprovals l limit now -> a ∈ l.
Proof. unfold trimApprovals. destruct (_ || _); [done|apply retain_elem]. Qed.

Lemma trimApprovals_NoDup l limit now :
  NoDup (app_ID <$> l) -> NoDup (app_ID <$> trimApprovals l limit now).
Proof. unfold trimApprovals. destruct (_ || _); [done|apply retain_NoDup_fmap]. Qed.

(** *** Lemmas on files *)

Lemma load_contents w s l : approvals_load w s = Ok l -> contents [] (afs_file s) = Some l.
Proof. unfold approvals_load. intros. by repeat case_match; simplify_eq. Qed.

Lemma save_cases w s l s' ok :
  approvals_save w s l = (s', ok) ->
  (ok = true /\ s' = mkApprovalFileStore (afs_limit s) (Content l)) \/
  (ok = false /\ s' = s).
Proof.
  unfold approvals_save. destruct s as [lim f], (w_save w); simpl; intros [= <- <-]; auto.
Qed.

(** Replacing one record, without or with a new event about it. *)
Lemma forall_update h (l : list Approval) idx a a' :
  l !! idx = Some a -> app_ID a' = app_ID a -> approval_ok h a' ->
  Forall (approval_ok h) l -> Forall (approval_ok h) (<[idx := a']> l).
Proof. intros. by apply Forall_insert. Qed.

Lemma NoDup_update (l : list Approval) idx a a' :
  l !! idx = Some a -> app_ID a' = app_ID a -> NoDup (app_ID <$> l) ->
  NoDup (app_ID <$> <[idx := a']> l).
Proof.
  intros Ha Hid. rewrite list_fmap_insert, Hid, list_insert_id; [done|].
  by rewrite list_lookup_fmap, Ha.
Qed.

Lemma inv_update_same s h l idx a a' :
  inv s h -> contents [] (afs_file s) = Some l -> l !! idx = Some a ->
  app_ID a' = app_ID a -> approval_ok h a' ->
  inv (mkApprovalFileStore (afs_limit s) (Content (<[idx := a']> l))) h.
Proof.
  intros [(l' & Hl' & Hnd & HF) Hleg] Hl Ha Hid Hok. simplify_eq.
  split; [|done]. eexists. split_and!; [done|by eapply NoDup_update|by eapply forall_update].
Qed.

Lemma inv_update s h e l idx a a' :
  inv s h -> contents [] (afs_file s) = Some l -> l !! idx = Some a ->
  app_ID a' = app_ID a -> event_id e = app_ID a ->
  allowed h e -> approval_ok (e :: h) a' ->
  inv (mkApprovalFileStore (afs_limit s) (Content (<[idx := a']> l))) (e :: h).
Proof.
  intros [(l' & Hl' & Hnd & HF) Hleg] Hl Ha Hid He Hall Hok. simplify_eq.
  split; [|by split]. eexists. split_and!; [done|by eapply NoDup_update|].
  apply Forall_lookup. intros j b Hb.
  destruct (decide (j = idx)) as [->|Hne].
  - rewrite list_lookup_insert_eq in Hb by by eapply lookup_lt_Some. by simplify_eq.
  - rewrite list_lookup_insert_ne in Hb by done.
    apply approval_ok_other; [|by eapply Forall_lookup_1].
    rewrite He. intros Heq. apply Hne.
    eapply NoDup_lookup; [exact Hnd|by rewrite list_lookup_fmap, Hb|].
    rewrite list_lookup_fmap, Ha. simpl. by f_equal.
Qed.

Lemma find_id l id idx a :
  findApprovalIndex l id = Some (idx, a) -> l !! idx = Some a /\ app_ID a = id.
Proof. by intros (? & ? & _)%list_find_Some. Qed.

Lemma inv_approval s h l idx a :
  inv s h -> contents [] (afs_file s) = Some l -> l !! idx = Some a -> approval_ok h a.
Proof. intros [(l' & ? & _ & HF) _] ? ?. simplify_eq. by eapply Forall_lookup_1. Qed.

(** *** Each operation keeps the invariant *)

Lemma decision_allowed_None a now :
  ensureApprovalDecisionAllowed a now = None ->
  app_Status a = ApprovalPending /\ (now <= app_ExpiresAt a)%Z.
Proof.
  unfold ensureApprovalDecisionAllowed, time_after. intros H.
  repeat case_match; simplify_eq; bool_prop; done.
Qed.

Lemma issue_allowed_None a now :
  ensureTokenIssueAllowed a now = None ->
  app_Status a = ApprovalApproved /\ (now <= app_ExpiresAt a)%Z /\ tokenExpired a now = false.
Proof.
  unfold ensureTokenIssueAllowed, time_after. intros H.
  repeat case_match; simplify_eq; bool_prop; done.
Qed.

Lemma inv_decide f st w s h id s' r :
  (forall now a, app_ID (f now a) = app_ID a /\ app_Plan (f now a) = app_Plan a /\
     app_ExpiresAt (f now a) = app_ExpiresAt a /\ app_Status (f now a) = st /\
     (app_TokenHash a = "" -> app_TokenHash (f now a) = "")) ->
  (st = ApprovalApproved \/ st = ApprovalRejected) ->
  inv s h -> decide_with f w s id = (s', r) ->
  inv s' (record_event (match r with
                 | Ok a => Some (Decided (app_ID a) (app_Status a) (app_DecidedBy a) (w_now w))
                 | Err _ => None end) h).
Proof.
  intros Hf Hst Hinv. unfold decide_with.
  destruct (approvals_load w s) as [l|e] eqn:Hl; [|by intros [= <- <-]].
  apply load_contents in Hl.
  destruct (findApprovalIndex l _) as [[idx a]|] eqn:Hfind; [|by intros [= <- <-]].
  destruct (ensureApprovalDecisionAllowed a (w_now w)) eqn:Hallow; [by intros [= <- <-]|].
  destruct (approvals_save _ _ _) as [s'' ok] eqn:Hsave.
  intros [= <- <-]. apply save_cases in Hsave as [[-> ->]|[-> ->]]; [|done].
  simpl. apply find_id in Hfind as [Ha _]. apply decision_allowed_None in Hallow as [Hp Hx].
  destruct (Hf (w_now w) a) as (Hfid & Hfp & Hfx & Hfs & Hft).
  destruct (inv_approval _ _ _ _ _ Hinv Hl Ha) as [(t0 & Hc & He) Hs Ht].
  assert (last_token h (app_ID a) = None /\ forall st by' t, Decided (app_ID a) st by' t ∉ h)
    as [Hlt Hnd].
  { destruct Hs as [(?&?&?)|[(Hs&_)|[Hs|[Hs|Hs]]]]; [done|rewrite Hp in Hs; done..]. }
  rewrite Hlt in Ht.
  eapply inv_update; [done..|by simpl| |].
  - simpl. rewrite Hfid, Hfs. split_and!; [done| |done].
    eexists _, t0. split; [done|]. by rewrite <-He.
  - split; simpl; rewrite ?Hfid, ?Hfp, ?Hfx, ?Hfs.
    + exists t0. split; [by right|done].
    + unfold status_ok. simpl. rewrite Hfid, Hfs. destruct Hst as [->| ->]; [|tauto].
      right. left. split_and!; [done|by eexists _, _; left|].
      intros tok fp t [?|Hcons]%elem_of_cons; [done|].
      destruct (legal_consumed _ _ _ _ _ (inv_legal _ _ Hinv) Hcons) as (?&?&?).
      by eapply Hnd.
    + rewrite Hlt. by apply Hft.
Qed.

Lemma inv_Approve w s h id by' note s' r :
  inv s h -> Approve w s id by' note = (s', r) ->
  inv s' (record_event (match r with
                 | Ok a => Some (Decided (app_ID a) (app_Status a) (app_DecidedBy a) (w_now w))
                 | Err _ => None end) h).
Proof. apply inv_decide with (st := ApprovalApproved); [by intros|by left]. Qed.

Lemma inv_Reject w s h id by' note s' r :
  inv s h -> Reject w s id by' note = (s', r) ->
  inv s' (record_event (match r with
                 | Ok a => Some (Decided (app_ID a) (app_Status a) (app_DecidedBy a) (w_now w))
                 | Err _ => None end) h).
Proof. apply inv_decide with (st := ApprovalRejected); [by intros|by right]. Qed.

Lemma inv_IssueToken w s h id s' r :
  inv s h -> fresh w h -> IssueToken w s id = (s', r) ->
  inv s' (record_event (match r with
                 | Ok (token, a) => Some (Issued (app_ID a) token (w_now w))
                 | Err _ => None end) h).
Proof.
  intros Hinv Hfresh. unfold IssueToken.
  destruct (approvals_load w s) as [l|e] eqn:Hl; [|by intros [= <- <-]].
  apply load_contents in Hl.
  destruct (findApprovalIndex l _) as [[idx a]|] eqn:Hfind; [|by intros [= <- <-]].
  destruct (ensureTokenIssueAllowed a (w_now w)) eqn:Hallow; [by intros [= <- <-]|].
  destruct (approvals_save _ _ _) as [s'' ok] eqn:Hsave.
  intros [= <- <-]. apply save_cases in Hsave as [[-> ->]|[-> ->]]; [|done].
  apply find_id in Hfind as [Ha _]. apply issue_allowed_None in Hallow as (Hp & Hx & _).
  destruct (inv_approval _ _ _ _ _ Hinv Hl Ha) as [(t0 & Hc & He) Hs Ht].
  destruct Hs as [(Hs&_)|[(_&Hdec&Hcons)|[Hs|[Hs|Hs]]]]; try (by rewrite Hp in Hs).
  eapply inv_update; [done..| |].
  - simpl. split_and!; [apply Hfresh|done| |done].
    eexists _, t0. split; [done|]. by rewrite <-He.
  - split; simpl.
    + exists t0. split; [by right|done].
    + right. left. destruct Hdec as (by' & t & ?). split_and!; [done| |].
      * exists by', t. by right.
      * intros ??? [?|?]%elem_of_cons; [done|]. by eapply Hcons.
    + by rewrite String.eqb_refl.
Qed.

Lemma inv_ConsumeToken {HD : CollisionFree D} w s h token fingerprint s' r :
  inv s h -> ConsumeToken w s token fingerprint = (s', r) ->
  inv s' (record_event (match r with
     | Ok a => Some (Consumed (TrimSpace token) (app_ID a) (TrimSpace fingerprint) (w_now w))
     | Err _ => None end) h).
Proof.
  intros Hinv. unfold ConsumeToken.
  destruct (_ || _); [by intros [= <- <-]|].
  destruct (approvals_load w s) as [l|e] eqn:Hl; [|by intros [= <- <-]].
  apply load_contents in Hl.
  destruct (findApprovalByTokenHash l _) as [[idx a]|] eqn:Hfind; [|by intros [= <- <-]].
  apply list_find_Some in Hfind as (Ha & Hhash & _).
  pose proof (inv_approval _ _ _ _ _ Hinv Hl Ha) as Hok.
  destruct (app_Status a =? ApprovalUsed)%string; [by intros [= <- <-]|].
  destruct (app_Status a =? ApprovalRejected)%string; [by intros [= <- <-]|].
  destruct ((_ || _) || _) eqn:Hexp.
  { destruct (approvals_save _ _ _) as [s'' ok] eqn:Hsave. intros [= <- <-].
    apply save_cases in Hsave as [[-> ->]|[-> ->]]; [|done]. simpl.
    eapply inv_update_same; [done..|by apply approval_ok_expired]. }
  destruct (String.eqb_spec (app_Status a) ApprovalApproved) as [Hp|]; [|by intros [= <- <-]].
  destruct (String.eqb_spec (plan_Fingerprint (app_Plan a)) (TrimSpace fingerprint))
    as [Hfp|]; [|by intros [= <- <-]].
  cbv beta iota zeta delta [negb].
  destruct (approvals_save _ _ _) as [s'' ok] eqn:Hsave. intros [= <- <-].
  apply save_cases in Hsave as [[-> ->]|[-> ->]]; [|done]. simpl.
  apply orb_false_iff in Hexp as [[_ Hx]%orb_false_iff Htx].
  destruct Hok as [(t0 & Hc & He) Hs Ht]. rewrite Hfp in Hc.
  destruct Hs as [(Hs&_)|[(_&Hdec&Hcons)|[Hs|[Hs|Hs]]]]; try (by rewrite Hp in Hs).
  destruct (last_token h (app_ID a)) as [[tok t2]|] eqn:Hlt; [|by rewrite Hhash in Ht].
  destruct Ht as [Hth Hte]. rewrite Hhash in Hth. apply tokenHash_inj in Hth as <-.
  unfold tokenExpired in Htx. rewrite Hte in Htx.
  unfold time_after in *. bool_prop.
  eapply inv_update; [done..| |].
  - simpl. split_and!; [by exists t2|done| |done]. exists t0. split; [done|]. by rewrite <-He.
  - split; simpl.
    + exists t0. rewrite Hfp. split; [by right|done].
    + unfold status_ok. simpl. tauto.
    + by rewrite Hlt.
Qed.

Lemma inv_FindOrCreatePending w s h plan requestedBy requesterLabel s' r :
  inv s h -> fresh w h -> FindOrCreatePending w s plan requestedBy requesterLabel = (s', r) ->
  inv s' (record_event (match r with
     | Ok a => if (app_ID a =? w_id w)%string
               then Some (Created (app_ID a) (plan_Fingerprint (app_Plan a)) (w_now w))
               else None
     | Err _ => None end) h).
Proof.
  intros Hinv Hfresh. unfold FindOrCreatePending.
  destruct (approvals_load w s) as [l|e] eqn:Hl; [|by intros [= <- <-]].
  apply load_contents in Hl. unfold expireApprovals. cbv beta iota zeta.
  destruct Hinv as [(l' & Hl' & Hnd & HF) Hleg]. assert (l' = l) as -> by congruence.
  assert (Forall (approval_ok h) (expire (w_now w) <$> l)) as HF'.
  { apply Forall_fmap. eapply Forall_impl; [done|]. intros. by apply approval_ok_expire. }
  assert (NoDup (app_ID <$> (expire (w_now w) <$> l))) as Hnd'
    by by rewrite fmap_expire_ID.
  assert (inv s h) as Hinv by (split; [by exists l|done]).
  assert (forall a, a ∈ (expire (w_now w) <$> l) -> app_ID a <> w_id w) as Hnew.
  { intros a Hin Heq. eapply Forall_forall in HF' as [(t0 & Hc & _) _ _]; [|exact Hin].
    rewrite Heq in Hc. by apply Hfresh in Hc. }
  set (l1 := expire (w_now w) <$> l) in *. clearbody l1.
  destruct (List.find _ l1) as [a|] eqn:Hfind.
  - apply List.find_some in Hfind as [Hin%list_elem_of_In _].
    assert ((app_ID a =? w_id w)%string = false) as Hne by by apply String.eqb_neq, Hnew.
    destruct (existsb _ l); [|by intros [= <- <-]; rewrite Hne].
    destruct (approvals_save w s l1) as [s'' ok] eqn:Hsave. intros [= <- <-].
    apply save_cases in Hsave as [[-> ->]|[-> ->]]; [|done]. rewrite Hne. simpl.
    split; [by exists l1|done].
  - destruct (approvals_save _ _ _) as [s'' ok] eqn:Hsave. intros [= <- <-].
    apply save_cases in Hsave as [[-> ->]|[-> ->]]; [|done]. simpl. rewrite String.eqb_refl.
    split; [|by split; [exact (proj1 Hfresh)|]].
    eexists. split_and!; [done| |].
    + apply trimApprovals_NoDup. rewrite fmap_app. simpl.
      apply NoDup_app. split_and!; [done| |by apply NoDup_singleton].
      intros x (a & Hx & Ha)%list_elem_of_fmap Hw%list_elem_of_singleton.
      apply (Hnew a Ha). by rewrite <-Hx.
    + apply Forall_forall. intros a [Ha|Ha]%trimApprovals_elem%elem_of_app.
      * apply approval_ok_other; [|by eapply Forall_forall].
        intros Heq. by eapply Hnew.
      * apply list_elem_of_singleton in Ha as ->. split; simpl.
        -- exists (w_now w). split; [left|done].
        -- left. simpl. split_and!; [done| |].
           ++ by apply fresh_last_token.
           ++ intros st by' t [?|Hd]%elem_of_cons; [done|].
              apply legal_decided in Hd as (?&?&Hc); [by apply Hfresh in Hc|done].
        -- by rewrite fresh_last_token.
Qed.

Lemma inv_exec {HD : CollisionFree D} w o s h :
  inv s h -> fresh w h -> inv (exec w o s).1 (record_event (exec w o s).2 h).
Proof.
  intros Hinv Hf. destruct o as [plan by' label|id by' note|id by' note|id|tok fp]; simpl.
  - destruct (FindOrCreatePending w s plan by' label) as [s' r] eqn:E.
    by eapply inv_FindOrCreatePending.
  - destruct (Approve w s id by' note) as [s' r] eqn:E. by eapply inv_Approve.
  - destruct (Reject w s id by' note) as [s' r] eqn:E. by eapply inv_Reject.
  - destruct (IssueToken w s id) as [s' r] eqn:E. by eapply inv_IssueToken.
  - destruct (ConsumeToken w s tok fp) as [s' r] eqn:E. by eapply inv_ConsumeToken.
Qed.

Lemma Reach_inv {HD : CollisionFree D} limit s h : Reach limit s h -> inv s h.
Proof.
  induction 1 as [|s h w o _ IH Hf]; [|by apply inv_exec].
  split; [|done]. exists []. split_and!; [done|by apply NoDup_nil|done].
Qed.

(** In a legal history a token is issued once, hence consumed once. *)
Lemma legal_issued_unique h1 h2 id id' tok t t' :
  legal (h1 ++ h2) -> Issued id tok t ∈ h1 -> Issued id' tok t' ∈ h2 -> False.
Proof.
  induction h1 as [|e h1 IH]; [intros _ Hi; by apply elem_of_nil in Hi|].
  intros [Hall Hleg] [<-|Hi]%elem_of_cons Hi'; [|by eapply IH].
  destruct Hall as (Hnew & _). eapply Hnew. apply elem_of_app. by right.
Qed.

Lemma legal_issued_inj h id id' tok t t' :
  legal h -> Issued id tok t ∈ h -> Issued id' tok t' ∈ h -> id = id'.
Proof.
  induction h as [|e h IH]; [intros _ Hi; by apply elem_of_nil in Hi|].
  intros [Hall Hleg] [E1|H1]%elem_of_cons [E2|H2]%elem_of_cons; [congruence|..].
  - subst e. destruct Hall as (Hnew & _). by apply Hnew in H2.
  - subst e. destruct Hall as (Hnew & _). by apply Hnew in H1.
  - by apply IH.
Qed.

Lemma legal_consumed_issued h tok id fp t :
  legal h -> Consumed tok id fp t ∈ h -> exists t2, Issued id tok t2 ∈ h.
Proof.
  induction h as [|e h IH]; [intros _ Hc; by apply elem_of_nil in Hc|].
  intros [Hall Hleg] [<-|Hc]%elem_of_cons.
  - destruct Hall as ((t2 & Hlt & _) & _). apply last_token_Some in Hlt.
    exists t2. by right.
  - destruct (IH Hleg Hc) as (t2 & ?). exists t2. by right.
Qed.

(** C2: the approval store refines the abstract protocol: whatever the calls,
    their order, the clock and the write failures, every acknowledged event
    is one the protocol allows after the earlier ones (one decision per
    approval, in time; new tokens for approved and unused approvals only; a
    token consumed in time, for the approved fingerprint, if it is the last
    one issued, once). *)
Theorem ApprovalFileStore_refines_protocol {HD : CollisionFree D} limit s h :
  Reach limit s h -> legal h.
Proof. by intros [_ ?]%Reach_inv. Qed.

(** C4: an approval token is accepted at most once in the life of the store,
    even if its approval has been trimmed from the file in between. *)
Theorem token_single_use {HD : CollisionFree D} limit s h1 h2 tok id id' fp fp' t t' :
  Reach limit s (h1 ++ Consumed tok id fp t :: h2) -> Consumed tok id' fp' t' ∉ (h1 ++ h2)%list.
Proof.
  intros [_ Hleg]%Reach_inv Hin.
  assert (exists h3 h4 id1 fp1 t1 id2 fp2 t2,
    legal (Consumed tok id1 fp1 t1 :: h3 ++ Consumed tok id2 fp2 t2 :: h4))
    as (h3 & h4 & id1 & fp1 & t1 & id2 & fp2 & t2 & [Hall Hleg']).
  { clear HD. induction h1 as [|e h1 IH]; simpl in *.
    - apply list_elem_of_split in Hin as (h3 & h4 & ->). by eexists _, _, _, _, _, _, _, _.
    - apply elem_of_cons in Hin as [<-|Hin]; [by eexists _, _, _, _, _, _, _, _|].
      destruct Hleg as [_ Hleg]. by apply IH. }
  destruct Hall as ((ti & Hlt & _) & _ & _ & Hno). apply last_token_Some in Hlt.
  destruct (legal_consumed_issued _ tok id2 fp2 t2 Hleg') as [ti' Hi].
  { apply elem_of_app. right. left. }
  assert (id1 = id2) as -> by by eapply legal_issued_inj.
  eapply (Hno tok fp2 t2). apply elem_of_app. right. left.
Qed.

Lemma ConsumeToken_inv {HD : CollisionFree D} limit s h w token fingerprint s' a :
  Reach limit s h -> fresh w h ->
  ConsumeToken w s token fingerprint = (s', Ok a) ->
  app_Status a = ApprovalUsed /\ plan_Fingerprint (app_Plan a) = TrimSpace fingerprint /\
  allowed h (Consumed (TrimSpace token) (app_ID a) (TrimSpace fingerprint) (w_now w)).
Proof.
  intros Hr Hf Hc.
  pose proof (Reach_step _ _ _ w (OpConsumeToken token fingerprint) Hr Hf) as Hr'.
  simpl in Hr'. rewrite Hc in Hr'. apply Reach_inv in Hr' as [_ [Hall _]].
  clear Hr. split_and!; [..|done]; revert Hc; unfold ConsumeToken; intros Hc;
    repeat (case_match; simplify_eq/=); bool_prop; try done.
Qed.

(** C6: when [ConsumeToken] accepts a token, someone approved that very plan:
    the approval was created for the presented fingerprint, approved, and the
    token is its last one, each within its lifetime and not used before. *)
Theorem ConsumeToken_authorized {HD : CollisionFree D} limit s h w token fingerprint s' a :
  Reach limit s h -> fresh w h ->
  ConsumeToken w s token fingerprint = (s', Ok a) ->
  app_Status a = ApprovalUsed /\ plan_Fingerprint (app_Plan a) = TrimSpace fingerprint /\
  allowed h (Consumed (TrimSpace token) (app_ID a) (TrimSpace fingerprint) (w_now w)).
Proof. apply ConsumeToken_inv. Qed.

(** *** The life of one approval *)

Definition status_of (l : list Approval) (id : string) : option string :=
  (fun p => app_Status p.2) <$> findApprovalIndex l id.

(** [None]: the approval is not, or no longer, in the file. *)
Inductive transition : option string -> option string -> Prop :=
| tr_create : transition None (Some ApprovalPending)
| tr_approve : transition (Some ApprovalPending) (Some ApprovalApproved)
| tr_reject : transition (Some ApprovalPending) (Some ApprovalRejected)
| tr_expire_pending : transition (Some ApprovalPending) (Some ApprovalExpired)
| tr_expire_approved : transition (Some ApprovalApproved) (Some ApprovalExpired)
| tr_use : transition (Some ApprovalApproved) (Some ApprovalUsed)
| tr_evict st : st ∈ [ApprovalRejected; ApprovalExpired; ApprovalUsed] ->
                transition (Some st) None.

Lemma status_of_elem l a :
  NoDup (app_ID <$> l) -> a ∈ l -> status_of l (app_ID a) = Some (app_Status a).
Proof.
  intros Hnd [j Hj]%list_elem_of_lookup. unfold status_of, findApprovalIndex.
  assert (list_find (fun b => app_ID b = app_ID a) l = Some (j, a)) as ->; [|done].
  apply list_find_Some. split_and!; [done|done|]. intros k b Hb Hlt Heq.
  assert (k = j); [|lia]. eapply NoDup_lookup; [exact Hnd|..];
    rewrite list_lookup_fmap, ?Hb, ?Hj; [done|]. simpl. by rewrite Heq.
Qed.

Lemma status_of_None l id :
  status_of l id = None <-> forall a, a ∈ l -> app_ID a <> id.
Proof.
  unfold status_of, findApprovalIndex. rewrite fmap_None, list_find_None, Forall_forall. done.
Qed.

Lemma status_of_Some l id st :
  status_of l id = Some st -> exists a, a ∈ l /\ app_ID a = id /\ app_Status a = st.
Proof.
  unfold status_of, findApprovalIndex. intros ([j a] & H & ->)%fmap_Some.
  apply list_find_Some in H as (Hj & ? & _). exists a. split_and!; [|done|done].
  by eapply list_elem_of_lookup_2.
Qed.

Lemma status_of_update l idx a a' id :
  NoDup (app_ID <$> l) -> l !! idx = Some a -> app_ID a' = app_ID a ->
  transition (Some (app_Status a)) (Some (app_Status a')) \/ app_Status a = app_Status a' ->
  rtc transition (status_of l id) (status_of (<[idx := a']> l) id).
Proof.
  intros Hnd Ha Hid Htr.
  assert (NoDup (app_ID <$> <[idx := a']> l)) as Hnd' by by eapply NoDup_update.
  destruct (decide (id = app_ID a)) as [->|Hne].
  - rewrite (status_of_elem l a Hnd) by by eapply list_elem_of_lookup_2.
    assert (a' ∈ <[idx := a']> l) as Hin.
    { apply list_elem_of_lookup. exists idx. apply list_lookup_insert_eq.
      by eapply lookup_lt_Some. }
    rewrite <-Hid, (status_of_elem _ a' Hnd' Hin).
    destruct Htr as [?| ->]; [by apply rtc_once|done].
  - replace (status_of (<[idx:=a']> l) id) with (status_of l id); [done|].
    destruct (status_of l id) as [st|] eqn:E; symmetry.
    + apply status_of_Some in E as (b & [j Hj]%list_elem_of_lookup & <- & <-).
      apply status_of_elem; [done|]. apply list_elem_of_lookup. exists j.
      rewrite list_lookup_insert_ne; [done|]. intros ->. congruence.
    + rewrite status_of_None in E |- *. intros b [j Hj]%list_elem_of_lookup.
      destruct (decide (j = idx)) as [->|].
      * rewrite list_lookup_insert_eq in Hj by by eapply lookup_lt_Some. congruence.
      * rewrite list_lookup_insert_ne in Hj by done. apply E.
        by eapply list_elem_of_lookup_2.
Qed.

Lemma status_of_expire l now id :
  NoDup (app_ID <$> l) -> Forall (fun a => exists h, status_ok h a) l ->
  rtc transition (status_of l id) (status_of (expire now <$> l) id).
Proof.
  intros Hnd HF. assert (NoDup (app_ID <$> (expire now <$> l))) as Hnd'
    by by rewrite fmap_expire_ID.
  destruct (status_of l id) as [st|] eqn:E.
  - apply status_of_Some in E as (a & Ha & <- & <-).
    rewrite <-(expire_ID now a), (status_of_elem _ _ Hnd') by by apply list_elem_of_fmap_2.
    unfold expire. destruct (_ && _) eqn:Hu; [|done]. apply rtc_once. simpl.
    apply andb_prop in Hu as [[Hp|Hp]%orb_prop _]; apply String.eqb_eq in Hp; rewrite Hp;
      constructor.
  - assert (status_of (expire now <$> l) id = None) as ->; [|done].
    rewrite status_of_None in E |- *. intros b (a & -> & Ha)%list_elem_of_fmap.
    rewrite expire_ID. auto.
Qed.

(** What is trimmed right after the expiry pass is in a final status. *)
Lemma status_of_trim l limit now id :
  NoDup (app_ID <$> l) -> (forall a, a ∈ l -> exists h, status_ok h a) ->
  (forall a, a ∈ l -> expire now a = a) ->
  rtc transition (status_of l id) (status_of (trimApprovals l limit now) id).
Proof.
  intros Hnd Hok Hexp. pose proof (trimApprovals_NoDup l limit now Hnd) as Hnd'.
  destruct (status_of l id) as [st|] eqn:E.
  - apply status_of_Some in E as (a & Ha & <- & <-).
    destruct (status_of (trimApprovals l limit now) (app_ID a)) as [st|] eqn:E'.
    + apply status_of_Some in E' as (b & Hb & Hid & <-).
      rewrite <-(status_of_elem l a) by done. rewrite <-Hid.
      by rewrite (status_of_elem l b) by (done || by eapply trimApprovals_elem).
    + apply rtc_once. constructor. rewrite status_of_None in E'.
      assert (approvalIsLoadBearing now a = false) as Hlb.
      { destruct (approvalIsLoadBearing now a) eqn:Hlb; [|done]. exfalso.
        eapply (E' a); [|done]. unfold trimApprovals. destruct (_ || _); [done|].
        by apply retain_keep. }
      specialize (Hexp a Ha). unfold approvalIsLoadBearing in Hlb. unfold expire in Hexp.
      destruct (undecided a) eqn:Hu; simpl in *.
      * unfold past_expiry in Hexp. apply orb_false_iff in Hlb as [Hz Hlt].
        rewrite Hz, (proj1 (negb_false_iff _) Hlt) in Hexp. simpl in Hexp.
        apply (f_equal undecided) in Hexp. rewrite Hu in Hexp. done.
      * destruct (Hok a Ha) as [h Hs]. unfold undecided in Hu.
        apply orb_false_iff in Hu as [?%String.eqb_neq ?%String.eqb_neq].
        rewrite !elem_of_cons. unfold status_ok in Hs. tauto.
  - assert (status_of (trimApprovals l limit now) id = None) as ->; [|done].
    rewrite status_of_None in E |- *. intros a Ha%trimApprovals_elem. auto.
Qed.

Lemma status_of_append l a id :
  NoDup (app_ID <$> (l ++ [a])%list) -> app_Status a = ApprovalPending ->
  rtc transition (status_of l id) (status_of (l ++ [a])%list id).
Proof.
  intros Hnd Hp. assert (NoDup (app_ID <$> l)) as Hl.
  { rewrite fmap_app in Hnd. by apply NoDup_app in Hnd as [? _]. }
  destruct (status_of l id) as [st|] eqn:E.
  - apply status_of_Some in E as (b & Hb & <- & <-).
    rewrite (status_of_elem _ b Hnd); [done|]. apply elem_of_app. by left.
  - destruct (decide (app_ID a = id)) as [<-|Hne].
    + rewrite (status_of_elem _ a Hnd), Hp; [by apply rtc_once, tr_create|].
      apply elem_of_app. right. left.
    + assert (status_of (l ++ [a])%list id = None) as ->; [|done].
      rewrite status_of_None in E |- *.
      intros b [Hb|Hb%list_elem_of_singleton]%elem_of_app; [auto|congruence].
Qed.

Lemma expire_idem now a : expire now (expire now a) = expire now a.
Proof. unfold expire at 2 3. destruct (_ && _) eqn:E; [done|]. unfold expire. by rewrite E. Qed.

(** The contents of the file after a call, as a transformation of the list. *)
Lemma lifecycle_decide f st w s h id id' l :
  (forall now a, app_ID (f now a) = app_ID a /\ app_Status (f now a) = st) ->
  st = ApprovalApproved \/ st = ApprovalRejected ->
  inv s h -> contents [] (afs_file s) = Some l ->
  exists l', contents [] (afs_file (decide_with f w s id').1) = Some l' /\
             rtc transition (status_of l id) (status_of l' id).
Proof.
  intros Hf Hst [(l0 & Hl0 & Hnd & _) _] Hl. assert (l0 = l) as -> by congruence.
  unfold decide_with.
  destruct (approvals_load w s) as [l0|e] eqn:Hload; [|by exists l].
  apply load_contents in Hload. assert (l0 = l) as -> by congruence.
  destruct (findApprovalIndex l _) as [[idx a]|] eqn:Hfind; [|by exists l].
  destruct (ensureApprovalDecisionAllowed a (w_now w)) eqn:Hallow; [by exists l|].
  destruct (approvals_save _ _ _) as [s'' ok] eqn:Hsave. simpl.
  apply save_cases in Hsave as [[-> ->]|[-> ->]]; [|by exists l].
  eexists; split; [done|]. apply find_id in Hfind as [Ha _].
  apply decision_allowed_None in Hallow as [Hp _]. destruct (Hf (w_now w) a) as [Hid Hs].
  eapply status_of_update; [done..|]. left. rewrite Hp, Hs.
  destruct Hst as [->| ->]; constructor.
Qed.

Lemma exec_store w o s :
  (exec w o s).1 =
    match o with
    | OpFindOrCreatePending plan by' label => (FindOrCreatePending w s plan by' label).1
    | OpApprove id by' note => (Approve w s id by' note).1
    | OpReject id by' note => (Reject w s id by' note).1
    | OpIssueToken id => (IssueToken w s id).1
    | OpConsumeToken tok fp => (ConsumeToken w s tok fp).1
    end.
Proof. destruct o; simpl; by case_match. Qed.

Lemma lifecycle_consume s h w tok fp l id :
  inv s h -> contents [] (afs_file s) = Some l ->
  exists l', contents [] (afs_file (ConsumeToken w s tok fp).1) = Some l' /\
             rtc transition (status_of l id) (status_of l' id).
Proof.
  intros Hinv Hl. pose proof Hinv as [(l0 & Hl0 & Hnd & _) _].
  assert (l0 = l) as -> by congruence. unfold ConsumeToken.
  destruct (_ || _); [by exists l|].
  destruct (approvals_load w s) as [l0|e] eqn:Hload; [|by exists l].
  apply load_contents in Hload. assert (l0 = l) as -> by congruence.
  destruct (findApprovalByTokenHash l _) as [[idx a]|] eqn:Hfind; [|by exists l].
  apply list_find_Some in Hfind as (Ha & _ & _).
  destruct (inv_approval _ _ _ _ _ Hinv Hl Ha) as [_ Hs _].
  destruct (String.eqb_spec (app_Status a) ApprovalUsed); [by exists l|].
  destruct (String.eqb_spec (app_Status a) ApprovalRejected); [by exists l|].
  destruct ((_ || _) || _) eqn:Hexp.
  { destruct (approvals_save _ _ _) as [s'' ok] eqn:Hsave. simpl.
    apply save_cases in Hsave as [[-> ->]|[-> ->]]; [|by exists l].
    eexists; split; [done|]. eapply status_of_update; [done..|]. simpl.
    destruct Hs as [(->&_)|[(->&_)|[?|[?|?]]]]; try done;
      [left; constructor|left; constructor|by right]. }
  destruct (String.eqb_spec (app_Status a) ApprovalApproved) as [Hp|]; [|by exists l].
  destruct (plan_Fingerprint _ =? _)%string; [|by exists l]. cbv beta iota zeta delta [negb].
  destruct (approvals_save _ _ _) as [s'' ok] eqn:Hsave. simpl.
  apply save_cases in Hsave as [[-> ->]|[-> ->]]; [|by exists l].
  eexists; split; [done|]. eapply status_of_update; [done..|]. simpl. rewrite Hp.
  left. constructor.
Qed.

Lemma lifecycle_create {HD : CollisionFree D} s h w plan by' label l id :
  inv s h -> fresh w h -> contents [] (afs_file s) = Some l ->
  exists l', contents [] (afs_file (FindOrCreatePending w s plan by' label).1) = Some l' /\
             rtc transition (status_of l id) (status_of l' id).
Proof.
  intros Hinv Hf Hl. pose proof Hinv as [(l0 & Hl0 & Hnd & HF) _].
  assert (l0 = l) as -> by congruence.
  unfold FindOrCreatePending.
  destruct (approvals_load w s) as [l0|e] eqn:Hload; [|by exists l].
  apply load_contents in Hload. assert (l0 = l) as -> by congruence.
  unfold expireApprovals. cbv beta iota zeta.
  assert (rtc transition (status_of l id) (status_of (expire (w_now w) <$> l) id)) as Hx.
  { apply status_of_expire; [done|]. eapply Forall_impl; [done|]. intros a Ha.
    exists h. apply Ha. }
  destruct (List.find _ _) as [b|] eqn:Hfind.
  + destruct (existsb _ l); [|by exists l].
    destruct (approvals_save _ _ _) as [s'' ok] eqn:Hsave. simpl.
    apply save_cases in Hsave as [[-> ->]|[-> ->]]; [|by exists l].
    by eexists.
  + destruct (approvals_save _ _ _) as [s'' ok] eqn:Hsave. simpl.
    apply save_cases in Hsave as [[-> ->]|[-> ->]]; [|by exists l].
    eexists; split; [done|]. etransitivity; [exact Hx|].
    set (a := new_approval w plan _ _).
    assert (NoDup (app_ID <$> ((expire (w_now w) <$> l) ++ [a])%list)) as Hnd2.
    { rewrite fmap_app, fmap_expire_ID. apply NoDup_app.
      split_and!; [done| |by apply NoDup_singleton].
      intros x (b & -> & Hb)%list_elem_of_fmap Hw%list_elem_of_singleton.
      eapply Forall_forall in HF as [(t0 & Hc & _) _ _]; [|exact Hb].
      simpl in Hw. rewrite Hw in Hc. by apply Hf in Hc. }
    etransitivity; [by apply (status_of_append _ a)|].
    apply status_of_trim; [done|..].
    * intros b [(c & -> & Hc)%list_elem_of_fmap|Hb%list_elem_of_singleton]%elem_of_app;
         [|subst b].
      -- exists h. eapply (approval_ok_expire h (w_now w) c).
         by eapply Forall_forall in HF.
      -- exists []. left. split_and!; [done|done|].
         intros ??? Hd. by apply elem_of_nil in Hd.
    * intros b [(c & -> & Hc)%list_elem_of_fmap|Hb%list_elem_of_singleton]%elem_of_app;
         [|subst b].
      -- apply expire_idem.
      -- apply expire_later. apply (reusable_spec plan (TrimSpace by') (TrimSpace label)).
         apply new_approval_reusable.
Qed.

Lemma lifecycle_issue {HD : CollisionFree D} s h w i l id :
  inv s h -> contents [] (afs_file s) = Some l ->
  exists l', contents [] (afs_file (IssueToken w s i).1) = Some l' /\
             rtc transition (status_of l id) (status_of l' id).
Proof.
  intros Hinv Hl. pose proof Hinv as [(l0 & Hl0 & Hnd & HF) _].
  assert (l0 = l) as -> by congruence.
  unfold IssueToken.
  destruct (approvals_load w s) as [l0|e] eqn:Hload; [|by exists l].
  apply load_contents in Hload. assert (l0 = l) as -> by congruence.
  destruct (findApprovalIndex l _) as [[idx a]|] eqn:Hfind; [|by exists l].
  destruct (ensureTokenIssueAllowed a (w_now w)); [by exists l|].
  destruct (approvals_save _ _ _) as [s'' ok] eqn:Hsave. simpl.
  apply save_cases in Hsave as [[-> ->]|[-> ->]]; [|by exists l].
  eexists; split; [done|]. apply find_id in Hfind as [Ha _].
  eapply status_of_update; [done..|]. by right.
Qed.

(** The life of every approval: created pending; then approved or rejected
    or expired; an approved one used or expired; and only a rejected, expired
    or used one is ever removed from the file.  No call moves any approval in
    another way. *)
Theorem approval_lifecycle {HD : CollisionFree D} limit s h w o l id :
  Reach limit s h -> fresh w h -> contents [] (afs_file s) = Some l ->
  exists l', contents [] (afs_file (exec w o s).1) = Some l' /\
             rtc transition (status_of l id) (status_of l' id).
Proof.
  intros Hr Hf Hl. apply Reach_inv in Hr as Hinv. pose proof Hinv as [(l0 & Hl0 & Hnd & HF) _].
  assert (l0 = l) as -> by congruence. rewrite exec_store.
  destruct o as [plan by' label|i by' note|i by' note|i|tok fp].
  - by apply (lifecycle_create s h w plan by' label l id).
  - eapply lifecycle_decide; [|by left|done..]. by intros.
  - eapply lifecycle_decide; [|by right|done..]. by intros.
  - by apply (lifecycle_issue s h w i l id).
  - by apply (lifecycle_consume s h w tok fp l id).
Qed.
End Protocol.

(** ** The theorems at work: one approval, from request to use *)

Section Example_run.
Local Instance example_digest : Digest := identity_digest.
Local Instance example_collision_free : CollisionFree example_digest :=
  identity_digest_collision_free.

Definition example_plan : Plan :=
  {| plan_ID := "op_1"; plan_Kind := OperationRuntimeStart; plan_Target := Target_zero;
     plan_TargetSummary := ""; plan_RiskLevel := RiskHigh; plan_RequiresApproval := true;
     plan_Denied := false; plan_Reasons := []; plan_ExpectedEffects := [];
     plan_Checks := []; plan_Fingerprint := "sha256:f"; plan_CreatedAt := 0;
     plan_ExpiresAt := 0 |}.

Definition example_world (now : time) (id token : string) : World :=
  mkWorld now id token true SaveOk.

Definition example_ops : list (World * op) :=
  [(example_world 1000 "opa_1" "t1", OpFindOrCreatePending example_plan "ui" "desktop");
   (example_world 2000 "opa_2" "t2", OpApprove "opa_1" "alice" "ok");
   (example_world 3000 "opa_3" "t3", OpIssueToken " opa_1 ")].

Definition example_consume : World * op :=
  (example_world 4000 "opa_4" "t4", OpConsumeToken "t3" "sha256:f").

Definition run_ops (ops : list (World * op)) (st : ApprovalFileStore * list event)
    : ApprovalFileStore * list event :=
  foldl (fun st o => ((exec o.1 o.2 st.1).1, record_event (exec o.1 o.2 st.1).2 st.2)) st ops.

Definition freshb (w : World) (h : list event) : bool :=
  forallb (fun e => match e with
                    | Created id _ _ => negb (id =? w_id w)%string
                    | Issued _ token _ => negb (token =? w_token w)%string
                    | _ => true
                    end) h.

Lemma freshb_sound w h : freshb w h = true -> fresh w h.
Proof.
  unfold freshb. rewrite forallb_forall. intros H.
  split; intros ? ? Hin%list_elem_of_In%H; simpl in Hin; by rewrite String.eqb_refl in Hin.
Qed.

Lemma run_ops_Reach limit ops s h :
  Reach limit s h ->
  (fix ok ops st := match ops with
     | [] => true
     | o :: ops => freshb o.1 st.2 && ok ops (run_ops [o] st)
     end) ops (s, h) = true ->
  Reach limit (run_ops ops (s, h)).1 (run_ops ops (s, h)).2.
Proof.
  revert s h; induction ops as [|[w o] ops IH]; intros s h Hr; [done|].
  intros [Hf Hok]%andb_prop. apply IH; [|exact Hok].
  apply Reach_step; [done|by apply freshb_sound].
Qed.

Definition example_issued : ApprovalFileStore * list event :=
  run_ops example_ops (mkApprovalFileStore 1000 Missing, []).
Definition example_used : ApprovalFileStore * list event :=
  run_ops (example_ops ++ [example_consume])%list (mkApprovalFileStore 1000 Missing, []).

Lemma example_issued_Reach : Reach 1000 example_issued.1 example_issued.2.
Proof. apply run_ops_Reach; [constructor|by vm_compute]. Qed.

Lemma example_used_Reach : Reach 1000 example_used.1 example_used.2.
Proof. apply run_ops_Reach; [constructor|by vm_compute]. Qed.

Lemma ApprovalFileStore_refines_protocol_witness :
  example_used.2 = [Consumed "t3" "opa_1" "sha256:f" 4000; Issued "opa_1" "t3" 3000;
                    Decided "opa_1" ApprovalApproved "alice" 2000;
                    Created "opa_1" "sha256:f" 1000] /\ legal example_used.2.
Proof.
  split; [by vm_compute|].
  apply (ApprovalFileStore_refines_protocol 1000 example_used.1). apply example_used_Reach.
Defined.

Lemma token_single_use_witness :
  Consumed "t3" "opa_1" "sha256:f" 4500 ∉
    ([] ++ [Issued "opa_1" "t3" 3000; Decided "opa_1" ApprovalApproved "alice" 2000;
            Created "opa_1" "sha256:f" 1000])%list.
Proof.
  apply (token_single_use 1000 example_used.1 [] _ "t3" "opa_1" "opa_1" "sha256:f" "sha256:f"
    4000 4500).
  exact example_used_Reach.
Defined.

Lemma ConsumeToken_authorized_witness :
  exists s' a,
    ConsumeToken example_consume.1 example_issued.1 "t3" "sha256:f" = (s', Ok a) /\
    app_Status a = ApprovalUsed /\
    allowed example_issued.2 (Consumed "t3" (app_ID a) "sha256:f" 4000).
Proof.
  eexists _, _. split; [vm_compute; reflexivity|].
  edestruct (ConsumeToken_authorized 1000 example_issued.1 example_issued.2 example_consume.1
    "t3" "sha256:f") as (H1 & _ & H2);
    [apply example_issued_Reach|by apply freshb_sound; vm_compute|vm_compute; reflexivity|].
  split; [exact H1|exact H2].
Defined.

Lemma approval_lifecycle_witness :
  exists l l', contents [] (afs_file example_issued.1) = Some l /\
    status_of l "opa_1" = Some ApprovalApproved /\
    contents [] (afs_file (exec example_consume.1 example_consume.2 example_issued.1).1) = Some l' /\
    rtc transition (status_of l "opa_1") (status_of l' "opa_1").
Proof.
  eexists. edestruct (approval_lifecycle 1000 example_issued.1 example_issued.2
    example_consume.1 example_consume.2) as (l' & H1 & H2);
    [apply example_issued_Reach|by apply freshb_sound; vm_compute|vm_compute; reflexivity|].
  exists l'. split_and!; [vm_compute; reflexivity|vm_compute; reflexivity|exact H1|exact H2].
Defined.
End Example_run.

(** The last record of a store over its limit is evicted, the pending one stays. *)
Definition example_store : list Approval :=
  let base := new_approval (mkWorld 1000 "a1" "" true SaveOk) example_plan "ui" "" in
  let used n := set_status ApprovalUsed n
    (new_approval (mkWorld n (pretty n) "" true SaveOk) example_plan "ui" "") in
  base :: (used <$> [1001; 1002; 1003; 1004; 1005]%Z).

Lemma trimApprovals_retention_witness :
  app_ID <$> trimApprovals example_store 3 2000 = ["a1"; "1003"; "1004"; "1005"] /\
  exists dropped, (trimApprovals example_store 3 2000 ++ dropped)%list ≡ₚ example_store.
Proof.
  split; [by vm_compute|].
  destruct (trimApprovals_retention example_store 3 2000) as (d & Hd & _); [done|].
  by exists d.
Defined.

Lemma first_decision_wins_witness :
  Approve (mkWorld 2500 "x" "y" true SaveOk) example_issued.1 "opa_1" "bob" "" =
    (example_issued.1, Err ErrApprovalAlreadyDecided) /\
  Reject (mkWorld 2500 "x" "y" true SaveOk) example_issued.1 "opa_1" "bob" "" =
    (example_issued.1, Err ErrApprovalAlreadyDecided).
Proof.
  eapply first_decision_wins; [vm_compute; reflexivity|vm_compute; reflexivity|].
  left. reflexivity.
Defined.

Lemma FindOrCreatePending_idempotent_witness :
  let w := mkWorld 1000 "opa_1" "" true SaveOk in
  let w' := mkWorld 9000 "opa_2" "" true SaveOk in
  let s1 := (FindOrCreatePending w (mkApprovalFileStore 10 Missing) example_plan "ui" " d ").1 in
  exists a s2, FindOrCreatePending w' s1 example_plan "ui" " d " = (s2, Ok a) /\
               app_ID a = "opa_1".
Proof.
  intros w w' s1. eexists.
  edestruct (FindOrCreatePending_idempotent w w' (mkApprovalFileStore 10 Missing) example_plan
    "ui" " d ") as ((s2 & H) & _); [vm_compute; reflexivity|by vm_compute|done|done|].
  exists s2. split; [exact H|reflexivity].
Defined.
