(* ===== verification/AuditStore.v ===== *)
(** * Operation safety gate: audit store (agent/operation/store.go)

    [AuditFileStore]: an append-only log with a retention limit that doubles as
    the durable outbox of prepared operations. *)
From stdpp Require Import base list strings gmap sorting.
From S2P Require Import Prelude Model OperationTypes ApprovalStore.
Local Open Scope string_scope.

Record AuditFileStore : Type := mkAuditFileStore {
  uds_limit : Z;
  uds_file : file (list AuditEvent);
}.

Definition NewAuditFileStore (f : file (list AuditEvent)) (limit : Z) : AuditFileStore :=
  mkAuditFileStore (if (limit <=? 0)%Z then 5000 else limit) f.

Definition audit_load (w : World) (s : AuditFileStore) : result error (list AuditEvent) :=
  if w_read_ok w then
    match contents [] (uds_file s) with
    | Some st => Ok st
    | None => Err ErrLoad
    end
  else Err ErrLoad.

Definition audit_save (w : World) (s : AuditFileStore) (st : list AuditEvent)
    : AuditFileStore * bool :=
  let '(f, ok) := write_rename (w_save w) (uds_file s) st in
  (mkAuditFileStore (uds_limit s) f, ok).

Definition is_terminal (e : AuditEvent) : bool :=
  (ev_Action e =? AuditExecuted)%string || (ev_Action e =? AuditFailed)%string.

(** The keys of the map [terminalPlanIDs]. *)
Fixpoint terminalPlanIDs (l : list AuditEvent) : list string :=
  match l with
  | [] => []
  | e :: l' =>
      if (plan_ID (ev_Plan e) =? "")%string then terminalPlanIDs l'
      else if is_terminal e then plan_ID (ev_Plan e) :: terminalPlanIDs l'
      else terminalPlanIDs l'
  end.

Definition in_outbox (terminal : list string) (e : AuditEvent) : bool :=
  (ev_Action e =? AuditPrepared)%string && negb (plan_ID (ev_Plan e) =? "")%string &&
  negb (bool_decide (plan_ID (ev_Plan e) ∈ terminal)).

Definition trimAuditEvents (events : list AuditEvent) (limit : Z) : list AuditEvent :=
  if (limit <=? 0)%Z || (Z.of_nat (length events) <=? limit)%Z then events
  else
    let terminal := terminalPlanIDs events in
    let pending := length (List.filter (in_outbox terminal) events) in
    let remaining := Z.max (limit - Z.of_nat pending) 0 in
    retain ev_CreatedAt ev_CreatedAt (in_outbox terminal) (Z.to_nat remaining) events.

Definition complete_event (w : World) (e : AuditEvent) : AuditEvent :=
  {| ev_ID := if (ev_ID e =? "")%string then w_id w else ev_ID e;
     ev_Kind := if (ev_Kind e =? "")%string then plan_Kind (ev_Plan e) else ev_Kind e;
     ev_Action := ev_Action e;
     ev_ApprovalID := ev_ApprovalID e;
     ev_Plan := ev_Plan e;
     ev_Summary := ev_Summary e;
     ev_Data := ev_Data e;
     ev_CreatedAt := if time_is_zero (ev_CreatedAt e) then w_now w else ev_CreatedAt e |}.

Definition Append (w : World) (s : AuditFileStore) (event : AuditEvent)
    : AuditFileStore * result error AuditEvent :=
  match audit_load w s with
  | Err e => (s, Err e)
  | Ok st =>
      let event := complete_event w event in
      let '(s', ok) := audit_save w s (trimAuditEvents (st ++ [event])%list (uds_limit s)) in
      (s', if ok then Ok event else Err ErrSave)
  end.

Definition audit_match (filter : AuditFilter) (e : AuditEvent) : bool :=
  let projectID := TrimSpace (uf_ProjectID filter) in
  let kind := TrimSpace (uf_Kind filter) in
  let approvalID := TrimSpace (uf_ApprovalID filter) in
  negb (negb (projectID =? "")%string &&
        negb (ProjectID (plan_Target (ev_Plan e)) =? projectID)%string) &&
  negb (negb (kind =? "")%string && negb (ev_Kind e =? kind)%string) &&
  negb (negb (approvalID =? "")%string && negb (ev_ApprovalID e =? approvalID)%string) &&
  negb (negb (time_is_zero (uf_Since filter)) && time_before (ev_CreatedAt e) (uf_Since filter)).

Definition AuditFileStore_List (w : World) (s : AuditFileStore) (filter : AuditFilter)
    : result error (list AuditEvent) :=
  match audit_load w s with
  | Err e => Err e
  | Ok st =>
      Ok (limit_to (uf_Limit filter)
            (SliceStable (key_greater ev_CreatedAt) (List.filter (audit_match filter) st)))
  end.

(** ** Retention and the outbox *)

Lemma terminalPlanIDs_spec l id :
  id ∈ terminalPlanIDs l <->
  id <> "" /\ exists e, e ∈ l /\ plan_ID (ev_Plan e) = id /\ is_terminal e = true.
Proof.
  induction l as [|e l IH]; simpl.
  { split; [intros H; by apply elem_of_nil in H|]. intros (_ & e & He & _).
    by apply elem_of_nil in He. }
  assert (forall P : AuditEvent -> Prop,
    (exists x, x ∈ e :: l /\ P x) <-> P e \/ exists x, x ∈ l /\ P x) as Hcons.
  { intros P. setoid_rewrite elem_of_cons. naive_solver. }
  rewrite Hcons.
  destruct (String.eqb_spec (plan_ID (ev_Plan e)) "") as [E|E].
  - rewrite IH. naive_solver.
  - destruct (is_terminal e) eqn:Et; [rewrite elem_of_cons|]; rewrite IH; naive_solver.
Qed.

(** A prepared event of a plan without a final event among [l]. *)
Definition unfinished (l : list AuditEvent) (e : AuditEvent) : Prop :=
  ev_Action e = AuditPrepared /\ plan_ID (ev_Plan e) <> "" /\
  forall x, x ∈ l -> is_terminal x = true -> plan_ID (ev_Plan x) <> plan_ID (ev_Plan e).

Lemma in_outbox_spec l e : in_outbox (terminalPlanIDs l) e = true <-> unfinished l e.
Proof.
  unfold in_outbox, unfinished.
  rewrite !andb_true_iff, !negb_true_iff, String.eqb_eq, String.eqb_neq, bool_decide_eq_false,
    terminalPlanIDs_spec. naive_solver.
Qed.

(** The retention limit never evicts an unfinished prepared event; of the
    others it evicts the oldest, and the result is as long as the limit unless
    the unfinished events alone exceed it. *)
Theorem trimAuditEvents_retention events limit :
  (0 < limit < Z.of_nat (length events))%Z ->
  let kept := trimAuditEvents events limit in
  let pending := List.filter (in_outbox (terminalPlanIDs events)) events in
  exists dropped,
    (kept ++ dropped)%list ≡ₚ events /\
    (forall e, e ∈ dropped -> ~ unfinished events e) /\
    (forall x y, x ∈ dropped -> y ∈ kept -> ~ unfinished events y ->
       (ev_CreatedAt x <= ev_CreatedAt y)%Z) /\
    Z.of_nat (length kept) = Z.max limit (Z.of_nat (length pending)) /\
    StronglySorted (key_le ev_CreatedAt) kept.
Proof.
  intros Hlim kept pending. unfold kept, trimAuditEvents.
  replace (_ || _) with false by (symmetry; apply orb_false_iff; split; apply Z.leb_gt; lia).
  fold pending. set (n := Z.to_nat _).
  assert (Z.of_nat n = Z.max (limit - Z.of_nat (length pending)) 0) as Hn by (unfold n; lia).
  clearbody n. set (keep := in_outbox (terminalPlanIDs events)) in *.
  destruct (retain_split ev_CreatedAt ev_CreatedAt keep n events) as (k & HP & Hk & _ & Hold).
  exists k. pose proof (retain_length ev_CreatedAt ev_CreatedAt keep n events) as HL.
  pose proof (Permutation_length (filter_split keep events)) as HS.
  rewrite length_app in HS. fold pending in HS, HL. split_and!.
  - done.
  - intros e He Hu. apply in_outbox_spec in Hu. eapply Forall_forall in Hk; [|exact He].
    simpl in Hk. unfold keep in Hk. congruence.
  - intros x y Hx Hy Hu. apply Hold; [done|done|]. apply not_true_iff_false.
    intros Hy'%in_outbox_spec. done.
  - lia.
  - apply retain_sorted.
Qed.

Lemma trimAuditEvents_elem events limit e : e ∈ trimAuditEvents events limit -> e ∈ events.
Proof. unfold trimAuditEvents. destruct (_ || _); [done|apply retain_elem]. Qed.

Lemma trimAuditEvents_unfinished events limit e :
  e ∈ events -> unfinished events e -> e ∈ trimAuditEvents events limit.
Proof.
  intros He Hu. unfold trimAuditEvents. destruct (_ || _); [done|].
  apply retain_keep; [done|by apply in_outbox_spec].
Qed.

Lemma unfinished_sub l k e : (forall x, x ∈ k -> x ∈ l) -> unfinished l e -> unfinished k e.
Proof. intros Hs (?&?&Hn). split_and!; [done|done|]. intros x Hx. by apply Hn, Hs. Qed.

(** A sequence of appends, each with its own world, failures included. *)
Fixpoint appends (calls : list (World * AuditEvent)) (s : AuditFileStore) : AuditFileStore :=
  match calls with
  | [] => s
  | (w, e) :: calls => appends calls (Append w s e).1
  end.

(** C18: the log is a durable outbox: a prepared event stays in it through any
    sequence of appends, successful or failed, under any limit, until an
    executed or failed event of the same plan is appended. *)
Theorem outbox_durable s calls l e :
  contents [] (uds_file s) = Some l -> e ∈ l -> unfinished l e ->
  (forall c, c ∈ calls -> is_terminal c.2 = true ->
     plan_ID (ev_Plan c.2) <> plan_ID (ev_Plan e)) ->
  exists l', contents [] (uds_file (appends calls s)) = Some l' /\ e ∈ l' /\ unfinished l' e.
Proof.
  revert s l; induction calls as [|[w c] calls IH]; intros s l Hl He Hu Hc; [by exists l|].
  simpl. unfold Append.
  assert (forall c, c ∈ calls -> is_terminal c.2 = true ->
     plan_ID (ev_Plan c.2) <> plan_ID (ev_Plan e)) as Hc'.
  { intros x Hx. apply Hc. by right. }
  destruct (audit_load w s) as [l0|] eqn:Hload; [|by eapply IH].
  assert (l0 = l) as ->.
  { unfold audit_load in Hload. repeat case_match; congruence. }
  unfold audit_save. destruct (w_save w); simpl; [|by eapply IH..].
  set (c' := complete_event w c).
  assert (unfinished (l ++ [c'])%list e) as Hu'.
  { destruct Hu as (?&?&Hn). split_and!; [done|done|].
    intros x [Hx|Hx%list_elem_of_singleton]%elem_of_app; [by apply Hn|]. subst x.
    apply (Hc (w, c)). left. }
  eapply IH; [done|..|done].
  - apply trimAuditEvents_unfinished; [apply elem_of_app; by left|done].
  - eapply unfinished_sub; [|exact Hu']. intros x. apply trimAuditEvents_elem.
Qed.

(** ** Examples *)

Definition example_event (action planID : string) (t : time) : AuditEvent :=
  {| ev_ID := ""; ev_Kind := ""; ev_Action := action; ev_ApprovalID := "";
     ev_Plan :=
       {| plan_ID := planID; plan_Kind := OperationTunnelInvalidate; plan_Target := Target_zero;
          plan_TargetSummary := ""; plan_RiskLevel := RiskLow; plan_RequiresApproval := false;
          plan_Denied := false; plan_Reasons := []; plan_ExpectedEffects := [];
          plan_Checks := []; plan_Fingerprint := ""; plan_CreatedAt := 0; plan_ExpiresAt := 0 |};
     ev_Summary := ""; ev_Data := []; ev_CreatedAt := t |}.

Definition example_log : list AuditEvent :=
  [example_event AuditPrepared "p1" 1; example_event AuditPrepared "p2" 2;
   example_event AuditExecuted "p2" 3; example_event AuditRejected "p3" 4].

Lemma trimAuditEvents_retention_witness :
  ev_CreatedAt <$> trimAuditEvents example_log 2 = [1; 4]%Z /\
  exists dropped, (trimAuditEvents example_log 2 ++ dropped)%list ≡ₚ example_log.
Proof.
  split; [by vm_compute|].
  destruct (trimAuditEvents_retention example_log 2) as (d & Hd & _); [by vm_compute|].
  by exists d.
Defined.

Lemma outbox_durable_witness :
  let w := mkWorld 9 "e" "" true SaveOk in
  let calls := [(w, example_event AuditRejected "p4" 5); (w, example_event AuditExecuted "p3" 6)] in
  let s := mkAuditFileStore 1 (Content example_log) in
  exists l', contents [] (uds_file (appends calls s)) = Some l' /\
             example_event AuditPrepared "p1" 1 ∈ l'.
Proof.
  intros w calls s.
  destruct (outbox_durable s calls example_log (example_event AuditPrepared "p1" 1))
    as (l' & H1 & H2 & _); [reflexivity|left| | |by exists l'].
  - apply in_outbox_spec. by vm_compute.
  - intros c Hc _. unfold calls in Hc. rewrite !elem_of_cons, elem_of_nil in Hc.
    destruct Hc as [->|[->|[]]]; discriminate.
Defined.
