(* ===== verification/GraceStore.v ===== *)
(** * Operation safety gate: grace windows (agent/operation/grace.go)

    [GraceFileStore]: for each project at most one window during which its
    operations run without an approval.  The file is written in place, so a
    failed write can leave an unreadable file. *)
From stdpp Require Import base list strings gmap.
From S2P Require Import Prelude Model OperationTypes.
Local Open Scope string_scope.

(** The state is the file; the path is constant. *)
Definition GraceFileStore : Type := file (list GraceGrant).

(** [load]: an absent file is the zero state, an empty one does not parse. *)
Definition grace_load (w : World) (s : GraceFileStore) : result error (list GraceGrant) :=
  if w_read_ok w then
    match s with
    | Missing => Ok []
    | Content st => Ok st
    | Empty | Corrupt => Err ErrLoad
    end
  else Err ErrLoad.

Definition grace_save (w : World) (s : GraceFileStore) (st : list GraceGrant)
    : GraceFileStore * bool :=
  write_direct (w_save w) s st.

Definition GrantGrace (w : World) (s : GraceFileStore)
    (projectID grantedBy fromApprovalID : string) (ttl : duration)
    : GraceFileStore * result error GraceGrant :=
  let projectID := trim projectID in
  if (projectID =? "")%string then (s, Err ErrGraceRequiresProject)
  else
    match grace_load w s with
    | Err e => (s, Err e)
    | Ok st =>
        let now := w_now w in
        let grant := {| gr_ProjectID := projectID; gr_GrantedBy := grantedBy;
                        gr_GrantedFrom := fromApprovalID; gr_CreatedAt := now;
                        gr_ExpiresAt := time_add now ttl |} in
        let kept := List.filter (fun g =>
          negb (gr_ProjectID g =? projectID)%string && time_after (gr_ExpiresAt g) now) st in
        let '(s', ok) := grace_save w s (kept ++ [grant])%list in
        (s', if ok then Ok grant else Err ErrSave)
    end.

(** The last active window of the project, when there is one. *)
Definition ActiveGrace (w : World) (s : GraceFileStore) (projectID : string)
    : GraceFileStore * result error (option GraceGrant) :=
  let projectID := trim projectID in
  if (projectID =? "")%string then (s, Ok None)
  else
    match grace_load w s with
    | Err e => (s, Err e)
    | Ok st =>
        let now := w_now w in
        let kept := List.filter (fun g => time_after (gr_ExpiresAt g) now) st in
        let hit := foldl (fun hit g => if (gr_ProjectID g =? projectID)%string
                                       then Some g else hit) None kept in
        if negb (length kept =? length st)%nat then
          let '(s', ok) := grace_save w s kept in
          (s', if ok then Ok hit else Err ErrSave)
        else (s, Ok hit)
    end.

(** ** Facts *)

Lemma last_hit_spec p l hit :
  NoDup (gr_ProjectID <$> l) ->
  foldl (fun hit g => if (gr_ProjectID g =? p)%string then Some g else hit) hit l =
    match list_find (fun g => gr_ProjectID g = p) l with
    | Some (_, g) => Some g
    | None => hit
    end.
Proof.
  revert hit; induction l as [|g l IH]; intros hit Hnd; simpl; [done|].
  apply NoDup_cons in Hnd as [Hni Hnd]. rewrite IH by done.
  destruct (decide (gr_ProjectID g = p)) as [<-|Hne].
  - rewrite String.eqb_refl.
    destruct (list_find _ l) as [[i x]|] eqn:E; [|done].
    exfalso. apply Hni. apply list_find_Some in E as (Hx & <- & _).
    apply list_elem_of_fmap. exists x. split; [done|by eapply list_elem_of_lookup_2].
  - rewrite (proj2 (String.eqb_neq _ _)) by done.
    by destruct (list_find _ l) as [[i x]|].
Qed.

(** Active windows of a list, as a relation. *)
Definition window (l : list GraceGrant) (now : time) (g : GraceGrant) : Prop :=
  g ∈ l /\ (now < gr_ExpiresAt g)%Z.

Lemma filter_elem {A} (f : A -> bool) l x : x ∈ List.filter f l <-> x ∈ l /\ f x = true.
Proof. by rewrite !list_elem_of_In, filter_In. Qed.

Lemma NoDup_fmap_filter {A B} (f : A -> B) (p : A -> bool) l :
  NoDup (f <$> l) -> NoDup (f <$> List.filter p l).
Proof.
  induction l as [|x l IH]; simpl; [done|]. intros [Hx Hl]%NoDup_cons.
  destruct (p x); simpl; [|by apply IH]. apply NoDup_cons. split; [|by apply IH].
  intros (y & Hxy & [Hy _]%filter_elem)%list_elem_of_fmap. apply Hx. rewrite Hxy.
  by apply list_elem_of_fmap_2.
Qed.

(** At most one window per project. *)
Definition grace_wf (s : GraceFileStore) : Prop :=
  forall l, s = Content l -> NoDup (gr_ProjectID <$> l).

Lemma write_direct_wf o s l :
  grace_wf s -> NoDup (gr_ProjectID <$> l) -> grace_wf (write_direct o s l).1.
Proof. intros Hs Hl. destruct o; simpl; [|done|done]. by intros k [= <-]. Qed.

Lemma grace_load_wf w s l : grace_wf s -> grace_load w s = Ok l -> NoDup (gr_ProjectID <$> l).
Proof.
  unfold grace_load. intros Hs. destruct (w_read_ok w), s; intros; simplify_eq;
    [by apply NoDup_nil|by apply Hs].
Qed.

Lemma GrantGrace_wf w s p by' from ttl : grace_wf s -> grace_wf (GrantGrace w s p by' from ttl).1.
Proof.
  intros Hs. unfold GrantGrace. destruct (_ =? _)%string; [done|].
  destruct (grace_load w s) as [l|] eqn:Hl; [|done].
  unfold grace_save. rewrite (surjective_pairing (write_direct _ _ _)). simpl.
  apply write_direct_wf; [done|]. rewrite fmap_app. apply NoDup_app. split_and!.
  - by eapply NoDup_fmap_filter, grace_load_wf.
  - intros q (g & -> & [_ Hg]%filter_elem)%list_elem_of_fmap Hq%list_elem_of_singleton.
    simpl in Hq. rewrite Hq, String.eqb_refl in Hg. done.
  - by apply NoDup_singleton.
Qed.

Lemma ActiveGrace_wf w s p : grace_wf s -> grace_wf (ActiveGrace w s p).1.
Proof.
  intros Hs. unfold ActiveGrace. destruct (_ =? _)%string; [done|].
  destruct (grace_load w s) as [l|] eqn:Hl; [|done].
  destruct (negb _); [|done].
  unfold grace_save. rewrite (surjective_pairing (write_direct _ _ _)). simpl.
  apply write_direct_wf; [done|]. by eapply NoDup_fmap_filter, grace_load_wf.
Qed.

Lemma filter_length_eq {A} (p : A -> bool) l :
  length (List.filter p l) = length l -> List.filter p l = l.
Proof.
  induction l as [|x l IH]; simpl; [done|]. pose proof (List.filter_length_le p l).
  destruct (p x); simpl; intros; [f_equal; apply IH; lia|lia].
Qed.

Lemma last_hit_elem p l hit g :
  foldl (fun hit g => if (gr_ProjectID g =? p)%string then Some g else hit) hit l = Some g ->
  hit = Some g \/ (g ∈ l /\ gr_ProjectID g = p).
Proof.
  revert hit; induction l as [|x l IH]; intros hit; simpl; [by left|].
  intros [H|[? ?]]%IH; [|right; split; [by right|done]].
  destruct (String.eqb_spec (gr_ProjectID x) p); simplify_eq; [|by left].
  right. split; [left|done].
Qed.

Lemma ActiveGrace_hit w s p s' g :
  ActiveGrace w s p = (s', Ok (Some g)) ->
  exists l, grace_load w s = Ok l /\ window l (w_now w) g /\ gr_ProjectID g = trim p.
Proof.
  unfold ActiveGrace. destruct (trim p =? "")%string; [done|].
  destruct (grace_load w _) as [l|] eqn:Hl; [|done].
  set (kept := List.filter _ l).
  assert (forall hit, foldl (fun hit g => if (gr_ProjectID g =? trim p)%string
            then Some g else hit) None kept = hit -> hit = Some g ->
          exists l', Ok (E := error) l = Ok l' /\ window l' (w_now w) g /\
                     gr_ProjectID g = trim p) as Hhit.
  { intros hit <- [?|[Hin ?]]%last_hit_elem; [done|]. exists l. split_and!; [done| |done].
    apply filter_elem in Hin as [Hin Ht]. split; [done|].
    unfold time_after in Ht. by apply Z.ltb_lt. }
  destruct (negb _).
  - destruct (grace_save _ _ _) as [s1 []]; intros [= <- Hg]; by eapply Hhit.
  - intros [= <- Hg]. by eapply Hhit.
Qed.

(** With a readable file, [ActiveGrace] answers the window of the project
    that has not expired, and nothing else: it finds one exactly when one is
    stored whose expiry is strictly in the future. *)
Theorem ActiveGrace_spec w s p l :
  grace_wf s -> grace_load w s = Ok l -> w_save w = SaveOk -> trim p <> "" ->
  exists hit, (ActiveGrace w s p).2 = Ok hit /\
    forall g, hit = Some g <-> window l (w_now w) g /\ gr_ProjectID g = trim p.
Proof.
  intros Hs Hl Hsave Hp. unfold ActiveGrace.
  rewrite (proj2 (String.eqb_neq _ _)) by done. rewrite Hl.
  set (kept := List.filter _ l).
  assert (NoDup (gr_ProjectID <$> kept)) as Hnd by by eapply NoDup_fmap_filter, grace_load_wf.
  rewrite last_hit_spec by done. eexists. split.
  { unfold grace_save. rewrite Hsave. by destruct (negb _). }
  intros g. unfold window.
  assert (g ∈ kept <-> g ∈ l /\ (w_now w < gr_ExpiresAt g)%Z) as Hk.
  { unfold kept. rewrite filter_elem. unfold time_after. by rewrite Z.ltb_lt. }
  rewrite <-Hk. destruct (list_find _ kept) as [[i x]|] eqn:E.
  - apply list_find_Some in E as (Hx & Hxp & _). split.
    + intros [= ->]. split; [by eapply list_elem_of_lookup_2|done].
    + intros [[j Hj]%list_elem_of_lookup Hgp]. f_equal.
      assert (i = j) as ->; [|by simplify_eq].
      eapply NoDup_lookup; [exact Hnd|by rewrite list_lookup_fmap, Hx|].
      rewrite list_lookup_fmap, Hj. simpl. by rewrite Hgp, Hxp.
  - split; [done|]. intros [Hin Hgp]. apply list_find_None in E.
    eapply Forall_forall in E; [|exact Hin]. done.
Qed.

(** ** A window lives exactly as long as it was granted for *)

Inductive grace_call : Type :=
| CallGrant (projectID grantedBy from : string) (ttl : duration)
| CallActive (projectID : string).

Definition grace_exec (s : GraceFileStore) (c : World * grace_call) : GraceFileStore :=
  match c.2 with
  | CallGrant p by' from ttl => (GrantGrace c.1 s p by' from ttl).1
  | CallActive p => (ActiveGrace c.1 s p).1
  end.

(** [c] neither grants project [p] anew nor runs after [t], and no write tears. *)
Definition harmless (p : string) (t : time) (c : World * grace_call) : Prop :=
  (w_now c.1 < t)%Z /\ w_save c.1 <> SaveTorn /\
  match c.2 with CallGrant q _ _ _ => trim q <> p | CallActive _ => True end.

Lemma grace_exec_keeps s c g l :
  s = Content l -> g ∈ l -> harmless (gr_ProjectID g) (gr_ExpiresAt g) c ->
  exists l', grace_exec s c = Content l' /\ g ∈ l'.
Proof.
  intros -> Hg (Ht & Htorn & Hc). unfold grace_exec.
  destruct c as [w [q by' from ttl|q]]; simpl in *.
  - unfold GrantGrace, grace_load. destruct (trim q =? "")%string; [by exists l|].
    destruct (w_read_ok w); [|by exists l].
    unfold grace_save. destruct (w_save w); simpl; [|by exists l|done].
    eexists. split; [done|]. apply elem_of_app. left. apply filter_elem.
    split; [done|]. unfold time_after.
    rewrite (proj2 (String.eqb_neq (gr_ProjectID g) (trim q))) by by apply not_eq_sym.
    simpl. by apply Z.ltb_lt.
  - unfold ActiveGrace, grace_load. destruct (trim q =? "")%string; [by exists l|].
    destruct (w_read_ok w); [|by exists l]. destruct (negb _); [|by exists l].
    unfold grace_save. destruct (w_save w); simpl; [|by exists l|done].
    eexists. split; [done|]. apply filter_elem. split; [done|].
    unfold time_after. by apply Z.ltb_lt.
Qed.

(** [c] grants nothing to project [p]. *)
Definition grants_none (p : string) (c : World * grace_call) : Prop :=
  match c.2 with CallGrant q _ _ _ => trim q <> p | CallActive _ => True end.

(** [g] is the only window of its project in the file. *)
Definition sole (g : GraceGrant) (s : GraceFileStore) : Prop :=
  forall l, s = Content l -> forall x, x ∈ l -> gr_ProjectID x = gr_ProjectID g -> x = g.

Lemma sole_load g w s l :
  sole g s -> grace_load w s = Ok l -> forall x, x ∈ l -> gr_ProjectID x = gr_ProjectID g -> x = g.
Proof.
  unfold grace_load. intros Hs Hl. destruct (w_read_ok w), s; simplify_eq;
    [by intros x ?%not_elem_of_nil|by eapply Hs].
Qed.

Lemma write_direct_sole g o s l :
  sole g s -> (forall x, x ∈ l -> gr_ProjectID x = gr_ProjectID g -> x = g) ->
  sole g (write_direct o s l).1.
Proof. intros Hs Hl. destruct o; simpl; [|done|done]. by intros k [= <-]. Qed.

Lemma grace_exec_sole g s c :
  sole g s -> grants_none (gr_ProjectID g) c -> sole g (grace_exec s c).
Proof.
  intros Hs Hc. unfold grace_exec, grants_none in *.
  destruct c as [w [q by' from ttl|q]]; simpl in *; [unfold GrantGrace|unfold ActiveGrace];
    (destruct (_ =? _)%string; [done|]); (destruct (grace_load w s) as [l|] eqn:Hl; [|done]);
    pose proof (sole_load g w s l Hs Hl) as Hsole.
  - unfold grace_save. rewrite (surjective_pairing (write_direct _ _ _)). simpl.
    apply write_direct_sole; [done|]. intros x Hx.
    apply elem_of_app in Hx as [[Hx _]%filter_elem| ->%list_elem_of_singleton];
      [by apply Hsole|done].
  - destruct (negb _); [|done]. unfold grace_save.
    rewrite (surjective_pairing (write_direct _ _ _)). simpl.
    apply write_direct_sole; [done|]. intros x [Hx _]%filter_elem. by apply Hsole.
Qed.

Lemma foldl_hit_some l p g :
  exists y, foldl (fun hit g => if (gr_ProjectID g =? p)%string then Some g else hit) (Some g) l =
    Some y.
Proof.
  revert g. induction l as [|x l IH]; intros g; simpl; [by exists g|]. destruct (_ =? _)%string;
    apply IH.
Qed.

Lemma last_hit_none p l hit :
  foldl (fun hit g => if (gr_ProjectID g =? p)%string then Some g else hit) hit l = None ->
  forall g, g ∈ l -> gr_ProjectID g <> p.
Proof.
  revert hit. induction l as [|x l IH]; intros hit; simpl; [by intros _ g ?%not_elem_of_nil|].
  intros H g [->|Hg]%elem_of_cons; [|by eapply IH]. intros <-.
  rewrite String.eqb_refl in H. destruct (foldl_hit_some l (gr_ProjectID x) x) as [y Hy]. congruence.
Qed.

(** What a grant leaves in the file. *)
Lemma GrantGrace_sole w s p by' from ttl s1 g :
  GrantGrace w s p by' from ttl = (s1, Ok g) ->
  gr_ProjectID g = trim p /\ gr_ExpiresAt g = (w_now w + ttl)%Z /\ sole g s1 /\
  exists l, s1 = Content l /\ g ∈ l.
Proof.
  unfold GrantGrace, grace_save. intros HG. repeat (case_match; simplify_eq/=).
  destruct (w_save w); simplify_eq/=. split_and!; [done|done| |].
  - intros l [= <-] x [[_ Hx]%filter_elem| ->%list_elem_of_singleton]%elem_of_app; [|done].
    simpl. intros Hp. by rewrite Hp, String.eqb_refl in Hx.
  - eexists. split; [done|]. apply elem_of_app. right. left.
Qed.

(** With only [g] in the file, what a query with a working file answers. *)
Lemma ActiveGrace_sole g w s p l :
  s = Content l -> g ∈ l -> sole g s -> gr_ProjectID g = trim p -> trim p <> "" ->
  w_read_ok w = true -> w_save w = SaveOk ->
  (ActiveGrace w s p).2 = Ok (if (w_now w <? gr_ExpiresAt g)%Z then Some g else None).
Proof.
  intros -> Hg Hs Hgp Hp Hr Hsave. unfold ActiveGrace, grace_load.
  rewrite (proj2 (String.eqb_neq _ _)), Hr by done. set (kept := List.filter _ l).
  assert (foldl (fun hit g => if (gr_ProjectID g =? trim p)%string then Some g else hit) None kept
    = (if (w_now w <? gr_ExpiresAt g)%Z then Some g else None)) as <-.
  2: { unfold grace_save. rewrite Hsave. by destruct (negb _). }
  destruct (foldl _ None kept) as [x|] eqn:E.
  - apply last_hit_elem in E as [|[[Hx Ht]%filter_elem Hxp]]; [done|].
    rewrite (Hs l eq_refl x Hx (eq_trans Hxp (eq_sym Hgp))) in Ht.
    rewrite (Hs l eq_refl x Hx (eq_trans Hxp (eq_sym Hgp))).
    unfold time_after in Ht. by rewrite Ht.
  - destruct (_ <? _)%Z eqn:Ht; [|done]. exfalso.
    eapply (last_hit_none _ _ _ E g); [|done]. apply filter_elem. by split.
Qed.

(** What queries answer after calls that leave the window alone. *)
Lemma granted_answers g s1 l p calls w' :
  s1 = Content l -> g ∈ l -> sole g s1 -> gr_ProjectID g = trim p -> trim p <> "" ->
  Forall (harmless (gr_ProjectID g) (gr_ExpiresAt g)) calls ->
  w_read_ok w' = true -> w_save w' = SaveOk ->
  (ActiveGrace w' (foldl grace_exec s1 calls) p).2 =
    Ok (if (w_now w' <? gr_ExpiresAt g)%Z then Some g else None).
Proof.
  intros Hl Hgl Hs1 Hgp Hp Hcalls Hr Hsave. revert s1 l Hl Hgl Hs1.
  induction Hcalls as [|c calls Hc _ IH]; intros s1 l Hl Hgl Hs1; simpl.
  - by eapply ActiveGrace_sole.
  - destruct (grace_exec_keeps s1 c g l Hl Hgl Hc) as (l' & Hl' & Hgl').
    eapply IH; [exact Hl'|done|]. apply grace_exec_sole; [done|]. apply Hc.
Qed.

(** C9: after a grant of [ttl] to a project, and whatever other projects are granted or queried in
    the meantime: a query for the project never answers anything but this grant, and that only
    while [ttl] has not elapsed, also when windows it had before were longer, when a write tears the
    file or when the file cannot be read.  When no write tears it and the calls in between come
    before the end of the window, a query that can read and write the file answers the grant until
    [ttl] has elapsed, and not one instant longer. *)
Theorem grace_window w s p by' from ttl s1 g :
  GrantGrace w s p by' from ttl = (s1, Ok g) -> trim p <> "" ->
  (forall calls w' x,
    Forall (grants_none (trim p)) calls ->
    (ActiveGrace w' (foldl grace_exec s1 calls) p).2 = Ok (Some x) ->
    x = g /\ (w_now w' < w_now w + ttl)%Z) /\
  (forall calls w',
    Forall (harmless (trim p) (w_now w + ttl)) calls ->
    w_read_ok w' = true -> w_save w' = SaveOk ->
    (ActiveGrace w' (foldl grace_exec s1 calls) p).2 =
      Ok (if (w_now w' <? w_now w + ttl)%Z then Some g else None)).
Proof.
  intros (Hgp & Hge & Hs1 & l & Hl & Hgl)%GrantGrace_sole Hp. rewrite <-Hge. split.
  - intros calls w' x Hcalls Hx. rewrite <-Hgp in Hcalls. clear l Hl Hgl.
    revert s1 Hs1 Hx. induction Hcalls as [|c calls Hc _ IH]; intros s1 Hs1 Hx; simpl in Hx.
    + destruct (ActiveGrace w' s1 p) as [s' r] eqn:E. simpl in Hx. subst r.
      apply ActiveGrace_hit in E as (l & Hl & [Hxl Hxt] & Hxp).
      rewrite (sole_load g w' s1 l Hs1 Hl x Hxl (eq_trans Hxp (eq_sym Hgp))) in *. done.
    + eapply IH; [|exact Hx]. by apply grace_exec_sole.
  - intros calls w' Hcalls Hr Hsave. rewrite <-Hgp in Hcalls. by eapply granted_answers.
Qed.

(** ** Examples *)

Lemma ActiveGrace_spec_witness :
  let w0 := mkWorld 100 "" "" true SaveOk in
  let s := (GrantGrace w0 Missing "p1" "alice" "opa_1" 50).1 in
  exists hit, (ActiveGrace (mkWorld 149 "" "" true SaveOk) s " p1 ").2 = Ok hit.
Proof.
  intros w0 s.
  destruct (ActiveGrace_spec (mkWorld 149 "" "" true SaveOk) s " p1 "
    [{| gr_ProjectID := "p1"; gr_GrantedBy := "alice"; gr_GrantedFrom := "opa_1";
        gr_CreatedAt := 100; gr_ExpiresAt := 150 |}]) as (hit & H & _).
  - apply GrantGrace_wf. by intros ? ?.
  - reflexivity.
  - reflexivity.
  - discriminate.
  - by exists hit.
Defined.

Lemma grace_window_witness :
  let w0 := mkWorld 100 "" "" true SaveOk in
  let s1 := (GrantGrace w0 Missing "p1" "alice" "opa_1" 50).1 in
  let calls := [(mkWorld 120 "" "" true SaveOk, CallGrant "p2" "bob" "opa_2" 10);
                (mkWorld 140 "" "" true SaveFailed, CallActive "p2")] in
  (exists g, (ActiveGrace (mkWorld 149 "" "" true SaveOk) (foldl grace_exec s1 calls) "p1").2 =
             Ok (Some g)) /\
  (ActiveGrace (mkWorld 150 "" "" true SaveOk) (foldl grace_exec s1 calls) "p1").2 = Ok None.
Proof.
  intros w0 s1 calls.
  assert (Forall (harmless "p1" 150) calls) as Hc by (repeat constructor; discriminate).
  edestruct (grace_window w0 Missing "p1" "alice" "opa_1" 50 s1) as [_ H];
    [vm_compute; reflexivity|discriminate|].
  split; [eexists|]; by rewrite H.
Defined.
