(* ===== verification/SecurityStore.v ===== *)
(** * Agent credentials (agent/security/store.go, agent/api/security_handler.go)

    Bootstrap provisioning, the list of long-term credentials and the
    authentication of a request.  The store keeps its state in memory and
    writes [security.json] in place after each change. *)
From stdpp Require Import base list strings gmap.
From S2P Require Import Prelude Model OperationTypes.
Local Open Scope string_scope.

Definition ProvisionStateOpen := "open".
Definition ProvisionStatePendingBootstrap := "pending-bootstrap".
Definition ProvisionStateProvisioned := "provisioned".
Definition TLSModeOff := "off".
Definition TLSModeAuto := "auto".
Definition defaultTokenRecordName := "控制面".
Definition legacyTokenRecordID := "legacy".

Inductive sec_error : Type :=
| ErrBootstrapRejected
| ErrTokenRequired
| ErrTokenRecordNotFound
| ErrSelfSigned   (** [GenerateSelfSigned] failed *)
| ErrSecurityIO.  (** reading, parsing or writing [security.json] failed *)

Record Options : Type := {
  opt_BootstrapToken : string;
  opt_RequireAuth : bool;
}.

Record TokenRecord : Type := {
  tr_ID : string;
  tr_Name : string;
  tr_Hash : string;
  tr_IssuedAt : time;
}.

Record State : Type := {
  st_RequireAuth : bool;
  st_ProvisionState : string;
  st_BootstrapTokenHash : string;
  st_ConsumedBootstrapHash : string;
  st_TokenHash : string;
  st_TokenRecords : list TokenRecord;
  st_TLSMode : string;
  st_CACert : string;
  st_ServerCert : string;
  st_ServerKey : string;
}.

Record ProvisionRequest : Type := {
  pr_Token : string;
  pr_TLSMode : string;
  pr_Hosts : list string;
  pr_Name : string;
}.

Record ProvisionResponse : Type := {
  pres_ProvisionState : string;
  pres_TLSMode : string;
  pres_CACert : string;
  pres_RestartRequired : bool;
}.

(** The memory of the process ([state], [localToken]) and [security.json]. *)
Record Store : Type := mkStore {
  sec_state : State;
  sec_localToken : string;
  sec_file : file State;
}.

(** ** Field updates *)

Definition set_records (records : list TokenRecord) (s : State) : State :=
  {| st_RequireAuth := st_RequireAuth s; st_ProvisionState := st_ProvisionState s;
     st_BootstrapTokenHash := st_BootstrapTokenHash s;
     st_ConsumedBootstrapHash := st_ConsumedBootstrapHash s;
     st_TokenHash := st_TokenHash s; st_TokenRecords := records; st_TLSMode := st_TLSMode s;
     st_CACert := st_CACert s; st_ServerCert := st_ServerCert s;
     st_ServerKey := st_ServerKey s |}.

(** Provisioned, with the bootstrap token burnt and remembered as consumed. *)
Definition set_provisioned (tlsMode : string) (s : State) : State :=
  {| st_RequireAuth := true; st_ProvisionState := ProvisionStateProvisioned;
     st_BootstrapTokenHash := ""; st_ConsumedBootstrapHash := st_BootstrapTokenHash s;
     st_TokenHash := st_TokenHash s; st_TokenRecords := st_TokenRecords s;
     st_TLSMode := tlsMode; st_CACert := st_CACert s; st_ServerCert := st_ServerCert s;
     st_ServerKey := st_ServerKey s |}.

Definition set_certificate (cert key ca : string) (s : State) : State :=
  {| st_RequireAuth := st_RequireAuth s; st_ProvisionState := st_ProvisionState s;
     st_BootstrapTokenHash := st_BootstrapTokenHash s;
     st_ConsumedBootstrapHash := st_ConsumedBootstrapHash s;
     st_TokenHash := st_TokenHash s; st_TokenRecords := st_TokenRecords s;
     st_TLSMode := st_TLSMode s; st_CACert := ca; st_ServerCert := cert; st_ServerKey := key |}.

Definition with_state (s : Store) (st : State) : Store :=
  mkStore st (sec_localToken s) (sec_file s).

(** [saveLocked]: the file is written in place. *)
Definition saveLocked (w : World) (s : Store) : Store * bool :=
  let '(f, ok) := write_direct (w_save w) (sec_file s) (sec_state s) in
  (mkStore (sec_state s) (sec_localToken s) f, ok).

Definition provisionResponseLocked (s : Store) : ProvisionResponse :=
  {| pres_ProvisionState := st_ProvisionState (sec_state s);
     pres_TLSMode := st_TLSMode (sec_state s);
     pres_CACert := st_CACert (sec_state s);
     pres_RestartRequired := (st_TLSMode (sec_state s) =? TLSModeAuto)%string |}.

Section Store.
Context {D : Digest}.

Definition hash (token : string) : string := bytes_digest token.

Definition verifyHash (expectedHash token : string) : bool :=
  if (expectedHash =? "")%string || (token =? "")%string then false
  else (expectedHash =? hash token)%string.

Definition AuthRequired (s : Store) : bool :=
  let st := sec_state s in
  st_RequireAuth st ||
  (st_ProvisionState st =? ProvisionStatePendingBootstrap)%string ||
  (st_ProvisionState st =? ProvisionStateProvisioned)%string.

Definition VerifyBootstrap (s : Store) (token : string) : bool :=
  verifyHash (st_BootstrapTokenHash (sec_state s)) token.

Definition VerifyTokenPrincipal (s : Store) (token : string) : option TokenRecord :=
  List.find (fun rec => verifyHash (tr_Hash rec) token) (st_TokenRecords (sec_state s)).

Definition VerifyToken (s : Store) (token : string) : bool :=
  match VerifyTokenPrincipal s token with Some _ => true | None => false end.

Definition SetLocalToken (s : Store) (token : string) : Store :=
  mkStore (sec_state s) token (sec_file s).

Definition VerifyLocalToken (s : Store) (token : string) : bool :=
  if (sec_localToken s =? "")%string || (token =? "")%string then false
  else (sec_localToken s =? token)%string.

Definition hasTokenHashLocked (s : Store) (tokenHash : string) : bool :=
  existsb (fun rec => (tr_Hash rec =? tokenHash)%string) (st_TokenRecords (sec_state s)).

Definition appendTokenRecordLocked (w : World) (s : Store) (name token : string)
    : Store * TokenRecord :=
  let name := TrimSpace name in
  let name := if (name =? "")%string then defaultTokenRecordName else name in
  let record := {| tr_ID := w_id w; tr_Name := name; tr_Hash := hash token;
                   tr_IssuedAt := w_now w |} in
  (with_state s
     (set_records (st_TokenRecords (sec_state s) ++ [record])%list (sec_state s)), record).

(** [selfSigned] is the outcome of [GenerateSelfSigned] for the given hosts. *)
Definition Provision (selfSigned : list string -> option (string * string * string))
    (w : World) (s : Store) (bootstrap : string) (req : ProvisionRequest)
    : Store * result sec_error ProvisionResponse :=
  if (TrimSpace (pr_Token req) =? "")%string then (s, Err ErrTokenRequired)
  else if (st_ProvisionState (sec_state s) =? ProvisionStateProvisioned)%string &&
          hasTokenHashLocked s (hash (pr_Token req)) then
    (s, Ok (provisionResponseLocked s))
  else if negb (verifyHash (st_BootstrapTokenHash (sec_state s)) bootstrap) then
    (s, Err ErrBootstrapRejected)
  else
    let '(s, _) := appendTokenRecordLocked w s (pr_Name req) (pr_Token req) in
    let tlsMode := if (pr_TLSMode req =? "")%string then TLSModeOff else pr_TLSMode req in
    let s := with_state s (set_provisioned tlsMode (sec_state s)) in
    if (tlsMode =? TLSModeAuto)%string then
      match selfSigned (pr_Hosts req) with
      | None => (s, Err ErrSelfSigned)
      | Some (cert, key, ca) =>
          let '(s, ok) := saveLocked w (with_state s (set_certificate cert key ca (sec_state s))) in
          (s, if ok then Ok (provisionResponseLocked s) else Err ErrSecurityIO)
      end
    else
      let '(s, ok) := saveLocked w s in
      (s, if ok then Ok (provisionResponseLocked s) else Err ErrSecurityIO).

Definition AppendTokenRecord (w : World) (s : Store) (name token : string)
    : Store * result sec_error TokenRecord :=
  if (TrimSpace token =? "")%string then (s, Err ErrTokenRequired)
  else
    let '(s, record) := appendTokenRecordLocked w s name token in
    let '(s, ok) := saveLocked w s in
    (s, if ok then Ok record else Err ErrSecurityIO).

Definition ListTokenRecords (s : Store) : list TokenRecord :=
  (fun rec => {| tr_ID := tr_ID rec; tr_Name := tr_Name rec; tr_Hash := "";
                 tr_IssuedAt := tr_IssuedAt rec |}) <$> st_TokenRecords (sec_state s).

Definition RevokeToken (w : World) (s : Store) (id : string) : Store * result sec_error unit :=
  let records := st_TokenRecords (sec_state s) in
  let kept := List.filter (fun rec => negb (tr_ID rec =? id)%string) records in
  if negb (existsb (fun rec => (tr_ID rec =? id)%string) records)
  then (s, Err ErrTokenRecordNotFound)
  else
    let '(s, ok) := saveLocked w (with_state s (set_records kept (sec_state s))) in
    (s, if ok then Ok tt else Err ErrSecurityIO).

(** ** Start of the process *)

Definition migrateLegacyTokenLocked (w : World) (st : State) : State * bool :=
  if negb (length (st_TokenRecords st) =? 0)%nat || (st_TokenHash st =? "")%string
  then (st, false)
  else
    ({| st_RequireAuth := st_RequireAuth st; st_ProvisionState := st_ProvisionState st;
        st_BootstrapTokenHash := st_BootstrapTokenHash st;
        st_ConsumedBootstrapHash := st_ConsumedBootstrapHash st; st_TokenHash := "";
        st_TokenRecords := [{| tr_ID := legacyTokenRecordID; tr_Name := defaultTokenRecordName;
                               tr_Hash := st_TokenHash st; tr_IssuedAt := w_now w |}];
        st_TLSMode := st_TLSMode st; st_CACert := st_CACert st;
        st_ServerCert := st_ServerCert st; st_ServerKey := st_ServerKey st |}, true).

Definition adoptBootstrapTokenLocked (st : State) (token : string) : State * bool :=
  let token := TrimSpace token in
  if (token =? "")%string then (st, false)
  else if verifyHash (st_BootstrapTokenHash st) token ||
          verifyHash (st_ConsumedBootstrapHash st) token then (st, false)
  else
    ({| st_RequireAuth := true; st_ProvisionState := ProvisionStatePendingBootstrap;
        st_BootstrapTokenHash := hash token; st_ConsumedBootstrapHash := "";
        st_TokenHash := ""; st_TokenRecords := []; st_TLSMode := ""; st_CACert := "";
        st_ServerCert := ""; st_ServerKey := "" |}, true).

Definition initial_state (opts : Options) : State :=
  let pending := opt_RequireAuth opts || negb (TrimSpace (opt_BootstrapToken opts) =? "")%string in
  {| st_RequireAuth := if pending then true else opt_RequireAuth opts;
     st_ProvisionState := if pending then ProvisionStatePendingBootstrap else ProvisionStateOpen;
     st_BootstrapTokenHash := if pending then hash (opt_BootstrapToken opts) else "";
     st_ConsumedBootstrapHash := ""; st_TokenHash := ""; st_TokenRecords := [];
     st_TLSMode := ""; st_CACert := ""; st_ServerCert := ""; st_ServerKey := "" |}.

(** [NewStore] and its [load]: the new file, and the store when it starts. *)
Definition NewStore (w : World) (f : file State) (opts : Options)
    : file State * result sec_error Store :=
  let save st :=
    let '(s, ok) := saveLocked w (mkStore st "" f) in
    (sec_file s, if ok then Ok s else Err ErrSecurityIO) in
  if negb (w_read_ok w) then (f, Err ErrSecurityIO)
  else
    match f with
    | Content st =>
        let '(st, migrated) := migrateLegacyTokenLocked w st in
        let '(st, adopted) := adoptBootstrapTokenLocked st (opt_BootstrapToken opts) in
        if migrated || adopted then save st else (f, Ok (mkStore st "" f))
    | Empty | Corrupt => (f, Err ErrSecurityIO)
    | Missing => save (initial_state opts)
    end.

(** ** Authentication of a request *)

Record Request : Type := {
  req_Path : string;
  req_Authorization : string;   (** the header *)
  req_access_token : string;    (** the query parameter *)
}.

Inductive PrincipalType : Type := PrincipalLocal | PrincipalRemote.

Record Principal : Type := {
  p_Type : PrincipalType;
  p_ID : string;
  p_Name : string;
}.

Definition securityBypassPath (path : string) : bool :=
  (path =? "/api/security/health")%string ||
  (path =? "/api/security/provision")%string ||
  (path =? "/api/security/adoption-requests")%string ||
  String.prefix "/api/security/adoption-requests/" path ||
  (path =? "/api/agents/install.sh")%string ||
  (path =? "/api/agents/install-binary")%string.

Definition bearerToken (r : Request) : string :=
  let header := TrimSpace (req_Authorization r) in
  if negb (String.prefix "Bearer " header) then ""
  else TrimSpace (String.substring 7 (String.length header - 7) header).

Inductive auth_outcome : Type :=
| Served (p : option Principal)   (** the next handler runs, with this principal *)
| Unauthorized.

(** [withSecurity]; [None] is the absent security store. *)
Definition withSecurity (store : option Store) (r : Request) : auth_outcome :=
  match store with
  | None => Served None
  | Some s =>
      if securityBypassPath (req_Path r) then Served None
      else
        let token := bearerToken r in
        let token := if (token =? "")%string && String.prefix "/ws/" (req_Path r)
                     then TrimSpace (req_access_token r) else token in
        if VerifyLocalToken s token then
          Served (Some {| p_Type := PrincipalLocal; p_ID := "local"; p_Name := "本机" |})
        else
          match VerifyTokenPrincipal s token with
          | Some rec =>
              Served (Some {| p_Type := PrincipalRemote; p_ID := tr_ID rec; p_Name := tr_Name rec |})
          | None => Unauthorized
          end
  end.
End Store.

(** ** Facts *)

Section StoreFacts.
Context {D : Digest}.

Lemma verifyHash_spec h t : verifyHash h t = true <-> h <> "" /\ t <> "" /\ h = hash t.
Proof.
  unfold verifyHash. destruct (String.eqb_spec h ""), (String.eqb_spec t ""); simpl;
    rewrite ?String.eqb_eq; naive_solver.
Qed.

Lemma VerifyToken_spec s t :
  VerifyToken s t = true <->
  exists rec, rec ∈ st_TokenRecords (sec_state s) /\ verifyHash (tr_Hash rec) t = true.
Proof.
  unfold VerifyToken, VerifyTokenPrincipal. destruct (List.find _ _) as [rec|] eqn:E.
  - apply List.find_some in E as [Hin Hv]. split; [|done]. intros _. exists rec.
    split; [by apply list_elem_of_In|done].
  - split; [done|]. intros (rec & Hin & Hv).
    apply list_elem_of_In in Hin. by rewrite (List.find_none _ _ E rec Hin) in Hv.
Qed.

(** C11: outside the bypass list a request is served only for a valid credential,
    under the identity that credential was issued for: the local token, or the
    record whose digest it matches; the query parameter counts for WebSockets
    without a bearer token only; and a request without a token is refused. *)
Theorem withSecurity_sound s r p :
  securityBypassPath (req_Path r) = false ->
  withSecurity (Some s) r = Served p ->
  exists token,
    token <> "" /\
    (token = bearerToken r \/
     (bearerToken r = "" /\ String.prefix "/ws/" (req_Path r) = true /\
      token = TrimSpace (req_access_token r))) /\
    ((token = sec_localToken s /\
      p = Some {| p_Type := PrincipalLocal; p_ID := "local"; p_Name := "本机" |}) \/
     exists rec, rec ∈ st_TokenRecords (sec_state s) /\ tr_Hash rec = hash token /\
       p = Some {| p_Type := PrincipalRemote; p_ID := tr_ID rec; p_Name := tr_Name rec |}).
Proof.
  intros Hb. unfold withSecurity. rewrite Hb. set (token := if _ && _ then _ else _).
  assert (token = bearerToken r \/
     (bearerToken r = "" /\ String.prefix "/ws/" (req_Path r) = true /\
      token = TrimSpace (req_access_token r))) as Htok.
  { unfold token. destruct (String.eqb_spec (bearerToken r) "") as [E|]; simpl; [|by left].
    destruct (String.prefix _ _); [by right|by left]. }
  clearbody token. unfold VerifyLocalToken.
  destruct (VerifyTokenPrincipal s token) as [rec|] eqn:Hv; simpl.
  - apply List.find_some in Hv as [Hin Hv]. apply list_elem_of_In in Hin.
    apply verifyHash_spec in Hv as (_ & Hne & Hh).
    destruct (_ || _); [|destruct (String.eqb_spec (sec_localToken s) token)]; intros [= <-];
      exists token; (split; [done|split; [done|]]); [right; by exists rec|by left|right; by exists rec].
  - destruct (_ || _) eqn:He; [done|]. apply orb_false_iff in He as [_ He].
    apply String.eqb_neq in He.
    destruct (String.eqb_spec (sec_localToken s) token); [|done]. intros [= <-].
    exists token. split; [done|split; [done|by left]].
Qed.

(** A provisioned store has no bootstrap token left. *)
Definition sec_wf (st : State) : Prop :=
  st_ProvisionState st = ProvisionStateProvisioned -> st_BootstrapTokenHash st = "".

Lemma hasTokenHashLocked_spec s h :
  hasTokenHashLocked s h = true <->
  exists rec, rec ∈ st_TokenRecords (sec_state s) /\ tr_Hash rec = h.
Proof.
  unfold hasTokenHashLocked. rewrite existsb_exists. setoid_rewrite String.eqb_eq.
  by setoid_rewrite list_elem_of_In.
Qed.

(** What a successful [Provision] leaves behind. *)
Lemma Provision_inv ss w s b req s' resp :
  sec_wf (sec_state s) -> Provision ss w s b req = (s', Ok resp) ->
  TrimSpace (pr_Token req) <> "" /\ hasTokenHashLocked s' (hash (pr_Token req)) = true /\
  st_ProvisionState (sec_state s') = ProvisionStateProvisioned /\
  st_BootstrapTokenHash (sec_state s') = "" /\
  resp = provisionResponseLocked s' /\
  (s' = s \/
   (sec_file s' = Content (sec_state s') /\
    verifyHash (st_BootstrapTokenHash (sec_state s)) b = true /\
    st_ConsumedBootstrapHash (sec_state s') = st_BootstrapTokenHash (sec_state s) /\
    exists rec, st_TokenRecords (sec_state s') =
      (st_TokenRecords (sec_state s) ++ [rec])%list /\ tr_Hash rec = hash (pr_Token req))).
Proof.
  intros Hwf. unfold Provision.
  destruct (String.eqb_spec (TrimSpace (pr_Token req)) "") as [|Hne]; [done|].
  destruct (_ && _) eqn:Hrep.
  { apply andb_prop in Hrep as [Hp%String.eqb_eq Hh]. intros [= <- <-].
    split_and!; try done; [by apply Hwf|by left]. }
  destruct (verifyHash _ b) eqn:Hb; [|done]. cbv beta iota zeta delta [negb].
  unfold appendTokenRecordLocked. cbv beta iota zeta.
  set (rec := {| tr_ID := w_id w |}).
  set (s1 := with_state _ (set_provisioned _ _)).
  assert (forall s2, st_TokenRecords (sec_state s2) = st_TokenRecords (sec_state s1) ->
    hasTokenHashLocked s2 (hash (pr_Token req)) = true) as Hhas.
  { intros s2 He. apply hasTokenHashLocked_spec. exists rec. rewrite He. simpl.
    split; [apply elem_of_app; right; left|done]. }
  destruct (_ =? TLSModeAuto)%string.
  - destruct (ss _) as [[[c k] ca]|]; [|done].
    unfold saveLocked. destruct (w_save w); simpl; intros [= <- <-].
    split_and!; try done; [by apply Hhas|right; split_and!; try done; by exists rec].
  - unfold saveLocked. destruct (w_save w); simpl; intros [= <- <-].
    split_and!; try done; [by apply Hhas|right; split_and!; try done; by exists rec].
Qed.

(** C8: the bootstrap token is single-use: after a successful [Provision] it is
    burnt, so no request can add another credential with any bootstrap token,
    while replaying the same long-term token, whatever the bootstrap token
    presented, is answered alike and changes nothing. *)
Theorem Provision_single_use ss w s b req s' resp ss2 w2 b2 req2 :
  sec_wf (sec_state s) ->
  Provision ss w s b req = (s', Ok resp) ->
  TrimSpace (pr_Token req2) <> "" ->
  Provision ss2 w2 s' b2 req2 =
    (s', if hasTokenHashLocked s' (hash (pr_Token req2)) then Ok resp
         else Err ErrBootstrapRejected) /\
  (pr_Token req2 = pr_Token req -> hasTokenHashLocked s' (hash (pr_Token req2)) = true).
Proof.
  intros Hwf (Hne & Hh & Hp & Hb & -> & _)%Provision_inv Hne2; [|done].
  split; [|by intros ->]. unfold Provision.
  rewrite (proj2 (String.eqb_neq _ _) Hne2), Hp, String.eqb_refl, andb_true_l.
  destruct (hasTokenHashLocked s' (hash (pr_Token req2))); [done|].
  rewrite Hb. unfold verifyHash. done.
Qed.

(** Restart and reinstall are told apart: started again with the bootstrap
    token it was provisioned with, the agent keeps its state and every issued
    credential; started with another token it waits for provisioning with that
    token and no credential issued before is valid any more. *)
Theorem NewStore_restart_or_reinstall {HD : CollisionFree D} ss w s b req s' resp w' b' ra :
  sec_wf (sec_state s) -> Provision ss w s b req = (s', Ok resp) -> s' <> s ->
  w_read_ok w' = true -> w_save w' = SaveOk -> TrimSpace b = b -> TrimSpace b' <> "" ->
  exists f s2,
    NewStore w' (sec_file s') {| opt_BootstrapToken := b'; opt_RequireAuth := ra |} = (f, Ok s2) /\
    (TrimSpace b' = b -> sec_state s2 = sec_state s' /\ f = sec_file s') /\
    (TrimSpace b' <> b ->
       st_ProvisionState (sec_state s2) = ProvisionStatePendingBootstrap /\
       VerifyBootstrap s2 (TrimSpace b') = true /\ f = Content (sec_state s2) /\
       forall token, VerifyToken s2 token = false).
Proof.
  intros Hwf HP Hs Hr Hw Hb Hb'.
  destruct (Provision_inv _ _ _ _ _ _ _ Hwf HP) as (_ & _ & _ & Hburnt & _ & [?|Hnew]); [done|].
  destruct Hnew as (Hf & Hv & Hc & rec & Hrecs & _). rewrite Hf.
  apply verifyHash_spec in Hv as (Hn1 & Hn2 & Hv).
  unfold NewStore. rewrite Hr. cbv beta iota zeta delta [negb].
  assert (migrateLegacyTokenLocked w' (sec_state s') = (sec_state s', false)) as ->.
  { unfold migrateLegacyTokenLocked. rewrite Hrecs, length_app. simpl.
    by rewrite Nat.add_comm. }
  simpl opt_BootstrapToken. unfold adoptBootstrapTokenLocked.
  rewrite (proj2 (String.eqb_neq _ _) Hb'). rewrite Hburnt, Hc.
  assert (verifyHash "" (TrimSpace b') = false) as -> by done. simpl orb.
  destruct (verifyHash (st_BootstrapTokenHash (sec_state s)) (TrimSpace b')) eqn:Hv2.
  - apply verifyHash_spec in Hv2 as (_ & _ & Hv2). rewrite Hv in Hv2.
    apply bytes_digest_inj in Hv2. eexists _, _. split; [done|]. split; [done|].
    intros []. congruence.
  - unfold saveLocked. rewrite Hw. simpl. eexists _, _. split; [done|]. split.
    + intros He. exfalso. apply not_true_iff_false in Hv2. apply Hv2.
      apply verifyHash_spec. rewrite He. done.
    + intros _. split_and!; [done| |done|done].
      unfold VerifyBootstrap. simpl. apply verifyHash_spec. split_and!; [|done|done].
      apply bytes_digest_nonempty.
Qed.

(** Revocation is precise: the revoked record stops authenticating at once and
    for good (it is gone from the file), and every token with another valid
    record keeps working; nothing else of the state changes. *)
Theorem RevokeToken_precise w s id s' :
  RevokeToken w s id = (s', Ok tt) ->
  (forall token, VerifyToken s' token = true <->
     exists rec, rec ∈ st_TokenRecords (sec_state s) /\ tr_ID rec <> id /\
                 verifyHash (tr_Hash rec) token = true) /\
  sec_file s' = Content (sec_state s') /\
  sec_state s' = set_records (st_TokenRecords (sec_state s')) (sec_state s) /\
  (exists rec, rec ∈ st_TokenRecords (sec_state s) /\ tr_ID rec = id).
Proof.
  unfold RevokeToken. destruct (existsb _ _) eqn:Hex; [|done].
  cbv beta iota zeta delta [negb]. unfold saveLocked.
  destruct (w_save w); simpl; intros [= <-]. split_and!; [|done|done|].
  - intros token. rewrite VerifyToken_spec. simpl.
    setoid_rewrite list_elem_of_In. setoid_rewrite filter_In.
    setoid_rewrite (negb_true_iff (String.eqb _ _)). setoid_rewrite String.eqb_neq.
    naive_solver.
  - apply existsb_exists in Hex as (rec & Hin & He). exists rec.
    split; [by apply list_elem_of_In|by apply String.eqb_eq].
Qed.

(** A provisioning whose file write fails is not undone in memory: the caller
    gets an error, but repeating the request succeeds without writing anything,
    and after a restart from that file the credential it was promised is
    unknown. *)
Theorem Provision_lost_write ss w s b req w2 b2 :
  (forall rec, rec ∈ st_TokenRecords (sec_state s) -> tr_Hash rec <> hash (pr_Token req)) ->
  TrimSpace (pr_Token req) <> "" ->
  verifyHash (st_BootstrapTokenHash (sec_state s)) b = true ->
  pr_TLSMode req <> TLSModeAuto -> w_save w = SaveFailed ->
  exists s1 resp,
    Provision ss w s b req = (s1, Err ErrSecurityIO) /\
    Provision ss w2 s1 b2 req = (s1, Ok resp) /\
    pres_ProvisionState resp = ProvisionStateProvisioned /\
    sec_file s1 = sec_file s.
Proof.
  intros Hno Hne Hb Htls Hw.
  assert (hasTokenHashLocked s (hash (pr_Token req)) = false) as Hh.
  { apply not_true_iff_false. intros (rec & Hin & He)%hasTokenHashLocked_spec.
    by apply (Hno rec). }
  unfold Provision at 1. rewrite (proj2 (String.eqb_neq _ _) Hne), Hh, andb_false_r, Hb.
  unfold appendTokenRecordLocked. cbv beta iota zeta delta [negb].
  assert (((if (pr_TLSMode req =? "")%string then TLSModeOff else pr_TLSMode req)
            =? TLSModeAuto)%string = false) as ->.
  { destruct (String.eqb_spec (pr_TLSMode req) ""); [done|by apply String.eqb_neq]. }
  unfold saveLocked at 1. rewrite Hw. cbv beta iota zeta delta [write_direct].
  eexists _, _. split; [done|]. split; [|split; [|done]].
  - unfold Provision. rewrite (proj2 (String.eqb_neq _ _) Hne).
    unfold hasTokenHashLocked. cbn [sec_state with_state set_records set_provisioned
      st_ProvisionState st_TokenRecords]. rewrite existsb_app. cbn [existsb tr_Hash].
    rewrite !String.eqb_refl, orb_true_r. simpl. reflexivity.
  - done.
Qed.

Lemma bearerToken_trimmed r : TrimSpace (bearerToken r) = bearerToken r.
Proof. unfold bearerToken. destruct (negb _); [done|]. apply TrimSpace_idem. Qed.

(** The first start stores the digest of the bootstrap token as given, while a
    restart and the bearer header use it trimmed: with surrounding white space
    in the option, the freshly installed agent accepts no bearer token, until a
    restart resets it to the trimmed one. *)
Theorem NewStore_untrimmed_bootstrap {HD : CollisionFree D} w opts s f :
  NewStore w Missing opts = (f, Ok s) ->
  TrimSpace (opt_BootstrapToken opts) <> "" ->
  TrimSpace (opt_BootstrapToken opts) <> opt_BootstrapToken opts ->
  (forall r, VerifyBootstrap s (bearerToken r) = false) /\
  (forall w2, w_read_ok w2 = true -> w_save w2 = SaveOk ->
     exists f2 s2, NewStore w2 f opts = (f2, Ok s2) /\
       VerifyBootstrap s2 (TrimSpace (opt_BootstrapToken opts)) = true).
Proof.
  intros HN Hne Hdiff. unfold NewStore in HN. destruct (w_read_ok w); [|done]. simpl in HN.
  unfold saveLocked in HN. destruct (w_save w); simpl in HN; simplify_eq.
  assert (st_BootstrapTokenHash (initial_state opts) = hash (opt_BootstrapToken opts)) as Hi.
  { unfold initial_state. simpl. rewrite (proj2 (String.eqb_neq _ _) Hne), orb_true_r. done. }
  assert (forall t, TrimSpace t = t ->
    verifyHash (st_BootstrapTokenHash (initial_state opts)) t = false) as Hno.
  { intros t Ht. apply not_true_iff_false. rewrite Hi, verifyHash_spec.
    intros (_ & _ & He%bytes_digest_inj). congruence. }
  split.
  - intros r. apply Hno, bearerToken_trimmed.
  - intros w2 Hr Hw. unfold NewStore. rewrite Hr. cbv beta iota zeta delta [negb].
    assert (migrateLegacyTokenLocked w2 (initial_state opts) = (initial_state opts, false)) as -> by done.
    unfold adoptBootstrapTokenLocked. rewrite (proj2 (String.eqb_neq _ _) Hne).
    rewrite Hno by apply TrimSpace_idem.
    assert (verifyHash (st_ConsumedBootstrapHash (initial_state opts))
      (TrimSpace (opt_BootstrapToken opts)) = false) as -> by done.
    unfold saveLocked. rewrite Hw. simpl. eexists _, _. split; [done|].
    unfold VerifyBootstrap. simpl. apply verifyHash_spec.
    split_and!; [apply bytes_digest_nonempty|done|done].
Qed.
End StoreFacts.

(** ** Examples *)

Section Examples.
Local Instance security_digest : Digest := identity_digest.
Local Instance security_collision_free : CollisionFree security_digest :=
  identity_digest_collision_free.

Definition example_opts (token : string) : Options :=
  {| opt_BootstrapToken := token; opt_RequireAuth := true |}.

Definition no_certificate (hosts : list string) : option (string * string * string) := None.

Definition example_fresh : Store :=
  mkStore (initial_state (example_opts "boot")) "local" (Content (initial_state (example_opts "boot"))).

Definition example_request (token : string) : ProvisionRequest :=
  {| pr_Token := token; pr_TLSMode := ""; pr_Hosts := []; pr_Name := "desk" |}.

Definition example_ok_world (id : string) : World := mkWorld 1000 id "" true SaveOk.

Definition example_provisioned : Store :=
  (Provision no_certificate (example_ok_world "r1") example_fresh "boot" (example_request "long1")).1.

Lemma withSecurity_sound_witness :
  let r := {| req_Path := "/ws/logs"; req_Authorization := ""; req_access_token := " long1 " |} in
  exists p, withSecurity (Some example_provisioned) r = Served p /\
    exists token, token <> "" /\ token = "long1".
Proof.
  intros r. eexists. split; [vm_compute; reflexivity|].
  edestruct (withSecurity_sound example_provisioned r) as (t & Hne & Ht & _);
    [vm_compute; reflexivity|vm_compute; reflexivity|].
  exists t. split; [exact Hne|]. vm_compute in Ht. destruct Ht as [Ht|(_ & _ & Ht)]; [|exact Ht].
  by destruct Hne.
Defined.

Lemma Provision_single_use_witness :
  Provision no_certificate (example_ok_world "r2") example_provisioned "boot"
    (example_request "long2") = (example_provisioned, Err ErrBootstrapRejected).
Proof.
  edestruct (Provision_single_use no_certificate (example_ok_world "r1") example_fresh "boot"
    (example_request "long1") example_provisioned) as [H _];
    [by vm_compute|vm_compute; reflexivity| |rewrite H; vm_compute; reflexivity].
  discriminate.
Defined.

Lemma NewStore_restart_or_reinstall_witness :
  exists f s2,
    NewStore (example_ok_world "r3") (sec_file example_provisioned) (example_opts "other") = (f, Ok s2) /\
    VerifyToken s2 "long1" = false.
Proof.
  edestruct (NewStore_restart_or_reinstall no_certificate (example_ok_world "r1") example_fresh
    "boot" (example_request "long1") example_provisioned (provisionResponseLocked example_provisioned) (example_ok_world "r3") "other" true)
    as (f & s2 & H1 & _ & H2);
    [by vm_compute|vm_compute; reflexivity|discriminate|reflexivity|reflexivity|by vm_compute
    |discriminate|].
  exists f, s2. split; [exact H1|]. apply H2. discriminate.
Defined.

Lemma RevokeToken_precise_witness :
  exists s', RevokeToken (example_ok_world "") example_provisioned "r1" = (s', Ok tt) /\
             VerifyToken s' "long1" = false.
Proof.
  eexists. split; [vm_compute; reflexivity|].
  edestruct (RevokeToken_precise (example_ok_world "") example_provisioned "r1") as [H _];
    [vm_compute; reflexivity|].
  apply not_true_iff_false. intros (rec & Hin & Hid & _)%H.
  apply Hid. vm_compute in Hin. apply list_elem_of_singleton in Hin. by subst rec.
Defined.

Lemma Provision_lost_write_witness :
  exists s1 resp,
    Provision no_certificate (mkWorld 1 "r" "" true SaveFailed) example_fresh "boot"
      (example_request "long1") = (s1, Err ErrSecurityIO) /\
    Provision no_certificate (example_ok_world "") s1 "boot" (example_request "long1") =
      (s1, Ok resp) /\
    sec_file s1 = sec_file example_fresh.
Proof.
  edestruct (Provision_lost_write no_certificate (mkWorld 1 "r" "" true SaveFailed) example_fresh
    "boot" (example_request "long1") (example_ok_world "") "boot") as (s1 & resp & H1 & H2 & _ & H3).
  - intros rec Hrec. by apply elem_of_nil in Hrec.
  - discriminate.
  - reflexivity.
  - discriminate.
  - reflexivity.
  - exists s1, resp. by split.
Defined.

Lemma NewStore_untrimmed_bootstrap_witness :
  exists f s, NewStore (example_ok_world "") Missing (example_opts "boot ") = (f, Ok s) /\
    VerifyBootstrap s (bearerToken {| req_Path := "/api/security/provision";
      req_Authorization := "Bearer boot "; req_access_token := "" |}) = false.
Proof.
  eexists _, _. split; [vm_compute; reflexivity|].
  eapply (NewStore_untrimmed_bootstrap (example_ok_world "") (example_opts "boot "));
    [vm_compute; reflexivity|discriminate|discriminate].
Defined.
End Examples.
