(* ===== verification/Adoption.v ===== *)
(** * Adoption of an agent by a new control plane (agent/security/adoption.go)

    [AdoptionManager]: requests held in memory, approved or rejected by an
    existing control plane, whose one-time token is handed out once and
    exchanged once for an independent long-term credential.  [Exchange] is split
    where the code releases its lock, so that runs interleave the two halves. *)
From stdpp Require Import base list strings gmap.
From Stdlib Require Import Ascii.
From S2P Require Import Prelude Model OperationTypes SecurityStore.
Local Open Scope string_scope.

Definition AdoptionStatePending := "pending".
Definition AdoptionStateApproved := "approved".
Definition AdoptionStateRejected := "rejected".
Definition AdoptionStateExpired := "expired".

Definition AdoptionRequestTTL : duration := (10 * minute)%Z.
Definition AdoptionRateLimitWindow : duration := (30 * second)%Z.
Definition AdoptionRateLimitMax : nat := 3.
Definition AdoptionNameMaxRunes : nat := 64.
Definition AdoptionPairingCodeLength : nat := 6.
Definition adoptionPairingCodeAlphabet : list ascii :=
  String.list_ascii_of_string "ABCDEFGHJKLMNPQRSTUVWXYZ23456789".

Inductive adoption_error : Type :=
| ErrAdoptionNotFound
| ErrAdoptionExpired
| ErrAdoptionRejected
| ErrAdoptionAlreadyDecided
| ErrAdoptionTokenInvalid
| ErrAdoptionTokenConsumed
| ErrGenerateToken
| ErrAdoptionStore (e : sec_error).

Record AdoptionRequest : Type := {
  ar_ID : string;
  ar_Name : string;
  ar_PairingCode : string;
  ar_State : string;
  ar_CreatedAt : time;
  ar_ExpiresAt : time;
}.

Record adoptionRecord : Type := mkRecord {
  rec_request : AdoptionRequest;
  rec_plaintextToken : string;
  rec_tokenIssued : bool;
  rec_adoptionHash : string;
  rec_exchanged : bool;
}.

(** The manager's mutable part: its map of records.  The records never leave it. *)
Abbreviation AdoptionManager := (gmap string adoptionRecord) (only parsing).

(** ** Pairing code and display name *)

Definition hex_digit (c : ascii) : nat :=
  let n := nat_of_ascii c in
  if (97 <=? n)%nat then (n - 87)%nat else (n - 48)%nat.

(** Byte [i] of the digest whose hexadecimal text is [s]. *)
Definition hex_byte (s : list ascii) (i : nat) : nat :=
  match s !! (2 * i)%nat, s !! (2 * i + 1)%nat with
  | Some a, Some b => (16 * hex_digit a + hex_digit b)%nat
  | _, _ => 0%nat
  end.

Definition PairingCode `{Digest} (requestID : string) : string :=
  let sum := String.list_ascii_of_string (bytes_digest (TrimSpace requestID)) in
  String.string_of_list_ascii
    ((fun i => nth (hex_byte sum i mod length adoptionPairingCodeAlphabet)
                   adoptionPairingCodeAlphabet "A"%char) <$>
     seq 0 AdoptionPairingCodeLength).

Definition is_control (b : ascii) : bool :=
  let n := nat_of_ascii b in (n <? 32)%nat || (n =? 127)%nat.

(** UTF-8 continuation bytes: a rune starts at each other byte. *)
Definition is_continuation (b : ascii) : bool :=
  let n := nat_of_ascii b in (128 <=? n)%nat && (n <? 192)%nat.

Definition rune_count (l : list ascii) : nat :=
  length (List.filter (fun b => negb (is_continuation b)) l).

Fixpoint take_runes (n : nat) (l : list ascii) : list ascii :=
  match l with
  | [] => []
  | b :: l' =>
      if is_continuation b then b :: take_runes n l'
      else match n with
           | O => []
           | S n' => b :: take_runes n' l'
           end
  end.

Definition sanitizeAdoptionName (name : string) : string :=
  let replaced := String.string_of_list_ascii
    ((fun b => if is_control b then " "%char else b) <$> String.list_ascii_of_string name) in
  let trimmed := TrimSpace replaced in
  if (trimmed =? "")%string then defaultTokenRecordName
  else
    let runes := String.list_ascii_of_string trimmed in
    let trimmed :=
      if (AdoptionNameMaxRunes <? rune_count runes)%nat
      then TrimSpace (String.string_of_list_ascii (take_runes AdoptionNameMaxRunes runes))
      else trimmed in
    if (trimmed =? "")%string then defaultTokenRecordName else trimmed.

(** ** Operations *)

Definition set_ar_state (st : string) (r : AdoptionRequest) : AdoptionRequest :=
  {| ar_ID := ar_ID r; ar_Name := ar_Name r; ar_PairingCode := ar_PairingCode r;
     ar_State := st; ar_CreatedAt := ar_CreatedAt r; ar_ExpiresAt := ar_ExpiresAt r |}.

Definition set_rec_state (st : string) (r : adoptionRecord) : adoptionRecord :=
  mkRecord (set_ar_state st (rec_request r)) (rec_plaintextToken r) (rec_tokenIssued r)
           (rec_adoptionHash r) (rec_exchanged r).

Definition rec_expired (now : time) (r : adoptionRecord) : bool :=
  time_after now (ar_ExpiresAt (rec_request r)).

Definition counts_as_pending (now : time) (r : adoptionRecord) : bool :=
  (ar_State (rec_request r) =? AdoptionStatePending)%string &&
  negb (rec_expired now r) &&
  (time_sub now (ar_CreatedAt (rec_request r)) <=? AdoptionRateLimitWindow)%Z.

Definition pendingCountWithinWindowLocked (m : AdoptionManager) (now : time) : nat :=
  length (List.filter (fun p => counts_as_pending now p.2) (map_to_list m)).

Definition evictExpiredLocked (m : AdoptionManager) (now : time) : AdoptionManager :=
  filter (fun p => rec_expired now p.2 = false) m.

Section Manager.
Context {D : Digest}.

Definition TryCreate (w : World) (m : AdoptionManager) (name : string)
    : AdoptionManager * option AdoptionRequest :=
  let name := sanitizeAdoptionName name in
  let now := w_now w in
  let m := evictExpiredLocked m now in
  if (AdoptionRateLimitMax <=? pendingCountWithinWindowLocked m now)%nat then (m, None)
  else
    let id := w_id w in
    let req := {| ar_ID := id; ar_Name := name; ar_PairingCode := PairingCode id;
                  ar_State := AdoptionStatePending; ar_CreatedAt := now;
                  ar_ExpiresAt := time_add now AdoptionRequestTTL |} in
    (<[id := mkRecord req "" false "" false]> m, Some req).

(** The guard shared by [Approve] and [Reject]. *)
Definition decidable_now (now : time) (r : adoptionRecord) : option adoption_error :=
  let st := ar_State (rec_request r) in
  if rec_expired now r then Some ErrAdoptionExpired
  else if (st =? AdoptionStatePending)%string then None
  else if (st =? AdoptionStateApproved)%string then Some ErrAdoptionAlreadyDecided
  else if (st =? AdoptionStateRejected)%string then Some ErrAdoptionRejected
  else Some ErrAdoptionExpired.

(** [gen] is the outcome of [GenerateToken]. *)
Definition Approve (w : World) (gen : option string) (m : AdoptionManager) (id : string)
    : AdoptionManager * result adoption_error string :=
  let id := TrimSpace id in
  match m !! id with
  | None => (m, Err ErrAdoptionNotFound)
  | Some r =>
      let now := w_now w in
      if rec_expired now r
      then (<[id := set_rec_state AdoptionStateExpired r]> m, Err ErrAdoptionExpired)
      else
        match decidable_now now r with
        | Some e => (m, Err e)
        | None =>
            match gen with
            | None => (m, Err ErrGenerateToken)
            | Some token =>
                (<[id := mkRecord (set_ar_state AdoptionStateApproved (rec_request r)) token
                           (rec_tokenIssued r) (hash token) (rec_exchanged r)]> m, Ok token)
            end
        end
  end.

Definition Reject (w : World) (m : AdoptionManager) (id : string)
    : AdoptionManager * result adoption_error unit :=
  let id := TrimSpace id in
  match m !! id with
  | None => (m, Err ErrAdoptionNotFound)
  | Some r =>
      let now := w_now w in
      if rec_expired now r
      then (<[id := set_rec_state AdoptionStateExpired r]> m, Err ErrAdoptionExpired)
      else
        match decidable_now now r with
        | Some e => (m, Err e)
        | None => (<[id := set_rec_state AdoptionStateRejected r]> m, Ok tt)
        end
  end.

Definition Get (w : World) (m : AdoptionManager) (id : string)
    : AdoptionManager * result adoption_error (AdoptionRequest * string) :=
  let id := TrimSpace id in
  match m !! id with
  | None => (m, Err ErrAdoptionNotFound)
  | Some r =>
      let st := ar_State (rec_request r) in
      let r := if ((st =? AdoptionStatePending)%string || (st =? AdoptionStateApproved)%string) &&
                  rec_expired (w_now w) r
               then set_rec_state AdoptionStateExpired r else r in
      let m := <[id := r]> m in
      if negb (ar_State (rec_request r) =? AdoptionStateApproved)%string || rec_tokenIssued r
      then (m, Ok (rec_request r, ""))
      else (<[id := mkRecord (rec_request r) "" true (rec_adoptionHash r) (rec_exchanged r)]> m,
            Ok (rec_request r, rec_plaintextToken r))
  end.

(** The first half of [Exchange], under the lock.  [iter] is the order in which
    the call ranges over the map. *)
Definition Exchange_claim (w : World) (iter : list (string * adoptionRecord))
    (m : AdoptionManager) (adoptionToken : string)
    : AdoptionManager * result adoption_error (string * string) :=
  let token := TrimSpace adoptionToken in
  if (token =? "")%string then (m, Err ErrAdoptionTokenInvalid)
  else
    match List.find (fun p => verifyHash (rec_adoptionHash p.2) token) iter with
    | None => (m, Err ErrAdoptionTokenInvalid)
    | Some (id, r) =>
        if rec_expired (w_now w) r
        then (<[id := set_rec_state AdoptionStateExpired r]> m, Err ErrAdoptionExpired)
        else if rec_exchanged r then (m, Err ErrAdoptionTokenConsumed)
        else (<[id := mkRecord (rec_request r) (rec_plaintextToken r) (rec_tokenIssued r)
                        (rec_adoptionHash r) true]> m,
              Ok (id, ar_Name (rec_request r)))
    end.

(** The second half: the long-term credential, in the security store. *)
Definition Exchange_issue (w : World) (gen : option string) (s : Store) (name : string)
    : Store * result adoption_error (string * TokenRecord) :=
  match gen with
  | None => (s, Err ErrGenerateToken)
  | Some longToken =>
      match AppendTokenRecord w s name longToken with
      | (s, Ok record) => (s, Ok (longToken, record))
      | (s, Err e) => (s, Err (ErrAdoptionStore e))
      end
  end.

Definition Exchange (w : World) (gen : option string) (iter : list (string * adoptionRecord))
    (m : AdoptionManager) (s : Store) (adoptionToken : string)
    : AdoptionManager * Store * result adoption_error (string * TokenRecord) :=
  match Exchange_claim w iter m adoptionToken with
  | (m, Err e) => (m, s, Err e)
  | (m, Ok (_, name)) => let '(s, r) := Exchange_issue w gen s name in (m, s, r)
  end.
End Manager.

(** ** The display name is bounded and printable *)

Lemma take_runes_bound n l : (rune_count (take_runes n l) <= n)%nat.
Proof.
  unfold rune_count. revert n; induction l as [|b l IH]; intros n; simpl; [lia|].
  destruct (is_continuation b) eqn:E; simpl; [rewrite E; apply IH|].
  destruct n as [|n]; simpl; [lia|]. rewrite E. simpl. specialize (IH n). lia.
Qed.

Lemma take_runes_sublist n l b : b ∈ take_runes n l -> b ∈ l.
Proof.
  revert n; induction l as [|c l IH]; intros n; simpl; [done|].
  rewrite elem_of_cons. destruct (is_continuation c); [|destruct n as [|n]];
    rewrite ?elem_of_cons, ?elem_of_nil; naive_solver.
Qed.

(** Trimming cuts a list of bytes at both ends. *)
Lemma TrimSpace_infix s :
  exists k k', String.list_ascii_of_string s =
               (k ++ String.list_ascii_of_string (TrimSpace s) ++ k')%list.
Proof.
  unfold TrimSpace. rewrite String.list_ascii_of_string_of_list_ascii.
  set (l := String.list_ascii_of_string s).
  destruct (trim_left_fuel_suffix space_encodings (length l) l) as [k Hk].
  fold (trim_left l) in Hk.
  destruct (trim_right_prefix (trim_left l)) as [k' Hk'].
  exists k, k'. by rewrite <-Hk'.
Qed.

Lemma rune_count_app l k : rune_count (l ++ k)%list = (rune_count l + rune_count k)%nat.
Proof. unfold rune_count. by rewrite List.filter_app, length_app. Qed.

Lemma TrimSpace_rune_count s :
  (rune_count (String.list_ascii_of_string (TrimSpace s)) <=
   rune_count (String.list_ascii_of_string s))%nat.
Proof. destruct (TrimSpace_infix s) as (k & k' & ->). rewrite !rune_count_app. lia. Qed.

Lemma TrimSpace_elem s b :
  b ∈ String.list_ascii_of_string (TrimSpace s) -> b ∈ String.list_ascii_of_string s.
Proof.
  destruct (TrimSpace_infix s) as (k & k' & ->). rewrite !elem_of_app. tauto.
Qed.

Definition printable (s : string) : Prop :=
  Forall (fun b => is_control b = false) (String.list_ascii_of_string s).

Lemma printable_sub s t :
  (forall b, b ∈ String.list_ascii_of_string t -> b ∈ String.list_ascii_of_string s) ->
  printable s -> printable t.
Proof. unfold printable. rewrite !Forall_forall. auto. Qed.

(** Whatever an anonymous caller sends as its name, what is stored and logged
    is non-empty, without control characters (no line can be forged), and at
    most 64 characters long. *)
Theorem sanitizeAdoptionName_bounds name :
  let s := sanitizeAdoptionName name in
  s <> "" /\ printable s /\
  (rune_count (String.list_ascii_of_string s) <= AdoptionNameMaxRunes)%nat.
Proof.
  assert (printable defaultTokenRecordName) as Hdef.
  { apply (bool_decide_eq_true_1 (Forall _ _)). by vm_compute. }
  assert (rune_count (String.list_ascii_of_string defaultTokenRecordName) <= AdoptionNameMaxRunes)%nat
    as Hlen by (vm_compute; lia).
  unfold sanitizeAdoptionName. set (replaced := String.string_of_list_ascii _).
  assert (printable replaced) as Hr.
  { unfold printable, replaced. rewrite String.list_ascii_of_string_of_list_ascii.
    apply Forall_fmap, Forall_true. intros b. simpl.
    destruct (is_control b) eqn:E; [by vm_compute|done]. }
  assert (printable (TrimSpace replaced)) as Ht
    by (eapply printable_sub; [apply TrimSpace_elem|done]).
  destruct (String.eqb_spec (TrimSpace replaced) ""); [done|].
  set (cut := String.string_of_list_ascii (take_runes _ _)).
  assert (String.list_ascii_of_string cut =
    take_runes AdoptionNameMaxRunes (String.list_ascii_of_string (TrimSpace replaced))) as Hcut
    by apply String.list_ascii_of_string_of_list_ascii.
  destruct (AdoptionNameMaxRunes <? _)%nat eqn:Hc.
  - destruct (String.eqb_spec (TrimSpace cut) ""); [done|]. split_and!; [done| |].
    + eapply printable_sub; [|exact Ht]. intros b Hb%TrimSpace_elem.
      rewrite Hcut in Hb. by eapply take_runes_sublist.
    + etransitivity; [apply TrimSpace_rune_count|]. rewrite Hcut. apply take_runes_bound.
  - rewrite (proj2 (String.eqb_neq _ _)) by done. apply Nat.ltb_ge in Hc. done.
Qed.

(** ** Rate limit *)

(** A successful creation leaves at most [AdoptionRateLimitMax] live requests
    of the last window, and it is refused exactly when there already are that
    many; nothing that has expired is kept. *)
Theorem TryCreate_rate_limit {D : Digest} w m name m' r :
  m !! w_id w = None -> TryCreate w m name = (m', r) ->
  (pendingCountWithinWindowLocked m' (w_now w) <=
     pendingCountWithinWindowLocked (evictExpiredLocked m (w_now w)) (w_now w) + 1)%nat /\
  (is_Some r -> (pendingCountWithinWindowLocked m' (w_now w) <= AdoptionRateLimitMax)%nat) /\
  (r = None <-> (AdoptionRateLimitMax <=
     pendingCountWithinWindowLocked (evictExpiredLocked m (w_now w)) (w_now w))%nat) /\
  (forall id rec, m' !! id = Some rec -> (w_now w <= ar_ExpiresAt (rec_request rec))%Z).
Proof.
  intros Hid. unfold TryCreate. set (m0 := evictExpiredLocked m (w_now w)).
  assert (m0 !! w_id w = None) as Hid0.
  { unfold m0, evictExpiredLocked. rewrite map_lookup_filter, Hid. done. }
  assert (forall id rec, m0 !! id = Some rec ->
            (w_now w <= ar_ExpiresAt (rec_request rec))%Z) as Hlive.
  { intros id rec [_ He]%map_lookup_filter_Some. simpl in He.
    unfold rec_expired, time_after in He. by bool_prop. }
  destruct (_ <=? _)%nat eqn:E.
  - apply Nat.leb_le in E. intros [= <- <-]. split_and!; [lia|by intros []|done|done].
  - apply Nat.leb_gt in E. intros [= <- <-]. set (rec := mkRecord _ _ _ _ _).
    assert (pendingCountWithinWindowLocked (<[w_id w := rec]> m0) (w_now w) <=
            pendingCountWithinWindowLocked m0 (w_now w) + 1)%nat as Hle.
    { unfold pendingCountWithinWindowLocked.
      rewrite (filter_Permutation_bool _ _ _ (map_to_list_insert m0 (w_id w) rec Hid0)).
      simpl. destruct (counts_as_pending _ _); simpl; lia. }
    split_and!; [done|intros _; unfold AdoptionRateLimitMax in *; lia| |].
    + split; [done|]. intros. lia.
    + intros id rc. rewrite lookup_insert_Some. intros [[<- <-]|[_ ?]]; [|by eapply Hlive].
      simpl. unfold time_add, AdoptionRequestTTL, minute, second, millisecond, nanosecond. lia.
Qed.

(** ** The protocol of an adoption request *)

Inductive adoption_event : Type :=
| ACreated (id : string) (t : time)
| AApproved (id token : string) (t : time)
| ARejected (id : string) (t : time)
| AGiven (id token : string) (t : time)      (** [Get] handed the token out *)
| AClaimed (id token : string) (t : time).   (** [Exchange] accepted the token *)

Definition aevent_id (e : adoption_event) : string :=
  match e with
  | ACreated id _ | AApproved id _ _ | ARejected id _ | AGiven id _ _ | AClaimed id _ _ => id
  end.

Definition alive (h : list adoption_event) (id : string) (t : time) : Prop :=
  exists t0, ACreated id t0 ∈ h /\ (t <= t0 + AdoptionRequestTTL)%Z.

Definition undecided_in (h : list adoption_event) (id : string) : Prop :=
  (forall tok t, AApproved id tok t ∉ h) /\ (forall t, ARejected id t ∉ h).

(** [e] may follow [h]: one decision per request, while it is alive; the token of
    an approved request is handed out at most once and accepted at most once,
    both while the request is alive. *)
Definition aallowed (h : list adoption_event) (e : adoption_event) : Prop :=
  match e with
  | ACreated id _ => forall t, ACreated id t ∉ h
  | AApproved id tok t =>
      alive h id t /\ undecided_in h id /\ (forall id' t', AApproved id' tok t' ∉ h)
  | ARejected id t => alive h id t /\ undecided_in h id
  | AGiven id tok t =>
      alive h id t /\ (exists t1, AApproved id tok t1 ∈ h) /\ (forall tok' t', AGiven id tok' t' ∉ h)
  | AClaimed id tok t =>
      alive h id t /\ (exists t1, AApproved id tok t1 ∈ h) /\
      (forall tok' t', AClaimed id tok' t' ∉ h)
  end.

Fixpoint alegal (h : list adoption_event) : Prop :=
  match h with
  | [] => True
  | e :: h' => aallowed h' e /\ alegal h'
  end.

Inductive adoption_op : Type :=
| OpTryCreate (name : string)
| OpAdoptApprove (gen : option string) (id : string)
| OpAdoptReject (id : string)
| OpAdoptGet (id : string)
| OpClaim (iter : list (string * adoptionRecord)) (token : string).

Section AdoptionProtocol.
Context {D : Digest}.

Definition adoption_exec (w : World) (o : adoption_op) (m : AdoptionManager)
    : AdoptionManager * option adoption_event :=
  let now := w_now w in
  match o with
  | OpTryCreate name =>
      let '(m', r) := TryCreate w m name in
      (m', match r with Some req => Some (ACreated (ar_ID req) now) | None => None end)
  | OpAdoptApprove gen id =>
      let '(m', r) := Approve w gen m id in
      (m', match r with Ok tok => Some (AApproved (TrimSpace id) tok now) | Err _ => None end)
  | OpAdoptReject id =>
      let '(m', r) := Reject w m id in
      (m', match r with Ok _ => Some (ARejected (TrimSpace id) now) | Err _ => None end)
  | OpAdoptGet id =>
      let '(m', r) := Get w m id in
      (m', match r with
           | Ok (_, tok) => if (tok =? "")%string then None
                            else Some (AGiven (TrimSpace id) tok now)
           | Err _ => None
           end)
  | OpClaim iter token =>
      let '(m', r) := Exchange_claim w iter m token in
      (m', match r with Ok (id, _) => Some (AClaimed id (TrimSpace token) now) | Err _ => None end)
  end.

Definition arecord (e : option adoption_event) (h : list adoption_event) : list adoption_event :=
  match e with Some e => e :: h | None => h end.

(** New identifiers, new and non-empty tokens, and [iter] ranges over the map. *)
Definition admissible (w : World) (o : adoption_op) (m : AdoptionManager)
    (h : list adoption_event) : Prop :=
  match o with
  | OpTryCreate _ => forall e, e ∈ h -> aevent_id e <> w_id w
  | OpAdoptApprove (Some tok) _ => tok <> "" /\ forall id t, AApproved id tok t ∉ h
  | OpClaim iter _ => iter ≡ₚ map_to_list m
  | _ => True
  end.

Inductive AReach : AdoptionManager -> list adoption_event -> Prop :=
| AReach_start : AReach ∅ []
| AReach_step m h w o :
    AReach m h -> admissible w o m h ->
    AReach (adoption_exec w o m).1 (arecord (adoption_exec w o m).2 h).

(** *** Invariant *)

Record arec_ok (h : list adoption_event) (id : string) (r : adoptionRecord) : Prop := {
  aok_created : exists t0, ACreated id t0 ∈ h /\
    ar_ExpiresAt (rec_request r) = (t0 + AdoptionRequestTTL)%Z;
  aok_pending : ar_State (rec_request r) = AdoptionStatePending ->
    undecided_in h id /\ rec_adoptionHash r = "" /\ rec_tokenIssued r = false /\
    (forall tok t, AGiven id tok t ∉ h) /\ (forall tok t, AClaimed id tok t ∉ h);
  aok_given : ar_State (rec_request r) = AdoptionStateApproved -> rec_tokenIssued r = false ->
    (exists t1, AApproved id (rec_plaintextToken r) t1 ∈ h) /\
    (forall tok t, AGiven id tok t ∉ h);
  aok_hash : rec_adoptionHash r <> "" -> exists tok t1,
    rec_adoptionHash r = hash tok /\ AApproved id tok t1 ∈ h /\
    (rec_exchanged r = false -> forall tok' t, AClaimed id tok' t ∉ h);
}.

Record ainv (m : AdoptionManager) (h : list adoption_event) : Prop := {
  ainv_recs : forall id r, m !! id = Some r -> arec_ok h id r;
  ainv_legal : alegal h;
}.

Lemma undecided_other h e id :
  aevent_id e <> id -> undecided_in h id -> undecided_in (e :: h) id.
Proof.
  intros Hne [H1 H2]. split.
  - intros tok t [<-|?]%elem_of_cons; [done|by eapply H1].
  - intros t [<-|?]%elem_of_cons; [done|by eapply H2].
Qed.

(** Events about other requests change nothing for a record. *)
Lemma arec_ok_other h e id r : aevent_id e <> id -> arec_ok h id r -> arec_ok (e :: h) id r.
Proof.
  intros Hne [(t0 & Hc & He) Hp Hg Hh]. split.
  - exists t0. split; [by right|done].
  - intros (Hu & ? & ? & H1 & H2)%Hp. split_and!; [by apply undecided_other|done|done|..].
    + intros tok t [<-|?]%elem_of_cons; [done|by eapply H1].
    + intros tok t [<-|?]%elem_of_cons; [done|by eapply H2].
  - intros Hs Hi. destruct (Hg Hs Hi) as ((t1 & ?) & H1). split.
    + exists t1. by right.
    + intros tok t [<-|?]%elem_of_cons; [done|by eapply H1].
  - intros (tok & t1 & He' & Ha & H1)%Hh. exists tok, t1. split_and!; [done|by right|].
    intros Hx tok' t [<-|?]%elem_of_cons; [done|by eapply H1].
Qed.

Lemma ainv_insert m h id r : ainv m h -> arec_ok h id r -> ainv (<[id := r]> m) h.
Proof.
  intros [HF HL] Hr. split; [|done]. intros id' r' [[<- <-]|[_ ?]]%lookup_insert_Some; auto.
Qed.

Lemma ainv_insert_event m h e id r :
  ainv m h -> aevent_id e = id -> aallowed h e -> arec_ok (e :: h) id r ->
  ainv (<[id := r]> m) (e :: h).
Proof.
  intros [HF HL] He Ha Hr. split; [|done].
  intros id' r' [[<- <-]|[Hne ?]]%lookup_insert_Some; [done|].
  apply arec_ok_other; [congruence|auto].
Qed.

Lemma ainv_subset m m' h :
  ainv m h -> (forall id r, m' !! id = Some r -> m !! id = Some r) -> ainv m' h.
Proof. intros [HF HL] Hs. split; [|done]. intros id r Hr%Hs. auto. Qed.

Lemma arec_ok_expired h id r : arec_ok h id r -> arec_ok h id (set_rec_state AdoptionStateExpired r).
Proof. intros [Hc Hp Hg Hh]. split; simpl; try done. Qed.

Lemma arec_ok_alive h id r t :
  arec_ok h id r -> rec_expired t r = false -> alive h id t.
Proof.
  intros [(t0 & Hc & He) _ _ _] Hx. exists t0. split; [done|].
  rewrite <-He. unfold rec_expired, time_after in Hx. by bool_prop.
Qed.

Lemma decidable_now_None now r :
  decidable_now now r = None -> ar_State (rec_request r) = AdoptionStatePending.
Proof.
  unfold decidable_now. intros H. repeat case_match; simplify_eq; by apply String.eqb_eq.
Qed.

Lemma ainv_TryCreate w m h name :
  ainv m h -> (forall e, e ∈ h -> aevent_id e <> w_id w) ->
  ainv (adoption_exec w (OpTryCreate name) m).1 (arecord (adoption_exec w (OpTryCreate name) m).2 h).
Proof.
  intros Hinv Hfresh. simpl. unfold TryCreate.
  assert (ainv (evictExpiredLocked m (w_now w)) h) as Hinv0.
  { eapply ainv_subset; [done|]. by intros id r [? _]%map_lookup_filter_Some. }
  destruct (_ <=? _)%nat; [done|]. simpl.
  apply ainv_insert_event; [done|done| |].
  - intros t Hin. by apply (Hfresh _ Hin).
  - split; simpl.
    + exists (w_now w). split; [left|done].
    + intros _. split_and!; try done.
      * split; [intros tok t|intros t]; intros [?|Hin]%elem_of_cons; try done;
          by apply (Hfresh _ Hin).
      * intros tok t [?|Hin]%elem_of_cons; [done|by apply (Hfresh _ Hin)].
      * intros tok t [?|Hin]%elem_of_cons; [done|by apply (Hfresh _ Hin)].
    + done.
    + done.
Qed.

Lemma ainv_Approve w m h gen id :
  ainv m h -> admissible w (OpAdoptApprove gen id) m h ->
  ainv (adoption_exec w (OpAdoptApprove gen id) m).1
       (arecord (adoption_exec w (OpAdoptApprove gen id) m).2 h).
Proof.
  intros Hinv Had. simpl. unfold Approve.
  destruct (m !! TrimSpace id) as [r|] eqn:Hr; [|done].
  pose proof (ainv_recs _ _ Hinv _ _ Hr) as Hok.
  destruct (rec_expired (w_now w) r) eqn:Hx; simpl.
  { apply ainv_insert; [done|by apply arec_ok_expired]. }
  destruct (decidable_now _ r) eqn:Hd; [done|]. destruct gen as [tok|]; [|done]. simpl.
  apply decidable_now_None in Hd. destruct Had as [Hne Hfresh].
  destruct (aok_pending _ _ _ Hok Hd) as (Hu & _ & Hi & HG & HC).
  apply ainv_insert_event; [done|done| |].
  - simpl. split_and!; [by eapply arec_ok_alive|done|done].
  - destruct Hok as [(t0 & Hc & He) _ _ _]. split; simpl.
    + exists t0. split; [by right|done].
    + done.
    + intros _ _. split; [eexists; left|]. intros tok' t [?|?]%elem_of_cons; [done|by eapply HG].
    + intros _. exists tok, (w_now w). split_and!; [done|left|].
      intros _ tok' t [?|?]%elem_of_cons; [done|by eapply HC].
Qed.

Lemma ainv_Reject w m h id :
  ainv m h ->
  ainv (adoption_exec w (OpAdoptReject id) m).1 (arecord (adoption_exec w (OpAdoptReject id) m).2 h).
Proof.
  intros Hinv. simpl. unfold Reject.
  destruct (m !! TrimSpace id) as [r|] eqn:Hr; [|done].
  pose proof (ainv_recs _ _ Hinv _ _ Hr) as Hok.
  destruct (rec_expired (w_now w) r) eqn:Hx; simpl.
  { apply ainv_insert; [done|by apply arec_ok_expired]. }
  destruct (decidable_now _ r) eqn:Hd; [done|]. simpl. apply decidable_now_None in Hd.
  destruct (aok_pending _ _ _ Hok Hd) as (Hu & Hh & _).
  apply ainv_insert_event; [done|done| |].
  - simpl. split; [by eapply arec_ok_alive|done].
  - destruct Hok as [(t0 & Hc & He) _ _ _]. split; simpl; [|done|done|done].
    exists t0. split; [by right|done].
Qed.

Lemma ainv_Get w m h id :
  ainv m h ->
  ainv (adoption_exec w (OpAdoptGet id) m).1 (arecord (adoption_exec w (OpAdoptGet id) m).2 h).
Proof.
  intros Hinv. simpl. unfold Get.
  destruct (m !! TrimSpace id) as [r0|] eqn:Hr; [|done].
  set (r := if _ && _ then set_rec_state AdoptionStateExpired r0 else r0).
  assert (arec_ok h (TrimSpace id) r) as Hok.
  { pose proof (ainv_recs _ _ Hinv _ _ Hr). unfold r.
    destruct (_ && _); [by apply arec_ok_expired|done]. }
  assert (ar_State (rec_request r) = AdoptionStateApproved -> rec_expired (w_now w) r = false) as Hlive.
  { unfold r. destruct (_ && _) eqn:E; [done|]. intros Hs. rewrite Hs in E. by destruct (rec_expired _ _). }
  clearbody r.
  destruct (String.eqb_spec (ar_State (rec_request r)) AdoptionStateApproved) as [Hs|]; simpl;
    [|by apply ainv_insert].
  destruct (rec_tokenIssued r) eqn:Hi; simpl; [by apply ainv_insert|].
  destruct (aok_given _ _ _ Hok Hs Hi) as [(t1 & Ha) Hn].
  rewrite insert_insert_eq.
  destruct (String.eqb_spec (rec_plaintextToken r) "") as [Hp|Hp]; simpl.
  - apply ainv_insert; [done|]. destruct Hok as [Hc Hpe _ Hh]. split; simpl; try done.
    by rewrite Hs.
  - apply ainv_insert_event; [done|done| |].
    + simpl. split_and!; [by eapply arec_ok_alive; [|apply Hlive]|by exists t1|done].
    + destruct Hok as [(t0 & Hc & He) Hpe _ Hh]. split; simpl.
      * exists t0. split; [by right|done].
      * by rewrite Hs.
      * done.
      * intros (tok & t2 & He' & Ha' & Hcl)%Hh. exists tok, t2. split_and!; [done|by right|].
        intros Hx tok' t [?|?]%elem_of_cons; [done|by eapply Hcl].
Qed.

Lemma ainv_Claim {HD : CollisionFree D} w m h iter token :
  ainv m h -> iter ≡ₚ map_to_list m ->
  ainv (adoption_exec w (OpClaim iter token) m).1
       (arecord (adoption_exec w (OpClaim iter token) m).2 h).
Proof.
  intros Hinv Hiter. simpl. unfold Exchange_claim.
  destruct (TrimSpace token =? "")%string; [done|].
  destruct (List.find _ iter) as [[id r]|] eqn:Hf; [|done].
  apply List.find_some in Hf as [Hin Hv]. simpl in Hv.
  apply list_elem_of_In in Hin. rewrite Hiter in Hin. apply elem_of_map_to_list in Hin as Hr.
  pose proof (ainv_recs _ _ Hinv _ _ Hr) as Hok.
  destruct (rec_expired (w_now w) r) eqn:Hx; simpl.
  { apply ainv_insert; [done|by apply arec_ok_expired]. }
  destruct (rec_exchanged r) eqn:He; [done|]. simpl.
  apply verifyHash_spec in Hv as (Hne & _ & Hv).
  destruct (aok_hash _ _ _ Hok Hne) as (tok & t1 & Hh & Ha & Hcl).
  assert (tok = TrimSpace token) as -> by (rewrite Hh in Hv; by apply bytes_digest_inj in Hv).
  apply ainv_insert_event; [done|done| |].
  - simpl. split_and!; [by eapply arec_ok_alive|by exists t1|by apply Hcl].
  - destruct Hok as [(t0 & Hc & He0) Hpe Hg _]. split; simpl.
    + exists t0. split; [by right|done].
    + intros (_ & Hempty & _)%Hpe. done.
    + intros Hs Hi. destruct (Hg Hs Hi) as [(t2 & ?) Hn]. split; [exists t2; by right|].
      intros tok' t [?|?]%elem_of_cons; [done|by eapply Hn].
    + intros _. exists (TrimSpace token), t1. split_and!; [done|by right|done].
Qed.

(** C12: the adoption manager refines its protocol under any interleaving of
    creations, decisions, polls and exchanges, in any map order: a request is
    decided once and while alive, its token is given out once and accepted
    once, and only after an approval. *)
Theorem AdoptionManager_refines_protocol {HD : CollisionFree D} m h :
  AReach m h -> alegal h.
Proof.
  intros Hr. enough (ainv m h) as [_ ?] by done.
  induction Hr as [|m h w o _ IH Had].
  { split; [|done]. intros id r Hr. by rewrite lookup_empty in Hr. }
  destruct o as [name|gen id|id|id|iter token].
  - by apply ainv_TryCreate.
  - by apply ainv_Approve.
  - by apply ainv_Reject.
  - by apply ainv_Get.
  - by apply ainv_Claim.
Qed.
End AdoptionProtocol.

(** ** Examples *)

Section Examples.
Local Instance adoption_digest : Digest := identity_digest.
Local Instance adoption_collision_free : CollisionFree adoption_digest :=
  identity_digest_collision_free.

Definition adoption_world (now : time) (id : string) : World := mkWorld now id "" true SaveOk.

Definition adoption_step (st : AdoptionManager * list adoption_event) (c : World * adoption_op)
    : AdoptionManager * list adoption_event :=
  ((adoption_exec c.1 c.2 st.1).1, arecord (adoption_exec c.1 c.2 st.1).2 st.2).

Definition adoption_run0 : AdoptionManager * list adoption_event :=
  adoption_step (∅, []) (adoption_world 1000 "id1", OpTryCreate "desk").
Definition adoption_run1 : AdoptionManager * list adoption_event :=
  adoption_step adoption_run0 (adoption_world 2000 "", OpAdoptApprove (Some "tok") "id1").
Definition adoption_run2 : AdoptionManager * list adoption_event :=
  adoption_step adoption_run1 (adoption_world 3000 "", OpAdoptGet "id1").
Definition adoption_run3 : AdoptionManager * list adoption_event :=
  adoption_step adoption_run2 (adoption_world 4000 "", OpClaim (map_to_list adoption_run2.1) "tok ").

Lemma adoption_run3_AReach : AReach adoption_run3.1 adoption_run3.2.
Proof.
  apply (AReach_step adoption_run2.1 adoption_run2.2 _ _); [|exact (Permutation_refl _)].
  apply (AReach_step adoption_run1.1 adoption_run1.2 _ _); [|exact I].
  apply (AReach_step adoption_run0.1 adoption_run0.2 _ _).
  - apply (AReach_step ∅ [] _ _); [constructor|]. intros e He. by apply elem_of_nil in He.
  - split; [done|]. intros id t Hin. vm_compute in Hin.
    by apply list_elem_of_singleton in Hin.
Qed.

Lemma AdoptionManager_refines_protocol_witness :
  adoption_run3.2 = [AClaimed "id1" "tok" 4000; AGiven "id1" "tok" 3000;
                     AApproved "id1" "tok" 2000; ACreated "id1" 1000] /\ alegal adoption_run3.2.
Proof.
  split; [by vm_compute|].
  apply (AdoptionManager_refines_protocol adoption_run3.1). apply adoption_run3_AReach.
Defined.

Lemma TryCreate_rate_limit_witness :
  let m := (adoption_step (adoption_step adoption_run0 (adoption_world 1001 "id2", OpTryCreate "b"))
                          (adoption_world 1002 "id3", OpTryCreate "c")).1 in
  (TryCreate (adoption_world 1003 "id4") m "d").2 = None /\
  (AdoptionRateLimitMax <=
     pendingCountWithinWindowLocked (evictExpiredLocked m 1003) 1003)%nat.
Proof.
  intros m. split; [by vm_compute|].
  destruct (TryCreate_rate_limit (adoption_world 1003 "id4") m "d"
    (TryCreate (adoption_world 1003 "id4") m "d").1 None) as (_ & _ & H & _);
    [by vm_compute|by vm_compute|]. by apply H.
Defined.
End Examples.
