(* ===== verification/Settings.v ===== *)
(** * Agent settings (agent/config/settings.go)

    The settings file: defaults, validation, and the back-filling of fields an
    older file does not have. *)
From stdpp Require Import base list strings gmap.
From S2P Require Import Prelude Model.
Local Open Scope string_scope.
Local Open Scope Z_scope.

Definition DebugBrowserProfileModeEphemeral := "ephemeral".
Definition DebugBrowserProfileModePersistent := "persistent".
Definition DefaultLogRetentionDays : Z := 7.
Definition MinLogRetentionDays : Z := 1.
Definition MaxLogRetentionDays : Z := 90.
Definition DefaultLogMaxBytes : Z := 256 * 1024 * 1024.
Definition MinLogMaxBytes : Z := 16 * 1024 * 1024.
Definition MaxLogMaxBytes : Z := 8 * 1024 * 1024 * 1024.
Definition DefaultLogCleanupIntervalSeconds : Z := 3600.
Definition MinLogCleanupIntervalSeconds : Z := 60.
Definition DefaultGraceMinutes : Z := 15.
Definition MinGraceMinutes : Z := 1.
Definition MaxGraceMinutes : Z := 120.
Definition DefaultArtifactKeepVersions : Z := 10.
Definition MinArtifactKeepVersions : Z := 1.
Definition MaxArtifactKeepVersions : Z := 100.
Definition DefaultDebugBrowserSessionTTLMinutes : Z := 30.
Definition MinDebugBrowserSessionTTLMinutes : Z := 1.
Definition MaxDebugBrowserSessionTTLMinutes : Z := 240.

Record ApprovalPolicy : Type := {
  ConfigUpsert : bool;
  PipelineUpsert : bool;
  PipelineRun : bool;
  TemplateImport : bool;
  BrowserDebugOpen : bool;
  CodeDebugOpen : bool;
  CodeDebugEvaluate : bool;
  TestDatabaseTerminateConns : bool;
  GraceMinutes : Z;
}.

Record DebugBrowserConfig : Type := {
  br_ID : string;
  br_Name : string;
  br_ExecutablePath : string;
}.

Record DebugBrowserSettings : Type := {
  DefaultBrowserID : string;
  ProfileMode : string;
  AllowEvaluate : bool;
  SessionTTLMinutes : Z;
  Browsers : list DebugBrowserConfig;
}.

Record AgentSettings : Type := {
  LogRetentionDays : Z;
  LogMaxBytes : Z;
  LogCleanupIntervalSeconds : Z;
  ArtifactKeepVersions : Z;
  SampleSeeded : bool;
  OnboardingCompleted : bool;
  set_Approval : ApprovalPolicy;
  set_DebugBrowser : DebugBrowserSettings;
}.

Definition DefaultAgentSettings : AgentSettings :=
  {| LogRetentionDays := DefaultLogRetentionDays;
     LogMaxBytes := DefaultLogMaxBytes;
     LogCleanupIntervalSeconds := DefaultLogCleanupIntervalSeconds;
     ArtifactKeepVersions := DefaultArtifactKeepVersions;
     SampleSeeded := false;
     OnboardingCompleted := false;
     set_Approval :=
       {| ConfigUpsert := true; PipelineUpsert := true; PipelineRun := true;
          TemplateImport := true; BrowserDebugOpen := true; CodeDebugOpen := true;
          CodeDebugEvaluate := true; TestDatabaseTerminateConns := true;
          GraceMinutes := DefaultGraceMinutes |};
     set_DebugBrowser :=
       {| DefaultBrowserID := ""; ProfileMode := DebugBrowserProfileModeEphemeral;
          AllowEvaluate := false; SessionTTLMinutes := DefaultDebugBrowserSessionTTLMinutes;
          Browsers := [] |} |}.

Inductive settings_error : Type :=
| ErrRange (field : string)   (** a value out of its range *)
| ErrBrowserIDRequired
| ErrBrowserIDDuplicated (id : string)
| ErrSettingsIO.              (** reading, parsing or writing failed *)

(** The loop over the browsers, with the identifiers seen so far. *)
Fixpoint check_browsers (seen : list string) (l : list DebugBrowserConfig)
    : option settings_error :=
  match l with
  | [] => None
  | b :: l' =>
      if (br_ID b =? "")%string then Some ErrBrowserIDRequired
      else if bool_decide (br_ID b ∈ seen) then Some (ErrBrowserIDDuplicated (br_ID b))
      else check_browsers (br_ID b :: seen) l'
  end.

Definition outside (lo hi x : Z) : bool := (x <? lo) || (hi <? x).

Definition ValidateAgentSettings (s : AgentSettings) : option settings_error :=
  let db := set_DebugBrowser s in
  if outside MinLogRetentionDays MaxLogRetentionDays (LogRetentionDays s)
  then Some (ErrRange "log_retention_days")
  else if outside MinLogMaxBytes MaxLogMaxBytes (LogMaxBytes s)
  then Some (ErrRange "log_max_bytes")
  else if LogCleanupIntervalSeconds s <? MinLogCleanupIntervalSeconds
  then Some (ErrRange "log_cleanup_interval_seconds")
  else if outside MinGraceMinutes MaxGraceMinutes (GraceMinutes (set_Approval s))
  then Some (ErrRange "grace_minutes")
  else if outside MinArtifactKeepVersions MaxArtifactKeepVersions (ArtifactKeepVersions s)
  then Some (ErrRange "artifact_keep_versions")
  else if negb (ProfileMode db =? "")%string &&
          negb (ProfileMode db =? DebugBrowserProfileModeEphemeral)%string &&
          negb (ProfileMode db =? DebugBrowserProfileModePersistent)%string
  then Some (ErrRange "debug_browser.profile_mode")
  else if outside MinDebugBrowserSessionTTLMinutes MaxDebugBrowserSessionTTLMinutes
            (SessionTTLMinutes db)
  then Some (ErrRange "debug_browser.session_ttl_minutes")
  else check_browsers [] (Browsers db).

(** ** The document: every field may be absent *)

Record SettingsDoc : Type := {
  d_log_retention_days : option Z;
  d_log_max_bytes : option Z;
  d_log_cleanup_interval_seconds : option Z;
  d_artifact_keep_versions : option Z;
  d_sample_seeded : option bool;
  d_onboarding_completed : option bool;
  d_config_upsert : option bool;
  d_pipeline_upsert : option bool;
  d_pipeline_run : option bool;
  d_template_import : option bool;
  d_browser_debug_open : option bool;
  d_code_debug_open : option bool;
  d_code_debug_evaluate : option bool;
  d_test_database_terminate_conns : option bool;
  d_grace_minutes : option Z;
  d_default_browser_id : option string;
  d_profile_mode : option string;
  d_allow_evaluate : option bool;
  d_session_ttl_minutes : option Z;
  d_browsers : option (list DebugBrowserConfig);
}.

(** [json.Unmarshal] over the defaults: present fields overwrite. *)
Definition unmarshal_over (s : AgentSettings) (d : SettingsDoc) : AgentSettings :=
  let a := set_Approval s in
  let b := set_DebugBrowser s in
  {| LogRetentionDays := default (LogRetentionDays s) (d_log_retention_days d);
     LogMaxBytes := default (LogMaxBytes s) (d_log_max_bytes d);
     LogCleanupIntervalSeconds :=
       default (LogCleanupIntervalSeconds s) (d_log_cleanup_interval_seconds d);
     ArtifactKeepVersions := default (ArtifactKeepVersions s) (d_artifact_keep_versions d);
     SampleSeeded := default (SampleSeeded s) (d_sample_seeded d);
     OnboardingCompleted := default (OnboardingCompleted s) (d_onboarding_completed d);
     set_Approval :=
       {| ConfigUpsert := default (ConfigUpsert a) (d_config_upsert d);
          PipelineUpsert := default (PipelineUpsert a) (d_pipeline_upsert d);
          PipelineRun := default (PipelineRun a) (d_pipeline_run d);
          TemplateImport := default (TemplateImport a) (d_template_import d);
          BrowserDebugOpen := default (BrowserDebugOpen a) (d_browser_debug_open d);
          CodeDebugOpen := default (CodeDebugOpen a) (d_code_debug_open d);
          CodeDebugEvaluate := default (CodeDebugEvaluate a) (d_code_debug_evaluate d);
          TestDatabaseTerminateConns :=
            default (TestDatabaseTerminateConns a) (d_test_database_terminate_conns d);
          GraceMinutes := default (GraceMinutes a) (d_grace_minutes d) |};
     set_DebugBrowser :=
       {| DefaultBrowserID := default (DefaultBrowserID b) (d_default_browser_id d);
          ProfileMode := default (ProfileMode b) (d_profile_mode d);
          AllowEvaluate := default (AllowEvaluate b) (d_allow_evaluate d);
          SessionTTLMinutes := default (SessionTTLMinutes b) (d_session_ttl_minutes d);
          Browsers := default (Browsers b) (d_browsers d) |} |}.

Definition if_zero (x dflt : Z) : Z := if x =? 0 then dflt else x.

(** The assignments of [Load] after the decoding. *)
Definition backfill (s : AgentSettings) : AgentSettings :=
  let a := set_Approval s in
  let b := set_DebugBrowser s in
  {| LogRetentionDays := LogRetentionDays s;
     LogMaxBytes := if_zero (LogMaxBytes s) DefaultLogMaxBytes;
     LogCleanupIntervalSeconds :=
       if_zero (LogCleanupIntervalSeconds s) DefaultLogCleanupIntervalSeconds;
     ArtifactKeepVersions := if_zero (ArtifactKeepVersions s) DefaultArtifactKeepVersions;
     SampleSeeded := SampleSeeded s;
     OnboardingCompleted := OnboardingCompleted s;
     set_Approval :=
       {| ConfigUpsert := ConfigUpsert a; PipelineUpsert := PipelineUpsert a;
          PipelineRun := PipelineRun a; TemplateImport := TemplateImport a;
          BrowserDebugOpen := BrowserDebugOpen a; CodeDebugOpen := CodeDebugOpen a;
          CodeDebugEvaluate := CodeDebugEvaluate a;
          TestDatabaseTerminateConns := TestDatabaseTerminateConns a;
          GraceMinutes := if_zero (GraceMinutes a) DefaultGraceMinutes |};
     set_DebugBrowser :=
       {| DefaultBrowserID := DefaultBrowserID b;
          ProfileMode := if (ProfileMode b =? "")%string then DebugBrowserProfileModeEphemeral
                         else ProfileMode b;
          AllowEvaluate := AllowEvaluate b;
          SessionTTLMinutes := if_zero (SessionTTLMinutes b) DefaultDebugBrowserSessionTTLMinutes;
          Browsers := Browsers b |} |}.

(** [json.MarshalIndent]: fields with [omitempty] are absent when empty. *)
Definition marshal (s : AgentSettings) : SettingsDoc :=
  let a := set_Approval s in
  let b := set_DebugBrowser s in
  {| d_log_retention_days := Some (LogRetentionDays s);
     d_log_max_bytes := Some (LogMaxBytes s);
     d_log_cleanup_interval_seconds := Some (LogCleanupIntervalSeconds s);
     d_artifact_keep_versions := Some (ArtifactKeepVersions s);
     d_sample_seeded := Some (SampleSeeded s);
     d_onboarding_completed := Some (OnboardingCompleted s);
     d_config_upsert := Some (ConfigUpsert a);
     d_pipeline_upsert := Some (PipelineUpsert a);
     d_pipeline_run := Some (PipelineRun a);
     d_template_import := Some (TemplateImport a);
     d_browser_debug_open := Some (BrowserDebugOpen a);
     d_code_debug_open := Some (CodeDebugOpen a);
     d_code_debug_evaluate := Some (CodeDebugEvaluate a);
     d_test_database_terminate_conns := Some (TestDatabaseTerminateConns a);
     d_grace_minutes := Some (GraceMinutes a);
     d_default_browser_id :=
       if (DefaultBrowserID b =? "")%string then None else Some (DefaultBrowserID b);
     d_profile_mode := if (ProfileMode b =? "")%string then None else Some (ProfileMode b);
     d_allow_evaluate := Some (AllowEvaluate b);
     d_session_ttl_minutes := Some (SessionTTLMinutes b);
     d_browsers := match Browsers b with [] => None | l => Some l end |}.

Definition Load (w : World) (f : file SettingsDoc) : result settings_error AgentSettings :=
  if negb (w_read_ok w) then Err ErrSettingsIO
  else
    match f with
    | Missing => Ok DefaultAgentSettings
    | Empty | Corrupt => Err ErrSettingsIO
    | Content d =>
        let s := backfill (unmarshal_over DefaultAgentSettings d) in
        match ValidateAgentSettings s with
        | Some e => Err e
        | None => Ok s
        end
    end.

Definition Save (w : World) (f : file SettingsDoc) (s : AgentSettings)
    : file SettingsDoc * result settings_error unit :=
  match ValidateAgentSettings s with
  | Some e => (f, Err e)
  | None =>
      let '(f', ok) := write_direct (w_save w) f (marshal s) in
      (f', if ok then Ok tt else Err ErrSettingsIO)
  end.

Definition MarkSampleSeeded (w : World) (f : file SettingsDoc)
    : file SettingsDoc * result settings_error unit :=
  match Load w f with
  | Err e => (f, Err e)
  | Ok s =>
      Save w f {| LogRetentionDays := LogRetentionDays s; LogMaxBytes := LogMaxBytes s;
                  LogCleanupIntervalSeconds := LogCleanupIntervalSeconds s;
                  ArtifactKeepVersions := ArtifactKeepVersions s; SampleSeeded := true;
                  OnboardingCompleted := OnboardingCompleted s;
                  set_Approval := set_Approval s; set_DebugBrowser := set_DebugBrowser s |}
  end.

(** ** Facts *)

Definition in_range (lo hi x : Z) : Prop := lo <= x <= hi.

Definition settings_ok (s : AgentSettings) : Prop :=
  in_range 1 90 (LogRetentionDays s) /\
  in_range MinLogMaxBytes MaxLogMaxBytes (LogMaxBytes s) /\
  60 <= LogCleanupIntervalSeconds s /\
  in_range 1 120 (GraceMinutes (set_Approval s)) /\
  in_range 1 100 (ArtifactKeepVersions s) /\
  ProfileMode (set_DebugBrowser s) ∈
    [""; DebugBrowserProfileModeEphemeral; DebugBrowserProfileModePersistent] /\
  in_range 1 240 (SessionTTLMinutes (set_DebugBrowser s)) /\
  NoDup (br_ID <$> Browsers (set_DebugBrowser s)) /\
  "" ∉ (br_ID <$> Browsers (set_DebugBrowser s)).

Lemma check_browsers_None seen l :
  check_browsers seen l = None <->
  NoDup (br_ID <$> l) /\ ("" ∉ (br_ID <$> l)) /\ (forall id, id ∈ seen -> id ∉ (br_ID <$> l)).
Proof.
  revert seen; induction l as [|b l IH]; intros seen; simpl.
  { split; [intros _|done]. split_and!; [by apply NoDup_nil|apply not_elem_of_nil|].
    intros. apply not_elem_of_nil. }
  destruct (String.eqb_spec (br_ID b) "") as [E|E].
  { split; [done|]. intros (_ & Hn & _). exfalso. apply Hn. rewrite E. left. }
  case_bool_decide as Hs.
  { split; [done|]. intros (_ & _ & Hn). exfalso. apply (Hn _ Hs). left. }
  rewrite IH, NoDup_cons, not_elem_of_cons. setoid_rewrite not_elem_of_cons.
  setoid_rewrite elem_of_cons. split.
  - intros (Hnd & He & H). split; [|split; [split; [by apply not_eq_sym|done]|]].
    + split; [apply H; by left|done].
    + intros id Hid. split; [intros ->; done|]. apply H. by right.
  - intros ([Hb Hnd] & [_ He] & H). split; [done|split; [done|]].
    intros id [->|Hid]; [done|]. by apply H.
Qed.

Lemma outside_false lo hi x : outside lo hi x = false <-> in_range lo hi x.
Proof. unfold outside, in_range. rewrite orb_false_iff, !Z.ltb_ge. done. Qed.

Lemma guard_None {E} (b : bool) (e : E) k :
  (if b then Some e else k) = None <-> b = false /\ k = None.
Proof. by destruct b; naive_solver. Qed.

(** [ValidateAgentSettings] accepts exactly the settings in range, with unique
    non-empty browser identifiers. *)
Theorem ValidateAgentSettings_spec s : ValidateAgentSettings s = None <-> settings_ok s.
Proof.
  unfold ValidateAgentSettings, settings_ok.
  change (in_range 1 90) with (in_range MinLogRetentionDays MaxLogRetentionDays).
  change (in_range 1 120) with (in_range MinGraceMinutes MaxGraceMinutes).
  change (in_range 1 100) with (in_range MinArtifactKeepVersions MaxArtifactKeepVersions).
  change (in_range 1 240) with
    (in_range MinDebugBrowserSessionTTLMinutes MaxDebugBrowserSessionTTLMinutes).
  change 60 with MinLogCleanupIntervalSeconds. rewrite <-!outside_false, <-Z.ltb_ge.
  rewrite !guard_None, check_browsers_None.
  assert (forall m, negb (m =? "")%string && negb (m =? DebugBrowserProfileModeEphemeral)%string &&
            negb (m =? DebugBrowserProfileModePersistent)%string = false <->
          m ∈ [""; DebugBrowserProfileModeEphemeral; DebugBrowserProfileModePersistent]) as Hm.
  { intros m. rewrite !andb_false_iff, !negb_false_iff, !String.eqb_eq, !elem_of_cons, elem_of_nil.
    tauto. }
  rewrite Hm. split; [|intros (?&?&?&?&?&?&?&?&?); split_and!; try done;
    intros id Hid; by apply elem_of_nil in Hid].
  intros (?&?&?&?&?&?&?&?&?&?). split_and!; done.
Qed.

Lemma settings_ok_default : settings_ok DefaultAgentSettings.
Proof. apply ValidateAgentSettings_spec. by vm_compute. Qed.

(** Whatever the file holds, settings that load are valid: the grace window is
    between 1 and 120 minutes, the retention bounds hold, whichever fields the
    file left out. *)
Theorem Load_valid w f s : Load w f = Ok s -> settings_ok s.
Proof.
  unfold Load. destruct (negb _); [done|]. destruct f as [| | |d]; try done.
  - intros [= <-]. apply settings_ok_default.
  - destruct (ValidateAgentSettings _) eqn:E; [done|]. intros [= <-].
    by apply ValidateAgentSettings_spec.
Qed.

Definition normalized (s : AgentSettings) : AgentSettings :=
  let b := set_DebugBrowser s in
  {| LogRetentionDays := LogRetentionDays s; LogMaxBytes := LogMaxBytes s;
     LogCleanupIntervalSeconds := LogCleanupIntervalSeconds s;
     ArtifactKeepVersions := ArtifactKeepVersions s; SampleSeeded := SampleSeeded s;
     OnboardingCompleted := OnboardingCompleted s; set_Approval := set_Approval s;
     set_DebugBrowser :=
       {| DefaultBrowserID := DefaultBrowserID b;
          ProfileMode := if (ProfileMode b =? "")%string then DebugBrowserProfileModeEphemeral
                         else ProfileMode b;
          AllowEvaluate := AllowEvaluate b; SessionTTLMinutes := SessionTTLMinutes b;
          Browsers := Browsers b |} |}.

Lemma if_zero_id x d : 1 <= x -> if_zero x d = x.
Proof. intros. unfold if_zero. by rewrite (proj2 (Z.eqb_neq x 0)) by lia. Qed.

Lemma backfill_marshal s :
  settings_ok s -> backfill (unmarshal_over DefaultAgentSettings (marshal s)) = normalized s.
Proof.
  unfold settings_ok, in_range, MinLogMaxBytes. intros (?&?&?&?&?&?&?&_).
  unfold backfill, normalized, unmarshal_over, marshal. simpl.
  rewrite !if_zero_id by lia. f_equal; [by destruct (set_Approval s)|].
  destruct (set_DebugBrowser s) as [db pm ae ttl br]; simpl in *.
  destruct (String.eqb_spec db "") as [->|], (String.eqb_spec pm "") as [->|]; simpl;
    rewrite ?(proj2 (String.eqb_neq pm "")) by done; by destruct br.
Qed.

(** What is saved is what is loaded back (an empty browser profile mode comes
    back as its default). *)
Theorem Save_Load_roundtrip w w' f f' s :
  Save w f s = (f', Ok tt) -> w_read_ok w' = true -> Load w' f' = Ok (normalized s).
Proof.
  unfold Save. destruct (ValidateAgentSettings s) eqn:E; [done|].
  apply ValidateAgentSettings_spec in E as Hok.
  destruct (w_save w); simpl; intros [= <-] Hr. unfold Load. rewrite Hr. simpl.
  rewrite backfill_marshal by done.
  assert (ValidateAgentSettings (normalized s) = None) as ->; [|done].
  apply ValidateAgentSettings_spec. unfold settings_ok in *. simpl.
  destruct Hok as (?&?&?&?&?&Hp&?&?&?). split_and!; try done.
  destruct (String.eqb_spec (ProfileMode (set_DebugBrowser s)) ""); [|done].
  right. left.
Qed.

Lemma Load_valid_witness :
  exists s, Load (mkWorld 0 "" "" true SaveOk) Missing = Ok s /\ settings_ok s.
Proof. eexists. split; [reflexivity|]. by apply (Load_valid (mkWorld 0 "" "" true SaveOk) Missing). Defined.

Lemma Save_Load_roundtrip_witness :
  let w := mkWorld 0 "" "" true SaveOk in
  Load w (Save w Missing DefaultAgentSettings).1 = Ok DefaultAgentSettings.
Proof.
  intros w. apply (Save_Load_roundtrip w w Missing _ DefaultAgentSettings); reflexivity.
Defined.
