(* ===== verification/Gate.v ===== *)
(** * The gate in front of every write operation (agent/api/handler_operations.go)

    [authorizeOperation] and the handlers that list, decide and deliver
    approvals, over the stores of the other files.  An [App] is the state they
    share; an [Env] gives each of the calls of one request its own [World]. *)
From stdpp Require Import base list strings gmap.
From S2P Require Import Prelude Model OperationTypes OperationPolicy.
From S2P Require Import SecurityStore Adoption Settings.
From S2P Require Import ApprovalStore ApprovalProtocol AuditStore GraceStore.
Local Open Scope string_scope.

Record App : Type := mkApp {
  operationApprovals : ApprovalFileStore;
  operationAudit : AuditFileStore;
  operationGrace : file (list GraceGrant);
  app_settings : file SettingsDoc;
  app_adoptions : option (gmap string adoptionRecord);
}.

Definition with_approvals (s : ApprovalFileStore) (a : App) : App :=
  mkApp s (operationAudit a) (operationGrace a) (app_settings a) (app_adoptions a).
Definition with_audit (s : AuditFileStore) (a : App) : App :=
  mkApp (operationApprovals a) s (operationGrace a) (app_settings a) (app_adoptions a).
Definition with_grace (s : file (list GraceGrant)) (a : App) : App :=
  mkApp (operationApprovals a) (operationAudit a) s (app_settings a) (app_adoptions a).
Definition with_adoptions (m : gmap string adoptionRecord) (a : App) : App :=
  mkApp (operationApprovals a) (operationAudit a) (operationGrace a) (app_settings a) (Some m).

(** The clock, random generators and file accesses of the calls of a request. *)
Record Env : Type := mkEnv {
  e_settings : World;
  e_grace : World;
  e_approvals : World;
  e_audit : World;
  e_audit2 : World;
  e_adoption : World;
  e_gen : option string;   (** [GenerateToken] in the adoption hook *)
}.

(** ** Policy switches *)

Definition with_requires (b : bool) (p : Plan) : Plan :=
  {| plan_ID := plan_ID p; plan_Kind := plan_Kind p; plan_Target := plan_Target p;
     plan_TargetSummary := plan_TargetSummary p; plan_RiskLevel := plan_RiskLevel p;
     plan_RequiresApproval := b; plan_Denied := plan_Denied p;
     plan_Reasons := plan_Reasons p; plan_ExpectedEffects := plan_ExpectedEffects p;
     plan_Checks := plan_Checks p; plan_Fingerprint := plan_Fingerprint p;
     plan_CreatedAt := plan_CreatedAt p; plan_ExpiresAt := plan_ExpiresAt p |}.

Definition applyApprovalPolicy (plan : Plan) (policy : ApprovalPolicy) : Plan :=
  let kind := plan_Kind plan in
  if plan_Denied plan then plan
  else if (kind =? OperationConfigProjectUpsert)%string ||
          (kind =? OperationConfigServiceUpsert)%string
  then with_requires (ConfigUpsert policy) plan
  else if (kind =? OperationConfigPipelineUpsert)%string
  then with_requires (PipelineUpsert policy) plan
  else if (kind =? OperationPipelineRun)%string
  then with_requires (PipelineRun policy) plan
  else if (kind =? OperationTemplateImport)%string
  then with_requires (TemplateImport policy) plan
  else if (kind =? OperationBrowserDebugOpen)%string
  then with_requires (BrowserDebugOpen policy) plan
  else if (kind =? OperationCodeDebugOpen)%string
  then with_requires (CodeDebugOpen policy) plan
  else if (kind =? OperationCodeDebugEvaluate)%string
  then with_requires (CodeDebugEvaluate policy) plan
  else plan.

Definition loadApprovalPolicy (w : World) (app : App) : ApprovalPolicy :=
  match Load w (app_settings app) with
  | Ok settings => set_Approval settings
  | Err _ => set_Approval DefaultAgentSettings
  end.

(** ** Requests and replies *)

Record OpRequest : Type := {
  hdr_token : string;             (** X-SuperDev-Approval-Token *)
  hdr_requester : string;         (** X-SuperDev-Requester *)
  hdr_requester_label : string;   (** X-SuperDev-Requester-Label *)
}.

Definition approvalTokenFromRequest (r : OpRequest) : string := TrimSpace (hdr_token r).

Definition operationRequester (r : OpRequest) : string :=
  let requester := TrimSpace (hdr_requester r) in
  if negb (requester =? "")%string then requester else "mcp".

Definition operationRequesterLabel (r : OpRequest) : string :=
  let label := TrimSpace (hdr_requester_label r) in
  if negb (label =? "")%string then label else "Codex".

Definition sanitizeOperationApproval (a : Approval) : Approval := set_token "" None None a.

Definition sanitizeOperationApprovals (l : list Approval) : list Approval :=
  sanitizeOperationApproval <$> l.

Inductive gate_reply : Type :=
| Allowed (approval : option Approval)
| Forbidden (code : string) (plan : Plan) (approval : option Approval)
| InternalError.

Definition audit_event (plan : Plan) (action approvalID summary : string)
    (data : list (string * any)) : AuditEvent :=
  {| ev_ID := ""; ev_Kind := plan_Kind plan; ev_Action := action; ev_ApprovalID := approvalID;
     ev_Plan := plan; ev_Summary := summary; ev_Data := data; ev_CreatedAt := 0 |}.

(** The outcome of the append is ignored. *)
Definition appendOperationAudit (w : World) (app : App) (e : AuditEvent) : App :=
  with_audit (AuditStore.Append w (operationAudit app) e).1 app.

Definition approvalTokenErrorCode (e : error) : string :=
  match e with
  | ErrApprovalRejected => "approval_rejected"
  | ErrApprovalExpired => "approval_expired"
  | ErrApprovalTokenConsumed => "approval_token_consumed"
  | _ => "approval_token_invalid"
  end.

Section Gate.
Context {D : Digest}.

(** The lookup of the grace window: a failed lookup counts as no window. *)
Definition grace_lookup (w : World) (app : App) (projectID : string)
    : App * option GraceGrant :=
  if (projectID =? "")%string then (app, None)
  else
    let '(g, r) := ActiveGrace w (operationGrace app) projectID in
    (with_grace g app, match r with Ok hit => hit | Err _ => None end).

Definition authorizeOperation (e : Env) (app : App) (r : OpRequest) (plan : Plan)
    : App * gate_reply :=
  let plan := applyApprovalPolicy plan (loadApprovalPolicy (e_settings e) app) in
  if plan_Denied plan then
    (appendOperationAudit (e_audit e) app
       (audit_event plan AuditFailed "" "operation denied by safety policy"
          [("reasons", AList (AStr <$> plan_Reasons plan))]),
     Forbidden "operation_denied" plan None)
  else if negb (plan_RequiresApproval plan) then
    (appendOperationAudit (e_audit e) app
       (audit_event plan AuditExecuted "" "operation allowed without approval" []),
     Allowed None)
  else
    let '(app, grant) := grace_lookup (e_grace e) app (ProjectID (plan_Target plan)) in
    match grant with
    | Some g =>
        (appendOperationAudit (e_audit e) app
           (audit_event plan AuditApprovedByGrace "" "operation allowed by project grace window"
              [("grace_from", AStr (gr_GrantedFrom g));
               ("grace_expires_at", AInt (gr_ExpiresAt g))]),
         Allowed None)
    | None =>
        let token := approvalTokenFromRequest r in
        if negb (token =? "")%string then
          let '(s, res) := ConsumeToken (e_approvals e) (operationApprovals app) token
                             (plan_Fingerprint plan) in
          let app := with_approvals s app in
          match res with
          | Err err => (app, Forbidden (approvalTokenErrorCode err) plan None)
          | Ok approval =>
              (appendOperationAudit (e_audit e) app
                 (audit_event plan AuditExecuted (app_ID approval)
                    "operation approved and token consumed" []),
               Allowed (Some approval))
          end
        else
          let '(s, res) := FindOrCreatePending (e_approvals e) (operationApprovals app) plan
                             (operationRequester r) (operationRequesterLabel r) in
          let app := with_approvals s app in
          match res with
          | Err _ => (app, InternalError)
          | Ok approval =>
              (appendOperationAudit (e_audit e) app
                 (audit_event plan AuditApprovalRequired (app_ID approval)
                    "operation requires approval" []),
               Forbidden "approval_required" plan (Some (sanitizeOperationApproval approval)))
          end
    end.

Definition appendOperationExecutionFailure (w : World) (app : App) (plan : Plan)
    (approval : option Approval) (summary : string) : App :=
  appendOperationAudit w app
    (audit_event plan AuditFailed (match approval with Some a => app_ID a | None => "" end)
       summary []).

(** ** Foreign approvals, routed to the host that issued them *)

Record Snapshot : Type := {
  snap_Pending : list Approval;
  snap_Decided : list Approval;
}.

(** What the control plane knows of other hosts: the snapshots of its aggregator,
    in the order of this iteration, and the projects it manages on each host. *)
Record Foreign : Type := {
  approvalAggregator : option (list (string * Snapshot));
  managedProjectIDsByHome : gmap string (gset string);
}.

Definition remoteApprovalForID (fg : Foreign) (id : string) : option (Approval * string) :=
  if (id =? "")%string then None
  else
    match approvalAggregator fg with
    | None => None
    | Some all =>
        let candidates :=
          all ≫= (fun hs =>
            (fun a => (a, hs.1)) <$> (snap_Pending hs.2 ++ snap_Decided hs.2)%list) in
        List.find (fun c =>
          (app_ID c.1 =? id)%string &&
          bool_decide (ProjectID (plan_Target (app_Plan c.1)) ∈
                       default ∅ (managedProjectIDsByHome fg !! c.2)))
          candidates
    end.

Definition approvalOriginOf (fg : Foreign) (id : string) : string :=
  match remoteApprovalForID fg id with
  | Some (_, hostID) => hostID
  | None => ""
  end.

(** The zero value [operation.Plan{}]. *)
Definition Plan_zero : Plan :=
  {| plan_ID := ""; plan_Kind := ""; plan_Target := Target_zero; plan_TargetSummary := "";
     plan_RiskLevel := ""; plan_RequiresApproval := false; plan_Denied := false;
     plan_Reasons := []; plan_ExpectedEffects := []; plan_Checks := []; plan_Fingerprint := "";
     plan_CreatedAt := 0; plan_ExpiresAt := 0 |}.

Definition appendApprovalProxyAudit (w : World) (fg : Foreign) (app : App)
    (id origin decision : string) : App :=
  let plan := match remoteApprovalForID fg id with
              | Some (approval, _) => app_Plan approval
              | None => Plan_zero
              end in
  appendOperationAudit w app
    (audit_event plan AuditApprovalProxied id "operation approval decision proxied to origin host"
       [("origin_host_id", AStr origin); ("decision", AStr decision)]).

(** ** The handlers on approvals *)

Inductive handler_reply : Type :=
| Forwarded (hostID : string)
| ApprovalDetail (approval : Approval) (token : string) (expires : option time)
| ApprovalDecision (approval : Approval) (graceGranted : bool) (graceExpiresAt : option time)
| StoreError (status : Z) (code : string) (decidedBy : string)
| BadRequest.

(** [writeOperationStoreError] *)
Definition writeOperationStoreError (err : error) (decidedBy : string) : handler_reply :=
  match err with
  | ErrApprovalNotFound => StoreError 404 "approval_not_found" ""
  | ErrApprovalAlreadyDecided => StoreError 409 "approval_already_decided" decidedBy
  | ErrApprovalRejected => StoreError 403 "approval_rejected" ""
  | ErrApprovalExpired => StoreError 403 "approval_expired" ""
  | ErrApprovalTokenConsumed => StoreError 403 "approval_token_consumed" ""
  | ErrApprovalTokenInvalid => StoreError 403 "approval_token_invalid" ""
  | _ => StoreError 500 "" ""
  end.

Definition getOperationApproval (w w2 : World) (fg : Foreign) (app : App) (id : string)
    : App * handler_reply :=
  let origin := approvalOriginOf fg id in
  if negb (origin =? "")%string then (app, Forwarded origin)
  else
    let '(s, r) := IssueToken w (operationApprovals app) id in
    let app := with_approvals s app in
    match r with
    | Ok (token, approval) =>
        (app, ApprovalDetail (sanitizeOperationApproval approval) token
                (app_TokenExpiresAt approval))
    | Err err =>
        (app,
         match err, ApprovalStore.Get w2 (operationApprovals app) id with
         | ErrApprovalTokenInvalid, Ok pending =>
             if (app_Status pending =? ApprovalPending)%string
             then ApprovalDetail (sanitizeOperationApproval pending) "" None
             else writeOperationStoreError err ""
         | _, _ => writeOperationStoreError err ""
         end)
    end.

(** The identity behind a decision: of the verified credential only. *)
Definition principalFromRequest (p : option Principal) : string * string * string :=
  match p with
  | None => ("unknown", "unknown", "unknown")
  | Some p => (p_Name p, match p_Type p with PrincipalLocal => "local" | PrincipalRemote => "remote" end,
               p_ID p)
  end.

Definition decisionConflictWinner (w : World) (app : App) (id : string) (err : error) : string :=
  match err with
  | ErrApprovalAlreadyDecided =>
      match ApprovalStore.Get w (operationApprovals app) id with
      | Ok existing => app_DecidedBy existing
      | Err _ => ""
      end
  | _ => ""
  end.

(** The adoption manager follows the decision; its errors are only logged. *)
Definition hookAgentAdoptDecision (w : World) (gen : option string) (app : App)
    (approval : Approval) (approve : bool) : App :=
  if negb (plan_Kind (app_Plan approval) =? KindAgentAdopt)%string then app
  else
    match app_adoptions app with
    | None => app
    | Some m =>
        let requestID := plan_Fingerprint (app_Plan approval) in
        with_adoptions
          (if approve then (Adoption.Approve w gen m requestID).1
           else (Adoption.Reject w m requestID).1) app
    end.

Record DecisionRequest : Type := {
  dr_DecidedBy : string;   (** parsed and ignored *)
  dr_Note : string;
  dr_GrantGrace : bool;
}.

Definition decision_data (approval : Approval) (principalType principalID : string)
    : list (string * any) :=
  [("decided_by", AStr (app_DecidedBy approval)); ("principal_type", AStr principalType);
   ("principal_id", AStr principalID)].

(** [body] is the decoded request, [None] when it does not decode; [fwd] tells
    whether [forwardToHost] delivered the request. *)
Definition approveOperationApproval (e : Env) (w_conflict : World) (fg : Foreign) (fwd : bool)
    (app : App) (id : string) (body : option DecisionRequest) (p : option Principal)
    : App * handler_reply :=
  let origin := approvalOriginOf fg id in
  if negb (origin =? "")%string then
    (if fwd then appendApprovalProxyAudit (e_audit e) fg app id origin "approve" else app,
     Forwarded origin)
  else
    match body with
    | None => (app, BadRequest)
    | Some req =>
        let '(decidedByName, principalType, principalID) := principalFromRequest p in
        let '(s, r) := ApprovalStore.Approve (e_approvals e) (operationApprovals app) id
                         decidedByName (dr_Note req) in
        let app := with_approvals s app in
        match r with
        | Err err =>
            (app, writeOperationStoreError err (decisionConflictWinner w_conflict app id err))
        | Ok approval =>
            let app := hookAgentAdoptDecision (e_adoption e) (e_gen e) app approval true in
            let app := appendOperationAudit (e_audit e) app
              (audit_event (app_Plan approval) AuditApproved (app_ID approval)
                 "operation approval approved" (decision_data approval principalType principalID)) in
            let projectID := ProjectID (plan_Target (app_Plan approval)) in
            if dr_GrantGrace req && negb (projectID =? "")%string then
              let minutes := GraceMinutes (loadApprovalPolicy (e_settings e) app) in
              let '(g, gr) := GrantGrace (e_grace e) (operationGrace app) projectID
                                (app_DecidedBy approval) (app_ID approval) (minutes * minute)%Z in
              let app := with_grace g app in
              match gr with
              | Ok grant =>
                  (appendOperationAudit (e_audit2 e) app
                     (audit_event (app_Plan approval) AuditGraceGranted (app_ID approval)
                        "project grace window opened"
                        [("project_id", AStr projectID); ("expires_at", AInt (gr_ExpiresAt grant))]),
                   ApprovalDecision (sanitizeOperationApproval approval) true
                     (Some (gr_ExpiresAt grant)))
              | Err _ => (app, ApprovalDecision (sanitizeOperationApproval approval) false None)
              end
            else (app, ApprovalDecision (sanitizeOperationApproval approval) false None)
        end
    end.

Definition rejectOperationApproval (e : Env) (w_conflict : World) (fg : Foreign) (fwd : bool)
    (app : App) (id : string) (body : option DecisionRequest) (p : option Principal)
    : App * handler_reply :=
  let origin := approvalOriginOf fg id in
  if negb (origin =? "")%string then
    (if fwd then appendApprovalProxyAudit (e_audit e) fg app id origin "reject" else app,
     Forwarded origin)
  else
    match body with
    | None => (app, BadRequest)
    | Some req =>
        let '(decidedByName, principalType, principalID) := principalFromRequest p in
        let '(s, r) := ApprovalStore.Reject (e_approvals e) (operationApprovals app) id
                         decidedByName (dr_Note req) in
        let app := with_approvals s app in
        match r with
        | Err err =>
            (app, writeOperationStoreError err (decisionConflictWinner w_conflict app id err))
        | Ok approval =>
            let app := hookAgentAdoptDecision (e_adoption e) (e_gen e) app approval false in
            (appendOperationAudit (e_audit e) app
               (audit_event (app_Plan approval) AuditRejected (app_ID approval)
                  "operation approval rejected" (decision_data approval principalType principalID)),
             ApprovalDecision (sanitizeOperationApproval approval) false None)
        end
    end.
End Gate.

(** ** Resolution of the target of a runtime operation *)

Record operationTargetRequest : Type := {
  otr_ProjectID : string;
  otr_ProjectName : string;
  otr_EnvName : string;
  otr_ServiceID : string;
  otr_ServiceName : string;
  otr_DeploymentID : string;
}.

(** An empty field of the request matches everything. *)
Definition field_matches (want have : string) : bool :=
  (want =? "")%string || (have =? want)%string.

Definition target_candidates (projects : list Project) (req : operationTargetRequest)
    : list (Project * Service * Deployment) :=
  projects ≫= (fun p =>
    if field_matches (TrimSpace (otr_ProjectID req)) (prj_ID p) &&
       field_matches (TrimSpace (otr_ProjectName req)) (prj_Name p)
    then prj_Services p ≫= (fun s =>
      if field_matches (TrimSpace (otr_ServiceID req)) (svc_ID s) &&
         field_matches (TrimSpace (otr_ServiceName req)) (svc_Name s)
      then (fun d => (p, s, d)) <$>
             List.filter (fun d =>
               field_matches (TrimSpace (otr_DeploymentID req)) (dep_ID d) &&
               field_matches (TrimSpace (otr_EnvName req)) (dep_EnvName d)) (svc_Deployments s)
      else [])
    else []).

Inductive resolve_error : Type := TargetNotFound | TargetAmbiguous.

Definition resolveOperationRuntimeTarget (projects : list Project)
    (req : operationTargetRequest) : result resolve_error (Project * Service * Deployment) :=
  match target_candidates projects req with
  | [] => Err TargetNotFound
  | [c] => Ok c
  | _ => Err TargetAmbiguous
  end.

(** ** Facts *)

Section GateFacts.
Context {D : Digest}.

Lemma applyApprovalPolicy_shape plan policy :
  plan_Denied (applyApprovalPolicy plan policy) = plan_Denied plan /\
  exists b, applyApprovalPolicy plan policy = with_requires b plan.
Proof.
  assert (plan = with_requires (plan_RequiresApproval plan) plan) as Hid by by destruct plan.
  unfold applyApprovalPolicy. destruct (plan_Denied plan) eqn:E; [by eauto|].
  repeat (destruct (_ =? _)%string; [by simpl; eauto|]; simpl). by eauto.
Qed.

(** The switches touch nothing but the need for an approval; they never let a
    denied plan through, nor change the rule for starting, stopping and
    restarting deployments; with the default settings every covered operation
    keeps requiring an approval. *)
Theorem applyApprovalPolicy_scope plan policy :
  (exists b, applyApprovalPolicy plan policy = with_requires b plan) /\
  (plan_Denied plan = true -> applyApprovalPolicy plan policy = plan) /\
  (plan_Kind plan ∈ [OperationRuntimeStart; OperationRuntimeStop; OperationRuntimeRestart;
                     OperationRuntimeStartSelected] -> applyApprovalPolicy plan policy = plan) /\
  (plan_RequiresApproval plan = true ->
   plan_RequiresApproval (applyApprovalPolicy plan (set_Approval DefaultAgentSettings)) = true).
Proof.
  split_and!.
  - apply applyApprovalPolicy_shape.
  - intros H. unfold applyApprovalPolicy. by rewrite H.
  - intros H. unfold applyApprovalPolicy. destruct (plan_Denied plan); [done|].
    rewrite !elem_of_cons, elem_of_nil in H. by destruct H as [->|[->|[->|[->|[]]]]].
  - intros H. unfold applyApprovalPolicy. destruct (plan_Denied plan); [done|].
    by repeat (destruct (_ =? _)%string; [done|]; simpl).
Qed.

Lemma grace_lookup_Some w app p app' g :
  grace_lookup w app p = (app', Some g) ->
  operationApprovals app' = operationApprovals app /\
  exists l, grace_load w (operationGrace app) = Ok l /\ window l (w_now w) g /\
            gr_ProjectID g = trim p.
Proof.
  unfold grace_lookup. destruct (p =? "")%string; [done|].
  destruct (ActiveGrace _ _ _) as [s' [hit|]] eqn:E; [|done]. intros [= <- ->].
  split; [done|by eapply ActiveGrace_hit].
Qed.

Lemma grace_lookup_approvals w app p app' r :
  grace_lookup w app p = (app', r) -> operationApprovals app' = operationApprovals app.
Proof.
  unfold grace_lookup. destruct (p =? "")%string; [by intros [= <- _]|].
  destruct (ActiveGrace _ _ _). by intros [= <- _].
Qed.

(** C1: the gate is sound: an operation is let through only if the safety policy
    does not deny it and either the settings require no approval for it, or its
    project has a grace window that has not expired, or the request carries the
    last token of an approval that somebody granted for exactly this plan, at
    most ten minutes after it was asked for, and that was never used before. *)
Theorem authorizeOperation_sound {HD : CollisionFree D} limit h e app r plan app' oa :
  Reach limit (operationApprovals app) h -> fresh (e_approvals e) h ->
  authorizeOperation e app r plan = (app', Allowed oa) ->
  plan_Denied plan = false /\
  (plan_RequiresApproval (applyApprovalPolicy plan (loadApprovalPolicy (e_settings e) app)) = false \/
   (exists l g, grace_load (e_grace e) (operationGrace app) = Ok l /\
      window l (w_now (e_grace e)) g /\ gr_ProjectID g = trim (ProjectID (plan_Target plan))) \/
   (exists a, oa = Some a /\ plan_Fingerprint (app_Plan a) = TrimSpace (plan_Fingerprint plan) /\
      allowed h (Consumed (TrimSpace (approvalTokenFromRequest r)) (app_ID a)
                   (TrimSpace (plan_Fingerprint plan)) (w_now (e_approvals e))))).
Proof.
  intros Hreach Hfresh. unfold authorizeOperation.
  set (policy := loadApprovalPolicy _ _). clearbody policy.
  destruct (applyApprovalPolicy_shape plan policy) as [Hd [b Hb]].
  set (plan' := applyApprovalPolicy plan policy) in *.
  assert (plan_Fingerprint plan' = plan_Fingerprint plan /\ plan_Target plan' = plan_Target plan)
    as [Hfp Ht] by (rewrite Hb; done).
  clearbody plan'. rewrite Hd. destruct (plan_Denied plan) eqn:Hden; [done|].
  destruct (plan_RequiresApproval plan') eqn:Hreq; [|intros _; split; [done|by left]].
  cbv beta iota zeta delta [negb]. rewrite Ht.
  destruct (grace_lookup _ _ _) as [app1 [g|]] eqn:Hg.
  { apply grace_lookup_Some in Hg as (_ & l & Hl & Hw & Hp). intros _.
    split; [done|]. right. left. by exists l, g. }
  apply grace_lookup_approvals in Hg. rewrite Hg.
  destruct (approvalTokenFromRequest r =? "")%string.
  - destruct (FindOrCreatePending _ _ _ _ _) as [s [a|]]; by intros [= _ _].
  - destruct (ConsumeToken _ _ _ _) as [s [a|err]] eqn:Hc; [|done].
    intros [= _ <-]. rewrite Hfp in Hc. split; [done|]. right. right. exists a.
    edestruct (ConsumeToken_inv _ _ _ _ _ _ _ _ Hreach Hfresh Hc) as (_ & ? & ?). done.
Qed.

(** C10: a refusal has no effect but its own: a denied operation changes neither the
    approvals nor the grace windows; a request that needs an approval and brings
    no token leaves a pending approval for its plan on disk and gets it back
    without the digest or the dates of any token. *)
Theorem authorizeOperation_refused e app r plan app' code p oa :
  authorizeOperation e app r plan = (app', Forbidden code p oa) ->
  p = applyApprovalPolicy plan (loadApprovalPolicy (e_settings e) app) /\
  (plan_Denied plan = true ->
     code = "operation_denied" /\ operationApprovals app' = operationApprovals app /\
     operationGrace app' = operationGrace app) /\
  (plan_Denied plan = false -> approvalTokenFromRequest r = "" ->
     code = "approval_required" /\
     exists l a, contents [] (afs_file (operationApprovals app')) = Some l /\ a ∈ l /\
       app_Status a = ApprovalPending /\
       plan_Fingerprint (app_Plan a) = plan_Fingerprint plan /\
       oa = Some (set_token "" None None a)).
Proof.
  unfold authorizeOperation. set (policy := loadApprovalPolicy _ _). clearbody policy.
  destruct (applyApprovalPolicy_shape plan policy) as [Hd [b Hb]].
  set (plan' := applyApprovalPolicy plan policy) in *.
  assert (plan_Fingerprint plan' = plan_Fingerprint plan) as Hfp by (rewrite Hb; done).
  clearbody plan'. rewrite Hd. destruct (plan_Denied plan) eqn:Hden.
  { intros [= <- <- <- <-]. split_and!; done. }
  destruct (negb (plan_RequiresApproval plan')); [done|].
  destruct (grace_lookup _ _ _) as [app1 [g|]]; [done|].
  destruct (String.eqb_spec (approvalTokenFromRequest r) "") as [Ht|Ht]; simpl.
  - destruct (FindOrCreatePending _ _ _ _ _) as [s [a|]] eqn:Hf; [|done].
    intros [= <- <- <- <-]. split_and!; [done|done|]. intros _ _. split; [done|].
    apply FindOrCreatePending_inv in Hf as (l & Hl & _ & Hf).
    apply List.find_some in Hf as [Hin (Hp & Hf & _)%reusable_spec].
    exists l, a. split_and!; [done|by apply list_elem_of_In|done|by rewrite <-Hfp|done].
  - destruct (ConsumeToken _ _ _ _) as [s [a|err]]; [done|].
    intros [= <- <- <- <-]. split_and!; [done|done|]. intros _ ?. done.
Qed.

(** A conflicting decision is reported as such, to whoever comes second and
    whether it agrees or not, with the name of the one who decided first, and
    the approvals stay as they are. *)
Theorem decision_conflict e w_conflict fg fwd app id body p l idx a :
  approvalOriginOf fg id = "" ->
  approvals_load (e_approvals e) (operationApprovals app) = Ok l ->
  w_read_ok w_conflict = true ->
  findApprovalIndex l (TrimSpace id) = Some (idx, a) ->
  app_Status a = ApprovalApproved \/ app_Status a = ApprovalRejected ->
  let reply := StoreError 409 "approval_already_decided" (app_DecidedBy a) in
  approveOperationApproval e w_conflict fg fwd app id (Some body) p = (app, reply) /\
  rejectOperationApproval e w_conflict fg fwd app id (Some body) p = (app, reply).
Proof.
  intros Ho Hl Hr Hf Hs reply.
  assert (with_approvals (operationApprovals app) app = app) as Hid by by destruct app.
  assert (forall w, ensureApprovalDecisionAllowed a (w_now w) = Some ErrApprovalAlreadyDecided) as He.
  { intros w. unfold ensureApprovalDecisionAllowed. by destruct Hs as [->| ->]. }
  assert (decisionConflictWinner w_conflict app id ErrApprovalAlreadyDecided = app_DecidedBy a) as Hw.
  { unfold decisionConflictWinner, ApprovalStore.Get.
    assert (approvals_load w_conflict (operationApprovals app) = Ok l) as ->.
    { unfold approvals_load in *. rewrite Hr. by destruct (w_read_ok _). }
    rewrite Hf. unfold withEffectiveExpiry. by destruct (_ && _). }
  unfold approveOperationApproval, rejectOperationApproval. rewrite Ho.
  destruct (principalFromRequest p) as [[name ty] pid].
  cbv beta iota zeta delta [negb String.eqb].
  unfold ApprovalStore.Approve, ApprovalStore.Reject.
  rewrite !(decide_with_refused _ _ _ _ _ _ _ _ Hl Hf (He _)).
  cbv beta iota zeta. by rewrite Hid, Hw.
Qed.

(** The grace window a decision opens, as it stands in the file. *)
Lemma approve_grants e w_conflict fg fwd app id body p app1 a exp :
  approveOperationApproval e w_conflict fg fwd app id body p =
    (app1, ApprovalDecision a true exp) ->
  exists minutes g, exp = Some (gr_ExpiresAt g) /\ (1 <= minutes <= 120)%Z /\
    ProjectID (plan_Target (app_Plan a)) <> "" /\
    GrantGrace (e_grace e) (operationGrace app) (ProjectID (plan_Target (app_Plan a)))
      (app_DecidedBy a) (app_ID a) (minutes * minute)%Z = (operationGrace app1, Ok g).
Proof.
  unfold approveOperationApproval. destruct (negb _); [done|]. destruct body as [req|]; [|done].
  destruct (principalFromRequest p) as [[name ty] pid].
  destruct (ApprovalStore.Approve _ _ _ _ _) as [s [b|err]];
    [|by destruct err].
  set (app2 := appendOperationAudit _ _ _).
  assert (operationGrace app2 = operationGrace app /\ app_settings app2 = app_settings app)
    as [Hg Hset].
  { unfold app2, hookAgentAdoptDecision. simpl. destruct (negb _); [done|].
    simpl. destruct (app_adoptions app); done. }
  destruct (dr_GrantGrace req && _) eqn:Hgrant; [|done].
  apply andb_prop in Hgrant as [_ Hp%negb_true_iff%String.eqb_neq].
  cbv zeta. destruct (GrantGrace _ _ _ _ _ _) as [g [grant|]] eqn:HG; [|done].
  intros [= <- <- <-]. exists (GraceMinutes (loadApprovalPolicy (e_settings e) app2)), grant.
  split_and!; [done| | |done|simpl; rewrite <-Hg; exact HG].
  - unfold loadApprovalPolicy. destruct (Load _ _) as [st|] eqn:HL; [|done].
    apply Load_valid in HL as (_ & _ & _ & [? ?] & _). lia.
  - unfold loadApprovalPolicy. destruct (Load _ _) as [st|] eqn:HL; [|done].
    apply Load_valid in HL as (_ & _ & _ & [? ?] & _). lia.
Qed.

(** Approving with a grace window exempts the project for the configured number
    of minutes, between one minute and two hours: until then every operation of the
    project that the safety policy does not deny is let through without a
    token, whatever other projects are granted or looked up meanwhile. *)
Theorem approve_grace_window e w_conflict fg fwd app id body p app1 a exp calls e2 app2 r plan :
  approveOperationApproval e w_conflict fg fwd app id body p =
    (app1, ApprovalDecision a true (Some exp)) ->
  Forall (harmless (trim (ProjectID (plan_Target (app_Plan a)))) exp) calls ->
  operationGrace app2 = foldl grace_exec (operationGrace app1) calls ->
  w_read_ok (e_grace e2) = true -> w_save (e_grace e2) = SaveOk ->
  plan_Denied plan = false ->
  trim (ProjectID (plan_Target plan)) = trim (ProjectID (plan_Target (app_Plan a))) ->
  trim (ProjectID (plan_Target plan)) <> "" ->
  (w_now (e_grace e2) < exp)%Z ->
  (w_now (e_grace e) + 1 * minute <= exp <= w_now (e_grace e) + 120 * minute)%Z /\
  exists app', authorizeOperation e2 app2 r plan = (app', Allowed None).
Proof.
  intros Happ Hcalls H2 Hr Hs Hden Hp Hne Ht.
  apply approve_grants in Happ as (minutes & g & [= ->] & Hm & _ & HG).
  apply GrantGrace_sole in HG as (Hgp & He & Hsole & l & Hl & Hgl).
  split. { rewrite He. unfold minute, second, millisecond, nanosecond. lia. }
  rewrite <-Hgp in Hcalls.
  pose proof (granted_answers g _ l (ProjectID (plan_Target plan)) calls (e_grace e2) Hl Hgl Hsole
    (eq_trans Hgp (eq_sym Hp)) Hne Hcalls Hr Hs) as Hhit.
  rewrite (proj2 (Z.ltb_lt _ _) Ht), <-H2 in Hhit.
  unfold authorizeOperation. set (policy := loadApprovalPolicy _ _). clearbody policy.
  destruct (applyApprovalPolicy_shape plan policy) as [Hd [b Hb]].
  set (plan' := applyApprovalPolicy plan policy) in *.
  assert (plan_Target plan' = plan_Target plan) as Hpt by (rewrite Hb; done).
  clearbody plan'. rewrite Hd, Hden. destruct (negb (plan_RequiresApproval plan')); [by eexists|].
  rewrite Hpt. unfold grace_lookup.
  destruct (String.eqb_spec (ProjectID (plan_Target plan)) "") as [E|_].
  { exfalso. apply Hne. rewrite E. by vm_compute. }
  destruct (ActiveGrace _ _ _) as [s' res]. simpl in Hhit. rewrite Hhit. by eexists.
Qed.

(** A runtime operation is planned for a deployment only if exactly one
    deployment of one service of one project matches every field given, so that
    an under-specified request never hits an arbitrary target. *)
Theorem resolveOperationRuntimeTarget_unique projects req p s d :
  resolveOperationRuntimeTarget projects req = Ok (p, s, d) ->
  let matches c :=
    match c with (p, s, d) =>
      p ∈ projects /\ s ∈ prj_Services p /\ d ∈ svc_Deployments s /\
      (forall want have, (want, have) ∈
         [(TrimSpace (otr_ProjectID req), prj_ID p); (TrimSpace (otr_ProjectName req), prj_Name p);
          (TrimSpace (otr_ServiceID req), svc_ID s); (TrimSpace (otr_ServiceName req), svc_Name s);
          (TrimSpace (otr_DeploymentID req), dep_ID d); (TrimSpace (otr_EnvName req), dep_EnvName d)] ->
         want = "" \/ have = want)
    end in
  matches (p, s, d) /\ forall c, matches c -> c = (p, s, d).
Proof.
  intros Hres matches.
  assert (forall c, c ∈ target_candidates projects req <-> matches c) as Hc.
  { intros [[p' s'] d']. unfold target_candidates, matches.
    rewrite list_elem_of_bind.
    assert (forall want have, field_matches want have = true <-> want = "" \/ have = want) as Hfm.
    { intros. unfold field_matches. by rewrite orb_true_iff, !String.eqb_eq. }
    split.
    - intros (p0 & Hin & Hp). destruct (_ && _) eqn:Hm in Hin; [|by apply elem_of_nil in Hin].
      apply andb_prop in Hm as [H1%Hfm H2%Hfm].
      apply list_elem_of_bind in Hin as (s0 & Hin & Hs).
      destruct (_ && _) eqn:Hm in Hin; [|by apply elem_of_nil in Hin].
      apply andb_prop in Hm as [H3%Hfm H4%Hfm].
      apply list_elem_of_fmap in Hin as (d0 & [= -> -> ->] & Hd).
      apply filter_elem in Hd as [Hd [H5%Hfm H6%Hfm]%andb_prop].
      split_and!; [done|done|done|]. intros want have.
      rewrite !elem_of_cons, elem_of_nil.
      intros [[= -> ->]|[[= -> ->]|[[= -> ->]|[[= -> ->]|[[= -> ->]|[[= -> ->]|[]]]]]]]; done.
    - intros (Hp & Hs & Hd & Hall).
      assert (forall i want have,
        [(TrimSpace (otr_ProjectID req), prj_ID p'); (TrimSpace (otr_ProjectName req), prj_Name p');
         (TrimSpace (otr_ServiceID req), svc_ID s'); (TrimSpace (otr_ServiceName req), svc_Name s');
         (TrimSpace (otr_DeploymentID req), dep_ID d'); (TrimSpace (otr_EnvName req), dep_EnvName d')]
          !! i = Some (want, have) -> field_matches want have = true) as Hf.
      { intros i want have Hi. apply Hfm, Hall. by eapply list_elem_of_lookup_2. }
      exists p'. split; [|done].
      rewrite (Hf 0%nat _ _ eq_refl), (Hf 1%nat _ _ eq_refl). simpl.
      apply list_elem_of_bind. exists s'. split; [|done].
      rewrite (Hf 2%nat _ _ eq_refl), (Hf 3%nat _ _ eq_refl). simpl.
      apply list_elem_of_fmap. exists d'. split; [done|]. apply filter_elem.
      split; [done|]. by rewrite (Hf 4%nat _ _ eq_refl), (Hf 5%nat _ _ eq_refl). }
  unfold resolveOperationRuntimeTarget in Hres.
  destruct (target_candidates projects req) as [|c [|c' cs]]; simplify_eq.
  split; [apply Hc; left|]. intros c Hm. apply Hc in Hm. by apply list_elem_of_singleton in Hm.
Qed.
End GateFacts.

(** ** Examples *)

Section Examples.
Local Instance gate_digest : Digest := identity_digest.
Local Instance gate_collision_free : CollisionFree gate_digest := identity_digest_collision_free.

Definition gate_world (now : time) : World := mkWorld now "id" "" true SaveOk.

Definition gate_env (w : World) : Env := mkEnv w w w w w w None.

Definition gate_app (s : ApprovalFileStore) : App :=
  mkApp s (mkAuditFileStore 100 Missing) Missing Missing None.

Definition gate_request (token : string) : OpRequest :=
  {| hdr_token := token; hdr_requester := ""; hdr_requester_label := "" |}.

Definition no_foreign : Foreign :=
  {| approvalAggregator := None; managedProjectIDsByHome := ∅ |}.

Lemma authorizeOperation_sound_witness :
  let app := gate_app example_issued.1 in
  let e := gate_env example_consume.1 in
  exists app' a,
    authorizeOperation e app (gate_request "t3 ") example_plan = (app', Allowed (Some a)) /\
    allowed example_issued.2 (Consumed "t3" (app_ID a) "sha256:f" 4000).
Proof.
  intros app e. eexists _, _. split; [vm_compute; reflexivity|].
  edestruct (authorizeOperation_sound 1000 example_issued.2 e app (gate_request "t3 ")
    example_plan) as (_ & [H|[(l & g & H & Hw & _)|(a & Ha & _ & H)]]);
    [apply example_issued_Reach|by apply freshb_sound; vm_compute|vm_compute; reflexivity|..].
  - discriminate.
  - vm_compute in H. simplify_eq. destruct Hw as [Hw _]. by apply elem_of_nil in Hw.
  - simplify_eq. exact H.
Defined.

Lemma authorizeOperation_refused_witness :
  exists app' p a,
    authorizeOperation (gate_env (gate_world 5)) (gate_app (mkApprovalFileStore 10 Missing))
      (gate_request "") example_plan = (app', Forbidden "approval_required" p (Some a)) /\
    exists l b, contents [] (afs_file (operationApprovals app')) = Some l /\ b ∈ l /\
      app_Status b = ApprovalPending.
Proof.
  eexists _, _, _. split; [vm_compute; reflexivity|].
  edestruct (authorizeOperation_refused (gate_env (gate_world 5))
    (gate_app (mkApprovalFileStore 10 Missing)) (gate_request "") example_plan) as (_ & _ & H);
    [vm_compute; reflexivity|].
  destruct H as (_ & l & b & H1 & H2 & H3 & _); [reflexivity|by vm_compute|].
  exists l, b. split_and!; [exact H1|exact H2|exact H3].
Defined.

Lemma decision_conflict_witness :
  exists reply,
    rejectOperationApproval (gate_env (gate_world 2500)) (gate_world 2500) no_foreign true
      (gate_app example_issued.1) "opa_1"
      (Some {| dr_DecidedBy := "bob"; dr_Note := ""; dr_GrantGrace := false |}) None =
      (gate_app example_issued.1, reply) /\
    reply = StoreError 409 "approval_already_decided" "alice".
Proof.
  edestruct (decision_conflict (gate_env (gate_world 2500)) (gate_world 2500) no_foreign true
    (gate_app example_issued.1) "opa_1"
    {| dr_DecidedBy := "bob"; dr_Note := ""; dr_GrantGrace := false |} None) as [_ H];
    [reflexivity|vm_compute; reflexivity|reflexivity|vm_compute; reflexivity|left; reflexivity|].
  eexists. split; [exact H|reflexivity].
Defined.

Definition p1_plan : Plan :=
  {| plan_ID := "op_2"; plan_Kind := OperationPipelineRun;
     plan_Target :=
       {| ProjectID := "p1"; ProjectName := ""; EnvName := ""; ServiceID := "";
          ServiceName := ""; DeploymentID := ""; HostID := ""; TemplatePath := "";
          TemplateDigest := ""; PipelineID := "pl"; ArtifactVersion := "";
          DebugSessionID := ""; RequestOrigin := ""; OperationTypes.PairingCode := "" |};
     plan_TargetSummary := ""; plan_RiskLevel := RiskHigh; plan_RequiresApproval := true;
     plan_Denied := false; plan_Reasons := []; plan_ExpectedEffects := [];
     plan_Checks := []; plan_Fingerprint := "sha256:g"; plan_CreatedAt := 0; plan_ExpiresAt := 0 |}.

Definition p1_store : ApprovalFileStore :=
  (FindOrCreatePending (gate_world 10) (mkApprovalFileStore 10 Missing) p1_plan "mcp" "Codex").1.

Definition p1_approved : App :=
  (approveOperationApproval (gate_env (gate_world 20)) (gate_world 20) no_foreign true
     (gate_app p1_store) "id"
     (Some {| dr_DecidedBy := ""; dr_Note := ""; dr_GrantGrace := true |}) None).1.

Lemma approve_grace_window_witness :
  exists app', authorizeOperation (gate_env (gate_world (14 * minute))) p1_approved
                 (gate_request "") p1_plan = (app', Allowed None).
Proof.
  edestruct (approve_grace_window (gate_env (gate_world 20)) (gate_world 20) no_foreign true
    (gate_app p1_store) "id" (Some {| dr_DecidedBy := ""; dr_Note := ""; dr_GrantGrace := true |})
    None) with (calls := @nil (World * grace_call)) (app2 := p1_approved)
    (e2 := gate_env (gate_world (14 * minute))) (plan := p1_plan) (r := gate_request "")
    as (_ & app' & H);
    [vm_compute; reflexivity|constructor|vm_compute; reflexivity|reflexivity
    |reflexivity|reflexivity|by vm_compute|by vm_compute|by vm_compute|].
  exists app'. exact H.
Defined.

Lemma resolveOperationRuntimeTarget_unique_witness :
  let req := {| otr_ProjectID := ""; otr_ProjectName := "shop"; otr_EnvName := " prod";
                otr_ServiceID := ""; otr_ServiceName := ""; otr_DeploymentID := "d2" |} in
  exists c, resolveOperationRuntimeTarget [example_shop] req = Ok c /\
    dep_ID c.2 = "d2" /\ c.2 ∈ svc_Deployments c.1.2.
Proof.
  intros req. eexists (_, _, _). split; [vm_compute; reflexivity|]. split; [reflexivity|].
  edestruct (resolveOperationRuntimeTarget_unique [example_shop] req) as [(_ & _ & H & _) _];
    [vm_compute; reflexivity|]. exact H.
Defined.
End Examples.
