(* ===== verification/PipelinePlan.v ===== *)
(** * Pipeline planning (agent/pipeline: dag.go, planner.go, concurrency.go,
    run_if.go, reserved_vars.go)

    The dependency order of a phase, the hosts a step runs on, the policies a
    step declares, and the plan built from them. *)
From stdpp Require Import base list strings gmap.
From Stdlib Require Import Ascii Lia.
From S2P Require Import Prelude Model.
Local Open Scope string_scope.

Inductive plan_error : Type :=
| ErrStepNameRequired
| ErrDuplicateStep (name : string)
| ErrUnknownDependency (step dep : string)
| ErrCycle
| ErrPhase (phase : PipelinePhase) (e : plan_error)
| ErrRoleNotFound (role : string)
| ErrHostNotFound (id role : string)
| ErrReservedVariable (name : string).

(** ** ValidateDAG *)

(** First loop: names are given and unique; [inDegree] starts at 0. *)
Fixpoint index_steps (steps : list Step) (nameToStep : gmap string Step)
    : result plan_error (gmap string Step) :=
  match steps with
  | [] => Ok nameToStep
  | s :: rest =>
      if (step_Name s =? "")%string then Err ErrStepNameRequired
      else match nameToStep !! step_Name s with
           | Some _ => Err (ErrDuplicateStep (step_Name s))
           | None => index_steps rest (<[step_Name s := s]> nameToStep)
           end
  end.

Definition graph : Type := gmap string (list string) * gmap string Z.

Definition successors (adj : gmap string (list string)) (n : string) : list string :=
  default [] (adj !! n).

(** [inDegree[n]]: 0 when absent, as in a Go map. *)
Definition degree (inDegree : gmap string Z) (n : string) : Z := default 0%Z (inDegree !! n).

Definition add_edge (name dep : string) (g : graph) : graph :=
  (<[dep := (successors g.1 dep ++ [name])%list]> g.1,
   <[name := (degree g.2 name + 1)%Z]> g.2).

Fixpoint add_needs (known : gmap string Step) (name : string) (needs : list string) (g : graph)
    : result plan_error graph :=
  match needs with
  | [] => Ok g
  | dep :: rest =>
      match known !! dep with
      | None => Err (ErrUnknownDependency name dep)
      | Some _ => add_needs known name rest (add_edge name dep g)
      end
  end.

(** Second loop: the edges. *)
Fixpoint add_steps (known : gmap string Step) (steps : list Step) (g : graph)
    : result plan_error graph :=
  match steps with
  | [] => Ok g
  | s :: rest =>
      match add_needs known (step_Name s) (step_Needs s) g with
      | Err e => Err e
      | Ok g => add_steps known rest g
      end
  end.

(** Inner loop over the successors of a finished step. *)
Fixpoint relax (next : list string) (inDegree : gmap string Z) (queue : list string)
    : gmap string Z * list string :=
  match next with
  | [] => (inDegree, queue)
  | n :: rest =>
      let d := (degree inDegree n - 1)%Z in
      relax rest (<[n := d]> inDegree) (if (d =? 0)%Z then (queue ++ [n])%list else queue)
  end.

(** The zero value [model.Step{}]. *)
Definition Step_zero : Step :=
  {| step_Name := ""; step_Type := ""; step_Needs := []; step_Roles := []; step_RunIf := "";
     step_Concurrency := ""; step_Retries := 0; step_RetryDelay := ""; step_With := [] |}.

(** The loop over the queue.  Each iteration finishes one step, so that one more
    than the number of steps is enough fuel. *)
Fixpoint drain (fuel : nat) (nameToStep : gmap string Step) (adj : gmap string (list string))
    (queue : list string) (inDegree : gmap string Z) (out : list Step) : list Step :=
  match fuel with
  | O => out
  | S fuel =>
      match queue with
      | [] => out
      | name :: queue =>
          let out := (out ++ [default Step_zero (nameToStep !! name)])%list in
          let '(inDegree, queue) := relax (successors adj name) inDegree queue in
          drain fuel nameToStep adj queue inDegree out
      end
  end.

Definition initial_queue (inDegree : gmap string Z) (steps : list Step) : list string :=
  step_Name <$> List.filter (fun s => (degree inDegree (step_Name s) =? 0)%Z) steps.

Definition ValidateDAG (steps : list Step) : result plan_error (list Step) :=
  match index_steps steps ∅ with
  | Err e => Err e
  | Ok nameToStep =>
      match add_steps nameToStep steps (∅, ∅) with
      | Err e => Err e
      | Ok (adj, inDegree) =>
          let out := drain (S (length steps)) nameToStep adj
                       (initial_queue inDegree steps) inDegree [] in
          if negb (length out =? length steps)%nat then Err ErrCycle else Ok out
      end
  end.

(** ** Step policies *)

Inductive ConcurrencyMode : Type :=
| ConcurrencySerial
| ConcurrencyParallel
| ConcurrencyBatch.

Record StepConcurrency : Type := {
  sc_Mode : ConcurrencyMode;
  sc_Limit : Z;
}.

Definition ParseStepConcurrency (value : string) : option StepConcurrency :=
  let value := TrimSpace value in
  if (value =? "")%string || (value =? "serial")%string
  then Some {| sc_Mode := ConcurrencySerial; sc_Limit := 1 |}
  else if (value =? "parallel")%string
  then Some {| sc_Mode := ConcurrencyParallel; sc_Limit := 0 |}
  else if String.prefix "batch:" value then
    match Atoi (String.substring 6 (String.length value - 6) value) with
    | Some n => if (n <=? 0)%Z then None
                else Some {| sc_Mode := ConcurrencyBatch; sc_Limit := n |}
    | None => None
    end
  else None.

Abbreviation chars := String.list_ascii_of_string (only parsing).

(** [strings.Index] *)
Fixpoint index_of (pat l : list ascii) : option nat :=
  match strip_prefix pat l with
  | Some _ => Some 0%nat
  | None => match l with
            | [] => None
            | _ :: l' => S <$> index_of pat l'
            end
  end.

Inductive run_if_op : Type := OpEq | OpNe.

Definition splitRunIfComparison (expr : list ascii)
    : option (list ascii * list ascii * run_if_op) :=
  match index_of (chars "==") expr, index_of (chars "!=") expr with
  | Some eq, Some ne =>
      if (eq <? ne)%nat then Some (take eq expr, drop (eq + 2) expr, OpEq)
      else Some (take ne expr, drop (ne + 2) expr, OpNe)
  | Some eq, None => Some (take eq expr, drop (eq + 2) expr, OpEq)
  | None, Some ne => Some (take ne expr, drop (ne + 2) expr, OpNe)
  | None, None => None
  end.

Definition quote_chars : list ascii := ["'"%char; byte_of 34].
Definition blank_chars : list ascii := [" "%char; byte_of 9; byte_of 13; byte_of 10].

Definition parseRunIfOperand (raw : list ascii) : option (list ascii) :=
  let value := trim_right (trim_left raw) in
  match value with
  | [] => None
  | q :: rest =>
      if bool_decide (q ∈ quote_chars) then
        match rev rest with
        | [] => None
        | last :: inner => if Ascii.eqb last q then Some (rev inner) else None
        end
      else if existsb (fun c => bool_decide (c ∈ blank_chars)) value then None
      else Some value
  end.

(** ASCII lowering decides the comparison with "true" and "false": no other
    letter is lowered to one of theirs. *)
Definition lower (c : ascii) : ascii :=
  let n := nat_of_ascii c in
  if (65 <=? n)%nat && (n <=? 90)%nat then ascii_of_nat (n + 32) else c.

(** [None]: the expression is invalid. *)
Definition EvaluateRunIf (expr : string) : option bool :=
  let trimmed := trim_right (trim_left (chars expr)) in
  let low := lower <$> trimmed in
  if bool_decide (low = []) then Some true
  else if bool_decide (low = chars "true") then Some true
  else if bool_decide (low = chars "false") then Some false
  else
    match splitRunIfComparison trimmed with
    | None => None
    | Some (lhs, rhs, op) =>
        match parseRunIfOperand lhs, parseRunIfOperand rhs with
        | Some lv, Some rv =>
            Some (match op with
                  | OpEq => bool_decide (lv = rv)
                  | OpNe => negb (bool_decide (lv = rv))
                  end)
        | _, _ => None
        end
    end.

(** ** Targets *)

Record Target : Type := {
  t_HostID : string;
  t_HostName : string;
  t_HostAddress : string;
}.

Definition IsLocal (t : Target) : bool := (t_HostID t =? "")%string.

Definition host_by_id (hosts : list HostRef) : gmap string HostRef :=
  foldl (fun m h => <[host_ID h := h]> m) ∅ hosts.

Definition host_by_name (hosts : list HostRef) : gmap string HostRef :=
  foldl (fun m h => if (host_Name h =? "")%string then m else <[host_Name h := h]> m) ∅ hosts.

Definition find_host (byID byName : gmap string HostRef) (id : string) : option HostRef :=
  match byID !! id with
  | Some h => Some h
  | None => byName !! id
  end.

Definition target_of_host (h : HostRef) : Target :=
  {| t_HostID := host_ID h; t_HostName := host_Name h; t_HostAddress := host_Address h |}.

(** The hosts of one role, given those already seen. *)
Fixpoint resolve_hosts (byID byName : gmap string HostRef) (role : string) (ids : list string)
    (seen : gset string) (out : list Target) : result plan_error (gset string * list Target) :=
  match ids with
  | [] => Ok (seen, out)
  | id :: rest =>
      match find_host byID byName id with
      | None => Err (ErrHostNotFound id role)
      | Some h =>
          if bool_decide (host_ID h ∈ seen) then resolve_hosts byID byName role rest seen out
          else resolve_hosts byID byName role rest ({[host_ID h]} ∪ seen)
                 (out ++ [target_of_host h])%list
      end
  end.

Fixpoint resolve_roles (byID byName : gmap string HostRef) (roles : gmap string (list string))
    (names : list string) (seen : gset string) (out : list Target)
    : result plan_error (list Target) :=
  match names with
  | [] => Ok out
  | role :: rest =>
      match roles !! role with
      | None => Err (ErrRoleNotFound role)
      | Some ids =>
          match resolve_hosts byID byName role ids seen out with
          | Err e => Err e
          | Ok (seen, out) => resolve_roles byID byName roles rest seen out
          end
      end
  end.

Definition ResolveStepTargets (step : Step) (roles : gmap string (list string))
    (hosts : list HostRef) : result plan_error (list Target) :=
  match step_Roles step with
  | [] => Ok []
  | names => resolve_roles (host_by_id hosts) (host_by_name hosts) roles names ∅ []
  end.

(** ** BuildPlan *)

Record Plan : Type := {
  Phases : gmap PipelinePhase (list Step);
  Variables : gmap string string;
}.

Definition pipelinePhases : list PipelinePhase := [PhaseBuild; PhaseDeploy; PhaseFinally].

Definition stepsForPhase (p : Pipeline) (phase : PipelinePhase) : list Step :=
  if (phase =? PhaseBuild)%string then pl_Build p
  else if (phase =? PhaseDeploy)%string then pl_Deploy p
  else if (phase =? PhaseFinally)%string then pl_Finally p
  else [].

Definition pending_task (hostID hostName hostAddress : string) : Task :=
  {| task_HostID := hostID; task_HostName := hostName; task_HostAddress := hostAddress;
     task_Status := StatusPending; task_ExitCode := 0; task_StartedAt := 0;
     task_FinishedAt := 0 |}.

Definition step_skeleton (phase : PipelinePhase) (step : Step) (targets : list Target) : StepRun :=
  {| sr_StepName := step_Name step; sr_Type := step_Type step; sr_Phase := phase;
     sr_Needs := step_Needs step; sr_Status := StatusPending;
     sr_Tasks := match step_Roles step with
                 | [] => [pending_task "" "" ""]
                 | _ => (fun t => pending_task (t_HostID t) (t_HostName t) (t_HostAddress t))
                          <$> targets
                 end |}.

Fixpoint order_phases (p : Pipeline) (phases : list PipelinePhase)
    (out : gmap PipelinePhase (list Step)) : result plan_error (gmap PipelinePhase (list Step)) :=
  match phases with
  | [] => Ok out
  | phase :: rest =>
      match ValidateDAG (stepsForPhase p phase) with
      | Err e => Err (ErrPhase phase e)
      | Ok steps => order_phases p rest (<[phase := steps]> out)
      end
  end.

Fixpoint skeletons (roles : gmap string (list string)) (hosts : list HostRef)
    (todo : list (PipelinePhase * Step)) : result plan_error (list StepRun) :=
  match todo with
  | [] => Ok []
  | (phase, step) :: rest =>
      match ResolveStepTargets step roles hosts with
      | Err e => Err e
      | Ok targets =>
          match skeletons roles hosts rest with
          | Err e => Err e
          | Ok srs => Ok (step_skeleton phase step targets :: srs)
          end
      end
  end.

Definition BuildPlan (deploymentID : string) (p : Pipeline) (hosts : list HostRef)
    : result plan_error (Plan * Run) :=
  match order_phases p pipelinePhases ∅ with
  | Err e => Err e
  | Ok phases =>
      let todo := pipelinePhases ≫= (fun phase =>
                    (fun s => (phase, s)) <$> default [] (phases !! phase)) in
      match skeletons (pl_Roles p) hosts todo with
      | Err e => Err e
      | Ok srs =>
          Ok ({| Phases := phases; Variables := pl_Variables p |},
              {| run_ID := ""; run_ProjectID := ""; run_PipelineID := ""; run_EnvName := "";
                 run_DeploymentID := deploymentID; run_ArtifactVersion := "";
                 run_Status := StatusPending; run_StepRuns := srs; run_StartedAt := 0;
                 run_FinishedAt := 0 |})
      end
  end.

(** ** Reserved variables *)

Definition reservedVariables : list string :=
  ["workspace"; "output"; "artifacts"; "version"; "env"; "date"; "time"; "run_temp_dir";
   "sync_mode"].

Definition ReservedVariableNames : list string := sort_strings reservedVariables.

Definition RejectReservedVariableOverrides (vars : gmap string string) : option plan_error :=
  match List.find (fun name => bool_decide (is_Some (vars !! name))) ReservedVariableNames with
  | Some name => Some (ErrReservedVariable name)
  | None => None
  end.

Definition MergeVariables (base reserved : gmap string string) : gmap string string :=
  reserved ∪ base.

Record ReservedVarOptions : Type := {
  rvo_Workspace : string;
  rvo_Version : string;
  rvo_Env : string;
}.

(** [join] is [filepath.Join]; [date] and [clock] the two formats of [now]. *)
Definition reservedVars (join : string -> string -> string) (runTempDir : string)
    (opts : ReservedVarOptions) (date clock : string) : gmap string string :=
  list_to_map
    [("workspace", rvo_Workspace opts);
     ("output", join runTempDir "output");
     ("artifacts", join runTempDir "artifacts");
     ("version", rvo_Version opts);
     ("env", rvo_Env opts);
     ("date", date);
     ("time", clock);
     ("run_temp_dir", runTempDir)].


(** ** Lemmas: the graph of a phase *)

(** How often [x] occurs in [l]. *)
Fixpoint occ (x : string) (l : list string) : Z :=
  match l with
  | [] => 0
  | y :: l => ((if decide (y = x) then 1 else 0) + occ x l)%Z
  end.

Lemma occ_nonneg x l : (0 <= occ x l)%Z.
Proof. induction l as [|y l IH]; simpl; [lia|]. case_decide; lia. Qed.

Lemma occ_app x l k : occ x (l ++ k) = (occ x l + occ x k)%Z.
Proof. induction l as [|y l IH]; simpl; [lia|]. rewrite IH. lia. Qed.

Lemma occ_pos x l : (0 < occ x l)%Z <-> x ∈ l.
Proof.
  induction l as [|y l IH]; simpl; [split; [lia|by intros ?%elem_of_nil]|].
  pose proof (occ_nonneg x l). rewrite elem_of_cons. case_decide; subst.
  - split; [by left|lia].
  - rewrite <-IH. split; [intros; right; lia|intros [?|?]; [congruence|lia]].
Qed.

Lemma occ_zero x l : occ x l = 0%Z <-> x ∉ l.
Proof. rewrite <-occ_pos. pose proof (occ_nonneg x l). lia. Qed.

(** The needs not met by the finished steps [fin]. *)
Definition unmet (fin needs : list string) : list string :=
  List.filter (fun d => negb (bool_decide (d ∈ fin))) needs.

Lemma unmet_nil fin needs : unmet fin needs = [] <-> needs ⊆ fin.
Proof.
  unfold unmet. induction needs as [|d needs IH]; simpl; [split; set_solver|].
  case_bool_decide as Hd; simpl.
  - rewrite IH. set_solver.
  - split; [done|]. intros H. exfalso. apply Hd, H. by left.
Qed.

Lemma unmet_snoc fin d needs :
  d ∉ fin ->
  Z.of_nat (length (unmet (fin ++ [d]) needs)) =
    (Z.of_nat (length (unmet fin needs)) - occ d needs)%Z.
Proof.
  intros Hd. unfold unmet. induction needs as [|e needs IH]; simpl; [lia|].
  destruct (decide (e = d)) as [->|Hne].
  - rewrite (bool_decide_eq_false_2 (d ∈ fin)) by done.
    rewrite bool_decide_eq_true_2 by set_solver. simpl. lia.
  - destruct (decide (e ∈ fin)) as [He|He].
    + rewrite !bool_decide_eq_true_2 by set_solver. simpl. lia.
    + rewrite !bool_decide_eq_false_2 by set_solver. simpl. lia.
Qed.

Lemma relax_spec next deg q :
  (forall n, n ∈ next -> (occ n next <= degree deg n)%Z) ->
  exists new,
    (relax next deg q).2 = (q ++ new)%list /\
    (forall n, degree (relax next deg q).1 n = (degree deg n - occ n next)%Z) /\
    NoDup new /\
    (forall n, n ∈ new <-> n ∈ next /\ degree deg n = occ n next).
Proof.
  revert deg q; induction next as [|m next IH]; intros deg q Hd; simpl.
  { exists []. rewrite app_nil_r. split_and!; [done|intros; lia|constructor|].
    intros n. by rewrite !elem_of_nil; split; [|intros [? _]]. }
  assert (degree (<[m := (degree deg m - 1)%Z]> deg) m = (degree deg m - 1)%Z) as Em
    by (unfold degree; by rewrite lookup_insert_eq).
  assert (forall n, n <> m ->
            degree (<[m := (degree deg m - 1)%Z]> deg) n = degree deg n) as En
    by (intros n Hn; unfold degree; by rewrite lookup_insert_ne).
  pose proof (Hd m (list_elem_of_here _ _)) as Hm. simpl in Hm.
  rewrite decide_True in Hm by done.
  destruct (IH (<[m := (degree deg m - 1)%Z]> deg)
    (if (degree deg m - 1 =? 0)%Z then (q ++ [m])%list else q)) as (new & H2 & H1 & HN & Hnew).
  { intros n Hn. destruct (decide (n = m)) as [->|Hne]; [rewrite Em; lia|].
    rewrite En by done. specialize (Hd n (list_elem_of_further _ _ _ Hn)). simpl in Hd.
    rewrite decide_False in Hd by done. lia. }
  pose proof (occ_nonneg m next) as Hpos.
  assert (forall n, degree (relax next (<[m := (degree deg m - 1)%Z]> deg)
    (if (degree deg m - 1 =? 0)%Z then (q ++ [m])%list else q)).1 n =
    (degree deg n - ((if decide (m = n) then 1 else 0) + occ n next))%Z) as Hdeg.
  { intros n. rewrite H1. case_decide as Hmn; subst; [rewrite Em; lia|].
    rewrite En by done. lia. }
  destruct (Z.eqb_spec (degree deg m - 1) 0) as [Hz|Hz].
  - assert (m ∉ next) as Hnot by (apply occ_zero; lia).
    exists (m :: new). rewrite H2, <-app_assoc. split_and!; [done|done|..].
    + constructor; [|done]. rewrite Hnew. tauto.
    + intros n. rewrite !elem_of_cons, Hnew. case_decide as Hmn; subst.
      * apply occ_zero in Hnot. rewrite Hnot. split; [intros _; split; [by left|lia]|by left].
      * rewrite En by done. split; [intros [->|[? ?]]; [done|]|intros [[->|?] ?]; [done|]];
          [split; [by right|lia]|right; split; [done|lia]].
  - exists new. rewrite H2. split_and!; [done..|]. intros n.
    rewrite elem_of_cons, Hnew. case_decide as Hmn; subst.
    + rewrite Em. split; [intros [? ?]; split; [by left|lia]|].
      intros [_ Heq]. split; [|lia]. apply occ_pos. lia.
    + rewrite En by done. split; [intros [? ?]; split; [by right|lia]|].
      intros [[->|?] ?]; [done|]. split; [done|lia].
Qed.

(** What the first loop checks and builds. *)
Lemma index_steps_spec steps known :
  match index_steps steps known with
  | Ok m =>
      Forall (fun s => step_Name s <> "") steps /\ NoDup (step_Name <$> steps) /\
      Forall (fun s => known !! step_Name s = None) steps /\
      (forall n s, m !! n = Some s <->
        known !! n = Some s \/ (s ∈ steps /\ step_Name s = n))
  | Err ErrStepNameRequired => exists s, s ∈ steps /\ step_Name s = ""
  | Err (ErrDuplicateStep n) =>
      is_Some (known !! n) /\ n ∈ (step_Name <$> steps) \/ ~ NoDup (step_Name <$> steps)
  | Err _ => False
  end.
Proof.
  revert known; induction steps as [|s steps IH]; intros known; simpl.
  { split_and!; [constructor..|]. intros n s. rewrite elem_of_nil. naive_solver. }
  destruct (String.eqb_spec (step_Name s) "") as [E|Hne].
  { exists s. split; [by left|done]. }
  destruct (known !! step_Name s) as [s'|] eqn:Ek.
  { left. split; [by eexists|by left]. }
  specialize (IH (<[step_Name s := s]> known)).
  destruct (index_steps steps _) as [m|[| | | | | | |]]; [|try done..].
  - destruct IH as (H1 & H2 & H3 & H4). split_and!; [by constructor|..].
    + constructor; [|done]. intros (t & Et & Ht)%list_elem_of_fmap.
      rewrite Forall_forall in H3. specialize (H3 t Ht). simpl in H3.
      rewrite <-Et, lookup_insert_eq in H3. done.
    + constructor; [done|]. eapply Forall_impl; [exact H3|]. simpl. intros t Ht.
      apply lookup_insert_None in Ht. tauto.
    + intros n t. rewrite H4, lookup_insert_Some, elem_of_cons. naive_solver.
  - destruct IH as (t & Ht & E). exists t. split; [by right|done].
  - destruct IH as [[Hs Hn]|Hd].
    + destruct (decide (step_Name s = name)) as [<-|Hn'].
      * right. by inversion 1.
      * rewrite lookup_insert_ne in Hs by done. left. split; [done|by right].
    + right. inversion 1. done.
Qed.

Lemma successors_insert adj d l n :
  successors (<[d := l]> adj) n = if decide (d = n) then l else successors adj n.
Proof.
  unfold successors. case_decide; subst; [by rewrite lookup_insert_eq|].
  by rewrite lookup_insert_ne.
Qed.

Lemma degree_insert deg d z n :
  degree (<[d := z]> deg) n = if decide (d = n) then z else degree deg n.
Proof.
  unfold degree. case_decide; subst; [by rewrite lookup_insert_eq|].
  by rewrite lookup_insert_ne.
Qed.

(** What the second loop checks and builds: [occ n (adj[d])] counts the
    occurrences of [d] among the needs of [n]. *)
Lemma add_needs_spec known name needs g :
  match add_needs known name needs g with
  | Ok g' =>
      Forall (fun d => is_Some (known !! d)) needs /\
      (forall n, degree g'.2 n =
        (degree g.2 n + if decide (name = n) then Z.of_nat (length needs) else 0)%Z) /\
      (forall d n, occ n (successors g'.1 d) =
        (occ n (successors g.1 d) + if decide (name = n) then occ d needs else 0)%Z)
  | Err (ErrUnknownDependency s d) => s = name /\ d ∈ needs /\ known !! d = None
  | Err _ => False
  end.
Proof.
  revert g; induction needs as [|e needs IH]; intros g; simpl.
  { split_and!; [constructor|..]; intros; case_decide; lia. }
  destruct (known !! e) as [s|] eqn:Ee; [|split_and!; [done|by left|done]].
  specialize (IH (add_edge name e g)).
  destruct (add_needs known name needs _) as [g'|[| | | | | | |]]; try done.
  - destruct IH as (H1 & H2 & H3). split_and!.
    + constructor; [by eexists|done].
    + intros n. rewrite H2. simpl. rewrite degree_insert.
      case_decide; subst; [|lia]. lia.
    + intros d n. rewrite H3. simpl. rewrite successors_insert.
      destruct (decide (e = d)) as [->|Hed]; [rewrite occ_app; simpl|];
        destruct (decide (name = n)); lia.
  - destruct IH as (-> & ? & ?). split_and!; [done|by right|done].
Qed.

Definition need_count (f : Step -> Z) (n : string) (steps : list Step) : Z :=
  foldr (fun s z => ((if decide (step_Name s = n) then f s else 0) + z)%Z) 0%Z steps.

Lemma need_count_unique f steps s :
  NoDup (step_Name <$> steps) -> s ∈ steps -> need_count f (step_Name s) steps = f s.
Proof.
  assert (forall l, step_Name s ∉ (step_Name <$> l) -> need_count f (step_Name s) l = 0%Z) as H0.
  { induction l as [|t l IH]; simpl; [done|]. rewrite not_elem_of_cons. intros [? ?].
    rewrite decide_False by congruence. rewrite IH by done. lia. }
  induction steps as [|t steps IH]; simpl; [by intros _ ?%elem_of_nil|].
  intros [Hn HN]%NoDup_cons [->|Hs]%elem_of_cons.
  - rewrite decide_True by done. rewrite H0 by done. lia.
  - rewrite decide_False; [rewrite IH by done; lia|].
    intros E. apply Hn. rewrite E. by apply list_elem_of_fmap_2.
Qed.

Lemma need_count_absent f n steps :
  n ∉ (step_Name <$> steps) -> need_count f n steps = 0%Z.
Proof.
  induction steps as [|t l IH]; simpl; [done|]. rewrite not_elem_of_cons. intros [? ?].
  rewrite decide_False by congruence. rewrite IH by done. lia.
Qed.

Lemma add_steps_spec known steps g :
  match add_steps known steps g with
  | Ok g' =>
      (forall s d, s ∈ steps -> d ∈ step_Needs s -> is_Some (known !! d)) /\
      (forall n, degree g'.2 n =
        (degree g.2 n + need_count (fun s => Z.of_nat (length (step_Needs s))) n steps)%Z) /\
      (forall d n, occ n (successors g'.1 d) =
        (occ n (successors g.1 d) + need_count (fun s => occ d (step_Needs s)) n steps)%Z)
  | Err (ErrUnknownDependency n d) =>
      exists s, s ∈ steps /\ step_Name s = n /\ d ∈ step_Needs s /\ known !! d = None
  | Err _ => False
  end.
Proof.
  revert g; induction steps as [|s steps IH]; intros g; simpl.
  { split_and!; [by intros ? ? ?%elem_of_nil|..]; intros; lia. }
  pose proof (add_needs_spec known (step_Name s) (step_Needs s) g) as Hs.
  destruct (add_needs known _ _ g) as [g1|[| | | | | | |]]; try done.
  - destruct Hs as (K1 & D1 & A1). specialize (IH g1).
    destruct (add_steps known steps g1) as [g2|[| | | | | | |]]; try done.
    + destruct IH as (K2 & D2 & A2). split_and!.
      * intros t d [->|Ht]%elem_of_cons Hd; [|by eapply K2].
        rewrite Forall_forall in K1. by apply K1.
      * intros n. rewrite D2, D1. lia.
      * intros d n. rewrite A2, A1. lia.
    + destruct IH as (t & ? & ?). exists t. split; [by right|done].
  - destruct Hs as (-> & ? & ?). exists s. split_and!; [by left|done..].
Qed.

(** ** Kahn's loop on a graph built by the two first loops *)

(** [order] runs the steps of [steps], each after all it needs. *)
Definition topological (steps order : list Step) : Prop :=
  order ≡ₚ steps /\
  Forall (fun s => step_Name s <> "") steps /\ NoDup (step_Name <$> steps) /\
  (forall i s, order !! i = Some s -> step_Needs s ⊆ (step_Name <$> take i order)).

Local Open Scope list_scope.

Section Kahn.
Context (steps : list Step) (m : gmap string Step) (adj : gmap string (list string)).
Context (HN : NoDup (step_Name <$> steps)).
Context (Hm : forall n s, m !! n = Some s <-> s ∈ steps /\ step_Name s = n).
Context (Hadj : forall d s, s ∈ steps ->
  occ (step_Name s) (successors adj d) = occ d (step_Needs s)).
Context (Hadj_names : forall d n, n ∈ successors adj d -> n ∈ (step_Name <$> steps)).

Record kahn (fin queue : list string) (deg : gmap string Z) : Prop := {
  kahn_NoDup : NoDup (fin ++ queue);
  kahn_names : fin ++ queue ⊆ (step_Name <$> steps);
  kahn_degree : forall s, s ∈ steps ->
    degree deg (step_Name s) = Z.of_nat (length (unmet fin (step_Needs s)));
  kahn_ready : forall s, s ∈ steps ->
    step_Name s ∈ (fin ++ queue) <-> step_Needs s ⊆ fin;
  kahn_order : forall i s, s ∈ steps -> fin !! i = Some (step_Name s) ->
    step_Needs s ⊆ take i fin;
}.

Lemma kahn_step fin name queue deg :
  kahn fin (name :: queue) deg ->
  kahn (fin ++ [name]) (relax (successors adj name) deg queue).2
    (relax (successors adj name) deg queue).1.
Proof using All.
  intros [KN KS KD KR KO].
  assert (name ∉ fin) as Hfin by (apply NoDup_app in KN as (_ & KN & _); set_solver).
  assert (forall s, s ∈ steps ->
    degree deg (step_Name s) = (Z.of_nat (length (unmet (fin ++ [name]) (step_Needs s))) +
      occ (step_Name s) (successors adj name))%Z) as KD'.
  { intros s Hs. rewrite KD, Hadj, unmet_snoc by done. lia. }
  destruct (relax_spec (successors adj name) deg queue) as (new & -> & H1 & HNn & Hnew).
  { intros n Hn. pose proof (Hadj_names _ _ Hn) as (s & -> & Hs)%list_elem_of_fmap.
    rewrite KD' by done. lia. }
  assert (forall s, s ∈ steps -> step_Name s ∈ new <->
     name ∈ step_Needs s /\ step_Needs s ⊆ fin ++ [name]) as Hnew'.
  { intros s Hs. rewrite Hnew, <-occ_pos, Hadj, occ_pos, <-unmet_nil, KD', Hadj by done.
    destruct (unmet (fin ++ [name]) (step_Needs s)); simpl; intuition (lia || done). }
  assert (forall n, n ∈ new -> n ∉ fin ++ name :: queue) as Hfresh.
  { intros n Hn Hold. pose proof Hn as [Hn' _]%Hnew.
    pose proof (Hadj_names _ _ Hn') as (s & -> & Hs)%list_elem_of_fmap.
    apply Hnew' in Hn as [? _]; [|done]. apply KR in Hold; [|done]. set_solver. }
  assert ((fin ++ [name]) ++ queue ++ new = (fin ++ name :: queue) ++ new) as E
    by (by rewrite <-!app_assoc).
  split; rewrite ?E.
  - apply NoDup_app. split_and!; [done| |done]. intros n Hn Hn'. by eapply Hfresh.
  - intros n [Hn|Hn]%elem_of_app; [by apply KS|]. apply Hnew in Hn as [Hn _].
    by eapply Hadj_names.
  - intros s Hs. rewrite H1, KD' by done. lia.
  - intros s Hs. rewrite elem_of_app, KR, Hnew' by done.
    destruct (decide (name ∈ step_Needs s)); set_solver.
  - intros i s Hs Hi. destruct (decide (i < length fin)) as [Hlt|Hge].
    + rewrite lookup_app_l in Hi by done. rewrite take_app_le by lia. by apply KO.
    + rewrite lookup_app_r in Hi by lia. apply list_lookup_singleton_Some in Hi as [Hi ->].
      rewrite take_app_length' by lia. apply KR; [done|]. set_solver.
Qed.

Definition order_of (fin : list string) : list Step := (fun n => default Step_zero (m !! n)) <$> fin.

Lemma kahn_length fin queue deg : kahn fin queue deg -> length fin + length queue <= length steps.
Proof.
  intros K. rewrite <-length_app, <-(length_fmap step_Name steps).
  apply submseteq_length, NoDup_submseteq; [by apply K|]. intros x. apply (kahn_names _ _ _ K).
Qed.

(** With more fuel than there are unfinished steps the queue runs empty. *)
Lemma drain_kahn n fin queue deg :
  kahn fin queue deg -> length steps - length fin <= n ->
  exists fin' deg', kahn fin' [] deg' /\
    forall fuel, n < fuel -> drain fuel m adj queue deg (order_of fin) = order_of fin'.
Proof using All.
  revert fin queue deg; induction n as [|n IH]; intros fin [|name queue] deg K Hn.
  - exists fin, deg. split; [done|]. by intros [|fuel].
  - pose proof (kahn_length _ _ _ K). simpl in *. lia.
  - exists fin, deg. split; [done|]. by intros [|fuel].
  - pose proof (kahn_step _ _ _ _ K) as K'. pose proof (kahn_length _ _ _ K) as HL.
    simpl in HL. apply IH in K' as (fin' & deg' & K' & Hd); [|rewrite length_app; simpl; lia].
    exists fin', deg'. split; [done|]. intros [|fuel] Hf; [lia|]. simpl.
    destruct (relax (successors adj name) deg queue) as [deg1 queue1]. simpl in *.
    rewrite <-(Hd fuel) by lia. unfold order_of. by rewrite fmap_app.
Qed.

Lemma order_of_names fin queue deg : kahn fin queue deg -> step_Name <$> order_of fin = fin.
Proof using All.
  intros K. unfold order_of. rewrite <-list_fmap_compose.
  assert (fin ⊆ step_Name <$> steps) as Hs by (pose proof (kahn_names _ _ _ K); set_solver).
  clear K. induction fin as [|n fin IH]; simpl; [done|]. f_equal; [|apply IH; set_solver].
  assert (n ∈ step_Name <$> steps) as (s & -> & Hin)%list_elem_of_fmap by set_solver.
  by rewrite (proj2 (Hm _ s)).
Qed.

Lemma order_of_elem fin queue deg s : kahn fin queue deg -> s ∈ order_of fin -> s ∈ steps.
Proof using All.
  intros K (n & -> & Hn)%list_elem_of_fmap.
  assert (n ∈ step_Name <$> steps) as (t & -> & Hin)%list_elem_of_fmap
    by (pose proof (kahn_names _ _ _ K); set_solver).
  by rewrite (proj2 (Hm _ t)).
Qed.

(** When nothing is left over, the order is topological. *)
Lemma kahn_complete fin deg :
  Forall (fun s => step_Name s <> "") steps ->
  kahn fin [] deg -> length fin = length steps -> topological steps (order_of fin).
Proof using All.
  intros Hne K HL. pose proof (order_of_names _ _ _ K) as HF.
  pose proof (kahn_NoDup _ _ _ K) as KN. rewrite app_nil_r in KN.
  assert (NoDup (order_of fin)) as HND by (apply (NoDup_fmap_1 step_Name); by rewrite HF).
  split_and!; [|done|done|].
  - apply submseteq_length_Permutation.
    + apply NoDup_submseteq; [done|]. intros s. by eapply order_of_elem.
    + by rewrite <-HL, <-(length_fmap step_Name (order_of fin)), HF.
  - intros i s Hi. rewrite fmap_take, HF. apply (kahn_order _ _ _ K).
    + eapply order_of_elem, list_elem_of_lookup_2, Hi. exact K.
    + by rewrite <-HF, list_lookup_fmap, Hi.
Qed.
End Kahn.

(** The names a graph of [steps] mentions are known. *)
Lemma known_names (steps : list Step) (m : gmap string Step) :
  (forall n s, m !! n = Some s <-> s ∈ steps /\ step_Name s = n) ->
  forall n, is_Some (m !! n) <-> n ∈ (step_Name <$> steps).
Proof.
  intros Hm n. rewrite list_elem_of_fmap. split.
  - intros [s [? <-]%Hm]. by exists s.
  - intros (s & -> & Hs). exists s. by apply Hm.
Qed.

Lemma kahn_start steps deg :
  NoDup (step_Name <$> steps) ->
  (forall s, s ∈ steps -> degree deg (step_Name s) = Z.of_nat (length (step_Needs s))) ->
  kahn steps [] (initial_queue deg steps) deg.
Proof.
  intros HN Hd.
  assert (forall n, n ∈ initial_queue deg steps <->
    exists s, s ∈ steps /\ step_Name s = n /\ degree deg n = 0%Z) as Hq.
  { intros n. unfold initial_queue. rewrite list_elem_of_fmap. setoid_rewrite list_elem_of_In.
    setoid_rewrite filter_In. setoid_rewrite Z.eqb_eq. naive_solver. }
  split; simpl; rewrite ?app_nil_l.
  - unfold initial_queue. clear Hd Hq. induction steps as [|s steps IH]; simpl; [constructor|].
    apply NoDup_cons in HN as [Hs HN].
    destruct (degree deg (step_Name s) =? 0)%Z; simpl; [|by apply IH].
    constructor; [|by apply IH]. contradict Hs.
    apply list_elem_of_fmap in Hs as (t & -> & Ht). apply list_elem_of_fmap_2.
    apply list_elem_of_In, filter_In in Ht as [Ht _]. by apply list_elem_of_In.
  - intros n (s & Hs & <- & _)%Hq. by apply list_elem_of_fmap_2.
  - intros s Hs. rewrite Hd by done. f_equal. f_equal. unfold unmet.
    clear. induction (step_Needs s) as [|d l IH]; simpl; [done|].
    by f_equal.
  - intros s Hs. rewrite Hq. split.
    + intros (t & _ & Et & E0). rewrite Hd in E0 by done.
      by destruct (step_Needs s).
    + intros Hn. exists s. split_and!; [done..|]. rewrite Hd by done.
      destruct (step_Needs s) as [|d l]; [done|]. exfalso.
      apply (not_elem_of_nil d), Hn. by left.
  - intros i s _ Hi. done.
Qed.

(** Past the two checks, the loop ends with an empty queue whatever fuel it has
    beyond the number of steps. *)
Lemma drain_graph steps m g :
  index_steps steps ∅ = Ok m -> add_steps m steps (∅, ∅) = Ok g ->
  exists fin deg, kahn steps fin [] deg /\
    (length fin = length steps -> topological steps (order_of m fin)) /\
    (forall fuel, length steps < fuel ->
       drain fuel m g.1 (initial_queue g.2 steps) g.2 [] = order_of m fin).
Proof.
  intros Hi Ha. pose proof (index_steps_spec steps ∅) as HI. rewrite Hi in HI.
  destruct HI as (Hne & HN & _ & Hm).
  assert (forall n s, m !! n = Some s <-> s ∈ steps /\ step_Name s = n) as Hm'.
  { intros n s. rewrite Hm, lookup_empty. naive_solver. }
  pose proof (add_steps_spec m steps (∅, ∅)) as HA. rewrite Ha in HA.
  destruct g as [adj deg]. destruct HA as (Hk & Hd & Hadj). simpl in *.
  assert (forall d s, s ∈ steps -> occ (step_Name s) (successors adj d) = occ d (step_Needs s))
    as Hadj'.
  { intros d s Hs. rewrite Hadj, need_count_unique by done.
    unfold successors. by rewrite lookup_empty. }
  assert (forall d n, n ∈ successors adj d -> n ∈ (step_Name <$> steps)) as Hnames.
  { intros d n Hn. apply occ_pos in Hn. rewrite Hadj in Hn.
    destruct (decide (n ∈ (step_Name <$> steps))) as [|Hno]; [done|].
    rewrite need_count_absent in Hn by done. unfold successors in Hn.
    rewrite lookup_empty in Hn. simpl in Hn. lia. }
  assert (kahn steps [] (initial_queue deg steps) deg) as K0.
  { apply kahn_start; [done|]. intros s Hs. rewrite Hd, need_count_unique by done.
    unfold degree. by rewrite lookup_empty. }
  destruct (drain_kahn steps m adj HN Hm' Hadj' Hnames (length steps) [] _ _ K0)
    as (fin & deg' & K & Hdrain); [simpl; lia|].
  exists fin, deg'. split_and!; [done|..|].
  - intros HL. by eapply (kahn_complete steps m adj).
  - done.
Qed.

(** Steps that wait for each other: each needs another one of them. *)
Definition deadlocked (l : list Step) : Prop :=
  l <> [] /\ forall s, s ∈ l -> exists d, d ∈ step_Needs s /\ d ∈ (step_Name <$> l).

Lemma topological_not_deadlocked steps order l :
  topological steps order -> l ⊆ steps -> ~ deadlocked l.
Proof.
  intros (HP & _ & HN & Ho) Hl [Hne Hd].
  assert (forall i s, order !! i = Some s -> s ∉ l) as Hnone.
  { induction i as [i IH] using lt_wf_ind. intros s Hi Hs.
    destruct (Hd s Hs) as (d & Hds & (t & -> & Ht)%list_elem_of_fmap).
    apply (Ho i s Hi) in Hds. apply list_elem_of_fmap in Hds as (u & Eu & Hu).
    apply list_elem_of_lookup in Hu as [j Hj]. apply lookup_take_Some in Hj as [Hj Hlt].
    enough (u = t) as -> by (by eapply IH).
    assert (u ∈ steps) as Hus by (rewrite <-HP; by eapply list_elem_of_lookup_2).
    apply Hl in Ht. clear -HN Eu Hus Ht.
    apply list_elem_of_lookup in Hus as [a Ha]. apply list_elem_of_lookup in Ht as [b Hb].
    assert (a = b) as <- by (eapply (NoDup_lookup _ a b (step_Name t) HN);
      rewrite list_lookup_fmap; [rewrite Ha|rewrite Hb]; simpl; congruence).
    congruence. }
  destruct l as [|s l]; [done|].
  assert (s ∈ order) as [i Hi]%list_elem_of_lookup by (rewrite HP; apply Hl; by left).
  apply (Hnone i s Hi). by left.
Qed.

(** A run of the loop that leaves steps over leaves deadlocked ones. *)
Lemma kahn_stuck steps fin deg :
  NoDup (step_Name <$> steps) ->
  (forall s d, s ∈ steps -> d ∈ step_Needs s -> d ∈ (step_Name <$> steps)) ->
  kahn steps fin [] deg -> length fin <> length steps ->
  deadlocked (List.filter (fun s => negb (bool_decide (step_Name s ∈ fin))) steps).
Proof.
  intros HN Hknown K HL.
  set (left := List.filter _ steps).
  assert (forall s, s ∈ left <-> s ∈ steps /\ step_Name s ∉ fin) as Hleft.
  { intros s. unfold left. rewrite list_elem_of_In, filter_In, <-list_elem_of_In.
    by rewrite negb_true_iff, bool_decide_eq_false. }
  pose proof (kahn_NoDup _ _ _ _ K) as KN. rewrite app_nil_r in KN. split.
  - intros E. apply HL, Nat.le_antisymm.
    + pose proof (kahn_length _ _ _ _ K). lia.
    + rewrite <-(length_fmap step_Name). apply submseteq_length, NoDup_submseteq; [done|].
      intros n (s & -> & Hs)%list_elem_of_fmap.
      destruct (decide (step_Name s ∈ fin)) as [|Hn]; [done|].
      assert (s ∈ left) as Hin by (by apply Hleft). rewrite E in Hin.
      by apply elem_of_nil in Hin.
  - intros s [Hs Hn]%Hleft.
    assert (~ step_Needs s ⊆ fin) as Hns.
    { intros Hsub. apply Hn. apply (kahn_ready _ _ _ _ K s Hs) in Hsub.
      by rewrite app_nil_r in Hsub. }
    destruct (unmet fin (step_Needs s)) as [|d rest] eqn:E; [by apply unmet_nil in E|].
    assert (d ∈ unmet fin (step_Needs s)) as Hd by (rewrite E; by left).
    unfold unmet in Hd. rewrite list_elem_of_In, filter_In, <-list_elem_of_In in Hd.
    rewrite negb_true_iff, bool_decide_eq_false in Hd. destruct Hd as [Hd Hdf].
    exists d. split; [done|]. destruct (proj1 (list_elem_of_fmap _ _ _) (Hknown s d Hs Hd))
      as (t & -> & Ht). apply list_elem_of_fmap_2, Hleft. done.
Qed.

(** What each result of [ValidateDAG] means. *)
Definition dag_verdict (steps : list Step) (r : result plan_error (list Step)) : Prop :=
  match r with
  | Ok out => topological steps out
  | Err ErrStepNameRequired => exists s, s ∈ steps /\ step_Name s = ""
  | Err (ErrDuplicateStep _) => ~ NoDup (step_Name <$> steps)
  | Err (ErrUnknownDependency n d) =>
      (d ∉ (step_Name <$> steps)) /\ exists s, s ∈ steps /\ step_Name s = n /\ d ∈ step_Needs s
  | Err ErrCycle => exists l, l ⊆ steps /\ deadlocked l
  | Err _ => False
  end.

Lemma ValidateDAG_cases steps : dag_verdict steps (ValidateDAG steps).
Proof.
  unfold ValidateDAG. pose proof (index_steps_spec steps ∅) as HI.
  destruct (index_steps steps ∅) as [m|[| | | | | | |]] eqn:Ei; try done.
  2: { destruct HI as [[[? H] _]|]; [by rewrite lookup_empty in H|done]. }
  pose proof (add_steps_spec m steps (∅, ∅)) as HA.
  destruct HI as (Hne & HN & _ & Hm).
  assert (forall n, is_Some (m !! n) <-> n ∈ (step_Name <$> steps)) as Hk.
  { apply known_names. intros n s. rewrite Hm, lookup_empty. naive_solver. }
  destruct (add_steps m steps (∅, ∅)) as [[adj deg]|[| | | | | | |]] eqn:Ea; try done.
  2: { destruct HA as (s & Hs & Es & Hd & Hno). split; [|by exists s].
       intros [? H]%Hk. congruence. }
  destruct (drain_graph steps m (adj, deg) Ei Ea) as (fin & deg' & K & Htop & Hd).
  cbn [fst snd] in Hd. rewrite Hd by lia.
  assert (length (order_of m fin) = length fin) as HL by (unfold order_of; apply length_fmap).
  rewrite HL. destruct (Nat.eqb_spec (length fin) (length steps)) as [E|E]; simpl.
  - by apply Htop.
  - eexists. split; [|apply (kahn_stuck steps fin deg' HN); [|done..]].
    + intros s Hs. apply list_elem_of_In, filter_In in Hs as [Hs _]. by apply list_elem_of_In.
    + intros s d Hs Hds. apply Hk. by eapply HA.
Qed.

(** Every phase that has a dependency order is accepted. *)
Lemma topological_accepted steps order :
  topological steps order -> exists out, ValidateDAG steps = Ok out.
Proof.
  intros HT. pose proof HT as (HP & Hne & HN & Ho).
  pose proof (ValidateDAG_cases steps) as HV.
  destruct (ValidateDAG steps) as [out|[| | | | | | |]];
    [by eexists|exfalso; simpl in HV; try done..].
  - destruct HV as (s & Hs & E). rewrite Forall_forall in Hne. by eapply Hne.
  - destruct HV as [Hd (s & Hs & _ & Hds)]. apply Hd.
    assert (s ∈ order) as [i Hi]%list_elem_of_lookup by (by rewrite HP).
    apply (Ho i s Hi) in Hds. apply list_elem_of_fmap in Hds as (t & -> & Ht).
    apply list_elem_of_fmap_2. rewrite <-HP.
    by apply (subseteq_take i order).
  - destruct HV as (l & Hl & Hd). by eapply topological_not_deadlocked.
Qed.

(** C5: the verdict of [ValidateDAG] on a phase is exact on every branch: an accepted phase comes
    back as a permutation of its steps in which every step follows all it needs, and every phase
    that has such an order is accepted; a missing or
    duplicate name, an unknown dependency and a cycle are reported only where there is one, a
    reported cycle being a non-empty set of steps each of which waits for another of them.  The
    loop has ended by then: any larger fuel gives the same order. *)
Theorem ValidateDAG_verdict steps :
  dag_verdict steps (ValidateDAG steps) /\
  (forall order, topological steps order -> exists out, ValidateDAG steps = Ok out) /\
  (forall m g fuel, index_steps steps ∅ = Ok m -> add_steps m steps (∅, ∅) = Ok g ->
     length steps < fuel ->
     drain fuel m g.1 (initial_queue g.2 steps) g.2 [] =
     drain (S (length steps)) m g.1 (initial_queue g.2 steps) g.2 []).
Proof.
  split_and!; [apply ValidateDAG_cases|apply topological_accepted|]. intros m g fuel Hi Ha Hf.
  destruct (drain_graph steps m g Hi Ha) as (? & ? & _ & _ & Hd). by rewrite !Hd by lia.
Qed.

(** ** Targets *)

Lemma foldl_insert_lookup (name : HostRef -> string) (keep : HostRef -> bool) hosts
    (m : gmap string HostRef) id :
  (exists h, h ∈ hosts /\ keep h = true /\ name h = id /\
     foldl (fun m h => if keep h then <[name h := h]> m else m) m hosts !! id = Some h) \/
  ((forall h, h ∈ hosts -> keep h = true -> name h <> id) /\
     foldl (fun m h => if keep h then <[name h := h]> m else m) m hosts !! id = m !! id).
Proof.
  revert m; induction hosts as [|h hosts IH]; intros m; simpl.
  { right. split; [by intros ? ?%elem_of_nil|done]. }
  destruct (IH (if keep h then <[name h := h]> m else m)) as [(k & ? & ? & ? & ?)|[Hn ->]].
  { left. exists k. split_and!; [by right|done..]. }
  destruct (keep h) eqn:Ek; [destruct (decide (name h = id)) as [<-|Hne]|].
  - left. exists h. rewrite lookup_insert_eq. split_and!; [by left|done..].
  - right. rewrite lookup_insert_ne by done. split; [|done].
    intros k [->|Hk]%elem_of_cons Hkk; [done|by apply Hn].
  - right. split; [|done]. intros k [->|Hk]%elem_of_cons Hkk; [congruence|by apply Hn].
Qed.

(** [id] names no host: neither an ID nor a non-empty name. *)
Definition unknown_host (hosts : list HostRef) (id : string) : Prop :=
  forall h, h ∈ hosts -> host_ID h <> id /\ (host_Name h = id -> id = "").

Definition lookup_host (hosts : list HostRef) (id : string) : option HostRef :=
  find_host (host_by_id hosts) (host_by_name hosts) id.

Lemma lookup_host_spec hosts id :
  match lookup_host hosts id with
  | Some h => h ∈ hosts /\ (host_ID h = id \/ (host_Name h = id /\ id <> "" /\
      forall k, k ∈ hosts -> host_ID k <> id))
  | None => unknown_host hosts id
  end.
Proof.
  unfold lookup_host, find_host.
  assert (host_by_name hosts = foldl (fun m h =>
    if negb (host_Name h =? "")%string then <[host_Name h := h]> m else m) ∅ hosts) as E.
  { unfold host_by_name. generalize (∅ : gmap string HostRef).
    induction hosts as [|h hosts IH]; intros m; simpl; [done|].
    by destruct (host_Name h =? "")%string; simpl; rewrite IH. }
  pose proof (foldl_insert_lookup host_Name (fun h => negb (host_Name h =? "")%string)
    hosts ∅ id) as HB. cbv beta in HB. rewrite <-E in HB.
  destruct (foldl_insert_lookup host_ID (fun _ => true) hosts ∅ id)
    as [(h & Hh & _ & Hid & HA)|[Hn HA]]; cbn in HA; fold (host_by_id hosts) in HA.
  - unfold host_by_id in *. rewrite HA. split; [done|by left].
  - unfold host_by_id in *. rewrite HA, lookup_empty.
    destruct HB as [(h & Hh & Hk & Hid & ->)|[Hn2 ->]].
    + split; [done|]. right. bool_prop. split_and!; [done|congruence|].
      intros k Hk'. by apply Hn.
    + rewrite lookup_empty. intros h Hh. split; [by apply Hn|]. intros Hnm.
      destruct (String.eqb_spec (host_Name h) "") as [E0|E0]; [congruence|].
      exfalso. apply (Hn2 h Hh); [|done]. by apply negb_true_iff, String.eqb_neq.
Qed.

(** The targets [out] collected from the host references [ids]: one per host, the IDs being
    those in [seen]. *)
Definition collected (hosts : list HostRef) (ids : list string) (out : list Target)
    (seen : gset string) : Prop :=
  NoDup (t_HostID <$> out) /\
  (forall id, id ∈ seen <-> id ∈ (t_HostID <$> out)) /\
  (forall id, id ∈ (t_HostID <$> out) <->
     exists r h, r ∈ ids /\ lookup_host hosts r = Some h /\ host_ID h = id) /\
  (forall t, t ∈ out -> exists h, h ∈ hosts /\ t = target_of_host h).

Lemma resolve_hosts_spec hosts role ids done_ seen out :
  collected hosts done_ out seen ->
  match resolve_hosts (host_by_id hosts) (host_by_name hosts) role ids seen out with
  | Ok (seen', out') => collected hosts (done_ ++ ids) out' seen'
  | Err e => exists id, e = ErrHostNotFound id role /\ id ∈ ids /\ unknown_host hosts id
  end.
Proof.
  revert done_ seen out; induction ids as [|id ids IH]; intros done_ seen out HC; simpl.
  { by rewrite app_nil_r. }
  pose proof (lookup_host_spec hosts id) as HL. unfold lookup_host in HL.
  destruct (find_host _ _ id) as [h|] eqn:Eh; [|exists id; split_and!; [done|by left|done]].
  assert (collected hosts (done_ ++ [id])
    (if bool_decide (host_ID h ∈ seen) then out else out ++ [target_of_host h])
    (if bool_decide (host_ID h ∈ seen) then seen else {[host_ID h]} ∪ seen)) as HC'.
  { destruct HC as (C1 & C2 & C3 & C4).
    assert (forall i, (exists r h0, r ∈ done_ ++ [id] /\ lookup_host hosts r = Some h0 /\
       host_ID h0 = i) <-> i ∈ (t_HostID <$> out) \/ i = host_ID h) as HE.
    { intros i. rewrite C3. unfold lookup_host. setoid_rewrite elem_of_app.
      setoid_rewrite list_elem_of_singleton. split; [intros (r & h0 & [?| ->] & ? & <-)|].
      - left. eauto.
      - right. congruence.
      - intros [(r & h0 & ? & ? & <-)| ->]; eauto 10. }
    case_bool_decide as Hseen; split_and!; try done.
    - intros i. rewrite HE. apply C2 in Hseen. naive_solver.
    - rewrite fmap_app. simpl. apply NoDup_app. split_and!; [done| |repeat constructor; by intros ?%elem_of_nil].
      intros i Hi ->%list_elem_of_singleton. by apply Hseen, C2.
    - intros i. rewrite fmap_app, elem_of_app, <-C2. simpl. set_solver.
    - intros i. rewrite fmap_app, elem_of_app, HE. simpl. rewrite list_elem_of_singleton. done.
    - intros t [Ht| ->%list_elem_of_singleton]%elem_of_app; [by apply C4|].
      exists h. split; [apply HL|done]. }
  replace (done_ ++ id :: ids) with ((done_ ++ [id]) ++ ids) by (by rewrite <-app_assoc).
  case_bool_decide; apply IH in HC';
    (destruct (resolve_hosts _ _ role ids _ _) as [[seen' out']|e]; [done|]);
    destruct HC' as (id' & ? & ? & ?); exists id'; (split_and!; [done|by right|done]).
Qed.

(** The host references that the roles of a step stand for. *)
Definition role_refs (roles : gmap string (list string)) (names : list string) : list string :=
  names ≫= (fun r => default [] (roles !! r)).

Lemma resolve_roles_spec hosts roles names done_ seen out :
  collected hosts done_ out seen ->
  match resolve_roles (host_by_id hosts) (host_by_name hosts) roles names seen out with
  | Ok out' => exists seen', collected hosts (done_ ++ role_refs roles names) out' seen' /\
                 Forall (fun r => is_Some (roles !! r)) names
  | Err (ErrRoleNotFound r) => r ∈ names /\ roles !! r = None
  | Err (ErrHostNotFound id r) =>
      r ∈ names /\ unknown_host hosts id /\ exists ids, roles !! r = Some ids /\ id ∈ ids
  | Err _ => False
  end.
Proof.
  revert done_ seen out; induction names as [|r names IH]; intros done_ seen out HC; simpl.
  { exists seen. rewrite app_nil_r. by split; [|constructor]. }
  destruct (roles !! r) as [ids|] eqn:Er; [|split; [by left|done]].
  pose proof (resolve_hosts_spec hosts r ids done_ seen out HC) as HH.
  destruct (resolve_hosts _ _ r ids seen out) as [[seen1 out1]|e].
  2: { destruct HH as (id & -> & ? & ?). split_and!; [by left|done|eauto]. }
  specialize (IH _ _ _ HH).
  destruct (resolve_roles _ _ roles names seen1 out1) as [out2|[| | | | | | |]]; try done.
  - destruct IH as (seen2 & HC2 & HF). exists seen2. split; [|by constructor; [eexists|]].
    replace (role_refs roles (r :: names)) with (ids ++ role_refs roles names)
      by (unfold role_refs; simpl; by rewrite Er).
    by rewrite app_assoc.
  - destruct IH. split; [by right|done].
  - destruct IH as (? & ? & ?). split_and!; [by right|done..].
Qed.

(** What each result of [ResolveStepTargets] means. *)
Definition targets_verdict (step : Step) (roles : gmap string (list string))
    (hosts : list HostRef) (r : result plan_error (list Target)) : Prop :=
  match r with
  | Ok out =>
      NoDup (t_HostID <$> out) /\
      (forall t, t ∈ out -> exists h, h ∈ hosts /\ t = target_of_host h) /\
      (forall id, id ∈ (t_HostID <$> out) <->
         exists role ids r h, role ∈ step_Roles step /\ roles !! role = Some ids /\ r ∈ ids /\
           lookup_host hosts r = Some h /\ host_ID h = id)
  | Err (ErrRoleNotFound role) => role ∈ step_Roles step /\ roles !! role = None
  | Err (ErrHostNotFound id role) =>
      role ∈ step_Roles step /\ unknown_host hosts id /\
      exists ids, roles !! role = Some ids /\ id ∈ ids
  | Err _ => False
  end.

Lemma ResolveStepTargets_cases step roles hosts :
  targets_verdict step roles hosts (ResolveStepTargets step roles hosts).
Proof.
  unfold targets_verdict.
  assert (collected hosts [] [] ∅) as H0.
  { split_and!; [constructor|set_solver|..].
    - intros id. split; [by intros ?%elem_of_nil|].
      intros (r & h & Hr & _). by apply elem_of_nil in Hr.
    - by intros t ?%elem_of_nil. }
  assert (ResolveStepTargets step roles hosts = resolve_roles (host_by_id hosts)
    (host_by_name hosts) roles (step_Roles step) ∅ []) as ->
    by (unfold ResolveStepTargets; by destruct (step_Roles step)).
  pose proof (resolve_roles_spec hosts roles (step_Roles step) [] ∅ [] H0) as HR.
  destruct (resolve_roles _ _ _ _ _ _) as [out|[| | | | | | |]]; try done.
  destruct HR as (seen & (C1 & _ & C3 & C4) & _). split_and!; [done..|].
  intros id. rewrite C3. unfold role_refs. simpl. setoid_rewrite list_elem_of_bind. split.
  - intros (r & h & (role & Hr & Hrole) & Hh). destruct (roles !! role) as [ids|] eqn:Er.
    + exists role, ids, r, h. tauto.
    + by apply elem_of_nil in Hr.
  - intros (role & ids & r & h & Hrole & Er & Hr & Hh). exists r, h. split; [|done].
    exists role. by rewrite Er.
Qed.

(** A step runs on exactly the hosts its roles name, each host once, however many roles or
    names lead to it; a role or host reference that resolves to nothing is an error that names
    it, and a step without roles has no remote target. *)
Theorem ResolveStepTargets_spec step roles hosts :
  targets_verdict step roles hosts (ResolveStepTargets step roles hosts) /\
  (step_Roles step = [] -> ResolveStepTargets step roles hosts = Ok []).
Proof.
  split; [apply ResolveStepTargets_cases|]. intros E. unfold ResolveStepTargets. by rewrite E.
Qed.

(** ** BuildPlan *)

Lemma order_phases_spec p phases out :
  NoDup phases ->
  match order_phases p phases out with
  | Ok m => forall phase, if decide (phase ∈ phases)
      then exists steps, m !! phase = Some steps /\ topological (stepsForPhase p phase) steps
      else m !! phase = out !! phase
  | Err e => exists phase e', e = ErrPhase phase e' /\ phase ∈ phases /\
      ValidateDAG (stepsForPhase p phase) = Err e'
  end.
Proof.
  revert out; induction phases as [|ph phases IH]; intros out HN; simpl.
  { done. }
  apply NoDup_cons in HN as [Hph HN].
  pose proof (ValidateDAG_cases (stepsForPhase p ph)) as HV.
  destruct (ValidateDAG (stepsForPhase p ph)) as [steps|e] eqn:Ev.
  2: { exists ph, e. split_and!; [done|by left|done]. }
  specialize (IH (<[ph := steps]> out) HN).
  destruct (order_phases p phases _) as [m|e].
  - intros phase. specialize (IH phase). destruct (decide (phase = ph)) as [->|Hne].
    + rewrite decide_True by (by left). rewrite decide_False in IH by done.
      exists steps. by rewrite IH, lookup_insert_eq.
    + destruct (decide (phase ∈ phases)).
      * by rewrite decide_True by (by right).
      * rewrite decide_False by (by rewrite not_elem_of_cons).
        by rewrite IH, lookup_insert_ne.
  - destruct IH as (phase & e' & ? & ? & ?). exists phase, e'. split_and!; [done|by right|done].
Qed.

(** The skeleton of a planned step: pending, on the hosts of its roles. *)
Definition skeleton_of (roles : gmap string (list string)) (hosts : list HostRef)
    (x : PipelinePhase * Step) (sr : StepRun) : Prop :=
  exists targets, ResolveStepTargets x.2 roles hosts = Ok targets /\
    sr = step_skeleton x.1 x.2 targets.

Lemma skeletons_spec roles hosts todo :
  match skeletons roles hosts todo with
  | Ok srs => Forall2 (skeleton_of roles hosts) todo srs
  | Err e => exists x, x ∈ todo /\ ResolveStepTargets x.2 roles hosts = Err e
  end.
Proof.
  induction todo as [|[phase step] todo IH]; simpl; [constructor|].
  destruct (ResolveStepTargets step roles hosts) as [targets|e] eqn:Er.
  2: { exists (phase, step). split; [by left|done]. }
  destruct (skeletons roles hosts todo) as [srs|e].
  - constructor; [by exists targets|done].
  - destruct IH as (x & ? & ?). exists x. split; [by right|done].
Qed.

(** The steps of a plan in execution order, each with its phase. *)
Definition planned (phases : gmap PipelinePhase (list Step)) : list (PipelinePhase * Step) :=
  pipelinePhases ≫= (fun phase => (fun s => (phase, s)) <$> default [] (phases !! phase)).

(** The key [phaseStepKey] of a step in the run. *)
Definition plan_key (x : PipelinePhase * Step) : PipelinePhase * string := (x.1, step_Name x.2).
Definition run_key (sr : StepRun) : PipelinePhase * string := (sr_Phase sr, sr_StepName sr).

Lemma planned_NoDup (phases : gmap PipelinePhase (list Step)) :
  (forall phase steps, phases !! phase = Some steps -> NoDup (step_Name <$> steps)) ->
  NoDup (plan_key <$> planned phases).
Proof.
  intros HN.
  assert (forall phase, NoDup (plan_key <$> ((fun s => (phase, s)) <$> default [] (phases !! phase)))
    /\ forall k, k ∈ (plan_key <$> ((fun s => (phase, s)) <$> default [] (phases !! phase))) ->
         k.1 = phase) as HP.
  { intros phase. rewrite <-list_fmap_compose. split.
    - destruct (phases !! phase) as [steps|] eqn:E; simpl; [|constructor].
      apply HN in E. rewrite <-(list_fmap_id steps) in E.
      rewrite (list_fmap_compose step_Name (fun n => (phase, n))).
      apply NoDup_fmap_2; [by intros ?? [=]|]. by rewrite list_fmap_id in E.
    - by intros k (s & -> & _)%list_elem_of_fmap. }
  unfold planned, pipelinePhases. simpl. rewrite app_nil_r, !fmap_app.
  apply NoDup_app. split_and!; [apply HP| |apply NoDup_app; split_and!; [apply HP| |apply HP]].
  - intros k Hk%(proj2 (HP _)) [Hk'%(proj2 (HP _))|Hk'%(proj2 (HP _))]%elem_of_app;
      rewrite Hk in Hk'; discriminate.
  - intros k Hk%(proj2 (HP _)) Hk'%(proj2 (HP _)). rewrite Hk in Hk'. discriminate.
Qed.

Lemma NoDup_names_topological steps order :
  topological steps order -> NoDup (step_Name <$> order).
Proof. intros (HP & _ & HN & _). by rewrite HP. Qed.

Lemma BuildPlan_inv deploymentID p hosts plan run :
  BuildPlan deploymentID p hosts = Ok (plan, run) ->
  (forall phase, phase ∈ pipelinePhases -> exists steps,
     Phases plan !! phase = Some steps /\ topological (stepsForPhase p phase) steps) /\
  (forall phase, phase ∉ pipelinePhases -> Phases plan !! phase = None) /\
  Variables plan = pl_Variables p /\ run_DeploymentID run = deploymentID /\
  run_Status run = StatusPending /\
  Forall2 (skeleton_of (pl_Roles p) hosts) (planned (Phases plan)) (run_StepRuns run).
Proof.
  unfold BuildPlan. intros H.
  pose proof (order_phases_spec p pipelinePhases ∅) as HO.
  destruct (order_phases p pipelinePhases ∅) as [m|e]; [|done].
  fold (planned m) in H. pose proof (skeletons_spec (pl_Roles p) hosts (planned m)) as HS.
  destruct (skeletons _ _ _) as [srs|e]; [|done]. simplify_eq/=.
  assert (NoDup pipelinePhases) as HN
    by (apply (bool_decide_eq_true_1 (NoDup pipelinePhases)); by vm_compute).
  specialize (HO HN). split_and!; try done.
  - intros phase Hp. specialize (HO phase). by rewrite decide_True in HO.
  - intros phase Hp. specialize (HO phase). by rewrite decide_False in HO.
Qed.

Lemma Forall2_run_key roles hosts todo srs :
  Forall2 (skeleton_of roles hosts) todo srs -> run_key <$> srs = plan_key <$> todo.
Proof.
  induction 1 as [|x sr todo srs (targets & _ & ->) _ IH]; [done|]. rewrite !fmap_cons. by f_equal.
Qed.

(** A plan holds, for each phase, the steps of the pipeline in a dependency order, and its run
    has exactly one skeleton per planned step, in execution order and under distinct keys, every
    step and task pending; the build fails exactly when a phase has no valid order or a step's
    roles do not resolve. *)
Theorem BuildPlan_skeleton deploymentID p hosts :
  match BuildPlan deploymentID p hosts with
  | Ok (plan, run) =>
      (forall phase, phase ∈ pipelinePhases -> exists steps,
         Phases plan !! phase = Some steps /\ topological (stepsForPhase p phase) steps) /\
      Forall2 (skeleton_of (pl_Roles p) hosts) (planned (Phases plan)) (run_StepRuns run) /\
      NoDup (run_key <$> run_StepRuns run) /\
      run_Status run = StatusPending /\
      Forall (fun sr => sr_Status sr = StatusPending /\
                Forall (fun t => task_Status t = StatusPending) (sr_Tasks sr)) (run_StepRuns run)
  | Err (ErrPhase phase e) => ValidateDAG (stepsForPhase p phase) = Err e
  | Err e => exists phase s, s ∈ stepsForPhase p phase /\
      ResolveStepTargets s (pl_Roles p) hosts = Err e
  end.
Proof.
  destruct (BuildPlan deploymentID p hosts) as [[plan run]|e] eqn:E.
  - destruct (BuildPlan_inv _ _ _ _ _ E) as (H1 & H1' & _ & _ & HS & HF).
    split_and!; try done.
    + rewrite (Forall2_run_key _ _ _ _ HF). apply planned_NoDup. intros phase steps Hs.
      destruct (decide (phase ∈ pipelinePhases)) as [Hp|Hp]; [|rewrite H1' in Hs; done].
      destruct (H1 phase Hp) as (steps' & Hs' & HT). simplify_eq.
      by eapply NoDup_names_topological.
    + clear -HF. induction HF as [|x sr todo srs (targets & _ & ->) _ IH]; constructor; [|done].
      split; [done|]. simpl. destruct (step_Roles x.2); [by repeat constructor|].
      apply Forall_fmap, Forall_forall. done.
  - unfold BuildPlan in E. pose proof (order_phases_spec p pipelinePhases ∅) as HO.
    assert (NoDup pipelinePhases) as HN
      by (apply (bool_decide_eq_true_1 (NoDup pipelinePhases)); by vm_compute).
    specialize (HO HN). destruct (order_phases p pipelinePhases ∅) as [m|e'].
    + fold (planned m) in E. pose proof (skeletons_spec (pl_Roles p) hosts (planned m)) as HS.
      destruct (skeletons _ _ _) as [srs|e']; [done|]. simplify_eq.
      destruct HS as ([phase s] & Hin & He). simpl in He.
      assert (s ∈ stepsForPhase p phase) as Hs.
      { unfold planned in Hin. apply list_elem_of_bind in Hin as (ph & Hin & Hph).
        apply list_elem_of_fmap in Hin as (s' & ? & Hs'). simplify_eq.
        specialize (HO ph). rewrite decide_True in HO by done.
        destruct HO as (steps & Em & [HP _]). rewrite Em in Hs'. simpl in Hs'. by rewrite <-HP. }
      pose proof (ResolveStepTargets_cases s (pl_Roles p) hosts) as HR.
      destruct e; try (by exists phase, s). rewrite He in HR. done.
    + simplify_eq. destruct HO as (phase & e' & -> & _ & ?). done.
Qed.

(** ** Step policies *)

Lemma Atoi_bounds s n : Atoi s = Some n -> (min_int64 <= n <= max_int64)%Z.
Proof.
  assert (forall z, in_int64 z = Some n -> (min_int64 <= n <= max_int64)%Z) as H.
  { intros z. unfold in_int64. destruct (_ && _) eqn:E; intros; simplify_eq. by bool_prop. }
  unfold Atoi. intros HA.
  repeat match type of HA with
  | context [match ?x with _ => _ end] => destruct x
  end; try discriminate HA; apply bind_Some in HA as (z & ? & HA); by eauto.
Qed.

(** An accepted concurrency policy is serial, parallel or a batch size that is positive and
    fits an int, whatever blanks surround it; so the batch loop always advances. *)
Theorem ParseStepConcurrency_bounds value c :
  ParseStepConcurrency value = Some c ->
  ParseStepConcurrency (TrimSpace value) = Some c /\
  match sc_Mode c with
  | ConcurrencySerial => sc_Limit c = 1%Z /\ TrimSpace value ∈ [""; "serial"]
  | ConcurrencyParallel => sc_Limit c = 0%Z /\ TrimSpace value = "parallel"
  | ConcurrencyBatch => (0 < sc_Limit c <= max_int64)%Z
  end.
Proof.
  intros H. split; [unfold ParseStepConcurrency in *; by rewrite TrimSpace_idem|].
  unfold ParseStepConcurrency in H.
  destruct ((TrimSpace value =? "")%string || (TrimSpace value =? "serial")%string) eqn:E1.
  { simplify_eq/=. split; [done|]. bool_prop.
    rewrite !elem_of_cons. destruct E1; bool_prop; tauto. }
  destruct (TrimSpace value =? "parallel")%string eqn:E2; [simplify_eq/=; by bool_prop|].
  destruct (String.prefix "batch:" (TrimSpace value)); [|done].
  destruct (Atoi _) as [n|] eqn:EA; [|done].
  destruct (n <=? 0)%Z eqn:En; simplify_eq/=. bool_prop. split; [lia|].
  by apply Atoi_bounds in EA as [_ ?].
Qed.

(** [run_if]: a word is made of printable ASCII characters other than blanks, quotes and the
    two comparison signs. *)
Definition word_char (c : ascii) : bool :=
  let n := nat_of_ascii c in
  (33 <=? n)%nat && (n <=? 126)%nat &&
  negb (bool_decide (c ∈ ["'"%char; byte_of 34; "="%char; "!"%char])).

Definition word (w : list ascii) : Prop := w <> [] /\ Forall (fun c => word_char c = true) w.

(** A word character starts and ends no encoding of a blank. *)
Lemma word_char_table :
  forall c, word_char c = true ->
    Forall (fun p => head p <> Some c) space_encodings /\
    Forall (fun p => head p <> Some c) (@rev ascii <$> space_encodings) /\
    (c ∉ quote_chars) /\ (c ∉ blank_chars) /\ c <> "="%char /\ c <> "!"%char.
Proof.
  assert (Forall (fun c => if word_char c then
    bool_decide (Forall (fun p => head p <> Some c) space_encodings /\
    Forall (fun p => head p <> Some c) (@rev ascii <$> space_encodings) /\
    (c ∉ quote_chars) /\ (c ∉ blank_chars) /\ c <> "="%char /\ c <> "!"%char) = true
    else True) (ascii_of_nat <$> seq 0 256)) as H.
  { assert (forallb (fun c => if word_char c then
    bool_decide (Forall (fun p => head p <> Some c) space_encodings /\
    Forall (fun p => head p <> Some c) (@rev ascii <$> space_encodings) /\
    (c ∉ quote_chars) /\ (c ∉ blank_chars) /\ c <> "="%char /\ c <> "!"%char)
    else true) (ascii_of_nat <$> seq 0 256) = true) as H by (by vm_compute).
    apply Forall_forall. intros c Hc. rewrite forallb_forall in H.
    apply list_elem_of_In in Hc. specialize (H c Hc). by destruct (word_char c). }
  intros c Hw. rewrite Forall_forall in H. specialize (H c). rewrite Hw in H.
  apply bool_decide_eq_true in H; [done|]. apply list_elem_of_fmap. exists (nat_of_ascii c).
  rewrite ascii_nat_embedding. split; [done|]. apply elem_of_seq.
  pose proof (nat_ascii_bounded c). lia.
Qed.

Lemma strip_any_head (ps : list (list ascii)) (c : ascii) l :
  [] ∉ ps -> Forall (fun p => head p <> Some c) ps -> strip_any ps (c :: l) = None.
Proof.
  intros Hn Hp. apply strip_any_None. intros p l' Hin E. rewrite Forall_forall in Hp.
  specialize (Hp p Hin). destruct p as [|d p]; [done|]. simplify_eq/=.
Qed.

Lemma word_trim w k :
  word w -> trim_left (w ++ k) = w ++ k /\ trim_right (k ++ w) = k ++ w.
Proof.
  intros [Hne Hw]. split.
  - destruct w as [|c w]; [done|]. apply Forall_cons in Hw as [Hc _].
    apply trim_left_fuel_id, strip_any_head; [apply space_encodings_nonempty|].
    by apply word_char_table.
  - destruct w as [|c w _] using rev_ind; [done|]. apply Forall_app in Hw as [_ Hw].
    apply Forall_cons in Hw as [Hc _].
    apply trim_right_id. rewrite app_assoc, rev_app_distr. cbn [rev app].
    apply strip_any_head; [apply rev_space_encodings_nonempty|]. by apply word_char_table.
Qed.

(** Blanks around a word are removed. *)
Lemma word_trim_left_blank w : word w -> trim_left (" "%char :: w) = w.
Proof.
  intros Hw. unfold trim_left. cbn [length trim_left_fuel].
  replace (strip_any space_encodings (" "%char :: w)) with (Some w) by (by destruct w).
  destruct (word_trim w [] Hw) as [H _]. rewrite app_nil_r in H. rewrite trim_left_fuel_id; [done|].
  destruct Hw as [Hne Hw]. destruct w as [|c w]; [done|]. apply Forall_cons in Hw as [Hc _].
  apply strip_any_head; [apply space_encodings_nonempty|]. by apply word_char_table.
Qed.

Lemma word_trim_right_blank w : word w -> trim_right (w ++ [" "%char]) = w.
Proof.
  intros Hw. unfold trim_right. rewrite rev_app_distr, length_app, Nat.add_comm.
  cbn [length rev app Nat.add trim_left_fuel].
  replace (strip_any (@rev ascii <$> space_encodings) (" "%char :: rev w)) with (Some (rev w))
    by (by destruct (rev w)).
  rewrite trim_left_fuel_id; [apply rev_involutive|].
  destruct Hw as [Hne Hw]. destruct w as [|c w _] using rev_ind; [done|].
  apply Forall_app in Hw as [_ Hw]. apply Forall_cons in Hw as [Hc _].
  rewrite rev_app_distr. cbn [rev app].
  apply strip_any_head; [apply rev_space_encodings_nonempty|]. by apply word_char_table.
Qed.

Lemma word_operand w : word w -> 
  parseRunIfOperand (w ++ [" "%char]) = Some w /\ parseRunIfOperand (" "%char :: w) = Some w.
Proof.
  intros Hw.
  assert (trim_right (trim_left (w ++ [" "%char])) = w) as E1.
  { rewrite (proj1 (word_trim w _ Hw)). by apply word_trim_right_blank. }
  assert (trim_right (trim_left (" "%char :: w)) = w) as E2.
  { rewrite word_trim_left_blank by done. by apply (word_trim w []). }
  unfold parseRunIfOperand. rewrite E1, E2. destruct Hw as [Hne Hw].
  destruct w as [|q rest]; [done|].
  pose proof Hw as [Hq _]%Forall_cons. rewrite bool_decide_eq_false_2 by (by apply word_char_table).
  replace (existsb (fun c => bool_decide (c ∈ blank_chars)) (q :: rest)) with false; [done|].
  symmetry. apply not_true_iff_false. rewrite existsb_exists. intros (c & Hc & Hb).
  apply bool_decide_eq_true in Hb. rewrite Forall_forall in Hw.
  apply list_elem_of_In, Hw, word_char_table in Hc. tauto.
Qed.

Lemma index_of_absent c pat (l : list ascii) : c ∉ l -> index_of (c :: pat) l = None.
Proof.
  induction l as [|d l IH]; intros H; [done|]. apply not_elem_of_cons in H as [H1 H2].
  cbn [index_of strip_prefix]. destruct (Ascii.eqb_spec c d); [done|]. by rewrite IH.
Qed.

Lemma index_of_skip c pat (l k : list ascii) :
  c ∉ l -> index_of (c :: pat) k = None -> index_of (c :: pat) (l ++ k) = None.
Proof.
  induction l as [|d l IH]; intros H Hk; [done|]. apply not_elem_of_cons in H as [H1 H2].
  cbn [app index_of strip_prefix]. destruct (Ascii.eqb_spec c d); [done|]. by rewrite IH.
Qed.

Lemma index_of_here pat k : index_of pat (pat ++ k) = Some 0%nat.
Proof.
  pose proof (strip_prefix_self pat k) as H.
  destruct (pat ++ k); cbn [index_of]; by rewrite H.
Qed.

Lemma index_of_first c pat (l k : list ascii) :
  c ∉ l -> index_of (c :: pat) (l ++ c :: pat ++ k) = Some (length l).
Proof.
  induction l as [|d l IH]; intros H.
  - apply (index_of_here (c :: pat) k).
  - apply not_elem_of_cons in H as [H1 H2]. cbn [app index_of strip_prefix length].
    destruct (Ascii.eqb_spec c d); [done|]. by rewrite IH.
Qed.

Definition comparison (a b : list ascii) (op : run_if_op) : string :=
  String.string_of_list_ascii
    (a ++ chars (match op with OpEq => " == " | OpNe => " != " end) ++ b).

Definition comparison_sign (op : run_if_op) : list ascii :=
  match op with OpEq => chars "==" | OpNe => chars "!=" end.

(** The first sign of [a == b] or [a != b] is its own. *)
Lemma splitRunIf_words a b op :
  word a -> word b ->
  splitRunIfComparison ((a ++ [" "%char]) ++ comparison_sign op ++ " "%char :: b) =
    Some (a ++ [" "%char], " "%char :: b, op).
Proof.
  intros Ha Hb.
  assert (forall c, c ∈ ["="%char; "!"%char] -> forall w, word w ->
    (c ∉ w ++ [" "%char]) /\ (c ∉ " "%char :: w)) as Hsign.
  { intros c Hc w [_ Hw]. assert ((c ∉ w) /\ c <> " "%char) as [? ?]; [|set_solver].
    rewrite Forall_forall in Hw. split; [intros Hcw%Hw%word_char_table|intros ->];
      rewrite !elem_of_cons, elem_of_nil in Hc; naive_solver. }
  destruct (Hsign "="%char (ltac:(set_solver)) a Ha) as [Ea _].
  destruct (Hsign "="%char (ltac:(set_solver)) b Hb) as [_ Eb].
  destruct (Hsign "!"%char (ltac:(set_solver)) a Ha) as [Na _].
  destruct (Hsign "!"%char (ltac:(set_solver)) b Hb) as [_ Nb].
  unfold splitRunIfComparison. destruct op; cbn [comparison_sign].
  - assert (index_of (chars "==") ((a ++ [" "%char]) ++ chars "==" ++ " "%char :: b) =
            Some (length (a ++ [" "%char]))) as ->
      by apply (index_of_first "="%char ["="%char] _ (" "%char :: b) Ea).
    assert (index_of (chars "!=") ((a ++ [" "%char]) ++ chars "==" ++ " "%char :: b) = None) as ->
      by (apply (index_of_absent "!"%char ["="%char]); set_solver).
    by rewrite take_app_length, drop_app_add.
  - assert (index_of (chars "!=") ((a ++ [" "%char]) ++ chars "!=" ++ " "%char :: b) =
            Some (length (a ++ [" "%char]))) as ->
      by apply (index_of_first "!"%char ["="%char] _ (" "%char :: b) Na).
    assert (index_of (chars "==") ((a ++ [" "%char]) ++ chars "!=" ++ " "%char :: b) = None) as ->;
      [|by rewrite take_app_length, drop_app_add].
    apply (index_of_skip "="%char ["="%char] _ _ Ea).
    pose proof (index_of_absent "="%char ["="%char] b) as E.
    simpl in *. rewrite E by set_solver. done.
Qed.

(** On two words, [a == b] holds exactly when they are the same, and [a != b] is its
    negation; no other reading (boolean constant, error) interferes. *)
Theorem EvaluateRunIf_comparison a b op :
  word a -> word b ->
  EvaluateRunIf (comparison a b op) =
    Some (match op with OpEq => bool_decide (a = b) | OpNe => negb (bool_decide (a = b)) end).
Proof.
  intros Ha Hb. unfold EvaluateRunIf, comparison.
  rewrite String.list_ascii_of_string_of_list_ascii.
  assert (a ++ chars (match op with OpEq => " == " | OpNe => " != " end) ++ b =
          (a ++ [" "%char]) ++ comparison_sign op ++ " "%char :: b) as ->
    by (rewrite <-app_assoc; by destruct op).
  set (sign := comparison_sign op).
  assert (trim_right (trim_left ((a ++ [" "%char]) ++ sign ++ " "%char :: b)) =
          (a ++ [" "%char]) ++ sign ++ " "%char :: b) as ->.
  { rewrite <-app_assoc, (proj1 (word_trim a _ Ha)).
    replace (a ++ [" "%char] ++ sign ++ " "%char :: b)
      with ((a ++ [" "%char] ++ sign ++ [" "%char]) ++ b) by (by rewrite <-!app_assoc).
    by apply word_trim. }
  assert (forall s, " "%char ∉ chars s ->
    (lower <$> (a ++ [" "%char]) ++ sign ++ " "%char :: b) <> chars s) as Hlow.
  { intros s Hs E. apply Hs. rewrite <-E, fmap_app, fmap_app. set_solver. }
  rewrite bool_decide_eq_false_2 by (apply (Hlow ""); apply not_elem_of_nil).
  rewrite bool_decide_eq_false_2
    by (apply Hlow, (bool_decide_eq_true_1 (" "%char ∉ chars "true")); by vm_compute).
  rewrite bool_decide_eq_false_2
    by (apply Hlow, (bool_decide_eq_true_1 (" "%char ∉ chars "false")); by vm_compute).
  unfold sign. rewrite splitRunIf_words by done.
  by rewrite (proj1 (word_operand a Ha)), (proj2 (word_operand b Hb)).
Qed.

(** ** Reserved variables *)

Lemma ReservedVariableNames_elem n : n ∈ ReservedVariableNames <-> n ∈ reservedVariables.
Proof. apply SliceStable_elem. Qed.

(** Variables that override no reserved name pass the check and survive the merge untouched,
    while every reserved variable keeps the value the agent derives for it; variables that
    override one are refused with the name of an overridden variable. *)
Theorem reserved_variables_protected join runTempDir opts date clock vars :
  let reserved := reservedVars join runTempDir opts date clock in
  match RejectReservedVariableOverrides vars with
  | Some (ErrReservedVariable n) => n ∈ reservedVariables /\ is_Some (vars !! n)
  | Some _ => False
  | None =>
      (forall n, n ∈ reservedVariables -> vars !! n = None) /\
      (forall n, n ∉ reservedVariables -> MergeVariables vars reserved !! n = vars !! n)
  end /\
  (forall n v, reserved !! n = Some v ->
     n ∈ reservedVariables /\ MergeVariables vars reserved !! n = Some v) /\
  (forall n, n ∈ reservedVariables -> n <> "sync_mode" -> is_Some (reserved !! n)).
Proof.
  intros reserved.
  assert (forall n, is_Some (reserved !! n) <-> n ∈ removelast reservedVariables) as Hdom.
  { intros n. unfold reserved, reservedVars. rewrite <-not_eq_None_Some.
    rewrite <-not_elem_of_list_to_map.
    change (~ (n ∉ removelast reservedVariables) <-> n ∈ removelast reservedVariables).
    destruct (decide (n ∈ removelast reservedVariables)); tauto. }
  assert (forall n, n ∈ removelast reservedVariables -> n ∈ reservedVariables) as Hsub.
  { intros n. unfold reservedVariables. simpl removelast. rewrite !elem_of_cons. tauto. }
  split_and!.
  - unfold RejectReservedVariableOverrides.
    destruct (List.find _ ReservedVariableNames) as [n|] eqn:E.
    + apply find_some in E as [Hn Hv]. apply bool_decide_eq_true in Hv.
      split; [|done]. by apply ReservedVariableNames_elem, list_elem_of_In.
    + assert (forall n, n ∈ reservedVariables -> vars !! n = None) as Hnone.
      { intros n Hn. apply ReservedVariableNames_elem, list_elem_of_In in Hn.
        apply (find_none _ _ E) in Hn. apply bool_decide_eq_false in Hn.
        by apply eq_None_not_Some. }
      split; [done|]. intros n Hn. unfold MergeVariables. apply lookup_union_r.
      apply eq_None_not_Some. rewrite Hdom. auto.
  - intros n v Hv. split; [apply Hsub, Hdom; by eexists|]. by apply lookup_union_Some_l.
  - intros n Hn Hs. apply Hdom. revert Hn. unfold reservedVariables.
    simpl removelast. rewrite !elem_of_cons, elem_of_nil. tauto.
Qed.

(** ** Examples *)

Definition example_step (name : string) (needs roles : list string) : Step :=
  {| step_Name := name; step_Type := "local_command"; step_Needs := needs; step_Roles := roles;
     step_RunIf := ""; step_Concurrency := ""; step_Retries := 0; step_RetryDelay := "";
     step_With := [] |}.

Definition example_phase : list Step :=
  [example_step "pack" ["test"; "build"] []; example_step "build" [] [];
   example_step "test" ["build"] []].

Lemma ValidateDAG_verdict_witness : exists out, ValidateDAG example_phase = Ok out.
Proof.
  apply (proj1 (proj2 (ValidateDAG_verdict example_phase))
    [example_step "build" [] []; example_step "test" ["build"] [];
     example_step "pack" ["test"; "build"] []]).
  split_and!.
  - apply (Permutation_app_comm [_; _] [_]).
  - by repeat constructor.
  - apply (bool_decide_eq_true_1 (NoDup _)). by vm_compute.
  - intros [|[|[|i]]] s H; simpl in H; simplify_eq; simpl; set_solver.
Defined.

Example ValidateDAG_ex :
  ValidateDAG example_phase = Ok [example_step "build" [] []; example_step "test" ["build"] [];
    example_step "pack" ["test"; "build"] []].
Proof. by vm_compute. Qed.

Example ValidateDAG_cycle_ex :
  ValidateDAG [example_step "a" ["b"] []; example_step "b" ["a"] []] = Err ErrCycle.
Proof. by vm_compute. Qed.

Lemma ParseStepConcurrency_bounds_witness :
  ParseStepConcurrency " batch:3 " = Some {| sc_Mode := ConcurrencyBatch; sc_Limit := 3 |} /\
  (0 < 3 <= max_int64)%Z.
Proof.
  assert (ParseStepConcurrency " batch:3 " =
    Some {| sc_Mode := ConcurrencyBatch; sc_Limit := 3 |}) as H by (by vm_compute).
  split; [done|]. apply (ParseStepConcurrency_bounds " batch:3 " _ H).
Defined.

Lemma EvaluateRunIf_comparison_witness :
  EvaluateRunIf "prod != dev" = Some true.
Proof.
  apply (EvaluateRunIf_comparison (chars "prod") (chars "dev") OpNe);
    (split; [done|by repeat constructor]).
Defined.

Example EvaluateRunIf_ex :
  EvaluateRunIf " TRUE " = Some true /\ EvaluateRunIf "'a b' == 'a b'" = Some true /\
  EvaluateRunIf "a b == c" = None /\ EvaluateRunIf "'a==b' == 'c'" = None.
Proof. by vm_compute. Qed.
