(* ===== verification/PipelineVars.v ===== *)
(** * Pipeline variables (agent/template/vars.go, agent/pipeline/project_resolver.go)

    Rendering of [${name}] references and the resolution of a project pipeline
    for one environment: the layers of variables, the hosts of each role, the
    rendered steps. *)
From stdpp Require Import base list strings gmap.
From Stdlib Require Import Ascii Lia.
From S2P Require Import Prelude Model PipelinePlan.
Local Open Scope string_scope.
Local Open Scope list_scope.

(** ** RenderPipelineVars *)

(** [a-zA-Z0-9_] *)
Definition name_char (c : ascii) : bool :=
  let n := nat_of_ascii c in
  (48 <=? n)%nat && (n <=? 57)%nat || (65 <=? n)%nat && (n <=? 90)%nat ||
  (97 <=? n)%nat && (n <=? 122)%nat || (n =? 95)%nat.

Fixpoint span (f : ascii -> bool) (l : list ascii) : list ascii * list ascii :=
  match l with
  | [] => ([], [])
  | c :: l' => if f c then let '(a, b) := span f l' in (c :: a, b) else ([], l)
  end.

(** A match of [pipelineVarRef] at the head of [l]: the name and what follows. *)
Definition match_ref (l : list ascii) : option (list ascii * list ascii) :=
  match strip_prefix (chars "${") l with
  | None => None
  | Some l =>
      match span name_char l with
      | (c :: name, "}"%char :: rest) => Some (c :: name, rest)
      | _ => None
      end
  end.

(** [ReplaceAllStringFunc]: leftmost matches, without overlap.  Each step
    consumes a character, so that the length of the input is enough fuel. *)
Fixpoint render (fuel : nat) (vars : gmap string string) (l : list ascii) : list ascii :=
  match fuel with
  | O => l
  | S fuel =>
      match match_ref l with
      | Some (name, rest) =>
          match vars !! String.string_of_list_ascii name with
          | Some v => chars v
          | None => chars "${" ++ name ++ ["}"%char]
          end ++ render fuel vars rest
      | None =>
          match l with
          | [] => []
          | c :: l' => c :: render fuel vars l'
          end
      end
  end.

Definition RenderPipelineVars (s : string) (vars : gmap string string) : string :=
  String.string_of_list_ascii (render (String.length s) vars (chars s)).

(** One round over the keys in iteration order [keys]: the updated map and
    whether a value changed. *)
Fixpoint render_round (keys : list string) (out : gmap string string) (changed : bool)
    : gmap string string * bool :=
  match keys with
  | [] => (out, changed)
  | k :: keys =>
      match out !! k with
      | None => render_round keys out changed
      | Some v =>
          let rendered := RenderPipelineVars v out in
          if (rendered =? v)%string then render_round keys out changed
          else render_round keys (<[k := rendered]> out) true
      end
  end.

Fixpoint render_rounds (n : nat) (order : nat -> list string) (out : gmap string string)
    : gmap string string :=
  match n with
  | O => out
  | S n =>
      let '(out, changed) := render_round (order n) out false in
      if changed then render_rounds n order out else out
  end.

(** [order] gives, for each round, the order in which Go iterates the map. *)
Definition RenderPipelineVariableMap (order : nat -> list string) (vars : gmap string string)
    : gmap string string :=
  render_rounds (size vars) order vars.

(** ** Steps *)

Fixpoint renderInterfaceValue (vars : gmap string string) (value : any) : any :=
  match value with
  | AStr s => AStr (RenderPipelineVars s vars)
  | AMap m => AMap ((fun kv => (kv.1, renderInterfaceValue vars kv.2)) <$> m)
  | AList l => AList (renderInterfaceValue vars <$> l)
  | _ => value
  end.

Definition renderInterfaceMap (vars : gmap string string) (m : list (string * any))
    : list (string * any) :=
  (fun kv => (kv.1, renderInterfaceValue vars kv.2)) <$> m.

Definition renderStringSlice (vars : gmap string string) (items : list string) : list string :=
  (fun s => RenderPipelineVars s vars) <$> items.

Definition renderStep (vars : gmap string string) (step : Step) : Step :=
  {| step_Name := RenderPipelineVars (step_Name step) vars;
     step_Type := step_Type step;
     step_Needs := renderStringSlice vars (step_Needs step);
     step_Roles := renderStringSlice vars (step_Roles step);
     step_RunIf := RenderPipelineVars (step_RunIf step) vars;
     step_Concurrency := RenderPipelineVars (step_Concurrency step) vars;
     step_Retries := step_Retries step;
     step_RetryDelay := RenderPipelineVars (step_RetryDelay step) vars;
     step_With := renderInterfaceMap vars (step_With step) |}.

Definition renderSteps (steps : list Step) (vars : gmap string string) : list Step :=
  renderStep vars <$> steps.

(** ** ResolveProjectPipeline *)

Inductive resolve_error : Type :=
| ErrPipelineNotFound (id : string)
| ErrReserved (e : plan_error)
| ErrRunReserved (name : string)
| ErrNoDeployment (service env : string).

Record ProjectPipelineRequest : Type := {
  pr_Project : Project;
  pr_PipelineID : string;
  pr_EnvName : string;
  pr_ServiceNames : list string;
  pr_RunVariables : gmap string string;
  pr_Preview : bool;
}.

Record ResolvedProjectPipeline : Type := {
  rp_ProjectPipeline : ProjectPipeline;
  rp_Pipeline : Pipeline;
  rp_RunID : string;
  rp_ServiceNames : list string;
}.

Definition findProjectPipeline (items : list ProjectPipeline) (id : string)
    : option ProjectPipeline :=
  List.find (fun item => (pp_ID item =? id)%string) items.

(** The last map wins. *)
Definition mergeStringMaps (items : list (gmap string string)) : gmap string string :=
  foldl (fun out item => item ∪ out) ∅ items.

Definition rejectRunVariableReservedOverrides (vars : gmap string string) : option string :=
  List.find (fun name => negb (name =? "version")%string &&
                         bool_decide (is_Some (vars !! name))) ReservedVariableNames.

Definition canApplyDefaultBuildRole (stepType : string) : bool :=
  (stepType =? "remote_command")%string || (stepType =? "transfer")%string.

Definition with_roles (roles : list string) (s : Step) : Step :=
  {| step_Name := step_Name s; step_Type := step_Type s; step_Needs := step_Needs s;
     step_Roles := roles; step_RunIf := step_RunIf s; step_Concurrency := step_Concurrency s;
     step_Retries := step_Retries s; step_RetryDelay := step_RetryDelay s;
     step_With := step_With s |}.

Definition applyDefaultBuildRole (steps : list Step) (roleName : string) : list Step :=
  (fun s => match step_Roles s with
            | [] => if canApplyDefaultBuildRole (step_Type s) then with_roles [roleName] s else s
            | _ => s
            end) <$> steps.

Definition findServiceDeployment (services : list Service) (serviceName envName : string)
    : option Deployment :=
  let hits := services ≫= (fun service =>
    if negb (svc_Name service =? serviceName)%string && negb (svc_ID service =? serviceName)%string
    then []
    else List.filter (fun dep => (dep_EnvName dep =? envName)%string) (svc_Deployments service)) in
  head hits.

(** The hosts of one role. *)
Definition resolve_role (project : Project) (envName : string) (role : ProjectPipelineRole)
    : result resolve_error (list string) :=
  match role_Environments role !! envName with
  | Some hosts => Ok hosts
  | None =>
      match role_Hosts role with
      | _ :: _ => Ok (role_Hosts role)
      | [] =>
          if (role_FromService role =? "")%string then Ok []
          else match findServiceDeployment (prj_Services project) (role_FromService role) envName with
               | Some dep => Ok (default [] (dep_HostIDs dep))
               | None => Err (ErrNoDeployment (role_FromService role) envName)
               end
      end
  end.

Fixpoint resolve_role_list (project : Project) (envName : string)
    (roles : list (string * ProjectPipelineRole)) (out : gmap string (list string))
    : result resolve_error (gmap string (list string)) :=
  match roles with
  | [] => Ok out
  | (name, role) :: rest =>
      match resolve_role project envName role with
      | Ok hosts => resolve_role_list project envName rest (<[name := hosts]> out)
      | Err e => Err e
      end
  end.

(** The roles in the order [map_to_list] lists them: the iteration order only
    decides which of several errors is returned. *)
Definition resolveProjectRoles (project : Project) (envName : string)
    (roles : gmap string ProjectPipelineRole) : result resolve_error (gmap string (list string)) :=
  resolve_role_list project envName (map_to_list roles) ∅.

Definition PreviewRunTempDir : string := "/tmp/super-debug-pipeline-preview".

(** [join] is [filepath.Join]; the preview clock is fixed. *)
Definition PreviewReservedVars (join : string -> string -> string) (opts : ReservedVarOptions)
    : gmap string string :=
  reservedVars join PreviewRunTempDir opts "20260101" "000000".

(** The format [project:%s:pipeline:%s:env:%s] *)
Definition project_run_id (project pipeline env : string) : string :=
  ("project:" ++ project ++ ":pipeline:" ++ pipeline ++ ":env:" ++ env)%string.

(** The variables that the agent derives itself. *)
Definition project_reserved (req : ProjectPipelineRequest) (pp : ProjectPipeline)
    : gmap string string :=
  let base := list_to_map
    [("workspace", prj_RootPath (pr_Project req)); ("env", pr_EnvName req);
     ("version", default "" (pr_RunVariables req !! "version"));
     ("sync_mode", if (pp_SyncMode pp =? "")%string then "transfer" else pp_SyncMode pp)] in
  if (pp_SyncCommand pp =? "")%string then base else <["sync_command" := pp_SyncCommand pp]> base.

(** The layers merged in order, before rendering. *)
Definition project_variables (join : string -> string -> string) (req : ProjectPipelineRequest)
    (pp : ProjectPipeline) : gmap string string :=
  let vars := mergeStringMaps [default ∅ (prj_Variables (pr_Project req)); pp_Variables pp;
                pl_Variables (pp_Pipeline pp)] in
  let vars := match pp_Environments pp !! pr_EnvName req with
              | Some env => mergeStringMaps [vars; env]
              | None => vars
              end in
  let vars := mergeStringMaps [vars; pr_RunVariables req] in
  let vars := MergeVariables vars (project_reserved req pp) in
  if pr_Preview req
  then MergeVariables vars (PreviewReservedVars join
         {| rvo_Workspace := prj_RootPath (pr_Project req);
            rvo_Version := default "" (vars !! "version"); rvo_Env := pr_EnvName req |})
  else vars.

(** The reserved-name checks, in the order of the code. *)
Definition reserved_override (req : ProjectPipelineRequest) (pp : ProjectPipeline)
    : option resolve_error :=
  let layers := [default ∅ (prj_Variables (pr_Project req)); pp_Variables pp;
                 pl_Variables (pp_Pipeline pp)] ++
                option_list (pp_Environments pp !! pr_EnvName req) in
  match omap RejectReservedVariableOverrides layers with
  | e :: _ => Some (ErrReserved e)
  | [] => ErrRunReserved <$> rejectRunVariableReservedOverrides (pr_RunVariables req)
  end.

Definition ResolveProjectPipeline (join : string -> string -> string)
    (order : nat -> list string) (req : ProjectPipelineRequest)
    : result resolve_error ResolvedProjectPipeline :=
  match findProjectPipeline (prj_Pipelines (pr_Project req)) (pr_PipelineID req) with
  | None => Err (ErrPipelineNotFound (pr_PipelineID req))
  | Some pp =>
      match reserved_override req pp with
      | Some e => Err e
      | None =>
          let vars := RenderPipelineVariableMap order (project_variables join req pp) in
          match resolveProjectRoles (pr_Project req) (pr_EnvName req) (pp_Roles pp) with
          | Err e => Err e
          | Ok roles =>
              let p := pp_Pipeline pp in
              let build := match default [] (roles !! "builder") with
                           | [] => pl_Build p
                           | _ => applyDefaultBuildRole (pl_Build p) "builder"
                           end in
              Ok {| rp_ProjectPipeline := pp;
                    rp_Pipeline :=
                      {| pl_Variables := vars; pl_Roles := roles;
                         pl_Build := renderSteps build vars;
                         pl_Deploy := renderSteps (pl_Deploy p) vars;
                         pl_Finally := renderSteps (pl_Finally p) vars |};
                    rp_RunID := project_run_id (prj_ID (pr_Project req)) (pp_ID pp) (pr_EnvName req);
                    rp_ServiceNames := match pr_ServiceNames req with
                                       | [] => pp_Services pp
                                       | names => names
                                       end |}
          end
      end
  end.

(** ** Lemmas: rendering *)

(** Text without a dollar sign contains no reference. *)
Definition plain (l : list ascii) : Prop := "$"%char ∉ l.

Lemma match_ref_not_dollar c l : c <> "$"%char -> match_ref (c :: l) = None.
Proof.
  intros Hc. unfold match_ref. cbn [String.list_ascii_of_string strip_prefix].
  destruct (Ascii.eqb_spec "$" c); [congruence|done].
Qed.

Lemma span_app f (l k : list ascii) :
  Forall (fun c => f c = true) l -> span f (l ++ k) = (l ++ (span f k).1, (span f k).2).
Proof.
  induction 1 as [|c l Hc _ IH]; simpl; [by destruct (span f k)|]. by rewrite Hc, IH.
Qed.

Lemma match_ref_name name rest :
  name <> [] -> Forall (fun c => name_char c = true) name ->
  match_ref (chars "${" ++ name ++ "}"%char :: rest) = Some (name, rest).
Proof.
  intros Hne Hn. unfold match_ref. rewrite strip_prefix_self, (span_app _ _ _ Hn). simpl.
  rewrite app_nil_r. by destruct name.
Qed.

(** A text made of literals without dollar sign and of references. *)
Inductive part : Type :=
| Lit (l : list ascii)
| Ref (name : list ascii).

Definition part_ok (p : part) : Prop :=
  match p with
  | Lit l => plain l
  | Ref name => name <> [] /\ Forall (fun c => name_char c = true) name
  end.

Definition part_text (p : part) : list ascii :=
  match p with
  | Lit l => l
  | Ref name => chars "${" ++ name ++ ["}"%char]
  end.

Definition part_value (vars : gmap string string) (p : part) : list ascii :=
  match p with
  | Lit l => l
  | Ref name => match vars !! String.string_of_list_ascii name with
                | Some v => chars v
                | None => part_text p
                end
  end.

Lemma render_lit fuel vars l k :
  plain l -> length l <= fuel ->
  render fuel vars (l ++ k) = l ++ render (fuel - length l) vars k.
Proof.
  revert fuel; induction l as [|c l IH]; intros fuel Hl Hf; simpl in *;
    [by rewrite Nat.sub_0_r|].
  destruct fuel as [|fuel]; [lia|]. apply not_elem_of_cons in Hl as [Hc Hl].
  cbn [render]. rewrite match_ref_not_dollar by done. f_equal. apply IH; [done|lia].
Qed.

Lemma render_nil fuel vars : render fuel vars [] = [].
Proof. by destruct fuel. Qed.

Lemma render_parts fuel vars parts :
  Forall part_ok parts -> length (parts ≫= part_text) <= fuel ->
  render fuel vars (parts ≫= part_text) = parts ≫= part_value vars.
Proof.
  intros Hp. revert fuel. induction Hp as [|p parts Hp _ IH]; intros fuel Hf; [apply render_nil|].
  rewrite !bind_cons in *. rewrite length_app in Hf. destruct p as [l|name].
  - cbn [part_text part_value] in *. rewrite render_lit by (done || lia). f_equal.
    apply IH. lia.
  - destruct Hp as [Hne Hn]. cbn [part_text] in *. destruct fuel as [|fuel].
    { simpl in Hf. lia. }
    cbn [render]. rewrite <-!app_assoc. cbn [app] in *. rewrite match_ref_name by done.
    cbn [part_value part_text]. f_equal. apply IH.
    rewrite !length_app in Hf. simpl in Hf. lia.
Qed.

Lemma list_ascii_length s : length (chars s) = String.length s.
Proof. induction s; simpl; auto. Qed.

Lemma RenderPipelineVars_plain s vars : plain (chars s) -> RenderPipelineVars s vars = s.
Proof.
  intros Hp. unfold RenderPipelineVars. rewrite <-list_ascii_length.
  rewrite <-(app_nil_r (chars s)) at 2. rewrite render_lit by (done || lia).
  by rewrite render_nil, app_nil_r, String.string_of_list_ascii_of_string.
Qed.

Lemma render_round_spec keys out changed k :
  (is_Some ((render_round keys out changed).1 !! k) <-> is_Some (out !! k)) /\
  (forall v, out !! k = Some v -> plain (chars v) ->
     (render_round keys out changed).1 !! k = Some v).
Proof.
  revert out changed; induction keys as [|j keys IH]; intros out changed; simpl; [done|].
  destruct (out !! j) as [w|] eqn:Ej; [|apply IH].
  destruct (String.eqb_spec (RenderPipelineVars w out) w) as [E|Hne]; [apply IH|].
  destruct (IH (<[j := RenderPipelineVars w out]> out) true) as [H1 H2]. split.
  - rewrite H1. destruct (decide (j = k)) as [->|Hjk].
    + rewrite lookup_insert_eq, Ej. split; by eexists.
    + by rewrite lookup_insert_ne.
  - intros v Hv Hp. apply H2; [|done]. destruct (decide (j = k)) as [->|Hjk].
    + simplify_eq. by rewrite RenderPipelineVars_plain in Hne.
    + by rewrite lookup_insert_ne.
Qed.

(** Rendering the variable map keeps its keys and the values without a reference,
    in whatever order the map is iterated. *)
Lemma RenderPipelineVariableMap_spec order vars k :
  (is_Some (RenderPipelineVariableMap order vars !! k) <-> is_Some (vars !! k)) /\
  (forall v, vars !! k = Some v -> plain (chars v) ->
     RenderPipelineVariableMap order vars !! k = Some v).
Proof.
  unfold RenderPipelineVariableMap. generalize (size vars) as n. intros n. revert vars.
  induction n as [|n IH]; intros vars; simpl; [done|].
  destruct (render_round_spec (order n) vars false k) as [H1 H2].
  destruct (render_round (order n) vars false) as [out changed]. simpl in *.
  destruct changed; [|done]. destruct (IH out) as [H3 H4]. split; [by rewrite H3|eauto].
Qed.

(** On a text made of literals and [${name}] references, rendering replaces every reference to
    a known variable by its value, once, and leaves the literals and the unknown references as
    they are. *)
Theorem RenderPipelineVars_parts vars parts :
  Forall part_ok parts ->
  RenderPipelineVars (String.string_of_list_ascii (parts ≫= part_text)) vars =
    String.string_of_list_ascii (parts ≫= part_value vars).
Proof.
  intros Hp. unfold RenderPipelineVars.
  rewrite <-list_ascii_length, String.list_ascii_of_string_of_list_ascii.
  by rewrite render_parts.
Qed.

(** ** The layers of variables *)

Lemma mergeStringMaps_snoc items m :
  mergeStringMaps (items ++ [m]) = m ∪ mergeStringMaps items.
Proof. unfold mergeStringMaps. by rewrite foldl_app. Qed.

(** The value that the user's layers give to [k]: the run's own variables first, then the
    environment, the steps' pipeline, the project pipeline, the project. *)
Definition user_value (req : ProjectPipelineRequest) (pp : ProjectPipeline) (k : string)
    : option string :=
  let env := match pp_Environments pp !! pr_EnvName req with Some e => e !! k | None => None end in
  match pr_RunVariables req !! k, env, pl_Variables (pp_Pipeline pp) !! k, pp_Variables pp !! k with
  | Some v, _, _, _ => Some v
  | _, Some v, _, _ => Some v
  | _, _, Some v, _ => Some v
  | _, _, _, Some v => Some v
  | None, None, None, None => default ∅ (prj_Variables (pr_Project req)) !! k
  end.

Lemma project_reserved_dom req pp k :
  is_Some (project_reserved req pp !! k) ->
  k ∈ ["workspace"; "env"; "version"; "sync_mode"; "sync_command"].
Proof.
  unfold project_reserved. intros H.
  assert (k = "sync_command" \/ k ∈ ["workspace"; "env"; "version"; "sync_mode"]) as [->|?];
    [|set_solver..].
  destruct (pp_SyncCommand pp =? "")%string; [|apply lookup_insert_is_Some in H as [?|[_ H]]; [by left|]];
    right; destruct H as [v Hv]; apply elem_of_list_to_map_2 in Hv; set_solver.
Qed.

Lemma project_variables_user join req pp k :
  k ∉ reservedVariables -> k <> "sync_command" ->
  project_variables join req pp !! k = user_value req pp k.
Proof.
  intros Hk Hs. unfold project_variables.
  assert (project_reserved req pp !! k = None) as Hr.
  { apply eq_None_not_Some. intros H%project_reserved_dom. apply Hk.
    unfold reservedVariables. set_solver. }
  assert (forall opts, PreviewReservedVars join opts !! k = None) as Hpv.
  { intros opts. unfold PreviewReservedVars, reservedVars. apply not_elem_of_list_to_map.
    intros H. apply Hk. unfold reservedVariables. simpl in H. set_solver. }
  assert (forall m, (if pr_Preview req then MergeVariables m (PreviewReservedVars join
      {| rvo_Workspace := prj_RootPath (pr_Project req);
         rvo_Version := default "" (m !! "version"); rvo_Env := pr_EnvName req |}) else m) !! k
      = m !! k) as Hpre.
  { intros m. destruct (pr_Preview req); [|done]. unfold MergeVariables.
    by rewrite lookup_union_r. }
  cbv zeta. rewrite Hpre. unfold MergeVariables.
  rewrite lookup_union_r by done. unfold user_value, mergeStringMaps. simpl.
  destruct (pp_Environments pp !! pr_EnvName req) as [env|]; simpl;
    rewrite !lookup_union, !lookup_empty;
    by repeat match goal with |- context [?m !! k] => destruct (m !! k) end.
Qed.

Lemma project_variables_agent join req pp k v :
  (k = "env" /\ v = pr_EnvName req) \/ (k = "workspace" /\ v = prj_RootPath (pr_Project req)) ->
  project_variables join req pp !! k = Some v.
Proof.
  intros Hk.
  assert (project_reserved req pp !! k = Some v) as Hr.
  { unfold project_reserved. simpl. destruct Hk as [[-> ->]|[-> ->]];
      (destruct (pp_SyncCommand pp =? "")%string; [|rewrite lookup_insert_ne by done]);
      rewrite ?lookup_insert_eq, ?lookup_insert_ne, ?lookup_insert_eq by done; done. }
  assert (forall version, PreviewReservedVars join
      {| rvo_Workspace := prj_RootPath (pr_Project req); rvo_Version := version;
         rvo_Env := pr_EnvName req |} !! k = Some v) as Hpv.
  { intros version. unfold PreviewReservedVars, reservedVars. simpl.
    destruct Hk as [[-> ->]|[-> ->]]; [|by rewrite lookup_insert_eq].
    rewrite !lookup_insert_ne by done. by rewrite lookup_insert_eq. }
  unfold project_variables, MergeVariables. cbv zeta.
  destruct (pr_Preview req); apply lookup_union_Some_l; [apply Hpv|done].
Qed.

Lemma reserved_override_None req pp :
  reserved_override req pp = None ->
  (forall k, k ∈ reservedVariables -> default ∅ (prj_Variables (pr_Project req)) !! k = None /\
     pp_Variables pp !! k = None /\ pl_Variables (pp_Pipeline pp) !! k = None /\
     (forall env, pp_Environments pp !! pr_EnvName req = Some env -> env !! k = None) /\
     (k <> "version" -> pr_RunVariables req !! k = None)).
Proof.
  unfold reserved_override. intros H k Hk.
  destruct (omap RejectReservedVariableOverrides _) as [|e l] eqn:Eo; [|done].
  assert (forall vars, RejectReservedVariableOverrides vars = None -> vars !! k = None) as HR.
  { intros vars. unfold RejectReservedVariableOverrides.
    destruct (List.find _ ReservedVariableNames) eqn:E; [done|]. intros _.
    apply ReservedVariableNames_elem, list_elem_of_In in Hk.
    apply (find_none _ _ E) in Hk. apply bool_decide_eq_false in Hk. by apply eq_None_not_Some. }
  assert (forall vars, vars ∈ [default ∅ (prj_Variables (pr_Project req)); pp_Variables pp;
            pl_Variables (pp_Pipeline pp)] ++ option_list (pp_Environments pp !! pr_EnvName req) ->
          vars !! k = None) as HL.
  { intros vars Hin. apply HR. destruct (RejectReservedVariableOverrides vars) as [e|] eqn:E; [|done].
    exfalso. apply (not_elem_of_nil e). rewrite <-Eo. apply list_elem_of_omap. by exists vars. }
  split_and!; try (apply HL; set_solver).
  - intros env He. apply HL. rewrite He. set_solver.
  - intros Hv. apply fmap_None in H. unfold rejectRunVariableReservedOverrides in H.
    apply ReservedVariableNames_elem, list_elem_of_In in Hk.
    apply (find_none _ _ H) in Hk. apply andb_false_iff in Hk as [Hk|Hk].
    + apply negb_false_iff, String.eqb_eq in Hk. done.
    + apply bool_decide_eq_false in Hk. by apply eq_None_not_Some.
Qed.

(** A resolved pipeline takes each variable from the closest layer that defines it (run,
    environment, pipeline, project pipeline, project), no layer may set a reserved name (only the
    run may give [version]), and the agent's own workspace and environment reach the steps
    unchanged; rendering neither adds nor loses a variable, whatever the iteration order. *)
Theorem ResolveProjectPipeline_variables join order req rp :
  ResolveProjectPipeline join order req = Ok rp ->
  exists pp, pp ∈ prj_Pipelines (pr_Project req) /\ pp_ID pp = pr_PipelineID req /\
    (forall k, k ∉ reservedVariables -> k <> "sync_command" ->
       (is_Some (pl_Variables (rp_Pipeline rp) !! k) <-> is_Some (user_value req pp k)) /\
       (forall v, user_value req pp k = Some v -> plain (chars v) ->
          pl_Variables (rp_Pipeline rp) !! k = Some v)) /\
    (forall k, k ∈ reservedVariables -> k <> "version" -> user_value req pp k = None) /\
    (plain (chars (pr_EnvName req)) ->
       pl_Variables (rp_Pipeline rp) !! "env" = Some (pr_EnvName req)) /\
    (plain (chars (prj_RootPath (pr_Project req))) ->
       pl_Variables (rp_Pipeline rp) !! "workspace" = Some (prj_RootPath (pr_Project req))).
Proof.
  unfold ResolveProjectPipeline. intros H.
  destruct (findProjectPipeline _ _) as [pp|] eqn:Ef; [|done].
  apply find_some in Ef as [Hin Hid]. apply String.eqb_eq in Hid.
  destruct (reserved_override req pp) as [e|] eqn:Er; [done|].
  destruct (resolveProjectRoles _ _ _) as [roles|e]; simplify_eq/=.
  exists pp. split_and!; [by apply list_elem_of_In|done|..].
  - intros k Hk Hs. destruct (RenderPipelineVariableMap_spec order (project_variables join req pp) k)
      as [H1 H2]. by rewrite project_variables_user in H1, H2.
  - intros k Hk Hv. destruct (reserved_override_None _ _ Er k Hk) as (K1 & K2 & K3 & K4 & K5).
    unfold user_value. rewrite K5, K2, K3, K1 by done.
    destruct (pp_Environments pp !! pr_EnvName req) as [env|] eqn:Ee; [|done].
    by rewrite (K4 env).
  - intros Hp. apply RenderPipelineVariableMap_spec; [|done]. apply project_variables_agent. tauto.
  - intros Hp. apply RenderPipelineVariableMap_spec; [|done]. apply project_variables_agent. tauto.
Qed.

(** ** Examples *)

Definition example_pipeline : ProjectPipeline :=
  {| pp_ID := "deploy"; pp_Name := "deploy"; pp_Services := ["web"]; pp_ArtifactKind := "";
     pp_Variables := {["app" := "shop"; "tag" := "latest"]};
     pp_Environments := {["prod" := {["tag" := "stable"]}]};
     pp_Roles := {["web" := {| role_FromService := ""; role_Hosts := ["h1"];
                               role_Environments := ∅ |}]};
     pp_SyncMode := ""; pp_SyncCommand := "";
     pp_Pipeline :=
       {| pl_Variables := {["image" := "${app}:${tag}"]}; pl_Roles := ∅;
          pl_Build := [example_step "pack ${image}" [] []]; pl_Deploy := []; pl_Finally := [] |} |}.

Definition example_resolve : ProjectPipelineRequest :=
  {| pr_Project :=
       {| prj_ID := "p1"; prj_Name := "shop"; prj_RootPath := "/srv/shop"; prj_ConfigFormat := "";
          prj_ConfigStaleLegacy := false; prj_SharedSecretWarnings := []; prj_Variables := None;
          prj_Environments := []; prj_Services := []; prj_AINote := ""; prj_AuthHint := "";
          prj_DebugCredentials := []; prj_HasDebugCredentials := false;
          prj_DebugCredentialHints := []; prj_Pipelines := [example_pipeline];
          prj_EnvSelectedServiceIDs := ∅; prj_HomeHostID := ""; prj_HomeHostName := "";
          prj_DataSourceBinding := None |};
     pr_PipelineID := "deploy"; pr_EnvName := "prod"; pr_ServiceNames := [];
     pr_RunVariables := {["version" := "1.2"]}; pr_Preview := false |}.

Definition example_order (_ : nat) : list string :=
  ["app"; "tag"; "image"; "env"; "workspace"; "version"; "sync_mode"].

Definition example_join (a b : string) : string := (a ++ "/" ++ b)%string.

Definition example_parts : list part :=
  [Lit (chars "img "); Ref (chars "app"); Lit (chars " "); Ref (chars "tag")].

Lemma RenderPipelineVars_parts_witness :
  RenderPipelineVars "${app}-$${tag}${x" {["app" := "shop"]} = "shop-$${tag}${x" /\
  RenderPipelineVars (String.string_of_list_ascii (example_parts ≫= part_text))
    {["app" := "shop"]} = "img shop ${tag}".
Proof.
  split; [by vm_compute|]. rewrite (RenderPipelineVars_parts {["app" := "shop"]} example_parts).
  - by vm_compute.
  - repeat constructor; try done; apply (bool_decide_eq_true_1 (_ ∉ _)); by vm_compute.
Defined.

Lemma ResolveProjectPipeline_variables_witness :
  exists rp, ResolveProjectPipeline example_join example_order example_resolve = Ok rp /\
    pl_Variables (rp_Pipeline rp) !! "image" = Some "shop:stable" /\
    pl_Variables (rp_Pipeline rp) !! "env" = Some "prod" /\
    (step_Name <$> pl_Build (rp_Pipeline rp)) = ["pack shop:stable"].
Proof.
  eexists. split; [by vm_compute|]. split; [by vm_compute|]. split; [|by vm_compute].
  edestruct (ResolveProjectPipeline_variables example_join example_order example_resolve)
    as (pp & _ & _ & _ & _ & Henv & _); [by vm_compute|].
  apply Henv. apply (bool_decide_eq_true_1 (_ ∉ _)). by vm_compute.
Defined.
