(* ===== verification/PipelineEngine.v ===== *)
(** * The pipeline engine (agent/pipeline/engine.go, executor.go, validation.go)

    Execution of a plan over its run skeleton.  The world outside the engine is
    a state of any type [X] that plugins, hooks, the clock and waiting act on.
    A task is a program of atomic actions ([prog]): tasks of one batch run
    concurrently, their actions interleaved by a schedule the world chooses. *)
From stdpp Require Import base list strings gmap.
From Stdlib Require Import Ascii Lia.
From S2P Require Import Prelude Model PipelinePlan PipelineVars.
Local Open Scope string_scope.
Local Open Scope list_scope.

(** ** Values *)

(** An error of a plugin or of the context; [ee_exit] is the code that
    [errors.As(err, &carrier)] finds. *)
Record exec_error : Type := {
  ee_msg : string;
  ee_exit : option Z;
}.

Inductive engine_error : Type :=
| ErrNoSkeleton (phase : PipelinePhase) (step : string)
| ErrRunIf (expr : string)
| ErrPluginNotRegistered (type : string)
| ErrPluginValidate (e : exec_error)
| ErrConcurrency (value : string)
| ErrStepFailed (step : string) (e : exec_error)
| ErrHook (e : exec_error)
| ErrTempDir
| ErrReservedDirs.

Inductive EventType : Type := EventTaskStarted | EventTaskLog | EventTaskFinished | EventRunFinished.

Record Event : Type := {
  e_Type : EventType;
  e_StepName : string;
  e_HostID : string;
  e_HostName : string;
  e_Line : string;
  e_Stream : string;
  e_Status : RunStatus;
  e_ExitCode : Z;
  e_At : Z;
}.

(** What the engine reports, in order: events and run updates. *)
Inductive output : Type :=
| Emit (e : Event)
| Update (r : Run).

Record RunContext : Type := {
  ctx_RunTempDir : string;
  ctx_Vars : gmap string string;
  ctx_Target : Target;
}.

(** [StepPlugin], with [TargetValidator] where the plugin implements it.
    [Execute] may log lines. *)
Record StepPlugin (X : Type) : Type := {
  pg_Name : string;
  pg_Validate : Step -> option exec_error;
  pg_ValidateTargets : option (Step -> list Target -> option exec_error);
  pg_Execute : RunContext -> Step -> list Target -> X -> X * list (string * string) * option exec_error;
}.
Arguments pg_Name {X} _.
Arguments pg_Validate {X} _ _.
Arguments pg_ValidateTargets {X} _.
Arguments pg_Execute {X} _ _ _ _ _.

(** The rest of the world: the clock in milliseconds, the context, a wait of
    [d] nanoseconds that the context can cut short, the scheduler, and
    [time.ParseDuration]. *)
Record Runtime (X : Type) : Type := {
  rt_now : X -> X * Z;
  rt_ctxErr : X -> option exec_error;
  rt_wait : Z -> X -> X * option exec_error;
  rt_schedule : X -> list nat;
  rt_parseDuration : string -> option Z;
}.
Arguments rt_now {X} _ _.
Arguments rt_ctxErr {X} _ _.
Arguments rt_wait {X} _ _ _.
Arguments rt_schedule {X} _ _.
Arguments rt_parseDuration {X} _ _.

Definition wrap64 (z : Z) : Z := ((z + 2 ^ 63) mod 2 ^ 64 - 2 ^ 63)%Z.

Definition set_task_started (now : Z) (t : Task) : Task :=
  {| task_HostID := task_HostID t; task_HostName := task_HostName t;
     task_HostAddress := task_HostAddress t; task_Status := RunStatusRunning;
     task_ExitCode := task_ExitCode t; task_StartedAt := now;
     task_FinishedAt := task_FinishedAt t |}.
Definition set_task_finished (st : RunStatus) (now : Z) (t : Task) : Task :=
  {| task_HostID := task_HostID t; task_HostName := task_HostName t;
     task_HostAddress := task_HostAddress t; task_Status := st;
     task_ExitCode := task_ExitCode t; task_StartedAt := task_StartedAt t;
     task_FinishedAt := now |}.
Definition set_task_exit (code : Z) (t : Task) : Task :=
  {| task_HostID := task_HostID t; task_HostName := task_HostName t;
     task_HostAddress := task_HostAddress t; task_Status := task_Status t;
     task_ExitCode := code; task_StartedAt := task_StartedAt t;
     task_FinishedAt := task_FinishedAt t |}.
Definition set_task_status (st : RunStatus) (t : Task) : Task :=
  {| task_HostID := task_HostID t; task_HostName := task_HostName t;
     task_HostAddress := task_HostAddress t; task_Status := st;
     task_ExitCode := task_ExitCode t; task_StartedAt := task_StartedAt t;
     task_FinishedAt := task_FinishedAt t |}.

Definition set_sr (st : RunStatus) (tasks : list Task) (sr : StepRun) : StepRun :=
  {| sr_StepName := sr_StepName sr; sr_Type := sr_Type sr; sr_Phase := sr_Phase sr;
     sr_Needs := sr_Needs sr; sr_Status := st; sr_Tasks := tasks |}.

Definition markStepFailed (sr : StepRun) : StepRun := set_sr RunStatusFailed (sr_Tasks sr) sr.
Definition markStepSkipped (sr : StepRun) : StepRun :=
  set_sr StatusSkipped (set_task_status StatusSkipped <$> sr_Tasks sr) sr.
Definition markStep (st : RunStatus) (sr : StepRun) : StepRun := set_sr st (sr_Tasks sr) sr.

Definition taskTarget (t : Task) : Target :=
  {| t_HostID := task_HostID t; t_HostName := task_HostName t;
     t_HostAddress := task_HostAddress t |}.

Definition exitCodeFromError (e : exec_error) : Z := default 0%Z (ee_exit e).

(** ** The index of step runs: a copy of the skeletons and their positions by
    phase and name *)

Definition phaseStepKey (phase : PipelinePhase) (name : string) : string :=
  (phase ++ String (byte_of 0) name)%string.

Definition index_items (runs : list StepRun) : gmap string nat :=
  (foldl (fun m sr => (<[phaseStepKey (sr_Phase sr) (sr_StepName sr) := m.2]> m.1, S m.2))
     (∅, 0%nat) runs).1.

(** ** Names of directories *)

Definition temp_char (c : ascii) : bool := name_char c || Ascii.eqb c "-".

(** [unsafeTempPrefix.ReplaceAllString(value, "-")]: each maximal run of other
    characters becomes one dash; [inside] tells whether one has begun. *)
Fixpoint replace_unsafe (inside : bool) (l : list ascii) : list ascii :=
  match l with
  | [] => []
  | c :: l =>
      if temp_char c then c :: replace_unsafe false l
      else if inside then replace_unsafe true l
      else "-"%char :: replace_unsafe true l
  end.

Fixpoint trim_dashes (l : list ascii) : list ascii :=
  match l with
  | "-"%char :: l => trim_dashes l
  | _ => l
  end.

Definition sanitizeTempPrefix (value : string) : string :=
  let value := rev (trim_dashes (rev (trim_dashes (replace_unsafe false (chars value))))) in
  match value with
  | [] => "run"
  | _ => String.string_of_list_ascii (take 48 value)
  end.

Section Engine.
Context {X : Type} (rt : Runtime X) (plugins : gmap string (StepPlugin X)).

Record St : Type := mkSt {
  st_x : X;
  st_trace : list output;
  st_runs : list StepRun;      (** [stepRuns.slice] *)
  st_errs : list exec_error;   (** [errs] of the batch being run *)
}.

Definition with_x (x : X) (s : St) : St := mkSt x (st_trace s) (st_runs s) (st_errs s).
Definition say (o : output) (s : St) : St :=
  mkSt (st_x s) (st_trace s ++ [o]) (st_runs s) (st_errs s).
Definition with_errs (l : list exec_error) (s : St) : St :=
  mkSt (st_x s) (st_trace s) (st_runs s) l.
Definition on_step (i : nat) (f : StepRun -> StepRun) (s : St) : St :=
  mkSt (st_x s) (st_trace s) (alter f i (st_runs s)) (st_errs s).
Definition on_task (i j : nat) (f : Task -> Task) (s : St) : St :=
  on_step i (fun sr => set_sr (sr_Status sr) (alter f j (sr_Tasks sr)) sr) s.

Definition now_ms (s : St) : St * Z := let '(x, t) := rt_now rt (st_x s) in (with_x x s, t).

(** The zero values of a step run and a task, for reads the code never makes out
    of range. *)
Definition StepRun_zero : StepRun :=
  {| sr_StepName := ""; sr_Type := ""; sr_Phase := ""; sr_Needs := []; sr_Status := "";
     sr_Tasks := [] |}.
Definition step_run (i : nat) (s : St) : StepRun := default StepRun_zero (st_runs s !! i).
Definition task_of (i j : nat) (s : St) : Task :=
  default (set_task_status "" (pending_task "" "" "")) (sr_Tasks (step_run i s) !! j).

(** ** Concurrent programs *)

#[warnings="-register-all"]
Inductive prog : Type :=
| Done (r : option exec_error)
| Atom (f : St -> St * prog).

(** A program alone. *)
Fixpoint exec (p : prog) (s : St) : St * option exec_error :=
  match p with
  | Done r => (s, r)
  | Atom f => let '(s, p) := f s in exec p s
  end.

Fixpoint then_do (p : prog) (k : option exec_error -> prog) : prog :=
  match p with
  | Done r => k r
  | Atom f => Atom (fun s => let '(s, p) := f s in (s, then_do p k))
  end.

(** Programs side by side: the schedule picks whose next action runs; when it
    is used up, what is left runs in order, so that all programs end. *)
Fixpoint par (sched : list nat) (ps : list prog) (s : St) : St :=
  match sched with
  | [] => foldl (fun s p => (exec p s).1) s ps
  | n :: sched =>
      let k := (n mod length ps)%nat in
      match ps !! k with
      | Some (Atom f) => let '(s, p) := f s in par sched (<[k := p]> ps) s
      | _ => par sched ps s
      end
  end.

(** ** Tasks *)

Definition retryDelay (value : string) : Z :=
  if (value =? "")%string then 0%Z else default 0%Z (rt_parseDuration rt value).

(** [n] attempts are left; [last] is the error of the previous one. *)
Fixpoint retry_loop (delay : Z) (fn : St -> St * option exec_error) (n : nat)
    (last : option exec_error) : prog :=
  match n with
  | O => Done last
  | S n =>
      Atom (fun s =>
        match rt_ctxErr rt (st_x s) with
        | Some e => (s, Done (Some e))
        | None =>
            (s, Atom (fun s =>
              match fn s with
              | (s, None) => (s, Done None)
              | (s, Some e) =>
                  (s, if (n =? 0)%nat || (delay <=? 0)%Z then retry_loop delay fn n (Some e)
                      else Atom (fun s =>
                        match rt_wait rt delay (st_x s) with
                        | (x, Some c) => (with_x x s, Done (Some c))
                        | (x, None) => (with_x x s, retry_loop delay fn n (Some e))
                        end))
              end))
        end)
  end.

Definition attempts (step : Step) : nat :=
  let n := wrap64 (step_Retries step + 1) in
  if (n <? 1)%Z then 1%nat else Z.to_nat n.

Definition executeWithRetries (step : Step) (fn : St -> St * option exec_error) : prog :=
  retry_loop (retryDelay (step_RetryDelay step)) fn (attempts step) None.

Definition task_event (ty : EventType) (step host hostName : string) (status : RunStatus)
    (exit at_ : Z) : Event :=
  {| e_Type := ty; e_StepName := step; e_HostID := host; e_HostName := hostName; e_Line := "";
     e_Stream := ""; e_Status := status; e_ExitCode := exit; e_At := at_ |}.

Definition startTask (i j : nat) (s : St) : St :=
  let '(s, now) := now_ms s in
  let s := on_task i j (set_task_started now) s in
  say (Emit (task_event EventTaskStarted (sr_StepName (step_run i s))
    (task_HostID (task_of i j s)) (task_HostName (task_of i j s)) "" 0 now)) s.

Definition finishTask (i j : nat) (status : RunStatus) (s : St) : St :=
  let '(s, now) := now_ms s in
  let s := on_task i j (set_task_finished status now) s in
  say (Emit (task_event EventTaskFinished (sr_StepName (step_run i s))
    (task_HostID (task_of i j s)) (task_HostName (task_of i j s)) status
    (task_ExitCode (task_of i j s)) now)) s.

Definition log_line (step : Step) (target : Target) (s : St) (l : string * string) : St :=
  let '(s, now) := now_ms s in
  say (Emit {| e_Type := EventTaskLog; e_StepName := step_Name step;
               e_HostID := t_HostID target; e_HostName := t_HostName target;
               e_Line := l.1; e_Stream := l.2; e_Status := ""; e_ExitCode := 0; e_At := now |}) s.

(** One call of the plugin. *)
Definition call_plugin (plugin : StepPlugin X) (ctx : RunContext) (step : Step)
    (targets : list Target) (s : St) : St * option exec_error :=
  let '(x, lines, err) := pg_Execute plugin ctx step targets (st_x s) in
  (foldl (log_line step (ctx_Target ctx)) (with_x x s) lines, err).

Definition executeOneTask (plugin : StepPlugin X) (step : Step) (i j : nat)
    (targets : list Target) (target : Target) (tmp : string) (vars : gmap string string) : prog :=
  let ctx := {| ctx_RunTempDir := tmp; ctx_Vars := vars; ctx_Target := target |} in
  Atom (fun s =>
    (startTask i j s,
     then_do (executeWithRetries step (call_plugin plugin ctx step targets)) (fun err =>
       match err with
       | Some e =>
           Atom (fun s =>
             (finishTask i j RunStatusFailed (on_task i j (set_task_exit (exitCodeFromError e)) s),
              Done (Some e)))
       | None => Atom (fun s => (finishTask i j StatusSuccess s, Done None))
       end))).

(** ** Steps *)

(** The goroutine of a task: its error is appended under the mutex. *)
Definition batch_task (plugin : StepPlugin X) (step : Step) (i : nat) (tmp : string)
    (vars : gmap string string) (s : St) (j : nat) : prog :=
  let target := taskTarget (task_of i j s) in
  then_do (executeOneTask plugin step i j [target] target tmp vars) (fun err =>
    match err with
    | Some e => Atom (fun s => (with_errs (st_errs s ++ [e]) s, Done None))
    | None => Done None
    end).

Definition executeTaskBatch (plugin : StepPlugin X) (step : Step) (i : nat) (indexes : list nat)
    (tmp : string) (vars : gmap string string) (s : St) : St * option exec_error :=
  let ps := batch_task plugin step i tmp vars s <$> indexes in
  let s := par (rt_schedule rt (st_x s)) ps (with_errs [] s) in
  (s, head (st_errs s)).

Fixpoint execute_serial (plugin : StepPlugin X) (step : Step) (i : nat) (indexes : list nat)
    (tmp : string) (vars : gmap string string) (s : St) : St * option exec_error :=
  match indexes with
  | [] => (s, None)
  | j :: rest =>
      let target := taskTarget (task_of i j s) in
      match exec (executeOneTask plugin step i j [target] target tmp vars) s with
      | (s, Some e) => (s, Some e)
      | (s, None) => execute_serial plugin step i rest tmp vars s
      end
  end.

(** Batches of [limit] consecutive tasks; one per task is enough fuel. *)
Fixpoint batches (fuel limit start len : nat) : list (list nat) :=
  match fuel with
  | O => []
  | S fuel =>
      if (start <? len)%nat
      then seq start (min (start + limit) len - start) :: batches fuel limit (start + limit) len
      else []
  end.

Fixpoint execute_batches (plugin : StepPlugin X) (step : Step) (i : nat) (bs : list (list nat))
    (tmp : string) (vars : gmap string string) (s : St) : St * option exec_error :=
  match bs with
  | [] => (s, None)
  | b :: rest =>
      match executeTaskBatch plugin step i b tmp vars s with
      | (s, Some e) => (s, Some e)
      | (s, None) => execute_batches plugin step i rest tmp vars s
      end
  end.

Definition executeStepTasks (plugin : StepPlugin X) (step : Step) (i : nat) (tmp : string)
    (vars : gmap string string) (c : StepConcurrency) (s : St) : St * option exec_error :=
  let tasks := sr_Tasks (step_run i s) in
  let n := length tasks in
  let target := taskTarget (task_of i 0 s) in
  if (n =? 1)%nat && IsLocal target
  then exec (executeOneTask plugin step i 0 [] target tmp vars) s
  else
    match sc_Mode c with
    | ConcurrencySerial => execute_serial plugin step i (seq 0 n) tmp vars s
    | ConcurrencyParallel => executeTaskBatch plugin step i (seq 0 n) tmp vars s
    | ConcurrencyBatch =>
        execute_batches plugin step i (batches n (Z.to_nat (sc_Limit c)) 0 n) tmp vars s
    end.

Definition executeStep (step : Step) (i : nat) (tmp : string) (vars : gmap string string) (s : St)
    : St * option engine_error :=
  match plugins !! step_Type step with
  | None => (on_step i markStepFailed s, Some (ErrPluginNotRegistered (step_Type step)))
  | Some plugin =>
      match pg_Validate plugin step with
      | Some e => (on_step i markStepFailed s, Some (ErrPluginValidate e))
      | None =>
          match ParseStepConcurrency (step_Concurrency step) with
          | None => (on_step i markStepFailed s, Some (ErrConcurrency (step_Concurrency step)))
          | Some c =>
              let s := on_step i (markStep RunStatusRunning) s in
              match executeStepTasks plugin step i tmp vars c s with
              | (s, Some e) =>
                  (on_step i markStepFailed s, Some (ErrStepFailed (step_Name step) e))
              | (s, None) => (on_step i (markStep StatusSuccess) s, None)
              end
          end
      end
  end.

(** ** Phases *)

Definition dependencyBlocked (step : Step) (statuses : gmap string RunStatus) : bool :=
  existsb (fun dep => negb (default "" (statuses !! dep) =? StatusSuccess)%string)
    (step_Needs step).

(** What a phase knows between two steps: the statuses and its first error. *)
Record Phase : Type := mkPhase {
  ph_statuses : gmap string RunStatus;
  ph_err : option engine_error;
}.

(** One iteration of the loop of [runPhase].  [complete] is [onStepComplete]. *)
Definition run_step (items : gmap string nat) (phase : PipelinePhase) (tmp : string)
    (vars : gmap string string) (complete : St -> St) (ph : Phase) (s : St) (step : Step)
    : Phase * St :=
  let name := step_Name step in
  let settle st err s :=
    (mkPhase (<[name := st]> (ph_statuses ph))
       (match ph_err ph with Some e => Some e | None => err end), complete s) in
  match items !! phaseStepKey phase name with
  | None => (mkPhase (ph_statuses ph) (Some (ErrNoSkeleton phase name)), s)
  | Some i =>
      if dependencyBlocked step (ph_statuses ph)
      then settle StatusSkipped None (on_step i markStepSkipped s)
      else
        match EvaluateRunIf (step_RunIf step) with
        | None => settle RunStatusFailed (Some (ErrRunIf (step_RunIf step)))
                    (on_step i markStepFailed s)
        | Some false => settle StatusSkipped None (on_step i markStepSkipped s)
        | Some true =>
            if (length (sr_Tasks (step_run i s)) =? 0)%nat
            then settle StatusSuccess None (on_step i (markStep StatusSuccess) s)
            else
              match executeStep step i tmp vars s with
              | (s, Some e) => settle RunStatusFailed (Some e) s
              | (s, None) => settle StatusSuccess None s
              end
        end
  end.

Definition runPhase (items : gmap string nat) (phase : PipelinePhase) (steps : list Step)
    (tmp : string) (vars : gmap string string) (complete : St -> St) (s : St)
    : St * option engine_error :=
  let '(ph, s) := foldl (fun r step => run_step items phase tmp vars complete r.1 r.2 step)
                    (mkPhase ∅ None, s) steps in
  (s, ph_err ph).

Definition skipPhase (items : gmap string nat) (phase : PipelinePhase) (steps : list Step)
    (s : St) : St :=
  foldl (fun s step =>
    match items !! phaseStepKey phase (step_Name step) with
    | Some i => on_step i markStepSkipped s
    | None => s
    end) s steps.

(** ** Runs *)

Definition hook : Type := X -> Run -> gmap string string -> X * Run * option exec_error.

Record RunOptions : Type := {
  SkipBuild : bool;
  AfterBuild : option hook;
  BeforeDeploy : option hook;
  OnRunUpdate : bool;   (** the callback is given *)
}.

Definition with_run (status : RunStatus) (srs : list StepRun) (started finished : Z) (r : Run) : Run :=
  {| run_ID := run_ID r; run_ProjectID := run_ProjectID r; run_PipelineID := run_PipelineID r;
     run_EnvName := run_EnvName r; run_DeploymentID := run_DeploymentID r;
     run_ArtifactVersion := run_ArtifactVersion r; run_Status := status; run_StepRuns := srs;
     run_StartedAt := started; run_FinishedAt := finished |}.
Definition with_steps (srs : list StepRun) (r : Run) : Run :=
  with_run (run_Status r) srs (run_StartedAt r) (run_FinishedAt r) r.
Definition with_started (now : Z) (r : Run) : Run :=
  with_run RunStatusRunning (run_StepRuns r) now (run_FinishedAt r) r.
Definition with_finished (status : RunStatus) (now : Z) (r : Run) : Run :=
  with_run status (run_StepRuns r) (run_StartedAt r) now r.

Definition renderRuntimePlan (plan : Plan) (vars : gmap string string) : Plan :=
  {| Phases := (fun steps => renderSteps steps vars) <$> Phases plan; Variables := vars |}.

Definition phase_steps (plan : Plan) (phase : PipelinePhase) : list Step :=
  default [] (Phases plan !! phase).

(** What the operating system answers: [MkdirTemp], [MkdirAll], [filepath.Join],
    the two formats of the clock, the order of map iterations. *)
Record Platform : Type := {
  pf_mkdirTemp : string -> option string;
  pf_mkdirAll : bool;
  pf_join : string -> string -> string;
  pf_date : string;
  pf_clock : string;
  pf_order : nat -> list string;
}.

Definition temp_prefix (deploymentID : string) : string :=
  if (deploymentID =? "")%string then "super-debug-pipeline-"
  else ("super-debug-pipeline-" ++ sanitizeTempPrefix deploymentID ++ "-")%string.

Definition run_variables (pf : Platform) (plan : Plan) (tmp : string) : gmap string string :=
  RenderPipelineVariableMap (pf_order pf)
    (MergeVariables (Variables plan)
       (reservedVars (pf_join pf) tmp
          {| rvo_Workspace := default "" (Variables plan !! "workspace");
             rvo_Version := default "" (Variables plan !! "version");
             rvo_Env := default "" (Variables plan !! "env") |}
          (pf_date pf) (pf_clock pf))).

Definition notify (opts : RunOptions) (run : Run) (s : St) : St :=
  if OnRunUpdate opts then say (Update (with_steps (st_runs s) run)) s else s.

(** A hook receives the run with the current step runs and returns it, changed
    outside its step runs. *)
Definition call_hook (h : hook) (run : Run) (vars : gmap string string) (s : St)
    : St * Run * option exec_error :=
  let '(x, run, err) := h (st_x s) (with_steps (st_runs s) run) vars in
  (with_x x s, run, err).

(** The build phase: the state, the run, whether deployment is off, the error. *)
Definition build_stage (opts : RunOptions) (items : gmap string nat) (plan : Plan) (tmp : string)
    (vars : gmap string string) (run : Run) (s : St)
    : St * Run * bool * option engine_error :=
  let steps := phase_steps plan PhaseBuild in
  if SkipBuild opts then
    (notify opts run (skipPhase items PhaseBuild steps s), run, false, None)
  else
    let '(s, err) := runPhase items PhaseBuild steps tmp vars (notify opts run) s in
    match err, AfterBuild opts with
    | Some _, _ => (s, run, true, err)
    | None, None => (s, run, false, None)
    | None, Some h =>
        let '(s, run, hookErr) := call_hook h run vars s in
        (notify opts run s, run, bool_decide (is_Some hookErr), ErrHook <$> hookErr)
    end.

Definition deploy_stage (opts : RunOptions) (items : gmap string nat) (plan : Plan) (tmp : string)
    (vars : gmap string string) (run : Run) (buildFailed : bool) (runErr : option engine_error)
    (s : St) : St * Run * option engine_error :=
  let steps := phase_steps plan PhaseDeploy in
  if buildFailed then (notify opts run (skipPhase items PhaseDeploy steps s), run, runErr)
  else
    let '(s, run, runErr) :=
      match BeforeDeploy opts with
      | None => (s, run, runErr)
      | Some h =>
          let '(s, run, hookErr) := call_hook h run vars s in
          match hookErr with
          | Some e => (notify opts run (skipPhase items PhaseDeploy steps s), run, Some (ErrHook e))
          | None => (s, run, runErr)
          end
      end in
    match runErr with
    | Some e => (s, run, Some e)
    | None =>
        let '(s, err) := runPhase items PhaseDeploy steps tmp vars (notify opts run) s in
        (s, match err with
            | Some _ => with_run RunStatusFailed (run_StepRuns run) (run_StartedAt run)
                          (run_FinishedAt run) run
            | None => run
            end, err)
    end.

Definition finish_run (opts : RunOptions) (run : Run) (runErr : option engine_error) (s : St)
    : St * Run * option engine_error :=
  let status := match runErr with Some _ => RunStatusFailed | None => StatusSuccess end in
  let '(s, now) := now_ms s in
  let run := with_finished status now (with_steps (st_runs s) run) in
  let s := say (Emit (task_event EventRunFinished "" "" "" status 0 now)) s in
  (if OnRunUpdate opts then say (Update run) s else s, run, runErr).

Definition RunWithOptions (pf : Platform) (plan : Plan) (run : Run) (opts : RunOptions) (x : X)
    : St * Run * option engine_error :=
  let s := mkSt x [] (run_StepRuns run) [] in
  let '(s, now) := now_ms s in
  let run := with_started now run in
  let items := index_items (run_StepRuns run) in
  match pf_mkdirTemp pf (temp_prefix (run_DeploymentID run)) with
  | None => let '(s, now) := now_ms s in
            (s, with_finished RunStatusFailed now run, Some ErrTempDir)
  | Some tmp =>
      let vars := run_variables pf plan tmp in
      let plan := renderRuntimePlan plan vars in
      if negb (pf_mkdirAll pf) then
        let '(s, now) := now_ms s in
        (s, with_finished RunStatusFailed now run, Some ErrReservedDirs)
      else
        let '(s, run, buildFailed, runErr) := build_stage opts items plan tmp vars run s in
        let '(s, run, runErr) := deploy_stage opts items plan tmp vars run buildFailed runErr s in
        let '(s, finallyErr) :=
          runPhase items PhaseFinally (phase_steps plan PhaseFinally) tmp vars (notify opts run) s in
        let runErr := match runErr with Some e => Some e | None => finallyErr end in
        finish_run opts run runErr s
  end.

(** ** Static validation *)

Definition targetsFromStepRun (sr : StepRun) : list Target :=
  List.filter (fun t => negb (t_HostID t =? "")%string) (taskTarget <$> sr_Tasks sr).

Definition validateStep (phase : PipelinePhase) (step : Step) (runs : list StepRun)
    : option engine_error :=
  match index_items runs !! phaseStepKey phase (step_Name step) with
  | None => Some (ErrNoSkeleton phase (step_Name step))
  | Some i =>
      match plugins !! step_Type step with
      | None => Some (ErrPluginNotRegistered (step_Type step))
      | Some plugin =>
          match pg_Validate plugin step with
          | Some e => Some (ErrPluginValidate e)
          | None =>
              match EvaluateRunIf (step_RunIf step) with
              | None => Some (ErrRunIf (step_RunIf step))
              | Some _ =>
                  match ParseStepConcurrency (step_Concurrency step), pg_ValidateTargets plugin with
                  | None, _ => Some (ErrConcurrency (step_Concurrency step))
                  | Some _, None => None
                  | Some _, Some validate =>
                      ErrPluginValidate <$>
                        validate step (targetsFromStepRun (default StepRun_zero (runs !! i)))
                  end
              end
          end
      end
  end.

Definition ValidatePlan (plan : Plan) (run : Run) : option engine_error :=
  head (omap (fun x => validateStep x.1 x.2 (run_StepRuns run)) (planned (Phases plan))).
End Engine.
