(* ===== verification/PipelineRun.v ===== *)
(** * Correctness of the pipeline engine

    What a run of [PipelineEngine] guarantees: the outcome of every step, the
    order of steps, the effect of failures on later phases, the bound on
    retries; and that what [BuildPlan] plans runs without a missing skeleton. *)
From stdpp Require Import base list strings gmap.
From Stdlib Require Import Ascii Lia.
From S2P Require Import Prelude Model PipelinePlan PipelineVars PipelineEngine.
Local Open Scope string_scope.
Local Open Scope list_scope.

(** ** Programs that keep to a relation *)

Section Safe.
Context {X : Type} (R : St (X := X) -> St (X := X) -> Prop) `{!PreOrder R}.

Inductive safe : prog (X := X) -> Prop :=
| safe_done r : safe (Done r)
| safe_atom f : (forall s, R s (f s).1) -> (forall s, safe (f s).2) -> safe (Atom f).

Lemma exec_safe p : safe p -> forall s, R s (exec p s).1.
Proof using All.
  induction 1 as [r|f Hf _ IH]; intros s; simpl; [reflexivity|].
  specialize (Hf s). specialize (IH s). destruct (f s) as [s' p]. simpl in *.
  etransitivity; [done|apply IH].
Qed.

Lemma then_do_safe p k : safe p -> (forall r, safe (k r)) -> safe (then_do p k).
Proof using All.
  intros Hp Hk. induction Hp as [r|f Hf _ IH]; simpl; [done|].
  constructor; intros s; specialize (Hf s); specialize (IH s); destruct (f s); done.
Qed.

Lemma par_safe sched ps s : Forall safe ps -> R s (par sched ps s).
Proof using All.
  revert ps s; induction sched as [|n sched IH]; intros ps s Hps; simpl.
  - revert s; induction Hps as [|p ps Hp _ IHp]; intros s; simpl; [reflexivity|].
    etransitivity; [by apply exec_safe|apply IHp].
  - destruct (ps !! (n mod length ps)) as [[r|f]|] eqn:E; try by apply IH.
    pose proof (Forall_lookup_1 _ _ _ _ Hps E) as Hf. inversion Hf as [|? Hf1 Hf2]; subst.
    specialize (Hf1 s). specialize (Hf2 s). destruct (f s) as [s' p]. simpl in *.
    etransitivity; [done|]. apply IH. by apply Forall_insert.
Qed.
End Safe.

(** ** What a step may change *)

Section Frame.
Context {X : Type} (rt : Runtime X) (plugins : gmap string (StepPlugin X)).
Implicit Types s : St (X := X).

(** The phases and names of the step runs: fixed for the whole run. *)
Definition ids (s : St (X := X)) : list (PipelinePhase * string) := run_key <$> st_runs s.

Definition started (n : string) (o : output) : Prop :=
  match o with Emit e => e_Type e = EventTaskStarted /\ e_StepName e = n | Update _ => False end.

(** Reports of the tasks of step [n]. *)
Definition task_output (n : string) (o : output) : Prop :=
  match o with Emit e => e_Type e <> EventRunFinished /\ e_StepName e = n | Update _ => False end.

(** [s'] differs from [s] in step run [i] only, whose identity is kept, and in
    reports that satisfy [P]; [keep] tells whether the status of [i] is kept too. *)
Record framed (i : nat) (P : output -> Prop) (keep : bool) (s s' : St (X := X)) : Prop := {
  fr_other : forall j, j <> i -> st_runs s' !! j = st_runs s !! j;
  fr_ids : ids s' = ids s;
  fr_status : keep = true -> (sr_Status <$> st_runs s' !! i) = (sr_Status <$> st_runs s !! i);
  fr_trace : exists new, st_trace s' = st_trace s ++ new /\ Forall P new;
}.

#[global] Instance framed_preorder i P keep : PreOrder (framed i P keep).
Proof.
  split.
  - intros s. split; try done. exists []. by rewrite app_nil_r.
  - intros s1 s2 s3 [A1 A2 A3 (n1 & A4 & A5)] [B1 B2 B3 (n2 & B4 & B5)]. split.
    + intros j Hj. by rewrite B1, A1.
    + congruence.
    + intros Hk. by rewrite B3, A3.
    + exists (n1 ++ n2). rewrite B4, A4, app_assoc. split; [done|]. by apply Forall_app.
Qed.

Lemma framed_weaken i P Q keep s s' :
  (forall o, P o -> Q o) -> framed i P keep s s' -> framed i Q false s s'.
Proof.
  intros HPQ [A1 A2 A3 (new & A4 & A5)]. split; try done.
  exists new. split; [done|]. by eapply Forall_impl.
Qed.

(** Actions that touch neither the step runs nor the reports. *)
Lemma framed_silent i P keep s s' :
  st_runs s' = st_runs s -> st_trace s' = st_trace s -> framed i P keep s s'.
Proof.
  intros H1 H2. split; unfold ids; rewrite ?H1; try done.
  exists []. by rewrite app_nil_r.
Qed.

Lemma framed_say i (P : output -> Prop) keep o s : P o -> framed i P keep s (say o s).
Proof. intros H. split; try done. exists [o]. by repeat constructor. Qed.

Lemma framed_on_step i P (keep : bool) f s :
  (forall sr, run_key (f sr) = run_key sr) ->
  (keep = true -> forall sr, sr_Status (f sr) = sr_Status sr) ->
  framed i P keep s (on_step i f s).
Proof.
  intros Hf Hs. split; simpl.
  - intros j Hj. by rewrite list_lookup_alter_ne.
  - unfold ids. simpl. apply list_eq. intros j. rewrite !list_lookup_fmap.
    destruct (decide (i = j)) as [<-|Hij]; [|by rewrite list_lookup_alter_ne].
    rewrite list_lookup_alter_eq. destruct (st_runs s !! i); simpl; [by rewrite Hf|done].
  - intros ->. rewrite list_lookup_alter_eq. destruct (st_runs s !! i); simpl; [by rewrite Hs|done].
  - exists []. by rewrite app_nil_r.
Qed.

Lemma framed_on_task i j P keep f s : framed i P keep s (on_task i j f s).
Proof. by apply framed_on_step. Qed.

Lemma framed_now i P keep s : framed i P keep s (now_ms rt s).1.
Proof. unfold now_ms. destruct (rt_now rt (st_x s)). by apply framed_silent. Qed.

(** Step run [i] belongs to step [n]. *)
Definition owns (i : nat) (n : string) (s : St (X := X)) : Prop := snd <$> ids s !! i = Some n.

Lemma owns_step_run i n s : owns i n s -> sr_StepName (step_run i s) = n.
Proof.
  unfold owns, ids, step_run. rewrite list_lookup_fmap.
  destruct (st_runs s !! i); simpl; [by intros [= <-]|done].
Qed.

(** The relation the actions of a task respect. *)
Definition task_rel (i : nat) (n : string) (s s' : St (X := X)) : Prop :=
  owns i n s -> framed i (task_output n) true s s'.

Lemma owns_framed i n j P keep s s' : framed j P keep s s' -> owns i n s -> owns i n s'.
Proof. intros H. unfold owns. by rewrite (fr_ids _ _ _ _ _ H). Qed.

#[global] Instance task_rel_preorder i n : PreOrder (task_rel i n).
Proof.
  split.
  - intros s _. reflexivity.
  - intros s1 s2 s3 H1 H2 Ho. specialize (H1 Ho). etransitivity; [done|].
    apply H2. by eapply owns_framed.
Qed.

Lemma startTask_rel i j n s : task_rel i n s (startTask rt i j s).
Proof.
  intros Ho. unfold startTask. pose proof (framed_now i (task_output n) true s) as H1.
  destruct (now_ms rt s) as [s1 now]. simpl in *.
  etransitivity; [exact H1|]. etransitivity; [apply (framed_on_task i j)|].
  apply framed_say. split; [done|]. simpl. apply owns_step_run.
  eapply owns_framed; [apply (framed_on_task i j (task_output n) true)|].
  by eapply owns_framed.
Qed.

Lemma finishTask_rel i j n st s : task_rel i n s (finishTask rt i j st s).
Proof.
  intros Ho. unfold finishTask. pose proof (framed_now i (task_output n) true s) as H1.
  destruct (now_ms rt s) as [s1 now]. simpl in *.
  etransitivity; [exact H1|]. etransitivity; [apply (framed_on_task i j)|].
  apply framed_say. split; [done|]. simpl. apply owns_step_run.
  eapply owns_framed; [apply (framed_on_task i j (task_output n) true)|].
  by eapply owns_framed.
Qed.

Lemma log_lines_framed i n step target lines s :
  step_Name step = n -> framed i (task_output n) true s (foldl (log_line rt step target) s lines).
Proof.
  intros Hn. revert s; induction lines as [|l lines IH]; intros s; simpl; [reflexivity|].
  etransitivity; [|apply IH]. unfold log_line.
  pose proof (framed_now i (task_output n) true s) as H1.
  destruct (now_ms rt s) as [s1 now]. simpl in *. etransitivity; [exact H1|]. by apply framed_say.
Qed.

Lemma call_plugin_framed i n plugin ctx step targets s :
  step_Name step = n ->
  framed i (task_output n) true s (call_plugin rt plugin ctx step targets s).1.
Proof.
  intros Hn. unfold call_plugin.
  destruct (pg_Execute plugin ctx step targets (st_x s)) as [[x lines] err]. simpl.
  etransitivity; [|by apply log_lines_framed]. by apply framed_silent.
Qed.

Lemma retry_loop_safe (R : St -> St -> Prop) `{!PreOrder R} delay fn n last :
  (forall s, R s (fn s).1) -> (forall s x, R s (with_x x s)) ->
  safe R (retry_loop rt delay fn n last).
Proof.
  intros Hfn Hx. revert last; induction n as [|n IH]; intros last; [constructor|].
  cbn [retry_loop]. constructor; intros s.
  { destruct (rt_ctxErr rt (st_x s)); reflexivity. }
  destruct (rt_ctxErr rt (st_x s)) as [e|]; [constructor|]. simpl.
  constructor; intros s1; specialize (Hfn s1); destruct (fn s1) as [s2 [e|]]; try done.
  - simpl in *. destruct ((n =? 0)%nat || (delay <=? 0)%Z); [apply IH|].
    constructor; intros s3; destruct (rt_wait rt delay (st_x s3)) as [x [c|]]; simpl;
      try apply Hx; [constructor|apply IH].
  - constructor.
Qed.

Lemma executeOneTask_safe plugin step i j targets target tmp vars :
  safe (task_rel i (step_Name step))
    (executeOneTask rt plugin step i j targets target tmp vars).
Proof.
  constructor; intros s; [apply startTask_rel|]. simpl. apply then_do_safe; [apply _|..].
  - apply retry_loop_safe; [apply _|..].
    + intros s1 _. by apply call_plugin_framed.
    + intros s1 x _. by apply framed_silent.
  - intros [e|]; (constructor; intros s1; simpl; [|constructor]); [|apply finishTask_rel].
    intros Ho. etransitivity; [apply (framed_on_task i j)|]. apply finishTask_rel.
    eapply owns_framed; [|done]. apply (framed_on_task i j (task_output (step_Name step)) true).
Qed.

Lemma executeTaskBatch_rel plugin step i indexes tmp vars s :
  task_rel i (step_Name step) s (executeTaskBatch rt plugin step i indexes tmp vars s).1.
Proof.
  unfold executeTaskBatch. simpl. etransitivity.
  { intros _. by apply (framed_silent i (task_output (step_Name step)) true s (with_errs [] s)). }
  apply par_safe; [apply _|]. apply Forall_fmap, Forall_forall. intros j _.
  unfold compose, batch_task. apply then_do_safe; [apply _|apply executeOneTask_safe|].
  intros [e|]; [|constructor]. constructor; intros s1; [|constructor].
  intros _. by apply framed_silent.
Qed.

Lemma execute_serial_rel plugin step i indexes tmp vars s :
  task_rel i (step_Name step) s (execute_serial rt plugin step i indexes tmp vars s).1.
Proof.
  revert s; induction indexes as [|j rest IH]; intros s; [reflexivity|]. cbn [execute_serial].
  pose proof (exec_safe _ _ (executeOneTask_safe plugin step i j [taskTarget (task_of i j s)]
    (taskTarget (task_of i j s)) tmp vars) s) as H.
  destruct (exec _ s) as [s1 [e|]]; [done|]. etransitivity; [exact H|apply IH].
Qed.

Lemma execute_batches_rel plugin step i bs tmp vars s :
  task_rel i (step_Name step) s (execute_batches rt plugin step i bs tmp vars s).1.
Proof.
  revert s; induction bs as [|b rest IH]; intros s; [reflexivity|]. cbn [execute_batches].
  pose proof (executeTaskBatch_rel plugin step i b tmp vars s) as H.
  destruct (executeTaskBatch rt plugin step i b tmp vars s) as [s1 [e|]]; [done|].
  etransitivity; [exact H|apply IH].
Qed.

Lemma executeStepTasks_rel plugin step i tmp vars c s :
  task_rel i (step_Name step) s (executeStepTasks rt plugin step i tmp vars c s).1.
Proof.
  unfold executeStepTasks. destruct (_ && _).
  - apply exec_safe; [apply _|apply executeOneTask_safe].
  - destruct (sc_Mode c);
      [apply execute_serial_rel|apply executeTaskBatch_rel|apply execute_batches_rel].
Qed.

(** The outcome of a step that is executed. *)
Lemma executeStep_spec step i tmp vars s :
  owns i (step_Name step) s ->
  let '(s', err) := executeStep rt plugins step i tmp vars s in
  framed i (task_output (step_Name step)) false s s' /\
  (sr_Status <$> st_runs s' !! i) =
    Some (match err with None => StatusSuccess | Some _ => RunStatusFailed end).
Proof.
  intros Ho.
  assert (forall f st s1, (forall sr, run_key (f sr) = run_key sr) ->
    (forall sr, sr_Status (f sr) = st) -> framed i (task_output (step_Name step)) false s s1 ->
    framed i (task_output (step_Name step)) false s (on_step i f s1) /\
    (sr_Status <$> st_runs (on_step i f s1) !! i) = Some st) as Hmark.
  { intros f st s1 Hf Hst H1. split; [etransitivity; [exact H1|by apply framed_on_step]|].
    pose proof (owns_framed _ _ _ _ _ _ _ H1 Ho) as Ho1. unfold owns, ids in Ho1.
    rewrite list_lookup_fmap in Ho1. simpl. rewrite list_lookup_alter_eq.
    destruct (st_runs s1 !! i); simpl; [by rewrite Hst|done]. }
  unfold executeStep.
  destruct (plugins !! step_Type step) as [plugin|]; [|by apply Hmark].
  destruct (pg_Validate plugin step); [by apply Hmark|].
  destruct (ParseStepConcurrency (step_Concurrency step)) as [c|]; [|by apply Hmark].
  assert (framed i (task_output (step_Name step)) false s (on_step i (markStep RunStatusRunning) s))
    as H1 by (by apply framed_on_step).
  pose proof (executeStepTasks_rel plugin step i tmp vars c _ (owns_framed _ _ _ _ _ _ _ H1 Ho)) as H2.
  destruct (executeStepTasks rt plugin step i tmp vars c _) as [s2 [e|]]; simpl in H2;
    apply (framed_weaken _ _ (task_output (step_Name step))) in H2; try done;
    apply Hmark; try done; by etransitivity.
Qed.
End Frame.

(** ** One phase *)

Section PhaseRun.
Context {X : Type} (rt : Runtime X) (plugins : gmap string (StepPlugin X)).
Context (items : gmap string nat) (phase : PipelinePhase) (tmp : string).
Context (vars : gmap string string) (complete : St (X := X) -> St (X := X)).
Implicit Types s : St (X := X).

Definition is_update (o : output) : Prop := match o with Update _ => True | Emit _ => False end.

(** [onStepComplete] only reports. *)
Context (complete_ok : forall i s, framed i is_update true s (complete s)).

Definition index_of_step (n : string) : option nat := items !! phaseStepKey phase n.

(** The recorded status of step [n] of the phase. *)
Definition status_of (s : St (X := X)) (n : string) : option RunStatus :=
  index_of_step n ≫= fun i => sr_Status <$> st_runs s !! i.

(** The statuses that a step which is (not) blocked can end with. *)
Definition settled (blocked : Prop) (step : Step) (st : RunStatus) : Prop :=
  (blocked /\ st = StatusSkipped) \/
  (~ blocked /\
   match EvaluateRunIf (step_RunIf step) with
   | None => st = RunStatusFailed
   | Some false => st = StatusSkipped
   | Some true => st = StatusSuccess \/ st = RunStatusFailed
   end).

Definition may_start (blocked : bool) (step : Step) (o : output) : Prop :=
  forall n, started n o ->
    n = step_Name step /\ blocked = false /\ EvaluateRunIf (step_RunIf step) = Some true.

Lemma is_update_may_start blocked step o : is_update o -> may_start blocked step o.
Proof. by destruct o. Qed.

Lemma run_step_spec ph s step i :
  index_of_step (step_Name step) = Some i -> owns i (step_Name step) s ->
  let blocked := dependencyBlocked step (ph_statuses ph) in
  let '(ph', s') := run_step rt plugins items phase tmp vars complete ph s step in
  exists st, framed i (may_start blocked step) false s s' /\
    (sr_Status <$> st_runs s' !! i) = Some st /\
    ph_statuses ph' = <[step_Name step := st]> (ph_statuses ph) /\
    (ph_err ph' = None <-> ph_err ph = None /\ st <> RunStatusFailed) /\
    settled (blocked = true) step st.
Proof using complete_ok.
  intros Hi Ho blocked. unfold run_step. fold (index_of_step (step_Name step)). rewrite Hi.
  assert (forall f st, (forall sr, run_key (f sr) = run_key sr) ->
    (forall sr, sr_Status (f sr) = st) ->
    framed i (may_start blocked step) false s (on_step i f s) /\
    (sr_Status <$> st_runs (on_step i f s) !! i) = Some st) as Hmark.
  { intros f st Hf Hst. split; [by apply framed_on_step|].
    unfold owns, ids in Ho. rewrite list_lookup_fmap in Ho. simpl. rewrite list_lookup_alter_eq.
    destruct (st_runs s !! i); simpl; [by rewrite Hst|done]. }
  assert (forall s1 st err, framed i (may_start blocked step) false s s1 ->
    (sr_Status <$> st_runs s1 !! i) = Some st -> (err = None <-> st <> RunStatusFailed) ->
    settled (blocked = true) step st ->
    exists st0, framed i (may_start blocked step) false s (complete s1) /\
    (sr_Status <$> st_runs (complete s1) !! i) = Some st0 /\
    <[step_Name step := st]> (ph_statuses ph) = <[step_Name step := st0]> (ph_statuses ph) /\
    (match ph_err ph with Some e => Some e | None => err end = None <->
       ph_err ph = None /\ st0 <> RunStatusFailed) /\
    settled (blocked = true) step st0) as Hsettle.
  { intros s1 st err H1 H2 He Hs. exists st. split_and!; [|..|done].
    - etransitivity; [exact H1|]. eapply framed_weaken; [|apply complete_ok].
      apply is_update_may_start.
    - by rewrite (fr_status _ _ _ _ _ (complete_ok i s1) eq_refl).
    - done.
    - rewrite <-He. destruct (ph_err ph); naive_solver. }
  destruct (dependencyBlocked step (ph_statuses ph)) eqn:Eb.
  { destruct (Hmark markStepSkipped StatusSkipped) as [H1 H2]; [done..|].
    apply Hsettle; [done..|]. by left. }
  assert (~ blocked = true) as Hnb by (unfold blocked; congruence).
  destruct (EvaluateRunIf (step_RunIf step)) as [[|]|] eqn:Er.
  2: { destruct (Hmark markStepSkipped StatusSkipped) as [H1 H2]; [done..|].
       apply Hsettle; [done..|]. right. by rewrite Er. }
  2: { destruct (Hmark markStepFailed RunStatusFailed) as [H1 H2]; [done..|].
       apply Hsettle; [done..|]. right. by rewrite Er. }
  destruct (length (sr_Tasks (step_run i s)) =? 0)%nat.
  { destruct (Hmark (markStep StatusSuccess) StatusSuccess) as [H1 H2]; [done..|].
    apply Hsettle; [done..|]. right. rewrite Er. tauto. }
  pose proof (executeStep_spec rt plugins step i tmp vars s Ho) as HE.
  destruct (executeStep rt plugins step i tmp vars s) as [s1 [e|]]; destruct HE as [H1 H2];
    apply (framed_weaken _ _ (may_start blocked step)) in H1;
    try (apply Hsettle; [done..|]; right; rewrite Er; tauto);
    (intros [ev|] Ho' n Hn; [|done]; destruct Ho' as [_ <-]; by destruct Hn as [_ <-]).
Qed.

(** The index of the phase points at the step runs of the phase. *)
Definition indexed (l : list (PipelinePhase * string)) (steps : list Step) : Prop :=
  forall step, step ∈ steps -> exists i,
    index_of_step (step_Name step) = Some i /\ l !! i = Some (phase, step_Name step).

(** Each step follows the steps it needs. *)
Definition ordered (steps : list Step) : Prop :=
  NoDup (step_Name <$> steps) /\
  forall i step, steps !! i = Some step -> step_Needs step ⊆ (step_Name <$> take i steps).

Definition unready (s : St (X := X)) (step : Step) : Prop :=
  exists d, d ∈ step_Needs step /\ status_of s d <> Some StatusSuccess.

(** The final state of a phase: every step has ended, skipped exactly when a step it needs did
    not succeed or its condition is false. *)
Definition phase_done (steps : list Step) (s : St (X := X)) : Prop :=
  forall step, step ∈ steps -> exists st,
    status_of s (step_Name step) = Some st /\ settled (unready s step) step st.

Definition phase_failed (steps : list Step) (s : St (X := X)) : Prop :=
  exists step, step ∈ steps /\ status_of s (step_Name step) = Some RunStatusFailed.

Definition started_ready (steps : list Step) (s : St (X := X)) (o : output) : Prop :=
  forall n, started n o -> exists step, step ∈ steps /\ step_Name step = n /\
    ~ unready s step /\ EvaluateRunIf (step_RunIf step) = Some true.

(** Nothing but the step runs of [steps] has changed since [s0]. *)
Definition phase_frame (steps : list Step) (s0 s : St (X := X)) : Prop :=
  ids s = ids s0 /\
  (forall i, (forall step, step ∈ steps -> index_of_step (step_Name step) <> Some i) ->
     st_runs s !! i = st_runs s0 !! i).

Record phase_inv (done_ : list Step) (ph : Phase) (s0 s : St (X := X)) : Prop := {
  pi_frame : phase_frame done_ s0 s;
  pi_statuses : forall n, ph_statuses ph !! n =
    if decide (n ∈ (step_Name <$> done_)) then status_of s n else None;
  pi_done : phase_done done_ s;
  pi_err : ph_err ph = None <-> ~ phase_failed done_ s;
  pi_trace : exists new, st_trace s = st_trace s0 ++ new /\ Forall (started_ready done_ s) new;
}.

Lemma indexed_inj l steps step n i :
  indexed l steps -> step ∈ steps -> n ∈ (step_Name <$> steps) -> n <> step_Name step ->
  index_of_step (step_Name step) = Some i -> index_of_step n <> Some i.
Proof using.
  intros Hl Hs (t & -> & Ht)%list_elem_of_fmap Hne Hi Hn.
  destruct (Hl step Hs) as (j & Hj & Lj), (Hl t Ht) as (k & Hk & Lk). congruence.
Qed.

Lemma status_of_framed i P keep s s' n :
  framed i P keep s s' -> index_of_step n <> Some i -> status_of s' n = status_of s n.
Proof using.
  intros H Hn. unfold status_of. destruct (index_of_step n) as [j|]; simpl; [|done].
  rewrite (fr_other _ _ _ _ _ H); congruence.
Qed.

Lemma dependencyBlocked_spec step statuses :
  dependencyBlocked step statuses = true <->
  exists d, d ∈ step_Needs step /\ statuses !! d <> Some StatusSuccess.
Proof using.
  unfold dependencyBlocked. rewrite existsb_exists. split; intros (d & Hd & H); exists d.
  - apply list_elem_of_In in Hd. split; [done|]. intros E. by rewrite E in H.
  - split; [by apply list_elem_of_In|]. apply negb_true_iff, String.eqb_neq.
    destruct (statuses !! d) as [st|]; simpl; [congruence|done].
Qed.

Lemma phase_step steps l done_ step ph s0 s :
  indexed l steps -> ids s = l -> NoDup (step_Name <$> done_ ++ [step]) ->
  done_ ++ [step] ⊆ steps ->
  (forall t, t ∈ done_ ++ [step] -> step_Needs t ⊆ (step_Name <$> done_)) ->
  phase_inv done_ ph s0 s ->
  let '(ph', s') := run_step rt plugins items phase tmp vars complete ph s step in
  phase_inv (done_ ++ [step]) ph' s0 s'.
Proof using complete_ok.
  intros Hl Hids HN Hsub Hneeds [[F1 F2] I1 I2 I3 (new & I4 & I5)].
  assert (step ∈ steps) as Hstep by set_solver.
  destruct (Hl step Hstep) as (i & Hi & Li).
  assert (owns i (step_Name step) s) as Ho by (unfold owns; rewrite Hids, Li; done).
  pose proof (run_step_spec ph s step i Hi Ho) as HR. cbv zeta in HR.
  destruct (run_step _ _ _ _ _ _ _ ph s step) as [ph' s'].
  destruct HR as (st & HF & Hst & Hph & Herr & Hset).
  rewrite fmap_app in HN. apply NoDup_app in HN as (HN & Hnew & _).
  assert (step_Name step ∉ (step_Name <$> done_)) as Hfresh by (intros H; by eapply Hnew; [|left]).
  assert (forall n, n ∈ (step_Name <$> done_) -> status_of s' n = status_of s n) as Hold.
  { intros n Hn. eapply status_of_framed; [done|].
    apply (indexed_inj l steps step); [done..| |congruence|done].
    apply list_elem_of_fmap in Hn as (t & -> & Ht). apply list_elem_of_fmap_2. set_solver. }
  assert (status_of s' (step_Name step) = Some st) as Hcur.
  { unfold status_of. by rewrite Hi. }
  assert (forall t, t ∈ done_ ++ [step] -> unready s' t <->
    exists d, d ∈ step_Needs t /\ ph_statuses ph !! d <> Some StatusSuccess) as Hunready.
  { intros t Ht. unfold unready. split; intros (d & Hd & H); exists d; (split; [done|]);
      pose proof (Hneeds t Ht d Hd) as Hdd; rewrite I1, decide_True, <-Hold in * by done; done. }
  assert (forall t, t ∈ done_ -> (unready s' t <-> unready s t)) as Hsame.
  { intros t Ht.
    assert (forall d, d ∈ step_Needs t -> status_of s' d = status_of s d) as E.
    { intros d Hd. apply Hold, (Hneeds t); [set_solver|done]. }
    split; intros (d & Hd & H); exists d; (split; [done|]); specialize (E d Hd); congruence. }
  split.
  - split; [rewrite (fr_ids _ _ _ _ _ HF); congruence|]. intros j Hj.
    rewrite (fr_other _ _ _ _ _ HF); [|intros ->; by apply (Hj step); [set_solver|]].
    apply F2. intros t Ht. apply Hj. set_solver.
  - intros n. rewrite Hph, fmap_app. destruct (decide (n = step_Name step)) as [->|Hne].
    + rewrite lookup_insert_eq, decide_True by set_solver. done.
    + rewrite lookup_insert_ne by done. rewrite I1.
      destruct (decide (n ∈ (step_Name <$> done_))) as [Hd|Hd].
      * rewrite decide_True by set_solver. by rewrite Hold.
      * by rewrite decide_False by set_solver.
  - intros t [Ht|Ht%list_elem_of_singleton]%elem_of_app.
    + destruct (I2 t Ht) as (st' & H1 & H2). exists st'.
      rewrite Hold by (by apply list_elem_of_fmap_2). split; [done|].
      unfold settled in *. by rewrite Hsame.
    + subst t. exists st. split; [done|]. unfold settled in *.
      rewrite Hunready, <-dependencyBlocked_spec by set_solver. done.
  - rewrite Herr, I3. split.
    + intros [Hnf Hs] (t & [Ht| ->%list_elem_of_singleton]%elem_of_app & E); [|congruence].
      apply Hnf. exists t. split; [done|]. rewrite <-E. symmetry. apply Hold.
      by apply list_elem_of_fmap_2.
    + intros Hnf. split.
      * intros (t & Ht & E). apply Hnf. exists t. split; [set_solver|].
        rewrite Hold; [done|by apply list_elem_of_fmap_2].
      * intros ->. apply Hnf. exists step. split; [set_solver|done].
  - destruct (fr_trace _ _ _ _ _ HF) as (new' & E & HF'). exists (new ++ new').
    rewrite E, I4, app_assoc. split; [done|]. apply Forall_app. split.
    + eapply Forall_impl; [exact I5|]. intros o Hout n Hn.
      destruct (Hout n Hn) as (t & Ht & E' & Hr & Hif). exists t.
      rewrite Hsame by done. split_and!; [set_solver|done..].
    + eapply Forall_impl; [exact HF'|]. intros o Hout n Hn.
      destruct (Hout n Hn) as (-> & Hb & Hif). exists step. split_and!; [set_solver|done| |done].
      rewrite Hunready, <-dependencyBlocked_spec by set_solver. congruence.
Qed.

Lemma runPhase_spec steps s0 :
  indexed (ids s0) steps -> ordered steps ->
  let '(s, err) := runPhase rt plugins items phase steps tmp vars complete s0 in
  phase_frame steps s0 s /\ phase_done steps s /\ (err = None <-> ~ phase_failed steps s) /\
  exists new, st_trace s = st_trace s0 ++ new /\ Forall (started_ready steps s) new.
Proof using complete_ok.
  intros Hl [HN Hord]. unfold runPhase.
  assert (forall done_ rest ph s, steps = done_ ++ rest -> phase_inv done_ ph s0 s ->
    let '(ph, s) := foldl (fun r step => run_step rt plugins items phase tmp vars complete r.1 r.2 step)
                      (ph, s) rest in phase_inv steps ph s0 s) as H.
  { intros done_ rest. revert done_; induction rest as [|step rest IH]; intros done_ ph s E I; simpl.
    { rewrite E, app_nil_r. done. }
    pose proof (phase_step steps (ids s0) done_ step ph s0 s Hl) as HS.
    destruct (run_step _ _ _ _ _ _ _ ph s step) as [ph' s'].
    apply (IH (done_ ++ [step])); [by rewrite E, <-app_assoc|]. apply HS; try done.
    - apply I.
    - rewrite E, (cons_middle step), app_assoc, fmap_app in HN. by apply NoDup_app in HN as [? _].
    - rewrite E. set_solver.
    - intros t Ht. apply list_elem_of_lookup in Ht as [k Hk].
      assert (k < length (done_ ++ [step])) as Hlt by (by eapply lookup_lt_Some).
      rewrite length_app in Hlt. simpl in Hlt.
      assert (steps !! k = Some t) as Hk'.
      { rewrite E, (cons_middle step), app_assoc. by apply lookup_app_l_Some. }
      intros d Hd. pose proof (Hord k t Hk' d Hd) as Hin. rewrite E in Hin.
      rewrite take_app_le in Hin by lia. apply list_elem_of_fmap in Hin as (u & -> & Hu).
      apply list_elem_of_fmap_2. by apply (subseteq_take k done_). }
  specialize (H [] steps (mkPhase ∅ None) s0 eq_refl).
  destruct (foldl _ _ steps) as [ph s]. destruct H as [I1 _ I3 I4 I5]; [|done].
  split; [done|..].
  - intros n. by rewrite decide_False by apply not_elem_of_nil.
  - by intros t ?%elem_of_nil.
  - split; [|done]. intros _ (t & ?%elem_of_nil & _). done.
  - exists []. by rewrite app_nil_r.
Qed.

Lemma skip_step_status i n s :
  status_of s n = Some StatusSkipped ->
  status_of (on_step i markStepSkipped s) n = Some StatusSkipped.
Proof using.
  unfold status_of. destruct (index_of_step n) as [j|]; simpl; [|done].
  destruct (decide (i = j)) as [<-|Hij]; [|by rewrite list_lookup_alter_ne].
  rewrite list_lookup_alter_eq. by destruct (st_runs s !! i).
Qed.

Lemma skipPhase_spec steps s0 :
  indexed (ids s0) steps ->
  let s := skipPhase items phase steps s0 in
  phase_frame steps s0 s /\ st_trace s = st_trace s0 /\
  (forall step, step ∈ steps -> status_of s (step_Name step) = Some StatusSkipped) /\
  (forall n, status_of s0 n = Some StatusSkipped -> status_of s n = Some StatusSkipped).
Proof using.
  unfold skipPhase. revert s0; induction steps as [|step steps IH]; intros s0 Hl; simpl.
  { split_and!; [done|done|by intros t ?%elem_of_nil|done]. }
  destruct (Hl step) as (i & Hi & Li); [by left|].
  fold (index_of_step (step_Name step)). rewrite Hi.
  assert (framed i (fun _ => False) false s0 (on_step i markStepSkipped s0)) as HF
    by (by apply framed_on_step).
  destruct (IH (on_step i markStepSkipped s0)) as ([F1 F2] & T & S1 & S2).
  { rewrite (fr_ids _ _ _ _ _ HF). intros t Ht. apply Hl. by right. }
  split_and!.
  - split; [by rewrite F1, (fr_ids _ _ _ _ _ HF)|]. intros j Hj.
    rewrite F2 by (intros t Ht; apply Hj; by right).
    apply (fr_other _ _ _ _ _ HF). intros ->. by apply (Hj step); [left|].
  - by rewrite T.
  - intros t [->|Ht]%elem_of_cons; [|by apply S1]. apply S2. unfold status_of. rewrite Hi. simpl.
    rewrite list_lookup_alter_eq. unfold ids in Li. rewrite list_lookup_fmap in Li.
    by destruct (st_runs s0 !! i).
  - intros n Hn. apply S2. by apply skip_step_status.
Qed.
End PhaseRun.

(** ** The index of a run *)

Lemma phaseStepKey_inj p q a b :
  p ∈ pipelinePhases -> q ∈ pipelinePhases ->
  phaseStepKey p a = phaseStepKey q b -> (p, a) = (q, b).
Proof.
  unfold pipelinePhases. rewrite !elem_of_cons, !elem_of_nil.
  intros [->|[->|[->|[]]]] [->|[->|[->|[]]]] E; cbv in E; by simplify_eq.
Qed.

Definition string_key (sr : StepRun) : string := phaseStepKey (sr_Phase sr) (sr_StepName sr).

Lemma index_items_fold runs (m : gmap string nat) k key :
  NoDup (string_key <$> runs) ->
  let res := (foldl (fun m sr => (<[phaseStepKey (sr_Phase sr) (sr_StepName sr) := m.2]> m.1, S m.2))
                (m, k) runs).1 in
  (forall i, (string_key <$> runs) !! i = Some key -> res !! key = Some (k + i)%nat) /\
  (key ∉ (string_key <$> runs) -> res !! key = m !! key).
Proof.
  revert m k; induction runs as [|sr runs IH]; intros m k HN; simpl; [done|].
  apply NoDup_cons in HN as [Hn HN]. fold (string_key sr).
  destruct (IH (<[string_key sr := k]> m) (S k) HN) as [H1 H2]. split.
  - intros [|i] Hi; simpl in Hi.
    + simplify_eq. rewrite H2 by done. by rewrite lookup_insert_eq, Nat.add_0_r.
    + rewrite (H1 i Hi). f_equal. lia.
  - intros Hk. apply not_elem_of_cons in Hk as [Hk1 Hk2]. rewrite H2 by done.
    by rewrite lookup_insert_ne.
Qed.

(** A run whose step runs have distinct keys within the three phases. *)
Definition well_keyed (runs : list StepRun) : Prop :=
  NoDup (run_key <$> runs) /\ Forall (fun sr => sr_Phase sr ∈ pipelinePhases) runs.

Lemma index_items_indexed phase runs steps :
  well_keyed runs -> phase ∈ pipelinePhases ->
  (forall step, step ∈ steps -> (phase, step_Name step) ∈ (run_key <$> runs)) ->
  indexed (index_items runs) phase (run_key <$> runs) steps.
Proof.
  intros [HN HP] Hphase Hsteps step Hstep. rewrite Forall_forall in HP.
  apply Hsteps in Hstep. apply list_elem_of_lookup in Hstep as [i Hi]. exists i. split; [|done].
  rewrite list_lookup_fmap in Hi. destruct (runs !! i) as [sr|] eqn:Ei; simplify_eq/=.
  unfold index_of_step, index_items.
  apply (index_items_fold runs ∅ 0%nat).
  - clear -HN HP. induction runs as [|x runs IH]; simpl; [constructor|].
    apply NoDup_cons in HN as [Hx HN]. constructor; [|apply IH; [done|set_solver]].
    intros (y & E & Hy)%list_elem_of_fmap. apply Hx.
    apply phaseStepKey_inj in E; [|apply HP; set_solver..].
    assert (run_key x = run_key y) as -> by (unfold run_key; congruence).
    by apply list_elem_of_fmap_2.
  - rewrite list_lookup_fmap, Ei. unfold string_key. simpl.
    by injection Hi as -> ->.
Qed.

(** ** A whole run *)

Section WholeRun.
Context {X : Type} (rt : Runtime X) (plugins : gmap string (StepPlugin X)).
Context (items : gmap string nat) (plan : Plan) (L : list (PipelinePhase * string)).
Context (Hix : forall phase, phase ∈ pipelinePhases -> indexed items phase L (phase_steps plan phase)).
Context (Hord : forall phase, phase ∈ pipelinePhases -> ordered (phase_steps plan phase)).
Implicit Types s : St (X := X).

Definition done_phase (phase : PipelinePhase) (s : St (X := X)) : Prop :=
  phase_done items phase (phase_steps plan phase) s.
Definition failed_phase (phase : PipelinePhase) (s : St (X := X)) : Prop :=
  phase_failed items phase (phase_steps plan phase) s.
Definition skipped_phase (phase : PipelinePhase) (s : St (X := X)) : Prop :=
  forall step, step ∈ phase_steps plan phase ->
    status_of items phase s (step_Name step) = Some StatusSkipped.

Lemma phase_failed_em phase steps s :
  phase_failed items phase steps s \/ ~ phase_failed items phase steps s.
Proof using.
  destruct (decide (Exists (fun step => status_of items phase s (step_Name step) =
    Some RunStatusFailed) steps)) as [H|H]; rewrite Exists_exists in H; tauto.
Qed.

Lemma skipped_not_failed phase s : skipped_phase phase s -> ~ failed_phase phase s.
Proof using. intros H (step & Hs & E). rewrite H in E by done. done. Qed.

(** The verdict on a phase depends on the statuses of its own steps only. *)
Lemma same_statuses phase s s' :
  phase ∈ pipelinePhases ->
  (forall step, step ∈ phase_steps plan phase ->
     status_of items phase s' (step_Name step) = status_of items phase s (step_Name step)) ->
  (done_phase phase s -> done_phase phase s') /\
  (failed_phase phase s' -> failed_phase phase s) /\
  (skipped_phase phase s -> skipped_phase phase s').
Proof using Hord.
  intros Hp Hsame. destruct (Hord phase Hp) as [_ Ho]. split_and!.
  - intros Hd step Hs. destruct (Hd step Hs) as (st & E & Hst). exists st.
    rewrite Hsame by done. split; [done|].
    assert (unready items phase s' step <-> unready items phase s step) as Hu; [|by unfold settled in *; rewrite Hu].
    apply list_elem_of_lookup in Hs as [k Hk].
    assert (forall d, d ∈ step_Needs step -> status_of items phase s' d = status_of items phase s d)
      as Hd'.
    { intros d Hdn. apply (Ho k step Hk) in Hdn. apply list_elem_of_fmap in Hdn as (t & -> & Ht).
      apply Hsame. by apply (subseteq_take k (phase_steps plan phase)). }
    split; intros (d & Hdn & H); exists d; (split; [done|]); specialize (Hd' d Hdn); congruence.
  - intros (step & Hs & E). exists step. split; [done|]. by rewrite <-Hsame.
  - intros Hk step Hs. rewrite Hsame by done. by apply Hk.
Qed.

Lemma other_phase p q s s' :
  p ∈ pipelinePhases -> q ∈ pipelinePhases -> p <> q -> ids s = L ->
  phase_frame items p (phase_steps plan p) s s' ->
  forall step, step ∈ phase_steps plan q ->
    status_of items q s' (step_Name step) = status_of items q s (step_Name step).
Proof using Hix.
  intros Hp Hq Hne Hids [_ HF] step Hs. unfold status_of.
  destruct (Hix q Hq step Hs) as (i & Hi & Li). rewrite Hi. simpl. f_equal. apply HF.
  intros t Ht Hti. destruct (Hix p Hp t Ht) as (j & Hj & Lj). congruence.
Qed.

Lemma notify_runs opts run s : st_runs (notify opts run s) = st_runs s.
Proof using. unfold notify. by destruct (OnRunUpdate opts). Qed.

Lemma notify_ok opts run i s : framed i is_update true s (notify opts run s).
Proof using. unfold notify. destruct (OnRunUpdate opts); [by apply framed_say|reflexivity]. Qed.

Lemma status_of_runs phase s s' n :
  st_runs s' = st_runs s -> status_of items phase s' n = status_of items phase s n.
Proof using. intros E. unfold status_of. by rewrite E. Qed.

Lemma call_hook_runs h run vars s s' run' err :
  call_hook h run vars s = (s', run', err) -> st_runs s' = st_runs s.
Proof using.
  unfold call_hook. destruct (h _ _ _) as [[x r] e]. intros; by simplify_eq.
Qed.

Lemma build_stage_spec opts tmp vars run s :
  ids s = L ->
  let '(s', run', failed, err) := build_stage rt plugins opts items plan tmp vars run s in
  ids s' = L /\
  (if SkipBuild opts then skipped_phase PhaseBuild s' else done_phase PhaseBuild s') /\
  (failed = false <-> err = None) /\
  (failed_phase PhaseBuild s' -> failed = true) /\
  (AfterBuild opts = None -> failed = true -> failed_phase PhaseBuild s').
Proof using Hix Hord.
  intros Hids. assert (PhaseBuild ∈ pipelinePhases) as Hp by (by left).
  pose proof (Hix _ Hp) as HI. rewrite <-Hids in HI. unfold build_stage.
  destruct (SkipBuild opts).
  { destruct (skipPhase_spec items PhaseBuild _ s HI) as ([F1 _] & _ & S & _).
    assert (skipped_phase PhaseBuild (notify opts run
              (skipPhase items PhaseBuild (phase_steps plan PhaseBuild) s))) as HS.
    { intros step Hs. rewrite (status_of_runs _ _ _ _ (notify_runs _ _ _)). by apply S. }
    split_and!; [unfold ids in *; rewrite notify_runs; congruence|done|done| |done].
    intros Hf. by apply skipped_not_failed in Hf. }
  pose proof (runPhase_spec rt plugins items PhaseBuild tmp vars (notify opts run)
    (notify_ok opts run) _ s HI (Hord _ Hp)) as HR.
  destruct (runPhase _ _ _ _ _ _ _ _ s) as [s1 err]. destruct HR as ([F1 _] & D & E & _).
  assert (failed_phase PhaseBuild s1 <-> err <> None) as E'.
  { destruct (phase_failed_em PhaseBuild (phase_steps plan PhaseBuild) s1);
      unfold failed_phase; tauto. }
  destruct err as [e|]; [|destruct (AfterBuild opts) as [h|]].
  - split_and!; [congruence|done|done|done|]. intros _ _. by apply E'.
  - destruct (call_hook h run vars s1) as [[s2 run2] hookErr] eqn:Eh.
    apply call_hook_runs in Eh.
    assert (forall n, status_of items PhaseBuild (notify opts run2 s2) n =
              status_of items PhaseBuild s1 n) as Hst
      by (intros n; apply status_of_runs; by rewrite notify_runs).
    destruct (same_statuses PhaseBuild s1 (notify opts run2 s2) Hp) as (Hd & Hf & _); [done|].
    split_and!; [unfold ids in *; rewrite notify_runs, Eh; congruence|by apply Hd| | |done].
    + destruct hookErr; simpl; by split.
    + intros Hf'%Hf. apply E' in Hf'. done.
  - split_and!; [congruence|done|done|..|done]. intros Hf. by apply E' in Hf.
Qed.

(** What a phase that is executed or skipped leaves, inside a run. *)
Lemma runPhase_stage phase opts run tmp vars s :
  phase ∈ pipelinePhases -> ids s = L ->
  let '(s', err) := runPhase rt plugins items phase (phase_steps plan phase) tmp vars
                      (notify opts run) s in
  ids s' = L /\ done_phase phase s' /\ (failed_phase phase s' <-> err <> None) /\
  (forall q step, q ∈ pipelinePhases -> q <> phase -> step ∈ phase_steps plan q ->
     status_of items q s' (step_Name step) = status_of items q s (step_Name step)).
Proof using Hix Hord.
  intros Hp Hids. pose proof (Hix _ Hp) as HI. rewrite <-Hids in HI.
  pose proof (runPhase_spec rt plugins items phase tmp vars (notify opts run)
    (notify_ok opts run) _ s HI (Hord _ Hp)) as HR.
  destruct (runPhase _ _ _ _ _ _ _ _ s) as [s1 err]. destruct HR as (HF & D & E & _).
  split_and!; [destruct HF; congruence|done| |].
  - destruct (phase_failed_em phase (phase_steps plan phase) s1); unfold failed_phase; tauto.
  - intros q step Hq Hne Hs. by apply (other_phase phase q s s1).
Qed.

Lemma skipPhase_stage phase opts run s :
  phase ∈ pipelinePhases -> ids s = L ->
  let s' := notify opts run (skipPhase items phase (phase_steps plan phase) s) in
  ids s' = L /\ skipped_phase phase s' /\
  (forall q step, q ∈ pipelinePhases -> q <> phase -> step ∈ phase_steps plan q ->
     status_of items q s' (step_Name step) = status_of items q s (step_Name step)).
Proof using Hix.
  intros Hp Hids. pose proof (Hix _ Hp) as HI. rewrite <-Hids in HI.
  destruct (skipPhase_spec items phase _ s HI) as (HF & _ & S & _). split_and!.
  - unfold ids in *. rewrite notify_runs. destruct HF. unfold ids in *. congruence.
  - intros step Hs. rewrite (status_of_runs _ _ _ _ (notify_runs _ _ _)). by apply S.
  - intros q step Hq Hne Hs. rewrite (status_of_runs _ _ _ _ (notify_runs _ _ _)).
    by apply (other_phase phase q s).
Qed.

Lemma deploy_stage_spec opts tmp vars run failed err s :
  ids s = L -> (failed = false <-> err = None) ->
  let '(s', run', err') := deploy_stage rt plugins opts items plan tmp vars run failed err s in
  ids s' = L /\
  (skipped_phase PhaseDeploy s' \/ (done_phase PhaseDeploy s' /\ failed = false)) /\
  (failed_phase PhaseDeploy s' -> err' <> None) /\
  (failed = true -> err' = err) /\
  (BeforeDeploy opts = None -> failed = false -> err' <> None -> failed_phase PhaseDeploy s') /\
  (forall q step, q ∈ pipelinePhases -> q <> PhaseDeploy -> step ∈ phase_steps plan q ->
     status_of items q s' (step_Name step) = status_of items q s (step_Name step)).
Proof using Hix Hord.
  intros Hids Hfe. assert (PhaseDeploy ∈ pipelinePhases) as Hp by (right; by left).
  unfold deploy_stage. destruct failed.
  { destruct (skipPhase_stage PhaseDeploy opts run s Hp Hids) as (H1 & H2 & H3).
    split_and!; [done|by left| |done|done|done].
    intros Hf. by apply skipped_not_failed in Hf. }
  assert (err = None) as -> by (by apply Hfe).
  assert (forall run' s1, st_runs s1 = st_runs s ->
    let '(s', err') := runPhase rt plugins items PhaseDeploy (phase_steps plan PhaseDeploy) tmp vars
                         (notify opts run') s1 in
    ids s' = L /\ done_phase PhaseDeploy s' /\ (failed_phase PhaseDeploy s' <-> err' <> None) /\
    (forall q step, q ∈ pipelinePhases -> q <> PhaseDeploy -> step ∈ phase_steps plan q ->
       status_of items q s' (step_Name step) = status_of items q s (step_Name step))) as HR.
  { intros run' s1 E. assert (ids s1 = L) as H1 by (unfold ids in *; congruence).
    pose proof (runPhase_stage PhaseDeploy opts run' tmp vars s1 Hp H1) as HR.
    destruct (runPhase _ _ _ _ _ _ _ _ s1) as [s2 err']. destruct HR as (? & ? & ? & HQ).
    split_and!; [done..|]. intros q step Hq Hne Hs. rewrite HQ by done. by apply status_of_runs. }
  destruct (BeforeDeploy opts) as [h|].
  - destruct (call_hook h run vars s) as [[s1 run1] [e|]] eqn:Eh; apply call_hook_runs in Eh.
    + assert (ids s1 = L) as H1 by (unfold ids in *; congruence).
      destruct (skipPhase_stage PhaseDeploy opts run1 s1 Hp H1) as (H2 & H3 & H4).
      split_and!; [done|by left|done|done|done|].
      intros q step Hq Hne Hs. rewrite H4 by done. by apply status_of_runs.
    + specialize (HR run1 s1 Eh).
      destruct (runPhase _ _ _ _ _ _ _ _ s1) as [s2 err']. destruct HR as (R1 & R2 & R3 & R4).
      split_and!; [done|by right|by apply R3|done|done|done].
  - specialize (HR run s eq_refl).
    destruct (runPhase _ _ _ _ _ _ _ _ s) as [s2 err']. destruct HR as (R1 & R2 & R3 & R4).
    split_and!; [done|by right|by apply R3|done|intros _ _; by apply R3|done].
Qed.

(** What a finished run guarantees. *)
Record contract (opts : RunOptions (X := X)) (s : St (X := X)) (r : Run)
    (err : option engine_error) : Prop := {
  ct_runs : run_StepRuns r = st_runs s;
  ct_ids : ids s = L;
  ct_status : run_Status r = match err with None => StatusSuccess | Some _ => RunStatusFailed end;
  ct_build : if SkipBuild opts then skipped_phase PhaseBuild s else done_phase PhaseBuild s;
  ct_deploy : skipped_phase PhaseDeploy s \/
              (done_phase PhaseDeploy s /\ ~ failed_phase PhaseBuild s);
  ct_finally : done_phase PhaseFinally s;
  ct_failed : forall phase, phase ∈ pipelinePhases -> failed_phase phase s -> err <> None;
  ct_clean : AfterBuild opts = None -> BeforeDeploy opts = None -> err <> None ->
             exists phase, phase ∈ pipelinePhases /\ failed_phase phase s;
}.

Lemma finish_run_spec opts run err s :
  let '(s', r, err') := finish_run rt opts run err s in
  err' = err /\ st_runs s' = st_runs s /\ run_StepRuns r = st_runs s /\
  run_Status r = match err with None => StatusSuccess | Some _ => RunStatusFailed end.
Proof using.
  unfold finish_run, now_ms. destruct (rt_now rt (st_x s)) as [x now].
  destruct (OnRunUpdate opts), err; simpl; split_and!; done.
Qed.

Lemma stages_contract opts tmp vars run s :
  ids s = L ->
  let '(s1, run1, failed, err1) := build_stage rt plugins opts items plan tmp vars run s in
  let '(s2, run2, err2) := deploy_stage rt plugins opts items plan tmp vars run1 failed err1 s1 in
  let '(s3, err3) := runPhase rt plugins items PhaseFinally (phase_steps plan PhaseFinally) tmp vars
                       (notify opts run2) s2 in
  let '(s4, r, err4) := finish_run rt opts run2
                          (match err2 with Some e => Some e | None => err3 end) s3 in
  contract opts s4 r err4.
Proof using Hix Hord.
  intros Hids.
  assert (PhaseBuild ∈ pipelinePhases) as Pb by (by left).
  assert (PhaseDeploy ∈ pipelinePhases) as Pd by (right; by left).
  assert (PhaseFinally ∈ pipelinePhases) as Pf by (do 2 right; by left).
  pose proof (build_stage_spec opts tmp vars run s Hids) as HB.
  destruct (build_stage _ _ _ _ _ _ _ _ s) as [[[s1 run1] failed] err1].
  destruct HB as (I1 & B1 & B2 & B3 & B4).
  pose proof (deploy_stage_spec opts tmp vars run1 failed err1 s1 I1 B2) as HD.
  destruct (deploy_stage _ _ _ _ _ _ _ _ _ _ s1) as [[s2 run2] err2].
  destruct HD as (I2 & D1 & D2 & D3 & D4 & D5).
  pose proof (runPhase_stage PhaseFinally opts run2 tmp vars s2 Pf I2) as HF.
  destruct (runPhase _ _ _ _ _ _ _ _ s2) as [s3 err3]. destruct HF as (I3 & F1 & F2 & F3).
  pose proof (finish_run_spec opts run2 (match err2 with Some e => Some e | None => err3 end) s3)
    as HE.
  destruct (finish_run _ _ _ _ s3) as [[s4 r] err4]. destruct HE as (-> & E1 & E2 & E3).
  assert (forall phase n, status_of items phase s4 n = status_of items phase s3 n) as S4
    by (intros; by apply status_of_runs).
  destruct (same_statuses PhaseBuild s1 s4 Pb) as (SB1 & SB2 & SB3).
  { intros step Hs. by rewrite S4, F3, D5. }
  destruct (same_statuses PhaseDeploy s2 s4 Pd) as (SD1 & SD2 & SD3).
  { intros step Hs. by rewrite S4, F3. }
  destruct (same_statuses PhaseFinally s3 s4 Pf) as (SF1 & SF2 & _).
  { intros step Hs. by rewrite S4. }
  destruct (same_statuses PhaseDeploy s4 s2 Pd) as (_ & TD2 & _).
  { intros step Hs. by rewrite S4, F3. }
  destruct (same_statuses PhaseBuild s4 s1 Pb) as (_ & TB2 & _).
  { intros step Hs. by rewrite S4, F3, D5. }
  destruct (same_statuses PhaseFinally s4 s3 Pf) as (_ & TF2 & _).
  { intros step Hs. by rewrite S4. }
  split.
  - congruence.
  - unfold ids in *. congruence.
  - done.
  - destruct (SkipBuild opts); [by apply SB3|by apply SB1].
  - destruct D1 as [D1|[D1 ->]]; [left; by apply SD3|right]. split; [by apply SD1|].
    intros Hf%SB2%B3. done.
  - by apply SF1.
  - intros phase Hphase Hf. unfold pipelinePhases in Hphase.
    rewrite !elem_of_cons, elem_of_nil in Hphase. destruct Hphase as [->|[->|[->|[]]]].
    + apply SB2, B3 in Hf. destruct err2; [done|]. rewrite D3 in * by done.
      exfalso. assert (failed = false) as ?; [by apply B2|congruence].
    + apply SD2, D2 in Hf. by destruct err2.
    + apply SF2, F2 in Hf. destruct err2; done.
  - intros HA HBd He. destruct err2 as [e|].
    + destruct failed eqn:Ef.
      * exists PhaseBuild. split; [done|]. apply TB2. by apply B4.
      * exists PhaseDeploy. split; [done|]. apply TD2. by apply D4.
    + exists PhaseFinally. split; [done|]. apply TF2. by apply F2.
Qed.
End WholeRun.

(** C7: a phase runs its steps in dependency order.  When it returns, every step has ended: skipped
    exactly when a step it needs did not succeed or its condition is false, failed when its
    condition is invalid, otherwise succeeded or failed; the phase reports an error exactly when a
    step failed; and no task of a step was started unless all the steps it needs have succeeded. *)
Theorem runPhase_outcomes {X} (rt : Runtime X) plugins phase steps tmp vars complete s0 :
  (forall i s, framed i is_update true s (complete s)) ->
  well_keyed (st_runs s0) -> phase ∈ pipelinePhases -> ordered steps ->
  (forall step, step ∈ steps -> (phase, step_Name step) ∈ (run_key <$> st_runs s0)) ->
  let items := index_items (st_runs s0) in
  let '(s, err) := runPhase rt plugins items phase steps tmp vars complete s0 in
  phase_done items phase steps s /\ (err = None <-> ~ phase_failed items phase steps s) /\
  exists new, st_trace s = st_trace s0 ++ new /\ Forall (started_ready items phase steps s) new.
Proof.
  intros Hc Hw Hp Ho Hs items.
  pose proof (runPhase_spec rt plugins items phase tmp vars complete Hc steps s0
    (index_items_indexed phase _ steps Hw Hp Hs) Ho) as H.
  destruct (runPhase _ _ _ _ _ _ _ _ s0). tauto.
Qed.

(** ** From the plan to the run *)

(** Names and needs without variable references: rendering at run time keeps them. *)
Definition plain_step (step : Step) : Prop :=
  plain (chars (step_Name step)) /\ Forall (fun d => plain (chars d)) (step_Needs step).

Lemma renderStep_plain vars step :
  plain_step step ->
  step_Name (renderStep vars step) = step_Name step /\
  step_Needs (renderStep vars step) = step_Needs step.
Proof.
  intros [H1 H2]. simpl. split; [by apply RenderPipelineVars_plain|].
  unfold renderStringSlice. induction H2 as [|d l Hd _ IH]; simpl; [done|].
  rewrite RenderPipelineVars_plain by done. by f_equal.
Qed.

Lemma renderSteps_names vars steps :
  Forall plain_step steps -> step_Name <$> renderSteps steps vars = step_Name <$> steps.
Proof.
  induction 1 as [|step steps Hs _ IH]; [done|]. unfold renderSteps in *. rewrite !fmap_cons.
  by rewrite (proj1 (renderStep_plain vars step Hs)), IH.
Qed.

Lemma renderSteps_ordered vars all steps :
  Forall plain_step steps -> topological all steps -> ordered (renderSteps steps vars).
Proof.
  intros Hp (HP & _ & HN & Ho). split.
  - rewrite renderSteps_names by done. by rewrite HP.
  - intros i step Hi. unfold renderSteps in *. rewrite list_lookup_fmap in Hi.
    destruct (steps !! i) as [t|] eqn:Et; simplify_eq/=.
    assert (plain_step t) as Ht by (by eapply Forall_lookup_1).
    destruct (renderStep_plain vars t Ht) as [_ E]. simpl in E. rewrite E.
    rewrite <-fmap_take. fold (renderSteps (take i steps) vars).
    rewrite renderSteps_names by (by apply Forall_take). by apply Ho.
Qed.

Lemma step_skeletons roles hosts phases runs phase steps step :
  Forall2 (skeleton_of roles hosts) (planned phases) runs ->
  phase ∈ pipelinePhases -> phases !! phase = Some steps -> step ∈ steps ->
  (phase, step_Name step) ∈ (run_key <$> runs).
Proof.
  intros HF Hp Hs Hin. rewrite (Forall2_run_key _ _ _ _ HF).
  apply list_elem_of_fmap. exists (phase, step). split; [done|].
  unfold planned. apply list_elem_of_bind. exists phase. split; [|done].
  rewrite Hs. by apply list_elem_of_fmap_2.
Qed.

Lemma BuildPlan_well_keyed deploymentID p hosts plan run :
  BuildPlan deploymentID p hosts = Ok (plan, run) -> well_keyed (run_StepRuns run).
Proof.
  intros H. destruct (BuildPlan_inv _ _ _ _ _ H) as (H1 & H2 & _ & _ & _ & HF). split.
  - rewrite (Forall2_run_key _ _ _ _ HF). apply planned_NoDup. intros phase steps Hs.
    destruct (decide (phase ∈ pipelinePhases)) as [Hp|Hp]; [|by rewrite H2 in Hs].
    destruct (H1 phase Hp) as (steps' & Hs' & HT). simplify_eq.
    by eapply NoDup_names_topological.
  - assert (Forall (fun x => x.1 ∈ pipelinePhases) (planned (Phases plan))) as HP.
    { apply Forall_forall. intros x (phase & Hx & Hp)%list_elem_of_bind.
      by apply list_elem_of_fmap in Hx as (step & -> & _). }
    clear -HF HP. induction HF as [|x sr todo srs (targets & _ & ->) _ IH]; [constructor|].
    apply Forall_cons in HP as [Hx HP]. constructor; [done|by apply IH].
Qed.

(** What [RunWithOptions] returns when it has no directory to work in: the run has failed with the
    error, no step was touched and nothing was announced. *)
Record not_run {X} (run : Run) (e : engine_error) (s : St (X := X)) (r : Run)
    (err : option engine_error) : Prop := {
  nr_err : err = Some e;
  nr_status : run_Status r = RunStatusFailed;
  nr_steps : run_StepRuns r = run_StepRuns run /\ st_runs s = run_StepRuns run;
  nr_silent : st_trace s = [];
}.

(** C3: for a pipeline whose steps have no variable reference in their names and needs (with one, a
    step can be left without its skeleton: [dated_step_not_found]), a run of the built plan on its
    skeletons does the following.  When the temporary directory or the reserved directories cannot
    be created, the run fails with that error before any step and no phase is executed, not even
    finally.  Otherwise every step ends settled; the status is success exactly when no error is
    returned, an error is returned whenever a step failed, and without hooks only then; the deploy
    steps are all skipped unless the build went through; and the finally phase is executed whatever
    happened in the phases and hooks before it. *)
Theorem RunWithOptions_contract {X} (rt : Runtime X) plugins pf deploymentID p hosts plan run0 run
    opts x :
  BuildPlan deploymentID p hosts = Ok (plan, run0) ->
  run_StepRuns run = run_StepRuns run0 ->
  (forall phase, phase ∈ pipelinePhases -> Forall plain_step (stepsForPhase p phase)) ->
  let '(s, r, err) := RunWithOptions rt plugins pf plan run opts x in
  match pf_mkdirTemp pf (temp_prefix (run_DeploymentID run)), pf_mkdirAll pf with
  | None, _ => not_run run ErrTempDir s r err
  | Some _, false => not_run run ErrReservedDirs s r err
  | Some tmp, true =>
      contract (index_items (run_StepRuns run))
        (renderRuntimePlan plan (run_variables pf plan tmp)) (run_key <$> run_StepRuns run)
        opts s r err
  end.
Proof.
  intros HB Hruns Hplain.
  pose proof (BuildPlan_well_keyed _ _ _ _ _ HB) as Hw.
  destruct (BuildPlan_inv _ _ _ _ _ HB) as (H1 & _ & _ & _ & _ & HF).
  unfold RunWithOptions, now_ms. simpl. destruct (rt_now rt x) as [x1 now]. simpl.
  destruct (pf_mkdirTemp pf _) as [tmp|]; simpl.
  2: { destruct (rt_now rt x1). by split. }
  destruct (pf_mkdirAll pf); simpl.
  2: { destruct (rt_now rt x1). by split. }
  set (vars := run_variables pf plan tmp).
  assert (forall phase, phase ∈ pipelinePhases -> exists steps,
    Phases plan !! phase = Some steps /\ topological (stepsForPhase p phase) steps /\
    Forall plain_step steps /\
    phase_steps (renderRuntimePlan plan vars) phase = renderSteps steps vars) as Hph.
  { intros phase Hp. destruct (H1 phase Hp) as (steps & Hs & HT). exists steps.
    split_and!; [done|done| |].
    - specialize (Hplain phase Hp). destruct HT as [HP _]. by rewrite HP.
    - unfold phase_steps, renderRuntimePlan. simpl. by rewrite lookup_fmap, Hs. }
  assert (forall phase, phase ∈ pipelinePhases ->
    indexed (index_items (run_StepRuns run)) phase (run_key <$> run_StepRuns run)
      (phase_steps (renderRuntimePlan plan vars) phase)) as Hix.
  { intros phase Hp. rewrite Hruns. apply index_items_indexed; [done|done|].
    destruct (Hph phase Hp) as (steps & Hs & _ & Hpl & ->). intros step Hin.
    unfold renderSteps in Hin. apply list_elem_of_fmap in Hin as (t & -> & Ht).
    rewrite Forall_forall in Hpl. rewrite (proj1 (renderStep_plain vars t (Hpl t Ht))).
    by eapply step_skeletons. }
  assert (forall phase, phase ∈ pipelinePhases ->
    ordered (phase_steps (renderRuntimePlan plan vars) phase)) as Hord.
  { intros phase Hp. destruct (Hph phase Hp) as (steps & _ & HT & Hpl & ->).
    by eapply renderSteps_ordered. }
  fold vars.
  pose proof (stages_contract rt plugins _ _ _ Hix Hord opts tmp vars (with_started now run)
    (mkSt x1 [] (run_StepRuns run) []) eq_refl) as H.
  unfold with_x. simpl.
  destruct (build_stage _ _ _ _ _ _ _ _ _) as [[[s1 run1] failed] err1].
  destruct (deploy_stage _ _ _ _ _ _ _ _ _ _ s1) as [[s2 run2] err2].
  destruct (runPhase _ _ _ _ _ _ _ _ s2) as [s3 err3]. exact H.
Qed.

(** ** Retries *)

Lemma attempts_bounds step :
  (min_int64 <= step_Retries step <= max_int64)%Z ->
  (1 <= Z.of_nat (attempts step) <= Z.max 1 (step_Retries step + 1))%Z.
Proof.
  intros H. unfold attempts, wrap64. unfold min_int64, max_int64 in H.
  destruct (_ <? 1)%Z eqn:E; [lia|]. apply Z.ltb_ge in E. rewrite Z2Nat.id by lia.
  destruct (Z.eq_dec (step_Retries step) (2 ^ 63 - 1)%Z) as [Hm|Hne].
  { exfalso. rewrite Hm in E. by apply E. }
  rewrite Z.mod_small in * by lia. lia.
Qed.

(** One when there was no error. *)
Definition once (err : option exec_error) : nat := match err with None => 1 | Some _ => 0 end.

Lemma retry_loop_bounds {X} (rt : Runtime X) fn (calls successes : X -> nat) :
  (forall s, calls (st_x (fn s).1) = S (calls (st_x s))) ->
  (forall s, successes (st_x (fn s).1) = successes (st_x s) + once (fn s).2) ->
  (forall d x, calls (rt_wait rt d x).1 = calls x /\ successes (rt_wait rt d x).1 = successes x) ->
  forall delay n last s, (n = 0%nat -> last <> None) ->
  let '(s1, err) := exec (retry_loop rt delay fn n last) s in
  calls (st_x s1) <= calls (st_x s) + n /\
  successes (st_x s1) = successes (st_x s) + once err /\
  (err = None -> exists s2, fn s2 = (s1, None)).
Proof.
  intros Hfn Hok Hwait delay.
  induction n as [|n IH]; intros last s0 Hl; simpl.
  { destruct last; [|by destruct Hl]. simpl. split_and!; [lia|lia|done]. }
  destruct (rt_ctxErr rt (st_x s0)) as [e|]; simpl; [split_and!; [lia|lia|done]|].
  pose proof (Hfn s0) as Hc. pose proof (Hok s0) as Ho.
  destruct (fn s0) as [s1 [e|]] eqn:Ef; simpl in *.
  2: { split_and!; [lia|lia|]. intros _. by exists s0. }
  assert (let '(s2, err) := exec (retry_loop rt delay fn n (Some e)) s1 in
    calls (st_x s2) <= calls (st_x s0) + S n /\
    successes (st_x s2) = successes (st_x s0) + once err /\
    (err = None -> exists s3, fn s3 = (s2, None))) as Hnow.
  { specialize (IH (Some e) s1 ltac:(done)). destruct (exec _ s1) as [s2 err].
    destruct IH as (? & ? & ?). split_and!; [lia|lia|done]. }
  destruct (n =? 0)%nat; simpl; [exact Hnow|]. destruct (delay <=? 0)%Z; [exact Hnow|]. clear Hnow.
  simpl. destruct (Hwait delay (st_x s1)) as [Hw1 Hw2].
  destruct (rt_wait rt _ (st_x s1)) as [x2 [c|]]; simpl in *; [split_and!; [lia|lia|done]|].
  specialize (IH (Some e) (with_x x2 s1) ltac:(done)).
  destruct (exec _ (with_x x2 s1)) as [s2 err]. simpl in *. destruct IH as (? & ? & ?).
  split_and!; [lia|lia|done].
Qed.

(** C19: a plugin is called at most [max 1 (retries + 1)] times for a task, also when the sum
    overflows.  The task succeeds exactly when one of the calls did, there is never more than one
    successful call, and it is the last thing the task does: a success ends the retries at once.
    When the context is already cancelled the plugin is not called at all.  ([calls] counts the
    calls of the plugin and [successes] those without error; waiting changes neither.) *)
Theorem executeWithRetries_bounds {X} (rt : Runtime X) step fn (calls successes : X -> nat) s :
  (min_int64 <= step_Retries step <= max_int64)%Z ->
  (forall s, calls (st_x (fn s).1) = S (calls (st_x s))) ->
  (forall s, successes (st_x (fn s).1) = successes (st_x s) + once (fn s).2) ->
  (forall d x, calls (rt_wait rt d x).1 = calls x /\ successes (rt_wait rt d x).1 = successes x) ->
  let '(s1, err) := exec (executeWithRetries rt step fn) s in
  (Z.of_nat (calls (st_x s1)) <=
     Z.of_nat (calls (st_x s)) + Z.max 1 (step_Retries step + 1))%Z /\
  successes (st_x s1) = successes (st_x s) + once err /\
  (err = None -> exists s2, fn s2 = (s1, None)) /\
  (forall e, rt_ctxErr rt (st_x s) = Some e -> s1 = s /\ err = Some e).
Proof.
  intros Hr Hfn Hok Hwait. pose proof (attempts_bounds step Hr) as Ha.
  pose proof (retry_loop_bounds rt fn calls successes Hfn Hok Hwait
    (retryDelay rt (step_RetryDelay step)) (attempts step) None s ltac:(lia)) as H.
  unfold executeWithRetries. destruct (exec _ s) as [s' err] eqn:E. destruct H as (H1 & H2 & H3).
  split_and!; [lia|done|done|].
  intros e He. destruct (attempts step) as [|n]; [lia|]. simpl in E. rewrite He in E.
  simpl in E. by simplify_eq.
Qed.

(** Under a cancelled context a task ends without a call to its plugin: the plugin is irrelevant.
    This holds for the finally phase as for the others. *)
Lemma executeOneTask_cancelled {X} (rt : Runtime X) pl1 pl2 step i j targets target tmp vars s e :
  (forall x, rt_ctxErr rt x = Some e) ->
  exec (executeOneTask rt pl1 step i j targets target tmp vars) s =
  exec (executeOneTask rt pl2 step i j targets target tmp vars) s /\
  (exec (executeOneTask rt pl1 step i j targets target tmp vars) s).2 = Some e.
Proof.
  intros Hc. unfold executeOneTask, executeWithRetries. cbn [exec].
  assert (exists n, attempts step = S n) as [n ->].
  { unfold attempts. destruct (_ <? 1)%Z eqn:E; [by exists 0%nat|].
    apply Z.ltb_ge in E. exists (Z.to_nat (wrap64 (step_Retries step + 1)) - 1)%nat. lia. }
  cbn [retry_loop then_do exec]. rewrite Hc. done.
Qed.

(** ** Batches *)

(** The batches of a step of [len] tasks are consecutive, hold at most [limit] tasks each and
    cover every task exactly once. *)
Theorem batches_cover limit len :
  0 < limit ->
  concat (batches len limit 0 len) = seq 0 len /\
  Forall (fun b => 0 < length b <= limit) (batches len limit 0 len).
Proof.
  intros Hl.
  assert (forall fuel start, len - start <= fuel -> start <= len ->
    concat (batches fuel limit start len) = seq start (len - start) /\
    Forall (fun b => 0 < length b <= limit) (batches fuel limit start len)) as H.
  2: { destruct (H len 0) as [H1 H2]; [lia..|]. by rewrite Nat.sub_0_r in H1. }
  induction fuel as [|fuel IH]; intros start Hf Hs.
  { replace (len - start) with 0%nat by lia. by split. }
  cbn [batches]. destruct (Nat.ltb_spec start len) as [Hlt|Hge].
  2: { replace (len - start) with 0%nat by lia. by split. }
  destruct (decide (start + limit <= len)) as [Hle|Hgt].
  - destruct (IH (start + limit)) as [H1 H2]; [lia..|]. split.
    + simpl. rewrite H1, Nat.min_l by lia.
      replace (len - start) with (limit + (len - (start + limit))) by lia.
      rewrite seq_app. f_equal. f_equal. lia.
    + constructor; [rewrite length_seq; lia|done].
  - assert (batches fuel limit (start + limit) len = []) as ->.
    { destruct fuel; [done|]. cbn [batches].
      destruct (Nat.ltb_spec (start + limit) len); [lia|done]. }
    split; [simpl; rewrite app_nil_r; f_equal; lia|].
    constructor; [rewrite length_seq; lia|constructor].
Qed.

(** ** Examples: a world that counts what happens in it, and a plugin that
    fails on the step [test] *)

Definition example_runtime : Runtime nat :=
  {| rt_now x := (S x, Z.of_nat x); rt_ctxErr _ := None; rt_wait _ x := (x, None);
     rt_schedule _ := []; rt_parseDuration _ := None |}.

Definition example_failure : exec_error := {| ee_msg := "boom"; ee_exit := Some 2%Z |}.

Definition example_plugin : StepPlugin nat :=
  {| pg_Name := "local_command"; pg_Validate _ := None; pg_ValidateTargets := None;
     pg_Execute _ step _ x :=
       (S x, [], if (step_Name step =? "test")%string then Some example_failure else None) |}.

Definition example_plugins : gmap string (StepPlugin nat) := {["local_command" := example_plugin]}.

Definition example_pipeline_run : Pipeline :=
  {| pl_Variables := ∅; pl_Roles := ∅; pl_Build := example_phase;
     pl_Deploy := [example_step "push" [] []]; pl_Finally := [example_step "clean" [] []] |}.

Definition example_platform : Platform :=
  {| pf_mkdirTemp prefix := Some "/tmp/run"; pf_mkdirAll := true; pf_join := example_join;
     pf_date := "20260101"; pf_clock := "120000"; pf_order _ := [] |}.

Definition example_plan : Plan :=
  match BuildPlan "d1" example_pipeline_run [] with
  | Ok (plan, _) => plan
  | Err _ => {| Phases := ∅; Variables := ∅ |}
  end.

Definition example_run : Run :=
  match BuildPlan "d1" example_pipeline_run [] with
  | Ok (_, run) => run
  | Err _ => with_run "" [] 0 0
      {| run_ID := ""; run_ProjectID := ""; run_PipelineID := ""; run_EnvName := "";
         run_DeploymentID := ""; run_ArtifactVersion := ""; run_Status := ""; run_StepRuns := [];
         run_StartedAt := 0; run_FinishedAt := 0 |}
  end.

Definition no_options : RunOptions (X := nat) :=
  {| SkipBuild := false; AfterBuild := None; BeforeDeploy := None; OnRunUpdate := false |}.

Lemma example_plain phase :
  phase ∈ pipelinePhases -> Forall plain_step (stepsForPhase example_pipeline_run phase).
Proof.
  unfold pipelinePhases. rewrite !elem_of_cons, elem_of_nil.
  intros [->|[->|[->|[]]]]; repeat constructor;
    apply (bool_decide_eq_true_1 (_ ∉ _)); by vm_compute.
Qed.

Lemma RunWithOptions_contract_witness :
  let '(s, r, err) :=
    RunWithOptions example_runtime example_plugins example_platform example_plan example_run
      no_options 0%nat in
  contract (index_items (run_StepRuns example_run))
    (renderRuntimePlan example_plan (run_variables example_platform example_plan "/tmp/run"))
    (run_key <$> run_StepRuns example_run) no_options s r err /\
  err = Some (ErrStepFailed "test" example_failure) /\
  ((fun sr => (sr_StepName sr, sr_Status sr)) <$> run_StepRuns r) =
    [("build", "success"); ("test", "failed"); ("pack", "skipped"); ("push", "skipped");
     ("clean", "success")].
Proof.
  pose proof (RunWithOptions_contract example_runtime example_plugins example_platform "d1"
    example_pipeline_run [] example_plan example_run example_run no_options 0%nat
    ltac:(by vm_compute) eq_refl example_plain) as H.
  revert H. destruct (RunWithOptions _ _ _ _ _ _ _) as [[s r] err] eqn:E. intros H.
  split; [exact H|]. vm_compute in E. injection E as <- <- <-. by vm_compute.
Defined.

Definition example_start : St (X := nat) := mkSt 0%nat [] (run_StepRuns example_run) [].

Lemma runPhase_outcomes_witness :
  let '(s, err) := runPhase example_runtime example_plugins
    (index_items (st_runs example_start)) PhaseBuild
    (phase_steps example_plan PhaseBuild) "/tmp/run" ∅ (fun s => s) example_start in
  phase_done (index_items (st_runs example_start)) PhaseBuild
    (phase_steps example_plan PhaseBuild) s /\
  status_of (index_items (st_runs example_start)) PhaseBuild s "pack" = Some StatusSkipped.
Proof.
  assert (BuildPlan "d1" example_pipeline_run [] = Ok (example_plan, example_run)) as HB
    by (by vm_compute).
  destruct (BuildPlan_inv _ _ _ _ _ HB) as (H1 & _ & _ & _ & _ & HF).
  assert (PhaseBuild ∈ pipelinePhases) as Hp by (by left).
  destruct (H1 PhaseBuild Hp) as (steps & Hs & HT).
  assert (phase_steps example_plan PhaseBuild = steps) as Es
    by (unfold phase_steps; by rewrite Hs).
  pose proof (runPhase_outcomes example_runtime example_plugins PhaseBuild
    (phase_steps example_plan PhaseBuild) "/tmp/run" ∅ (fun s => s) example_start) as H.
  cbv zeta in H. specialize (H ltac:(reflexivity) (BuildPlan_well_keyed _ _ _ _ _ HB) Hp).
  assert (ordered (phase_steps example_plan PhaseBuild)) as Ho.
  { rewrite Es. split; [by eapply NoDup_names_topological|]. by destruct HT as (_ & _ & _ & ?). }
  assert (forall step, step ∈ phase_steps example_plan PhaseBuild ->
    (PhaseBuild, step_Name step) ∈ (run_key <$> st_runs example_start)) as Hsk
    by (rewrite Es; intros step Hin; by eapply step_skeletons).
  specialize (H Ho).
  specialize (H Hsk). revert H.
  destruct (runPhase _ _ _ _ _ _ _ _ _) as [s err] eqn:E. intros (Hd & _).
  split; [exact Hd|]. vm_compute in E. injection E as <- <-. by vm_compute.
Defined.

Definition counting (s : St (X := nat)) : St (X := nat) * option exec_error :=
  (with_x (S (st_x s)) s, Some example_failure).

Definition retried_step : Step :=
  {| step_Name := "test"; step_Type := "local_command"; step_Needs := []; step_Roles := [];
     step_RunIf := ""; step_Concurrency := ""; step_Retries := 2; step_RetryDelay := "";
     step_With := [] |}.

Lemma executeWithRetries_bounds_witness :
  let '(s', err) := exec (executeWithRetries example_runtime retried_step counting) example_start in
  (Z.of_nat (st_x s') <= 0 + Z.max 1 3)%Z /\ st_x s' = 3%nat /\ err = Some example_failure.
Proof.
  pose proof (executeWithRetries_bounds example_runtime retried_step counting (fun x => x)
    (fun _ => 0%nat) example_start ltac:(by vm_compute) ltac:(done) ltac:(done) ltac:(done)) as H.
  destruct (exec _ example_start) as [s' err] eqn:E. destruct H as [H _].
  split; [exact H|]. vm_compute in E. injection E as <- <-. done.
Defined.

Lemma batches_cover_witness :
  concat (batches 5 2 0 5) = seq 0 5 /\ batches 5 2 0 5 = [[0; 1]; [2; 3]; [4]]%nat.
Proof. split; [|done]. apply (batches_cover 2 5). lia. Defined.

(** A step whose name refers to a run-time variable passes planning and static validation, but its
    skeleton keeps the unrendered name, so that the run fails on a missing skeleton. *)
Definition dated_pipeline : Pipeline :=
  {| pl_Variables := ∅; pl_Roles := ∅; pl_Build := [example_step "pack-${date}" [] []];
     pl_Deploy := []; pl_Finally := [] |}.

Lemma dated_step_not_found :
  exists plan run, BuildPlan "d1" dated_pipeline [] = Ok (plan, run) /\
    ValidatePlan example_plugins plan run = None /\
    (RunWithOptions example_runtime example_plugins example_platform plan run no_options 0%nat).2 =
      Some (ErrNoSkeleton PhaseBuild "pack-20260101").
Proof. do 2 eexists. split; [by vm_compute|]. split; by vm_compute. Qed.

(** Two tasks of a parallel step, their actions interleaved by the schedule. *)
Definition interleaved : Runtime nat :=
  {| rt_now x := (S x, Z.of_nat x); rt_ctxErr _ := None; rt_wait _ x := (x, None);
     rt_schedule _ := [0; 1; 0; 1; 0; 1; 0; 1]%nat; rt_parseDuration _ := None |}.

Definition two_hosts : St (X := nat) :=
  mkSt 0%nat [] [{| sr_StepName := "push"; sr_Type := "local_command"; sr_Phase := PhaseDeploy;
                    sr_Needs := []; sr_Status := StatusPending;
                    sr_Tasks := [pending_task "h1" "" ""; pending_task "h2" "" ""] |}] [].

Example interleaving_ex :
  omap (fun o => match o with Emit e => Some (e_Type e, e_HostID e) | Update _ => None end)
    (st_trace (executeTaskBatch interleaved example_plugin (example_step "push" [] ["web"]) 0
                 [0; 1]%nat "/tmp" ∅ two_hosts).1) =
  [(EventTaskStarted, "h1"); (EventTaskStarted, "h2"); (EventTaskFinished, "h1");
   (EventTaskFinished, "h2")].
Proof. by vm_compute. Qed.
