(* ===== verification/PipelineTasks.v ===== *)
(** * The tasks of a step

    Rely-guarantee reasoning on the concurrent programs of [PipelineEngine], and
    what it shows: whatever the interleaving, every task of a batch is finished
    when the batch returns, and a step that succeeds has only successful tasks. *)
From stdpp Require Import base list strings gmap.
From Stdlib Require Import Lia.
From S2P Require Import Prelude Model PipelinePlan PipelineVars PipelineEngine PipelineRun.
Local Open Scope string_scope.
Local Open Scope list_scope.

(** ** Rely and guarantee *)

Section RelyGuarantee.
Context {X : Type}.
Abbreviation S := (St (X := X)).

Definition stable (R : S -> S -> Prop) (P : S -> Prop) : Prop :=
  forall s s', R s s' -> P s -> P s'.

(** [holds R G P p Q]: started where [P] holds, with interference in [R], the actions of [p]
    stay in [G], and where [p] ends with [r], [Q r] holds. *)
Inductive holds (R G : S -> S -> Prop) :
    (S -> Prop) -> prog (X := X) -> (option exec_error -> S -> Prop) -> Prop :=
| holds_done P r (Q : option exec_error -> S -> Prop) :
    stable R P -> (forall s, P s -> Q r s) -> holds R G P (Done r) Q
| holds_atom P f (Q : option exec_error -> S -> Prop) (P' : S -> S -> Prop) :
    stable R P -> (forall s, P s -> G s (f s).1) -> (forall s, P s -> P' s (f s).1) ->
    (forall s, P s -> holds R G (P' s) (f s).2 Q) -> holds R G P (Atom f) Q.

Lemma holds_stable R G P p Q : holds R G P p Q -> stable R P.
Proof. by destruct 1. Qed.

Lemma holds_weaken R G (P1 P2 : S -> Prop) p Q :
  holds R G P1 p Q -> stable R P2 -> (forall s, P2 s -> P1 s) -> holds R G P2 p Q.
Proof.
  intros [P r Q0 Hs HQ|P f Q0 P' Hs HG HP Hk] H2 H.
  - constructor; auto.
  - apply (holds_atom _ _ _ _ _ P'); auto.
Qed.

Lemma holds_then R G P p Q k Q' :
  holds R G P p Q -> (forall r, holds R G (Q r) (k r) Q') -> holds R G P (then_do p k) Q'.
Proof.
  intros Hp Hk. induction Hp as [P r Q Hs HQ|P f Q P' Hs HG HP _ IH]; simpl.
  - by apply (holds_weaken R G (Q r) P).
  - apply (holds_atom _ _ _ _ _ P'); try done; intros s Hps;
      specialize (HG s Hps); specialize (HP s Hps); specialize (IH s Hps Hk);
      by destruct (f s).
Qed.

Lemma holds_mono R G (R' G' : S -> S -> Prop) P p Q :
  holds R G P p Q -> (forall s s', R' s s' -> R s s') -> (forall s s', G s s' -> G' s s') ->
  holds R' G' P p Q.
Proof.
  intros Hp HR HG.
  induction Hp as [P r Q Hs HQ|P f Q P' Hs HGf HP _ IH].
  - constructor; [|done]. intros s s' H. apply Hs. by apply HR.
  - apply (holds_atom _ _ _ _ _ P'); auto. intros s s' H. apply Hs. by apply HR.
Qed.

(** A program that keeps to [G] holds with trivial conditions. *)
Lemma holds_safe R G p : safe G p -> holds R G (fun _ => True) p (fun _ _ => True).
Proof.
  induction 1 as [r|f Hf _ IH]; [by constructor|].
  by apply (holds_atom _ _ _ _ _ (fun _ _ => True)).
Qed.

Lemma holds_exec R G P p Q s :
  holds R G P p Q -> P s -> Q (exec p s).2 (exec p s).1.
Proof.
  intros Hp. revert s; induction Hp as [P r Q _ HQ|P f Q P' _ _ HP _ IH]; intros s Hs; simpl;
    [by apply HQ|].
  specialize (HP s Hs). specialize (IH s Hs). destruct (f s) as [s' p]. by apply IH.
Qed.

(** Programs side by side: each guarantee is within the rely of the others. *)
Context (R G : nat -> S -> S -> Prop) (Q : nat -> S -> Prop).
Context (HRG : forall j k s s', j <> k -> G k s s' -> R j s s').

Definition running (ps : list (prog (X := X))) (s : S) : Prop :=
  forall k p, ps !! k = Some p ->
    exists P, P s /\ holds (R k) (G k) P p (fun _ => Q k).

Lemma running_step ps s k f :
  running ps s -> ps !! k = Some (Atom f) -> running (<[k := (f s).2]> ps) (f s).1.
Proof using HRG.
  intros Hr Hk. destruct (Hr k _ Hk) as (P & HP & Hh).
  inversion Hh as [|? ? ? P' Hs HG HP' Hk']; subst.
  intros j p Hj. destruct (decide (j = k)) as [->|Hne].
  - rewrite list_lookup_insert_eq in Hj by (by eapply lookup_lt_Some). simplify_eq.
    exists (P' s). auto.
  - rewrite list_lookup_insert_ne in Hj by done. destruct (Hr j p Hj) as (Pj & HPj & Hhj).
    exists Pj. split; [|done]. eapply (holds_stable _ _ _ _ _ Hhj); [|done].
    eapply HRG; [done|]. by apply HG.
Qed.

Lemma running_exec ps s k p :
  running ps s -> ps !! k = Some p -> running (<[k := Done (exec p s).2]> ps) (exec p s).1.
Proof using HRG.
  intros Hr Hk. destruct (Hr k p Hk) as (P & HP & Hh). revert ps s Hr Hk HP.
  remember (fun _ : option exec_error => Q k) as Qk eqn:EQ.
  induction Hh as [P r Q0 Hs HQ|P f Q0 P' Hs HG HP' _ IH]; intros ps s Hr Hk HPs; simpl.
  - by rewrite list_insert_id.
  - pose proof (running_step ps s k f Hr Hk) as Hr'. specialize (HP' s HPs).
    specialize (IH s HPs EQ (<[k := (f s).2]> ps)). destruct (f s) as [s' p]. simpl in *.
    assert (k < length ps) as Hlt by (by eapply lookup_lt_Some).
    specialize (IH s' Hr'). rewrite list_lookup_insert_eq, list_insert_insert_eq in IH by done.
    by apply IH.
Qed.

Lemma running_finish done_ rest s :
  running (done_ ++ rest) s -> Forall (fun p => exists r, p = Done r) done_ ->
  exists ds, running ds (foldl (fun s p => (exec p s).1) s rest) /\
    length ds = length (done_ ++ rest) /\ Forall (fun p => exists r, p = Done r) ds.
Proof using HRG.
  revert done_ s; induction rest as [|p rest IH]; intros done_ s Hr Hd; simpl.
  { exists done_. rewrite app_nil_r in *. done. }
  assert ((done_ ++ p :: rest) !! length done_ = Some p) as Hk by (by apply list_lookup_middle).
  pose proof (running_exec _ _ _ _ Hr Hk) as Hr'.
  rewrite (insert_app_r_alt _ _ (length done_)), Nat.sub_diag in Hr' by done. simpl in Hr'.
  rewrite (cons_middle (Done (exec p s).2)), app_assoc in Hr'.
  destruct (IH _ _ Hr') as (ds & H1 & H2 & H3); [apply Forall_app; split; [done|]|].
  { repeat constructor. by eexists. }
  exists ds. split_and!; [done| |done]. rewrite H2, !length_app. simpl. lia.
Qed.

(** Every program ends, and its condition holds in the end. *)
Lemma par_holds sched ps s :
  running ps s -> forall k, k < length ps -> Q k (par sched ps s).
Proof using HRG.
  revert ps s; induction sched as [|n sched IH]; intros ps s Hr k Hk; simpl.
  - destruct (running_finish [] ps s Hr) as (ds & H1 & H2 & H3); [constructor|].
    simpl in H2. destruct (lookup_lt_is_Some_2 ds k) as [p Hp]; [lia|].
    destruct (H1 k p Hp) as (P & HP & Hh).
    destruct (Forall_lookup_1 _ _ _ _ H3 Hp) as [r ->].
    inversion Hh; subst. auto.
  - destruct (ps !! (n mod length ps)) as [[r|f]|] eqn:E; try by apply IH.
    pose proof (running_step ps s _ f Hr E) as Hr'. destruct (f s) as [s' p]. simpl in *.
    apply IH; [done|]. by rewrite length_insert.
Qed.
End RelyGuarantee.

(** ** The tasks of step run [i] *)

Section Tasks.
Context {X : Type} (rt : Runtime X) (plugins : gmap string (StepPlugin X)) (i : nat).
Abbreviation S := (St (X := X)).
Implicit Types s : S.

Definition task_state (j : nat) (s : S) : option RunStatus :=
  task_Status <$> sr_Tasks (step_run i s) !! j.

Definition task_count (s : S) : nat := length (sr_Tasks (step_run i s)).

(** Errors of the batch are only added. *)
Definition more_errs (s s' : S) : Prop := exists extra, st_errs s' = st_errs s ++ extra.

(** Task [j] keeps to itself: the other tasks keep their statuses. *)
Definition task_guarantee (j : nat) (s s' : S) : Prop :=
  (forall k, k <> j -> task_state k s' = task_state k s) /\
  task_count s' = task_count s /\ more_errs s s'.

Definition task_rely (j : nat) (s s' : S) : Prop :=
  task_state j s' = task_state j s /\ task_count s' = task_count s /\ more_errs s s'.

#[global] Instance more_errs_preorder : PreOrder more_errs.
Proof.
  split; [intros s; exists []; by rewrite app_nil_r|].
  intros s1 s2 s3 [e1 H1] [e2 H2]. exists (e1 ++ e2). by rewrite H2, H1, app_assoc.
Qed.

Lemma more_errs_same s s' : st_errs s' = st_errs s -> more_errs s s'.
Proof. intros E. exists []. by rewrite E, app_nil_r. Qed.

#[global] Instance task_guarantee_preorder j : PreOrder (task_guarantee j).
Proof.
  split; [intros s; split_and!; try done; reflexivity|].
  intros s1 s2 s3 (A1 & A2 & A3) (B1 & B2 & B3). split_and!.
  - intros k Hk. by rewrite B1, A1.
  - congruence.
  - by etransitivity.
Qed.

Lemma guarantee_rely j k s s' : j <> k -> task_guarantee k s s' -> task_rely j s s'.
Proof. intros Hjk (A1 & A2 & A3). split_and!; auto. Qed.

Lemma guarantee_silent j s s' :
  st_runs s' = st_runs s -> more_errs s s' -> task_guarantee j s s'.
Proof.
  intros H1 H2. unfold task_guarantee, task_state, task_count, step_run. by rewrite H1.
Qed.

Lemma step_run_on_task j f s :
  sr_Tasks (step_run i (on_task i j f s)) = alter f j (sr_Tasks (step_run i s)).
Proof.
  unfold step_run. simpl. rewrite list_lookup_alter_eq. by destruct (st_runs s !! i).
Qed.

Lemma task_state_on_task j f s :
  task_state j (on_task i j f s) = (fun t => task_Status (f t)) <$> sr_Tasks (step_run i s) !! j.
Proof.
  unfold task_state. rewrite step_run_on_task, list_lookup_alter_eq.
  by destruct (sr_Tasks (step_run i s) !! j).
Qed.

Lemma guarantee_on_task j f s : task_guarantee j s (on_task i j f s).
Proof.
  split_and!; [|unfold task_count; by rewrite step_run_on_task, length_alter|by apply more_errs_same].
  intros k Hk. unfold task_state. by rewrite step_run_on_task, list_lookup_alter_ne.
Qed.

Lemma now_runs s : st_runs (now_ms rt s).1 = st_runs s /\ st_errs (now_ms rt s).1 = st_errs s.
Proof. unfold now_ms. by destruct (rt_now rt (st_x s)). Qed.

Lemma guarantee_now j s : task_guarantee j s (now_ms rt s).1.
Proof.
  destruct (now_runs s) as [H1 H2]. apply guarantee_silent; [done|]. by apply more_errs_same.
Qed.

Lemma guarantee_say j o s : task_guarantee j s (say o s).
Proof. apply guarantee_silent; [done|]. by apply more_errs_same. Qed.

Lemma startTask_guarantee j s : task_guarantee j s (startTask rt i j s).
Proof.
  unfold startTask. pose proof (guarantee_now j s) as H. destruct (now_ms rt s) as [s1 now].
  etransitivity; [exact H|]. etransitivity; [apply guarantee_on_task|apply guarantee_say].
Qed.

Lemma finishTask_guarantee j st s : task_guarantee j s (finishTask rt i j st s).
Proof.
  unfold finishTask. pose proof (guarantee_now j s) as H. destruct (now_ms rt s) as [s1 now].
  etransitivity; [exact H|]. etransitivity; [apply guarantee_on_task|apply guarantee_say].
Qed.

Lemma finishTask_state j st s :
  j < task_count s -> task_state j (finishTask rt i j st s) = Some st.
Proof.
  intros Hj. unfold finishTask. pose proof (now_runs s) as [H _].
  destruct (now_ms rt s) as [s1 now]. simpl in H.
  assert (task_state j (on_task i j (set_task_finished st now) s1) = Some st) as E; [|exact E].
  rewrite task_state_on_task. unfold step_run. rewrite H. fold (step_run i s).
  destruct (lookup_lt_is_Some_2 _ _ Hj) as [t ->]. done.
Qed.

Lemma log_lines_guarantee j step target lines s :
  task_guarantee j s (foldl (log_line rt step target) s lines).
Proof.
  revert s; induction lines as [|l lines IH]; intros s; simpl; [reflexivity|].
  etransitivity; [|apply IH]. unfold log_line. pose proof (guarantee_now j s) as H.
  destruct (now_ms rt s) as [s1 now]. etransitivity; [exact H|apply guarantee_say].
Qed.

Lemma call_plugin_guarantee j plugin ctx step targets s :
  task_guarantee j s (call_plugin rt plugin ctx step targets s).1.
Proof.
  unfold call_plugin. destruct (pg_Execute _ _ _ _ _) as [[x lines] err]. simpl.
  etransitivity; [|apply log_lines_guarantee]. apply guarantee_silent; [done|]. by apply more_errs_same.
Qed.

(** Where task [j] stands when its program ends with [r]. *)
Definition task_result (j : nat) (r : option exec_error) (s : S) : Prop :=
  task_state j s = Some (match r with None => StatusSuccess | Some _ => RunStatusFailed end).

Definition in_range (j : nat) (s : S) : Prop := j < task_count s.

Lemma in_range_stable j k : stable (task_rely k) (in_range j).
Proof. intros s s' (_ & E & _) H. unfold in_range. by rewrite E. Qed.

Lemma task_result_stable j r : stable (task_rely j) (task_result j r).
Proof. intros s s' (E & _) H. unfold task_result. by rewrite E. Qed.

Lemma holds_in_range j p :
  safe (task_guarantee j) p ->
  holds (task_rely j) (task_guarantee j) (in_range j) p (fun _ => in_range j).
Proof.
  induction 1 as [r|f Hf _ IH]; [by constructor; [apply in_range_stable|]|].
  apply (holds_atom _ _ _ _ _ (fun _ => in_range j)); [apply in_range_stable|auto| |auto].
  intros s Hs. destruct (Hf s) as (_ & E & _). unfold in_range. by rewrite E.
Qed.

Lemma executeOneTask_holds plugin step j targets target tmp vars :
  holds (task_rely j) (task_guarantee j) (in_range j)
    (executeOneTask rt plugin step i j targets target tmp vars) (task_result j).
Proof.
  apply (holds_atom _ _ _ _ _ (fun _ => in_range j)); [apply in_range_stable|..].
  - intros s _. apply startTask_guarantee.
  - intros s Hs. destruct (startTask_guarantee j s) as (_ & E & _). unfold in_range. simpl.
    by rewrite E.
  - intros s _. simpl. eapply holds_then.
    + apply holds_in_range, retry_loop_safe; [apply _|..].
      * intros s1. apply call_plugin_guarantee.
      * intros s1 x. apply guarantee_silent; [done|]. by apply more_errs_same.
    + intros [e|]; simpl.
      * apply (holds_atom _ _ _ _ _ (fun _ => task_result j (Some e))); [apply in_range_stable|..].
        -- intros s1 _. simpl. etransitivity; [apply guarantee_on_task|apply finishTask_guarantee].
        -- intros s1 Hs1. simpl. apply finishTask_state.
           destruct (guarantee_on_task j (set_task_exit (exitCodeFromError e)) s1) as (_ & E & _).
           by rewrite E.
        -- intros s1 _. constructor; [apply task_result_stable|done].
      * apply (holds_atom _ _ _ _ _ (fun _ => task_result j None)); [apply in_range_stable|..].
        -- intros s1 _. apply finishTask_guarantee.
        -- intros s1 Hs1. by apply finishTask_state.
        -- intros s1 _. constructor; [apply task_result_stable|done].
Qed.

(** A finished task of a batch: it succeeded, or it failed and left an error. *)
Definition batch_result (j : nat) (s : S) : Prop :=
  task_state j s = Some StatusSuccess \/
  (task_state j s = Some RunStatusFailed /\ st_errs s <> []).

Lemma batch_result_stable j : stable (task_rely j) (batch_result j).
Proof.
  intros s s' (E & _ & [extra Ee]) [H|[H1 H2]]; [left; congruence|right; split; [congruence|]].
  rewrite Ee. by destruct (st_errs s).
Qed.

Lemma batch_task_holds plugin step tmp vars s0 j :
  holds (task_rely j) (task_guarantee j) (in_range j)
    (batch_task rt plugin step i tmp vars s0 j) (fun _ => batch_result j).
Proof.
  unfold batch_task. eapply holds_then; [apply executeOneTask_holds|]. intros [e|]; simpl.
  - apply (holds_atom _ _ _ _ _ (fun _ => batch_result j)); [apply task_result_stable|..].
    + intros s _. apply guarantee_silent; [done|]. by exists [e].
    + intros s Hs. right. split; [exact Hs|]. simpl. by destruct (st_errs s).
    + intros s _. constructor; [apply batch_result_stable|done].
  - constructor; [apply task_result_stable|]. intros s Hs. by left.
Qed.

Lemma executeOneTask_guarantee plugin step j targets target tmp vars :
  safe (task_guarantee j) (executeOneTask rt plugin step i j targets target tmp vars).
Proof.
  constructor; intros s; [apply startTask_guarantee|]. simpl. apply then_do_safe; [apply _|..].
  - apply retry_loop_safe; [apply _|..].
    + intros s1. apply call_plugin_guarantee.
    + intros s1 x. apply guarantee_silent; [done|]. by apply more_errs_same.
  - intros [e|]; (constructor; intros s1; simpl; [|constructor]); [|apply finishTask_guarantee].
    etransitivity; [apply guarantee_on_task|apply finishTask_guarantee].
Qed.

Lemma batch_task_guarantee plugin step tmp vars s0 j :
  safe (task_guarantee j) (batch_task rt plugin step i tmp vars s0 j).
Proof.
  apply then_do_safe; [apply _|apply executeOneTask_guarantee|].
  intros [e|]; constructor; intros s; [|constructor].
  apply guarantee_silent; [done|]. by exists [e].
Qed.

(** Only the tasks [indexes] may have changed. *)
Definition only (indexes : list nat) (s s' : S) : Prop :=
  (forall j, j ∉ indexes -> task_state j s' = task_state j s) /\ task_count s' = task_count s.

#[global] Instance only_preorder indexes : PreOrder (only indexes).
Proof.
  split; [by intros s|]. intros s1 s2 s3 [A1 A2] [B1 B2]. split; [|congruence].
  intros j Hj. by rewrite B1, A1.
Qed.

Lemma guarantee_only indexes j s s' : j ∈ indexes -> task_guarantee j s s' -> only indexes s s'.
Proof.
  intros Hj (H1 & H2 & _). split; [|done]. intros k Hk. apply H1. by intros ->.
Qed.

Lemma safe_weaken (R1 R2 : S -> S -> Prop) p :
  (forall s s', R1 s s' -> R2 s s') -> safe R1 p -> safe R2 p.
Proof. intros HR. induction 1; constructor; auto. Qed.

Lemma par_batch sched plugin step tmp vars s0 indexes s :
  NoDup indexes -> (forall j, j ∈ indexes -> in_range j s) ->
  let s' := par sched (batch_task rt plugin step i tmp vars s0 <$> indexes) s in
  only indexes s s' /\ forall j, j ∈ indexes -> batch_result j s'.
Proof.
  intros HN Hrange. split.
  - apply par_safe; [apply _|]. apply Forall_fmap, Forall_forall. intros j Hj.
    eapply safe_weaken; [|apply batch_task_guarantee]. intros s1 s2. by apply guarantee_only.
  - intros j Hj. apply list_elem_of_lookup in Hj as [k Hk].
    set (at_ k (P : nat -> Prop) := match indexes !! k with Some j => P j | None => True end).
    pose proof (par_holds
      (fun k s s' => at_ k (fun j => task_rely j s s'))
      (fun k s s' => exists j, indexes !! k = Some j /\ task_guarantee j s s')
      (fun k s => at_ k (fun j => batch_result j s))) as HP.
    specialize (HP ltac:(
      intros a b s1 s2 Hab (jb & Hb & HG); unfold at_; destruct (indexes !! a) as [ja|] eqn:Ea;
      [|done]; eapply guarantee_rely; [|exact HG]; intros ->; apply Hab;
      by eapply NoDup_lookup) sched (batch_task rt plugin step i tmp vars s0 <$> indexes) s).
    assert (at_ k (fun j => batch_result j
      (par sched (batch_task rt plugin step i tmp vars s0 <$> indexes) s))) as H.
    2: { unfold at_ in H. by rewrite Hk in H. }
    apply HP; [|rewrite length_fmap; by eapply lookup_lt_Some].
    intros a p Ha. rewrite list_lookup_fmap in Ha.
    destruct (indexes !! a) as [ja|] eqn:Ea; simplify_eq/=. exists (in_range ja).
    split; [by apply Hrange; eapply list_elem_of_lookup_2|]. unfold at_. rewrite Ea.
    pose proof (batch_task_holds plugin step tmp vars s0 ja) as HB. revert HB.
    generalize (batch_task rt plugin step i tmp vars s0 ja). intros p HB.
    eapply (holds_mono _ _ _ _ _ _ _ HB); [done|]. intros s1 s2 HG. by exists ja.
Qed.

(** All tasks of a batch are finished when it returns, and if it returns no error they all
    succeeded; no other task is touched. *)
Lemma executeTaskBatch_tasks plugin step indexes tmp vars s :
  NoDup indexes -> (forall j, j ∈ indexes -> in_range j s) ->
  let '(s', err) := executeTaskBatch rt plugin step i indexes tmp vars s in
  only indexes s s' /\
  (forall j, j ∈ indexes -> task_state j s' = Some StatusSuccess \/
     (task_state j s' = Some RunStatusFailed /\ err <> None)).
Proof.
  intros HN Hrange. unfold executeTaskBatch.
  destruct (par_batch (rt_schedule rt (st_x s)) plugin step tmp vars s indexes (with_errs [] s) HN)
    as [H1 H2]; [done|].
  split; [by etransitivity; [|exact H1]|]. intros j Hj.
  destruct (H2 j Hj) as [H|[H He]]; [by left|right]. split; [done|].
  by destruct (st_errs _).
Qed.

Lemma only_in_range indexes s s' j : only indexes s s' -> in_range j s -> in_range j s'.
Proof. intros [_ E]. unfold in_range. by rewrite E. Qed.

Lemma executeOneTask_tasks plugin step j targets target tmp vars s :
  in_range j s ->
  let '(s', err) := exec (executeOneTask rt plugin step i j targets target tmp vars) s in
  only [j] s s' /\ task_result j err s'.
Proof.
  intros Hj.
  pose proof (exec_safe _ _ (executeOneTask_guarantee plugin step j targets target tmp vars) s) as H1.
  pose proof (holds_exec _ _ _ _ _ s (executeOneTask_holds plugin step j targets target tmp vars) Hj)
    as H2.
  destruct (exec _ s) as [s' err]. split; [|done]. by eapply guarantee_only; [left|].
Qed.

Lemma only_success indexes s s' j :
  only indexes s s' -> j ∉ indexes ->
  task_state j s = Some StatusSuccess -> task_state j s' = Some StatusSuccess.
Proof. intros [H _] Hj. by rewrite H. Qed.

Lemma only_mono (l k : list nat) s s' : l ⊆ k -> only l s s' -> only k s s'.
Proof. intros Hlk [H1 H2]. split; [|done]. intros j Hj. apply H1. set_solver. Qed.

Lemma execute_serial_tasks plugin step indexes tmp vars s :
  NoDup indexes -> (forall j, j ∈ indexes -> in_range j s) ->
  let '(s', err) := execute_serial rt plugin step i indexes tmp vars s in
  only indexes s s' /\
  (err = None -> forall j, j ∈ indexes -> task_state j s' = Some StatusSuccess).
Proof.
  intros HN. revert s; induction HN as [|j rest Hj HN IH]; intros s Hrange; cbn [execute_serial].
  { split; [reflexivity|]. by intros _ j ?%elem_of_nil. }
  pose proof (executeOneTask_tasks plugin step j [taskTarget (task_of i j s)]
    (taskTarget (task_of i j s)) tmp vars s (Hrange j (list_elem_of_here _ _))) as H.
  destruct (exec _ s) as [s1 [e|]]; destruct H as [H1 H2].
  { split; [|done]. eapply only_mono; [|done]. set_solver. }
  specialize (IH s1). destruct (execute_serial rt plugin step i rest tmp vars s1) as [s2 err].
  destruct IH as [H3 H4].
  { intros k Hk. eapply only_in_range; [done|]. apply Hrange. by right. }
  split.
  - etransitivity; (eapply only_mono; [|done]; set_solver).
  - intros He k [->|Hk]%elem_of_cons; [|by apply H4]. eapply only_success; done.
Qed.

Lemma execute_batches_tasks plugin step bs tmp vars s :
  NoDup (concat bs) -> (forall j, j ∈ concat bs -> in_range j s) ->
  let '(s', err) := execute_batches rt plugin step i bs tmp vars s in
  only (concat bs) s s' /\
  (err = None -> forall j, j ∈ concat bs -> task_state j s' = Some StatusSuccess).
Proof.
  revert s; induction bs as [|b rest IH]; intros s HN Hrange; cbn [execute_batches concat] in *.
  { split; [reflexivity|]. by intros _ j ?%elem_of_nil. }
  apply NoDup_app in HN as (Hb & Hdis & HN).
  pose proof (executeTaskBatch_tasks plugin step b tmp vars s Hb) as H.
  destruct (executeTaskBatch rt plugin step i b tmp vars s) as [s1 [e|]];
    (destruct H as [H1 H2]; [intros j Hj; apply Hrange; set_solver|]).
  { split; [|done]. eapply only_mono; [|done]. set_solver. }
  specialize (IH s1 HN). destruct (execute_batches rt plugin step i rest tmp vars s1) as [s2 err].
  destruct IH as [H3 H4].
  { intros k Hk. eapply only_in_range; [done|]. apply Hrange. set_solver. }
  split.
  - etransitivity; (eapply only_mono; [|done]; set_solver).
  - intros He k [Hk|Hk]%elem_of_app; [|by apply H4].
    eapply only_success; [done|by apply Hdis|]. destruct (H2 k Hk) as [?|[_ ?]]; done.
Qed.

Definition all_succeeded (s : S) : Prop :=
  forall j, in_range j s -> task_state j s = Some StatusSuccess.

Definition all_finished (s : S) : Prop :=
  forall j, in_range j s ->
    task_state j s = Some StatusSuccess \/ task_state j s = Some RunStatusFailed.

Lemma executeStepTasks_tasks plugin step tmp vars c s :
  ParseStepConcurrency (step_Concurrency step) = Some c ->
  let '(s', err) := executeStepTasks rt plugin step i tmp vars c s in
  task_count s' = task_count s /\ (err = None -> all_succeeded s') /\
  (sc_Mode c = ConcurrencyParallel -> all_finished s').
Proof.
  intros Hc. unfold executeStepTasks.
  change (length (sr_Tasks (step_run i s))) with (task_count s).
  assert (NoDup (seq 0 (task_count s))) as HN by (apply NoDup_ListNoDup, seq_NoDup).
  assert (forall j, j ∈ seq 0 (task_count s) <-> in_range j s) as Hseq.
  { intros j. rewrite elem_of_seq. unfold in_range. lia. }
  assert (forall s', only (seq 0 (task_count s)) s s' ->
    forall j, in_range j s' <-> j ∈ seq 0 (task_count s)) as Hin.
  { intros s' [_ E] j. rewrite Hseq. unfold in_range. by rewrite E. }
  destruct ((task_count s =? 1)%nat && IsLocal (taskTarget (task_of i 0 s))) eqn:E1.
  { apply andb_true_iff in E1 as [E1%Nat.eqb_eq _].
    pose proof (executeOneTask_tasks plugin step 0 [] (taskTarget (task_of i 0 s)) tmp vars s) as H.
    destruct (exec _ s) as [s' err]. destruct H as [[H1 H2] H3]; [unfold in_range; lia|].
    assert (forall j, in_range j s' -> j = 0%nat) as H0 by (unfold in_range; rewrite H2, E1; lia).
    split_and!; [done|intros -> j ->%H0; exact H3|].
    intros _ j ->%H0. destruct err; [by right|by left]. }
  destruct (sc_Mode c) eqn:Em.
  - pose proof (execute_serial_tasks plugin step _ tmp vars s HN (fun j => proj1 (Hseq j))) as H.
    destruct (execute_serial _ _ _ _ _ _ _ s) as [s' err]. destruct H as [H1 H2].
    split_and!; [apply H1| |done]. intros He j Hj. apply H2; [done|]. by apply (Hin s').
  - pose proof (executeTaskBatch_tasks plugin step _ tmp vars s HN (fun j => proj1 (Hseq j))) as H.
    destruct (executeTaskBatch _ _ _ _ _ _ _ s) as [s' err]. destruct H as [H1 H2].
    split_and!; [apply H1|..].
    + intros -> j Hj. destruct (H2 j) as [?|[_ ?]]; [by apply (Hin s')|done..].
    + intros _ j Hj. destruct (H2 j) as [?|[? _]]; [by apply (Hin s')|by left|by right].
  - destruct (ParseStepConcurrency_bounds _ _ Hc) as [_ Hb]. rewrite Em in Hb.
    destruct (batches_cover (Z.to_nat (sc_Limit c)) (task_count s)) as [Hcat _]; [lia|].
    pose proof (execute_batches_tasks plugin step
      (batches (task_count s) (Z.to_nat (sc_Limit c)) 0 (task_count s)) tmp vars s) as H.
    rewrite Hcat in H. specialize (H HN (fun j => proj1 (Hseq j))).
    destruct (execute_batches _ _ _ _ _ _ _ s) as [s' err]. destruct H as [H1 H2].
    split_and!; [apply H1| |done]. intros He j Hj. apply H2; [done|]. by apply (Hin s').
Qed.

Lemma task_state_mark st j s :
  task_state j (on_step i (markStep st) s) = task_state j s.
Proof.
  unfold task_state, step_run. simpl. rewrite list_lookup_alter_eq. by destruct (st_runs s !! i).
Qed.

Lemma task_count_mark st s : task_count (on_step i (markStep st) s) = task_count s.
Proof.
  unfold task_count, step_run. simpl. rewrite list_lookup_alter_eq. by destruct (st_runs s !! i).
Qed.
End Tasks.

(** A step that succeeds has only successful tasks, under every policy and interleaving; and
    under the parallel policy every task has been run to its end when the step returns, also when
    another one failed. *)
Theorem executeStep_tasks {X} (rt : Runtime X) plugins step i tmp vars s s' err :
  executeStep rt plugins step i tmp vars s = (s', err) ->
  (err = None -> all_succeeded i s') /\
  (forall e c, err = Some (ErrStepFailed (step_Name step) e) ->
     ParseStepConcurrency (step_Concurrency step) = Some c ->
     sc_Mode c = ConcurrencyParallel -> all_finished i s').
Proof.
  unfold executeStep. intros H.
  destruct (plugins !! step_Type step) as [plugin|]; [|by simplify_eq].
  destruct (pg_Validate plugin step); [by simplify_eq|].
  destruct (ParseStepConcurrency (step_Concurrency step)) as [c|] eqn:Ec; [|by simplify_eq].
  pose proof (executeStepTasks_tasks rt i plugin step tmp vars c
    (on_step i (markStep RunStatusRunning) s) Ec) as HT.
  destruct (executeStepTasks _ _ _ _ _ _ _ _) as [s1 [e|]]; destruct HT as (_ & H2 & H3);
    simplify_eq; split; try done.
  - intros _ c' _ [= <-] Hm j Hj. unfold markStepFailed in *.
    rewrite (task_state_mark i RunStatusFailed). apply H3; [done|].
    unfold in_range in *. by rewrite (task_count_mark i RunStatusFailed) in Hj.
  - intros _ j Hj. rewrite task_state_mark. apply H2; [done|].
    unfold in_range in *. by rewrite task_count_mark in Hj.
Qed.

Definition push_step : Step :=
  {| step_Name := "push"; step_Type := "local_command"; step_Needs := []; step_Roles := ["web"];
     step_RunIf := ""; step_Concurrency := "parallel"; step_Retries := 0; step_RetryDelay := "";
     step_With := [] |}.

Lemma executeStep_tasks_witness :
  let s := (executeStep interleaved example_plugins push_step 0 "/tmp" ∅ two_hosts).1 in
  all_succeeded 0 s /\ task_state 0 1 s = Some StatusSuccess.
Proof.
  destruct (executeStep interleaved example_plugins push_step 0 "/tmp" ∅ two_hosts) as [s err] eqn:E.
  destruct (executeStep_tasks interleaved example_plugins push_step 0 "/tmp" ∅ two_hosts s err E)
    as [H _].
  vm_compute in E. injection E as <- <-. split; [by apply H|done].
Defined.
