(* ===== verification/Channels.v ===== *)
(** * Buffered channels

    A Go channel with a buffer, as the publishers of the agent use it: a send in a
    [select] with a default branch, which drops the value when the buffer is full,
    and [close].  A publisher keeps a map from subscriber ids to channels; here the
    channels are named by their position in the list of all channels ever made. *)
From stdpp Require Import base list strings gmap.
From Stdlib Require Import Lia.

Record channel (A : Type) : Type := mkChannel { ch_buf : list A; ch_closed : bool }.
Arguments mkChannel {A} _ _.
Arguments ch_buf {A} _.
Arguments ch_closed {A} _.

Section Channel.
Context {A : Type} (cap : nat).

(** [make(chan A, cap)] *)
Definition make_chan : channel A := {| ch_buf := []; ch_closed := false |}.

(** [select { case c <- v: default: }]; [None] is the panic on a closed channel. *)
Definition try_send (v : A) (c : channel A) : option (channel A) :=
  if ch_closed c then None
  else Some (if (length (ch_buf c) <? cap)%nat
             then {| ch_buf := ch_buf c ++ [v]; ch_closed := false |} else c).

(** [close(c)]; [None] is the panic on a closed channel. *)
Definition close_chan (c : channel A) : option (channel A) :=
  if ch_closed c then None else Some {| ch_buf := ch_buf c; ch_closed := true |}.

(** A receiver takes a value. *)
Definition receive (c : channel A) : channel A :=
  {| ch_buf := tail (ch_buf c); ch_closed := ch_closed c |}.

Lemma try_send_None v c : try_send v c = None <-> ch_closed c = true.
Proof. unfold try_send. by destruct (ch_closed c). Qed.

Lemma try_send_open v c c' : try_send v c = Some c' -> ch_closed c' = ch_closed c.
Proof. unfold try_send. destruct (ch_closed c) eqn:E; intros [= <-]. by case_match. Qed.

(** A channel never holds more than its capacity. *)
Lemma try_send_length v c c' :
  try_send v c = Some c' -> length (ch_buf c) <= cap -> length (ch_buf c') <= cap.
Proof.
  unfold try_send. destruct (ch_closed c); intros [= <-] H.
  destruct (Nat.ltb_spec (length (ch_buf c)) cap); [|done]. simpl. rewrite length_app. simpl. lia.
Qed.
End Channel.

(** ** Publishers *)

Section Publisher.
Context {A : Type} (cap : nat).
Implicit Types (subs : gmap string nat) (chans : list (channel A)).

(** [ch := make(chan A, cap); subs[id] = ch] *)
Definition subscribe (id : string) subs chans : gmap string nat * list (channel A) :=
  (<[id := length chans]> subs, chans ++ [make_chan]).

(** [if ch, ok := subs[id]; ok { close(ch); delete(subs, id) }]; [None] is a panic. *)
Definition unsubscribe (id : string) subs chans : option (gmap string nat * list (channel A)) :=
  match subs !! id with
  | None => Some (subs, chans)
  | Some c =>
      match chans !! c with
      | Some ch => option_map (fun ch => (delete id subs, <[c := ch]> chans)) (close_chan ch)
      | None => None
      end
  end.

(** Send to the channels [cs], one after the other; [None] is a panic. *)
Fixpoint send_all (v : A) (cs : list nat) chans : option (list (channel A)) :=
  match cs with
  | [] => Some chans
  | c :: cs' =>
      match chans !! c with
      | Some ch =>
          match try_send cap v ch with
          | Some ch' => send_all v cs' (<[c := ch']> chans)
          | None => None
          end
      | None => None
      end
  end.

(** The channel of every subscriber is open, and is no other subscriber's. *)
Definition pub_ok subs chans : Prop :=
  (forall id c, subs !! id = Some c -> exists ch, chans !! c = Some ch /\ ch_closed ch = false) /\
  (forall id id' c, subs !! id = Some c -> subs !! id' = Some c -> id = id').

Lemma pub_ok_empty : pub_ok ∅ [].
Proof. split; [intros id c|intros id id' c]; by rewrite lookup_empty. Qed.

Lemma pub_ok_bound subs chans id c : pub_ok subs chans -> subs !! id = Some c -> c < length chans.
Proof. intros [H1 _] Hc. destruct (H1 id c Hc) as (ch & Hch & _). by eapply lookup_lt_Some. Qed.

(** A channel changes and, if it was open, stays so. *)
Lemma pub_ok_update subs chans c ch ch' :
  pub_ok subs chans -> chans !! c = Some ch -> (ch_closed ch = false -> ch_closed ch' = false) ->
  pub_ok subs (<[c := ch']> chans).
Proof.
  intros [H1 H2] Hc Hcl. split; [|done]. intros id d Hd. destruct (H1 id d Hd) as (x & Hx & Ho).
  destruct (decide (c = d)) as [->|Hne].
  - simplify_eq. exists ch'. split; [|by apply Hcl].
    apply list_lookup_insert_eq. by eapply lookup_lt_Some.
  - exists x. by rewrite list_lookup_insert_ne.
Qed.

Lemma pub_ok_subscribe id subs chans :
  pub_ok subs chans -> pub_ok (subscribe id subs chans).1 (subscribe id subs chans).2.
Proof.
  intros HP. pose proof HP as [H1 H2]. split; simpl.
  - intros i c [[_ <-]|[_ Hc]]%lookup_insert_Some.
    + eexists. split; [by apply list_lookup_middle|done].
    + destruct (H1 i c Hc) as (ch & Hch & Ho). exists ch. split; [by apply lookup_app_l_Some|done].
  - intros i i' c [[<- <-]|[_ Hi]]%lookup_insert_Some [[<- E]|[_ Hi']]%lookup_insert_Some;
      [done|..|by eapply H2].
    + apply (pub_ok_bound _ _ _ _ HP) in Hi'. lia.
    + apply (pub_ok_bound _ _ _ _ HP) in Hi. lia.
Qed.

(** Unsubscribing never closes a closed channel. *)
Lemma pub_ok_unsubscribe id subs chans :
  pub_ok subs chans ->
  exists subs' chans', unsubscribe id subs chans = Some (subs', chans') /\ pub_ok subs' chans' /\
    length chans' = length chans.
Proof.
  intros HP. pose proof HP as [H1 H2]. unfold unsubscribe.
  destruct (subs !! id) as [c|] eqn:E; [|by exists subs, chans].
  destruct (H1 id c E) as (ch & Hch & Ho). rewrite Hch. unfold close_chan. rewrite Ho. simpl.
  eexists _, _. split; [done|]. split; [|by rewrite length_insert]. split.
  - intros i d [Hne Hd]%lookup_delete_Some. destruct (H1 i d Hd) as (x & Hx & Hox).
    exists x. rewrite list_lookup_insert_ne; [done|]. intros ->. apply Hne. by eapply H2.
  - intros i i' d [_ Hi]%lookup_delete_Some [_ Hi']%lookup_delete_Some. by eapply H2.
Qed.

(** Sending to channels of subscribers never panics. *)
Lemma pub_ok_send v cs subs chans :
  pub_ok subs chans -> (forall c, c ∈ cs -> exists id, subs !! id = Some c) ->
  exists chans', send_all v cs chans = Some chans' /\ pub_ok subs chans'.
Proof.
  revert chans; induction cs as [|c cs IH]; intros chans HP Hcs; simpl; [by exists chans|].
  destruct (Hcs c) as [id Hid]; [left|]. pose proof HP as [H1 _].
  destruct (H1 id c Hid) as (ch & Hch & Ho). rewrite Hch.
  destruct (try_send cap v ch) as [ch'|] eqn:E.
  2: { apply try_send_None in E. congruence. }
  apply try_send_open in E. apply IH; [|by intros d Hd; apply Hcs; right].
  eapply pub_ok_update; [done..|]. by rewrite E.
Qed.

Lemma subs_values subs c : c ∈ (snd <$> map_to_list subs) -> exists id, subs !! id = Some c.
Proof. intros ([id d] & -> & Hd%elem_of_map_to_list)%list_elem_of_fmap. by exists id. Qed.
End Publisher.
