(* ===== verification/LogParse.v ===== *)
(** * Log signatures

    [logparse/normalize.go]: the signature under which repeated log lines are
    folded.  The regular expressions of the file are data ([regex]), matched the
    way Go's [regexp] does: leftmost, the first alternative and the longest
    repetition preferred, with backtracking.  All their classes are ASCII, so that
    matching bytes and matching runes agree. *)
From stdpp Require Import base list strings.
From Stdlib Require Import Lia Ascii.
From S2P Require Import Prelude.

(** ** Regular expressions *)

Inductive regex : Type :=
| Many (cls : ascii -> bool) (lo : nat) (hi : option nat)  (** [cls{lo,hi}] *)
| Then (r1 r2 : regex)
| Maybe (r : regex).                                       (** [(r)?] *)

(** How many characters the repetition of a class can take. *)
Fixpoint span (cls : ascii -> bool) (l : list ascii) : nat :=
  match l with
  | [] => 0
  | c :: l' => if cls c then S (span cls l') else 0
  end.

Definition reach (cls : ascii -> bool) (hi : option nat) (l : list ascii) : nat :=
  match hi with None => span cls l | Some h => min h (span cls l) end.

(** Give characters back, one at a time, until the continuation matches. *)
Fixpoint longest {A} (k : list ascii -> option A) (l : list ascii) (lo n : nat) : option A :=
  if n <? lo then None
  else match k (drop n l) with
       | Some r => Some r
       | None => match n with O => None | S n' => longest k l lo n' end
       end.

(** [match_re r k l]: match [r] at the start of [l], and [k] on what follows. *)
Fixpoint match_re {A} (r : regex) (k : list ascii -> option A) (l : list ascii) : option A :=
  match r with
  | Many cls lo hi => longest k l lo (reach cls hi l)
  | Then r1 r2 => match_re r1 (match_re r2 k) l
  | Maybe r1 => match match_re r1 k l with Some x => Some x | None => k l end
  end.

(** [ReplaceAllString] of an expression that starts with [^], by nothing. *)
Definition strip (r : regex) (l : list ascii) : list ascii :=
  match match_re r Some l with Some rest => rest | None => l end.

(** [ReplaceAllString] of an expression that never matches the empty text; the
    first argument counts the characters that belong to the match just replaced. *)
Fixpoint replace_all (r : regex) (repl : list ascii) (skip : nat) (l : list ascii) : list ascii :=
  match l, skip with
  | [], _ => []
  | _ :: l', S skip' => replace_all r repl skip' l'
  | c :: l', O =>
      match match_re r Some l with
      | Some rest => repl ++ replace_all r repl (length l' - length rest) l'
      | None => c :: replace_all r repl 0 l'
      end
  end.

(** ** The expressions of [normalize.go] *)

Definition between (a b : nat) (c : ascii) : bool :=
  let n := nat_of_ascii c in (a <=? n) && (n <=? b).
Definition digit : ascii -> bool := between 48 57.
Definition upper : ascii -> bool := between 65 90.
Definition lower : ascii -> bool := between 97 122.
(** Go's [\s] is [[\t\n\f\r ]]. *)
Definition blank (c : ascii) : bool :=
  let n := nat_of_ascii c in
  (n =? 9) || (n =? 10) || (n =? 12) || (n =? 13) || (n =? 32).

Definition exactly (cls : ascii -> bool) (n : nat) : regex := Many cls n (Some n).
Definition lit (c : ascii) : regex := exactly (Ascii.eqb c) 1.
Definition plus (cls : ascii -> bool) : regex := Many cls 1 None.
Definition star (cls : ascii -> bool) : regex := Many cls 0 None.

Declare Scope regex_scope.
Delimit Scope regex_scope with re.
Infix "·" := Then (at level 60, right associativity) : regex_scope.
Open Scope regex_scope.

Definition colon : regex := lit ":"%char.
Definition dot : regex := lit "."%char.
Definition dash : regex := lit "-"%char.

(** [\d{2}:\d{2}:\d{2}] *)
Definition hms : regex := exactly digit 2 · colon · exactly digit 2 · colon · exactly digit 2.

Definition clockPrefixRe : regex := hms · Maybe (dot · plus digit) · star blank.

Definition isoPrefixRe : regex :=
  exactly digit 4 · dash · exactly digit 2 · dash · exactly digit 2 ·
  exactly (fun c => Ascii.eqb c "T"%char || Ascii.eqb c " "%char) 1 ·
  hms · Maybe (dot · plus digit) · star blank.

Definition weekdayPrefixRe : regex :=
  exactly upper 1 · exactly lower 2 · plus blank · exactly upper 1 · exactly lower 2 ·
  plus blank · Many digit 1 (Some 2) · plus blank · hms · plus blank ·
  Many upper 2 (Some 4) · plus blank · exactly digit 4 · star blank.

Definition numAssignRe : regex := lit "="%char · plus digit.

Definition ipPortRe : regex :=
  Many digit 1 (Some 3) · dot · Many digit 1 (Some 3) · dot · Many digit 1 (Some 3) · dot ·
  Many digit 1 (Some 3) · colon · plus digit.

(** [Normalize], on the bytes of the line. *)
Definition normalize (l : list ascii) : list ascii :=
  let l := strip clockPrefixRe l in
  let l := strip isoPrefixRe l in
  let l := strip weekdayPrefixRe l in
  let l := replace_all numAssignRe ["="; "*"]%char 0 l in
  replace_all ipPortRe ["*"; ":"; "*"]%char 0 l.

Definition Normalize (line : string) : string :=
  TrimSpace (String.string_of_list_ascii (normalize (String.list_ascii_of_string line))).

Example Normalize_tests :
  (Normalize <$> ["12:30:45 connection failed"; "12:30:45.123 connection failed";
     "2026-06-08T12:30:45 boot ok"; "2026-06-08 12:30:45 boot ok";
     "Wed May 20 17:20:51 CST 2026 started"; "retry count=123 done";
     "dial 192.168.1.10:8080 refused"; "  spaced  "; "plain message"])%string =
  ["connection failed"; "connection failed"; "boot ok"; "boot ok"; "started";
   "retry count=* done"; "dial *:* refused"; "spaced"; "plain message"]%string.
Proof. by vm_compute. Qed.

(** ** Matching and what follows a separator

    An expression none of whose classes contains the separator [c] cannot look
    past it: on two texts that agree up to [c], or up to the end of one of them,
    it does the same. *)

Fixpoint avoids (c : ascii) (r : regex) : bool :=
  match r with
  | Many cls _ _ => negb (cls c)
  | Then r1 r2 => avoids c r1 && avoids c r2
  | Maybe r => avoids c r
  end.

Definition starts_with (cls : ascii -> bool) (l : list ascii) : bool :=
  match l with c :: _ => cls c | [] => false end.

Lemma span_stop cls a u : starts_with cls u = false -> span cls (a ++ u) = span cls a.
Proof.
  intros H. induction a as [|x a IH]; simpl; [|by rewrite IH].
  destruct u as [|c u]; simpl in *; [done|by rewrite H].
Qed.

Lemma span_length cls l : span cls l <= length l.
Proof. induction l as [|c l IH]; simpl; [lia|]. destruct (cls c); lia. Qed.

Section Agree.
Context (c : ascii) (t t' : list ascii).
Context (t_c : t = [] \/ head t = Some c) (t'_c : t' = [] \/ head t' = Some c).

(** Texts that are the same up to [t] and [t']. *)
Definition agree (l l' : list ascii) : Prop := exists a, l = a ++ t /\ l' = a ++ t'.

Definition related {A B} (R : A -> B -> Prop) (o : option A) (o' : option B) : Prop :=
  match o, o' with Some x, Some y => R x y | None, None => True | _, _ => False end.

Lemma stops cls u : cls c = false -> u = [] \/ head u = Some c -> starts_with cls u = false.
Proof. intros H [->|E]; [done|]. destruct u; simplify_eq/=. done. Qed.

Context {A B : Type} (R : A -> B -> Prop).

Lemma longest_agree (k : list ascii -> option A) (k' : list ascii -> option B) a lo n :
  (forall l l', agree l l' -> related R (k l) (k' l')) -> n <= length a ->
  related R (longest k (a ++ t) lo n) (longest k' (a ++ t') lo n).
Proof.
  intros Hk. induction n as [|n IH]; intros Hn; simpl; case_match; try done.
  - pose proof (Hk (a ++ t) (a ++ t') (ex_intro _ a (conj eq_refl eq_refl))) as H'.
    rewrite !drop_0. by destruct (k _), (k' _).
  - rewrite !drop_app_le by lia.
    assert (related R (k (drop (S n) a ++ t)) (k' (drop (S n) a ++ t'))) as H'.
    { apply Hk. by exists (drop (S n) a). }
    destruct (k _), (k' _); try done. apply IH. lia.
Qed.

Lemma match_re_agree r : avoids c r = true -> forall k k' l l',
  (forall l l', agree l l' -> related R (k l) (k' l')) -> agree l l' ->
  related R (match_re r k l) (match_re r k' l').
Proof using t_c t'_c.
  induction r as [cls lo hi|r1 IH1 r2 IH2|r IH]; simpl; intros Ha k k' l l' Hk Hl.
  - destruct Hl as (a & -> & ->). apply negb_true_iff in Ha.
    unfold reach. rewrite !span_stop by (apply stops; done).
    pose proof (span_length cls a). apply longest_agree; [done|].
    destruct hi; lia.
  - apply andb_prop in Ha as [H1 H2]. apply IH1; [done| |done].
    intros u u' Hu. exact (IH2 H2 k k' u u' Hk Hu).
  - pose proof (IH Ha k k' l l' Hk Hl) as H. specialize (Hk l l' Hl).
    by destruct (match_re r k l), (match_re r k' l').
Qed.
End Agree.

Lemma strip_agree c t t' r l l' :
  head t = Some c -> head t' = Some c -> avoids c r = true ->
  agree t t' l l' -> agree t t' (strip r l) (strip r l').
Proof.
  intros Ht Ht' Ha Hl. unfold strip.
  pose proof (match_re_agree c t t' (or_intror Ht) (or_intror Ht') (agree t t') r Ha Some Some l l'
    (fun _ _ H => H) Hl) as H.
  by destruct (match_re r Some l), (match_re r Some l').
Qed.

(** ** Replacing *)

Lemma replace_all_skip r repl k l : replace_all r repl k l = replace_all r repl 0 (drop k l).
Proof. revert l; induction k as [|k IH]; intros [|c l]; simpl; by rewrite ?IH. Qed.

Lemma replace_hit r repl n l :
  n < length l -> match_re r Some l = Some (drop (S n) l) ->
  replace_all r repl 0 l = repl ++ replace_all r repl 0 (drop (S n) l).
Proof.
  intros Hn H. destruct l as [|c l]; simpl in *; [lia|]. rewrite H, replace_all_skip.
  rewrite length_drop. by replace (length l - (length l - n)) with n by lia.
Qed.

Lemma replace_miss r repl c l :
  match_re r Some (c :: l) = None -> replace_all r repl 0 (c :: l) = c :: replace_all r repl 0 l.
Proof. intros H. cbn [replace_all]. by rewrite H. Qed.

Lemma span_app_all cls d b :
  forallb cls d = true -> span cls (d ++ b) = length d + span cls b.
Proof.
  induction d as [|c d IH]; simpl; [done|]. intros [-> H]%andb_prop. by rewrite IH.
Qed.

(** A number: at least one digit. *)
Definition number (d : list ascii) : bool := negb (bool_decide (d = [])) && forallb digit d.

Lemma span_number d b : number d = true -> starts_with digit b = false ->
  span digit (d ++ b) = length d.
Proof.
  intros [_ Hd]%andb_prop Hb. rewrite span_stop by done.
  rewrite <-(app_nil_r d) at 1. rewrite span_app_all by done. simpl. lia.
Qed.

Lemma match_lit {A} c (k : list ascii -> option A) l :
  match_re (lit c) k l =
  match l with x :: l' => if Ascii.eqb c x then k l' else None | [] => None end.
Proof.
  destruct l as [|x l]; simpl; [done|]. destruct (Ascii.eqb c x); simpl; [|done].
  rewrite drop_0. by destruct (k l).
Qed.

(** A repetition whose longest match suits the continuation. *)
Lemma match_plus cls l :
  match_re (plus cls) Some l = match span cls l with O => None | n => Some (drop n l) end.
Proof. simpl. by destruct (span cls l). Qed.

(** What [=\d+] takes. *)
Lemma match_assign c l :
  match_re numAssignRe Some (c :: l) =
  if Ascii.eqb "=" c then match span digit l with O => None | n => Some (drop n l) end
  else None.
Proof.
  change (match_re (lit "=") (match_re (plus digit) Some) (c :: l) =
    if Ascii.eqb "=" c then match span digit l with O => None | n => Some (drop n l) end else None).
  rewrite match_lit. by rewrite match_plus.
Qed.

(** The sign and its number become [=*]. *)
Lemma replace_assign_number d b :
  number d = true -> starts_with digit b = false ->
  replace_all numAssignRe ["="; "*"]%char 0 ("="%char :: d ++ b) =
  ["="; "*"]%char ++ replace_all numAssignRe ["="; "*"]%char 0 b.
Proof.
  intros Hd Hb. rewrite (replace_hit _ _ (length d)).
  - by rewrite skipn_cons, drop_app_length.
  - simpl. rewrite length_app. lia.
  - rewrite match_assign, Ascii.eqb_refl, span_number by done.
    destruct d; [by vm_compute in Hd|done].
Qed.

Lemma replace_assign_agree a d d' b :
  number d = true -> number d' = true -> starts_with digit b = false ->
  replace_all numAssignRe ["="; "*"]%char 0 (a ++ "="%char :: d ++ b) =
  replace_all numAssignRe ["="; "*"]%char 0 (a ++ "="%char :: d' ++ b).
Proof.
  intros Hd Hd' Hb. remember (length a) as n eqn:En. revert a En.
  induction (lt_wf n) as [n _ IH]. intros [|c a] ->.
  { cbn [app]. by rewrite !replace_assign_number. }
  set (l := a ++ "="%char :: d ++ b). set (l' := a ++ "="%char :: d' ++ b).
  assert (forall k, k <= length a ->
    replace_all numAssignRe ["="; "*"]%char 0 (drop k l) =
    replace_all numAssignRe ["="; "*"]%char 0 (drop k l')) as Ha.
  { intros k Hk. unfold l, l'. rewrite !drop_app_le by done.
    apply (IH (length (drop k a))); [|done]. rewrite length_drop. simpl. lia. }
  assert (span digit l = span digit a) as Hs by by apply span_stop.
  assert (span digit l' = span digit a) as Hs' by by apply span_stop.
  pose proof (span_length digit a) as Hl.
  pose proof (match_assign c l) as M. pose proof (match_assign c l') as M'.
  rewrite Hs in M. rewrite Hs' in M'. cbn [app]. fold l l'.
  destruct (Ascii.eqb "=" c), (span digit a) as [|m] eqn:Em;
    try (rewrite (replace_miss _ _ c l), (replace_miss _ _ c l') by done;
         f_equal; apply (Ha 0); lia).
  assert (length a < length l /\ length a < length l') as [??]
    by (unfold l, l'; rewrite !length_app; simpl; lia).
  rewrite (replace_hit _ _ (S m) (c :: l)), (replace_hit _ _ (S m) (c :: l')); try done;
    [|simpl; lia..].
  rewrite !skipn_cons. by rewrite (Ha (S m)) by lia.
Qed.

(** ** Signatures *)

Lemma normalize_assign a d d' b :
  number d = true -> number d' = true -> starts_with digit b = false ->
  normalize (a ++ "="%char :: d ++ b) = normalize (a ++ "="%char :: d' ++ b).
Proof.
  intros Hd Hd' Hb. unfold normalize.
  set (t := "="%char :: d ++ b). set (t' := "="%char :: d' ++ b).
  assert (agree t t' (a ++ t) (a ++ t')) as H by by exists a.
  apply (strip_agree "=" t t' clockPrefixRe) in H; [|done..].
  apply (strip_agree "=" t t' isoPrefixRe) in H; [|done..].
  apply (strip_agree "=" t t' weekdayPrefixRe) in H; [|done..].
  destruct H as (u & -> & ->). unfold t, t'. by rewrite (replace_assign_agree u d d' b).
Qed.

(** A clock: what the first expression matches, blanks aside. *)
Definition clock (l : list ascii) : bool :=
  bool_decide (match_re (hms · Maybe (dot · plus digit)) Some l = Some []).

Lemma strip_clock ts msg : clock ts = true ->
  strip clockPrefixRe (ts ++ " "%char :: msg) = drop (span blank (" "%char :: msg)) (" "%char :: msg).
Proof.
  intros H%bool_decide_eq_true. set (t := " "%char :: msg).
  pose proof (match_re_agree " " [] t (or_introl eq_refl) (or_intror eq_refl)
    (fun rest y => match_re (star blank) Some (rest ++ t) = Some y)
    (hms · Maybe (dot · plus digit)) eq_refl Some (match_re (star blank) Some) ts (ts ++ t)) as HR.
  rewrite H in HR. unfold strip.
  change (match_re clockPrefixRe Some (ts ++ t)) with
    (match_re (hms · Maybe (dot · plus digit)) (match_re (star blank) Some) (ts ++ t)).
  assert (forall l, match_re (star blank) Some l = Some (drop (span blank l) l)) as Hs.
  { intros l. simpl. by destruct (span blank l). }
  lapply HR; [|intros l l' (a & -> & ->); rewrite app_nil_r, Hs; cbn [related]; exact (Hs _)].
  clear HR. intros HR. lapply HR; [|exists ts; by rewrite app_nil_r]. clear HR. intros HR.
  destruct (match_re _ (match_re (star blank) Some) (ts ++ t)) as [y|]; cbn [related] in HR; [|done].
  rewrite Hs in HR. by injection HR as <-.
Qed.

Lemma bytes_app a b : String.list_ascii_of_string (a +:+ b) =
  String.list_ascii_of_string a ++ String.list_ascii_of_string b.
Proof. induction a as [|c a IH]; simpl; [done|]. by rewrite <-IH. Qed.

(** The signature forgets what varies between repetitions of a line: two lines that differ
    only in a number that is assigned ([=123]), wherever it stands, have the same signature, and
    so have two lines that differ only in the clock before the message. *)
Theorem Normalize_masks :
  (forall a b d d' : string,
     number (String.list_ascii_of_string d) = true ->
     number (String.list_ascii_of_string d') = true ->
     starts_with digit (String.list_ascii_of_string b) = false ->
     Normalize (a +:+ "=" +:+ d +:+ b) = Normalize (a +:+ "=" +:+ d' +:+ b)) /\
  (forall msg ts ts' : string,
     clock (String.list_ascii_of_string ts) = true ->
     clock (String.list_ascii_of_string ts') = true ->
     Normalize (ts +:+ " " +:+ msg) = Normalize (ts' +:+ " " +:+ msg)).
Proof.
  unfold Normalize. split; intros.
  - rewrite !bytes_app. simpl. by erewrite normalize_assign.
  - rewrite !bytes_app. simpl. unfold normalize. by rewrite !strip_clock.
Qed.

Lemma Normalize_masks_witness :
  Normalize "12:00:01.5 retry n=1, in=20s" = Normalize "23:59:59 retry n=1, in=40s".
Proof.
  etransitivity; [apply (proj1 Normalize_masks "12:00:01.5 retry n=1, in" "s" "20" "40"); done|].
  apply (proj2 Normalize_masks "retry n=1, in=40s" "12:00:01.5" "23:59:59"); by vm_compute.
Defined.
