(* ===== verification/LogFold.v ===== *)
(** * Folding of repeated log lines

    [logbuf/fold.go]: a lane per deployment counts consecutive lines that have the
    same signature and follow each other within a window.  The value that
    [atomic.AddUint64(&foldKeySeq, 1)] returns is an argument: the counter belongs
    to the process, and other trackers advance it too.  [processFoldEpoch] is an
    argument as well. *)
From stdpp Require Import base list strings gmap.
From Stdlib Require Import ZArith Lia Ascii.
From S2P Require Import Prelude Model LogParse.
Local Open Scope string_scope.

(** ** strconv.FormatUint(n, 36) *)

Definition digit36 (d : Z) : ascii := byte_of (Z.to_nat (if d <? 10 then 48 + d else 87 + d)%Z).

(** Thirteen digits are enough for 64 bits. *)
Fixpoint digits36 (fuel : nat) (n : Z) : list ascii :=
  match fuel with
  | O => []
  | S fuel' =>
      ((if (n / 36 =? 0)%Z then [] else digits36 fuel' (n / 36)%Z) ++ [digit36 (n mod 36)])%list
  end.

Definition FormatUint36 (n : Z) : string := String.string_of_list_ascii (digits36 13 n).

(** [nextFoldKey]; [seq] is the new value of the counter. *)
Definition nextFoldKey (epoch : string) (seq : Z) (runID : string) : string :=
  let seq := FormatUint36 seq in
  if runID =? "" then "f" +:+ epoch +:+ ":" +:+ seq else "f" +:+ runID +:+ ":" +:+ seq.

(** ** The tracker *)

Record foldLane : Type := mkLane {
  lane_signature : string;
  lane_foldKey : string;
  lane_seq : Z;
  lane_repeatCount : Z;
  lane_rep : LogEntry;
  lane_lastSeen : time;
}.

Record foldIncrement : Type := mkIncrement {
  inc_DeploymentID : string;
  inc_FoldKey : string;
  inc_RepeatCount : Z;
}.

(** [ft_nextSeq]: the watermarks that the closure [nextSeq] advances, if there is one. *)
Record foldTracker : Type := mkTracker {
  ft_window : duration;
  ft_lanes : gmap string foldLane;
  ft_nextSeq : option (gmap string Z);
}.

Definition newFoldTracker (window : duration) (nextSeq : option (gmap string Z)) : foldTracker :=
  {| ft_window := window; ft_lanes := ∅; ft_nextSeq := nextSeq |}.

(** [watermarks[dep]++; return watermarks[dep]], on uint64. *)
Definition next_seq (dep : string) (marks : gmap string Z) : Z :=
  ((default 0 (marks !! dep) + 1) mod 2 ^ 64)%Z.

(** [row.RepeatCount, row.FoldKey, row.Seq = n, key, seq] *)
Definition set_fold (n : Z) (key : string) (seq : Z) (e : LogEntry) : LogEntry :=
  {| log_ID := log_ID e; log_DeploymentID := log_DeploymentID e; log_SourceID := log_SourceID e;
     log_RunID := log_RunID e; log_Timestamp := log_Timestamp e; log_Level := log_Level e;
     log_Message := log_Message e; log_Stream := log_Stream e; log_RepeatCount := n;
     log_FoldKey := key; log_Seq := seq; log_LastSeenAt := log_LastSeenAt e |}.

(** The two results of [observe], of which exactly one is not nil. *)
Inductive observed : Type :=
| Emit (row : LogEntry)
| Inc (inc : foldIncrement).

(** [observe] *)
Definition observe (epoch : string) (keySeq : Z) (e : LogEntry) (t : foldTracker)
    : foldTracker * observed :=
  let dep := log_DeploymentID e in
  let sig := Normalize (log_Message e) in
  let open_segment :=
    let key := nextFoldKey epoch keySeq (log_RunID e) in
    let '(seq, nextSeq) :=
      match ft_nextSeq t with
      | None => (log_Seq e, None)
      | Some marks => let n := next_seq dep marks in (n, Some (<[dep := n]> marks))
      end in
    let row := set_fold 1 key seq e in
    ({| ft_window := ft_window t;
        ft_lanes := <[dep := {| lane_signature := sig; lane_foldKey := key; lane_seq := seq;
                                lane_repeatCount := 1; lane_rep := row;
                                lane_lastSeen := log_Timestamp e |}]> (ft_lanes t);
        ft_nextSeq := nextSeq |}, Emit row) in
  match ft_lanes t !! dep with
  | None => open_segment
  | Some lane =>
      if (lane_signature lane =? sig)
         && (time_sub (log_Timestamp e) (lane_lastSeen lane) <? ft_window t)%Z then
        let n := (lane_repeatCount lane + 1)%Z in
        ({| ft_window := ft_window t;
            ft_lanes := <[dep := {| lane_signature := lane_signature lane;
                                    lane_foldKey := lane_foldKey lane; lane_seq := lane_seq lane;
                                    lane_repeatCount := n;
                                    lane_rep := set_fold n (lane_foldKey lane) (lane_seq lane) e;
                                    lane_lastSeen := log_Timestamp e |}]> (ft_lanes t);
            ft_nextSeq := ft_nextSeq t |},
         Inc {| inc_DeploymentID := dep; inc_FoldKey := lane_foldKey lane; inc_RepeatCount := n |})
      else open_segment
  end.

Definition with_lanes (lanes : gmap string foldLane) (t : foldTracker) : foldTracker :=
  {| ft_window := ft_window t; ft_lanes := lanes; ft_nextSeq := ft_nextSeq t |}.

(** Close the lanes that satisfy [p], visiting them in the order [deps] of the
    iteration over the map. *)
Fixpoint close_lanes (p : foldLane -> bool) (deps : list string) (t : foldTracker)
    : foldTracker * list LogEntry :=
  match deps with
  | [] => (t, [])
  | dep :: deps' =>
      match ft_lanes t !! dep with
      | Some lane =>
          if p lane then
            let '(t', closed) := close_lanes p deps' (with_lanes (delete dep (ft_lanes t)) t) in
            (t', lane_rep lane :: closed)
          else close_lanes p deps' t
      | None => close_lanes p deps' t
      end
  end.

Definition sweep (now : time) (deps : list string) (t : foldTracker)
    : foldTracker * list LogEntry :=
  close_lanes (fun lane => (ft_window t <=? time_sub now (lane_lastSeen lane))%Z) deps t.

Definition closeAll (deps : list string) (t : foldTracker) : foldTracker * list LogEntry :=
  close_lanes (fun _ => true) deps t.

(** ** Fold keys are distinct *)

Definition undigit36 (c : ascii) : Z :=
  let n := Z.of_nat (nat_of_ascii c) in if (n <? 58)%Z then (n - 48)%Z else (n - 87)%Z.

Definition value36 (l : list ascii) : Z := foldl (fun acc c => 36 * acc + undigit36 c)%Z 0%Z l.

(** Every digit is read back, and none is a colon. *)
Lemma digit36_ok d : (0 <= d < 36)%Z -> undigit36 (digit36 d) = d /\ digit36 d <> ":"%char.
Proof.
  intros H.
  assert (forall k, k ∈ seq 0 36 -> undigit36 (digit36 (Z.of_nat k)) = Z.of_nat k /\
    digit36 (Z.of_nat k) <> ":"%char) as Hall.
  { apply Forall_forall, (bool_decide_eq_true_1 (Forall _ _)). by vm_compute. }
  specialize (Hall (Z.to_nat d)). rewrite Z2Nat.id in Hall by lia.
  apply Hall, elem_of_seq. lia.
Qed.

Lemma value36_digits fuel n :
  (0 <= n < 36 ^ Z.of_nat fuel)%Z -> value36 (digits36 fuel n) = n.
Proof.
  revert n; induction fuel as [|fuel IH]; intros n Hn; [change (value36 _) with 0%Z; simpl in Hn; lia|].
  rewrite Nat2Z.inj_succ, Z.pow_succ_r in Hn by lia. cbn [digits36].
  unfold value36. rewrite foldl_app. fold (value36 (if (n / 36 =? 0)%Z then [] else digits36 fuel (n / 36))).
  cbn [foldl]. destruct (digit36_ok (n mod 36)) as [-> _]; [apply Z.mod_pos_bound; lia|].
  pose proof (Z.div_mod n 36 ltac:(lia)) as E.
  destruct (Z.eqb_spec (n / 36) 0) as [E0|E0]; [change (value36 []) with 0%Z; lia|].
  rewrite IH; [lia|]. split; [apply Z.div_pos; lia|apply Z.div_lt_upper_bound; lia].
Qed.

Lemma digits36_no_colon fuel n : (0 <= n)%Z -> ":"%char ∉ digits36 fuel n.
Proof.
  revert n; induction fuel as [|fuel IH]; intros n Hn; simpl; [apply not_elem_of_nil|].
  intros [H|H%list_elem_of_singleton]%elem_of_app.
  - destruct (n / 36 =? 0)%Z; [by apply not_elem_of_nil in H|].
    eapply IH; [|exact H]. apply Z.div_pos; lia.
  - destruct (digit36_ok (n mod 36)) as [_ Hc]; [apply Z.mod_pos_bound; lia|congruence].
Qed.

(** What follows the last occurrence of [c] is determined. *)
Lemma after_last {A} (c : A) a b d e :
  c ∉ d -> c ∉ e -> (a ++ c :: d)%list = (b ++ c :: e)%list -> d = e.
Proof.
  revert b; induction a as [|x a IH]; intros [|y b] Hd He H; simplify_list_eq; try done.
  - exfalso. apply Hd, elem_of_app. right. left.
  - exfalso. apply He, elem_of_app. right. left.
  - eauto.
Qed.

Lemma string_bytes_inj a b :
  String.list_ascii_of_string a = String.list_ascii_of_string b -> a = b.
Proof.
  intros H. rewrite <-(String.string_of_list_ascii_of_string a), H.
  apply String.string_of_list_ascii_of_string.
Qed.

Lemma nextFoldKey_inj epoch k k' r r' :
  (0 <= k < 2 ^ 64)%Z -> (0 <= k' < 2 ^ 64)%Z ->
  nextFoldKey epoch k r = nextFoldKey epoch k' r' -> k = k'.
Proof.
  intros Hk Hk' H. apply (f_equal String.list_ascii_of_string) in H.
  assert (forall n run, exists p, String.list_ascii_of_string (nextFoldKey epoch n run) =
    (p ++ ":"%char :: digits36 13 n)%list) as HS.
  { intros n run. unfold nextFoldKey, FormatUint36.
    destruct (run =? ""); rewrite !bytes_app, String.list_ascii_of_string_of_list_ascii;
      simpl; [exists ("f"%char :: String.list_ascii_of_string epoch)
             |exists ("f"%char :: String.list_ascii_of_string run)]; done. }
  destruct (HS k r) as [p E], (HS k' r') as [p' E']. rewrite E, E' in H.
  apply after_last in H; [|apply digits36_no_colon; lia..].
  rewrite <-(value36_digits 13 k), <-(value36_digits 13 k'), H; [done|..];
    change (36 ^ Z.of_nat 13)%Z with 170581728179578208256%Z; lia.
Qed.

(** The keys of lines without a run differ from one process to another. *)
Lemma nextFoldKey_epoch epoch epoch' k k' :
  (0 <= k)%Z -> (0 <= k')%Z -> nextFoldKey epoch k "" = nextFoldKey epoch' k' "" -> epoch = epoch'.
Proof.
  intros Hk Hk' H. apply (f_equal String.list_ascii_of_string) in H.
  unfold nextFoldKey, FormatUint36 in H. cbn [String.eqb] in H.
  rewrite !bytes_app, !String.list_ascii_of_string_of_list_ascii in H.
  pose proof (digits36_no_colon 13 k Hk) as N. pose proof (digits36_no_colon 13 k' Hk') as N'.
  generalize dependent (digits36 13 k). generalize dependent (digits36 13 k'). intros d' N' d H N.
  cbn in H. injection H as H. pose proof (after_last _ _ _ _ _ N N' H) as ->.
  apply app_inv_tail in H. by apply string_bytes_inj.
Qed.

Lemma nextFoldKey_nonempty epoch k r : nextFoldKey epoch k r <> "".
Proof. unfold nextFoldKey. by destruct (r =? ""). Qed.

Example nextFoldKey_ex :
  nextFoldKey "kx7" 46655 "" = "fkx7:zzz" /\ nextFoldKey "kx7" 36 "run" = "frun:10".
Proof. by vm_compute. Qed.
