(* ===== verification/LogBuffer.v ===== *)
(** * The log buffer

    [logbuf/buffer.go]: a ring of the most recent folded rows, batches for the
    store, and channels of subscribers.  [Append] and [flush] work in two parts:
    under the lock, and after it is released.  The parts are separate actions
    ([action]), so that a list of actions is an interleaving of the callers of the
    buffer; [System] holds the goroutines that are between their parts. *)
From stdpp Require Import base list strings gmap.
From Stdlib Require Import ZArith Lia.
From S2P Require Import Prelude Model Channels LogParse LogFold.
Local Open Scope string_scope.

Definition flushBatch : nat := 50.
Definition defaultFoldWindow : duration := (5 * second)%Z.
(** The capacity of a subscriber's channel. *)
Definition subscriberCap : nat := 64.

(** The zero value of [LogEntry]. *)
Definition zero_entry : LogEntry :=
  {| log_ID := 0; log_DeploymentID := ""; log_SourceID := ""; log_RunID := "";
     log_Timestamp := 0%Z; log_Level := ""; log_Message := ""; log_Stream := "";
     log_RepeatCount := 0; log_FoldKey := ""; log_Seq := 0; log_LastSeenAt := None |}.

(** [b_subs] maps subscriber ids to channels, which are named by their position
    in [b_chans], the channels ever made. *)
Record Buffer : Type := mkBuffer {
  b_ring : list LogEntry;
  b_head : nat;
  b_count : nat;
  b_maxSize : nat;
  b_pending : list LogEntry;
  b_subs : gmap string nat;
  b_chans : list (channel LogEntry);
  b_store : bool;
  b_nodeID : string;
  b_fold : foldTracker;
  b_foldPos : gmap string nat;
}.

(** [New]; the flush goroutine is whoever performs [AFlush] and [ASweep]. *)
Definition New (store : bool) (maxSize : nat) (nodeID : string) (watermarks : gmap string Z) : Buffer :=
  {| b_ring := replicate maxSize zero_entry; b_head := 0; b_count := 0; b_maxSize := maxSize;
     b_pending := []; b_subs := ∅; b_chans := []; b_store := store; b_nodeID := nodeID;
     b_fold := newFoldTracker defaultFoldWindow (Some watermarks); b_foldPos := ∅ |}.

(** Field updates. *)
Definition with_fold (t : foldTracker) (b : Buffer) : Buffer :=
  {| b_ring := b_ring b; b_head := b_head b; b_count := b_count b; b_maxSize := b_maxSize b;
     b_pending := b_pending b; b_subs := b_subs b; b_chans := b_chans b; b_store := b_store b;
     b_nodeID := b_nodeID b; b_fold := t; b_foldPos := b_foldPos b |}.
Definition with_pending (p : list LogEntry) (b : Buffer) : Buffer :=
  {| b_ring := b_ring b; b_head := b_head b; b_count := b_count b; b_maxSize := b_maxSize b;
     b_pending := p; b_subs := b_subs b; b_chans := b_chans b; b_store := b_store b;
     b_nodeID := b_nodeID b; b_fold := b_fold b; b_foldPos := b_foldPos b |}.
Definition with_ring (ring : list LogEntry) (head count : nat) (pos : gmap string nat)
    (b : Buffer) : Buffer :=
  {| b_ring := ring; b_head := head; b_count := count; b_maxSize := b_maxSize b;
     b_pending := b_pending b; b_subs := b_subs b; b_chans := b_chans b; b_store := b_store b;
     b_nodeID := b_nodeID b; b_fold := b_fold b; b_foldPos := pos |}.
Definition with_subs (subs : gmap string nat) (chans : list (channel LogEntry)) (b : Buffer) : Buffer :=
  {| b_ring := b_ring b; b_head := b_head b; b_count := b_count b; b_maxSize := b_maxSize b;
     b_pending := b_pending b; b_subs := subs; b_chans := chans; b_store := b_store b;
     b_nodeID := b_nodeID b; b_fold := b_fold b; b_foldPos := b_foldPos b |}.

(** [SetFoldWindow] *)
Definition SetFoldWindow (d : duration) (b : Buffer) : Buffer :=
  with_fold {| ft_window := d; ft_lanes := ft_lanes (b_fold b);
               ft_nextSeq := ft_nextSeq (b_fold b) |} b.

(** [incrementEntry] *)
Definition incrementEntry (inc : foldIncrement) : LogEntry :=
  {| log_ID := 0; log_DeploymentID := inc_DeploymentID inc; log_SourceID := ""; log_RunID := "";
     log_Timestamp := 0%Z; log_Level := ""; log_Message := ""; log_Stream := "";
     log_RepeatCount := inc_RepeatCount inc; log_FoldKey := inc_FoldKey inc; log_Seq := 0;
     log_LastSeenAt := None |}.

Definition fill_source (nodeID : string) (e : LogEntry) : LogEntry :=
  if (log_SourceID e =? "") && negb (nodeID =? "") then
    {| log_ID := log_ID e; log_DeploymentID := log_DeploymentID e; log_SourceID := nodeID;
       log_RunID := log_RunID e; log_Timestamp := log_Timestamp e; log_Level := log_Level e;
       log_Message := log_Message e; log_Stream := log_Stream e;
       log_RepeatCount := log_RepeatCount e; log_FoldKey := log_FoldKey e; log_Seq := log_Seq e;
       log_LastSeenAt := log_LastSeenAt e |}
  else e.

(** [ring[idx].RepeatCount, ring[idx].Timestamp = n, ts] *)
Definition set_count (n : Z) (ts : time) (e : LogEntry) : LogEntry :=
  {| log_ID := log_ID e; log_DeploymentID := log_DeploymentID e; log_SourceID := log_SourceID e;
     log_RunID := log_RunID e; log_Timestamp := ts; log_Level := log_Level e;
     log_Message := log_Message e; log_Stream := log_Stream e; log_RepeatCount := n;
     log_FoldKey := log_FoldKey e; log_Seq := log_Seq e; log_LastSeenAt := log_LastSeenAt e |}.

(** The branch of [Append] for a new row; [None] is an index out of range. *)
Definition append_row (row : LogEntry) (b : Buffer) : option Buffer :=
  match b_ring b !! b_head b with
  | None => None
  | Some old =>
      let pos := if negb (log_FoldKey old =? "") then delete (log_FoldKey old) (b_foldPos b)
                 else b_foldPos b in
      Some (with_pending (b_pending b ++ [row])%list
        (with_ring (<[b_head b := row]> (b_ring b)) (S (b_head b) mod b_maxSize b) (S (b_count b))
          (<[log_FoldKey row := b_head b]> pos) b))
  end.

(** The branch of [Append] for a folded line; [rep] is the row of its lane. *)
Definition append_increment (inc : foldIncrement) (rep : LogEntry) (b : Buffer) : Buffer :=
  let ring :=
    match b_foldPos b !! inc_FoldKey inc with
    | Some idx =>
        match b_ring b !! idx with
        | Some row =>
            if log_FoldKey row =? inc_FoldKey inc
            then <[idx := set_count (inc_RepeatCount inc) (log_Timestamp rep) row]> (b_ring b)
            else b_ring b
        | None => b_ring b
        end
    | None => b_ring b
    end in
  with_pending (b_pending b ++ [rep])%list
    (with_ring ring (b_head b) (b_count b) (b_foldPos b) b).

(** The part of [Append] under the lock: the new buffer, the entry to push, the
    channels to push it to, and whether to flush. *)
Definition Append_locked (epoch : string) (keySeq : Z) (e : LogEntry) (b : Buffer)
    : option (Buffer * LogEntry * list nat * bool) :=
  let e := fill_source (b_nodeID b) e in
  let '(t, obs) := observe epoch keySeq e (b_fold b) in
  let b := with_fold t b in
  match (match obs with
         | Emit row => option_map (fun b => (b, row)) (append_row row b)
         | Inc inc =>
             match ft_lanes t !! log_DeploymentID e with
             | Some lane => Some (append_increment inc (lane_rep lane) b, incrementEntry inc)
             | None => None
             end
         end) with
  | Some (b, pushed) =>
      Some (b, pushed, snd <$> map_to_list (b_subs b),
            (flushBatch <=? length (b_pending b))%nat)
  | None => None
  end.

(** The send of [Append] to one channel; [None] is a panic. *)
Definition push (ev : LogEntry) (c : nat) (b : Buffer) : option Buffer :=
  match b_chans b !! c with
  | Some ch =>
      option_map (fun ch => with_subs (b_subs b) (<[c := ch]> (b_chans b)) b)
        (try_send subscriberCap ev ch)
  | None => None
  end.

(** [Recent]; [None] is the panic of [make] with a negative length, or of [% 0]. *)
Definition Recent (n : Z) (b : Buffer) : option (list LogEntry) :=
  let total := Nat.min (b_count b) (b_maxSize b) in
  if (n <? 0)%Z || (b_maxSize b =? 0)%nat then None
  else
    let n := Nat.min (Z.to_nat n) total in
    let start := (b_head b + b_maxSize b - n) mod b_maxSize b in
    Some ((fun i => default zero_entry (b_ring b !! ((start + i) mod b_maxSize b))) <$> seq 0 n).

(** [Subscribe] *)
Definition Subscribe (id : string) (b : Buffer) : Buffer :=
  let '(subs, chans) := subscribe id (b_subs b) (b_chans b) in with_subs subs chans b.

(** [Unsubscribe]; [None] is the panic of closing a closed channel. *)
Definition Unsubscribe (id : string) (b : Buffer) : option Buffer :=
  option_map (fun '(subs, chans) => with_subs subs chans b)
    (unsubscribe id (b_subs b) (b_chans b)).

(** What [sweepFolds] and [Close] do with the rows of the lanes they close. *)
Definition add_closed (closed : list LogEntry) (b : Buffer) : Buffer :=
  with_pending (b_pending b ++ List.filter (fun row => 1 <? log_RepeatCount row)%Z closed) b.

(** [sweepFolds] *)
Definition sweepFolds (now : time) (deps : list string) (b : Buffer) : Buffer :=
  let '(t, closed) := sweep now deps (b_fold b) in add_closed closed (with_fold t b).

(** The part of [Close] under the lock; a flush follows. *)
Definition Close_locked (deps : list string) (b : Buffer) : Buffer :=
  let '(t, closed) := closeAll deps (b_fold b) in add_closed closed (with_fold t b).

(** The part of [flush] under the lock: it takes the batch. *)
Definition flush_take (b : Buffer) : Buffer * list LogEntry := (with_pending [] b, b_pending b).

(** ** Interleavings *)

(** A goroutine that has released the lock: an [Append] that still has to push to
    some channels and maybe to flush, or a [flush] that still has to write. *)
Inductive goroutine : Type :=
| Pushing (ev : LogEntry) (chans : list nat) (shouldFlush : bool)
| Writing (batch : list LogEntry).

(** [sys_written]: what [AppendBatch] has been given, in the order of the calls. *)
Record System : Type := mkSystem {
  sys_buf : Buffer;
  sys_running : gmap nat goroutine;
  sys_next : nat;
  sys_written : list LogEntry;
}.

Inductive action : Type :=
| AAppend (keySeq : Z) (e : LogEntry)   (** [Append], under the lock *)
| AContinue (g : nat)                   (** a goroutine does its next step *)
| AFlush                                (** [flush] of the ticker, under the lock *)
| ASweep (now : time) (deps : list string)
| AClose (deps : list string)
| ASubscribe (id : string)
| AUnsubscribe (id : string)
| AReceive (c : nat)                    (** a subscriber takes an entry *)
| AWindow (d : duration).

Definition start (g : goroutine) (b : Buffer) (s : System) : System :=
  {| sys_buf := b; sys_running := <[sys_next s := g]> (sys_running s);
     sys_next := S (sys_next s); sys_written := sys_written s |}.

Definition set_buf (b : Buffer) (s : System) : System :=
  {| sys_buf := b; sys_running := sys_running s; sys_next := sys_next s;
     sys_written := sys_written s |}.

Definition begin_flush (s : System) : System :=
  let '(b, batch) := flush_take (sys_buf s) in
  match batch with [] => s | _ => start (Writing batch) b s end.

Definition resume (g : nat) (next : option goroutine) (s : System) : System :=
  {| sys_buf := sys_buf s;
     sys_running := match next with
                    | Some r => <[g := r]> (sys_running s)
                    | None => delete g (sys_running s)
                    end;
     sys_next := sys_next s; sys_written := sys_written s |}.

Definition write (batch : list LogEntry) (s : System) : System :=
  {| sys_buf := sys_buf s; sys_running := sys_running s; sys_next := sys_next s;
     sys_written := if b_store (sys_buf s) then sys_written s ++ batch else sys_written s |}.

(** One action; [None] is a panic. *)
Definition exec (epoch : string) (a : action) (s : System) : option System :=
  let b := sys_buf s in
  match a with
  | AAppend keySeq e =>
      match Append_locked epoch keySeq e b with
      | Some (b, pushed, chans, shouldFlush) => Some (start (Pushing pushed chans shouldFlush) b s)
      | None => None
      end
  | AContinue g =>
      match sys_running s !! g with
      | None => Some s
      | Some (Pushing ev (c :: chans) f) =>
          option_map (fun b => resume g (Some (Pushing ev chans f)) (set_buf b s)) (push ev c b)
      | Some (Pushing ev [] true) => Some (begin_flush (resume g None s))
      | Some (Pushing ev [] false) => Some (resume g None s)
      | Some (Writing batch) => Some (write batch (resume g None s))
      end
  | AFlush => Some (begin_flush s)
  | ASweep now deps => Some (set_buf (sweepFolds now deps b) s)
  | AClose deps => Some (begin_flush (set_buf (Close_locked deps b) s))
  | ASubscribe id => Some (set_buf (Subscribe id b) s)
  | AUnsubscribe id => option_map (fun b => set_buf b s) (Unsubscribe id b)
  | AReceive c =>
      Some match b_chans b !! c with
           | Some ch =>
               set_buf (with_subs (b_subs b) (<[c := receive ch]> (b_chans b)) b) s
           | None => s
           end
  | AWindow d => Some (set_buf (SetFoldWindow d b) s)
  end.

Fixpoint exec_all (epoch : string) (acts : list action) (s : System) : option System :=
  match acts with
  | [] => Some s
  | a :: acts' => match exec epoch a s with Some s' => exec_all epoch acts' s' | None => None end
  end.

Definition initial (b : Buffer) : System :=
  {| sys_buf := b; sys_running := ∅; sys_next := 0; sys_written := [] |}.
