(* ===== verification/LogHistory.v ===== *)
(** * What the log buffer shows and stores

    The abstract log of a buffer is the list of all rows ever opened, with a
    repetition count each ([Log]).  The ring of [LogBuffer] refines it under every
    interleaving, and what reaches the store covers it. *)
From stdpp Require Import base list strings gmap.
From Stdlib Require Import ZArith Lia.
From S2P Require Import Prelude Model Channels LogParse LogFold LogBuffer.
Local Open Scope string_scope.

(** ** The abstract log *)

(** [lg_open]: the deployments whose last row can still be folded into;
    [lg_given]: the entries queued for the store so far. *)
Record Log : Type := mkLog {
  lg_window : duration;
  lg_rows : list LogEntry;
  lg_open : gset string;
  lg_marks : gmap string Z;
  lg_given : list LogEntry;
}.

(** The last row of a deployment. *)
Definition last_row (dep : string) (rows : list LogEntry) : option LogEntry :=
  List.find (fun r => dep =? log_DeploymentID r) (rev rows).

(** Change the last row of a deployment. *)
Fixpoint update_last (dep : string) (f : LogEntry -> LogEntry) (rows : list LogEntry)
    : list LogEntry :=
  match rows with
  | [] => []
  | r :: rows' =>
      if bool_decide (last_row dep rows' = None) && (dep =? log_DeploymentID r)
      then f r :: rows' else r :: update_last dep f rows'
  end.

Definition foldable (lg : Log) (e row : LogEntry) : bool :=
  (Normalize (log_Message row) =? Normalize (log_Message e)) &&
  (time_sub (log_Timestamp e) (log_Timestamp row) <? lg_window lg)%Z.

Definition spec_new (epoch : string) (keySeq : Z) (e : LogEntry) (lg : Log) : Log :=
  let dep := log_DeploymentID e in
  let seq := next_seq dep (lg_marks lg) in
  let row := set_fold 1 (nextFoldKey epoch keySeq (log_RunID e)) seq e in
  {| lg_window := lg_window lg; lg_rows := lg_rows lg ++ [row]; lg_open := {[dep]} ∪ lg_open lg;
     lg_marks := <[dep := seq]> (lg_marks lg); lg_given := lg_given lg ++ [row] |}.

Definition spec_fold (e row : LogEntry) (lg : Log) : Log :=
  let n := (log_RepeatCount row + 1)%Z in
  {| lg_window := lg_window lg;
     lg_rows := update_last (log_DeploymentID e) (set_count n (log_Timestamp e)) (lg_rows lg);
     lg_open := lg_open lg; lg_marks := lg_marks lg;
     lg_given := lg_given lg ++ [set_fold n (log_FoldKey row) (log_Seq row) e] |}.

(** A line either repeats the last row of its deployment, or opens a row. *)
Definition spec_line (epoch : string) (keySeq : Z) (e : LogEntry) (lg : Log) : Log :=
  match last_row (log_DeploymentID e) (lg_rows lg) with
  | Some row =>
      if bool_decide (log_DeploymentID e ∈ lg_open lg) && foldable lg e row
      then spec_fold e row lg else spec_new epoch keySeq e lg
  | None => spec_new epoch keySeq e lg
  end.

Definition spec_append (epoch : string) (keySeq : Z) (nodeID : string) (e : LogEntry) (lg : Log) : Log :=
  spec_line epoch keySeq (fill_source nodeID e) lg.

(** ** Rows *)

Lemma last_row_snoc dep rows r :
  last_row dep (rows ++ [r]) = if dep =? log_DeploymentID r then Some r else last_row dep rows.
Proof. unfold last_row. by rewrite rev_app_distr. Qed.

Lemma last_row_cons dep r rows :
  last_row dep (r :: rows) =
  match last_row dep rows with
  | Some x => Some x
  | None => if dep =? log_DeploymentID r then Some r else None
  end.
Proof.
  unfold last_row. simpl. induction (rev rows) as [|x l IH]; simpl; [done|].
  destruct (dep =? log_DeploymentID x); [done|apply IH].
Qed.

Lemma last_row_dep dep rows r : last_row dep rows = Some r -> log_DeploymentID r = dep.
Proof. intros [_ H]%List.find_some. symmetry. by apply String.eqb_eq. Qed.

(** The position of the last row, and what changing it does. *)
Lemma last_row_lookup dep rows r :
  last_row dep rows = Some r ->
  exists i, rows !! i = Some r /\ forall f, update_last dep f rows = <[i := f r]> rows.
Proof.
  induction rows as [|x rows IH]; [done|]. rewrite last_row_cons. intros H.
  destruct (last_row dep rows) as [y|] eqn:E.
  - simplify_eq. destruct (IH eq_refl) as (i & Hi & Hf). exists (S i). split; [done|].
    intros f. simpl. rewrite E. simpl. by rewrite Hf.
  - destruct (dep =? log_DeploymentID x) eqn:Ed; simplify_eq. exists 0. split; [done|].
    intros f. simpl. by rewrite E, Ed.
Qed.

Lemma last_row_Some dep rows r : last_row dep rows = Some r -> r ∈ rows.
Proof. intros (i & Hi & _)%last_row_lookup. by apply list_elem_of_lookup_2 in Hi. Qed.

(** Changing the last row of one deployment leaves the last row of the others. *)
Lemma last_row_update dep dep' f rows r :
  last_row dep rows = Some r -> log_DeploymentID (f r) = dep ->
  last_row dep' (update_last dep f rows) = if dep' =? dep then Some (f r) else last_row dep' rows.
Proof.
  intros H Hf. induction rows as [|x rows IH]; [done|].
  rewrite last_row_cons in H. cbn [update_last].
  destruct (last_row dep rows) as [y|] eqn:E.
  - injection H as ->. simpl. rewrite !last_row_cons, IH by done.
    destruct (dep' =? dep); [done|]. by destruct (last_row dep' rows).
  - destruct (dep =? log_DeploymentID x) eqn:Ed; [|done]. injection H as ->. simpl.
    rewrite !last_row_cons, Hf. apply String.eqb_eq in Ed as <-.
    destruct (String.eqb_spec dep' dep) as [->|Hne]; [by rewrite E|].
    by destruct (last_row dep' rows).
Qed.

(** ** The abstract log of a run *)

Definition expired (lg : Log) (now : time) (dep : string) : bool :=
  match last_row dep (lg_rows lg) with
  | Some row => (lg_window lg <=? time_sub now (log_Timestamp row))%Z
  | None => false
  end.

(** Close the segments of the deployments [deps] that satisfy [p]; [given] is what
    this queues for the store. *)
Definition spec_close (p : string -> bool) (deps : list string) (given : list LogEntry)
    (lg : Log) : Log :=
  {| lg_window := lg_window lg; lg_rows := lg_rows lg;
     lg_open := filter (fun dep => ~ (dep ∈ deps /\ p dep = true)) (lg_open lg);
     lg_marks := lg_marks lg; lg_given := lg_given lg ++ given |}.

(** What an action does to the abstract log of the buffer [b] it acts on. *)
Definition spec_action (epoch : string) (a : action) (b : Buffer) (lg : Log) : Log :=
  match a with
  | AAppend keySeq e => spec_append epoch keySeq (b_nodeID b) e lg
  | ASweep now deps =>
      spec_close (expired lg now) deps
        (List.filter (fun row => 1 <? log_RepeatCount row)%Z (sweep now deps (b_fold b)).2) lg
  | AClose deps =>
      spec_close (fun _ => true) deps
        (List.filter (fun row => 1 <? log_RepeatCount row)%Z (closeAll deps (b_fold b)).2) lg
  | AWindow d =>
      {| lg_window := d; lg_rows := lg_rows lg; lg_open := lg_open lg; lg_marks := lg_marks lg;
         lg_given := lg_given lg |}
  | _ => lg
  end.

Fixpoint spec_all (epoch : string) (acts : list action) (s : System) (lg : Log) : Log :=
  match acts with
  | [] => lg
  | a :: acts' =>
      match exec epoch a s with
      | Some s' => spec_all epoch acts' s' (spec_action epoch a (sys_buf s) lg)
      | None => lg
      end
  end.

Definition initial_log (marks : gmap string Z) : Log :=
  {| lg_window := defaultFoldWindow; lg_rows := []; lg_open := ∅; lg_marks := marks;
     lg_given := [] |}.

(** The values of the process-wide counter that a list of actions uses. *)
Definition key_seqs (acts : list action) : list Z :=
  omap (fun a => match a with AAppend k _ => Some k | _ => None end) acts.

(** ** Representation *)

(** [x] is a version of the row [r]. *)
Definition version_of (x r : LogEntry) : Prop :=
  log_DeploymentID x = log_DeploymentID r /\ log_FoldKey x = log_FoldKey r /\
  log_Seq x = log_Seq r.

Record lane_of (lane : foldLane) (r : LogEntry) : Prop := {
  lo_signature : lane_signature lane = Normalize (log_Message r);
  lo_foldKey : lane_foldKey lane = log_FoldKey r;
  lo_seq : lane_seq lane = log_Seq r;
  lo_count : lane_repeatCount lane = log_RepeatCount r;
  lo_lastSeen : lane_lastSeen lane = log_Timestamp r;
  lo_rep : version_of (lane_rep lane) r;
  lo_rep_count : log_RepeatCount (lane_rep lane) = log_RepeatCount r;
  lo_rep_time : log_Timestamp (lane_rep lane) = log_Timestamp r;
}.

Definition lanes_of (lanes : gmap string foldLane) (lg : Log) : Prop :=
  forall dep, match lanes !! dep with
    | Some lane => dep ∈ lg_open lg /\ exists r, last_row dep (lg_rows lg) = Some r /\ lane_of lane r
    | None => dep ∉ lg_open lg
    end.

Record tracker_of (t : foldTracker) (lg : Log) : Prop := {
  to_window : ft_window t = lg_window lg;
  to_marks : ft_nextSeq t = Some (lg_marks lg);
  to_lanes : lanes_of (ft_lanes t) lg;
}.

(** The ring of size [M] after [rows]: the last [M] rows, at their number modulo [M]. *)
Record ring_of (ring : list LogEntry) (M : nat) (pos : gmap string nat) (rows : list LogEntry) : Prop := {
  ro_length : length ring = M;
  ro_rows : forall i r, rows !! i = Some r -> length rows <= i + M -> ring !! (i mod M) = Some r;
  ro_zero : forall j, length rows <= j -> j < M -> ring !! j = Some zero_entry;
  ro_pos : forall key p, pos !! key = Some p <->
    exists i r, rows !! i = Some r /\ log_FoldKey r = key /\ length rows <= i + M /\ p = i mod M;
  ro_keys : NoDup (log_FoldKey <$> rows);
  ro_nonempty : forall r, r ∈ rows -> log_FoldKey r <> "";
}.

Lemma mod_neq M i n : 0 < M -> i < n -> n < i + M -> i mod M <> n mod M.
Proof.
  intros HM Hi Hn E. pose proof (Nat.div_mod_eq i M). pose proof (Nat.div_mod_eq n M).
  assert (n / M = i / M \/ i / M < n / M) as [Hd|Hd]; nia.
Qed.

Lemma mod_eq_range M i j n :
  0 < M -> i mod M = j mod M -> i < n -> j < n -> n <= i + M -> n <= j + M -> i = j.
Proof.
  intros HM E Hi Hj Hi' Hj'. destruct (lt_eq_lt_dec i j) as [[H|H]|H]; [|done|].
  - exfalso. by apply (mod_neq M i j); [lia..|].
  - exfalso. by apply (mod_neq M j i); [lia..|].
Qed.

(** ** A new row *)

Lemma NoDup_fmap_lookup {A B} (f : A -> B) l i j x y :
  NoDup (f <$> l) -> l !! i = Some x -> l !! j = Some y -> f x = f y -> i = j.
Proof.
  intros HN Hi Hj E. eapply (NoDup_lookup (f <$> l)); [done|..];
    rewrite list_lookup_fmap_Some; eauto.
Qed.

(** What the next row overwrites: nothing yet, or the oldest row of the ring. *)
Lemma ring_overwritten ring M pos rows old :
  0 < M -> ring_of ring M pos rows -> ring !! (length rows mod M) = Some old ->
  (length rows < M /\ old = zero_entry) \/
  (M <= length rows /\ rows !! (length rows - M) = Some old).
Proof.
  intros HM [_ Hrows Hzero _ _ _] Hold. destruct (decide (length rows < M)) as [Hs|Hs].
  - left. rewrite Nat.mod_small, Hzero in Hold by lia. by simplify_eq.
  - right. split; [lia|].
    destruct (lookup_lt_is_Some_2 rows (length rows - M)) as [o Ho]; [lia|].
    pose proof (Hrows _ _ Ho ltac:(lia)) as Hr. rewrite Ho, <-Hold, <-Hr. f_equal.
    replace (length rows) with (length rows - M + 1 * M) at 2 by lia.
    by rewrite Nat.Div0.mod_add.
Qed.

Lemma pos_append ring M pos rows row old :
  0 < M -> ring_of ring M pos rows -> ring !! (length rows mod M) = Some old ->
  log_FoldKey row ∉ (log_FoldKey <$> rows) ->
  forall key p,
    <[log_FoldKey row := length rows mod M]>
      (if negb (log_FoldKey old =? "") then delete (log_FoldKey old) pos else pos) !! key = Some p <->
    exists i r, (rows ++ [row])%list !! i = Some r /\ log_FoldKey r = key /\
      S (length rows) <= i + M /\ p = i mod M.
Proof.
  intros HM HR Hold Hfresh key p.
  pose proof (ring_overwritten _ _ _ _ _ HM HR Hold) as Ho.
  destruct HR as [HL Hrows Hzero Hpos HK HN]. split.
  - intros [[<- <-]|[Hk Hp]]%lookup_insert_Some.
    { exists (length rows), row. split_and!; [|done|lia|done]. apply lookup_snoc_Some. by right. }
    assert (pos !! key = Some p /\ (log_FoldKey old = "" \/ log_FoldKey old <> key)) as [Hp' Hne].
    { destruct (String.eqb_spec (log_FoldKey old) ""); simpl in Hp; [by auto|].
      apply lookup_delete_Some in Hp as [??]. auto. }
    apply Hpos in Hp' as (i & r & Hi & <- & Hw & ->). exists i, r.
    pose proof (lookup_lt_Some _ _ _ Hi). rewrite lookup_app_l by done.
    split_and!; [done..| |done]. destruct (decide (length rows = i + M)) as [E|]; [exfalso|lia].
    destruct Ho as [[? _]|[_ Ho]]; [lia|]. replace (length rows - M) with i in Ho by lia.
    simplify_eq. destruct Hne as [Hne|Hne]; [|done].
    eapply HN; [by eapply list_elem_of_lookup_2|done].
  - intros (i & r & Hi & <- & Hw & ->). apply lookup_snoc_Some in Hi as [[Hlt Hi]|[-> ->]].
    2: by rewrite lookup_insert_eq.
    rewrite lookup_insert_ne.
    2: { intros E. apply Hfresh. rewrite E. apply list_elem_of_fmap_2.
         by eapply list_elem_of_lookup_2. }
    assert (pos !! log_FoldKey r = Some (i mod M)) as Hp.
    { apply Hpos. exists i, r. split_and!; [done..|lia|done]. }
    destruct (String.eqb_spec (log_FoldKey old) "") as [|Hoe]; simpl; [done|].
    rewrite lookup_delete_ne; [done|]. intros Eo.
    destruct Ho as [[_ ->]|[Hle Ho]]; [done|].
    pose proof (NoDup_fmap_lookup _ _ _ _ _ _ HK Ho Hi Eo). lia.
Qed.

Lemma ring_append ring M pos rows row old :
  0 < M -> ring_of ring M pos rows -> ring !! (length rows mod M) = Some old ->
  log_FoldKey row <> "" -> log_FoldKey row ∉ (log_FoldKey <$> rows) ->
  ring_of (<[length rows mod M := row]> ring) M
    (<[log_FoldKey row := length rows mod M]>
       (if negb (log_FoldKey old =? "") then delete (log_FoldKey old) pos else pos))
    (rows ++ [row]).
Proof.
  intros HM HR Hold Hne Hfresh. pose proof (pos_append _ _ _ _ _ _ HM HR Hold Hfresh) as HP.
  destruct HR as [HL Hrows Hzero Hpos HK HN].
  assert (length rows mod M < M) as Hlt by (apply Nat.mod_upper_bound; lia).
  split; rewrite ?length_app; [by rewrite length_insert|..].
  - intros i r Hi Hw. simpl in Hw.
    apply lookup_snoc_Some in Hi as [[Hlt' Hi]|[-> ->]].
    + rewrite list_lookup_insert_ne; [apply Hrows; [done|lia]|].
      apply not_eq_sym, mod_neq; lia.
    + rewrite list_lookup_insert_eq; [done|lia].
  - intros j Hj HjM. simpl in Hj.
    rewrite list_lookup_insert_ne; [apply Hzero; lia|].
    rewrite Nat.mod_small by lia. lia.
  - intros key p. rewrite HP. simpl. replace (length rows + 1) with (S (length rows)) by lia. done.
  - rewrite fmap_app. apply NoDup_app. split_and!; [done| |apply NoDup_singleton].
    intros k Hk ->%list_elem_of_singleton. done.
  - intros r [Hr| ->%list_elem_of_singleton]%elem_of_app; [by apply HN|done].
Qed.

(** ** A folded line *)

(** The count of row [i] changes; its slot, if it still has one, is found by its key. *)
Lemma ring_update ring M pos rows i r r' :
  0 < M -> ring_of ring M pos rows -> rows !! i = Some r -> log_FoldKey r' = log_FoldKey r ->
  ring_of (if bool_decide (length rows <= i + M) then <[i mod M := r']> ring else ring) M pos
    (<[i := r']> rows).
Proof.
  intros HM [HL Hrows Hzero Hpos HK HN] Hi Hk.
  pose proof (lookup_lt_Some _ _ _ Hi) as Hilt.
  assert (log_FoldKey <$> <[i:=r']> rows = log_FoldKey <$> rows) as EK.
  { rewrite list_fmap_insert, Hk. apply list_insert_id. by rewrite list_lookup_fmap, Hi. }
  assert (i mod M < M) as Hlt by (apply Nat.mod_upper_bound; lia).
  split; rewrite ?length_insert, ?EK; [by case_bool_decide; rewrite ?length_insert|..].
  - intros j x Hj Hw. apply list_lookup_insert_Some in Hj as [(-> & -> & _)|[Hne Hj]].
    + rewrite bool_decide_true by done. apply list_lookup_insert_eq. lia.
    + pose proof (lookup_lt_Some _ _ _ Hj). case_bool_decide; [|by apply Hrows].
      rewrite list_lookup_insert_ne; [by apply Hrows|]. intros E.
      apply Hne. by eapply (mod_eq_range M _ _ (length rows)).
  - intros j Hj HjM. case_bool_decide; [|by apply Hzero].
    rewrite list_lookup_insert_ne; [by apply Hzero|]. rewrite Nat.mod_small; lia.
  - intros key p. rewrite Hpos. split; intros (j & x & Hj & <- & Hw & ->).
    + destruct (decide (i = j)) as [->|Hne].
      * simplify_eq. exists j, r'. split_and!; [by apply list_lookup_insert_eq|done..].
      * exists j, x. by rewrite list_lookup_insert_ne.
    + apply list_lookup_insert_Some in Hj as [(-> & -> & _)|[Hne Hj]].
      * exists j, r. by rewrite Hk.
      * by exists j, x.
  - done.
  - intros x Hx. apply (list_elem_of_fmap_2 log_FoldKey) in Hx. rewrite EK in Hx.
    apply list_elem_of_fmap in Hx as (y & -> & Hy). by apply HN.
Qed.

(** ** The tracker *)

Lemma lanes_of_Some lanes lg dep lane :
  lanes_of lanes lg -> lanes !! dep = Some lane ->
  dep ∈ lg_open lg /\ exists r, last_row dep (lg_rows lg) = Some r /\ lane_of lane r.
Proof. intros H E. specialize (H dep). by rewrite E in H. Qed.

Lemma tracker_new epoch keySeq e t lg lane :
  tracker_of t lg -> let lg' := spec_new epoch keySeq e lg in
  let row := set_fold 1 (nextFoldKey epoch keySeq (log_RunID e))
               (next_seq (log_DeploymentID e) (lg_marks lg)) e in
  lane_of lane row ->
  tracker_of {| ft_window := ft_window t; ft_lanes := <[log_DeploymentID e := lane]> (ft_lanes t);
                ft_nextSeq := Some (lg_marks lg') |} lg'.
Proof.
  intros [Hw Hm HL] lg' row Hlane. split; [done..|]. intros dep. simpl.
  destruct (decide (dep = log_DeploymentID e)) as [->|Hne].
  - rewrite lookup_insert_eq. split; [set_solver|]. exists row.
    rewrite last_row_snoc. by rewrite String.eqb_refl.
  - rewrite lookup_insert_ne by done. specialize (HL dep).
    destruct (ft_lanes t !! dep) as [l|]; [|set_solver].
    destruct HL as [Ho HL]. split; [set_solver|]. rewrite last_row_snoc.
    change (log_DeploymentID (set_fold _ _ _ e)) with (log_DeploymentID e).
    by destruct (String.eqb_spec dep (log_DeploymentID e)).
Qed.

Lemma tracker_fold e t lg lane row :
  tracker_of t lg -> last_row (log_DeploymentID e) (lg_rows lg) = Some row ->
  log_DeploymentID e ∈ lg_open lg ->
  lane_of lane (set_count (log_RepeatCount row + 1) (log_Timestamp e) row) ->
  tracker_of {| ft_window := ft_window t; ft_lanes := <[log_DeploymentID e := lane]> (ft_lanes t);
                ft_nextSeq := ft_nextSeq t |} (spec_fold e row lg).
Proof.
  intros [Hw Hm HL] Hlast Hopen Hlane. split; [done..|]. intros dep. simpl.
  rewrite (last_row_update _ _ _ _ _ Hlast) by (by apply last_row_dep in Hlast).
  destruct (String.eqb_spec dep (log_DeploymentID e)) as [->|Hne].
  - rewrite lookup_insert_eq. split; [done|]. by eexists.
  - rewrite lookup_insert_ne by done. apply (HL dep).
Qed.

(** [observe] is [spec_line]; what it returns. *)
Lemma observe_spec epoch keySeq e t lg :
  tracker_of t lg ->
  let '(t', obs) := observe epoch keySeq e t in
  tracker_of t' (spec_line epoch keySeq e lg) /\
  match obs with
  | Emit row =>
      spec_line epoch keySeq e lg = spec_new epoch keySeq e lg /\
      row = set_fold 1 (nextFoldKey epoch keySeq (log_RunID e))
              (next_seq (log_DeploymentID e) (lg_marks lg)) e
  | Inc inc =>
      exists row, last_row (log_DeploymentID e) (lg_rows lg) = Some row /\
        spec_line epoch keySeq e lg = spec_fold e row lg /\
        inc = {| inc_DeploymentID := log_DeploymentID e; inc_FoldKey := log_FoldKey row;
                 inc_RepeatCount := log_RepeatCount row + 1 |} /\
        lane_rep <$> (ft_lanes t' !! log_DeploymentID e) =
          Some (set_fold (log_RepeatCount row + 1) (log_FoldKey row) (log_Seq row) e)
  end.
Proof.
  intros HT. pose proof HT as [Hw Hm HL]. unfold observe. rewrite Hm.
  set (seq := next_seq (log_DeploymentID e) (lg_marks lg)).
  assert (spec_line epoch keySeq e lg = spec_new epoch keySeq e lg ->
    tracker_of
      {| ft_window := ft_window t;
         ft_lanes := <[log_DeploymentID e :=
           {| lane_signature := Normalize (log_Message e);
              lane_foldKey := nextFoldKey epoch keySeq (log_RunID e); lane_seq := seq;
              lane_repeatCount := 1;
              lane_rep := set_fold 1 (nextFoldKey epoch keySeq (log_RunID e)) seq e;
              lane_lastSeen := log_Timestamp e |}]> (ft_lanes t);
         ft_nextSeq := Some (<[log_DeploymentID e := seq]> (lg_marks lg)) |}
      (spec_line epoch keySeq e lg)) as Hnew.
  { intros ->. by apply (tracker_new epoch keySeq e t lg). }
  specialize (HL (log_DeploymentID e)). unfold spec_line in *.
  destruct (ft_lanes t !! log_DeploymentID e) as [lane|].
  - destruct HL as (Ho & row & Hlast & Hl). rewrite Hlast in *.
    rewrite bool_decide_true in * by done. simpl (true && _) in *.
    unfold foldable in *. destruct Hl as [-> Hk Hs Hc -> Hr Hrc Hrt].
    rewrite <-Hw in *. rewrite Hc, Hk, Hs.
    destruct ((Normalize (log_Message row) =? Normalize (log_Message e)) && _)
      eqn:Ef; [|by split; [apply Hnew|]].
    split; [|exists row; simpl; by rewrite lookup_insert_eq].
    rewrite <-Hm. apply tracker_fold; [done..|].
    apply andb_prop in Ef as [Esig%String.eqb_eq _]. pose proof (last_row_dep _ _ _ Hlast).
    by split.
  - rewrite bool_decide_false in * by done. simpl (false && _) in *.
    destruct (last_row _ _); by (split; [apply Hnew|]).
Qed.

(** ** Closing segments *)

Lemma close_lanes_spec p deps t :
  let '(t', closed) := close_lanes p deps t in
  ft_window t' = ft_window t /\ ft_nextSeq t' = ft_nextSeq t /\
  (forall dep, ft_lanes t' !! dep =
     if bool_decide (dep ∈ deps) && from_option p false (ft_lanes t !! dep)
     then None else ft_lanes t !! dep) /\
  (forall x, x ∈ closed -> exists dep lane, ft_lanes t !! dep = Some lane /\ x = lane_rep lane).
Proof.
  revert t; induction deps as [|d deps IH]; intros t; simpl.
  { split_and!; [done..|]. intros x Hx. by apply elem_of_nil in Hx. }
  destruct (ft_lanes t !! d) as [lane|] eqn:E; [destruct (p lane) eqn:Ep|].
  - specialize (IH (with_lanes (delete d (ft_lanes t)) t)).
    destruct (close_lanes p deps _) as [t' closed]. destruct IH as (Hw & Hm & HL & HC).
    split_and!; [done..| |].
    + intros dep. rewrite HL. simpl. destruct (decide (dep = d)) as [->|Hne].
      * rewrite lookup_delete_eq, E. simpl. rewrite Ep, andb_false_r.
        by rewrite bool_decide_true by set_solver.
      * rewrite lookup_delete_ne by done. f_equal.
        rewrite (bool_decide_ext (dep ∈ d :: deps) (dep ∈ deps)) by set_solver. done.
    + intros x [->|Hx]%elem_of_cons; [by exists d, lane|].
      apply HC in Hx as (dep & l & Hl & ->). exists dep, l.
      simpl in Hl. by apply lookup_delete_Some in Hl as [_ Hl].
  - specialize (IH t). destruct (close_lanes p deps t) as [t' closed].
    destruct IH as (Hw & Hm & HL & HC). split_and!; [done..| |done].
    intros dep. rewrite HL. destruct (decide (dep = d)) as [->|Hne].
    + rewrite E. simpl. by rewrite Ep, !andb_false_r.
    + by rewrite (bool_decide_ext (dep ∈ d :: deps) (dep ∈ deps)) by set_solver.
  - specialize (IH t). destruct (close_lanes p deps t) as [t' closed].
    destruct IH as (Hw & Hm & HL & HC). split_and!; [done..| |done].
    intros dep. rewrite HL. destruct (decide (dep = d)) as [->|Hne].
    + rewrite E. simpl. by rewrite !andb_false_r.
    + by rewrite (bool_decide_ext (dep ∈ d :: deps) (dep ∈ deps)) by set_solver.
Qed.

Lemma close_tracker p q deps given t lg :
  tracker_of t lg ->
  (forall dep lane, ft_lanes t !! dep = Some lane -> p lane = q dep) ->
  tracker_of (close_lanes p deps t).1 (spec_close q deps given lg).
Proof.
  intros [Hw Hm HL] Hpq. pose proof (close_lanes_spec p deps t) as H.
  destruct (close_lanes p deps t) as [t' closed]. destruct H as (Hw' & Hm' & HL' & _).
  split; simpl; [congruence..|]. intros dep. simpl. rewrite HL'.
  specialize (HL dep). specialize (Hpq dep).
  destruct (ft_lanes t !! dep) as [lane|]; simpl.
  - rewrite (Hpq lane) by done. destruct HL as [Ho HL].
    destruct (bool_decide (dep ∈ deps) && q dep) eqn:E; simpl.
    + apply andb_prop in E as [E%bool_decide_eq_true ?]. set_solver.
    + split; [|done]. apply elem_of_filter. split; [|done]. intros [Hd Hq].
      rewrite bool_decide_true, Hq in E by done. done.
  - rewrite andb_false_r. set_solver.
Qed.

(** ** The buffer represents the log *)

Section Represents.
Local Open Scope list_scope.
Context (epoch : string) (M : nat).
Context (M_pos : 0 < M).

(** [used]: the values of the counter that made the keys so far. *)
Record represents (used : list Z) (b : Buffer) (lg : Log) : Prop := {
  re_size : b_maxSize b = M;
  re_count : b_count b = length (lg_rows lg);
  re_head : b_head b = length (lg_rows lg) mod M;
  re_ring : ring_of (b_ring b) M (b_foldPos b) (lg_rows lg);
  re_fold : tracker_of (b_fold b) lg;
  re_used : forall r, r ∈ lg_rows lg ->
    exists k run, k ∈ used /\ log_FoldKey r = nextFoldKey epoch k run;
  re_range : forall k, k ∈ used -> (0 <= k < 2 ^ 64)%Z;
}.

(** Two buffers that differ in what the log does not show. *)
Record same_log (b b' : Buffer) : Prop := {
  sl_size : b_maxSize b' = b_maxSize b;
  sl_count : b_count b' = b_count b;
  sl_head : b_head b' = b_head b;
  sl_ring : b_ring b' = b_ring b;
  sl_pos : b_foldPos b' = b_foldPos b;
}.

Lemma represents_same used b b' lg lg' :
  represents used b lg -> same_log b b' -> lg_rows lg' = lg_rows lg ->
  tracker_of (b_fold b') lg' -> represents used b' lg'.
Proof.
  intros [? ? ? ? ? ? ?] [E1 E2 E3 E4 E5] ER HT. split; rewrite ?E1, ?E2, ?E3, ?E4, ?E5, ?ER; done.
Qed.

Lemma mod_succ n : S (n mod M) mod M = S n mod M.
Proof.
  replace (S (n mod M)) with (n mod M + 1) by lia. replace (S n) with (n + 1) by lia.
  by rewrite Nat.Div0.add_mod_idemp_l.
Qed.

(** A fold key is new if its counter value is. *)
Lemma fresh_key used b lg k run :
  represents used b lg -> (0 <= k < 2 ^ 64)%Z -> k ∉ used ->
  nextFoldKey epoch k run ∉ (log_FoldKey <$> lg_rows lg).
Proof.
  intros HR Hk Hnu (r & E & Hr)%list_elem_of_fmap.
  destruct (re_used _ _ _ HR r Hr) as (k' & run' & Hk' & E'). rewrite E' in E.
  apply nextFoldKey_inj in E as ->; [done..|]. by eapply re_range.
Qed.

Lemma append_row_spec used b lg k e t :
  represents used b lg -> (0 <= k < 2 ^ 64)%Z -> k ∉ used ->
  tracker_of t (spec_new epoch k e lg) ->
  let row := set_fold 1 (nextFoldKey epoch k (log_RunID e))
               (next_seq (log_DeploymentID e) (lg_marks lg)) e in
  exists b', append_row row (with_fold t b) = Some b' /\
    represents (k :: used) b' (spec_new epoch k e lg) /\
    b_pending b' = b_pending b ++ [row] /\ b_subs b' = b_subs b /\ b_chans b' = b_chans b /\
    b_store b' = b_store b.
Proof using M_pos.
  intros HR Hk Hnu HT row. unfold append_row. cbn [b_ring b_head with_fold].
  destruct (re_ring _ _ _ HR) as [HL _ _ _ _ _].
  destruct (lookup_lt_is_Some_2 (b_ring b) (b_head b)) as [old Hold].
  { rewrite (re_head _ _ _ HR), HL. apply Nat.mod_upper_bound. lia. }
  rewrite Hold. eexists. split; [done|]. rewrite (re_head _ _ _ HR) in Hold.
  split_and!; try done. pose proof (fresh_key _ _ _ _ (log_RunID e) HR Hk Hnu) as Hfr.
  destruct HR as [E1 E2 E3 HR _ HU HG]. split; simpl.
  - done.
  - rewrite length_app, E2. simpl. lia.
  - rewrite length_app, E1, E3, mod_succ. simpl. f_equal. lia.
  - rewrite E3. apply (ring_append _ _ _ _ row); try done.
    apply nextFoldKey_nonempty.
  - done.
  - intros r [Hr| ->%list_elem_of_singleton]%elem_of_app.
    + destruct (HU r Hr) as (k' & run & ? & ?). exists k', run. split; [by right|done].
    + exists k, (log_RunID e). split; [left|done].
  - intros k' [->|Hk']%elem_of_cons; [done|by apply HG].
Qed.

(** The slot that [append_increment] changes is the one of the row. *)
Lemma append_increment_ring used b lg i row inc :
  represents used b lg -> lg_rows lg !! i = Some row -> inc_FoldKey inc = log_FoldKey row ->
  match b_foldPos b !! inc_FoldKey inc with
  | Some idx =>
      match b_ring b !! idx with
      | Some row' =>
          if log_FoldKey row' =? inc_FoldKey inc then
            forall f, <[idx := f row']> (b_ring b) = <[i mod M := f row]> (b_ring b) /\
              length (lg_rows lg) <= i + M
          else False
      | None => False
      end
  | None => i + M < length (lg_rows lg)
  end.
Proof.
  intros HR Hi ->. destruct (re_ring _ _ _ HR) as [_ Hrows _ Hpos HK _].
  destruct (b_foldPos b !! log_FoldKey row) as [idx|] eqn:Ep.
  - apply Hpos in Ep as (j & x & Hj & Ek & Hw & ->).
    pose proof (NoDup_fmap_lookup _ _ _ _ _ _ HK Hj Hi Ek) as ->. simplify_eq.
    rewrite (Hrows i row), String.eqb_refl by done. done.
  - destruct (decide (length (lg_rows lg) <= i + M)) as [Hw|]; [exfalso|lia].
    assert (b_foldPos b !! log_FoldKey row = Some (i mod M)) as E; [|congruence].
    apply Hpos. by exists i, row.
Qed.

Lemma append_increment_spec used b lg k e row t :
  represents used b lg -> (0 <= k < 2 ^ 64)%Z ->
  last_row (log_DeploymentID e) (lg_rows lg) = Some row -> tracker_of t (spec_fold e row lg) ->
  let n := (log_RepeatCount row + 1)%Z in
  let rep := set_fold n (log_FoldKey row) (log_Seq row) e in
  let inc := {| inc_DeploymentID := log_DeploymentID e; inc_FoldKey := log_FoldKey row;
                inc_RepeatCount := n |} in
  represents (k :: used) (append_increment inc rep (with_fold t b)) (spec_fold e row lg).
Proof using M_pos.
  intros HR Hk Hlast HT n rep inc.
  destruct (last_row_lookup _ _ _ Hlast) as (i & Hi & Hup).
  pose proof (append_increment_ring used b lg i row inc HR Hi eq_refl) as HS.
  destruct HR as [E1 E2 E3 HR _ HU HG].
  pose proof (ring_update _ _ _ _ i row (set_count n (log_Timestamp e) row) M_pos HR Hi eq_refl) as HR'.
  unfold append_increment. split; simpl.
  - done.
  - rewrite Hup, length_insert. done.
  - rewrite Hup, length_insert. done.
  - rewrite Hup. simpl in HS. destruct (b_foldPos b !! log_FoldKey row) as [idx|].
    + destruct (b_ring b !! idx) as [row'|]; [|done].
      destruct (log_FoldKey row' =? log_FoldKey row); [|done].
      destruct (HS (set_count n (log_Timestamp e))) as [-> Hw].
      by rewrite bool_decide_true in HR' by done.
    + by rewrite bool_decide_false in HR' by lia.
  - done.
  - rewrite Hup. intros r Hr. apply (list_elem_of_fmap_2 log_FoldKey) in Hr.
    rewrite list_fmap_insert, list_insert_id in Hr by (by rewrite list_lookup_fmap, Hi).
    apply list_elem_of_fmap in Hr as (r' & E & Hr').
    destruct (HU r' Hr') as (k' & run & ? & ?). exists k', run. split; [by right|congruence].
  - intros k' [->|Hk']%elem_of_cons; [done|by apply HG].
Qed.

Lemma Append_locked_spec used b lg k e :
  represents used b lg -> (0 <= k < 2 ^ 64)%Z -> k ∉ used ->
  let lg' := spec_append epoch k (b_nodeID b) e lg in
  exists b' ev f x,
    Append_locked epoch k e b = Some (b', ev, snd <$> map_to_list (b_subs b), f) /\
    represents (k :: used) b' lg' /\
    b_pending b' = b_pending b ++ [x] /\ lg_given lg' = lg_given lg ++ [x] /\
    b_subs b' = b_subs b /\ b_chans b' = b_chans b /\ b_store b' = b_store b.
Proof using M_pos.
  intros HR Hk Hnu. unfold Append_locked, spec_append. set (e' := fill_source (b_nodeID b) e).
  pose proof (observe_spec epoch k e' (b_fold b) lg (re_fold _ _ _ HR)) as H.
  destruct (observe epoch k e' (b_fold b)) as [t obs]. destruct H as [HT H].
  destruct obs as [row|inc].
  - destruct H as [E ->]. rewrite E in *.
    destruct (append_row_spec used b lg k e' t HR Hk Hnu HT)
      as (b' & -> & HR' & Hp & Hs & Hc & Hst).
    simpl. rewrite Hs. eexists _, _, _, _. split_and!; done.
  - destruct H as (row & Hlast & E & -> & Hlane). rewrite E in *.
    destruct (ft_lanes t !! log_DeploymentID e') as [lane|]; [|done].
    injection Hlane as ->. eexists _, _, _, _. split_and!; [done| |done..].
    by apply append_increment_spec.
Qed.

(** *** Every action *)

Definition batch_of (g : goroutine) : list LogEntry :=
  match g with Writing batch => batch | Pushing _ _ _ => [] end.

(** The batches that have been taken and not yet written. *)
Definition inflight (m : gmap nat goroutine) : list LogEntry :=
  concat ((fun p => batch_of p.2) <$> map_to_list m).

(** All entries on their way to the store, or there. *)
Definition queued (s : System) : list LogEntry :=
  sys_written s ++ inflight (sys_running s) ++ b_pending (sys_buf s).

Record sys_ok (used : list Z) (s : System) (lg : Log) : Prop := {
  so_rep : represents used (sys_buf s) lg;
  so_queued : b_store (sys_buf s) = true -> queued s ≡ₚ lg_given lg;
  so_next : forall g, sys_next s <= g -> sys_running s !! g = None;
}.

Lemma inflight_insert m g r :
  m !! g = None -> inflight (<[g := r]> m) ≡ₚ batch_of r ++ inflight m.
Proof. intros H. unfold inflight. by rewrite map_to_list_insert. Qed.

Lemma inflight_delete m g r :
  m !! g = Some r -> inflight m ≡ₚ batch_of r ++ inflight (delete g m).
Proof. intros H. unfold inflight. by rewrite <-(map_to_list_delete m g r). Qed.

Lemma inflight_replace m g r r' :
  m !! g = Some r -> batch_of r' = batch_of r -> inflight (<[g := r']> m) ≡ₚ inflight m.
Proof.
  intros H E. rewrite (inflight_delete m g r H), <-insert_delete_eq.
  rewrite inflight_insert by apply lookup_delete_eq. by rewrite E.
Qed.

(** A change of the buffer that only concerns subscribers. *)
Lemma sys_ok_subs used s lg subs chans :
  sys_ok used s lg -> sys_ok used (set_buf (with_subs subs chans (sys_buf s)) s) lg.
Proof.
  intros [HR HQ HN]. split; [|done..].
  apply (represents_same used (sys_buf s) _ lg lg); [done..|apply HR].
Qed.

Lemma begin_flush_ok used s lg : sys_ok used s lg -> sys_ok used (begin_flush s) lg.
Proof.
  intros [HR HQ HN]. unfold begin_flush, flush_take.
  destruct (b_pending (sys_buf s)) as [|x l] eqn:E; [by split|]. split; simpl.
  - apply (represents_same used (sys_buf s) _ lg lg); [done..|apply HR].
  - intros Hst. rewrite <-HQ by done. unfold queued. simpl. rewrite inflight_insert by (by apply HN).
    rewrite E, app_nil_r. simpl. f_equiv. by rewrite (Permutation_app_comm _ (x :: l)).
  - intros g Hg. rewrite lookup_insert_ne by lia. apply HN. lia.
Qed.

Lemma close_ok used s lg p q deps :
  sys_ok used s lg ->
  (forall dep lane, ft_lanes (b_fold (sys_buf s)) !! dep = Some lane -> p lane = q dep) ->
  sys_ok used
    (set_buf (let '(t, closed) := close_lanes p deps (b_fold (sys_buf s)) in
              add_closed closed (with_fold t (sys_buf s))) s)
    (spec_close q deps
      (List.filter (fun row => 1 <? log_RepeatCount row)%Z
        (close_lanes p deps (b_fold (sys_buf s))).2) lg).
Proof.
  intros [HR HQ HN] Hpq.
  pose proof (close_tracker p q deps
    (List.filter (fun row => 1 <? log_RepeatCount row)%Z
        (close_lanes p deps (b_fold (sys_buf s))).2) _ _ (re_fold _ _ _ HR) Hpq) as HT.
  destruct (close_lanes p deps (b_fold (sys_buf s))) as [t closed]. split; [| |done].
  - apply (represents_same used (sys_buf s) _ lg _); done.
  - intros Hst. unfold spec_close. cbn [lg_given]. rewrite <-HQ by done. unfold queued. simpl. by rewrite !app_assoc.
Qed.

Lemma resume_ok used s lg g r next :
  sys_ok used s lg -> sys_running s !! g = Some r -> batch_of r = [] ->
  from_option batch_of [] next = [] -> sys_ok used (resume g next s) lg.
Proof.
  intros [HR HQ HN] Hg Hb Hn. split; [done| |].
  - intros Hst. rewrite <-HQ by done. unfold queued. simpl. f_equiv. f_equiv. destruct next as [r'|].
    + apply (inflight_replace _ _ r); [done|]. by rewrite Hb.
    + rewrite (inflight_delete (sys_running s) g r Hg). by rewrite Hb.
  - intros g' Hg'. simpl. assert (g <> g') by (intros ->; by rewrite HN in Hg).
    destruct next; [rewrite lookup_insert_ne|rewrite lookup_delete_ne]; auto.
Qed.

Lemma write_ok used s lg g batch :
  sys_ok used s lg -> sys_running s !! g = Some (Writing batch) ->
  sys_ok used (write batch (resume g None s)) lg.
Proof.
  intros [HR HQ HN] Hg. split; [done| |].
  - simpl. intros Hst. rewrite <-HQ by done. unfold queued. simpl. rewrite Hst.
    rewrite (inflight_delete (sys_running s) g _ Hg). simpl. by rewrite <-!app_assoc.
  - intros g' Hg'. simpl. assert (g <> g') by (intros ->; by rewrite HN in Hg).
    rewrite lookup_delete_ne; auto.
Qed.

Lemma push_subs ev c b b' :
  push ev c b = Some b' -> exists chs, b' = with_subs (b_subs b) chs b.
Proof.
  unfold push. destruct (b_chans b !! c) as [ch|]; [|done].
  destruct (try_send subscriberCap ev ch); intros H; simplify_eq/=. by eexists.
Qed.

Lemma expired_lane used b lg now dep lane :
  represents used b lg -> ft_lanes (b_fold b) !! dep = Some lane ->
  (ft_window (b_fold b) <=? time_sub now (lane_lastSeen lane))%Z = expired lg now dep.
Proof.
  intros HR Hl. destruct (re_fold _ _ _ HR) as [Hw _ HL].
  destruct (lanes_of_Some _ _ _ _ HL Hl) as (_ & r & Hr & Hlane).
  unfold expired. by rewrite Hr, Hw, (lo_lastSeen _ _ Hlane).
Qed.

(** Every action keeps the correspondence. *)
Lemma exec_ok used a s s' lg :
  sys_ok used s lg ->
  (forall k, k ∈ key_seqs [a] -> k ∉ used /\ (0 <= k < 2 ^ 64)%Z) ->
  exec epoch a s = Some s' ->
  sys_ok (key_seqs [a] ++ used) s' (spec_action epoch a (sys_buf s) lg).
Proof using M_pos.
  intros HS Hk H. destruct a as [k e|g| |now deps|deps|id|id|c|d]; simpl in H |- *; simplify_eq.
  - destruct (Hk k) as [Hnu Hr]; [by left|].
    destruct HS as [HR HQ HN].
    destruct (Append_locked_spec used (sys_buf s) lg k e HR Hr Hnu)
      as (b' & ev & f & x & E & HR' & Hp & Hg & _ & _ & Hst).
    rewrite E in H. simplify_eq. split; simpl; [done| |].
    + intros Hst'. rewrite Hg, <-HQ by congruence. unfold queued. simpl.
      rewrite inflight_insert by (by apply HN). rewrite Hp. simpl. by rewrite !app_assoc.
    + intros g Hg'. rewrite lookup_insert_ne by lia. apply HN. lia.
  - destruct (sys_running s !! g) as [[ev [|c chans] f|batch]|] eqn:Eg; simplify_eq; try done.
    + destruct f; simplify_eq; [apply begin_flush_ok|]; by eapply resume_ok.
    + assert (sys_ok used s' lg); [|by destruct f].
      destruct (push ev c (sys_buf s)) as [b|] eqn:Ep; [|by destruct f].
      apply push_subs in Ep as [chs ->].
      assert (s' = resume g (Some (Pushing ev chans f)) (set_buf (with_subs (b_subs (sys_buf s)) chs (sys_buf s)) s))
        as -> by (destruct f; by simplify_eq/=).
      eapply resume_ok; [by apply sys_ok_subs|done..].
    + by apply write_ok.
  - by apply begin_flush_ok.
  - apply close_ok; [done|]. intros dep lane. apply (expired_lane used), HS.
  - apply begin_flush_ok, close_ok; done.
  - by apply sys_ok_subs.
  - unfold Unsubscribe in H. destruct (unsubscribe _ _ _) as [[subs chans]|]; simplify_eq/=.
    by apply sys_ok_subs.
  - destruct (b_chans (sys_buf s) !! c); [by apply sys_ok_subs|done].
  - destruct HS as [HR HQ HN]. split; [|done..].
    apply (represents_same used (sys_buf s) _ lg _); [done..|].
    destruct (re_fold _ _ _ HR) as [Hw Hm HL]. by split.
Qed.

(** The counter values of a list of actions, taken apart. *)
Lemma keys_cons a acts used :
  NoDup (key_seqs (a :: acts) ++ used) ->
  Forall (fun k => 0 <= k < 2 ^ 64)%Z (key_seqs (a :: acts)) ->
  (forall k, k ∈ key_seqs [a] -> k ∉ used /\ (0 <= k < 2 ^ 64)%Z) /\
  NoDup (key_seqs acts ++ key_seqs [a] ++ used) /\
  Forall (fun k => 0 <= k < 2 ^ 64)%Z (key_seqs acts).
Proof.
  assert (key_seqs (a :: acts) = key_seqs [a] ++ key_seqs acts) as -> by (by destruct a).
  intros HN [HFa HF]%Forall_app. split_and!; [| |done].
  - intros k Hk. split; [|by eapply Forall_forall in HFa].
    rewrite <-app_assoc in HN. apply NoDup_app in HN as (_ & HN & _).
    intros Hu. eapply HN; [done|]. apply elem_of_app. by right.
  - by rewrite app_assoc, (Permutation_app_comm (key_seqs acts)).
Qed.

Lemma exec_all_ok acts : forall used s s' lg,
  sys_ok used s lg -> NoDup (key_seqs acts ++ used) ->
  Forall (fun k => 0 <= k < 2 ^ 64)%Z (key_seqs acts) ->
  exec_all epoch acts s = Some s' ->
  exists used', sys_ok used' s' (spec_all epoch acts s lg).
Proof using M_pos.
  induction acts as [|a acts IH]; intros used s s' lg HS HN HF H;
    cbn [exec_all spec_all] in *; [simplify_eq; by exists used|].
  destruct (exec epoch a s) as [s1|] eqn:E; [|done].
  destruct (keys_cons _ _ _ HN HF) as (Hk & HN' & HF').
  apply (IH (key_seqs [a] ++ used) s1); [|done..]. by eapply exec_ok.
Qed.

(** [Recent] shows the last rows. *)
Lemma Recent_spec used b lg n :
  represents used b lg -> (0 <= n)%Z ->
  Recent n b = Some (keep_last (Nat.min (Z.to_nat n) M) (lg_rows lg)).
Proof using M_pos.
  intros [E1 E2 E3 [_ Hrows _ _ _ _] _ _ _] Hn. unfold Recent. rewrite E1, E2, E3.
  replace (n <? 0)%Z with false by lia. rewrite (proj2 (Nat.eqb_neq M 0)) by lia. simpl.
  set (L := length (lg_rows lg)) in *. set (k := Nat.min (Z.to_nat n) (Nat.min L M)).
  f_equal. unfold keep_last. replace (length (lg_rows lg) - Nat.min (Z.to_nat n) M) with (L - k) by lia.
  apply list_eq. intros i. rewrite list_lookup_fmap, lookup_drop.
  destruct (decide (i < k)) as [Hi|Hi].
  - rewrite lookup_seq_lt by done. simpl.
    destruct (lookup_lt_is_Some_2 (lg_rows lg) (L - k + i)) as [r Hr]; [lia|].
    rewrite Hr. specialize (Hrows _ _ Hr ltac:(lia)).
    replace (((L mod M + M - k) mod M + i) mod M) with ((L - k + i) mod M); [by rewrite Hrows|].
    rewrite Nat.Div0.add_mod_idemp_l.
    replace (L mod M + M - k + i) with (L mod M + (M - k + i)) by lia.
    rewrite Nat.Div0.add_mod_idemp_l.
    replace (L + (M - k + i)) with (L - k + i + 1 * M) by lia. by rewrite Nat.Div0.mod_add.
  - rewrite lookup_seq_ge, (lookup_ge_None_2 (lg_rows lg)) by lia. done.
Qed.

Lemma initial_ok store node marks :
  sys_ok [] (initial (New store M node marks)) (initial_log marks).
Proof using M_pos.
  split; [split| |]; simpl; try done.
  - by rewrite Nat.Div0.mod_0_l.
  - split; simpl; try done.
    + apply length_replicate.
    + intros j _ Hj. by apply lookup_replicate_2.
    + intros key p. rewrite lookup_empty. split; [done|]. by intros (i & r & ? & _).
    + constructor.
    + intros r Hr. by apply elem_of_nil in Hr.
  - split; [done..|]. intros dep. simpl. rewrite lookup_empty. set_solver.
  - intros r Hr. by apply elem_of_nil in Hr.
  - intros r Hr. by apply elem_of_nil in Hr.
Qed.
End Represents.
