(* ===== verification/LogTheorems.v ===== *)
(** * Theorems on the log buffer

    For every interleaving of the callers of a buffer: what [Recent] returns, how
    rows account for lines, what the store is given, and when a push can panic. *)
From stdpp Require Import base list strings gmap.
From Stdlib Require Import ZArith Lia.
From S2P Require Import Prelude Model Channels LogParse LogFold LogBuffer LogHistory.
Local Open Scope string_scope.
Local Open Scope list_scope.

(** A run of a new buffer. *)
Definition run (epoch : string) (store : bool) (M : nat) (node : string) (marks : gmap string Z)
    (acts : list action) : option System :=
  exec_all epoch acts (initial (New store M node marks)).

Definition log_of (epoch : string) (store : bool) (M : nat) (node : string)
    (marks : gmap string Z) (acts : list action) : Log :=
  spec_all epoch acts (initial (New store M node marks)) (initial_log marks).

(** The counter of fold keys never repeats a value. *)
Definition fresh_keys (acts : list action) : Prop :=
  NoDup (key_seqs acts) /\ Forall (fun k => 0 <= k < 2 ^ 64)%Z (key_seqs acts).

Lemma run_ok epoch store M node marks acts s :
  0 < M -> fresh_keys acts -> run epoch store M node marks acts = Some s ->
  exists used, sys_ok epoch M used s (log_of epoch store M node marks acts).
Proof.
  intros HM [HN HF] H. eapply (exec_all_ok epoch M HM acts []); [by apply initial_ok|..|done|done].
  by rewrite app_nil_r.
Qed.

(** C17: after any interleaving of appends, flushes, sweeps, subscriptions and changes of the
    window, [Recent n] returns the last [n] rows of the log, oldest first, at most as many as the
    ring holds: the ring, its write position and the positions of the fold keys always represent
    the abstract log, in which a line repeats the last row of its deployment or opens a row. *)
Theorem Recent_last_rows epoch store M node marks acts s n :
  0 < M -> fresh_keys acts -> run epoch store M node marks acts = Some s -> (0 <= n)%Z ->
  Recent n (sys_buf s) =
    Some (keep_last (Nat.min (Z.to_nat n) M) (lg_rows (log_of epoch store M node marks acts))).
Proof.
  intros HM HK HR Hn. destruct (run_ok _ _ _ _ _ _ _ HM HK HR) as [used HS].
  eapply (Recent_spec epoch M HM); [apply HS|done].
Qed.

(** ** Laws of the abstract log *)

Definition rows_of (dep : string) (rows : list LogEntry) : list LogEntry :=
  List.filter (fun r => dep =? log_DeploymentID r) rows.

Definition total (dep : string) (rows : list LogEntry) : Z :=
  foldr (fun r acc => log_RepeatCount r + acc)%Z 0%Z (rows_of dep rows).

(** The lines that a run appends for a deployment. *)
Definition lines (dep : string) (acts : list action) : nat :=
  length (List.filter (fun a => match a with
    | AAppend _ e => dep =? log_DeploymentID e | _ => false end) acts).

Lemma rows_of_snoc dep rows r :
  rows_of dep (rows ++ [r]) =
    rows_of dep rows ++ (if dep =? log_DeploymentID r then [r] else []).
Proof. unfold rows_of. rewrite List.filter_app. simpl. by destruct (_ =? _). Qed.

Lemma total_snoc dep rows r :
  total dep (rows ++ [r]) =
    (total dep rows + (if (dep =? log_DeploymentID r)%string then log_RepeatCount r else 0))%Z.
Proof.
  unfold total. rewrite rows_of_snoc, foldr_app.
  destruct (dep =? log_DeploymentID r); simpl; [|lia].
  generalize (log_RepeatCount r) as c. intros c.
  induction (rows_of dep rows) as [|x l IH]; simpl; lia.
Qed.

(** Changing the count of the last row of a deployment. *)
Lemma rows_of_update dep dep' rows row n ts :
  last_row dep rows = Some row ->
  total dep' (update_last dep (set_count n ts) rows) =
    (total dep' rows + (if (dep' =? dep)%string then n - log_RepeatCount row else 0))%Z /\
  (log_Seq <$> rows_of dep' (update_last dep (set_count n ts) rows)) = log_Seq <$> rows_of dep' rows.
Proof.
  intros H. induction rows as [|x rows IH]; [done|]. rewrite last_row_cons in H. cbn [update_last].
  destruct (last_row dep rows) as [y|] eqn:E.
  - specialize (IH H) as [IHt IHs]. simpl. unfold total, rows_of in *. simpl.
    destruct (dep' =? log_DeploymentID x); simpl; (split; [rewrite IHt; lia|]);
      [f_equal|]; exact IHs.
  - destruct (dep =? log_DeploymentID x) eqn:Ed; [|done]. injection H as ->. simpl.
    apply String.eqb_eq in Ed as ->. unfold total, rows_of. simpl.
    destruct (dep' =? log_DeploymentID row); simpl; (split; [lia|done]).
Qed.

(** The counts, the sequence numbers and the entries given to the store, after
    lines counted by [n]; [m0] are the watermarks at the start. *)
Record log_ok (m0 : gmap string Z) (n : string -> nat) (lg : Log) : Prop := {
  lk_total : forall dep, total dep (lg_rows lg) = Z.of_nat (n dep);
  lk_mark : forall dep, (default 0 (lg_marks lg !! dep) mod 2 ^ 64 =
    (default 0 (m0 !! dep) + Z.of_nat (length (rows_of dep (lg_rows lg)))) mod 2 ^ 64)%Z;
  lk_seqs : forall dep, log_Seq <$> rows_of dep (lg_rows lg) =
    (fun i => (default 0 (m0 !! dep) + 1 + Z.of_nat i) mod 2 ^ 64)%Z <$>
      seq 0 (length (rows_of dep (lg_rows lg)));
}.

Lemma fill_source_dep node e : log_DeploymentID (fill_source node e) = log_DeploymentID e.
Proof. unfold fill_source. by destruct (_ && _). Qed.

Lemma log_ok_new epoch k e m0 n lg :
  log_ok m0 n lg ->
  log_ok m0 (fun dep => n dep + if dep =? log_DeploymentID e then 1 else 0) (spec_new epoch k e lg).
Proof.
  intros [HT HM HS]. split; intros dep; simpl.
  - rewrite total_snoc, HT. simpl. destruct (dep =? log_DeploymentID e); lia.
  - rewrite rows_of_snoc, length_app. simpl.
    destruct (String.eqb_spec dep (log_DeploymentID e)) as [->|Hne]; simpl.
    + rewrite lookup_insert_eq. simpl. unfold next_seq. rewrite Z.mod_mod by lia.
      rewrite <-Zplus_mod_idemp_l, HM, Zplus_mod_idemp_l. f_equal. lia.
    + rewrite lookup_insert_ne, Nat.add_0_r by done. apply HM.
  - rewrite rows_of_snoc, fmap_app, length_app, HS. simpl.
    destruct (String.eqb_spec dep (log_DeploymentID e)) as [->|Hne]; simpl.
    + rewrite Nat.add_1_r, seq_S, fmap_app. simpl. f_equal. f_equal. unfold next_seq.
      rewrite <-Zplus_mod_idemp_l, HM, Zplus_mod_idemp_l. f_equal. lia.
    + by rewrite Nat.add_0_r, app_nil_r.
Qed.

Lemma rows_of_length_seq dep rows : length (log_Seq <$> rows_of dep rows) = length (rows_of dep rows).
Proof. apply length_fmap. Qed.

Lemma log_ok_line epoch k e m0 n lg :
  log_ok m0 n lg ->
  log_ok m0 (fun dep => n dep + if dep =? log_DeploymentID e then 1 else 0) (spec_line epoch k e lg).
Proof.
  intros HL. unfold spec_line. destruct (last_row _ _) as [row|] eqn:E; [|by apply log_ok_new].
  destruct (_ && _); [|by apply log_ok_new]. destruct HL as [HT HM HS].
  assert (forall dep, length (rows_of dep (lg_rows (spec_fold e row lg))) =
    length (rows_of dep (lg_rows lg))) as HLen.
  { intros dep. rewrite <-!(rows_of_length_seq dep). simpl.
    by rewrite (proj2 (rows_of_update _ dep _ _ _ _ E)). }
  split; intros dep; rewrite ?HLen; [|done|].
  - simpl. rewrite (proj1 (rows_of_update _ dep _ _ _ _ E)), HT.
    destruct (dep =? log_DeploymentID e); lia.
  - rewrite <-HS. simpl. apply (rows_of_update _ dep _ _ _ _ E).
Qed.

Lemma log_ok_ext m0 n n' lg : (forall dep, n dep = n' dep) -> log_ok m0 n lg -> log_ok m0 n' lg.
Proof. intros E [HT HM HS]. split; [|done..]. intros dep. by rewrite <-E. Qed.

Lemma spec_all_ok epoch m0 acts : forall n s s' lg,
  log_ok m0 n lg -> exec_all epoch acts s = Some s' ->
  log_ok m0 (fun dep => n dep + lines dep acts) (spec_all epoch acts s lg).
Proof.
  induction acts as [|a acts IH]; intros n s s' lg HL H; cbn [exec_all spec_all] in *.
  { eapply log_ok_ext; [|exact HL]. intros dep. unfold lines. simpl. lia. }
  destruct (exec epoch a s) as [s1|]; [|done].
  eapply log_ok_ext; [|eapply IH; [|done]].
  2: instantiate (1 := fun dep => n dep + lines dep [a]).
  - intros dep. unfold lines. simpl. destruct a; simpl; try lia.
    destruct (dep =? log_DeploymentID e); simpl; lia.
  - destruct a; simpl; try (eapply log_ok_ext; [|exact HL]; intros dep; unfold lines; simpl; lia).
    + unfold spec_append. eapply log_ok_ext; [|apply log_ok_line, HL].
      intros dep. unfold lines. simpl. rewrite fill_source_dep.
      by destruct (dep =? log_DeploymentID e).
    + destruct HL as [HT HM HS]. split; [|done..]. intros dep. simpl. rewrite HT. unfold lines. simpl. lia.
    + destruct HL as [HT HM HS]. split; [|done..]. intros dep. simpl. rewrite HT. unfold lines. simpl. lia.
    + destruct HL as [HT HM HS]. split; [|done..]. intros dep. simpl. rewrite HT. unfold lines. simpl. lia.
Qed.

(** Folding loses no line: the counts of the rows of a deployment add up to the lines
    appended for it, and its rows are numbered consecutively from the watermark given at the
    start (on 64 bits), a folded line using no number. *)
Theorem rows_account_for_lines epoch store M node marks acts s dep :
  run epoch store M node marks acts = Some s ->
  let rows := lg_rows (log_of epoch store M node marks acts) in
  total dep rows = Z.of_nat (lines dep acts) /\
  log_Seq <$> rows_of dep rows =
    (fun i => (default 0 (marks !! dep) + 1 + Z.of_nat i) mod 2 ^ 64)%Z <$>
      seq 0 (length (rows_of dep rows)).
Proof.
  intros H. assert (log_ok marks (fun _ => 0) (initial_log marks)) as H0.
  { split; intros d; [done| |done]. simpl. f_equal. lia. }
  destruct (spec_all_ok epoch marks acts _ _ _ _ H0 H) as [HT _ HS]. by split; [rewrite HT|].
Qed.

(** ** What the store is given *)

(** The last entry with a fold key: the one an upsert leaves. *)
Definition last_given (key : string) (given : list LogEntry) : option LogEntry :=
  List.find (fun x => key =? log_FoldKey x) (rev given).

(** [x] says of the row [r] what it is now. *)
Definition current (x r : LogEntry) : Prop :=
  version_of x r /\ log_RepeatCount x = log_RepeatCount r /\ log_Timestamp x = log_Timestamp r.

Record given_ok (lg : Log) : Prop := {
  gv_last : forall r, r ∈ lg_rows lg ->
    exists x, last_given (log_FoldKey r) (lg_given lg) = Some x /\ current x r;
  gv_all : forall x, x ∈ lg_given lg ->
    exists r, r ∈ lg_rows lg /\ version_of x r /\ (log_RepeatCount x <= log_RepeatCount r)%Z;
}.

Lemma last_given_app key given l :
  last_given key (given ++ l) =
  match last_given key l with Some x => Some x | None => last_given key given end.
Proof.
  unfold last_given. rewrite rev_app_distr. induction (rev l) as [|x k IH]; simpl; [done|].
  by destruct (key =? log_FoldKey x).
Qed.

Lemma last_given_Some key given x :
  last_given key given = Some x -> x ∈ given /\ log_FoldKey x = key.
Proof.
  intros [H E]%List.find_some. rewrite <-in_rev, <-list_elem_of_In in H.
  split; [done|symmetry; by apply String.eqb_eq].
Qed.

(** Adding entries that are current for rows whose keys are distinct. *)
Lemma given_ok_extend (rows rows' given l : list LogEntry) :
  NoDup (log_FoldKey <$> rows') ->
  (forall x, x ∈ l -> exists r, r ∈ rows' /\ current x r) ->
  (forall r, r ∈ rows' -> (r ∈ rows /\ exists x, last_given (log_FoldKey r) given = Some x /\ current x r) \/
    log_FoldKey r ∈ (log_FoldKey <$> l)) ->
  forall r, r ∈ rows' -> exists x, last_given (log_FoldKey r) (given ++ l) = Some x /\ current x r.
Proof.
  intros HK Hl Hr r Hin. rewrite last_given_app.
  destruct (last_given (log_FoldKey r) l) as [x|] eqn:E.
  - apply last_given_Some in E as [Hx Ek]. exists x. split; [done|].
    destruct (Hl x Hx) as (r' & Hin' & Hc). destruct Hc as [(? & Ek' & ?) ?].
    apply list_elem_of_lookup in Hin as [i Hi]. apply list_elem_of_lookup in Hin' as [j Hj].
    assert (i = j) as ->; [|by simplify_eq].
    eapply (NoDup_fmap_lookup log_FoldKey); [done..|congruence].
  - destruct (Hr r Hin) as [[_ Hx]|Hx]; [done|exfalso].
    apply list_elem_of_fmap in Hx as (x & Ex & Hx).
    unfold last_given in E. apply (List.find_none _ _) with (x := x) in E.
    + by rewrite Ex, String.eqb_refl in E.
    + by rewrite <-in_rev, <-list_elem_of_In.
Qed.

Lemma current_refl x : current x x.
Proof. by repeat split. Qed.

Lemma given_ok_new epoch k e lg :
  NoDup (log_FoldKey <$> lg_rows (spec_new epoch k e lg)) -> given_ok lg ->
  given_ok (spec_new epoch k e lg).
Proof.
  intros HN [HL HA]. split; simpl in *.
  - apply (given_ok_extend (lg_rows lg)); [done|..].
    + intros x ->%list_elem_of_singleton. eexists. split; [|apply current_refl].
      apply elem_of_app. right. by apply list_elem_of_singleton.
    + intros r [Hr| ->%list_elem_of_singleton]%elem_of_app; [by auto|right; left].
  - intros x [Hx| ->%list_elem_of_singleton]%elem_of_app.
    + destruct (HA x Hx) as (r & Hr & Hv). exists r. split; [|done]. apply elem_of_app. by left.
    + eexists. split; [apply elem_of_app; right; by apply list_elem_of_singleton|].
      split; [by repeat split|done].
Qed.

Lemma given_ok_fold e row lg :
  last_row (log_DeploymentID e) (lg_rows lg) = Some row ->
  NoDup (log_FoldKey <$> lg_rows (spec_fold e row lg)) -> given_ok lg ->
  given_ok (spec_fold e row lg).
Proof.
  intros Hlast HN [HL HA]. destruct (last_row_lookup _ _ _ Hlast) as (i & Hi & Hup).
  pose proof (last_row_dep _ _ _ Hlast) as Hdep.
  pose proof (lookup_lt_Some _ _ _ Hi) as Hlt.
  unfold spec_fold in *. cbn [lg_rows lg_given] in *. rewrite Hup in *.
  set (row' := set_count (log_RepeatCount row + 1) (log_Timestamp e) row) in *.
  assert (log_FoldKey row' = log_FoldKey row) as Ek' by done.
  assert (row' ∈ <[i := row']> (lg_rows lg)) as Hin'.
  { eapply list_elem_of_lookup_2, list_lookup_insert_eq, Hlt. }
  split; cbn [lg_rows lg_given].
  - apply (given_ok_extend (lg_rows lg)); [done|..].
    + intros x ->%list_elem_of_singleton. exists row'. split; [done|]. by repeat split.
    + intros r [j Hj]%list_elem_of_lookup.
      apply list_lookup_insert_Some in Hj as [(-> & -> & _)|[_ Hj%list_elem_of_lookup_2]].
      * right. rewrite Ek'. left.
      * left. split; [done|by apply HL].
  - intros x [Hx| ->%list_elem_of_singleton]%elem_of_app.
    + destruct (HA x Hx) as (r & Hr & Hv & Hc). apply list_elem_of_lookup in Hr as [j Hj].
      destruct (decide (j = i)) as [->|Hne].
      * simplify_eq. exists row'. split_and!; [done|done|]. simpl. lia.
      * exists r. split_and!; [|done..]. eapply list_elem_of_lookup_2.
        by rewrite list_lookup_insert_ne.
    + exists row'. split_and!; [done|by repeat split|done].
Qed.

Lemma given_ok_close p q deps t lg :
  tracker_of t lg -> NoDup (log_FoldKey <$> lg_rows lg) -> given_ok lg ->
  given_ok (spec_close q deps
    (List.filter (fun row => 1 <? log_RepeatCount row)%Z (close_lanes p deps t).2) lg).
Proof.
  intros HT HN [HL HA].
  assert (forall x, x ∈ List.filter (fun row => 1 <? log_RepeatCount row)%Z (close_lanes p deps t).2 ->
    exists r, r ∈ lg_rows lg /\ current x r) as HC.
  { intros x [Hx _]%list_elem_of_In%filter_In. rewrite <-list_elem_of_In in Hx.
    pose proof (close_lanes_spec p deps t) as H. destruct (close_lanes p deps t) as [t' closed].
    destruct H as (_ & _ & _ & H). destruct (H x Hx) as (dep & lane & Hl & ->).
    destruct (lanes_of_Some _ _ _ _ (to_lanes _ _ HT) Hl) as (_ & r & Hr & Hlane).
    exists r. split; [by eapply last_row_Some|].
    split_and!; [apply (lo_rep _ _ Hlane)|apply (lo_rep_count _ _ Hlane)|apply (lo_rep_time _ _ Hlane)]. }
  split; simpl.
  - apply (given_ok_extend (lg_rows lg)); [done..|]. intros r Hr. left. auto.
  - intros x [Hx|Hx]%elem_of_app; [by auto|]. destruct (HC x Hx) as (r & ? & ? & Hc & _).
    exists r. split_and!; [done..|]. by rewrite Hc.
Qed.

Lemma rows_keys epoch M used s lg : sys_ok epoch M used s lg -> NoDup (log_FoldKey <$> lg_rows lg).
Proof. intros HS. apply (ro_keys _ _ _ _ (re_ring _ _ _ _ _ (so_rep _ _ _ _ _ HS))). Qed.

Lemma given_ok_step epoch M used s lg a :
  sys_ok epoch M used s lg -> given_ok lg ->
  NoDup (log_FoldKey <$> lg_rows (spec_action epoch a (sys_buf s) lg)) ->
  given_ok (spec_action epoch a (sys_buf s) lg).
Proof.
  intros HS HG HN. pose proof (rows_keys _ _ _ _ _ HS) as HK.
  pose proof (re_fold _ _ _ _ _ (so_rep _ _ _ _ _ HS)) as HT.
  destruct a; simpl in *; try done.
  - unfold spec_append, spec_line in *. destruct (last_row _ _) as [row|] eqn:E;
      [destruct (_ && _)|]; auto using given_ok_new, given_ok_fold.
  - by apply given_ok_close.
  - by apply given_ok_close.
  - destruct HG as [HL HA]. by split.
Qed.

(** *** In order, when flushes do not overlap *)

Definition writer (g : goroutine) : list (list LogEntry) :=
  match g with Writing batch => [batch] | Pushing _ _ _ => [] end.

(** The batches that are being written. *)
Definition writers (m : gmap nat goroutine) : list (list LogEntry) :=
  concat ((fun p => writer p.2) <$> map_to_list m).

(** At no time are two batches being written. *)
Fixpoint one_writer (epoch : string) (acts : list action) (s : System) : bool :=
  (length (writers (sys_running s)) <=? 1)%nat &&
  match acts with
  | [] => true
  | a :: acts' => match exec epoch a s with Some s' => one_writer epoch acts' s' | None => true end
  end.

Lemma inflight_writers m : inflight m = concat (writers m).
Proof.
  unfold inflight, writers. induction (map_to_list m) as [|[g r] l IH]; [done|].
  rewrite !fmap_cons. cbn [concat]. rewrite concat_app, IH. destruct r; simpl; by rewrite ?app_nil_r.
Qed.

Lemma writers_insert m g r : m !! g = None -> writers (<[g := r]> m) ≡ₚ writer r ++ writers m.
Proof. intros H. unfold writers. by rewrite map_to_list_insert. Qed.

Lemma writers_delete m g r : m !! g = Some r -> writers m ≡ₚ writer r ++ writers (delete g m).
Proof. intros H. unfold writers. by rewrite <-(map_to_list_delete m g r). Qed.

Lemma writers_replace m g r r' :
  m !! g = Some r -> writer r' = writer r -> writers (<[g := r']> m) ≡ₚ writers m.
Proof.
  intros H E. rewrite (writers_delete m g r H), <-insert_delete_eq.
  rewrite writers_insert by apply lookup_delete_eq. by rewrite E.
Qed.

Lemma short_perm {A} (l k : list A) : l ≡ₚ k -> length k <= 1 -> l = k.
Proof.
  intros HP Hk. destruct k as [|x [|y k]]; simpl in Hk; [|..|lia].
  - by apply Permutation_nil_r.
  - by apply Permutation_singleton_r.
Qed.

Definition short (s : System) : Prop := length (writers (sys_running s)) <= 1.

(** The entries on their way keep their order as long as the writers do. *)
Lemma inflight_perm m m' :
  writers m ≡ₚ writers m' -> length (writers m') <= 1 -> inflight m = inflight m'.
Proof. intros HP Hs. rewrite !inflight_writers. f_equal. by apply short_perm. Qed.

Lemma queued_begin_flush s :
  (forall g, sys_next s <= g -> sys_running s !! g = None) -> short (begin_flush s) ->
  queued (begin_flush s) = queued s.
Proof.
  intros HN. unfold begin_flush, flush_take, short.
  destruct (b_pending (sys_buf s)) as [|x l] eqn:E; [done|]. simpl. intros Hs.
  pose proof (writers_insert (sys_running s) (sys_next s) (Writing (x :: l)) (HN _ (le_n _))) as HP.
  rewrite HP in Hs. simpl in Hs, HP. destruct (writers (sys_running s)) as [|w k] eqn:Ew; simpl in Hs; [|lia].
  apply Permutation_singleton_r in HP.
  unfold queued. simpl. rewrite !inflight_writers, HP, Ew, E. simpl. by rewrite !app_nil_r.
Qed.

Lemma queued_resume s g r next :
  short s -> sys_running s !! g = Some r -> writer r = [] -> from_option writer [] next = [] ->
  queued (resume g next s) = queued s.
Proof.
  intros Hs Hg Hr Hn. unfold queued. simpl. f_equal. f_equal. apply inflight_perm; [|done].
  destruct next as [r'|].
  - apply (writers_replace _ _ r); [done|]. by rewrite Hr.
  - rewrite (writers_delete (sys_running s) g r Hg). by rewrite Hr.
Qed.

Lemma queued_write s g batch :
  short s -> sys_running s !! g = Some (Writing batch) -> b_store (sys_buf s) = true ->
  queued (write batch (resume g None s)) = queued s.
Proof.
  intros Hs Hg Hst. pose proof (writers_delete _ _ _ Hg) as HP. simpl in HP.
  pose proof (short_perm _ _ (symmetry HP) Hs) as E.
  destruct (writers (delete g (sys_running s))) as [|w k] eqn:Ew.
  2: { apply Permutation_length in HP. unfold short in Hs. simpl in HP. lia. }
  unfold queued. simpl. rewrite Hst, !inflight_writers, Ew, <-E. simpl. by rewrite !app_nil_r, <-app_assoc.
Qed.

Lemma exec_ordered epoch M used s s' lg a :
  0 < M -> sys_ok epoch M used s lg -> b_store (sys_buf s) = true ->
  (forall k, k ∈ key_seqs [a] -> k ∉ used /\ (0 <= k < 2 ^ 64)%Z) ->
  exec epoch a s = Some s' -> short s -> short s' -> queued s = lg_given lg ->
  queued s' = lg_given (spec_action epoch a (sys_buf s) lg).
Proof.
  intros HM HS Hst Hk H Hsh Hsh' HQ. pose proof (so_next _ _ _ _ _ HS) as HN.
  destruct a as [k e|g| |now deps|deps|id|id|c|d]; simpl in H |- *; simplify_eq.
  - destruct (Hk k) as [Hnu Hr]; [by left|].
    destruct (Append_locked_spec epoch M HM used (sys_buf s) lg k e (so_rep _ _ _ _ _ HS) Hr Hnu)
      as (b' & ev & f & x & E & HR' & Hp & Hg & _).
    rewrite E in H. simplify_eq. rewrite Hg, <-HQ. unfold queued. simpl.
    rewrite (inflight_perm _ (sys_running s)), Hp; [by rewrite !app_assoc| |done].
    by rewrite writers_insert by (by apply HN).
  - rewrite <-HQ. destruct (sys_running s !! g) as [[ev [|c chans] f|batch]|] eqn:Eg;
      simplify_eq; try done.
    + destruct f; simplify_eq; [|by eapply queued_resume].
      rewrite queued_begin_flush; [by eapply queued_resume| |done].
      intros g' Hg'. simpl. rewrite lookup_delete_ne; [by apply HN|].
      intros ->. by rewrite HN in Eg.
    + destruct (push ev c (sys_buf s)) as [b|] eqn:Ep; [|by destruct f].
      apply push_subs in Ep as [chs ->].
      assert (s' = resume g (Some (Pushing ev chans f)) (set_buf (with_subs (b_subs (sys_buf s)) chs (sys_buf s)) s))
        as -> by (destruct f; by simplify_eq/=).
      etransitivity; [eapply queued_resume; [exact Hsh|exact Eg|done..]|done].
    + by apply queued_write.
  - by rewrite queued_begin_flush.
  - rewrite <-HQ. unfold sweepFolds. destruct (sweep now deps (b_fold (sys_buf s))) as [t closed].
    unfold queued. simpl. by rewrite !app_assoc.
  - rewrite queued_begin_flush by done. rewrite <-HQ. unfold Close_locked.
    destruct (closeAll deps (b_fold (sys_buf s))) as [t closed].
    unfold queued. simpl. by rewrite !app_assoc.
  - done.
  - unfold Unsubscribe in H. by destruct (unsubscribe _ _ _) as [[subs chans]|]; simplify_eq/=.
  - by destruct (b_chans (sys_buf s) !! c).
  - done.
Qed.

Lemma begin_flush_store s : b_store (sys_buf (begin_flush s)) = b_store (sys_buf s).
Proof. unfold begin_flush, flush_take. by destruct (b_pending (sys_buf s)). Qed.

Lemma buffer_exec_store epoch a s s' :
  exec epoch a s = Some s' -> b_store (sys_buf s') = b_store (sys_buf s).
Proof.
  destruct a as [k e|g| |now deps|deps|id|id|c|d]; simpl; intros H; simplify_eq; try done.
  - destruct (Append_locked epoch k e (sys_buf s)) as [[[[b' ev] l] f]|] eqn:E; simplify_eq/=.
    unfold Append_locked, append_row in E. destruct (observe _ _ _ _) as [t obs].
    by repeat case_match; simplify_eq/=.
  - destruct (sys_running s !! g) as [[ev [|c chans] f|batch]|] eqn:Eg; simplify_eq; try done.
    + destruct f; simplify_eq; [|done]. by rewrite begin_flush_store.
    + destruct (push ev c (sys_buf s)) as [b|] eqn:Ep; [|by destruct f].
      apply push_subs in Ep as [chs ->]. by destruct f; simplify_eq/=.
  - apply begin_flush_store.
  - unfold sweepFolds. by destruct (sweep _ _ _).
  - rewrite begin_flush_store. simpl. unfold Close_locked. by destruct (closeAll _ _).
  - unfold Unsubscribe in H. by destruct (unsubscribe _ _ _) as [[subs chans]|]; simplify_eq/=.
  - by destruct (b_chans (sys_buf s) !! c).
Qed.

Lemma exec_all_given epoch M acts : 0 < M -> forall used s s' lg,
  sys_ok epoch M used s lg -> given_ok lg -> b_store (sys_buf s) = true ->
  NoDup (key_seqs acts ++ used) -> Forall (fun k => 0 <= k < 2 ^ 64)%Z (key_seqs acts) ->
  exec_all epoch acts s = Some s' ->
  let lg' := spec_all epoch acts s lg in
  given_ok lg' /\ queued s' ≡ₚ lg_given lg' /\
  (one_writer epoch acts s = true -> queued s = lg_given lg -> queued s' = lg_given lg').
Proof.
  intros HM. induction acts as [|a acts IH]; intros used s s' lg HS HG Hst HN HF H;
    cbn [exec_all spec_all one_writer] in *.
  { simplify_eq. split_and!; [done|by apply (so_queued _ _ _ _ _ HS)|done]. }
  destruct (exec epoch a s) as [s1|] eqn:E; [|done].
  destruct (keys_cons _ _ _ HN HF) as (Hk & HN' & HF').
  pose proof (exec_ok epoch M HM used a s s1 lg HS Hk E) as HS1.
  destruct (IH (key_seqs [a] ++ used) s1 s' (spec_action epoch a (sys_buf s) lg))
    as (HG' & HP & HO); [done| | |done..|].
  - eapply given_ok_step; [done..|]. by eapply rows_keys.
  - by rewrite (buffer_exec_store _ _ _ _ E).
  - split_and!; [done..|]. intros [Hs Ho]%andb_prop HQ. apply HO; [done|].
    apply Nat.leb_le in Hs.
    assert (short s1).
    { unfold short. destruct acts; cbn [one_writer] in Ho; by apply andb_prop in Ho as [Ho%Nat.leb_le _]. }
    by eapply exec_ordered.
Qed.

(** What reaches the store covers the log: at any time the entries that have been written,
    are being written or wait for the next flush contain, for every row of the log, one with its
    present count and time, and nothing that is not an earlier or the present version of some row;
    and as long as flushes do not overlap, the last entry for a row is the present one, so that
    the store, whose upsert keeps the last, ends up with the right counts. *)
Theorem store_receives_counts epoch M node marks acts s :
  0 < M -> fresh_keys acts -> run epoch true M node marks acts = Some s ->
  let rows := lg_rows (log_of epoch true M node marks acts) in
  (forall r, r ∈ rows -> exists x, x ∈ queued s /\ current x r) /\
  (forall x, x ∈ queued s ->
     exists r, r ∈ rows /\ version_of x r /\ (log_RepeatCount x <= log_RepeatCount r)%Z) /\
  (one_writer epoch acts (initial (New true M node marks)) = true ->
     forall r, r ∈ rows -> exists x, last_given (log_FoldKey r) (queued s) = Some x /\ current x r).
Proof.
  intros HM [HN HF] H rows.
  destruct (exec_all_given epoch M acts HM [] (initial (New true M node marks)) s (initial_log marks))
    as ([HL HA] & HP & HO); [by apply initial_ok| |done|by rewrite app_nil_r|done..|].
  { split; intros x Hx; by apply elem_of_nil in Hx. }
  split_and!.
  - intros r Hr. destruct (HL r Hr) as (x & [Hx _]%last_given_Some & Hc). exists x.
    split; [by rewrite HP|done].
  - intros x. rewrite HP. apply HA.
  - intros Ho r Hr. rewrite (HO Ho eq_refl). by apply HL.
Qed.

(** ** Pushing to subscribers *)

(** The channels of the subscribers are open and distinct, and every channel that
    an append still has to push to has been made. *)
Record chans_ok (s : System) : Prop := {
  co_pub : pub_ok (b_subs (sys_buf s)) (b_chans (sys_buf s));
  co_pushing : forall g ev chans f c, sys_running s !! g = Some (Pushing ev chans f) ->
    c ∈ chans -> c < length (b_chans (sys_buf s));
}.

(** Changes of a buffer that keep its subscribers. *)
Lemma chans_ok_same s s' :
  chans_ok s -> b_subs (sys_buf s') = b_subs (sys_buf s) ->
  b_chans (sys_buf s') = b_chans (sys_buf s) ->
  (forall g ev chans f, sys_running s' !! g = Some (Pushing ev chans f) ->
     exists g' chans', sys_running s !! g' = Some (Pushing ev chans' f) /\ chans ⊆ chans') ->
  chans_ok s'.
Proof.
  intros [H1 H3] E1 E2 Hr. split; rewrite ?E1, ?E2; [done|].
  intros g ev chans f c Hg Hc. destruct (Hr _ _ _ _ Hg) as (g' & chans' & Hg' & Hsub).
  eapply H3; [done|by apply Hsub].
Qed.

Lemma chans_ok_flush s : chans_ok s -> chans_ok (begin_flush s).
Proof.
  intros HC. unfold begin_flush, flush_take. destruct (b_pending (sys_buf s)) as [|x l]; [done|].
  apply (chans_ok_same s); [done..|]. intros g ev chans f. simpl.
  intros [[_ ?]|[_ Hg]]%lookup_insert_Some; [done|]. by exists g, chans.
Qed.

(** One channel changes, and stays open if a subscriber has it. *)
Lemma chans_ok_chan s c ch ch' :
  chans_ok s -> b_chans (sys_buf s) !! c = Some ch -> (ch_closed ch = false -> ch_closed ch' = false) ->
  chans_ok (set_buf (with_subs (b_subs (sys_buf s)) (<[c := ch']> (b_chans (sys_buf s))) (sys_buf s)) s).
Proof.
  intros [H1 H3] Hc Hcl. split; simpl; [by eapply pub_ok_update|].
  intros g ev chans f d Hg Hd. rewrite length_insert. by eapply H3.
Qed.

Lemma chans_ok_append epoch k e s b ev f :
  chans_ok s -> b_subs b = b_subs (sys_buf s) -> b_chans b = b_chans (sys_buf s) ->
  Append_locked epoch k e (sys_buf s) = Some (b, ev, snd <$> map_to_list (b_subs (sys_buf s)), f) ->
  chans_ok (start (Pushing ev (snd <$> map_to_list (b_subs (sys_buf s))) f) b s).
Proof.
  intros [H1 H3] E1 E2 _. split; simpl; rewrite ?E1, ?E2; [done|].
  intros g ev' chans f' c [[_ [= <- <- <-]]|[_ Hg]]%lookup_insert_Some Hc; [|by eapply H3].
  apply subs_values in Hc as [id Hid]. by eapply pub_ok_bound.
Qed.

Lemma chans_ok_resume s g r next :
  chans_ok s -> sys_running s !! g = Some r ->
  (forall ev chans f, next = Some (Pushing ev chans f) ->
     exists chans', r = Pushing ev chans' f /\ chans ⊆ chans') ->
  chans_ok (resume g next s).
Proof.
  intros HC Hg Hn. apply (chans_ok_same s); [done..|]. intros g' ev chans f. simpl.
  destruct next as [r'|].
  - intros [[-> ->]|[_ Hg']]%lookup_insert_Some; [|by exists g', chans].
    destruct (Hn ev chans f eq_refl) as (chans' & -> & Hs). by exists g', chans'.
  - intros [_ Hg']%lookup_delete_Some. by exists g', chans.
Qed.

Lemma chans_ok_subscribe s id :
  chans_ok s -> chans_ok (set_buf (Subscribe id (sys_buf s)) s).
Proof.
  intros [H1 H3]. split; [by apply pub_ok_subscribe|]. simpl.
  intros g ev chans f c Hg Hc. rewrite length_app. pose proof (H3 _ _ _ _ _ Hg Hc). lia.
Qed.

Lemma Unsubscribe_ok s id :
  chans_ok s -> exists b, Unsubscribe id (sys_buf s) = Some b /\ chans_ok (set_buf b s).
Proof.
  intros [H1 H3]. destruct (pub_ok_unsubscribe id _ _ H1) as (subs & chans & E & HP & HL).
  unfold Unsubscribe. rewrite E. eexists. split; [done|]. split; simpl; [done|].
  rewrite HL. apply H3.
Qed.

Definition late_push (a : action) (s : System) : Prop :=
  exists g ev c chans f ch, a = AContinue g /\ sys_running s !! g = Some (Pushing ev (c :: chans) f) /\
    b_chans (sys_buf s) !! c = Some ch /\ ch_closed ch = true.

Lemma exec_chans epoch M used s lg a :
  0 < M -> sys_ok epoch M used s lg -> chans_ok s ->
  (forall k, k ∈ key_seqs [a] -> k ∉ used /\ (0 <= k < 2 ^ 64)%Z) ->
  match exec epoch a s with Some s' => chans_ok s' | None => late_push a s end.
Proof.
  intros HM HS HC Hk. destruct a as [k e|g| |now deps|deps|id|id|c|d]; simpl.
  - destruct (Hk k) as [Hnu Hr]; [by left|].
    destruct (Append_locked_spec epoch M HM used (sys_buf s) lg k e (so_rep _ _ _ _ _ HS) Hr Hnu)
      as (b' & ev & f & x & E & _ & _ & _ & Es & Ec & _).
    rewrite E. by eapply chans_ok_append.
  - destruct (sys_running s !! g) as [[ev [|c chans] f|batch]|] eqn:Eg; [|..|done].
    + destruct f; [apply chans_ok_flush|]; by eapply chans_ok_resume.
    + destruct (lookup_lt_is_Some_2 (b_chans (sys_buf s)) c) as [ch Hch].
      { eapply (co_pushing _ HC); [done|left]. }
      unfold push. rewrite Hch. unfold try_send. destruct (ch_closed ch) eqn:Ec; simpl.
      * destruct f; by eexists g, ev, c, chans, _, ch.
      * assert (chans_ok (resume g (Some (Pushing ev chans f)) (set_buf (with_subs (b_subs (sys_buf s))
          (<[c := if (length (ch_buf ch) <? subscriberCap)%nat
                  then {| ch_buf := ch_buf ch ++ [ev]; ch_closed := false |} else ch]>
            (b_chans (sys_buf s))) (sys_buf s)) s))); [|by destruct f].
        eapply chans_ok_resume; [eapply chans_ok_chan; [done..|by case_match]|done|].
        intros ? ? ? [= <- <- <-]. exists (c :: chans). split; [done|set_solver].
    + eapply (chans_ok_same (resume g None s)); [by eapply chans_ok_resume|done..|].
      intros g' ev chans f Hg. by exists g', chans.
  - by apply chans_ok_flush.
  - unfold sweepFolds. destruct (sweep _ _ _) as [t closed].
    apply (chans_ok_same s); [done..|]. intros g' ev chans f Hg. by exists g', chans.
  - apply chans_ok_flush. unfold Close_locked. destruct (closeAll _ _) as [t closed].
    apply (chans_ok_same s); [done..|]. intros g' ev chans f Hg. by exists g', chans.
  - by apply chans_ok_subscribe.
  - destruct (Unsubscribe_ok s id HC) as (b & -> & HC'). done.
  - destruct (b_chans (sys_buf s) !! c) as [ch|] eqn:E; [|done]. by eapply chans_ok_chan.
  - apply (chans_ok_same s); [done..|]. intros g' ev chans f Hg. by exists g', chans.
Qed.

Lemma exec_all_chans epoch M acts a : 0 < M -> forall used s s' lg,
  sys_ok epoch M used s lg -> chans_ok s -> NoDup (key_seqs (acts ++ [a]) ++ used) ->
  Forall (fun k => 0 <= k < 2 ^ 64)%Z (key_seqs (acts ++ [a])) ->
  exec_all epoch acts s = Some s' -> exec epoch a s' = None -> late_push a s'.
Proof.
  intros HM. induction acts as [|x acts IH]; intros used s s' lg HS HC HN HF H Hx;
    cbn [exec_all app] in *.
  - simplify_eq. pose proof (exec_chans epoch M used s' lg a HM HS HC) as HE. rewrite Hx in HE.
    apply HE. intros k Hk. split; [|by eapply Forall_forall in HF].
    apply NoDup_app in HN as (_ & HN & _). by apply HN.
  - destruct (exec epoch x s) as [s1|] eqn:E; [|done].
    destruct (keys_cons _ _ _ HN HF) as (Hk & HN' & HF').
    pose proof (exec_chans epoch M used s lg x HM HS HC Hk) as HC1. rewrite E in HC1.
    eapply (IH (key_seqs [x] ++ used) s1); [by eapply exec_ok|done..].
Qed.

(** A line of a deployment. *)
Definition line (dep msg runID : string) (ts : time) : LogEntry :=
  {| log_ID := 0; log_DeploymentID := dep; log_SourceID := ""; log_RunID := runID;
     log_Timestamp := ts; log_Level := "INFO"; log_Message := msg; log_Stream := "stdout";
     log_RepeatCount := 0; log_FoldKey := ""; log_Seq := 0; log_LastSeenAt := None |}.

(** The only way in which an operation of the buffer can panic is the push of an append that
    released the lock, when its channel has been closed since; and this does happen: a subscriber
    that leaves between the two parts of an append makes it send on a closed channel.  (The
    health monitor of the agents sends under its lock for this very reason.) *)
Theorem only_late_push_panics :
  (forall epoch store M node marks acts a s,
     0 < M -> fresh_keys (acts ++ [a]) -> run epoch store M node marks acts = Some s ->
     exec epoch a s = None -> late_push a s) /\
  (forall epoch store M node marks e, 0 < M ->
     exists s, run epoch store M node marks [ASubscribe "ws"; AAppend 1 e; AUnsubscribe "ws"] = Some s /\
       exec epoch (AContinue 0) s = None).
Proof.
  split.
  - intros epoch store M node marks acts a s HM [HN HF] H Hx.
    eapply (exec_all_chans epoch M acts a HM []); [by apply initial_ok| | |done..].
    + split; [apply pub_ok_empty|]. intros g ev chans f c Hg. simpl in Hg.
      by rewrite lookup_empty in Hg.
    + by rewrite app_nil_r.
  - intros epoch store M node marks e HM. unfold run. cbn [exec_all exec].
    set (s1 := set_buf _ _).
    assert (sys_ok epoch M [] s1 (initial_log marks)) as HS.
    { by apply sys_ok_subs, initial_ok. }
    destruct (Append_locked_spec epoch M HM [] (sys_buf s1) (initial_log marks) 1 e
      (so_rep _ _ _ _ _ HS) ltac:(lia) (not_elem_of_nil _))
      as (b & ev & f & x & E & _ & _ & _ & Es & Ec & _).
    rewrite E. unfold Unsubscribe, unsubscribe. cbn [start sys_buf]. rewrite Es, Ec.
    change (b_subs (sys_buf s1)) with ({["ws" := 0]} : gmap string nat).
    rewrite lookup_singleton_eq, map_to_list_singleton. simpl. eexists. split; [done|].
    simpl. by destruct f.
Qed.

Lemma only_late_push_panics_witness :
  late_push (AContinue 0)
    (default (initial (New true 4 "" ∅))
       (run "k" true 4 "" ∅ [ASubscribe "ws"; AAppend 1 (line "api" "boom" "" 9); AUnsubscribe "ws"])).
Proof.
  assert (exists s, run "k" true 4 "" ∅
    [ASubscribe "ws"; AAppend 1 (line "api" "boom" "" 9); AUnsubscribe "ws"] = Some s /\
    exec "k" (AContinue 0) s = None) as (s & H & Hx) by (apply only_late_push_panics; lia).
  rewrite H. simpl.
  eapply (proj1 only_late_push_panics "k" true 4 "" ∅
    [ASubscribe "ws"; AAppend 1 (line "api" "boom" "" 9); AUnsubscribe "ws"] (AContinue 0) s);
    [lia| |exact H|exact Hx].
  split; [|repeat constructor; lia].
  apply (bool_decide_eq_true_1 (NoDup _)). by vm_compute.
Defined.

(** ** A run, and two races *)

(** Three lines that fold into one row, one of another deployment, and a flush. *)
Definition example_acts : list action :=
  [AAppend 1 (line "api" "boom count=1" "" 0); AAppend 2 (line "web" "ready" "" second);
   AAppend 3 (line "api" "boom count=2" "" second); AAppend 4 (line "api" "boom count=3" "" (2 * second)%Z);
   AFlush; AAppend 5 (line "api" "bye" "" (2 * second)%Z)].

Definition example_marks : gmap string Z := {["api" := 10%Z]}.

Lemma example_fresh : fresh_keys example_acts.
Proof.
  split; [apply (bool_decide_eq_true_1 (NoDup _)); by vm_compute|].
  apply (bool_decide_eq_true_1 (Forall _ _)). by vm_compute.
Qed.

Definition row_view (r : LogEntry) : string * string * Z * Z :=
  (log_DeploymentID r, log_Message r, log_RepeatCount r, log_Seq r).

Example example_run :
  match run "k" true 2 "node" example_marks example_acts with
  | Some s => option_map (map row_view) (Recent 2 (sys_buf s))
  | None => None
  end = Some [("web", "ready", 1, 1)%Z; ("api", "bye", 1, 12)%Z].
Proof. by vm_compute. Qed.

Lemma Recent_last_rows_witness :
  match run "k" true 2 "node" example_marks example_acts with
  | Some s => Recent 2 (sys_buf s) =
      Some (keep_last 2 (lg_rows (log_of "k" true 2 "node" example_marks example_acts)))
  | None => False
  end.
Proof.
  destruct (run "k" true 2 "node" example_marks example_acts) as [s|] eqn:E.
  - eapply (Recent_last_rows "k" true 2 "node" example_marks example_acts s 2);
      [lia|exact example_fresh|exact E|lia].
  - vm_compute in E. discriminate E.
Defined.

Lemma rows_account_for_lines_witness :
  total "api" (lg_rows (log_of "k" true 2 "node" example_marks example_acts)) = 4%Z.
Proof.
  destruct (run "k" true 2 "node" example_marks example_acts) as [s|] eqn:E.
  - apply (rows_account_for_lines "k" true 2 "node" example_marks example_acts s "api" E).
  - vm_compute in E. discriminate E.
Defined.

Lemma store_receives_counts_witness :
  exists s, run "k" true 2 "node" example_marks example_acts = Some s /\
  Forall (fun r => exists x, last_given (log_FoldKey r) (queued s) = Some x /\ current x r)
    (lg_rows (log_of "k" true 2 "node" example_marks example_acts)).
Proof.
  destruct (run "k" true 2 "node" example_marks example_acts) as [s|] eqn:E.
  - exists s. split; [reflexivity|]. apply Forall_forall. intros r Hr.
    apply (store_receives_counts "k" 2 "node" example_marks example_acts s); [lia|exact example_fresh
      |exact E|by vm_compute|exact Hr].
  - vm_compute in E. discriminate E.
Defined.

(** Overlapping flushes: the later batch is written first, and the store keeps the count 1 of a
    row that stands for two lines. *)
Theorem flush_overtakes :
  exists acts s r, run "k" true 2 "" ∅ acts = Some s /\
    lg_rows (log_of "k" true 2 "" ∅ acts) = [r] /\ log_RepeatCount r = 2%Z /\
    sys_running s = ∅ /\ b_pending (sys_buf s) = [] /\
    log_RepeatCount <$> last_given (log_FoldKey r) (sys_written s) = Some 1%Z.
Proof.
  exists [AAppend 1 (line "api" "boom" "" 0); AContinue 0; AFlush;
          AAppend 2 (line "api" "boom" "" second); AContinue 2; AFlush; AContinue 3; AContinue 1].
  eexists _, _. split; [vm_compute; reflexivity|]. split; [vm_compute; reflexivity|].
  by vm_compute.
Qed.

(** A lane does not look at the run of a line: a deployment that is restarted within the window
    folds the line of the new run into the row of the old one, and the store gets two entries
    that share fold key and sequence number under different runs, which its unique index on
    (deployment, seq) rejects with the whole batch. *)
Theorem fold_crosses_runs :
  exists s x y, run "k" true 2 "" ∅ [AAppend 1 (line "api" "listening" "run-1" 0);
                                     AAppend 2 (line "api" "listening" "run-2" second)] = Some s /\
    b_pending (sys_buf s) = [x; y] /\ log_RunID x <> log_RunID y /\ log_Seq x = log_Seq y /\
    log_FoldKey x = log_FoldKey y.
Proof. eexists _, _, _. split; [vm_compute; reflexivity|]. split; [done|]. by vm_compute. Qed.
