(* ===== verification/AgentHealth.v ===== *)
(** * Health of remote agents

    [agenthealth/monitor.go]: a status per host, poll loops that tunnel signals
    start and stop, and subscribers.  The monitor's lock is released between the
    parts of an operation (a probe runs without it, an event is emitted after a
    change); the parts are separate steps of the goroutines in [System], and a list
    of actions is an interleaving.  The context of a poll loop has the number of its
    goroutine; cancelling it puts the number into [sys_cancelled]. *)
From stdpp Require Import base list strings gmap.
From Stdlib Require Import ZArith Lia.
From S2P Require Import Prelude Channels.
Local Open Scope string_scope.

(** ** Statuses *)

Abbreviation Status := string (only parsing).
Definition StatusUnknown : Status := "unknown".
Definition StatusHealthy : Status := "healthy".
Definition StatusUnreachable : Status := "unreachable".
Definition StatusVersionMismatch : Status := "version-mismatch".
Definition StatusAuthFailed : Status := "auth-failed".
Definition StatusPendingBootstrap : Status := "pending-bootstrap".

Record ProbeResult : Type := mkProbeResult {
  pr_AllEndpointsOK : bool;
  pr_Version : string;
  pr_Status : string;
}.

Record Info : Type := mkInfo {
  info_Status : string;
  info_Version : string;
  info_CheckedAt : time;
}.

#[export] Instance Info_eq_dec : EqDecision Info.
Proof. solve_decision. Defined.

(** The value of a missing key, and the one of a host that is not polled. *)
Definition zero_info : Info := {| info_Status := ""; info_Version := ""; info_CheckedAt := 0%Z |}.
Definition unknown_info : Info :=
  {| info_Status := StatusUnknown; info_Version := ""; info_CheckedAt := 0%Z |}.

(** [ev_CheckedAt]: the RFC 3339 text of the check, which determines its second. *)
Record Event : Type := mkEvent {
  ev_HostID : string;
  ev_Status : string;
  ev_Version : string;
  ev_CheckedAt : option Z;
}.

(** [eventFromInfo] *)
Definition eventFromInfo (hostID : string) (info : Info) : Event :=
  {| ev_HostID := hostID; ev_Status := info_Status info; ev_Version := info_Version info;
     ev_CheckedAt := if time_is_zero (info_CheckedAt info) then None
                     else Some (info_CheckedAt info / second)%Z |}.

(** [classify], from the clock and the outcome of the probe. *)
Definition classify (now : time) (probe : result unit ProbeResult) : Info :=
  match probe with
  | Err _ => {| info_Status := StatusUnreachable; info_Version := ""; info_CheckedAt := now |}
  | Ok res =>
      if negb (pr_Status res =? "") then
        {| info_Status := pr_Status res; info_Version := pr_Version res; info_CheckedAt := now |}
      else if pr_AllEndpointsOK res then
        {| info_Status := StatusHealthy; info_Version := pr_Version res; info_CheckedAt := now |}
      else
        {| info_Status := StatusVersionMismatch; info_Version := pr_Version res;
           info_CheckedAt := now |}
  end.

(** ** The monitor *)

(** [m_cancels] maps a host to the context of its poll loop. *)
Record Monitor : Type := mkMonitor {
  m_interval : duration;
  m_status : gmap string Info;
  m_cancels : gmap string nat;
  m_pollIDs : gmap string Z;
  m_nextPoll : Z;
  m_subs : gmap string nat;
  m_chans : list (channel Event);
}.

Definition defaultPollInterval : duration := (10 * second)%Z.
Definition eventCap : nat := 64.

Definition NewMonitor : Monitor :=
  {| m_interval := defaultPollInterval; m_status := ∅; m_cancels := ∅; m_pollIDs := ∅;
     m_nextPoll := 0; m_subs := ∅; m_chans := [] |}.

Definition with_status (st : gmap string Info) (m : Monitor) : Monitor :=
  {| m_interval := m_interval m; m_status := st; m_cancels := m_cancels m;
     m_pollIDs := m_pollIDs m; m_nextPoll := m_nextPoll m; m_subs := m_subs m;
     m_chans := m_chans m |}.
Definition with_polls (cancels : gmap string nat) (ids : gmap string Z) (next : Z)
    (m : Monitor) : Monitor :=
  {| m_interval := m_interval m; m_status := m_status m; m_cancels := cancels; m_pollIDs := ids;
     m_nextPoll := next; m_subs := m_subs m; m_chans := m_chans m |}.
Definition with_subs (subs : gmap string nat) (chans : list (channel Event)) (m : Monitor) : Monitor :=
  {| m_interval := m_interval m; m_status := m_status m; m_cancels := m_cancels m;
     m_pollIDs := m_pollIDs m; m_nextPoll := m_nextPoll m; m_subs := subs; m_chans := chans |}.

(** [SetPollInterval] *)
Definition SetPollInterval (d : duration) (m : Monitor) : Monitor :=
  {| m_interval := d; m_status := m_status m; m_cancels := m_cancels m;
     m_pollIDs := m_pollIDs m; m_nextPoll := m_nextPoll m; m_subs := m_subs m;
     m_chans := m_chans m |}.

(** [Monitor.Info] *)
Definition Monitor_Info (hostID : string) (m : Monitor) : Info :=
  default unknown_info (m_status m !! hostID).

(** [m.status[hostID] = next], and whether this is a change. *)
Definition set_status (hostID : string) (next : Info) (m : Monitor) : Monitor * bool :=
  (with_status (<[hostID := next]> (m_status m)) m,
   negb (bool_decide (default zero_info (m_status m !! hostID) = next))).

(** [startPolling] under the lock; the new loop gets the context [ctx].  The result
    is the identifier of the poll, if one starts. *)
Definition startPolling_locked (ctx : nat) (hostID : string) (m : Monitor) : Monitor * option Z :=
  match m_cancels m !! hostID with
  | Some _ => (m, None)
  | None =>
      let pollID := ((m_nextPoll m + 1) mod 2 ^ 64)%Z in
      (with_polls (<[hostID := ctx]> (m_cancels m)) (<[hostID := pollID]> (m_pollIDs m)) pollID m,
       Some pollID)
  end.

(** [stopPolling] under the lock: the context to cancel, and whether the status changed. *)
Definition stopPolling_locked (hostID : string) (m : Monitor) : Monitor * option nat * bool :=
  let cancel := m_cancels m !! hostID in
  let m :=
    match cancel with
    | Some _ =>
        with_polls (delete hostID (m_cancels m)) (delete hostID (m_pollIDs m)) (m_nextPoll m) m
    | None => m
    end in
  let changed := match m_status m !! hostID with
                 | Some current => negb (info_Status current =? StatusUnknown)
                 | None => false
                 end in
  (with_status (<[hostID := unknown_info]> (m_status m)) m, cancel, changed).

(** [stopAll] under the lock: the contexts to cancel. *)
Definition stopAll_locked (m : Monitor) : Monitor * list nat :=
  (with_polls ∅ ∅ (m_nextPoll m) m, snd <$> map_to_list (m_cancels m)).

(** [probeAndEmit] under the lock: the probe of a poll that is cancelled or no longer
    the one of its host is dropped. *)
Definition probe_locked (ctxErr : bool) (hostID : string) (pollID : Z) (next : Info) (m : Monitor)
    : Monitor * bool :=
  if ctxErr || negb (default 0 (m_pollIDs m !! hostID) =? pollID)%Z then (m, false)
  else set_status hostID next m.

(** [emit]: all sends happen under the lock; [None] is a panic. *)
Definition emit (ev : Event) (m : Monitor) : option Monitor :=
  option_map (fun chans => with_subs (m_subs m) chans m)
    (send_all eventCap ev (snd <$> map_to_list (m_subs m)) (m_chans m)).

(** [Subscribe] *)
Definition Subscribe (id : string) (m : Monitor) : Monitor :=
  let '(subs, chans) := subscribe id (m_subs m) (m_chans m) in with_subs subs chans m.

(** [Unsubscribe] *)
Definition Unsubscribe (id : string) (m : Monitor) : option Monitor :=
  option_map (fun '(subs, chans) => with_subs subs chans m)
    (unsubscribe id (m_subs m) (m_chans m)).

(** ** Interleavings *)

(** Where a goroutine is: a poll loop before the probe, before its lock, before the
    event, at the [select]; a [ProbeOnce] before its lock and before the event. *)
Inductive goroutine : Type :=
| PollProbe (hostID : string) (pollID : Z)
| PollCommit (hostID : string) (pollID : Z) (next : Info)
| PollEmit (hostID : string) (pollID : Z) (ev : Event)
| PollWait (hostID : string) (pollID : Z)
| OnceCommit (hostID : string) (next : Info)
| OnceEmit (ev : Event).

(** Where [Run] is: at its [select]; in [stopPolling] or [stopAll] after the lock,
    with contexts to cancel and an event to emit; or returned. *)
Inductive runner : Type :=
| Selecting
| Cancelling (ctxs : list nat) (ev : option Event) (returns : bool)
| Returned.

Record System : Type := mkSystem {
  sys_mon : Monitor;
  sys_pool : gmap nat goroutine;
  sys_next : nat;
  sys_runner : runner;
  sys_cancelled : gset nat;
  sys_parent : bool;  (** the context of [Run] is cancelled *)
}.

Inductive action : Type :=
| ASignal (hostID : string) (connected : bool)  (** [Run] receives a signal *)
| ADone                                         (** [Run] sees its context or a closed channel *)
| ARun                                          (** [Run] does its next step *)
| ACancelParent
| AProbe (g : nat) (now : time) (probe : result unit ProbeResult)
| AStep (g : nat)                               (** a goroutine does its next step *)
| ATick (g : nat)
| AProbeOnce (hostID : string) (now : time) (probe : result unit ProbeResult)
| ASubscribe (id : string)
| AUnsubscribe (id : string)
| AReceive (c : nat)
| AInterval (d : duration).

Definition set_mon (m : Monitor) (s : System) : System :=
  {| sys_mon := m; sys_pool := sys_pool s; sys_next := sys_next s; sys_runner := sys_runner s;
     sys_cancelled := sys_cancelled s; sys_parent := sys_parent s |}.
Definition set_pool (pool : gmap nat goroutine) (s : System) : System :=
  {| sys_mon := sys_mon s; sys_pool := pool; sys_next := sys_next s; sys_runner := sys_runner s;
     sys_cancelled := sys_cancelled s; sys_parent := sys_parent s |}.
Definition set_runner (r : runner) (s : System) : System :=
  {| sys_mon := sys_mon s; sys_pool := sys_pool s; sys_next := sys_next s; sys_runner := r;
     sys_cancelled := sys_cancelled s; sys_parent := sys_parent s |}.
Definition cancel (c : nat) (s : System) : System :=
  {| sys_mon := sys_mon s; sys_pool := sys_pool s; sys_next := sys_next s;
     sys_runner := sys_runner s; sys_cancelled := {[c]} ∪ sys_cancelled s;
     sys_parent := sys_parent s |}.
Definition spawn (g : goroutine) (s : System) : System :=
  {| sys_mon := sys_mon s; sys_pool := <[sys_next s := g]> (sys_pool s);
     sys_next := S (sys_next s); sys_runner := sys_runner s; sys_cancelled := sys_cancelled s;
     sys_parent := sys_parent s |}.

(** [ctx.Err() != nil] of the poll loop [g]. *)
Definition ctx_err (g : nat) (s : System) : bool :=
  sys_parent s || bool_decide (g ∈ sys_cancelled s).

(** [startPolling] *)
Definition startPolling (hostID : string) (s : System) : System :=
  match startPolling_locked (sys_next s) hostID (sys_mon s) with
  | (m, Some pollID) => spawn (PollProbe hostID pollID) (set_mon m s)
  | (_, None) => s
  end.

(** [stopPolling], up to the end of the lock. *)
Definition stopPolling (hostID : string) (s : System) : System :=
  let '(m, cancel, changed) := stopPolling_locked hostID (sys_mon s) in
  set_runner (Cancelling (option_list cancel)
    (if changed then Some (eventFromInfo hostID unknown_info) else None) false) (set_mon m s).

(** [stopAll], up to the end of the lock. *)
Definition stopAll (s : System) : System :=
  let '(m, ctxs) := stopAll_locked (sys_mon s) in
  set_runner (Cancelling ctxs None true) (set_mon m s).

(** [emit] by a goroutine or [Run], which then goes on as [s]. *)
Definition emit_then (ev : Event) (s : System) : option System :=
  option_map (fun m => set_mon m s) (emit ev (sys_mon s)).

(** The next step of [Run] within [stopPolling] or [stopAll]. *)
Definition runner_step (s : System) : option System :=
  match sys_runner s with
  | Cancelling (c :: ctxs) ev returns => Some (set_runner (Cancelling ctxs ev returns) (cancel c s))
  | Cancelling [] (Some ev) returns => emit_then ev (set_runner (Cancelling [] None returns) s)
  | Cancelling [] None returns => Some (set_runner (if returns then Returned else Selecting) s)
  | Selecting | Returned => Some s
  end.

(** The next step of a goroutine, other than a probe and a tick. *)
Definition go_step (g : nat) (s : System) : option System :=
  match sys_pool s !! g with
  | Some (PollCommit hostID pollID next) =>
      let '(m, changed) := probe_locked (ctx_err g s) hostID pollID next (sys_mon s) in
      Some (set_pool (<[g := if changed then PollEmit hostID pollID (eventFromInfo hostID next)
                             else PollWait hostID pollID]> (sys_pool s)) (set_mon m s))
  | Some (PollEmit hostID pollID ev) =>
      emit_then ev (set_pool (<[g := PollWait hostID pollID]> (sys_pool s)) s)
  | Some (PollWait _ _) =>
      Some (if ctx_err g s then set_pool (delete g (sys_pool s)) s else s)
  | Some (OnceCommit hostID next) =>
      let '(m, changed) := set_status hostID next (sys_mon s) in
      Some (set_pool (if changed then <[g := OnceEmit (eventFromInfo hostID next)]> (sys_pool s)
                      else delete g (sys_pool s)) (set_mon m s))
  | Some (OnceEmit ev) => emit_then ev (set_pool (delete g (sys_pool s)) s)
  | Some (PollProbe _ _) | None => Some s
  end.

(** One action; [None] is a panic.  An action that is not enabled does nothing. *)
Definition exec (a : action) (s : System) : option System :=
  match a with
  | ASignal hostID connected =>
      Some match sys_runner s with
           | Selecting => if connected then startPolling hostID s else stopPolling hostID s
           | _ => s
           end
  | ADone => Some match sys_runner s with Selecting => stopAll s | _ => s end
  | ARun => runner_step s
  | ACancelParent =>
      Some {| sys_mon := sys_mon s; sys_pool := sys_pool s; sys_next := sys_next s;
              sys_runner := sys_runner s; sys_cancelled := sys_cancelled s; sys_parent := true |}
  | AProbe g now probe =>
      Some match sys_pool s !! g with
           | Some (PollProbe hostID pollID) =>
               set_pool (<[g := PollCommit hostID pollID (classify now probe)]> (sys_pool s)) s
           | _ => s
           end
  | AStep g => go_step g s
  | ATick g =>
      Some match sys_pool s !! g with
           | Some (PollWait hostID pollID) =>
               set_pool (<[g := PollProbe hostID pollID]> (sys_pool s)) s
           | _ => s
           end
  | AProbeOnce hostID now probe => Some (spawn (OnceCommit hostID (classify now probe)) s)
  | ASubscribe id => Some (set_mon (Subscribe id (sys_mon s)) s)
  | AUnsubscribe id => option_map (fun m => set_mon m s) (Unsubscribe id (sys_mon s))
  | AReceive c =>
      Some match m_chans (sys_mon s) !! c with
           | Some ch => set_mon (with_subs (m_subs (sys_mon s))
                          (<[c := receive ch]> (m_chans (sys_mon s))) (sys_mon s)) s
           | None => s
           end
  | AInterval d => Some (set_mon (SetPollInterval d (sys_mon s)) s)
  end.

Fixpoint exec_all (acts : list action) (s : System) : option System :=
  match acts with
  | [] => Some s
  | a :: acts' => match exec a s with Some s' => exec_all acts' s' | None => None end
  end.

Definition initial : System :=
  {| sys_mon := NewMonitor; sys_pool := ∅; sys_next := 0; sys_runner := Selecting;
     sys_cancelled := ∅; sys_parent := false |}.

(** ** Invariant *)

(** The poll loop that a goroutine runs. *)
Definition polling (r : goroutine) : option (string * Z) :=
  match r with
  | PollProbe h p | PollCommit h p _ | PollEmit h p _ | PollWait h p => Some (h, p)
  | OnceCommit _ _ | OnceEmit _ => None
  end.

(** The contexts that [Run] is about to cancel. *)
Definition to_cancel (r : runner) : list nat :=
  match r with Cancelling ctxs _ _ => ctxs | Selecting | Returned => [] end.

(** The loop [g] has been told to end, or is about to be. *)
Definition ended (g : nat) (s : System) : Prop :=
  g ∈ sys_cancelled s \/ g ∈ to_cancel (sys_runner s).

(** [n] bounds the polls started so far.  A loop that has not been told to end is the
    one its host is registered with. *)
Record polls_ok (n : nat) (s : System) : Prop := {
  po_live : forall g r h p, sys_pool s !! g = Some r -> polling r = Some (h, p) ->
    ended g s \/ (m_cancels (sys_mon s) !! h = Some g /\ m_pollIDs (sys_mon s) !! h = Some p);
  po_positive : forall g r h p, sys_pool s !! g = Some r -> polling r = Some (h, p) -> (0 < p)%Z;
  po_fresh : forall g, sys_next s <= g -> sys_pool s !! g = None;
  po_cancels : forall h g, m_cancels (sys_mon s) !! h = Some g -> g < sys_next s;
  po_polls : (0 <= m_nextPoll (sys_mon s) <= Z.of_nat n)%Z;
  po_ids : forall h, m_cancels (sys_mon s) !! h = None -> m_pollIDs (sys_mon s) !! h = None;
}.

(** *** Subscribers *)

Definition mon_pub_ok (m : Monitor) : Prop := pub_ok (m_subs m) (m_chans m).

(** The events a monitor holds for its subscribers aside. *)
Definition same_polls (m m' : Monitor) : Prop :=
  m_status m' = m_status m /\ m_cancels m' = m_cancels m /\ m_pollIDs m' = m_pollIDs m /\
  m_nextPoll m' = m_nextPoll m.

Lemma emit_ok ev m :
  mon_pub_ok m -> exists m', emit ev m = Some m' /\ mon_pub_ok m' /\ same_polls m m'.
Proof.
  intros HP. unfold emit.
  destruct (pub_ok_send eventCap ev _ _ _ HP (subs_values (m_subs m))) as (chans & -> & HP').
  eexists. split; [done|]. by repeat split; try apply HP'.
Qed.

Lemma emit_then_ok ev s :
  mon_pub_ok (sys_mon s) ->
  exists m, emit_then ev s = Some (set_mon m s) /\ mon_pub_ok m /\ same_polls (sys_mon s) m.
Proof.
  intros HP. destruct (emit_ok ev _ HP) as (m & E & HP' & HS). unfold emit_then. rewrite E.
  by exists m.
Qed.

(** *** Polls *)

Lemma ended_same g s s' :
  sys_cancelled s' = sys_cancelled s -> sys_runner s' = sys_runner s -> ended g s <-> ended g s'.
Proof. intros E1 E2. unfold ended. by rewrite E1, E2. Qed.

(** Steps that leave the registration of polls alone, and take every goroutine to
    one of the same loop, or end it. *)
Lemma polls_ok_same n s s' :
  polls_ok n s ->
  m_cancels (sys_mon s') = m_cancels (sys_mon s) -> m_pollIDs (sys_mon s') = m_pollIDs (sys_mon s) ->
  m_nextPoll (sys_mon s') = m_nextPoll (sys_mon s) -> sys_next s <= sys_next s' ->
  (forall g, ended g s -> ended g s') ->
  (forall g r, sys_pool s' !! g = Some r ->
     (polling r = None /\ g < sys_next s') \/
     exists r', sys_pool s !! g = Some r' /\ polling r = polling r') ->
  polls_ok n s'.
Proof.
  intros [H1 H2 H3 H4 H5 H6] E1 E2 E3 Hn He Hp. split; rewrite ?E1, ?E2, ?E3; try done.
  - intros g r h p Hg Hr. destruct (Hp g r Hg) as [[Hr' _]|(r' & Hg' & E)]; [congruence|].
    rewrite E in Hr. destruct (H1 g r' h p Hg' Hr); auto.
  - intros g r h p Hg Hr. destruct (Hp g r Hg) as [[Hr' _]|(r' & Hg' & E)]; [congruence|].
    rewrite E in Hr. eauto.
  - intros g Hg. destruct (sys_pool s' !! g) as [r|] eqn:Eg; [|done].
    destruct (Hp g r Eg) as [[_ ?]|(r' & Hg' & _)]; [lia|]. rewrite H3 in Hg' by lia. done.
  - intros h g Hg. specialize (H4 h g Hg). lia.
Qed.

(** The usual case: only the pool changes, at one goroutine. *)
Lemma polls_ok_step n s m g r r' :
  polls_ok n s -> m_cancels m = m_cancels (sys_mon s) -> m_pollIDs m = m_pollIDs (sys_mon s) ->
  m_nextPoll m = m_nextPoll (sys_mon s) -> sys_pool s !! g = Some r -> polling r' = polling r ->
  polls_ok n (set_pool (<[g := r']> (sys_pool s)) (set_mon m s)).
Proof.
  intros HP E1 E2 E3 Hg Hr. apply (polls_ok_same n s); try done.
  intros g' x. simpl. intros [[<- <-]|[_ Hx]]%lookup_insert_Some; right; [by exists r|by exists x].
Qed.

Lemma polls_ok_exit n s m g :
  polls_ok n s -> m_cancels m = m_cancels (sys_mon s) -> m_pollIDs m = m_pollIDs (sys_mon s) ->
  m_nextPoll m = m_nextPoll (sys_mon s) ->
  polls_ok n (set_pool (delete g (sys_pool s)) (set_mon m s)).
Proof.
  intros HP E1 E2 E3. apply (polls_ok_same n s); try done.
  intros g' x. simpl. intros [_ Hx]%lookup_delete_Some. right. by exists x.
Qed.

Lemma polls_ok_mon n s m :
  polls_ok n s -> m_cancels m = m_cancels (sys_mon s) -> m_pollIDs m = m_pollIDs (sys_mon s) ->
  m_nextPoll m = m_nextPoll (sys_mon s) -> polls_ok n (set_mon m s).
Proof.
  intros HP E1 E2 E3. apply (polls_ok_same n s); try done. intros g r Hg. right. by exists r.
Qed.

Lemma polls_ok_S n s : polls_ok n s -> polls_ok (S n) s.
Proof. intros [H1 H2 H3 H4 H5 H6]. split; [done..|lia|done]. Qed.

Lemma polls_ok_start n s h :
  polls_ok n s -> (Z.of_nat n + 1 < 2 ^ 64)%Z -> polls_ok (S n) (startPolling h s).
Proof.
  intros HP Hn. pose proof HP as [H1 H2 H3 H4 H5 H6]. unfold startPolling, startPolling_locked.
  destruct (m_cancels (sys_mon s) !! h) eqn:E.
  { by apply polls_ok_S. }
  rewrite Z.mod_small by lia. split; simpl.
  - intros g r h' p [[<- <-]|[Hne Hg]]%lookup_insert_Some Hr; simplify_eq/=.
    + right. by rewrite !lookup_insert_eq.
    + destruct (H1 g r h' p Hg Hr) as [He|[Hc Hi]]; [by left|right].
      assert (h <> h') by congruence. by rewrite !lookup_insert_ne.
  - intros g r h' p [[<- <-]|[Hne Hg]]%lookup_insert_Some Hr; simplify_eq/=; [lia|eauto].
  - intros g Hg. rewrite lookup_insert_ne by lia. apply H3. lia.
  - intros h' g [[<- <-]|[_ Hg]]%lookup_insert_Some; [lia|]. apply H4 in Hg. lia.
  - lia.
  - intros h' [Hc Hne]%lookup_insert_None. rewrite lookup_insert_ne by done. auto.
Qed.

Lemma polls_ok_stop n s h :
  polls_ok n s -> sys_runner s = Selecting -> polls_ok n (stopPolling h s).
Proof.
  intros [H1 H2 H3 H4 H5 H6] Er. unfold stopPolling, stopPolling_locked.
  destruct (m_cancels (sys_mon s) !! h) as [c|] eqn:E; split; simpl; try done.
  - intros g r h' p Hg Hr. unfold ended. simpl.
    destruct (H1 g r h' p Hg Hr) as [[He|He]|[Hc Hi]]; [by auto|by rewrite Er in He; set_solver|].
    destruct (decide (h = h')) as [->|Hne]; [left; right; simplify_eq; by left|].
    right. by rewrite !lookup_delete_ne.
  - intros h' g [_ Hg]%lookup_delete_Some. eauto.
  - intros h' [->|Hc]%lookup_delete_None; rewrite lookup_delete_None; auto.
  - intros g r h' p Hg Hr. unfold ended. simpl.
    destruct (H1 g r h' p Hg Hr) as [[He|He]|[Hc Hi]]; [by auto|by rewrite Er in He; set_solver|].
    by right.
Qed.

Lemma polls_ok_stopAll n s :
  polls_ok n s -> sys_runner s = Selecting -> polls_ok n (stopAll s).
Proof.
  intros [H1 H2 H3 H4 H5 H6] Er. unfold stopAll, stopAll_locked. split; simpl; try done.
  intros g r h p Hg Hr. left. unfold ended. simpl.
  destruct (H1 g r h p Hg Hr) as [[He|He]|[Hc _]]; [by auto|by rewrite Er in He; set_solver|].
  right. apply list_elem_of_fmap. exists (h, g). split; [done|]. by apply elem_of_map_to_list.
Qed.

Lemma ended_cancel n s c ctxs ev returns :
  polls_ok n s -> sys_runner s = Cancelling (c :: ctxs) ev returns ->
  polls_ok n (set_runner (Cancelling ctxs ev returns) (cancel c s)).
Proof.
  intros HP Er. apply (polls_ok_same n s); try done.
  - intros g. unfold ended. rewrite Er. simpl. set_solver.
  - intros g r Hg. right. by exists r.
Qed.

Lemma polls_ok_runner n s ev returns r :
  polls_ok n s -> sys_runner s = Cancelling [] ev returns -> polls_ok n (set_runner r s).
Proof.
  intros HP Er. apply (polls_ok_same n s); try done.
  - intros g. unfold ended. rewrite Er. simpl. set_solver.
  - intros g x Hg. right. by exists x.
Qed.

(** The status set by [set_status] and by [probe_locked] is all that changes. *)
Lemma set_status_same h i m :
  m_cancels (set_status h i m).1 = m_cancels m /\ m_pollIDs (set_status h i m).1 = m_pollIDs m /\
  m_nextPoll (set_status h i m).1 = m_nextPoll m /\ m_subs (set_status h i m).1 = m_subs m /\
  m_chans (set_status h i m).1 = m_chans m.
Proof. done. Qed.

Lemma probe_locked_same e h p i m :
  m_cancels (probe_locked e h p i m).1 = m_cancels m /\
  m_pollIDs (probe_locked e h p i m).1 = m_pollIDs m /\
  m_nextPoll (probe_locked e h p i m).1 = m_nextPoll m /\
  m_subs (probe_locked e h p i m).1 = m_subs m /\ m_chans (probe_locked e h p i m).1 = m_chans m.
Proof. unfold probe_locked. by destruct (_ || _). Qed.

Definition good (n : nat) (s : System) : Prop := polls_ok n s /\ mon_pub_ok (sys_mon s).

Lemma run_step_ok n s : good n s -> exists s', runner_step s = Some s' /\ good n s'.
Proof.
  intros [HP HM]. unfold runner_step. destruct (sys_runner s) as [|[|c ctxs] ev returns|] eqn:Er;
    try (exists s; done).
  - destruct ev as [ev|].
    + destruct (emit_then_ok ev (set_runner (Cancelling [] None returns) s) HM)
        as (m & -> & HM' & (_ & E1 & E2 & E3)).
      eexists. split; [done|]. split; [|done].
      apply polls_ok_mon; [|done..]. by eapply polls_ok_runner.
    + eexists. split; [done|]. split; [|done]. by eapply polls_ok_runner.
  - eexists. split; [done|]. split; [|done]. by apply ended_cancel.
Qed.

Lemma go_step_ok n g s : good n s -> exists s', go_step g s = Some s' /\ good n s'.
Proof.
  intros [HP HM]. unfold go_step.
  destruct (sys_pool s !! g) as [[h p|h p i|h p ev|h p|h i|ev]|] eqn:Eg; try (exists s; done).
  - pose proof (probe_locked_same (ctx_err g s) h p i (sys_mon s)) as (E1 & E2 & E3 & E4 & E5).
    destruct (probe_locked _ h p i (sys_mon s)) as [m changed].
    eexists. split; [done|]. split; [|by unfold mon_pub_ok; simpl in *; rewrite E4, E5].
    eapply polls_ok_step; [done..|]. by destruct changed.
  - destruct (emit_then_ok ev (set_pool (<[g := PollWait h p]> (sys_pool s)) s) HM)
      as (m & -> & HM' & (_ & E1 & E2 & E3)).
    eexists. split; [done|]. split; [|done]. by apply (polls_ok_step n s m g _ _ HP E1 E2 E3 Eg).
  - eexists. split; [done|]. destruct (ctx_err g s); [|done]. split; [|done].
    by apply (polls_ok_exit n s (sys_mon s) g).
  - pose proof (set_status_same h i (sys_mon s)) as (E1 & E2 & E3 & E4 & E5).
    destruct (set_status h i (sys_mon s)) as [m changed].
    eexists. split; [done|]. split; [|by unfold mon_pub_ok; simpl in *; rewrite E4, E5].
    destruct changed; [by eapply polls_ok_step|by eapply polls_ok_exit].
  - destruct (emit_then_ok ev (set_pool (delete g (sys_pool s)) s) HM)
      as (m & -> & HM' & (_ & E1 & E2 & E3)).
    eexists. split; [done|]. split; [|done]. by apply (polls_ok_exit n s m g HP E1 E2 E3).
Qed.

(** Every action keeps the invariant, and none panics. *)
Lemma monitor_exec_ok n a s :
  good n s -> (Z.of_nat n + 1 < 2 ^ 64)%Z -> exists s', exec a s = Some s' /\ good (S n) s'.
Proof.
  intros HG Hn. assert (forall s', good n s' -> good (S n) s') as HS.
  { intros s' [HP HM]. split; [by apply polls_ok_S|done]. }
  pose proof HG as [HP HM].
  destruct a as [h c|  | | |g now pr|g|g|h now pr|id|id|c|d]; simpl.
  - eexists. split; [done|]. destruct (sys_runner s) eqn:Er; [|by apply HS..]. destruct c.
    + split; [by apply polls_ok_start|]. unfold startPolling, startPolling_locked.
      by destruct (m_cancels (sys_mon s) !! h).
    + apply HS. split; [by apply polls_ok_stop|]. unfold stopPolling, stopPolling_locked.
      by destruct (m_cancels (sys_mon s) !! h).
  - eexists. split; [done|]. apply HS. destruct (sys_runner s) eqn:Er; [|done..].
    split; [by apply polls_ok_stopAll|done].
  - destruct (run_step_ok n s HG) as (s' & -> & HG'). eauto.
  - eexists. split; [done|]. apply HS. split; [|done].
    apply (polls_ok_same n s); try done. intros g r Hg. right. by exists r.
  - eexists. split; [done|]. apply HS.
    destruct (sys_pool s !! g) as [[h p|? ? ?|? ? ?|? ?|? ?|?]|] eqn:Eg; try done. split; [|done].
    by apply (polls_ok_step n s (sys_mon s) g (PollProbe h p)).
  - destruct (go_step_ok n g s HG) as (s' & -> & HG'). eauto.
  - eexists. split; [done|]. apply HS.
    destruct (sys_pool s !! g) as [[? ?|? ? ?|? ? ?|h p|? ?|?]|] eqn:Eg; try done. split; [|done].
    by apply (polls_ok_step n s (sys_mon s) g (PollWait h p)).
  - eexists. split; [done|]. apply HS. split; [|done].
    apply (polls_ok_same n s); simpl; try done; [lia|].
    intros g r [[<- <-]|[_ Hg]]%lookup_insert_Some; [left; split; [done|lia]|right; by exists r].
  - eexists. split; [done|]. apply HS. split; [by apply polls_ok_mon|by apply pub_ok_subscribe].
  - destruct (pub_ok_unsubscribe id _ _ HM) as (subs & chans & E & HP' & _).
    unfold Unsubscribe. rewrite E. eexists. split; [done|]. apply HS. split; [by apply polls_ok_mon|done].
  - eexists. split; [done|]. apply HS. destruct (m_chans (sys_mon s) !! c) as [ch|] eqn:Ec; [|done].
    split; [by apply polls_ok_mon|]. by eapply pub_ok_update.
  - eexists. split; [done|]. apply HS. split; [by apply polls_ok_mon|done].
Qed.

Lemma initial_good : good 0 initial.
Proof.
  split; [|apply pub_ok_empty]. split; simpl; try done.
  all: intros g r h p Hg; by rewrite lookup_empty in Hg.
Qed.

Lemma monitor_exec_all_ok acts : forall n s,
  good n s -> (Z.of_nat (n + length acts) < 2 ^ 64)%Z ->
  exists s', exec_all acts s = Some s' /\ good (n + length acts) s'.
Proof.
  induction acts as [|a acts IH]; intros n s HG Hn; simpl in *.
  { exists s. by rewrite Nat.add_0_r. }
  destruct (monitor_exec_ok n a s HG) as (s1 & -> & HG1); [lia|].
  destruct (IH (S n) s1 HG1) as (s' & -> & HG'); [lia|].
  exists s'. split; [done|]. by replace (n + S (length acts)) with (S n + length acts) by lia.
Qed.

Lemma exec_all_app acts acts' s :
  exec_all (acts ++ acts') s = match exec_all acts s with Some s' => exec_all acts' s' | None => None end.
Proof.
  revert s; induction acts as [|a acts IH]; intros s; simpl; [done|]. by destruct (exec a s).
Qed.

(** ** Theorems *)

(** Whatever the interleaving of signals, probes, ticks, single probes and subscribers, the
    monitor never panics (it only sends to, and closes, channels that are open), and a host never
    has two poll loops that go on: of the loops of a host, all but the one it is registered with
    have been cancelled, or are in the list that [Run] is cancelling. *)
Theorem one_poll_loop acts :
  (Z.of_nat (length acts) < 2 ^ 64)%Z ->
  exists s, exec_all acts initial = Some s /\
    forall g g' r r' h p p', sys_pool s !! g = Some r -> sys_pool s !! g' = Some r' ->
      polling r = Some (h, p) -> polling r' = Some (h, p') ->
      ~ ended g s -> ~ ended g' s -> g = g'.
Proof.
  intros Hn. destruct (monitor_exec_all_ok acts 0 initial initial_good Hn) as (s & E & [HP _]).
  exists s. split; [done|]. intros g g' r r' h p p' Hg Hg' Hr Hr' He He'.
  destruct (po_live _ _ HP _ _ _ _ Hg Hr) as [|[Hc _]]; [done|].
  destruct (po_live _ _ HP _ _ _ _ Hg' Hr') as [|[Hc' _]]; [done|]. congruence.
Qed.

(** The host is not polled, its status says so, and no single probe is under way. *)
Record quiet (h : string) (s : System) : Prop := {
  qu_id : m_pollIDs (sys_mon s) !! h = None;
  qu_status : m_status (sys_mon s) !! h = Some unknown_info;
  qu_once : forall g i, sys_pool s !! g <> Some (OnceCommit h i);
}.

(** The actions that may change the status of [h] then. *)
Definition touches (h : string) (a : action) : bool :=
  match a with
  | ASignal h' true => h' =? h
  | AProbeOnce h' _ _ => h' =? h
  | _ => false
  end.

Lemma quiet_same h s s' :
  quiet h s -> m_pollIDs (sys_mon s') !! h = None -> m_status (sys_mon s') !! h = Some unknown_info ->
  (forall g r, sys_pool s' !! g = Some r -> (forall i, r <> OnceCommit h i) \/ sys_pool s !! g = Some r) ->
  quiet h s'.
Proof.
  intros [H1 H2 H3] E1 E2 Hp. split; [done..|]. intros g i Hg.
  destruct (Hp g _ Hg) as [H|H]; [by eapply H|by eapply H3].
Qed.

Lemma emit_then_quiet h ev s s' :
  quiet h s -> emit_then ev s = Some s' -> quiet h s'.
Proof.
  intros HQ. unfold emit_then, emit. destruct (send_all _ _ _ _) as [chans|]; intros [= <-].
  destruct HQ as [H1 H2 H3]. by split.
Qed.

Lemma go_step_quiet n h g s s' :
  good n s -> quiet h s -> go_step g s = Some s' -> quiet h s'.
Proof.
  intros [HP _] HQ. pose proof HQ as [H1 H2 H3]. unfold go_step.
  assert (forall pool, (forall g' r, pool !! g' = Some r ->
    (forall i, r <> OnceCommit h i) \/ sys_pool s !! g' = Some r) -> quiet h (set_pool pool s)) as Hpool.
  { intros pool Hpool. by apply (quiet_same h s). }
  assert (forall g' r x, <[g := x]> (sys_pool s) !! g' = Some r -> (forall i, x <> OnceCommit h i) ->
    (forall i, r <> OnceCommit h i) \/ sys_pool s !! g' = Some r) as Hins.
  { intros g' r x [[_ <-]|[_ Hr]]%lookup_insert_Some Hx; auto. }
  assert (forall g' r, delete g (sys_pool s) !! g' = Some r ->
    (forall i, r <> OnceCommit h i) \/ sys_pool s !! g' = Some r) as Hdel.
  { intros g' r [_ Hr]%lookup_delete_Some. auto. }
  destruct (sys_pool s !! g) as [[h' p|h' p i|h' p ev|h' p|h' i|ev]|] eqn:Eg; intros H;
    simplify_eq; try done.
  - pose proof (po_positive _ _ HP _ _ h' p Eg eq_refl) as Hpos.
    unfold probe_locked, set_status in H.
    destruct (ctx_err g s || negb (default 0 (m_pollIDs (sys_mon s) !! h') =? p)%Z) eqn:E;
      simplify_eq/=.
    + apply (quiet_same h s); [done..|]. intros g' r Hr. simpl in Hr. by apply (Hins _ _ _ Hr).
    + apply orb_false_iff in E as [_ E%negb_false_iff%Z.eqb_eq].
      destruct (decide (h' = h)) as [->|Hne]; [rewrite H1 in E; simpl in E; lia|].
      apply (quiet_same h s); simpl; [done..|by rewrite lookup_insert_ne|].
      intros g' r Hr. apply (Hins _ _ _ Hr). by case_match.
  - eapply emit_then_quiet; [|done]. apply Hpool. intros g' r Hr. by apply (Hins _ _ _ Hr).
  - destruct (ctx_err g s); [by apply Hpool|done].
  - unfold set_status in H. simplify_eq/=.
    assert (h' <> h) as Hne by (intros ->; by eapply H3).
    apply (quiet_same h s); simpl; [done..|by rewrite lookup_insert_ne|].
    intros g' r Hr. case_match; [by apply (Hins _ _ _ Hr)|by apply Hdel].
  - eapply emit_then_quiet; [|done]. by apply Hpool.
Qed.

Lemma exec_quiet n h a s s' :
  good n s -> quiet h s -> touches h a = false -> exec a s = Some s' -> quiet h s'.
Proof.
  intros HG HQ Ht H. pose proof HQ as [H1 H2 H3].
  assert (forall g r, sys_pool s !! g = Some r -> (forall i, r <> OnceCommit h i) \/ sys_pool s !! g = Some r)
    as Hid by auto.
  destruct a as [h' c|  | | |g now pr|g|g|h' now pr|id|id|c|d]; simpl in H, Ht; simplify_eq.
  - destruct (sys_runner s); [|done..]. destruct c.
    + apply String.eqb_neq in Ht. unfold startPolling, startPolling_locked.
      destruct (m_cancels (sys_mon s) !! h'); [done|].
      apply (quiet_same h s); simpl; [done|by rewrite lookup_insert_ne|done|].
      intros g r [[_ <-]|[_ Hr]]%lookup_insert_Some; auto.
    + unfold stopPolling, stopPolling_locked.
      assert (<[h' := unknown_info]> (m_status (sys_mon s)) !! h = Some unknown_info) as Hs.
      { destruct (decide (h' = h)) as [->|Hne]; [by rewrite lookup_insert_eq|by rewrite lookup_insert_ne]. }
      destruct (m_cancels (sys_mon s) !! h'); apply (quiet_same h s); simpl; try done.
      by rewrite lookup_delete_None; right.
  - destruct (sys_runner s); [|done..]. by apply (quiet_same h s).
  - unfold runner_step in H. destruct (sys_runner s) as [|[|c ctxs] [ev|] returns|]; simplify_eq;
      [done| |by apply (quiet_same h s)..|done].
    eapply emit_then_quiet; [|done]. by apply (quiet_same h s).
  - by apply (quiet_same h s).
  - destruct (sys_pool s !! g) as [[h' p|? ? ?|? ? ?|? ?|? ?|?]|]; try done.
    apply (quiet_same h s); [done..|]. simpl. intros g' r [[_ <-]|[_ Hr]]%lookup_insert_Some; auto.
  - by eapply go_step_quiet.
  - destruct (sys_pool s !! g) as [[? ?|? ? ?|? ? ?|h' p|? ?|?]|]; try done.
    apply (quiet_same h s); [done..|]. simpl. intros g' r [[_ <-]|[_ Hr]]%lookup_insert_Some; auto.
  - apply String.eqb_neq in Ht. apply (quiet_same h s); [done..|]. simpl.
    intros g r [[_ <-]|[_ Hr]]%lookup_insert_Some; [left; congruence|auto].
  - by apply (quiet_same h s).
  - unfold Unsubscribe in H. destruct (unsubscribe _ _ _) as [[subs chans]|]; simplify_eq/=.
    by apply (quiet_same h s).
  - destruct (m_chans (sys_mon s) !! c); [by apply (quiet_same h s)|done].
  - by apply (quiet_same h s).
Qed.

Lemma exec_all_quiet h acts : forall n s s',
  good n s -> quiet h s -> (Z.of_nat (n + length acts) < 2 ^ 64)%Z ->
  Forall (fun a => touches h a = false) acts -> exec_all acts s = Some s' -> quiet h s'.
Proof.
  induction acts as [|a acts IH]; intros n s s' HG HQ Hn Ht H; simpl in *; [by simplify_eq|].
  inversion Ht as [|? ? Hta Ht']; subst.
  destruct (monitor_exec_ok n a s HG) as (s1 & E & HG1); [lia|]. rewrite E in H.
  apply (IH (S n) s1); [done|exact (exec_quiet n h a s s1 HG HQ Hta E)|lia|done..].
Qed.

(** A probe that was under way when the tunnel of its host went down never changes the
    status again: from the moment [Run] handles the signal until the host is connected again (or
    probed once by hand), the status of the host is unknown, however the running probes, the
    ticks, the cancellation and the operations on other hosts interleave. *)
Theorem stale_probe_ignored acts h acts' s s' :
  (Z.of_nat (length acts + S (length acts')) < 2 ^ 64)%Z ->
  exec_all acts initial = Some s -> sys_runner s = Selecting ->
  (forall g i, sys_pool s !! g <> Some (OnceCommit h i)) ->
  Forall (fun a => touches h a = false) acts' ->
  exec_all (ASignal h false :: acts') s = Some s' ->
  Monitor_Info h (sys_mon s') = unknown_info.
Proof.
  intros Hn E Er Ho Ht. destruct (monitor_exec_all_ok acts 0 initial initial_good) as (s0 & E0 & HG); [lia|].
  rewrite E in E0. simplify_eq. cbn [exec_all exec]. rewrite Er.
  destruct (monitor_exec_ok (length acts) (ASignal h false) s0 HG) as (s1 & E1 & HG1); [lia|].
  cbn [exec] in E1. rewrite Er in E1. simplify_eq.
  assert (quiet h (stopPolling h s0)) as HQ.
  { pose proof (po_ids _ _ (proj1 HG) h) as Hids. unfold stopPolling, stopPolling_locked.
    destruct (m_cancels (sys_mon s0) !! h) as [c|] eqn:Ec; split; simpl;
      rewrite ?lookup_delete_eq, ?lookup_insert_eq; auto. }
  intros H. assert (quiet h s') as HQ'.
  { apply (exec_all_quiet h acts' (S (length acts)) (stopPolling h s0)); try done. lia. }
  unfold Monitor_Info. by rewrite (qu_status _ _ HQ').
Qed.

(** A probe is under way when the tunnel goes down; its result is dropped. *)
Definition example_before : list action :=
  [ASignal "db1" true; AProbe 0 5 (Ok {| pr_AllEndpointsOK := true; pr_Version := "1.2"; pr_Status := "" |})].
Definition example_after : list action := [AStep 0; ARun; AStep 0; AStep 0; ARun].

Definition example_state : System := default initial (exec_all example_before initial).

Definition once (r : goroutine) : bool := match r with OnceCommit _ _ => true | _ => false end.

Lemma no_once s :
  map_Forall (fun _ r => once r = false) (sys_pool s) ->
  forall h g i, sys_pool s !! g <> Some (OnceCommit h i).
Proof. intros H h g i E. by specialize (H g _ E). Qed.

Lemma stale_probe_ignored_witness :
  match exec_all (ASignal "db1" false :: example_after) example_state with
  | Some s => Monitor_Info "db1" (sys_mon s) = unknown_info
  | None => False
  end.
Proof.
  destruct (exec_all (ASignal "db1" false :: example_after) example_state) as [s'|] eqn:E.
  - eapply (stale_probe_ignored example_before "db1" example_after example_state s');
      [by vm_compute|by vm_compute|by vm_compute|..|exact E].
    + apply no_once. apply (bool_decide_eq_true_1 (map_Forall _ _)). by vm_compute.
    + repeat constructor.
  - vm_compute in E. discriminate E.
Defined.

(** A host that is disconnected and connected again before its first loop has ended. *)
Definition example_again : list action :=
  example_before ++ [ASignal "db1" false; ARun; ARun; ASignal "db1" true].

Lemma one_poll_loop_witness :
  let s := default initial (exec_all example_again initial) in ~ (~ ended 0 s /\ ~ ended 1 s).
Proof.
  destruct (one_poll_loop example_again) as (s & E & H); [by vm_compute|].
  rewrite E. simpl. intros [H0 H1].
  assert (s = default initial (exec_all example_again initial)) as Es by by rewrite E.
  vm_compute in Es.
  assert (0 = 1) as C; [|discriminate C].
  eapply (H 0 1); [subst s; reflexivity|subst s; reflexivity|reflexivity|reflexivity|done..].
Defined.

Example classify_ex :
  info_Status <$> [classify 1 (Err tt);
    classify 1 (Ok {| pr_AllEndpointsOK := false; pr_Version := "1"; pr_Status := "" |});
    classify 1 (Ok {| pr_AllEndpointsOK := false; pr_Version := "1"; pr_Status := StatusAuthFailed |})]
  = [StatusUnreachable; StatusVersionMismatch; StatusAuthFailed].
Proof. done. Qed.

(** Events are emitted after the lock that changed the status is released, so they can
    overtake each other: the last event a subscriber gets says healthy, while the
    tunnel is down, the status is unknown and nothing is left to run. *)
Theorem events_overtake :
  exists acts s, exec_all acts initial = Some s /\
    Monitor_Info "db1" (sys_mon s) = unknown_info /\
    sys_pool s = ∅ /\ sys_runner s = Selecting /\
    match m_chans (sys_mon s) !! 0 with
    | Some ch => ev_Status <$> last (ch_buf ch)
    | None => None
    end = Some StatusHealthy.
Proof.
  exists (ASubscribe "ui" :: example_before ++ [AStep 0; ASignal "db1" false; ARun; ARun; ARun; AStep 0; AStep 0]).
  eexists. split; [vm_compute; reflexivity|]. by vm_compute.
Qed.
