(* ===== verification/DebugSession.v ===== *)
(** * Debug sessions (agent/debugsession/store.go, agent/api/handler_debug_sessions.go)

    A debug session is the record of one investigation: it is opened for a
    project, collects events, and is closed once.  All sessions live in one JSON
    file that every operation reads and rewrites under a lock, so that an operation
    is one step from a file to a file.

    The first half translates the store and its HTTP handlers.  The second half
    states the life of a session (the shape of its history, what a closed session
    refuses, the size of what it keeps) for every run of the store. *)
From stdpp Require Import base list strings gmap pretty sorting.
From Stdlib Require Import ZArith Lia Ascii.
From S2P Require Import Prelude Model.
Local Open Scope string_scope.

(** ** encoding/json.Marshal of an [any]

    A string is quoted; quotes, backslashes, control characters, the characters
    that HTML gives a meaning, and the separators U+2028 and U+2029 are escaped. *)

Definition hex_digit (n : nat) : ascii := byte_of (if (n <? 10)%nat then 48 + n else 87 + n).

Definition escape_byte (c : ascii) : list ascii :=
  let n := nat_of_ascii c in
  if (n =? 34)%nat || (n =? 92)%nat then [byte_of 92; c]
  else if (n =? 8)%nat then [byte_of 92; "b"%char]
  else if (n =? 12)%nat then [byte_of 92; "f"%char]
  else if (n =? 10)%nat then [byte_of 92; "n"%char]
  else if (n =? 13)%nat then [byte_of 92; "r"%char]
  else if (n =? 9)%nat then [byte_of 92; "t"%char]
  else if (n <? 32)%nat || bool_decide (n ∈ [38; 60; 62])
  then [byte_of 92; "u"%char; "0"%char; "0"%char; hex_digit (n / 16); hex_digit (n mod 16)]
  else [c].

Fixpoint escape (l : list ascii) : list ascii :=
  match l with
  | [] => []
  | a :: rest =>
      match rest with
      | b :: c :: rest' =>
          if (nat_of_ascii a =? 226)%nat && (nat_of_ascii b =? 128)%nat
             && ((nat_of_ascii c =? 168)%nat || (nat_of_ascii c =? 169)%nat)
          then ([byte_of 92; "u"%char; "2"%char; "0"%char; "2"%char;
                 hex_digit (nat_of_ascii c - 160)] ++ escape rest')%list
          else (escape_byte a ++ escape rest)%list
      | _ => (escape_byte a ++ escape rest)%list
      end
  end.

Definition quote (s : string) : string :=
  let q := String (byte_of 34) "" in
  q +:+ String.string_of_list_ascii (escape (String.list_ascii_of_string s)) +:+ q.

(** The keys of a map are written in order. *)
Fixpoint Marshal (v : any) : string :=
  match v with
  | ANil => "null"
  | ABool b => if b then "true" else "false"
  | AInt z => pretty z
  | AFloat text => text
  | AStr s => quote s
  | AList l => "[" +:+ String.concat "," (Marshal <$> l) +:+ "]"
  | AMap m =>
      let fields := (fun kv => (kv.1, Marshal kv.2)) <$> m in
      let sorted := SliceStable (fun x y => String.ltb x.1 y.1) fields in
      "{" +:+ String.concat "," ((fun kv => quote kv.1 +:+ ":" +:+ kv.2) <$> sorted) +:+ "}"
  end.

Example Marshal_ex :
  Marshal (AMap [("b", AList [AInt 3; ANil; AFloat "0.5"]); ("a", AStr "x<y")])
  = "{" +:+ quote "a" +:+ ":" +:+ String (byte_of 34) "x\u003cy" +:+ String (byte_of 34)
    ("," +:+ quote "b" +:+ ":[3,null,0.5]}").
Proof. by vm_compute. Qed.

(** ** Constants, errors and records *)

Definition maxEventDataBytes : Z := (32 * 1024)%Z.

Definition StatusOpen := "open".
Definition StatusClosed := "closed".

Definition EventNote := "note".
Definition EventToolCall := "tool_call".
Definition EventObservation := "observation".
Definition EventLogAnalysis := "log_analysis".
Definition EventStatusChange := "status_change".

Definition ActorUser := "user".
Definition ActorAssistant := "assistant".
Definition ActorSystem := "system".

(** The last two are the wrapped errors of [load] and [save]. *)
Inductive session_error : Type :=
| ErrSessionNotFound
| ErrSessionClosed
| ErrEventTooLarge
| ErrInvalidEvent
| ErrLoadSessions
| ErrSaveSessions.

Record Session : Type := mkSession {
  ses_ID : string;
  ses_ProjectID : string;
  ses_ProjectName : string;
  ses_EnvName : string;
  ses_ServiceID : string;
  ses_ServiceName : string;
  ses_DeploymentID : string;
  ses_Title : string;
  ses_Question : string;
  ses_Status : string;
  ses_CreatedAt : time;
  ses_UpdatedAt : time;
  ses_ClosedAt : option time;
}.

(** [None] is the nil map. *)
Record Event : Type := mkEvent {
  ev_ID : string;
  ev_SessionID : string;
  ev_Type : string;
  ev_Actor : string;
  ev_Summary : string;
  ev_Data : option (list (string * any));
  ev_CreatedAt : time;
}.

Record CreateRequest : Type := mkCreate {
  cr_ProjectID : string;
  cr_ProjectName : string;
  cr_EnvName : string;
  cr_ServiceID : string;
  cr_ServiceName : string;
  cr_DeploymentID : string;
  cr_Title : string;
  cr_Question : string;
}.

Record AppendEventRequest : Type := mkAppend {
  ar_Type : string;
  ar_Actor : string;
  ar_Summary : string;
  ar_Data : option (list (string * any));
}.

Record ListFilter : Type := mkFilter {
  lf_ProjectID : string;
  lf_Status : string;
  lf_Limit : Z;
}.

Record state : Type := mkState {
  st_Sessions : list Session;
  st_Events : list Event;
}.

Definition state_zero : state := mkState [] [].

(** ** The file *)

Definition load (w : World) (f : file state) : result session_error state :=
  if w_read_ok w then
    match contents state_zero f with
    | Some st => Ok st
    | None => Err ErrLoadSessions
    end
  else Err ErrLoadSessions.

(** [json:"data,omitempty"]: an empty map is not written, and reads back as nil. *)
Definition omit_empty (e : Event) : Event :=
  mkEvent (ev_ID e) (ev_SessionID e) (ev_Type e) (ev_Actor e) (ev_Summary e)
    (match ev_Data e with Some [] => None | d => d end) (ev_CreatedAt e).

(** The new file, and whether [save] returned nil. *)
Definition save (w : World) (f : file state) (st : state) : file state * bool :=
  write_rename (w_save w) f (mkState (st_Sessions st) (omit_empty <$> st_Events st)).

Definition newID (prefix random : string) : string := prefix +:+ "_" +:+ random.

(** ** Requests *)

Definition normalizeCreateRequest (req : CreateRequest) : CreateRequest :=
  {| cr_ProjectID := TrimSpace (cr_ProjectID req);
     cr_ProjectName := TrimSpace (cr_ProjectName req);
     cr_EnvName := TrimSpace (cr_EnvName req);
     cr_ServiceID := TrimSpace (cr_ServiceID req);
     cr_ServiceName := TrimSpace (cr_ServiceName req);
     cr_DeploymentID := TrimSpace (cr_DeploymentID req);
     cr_Title := TrimSpace (cr_Title req);
     cr_Question := TrimSpace (cr_Question req) |}.

Definition normalizeAppendEventRequest (req : AppendEventRequest) : AppendEventRequest :=
  {| ar_Type := TrimSpace (ar_Type req);
     ar_Actor := TrimSpace (ar_Actor req);
     ar_Summary := TrimSpace (ar_Summary req);
     ar_Data := ar_Data req |}.

Definition validateAppendEvent (req : AppendEventRequest) : option session_error :=
  if ar_Summary req =? "" then Some ErrInvalidEvent
  else if negb (bool_decide
      (ar_Type req ∈ [EventNote; EventToolCall; EventObservation; EventLogAnalysis]))
  then Some ErrInvalidEvent
  else if negb (bool_decide (ar_Actor req ∈ [ActorUser; ActorAssistant; ActorSystem]))
  then Some ErrInvalidEvent
  else None.

(** [Marshal] has no error to return: what a request carries came out of a JSON body. *)
Definition ensureEventDataSize (data : option (list (string * any))) : option session_error :=
  match data with
  | None => None
  | Some m =>
      if (maxEventDataBytes <? Z.of_nat (String.length (Marshal (AMap m))))%Z
      then Some ErrEventTooLarge else None
  end.

Definition findSession (sessions : list Session) (id : string) : option Session :=
  List.find (fun s => ses_ID s =? id) sessions.

(** The index with the session at it; [None] is -1. *)
Definition findSessionIndex (sessions : list Session) (id : string) : option (nat * Session) :=
  list_find (fun s => ses_ID s = id) sessions.

(** ** Operations *)

(** [w_id] is the random part of the identifier of the session, [event_id] that of the event. *)
Definition Create (w : World) (event_id : string) (req : CreateRequest) (f : file state)
    : file state * result session_error (Session * Event) :=
  let req := normalizeCreateRequest req in
  if (cr_ProjectID req =? "") || (cr_ProjectName req =? "") || (cr_Title req =? "")
     || (cr_Question req =? "")
  then (f, Err ErrInvalidEvent)
  else
    match load w f with
    | Err e => (f, Err e)
    | Ok st =>
        let now := w_now w in
        let session :=
          {| ses_ID := newID "ds" (w_id w);
             ses_ProjectID := cr_ProjectID req;
             ses_ProjectName := cr_ProjectName req;
             ses_EnvName := cr_EnvName req;
             ses_ServiceID := cr_ServiceID req;
             ses_ServiceName := cr_ServiceName req;
             ses_DeploymentID := cr_DeploymentID req;
             ses_Title := cr_Title req;
             ses_Question := cr_Question req;
             ses_Status := StatusOpen;
             ses_CreatedAt := now;
             ses_UpdatedAt := now;
             ses_ClosedAt := None |} in
        let event :=
          {| ev_ID := newID "dse" event_id;
             ev_SessionID := ses_ID session;
             ev_Type := EventStatusChange;
             ev_Actor := ActorSystem;
             ev_Summary := "debug session opened";
             ev_Data := Some [("status", AStr StatusOpen)];
             ev_CreatedAt := now |} in
        let st := mkState (st_Sessions st ++ [session])%list (st_Events st ++ [event])%list in
        let '(f', ok) := save w f st in
        (f', if ok then Ok (session, event) else Err ErrSaveSessions)
    end.

(** [if limit > 0 && len(out) > limit { out = out[:limit] }] *)
Definition cut {A} (limit : Z) (l : list A) : list A :=
  if (0 <? limit)%Z && (limit <? Z.of_nat (length l))%Z then take (Z.to_nat limit) l else l.

Definition List (w : World) (filter : ListFilter) (f : file state)
    : result session_error (list Session) :=
  match load w f with
  | Err e => Err e
  | Ok st =>
      let projectID := TrimSpace (lf_ProjectID filter) in
      let status := TrimSpace (lf_Status filter) in
      let out := List.filter (fun s =>
        negb (negb (projectID =? "") && negb (ses_ProjectID s =? projectID))
        && negb (negb (status =? "") && negb (ses_Status s =? status))) (st_Sessions st) in
      let out := SliceStable (fun x y => time_after (ses_UpdatedAt x) (ses_UpdatedAt y)) out in
      Ok (cut (lf_Limit filter) out)
  end.

(** The events of a session, in the order of the file. *)
Definition events_of (id : string) (events : list Event) : list Event :=
  List.filter (fun e => ev_SessionID e =? id) events.

Definition Get (w : World) (id : string) (limit : Z) (f : file state)
    : result session_error (Session * list Event) :=
  match load w f with
  | Err e => Err e
  | Ok st =>
      match findSession (st_Sessions st) (TrimSpace id) with
      | None => Err ErrSessionNotFound
      | Some session =>
          let events := events_of (ses_ID session) (st_Events st) in
          let events :=
            SliceStable (fun x y => time_before (ev_CreatedAt x) (ev_CreatedAt y)) events in
          Ok (session, cut limit events)
      end
  end.

(** [st.Sessions[idx].UpdatedAt = now] *)
Definition touch (now : time) (s : Session) : Session :=
  {| ses_ID := ses_ID s; ses_ProjectID := ses_ProjectID s; ses_ProjectName := ses_ProjectName s;
     ses_EnvName := ses_EnvName s; ses_ServiceID := ses_ServiceID s;
     ses_ServiceName := ses_ServiceName s; ses_DeploymentID := ses_DeploymentID s;
     ses_Title := ses_Title s; ses_Question := ses_Question s; ses_Status := ses_Status s;
     ses_CreatedAt := ses_CreatedAt s; ses_UpdatedAt := now; ses_ClosedAt := ses_ClosedAt s |}.

Definition AppendEvent (w : World) (sessionID : string) (req : AppendEventRequest)
    (f : file state) : file state * result session_error Event :=
  let req := normalizeAppendEventRequest req in
  match validateAppendEvent req with
  | Some e => (f, Err e)
  | None =>
  match ensureEventDataSize (ar_Data req) with
  | Some e => (f, Err e)
  | None =>
  match load w f with
  | Err e => (f, Err e)
  | Ok st =>
  match findSessionIndex (st_Sessions st) (TrimSpace sessionID) with
  | None => (f, Err ErrSessionNotFound)
  | Some (idx, session) =>
      if ses_Status session =? StatusClosed then (f, Err ErrSessionClosed)
      else
        let now := w_now w in
        let event :=
          {| ev_ID := newID "dse" (w_id w);
             ev_SessionID := ses_ID session;
             ev_Type := ar_Type req;
             ev_Actor := ar_Actor req;
             ev_Summary := ar_Summary req;
             ev_Data := ar_Data req;
             ev_CreatedAt := now |} in
        let st := mkState (<[idx := touch now session]> (st_Sessions st))
                          (st_Events st ++ [event])%list in
        let '(f', ok) := save w f st in
        (f', if ok then Ok event else Err ErrSaveSessions)
  end end end end.

(** [Status, UpdatedAt, ClosedAt = StatusClosed, now, &now] *)
Definition close_session (now : time) (s : Session) : Session :=
  {| ses_ID := ses_ID s; ses_ProjectID := ses_ProjectID s; ses_ProjectName := ses_ProjectName s;
     ses_EnvName := ses_EnvName s; ses_ServiceID := ses_ServiceID s;
     ses_ServiceName := ses_ServiceName s; ses_DeploymentID := ses_DeploymentID s;
     ses_Title := ses_Title s; ses_Question := ses_Question s; ses_Status := StatusClosed;
     ses_CreatedAt := ses_CreatedAt s; ses_UpdatedAt := now; ses_ClosedAt := Some now |}.

(** The event is [None] where the code returns [Event{}], for a session already closed. *)
Definition Close (w : World) (sessionID summary : string) (f : file state)
    : file state * result session_error (Session * option Event) :=
  match load w f with
  | Err e => (f, Err e)
  | Ok st =>
  match findSessionIndex (st_Sessions st) (TrimSpace sessionID) with
  | None => (f, Err ErrSessionNotFound)
  | Some (idx, session) =>
      if ses_Status session =? StatusClosed then (f, Ok (session, None))
      else
        let now := w_now w in
        let closed := close_session now session in
        let closeSummary := TrimSpace summary in
        let closeSummary :=
          if closeSummary =? "" then "debug session closed" else closeSummary in
        let event :=
          {| ev_ID := newID "dse" (w_id w);
             ev_SessionID := ses_ID closed;
             ev_Type := EventStatusChange;
             ev_Actor := ActorSystem;
             ev_Summary := closeSummary;
             ev_Data := Some [("status", AStr StatusClosed)];
             ev_CreatedAt := now |} in
        let st := mkState (<[idx := closed]> (st_Sessions st)) (st_Events st ++ [event])%list in
        let '(f', ok) := save w f st in
        (f', if ok then Ok (closed, Some event) else Err ErrSaveSessions)
  end end.

(** ** HTTP handlers (agent/api/handler_debug_sessions.go)

    A reply is the value that is encoded, or a status with a message.  The body of
    a request is [None] where it does not decode. *)

Abbreviation reply := (result (Z * string)).

Definition StatusBadRequest : Z := 400%Z.
Definition StatusNotFound : Z := 404%Z.
Definition StatusInternalServerError : Z := 500%Z.

(** [err.Error()] *)
Definition session_error_text (e : session_error) : string :=
  match e with
  | ErrSessionNotFound => "debug session not found"
  | ErrSessionClosed => "debug session is closed"
  | ErrEventTooLarge => "debug session event data is too large"
  | ErrInvalidEvent => "debug session event is invalid"
  | ErrLoadSessions => "load debug sessions"
  | ErrSaveSessions => "save debug sessions"
  end.

Definition writeDebugSessionStoreError (e : session_error) : Z * string :=
  match e with
  | ErrSessionNotFound => (StatusNotFound, "debug session not found")
  | ErrSessionClosed => (StatusBadRequest, "debug session is closed")
  | ErrInvalidEvent | ErrEventTooLarge => (StatusBadRequest, session_error_text e)
  | _ => (StatusInternalServerError, session_error_text e)
  end.

Definition store_reply {A} (r : result session_error A) : reply A :=
  match r with Ok a => Ok a | Err e => Err (writeDebugSessionStoreError e) end.

(** The query parameter [limit]; absent or blank means 0. *)
Definition parse_limit (raw : string) : option Z :=
  let raw := TrimSpace raw in
  if raw =? "" then Some 0%Z
  else match Atoi raw with
       | Some n => if (n <? 0)%Z then None else Some n
       | None => None
       end.

Definition listDebugSessions (w : World) (projectID status limit : string) (f : file state)
    : reply (list Session) :=
  match parse_limit limit with
  | None => Err (StatusBadRequest, "invalid limit")
  | Some limit =>
      match List w (mkFilter (TrimSpace projectID) (TrimSpace status) limit) f with
      | Ok l => Ok l
      | Err e => Err (StatusInternalServerError, session_error_text e)
      end
  end.

Record debugSessionDetailResponse : Type := mkDetail {
  dr_Session : Session;
  dr_Events : list Event;
  dr_Count : Z;
  dr_Truncated : bool;
}.

Definition getDebugSession (w : World) (id limit : string) (f : file state)
    : reply debugSessionDetailResponse :=
  match parse_limit limit with
  | None => Err (StatusBadRequest, "invalid limit")
  | Some limit =>
      match Get w id 0 f with
      | Err e => Err (writeDebugSessionStoreError e)
      | Ok (session, events) =>
          let count := Z.of_nat (length events) in
          if (0 <? limit)%Z && (limit <? count)%Z
          then Ok (mkDetail session (take (Z.to_nat limit) events) count true)
          else Ok (mkDetail session events count false)
      end
  end.

Definition appendDebugSessionEvent (w : World) (id : string) (body : option AppendEventRequest)
    (f : file state) : file state * reply Event :=
  match body with
  | None => (f, Err (StatusBadRequest, "invalid request body"))
  | Some req => let '(f', r) := AppendEvent w id req f in (f', store_reply r)
  end.

(** An empty body is the zero request ([decodeOptionalJSON]). *)
Definition closeDebugSession (w : World) (id : string) (summary : option string)
    (f : file state) : file state * reply Session :=
  match summary with
  | None => (f, Err (StatusBadRequest, "invalid request body"))
  | Some summary =>
      let '(f', r) := Close w id summary f in
      (f', store_reply (let? p := r in Ok p.1)%go)
  end.

(** *** Resolution of what a session is about *)

Definition findProject (projects : list Project) (id : string) : option Project :=
  List.find (fun p => prj_ID p =? id) projects.

Definition resolveDebugSessionProjectLocked (projects : list Project)
    (projectID projectName : string) : reply Project :=
  if negb (projectID =? "") then
    match findProject projects projectID with
    | None => Err (StatusNotFound, "project not found")
    | Some project =>
        if negb (projectName =? "") && negb (projectName =? prj_Name project)
        then Err (StatusBadRequest, "project_name does not match project_id")
        else Ok project
    end
  else if projectName =? ""
  then Err (StatusBadRequest, "project_id or project_name is required")
  else
    match List.filter (fun p => prj_Name p =? projectName) projects with
    | [] => Err (StatusNotFound, "project not found")
    | [project] => Ok project
    | _ => Err (StatusBadRequest, "project_name is ambiguous; use project_id")
    end.

Fixpoint find_in_services (services : list Service) (deploymentID : string)
    : option (Service * Deployment) :=
  match services with
  | [] => None
  | svc :: rest =>
      match List.find (fun d => dep_ID d =? deploymentID) (svc_Deployments svc) with
      | Some dep => Some (svc, dep)
      | None => find_in_services rest deploymentID
      end
  end.

Definition findDeploymentInProject (project : Project) (deploymentID : string)
    : option (Service * Deployment) :=
  find_in_services (prj_Services project) deploymentID.

Definition findServiceInProject (project : Project) (serviceID serviceName : string)
    : option Service :=
  List.find (fun svc =>
    negb (negb (serviceID =? "") && negb (svc_ID svc =? serviceID))
    && negb (negb (serviceName =? "") && negb (svc_Name svc =? serviceName)))
    (prj_Services project).

Definition findDeploymentByEnv (svc : Service) (envName : string) : option Deployment :=
  List.find (fun d => dep_EnvName d =? envName) (svc_Deployments svc).

(** The fields that the resolution assigns. *)
Definition set_scope (project : Project) (service name env dep : string) (req : CreateRequest)
    : CreateRequest :=
  {| cr_ProjectID := prj_ID project; cr_ProjectName := prj_Name project; cr_EnvName := env;
     cr_ServiceID := service; cr_ServiceName := name; cr_DeploymentID := dep;
     cr_Title := cr_Title req; cr_Question := cr_Question req |}.

(** [want != "" && want != have] *)
Definition mismatch (want have : string) : bool := negb (want =? "") && negb (want =? have).

Definition resolveDebugSessionCreateRequest (projects : list Project) (req : CreateRequest)
    : reply CreateRequest :=
  let req := normalizeCreateRequest req in
  if (cr_Title req =? "") || (cr_Question req =? "")
  then Err (StatusBadRequest, "title and question are required")
  else
    match resolveDebugSessionProjectLocked projects (cr_ProjectID req) (cr_ProjectName req) with
    | Err e => Err e
    | Ok project =>
        if negb (cr_DeploymentID req =? "") then
          match findDeploymentInProject project (cr_DeploymentID req) with
          | None => Err (StatusBadRequest, "deployment does not belong to project")
          | Some (svc, dep) =>
              if mismatch (cr_ServiceID req) (svc_ID svc)
              then Err (StatusBadRequest, "service_id does not match deployment")
              else if mismatch (cr_ServiceName req) (svc_Name svc)
              then Err (StatusBadRequest, "service_name does not match deployment")
              else if mismatch (cr_EnvName req) (dep_EnvName dep)
              then Err (StatusBadRequest, "env_name does not match deployment")
              else Ok (set_scope project (svc_ID svc) (svc_Name svc) (dep_EnvName dep)
                                 (cr_DeploymentID req) req)
          end
        else if negb (cr_ServiceID req =? "") || negb (cr_ServiceName req =? "") then
          match findServiceInProject project (cr_ServiceID req) (cr_ServiceName req) with
          | None => Err (StatusBadRequest, "service does not belong to project")
          | Some svc =>
              if negb (cr_EnvName req =? "") then
                match findDeploymentByEnv svc (cr_EnvName req) with
                | None => Err (StatusBadRequest, "env_name does not match service deployment")
                | Some dep => Ok (set_scope project (svc_ID svc) (svc_Name svc) (cr_EnvName req)
                                            (dep_ID dep) req)
                end
              else Ok (set_scope project (svc_ID svc) (svc_Name svc) "" "" req)
          end
        else Ok (set_scope project "" "" (cr_EnvName req) "" req)
    end.

Definition createDebugSession (w : World) (event_id : string) (projects : list Project)
    (body : option CreateRequest) (f : file state) : file state * reply (Session * Event) :=
  match body with
  | None => (f, Err (StatusBadRequest, "invalid request body"))
  | Some req =>
      match resolveDebugSessionCreateRequest projects req with
      | Err e => (f, Err e)
      | Ok resolved => let '(f', r) := Create w event_id resolved f in (f', store_reply r)
      end
  end.

(** ** Runs of the store

    A run is a list of calls, each with the world it meets; readers do not change
    the file.  Identifiers are assumed not to repeat ([fresh]). *)

Inductive op : Type :=
| OCreate (event_id : string) (req : CreateRequest)
| OAppend (id : string) (req : AppendEventRequest)
| OClose (id summary : string).

Definition exec (w : World) (o : op) (f : file state) : file state :=
  match o with
  | OCreate event_id req => (Create w event_id req f).1
  | OAppend id req => (AppendEvent w id req f).1
  | OClose id summary => (Close w id summary f).1
  end.

Definition run (calls : list (World * op)) (f : file state) : file state :=
  fold_left (fun f c => exec c.1 c.2 f) calls f.

Definition sessions_in (f : file state) : list Session :=
  match contents state_zero f with Some st => st_Sessions st | None => [] end.

Definition events_in (f : file state) : list Event :=
  match contents state_zero f with Some st => st_Events st | None => [] end.

Definition fresh_call (c : World * op) (f : file state) : Prop :=
  match c.2 with
  | OCreate _ _ => newID "ds" (w_id c.1) ∉ ses_ID <$> sessions_in f
  | _ => True
  end.

Fixpoint fresh (calls : list (World * op)) (f : file state) : Prop :=
  match calls with
  | [] => True
  | c :: rest => fresh_call c f /\ fresh rest (exec c.1 c.2 f)
  end.

(** ** The life of a session *)

Definition small (data : option (list (string * any))) : Prop :=
  match data with
  | None => True
  | Some m => m <> [] /\ (Z.of_nat (String.length (Marshal (AMap m))) <= maxEventDataBytes)%Z
  end.

(** What a client may add. *)
Record is_note (e : Event) : Prop := {
  note_type : ev_Type e ∈ [EventNote; EventToolCall; EventObservation; EventLogAnalysis];
  note_actor : ev_Actor e ∈ [ActorUser; ActorAssistant; ActorSystem];
  note_summary : ev_Summary e <> "";
  note_small : small (ev_Data e);
}.

(** A change of status, which only the store adds. *)
Record is_change (status : string) (now : time) (e : Event) : Prop := {
  change_type : ev_Type e = EventStatusChange;
  change_actor : ev_Actor e = ActorSystem;
  change_summary : ev_Summary e <> "";
  change_data : ev_Data e = Some [("status", AStr status)];
  change_time : ev_CreatedAt e = now;
}.

Inductive life (s : Session) : list Event -> Prop :=
| life_open e0 notes :
    ses_Status s = StatusOpen -> ses_ClosedAt s = None ->
    is_change StatusOpen (ses_CreatedAt s) e0 -> Forall is_note notes ->
    ses_UpdatedAt s = ev_CreatedAt (List.last notes e0) ->
    life s (e0 :: notes)
| life_closed e0 notes ec :
    ses_Status s = StatusClosed -> ses_ClosedAt s = Some (ses_UpdatedAt s) ->
    is_change StatusOpen (ses_CreatedAt s) e0 -> Forall is_note notes ->
    is_change StatusClosed (ses_UpdatedAt s) ec ->
    life s (e0 :: notes ++ [ec]).

Record wf (st : state) : Prop := {
  wf_ids : NoDup (ses_ID <$> st_Sessions st);
  wf_events : Forall (fun e => ev_SessionID e ∈ ses_ID <$> st_Sessions st) (st_Events st);
  wf_stored : Forall (fun e => omit_empty e = e) (st_Events st);
  wf_life : Forall (fun s => life s (events_of (ses_ID s) (st_Events st))) (st_Sessions st);
}.

(** What the three writers do to the sessions and the events. *)
Inductive step (st : state) : state -> Prop :=
| step_open s e :
    ses_ID s ∉ ses_ID <$> st_Sessions st -> ev_SessionID e = ses_ID s -> life s [e] ->
    step st (mkState (st_Sessions st ++ [s])%list (st_Events st ++ [e])%list)
| step_note idx s e :
    st_Sessions st !! idx = Some s -> ses_Status s <> StatusClosed ->
    ev_SessionID e = ses_ID s -> is_note e ->
    step st (mkState (<[idx := touch (ev_CreatedAt e) s]> (st_Sessions st))
                     (st_Events st ++ [e])%list)
| step_close idx s e now :
    st_Sessions st !! idx = Some s -> ses_Status s <> StatusClosed ->
    ev_SessionID e = ses_ID s -> is_change StatusClosed now e ->
    step st (mkState (<[idx := close_session now s]> (st_Sessions st))
                     (st_Events st ++ [e])%list).

(** ** Lemmas *)

Lemma events_of_app id l e :
  events_of id (l ++ [e])%list
  = (events_of id l ++ if ev_SessionID e =? id then [e] else [])%list.
Proof. unfold events_of. rewrite List.filter_app. simpl. by destruct (_ =? _). Qed.

Lemma events_of_other id l e :
  ev_SessionID e <> id -> events_of id (l ++ [e])%list = events_of id l.
Proof.
  intros H. rewrite events_of_app. destruct (String.eqb_spec (ev_SessionID e) id); [done|].
  apply app_nil_r.
Qed.

Lemma events_of_self id l e :
  ev_SessionID e = id -> events_of id (l ++ [e])%list = (events_of id l ++ [e])%list.
Proof. intros <-. by rewrite events_of_app, String.eqb_refl. Qed.

Lemma events_of_unknown id st :
  wf st -> id ∉ ses_ID <$> st_Sessions st -> events_of id (st_Events st) = [].
Proof.
  intros Hwf Hid. destruct Hwf as [_ He _ _]. unfold events_of.
  induction He as [|e l He _ IH]; simpl; [done|].
  destruct (String.eqb_spec (ev_SessionID e) id) as [<-|]; [done|auto].
Qed.

Lemma note_stored e : is_note e -> omit_empty e = e.
Proof.
  destruct e as [????? [[|]|] ?]; intros [_ _ _ H]; simpl in H; [by destruct H|done..].
Qed.

Lemma change_stored status now e : is_change status now e -> omit_empty e = e.
Proof. destruct e. intros [_ _ _ H _]. simpl in H. by subst. Qed.

#[export] Hint Resolve note_stored change_stored : go.

Lemma life_stored s e : life s [e] -> omit_empty e = e.
Proof.
  inversion 1 as [? ? ? ? Hc|? notes ? ? ? Hc]; subst; [eauto with go|].
  by destruct notes.
Qed.

(** The events a save leaves, when all but the added one are in stored form. *)
Lemma stored_app l e :
  Forall (fun e => omit_empty e = e) l ->
  omit_empty <$> (l ++ [e])%list = (l ++ [omit_empty e])%list.
Proof.
  intros H. rewrite fmap_app. simpl. f_equal.
  induction H as [|x l Hx _ IH]; csimpl; [done|]. by rewrite Hx, IH.
Qed.

(** Replacing a session by one with the same identifier, and adding one of its events. *)
Lemma wf_update st idx s s' e :
  wf st -> st_Sessions st !! idx = Some s -> ses_ID s' = ses_ID s ->
  ev_SessionID e = ses_ID s -> omit_empty e = e ->
  (forall h, life s h -> life s' (h ++ [e])%list) ->
  wf (mkState (<[idx := s']> (st_Sessions st)) (st_Events st ++ [e])%list).
Proof.
  intros [Hids Hev Hst Hlife] Hs Hid Hse Hstored Hgrow.
  assert (ses_ID <$> <[idx := s']> (st_Sessions st) = ses_ID <$> st_Sessions st) as Heq.
  { rewrite list_fmap_insert, Hid. apply list_insert_id. by rewrite list_lookup_fmap, Hs. }
  split; simpl; rewrite ?Heq; [done|..].
  - apply Forall_app_2, Forall_singleton; [done|]. rewrite Hse.
    by apply list_elem_of_fmap_2, list_elem_of_lookup_2 with idx.
  - by apply Forall_app_2, Forall_singleton.
  - apply Forall_lookup. intros j x Hx. rewrite Forall_lookup in Hlife.
    destruct (decide (j = idx)) as [->|Hne].
    + rewrite list_lookup_insert_eq in Hx by (by eapply lookup_lt_Some). simplify_eq.
      rewrite Hid, events_of_self by done. eauto.
    + rewrite list_lookup_insert_ne in Hx by done.
      rewrite events_of_other; [by eapply Hlife|]. intros Heq'. apply Hne.
      eapply NoDup_lookup; [exact Hids|..]; rewrite list_lookup_fmap;
        [by rewrite Hx|rewrite Hs; simpl; congruence].
Qed.

Lemma last_app_one {A} (l : list A) x d : List.last (l ++ [x])%list d = x.
Proof. induction l as [|y [|z l] IH]; simpl in *; auto. Qed.

Lemma step_wf st st' : wf st -> step st st' -> wf st'.
Proof.
  intros Hwf [s e Hid He Hl|idx s e Hs Hopen He Hn|idx s e now Hs Hopen He Hc].
  - destruct Hwf as [Hids Hev Hst Hlife] eqn:E; clear E. split; simpl.
    + rewrite fmap_app. apply NoDup_app. repeat split; [done| |apply NoDup_singleton].
      intros x Hx ->%list_elem_of_singleton. done.
    + rewrite fmap_app. apply Forall_app_2, Forall_singleton.
      * eapply Forall_impl; [exact Hev|]. intros x ?. rewrite elem_of_app. auto.
      * rewrite elem_of_app. right. simpl. rewrite He. by apply list_elem_of_singleton.
    + apply Forall_app_2, Forall_singleton; [done|by eapply life_stored].
    + apply Forall_app_2, Forall_singleton.
      * apply Forall_forall. intros x Hx. rewrite events_of_other.
        { by eapply Forall_forall in Hlife. }
        rewrite He. intros Heq. apply Hid. rewrite Heq. by apply list_elem_of_fmap_2.
      * rewrite events_of_self, (events_of_unknown (ses_ID s) st) by done. done.
  - eapply wf_update; [done|done|done|done|eauto with go|].
    intros h [e0 notes ? ? Hc Hnotes Hu|]; [|done]. apply (life_open _ e0 (notes ++ [e])); simpl;
      [done..| |by rewrite last_app_one].
    by apply Forall_app_2, Forall_singleton.
  - eapply wf_update; [done|done|done|done|eauto with go|].
    intros h [e0 notes ? ? Hc' Hnotes Hu|]; [|done].
    by apply (life_closed (close_session now s) e0 notes e).
Qed.

Lemma contents_in f st :
  contents state_zero f = Some st -> sessions_in f = st_Sessions st /\ events_in f = st_Events st.
Proof. unfold sessions_in, events_in. by intros ->. Qed.

Lemma load_Ok w f st : load w f = Ok st -> contents state_zero f = Some st.
Proof. unfold load. intros. go_crush. Qed.

Lemma session_save_cases w f st :
  save w f st = (Content (mkState (st_Sessions st) (omit_empty <$> st_Events st)), true) \/
  save w f st = (f, false).
Proof. unfold save, write_rename. destruct (w_save w); auto. Qed.

Lemma findSessionIndex_Some l id i s :
  findSessionIndex l id = Some (i, s) -> l !! i = Some s /\ ses_ID s = id.
Proof. intros (? & ? & _)%list_find_Some. done. Qed.

Lemma accepted_note id session req now :
  validateAppendEvent req = None -> ensureEventDataSize (ar_Data req) = None ->
  is_note (omit_empty {| ev_ID := id; ev_SessionID := session; ev_Type := ar_Type req;
    ev_Actor := ar_Actor req; ev_Summary := ar_Summary req; ev_Data := ar_Data req;
    ev_CreatedAt := now |}).
Proof.
  unfold validateAppendEvent, ensureEventDataSize. intros Hv Hs.
  destruct (String.eqb_spec (ar_Summary req) ""); [done|].
  destruct (bool_decide_reflect (ar_Type req ∈
    [EventNote; EventToolCall; EventObservation; EventLogAnalysis])); simpl in Hv; [|done].
  destruct (bool_decide_reflect (ar_Actor req ∈ [ActorUser; ActorAssistant; ActorSystem]));
    simpl in Hv; [|done].
  split; [done..|]. simpl. destruct (ar_Data req) as [[|kv m]|]; [done| |done].
  cbv beta iota in Hs. unfold small. split; [done|].
  destruct (_ <? _)%Z eqn:E; [done|]. by apply Z.ltb_ge in E.
Qed.

(** The two outcomes of a [save]; the first makes a step. *)
Ltac saved :=
  match goal with |- context [save ?w ?f ?st] =>
    destruct (session_save_cases w f st) as [-> | ->]; [|by left];
    right; do 2 eexists; split; [eassumption|]; split; [|reflexivity];
    cbn [st_Sessions st_Events]
  end.

(** Every call leaves the file alone or makes one step. *)
Lemma exec_step w o f :
  fresh_call (w, o) f ->
  (forall st, contents state_zero f = Some st -> wf st) ->
  exec w o f = f \/
  exists st st', contents state_zero f = Some st /\ step st st' /\ exec w o f = Content st'.
Proof.
  intros Hfresh Hwf.
  destruct o as [event_id req|id req|id summary]; simpl;
    unfold Create, AppendEvent, Close; cbv zeta.
  - case_match; [by left|].
    destruct (load w f) as [st|] eqn:Hl; [|by left]. apply load_Ok in Hl.
    saved.
    rewrite stored_app by (by apply Hwf). apply step_open; [|done|].
    + destruct (contents_in _ _ Hl) as [Heq _]. by rewrite <-Heq.
    + apply (life_open _ _ []); done.
  - destruct (validateAppendEvent _) eqn:Hv; [by left|].
    destruct (ensureEventDataSize _) eqn:Hz; [by left|].
    destruct (load w f) as [st|] eqn:Hl; [|by left]. apply load_Ok in Hl.
    destruct (findSessionIndex _ _) as [[idx s]|] eqn:Hi; [|by left].
    apply findSessionIndex_Some in Hi as [Hi _].
    destruct (String.eqb_spec (ses_Status s) StatusClosed) as [|Hopen]; [by left|].
    saved.
    rewrite stored_app by (by apply Hwf).
    apply (step_note st idx s (omit_empty (mkEvent _ _ _ _ _ _ (w_now w)))); [done..|].
    by apply accepted_note.
  - destruct (load w f) as [st|] eqn:Hl; [|by left]. apply load_Ok in Hl.
    destruct (findSessionIndex _ _) as [[idx s]|] eqn:Hi; [|by left].
    apply findSessionIndex_Some in Hi as [Hi _].
    destruct (String.eqb_spec (ses_Status s) StatusClosed) as [|Hopen]; [by left|].
    saved.
    rewrite stored_app by (by apply Hwf).
    apply (step_close st idx s (omit_empty _) (w_now w)); [done..|].
    split; try done. simpl. case_match; [done|]. by apply String.eqb_neq.
Qed.

Lemma wf_zero : wf state_zero.
Proof. split; simpl; by constructor. Qed.

(** What holds of the contents of a file if it has any. *)
Definition wf_file (f : file state) : Prop :=
  forall st, contents state_zero f = Some st -> wf st.

Lemma run_wf calls f : wf_file f -> fresh calls f -> wf_file (run calls f).
Proof.
  revert f. induction calls as [|[w o] calls IH]; intros f Hwf; [done|]. intros [Hc Hrest].
  apply IH; [|done]. simpl in *. destruct (exec_step w o f Hc Hwf) as [->|(st & st' & Hf & Hst & ->)];
    [done|]. intros ? [= <-]. eapply step_wf; [|done]. by apply Hwf.
Qed.

(** ** Theorems *)

(** The store keeps a debug session the way an investigation is meant to be kept, whatever
    calls come, whatever the clock says and whichever writes fail: identifiers are unique, every
    event belongs to a session, and the history of a session is its opening by the store, then
    notes of clients of the permitted types and actors and at most 32 KiB each, then, exactly
    if the session is closed, its closing by the store at the recorded time. *)
Theorem debug_session_lifecycle calls f st :
  f = Missing \/ f = Empty -> fresh calls f ->
  contents state_zero (run calls f) = Some st ->
  NoDup (ses_ID <$> st_Sessions st) /\
  Forall (fun e => ev_SessionID e ∈ ses_ID <$> st_Sessions st) (st_Events st) /\
  Forall (fun s => life s (events_of (ses_ID s) (st_Events st))) (st_Sessions st).
Proof.
  intros Hf Hfresh Hc.
  assert (wf_file f) as Hwf by (intros ?; destruct Hf as [->| ->]; intros [= <-]; apply wf_zero).
  by destruct (run_wf calls f Hwf Hfresh st Hc).
Qed.

(** *** Growth of a history *)

Lemma step_grows st st' s :
  wf st -> step st st' -> s ∈ st_Sessions st ->
  exists s', s' ∈ st_Sessions st' /\ ses_ID s' = ses_ID s /\
    events_of (ses_ID s) (st_Events st) `prefix_of` events_of (ses_ID s) (st_Events st') /\
    (ses_Status s = StatusClosed ->
     s' = s /\ events_of (ses_ID s) (st_Events st') = events_of (ses_ID s) (st_Events st)).
Proof.
  intros Hwf Hstep Hin.
  assert (forall l e, events_of (ses_ID s) l `prefix_of` events_of (ses_ID s) (l ++ [e])%list)
    as Hpre by (intros; rewrite events_of_app; by eexists).
  assert (forall idx x y, st_Sessions st !! idx = Some x -> ses_Status x <> StatusClosed ->
    ses_ID y = ses_ID x -> exists s', s' ∈ <[idx := y]> (st_Sessions st) /\ ses_ID s' = ses_ID s /\
      (ses_Status s = StatusClosed -> s' = s /\ ses_ID x <> ses_ID s)) as Hupd.
  { intros idx x y Hx Hopen Hy. apply list_elem_of_lookup in Hin as [j Hj].
    destruct (decide (j = idx)) as [->|Hne].
    - simplify_eq. exists y. split; [|split; [done|intros; congruence]].
      apply list_elem_of_insert. by eapply lookup_lt_Some.
    - exists s. split; [|split; [done|intros _; split; [done|]]].
      + apply list_elem_of_lookup. exists j. by rewrite list_lookup_insert_ne.
      + intros Heq. apply Hne. eapply NoDup_lookup; [apply (wf_ids _ Hwf)|..];
          rewrite list_lookup_fmap; [by rewrite Hj|by rewrite Hx; simpl; rewrite Heq]. }
  destruct Hstep as [x e Hid He _|idx x e Hx Hopen He _|idx x e now Hx Hopen He _]; simpl.
  - exists s. rewrite elem_of_app. split; [auto|]. repeat split; [done..|].
    rewrite events_of_other; [done|]. rewrite He. intros Heq. apply Hid. rewrite Heq.
    by apply list_elem_of_fmap_2.
  - destruct (Hupd idx x (touch (ev_CreatedAt e) x)) as (s' & ? & ? & Hc); [done..|].
    exists s'. split_and!; [done..|]. intros Hcl. destruct (Hc Hcl) as [-> ?].
    rewrite events_of_other by congruence. done.
  - destruct (Hupd idx x (close_session now x)) as (s' & ? & ? & Hc); [done..|].
    exists s'. split_and!; [done..|]. intros Hcl. destruct (Hc Hcl) as [-> ?].
    rewrite events_of_other by congruence. done.
Qed.

Lemma run_grows calls f st s :
  wf_file f -> fresh calls f -> contents state_zero f = Some st -> s ∈ st_Sessions st ->
  exists st' s', contents state_zero (run calls f) = Some st' /\
    s' ∈ st_Sessions st' /\ ses_ID s' = ses_ID s /\
    events_of (ses_ID s) (st_Events st) `prefix_of` events_of (ses_ID s) (st_Events st') /\
    (ses_Status s = StatusClosed ->
     s' = s /\ events_of (ses_ID s) (st_Events st') = events_of (ses_ID s) (st_Events st)).
Proof.
  revert f st s. induction calls as [|[w o] calls IH]; intros f st s Hwf Hfresh Hf Hs.
  { exists st, s. by repeat split. }
  destruct Hfresh as [Hc Hrest]. simpl in *.
  destruct (exec_step w o f Hc Hwf) as [Heq|(st0 & st1 & Hf0 & Hstep & Heq)];
    rewrite Heq in *; [by eapply IH|]. simplify_eq.
  destruct (step_grows st st1 s (Hwf _ Hf) Hstep Hs) as (s1 & Hs1 & Hid & Hp & Hcl).
  assert (wf_file (Content st1)) as Hwf1.
  { intros ? [= <-]. eapply step_wf; [|done]. by apply Hwf. }
  destruct (IH (Content st1) st1 s1 Hwf1 Hrest eq_refl Hs1) as (st' & s' & ? & ? & ? & Hp' & Hcl').
  rewrite Hid in *. exists st', s'. split_and!; [done..|by etransitivity|].
  intros Hclosed. destruct (Hcl Hclosed) as [-> ?]. destruct (Hcl' Hclosed) as [-> ?].
  split; [done|congruence].
Qed.

(** A session is found by its identifier, spaces around it aside. *)
Lemma find_by_id l s id :
  NoDup (ses_ID <$> l) -> s ∈ l -> TrimSpace id = ses_ID s ->
  exists idx, findSessionIndex l (TrimSpace id) = Some (idx, s).
Proof.
  intros Hnd Hin Hid. unfold findSessionIndex. rewrite Hid.
  destruct (list_find_elem_of (fun x => ses_ID x = ses_ID s) l s Hin eq_refl) as [[j x] Hf].
  apply list_find_Some in Hf as Hf'. destruct Hf' as (Hx & Heq & _).
  apply list_elem_of_lookup in Hin as [k Hk].
  assert (j = k) as ->.
  { eapply NoDup_lookup; [exact Hnd|..]; rewrite list_lookup_fmap;
      [by rewrite Hx; simpl; rewrite Heq|by rewrite Hk]. }
  simplify_eq. by exists k.
Qed.

(** The record of an investigation cannot be rewritten: whatever calls follow, no session
    disappears and the history of each only grows; a closed session stays exactly as it was
    closed, with the same history, a further event is refused with [ErrSessionClosed] (or for
    a reason of its own), and closing it again changes nothing and returns it. *)
Theorem debug_session_append_only before calls st s :
  let f := run before Missing in
  fresh before Missing -> fresh calls f ->
  contents state_zero f = Some st -> s ∈ st_Sessions st ->
  exists st' s', contents state_zero (run calls f) = Some st' /\
    s' ∈ st_Sessions st' /\ ses_ID s' = ses_ID s /\
    events_of (ses_ID s) (st_Events st) `prefix_of` events_of (ses_ID s) (st_Events st') /\
    (ses_Status s = StatusClosed ->
     s' = s /\ events_of (ses_ID s) (st_Events st') = events_of (ses_ID s) (st_Events st) /\
     forall w id, TrimSpace id = ses_ID s -> w_read_ok w = true ->
       (forall req, validateAppendEvent (normalizeAppendEventRequest req) = None ->
          ensureEventDataSize (ar_Data req) = None ->
          AppendEvent w id req (run calls f) = (run calls f, Err ErrSessionClosed)) /\
       (forall summary, Close w id summary (run calls f) = (run calls f, Ok (s, None)))).
Proof.
  intros f Hfb Hfc Hf Hs.
  assert (wf_file f) as Hwf by (by apply run_wf; [intros ? [= <-]; apply wf_zero|]).
  destruct (run_grows calls f st s Hwf Hfc Hf Hs) as (st' & s' & Hst' & Hs' & Hid & Hp & Hcl).
  exists st', s'. split_and!; [done..|]. intros Hclosed. destruct (Hcl Hclosed) as [-> Hev].
  split; [done|]. split; [done|]. intros w id Htrim Hread.
  assert (load w (run calls f) = Ok st') as Hl by (unfold load; by rewrite Hread, Hst').
  destruct (find_by_id (st_Sessions st') s id) as [idx Hi]; [|done..|].
  { by apply (run_wf calls f Hwf Hfc). }
  split.
  - intros req Hv Hz. unfold AppendEvent. cbv zeta. rewrite Hv.
    replace (ar_Data (normalizeAppendEventRequest req)) with (ar_Data req) by done.
    by rewrite Hz, Hl, Hi, Hclosed.
  - intros summary. unfold Close. by rewrite Hl, Hi, Hclosed.
Qed.

(** *** What a reader sees *)

Lemma sinsert_snoc {A} (less : A -> A -> bool) x y l :
  less x y = false -> sinsert less y (l ++ [x])%list = (sinsert less y l ++ [x])%list.
Proof.
  intros H. induction l as [|z l IH]; simpl; [by rewrite H|]. destruct (less z y); [|done].
  simpl. by rewrite IH.
Qed.

Lemma SliceStable_snoc {A} (less : A -> A -> bool) x l :
  Forall (fun y => less x y = false) l ->
  SliceStable less (l ++ [x])%list = (SliceStable less l ++ [x])%list.
Proof.
  unfold SliceStable. induction 1 as [|y l Hy _ IH]; simpl; [done|]. rewrite IH.
  by apply sinsert_snoc.
Qed.

Lemma findSession_index l id :
  findSession l id = snd <$> findSessionIndex l id.
Proof.
  unfold findSession, findSessionIndex. induction l as [|s l IH]; csimpl; [done|].
  destruct (String.eqb_spec (ses_ID s) id); case_decide; try done.
  rewrite IH. by destruct (list_find _ l) as [[]|].
Qed.

Lemma findSession_insert l id idx s s' :
  findSessionIndex l id = Some (idx, s) -> ses_ID s' = ses_ID s ->
  findSession (<[idx := s']> l) id = Some s'.
Proof.
  intros (Hs & Hid & Hfirst)%list_find_Some Heq. rewrite findSession_index.
  replace (findSessionIndex (<[idx := s']> l) id) with (Some (idx, s')); [done|].
  symmetry. apply list_find_Some. split_and!.
  - apply list_lookup_insert_eq. by eapply lookup_lt_Some.
  - congruence.
  - intros j y Hj Hlt. rewrite list_lookup_insert_ne in Hj by lia. by eapply Hfirst.
Qed.

(** What is appended is what a reader gets: a successful [AppendEvent] adds exactly one
    event, with the trimmed fields of the request, and [Get] then returns the session with the
    new time and its events with the new one at the end, provided that no event of the session
    carries a later time; other sessions read as before. *)
Theorem AppendEvent_then_Get w w' id req f f' e session events :
  AppendEvent w id req f = (f', Ok e) ->
  Get w' id 0 f = Ok (session, events) ->
  wf_file f -> Forall (fun x => ev_CreatedAt x <= w_now w)%Z events ->
  ev_Type e = TrimSpace (ar_Type req) /\ ev_Actor e = TrimSpace (ar_Actor req) /\
  ev_Summary e = TrimSpace (ar_Summary req) /\ ev_Data e = ar_Data req /\
  ev_SessionID e = ses_ID session /\ ev_CreatedAt e = w_now w /\
  Get w' id 0 f' = Ok (touch (w_now w) session, (events ++ [omit_empty e])%list) /\
  (forall other limit, TrimSpace other <> TrimSpace id -> Get w' other limit f' = Get w' other limit f).
Proof.
  intros Ha Hg Hwf Htime. unfold AppendEvent in Ha. cbv zeta in Ha.
  destruct (validateAppendEvent _) eqn:Hv; [done|].
  destruct (ensureEventDataSize _) eqn:Hz; [done|].
  destruct (load w f) as [st|] eqn:Hl; [|done]. apply load_Ok in Hl.
  destruct (findSessionIndex _ _) as [[idx s]|] eqn:Hi; [|done].
  destruct (_ =? StatusClosed) eqn:Hopen; [done|].
  match type of Ha with context [save ?w ?f ?st] =>
    destruct (session_save_cases w f st) as [Hs|Hs]; rewrite Hs in Ha; [|done] end.
  simplify_eq. cbn [st_Sessions st_Events].
  assert (st_Sessions st !! idx = Some s /\ ses_ID s = TrimSpace id) as [Hlook Hid]
    by by apply findSessionIndex_Some.
  rewrite stored_app by (by apply Hwf).
  unfold Get, load in Hg |- *. destruct (w_read_ok w'); [|done]. rewrite Hl in Hg.
  rewrite findSession_index, Hi in Hg. simpl in Hg. simplify_eq.
  split_and!; [done..| |].
  - simpl. rewrite (findSession_insert _ _ idx session) by done. simpl.
    rewrite events_of_self by done. unfold cut. simpl. rewrite SliceStable_snoc; [done|].
    apply Forall_forall. intros x Hx. apply Z.ltb_ge. simpl. unfold cut in Htime. simpl in Htime.
    eapply (Forall_forall _ _) in Htime; [exact Htime|]. by apply SliceStable_elem.
  - intros other limit Hne. simpl. rewrite Hl.
    replace (findSession (<[idx := touch (w_now w) session]> (st_Sessions st)) (TrimSpace other))
      with (findSession (st_Sessions st) (TrimSpace other)).
    + destruct (findSession (st_Sessions st) (TrimSpace other)) as [x|] eqn:Hx; [|done].
      apply List.find_some in Hx as [_ Hx]. apply String.eqb_eq in Hx.
      rewrite events_of_other; [done|]. simpl. congruence.
    + clear -Hlook Hid Hne. unfold findSession. revert idx Hlook.
      induction (st_Sessions st) as [|y l IH]; intros [|idx] Hlook; simplify_eq/=;
        [|by rewrite (IH idx)].
      by destruct (String.eqb_spec (ses_ID session) (TrimSpace other)); [congruence|].
Qed.

(** *** The scope of a session *)

Lemma find_In {A} (p : A -> bool) l x : List.find p l = Some x -> x ∈ l /\ p x = true.
Proof. intros [? ?]%List.find_some. split; [by apply list_elem_of_In|done]. Qed.

Lemma resolve_project projects id name p :
  resolveDebugSessionProjectLocked projects id name = Ok p ->
  p ∈ projects /\ (id = "" \/ prj_ID p = id) /\ (name = "" \/ prj_Name p = name).
Proof.
  unfold resolveDebugSessionProjectLocked. destruct (String.eqb_spec id "") as [->|]; simpl.
  - destruct (String.eqb_spec name "") as [->|]; [done|].
    destruct (List.filter _ _) as [|q [|]] eqn:E; intros; simplify_eq.
    assert (In p (List.filter (fun p => prj_Name p =? name) projects)) as Hin
      by (rewrite E; by left).
    apply List.filter_In in Hin as [? Heq%String.eqb_eq].
    split; [by apply list_elem_of_In|auto].
  - unfold findProject. destruct (List.find _ _) as [q|] eqn:E; [|done].
    apply find_In in E as [? Heq%String.eqb_eq].
    destruct (String.eqb_spec name "") as [->|]; simpl; [intros; simplify_eq; auto|].
    destruct (String.eqb_spec name (prj_Name q)); simpl; [|done]. intros. simplify_eq. auto.
Qed.

Lemma find_in_services_Some l id svc dep :
  find_in_services l id = Some (svc, dep) -> svc ∈ l /\ dep ∈ svc_Deployments svc /\ dep_ID dep = id.
Proof.
  induction l as [|s l IH]; simpl; [done|].
  destruct (List.find _ _) as [d|] eqn:E.
  - apply find_In in E as [? ?%String.eqb_eq]. intros. simplify_eq. split_and!; [by left|done..].
  - intros H. destruct (IH H) as (? & ? & ?). split_and!; [by right|done..].
Qed.

Lemma mismatch_false want have : mismatch want have = false -> want = "" \/ have = want.
Proof.
  unfold mismatch. destruct (String.eqb_spec want ""), (String.eqb_spec want have); simpl; auto; done.
Qed.

Lemma find_service project id name svc :
  findServiceInProject project id name = Some svc ->
  svc ∈ prj_Services project /\ (id = "" \/ svc_ID svc = id) /\ (name = "" \/ svc_Name svc = name).
Proof.
  intros [? [H1%negb_true_iff H2%negb_true_iff]%andb_true_iff]%find_In.
  split; [done|]. rewrite (String.eqb_sym (svc_ID svc)) in H1.
  rewrite (String.eqb_sym (svc_Name svc)) in H2. split; by apply mismatch_false.
Qed.

(** The scope of a session is never something the caller did not ask for: a request that is
    accepted is about a project of the agent, every field that was filled in is kept, and a
    deployment, or a service with an environment, is one of that project, whose service and
    environment are the ones recorded. *)
Theorem debug_session_scope projects req r :
  resolveDebugSessionCreateRequest projects req = Ok r ->
  let kept (field : CreateRequest -> string) :=
    TrimSpace (field req) = "" \/ field r = TrimSpace (field req) in
  kept cr_ProjectID /\ kept cr_ProjectName /\ kept cr_EnvName /\ kept cr_ServiceID /\
  kept cr_ServiceName /\ kept cr_DeploymentID /\
  cr_Title r = TrimSpace (cr_Title req) /\ cr_Title r <> "" /\
  cr_Question r = TrimSpace (cr_Question req) /\ cr_Question r <> "" /\
  exists project, project ∈ projects /\ cr_ProjectID r = prj_ID project /\
    cr_ProjectName r = prj_Name project /\
    ((cr_ServiceID r <> "" \/ cr_ServiceName r <> "" \/ cr_DeploymentID r <> "") ->
     exists svc, svc ∈ prj_Services project /\ cr_ServiceID r = svc_ID svc /\
       cr_ServiceName r = svc_Name svc /\
       (cr_DeploymentID r <> "" \/ cr_EnvName r <> "" ->
        exists dep, dep ∈ svc_Deployments svc /\
          cr_DeploymentID r = dep_ID dep /\ cr_EnvName r = dep_EnvName dep)).
Proof.
  unfold resolveDebugSessionCreateRequest. cbv zeta. unfold normalizeCreateRequest.
  cbn [cr_ProjectID cr_ProjectName cr_EnvName cr_ServiceID cr_ServiceName cr_DeploymentID
       cr_Title cr_Question].
  destruct (String.eqb_spec (TrimSpace (cr_Title req)) ""); simpl; [done|].
  destruct (String.eqb_spec (TrimSpace (cr_Question req)) ""); simpl; [done|].
  destruct (resolveDebugSessionProjectLocked _ _ _) as [p|] eqn:Hp; [|done].
  apply resolve_project in Hp as (Hp & Hid & Hname).
  destruct (String.eqb_spec (TrimSpace (cr_DeploymentID req)) "") as [Hdep|Hdep]; simpl.
  2: { destruct (findDeploymentInProject p _) as [[svc dep]|] eqn:Hd; [|done].
    apply find_in_services_Some in Hd as (Hsvc & Hdin & Hdid).
    destruct (mismatch _ (svc_ID svc)) eqn:M1; [done|].
    destruct (mismatch _ (svc_Name svc)) eqn:M2; [done|].
    destruct (mismatch _ (dep_EnvName dep)) eqn:M3; [done|].
    apply mismatch_false in M1, M2, M3. intros [= <-]. simpl.
    split_and!; auto. exists p. split_and!; auto. intros _. exists svc. split_and!; auto.
    intros _. by exists dep. }
  destruct (String.eqb_spec (TrimSpace (cr_ServiceID req)) "") as [Hs|Hs];
    [destruct (String.eqb_spec (TrimSpace (cr_ServiceName req)) "") as [Hn|Hn]|]; simpl.
  { intros [= <-]. simpl. split_and!; auto. exists p. split_and!; auto. naive_solver. }
  all: destruct (findServiceInProject p _ _) as [svc|] eqn:Hf; [|done].
  all: apply find_service in Hf as (Hsvc & Hsid & Hsn).
  all: destruct (String.eqb_spec (TrimSpace (cr_EnvName req)) "") as [He|He]; simpl;
    [|destruct (findDeploymentByEnv svc _) as [dep|] eqn:Hd; [|done];
      apply find_In in Hd as [Hdin Hde%String.eqb_eq]];
    intros [= <-]; simpl; (split_and!; [by auto..|]); exists p; (split_and!; [by auto..|]);
    intros _; exists svc; (split_and!; [by auto..|]); naive_solver.
Qed.

(** ** The theorems at concrete inputs *)

Definition example_world (now : time) (id : string) : World := mkWorld now id "" true SaveOk.

Definition example_create : CreateRequest :=
  mkCreate " p1" "shop" "" "s1" "" "" "checkout fails" "why does /pay return 500?".

Definition example_note : AppendEventRequest :=
  mkAppend "note" "assistant" " the pool is exhausted " (Some [("pool", AInt 10)]).

Definition opened : list (World * op) :=
  [(example_world 1 "a", OCreate "e1" example_create);
   (example_world 2 "e2", OAppend "ds_a" example_note)].

Definition closed_calls : list (World * op) := [(example_world 3 "e3", OClose "ds_a" "fixed")].

Definition example_state (f : file state) : state := mkState (sessions_in f) (events_in f).

Lemma opened_fresh : fresh opened Missing.
Proof. repeat split; try done. apply not_elem_of_nil. Qed.

Lemma debug_session_lifecycle_witness :
  let st := example_state (run (opened ++ closed_calls)%list Missing) in
  length (st_Events st) = 3 /\
  Forall (fun s => life s (events_of (ses_ID s) (st_Events st))) (st_Sessions st).
Proof.
  split; [by vm_compute|].
  apply (debug_session_lifecycle (opened ++ closed_calls)%list Missing
           (example_state (run (opened ++ closed_calls)%list Missing)));
    [by left| |by vm_compute].
  repeat split; try done. apply not_elem_of_nil.
Defined.

Definition closed_session : Session :=
  default (mkSession "" "" "" "" "" "" "" "" "" "" 0 0 None)
    (head (sessions_in (run (opened ++ closed_calls)%list Missing))).

Definition later_calls : list (World * op) :=
  [(example_world 4 "b", OCreate "e5" example_create);
   (example_world 2 "e2", OAppend "ds_a" example_note)].

Lemma debug_session_append_only_witness :
  let f := run (opened ++ closed_calls)%list Missing in
  ses_Status closed_session = StatusClosed /\
  exists st' s', contents state_zero (run later_calls f) = Some st' /\
    s' ∈ st_Sessions st' /\ ses_ID s' = ses_ID closed_session.
Proof.
  intros f. split; [by vm_compute|].
  destruct (debug_session_append_only (opened ++ closed_calls)%list later_calls
    (example_state f) closed_session) as (st' & s' & Hst & Hs & Hid & _).
  - split; [apply not_elem_of_nil|]. by repeat split.
  - split; [|by repeat split]. vm_compute. by intros H%list_elem_of_singleton.
  - by vm_compute.
  - vm_compute. by left.
  - exists st', s'. split; [exact Hst|split; [exact Hs|exact Hid]].
Defined.

Lemma AppendEvent_then_Get_witness :
  let f := run opened Missing in
  let w := example_world 5 "e9" in
  let e := mkEvent "dse_e9" "ds_a" "note" "assistant" "the pool is exhausted"
             (Some [("pool", AInt 10)]) 5 in
  exists session events f', Get w "ds_a " 0 f = Ok (session, events) /\
    Get w " ds_a" 0 f' = Ok (touch 5 session, (events ++ [e])%list).
Proof.
  intros f w e.
  set (r := AppendEvent w " ds_a" example_note f).
  destruct (Get w " ds_a" 0 f) as [[session events]|] eqn:Hg; [|vm_compute in Hg; discriminate].
  exists session, events, r.1. split; [exact Hg|].
  destruct (AppendEvent_then_Get w w " ds_a" example_note f r.1 e session events)
    as (_ & _ & _ & _ & _ & _ & H & _).
  - by vm_compute.
  - exact Hg.
  - apply run_wf; [by intros ? [= <-]; apply wf_zero|apply opened_fresh].
  - vm_compute in Hg. injection Hg as <- <-. by repeat constructor.
  - exact H.
Defined.

Definition example_projects : list Project :=
  [example_project [example_environment "v1" "dev" true]
     [example_service "s1" "api" [example_deployment "d1" "dev" "local" false]]].

Lemma debug_session_scope_witness :
  let req := mkCreate "" "shop" "dev" "" "api " "" "t" "q" in
  exists r, resolveDebugSessionCreateRequest example_projects req = Ok r /\
    cr_DeploymentID r = "d1" /\ (TrimSpace "api " = "" \/ cr_ServiceName r = TrimSpace "api ").
Proof.
  intros req.
  destruct (resolveDebugSessionCreateRequest example_projects req) as [r|] eqn:Hr;
    [|vm_compute in Hr; discriminate].
  exists r. split; [done|]. split; [vm_compute in Hr; by injection Hr as <-|].
  apply (debug_session_scope example_projects req r Hr).
Defined.
