(* ===== verification/Programs.v ===== *)
(** * Programs that call the outside world

    Some components decide what to do next from the answers of databases, servers
    and other stores that act concurrently.  Such a component is a [prog]: a tree
    whose nodes are calls and whose branches are answers.  [wp] says what holds of
    the result and of the trace of calls for every sequence of answers, so that a
    theorem about [wp] holds whatever else happens between two calls.  [run] gives
    the calls a meaning on a concrete state. *)
From stdpp Require Import base list.
From Stdlib Require Import Lia.
From S2P Require Import Prelude.

Section Programs.
Context {action : Type} {answer : action -> Type}.

Inductive prog (A : Type) : Type :=
| Done (x : A)
| Act (a : action) (k : answer a -> prog A).
Arguments Done {A} _.
Arguments Act {A} _ _.

Fixpoint bind {A B} (p : prog A) (f : A -> prog B) : prog B :=
  match p with
  | Done x => f x
  | Act a k => Act a (fun x => bind (k x) f)
  end.

Definition call (a : action) : prog (answer a) := Act a Done.

(** A call that was made, with its answer. *)
Inductive event : Type := Ev (a : action) (x : answer a).

Abbreviation trace := (list event).

Fixpoint wp {A} (p : prog A) (tr : trace) (Q : A -> trace -> Prop) : Prop :=
  match p with
  | Done x => Q x tr
  | Act a k => forall x, wp (k x) (tr ++ [Ev a x]) Q
  end.

(** The run in which [answers] gives the answer to each call, from the calls so far. *)
Fixpoint play {A} (answers : trace -> forall a, answer a) (p : prog A) (tr : trace)
    : trace * A :=
  match p with
  | Done x => (tr, x)
  | Act a k => let x := answers tr a in play answers (k x) (tr ++ [Ev a x])
  end.

(** The run of a program alone on a state. *)
Fixpoint run {S A} (handle : forall a, S -> S * answer a) (p : prog A) (s : S) : S * A :=
  match p with
  | Done x => (s, x)
  | Act a k => let '(s', x) := handle a s in run handle (k x) s'
  end.

(** One call of a program; a finished program stays. *)
Definition step1 {S A} (handle : forall a, S -> S * answer a) (p : prog A) (s : S)
    : S * prog A :=
  match p with
  | Done x => (s, Done x)
  | Act a k => let '(s', x) := handle a s in (s', k x)
  end.

(** ** Rules *)

Lemma wp_bind {A B} (p : prog A) (f : A -> prog B) tr Q :
  wp (bind p f) tr Q <-> wp p tr (fun x tr' => wp (f x) tr' Q).
Proof.
  revert tr. induction p as [x|a k IH]; intros tr; simpl; [done|].
  split; intros H x; by apply IH.
Qed.

Lemma wp_mono {A} (p : prog A) tr (Q Q' : A -> trace -> Prop) :
  (forall x tr', Q x tr' -> Q' x tr') -> wp p tr Q -> wp p tr Q'.
Proof. intros H. revert tr. induction p; simpl; auto. Qed.

Lemma wp_call a tr (Q : answer a -> trace -> Prop) :
  wp (call a) tr Q <-> forall x, Q x (tr ++ [Ev a x]).
Proof. done. Qed.

Lemma wp_play {A} answers (p : prog A) tr Q :
  wp p tr Q -> Q (play answers p tr).2 (play answers p tr).1.
Proof. revert tr. induction p; simpl; auto. Qed.

(** Every trace extends the one it started from. *)
Lemma wp_extends {A} (p : prog A) tr : wp p tr (fun _ tr' => tr `prefix_of` tr').
Proof.
  assert (forall tr0, tr0 `prefix_of` tr -> wp p tr (fun _ tr' => tr0 `prefix_of` tr')) as H.
  { revert tr. induction p as [x|a k IH]; simpl; [done|]. intros tr tr0 Hp x. apply IH.
    by apply prefix_app_r. }
  by apply H.
Qed.

Lemma wp_and {A} (p : prog A) tr (Q Q' : A -> trace -> Prop) :
  wp p tr Q -> wp p tr Q' -> wp p tr (fun x tr' => Q x tr' /\ Q' x tr').
Proof. revert tr. induction p; simpl; auto. Qed.

(** ** Safety: a condition on each call and the calls before it *)

Definition safe (P : trace -> event -> Prop) (tr : trace) : Prop :=
  forall before e after, tr = before ++ e :: after -> P before e.

Lemma safe_nil P : safe P [].
Proof. by intros [|] ? ?. Qed.

Lemma safe_snoc P tr e : safe P (tr ++ [e]) <-> safe P tr /\ P tr e.
Proof.
  split.
  - intros H. split; [|by eapply H]. intros before x after ->.
    eapply H. by rewrite <-app_assoc.
  - intros [H He] before x after Heq. destruct after as [|y after _] using rev_ind.
    + apply app_inj_tail in Heq as [-> ->]. done.
    + rewrite app_comm_cons, app_assoc in Heq. apply app_inj_tail in Heq as [Heq _]. by eapply H.
Qed.
End Programs.

Arguments prog {action answer} A.
Arguments Done {action answer A} _.
Arguments Act {action answer A} _ _.
Arguments Ev {action answer} _ _.
Arguments event {action answer}.

Declare Scope prog_scope.
Notation "'let!' x ':=' p 'in' k" := (bind p (fun x => k))
  (at level 10, x pattern, p at level 100, k at level 200) : prog_scope.
Delimit Scope prog_scope with prog.
