(* ===== verification/Provision.v ===== *)
(** * Temporary test databases: data, names and the Redis pool (agent/dbprovision)

    [types.go] and [naming.go]: what a data source, a binding, a plan, a resource
    and a lease are, and how the name of a temporary resource is built; from
    [redis.go], the choice of a free Redis database, which is pure.  The dialogue
    with the PostgreSQL and Redis servers is I/O and is not modelled. *)
From stdpp Require Import base list strings gmap pretty sorting.
From Stdlib Require Import ZArith Lia Ascii.
From S2P Require Import Prelude.
Local Open Scope string_scope.

(** ** types.go *)

Definition KindPostgres := "postgres".
Definition KindRedis := "redis".

(** Errors of the package; the last two stand for the other errors, by their text. *)
Inductive prov_error : Type :=
| ErrQuotaExceeded (active limit : Z) (existing : list (string * string * time))
| ErrTemplateBusy
| ErrNoFreeDB
| ErrBindingMissing
| ErrDataSourceNotFound
| ErrLeaseNotFound
| ErrLeaseLifetimeExceeded
| ErrUnsupportedKind (kind : string)
| ErrDataSourceInUse (active : Z)
| ErrInvalidDataSource
| ErrResourceSlotTaken
| ErrProbe
| ErrText (text : string).

Record ProbeResult : Type := mkProbe {
  pr_OK : bool;
  pr_CheckedAt : time;
  pr_ServerVer : string;
  pr_Capabilities : gmap string bool;
  pr_Facts : gmap string string;
  pr_Missing : list string;
  pr_FixHint : string;
  pr_Error : string;
}.

Record DataSource : Type := mkDataSource {
  ds_ID : string;
  ds_Kind : string;
  ds_Name : string;
  ds_Host : string;
  ds_Port : Z;
  ds_User : string;
  ds_Password : string;
  ds_Extra : gmap string string;
  ds_Probe : ProbeResult;
  ds_Source : string;
  ds_CreatedAt : time;
}.

Definition Sanitized (d : DataSource) : DataSource :=
  {| ds_ID := ds_ID d; ds_Kind := ds_Kind d; ds_Name := ds_Name d; ds_Host := ds_Host d;
     ds_Port := ds_Port d; ds_User := ds_User d; ds_Password := ""; ds_Extra := ds_Extra d;
     ds_Probe := ds_Probe d; ds_Source := ds_Source d; ds_CreatedAt := ds_CreatedAt d |}.

Record PostgresBinding : Type := mkPostgres {
  pg_DataSourceName : string;
  pg_DevDatabase : string;
  pg_TerminateConnections : bool;
}.

(** [RedisBinding] has the name of the data source as its only field. *)
Record ProjectBinding : Type := mkBinding {
  bind_Postgres : option PostgresBinding;
  bind_Redis : option string;
  bind_MaxConcurrentLeases : Z;
  bind_DefaultTTLMinutes : Z;
}.

Record PlanRequest : Type := mkPlanRequest {
  preq_ProjectID : string;
  preq_NameSeed : string;
  preq_Binding : ProjectBinding;
  preq_TakenHints : list string;
}.

Definition SideEffectTerminateConnections := "terminate_connections".

Record SideEffect : Type := mkSideEffect {
  se_Kind : string;
  se_Target : string;
  se_Detail : string;
  se_Count : Z;
}.

Record Plan : Type := mkPlan {
  pl_Kind : string;
  pl_ResourceName : string;
  pl_Steps : list string;
  pl_SideEffects : list SideEffect;
  pl_Detail : gmap string string;
}.

Record Resource : Type := mkResource {
  res_Kind : string;
  res_Name : string;
  res_DSN : string;
  res_Meta : gmap string string;
}.

Definition WithoutSecret (r : Resource) : Resource :=
  mkResource (res_Kind r) (res_Name r) "" (res_Meta r).

Record Orphan : Type := mkOrphan {
  orph_Kind : string;
  orph_Name : string;
  orph_Reason : string;
}.

Record AcquireRequest : Type := mkAcquire {
  acq_ProjectID : string;
  acq_Purpose : string;
  acq_TTL : duration;
  acq_Kinds : list string;
}.

Record Lease : Type := mkLease {
  lse_ID : string;
  lse_ProjectID : string;
  lse_Purpose : string;
  lse_Resources : list Resource;
  lse_CreatedAt : time;
  lse_ExpiresAt : time;
  lse_RenewCount : Z;
}.

(** [lease.go]: a row of the table of resources, without a connection string. *)
Record StoredResource : Type := mkStored {
  sto_ID : string;
  sto_LeaseID : string;
  sto_DataSourceID : string;
  sto_Kind : string;
  sto_Name : string;
  sto_Meta : gmap string string;
  sto_Status : string;
}.

(** ** provisioner.go: the kinds that [init] registers *)

Definition LookupProvisioner (kind : string) : bool :=
  (kind =? KindPostgres) || (kind =? KindRedis).

(** ** naming.go *)

Definition ResourcePrefix := "sdev_eph_".
Definition maxProjectSlugLen : nat := 20.

(** [unicode.ToLower] on ASCII. *)
Definition lower_byte (c : ascii) : ascii :=
  let n := nat_of_ascii c in
  if (65 <=? n)%nat && (n <=? 90)%nat then byte_of (n + 32) else c.

Definition slug_char (c : ascii) : bool :=
  let n := nat_of_ascii c in
  ((97 <=? n)%nat && (n <=? 122)%nat) || ((48 <=? n)%nat && (n <=? 57)%nat).

(** Whether the text goes on with these bytes. *)
Fixpoint next_bytes (l : list ascii) (ns : list nat) : bool :=
  match ns, l with
  | [], _ => true
  | n :: ns', c :: l' => (nat_of_ascii c =? n)%nat && next_bytes l' ns'
  | _, [] => false
  end.

(** The loop over the runes.  Two runes outside ASCII have a lower case letter in
    ASCII: U+0130 (196 176) and the Kelvin sign U+212A (226 132 170). *)
Fixpoint slug_runes (l : list ascii) (written : list ascii) : list ascii :=
  match l with
  | [] => written
  | c :: rest =>
      let n := nat_of_ascii c in
      let emit (out : ascii) :=
        let written := (written ++ [out])%list in
        if (maxProjectSlugLen <=? length written)%nat then written else slug_runes rest written in
      if (n <? 128)%nat
      then emit (if slug_char (lower_byte c) then lower_byte c else "_"%char)
      else if (n <? 192)%nat then slug_runes rest written
      else
        if (n =? 196)%nat && next_bytes rest [176] then emit "i"%char
        else if (n =? 226)%nat && next_bytes rest [132; 170] then emit "k"%char
        else emit "_"%char
  end.

Fixpoint drop_underscores (l : list ascii) : list ascii :=
  match l with
  | c :: rest => if (nat_of_ascii c =? 95)%nat then drop_underscores rest else l
  | [] => []
  end.

(** [strings.Trim(s, "_")] *)
Definition trim_underscores (l : list ascii) : list ascii :=
  rev (drop_underscores (rev (drop_underscores l))).

Definition projectSlug (projectName : string) : string :=
  match trim_underscores (slug_runes (String.list_ascii_of_string projectName) []) with
  | [] => "proj"
  | l => String.string_of_list_ascii l
  end.

(** [random] is the text of six random bytes in hexadecimal. *)
Definition NewResourceName (projectName random : string) : string :=
  ResourcePrefix +:+ projectSlug projectName +:+ "_" +:+ random.

Example projectSlug_ex : projectSlug "__My Shop-2!" = "my_shop_2".
Proof. by vm_compute. Qed.
Example projectSlug_ex2 : projectSlug "商店" = "proj".
Proof. by vm_compute. Qed.

(** ** redis.go: the pool of databases *)

(** The number in the name [db<i>]. *)
Definition db_number (name : string) : option Z :=
  match name with
  | String "d" (String "b" rest) => Atoi rest
  | _ => None
  end.

(** The loop [for index := 1; index < total; index++]; [n] is [total - index]. *)
Fixpoint free_from (index : Z) (n : nat) (blocked : Z -> bool) : list Z :=
  match n with
  | O => []
  | S n' =>
      let rest := free_from (index + 1) n' blocked in
      if blocked index then rest else index :: rest
  end.

Definition freeDBIndexes (total : Z) (occupied : list Z) (taken : list string) : list Z :=
  let blocked index :=
    bool_decide (index ∈ occupied) || existsb (fun name => bool_decide (db_number name = Some index)) taken in
  free_from 1 (Z.to_nat (total - 1)) blocked.

Definition resourceDBIndex (name : string) (meta : gmap string string) : option Z :=
  let value := default "" (meta !! "db_index") in
  let value :=
    if value =? "" then
      match name with String "d" (String "b" rest) => Some rest | _ => None end
    else Some value in
  match value ≫= Atoi with
  | Some index => if (index <=? 0)%Z then None else Some index
  | None => None
  end.

(** The part of [Plan] after the probe: the plan, or [ErrNoFreeDB]. *)
Definition redis_plan (total : Z) (occupied : list Z) (req : PlanRequest)
    : result prov_error Plan :=
  match freeDBIndexes total occupied (preq_TakenHints req) with
  | [] => Err ErrNoFreeDB
  | index :: _ =>
      Ok {| pl_Kind := KindRedis;
            pl_ResourceName := "db" +:+ pretty index;
            pl_Steps := ["分配空闲 db 号 " +:+ pretty index +:+ "（空库，不克隆）"];
            pl_SideEffects := [];
            pl_Detail := {["db_index" := pretty index]} |}
  end.

Definition joinIndexes (indexes : list Z) : string :=
  String.concat "," (pretty <$> indexes).

(** [strings.Split(value, ",")] *)
Fixpoint split_commas (l current : list ascii) : list string :=
  match l with
  | [] => [String.string_of_list_ascii (rev current)]
  | c :: rest =>
      if (nat_of_ascii c =? 44)%nat
      then String.string_of_list_ascii (rev current) :: split_commas rest []
      else split_commas rest (c :: current)
  end.

(** [None] is an error of [Atoi]. *)
Definition parseIndexList (value : string) : option (list Z) :=
  if value =? "" then Some []
  else mapM Atoi (split_commas (String.list_ascii_of_string value) []).

(** [sort.Ints] of the database numbers among the keys of [INFO keyspace]. *)
Definition occupiedDBIndexes (keys : list string) : list Z :=
  SliceStable Z.ltb (omap db_number keys).

(** ** Theorems: names *)

(** The bytes a name consists of. *)
Definition name_char (c : ascii) : bool := slug_char c || (nat_of_ascii c =? 95)%nat.

Lemma slug_runes_spec l written :
  Forall (fun c => name_char c = true) written -> (length written < maxProjectSlugLen)%nat ->
  Forall (fun c => name_char c = true) (slug_runes l written) /\
  (length (slug_runes l written) <= maxProjectSlugLen)%nat.
Proof.
  revert written. induction l as [|c l IH]; intros written Hw Hlen; [split; [done|simpl; lia]|].
  set (emit := fun out : ascii =>
    let written := (written ++ [out])%list in
    if (maxProjectSlugLen <=? length written)%nat then written else slug_runes l written).
  assert (forall out, name_char out = true ->
    Forall (fun c => name_char c = true) (emit out) /\ (length (emit out) <= maxProjectSlugLen)%nat)
    as Hemit.
  { intros out Hout. unfold emit. cbv zeta.
    assert (Forall (fun c => name_char c = true) (written ++ [out])%list)
      by (by apply Forall_app_2, Forall_singleton).
    destruct (maxProjectSlugLen <=? length (written ++ [out])%list)%nat eqn:E.
    - split; [done|]. rewrite length_app. simpl. lia.
    - apply Nat.leb_gt in E. by apply IH. }
  cbn [slug_runes]. fold emit. cbv zeta.
  destruct (nat_of_ascii c <? 128)%nat.
  { apply Hemit. destruct (slug_char (lower_byte c)) eqn:E; [|done]. unfold name_char. by rewrite E. }
  destruct (nat_of_ascii c <? 192)%nat; [by apply IH|].
  repeat (destruct (_ && _); [by apply Hemit|]). by apply Hemit.
Qed.

Lemma drop_underscores_suffix l : exists k, l = (k ++ drop_underscores l)%list.
Proof.
  induction l as [|c l [k IH]]; simpl; [by exists []|].
  destruct (_ =? _)%nat; [|by exists []]. exists (c :: k). simpl. by f_equal.
Qed.

Lemma trim_underscores_infix l : exists k k', l = (k ++ trim_underscores l ++ k')%list.
Proof.
  unfold trim_underscores. destruct (drop_underscores_suffix l) as [k Hk].
  destruct (drop_underscores_suffix (rev (drop_underscores l))) as [k' Hk'].
  exists k, (rev k'). rewrite <-rev_app_distr, <-Hk', rev_involutive. done.
Qed.

Lemma projectSlug_spec name :
  let l := String.list_ascii_of_string (projectSlug name) in
  Forall (fun c => name_char c = true) l /\ (1 <= length l <= maxProjectSlugLen)%nat.
Proof.
  unfold projectSlug. set (l := slug_runes _ _).
  assert (Forall (fun c => name_char c = true) l /\ (length l <= maxProjectSlugLen)%nat) as [Hl Hlen].
  { apply slug_runes_spec; [constructor|unfold maxProjectSlugLen; simpl; lia]. }
  destruct (trim_underscores_infix l) as (k & k' & Heq).
  rewrite Heq in Hl, Hlen. rewrite !Forall_app in Hl. rewrite !length_app in Hlen.
  destruct (trim_underscores l) as [|c m] eqn:E.
  - split; [apply (bool_decide_eq_true_1 (Forall _ _)); by vm_compute|].
    unfold maxProjectSlugLen. simpl. lia.
  - cbv zeta. rewrite String.list_ascii_of_string_of_list_ascii. split; [apply Hl|].
    simpl in *. lia.
Qed.

Lemma bytes_of_app a b : String.list_ascii_of_string (a +:+ b) =
  (String.list_ascii_of_string a ++ String.list_ascii_of_string b)%list.
Proof. induction a as [|c a IH]; simpl; [done|]. by rewrite <-IH. Qed.

(** C16: the name of a temporary resource needs no quoting anywhere and is never cut: whatever
    the project is called, it consists of lower case letters, digits and underscores, starts
    with the prefix by which a leaked resource is recognised, and has at most 42 bytes, within
    the 63 of a PostgreSQL identifier; the random part is its end. *)
Theorem resource_name_identifier projectName random :
  String.length random = 12 ->
  Forall (fun c => name_char c = true) (String.list_ascii_of_string random) ->
  let name := NewResourceName projectName random in
  Forall (fun c => name_char c = true) (String.list_ascii_of_string name) /\
  (String.length name <= 42)%nat /\
  (exists slug, name = ResourcePrefix +:+ slug +:+ "_" +:+ random /\ slug <> "").
Proof.
  intros Hlen Hr name. destruct (projectSlug_spec projectName) as [Hs [Hs1 Hs2]].
  assert (forall s, String.length s = length (String.list_ascii_of_string s)) as Hl.
  { induction s; simpl; auto. }
  split_and!.
  - unfold name, NewResourceName. rewrite !bytes_of_app, !Forall_app. split_and!; try done.
    + apply (bool_decide_eq_true_1 (Forall _ _)). by vm_compute.
    + apply (bool_decide_eq_true_1 (Forall _ _)). by vm_compute.
  - unfold name, NewResourceName. rewrite Hl, !bytes_of_app, !length_app, <-!Hl, Hlen.
    unfold maxProjectSlugLen in Hs2. rewrite <-Hl in Hs2. simpl. lia.
  - exists (projectSlug projectName). split; [done|]. intros He. rewrite He in Hs1. simpl in Hs1. lia.
Qed.

Lemma resource_name_identifier_witness :
  (String.length (NewResourceName "__My Shop 2 with a very long name__" "0123456789ab") <= 42)%nat.
Proof.
  apply (resource_name_identifier "__My Shop 2 with a very long name__" "0123456789ab");
    [done|]. apply (bool_decide_eq_true_1 (Forall _ _)). by vm_compute.
Defined.

(** ** Theorems: the Redis pool *)

Lemma free_from_spec index n blocked i :
  i ∈ free_from index n blocked <-> (index <= i < index + Z.of_nat n)%Z /\ blocked i = false.
Proof.
  revert index. induction n as [|n IH]; intros index; simpl.
  { split; [by intros ?%elem_of_nil|lia]. }
  destruct (blocked index) eqn:E; rewrite ?elem_of_cons, IH; split.
  - intros [? ?]. split; [lia|done].
  - intros [? Hb]. split; [|done]. destruct (decide (i = index)) as [->|]; [congruence|lia].
  - intros [-> |[? ?]]; split; try lia; done.
  - intros [? Hb]. destruct (decide (i = index)) as [->|]; [by left|right; split; [lia|done]].
Qed.

Lemma free_from_sorted index n blocked : StronglySorted Z.lt (free_from index n blocked).
Proof.
  revert index. induction n as [|n IH]; intros index; simpl; [constructor|].
  destruct (blocked index); [done|]. constructor; [done|].
  apply Forall_forall. intros i [? _]%free_from_spec. lia.
Qed.

(** The databases that may be handed out. *)
Definition db_free (total : Z) (occupied : list Z) (taken : list string) (i : Z) : Prop :=
  (1 <= i < total)%Z /\ i ∉ occupied /\ Forall (fun name => db_number name <> Some i) taken.

Lemma freeDBIndexes_spec total occupied taken i :
  i ∈ freeDBIndexes total occupied taken <-> db_free total occupied taken i.
Proof.
  unfold freeDBIndexes, db_free. rewrite free_from_spec.
  rewrite orb_false_iff, bool_decide_eq_false.
  assert (existsb (fun name => bool_decide (db_number name = Some i)) taken = false <->
    Forall (fun name => db_number name <> Some i) taken) as ->.
  { rewrite Forall_forall, <-not_true_iff_false, List.existsb_exists. split.
    - intros H name Hn Heq. apply H. exists name. split; [by apply list_elem_of_In|].
      by apply bool_decide_eq_true_2.
    - intros H (name & Hn & Heq%bool_decide_eq_true_1). apply (H name); [|done].
      by apply list_elem_of_In. }
  split; (intros (? & ? & ?); split_and!; [lia..|done|done]).
Qed.

Lemma db_number_pretty i : (0 <= i <= max_int64)%Z -> db_number ("db" +:+ pretty i) = Some i.
Proof. intros. by apply Atoi_pretty. Qed.

(** The Redis planner gives out a database only if it may: the one of its plan is the least
    of the databases 1, 2, ... of the instance that holds no key and that no registered
    resource has; database 0 is never given, there is an error exactly if none is free, and
    what is reclaimed later, from the name or from the stored detail, is that database. *)
Theorem redis_plan_least_free total occupied req :
  (total <= max_int64)%Z ->
  let free := db_free total occupied (preq_TakenHints req) in
  match redis_plan total occupied req with
  | Ok plan => exists i, free i /\ (forall j, free j -> i <= j)%Z /\
      pl_SideEffects plan = [] /\
      resourceDBIndex (pl_ResourceName plan) (pl_Detail plan) = Some i /\
      resourceDBIndex (pl_ResourceName plan) ∅ = Some i /\
      (forall others, resourceDBIndex (pl_ResourceName plan)
         (pl_Detail plan ∪ others) = Some i)
  | Err e => e = ErrNoFreeDB /\ (forall i, ~ free i)
  end.
Proof.
  intros Ht free. unfold redis_plan, free.
  pose proof (freeDBIndexes_spec total occupied (preq_TakenHints req)) as Hspec.
  pose proof (free_from_sorted 1 (Z.to_nat (total - 1)) (fun index =>
    bool_decide (index ∈ occupied) ||
    existsb (fun name => bool_decide (db_number name = Some index)) (preq_TakenHints req))) as Hsorted.
  fold (freeDBIndexes total occupied (preq_TakenHints req)) in Hsorted.
  destruct (freeDBIndexes total occupied (preq_TakenHints req)) as [|i rest].
  { split; [done|]. intros i Hi%Hspec. by apply elem_of_nil in Hi. }
  assert (db_free total occupied (preq_TakenHints req) i) as Hi by (apply Hspec; by left).
  assert (1 <= i <= max_int64)%Z as Hb by (destruct Hi; lia).
  exists i. split; [done|]. split.
  { intros j Hj%Hspec. apply elem_of_cons in Hj as [-> |Hj]; [done|].
    apply StronglySorted_inv in Hsorted as [_ Hs]. rewrite Forall_forall in Hs.
    specialize (Hs j Hj). lia. }
  split; [done|].
  assert (pretty i <> "") as Hne.
  { intros He. pose proof (Atoi_pretty i ltac:(lia)) as Ha. rewrite He in Ha. done. }
  assert (forall meta, meta !! "db_index" = Some (pretty i) \/ meta !! "db_index" = None ->
    resourceDBIndex ("db" +:+ pretty i) meta = Some i) as Hres.
  { intros meta Hm. unfold resourceDBIndex. cbv zeta.
    pose proof (Atoi_pretty i ltac:(lia)) as Ha. revert Ha Hne Hm. generalize (pretty i).
    intros s Ha Hne Hm. apply String.eqb_neq in Hne.
    destruct Hm as [-> | ->]; simpl; rewrite ?Hne; simpl.
    all: try change ("" +:+ s) with s; rewrite Ha;
      (destruct (Z.leb_spec i 0); [lia|done]). }
  split_and!; [..|intros others]; apply Hres; simpl.
  - left. apply lookup_singleton_eq.
  - right. apply lookup_empty.
  - left. apply lookup_union_Some_l, lookup_singleton_eq.
Qed.

Lemma redis_plan_least_free_witness :
  exists i, db_free 16 [0; 1; 2]%Z ["db3"; "sdev_eph_x"] i /\ (i <= 4)%Z.
Proof.
  set (req := mkPlanRequest "p" "s" (mkBinding None (Some "cache") 0 0) ["db3"; "sdev_eph_x"]).
  pose proof (redis_plan_least_free 16 [0; 1; 2]%Z req ltac:(done)) as H. cbv zeta in H.
  destruct (redis_plan 16 [0; 1; 2]%Z req) as [plan|] eqn:E; [|vm_compute in E; discriminate].
  destruct H as (i & Hi & Hleast & _). exists i. split; [exact Hi|]. apply Hleast.
  split_and!; [lia|lia| |]; apply (bool_decide_eq_true_1 _); by vm_compute.
Defined.

(** *** The list of databases survives its text form *)

Lemma split_commas_app l rest current :
  Forall (fun c => nat_of_ascii c <> 44) l ->
  split_commas (l ++ rest)%list current = split_commas rest (rev l ++ current)%list.
Proof.
  revert current. induction l as [|c l IH]; intros current Hl; [done|].
  apply Forall_cons in Hl as [Hc Hl]. simpl. apply Nat.eqb_neq in Hc. rewrite Hc.
  rewrite IH by done. f_equal. by rewrite <-app_assoc.
Qed.

Lemma digits_no_comma acc l n :
  digits_value acc l = Some n -> Forall (fun c => nat_of_ascii c <> 44) l.
Proof.
  revert acc. induction l as [|c l IH]; intros acc H; [constructor|]. simpl in H.
  destruct (digit_value c) as [d|] eqn:E; [|done]. constructor; [|by eapply IH].
  intros Hc. unfold digit_value in E. rewrite Hc in E. simpl in E. discriminate.
Qed.

Lemma pretty_digits z :
  (0 <= z <= max_int64)%Z ->
  Forall (fun c => nat_of_ascii c <> 44) (String.list_ascii_of_string (pretty z)).
Proof.
  intros [H0 H1].
  assert (exists x, z = Z.of_N x /\ pretty z = pretty x) as (x & -> & ->).
  { destruct z as [|p|p]; [by exists 0%N|by exists (Npos p)|lia]. }
  unfold pretty, pretty_N. case_decide as Hx; [by apply Forall_singleton|].
  destruct (digits_value_pretty x "") as [k Hk]. specialize (Hk 0%Z).
  cbn [String.list_ascii_of_string digits_value] in Hk. exact (digits_no_comma _ _ _ Hk).
Qed.

Lemma split_joined l :
  Forall (fun z => 0 <= z <= max_int64)%Z l -> l <> [] ->
  split_commas (String.list_ascii_of_string (joinIndexes l)) [] = pretty <$> l.
Proof.
  unfold joinIndexes. induction 1 as [|z l Hz Hl IH]; intros Hne; [done|].
  destruct l as [|z' l].
  - simpl. rewrite <-(app_nil_r (String.list_ascii_of_string (pretty z))).
    rewrite split_commas_app by (by apply pretty_digits). simpl.
    by rewrite app_nil_r, rev_involutive, String.string_of_list_ascii_of_string.
  - specialize (IH ltac:(done)). csimpl in *.
    rewrite !bytes_of_app, split_commas_app by (by apply pretty_digits). simpl.
    rewrite app_nil_r, rev_involutive, String.string_of_list_ascii_of_string. f_equal. exact IH.
Qed.

(** The probe writes the occupied databases as text, and the planner reads the same list back. *)
Theorem occupied_roundtrip l :
  Forall (fun z => 0 <= z <= max_int64)%Z l -> parseIndexList (joinIndexes l) = Some l.
Proof.
  intros Hl. destruct l as [|z l]; [done|]. unfold parseIndexList.
  destruct (String.eqb_spec (joinIndexes (z :: l)) "") as [He|_].
  { pose proof (split_joined (z :: l) Hl ltac:(done)) as Hs. rewrite He in Hs. simpl in Hs.
    apply Forall_cons in Hl as [Hz _]. pose proof (Atoi_pretty z Hz) as Ha.
    injection Hs as Hs _. rewrite <-Hs in Ha. done. }
  rewrite split_joined by done. apply mapM_Some. apply Forall2_fmap_l.
  induction Hl; constructor; [by apply Atoi_pretty|done].
Qed.
