(* ===== verification/LeaseStore.v ===== *)
(** * Temporary test databases: the tables of leases (agent/store/provision.go)

    Two SQLite tables.  Each statement either takes effect as a whole or fails;
    whether it fails is an argument of the operation.  The partial unique index
    [idx_provision_resources_slot] is the guard that keeps two leases from holding
    the same resource. *)
From stdpp Require Import base list strings gmap sorting.
From Stdlib Require Import ZArith Lia.
From S2P Require Import Prelude Provision.
Local Open Scope string_scope.

(** ** Tables *)

(** [time.Time.Unix]: whole seconds since 1970; Go's zero time is 62135596800 seconds before. *)
Definition unixToInternal : Z := 62135596800%Z.
Definition Unix (t : time) : Z := (t / second - unixToInternal)%Z.
(** [time.Unix(s, 0)] *)
Definition from_Unix (s : Z) : time := ((s + unixToInternal) * second)%Z.

Record LeaseRow : Type := mkLeaseRow {
  lr_ID : string;
  lr_ProjectID : string;
  lr_Purpose : string;
  lr_CreatedAt : Z;
  lr_ExpiresAt : Z;
  lr_RenewCount : Z;
  lr_Status : string;
}.

(** A row of resources, with the column [created_at] that [StoredResource] leaves out. *)
Record ResourceRow : Type := mkResourceRow {
  rr_Res : StoredResource;
  rr_CreatedAt : Z;
}.

Record Store : Type := mkStore {
  tbl_leases : list LeaseRow;
  tbl_resources : list ResourceRow;
}.

Definition ErrDB : prov_error := ErrText "database error".

Definition set_leases (l : list LeaseRow) (s : Store) : Store := mkStore l (tbl_resources s).
Definition set_resources (l : list ResourceRow) (s : Store) : Store := mkStore (tbl_leases s) l.

(** ** Writers; [ok] says whether the statement reaches the database and succeeds *)

(** The identifier is the primary key. *)
Definition InsertLease (ok : bool) (lease : Lease) (s : Store) : Store * option prov_error :=
  if negb ok || existsb (fun r => lr_ID r =? lse_ID lease) (tbl_leases s) then (s, Some ErrDB)
  else
    (set_leases (tbl_leases s ++
       [{| lr_ID := lse_ID lease; lr_ProjectID := lse_ProjectID lease;
           lr_Purpose := lse_Purpose lease; lr_CreatedAt := Unix (lse_CreatedAt lease);
           lr_ExpiresAt := Unix (lse_ExpiresAt lease); lr_RenewCount := lse_RenewCount lease;
           lr_Status := "active" |}])%list s, None).

(** The rows that the partial unique index covers, and their slots. *)
Definition occupies (r : StoredResource) : bool := negb (sto_Status r =? "reclaimed").
Definition slot (r : StoredResource) : string * string * string :=
  (sto_DataSourceID r, sto_Kind r, sto_Name r).

(** [id] and [now] are what [uuid.NewString] and [time.Now] give.  A violation of
    either unique key is reported as [ErrResourceSlotTaken]. *)
Definition InsertResource (ok : bool) (id : string) (now : time) (leaseID datasourceID : string)
    (res : Resource) (s : Store) : Store * result prov_error string :=
  let row :=
    {| sto_ID := id; sto_LeaseID := leaseID; sto_DataSourceID := datasourceID;
       sto_Kind := res_Kind res; sto_Name := res_Name res; sto_Meta := res_Meta res;
       sto_Status := "creating" |} in
  if negb ok then (s, Err ErrDB)
  else if existsb (fun r => (sto_ID (rr_Res r) =? id) ||
                            (occupies (rr_Res r) && bool_decide (slot (rr_Res r) = slot row)))
            (tbl_resources s)
  then (s, Err ErrResourceSlotTaken)
  else (set_resources (tbl_resources s ++ [mkResourceRow row (Unix now)])%list s, Ok id).

Definition set_resource_status (id status : string) (r : ResourceRow) : ResourceRow :=
  let x := rr_Res r in
  if sto_ID x =? id
  then mkResourceRow (mkStored (sto_ID x) (sto_LeaseID x) (sto_DataSourceID x) (sto_Kind x)
                               (sto_Name x) (sto_Meta x) status) (rr_CreatedAt r)
  else r.

(** Setting a row back to [active] can violate the index as well; a row that is still
    in [creating] keeps its slot, so that this only happens to a reclaimed row. *)
Definition MarkResourceActive (ok : bool) (id : string) (s : Store) : Store * option prov_error :=
  let rows := set_resource_status id "active" <$> tbl_resources s in
  if negb ok then (s, Some ErrDB)
  else if bool_decide (NoDup (slot <$> List.filter occupies (rr_Res <$> rows)))
  then (set_resources rows s, None)
  else (s, Some ErrDB).

Definition MarkResourceReclaimed (ok : bool) (id : string) (s : Store)
    : Store * option prov_error :=
  if ok then (set_resources (set_resource_status id "reclaimed" <$> tbl_resources s) s, None)
  else (s, Some ErrDB).

Definition set_lease_expiry (id : string) (expiresAt : Z) (renewCount : Z) (r : LeaseRow)
    : LeaseRow :=
  if lr_ID r =? id
  then mkLeaseRow (lr_ID r) (lr_ProjectID r) (lr_Purpose r) (lr_CreatedAt r) expiresAt renewCount
                  (lr_Status r)
  else r.

Definition UpdateLeaseExpiry (ok : bool) (id : string) (expiresAt : time) (renewCount : Z)
    (s : Store) : Store * option prov_error :=
  if ok then (set_leases (set_lease_expiry id (Unix expiresAt) renewCount <$> tbl_leases s) s, None)
  else (s, Some ErrDB).

Definition set_lease_released (id : string) (r : LeaseRow) : LeaseRow :=
  if lr_ID r =? id
  then mkLeaseRow (lr_ID r) (lr_ProjectID r) (lr_Purpose r) (lr_CreatedAt r) (lr_ExpiresAt r)
                  (lr_RenewCount r) "released"
  else r.

Definition MarkLeaseReleased (ok : bool) (id : string) (s : Store) : Store * option prov_error :=
  if ok then (set_leases (set_lease_released id <$> tbl_leases s) s, None) else (s, Some ErrDB).

(** ** Readers *)

(** [ORDER BY created_at, id] *)
Definition listResourceRows (p : StoredResource -> bool) (s : Store) : list StoredResource :=
  rr_Res <$> SliceStable (fun x y => (rr_CreatedAt x <? rr_CreatedAt y)%Z ||
      ((rr_CreatedAt x =? rr_CreatedAt y)%Z && String.ltb (sto_ID (rr_Res x)) (sto_ID (rr_Res y))))
    (List.filter (fun r => p (rr_Res r)) (tbl_resources s)).

Definition lease_of_row (r : LeaseRow) (resources : list Resource) : Lease :=
  {| lse_ID := lr_ID r; lse_ProjectID := lr_ProjectID r; lse_Purpose := lr_Purpose r;
     lse_Resources := resources; lse_CreatedAt := from_Unix (lr_CreatedAt r);
     lse_ExpiresAt := from_Unix (lr_ExpiresAt r); lse_RenewCount := lr_RenewCount r |}.

Definition GetLease (ok : bool) (id : string) (s : Store)
    : result prov_error (Lease * list StoredResource) :=
  if negb ok then Err ErrDB
  else
    match List.find (fun r => lr_ID r =? id) (tbl_leases s) with
    | None => Err ErrLeaseNotFound
    | Some r => Ok (lease_of_row r [], listResourceRows (fun x => sto_LeaseID x =? id) s)
    end.

(** A released lease is not found, so that releasing twice is harmless. *)
Definition GetLeaseWithResources (ok : bool) (id : string) (s : Store)
    : result prov_error (Lease * list StoredResource) :=
  match GetLease ok id s with
  | Err e => Err e
  | Ok (lease, rows) =>
      match List.find (fun r => lr_ID r =? id) (tbl_leases s) with
      | Some r => if lr_Status r =? "released" then Err ErrLeaseNotFound else Ok (lease, rows)
      | None => Err ErrDB
      end
  end.

(** [listLeases]: the leases with the resources that are not reclaimed. *)
Definition listLeases (rows : list LeaseRow) (s : Store) : list Lease :=
  (fun r => lease_of_row r
     ((fun x => mkResource (sto_Kind x) (sto_Name x) "" (sto_Meta x)) <$>
      List.filter occupies (listResourceRows (fun x => sto_LeaseID x =? lr_ID r) s))) <$> rows.

(** [ORDER BY created_at DESC, id DESC] *)
Definition ListLeases (ok : bool) (projectID : string) (s : Store)
    : result prov_error (list Lease) :=
  if negb ok then Err ErrDB
  else
    let rows := List.filter (fun r => (lr_Status r =? "active") &&
      ((projectID =? "") || (lr_ProjectID r =? projectID))) (tbl_leases s) in
    let rows := SliceStable (fun x y => (lr_CreatedAt y <? lr_CreatedAt x)%Z ||
      ((lr_CreatedAt x =? lr_CreatedAt y)%Z && String.ltb (lr_ID y) (lr_ID x))) rows in
    Ok (listLeases rows s).

(** [ORDER BY expires_at, id] *)
Definition ListExpiredLeases (ok : bool) (now : time) (s : Store)
    : result prov_error (list Lease) :=
  if negb ok then Err ErrDB
  else
    let rows := List.filter (fun r => (lr_Status r =? "active") && (lr_ExpiresAt r <=? Unix now)%Z)
      (tbl_leases s) in
    let rows := SliceStable (fun x y => (lr_ExpiresAt x <? lr_ExpiresAt y)%Z ||
      ((lr_ExpiresAt x =? lr_ExpiresAt y)%Z && String.ltb (lr_ID x) (lr_ID y))) rows in
    Ok (listLeases rows s).

Definition CountActiveLeases (ok : bool) (projectID : string) (s : Store)
    : result prov_error Z :=
  if negb ok then Err ErrDB
  else Ok (Z.of_nat (length (List.filter (fun r => (lr_ProjectID r =? projectID) &&
    (lr_Status r =? "active")) (tbl_leases s)))).

(** [count(DISTINCT l.id)] over the join of both tables. *)
Definition CountActiveLeasesByDataSource (ok : bool) (datasourceID : string) (s : Store)
    : result prov_error Z :=
  if negb ok then Err ErrDB
  else Ok (Z.of_nat (length (List.filter (fun l => (lr_Status l =? "active") &&
    existsb (fun r => (sto_LeaseID (rr_Res r) =? lr_ID l) &&
                      (sto_DataSourceID (rr_Res r) =? datasourceID) && occupies (rr_Res r))
      (tbl_resources s)) (tbl_leases s)))).

(** [ORDER BY name] *)
Definition ListActiveResourceNames (ok : bool) (datasourceID kind : string) (s : Store)
    : result prov_error (list string) :=
  if negb ok then Err ErrDB
  else Ok (sort_strings (sto_Name <$> List.filter (fun r => (sto_DataSourceID r =? datasourceID) &&
    (sto_Kind r =? kind) && occupies r) (rr_Res <$> tbl_resources s))).

Definition ListAllActiveResources (ok : bool) (s : Store)
    : result prov_error (list StoredResource) :=
  if negb ok then Err ErrDB else Ok (listResourceRows occupies s).

(** ** The invariant of the index *)

(** No two rows that occupy a slot occupy the same one, and identifiers are unique. *)
Record store_ok (s : Store) : Prop := {
  slots_unique : NoDup (slot <$> List.filter occupies (rr_Res <$> tbl_resources s));
  resource_ids : NoDup ((fun r => sto_ID (rr_Res r)) <$> tbl_resources s);
  lease_ids : NoDup (lr_ID <$> tbl_leases s);
}.

Lemma set_status_id id status r :
  sto_ID (rr_Res (set_resource_status id status r)) = sto_ID (rr_Res r).
Proof. unfold set_resource_status. by destruct (_ =? _). Qed.

Lemma set_status_slot id status r :
  slot (rr_Res (set_resource_status id status r)) = slot (rr_Res r).
Proof. unfold set_resource_status. by destruct (_ =? _). Qed.

Lemma InsertResource_ok ok id now l d res s :
  store_ok s -> store_ok (InsertResource ok id now l d res s).1.
Proof.
  intros [Hs Hr Hl]. unfold InsertResource. cbv zeta.
  destruct (negb ok); [by split|].
  destruct (existsb _ _) eqn:E; [by split|].
  assert (forall r, r ∈ tbl_resources s -> sto_ID (rr_Res r) <> id /\
    (occupies (rr_Res r) = true -> slot (rr_Res r) <> (d, res_Kind res, res_Name res))) as Hnew.
  { intros r Hin. rewrite <-not_true_iff_false, List.existsb_exists in E.
    split.
    - intros Heq. apply E. exists r. split; [by apply list_elem_of_In|].
      by rewrite Heq, String.eqb_refl.
    - intros Ho Heq. apply E. exists r. split; [by apply list_elem_of_In|].
      rewrite Ho. simpl. rewrite bool_decide_eq_true_2; [apply orb_true_r|done]. }
  split; simpl; [|..|done].
  - rewrite !fmap_app, List.filter_app, fmap_app. simpl. apply NoDup_app. split_and!; [done| |].
    + intros x Hx Hin%list_elem_of_singleton. subst.
      apply list_elem_of_fmap in Hx as (y & Heq & Hy).
      apply list_elem_of_In, List.filter_In in Hy as [Hy Ho].
      apply list_elem_of_In, list_elem_of_fmap in Hy as (r & -> & Hr').
      destruct (Hnew r Hr') as [_ Hc]. by apply Hc.
    + apply NoDup_singleton.
  - rewrite fmap_app. apply NoDup_app. split_and!; [done| |apply NoDup_singleton].
    intros x Hx Hin%list_elem_of_singleton. subst.
    apply list_elem_of_fmap in Hx as (r & Heq & Hr'). by destruct (Hnew r Hr').
Qed.

Lemma filter_fmap_subset {A B} (f : A -> B) (p : A -> bool) (g : A -> A) (l : list A) :
  (forall x, f (g x) = f x) -> (forall x, p (g x) = true -> p x = true) ->
  NoDup (f <$> List.filter p l) -> NoDup (f <$> List.filter p (g <$> l)).
Proof.
  intros Hf Hp. induction l as [|x l IH]; [done|]. csimpl.
  assert (forall y, y ∈ f <$> List.filter p (g <$> l) -> y ∈ f <$> List.filter p l) as Hsub.
  { intros y (z & -> & Hz)%list_elem_of_fmap.
    apply list_elem_of_In, List.filter_In in Hz as [Hz Hpz].
    apply list_elem_of_In, list_elem_of_fmap in Hz as (w & -> & Hw). rewrite Hf.
    apply list_elem_of_fmap_2, list_elem_of_In, List.filter_In.
    split; [by apply list_elem_of_In|auto]. }
  destruct (p x) eqn:Ex; csimpl.
  - intros [Hx Hnd]%NoDup_cons. destruct (p (g x)); [|auto]. csimpl. rewrite Hf.
    apply NoDup_cons. split; [|auto]. intros H. by apply Hx, Hsub.
  - intros Hnd. destruct (p (g x)) eqn:Eg; [|auto]. apply Hp in Eg. congruence.
Qed.

Lemma status_ids id status (l : list ResourceRow) :
  (fun r => sto_ID (rr_Res r)) <$> (set_resource_status id status <$> l)
  = (fun r => sto_ID (rr_Res r)) <$> l.
Proof. rewrite <-list_fmap_compose. apply list_fmap_ext. intros. apply set_status_id. Qed.

Lemma MarkResourceActive_ok ok id s : store_ok s -> store_ok (MarkResourceActive ok id s).1.
Proof.
  intros [Hs Hr Hl]. unfold MarkResourceActive. cbv zeta. destruct (negb ok); [by split|].
  case_bool_decide; [|by split]. split; simpl; [done|by rewrite status_ids|done].
Qed.

Lemma MarkResourceReclaimed_ok ok id s : store_ok s -> store_ok (MarkResourceReclaimed ok id s).1.
Proof.
  intros [Hs Hr Hl]. unfold MarkResourceReclaimed. destruct ok; [|by split].
  split; simpl; [|by rewrite status_ids|done].
  assert (forall l : list ResourceRow, NoDup (slot <$> List.filter occupies (rr_Res <$> l)) ->
    NoDup (slot <$> List.filter occupies (rr_Res <$> (set_resource_status id "reclaimed" <$> l))))
    as H; [|by apply H].
  intros l Hnd.
  assert (rr_Res <$> (set_resource_status id "reclaimed" <$> l) =
    (fun x => rr_Res (set_resource_status id "reclaimed" (mkResourceRow x 0))) <$> (rr_Res <$> l)) as ->.
  { rewrite <-!list_fmap_compose. apply list_fmap_ext. intros _ r _. simpl.
    unfold set_resource_status. simpl. by destruct (_ =? _). }
  apply filter_fmap_subset; [|..|done]; intros x; unfold set_resource_status; simpl;
    by destruct (_ =? _).
Qed.

Lemma lease_rows_ok f s :
  (forall r, lr_ID (f r) = lr_ID r) -> store_ok s -> store_ok (set_leases (f <$> tbl_leases s) s).
Proof.
  intros Hf [Hs Hr Hl]. split; simpl; [done|done|].
  rewrite <-list_fmap_compose.
  rewrite (list_fmap_ext _ lr_ID); [done|]. intros _ r _. apply Hf.
Qed.

Lemma MarkLeaseReleased_ok ok id s : store_ok s -> store_ok (MarkLeaseReleased ok id s).1.
Proof.
  unfold MarkLeaseReleased. destruct ok; [|done]. apply lease_rows_ok. intros r.
  unfold set_lease_released. by destruct (_ =? _).
Qed.

Lemma UpdateLeaseExpiry_ok ok id t n s : store_ok s -> store_ok (UpdateLeaseExpiry ok id t n s).1.
Proof.
  unfold UpdateLeaseExpiry. destruct ok; [|done]. apply lease_rows_ok. intros r.
  unfold set_lease_expiry. by destruct (_ =? _).
Qed.

Lemma InsertLease_ok ok lease s : store_ok s -> store_ok (InsertLease ok lease s).1.
Proof.
  intros [Hs Hr Hl]. unfold InsertLease. destruct (_ || _) eqn:E; [by split|].
  apply orb_false_iff in E as [_ E]. split; simpl; [done|done|].
  rewrite fmap_app. apply NoDup_app. split_and!; [done| |apply NoDup_singleton].
  intros x Hx Hin%list_elem_of_singleton. subst. simpl in *.
  apply list_elem_of_fmap in Hx as (r & Heq & Hr').
  rewrite <-not_true_iff_false, List.existsb_exists in E. apply E.
  exists r. split; [by apply list_elem_of_In|]. by apply String.eqb_eq.
Qed.

#[export] Hint Resolve InsertResource_ok MarkResourceActive_ok MarkResourceReclaimed_ok
  MarkLeaseReleased_ok UpdateLeaseExpiry_ok InsertLease_ok : go.
