(* ===== verification/Lease.v ===== *)
(** * Temporary test databases: the lease manager (agent/dbprovision/lease.go)

    The manager owns no state.  Each of its operations is a [prog]: it asks the
    bindings of the project, the registry of data sources, the tables of leases, the
    approval gate, the clock and the database servers, and other operations of other
    goroutines act between two of its calls.  Logging is left out; so is [maskDSN],
    which is an argument of [DryRun]. *)
From stdpp Require Import base list strings gmap.
From Stdlib Require Import ZArith Lia.
From S2P Require Import Prelude Programs Provision.
Local Open Scope string_scope.

Definition absoluteLeaseLifetime : duration := (24 * 60 * minute)%Z.
Definition defaultQuota : Z := 3%Z.
Definition defaultTTL : duration := (30 * minute)%Z.
Definition maxSlotRetries : nat := 3.

(** ** Calls

    The methods of [BindingResolver], [RegistryReader], [LeaseStore], [ApprovalGate]
    and [Provisioner], the clock and the random sources. *)

Inductive action : Type :=
| ABinding (projectID : string)
| AGetByName (kind name : string)
| AListDataSources
| ANow
| ANewLeaseID
| ARandomSuffix
| AAuthorize (projectID : string) (plans : list Plan)
| AInsertLease (lease : Lease)
| AInsertResource (leaseID datasourceID : string) (res : Resource)
| AMarkResourceActive (resourceID : string)
| AMarkResourceReclaimed (resourceID : string)
| AMarkLeaseReleased (leaseID : string)
| AUpdateLeaseExpiry (leaseID : string) (expiresAt : time) (renewCount : Z)
| AGetLeaseWithResources (leaseID : string)
| AListLeases (projectID : string)
| AListExpiredLeases (now : time)
| ACountActiveLeases (projectID : string)
| AListActiveResourceNames (datasourceID kind : string)
| AListAllActiveResources
| APlan (ds : DataSource) (kind : string) (req : PlanRequest)
| AProvision (ds : DataSource) (plan : Plan)
| AReclaim (ds : DataSource) (res : Resource)
| AReconcile (ds : DataSource) (known : list Resource).

Abbreviation res := (result prov_error).
(** The [error] that a method returns. *)
Abbreviation err := (option prov_error).

Definition answer (a : action) : Type :=
  match a with
  | ABinding _ => res (ProjectBinding * string)
  | AGetByName _ _ => res DataSource
  | AListDataSources => res (list DataSource)
  | ANow => time
  | ANewLeaseID => string
  | ARandomSuffix => res string
  | AAuthorize _ _ | AInsertLease _ | AMarkResourceActive _ | AMarkResourceReclaimed _
  | AMarkLeaseReleased _ | AUpdateLeaseExpiry _ _ _ | AReclaim _ _ => err
  | AInsertResource _ _ _ => res string
  | AGetLeaseWithResources _ => res (Lease * list StoredResource)
  | AListLeases _ | AListExpiredLeases _ => res (list Lease)
  | ACountActiveLeases _ => res Z
  | AListActiveResourceNames _ _ => res (list string)
  | AListAllActiveResources => res (list StoredResource)
  | APlan _ _ _ => res Plan
  | AProvision _ _ => res Resource
  | AReconcile _ _ => res (list Orphan)
  end.

Abbreviation prog := (@Programs.prog action answer).
Abbreviation call := (@Programs.call action answer).
Abbreviation trace := (list (@Programs.event action answer)).

(** [if err != nil { return ..., err }] *)
Definition rbind_prog {A B} (p : prog (res A)) (k : A -> prog (res B)) : prog (res B) :=
  bind p (fun r => match r with Ok x => k x | Err e => Done (Err e) end).

Local Open Scope prog_scope.
Notation "'try!' x ':=' p 'in' k" := (rbind_prog p (fun x => k))
  (at level 10, x pattern, p at level 100, k at level 200) : prog_scope.

(** ** Planning *)

Record plannedResource : Type := mkPlanned {
  pln_kind : string;
  pln_datasource : DataSource;
  pln_plan : Plan;
}.

Record createdResource : Type := mkCreated {
  crt_stored : StoredResource;
  crt_datasource : DataSource;
  crt_resource : Resource;
}.

Definition planValues (plans : list plannedResource) : list Plan := pln_plan <$> plans.

(** The loop over the requested kinds, with the result so far ([seen] is its set). *)
Fixpoint select_requested (binding : ProjectBinding) (requested out : list string)
    : res (list string) :=
  match requested with
  | [] => match out with [] => Err ErrBindingMissing | _ => Ok out end
  | kind :: rest =>
      if bool_decide (kind ∈ out) then select_requested binding rest out
      else if ((kind =? KindPostgres) && negb (bool_decide (is_Some (bind_Postgres binding))))
              || ((kind =? KindRedis) && negb (bool_decide (is_Some (bind_Redis binding))))
      then Err ErrBindingMissing
      else if negb (kind =? KindPostgres) && negb (kind =? KindRedis)
      then Err (ErrUnsupportedKind kind)
      else select_requested binding rest (out ++ [kind])%list
  end.

Definition selectedKinds (binding : ProjectBinding) (requested : list string)
    : res (list string) :=
  match requested with
  | [] =>
      Ok ((if bind_Postgres binding is Some _ then [KindPostgres] else []) ++
          (if bind_Redis binding is Some _ then [KindRedis] else []))%list
  | _ => select_requested binding requested []
  end.

Definition bindingDataSourceName (binding : ProjectBinding) (kind : string) : res string :=
  if kind =? KindPostgres then
    match bind_Postgres binding with
    | Some b => if TrimSpace (pg_DataSourceName b) =? "" then Err ErrBindingMissing
                else Ok (pg_DataSourceName b)
    | None => Err ErrBindingMissing
    end
  else if kind =? KindRedis then
    match bind_Redis binding with
    | Some name => if TrimSpace name =? "" then Err ErrBindingMissing else Ok name
    | None => Err ErrBindingMissing
    end
  else Err (ErrUnsupportedKind kind).

(** A product of [time.Duration]s wraps around. *)
Definition wrap_duration (d : Z) : duration := ((d + 2 ^ 63) mod 2 ^ 64 - 2 ^ 63)%Z.

Definition bindingTTL (binding : ProjectBinding) : duration :=
  if (bind_DefaultTTLMinutes binding <=? 0)%Z then defaultTTL
  else wrap_duration (bind_DefaultTTLMinutes binding * minute).

Definition mergeMeta (primary fallback : gmap string string) : gmap string string :=
  primary ∪ fallback.

Definition resourceForReservation (planned : plannedResource) : Resource :=
  mkResource (pln_kind planned) (pl_ResourceName (pln_plan planned)) ""
    (mergeMeta (pl_Detail (pln_plan planned))
               {["datasource_name" := ds_Name (pln_datasource planned)]}).

(** [NewResourceName]: the random source can fail. *)
Definition new_name (projectName : string) : prog (res string) :=
  try! random := call ARandomSuffix in
  Done (Ok (NewResourceName projectName random)).

Definition planResource (projectID : string) (binding : ProjectBinding) (kind nameSeed : string)
    : prog (res plannedResource) :=
  try! datasourceName := Done (bindingDataSourceName binding kind) in
  try! ds := call (AGetByName kind datasourceName) in
  if negb (LookupProvisioner kind) then Done (Err (ErrUnsupportedKind kind))
  else
    try! taken := call (AListActiveResourceNames (ds_ID ds) kind) in
    try! plan := call (APlan ds kind (mkPlanRequest projectID nameSeed binding taken)) in
    Done (Ok (mkPlanned kind ds plan)).

(** The loop over the kinds: the plans made, and the error that ended it, if any. *)
Fixpoint plan_all (projectID : string) (binding : ProjectBinding) (nameSeed : string)
    (kinds : list string) (plans : list plannedResource)
    : prog (list plannedResource * err) :=
  match kinds with
  | [] => Done (plans, None)
  | kind :: rest =>
      let! r := planResource projectID binding kind nameSeed in
      match r with
      | Err e => Done (plans, Some e)
      | Ok planned => plan_all projectID binding nameSeed rest (plans ++ [planned])%list
      end
  end.

(** ** Acquire *)

(** The loop over the attempts to register one resource; [left] attempts remain after
    this one.  The result is the row, the plan it was registered with and the
    registered resource. *)
Fixpoint reserve (leaseID projectID projectName nameSeed : string) (binding : ProjectBinding)
    (left : nat) (planned : plannedResource)
    : prog (res (string * plannedResource * Resource)) :=
  let stored := resourceForReservation planned in
  let! r := call (AInsertResource leaseID (ds_ID (pln_datasource planned)) stored) in
  match r with
  | Ok storedID => Done (Ok (storedID, planned, stored))
  | Err ErrResourceSlotTaken =>
      match left with
      | O => Done (Err ErrResourceSlotTaken)
      | S left' =>
          try! seed := (if pln_kind planned =? KindPostgres then new_name projectName
                    else Done (Ok nameSeed)) in
          try! planned := planResource projectID binding (pln_kind planned) seed in
          reserve leaseID projectID projectName nameSeed binding left' planned
      end
  | Err e => Done (Err e)
  end.

(** [resource.Meta = mergeMeta(resource.Meta, stored.Meta)] *)
Definition add_meta (meta : gmap string string) (r : Resource) : Resource :=
  mkResource (res_Kind r) (res_Name r) (res_DSN r) (mergeMeta (res_Meta r) meta).

(** The loop over the plans: what was created, and the first error. *)
Fixpoint provision_all (leaseID projectID projectName nameSeed : string)
    (binding : ProjectBinding) (plans : list plannedResource) (created : list createdResource)
    : prog (list createdResource * err) :=
  match plans with
  | [] => Done (created, None)
  | planned :: rest =>
      let! r := reserve leaseID projectID projectName nameSeed binding (maxSlotRetries - 1) planned in
      match r with
      | Err e => Done (created, Some e)
      | Ok (storedID, planned, stored) =>
          let ds := pln_datasource planned in
          let! p := call (AProvision ds (pln_plan planned)) in
          match p with
          | Err e =>
              let! _ := call (AMarkResourceReclaimed storedID) in
              Done (created, Some e)
          | Ok resource =>
              let resource := add_meta (res_Meta stored) resource in
              let! m := call (AMarkResourceActive storedID) in
              match m with
              | Some e =>
                  let! _ := call (AReclaim ds resource) in
                  let! _ := call (AMarkResourceReclaimed storedID) in
                  Done (created, Some e)
              | None =>
                  let item :=
                    {| crt_stored := mkStored storedID leaseID (ds_ID ds) (pln_kind planned)
                         (res_Name resource) (res_Meta resource) "active";
                       crt_datasource := ds; crt_resource := resource |} in
                  provision_all leaseID projectID projectName nameSeed binding rest
                    (created ++ [item])%list
              end
          end
      end
  end.

Fixpoint rollbackCreated (created : list createdResource) : prog unit :=
  match created with
  | [] => Done tt
  | item :: rest =>
      let! _ := call (AReclaim (crt_datasource item) (crt_resource item)) in
      let! _ := call (AMarkResourceReclaimed (sto_ID (crt_stored item))) in
      rollbackCreated rest
  end.

(** The details of [ErrQuotaExceeded]: name, kind and expiry of what exists. *)
Definition quota_details (existing : list Lease) : list (string * string * time) :=
  lease ← existing; (fun r => (res_Name r, res_Kind r, lse_ExpiresAt lease)) <$> lse_Resources lease.

(** The part of [Acquire] after the quota check and the approval: the lease and its
    resources, or the rollback ([fail]). *)
Definition acquire_resources (lease : Lease) (projectName nameSeed : string)
    (binding : ProjectBinding) (plans : list plannedResource) : prog (res Lease) :=
  let! i := call (AInsertLease lease) in
  match i with
  | Some e => Done (Err e)
  | None =>
      let! o := provision_all (lse_ID lease) (lse_ProjectID lease) projectName nameSeed binding plans [] in
      match o with
      | (created, Some cause) =>
          let! _ := rollbackCreated created in
          let! _ := call (AMarkLeaseReleased (lse_ID lease)) in
          Done (Err cause)
      | (created, None) =>
          Done (Ok (mkLease (lse_ID lease) (lse_ProjectID lease) (lse_Purpose lease)
                      (crt_resource <$> created) (lse_CreatedAt lease) (lse_ExpiresAt lease)
                      (lse_RenewCount lease)))
      end
  end.

(** [gate] says whether [m.approvalGate] is set. *)
Definition Acquire (gate : bool) (req : AcquireRequest) : prog (res Lease) :=
  if TrimSpace (acq_ProjectID req) =? "" then Done (Err (ErrText "project_id 不能为空"))
  else if TrimSpace (acq_Purpose req) =? "" then Done (Err (ErrText "purpose 不能为空"))
  else
    try! (binding, projectName) := call (ABinding (acq_ProjectID req)) in
    if negb (bool_decide (is_Some (bind_Postgres binding)))
       && negb (bool_decide (is_Some (bind_Redis binding)))
    then Done (Err ErrBindingMissing)
    else
    try! kinds := Done (selectedKinds binding (acq_Kinds req)) in
    let limit := if (bind_MaxConcurrentLeases binding <=? 0)%Z then defaultQuota
                 else bind_MaxConcurrentLeases binding in
    try! active := call (ACountActiveLeases (acq_ProjectID req)) in
    if (limit <=? active)%Z then
      try! existing := call (AListLeases (acq_ProjectID req)) in
      Done (Err (ErrQuotaExceeded active limit (quota_details existing)))
    else
    let ttl := if (acq_TTL req =? 0)%Z then bindingTTL binding else acq_TTL req in
    if (ttl <=? 0)%Z then Done (Err (ErrText "TTL 必须为正数"))
    else
    let! now := call ANow in
    let! leaseID := call ANewLeaseID in
    try! nameSeed := new_name projectName in
    let! planned := plan_all (acq_ProjectID req) binding nameSeed kinds [] in
    match planned with
    | (_, Some e) => Done (Err e)
    | (plans, None) =>
        let! a := (if gate then call (AAuthorize (acq_ProjectID req) (planValues plans))
               else Done None) in
        match a with
        | Some e => Done (Err e)
        | None =>
            let lease := mkLease leaseID (acq_ProjectID req) (acq_Purpose req) [] now
                           (time_add now ttl) 0 in
            acquire_resources lease projectName nameSeed binding plans
        end
    end.

(** ** Renew and Release *)

Definition Renew (leaseID : string) (ttl : duration) : prog (res Lease) :=
  try! (lease, _) := call (AGetLeaseWithResources leaseID) in
  let! now := call ANow in
  if (absoluteLeaseLifetime <? time_sub now (lse_CreatedAt lease))%Z
  then Done (Err ErrLeaseLifetimeExceeded)
  else
    try! (binding, _) := call (ABinding (lse_ProjectID lease)) in
    let limit := bindingTTL binding in
    let ttl := if (ttl =? 0)%Z || (limit <? ttl)%Z then limit else ttl in
    if (ttl <=? 0)%Z then Done (Err (ErrText "TTL 必须为正数"))
    else
      let expiresAt := time_add now ttl in
      let renewCount := (lse_RenewCount lease + 1)%Z in
      let! u := call (AUpdateLeaseExpiry leaseID expiresAt renewCount) in
      match u with
      | Some e => Done (Err e)
      | None =>
          Done (Ok (mkLease (lse_ID lease) (lse_ProjectID lease) (lse_Purpose lease)
                      (lse_Resources lease) (lse_CreatedAt lease) expiresAt renewCount))
      end.

Definition ErrNoDataSourceName (name : string) : prov_error :=
  ErrText ("资源 " +:+ name +:+ " 缺少 datasource_name 元数据").

Definition datasourceFor (stored : StoredResource) : prog (res DataSource) :=
  let name := default "" (sto_Meta stored !! "datasource_name") in
  if name =? "" then Done (Err (ErrNoDataSourceName (sto_Name stored)))
  else call (AGetByName (sto_Kind stored) name).

Definition of_err (e : err) : list prov_error := match e with Some e => [e] | None => [] end.

(** The loop over the resources; the result is the list of errors. *)
Fixpoint release_all (resources : list StoredResource) (errs : list prov_error)
    : prog (list prov_error) :=
  match resources with
  | [] => Done errs
  | stored :: rest =>
      if sto_Status stored =? "reclaimed" then release_all rest errs
      else
        let! ds := datasourceFor stored in
        match ds with
        | Err e => release_all rest (errs ++ [e])%list
        | Ok ds =>
            if negb (LookupProvisioner (sto_Kind stored))
            then release_all rest (errs ++ [ErrUnsupportedKind (sto_Kind stored)])%list
            else
              let resource := mkResource (sto_Kind stored) (sto_Name stored) "" (sto_Meta stored) in
              let! e := call (AReclaim ds resource) in
              let! m := call (AMarkResourceReclaimed (sto_ID stored)) in
              release_all rest (errs ++ of_err e ++ of_err m)%list
        end
  end.

(** [errors.Join] of no error is nil: the result is the list of joined errors. *)
Definition Release (leaseID : string) : prog (list prov_error) :=
  let! r := call (AGetLeaseWithResources leaseID) in
  match r with
  | Err ErrLeaseNotFound => Done []
  | Err e => Done [e]
  | Ok (lease, resources) =>
      let! errs := release_all resources [] in
      let! m := call (AMarkLeaseReleased leaseID) in
      Done (errs ++ of_err m)%list
  end.

(** [Manager.List] *)
Definition list_leases (projectID : string) : prog (res (list Lease)) :=
  try! leases := call (AListLeases projectID) in
  Done (Ok ((fun l => mkLease (lse_ID l) (lse_ProjectID l) (lse_Purpose l)
    (WithoutSecret <$> lse_Resources l) (lse_CreatedAt l) (lse_ExpiresAt l) (lse_RenewCount l))
    <$> leases)).

(** ** DryRun *)

(** [dr_Error] is the error whose text the field holds. *)
Record DryRunResult : Type := mkDryRun {
  dr_Plans : list Plan;
  dr_MaskedDSNs : list string;
  dr_Succeeded : bool;
  dr_Error : err;
}.

Fixpoint dry_provision (maskDSN : string -> string) (plans : list plannedResource)
    (created : list createdResource) (dsns : list string)
    : prog (list createdResource * list string * err) :=
  match plans with
  | [] => Done (created, dsns, None)
  | planned :: rest =>
      let ds := pln_datasource planned in
      let! p := call (AProvision ds (pln_plan planned)) in
      match p with
      | Err e => Done (created, dsns, Some e)
      | Ok resource =>
          let resource := add_meta {["datasource_name" := ds_Name ds]} resource in
          let item := mkCreated (mkStored "" "" "" "" "" ∅ "") ds resource in
          dry_provision maskDSN rest (created ++ [item])%list (dsns ++ [maskDSN (res_DSN resource)])%list
      end
  end.

(** The deferred loop: it keeps the first error of the result. *)
Fixpoint dry_reclaim (created : list createdResource) (result : DryRunResult)
    : prog DryRunResult :=
  match created with
  | [] => Done result
  | item :: rest =>
      let! e := call (AReclaim (crt_datasource item) (crt_resource item)) in
      dry_reclaim rest
        (match e with
         | None => result
         | Some e => mkDryRun (dr_Plans result) (dr_MaskedDSNs result) false
                       (match dr_Error result with Some e' => Some e' | None => Some e end)
         end)
  end.

Definition dry_failed (e : prov_error) : DryRunResult * err := (mkDryRun [] [] false (Some e), Some e).

Definition DryRun (maskDSN : string -> string) (projectID : string)
    : prog (DryRunResult * err) :=
  let! b := call (ABinding projectID) in
  match b with
  | Err e => Done (dry_failed e)
  | Ok (binding, projectName) =>
  match selectedKinds binding [] with
  | Err e => Done (dry_failed e)
  | Ok kinds =>
  let! n := new_name projectName in
  match n with
  | Err e => Done (dry_failed e)
  | Ok nameSeed =>
  let! planned := plan_all projectID binding nameSeed kinds [] in
  match planned with
  | (plans, Some e) => Done (mkDryRun (planValues plans) [] false (Some e), Some e)
  | (plans, None) =>
      let! o := dry_provision maskDSN plans [] [] in
      let '(created, dsns, e) := o in
      let! result := dry_reclaim created
        (mkDryRun (planValues plans) dsns (match e with None => true | Some _ => false end) e) in
      Done (result, e)
  end end end end.

(** ** Reconcile *)

Inductive report_error : Type :=
| RLease (leaseID : string) (errs : list prov_error)
| RSource (e : prov_error)
| RUnsupported (kind : string)
| ROrphan (name : string) (e : prov_error).

Record ReconcileReport : Type := mkReport {
  rep_ExpiredReclaimed : Z;
  rep_OrphansReclaimed : list Orphan;
  rep_Errors : list report_error;
}.

Definition add_error (e : report_error) (r : ReconcileReport) : ReconcileReport :=
  mkReport (rep_ExpiredReclaimed r) (rep_OrphansReclaimed r) (rep_Errors r ++ [e])%list.

Fixpoint release_expired (expired : list Lease) (report : ReconcileReport)
    : prog ReconcileReport :=
  match expired with
  | [] => Done report
  | lease :: rest =>
      let! errs := Release (lse_ID lease) in
      release_expired rest
        (match errs with
         | [] => mkReport (rep_ExpiredReclaimed report + 1) (rep_OrphansReclaimed report)
                   (rep_Errors report)
         | _ => add_error (RLease (lse_ID lease) errs) report
         end)
  end.

Fixpoint reclaim_orphans (ds : DataSource) (orphans : list Orphan) (report : ReconcileReport)
    : prog ReconcileReport :=
  match orphans with
  | [] => Done report
  | orphan :: rest =>
      let! e := call (AReclaim ds (mkResource (orph_Kind orphan) (orph_Name orphan) "" ∅)) in
      reclaim_orphans ds rest
        (match e with
         | Some e => add_error (ROrphan (orph_Name orphan) e) report
         | None => mkReport (rep_ExpiredReclaimed report)
                     (rep_OrphansReclaimed report ++ [orphan])%list (rep_Errors report)
         end)
  end.

(** The registered resources of a data source. *)
Definition known_of (ds : DataSource) (active : list StoredResource) : list Resource :=
  (fun r => mkResource (sto_Kind r) (sto_Name r) "" (sto_Meta r)) <$>
  List.filter (fun r => (sto_DataSourceID r =? ds_ID ds) && (sto_Kind r =? ds_Kind ds) &&
                        negb (sto_Status r =? "reclaimed")) active.

Fixpoint reconcile_sources (sources : list DataSource) (active : list StoredResource)
    (report : ReconcileReport) : prog ReconcileReport :=
  match sources with
  | [] => Done report
  | ds :: rest =>
      if negb (LookupProvisioner (ds_Kind ds))
      then reconcile_sources rest active (add_error (RUnsupported (ds_Kind ds)) report)
      else
        let! o := call (AReconcile ds (known_of ds active)) in
        match o with
        | Err e => reconcile_sources rest active (add_error (RSource e) report)
        | Ok orphans =>
            let! report := reclaim_orphans ds orphans report in
            reconcile_sources rest active report
        end
  end.

(** [sources] says whether [m.listSources] is set. *)
Definition Reconcile (sources : bool) : prog (res ReconcileReport) :=
  let! now := call ANow in
  try! expired := call (AListExpiredLeases now) in
  let! report := release_expired expired (mkReport 0 [] []) in
  if negb sources then Done (Ok report)
  else
    let! s := call AListDataSources in
    match s with
    | Err e => Done (Ok (add_error (RSource e) report))
    | Ok sources =>
        let! a := call AListAllActiveResources in
        match a with
        | Err e => Done (Ok (add_error (RSource e) report))
        | Ok active =>
            let! report := reconcile_sources sources active report in
            Done (Ok report)
        end
    end.
