(* ===== verification/LeaseTheorems.v ===== *)
(** * Temporary test databases: what the lease manager guarantees

    The first part proves properties of the traces of the manager, for every
    sequence of answers and hence whatever else happens between its calls.  The
    second part runs several operations, call by call, on a concrete system. *)
From stdpp Require Import base strings gmap gmultiset list.
From Stdlib Require Import ZArith Lia.
From S2P Require Import Prelude Programs Provision LeaseStore Lease.
Local Open Scope string_scope.

(** ** Reading a trace *)

Abbreviation event := (@Programs.event action answer).
Abbreviation resource_key := (string * string)%type.

(** What a trace has brought about and what it could not take back.  An entry leaves
    [outstanding], [registered] or [open_leases] only when the call that takes it back succeeds;
    when that call is refused, the other ledger of the pair notes it. *)
Record books : Type := mkBooks {
  outstanding : gmultiset resource_key;  (** created and not reclaimed: data source and name *)
  unreclaimed : gmultiset resource_key;  (** a reclaim that was refused *)
  registered : gmultiset string;         (** rows that were inserted and not given back *)
  unmarked : gmultiset string;           (** rows whose giving back was refused *)
  open_leases : gmultiset string;        (** leases that were inserted and not released *)
  unreleased : gmultiset string;         (** leases whose release was refused *)
}.

Definition resource_entry (ds : DataSource) (r : Resource) : resource_key := (ds_ID ds, res_Name r).

Definition book_step (b : books) (e : event) : books :=
  match e with
  | Ev a x =>
      let 'mkBooks out kept reg unm opn unr := b in
      match a return answer a -> books with
      | AProvision ds _ => fun x =>
          match x with
          | Ok r => mkBooks (out ⊎ {[+ resource_entry ds r +]}) kept reg unm opn unr
          | Err _ => b
          end
      | AReclaim ds r => fun x =>
          match x with
          | None => mkBooks (out ∖ {[+ resource_entry ds r +]}) kept reg unm opn unr
          | Some _ => mkBooks out (kept ⊎ {[+ resource_entry ds r +]}) reg unm opn unr
          end
      | AInsertResource _ _ _ => fun x =>
          match x with Ok id => mkBooks out kept (reg ⊎ {[+ id +]}) unm opn unr | Err _ => b end
      | AMarkResourceReclaimed id => fun x =>
          match x with
          | None => mkBooks out kept (reg ∖ {[+ id +]}) unm opn unr
          | Some _ => mkBooks out kept reg (unm ⊎ {[+ id +]}) opn unr
          end
      | AInsertLease lease => fun x =>
          match x with
          | None => mkBooks out kept reg unm (opn ⊎ {[+ lse_ID lease +]}) unr
          | Some _ => b
          end
      | AMarkLeaseReleased id => fun x =>
          match x with
          | None => mkBooks out kept reg unm (opn ∖ {[+ id +]}) unr
          | Some _ => mkBooks out kept reg unm opn (unr ⊎ {[+ id +]})
          end
      | _ => fun _ => b
      end x
  end.

Definition no_books : books := mkBooks ∅ ∅ ∅ ∅ ∅ ∅.
Definition books_of (tr : trace) : books := fold_left book_step tr no_books.

Lemma books_snoc tr e : books_of (tr ++ [e])%list = book_step (books_of tr) e.
Proof. unfold books_of. by rewrite fold_left_app. Qed.

(** Calls that change nothing outside. *)
Definition is_quiet (a : action) : bool :=
  match a with
  | AInsertLease _ | AInsertResource _ _ _ | AMarkResourceActive _ | AMarkResourceReclaimed _
  | AMarkLeaseReleased _ | AUpdateLeaseExpiry _ _ _ | AProvision _ _ | AReclaim _ _ => false
  | _ => true
  end.
Definition quiet (e : event) : Prop := match e with Ev a _ => is_quiet a = true end.

Lemma quiet_books t tr : Forall quiet t -> books_of (tr ++ t)%list = books_of tr.
Proof.
  intros H. revert tr. induction H as [|[a x] t Ha _ IH]; intros tr; [by rewrite app_nil_r|].
  rewrite cons_middle, app_assoc, IH, books_snoc. by destruct (books_of tr), a.
Qed.

(** ** Planning is quiet *)

(** Whatever the answers, the program only makes quiet calls, and its result satisfies [R]. *)
Definition quietly {A} (p : prog A) (R : A -> Prop) : Prop :=
  forall tr, wp p tr (fun x tr' => exists t, tr' = (tr ++ t)%list /\ Forall quiet t /\ R x).

Lemma quietly_done {A} (x : A) (R : A -> Prop) : R x -> quietly (Done x) R.
Proof. intros H tr. exists []. by rewrite app_nil_r. Qed.

Lemma quietly_call a (R : answer a -> Prop) :
  is_quiet a = true -> (forall x, R x) -> quietly (call a) R.
Proof. intros Ha HR tr x. exists [Ev a x]. split_and!; [done|by repeat constructor|done]. Qed.

Lemma quietly_bind {A B} (p : prog A) (f : A -> prog B) R R' :
  quietly p R -> (forall x, R x -> quietly (f x) R') -> quietly (bind p f) R'.
Proof.
  intros Hp Hf tr. apply wp_bind. eapply wp_mono; [|apply Hp].
  intros x tr' (t & -> & Ht & Hx). eapply wp_mono; [|by apply Hf].
  intros y tr' (t' & -> & Ht' & Hy). exists (t ++ t')%list.
  split_and!; [by rewrite app_assoc|by apply Forall_app_2|done].
Qed.

Lemma quietly_rbind {A B} (p : prog (res A)) (k : A -> prog (res B)) R R' :
  quietly p (fun r => match r with Ok x => R x | Err _ => True end) ->
  (forall x, R x -> quietly (k x) (fun r => match r with Ok y => R' y | Err _ => True end)) ->
  quietly (rbind_prog p k) (fun r => match r with Ok y => R' y | Err _ => True end).
Proof.
  intros Hp Hk. unfold rbind_prog. eapply quietly_bind; [exact Hp|].
  intros [x|e] Hx; [by apply Hk|by apply quietly_done].
Qed.

Lemma new_name_quiet name : quietly (new_name name) (fun _ => True).
Proof.
  unfold new_name, rbind_prog. eapply quietly_bind; [by apply (quietly_call _ (fun _ => True))|].
  intros [r|e] _; by apply quietly_done.
Qed.

Lemma planResource_quiet pid b kind seed :
  quietly (planResource pid b kind seed)
    (fun r => match r with Ok pl => pln_kind pl = kind | Err _ => True end).
Proof.
  unfold planResource.
  apply (quietly_rbind _ _ (fun _ => True)); [apply quietly_done; by destruct (bindingDataSourceName _ _)|].
  intros name _. apply (quietly_rbind _ _ (fun _ => True)); [by apply quietly_call; [|intros []]|].
  intros ds _. destruct (negb _); [by apply quietly_done|].
  apply (quietly_rbind _ _ (fun _ => True)); [by apply quietly_call; [|intros []]|].
  intros taken _. apply (quietly_rbind _ _ (fun _ => True)); [by apply quietly_call; [|intros []]|].
  intros plan _. by apply quietly_done.
Qed.

Lemma plan_all_quiet pid b seed kinds plans :
  quietly (plan_all pid b seed kinds plans) (fun _ => True).
Proof.
  revert plans. induction kinds as [|kind kinds IH]; intros plans; simpl; [by apply quietly_done|].
  eapply quietly_bind; [apply planResource_quiet|]. intros [pl|e] _; [apply IH|by apply quietly_done].
Qed.

(** ** What may happen when *)

Definition lease_quota (binding : ProjectBinding) : Z :=
  if (bind_MaxConcurrentLeases binding <=? 0)%Z then defaultQuota
  else bind_MaxConcurrentLeases binding.

(** The gate let a set of plans pass that contains this one. *)
Definition authorized (before : trace) (plan : Plan) : Prop :=
  exists pid plans, Ev (AAuthorize pid plans) (None : err) ∈ before /\ plan ∈ plans.

(** A registration failed because the slot was taken. *)
Definition conflicted (before : trace) : Prop :=
  exists lid d r, Ev (AInsertResource lid d r) (Err ErrResourceSlotTaken : res string) ∈ before.

(** The condition on a call, given the calls before it. *)
Definition good (gate : bool) (before : trace) (e : event) : Prop :=
  match e with
  | Ev a _ =>
      match a with
      | AInsertLease lease =>
          (gate = true -> exists plans,
             Ev (AAuthorize (lse_ProjectID lease) plans) (None : err) ∈ before) /\
          (exists binding name n,
             Ev (ABinding (lse_ProjectID lease)) (Ok (binding, name) : res _) ∈ before /\
             Ev (ACountActiveLeases (lse_ProjectID lease)) (Ok n : res Z) ∈ before /\
             (n < lease_quota binding)%Z)
      | AInsertResource lid _ _ =>
          exists lease, lse_ID lease = lid /\ Ev (AInsertLease lease) (None : err) ∈ before
      | AProvision ds plan =>
          (exists earlier lid r id,
             before = (earlier ++ [Ev (AInsertResource lid (ds_ID ds) r) (Ok id : res string)])%list /\
             res_Name r = pl_ResourceName plan) /\
          (gate = true -> authorized before plan \/ conflicted before)
      | _ => True
      end
  end.

Lemma safe_quiet gate tr t :
  safe (good gate) tr -> Forall quiet t -> safe (good gate) (tr ++ t)%list.
Proof.
  intros Hs Ht. revert tr Hs. induction Ht as [|[a x] t Ha _ IH]; intros tr Hs.
  { by rewrite app_nil_r. }
  rewrite cons_middle, app_assoc. apply IH, safe_snoc. split; [done|]. by destruct a.
Qed.

Lemma authorized_mono tr t plan : authorized tr plan -> authorized (tr ++ t)%list plan.
Proof.
  intros (pid & plans & H & ?). exists pid, plans. split; [|done]. rewrite elem_of_app. by left.
Qed.

Lemma conflicted_mono tr t : conflicted tr -> conflicted (tr ++ t)%list.
Proof. intros (l & d & r & H). exists l, d, r. rewrite elem_of_app. by left. Qed.

(** The plan may be provisioned as far as the gate is concerned. *)
Definition permitted (gate : bool) (tr : trace) (plan : Plan) : Prop :=
  gate = true -> authorized tr plan \/ conflicted tr.

Lemma permitted_mono gate tr t plan : permitted gate tr plan -> permitted gate (tr ++ t)%list plan.
Proof.
  intros H Hg. destruct (H Hg); [left; by apply authorized_mono|right; by apply conflicted_mono].
Qed.

Create HintDb lease.
#[local] Hint Resolve authorized_mono conflicted_mono permitted_mono safe_quiet : lease.

(** ** What was created and has to be taken back *)

Definition created_keys (l : list createdResource) : gmultiset resource_key :=
  list_to_set_disj ((fun c => resource_entry (crt_datasource c) (crt_resource c)) <$> l).
Definition created_rows (l : list createdResource) : gmultiset string :=
  list_to_set_disj ((fun c => sto_ID (crt_stored c)) <$> l).

Lemma take_back `{Countable A} (m n k : gmultiset A) (x : A) :
  m = ({[+ x +]} ⊎ n) ⊎ k -> m ∖ {[+ x +]} = n ⊎ k.
Proof. intros ->. multiset_solver. Qed.
Lemma owe_more `{Countable A} (m n k : gmultiset A) (x : A) :
  m = ({[+ x +]} ⊎ n) ⊎ k -> m = n ⊎ (k ⊎ {[+ x +]}).
Proof. intros ->. multiset_solver. Qed.
Lemma one_more `{Countable A} (m n k : gmultiset A) (x : A) :
  m = n ⊎ k -> m ⊎ {[+ x +]} = ({[+ x +]} ⊎ n) ⊎ k.
Proof. intros ->. multiset_solver. Qed.

(** Beyond these resources and their rows, only what was refused is left. *)
Definition owes (created : list createdResource) (b : books) : Prop :=
  outstanding b = created_keys created ⊎ unreclaimed b /\
  registered b = created_rows created ⊎ unmarked b.

Definition same_leases (b b' : books) : Prop :=
  open_leases b' = open_leases b /\ unreleased b' = unreleased b.
Definition same_refusals (b b' : books) : Prop :=
  unreclaimed b' = unreclaimed b /\ unmarked b' = unmarked b.

#[local] Instance same_leases_pre : PreOrder same_leases.
Proof. unfold same_leases. split; [done|]. intros b1 b2 b3 [] []. split; congruence. Qed.
#[local] Instance same_refusals_pre : PreOrder same_refusals.
Proof. unfold same_refusals. split; [done|]. intros b1 b2 b3 [] []. split; congruence. Qed.

Lemma owes_snoc created c b : owes (created ++ [c]) b <-> owes (c :: created) b.
Proof.
  unfold owes, created_keys, created_rows. rewrite !fmap_app, !list_to_set_disj_app. simpl.
  rewrite !(right_id_L ∅ (⊎)), !(comm_L (⊎) (list_to_set_disj _)). done.
Qed.

(** A resource and its row are taken back, or refused. *)
Lemma owes_back c created tr x y :
  owes (c :: created) (books_of tr) ->
  owes created (books_of ((tr ++ [Ev (AReclaim (crt_datasource c) (crt_resource c)) x]) ++
    [Ev (AMarkResourceReclaimed (sto_ID (crt_stored c))) y])%list).
Proof.
  intros [Ho Hr]. rewrite !books_snoc. unfold owes, created_keys, created_rows in *. simpl in *.
  destruct (books_of tr), x, y; simpl in *; split;
    first [by apply take_back|by apply owe_more].
Qed.

(** A row of the lease was inserted for the name of a plan and its data source, the server then
    created the resource of this plan, and the row was set active. *)
Definition delivered (leaseID : string) (tr : trace) (c : createdResource) : Prop :=
  exists earlier later stored plan resource,
    tr = (earlier ++ Ev (AMarkResourceActive (sto_ID (crt_stored c))) (None : err) :: later)%list /\
    Ev (AInsertResource leaseID (ds_ID (crt_datasource c)) stored)
      (Ok (sto_ID (crt_stored c)) : res string) ∈ earlier /\
    res_Name stored = pl_ResourceName plan /\
    Ev (AProvision (crt_datasource c) plan) (Ok resource : res Resource) ∈ earlier /\
    crt_resource c = add_meta (res_Meta stored) resource.

Lemma delivered_mono leaseID tr t c : delivered leaseID tr c -> delivered leaseID (tr ++ t)%list c.
Proof.
  intros (before & after & st & plan & r & -> & ? & ? & ? & ?).
  exists before, (after ++ t)%list, st, plan, r. split_and!; [by rewrite <-app_assoc|done..].
Qed.

Record accounted (leaseID : string) (created : list createdResource) (tr : trace) : Prop := {
  acc_owes : owes created (books_of tr);
  acc_delivered : Forall (delivered leaseID tr) created;
}.

Lemma accounted_ext leaseID created tr tr' :
  accounted leaseID created tr -> tr `prefix_of` tr' -> owes created (books_of tr') ->
  accounted leaseID created tr'.
Proof.
  intros [_ Ha] [t ->] Ho. split; [done|]. eapply Forall_impl; [exact Ha|].
  intros c. apply delivered_mono.
Qed.

(** The books after a row was inserted. *)
Definition with_row (id : string) (b : books) : books :=
  mkBooks (outstanding b) (unreclaimed b) (registered b ⊎ {[+ id +]}) (unmarked b) (open_leases b)
    (unreleased b).

Section Acquire.
Context (gate : bool) (lease : Lease) (pid pname seed : string) (binding : ProjectBinding).

(** The lease is registered. *)
Definition lease_inserted (tr : trace) : Prop := Ev (AInsertLease lease) (None : err) ∈ tr.

Lemma lease_inserted_mono tr t : lease_inserted tr -> lease_inserted (tr ++ t)%list.
Proof. intros H. unfold lease_inserted. rewrite elem_of_app. by left. Qed.

Hint Resolve lease_inserted_mono : lease.

Lemma reserve_spec left planned tr :
  safe (good gate) tr -> lease_inserted tr -> permitted gate tr (pln_plan planned) ->
  wp (reserve (lse_ID lease) pid pname seed binding left planned) tr (fun r tr' =>
    safe (good gate) tr' /\ (exists t, tr' = (tr ++ t)%list) /\
    match r with
    | Ok (sid, planned', stored) =>
        books_of tr' = with_row sid (books_of tr) /\ permitted gate tr' (pln_plan planned') /\
        stored = resourceForReservation planned' /\
        exists earlier, tr' = (earlier ++ [Ev (AInsertResource (lse_ID lease)
          (ds_ID (pln_datasource planned')) stored) (Ok sid : res string)])%list
    | Err _ => books_of tr' = books_of tr
    end).
Proof.
  revert planned tr. induction left as [|left IH]; intros planned tr Hs Hl Hp;
    cbn [reserve]; apply wp_bind; intros x; cbn [wp];
    set (e := Ev (AInsertResource _ _ _) x);
    (assert (safe (good gate) (tr ++ [e])%list) as Hs' by (apply safe_snoc; split; [done|by exists lease]));
    (assert (books_of (tr ++ [e])%list =
       match x with Ok id => with_row id (books_of tr) | Err _ => books_of tr end) as Hr
      by (rewrite books_snoc; by destruct (books_of tr), x));
    (destruct x as [sid|[]]; [split_and!; eauto with lease|..]);
    try (split_and!; eauto; done).
  (* the slot is taken and attempts are left *)
  set (replan := (if pln_kind planned =? KindPostgres then new_name pname else Done (Ok seed))).
  assert (quietly replan (fun r => match r with Ok _ => True | Err _ => True end)) as Hq.
  { unfold replan. destruct (_ =? _); [|by apply quietly_done].
    intros tr0. eapply wp_mono; [|apply new_name_quiet]. intros [|] ? (t & ? & ? & ?); by exists t. }
  assert (conflicted (tr ++ [e])%list) as Hc.
  { exists (lse_ID lease), (ds_ID (pln_datasource planned)), (resourceForReservation planned).
    rewrite elem_of_app. right. apply list_elem_of_singleton. reflexivity. }
  unfold rbind_prog. apply wp_bind. eapply wp_mono; [|apply Hq].
  intros s tr1 (t1 & -> & Ht1 & _). pose proof (quiet_books t1 (tr ++ [e])%list Ht1) as Hr1.
  destruct s as [s|er].
  2: { cbn [wp]. split_and!; [by apply safe_quiet| |by rewrite Hr1].
       eexists. by rewrite <-app_assoc. }
  apply wp_bind. eapply wp_mono; [|apply (planResource_quiet pid binding (pln_kind planned) s)].
  intros p tr2 (t2 & -> & Ht2 & _).
  pose proof (quiet_books t2 ((tr ++ [e]) ++ t1)%list Ht2) as Hr2.
  destruct p as [planned'|er].
  2: { cbn [wp]. split_and!; [(apply safe_quiet; [by apply safe_quiet|done])| |by rewrite Hr2, Hr1].
       eexists. by rewrite <-!app_assoc. }
  eapply wp_mono; [|apply IH].
  - intros r tr' (? & [t ->] & Hm). split_and!; [done|eexists; by rewrite <-!app_assoc|].
    rewrite Hr2, Hr1, Hr in Hm. by destruct r as [[[]]|].
  - apply safe_quiet; [by apply safe_quiet|done].
  - by repeat apply lease_inserted_mono.
  - intros _. right. by apply conflicted_mono, conflicted_mono.
Qed.

Lemma provision_all_spec plans created tr :
  safe (good gate) tr -> lease_inserted tr ->
  Forall (fun p => permitted gate tr (pln_plan p)) plans -> accounted (lse_ID lease) created tr ->
  wp (provision_all (lse_ID lease) pid pname seed binding plans created) tr (fun r tr' =>
    safe (good gate) tr' /\ tr `prefix_of` tr' /\ same_leases (books_of tr) (books_of tr') /\
    accounted (lse_ID lease) r.1 tr' /\
    (r.2 = None -> length r.1 = length created + length plans /\
       same_refusals (books_of tr) (books_of tr'))).
Proof.
  revert created tr. induction plans as [|planned plans IH]; intros created tr Hs Hl Hp Hacc.
  { cbn. split_and!; [done..|intros _; split_and!; [lia|done..]]. }
  apply Forall_cons in Hp as [Hp Hps]. cbn [provision_all]. apply wp_bind.
  eapply wp_mono; [|by apply reserve_spec]. cbv beta.
  intros r tr1 (Hs1 & [t1 ->] & Hr1).
  destruct r as [[[sid planned'] stored]|e].
  2: { cbn. split_and!; [done|by exists t1|by rewrite Hr1| |done].
       eapply accounted_ext; [done|by exists t1|rewrite Hr1; apply Hacc]. }
  destruct Hr1 as (Hr1 & Hp1 & -> & earlier & Heq).
  assert (forall x : answer (AProvision (pln_datasource planned') (pln_plan planned')),
    safe (good gate) ((tr ++ t1) ++ [Ev (AProvision (pln_datasource planned') (pln_plan planned')) x])%list)
    as Hs2.
  { intros x. apply safe_snoc. split; [done|]. split; [|done]. rewrite Heq. by do 4 eexists. }
  intros [resource|e]; cbn [bind].
  2: { (* the server refused *)
    intros x. cbn. split_and!; [by apply safe_snoc|eexists; by rewrite <-!app_assoc|..|done].
    - rewrite !books_snoc, Hr1. by destruct (books_of tr), x.
    - eapply accounted_ext; [done|eexists; by rewrite <-!app_assoc|].
      rewrite !books_snoc, Hr1. pose proof (acc_owes _ _ _ Hacc) as [Ho Hr].
      split; destruct (books_of tr), x; simpl in *; try done;
        first [apply take_back|apply owe_more]; by apply one_more. }
  specialize (Hs2 (Ok resource)). set (ev := Ev (AProvision _ _) _) in *.
  set (item := {| crt_stored := mkStored sid (lse_ID lease) (ds_ID (pln_datasource planned'))
                    (pln_kind planned') (res_Name resource) (mergeMeta (res_Meta resource)
                      (res_Meta (resourceForReservation planned'))) "active";
                  crt_datasource := pln_datasource planned';
                  crt_resource := add_meta (res_Meta (resourceForReservation planned')) resource |}).
  assert (owes (created ++ [item]) (books_of ((tr ++ t1) ++ [ev])%list)) as Ho2.
  { apply owes_snoc. pose proof (acc_owes _ _ _ Hacc) as [Ho Hr]. rewrite books_snoc, Hr1.
    split; destruct (books_of tr); simpl in *; by apply one_more. }
  assert (same_leases (books_of tr) (books_of ((tr ++ t1) ++ [ev])%list) /\
    same_refusals (books_of tr) (books_of ((tr ++ t1) ++ [ev])%list)) as [Hsl Hsr].
  { rewrite books_snoc, Hr1. by destruct (books_of tr). }
  intros [e|]; cbn [bind].
  { (* the row could not be activated *)
    intros x y. cbn. split_and!; [by repeat (apply safe_snoc; split; [|done])|..|done].
    - eexists. by rewrite <-!app_assoc.
    - rewrite 3!books_snoc. etransitivity; [exact Hsl|]. by destruct (books_of (_ ++ [ev])), x, y.
    - eapply accounted_ext; [done|eexists; by rewrite <-!app_assoc|]. apply (owes_back item).
      rewrite books_snoc. apply owes_snoc in Ho2. by destruct (books_of (_ ++ [ev])). }
  set (act := Ev (AMarkResourceActive sid) None).
  assert (books_of (((tr ++ t1) ++ [ev]) ++ [act])%list = books_of ((tr ++ t1) ++ [ev])%list) as Hact
    by (rewrite books_snoc; by destruct (books_of ((tr ++ t1) ++ [ev])%list)).
  eapply wp_mono; [|apply IH].
  - intros [created' o] tr' (H1 & [t ->] & H2' & H2 & H3). split_and!; [done| |by rewrite Hact in H2'; etransitivity|done|].
    + eexists. by rewrite <-!app_assoc.
    + intros Hn. destruct (H3 Hn) as [Hlen Href]. rewrite Hact in Href. rewrite length_app in Hlen.
      simpl in *. split; [lia|by etransitivity].
  - by apply safe_snoc.
  - by repeat apply lease_inserted_mono.
  - rewrite Forall_forall in Hps |- *. intros p H. by apply permitted_mono, permitted_mono, permitted_mono, Hps.
  - split; [by rewrite Hact|]. apply Forall_app_2.
    + eapply Forall_impl; [exact (acc_delivered _ _ _ Hacc)|]. intros c H.
      by do 3 apply delivered_mono.
    + apply Forall_singleton.
      exists ((tr ++ t1) ++ [ev])%list, [], (resourceForReservation planned'), (pln_plan planned'), resource.
      rewrite Heq. unfold ev. split_and!; [done|set_solver|done|set_solver|done].
Qed.

Lemma rollback_spec created tr :
  safe (good gate) tr -> owes created (books_of tr) ->
  wp (rollbackCreated created) tr (fun _ tr' =>
    safe (good gate) tr' /\ tr `prefix_of` tr' /\ owes [] (books_of tr') /\
    same_leases (books_of tr) (books_of tr')).
Proof.
  revert tr. induction created as [|c created IH]; intros tr Hs Ho; [done|].
  cbn [rollbackCreated]. intros x. cbn [bind]. intros y. cbn [bind].
  eapply wp_mono; [|apply IH].
  - intros [] tr' (? & [t ->] & ? & Hop).
    split_and!; [done|eexists; by rewrite <-!app_assoc|done|]. etransitivity; [|exact Hop].
    rewrite 2!books_snoc. by destruct (books_of tr), x, y.
  - by repeat (apply safe_snoc; split; [|done]).
  - by apply (owes_back c).
Qed.
End Acquire.

(** All is as if nothing had happened, but for what was refused. *)
Definition clean (tr : trace) : Prop :=
  let b := books_of tr in
  outstanding b = unreclaimed b /\ registered b = unmarked b /\ open_leases b = unreleased b.

(** Nothing was created, inserted or refused. *)
Definition untouched (tr : trace) : Prop := books_of tr = no_books.

Lemma untouched_clean tr : untouched tr -> clean tr.
Proof. unfold untouched, clean. by intros ->. Qed.

Lemma untouched_quiet tr t : untouched tr -> Forall quiet t -> untouched (tr ++ t)%list.
Proof. unfold untouched. intros H Ht. by rewrite quiet_books. Qed.

(** What [Acquire] promises of its result. *)
Definition settled (r : res Lease) (tr : trace) : Prop :=
  match r with
  | Ok lease => exists created, lse_Resources lease = crt_resource <$> created /\
      Forall (delivered (lse_ID lease) tr) created /\
      books_of tr =
        mkBooks (created_keys created) ∅ (created_rows created) ∅ {[+ lse_ID lease +]} ∅
  | Err _ => clean tr
  end.

Lemma acquire_resources_spec gate lease pname seed binding plans tr :
  safe (good gate) tr -> untouched tr ->
  good gate tr (Ev (AInsertLease lease) None) ->
  Forall (fun p => permitted gate tr (pln_plan p)) plans ->
  wp (acquire_resources lease pname seed binding plans) tr (fun r tr' =>
    safe (good gate) tr' /\ tr `prefix_of` tr' /\ settled r tr' /\
    match r with
    | Ok l => lse_ID l = lse_ID lease /\ length (lse_Resources l) = length plans /\
              Ev (AInsertLease lease) (None : err) ∈ tr'
    | Err _ => True
    end).
Proof.
  intros Hs Hun Hgood Hp. unfold acquire_resources. intros x.
  assert (safe (good gate) (tr ++ [Ev (AInsertLease lease) x])%list) as Hs1
    by (apply safe_snoc; split; [done|]; destruct x; exact Hgood).
  destruct x as [e|]; cbn [bind].
  { split_and!; [done|by eexists| |done]. apply untouched_clean. unfold untouched.
    by rewrite books_snoc, Hun. }
  set (ev := Ev (AInsertLease lease) None).
  assert (books_of (tr ++ [ev])%list = mkBooks ∅ ∅ ∅ ∅ {[+ lse_ID lease +]} ∅) as Hb
    by (rewrite books_snoc, Hun; simpl; by rewrite (left_id_L ∅ (⊎))).
  apply wp_bind. eapply wp_mono; [|apply (provision_all_spec gate lease)].
  - intros [created [cause|]] tr1 (Hs2 & [t ->] & Hsl & [Hown Hdel] & Hlen); simpl in *.
    2: { destruct (Hlen eq_refl) as [Hl Hsr]. rewrite Hb in Hsl, Hsr.
      split_and!; [done|eexists; by rewrite <-app_assoc| |done|by rewrite length_fmap|set_solver].
      exists created. split_and!; [done|done|]. destruct Hown as [Ho Hr], Hsl, Hsr.
      destruct (books_of ((tr ++ [ev]) ++ t)%list); simpl in *; subst.
      by rewrite !(right_id_L ∅ (⊎)). }
    apply wp_bind. eapply wp_mono; [|by apply (rollback_spec gate created)].
    intros [] tr2 (Hs3 & [t2 ->] & [Ho Hr] & Hop3). intros x. cbn.
    split_and!; [by apply safe_snoc|eexists; by rewrite <-!app_assoc| |done].
    assert (same_leases (books_of (tr ++ [ev])%list) (books_of (((tr ++ [ev]) ++ t) ++ t2)%list))
      as [Hop Hun2] by (by etransitivity). rewrite Hb in Hop, Hun2. simpl in Hop, Hun2.
    unfold clean, created_keys, created_rows in *. rewrite books_snoc. simpl in Ho, Hr.
    rewrite (left_id_L ∅ (⊎)) in Ho. rewrite (left_id_L ∅ (⊎)) in Hr.
    destruct (books_of (((tr ++ [ev]) ++ t) ++ t2)%list), x; simpl in *; subst;
      split_and!; try done; multiset_solver.
  - done.
  - unfold lease_inserted. rewrite elem_of_app. right. by apply list_elem_of_singleton.
  - rewrite Forall_forall in Hp |- *. intros p Hin. by apply permitted_mono, Hp.
  - split; [by rewrite Hb|constructor].
Qed.

Lemma Acquire_spec gate req :
  wp (Acquire gate req) [] (fun r tr => safe (good gate) tr /\ settled r tr /\
    match r with
    | Ok l => exists lease, lse_ID l = lse_ID lease /\ Ev (AInsertLease lease) (None : err) ∈ tr
    | Err _ => True
    end).
Proof.
  assert (forall e : prov_error, safe (good gate) [] /\ settled (Err e) [] /\ True) as H0
    by (intros; split; [apply safe_nil|done]).
  unfold Acquire. destruct (TrimSpace (acq_ProjectID req) =? ""); [apply H0|].
  destruct (TrimSpace (acq_Purpose req) =? ""); [apply H0|].
  assert (forall t (e : prov_error), Forall quiet t ->
    safe (good gate) t /\ settled (Err e) t /\ True) as Hquiet.
  { intros t e Ht. split_and!; [apply (safe_quiet gate [] t (safe_nil _) Ht)| |done].
    by apply untouched_clean, (untouched_quiet []). }
  unfold rbind_prog. intros x. cbn [bind app].
  destruct x as [[binding pname]|e]; [|apply Hquiet; by repeat constructor].
  set (e1 := Ev (ABinding _) _).
  destruct (negb _ && negb _); [apply Hquiet; by repeat constructor|]. cbn [bind].
  destruct (selectedKinds binding (acq_Kinds req)) as [kinds|e];
    [|apply Hquiet; by repeat constructor].
  cbv zeta. fold (lease_quota binding).
  intros x. cbn [bind]. destruct x as [active|e]; [|apply Hquiet; by repeat constructor].
  set (e2 := Ev (ACountActiveLeases _) _).
  destruct (Z.leb_spec (lease_quota binding) active) as [Hq|Hq].
  { intros [l|e]; apply Hquiet; by repeat constructor. }
  destruct (_ <=? 0)%Z; [apply Hquiet; by repeat constructor|].
  intros now leaseID. cbn [bind].
  match goal with |- wp _ ?t _ => set (tr := t) end.
  assert (Forall quiet tr) as Htr by (by repeat constructor).
  assert (e1 ∈ tr /\ e2 ∈ tr) as [He1 He2] by (split; [by left|by right; left]).
  apply wp_bind. eapply wp_mono; [|apply new_name_quiet].
  intros n tr1 (t1 & -> & Ht1 & _).
  assert (Forall quiet (tr ++ t1)%list) as Htr1 by (by apply Forall_app_2).
  destruct n as [seed|e]; [|by apply Hquiet].
  apply wp_bind. eapply wp_mono; [|apply plan_all_quiet].
  intros [plans [e|]] tr2 (t2 & -> & Ht2 & _); cbv beta iota;
    assert (Forall quiet ((tr ++ t1) ++ t2)%list) as Htr2 by (by apply Forall_app_2);
    [by apply Hquiet|].
  set (tr2 := ((tr ++ t1) ++ t2)%list) in *.
  assert (e1 ∈ tr2 /\ e2 ∈ tr2) as [He1' He2'] by (unfold tr2; split; rewrite !elem_of_app; auto).
  destruct (Hquiet tr2 ErrBindingMissing Htr2) as (Hs & _).
  assert (untouched tr2) as Hc by (by apply (untouched_quiet [])).
  destruct gate.
  - intros [e|]; cbn [bind].
    { apply Hquiet. apply Forall_app_2; [done|by repeat constructor]. }
    eapply wp_mono; [|apply acquire_resources_spec].
    + intros r tr' (? & _ & ? & Hr). split_and!; [done..|]. destruct r; [|done].
      eexists. by split; apply Hr.
    + by apply safe_snoc.
    + apply (untouched_quiet tr2 [_] Hc). by repeat constructor.
    + split.
      * intros _. exists (planValues plans). rewrite elem_of_app. right. by apply list_elem_of_singleton.
      * exists binding, pname, active. rewrite !elem_of_app. auto.
    + rewrite Forall_forall. intros p Hp _. left. exists (acq_ProjectID req), (planValues plans).
      split; [|by apply list_elem_of_fmap_2]. rewrite elem_of_app. right. by apply list_elem_of_singleton.
  - cbn [bind]. eapply wp_mono; [|apply acquire_resources_spec].
    + intros r tr' (? & _ & ? & Hr). split_and!; [done..|]. destruct r; [|done].
      eexists. by split; apply Hr.
    + done.
    + done.
    + split; [done|]. exists binding, pname, active. auto.
    + rewrite Forall_forall. by intros p Hp Hg.
Qed.

(** C14: no temporary database is leaked or half delivered, whatever the servers, the tables, the
    approval gate and concurrent operations answer.  When [Acquire] fails, all it had brought about
    was taken back, except what was refused when it tried: a resource it created is reclaimed or the
    server refused to reclaim it, a row it inserted is given back or the tables refused the update,
    and so for its lease; no entry counts as taken back on a mere attempt.  When it succeeds, the
    resources of the lease are exactly those it created, nothing was refused or taken back, its lease
    and one row for each resource are all it inserted, and each resource was created under the name
    that its row holds for that data source, and the row was then set active. *)
Theorem Acquire_all_or_nothing gate req :
  wp (Acquire gate req) [] (fun r tr => settled r tr).
Proof. eapply wp_mono; [|apply (Acquire_spec gate req)]. by intros r tr (_ & H & _). Qed.

(** The order of the effects of [Acquire] is safe at every point of every run: a lease is
    inserted only below the quota that was read and, with a gate, only after the gate let the
    project's plans pass; a resource is registered only under an inserted lease; a server is
    asked to create a resource only directly after its name was registered for that data
    source, and only for a plan that the gate saw, unless a slot conflict made the manager plan
    again (the gate never sees the new plan). *)
Theorem Acquire_order gate req :
  wp (Acquire gate req) [] (fun _ tr => safe (good gate) tr).
Proof. eapply wp_mono; [|apply (Acquire_spec gate req)]. by intros r tr (H & _). Qed.

(** ** Release *)

(** The resource as [Release] hands it to the server. *)
Definition stored_resource (s : StoredResource) : Resource :=
  mkResource (sto_Kind s) (sto_Name s) "" (sto_Meta s).

(** The registry gave this data source for the row. *)
Definition located (tr : trace) (s : StoredResource) (ds : DataSource) : Prop :=
  exists name, Ev (AGetByName (sto_Kind s) name) (Ok ds : res DataSource) ∈ tr /\
    sto_Meta s !! "datasource_name" = Some name.

(** The resource was reclaimed on its server and its row was given back. *)
Definition freed (tr : trace) (s : StoredResource) : Prop :=
  exists ds, located tr s ds /\ Ev (AReclaim ds (stored_resource s)) (None : err) ∈ tr /\
    Ev (AMarkResourceReclaimed (sto_ID s)) (None : err) ∈ tr.

(** What [Release] of a lease with these rows may do. *)
Definition release_only (leaseID : string) (rows : list StoredResource) (before : trace)
    (e : event) : Prop :=
  match e with
  | Ev a _ =>
      match a with
      | AReclaim ds r => exists s, s ∈ rows /\ sto_Status s <> "reclaimed" /\
          r = stored_resource s /\ located before s ds
      | AMarkResourceReclaimed id => exists s, s ∈ rows /\ sto_ID s = id /\
          exists ds x, last before = Some (Ev (AReclaim ds (stored_resource s)) x)
      | AMarkLeaseReleased id => id = leaseID
      | AProvision _ _ | AInsertLease _ | AInsertResource _ _ _ | AMarkResourceActive _
      | AUpdateLeaseExpiry _ _ _ => False
      | _ => True
      end
  end.

Lemma located_mono tr t s ds : located tr s ds -> located (tr ++ t)%list s ds.
Proof. intros (n & H & ?). exists n. split; [|done]. rewrite elem_of_app. by left. Qed.

Lemma freed_mono tr t s : freed tr s -> freed (tr ++ t)%list s.
Proof.
  intros (ds & ? & ? & ?). exists ds. rewrite !elem_of_app.
  split_and!; [by apply located_mono|by left|by left].
Qed.

Section Release.
Context (leaseID : string) (rows : list StoredResource).

Lemma release_all_spec todo errs tr :
  todo ⊆ rows -> safe (release_only leaseID rows) tr ->
  wp (release_all todo errs) tr (fun errs' tr' =>
    safe (release_only leaseID rows) tr' /\ tr `prefix_of` tr' /\
    (errs' = [] -> errs = [] /\
       Forall (fun s => sto_Status s = "reclaimed" \/ freed tr' s) todo)).
Proof.
  revert errs tr. induction todo as [|s todo IH]; intros errs tr Hsub Hs.
  { cbn. split_and!; [done|done|intros ->; split; [done|constructor]]. }
  assert (s ∈ rows /\ todo ⊆ rows) as [Hin Hsub'].
  { split; [apply Hsub; by left|]. intros x Hx. apply Hsub. by right. }
  cbn [release_all]. destruct (String.eqb_spec (sto_Status s) "reclaimed") as [Hre|Hre].
  { eapply wp_mono; [|by apply IH]. intros errs' tr' (? & ? & H). split_and!; [done..|].
    intros He. destruct (H He) as [? ?]. split; [done|]. constructor; [by left|done]. }
  (* an error is kept, so that the result is not empty *)
  assert (forall e tr1, tr `prefix_of` tr1 -> safe (release_only leaseID rows) tr1 ->
    wp (release_all todo (errs ++ [e])%list) tr1 (fun errs' tr' =>
    safe (release_only leaseID rows) tr' /\ tr `prefix_of` tr' /\
    (errs' = [] -> errs = [] /\
       Forall (fun s => sto_Status s = "reclaimed" \/ freed tr' s) (s :: todo)))) as Hfail.
  { intros e tr1 Hpre Hs1. eapply wp_mono; [|by apply IH].
    intros errs' tr' (? & ? & H). split_and!; [done|by etransitivity|].
    intros He. destruct (H He) as [Hnil _]. by destruct errs. }
  unfold datasourceFor. cbv zeta.
  destruct (String.eqb_spec (default "" (sto_Meta s !! "datasource_name")) "") as [Hn|Hn].
  { cbn [bind]. by apply Hfail. }
  cbn [bind]. intros x. set (e1 := Ev (AGetByName _ _) x).
  assert (safe (release_only leaseID rows) (tr ++ [e1])%list) as Hs1 by (by apply safe_snoc).
  destruct x as [ds|e]; [|apply Hfail; [by eexists|done]].
  destruct (negb (LookupProvisioner (sto_Kind s))); [apply Hfail; [by eexists|done]|].
  assert (located (tr ++ [e1])%list s ds) as Hloc.
  { exists (default "" (sto_Meta s !! "datasource_name")). split.
    - rewrite elem_of_app. right. by apply list_elem_of_singleton.
    - by destruct (sto_Meta s !! "datasource_name"). }
  intros x. cbn [bind]. fold (stored_resource s). set (e2 := Ev (AReclaim _ _) x).
  intros y. cbn [bind]. set (e3 := Ev (AMarkResourceReclaimed _) y).
  eapply wp_mono; [|apply IH; [done|]].
  - intros errs' tr' (H1 & [t ->] & H2). split_and!; [done|eexists; by rewrite <-!app_assoc|].
    intros He. destruct (H2 He) as [Hnil Hall]. destruct errs; [|done].
    destruct x as [e|]; [done|]. destruct y as [e|]; [done|]. split; [done|].
    constructor; [|done]. right. apply freed_mono. exists ds. split_and!.
    + by do 2 apply located_mono.
    + rewrite !elem_of_app. left. right. by apply list_elem_of_singleton.
    + rewrite !elem_of_app. right. by apply list_elem_of_singleton.
  - apply safe_snoc. split; [apply safe_snoc; split; [done|]|].
    + by exists s.
    + exists s. split_and!; [done|done|]. exists ds, x. by rewrite last_snoc.
Qed.
End Release.

(** A release that reports no error left nothing behind: either the lease was unknown or
    released before, or every resource of it was reclaimed on the server that the registry
    named, its row was given back, and the lease is marked as released; with or without
    errors it only touches the resources of that lease, each row directly after its
    resource, and a lease it could read is marked as released at the end. *)
Theorem Release_outcome leaseID :
  wp (Release leaseID) [] (fun errs tr =>
    (errs = [] /\ tr = [Ev (AGetLeaseWithResources leaseID) (Err ErrLeaseNotFound : res _)]) \/
    (exists e, errs = [e] /\ tr = [Ev (AGetLeaseWithResources leaseID) (Err e : res _)]) \/
    (exists lease rows m earlier,
      head tr = Some (Ev (AGetLeaseWithResources leaseID) (Ok (lease, rows) : res _)) /\
      tr = (earlier ++ [Ev (AMarkLeaseReleased leaseID) m])%list /\
      safe (release_only leaseID rows) tr /\
      (errs = [] -> m = None /\
         Forall (fun s => sto_Status s = "reclaimed" \/ freed tr s) rows))).
Proof.
  unfold Release. intros r. cbn [bind app].
  destruct r as [[lease rows]|e].
  2: { destruct e; cbn; (by left) || (right; left; by eexists). }
  apply wp_bind. eapply wp_mono; [|apply (release_all_spec leaseID rows rows []); [done|]].
  2: { apply (safe_snoc _ [] (Ev (AGetLeaseWithResources leaseID) _)). split; [apply safe_nil|done]. }
  intros errs tr' (Hs & [t ->] & Hn) m. cbn [wp bind]. right. right.
  exists lease, rows, m. eexists. split; [done|]. split; [done|]. split.
  { apply safe_snoc. split; [exact Hs|done]. }
  intros He. destruct m as [e|]; [by destruct errs|].
  destruct errs; [|done]. split; [done|]. destruct (Hn eq_refl) as [_ Hall].
  rewrite Forall_forall in Hall |- *. intros s Hin.
  destruct (Hall s Hin); [by left|right; by apply freed_mono].
Qed.

(** ** Renew *)

(** A renewal never extends a lease beyond its project's time to live from now, and only
    while the lease is at most 24 hours old, so that a lease never outlives 24 hours and one
    time to live (it can outlive 24 hours: see [Renew_outlives_limit]); the new expiry is the
    one that was stored. *)
Theorem Renew_bounds leaseID ttl :
  wp (Renew leaseID ttl) [] (fun r tr =>
    match r with
    | Err _ => True
    | Ok lease => exists old rows now binding name,
        Ev (AGetLeaseWithResources leaseID) (Ok (old, rows) : res _) ∈ tr /\
        Ev ANow now ∈ tr /\
        Ev (ABinding (lse_ProjectID old)) (Ok (binding, name) : res _) ∈ tr /\
        Ev (AUpdateLeaseExpiry leaseID (lse_ExpiresAt lease) (lse_RenewCount lease)) (None : err) ∈ tr /\
        lse_CreatedAt lease = lse_CreatedAt old /\
        lse_RenewCount lease = (lse_RenewCount old + 1)%Z /\
        (now < lse_ExpiresAt lease <= now + bindingTTL binding)%Z /\
        (lse_ExpiresAt lease - lse_CreatedAt lease <= absoluteLeaseLifetime + bindingTTL binding)%Z
    end).
Proof.
  unfold Renew, rbind_prog. intros x. destruct x as [[old rows]|e]; [|done].
  cbn [bind app]. intros now. cbn [bind app].
  destruct (Z.ltb_spec absoluteLeaseLifetime (time_sub now (lse_CreatedAt old))) as [|Hage]; [done|].
  intros y. destruct y as [[binding name]|e]; [|done]. cbn [bind app]. cbv zeta.
  set (ttl' := if _ || _ then _ else _).
  assert (ttl' <= bindingTTL binding)%Z as Hle.
  { unfold ttl'. destruct (Z.ltb_spec (bindingTTL binding) ttl); [rewrite orb_true_r; lia|].
    rewrite orb_false_r. destruct (ttl =? 0)%Z; lia. }
  destruct (Z.leb_spec ttl' 0) as [|Hpos]; [done|].
  intros z. destruct z as [e|]; [done|]. cbn [bind wp app].
  exists old, rows, now, binding, name. unfold time_add. simpl.
  split_and!; [set_solver..|done|done|lia|lia|].
  unfold time_sub in Hage. unfold absoluteLeaseLifetime, minute, second, millisecond, nanosecond in *.
  unfold min_int64, max_int64 in Hage. lia.
Qed.

(** ** DryRun *)

(** A call that writes no table and asks no permission. *)
Definition dry (e : event) : Prop :=
  match e with
  | Ev a _ =>
      match a with
      | AProvision _ _ | AReclaim _ _ | ABinding _ | AGetByName _ _ | ARandomSuffix | APlan _ _ _
      | AListActiveResourceNames _ _ => True
      | _ => False
      end
  end.

(** A server refused to create or to reclaim. *)
Definition refused (e : event) : Prop :=
  match e with
  | Ev a x =>
      match a return answer a -> Prop with
      | AProvision _ _ => fun x => match x with Ok _ => False | Err _ => True end
      | AReclaim _ _ => fun x => match x with None => False | Some _ => True end
      | _ => fun _ => False
      end x
  end.

Definition unrefused (tr : trace) : Prop := Forall (fun e => ~ refused e) tr.

(** Planning makes dry calls only. *)
Definition dryly {A} (p : prog A) : Prop :=
  forall tr, Forall dry tr -> unrefused tr ->
    wp p tr (fun _ tr' => Forall dry tr' /\ unrefused tr').

Lemma dryly_done {A} (x : A) : dryly (Done x).
Proof. done. Qed.

Lemma dryly_bind {A B} (p : prog A) (f : A -> prog B) :
  dryly p -> (forall x, dryly (f x)) -> dryly (bind p f).
Proof.
  intros Hp Hf tr Hd Hu. apply wp_bind. eapply wp_mono; [|by apply Hp].
  intros x tr' [Hd' Hu']. by apply Hf.
Qed.

Lemma dryly_rbind {A B} (p : prog (res A)) (k : A -> prog (res B)) :
  dryly p -> (forall x, dryly (k x)) -> dryly (rbind_prog p k).
Proof. intros Hp Hk. apply dryly_bind; [done|]. intros [x|e]; [apply Hk|apply dryly_done]. Qed.

Lemma dryly_call a :
  (forall x, dry (Ev a x)) -> (forall x, ~ refused (Ev a x)) -> dryly (call a).
Proof.
  intros Ha Hr tr Hd Hu x. split; apply Forall_app_2; try done; by apply Forall_singleton.
Qed.

Lemma new_name_dry name : dryly (new_name name).
Proof. apply dryly_rbind; [by apply dryly_call; [|intros ? []]|intros; apply dryly_done]. Qed.

Lemma planResource_dry pid b kind seed : dryly (planResource pid b kind seed).
Proof.
  unfold planResource. apply dryly_rbind; [apply dryly_done|]. intros name.
  apply dryly_rbind; [by apply dryly_call; [|intros ? []]|]. intros ds.
  destruct (negb _); [apply dryly_done|].
  apply dryly_rbind; [by apply dryly_call; [|intros ? []]|]. intros taken.
  apply dryly_rbind; [by apply dryly_call; [|intros ? []]|]. intros plan. apply dryly_done.
Qed.

Lemma plan_all_dry pid b seed kinds plans : dryly (plan_all pid b seed kinds plans).
Proof.
  revert plans. induction kinds as [|kind kinds IH]; intros plans; [apply dryly_done|].
  apply dryly_bind; [apply planResource_dry|]. intros [pl|e]; [apply IH|apply dryly_done].
Qed.

(** Beyond these resources, only what a server refused to reclaim is left. *)
Definition owes_keys (created : list createdResource) (b : books) : Prop :=
  outstanding b = created_keys created ⊎ unreclaimed b.

Lemma unrefused_books tr : unrefused tr -> unreclaimed (books_of tr) = ∅.
Proof.
  unfold unrefused. induction tr as [|[a x] tr IH] using rev_ind; [done|].
  intros [Htr%IH Hx%Forall_inv]%Forall_app. rewrite books_snoc.
  revert Htr. destruct a; simpl in *; destruct (books_of tr); simpl in *; try done.
  all: by destruct x.
Qed.

Lemma dry_provision_spec mask plans created dsns tr :
  Forall dry tr -> unrefused tr -> owes_keys created (books_of tr) ->
  wp (dry_provision mask plans created dsns) tr (fun r tr' =>
    Forall dry tr' /\ owes_keys r.1.1 (books_of tr') /\ (r.2 = None -> unrefused tr')).
Proof.
  revert created dsns tr. induction plans as [|planned plans IH]; intros created dsns tr Hd Hu Ho.
  { done. }
  cbn [dry_provision]. intros [resource|e]; cbn [bind].
  2: { cbn. split_and!; [by apply Forall_app_2, Forall_singleton| |done].
       rewrite books_snoc. by destruct (books_of tr). }
  apply IH.
  - by apply Forall_app_2, Forall_singleton.
  - apply Forall_app_2; [done|]. apply Forall_singleton. simpl. tauto.
  - rewrite books_snoc. unfold owes_keys, created_keys in *.
    rewrite fmap_app, list_to_set_disj_app. simpl. rewrite (right_id_L ∅ (⊎)), (comm_L (⊎) (list_to_set_disj _)).
    destruct (books_of tr); simpl in *. by apply one_more.
Qed.

Lemma dry_reclaim_spec created result tr :
  Forall dry tr -> owes_keys created (books_of tr) ->
  (dr_Succeeded result = true -> unrefused tr) ->
  wp (dry_reclaim created result) tr (fun r tr' =>
    Forall dry tr' /\ owes_keys [] (books_of tr') /\
    (dr_Succeeded r = true -> unrefused tr' /\ dr_Succeeded result = true)).
Proof.
  revert result tr. induction created as [|c created IH]; intros result tr Hd Ho Hu.
  { cbn. auto. }
  cbn [dry_reclaim]. intros x. cbn [bind].
  eapply wp_mono; [|apply IH].
  - intros r tr' (? & ? & H). split_and!; [done..|]. intros Hs. destruct (H Hs) as [? Hx].
    split; [done|]. by destruct x.
  - by apply Forall_app_2, Forall_singleton.
  - rewrite books_snoc. unfold owes_keys, created_keys in *. simpl in *.
    destruct (books_of tr), x; simpl in *; first [by apply take_back|by apply owe_more].
  - destruct x as [e|]; [done|]. intros Hs. apply Forall_app_2; [by apply Hu|].
    apply Forall_singleton. simpl. tauto.
Qed.

(** A dry run leaves nothing behind: whatever fails, of the resources it created only those are
    left whose reclaim a server refused, it wrote no table of leases (and asked neither the
    quota nor the gate); it reports success only if no server refused anything, and then nothing is
    left. *)
Theorem DryRun_leaves_nothing mask projectID :
  wp (DryRun mask projectID) [] (fun r tr =>
    outstanding (books_of tr) = unreclaimed (books_of tr) /\ Forall dry tr /\
    (dr_Succeeded r.1 = true -> r.2 = None /\ unrefused tr /\ outstanding (books_of tr) = ∅)).
Proof.
  unfold DryRun. intros x. cbn [bind app].
  assert (forall x : answer (ABinding projectID), Forall dry [Ev (ABinding projectID) x] /\
    unrefused [Ev (ABinding projectID) x]) as H0.
  { intros y. split; apply Forall_singleton; [done|]. simpl. tauto. }
  destruct (H0 x) as [Hd Hu].
  destruct x as [[binding pname]|e]; [|by cbn].
  destruct (selectedKinds binding []) as [kinds|e]; [|by cbn].
  apply wp_bind. eapply wp_mono; [|apply wp_and; [apply (new_name_dry pname _ Hd Hu)|apply new_name_quiet]].
  intros n tr1 ([Hd1 Hu1] & t1 & -> & Ht1 & _).
  pose proof (quiet_books t1 [Ev (ABinding projectID) (Ok (binding, pname))] Ht1) as Ho1.
  destruct n as [seed|e]; [|cbn [wp]; rewrite Ho1; by cbn].
  apply wp_bind.
  eapply wp_mono; [|apply wp_and; [apply (plan_all_dry projectID binding seed kinds [] _ Hd1 Hu1)
                                  |apply plan_all_quiet]].
  intros [plans o] tr2 ([Hd2 Hu2] & t2 & -> & Ht2 & _).
  match type of Hd2 with Forall dry (?l ++ _) =>
    pose proof (quiet_books t2 l Ht2) as Ho2 end.
  rewrite Ho1 in Ho2. match type of Hd2 with Forall dry ?l => set (trp := l) in * end.
  assert (books_of trp = no_books) as Hno by exact Ho2.
  destruct o as [e|]; [cbn [wp]; rewrite Hno; by cbn|].
  apply wp_bind. eapply wp_mono; [|apply (dry_provision_spec mask plans [] []); [done|done|]].
  2: { unfold owes_keys. by rewrite Hno. }
  intros [[created dsns] e] tr3 (Hd3 & Ho3 & Hu3). simpl in Ho3, Hu3.
  apply wp_bind. eapply wp_mono; [|apply dry_reclaim_spec; [done|done|by destruct e; simpl; auto]].
  intros r tr4 (Hd4 & Ho4 & Hs4). cbn [wp]. unfold owes_keys, created_keys in Ho4. simpl in Ho4.
  rewrite (left_id_L ∅ (⊎)) in Ho4. split_and!; [done|done|].
  simpl. intros Hs. destruct (Hs4 Hs) as [Hu4 He]. split_and!; [by destruct e|done|].
  by rewrite Ho4, unrefused_books.
Qed.
