(* ===== verification/LeaseSystem.v ===== *)
(** * Temporary test databases: operations of the manager side by side

    A concrete system: the tables of [LeaseStore], servers that hold resources, a
    registry, a gate, a clock.  Several operations of the manager run on it; a
    schedule says which makes its next call and whether the call succeeds.  The
    servers follow the contract written at [Provisioner] ([provisioner.go]): plans
    only read, reclaiming is idempotent, and only resources with the prefix are
    reported as orphans. *)
From stdpp Require Import base strings gmap gmultiset list pretty.
From Stdlib Require Import ZArith Lia.
From S2P Require Import Prelude Programs Provision LeaseStore Lease LeaseTheorems.
Local Open Scope string_scope.

Record system : Type := mkSystem {
  sys_store : Store;
  sys_bindings : list (string * (ProjectBinding * string));
  sys_sources : list DataSource;
  sys_live : list (string * string * string); (** data source, kind and name *)
  sys_connections : Z;                        (** on the template database *)
  sys_gate : list Plan -> err;
  sys_now : time;
  sys_fresh : nat;                            (** identifiers given so far *)
}.

Definition with_store (st : Store) (s : system) : system :=
  mkSystem st (sys_bindings s) (sys_sources s) (sys_live s) (sys_connections s) (sys_gate s)
    (sys_now s) (sys_fresh s).
Definition with_live (l : list (string * string * string)) (s : system) : system :=
  mkSystem (sys_store s) (sys_bindings s) (sys_sources s) l (sys_connections s) (sys_gate s)
    (sys_now s) (sys_fresh s).
Definition with_sources (l : list DataSource) (s : system) : system :=
  mkSystem (sys_store s) (sys_bindings s) l (sys_live s) (sys_connections s) (sys_gate s)
    (sys_now s) (sys_fresh s).
Definition with_connections (n : Z) (s : system) : system :=
  mkSystem (sys_store s) (sys_bindings s) (sys_sources s) (sys_live s) n (sys_gate s)
    (sys_now s) (sys_fresh s).
Definition with_now (t : time) (s : system) : system :=
  mkSystem (sys_store s) (sys_bindings s) (sys_sources s) (sys_live s) (sys_connections s)
    (sys_gate s) t (sys_fresh s).
Definition fresh_id (s : system) : system * string :=
  (mkSystem (sys_store s) (sys_bindings s) (sys_sources s) (sys_live s) (sys_connections s)
     (sys_gate s) (sys_now s) (S (sys_fresh s)), "00000000000" +:+ pretty (sys_fresh s)).

(** The plan of a server: the name that was asked for, and the connections it would cut. *)
Definition server_plan (s : system) (kind : string) (req : PlanRequest) : res Plan :=
  if kind =? KindRedis then redis_plan 16 [] req
  else
    match bind_Postgres (preq_Binding req) with
    | None => Err ErrBindingMissing
    | Some b =>
        if (sys_connections s <=? 0)%Z then
          Ok (mkPlan kind (preq_NameSeed req) [] [] {["template" := pg_DevDatabase b]})
        else if negb (pg_TerminateConnections b) then Err ErrTemplateBusy
        else Ok (mkPlan kind (preq_NameSeed req) []
               [mkSideEffect SideEffectTerminateConnections (pg_DevDatabase b) "" (sys_connections s)]
               {["template" := pg_DevDatabase b]})
    end.

(** The resources on a server that the registry does not know. *)
Definition server_orphans (s : system) (ds : DataSource) (known : list Resource) : list Orphan :=
  if ds_Kind ds =? KindRedis then []
  else
    (fun x => mkOrphan KindPostgres x.2 "") <$>
    List.filter (fun x => (x.1.1 =? ds_ID ds) && (x.1.2 =? KindPostgres) &&
      String.prefix ResourcePrefix x.2 && negb (existsb (fun r => res_Name r =? x.2) known))
      (sys_live s).

Definition on_store {A} (f : Store -> Store * A) (s : system) : system * A :=
  let '(st, x) := f (sys_store s) in (with_store st s, x).

Definition read {A} (f : Store -> A) (s : system) : system * A := (s, f (sys_store s)).

Definition unless_ok {A} (ok : bool) (r : res A) : res A := if ok then r else Err ErrDB.

Definition handle (ok : bool) (a : action) (s : system) : system * answer a :=
  match a return system * answer a with
  | ABinding pid => (s,
      match List.find (fun x => x.1 =? pid) (sys_bindings s) with
      | Some x => unless_ok ok (Ok x.2)
      | None => Err ErrBindingMissing
      end)
  | AGetByName kind name => (s,
      match List.find (fun d => (ds_Kind d =? kind) && (ds_Name d =? name)) (sys_sources s) with
      | Some d => unless_ok ok (Ok d)
      | None => Err ErrDataSourceNotFound
      end)
  | AListDataSources => (s, unless_ok ok (Ok (sys_sources s)))
  | ANow => (s, sys_now s)
  | ANewLeaseID => fresh_id s
  | ARandomSuffix => let '(s', x) := fresh_id s in (s', unless_ok ok (Ok x))
  | AAuthorize _ plans => (s, sys_gate s plans)
  | AInsertLease lease => on_store (InsertLease ok lease) s
  | AInsertResource l d r =>
      let '(s', id) := fresh_id s in on_store (InsertResource ok id (sys_now s) l d r) s'
  | AMarkResourceActive id => on_store (MarkResourceActive ok id) s
  | AMarkResourceReclaimed id => on_store (MarkResourceReclaimed ok id) s
  | AMarkLeaseReleased id => on_store (MarkLeaseReleased ok id) s
  | AUpdateLeaseExpiry id t n => on_store (UpdateLeaseExpiry ok id t n) s
  | AGetLeaseWithResources id => read (GetLeaseWithResources ok id) s
  | AListLeases pid => read (ListLeases ok pid) s
  | AListExpiredLeases now => read (ListExpiredLeases ok now) s
  | ACountActiveLeases pid => read (CountActiveLeases ok pid) s
  | AListActiveResourceNames d k => read (ListActiveResourceNames ok d k) s
  | AListAllActiveResources => read (ListAllActiveResources ok) s
  | APlan ds kind req => (s, if ok then server_plan s kind req else Err ErrDB)
  | AProvision ds plan =>
      if ok then (with_live (sys_live s ++ [(ds_ID ds, pl_Kind plan, pl_ResourceName plan)])%list s,
                  Ok (mkResource (pl_Kind plan) (pl_ResourceName plan) "dsn" ∅))
      else (s, Err ErrDB)
  | AReclaim ds r =>
      if ok then (with_live (List.filter (fun x => negb (bool_decide
                    (x = (ds_ID ds, res_Kind r, res_Name r)))) (sys_live s)) s, None)
      else (s, Some ErrDB)
  | AReconcile ds known => (s, unless_ok ok (Ok (server_orphans s ds known)))
  end.

(** ** Schedules *)

Inductive outcome : Type :=
| OLease (r : res Lease)      (** of an acquisition *)
| ORenewal (r : res Lease)
| OErrors (errs : list prov_error)
| OReport (r : res ReconcileReport).

Inductive operation : Type :=
| PAcquire (gate : bool) (req : AcquireRequest)
| PRenew (leaseID : string) (ttl : duration)
| PRelease (leaseID : string)
| PReconcile (sources : bool).

Definition program (o : operation) : prog outcome :=
  match o with
  | PAcquire gate req => bind (Acquire gate req) (fun r => Done (OLease r))
  | PRenew id ttl => bind (Renew id ttl) (fun r => Done (ORenewal r))
  | PRelease id => bind (Release id) (fun r => Done (OErrors r))
  | PReconcile sources => bind (Reconcile sources) (fun r => Done (OReport r))
  end.

(** One event of a run: an operation starts, operation [i] makes its next call, or the
    world changes: the connections on the template, the registry, the clock. *)
Inductive tick : Type :=
| Start (o : operation)
| Next (i : nat) (ok : bool)
| Connections (n : Z)
| Sources (l : list DataSource)
| Clock (t : time).

Definition config : Type := list (prog outcome) * system.

Definition tick_step (c : config) (t : tick) : config :=
  match t with
  | Start o => (c.1 ++ [program o], c.2)%list
  | Next i ok =>
      match c.1 !! i with
      | Some p => let '(s', p') := step1 (handle ok) p c.2 in (<[i := p']> c.1, s')
      | None => c
      end
  | Connections n => (c.1, with_connections n c.2)
  | Sources l => (c.1, with_sources l c.2)
  | Clock t => (c.1, with_now t c.2)
  end.

Definition run_ticks (ticks : list tick) (c : config) : config := fold_left tick_step ticks c.

(** [n] calls of one operation in a row. *)
Definition calls (i n : nat) : list tick := replicate n (Next i true).

(** ** Every call keeps the keys of the tables *)

Lemma on_store_ok {A} (f : Store -> Store * A) s :
  (forall st, store_ok st -> store_ok (f st).1) -> store_ok (sys_store s) ->
  store_ok (sys_store (on_store f s).1).
Proof. intros Hf Hs. unfold on_store. specialize (Hf _ Hs). by destruct (f (sys_store s)). Qed.

Lemma handle_ok ok a s : store_ok (sys_store s) -> store_ok (sys_store (handle ok a s).1).
Proof.
  intros H. destruct a; simpl; try (destruct ok; exact H); try exact H;
    apply on_store_ok; auto with go.
Qed.

Lemma tick_ok c t : store_ok (sys_store c.2) -> store_ok (sys_store (tick_step c t).2).
Proof.
  intros H. destruct t as [o|i ok|n|l|t]; simpl; try done.
  destruct (c.1 !! i) as [p|]; [|done]. destruct p as [x|a k]; simpl; [done|].
  pose proof (handle_ok ok a c.2 H) as Ha. by destruct (handle ok a c.2).
Qed.

Lemma run_ticks_ok ticks c : store_ok (sys_store c.2) -> store_ok (sys_store (run_ticks ticks c).2).
Proof.
  unfold run_ticks. revert c. induction ticks as [|t ticks IH]; intros c H; [done|].
  apply IH. by apply tick_ok.
Qed.

(** ** What the answers of the tables mean later

    Rows are never deleted, keep their keys, and never go back to [creating]. *)

Definition same_key (x y : StoredResource) : Prop :=
  sto_ID y = sto_ID x /\ sto_LeaseID y = sto_LeaseID x /\ slot y = slot x.

Record grows (st st' : Store) : Prop := {
  gr_leases : lr_ID <$> tbl_leases st ⊆ lr_ID <$> tbl_leases st';
  gr_rows : forall row, row ∈ tbl_resources st -> exists row', row' ∈ tbl_resources st' /\
    same_key (rr_Res row) (rr_Res row') /\
    (sto_Status (rr_Res row) <> "creating" -> sto_Status (rr_Res row') <> "creating");
}.

#[local] Instance grows_refl : Reflexive grows.
Proof. intros st. split; [done|]. intros row Hr. exists row. by split_and!. Qed.

Lemma set_rows_grow id status st :
  status <> "creating" ->
  grows st (set_resources (set_resource_status id status <$> tbl_resources st) st).
Proof.
  intros Hst. split; [done|]. intros row Hr. exists (set_resource_status id status row).
  split; [by apply list_elem_of_fmap_2|]. unfold set_resource_status, same_key.
  destruct (_ =? _); by split_and!.
Qed.

Lemma set_leases_grow f st :
  (forall r, lr_ID (f r) = lr_ID r) -> grows st (set_leases (f <$> tbl_leases st) st).
Proof.
  intros Hf. split; simpl.
  - rewrite <-list_fmap_compose. intros id (r & -> & Hr)%list_elem_of_fmap.
    rewrite <-Hf. by apply (list_elem_of_fmap_2 (lr_ID ∘ f)).
  - intros row Hr. exists row. by split_and!.
Qed.

Lemma handle_grows ok a s : grows (sys_store s) (sys_store (handle ok a s).1).
Proof.
  destruct a; simpl; try (destruct ok; reflexivity); try reflexivity; unfold on_store; simpl.
  - unfold InsertLease. destruct (_ || _); simpl; [done|]. split; simpl.
    + rewrite fmap_app. set_solver.
    + intros row Hr. exists row. by split_and!.
  - unfold InsertResource. destruct (negb ok); simpl; [done|].
    destruct (existsb _ _); simpl; [done|]. split; simpl; [done|].
    intros row Hr. exists row. split_and!; [set_solver|done..].
  - unfold MarkResourceActive. destruct (negb ok); simpl; [done|]. case_bool_decide; simpl; [|done].
    by apply set_rows_grow.
  - unfold MarkResourceReclaimed. destruct ok; simpl; [|done]. by apply set_rows_grow.
  - unfold MarkLeaseReleased. destruct ok; simpl; [|done]. apply set_leases_grow.
    intros r. unfold set_lease_released. by destruct (_ =? _).
  - unfold UpdateLeaseExpiry. destruct ok; simpl; [|done]. apply set_leases_grow.
    intros r. unfold set_lease_expiry. by destruct (_ =? _).
Qed.

(** The rows that a trace has inserted, and its leases. *)
Definition inserted_row (e : event) : option string :=
  match e with
  | Ev a x =>
      match a return answer a -> option string with
      | AInsertResource _ _ _ => fun x => match x with Ok id => Some id | Err _ => None end
      | _ => fun _ => None
      end x
  end.
Definition new_lease (e : event) : option string :=
  match e with
  | Ev a x =>
      match a return answer a -> option string with
      | AInsertLease lease => fun x => match x with None => Some (lse_ID lease) | Some _ => None end
      | _ => fun _ => None
      end x
  end.
Definition new_rows (tr : trace) : list string := omap inserted_row tr.
Definition new_leases (tr : trace) : list string := omap new_lease tr.

(** What an answer of the tables or a server means from then on, given the calls before it. *)
Definition holds_in (st : Store) (before : trace) (e : event) : Prop :=
  match e with
  | Ev a x =>
      match a return answer a -> Prop with
      | AInsertLease lease => fun x => x = None -> lse_ID lease ∈ lr_ID <$> tbl_leases st
      | AInsertResource l d r => fun x => forall id, x = Ok id ->
          exists row, row ∈ tbl_resources st /\ sto_ID (rr_Res row) = id /\
            sto_LeaseID (rr_Res row) = l /\ slot (rr_Res row) = (d, res_Kind r, res_Name r)
      | AMarkResourceActive id => fun x => x = None -> id ∈ new_rows before ->
          exists row, row ∈ tbl_resources st /\ sto_ID (rr_Res row) = id /\
            sto_Status (rr_Res row) <> "creating"
      | AProvision _ plan => fun x => forall r, x = Ok r -> res_Name r = pl_ResourceName plan
      | _ => fun _ => True
      end x
  end.

Lemma holds_in_grows st st' before e : grows st st' -> holds_in st before e -> holds_in st' before e.
Proof.
  intros [Hl Hr] H. destruct e as [a x]. destruct a; simpl in *; try done.
  - intros Hx. by apply Hl, H.
  - intros id Hx. destruct (H id Hx) as (row & Hin & <- & <- & Hslot).
    destruct (Hr row Hin) as (row' & Hin' & (Hid & Hlease & Hs) & _).
    exists row'. split_and!; [done..|by rewrite Hs].
  - intros Hx Hid. destruct (H Hx Hid) as (row & Hin & <- & Hst).
    destruct (Hr row Hin) as (row' & Hin' & (Hk & _) & Hst'). exists row'. split_and!; [done..|auto].
Qed.

Lemma safe_grows st st' tr : grows st st' -> safe (holds_in st) tr -> safe (holds_in st') tr.
Proof. intros Hg Hs before e after Heq. by eapply holds_in_grows, Hs. Qed.

Lemma new_rows_in st tr id : safe (holds_in st) tr -> id ∈ new_rows tr ->
  id ∈ (fun r => sto_ID (rr_Res r)) <$> tbl_resources st.
Proof.
  intros Hs (e & Hin & He)%list_elem_of_omap. apply list_elem_of_split in Hin as (t1 & t2 & Heq).
  specialize (Hs t1 e t2 Heq). destruct e as [a x]. destruct a; simpl in *; try done.
  destruct x as [id'|]; simplify_eq. destruct (Hs _ eq_refl) as (row & Hin & <- & _).
  by apply (list_elem_of_fmap_2 (fun r => sto_ID (rr_Res r))).
Qed.

Lemma new_leases_in st tr id : safe (holds_in st) tr -> id ∈ new_leases tr ->
  id ∈ lr_ID <$> tbl_leases st.
Proof.
  intros Hs (e & Hin & He)%list_elem_of_omap. apply list_elem_of_split in Hin as (t1 & t2 & Heq).
  specialize (Hs t1 e t2 Heq). destruct e as [a x]. destruct a; simpl in *; try done.
  destruct x; simplify_eq. auto.
Qed.

Lemma handle_fact ok a s tr :
  safe (holds_in (sys_store s)) tr ->
  holds_in (sys_store (handle ok a s).1) tr (Ev a (handle ok a s).2).
Proof.
  intros Hs. destruct a; simpl; try done; try (by destruct ok); unfold on_store; simpl.
  - unfold InsertLease. destruct (_ || _); simpl; [done|]. intros _. rewrite fmap_app. set_solver.
  - unfold InsertResource. destruct (negb ok); simpl; [done|].
    destruct (existsb _ _); simpl; [done|]. intros id [= <-]. eexists. split; [apply elem_of_app; right; by left|done].
  - unfold MarkResourceActive. destruct (negb ok); simpl; [done|]. case_bool_decide; simpl; [|done].
    intros _ Hid. apply (new_rows_in _ _ _ Hs), list_elem_of_fmap in Hid as (row & -> & Hrow).
    exists (set_resource_status (sto_ID (rr_Res row)) "active" row).
    split; [by apply list_elem_of_fmap_2|]. unfold set_resource_status. by rewrite String.eqb_refl.
  - destruct ok; [|done]. by intros r [= <-].
Qed.

Lemma handle_inserted_row ok a s id :
  inserted_row (Ev a (handle ok a s).2) = Some id ->
  id ∉ (fun r => sto_ID (rr_Res r)) <$> tbl_resources (sys_store s).
Proof.
  destruct a; simpl; try done. unfold on_store, InsertResource. simpl.
  destruct (negb ok); simpl; [done|]. destruct (existsb _ _) eqn:E; simpl; [done|].
  intros [= <-] (row & Heq & Hin)%list_elem_of_fmap.
  apply not_true_iff_false in E. apply E, existsb_exists. exists row.
  split; [by apply list_elem_of_In|]. by rewrite Heq, String.eqb_refl.
Qed.

Lemma handle_new_lease ok a s id :
  new_lease (Ev a (handle ok a s).2) = Some id -> id ∉ lr_ID <$> tbl_leases (sys_store s).
Proof.
  destruct a; simpl; try done. unfold on_store, InsertLease. simpl.
  destruct (_ || _) eqn:E; simpl; [done|]. apply orb_false_iff in E as [_ E].
  intros [= <-] (row & Heq & Hin)%list_elem_of_fmap.
  apply not_true_iff_false in E. apply E, existsb_exists. exists row.
  split; [by apply list_elem_of_In|]. by rewrite Heq, String.eqb_refl.
Qed.

(** ** The traces of the operations of a run *)

(** What an operation has achieved when it ends. *)
Definition achieved (o : outcome) (tr : trace) : Prop :=
  match o with
  | OLease (Ok l) => settled (Ok l) tr /\
      exists lease, lse_ID l = lse_ID lease /\ Ev (AInsertLease lease) (None : err) ∈ tr
  | _ => True
  end.

Lemma wp_any {A} (p : prog A) tr : wp p tr (fun _ _ => True).
Proof. eapply wp_mono; [|apply wp_extends]. done. Qed.

Lemma program_achieves o : wp (program o) [] achieved.
Proof.
  destruct o; cbn [program]; apply wp_bind; [|by (eapply wp_mono; [|apply wp_any])..].
  eapply wp_mono; [|apply Acquire_spec]. intros [l|e] tr (_ & Hs & Hl); [by split|done].
Qed.

(** Each operation with its trace: what it will have achieved, what the answers it got mean in the
    tables, and that no two calls have inserted one row or one lease. *)
Record traced (c : config) (trs : list trace) : Prop := {
  tc_ops : Forall2 (fun p tr => wp p tr achieved) c.1 trs;
  tc_facts : Forall (safe (holds_in (sys_store c.2))) trs;
  tc_rows : NoDup (trs ≫= new_rows);
  tc_leases : NoDup (trs ≫= new_leases);
}.

Lemma mbind_insert_perm {A B} (f : A -> list B) l i x y z :
  l !! i = Some x -> f y = (f x ++ z)%list -> <[i := y]> l ≫= f ≡ₚ z ++ (l ≫= f).
Proof.
  intros Hx Hy. rewrite <-(take_drop_middle l i x Hx) at 2.
  rewrite insert_take_drop by (by eapply lookup_lt_Some).
  rewrite !bind_app, !bind_cons, Hy, <-!(assoc_L (++)).
  by rewrite (Permutation_app_swap_app (f x) z), (Permutation_app_swap_app _ z).
Qed.

Lemma NoDup_step {A} (f : trace -> list A) (g : event -> option A) trs i tr e :
  (forall tr e, f (tr ++ [e])%list = f tr ++ match g e with Some x => [x] | None => [] end)%list ->
  trs !! i = Some tr -> NoDup (trs ≫= f) -> (forall x, g e = Some x -> x ∉ trs ≫= f) ->
  NoDup (<[i := (tr ++ [e])%list]> trs ≫= f).
Proof.
  intros Hf Hi Hn Hnew. rewrite (mbind_insert_perm f trs i tr _ _ Hi (Hf tr e)).
  destruct (g e) as [x|]; [|done]. apply NoDup_app. split_and!; [by apply NoDup_singleton| |done].
  intros y ->%list_elem_of_singleton. by apply Hnew.
Qed.

Lemma traced_step c t trs : traced c trs -> exists trs', traced (tick_step c t) trs'.
Proof.
  intros [Ho Hf Hr Hl]. destruct t as [o|i ok|n|l|t]; simpl; try (by exists trs).
  { exists (trs ++ [[]])%list. split; simpl.
    - apply Forall2_app; [done|]. constructor; [apply program_achieves|constructor].
    - apply Forall_app_2; [done|]. apply Forall_singleton, safe_nil.
    - by rewrite bind_app, app_nil_r.
    - by rewrite bind_app, app_nil_r. }
  destruct (c.1 !! i) as [p|] eqn:Ep; [|by exists trs].
  destruct (Forall2_lookup_l _ _ _ _ _ Ho Ep) as (tr & Etr & Hp).
  destruct p as [x|a k]; simpl.
  { exists trs. split; simpl; [by rewrite list_insert_id|done..]. }
  pose proof (handle_grows ok a c.2) as Hg.
  pose proof (handle_fact ok a c.2 tr ltac:(by eapply Forall_lookup_1)) as Hfact.
  pose proof (handle_inserted_row ok a c.2) as Hnr. pose proof (handle_new_lease ok a c.2) as Hnl.
  destruct (handle ok a c.2) as [s' x] eqn:E. simpl in Hg, Hfact, Hnr, Hnl.
  exists (<[i := (tr ++ [Ev a x])%list]> trs). split; simpl.
  - apply Forall2_insert; [done|]. apply Hp.
  - apply Forall_insert.
    + eapply Forall_impl; [exact Hf|]. intros tr'. by apply safe_grows.
    + apply safe_snoc. split; [|done]. eapply safe_grows; [done|]. by eapply Forall_lookup_1.
  - apply (NoDup_step new_rows inserted_row); [|done|done|].
    { intros tr' e. unfold new_rows. rewrite omap_app. simpl. by destruct (inserted_row e). }
    intros id Hid (tr' & Hin & Htr')%list_elem_of_bind. rewrite Forall_forall in Hf.
    by apply (Hnr id Hid), (new_rows_in _ tr'); [apply Hf|].
  - apply (NoDup_step new_leases new_lease); [|done|done|].
    { intros tr' e. unfold new_leases. rewrite omap_app. simpl. by destruct (new_lease e). }
    intros id Hid (tr' & Hin & Htr')%list_elem_of_bind. rewrite Forall_forall in Hf.
    by apply (Hnl id Hid), (new_leases_in _ tr'); [apply Hf|].
Qed.

Lemma traced_run ticks c trs : traced c trs -> exists trs', traced (run_ticks ticks c) trs'.
Proof.
  unfold run_ticks. revert c trs. induction ticks as [|t ticks IH]; intros c trs H; [by exists trs|].
  destruct (traced_step c t trs H) as [trs' H']. by eapply IH.
Qed.

(** ** Leases that were delivered *)

(** Operation [i] is an acquisition that returned this lease. *)
Definition returned (c : config) (i : nat) (l : Lease) : Prop := c.1 !! i = Some (Done (OLease (Ok l))).

(** The lease has a row for the resource: registered under the lease and the name of the
    resource, and set active since (it can have been given back later). *)
Definition held (st : Store) (l : Lease) (r : Resource) (x : StoredResource) : Prop :=
  x ∈ rr_Res <$> tbl_resources st /\ sto_LeaseID x = lse_ID l /\ sto_Name x = res_Name r /\
  sto_Status x <> "creating".

Lemma held_row st leaseID tr c l :
  store_ok st -> safe (holds_in st) tr -> delivered leaseID tr c -> lse_ID l = leaseID ->
  exists x, held st l (crt_resource c) x /\ sto_ID x = sto_ID (crt_stored c).
Proof.
  intros [_ Hids _] Hs (before & after & stored & plan & r & Heq & Hins & Hname & Hprov & Hc) Hl.
  pose proof (Hs before _ after Heq) as Hact. simpl in Hact.
  apply list_elem_of_split in Hins as (t1 & t2 & Hins).
  apply list_elem_of_split in Hprov as (t3 & t4 & Hprov).
  assert (sto_ID (crt_stored c) ∈ new_rows before) as Hnew.
  { apply list_elem_of_omap. eexists. split; [rewrite Hins; apply elem_of_app; right; by left|done]. }
  destruct (Hact eq_refl Hnew) as (row & Hrow & Hid & Hst).
  assert (tr = t1 ++ Ev (AInsertResource leaseID (ds_ID (crt_datasource c)) stored)
    (Ok (sto_ID (crt_stored c))) :: (t2 ++ Ev (AMarkResourceActive (sto_ID (crt_stored c))) None :: after))%list
    as E1 by (by rewrite Heq, Hins, <-app_assoc).
  assert (tr = t3 ++ Ev (AProvision (crt_datasource c) plan) (Ok r) ::
    (t4 ++ Ev (AMarkResourceActive (sto_ID (crt_stored c))) None :: after))%list
    as E2 by (by rewrite Heq, Hprov, <-app_assoc).
  pose proof (Hs _ _ _ E1) as F1. pose proof (Hs _ _ _ E2) as F2. simpl in F1, F2.
  destruct (F1 _ eq_refl) as (row' & Hrow' & Hid' & Hlease & Hslot).
  assert (row = row') as <-.
  { apply list_elem_of_lookup in Hrow as [i Hi]. apply list_elem_of_lookup in Hrow' as [j Hj].
    assert (i = j) as ->; [|congruence].
    eapply NoDup_lookup; [exact Hids|by rewrite list_lookup_fmap, Hi|].
    rewrite list_lookup_fmap, Hj. simpl. congruence. }
  exists (rr_Res row). split; [|done]. unfold held, slot in *.
  split_and!; [by apply list_elem_of_fmap_2|congruence| |done].
  injection Hslot as _ _ ->. rewrite Hname, Hc. simpl. by rewrite (F2 _ eq_refl).
Qed.

Lemma registered_bound tr : registered (books_of tr) ⊆ list_to_set_disj (new_rows tr).
Proof.
  induction tr as [|[a x] tr IH] using rev_ind; [done|].
  rewrite books_snoc. unfold new_rows in *. rewrite omap_app, list_to_set_disj_app. revert IH.
  destruct a, (books_of tr); simpl; intros IH; try (by rewrite (right_id_L ∅ (⊎)));
    destruct x; simpl; rewrite ?(right_id_L ∅ (⊎)); try done; multiset_solver.
Qed.

Lemma NoDup_disj `{Countable A} (l : list A) :
  NoDup l <-> forall x, multiplicity x (list_to_set_disj l : gmultiset A) <= 1.
Proof.
  induction l as [|y l IH]; simpl; [split; [intros _ x; multiset_solver|constructor]|].
  rewrite NoDup_cons, IH. setoid_rewrite multiplicity_disj_union.
  setoid_rewrite <-(elem_of_list_to_set_disj (A := A) y l). rewrite elem_of_multiplicity. split.
  - intros [Hy Hl] x. specialize (Hl x). rewrite multiplicity_singleton.
    destruct (decide (x = y)) as [->|]; lia.
  - intros H1. split.
    + specialize (H1 y). rewrite multiplicity_singleton_eq in H1. lia.
    + intros x. specialize (H1 x). lia.
Qed.

Lemma NoDup_mbind_lookup {A B} (f : A -> list B) l i x :
  NoDup (l ≫= f) -> l !! i = Some x -> NoDup (f x).
Proof.
  intros Hn Hi. rewrite <-(take_drop_middle l i x Hi), bind_app, bind_cons in Hn.
  apply NoDup_app in Hn as (_ & _ & Hn). by apply NoDup_app in Hn as (? & _).
Qed.

Lemma NoDup_mbind_disjoint {A B} (f : A -> list B) l i j x y b :
  NoDup (l ≫= f) -> l !! i = Some x -> l !! j = Some y -> b ∈ f x -> b ∈ f y -> i = j.
Proof.
  revert i j. induction l as [|z l IH]; intros i j; [done|]. rewrite bind_cons.
  intros (Hz & Hd & Hl)%NoDup_app Hi Hj Hbx Hby.
  assert (forall k w, l !! k = Some w -> b ∈ f w -> b ∈ l ≫= f) as Hin.
  { intros k w Hk Hw. apply list_elem_of_bind. exists w. split; [done|by eapply list_elem_of_lookup_2]. }
  destruct i as [|i], j as [|j]; simplify_eq/=; [done| | |f_equal; by eapply IH].
  - exfalso. by eapply Hd, Hin.
  - exfalso. by eapply Hd, Hin.
Qed.

(** The rows of a lease that was returned. *)
Lemma returned_rows c trs i l :
  traced c trs -> store_ok (sys_store c.2) -> returned c i l ->
  exists tr, trs !! i = Some tr /\ lse_ID l ∈ new_leases tr /\
  exists rows, Forall2 (held (sys_store c.2) l) (lse_Resources l) rows /\ NoDup (sto_ID <$> rows).
Proof.
  intros [Ho Hf Hr _] Hok Hi. destruct (Forall2_lookup_l _ _ _ _ _ Ho Hi) as (tr & Htr & Hach).
  exists tr. split; [done|]. destruct Hach as [(created & Hres & Hdel & Hb) (lease & Hid & Hin)].
  assert (safe (holds_in (sys_store c.2)) tr) as Hs by (by eapply Forall_lookup_1).
  split. { apply list_elem_of_omap. eexists. split; [exact Hin|]. by rewrite Hid. }
  assert (exists rows, Forall2 (held (sys_store c.2) l) (crt_resource <$> created) rows /\
    sto_ID <$> rows = (fun c => sto_ID (crt_stored c)) <$> created) as (rows & Hrows & Hids).
  { clear Hres Hb. induction Hdel as [|d created Hd _ IH]; [by exists []; split; [constructor|]|].
    destruct IH as (rows & H1 & H2). destruct (held_row _ _ _ _ l Hok Hs Hd eq_refl) as (x & Hx & E).
    exists (x :: rows). split; [by constructor|]. csimpl. by rewrite E, H2. }
  exists rows. rewrite Hres. split; [done|]. rewrite Hids. apply NoDup_disj.
  pose proof (registered_bound tr) as Hsub. rewrite Hb in Hsub. simpl in Hsub.
  pose proof (NoDup_mbind_lookup new_rows trs i tr Hr Htr) as Hn. rewrite NoDup_disj in Hn.
  intros x. specialize (Hsub x). specialize (Hn x). unfold created_rows in Hsub. lia.
Qed.

(** Rows that occupy one slot are one row. *)
Lemma slot_inj st x y :
  store_ok st -> x ∈ rr_Res <$> tbl_resources st -> y ∈ rr_Res <$> tbl_resources st ->
  occupies x = true -> occupies y = true -> slot x = slot y -> x = y.
Proof.
  intros [Hs _ _] Hi Hj Hx Hy Heq. revert Hs Hi Hj. generalize (rr_Res <$> tbl_resources st).
  intros l. induction l as [|z l IH]; simpl; [by intros _ ?%elem_of_nil|].
  destruct (occupies z) eqn:Ez; csimpl.
  - intros [Hz Hnd]%NoDup_cons.
    assert (forall w, w ∈ l -> occupies w = true -> slot w <> slot z) as Hw.
    { intros w Hw Ho Hs. apply Hz. rewrite <-Hs. apply list_elem_of_fmap_2, list_elem_of_In,
        List.filter_In. split; [by apply list_elem_of_In|done]. }
    intros [->|H1]%elem_of_cons [->|H2]%elem_of_cons; auto.
    + exfalso. by apply (Hw y).
    + exfalso. by apply (Hw x).
  - intros Hnd [->|H1]%elem_of_cons [->|H2]%elem_of_cons; try congruence. auto.
Qed.

(** C13: two leases never hold the same database.  From empty tables, under every interleaving of any
    number of acquisitions, renewals, releases and reconciliations, whichever calls fail: for each
    resource of a lease that an acquisition returned there is a row of its own that was inserted
    under this lease and the name of the resource and set active since; the rows of the leases of
    two acquisitions are different rows, and two of them that have not been given back differ in
    data source, kind or name.  (That the tables refuse a second row for a slot in use, or a second
    row with an identifier, is the unique index and the primary key of the schema; that the manager
    delivers nothing without such a row is what is proved.) *)
Theorem resource_slots_exclusive ticks s :
  sys_store s = mkStore [] [] ->
  let c := run_ticks ticks ([], s) in
  let st := sys_store c.2 in
  (forall i l, returned c i l ->
     exists rows, Forall2 (held st l) (lse_Resources l) rows /\ NoDup (sto_ID <$> rows)) /\
  (forall i j l1 l2 r1 r2 x1 x2, returned c i l1 -> returned c j l2 -> i <> j ->
     held st l1 r1 x1 -> held st l2 r2 x2 ->
     x1 <> x2 /\ (occupies x1 = true -> occupies x2 = true -> slot x1 <> slot x2)).
Proof.
  intros H0 c st. assert (store_ok st) as Hok.
  { apply run_ticks_ok. simpl. rewrite H0. split; constructor. }
  destruct (traced_run ticks ([], s) []) as [trs Ht]; [split; constructor|]. split.
  { intros i l Hi. destruct (returned_rows c trs i l Ht Hok Hi) as (tr & _ & _ & H). exact H. }
  intros i j l1 l2 r1 r2 x1 x2 Hi Hj Hne H1 H2.
  assert (x1 <> x2) as Hx.
  { intros <-. destruct H1 as (_ & E1 & _), H2 as (_ & E2 & _).
    destruct (returned_rows c trs i l1 Ht Hok Hi) as (tr1 & Htr1 & Hl1 & _).
    destruct (returned_rows c trs j l2 Ht Hok Hj) as (tr2 & Htr2 & Hl2 & _).
    apply Hne. rewrite <-E1 in Hl1. rewrite <-E2 in Hl2.
    eapply (NoDup_mbind_disjoint new_leases trs); [apply Ht|done..]. }
  split; [done|]. intros Ho1 Ho2 Hs. apply Hx. eapply slot_inj; [done|apply H1|apply H2|done..].
Qed.

(** ** Runs

    One project with a PostgreSQL server and room for one lease. *)

Definition example_source : DataSource :=
  mkDataSource "ds1" KindPostgres "main" "db.local" 5432 "admin" "secret" ∅
    (mkProbe true 0 "" ∅ ∅ [] "" "") "manual" 0.

Definition example_binding : ProjectBinding :=
  mkBinding (Some (mkPostgres "main" "shop_dev" true)) None 1 0.

Definition start_time : time := from_Unix 1700000000.

(** The gate of a project whose owner approves nothing that cuts connections. *)
Definition strict_gate (plans : list Plan) : err :=
  if existsb (fun p => bool_decide (pl_SideEffects p <> [])) plans
  then Some (ErrText "approval_required") else None.

Definition example_system : system :=
  mkSystem (mkStore [] []) [("p1", (example_binding, "shop"))] [example_source] [] 0 strict_gate
    start_time 0.

Definition example_request : AcquireRequest := mkAcquire "p1" "integration tests" 0 [].
Definition acquire : tick := Start (PAcquire true example_request).

Definition acquired : config := run_ticks (acquire :: calls 0 13) ([], example_system).

Definition example_key : string * string * string :=
  ("ds1", KindPostgres, "sdev_eph_shop_000000000001").

(** The outcome of an operation that has ended. *)
Definition ended (c : config) (i : nat) : option outcome :=
  match c.1 !! i with Some (Done x) => Some x | _ => None end.

Definition succeeded (o : option outcome) : bool :=
  match o with Some (OLease (Ok _)) => true | _ => false end.

(** An acquisition alone delivers its database. *)
Example acquired_ex :
  succeeded (ended acquired 0) = true /\ sys_live acquired.2 = [example_key] /\
  (sto_Status ∘ rr_Res) <$> tbl_resources (sys_store acquired.2) = ["active"].
Proof. vm_compute. done. Qed.

(** Two acquisitions whose calls interleave. *)
Definition two_ticks : list tick :=
  ([acquire; acquire] ++ calls 0 2 ++ calls 1 2 ++ calls 0 11 ++ calls 1 11)%list.

Lemma resource_slots_exclusive_witness :
  let c := run_ticks two_ticks ([], example_system) in
  let st := sys_store c.2 in
  exists l1 l2 x1 x2, returned c 0 l1 /\ returned c 1 l2 /\
    rr_Res <$> tbl_resources st = [x1; x2] /\
    (exists rows, Forall2 (held st l1) (lse_Resources l1) rows /\ NoDup (sto_ID <$> rows)) /\
    slot x1 <> slot x2.
Proof.
  destruct (resource_slots_exclusive two_ticks example_system eq_refl) as [H1 H2].
  do 4 eexists. split; [vm_compute; reflexivity|]. split; [vm_compute; reflexivity|].
  split; [vm_compute; reflexivity|]. split; [apply (H1 0%nat); vm_compute; reflexivity|].
  eapply (H2 0%nat 1%nat _ _ (mkResource KindPostgres "sdev_eph_shop_000000000001" "dsn" ∅)
    (mkResource KindPostgres "sdev_eph_shop_000000000004" "dsn" ∅)).
  - vm_compute; reflexivity.
  - vm_compute; reflexivity.
  - lia.
  - split_and!; [vm_compute; by left|vm_compute; reflexivity|vm_compute; reflexivity|vm_compute; discriminate].
  - split_and!; [vm_compute; by right; left|vm_compute; reflexivity|vm_compute; reflexivity|vm_compute; discriminate].
  - reflexivity.
  - reflexivity.
Defined.

(** Defect: the quota is read and used by two statements.  Two acquisitions that read it
    before either inserts its lease both succeed, with a quota of one. *)
Theorem quota_race :
  let c := run_ticks ([acquire; acquire] ++ calls 0 2 ++ calls 1 2 ++ calls 0 11 ++ calls 1 11)%list
             ([], example_system) in
  lease_quota example_binding = 1%Z /\
  succeeded (ended c 0) = true /\ succeeded (ended c 1) = true /\
  CountActiveLeases true "p1" (sys_store c.2) = Ok 2%Z.
Proof. vm_compute. done. Qed.

(** Defect: [Reconcile] reads the registered resources before it asks the server what exists.
    A database that is registered and created in between is reported as an orphan and
    dropped, although its lease was just handed out. *)
Theorem reconcile_drops_fresh :
  let c := run_ticks ([Start (PReconcile true); acquire] ++ calls 0 4 ++ calls 1 13 ++ calls 0 2)%list
             ([], example_system) in
  succeeded (ended c 1) = true /\
  (sto_Status ∘ rr_Res) <$> tbl_resources (sys_store c.2) = ["active"] /\
  sys_live c.2 = [] /\
  ended c 0 = Some (OReport (Ok (mkReport 0
    [mkOrphan KindPostgres "sdev_eph_shop_000000000001" ""] []))).
Proof. vm_compute. done. Qed.

(** Defect: a release that cannot find a data source still marks the lease as released.  A
    second release answers that all is well without a single call to the server, and
    [Reconcile] spares the database because its row is still registered: it is never
    reclaimed, even after the data source is back. *)
Theorem release_leaks :
  let c := run_ticks
    ([Sources []; Start (PRelease "000000000000")] ++ calls 1 3 ++
     [Sources [example_source]; Start (PRelease "000000000000")] ++ calls 2 1 ++
     [Clock (start_time + 24 * 60 * minute)%Z; Start (PReconcile true)] ++ calls 3 5)%list acquired in
  ended c 1 = Some (OErrors [ErrDataSourceNotFound]) /\
  ended c 2 = Some (OErrors []) /\
  ended c 3 = Some (OReport (Ok (mkReport 0 [] []))) /\
  sys_live c.2 = [example_key] /\
  lr_Status <$> tbl_leases (sys_store c.2) = ["released"].
Proof. vm_compute. done. Qed.

(** The plan that an operation is about to carry out. *)
Definition provisioning (c : config) (i : nat) : option Plan :=
  match c.1 !! i with
  | Some (Act (AProvision _ plan) _) => Some plan
  | _ => None
  end.

(** Defect: after a slot conflict the manager plans again, and the new plan does not pass the
    gate: connections that were opened since the first plan are cut without an approval. *)
Theorem replan_skips_gate :
  let taken := mkResourceRow (mkStored "r0" "l0" "ds1" KindPostgres
    "sdev_eph_shop_000000000001" ∅ "creating") 0 in
  let s := with_store (mkStore [] [taken]) example_system in
  let c := run_ticks ([acquire] ++ calls 0 9 ++ [Connections 3] ++ calls 0 7)%list ([], s) in
  exists plan, provisioning c 0 = Some plan /\
    pl_SideEffects plan = [mkSideEffect SideEffectTerminateConnections "shop_dev" "" 3] /\
    strict_gate [plan] = Some (ErrText "approval_required") /\
    succeeded (ended (run_ticks (calls 0 2) c) 0) = true.
Proof. eexists. vm_compute. done. Qed.

(** Half an hour passes, and the lease is renewed, [n] times. *)
Fixpoint renewals (n : nat) (i : nat) (t : time) : list tick :=
  match n with
  | O => []
  | S n' =>
      let t := (t + defaultTTL)%Z in
      ([Clock t; Start (PRenew "000000000000" 0)] ++ calls i 4 ++ renewals n' (S i) t)%list
  end.

(** Defect: the comment of [Renew] says that a lease lives at most 24 hours; a lease that is
    renewed in time is renewed at the age of 24 hours, too, and expires later. *)
Theorem Renew_outlives_limit :
  let c := run_ticks (renewals 48 1 start_time) acquired in
  (fun r => lr_ExpiresAt r - lr_CreatedAt r)%Z <$> tbl_leases (sys_store c.2)
  = [((absoluteLeaseLifetime + defaultTTL) / second)%Z].
Proof. vm_compute. done. Qed.
