(* ===== verification/ProvisionGate.v ===== *)
(** * The approval gate of temporary databases (agent/api/provision_approval_gate.go)

    Creating a temporary database may cut the connections to the database it is
    cloned from.  This gate is what the lease manager calls [Authorize] ([Lease],
    [AAuthorize]); it uses the settings, the grace windows and the approvals of the
    operation gate. *)
From stdpp Require Import base list strings gmap.
From Stdlib Require Import ZArith Lia.
From S2P Require Import Prelude Model OperationTypes OperationPolicy ApprovalStore ApprovalProtocol.
From S2P Require Import GraceStore Settings Provision.
Local Open Scope string_scope.

(** The stores; [None] where one is not set. *)
Record ProvisionApprovalGate : Type := mkGate {
  gate_settings : option (file SettingsDoc);
  gate_approvals : option ApprovalFileStore;
  gate_grace : option (file (list GraceGrant));
}.

Definition set_gate_grace (f : file (list GraceGrant)) (g : ProvisionApprovalGate)
    : ProvisionApprovalGate := mkGate (gate_settings g) (gate_approvals g) (Some f).
Definition set_gate_approvals (s : ApprovalFileStore) (g : ProvisionApprovalGate)
    : ProvisionApprovalGate := mkGate (gate_settings g) (Some s) (gate_grace g).

(** The errors of [Authorize]: an approval to wait for, an error of the approval store,
    or no approval store. *)
Inductive gate_error : Type :=
| ApprovalRequiredError (approval : Approval)
| ErrStore (e : OperationTypes.error)
| ErrNotConfigured.

Fixpoint first_effect (effects : list SideEffect) : option (string * Z * string) :=
  match effects with
  | [] => None
  | e :: rest =>
      if se_Kind e =? SideEffectTerminateConnections
      then Some (se_Target e, se_Count e, se_Detail e) else first_effect rest
  end.

(** The target, the number of connections and the detail of the first such effect. *)
Fixpoint terminateEffect (plans : list Provision.Plan) : option (string * Z * string) :=
  match plans with
  | [] => None
  | plan :: rest =>
      match first_effect (pl_SideEffects plan) with
      | Some e => Some e
      | None => terminateEffect rest
      end
  end.

(** The worlds of the calls of one request: the settings, the plan, the grace windows
    and the approvals. *)
Record GateEnv : Type := mkGateEnv {
  ge_settings : World;
  ge_plan : World;
  ge_grace : World;
  ge_approvals : World;
}.

Section Gate.
Context {D : Digest}.

(** The switch of the settings; it is on when they cannot be read. *)
Definition terminate_policy (w : World) (settings : option (file SettingsDoc)) : bool :=
  match settings with
  | None => true
  | Some f =>
      match Load w f with
      | Ok s => TestDatabaseTerminateConns (set_Approval s)
      | Err _ => true
      end
  end.

(** The grace windows after the lookup, and whether one lets the request pass. *)
Definition gate_grace_lookup (w : World) (g : ProvisionApprovalGate) (projectID : string)
    : ProvisionApprovalGate * bool :=
  match gate_grace g with
  | None => (g, false)
  | Some f =>
      let '(f', r) := ActiveGrace w f projectID in
      (set_gate_grace f' g, match r with Ok (Some _) => true | _ => false end)
  end.

(** [token] is the value that [WithProvisionApprovalToken] put into the context, trimmed. *)
Definition Authorize (e : GateEnv) (g : ProvisionApprovalGate) (token projectID : string)
    (plans : list Provision.Plan) : ProvisionApprovalGate * option gate_error :=
  let token := TrimSpace token in
  match terminateEffect plans with
  | None => (g, None)
  | Some (target, count, detail) =>
      let policyEnabled := terminate_policy (ge_settings e) (gate_settings g) in
      let plan := PlanTestDatabaseTerminate (ge_plan e) projectID target count detail in
      let '(g, active) := gate_grace_lookup (ge_grace e) g projectID in
      if active then (g, None)
      else if negb policyEnabled then (g, None)
      else
        match gate_approvals g with
        | None => (g, Some ErrNotConfigured)
        | Some s =>
            if negb (TrimSpace token =? "") then
              let '(s', r) := ConsumeToken (ge_approvals e) s token (plan_Fingerprint plan) in
              (set_gate_approvals s' g,
               match r with Ok _ => None | Err err => Some (ErrStore err) end)
            else
              let '(s', r) := FindOrCreatePending (ge_approvals e) s plan "mcp" "AI" in
              (set_gate_approvals s' g,
               match r with
               | Ok approval => Some (ApprovalRequiredError approval)
               | Err err => Some (ErrStore err)
               end)
        end
  end.

(** ** Theorems *)

Lemma first_effect_None effects :
  first_effect effects = None <->
  Forall (fun e => se_Kind e <> SideEffectTerminateConnections) effects.
Proof.
  induction effects as [|e effects IH]; simpl; [by split|].
  rewrite Forall_cons. destruct (String.eqb_spec (se_Kind e) SideEffectTerminateConnections).
  - split; [done|by intros [? _]].
  - rewrite IH. tauto.
Qed.

Lemma terminateEffect_None plans :
  terminateEffect plans = None <->
  Forall (fun p => Forall (fun e => se_Kind e <> SideEffectTerminateConnections)
                     (pl_SideEffects p)) plans.
Proof.
  induction plans as [|p plans IH]; simpl; [by split|].
  rewrite Forall_cons, <-first_effect_None. destruct (first_effect _); [|by rewrite IH; tauto].
  split; [done|by intros [? _]].
Qed.

Lemma TrimSpace_trimmed t : (TrimSpace (TrimSpace t) =? "") = (TrimSpace t =? "").
Proof. by rewrite TrimSpace_idem. Qed.

(** C15: connections to a development database are cut only with consent: the gate lets plans
    pass only if none of them cuts a connection, or a readable setting lifts the need for
    an approval, or a grace window of the project is open, or the request carries the last
    token of an approval that somebody gave for exactly this database, number and list of
    connections, that has not expired and was never used; settings that cannot be read lift
    nothing. *)
Theorem provision_gate_sound {HD : CollisionFree D} limit h e g s token projectID plans g' :
  gate_approvals g = Some s -> Reach limit s h -> fresh (ge_approvals e) h ->
  Authorize e g token projectID plans = (g', None) ->
  Forall (fun p => Forall (fun x => se_Kind x <> SideEffectTerminateConnections)
                     (pl_SideEffects p)) plans \/
  exists target count detail, terminateEffect plans = Some (target, count, detail) /\
    ((exists f settings, gate_settings g = Some f /\ Load (ge_settings e) f = Ok settings /\
        TestDatabaseTerminateConns (set_Approval settings) = false) \/
     (exists f l grant, gate_grace g = Some f /\ grace_load (ge_grace e) f = Ok l /\
        window l (w_now (ge_grace e)) grant /\ gr_ProjectID grant = trim projectID) \/
     (exists a, let fingerprint := TrimSpace (plan_Fingerprint
           (PlanTestDatabaseTerminate (ge_plan e) projectID target count detail)) in
        plan_Fingerprint (app_Plan a) = fingerprint /\
        allowed h (Consumed (TrimSpace token) (app_ID a) fingerprint (w_now (ge_approvals e))))).
Proof.
  intros Hs Hreach Hfresh. unfold Authorize. cbv zeta.
  destruct (terminateEffect plans) as [[[target count] detail]|] eqn:He.
  2: { intros _. left. by apply terminateEffect_None. }
  intros H. right. exists target, count, detail. split; [done|].
  destruct (gate_grace_lookup _ _ _) as [g1 active] eqn:Hg.
  assert (gate_approvals g1 = Some s /\ (active = true -> exists f l grant, gate_grace g = Some f /\
    grace_load (ge_grace e) f = Ok l /\ window l (w_now (ge_grace e)) grant /\
    gr_ProjectID grant = trim projectID)) as [Hs1 Hact].
  { unfold gate_grace_lookup in Hg. destruct (gate_grace g) as [f|]; [|by simplify_eq].
    destruct (ActiveGrace _ _ _) as [f' [[grant|]|]] eqn:Ha; simplify_eq; (split; [done|]);
      [|done|done].
    intros _. apply ActiveGrace_hit in Ha as (l & ? & ? & ?). by exists f, l, grant. }
  destruct active; [right; left; by apply Hact|].
  destruct (terminate_policy _ _) eqn:Hp; simpl in H.
  2: { left. unfold terminate_policy in Hp. destruct (gate_settings g) as [f|]; [|done].
       destruct (Load _ _) as [st|] eqn:Hl; [|done]. by exists f, st. }
  rewrite Hs1 in H. destruct (negb _).
  - destruct (ConsumeToken _ _ _ _) as [s' [a|err]] eqn:Hc; [|done].
    right. right. exists a.
    destruct (ConsumeToken_inv _ _ _ _ _ _ _ _ Hreach Hfresh Hc) as (_ & ? & Hall).
    split; [done|]. by rewrite TrimSpace_idem in Hall.
  - destruct (FindOrCreatePending _ _ _ _ _) as [s' [a|err]]; done.
Qed.
End Gate.

(** ** The theorem at a concrete run *)

Section Example_run.
Local Instance gate_digest : Digest := identity_digest.
Local Instance gate_collision_free : CollisionFree gate_digest := identity_digest_collision_free.

Definition busy_plan : Provision.Plan :=
  Provision.mkPlan KindPostgres "sdev_eph_shop_0123456789ab" []
    [mkSideEffect SideEffectTerminateConnections "shop_dev" "app(pid 7)" 1] ∅.

Definition busy_ops : list (World * op) :=
  [(example_world 1000 "opa_1" "t1",
    OpFindOrCreatePending
      (PlanTestDatabaseTerminate (example_world 1000 "op_1" "") "p1" "shop_dev" 1 "app(pid 7)")
      "mcp" "AI");
   (example_world 2000 "opa_2" "t2", OpApprove "opa_1" "alice" "ok");
   (example_world 3000 "opa_3" "t3", OpIssueToken "opa_1")].

Definition busy_run : ApprovalFileStore * list event :=
  run_ops busy_ops (mkApprovalFileStore 1000 Missing, []).

Definition busy_env : GateEnv :=
  let w := example_world 4000 "op_9" "t9" in mkGateEnv w w w w.

(** The token that was issued lets exactly the approved plan pass, once. *)
Lemma provision_gate_sound_witness :
  let g := mkGate (Some Missing) (Some busy_run.1) (Some Missing) in
  (Authorize busy_env g "t3 " "p1" [busy_plan]).2 = None /\
  exists a, allowed busy_run.2 (Consumed "t3" (app_ID a)
    (TrimSpace (plan_Fingerprint (PlanTestDatabaseTerminate (ge_plan busy_env) "p1" "shop_dev" 1
       "app(pid 7)"))) 4000).
Proof.
  intros g. split; [by vm_compute|].
  destruct (provision_gate_sound 1000 busy_run.2 busy_env g busy_run.1 "t3 " "p1" [busy_plan]
    (Authorize busy_env g "t3 " "p1" [busy_plan]).1) as [H|(target & count & detail & He & H)].
  - reflexivity.
  - apply run_ops_Reach; [constructor|by vm_compute].
  - apply freshb_sound. by vm_compute.
  - by vm_compute.
  - exfalso. apply Forall_cons in H as [H _]. apply Forall_cons in H as [H _]. by apply H.
  - vm_compute in He. simplify_eq.
    destruct H as [(f & st & Hf & Hl & Ht)|[(f & l & grant & Hf & Hl & [Hw _] & _)|(a & _ & Ha)]].
    + vm_compute in Hf. simplify_eq. vm_compute in Hl. by simplify_eq.
    + vm_compute in Hf. simplify_eq. vm_compute in Hl. simplify_eq. by apply elem_of_nil in Hw.
    + exists a. exact Ha.
Defined.
End Example_run.
