(* ===== verification/DataSources.v ===== *)
(** * Temporary test databases: the registry of data sources (agent/dbprovision/registry.go)

    Management connections, in memory and in a JSON file.  Probing a server takes
    long and happens without the lock: [Update] is two steps, with the old entry
    carried from the first to the second.  A run is a list of steps. *)
From stdpp Require Import base strings gmap list.
From Stdlib Require Import ZArith Lia.
From S2P Require Import Prelude Provision.
Local Open Scope string_scope.

(** ** The registry *)

(** What writing the file did: [ChmodFailed] is an error after the new file is in place. *)
Inductive reg_save : Type :=
| Saved
| NotSaved
| ChmodFailed.

(** The file holds the entries; their order is that of a map iteration and means nothing. *)
Record FileRegistry : Type := mkRegistry {
  reg_items : gmap string DataSource;
  reg_file : file (list DataSource);
}.

Definition set_items (items : gmap string DataSource) (r : FileRegistry) : FileRegistry :=
  mkRegistry items (reg_file r).

(** The entries with an identifier; a later one replaces an earlier one. *)
Definition index_items (l : list DataSource) : gmap string DataSource :=
  foldl (fun m d => if ds_ID d =? "" then m else <[ds_ID d := d]> m) ∅ l.

(** [read] says whether the file could be read; an absent file is an empty registry, an
    empty one does not parse. *)
Definition NewFileRegistry (read : bool) (f : file (list DataSource)) : option FileRegistry :=
  match f with
  | Missing => Some (mkRegistry ∅ Missing)
  | Content l => if read then Some (mkRegistry (index_items l) f) else None
  | Empty | Corrupt => None
  end.

(** The registry after [saveLocked], and whether it returned nil. *)
Definition saveLocked (sv : reg_save) (r : FileRegistry) : FileRegistry * bool :=
  match sv with
  | Saved => (mkRegistry (reg_items r) (Content (map_to_list (reg_items r)).*2), true)
  | NotSaved => (r, false)
  | ChmodFailed => (mkRegistry (reg_items r) (Content (map_to_list (reg_items r)).*2), false)
  end.

Definition validateDataSource (ds : DataSource) : option prov_error :=
  if (TrimSpace (ds_Kind ds) =? "") || (TrimSpace (ds_Name ds) =? "") || (TrimSpace (ds_Host ds) =? "")
  then Some ErrInvalidDataSource
  else if (ds_Port ds <? 1)%Z || (65535 <? ds_Port ds)%Z then Some ErrInvalidDataSource
  else None.

(** [probe] is what the server answered: an error of the probe itself, or its findings. *)
Definition probe_verdict (probe : result prov_error ProbeResult) : result prov_error ProbeResult :=
  match probe with
  | Err e => Err ErrProbe
  | Ok p => if pr_OK p then Ok p else Err ErrProbe
  end.

(** [item.Kind == ds.Kind && item.Name == ds.Name] *)
Definition same_name (x y : DataSource) : bool :=
  (ds_Kind x =? ds_Kind y) && (ds_Name x =? ds_Name y).

(** Some entry other than [id] has the name. *)
Definition name_taken (items : gmap string DataSource) (id : string) (ds : DataSource) : bool :=
  existsb (fun kv => negb (kv.1 =? id) && same_name kv.2 ds) (map_to_list items).

Definition ErrNameTaken : prov_error := ErrText "同 kind 下数据源名称已存在".
Definition ErrSaveRegistry : prov_error := ErrText "落盘数据源注册表失败".

Definition with_identity (id : string) (created : time) (source : string) (probe : ProbeResult)
    (ds : DataSource) : DataSource :=
  {| ds_ID := id; ds_Kind := ds_Kind ds; ds_Name := ds_Name ds; ds_Host := ds_Host ds;
     ds_Port := ds_Port ds; ds_User := ds_User ds; ds_Password := ds_Password ds;
     ds_Extra := ds_Extra ds; ds_Probe := probe; ds_Source := source; ds_CreatedAt := created |}.

(** ** Operations *)

(** The validation and the probe need no lock; the rest is one step.  [id] and [now] are
    what [uuid.NewString] and [time.Now] give. *)
Definition Add (id : string) (now : time) (ds : DataSource)
    (probe : result prov_error ProbeResult) (sv : reg_save) (r : FileRegistry)
    : FileRegistry * result prov_error DataSource :=
  match validateDataSource ds with
  | Some e => (r, Err e)
  | None =>
  if negb (LookupProvisioner (ds_Kind ds)) then (r, Err (ErrUnsupportedKind (ds_Kind ds)))
  else
  match probe_verdict probe with
  | Err e => (r, Err e)
  | Ok p =>
      if existsb (fun kv => same_name kv.2 ds) (map_to_list (reg_items r))
      then (r, Err ErrNameTaken)
      else
        let ds := with_identity id now "manual" p ds in
        let '(r', ok) := saveLocked sv (set_items (<[id := ds]> (reg_items r)) r) in
        if ok then (r', Ok ds)
        else (set_items (delete id (reg_items r')) r', Err ErrSaveRegistry)
  end end.

(** The first step of [Update]: the old entry, and the new one with the password kept. *)
Definition Update_begin (id : string) (ds : DataSource) (r : FileRegistry)
    : result prov_error (DataSource * DataSource) :=
  match reg_items r !! id with
  | None => Err ErrDataSourceNotFound
  | Some old =>
      match validateDataSource ds with
      | Some e => Err e
      | None =>
          let ds := if ds_Password ds =? ""
                    then mkDataSource (ds_ID ds) (ds_Kind ds) (ds_Name ds) (ds_Host ds) (ds_Port ds)
                           (ds_User ds) (ds_Password old) (ds_Extra ds) (ds_Probe ds)
                           (ds_Source ds) (ds_CreatedAt ds)
                    else ds in
          if negb (LookupProvisioner (ds_Kind ds)) then Err (ErrUnsupportedKind (ds_Kind ds))
          else Ok (old, ds)
      end
  end.

(** The second step, after the probe. *)
Definition Update_commit (id : string) (old ds : DataSource)
    (probe : result prov_error ProbeResult) (sv : reg_save) (r : FileRegistry)
    : FileRegistry * result prov_error DataSource :=
  match probe_verdict probe with
  | Err e => (r, Err e)
  | Ok p =>
      if name_taken (reg_items r) id ds then (r, Err ErrNameTaken)
      else
        let ds := with_identity (ds_ID old) (ds_CreatedAt old) (ds_Source old) p ds in
        let '(r', ok) := saveLocked sv (set_items (<[id := ds]> (reg_items r)) r) in
        (r', if ok then Ok ds else Err ErrSaveRegistry)
  end.

(** [active] is what the injected counter says, 0 without one. *)
Definition Remove (id : string) (force : bool) (active : Z) (sv : reg_save) (r : FileRegistry)
    : FileRegistry * option prov_error :=
  match reg_items r !! id with
  | None => (r, Some ErrDataSourceNotFound)
  | Some item =>
      if negb force && (0 <? active)%Z then (r, Some (ErrDataSourceInUse active))
      else
        let '(r', ok) := saveLocked sv (set_items (delete id (reg_items r)) r) in
        if ok then (r', None)
        else (set_items (<[id := item]> (reg_items r')) r', Some ErrSaveRegistry)
  end.

Definition Get (id : string) (r : FileRegistry) : result prov_error DataSource :=
  match reg_items r !! id with
  | Some d => Ok d
  | None => Err ErrDataSourceNotFound
  end.

(** [order] is the order of the map iteration. *)
Definition GetByName (order : list (string * DataSource)) (kind name : string)
    : result prov_error DataSource :=
  match List.find (fun kv => (ds_Kind kv.2 =? kind) && (ds_Name kv.2 =? name)) order with
  | Some kv => Ok kv.2
  | None => Err ErrDataSourceNotFound
  end.

(** The second half of [Probe]: the entry as it is now gets the result. *)
Definition Probe_commit (id : string) (probe : result prov_error ProbeResult) (sv : reg_save)
    (r : FileRegistry) : FileRegistry * result prov_error ProbeResult :=
  match probe with
  | Err e => (r, Err e)
  | Ok p =>
      match reg_items r !! id with
      | None => (r, Err ErrDataSourceNotFound)
      | Some current =>
          let current := with_identity (ds_ID current) (ds_CreatedAt current) (ds_Source current) p
                           current in
          let '(r', ok) := saveLocked sv (set_items (<[id := current]> (reg_items r)) r) in
          (r', if ok then Ok p else Err ErrSaveRegistry)
      end
  end.

(** ** Runs *)

(** [RBegin] starts an update and appends it to the pending ones; [RCommit i] ends the
    [i]-th. *)
Inductive reg_action : Type :=
| RAdd (id : string) (now : time) (ds : DataSource) (probe : result prov_error ProbeResult)
    (sv : reg_save)
| RBegin (id : string) (ds : DataSource)
| RCommit (i : nat) (probe : result prov_error ProbeResult) (sv : reg_save)
| RRemove (id : string) (force : bool) (active : Z) (sv : reg_save)
| RProbe (id : string) (probe : result prov_error ProbeResult) (sv : reg_save).

Definition pending : Type := list (string * DataSource * DataSource).

Definition reg_step (s : FileRegistry * pending) (a : reg_action) : FileRegistry * pending :=
  let '(r, p) := s in
  match a with
  | RAdd id now ds probe sv => ((Add id now ds probe sv r).1, p)
  | RBegin id ds =>
      (r, match Update_begin id ds r with Ok (old, ds) => (p ++ [(id, old, ds)])%list | Err _ => p end)
  | RCommit i probe sv =>
      match p !! i with
      | Some (id, old, ds) => ((Update_commit id old ds probe sv r).1, p)
      | None => s
      end
  | RRemove id force active sv => ((Remove id force active sv r).1, p)
  | RProbe id probe sv => ((Probe_commit id probe sv r).1, p)
  end.

Definition reg_run (l : list reg_action) (s : FileRegistry * pending) : FileRegistry * pending :=
  fold_left reg_step l s.

(** ** Invariants *)

(** No two entries have the same kind and name, and an entry is stored under its identifier. *)
Record registry_ok (items : gmap string DataSource) : Prop := {
  names_unique : forall i j x y, items !! i = Some x -> items !! j = Some y ->
    same_name x y = true -> i = j;
  keys_match : forall i x, items !! i = Some x -> ds_ID x = i;
}.

Lemma same_name_spec x y :
  same_name x y = true <-> ds_Kind x = ds_Kind y /\ ds_Name x = ds_Name y.
Proof. unfold same_name. by rewrite andb_true_iff, !String.eqb_eq. Qed.

Lemma same_name_sym x y : same_name x y = true -> same_name y x = true.
Proof. rewrite !same_name_spec. intros [? ?]. done. Qed.

Lemma name_free items id ds :
  name_taken items id ds = false ->
  forall j y, items !! j = Some y -> same_name y ds = true -> j = id.
Proof.
  unfold name_taken. intros H j y Hy Hs.
  destruct (String.eqb_spec j id); [done|]. exfalso. apply not_true_iff_false in H. apply H.
  apply List.existsb_exists. exists (j, y). split.
  - apply list_elem_of_In. by apply elem_of_map_to_list.
  - simpl. rewrite Hs, andb_true_r. apply negb_true_iff. by apply String.eqb_neq.
Qed.

Lemma existsb_names items ds :
  existsb (fun kv : string * DataSource => same_name kv.2 ds) (map_to_list items) = false ->
  forall id, name_taken items id ds = false.
Proof.
  intros H id. apply not_true_iff_false. intros Ht. apply not_true_iff_false in H. apply H.
  unfold name_taken in Ht. apply List.existsb_exists in Ht as (kv & Hin & Hkv).
  apply List.existsb_exists. exists kv. split; [done|]. by apply andb_prop in Hkv as [_ ?].
Qed.

Lemma registry_insert items id ds x :
  registry_ok items -> name_taken items id ds = false -> ds_ID x = id ->
  ds_Kind x = ds_Kind ds -> ds_Name x = ds_Name ds -> registry_ok (<[id := x]> items).
Proof.
  intros [Hn Hk] Hfree Hid Hkind Hname.
  assert (forall y, same_name x y = true -> same_name y ds = true) as Hsame.
  { intros y [H1 H2]%same_name_spec. apply same_name_spec. split; congruence. }
  split.
  - intros i j a b Ha Hb Hab. apply lookup_insert_Some in Ha as [[<- <-]|[Hi Ha]];
      apply lookup_insert_Some in Hb as [[<- <-]|[Hj Hb]]; [done|..].
    + symmetry. by eapply name_free, Hsame.
    + by eapply name_free, Hsame, same_name_sym.
    + by eapply Hn.
  - intros i a [[<- <-]|[_ Ha]]%lookup_insert_Some; [done|by apply Hk].
Qed.

Lemma registry_delete items id : registry_ok items -> registry_ok (delete id items).
Proof.
  intros [Hn Hk]. split.
  - intros i j a b [_ Ha]%lookup_delete_Some [_ Hb]%lookup_delete_Some. by eapply Hn.
  - intros i a [_ Ha]%lookup_delete_Some. by apply Hk.
Qed.

Lemma saveLocked_items sv r : reg_items (saveLocked sv r).1 = reg_items r.
Proof. by destruct sv. Qed.

(** The identifier of a pending update is that of the entry it read. *)
Definition pending_ok (p : pending) : Prop :=
  Forall (fun x : string * DataSource * DataSource => ds_ID x.1.2 = x.1.1) p.

(** What is on disk is a registry too. *)
Definition file_ok (f : file (list DataSource)) : Prop :=
  match f with
  | Content l => registry_ok (index_items l)
  | _ => True
  end.

Lemma index_items_app l d :
  index_items (l ++ [d])%list =
    if ds_ID d =? "" then index_items l else <[ds_ID d := d]> (index_items l).
Proof. unfold index_items. by rewrite foldl_app. Qed.

(** An entry of the index was in the list, under its identifier. *)
Lemma index_items_elem l i x : index_items l !! i = Some x -> x ∈ l /\ ds_ID x = i /\ i <> "".
Proof.
  induction l as [|d l IH] using rev_ind; [done|].
  rewrite index_items_app. intros H. destruct (String.eqb_spec (ds_ID d) "").
  - destruct (IH H) as [? ?]. set_solver.
  - apply lookup_insert_Some in H as [[<- <-]|[_ H]]; [set_solver|].
    destruct (IH H) as [? ?]. set_solver.
Qed.

Lemma index_items_complete l x :
  x ∈ l -> ds_ID x <> "" -> is_Some (index_items l !! ds_ID x).
Proof.
  induction l as [|d l IH] using rev_ind; [by rewrite elem_of_nil|].
  rewrite index_items_app, elem_of_app, list_elem_of_singleton.
  intros [Hx| ->] Hid; destruct (String.eqb_spec (ds_ID d) "") as [He|]; try done; auto.
  - destruct (decide (ds_ID d = ds_ID x)) as [->|]; [rewrite lookup_insert_eq; eauto|].
    rewrite lookup_insert_ne by done. auto.
  - rewrite lookup_insert_eq. eauto.
Qed.

Lemma map_to_list_values {A} (m : gmap string A) x :
  x ∈ (map_to_list m).*2 <-> exists i, m !! i = Some x.
Proof.
  rewrite list_elem_of_fmap. split.
  - intros ((i & y) & -> & H). exists i. by apply elem_of_map_to_list.
  - intros (i & H). exists (i, x). split; [done|]. by apply elem_of_map_to_list.
Qed.

(** What a save writes and a restart reads. *)
Lemma reload_items items :
  registry_ok items -> index_items (map_to_list items).*2 = delete "" items.
Proof.
  intros [_ Hk]. apply map_eq. intros i. destruct (decide (i = "")) as [->|Hi].
  - rewrite lookup_delete_eq. apply eq_None_not_Some. intros (x & Hx).
    by destruct (index_items_elem _ _ _ Hx) as (_ & _ & ?).
  - rewrite lookup_delete_ne by done.
    assert (forall x, index_items (map_to_list items).*2 !! i = Some x -> items !! i = Some x)
      as Hsub.
    { intros x (Hin & <- & _)%index_items_elem. apply map_to_list_values in Hin as (j & Hj).
      by rewrite (Hk _ _ Hj). }
    destruct (items !! i) as [x|] eqn:Hx.
    + destruct (index_items_complete (map_to_list items).*2 x) as (y & Hy).
      * apply map_to_list_values. eauto.
      * by rewrite (Hk _ _ Hx).
      * rewrite (Hk _ _ Hx) in Hy. rewrite Hy. by rewrite (Hsub _ Hy).
    + destruct (index_items _ !! i) as [y|] eqn:Hy; [|done]. by specialize (Hsub _ eq_refl).
Qed.

(** The invariant of the memory and the file. *)
Definition reg_ok (r : FileRegistry) : Prop := registry_ok (reg_items r) /\ file_ok (reg_file r).

Lemma saveLocked_file sv r : reg_ok r -> file_ok (reg_file (saveLocked sv r).1).
Proof.
  intros [Hr Hf]. destruct sv; simpl; [|done|]; rewrite reload_items by done;
    by apply registry_delete.
Qed.

(** A save after a change that keeps the names unique. *)
Lemma saveLocked_ok sv items r :
  registry_ok items -> file_ok (reg_file r) -> reg_ok (saveLocked sv (set_items items r)).1.
Proof.
  intros Hi Hf. split; [by rewrite saveLocked_items|]. by apply saveLocked_file.
Qed.

Lemma Add_ok id now ds probe sv r : reg_ok r -> reg_ok (Add id now ds probe sv r).1.
Proof.
  intros [Hr Hf]. unfold Add. destruct (validateDataSource ds); [done|].
  destruct (LookupProvisioner _); [simpl|done]. destruct (probe_verdict probe) as [p|e]; [|done].
  destruct (existsb _ _) eqn:Hfree; [done|].
  pose proof (saveLocked_ok sv (<[id:=with_identity id now "manual" p ds]> (reg_items r)) r) as H.
  destruct H as [H1 H2]; [by eapply registry_insert; [|by apply existsb_names|..]|done|].
  destruct (saveLocked _ _) as [r' []]; [done|]. split; [|done]. by apply registry_delete.
Qed.

Lemma Update_commit_ok id old ds probe sv r :
  reg_ok r -> ds_ID old = id -> reg_ok (Update_commit id old ds probe sv r).1.
Proof.
  intros [Hr Hf] Hid. unfold Update_commit. destruct (probe_verdict probe) as [p|e]; [|done].
  destruct (name_taken _ _ _) eqn:Hfree; [done|].
  pose proof (saveLocked_ok sv
    (<[id:=with_identity (ds_ID old) (ds_CreatedAt old) (ds_Source old) p ds]> (reg_items r)) r) as H.
  destruct H as [H1 H2]; [by eapply registry_insert; [|exact Hfree|..]|done|].
  by destruct (saveLocked _ _) as [r' ok].
Qed.

Lemma Remove_ok id force active sv r : reg_ok r -> reg_ok (Remove id force active sv r).1.
Proof.
  intros [Hr Hf]. unfold Remove. destruct (reg_items r !! id) as [item|] eqn:Hi; [|done].
  destruct (_ && _); [done|].
  pose proof (saveLocked_ok sv (delete id (reg_items r)) r) as H.
  destruct H as [H1 H2]; [by apply registry_delete|done|].
  pose proof (saveLocked_items sv (set_items (delete id (reg_items r)) r)) as Hs.
  destruct (saveLocked _ _) as [r' []]; [done|]. split; [|done]. simpl in *.
  by rewrite Hs, insert_delete_id.
Qed.

Lemma Probe_commit_ok id probe sv r : reg_ok r -> reg_ok (Probe_commit id probe sv r).1.
Proof.
  intros [Hr Hf]. unfold Probe_commit. destruct probe as [p|e]; [|done].
  destruct (reg_items r !! id) as [cur|] eqn:Hi; [|done].
  assert (name_taken (reg_items r) id cur = false) as Hfree.
  { apply not_true_iff_false. intros H. unfold name_taken in H.
    apply List.existsb_exists in H as ((j & y) & Hin & H). simpl in H.
    apply list_elem_of_In, elem_of_map_to_list in Hin. apply andb_prop in H as [Hne Hs].
    apply negb_true_iff, String.eqb_neq in Hne. apply Hne. by eapply Hr. }
  pose proof (saveLocked_ok sv
    (<[id:=with_identity (ds_ID cur) (ds_CreatedAt cur) (ds_Source cur) p cur]> (reg_items r)) r) as H.
  destruct H as [H1 H2];
    [by eapply registry_insert; [|exact Hfree|exact (keys_match _ Hr _ _ Hi)|..]|done|].
  by destruct (saveLocked _ _) as [r' ok].
Qed.

Lemma reg_step_ok a s :
  reg_ok s.1 -> pending_ok s.2 -> reg_ok (reg_step s a).1 /\ pending_ok (reg_step s a).2.
Proof.
  destruct s as [r p]. simpl. intros Hr Hp.
  destruct a as [id now ds probe sv|id ds|i probe sv|id force active sv|id probe sv]; simpl.
  - split; [by apply Add_ok|done].
  - split; [done|]. unfold Update_begin. destruct (reg_items r !! id) as [old|] eqn:Ho; [|done].
    destruct (validateDataSource ds); [done|]. destruct (negb _); [done|].
    apply Forall_app. split; [done|]. apply Forall_singleton. by apply (keys_match _ (proj1 Hr)).
  - destruct (p !! i) as [[[id old] ds]|] eqn:Hi; [|done]. split; [|done].
    apply Update_commit_ok; [done|]. by eapply (Forall_lookup_1 _ _ _ _ Hp Hi).
  - split; [by apply Remove_ok|done].
  - split; [by apply Probe_commit_ok|done].
Qed.

Lemma reg_run_ok l s :
  reg_ok s.1 -> pending_ok s.2 -> reg_ok (reg_run l s).1 /\ pending_ok (reg_run l s).2.
Proof.
  revert s. induction l as [|a l IH]; intros s Hr Hp; [done|].
  simpl. destruct (reg_step_ok a s Hr Hp). by apply IH.
Qed.

(** The answer of [GetByName] is an entry with that name, if there is one. *)
Lemma GetByName_spec items order kind name :
  registry_ok items -> order ≡ₚ map_to_list items ->
  (forall id d, items !! id = Some d -> ds_Kind d = kind -> ds_Name d = name ->
     GetByName order kind name = Ok d) /\
  ((forall id d, items !! id = Some d -> ~ (ds_Kind d = kind /\ ds_Name d = name)) ->
     GetByName order kind name = Err ErrDataSourceNotFound).
Proof.
  intros Hok Hperm. unfold GetByName. split.
  - intros id d Hd <- <-. destruct (List.find _ order) as [[j y]|] eqn:Hf.
    + apply List.find_some in Hf as [Hin Hs]. simpl in *.
      apply list_elem_of_In in Hin. rewrite Hperm in Hin. apply elem_of_map_to_list in Hin.
      assert (j = id) as -> by (by eapply Hok). by simplify_eq.
    + exfalso. apply (List.find_none _ _ ) with (x := (id, d)) in Hf.
      * simpl in Hf. by rewrite !String.eqb_refl in Hf.
      * apply list_elem_of_In. rewrite Hperm. by apply elem_of_map_to_list.
  - intros Hnone. destruct (List.find _ order) as [[j y]|] eqn:Hf; [|done]. exfalso.
    apply List.find_some in Hf as [Hin Hs]. apply andb_prop in Hs as [H1 H2]. simpl in *.
    apply list_elem_of_In in Hin. rewrite Hperm in Hin. apply elem_of_map_to_list in Hin.
    apply (Hnone _ _ Hin). by rewrite <- String.eqb_eq, <- (String.eqb_eq (ds_Name y)).
Qed.

(** ** Properties *)

Definition empty_registry : FileRegistry * pending := (mkRegistry ∅ Missing, []).

(** After any interleaving of additions, removals, probes and the halves of updates, with
    any outcome of every probe and every write of the file, no two data sources have the same
    kind and name; a restart from the file gives such a registry as well, and [GetByName]
    finds the entry of that name whatever the order of the map iteration is. *)
Theorem datasource_names_unique (l : list reg_action) (order : list (string * DataSource))
    (id : string) (d : DataSource) :
  let r := (reg_run l empty_registry).1 in
  order ≡ₚ map_to_list (reg_items r) ->
  reg_items r !! id = Some d ->
  (forall j y, reg_items r !! j = Some y -> ds_Kind y = ds_Kind d -> ds_Name y = ds_Name d ->
     j = id) /\
  GetByName order (ds_Kind d) (ds_Name d) = Ok d /\ Get (ds_ID d) r = Ok d /\
  (forall r', NewFileRegistry true (reg_file r) = Some r' -> registry_ok (reg_items r')).
Proof.
  cbv zeta. intros Hperm Hd.
  destruct (reg_run_ok l empty_registry) as [[Hok Hfile] _]; [by repeat split|constructor|].
  split; [|split; [|split]].
  - intros j y Hy Hk Hn. eapply Hok; [exact Hy|exact Hd|]. by apply same_name_spec.
  - by eapply (GetByName_spec _ _ _ _ Hok Hperm).
  - unfold Get. by rewrite (keys_match _ Hok _ _ Hd), Hd.
  - intros r' Hr. destruct (reg_file _); simplify_eq/=; [done|]. by apply Hfile.
Qed.

(** A change that was saved is what a restart reads: no entry is lost, added or altered,
    but one without an identifier. *)
Theorem datasource_save_reload (l : list reg_action) (sv : reg_save) :
  let r := (reg_run l empty_registry).1 in
  forall r', saveLocked sv r = (r', true) ->
  exists r2, NewFileRegistry true (reg_file r') = Some r2 /\
             reg_items r2 = delete "" (reg_items r).
Proof.
  cbv zeta. intros r' Hsave.
  destruct (reg_run_ok l empty_registry) as [[Hok Hfile] _]; [by repeat split|constructor|].
  destruct sv; simplify_eq/=. eexists. split; [done|]. simpl. by apply reload_items.
Qed.

(** ** What the two halves of an update miss *)

Definition sample_probe : ProbeResult :=
  {| pr_OK := true; pr_CheckedAt := 0%Z; pr_ServerVer := "7.2"; pr_Capabilities := ∅;
     pr_Facts := ∅; pr_Missing := []; pr_FixHint := ""; pr_Error := "" |}.

Definition sample_source (name password : string) : DataSource :=
  {| ds_ID := ""; ds_Kind := "redis"; ds_Name := name; ds_Host := "127.0.0.1"; ds_Port := 6379%Z;
     ds_User := ""; ds_Password := password; ds_Extra := ∅; ds_Probe := sample_probe;
     ds_Source := ""; ds_CreatedAt := 0%Z |}.

Definition sample_run : list reg_action :=
  [RAdd "id-1" 5%Z (sample_source "cache" "secret") (Ok sample_probe) Saved;
   RAdd "id-2" 6%Z (sample_source "queue" "") (Ok sample_probe) Saved;
   RBegin "id-2" (sample_source "cache2" "");
   RCommit 0 (Ok sample_probe) Saved].

Lemma datasource_names_unique_witness :
  let r := (reg_run sample_run empty_registry).1 in
  GetByName (map_to_list (reg_items r)) "redis" "cache" =
    Ok (with_identity "id-1" 5%Z "manual" sample_probe (sample_source "cache" "secret")).
Proof.
  cbv zeta.
  destruct (datasource_names_unique sample_run
              (map_to_list (reg_items (reg_run sample_run empty_registry).1)) "id-1"
              (with_identity "id-1" 5%Z "manual" sample_probe (sample_source "cache" "secret")))
    as (_ & H & _); [reflexivity|vm_compute; reflexivity|exact H].
Defined.

(** An update that began before the removal writes the removed data source back, to memory
    and to the file; [Probe], with the same two halves, looks again and refuses. *)
Theorem Update_resurrects :
  let before := [RAdd "id-1" 5%Z (sample_source "cache" "secret") (Ok sample_probe) Saved;
                 RBegin "id-1" (sample_source "cache" "");
                 RRemove "id-1" false 0%Z Saved] in
  let s := reg_run before empty_registry in
  let after := reg_run [RCommit 0 (Ok sample_probe) Saved] s in
  Get "id-1" s.1 = Err ErrDataSourceNotFound /\
  (Probe_commit "id-1" (Ok sample_probe) Saved s.1).2 = Err ErrDataSourceNotFound /\
  exists d, Get "id-1" after.1 = Ok d /\ ds_Password d = "secret" /\
    reg_file after.1 = Content [d].
Proof. vm_compute. split; [done|]. split; [done|]. eexists. by repeat split. Qed.

(** An update whose write failed reports the failure and is in force until the next restart;
    [Add] and [Remove] undo theirs. *)
Theorem Update_unsaved_in_force :
  let old := with_identity "id-1" 5%Z "manual" sample_probe (sample_source "cache" "secret") in
  let r := (reg_run [RAdd "id-1" 5%Z (sample_source "cache" "secret") (Ok sample_probe) Saved]
              empty_registry).1 in
  let u := Update_commit "id-1" old (sample_source "other" "x") (Ok sample_probe) NotSaved r in
  u.2 = Err ErrSaveRegistry /\
  (exists d, Get "id-1" u.1 = Ok d /\ ds_Name d = "other") /\
  reg_file u.1 = Content [old] /\
  (Add "id-2" 6%Z (sample_source "other" "x") (Ok sample_probe) NotSaved r).1 = r /\
  (Remove "id-1" true 0%Z NotSaved r).1 = r.
Proof. vm_compute. split; [done|]. split; [by eexists|]. by repeat split. Qed.
