(* ===== verification/Paths.v ===== *)
(** * Paths: [path/filepath] and the containment check of agent/langruntime/types.go

    Paths of Unix systems.  The functions of the standard library that the check uses are
    defined on the elements between the slashes; the check itself is as in the code.
    Symbolic links are not resolved, neither here nor there. *)
From stdpp Require Import base strings gmap list.
From Stdlib Require Import Lia Ascii.
From S2P Require Import Prelude.
Local Open Scope string_scope.

(** ** path/filepath *)

Fixpoint split_slash (s : string) : list string :=
  match s with
  | EmptyString => [""]
  | String c rest =>
      if Ascii.eqb c "/"%char then "" :: split_slash rest
      else match split_slash rest with
           | [] => [String c ""]
           | x :: l => String c x :: l
           end
  end.

Definition IsAbs (p : string) : bool := String.prefix "/" p.

(** One element of [Clean]; the result so far is reversed. *)
Definition clean_element (rooted : bool) (out : list string) (e : string) : list string :=
  if (e =? "") || (e =? ".") then out
  else if e =? ".." then
    match out with
    | [] => if rooted then [] else [".."]
    | top :: rest => if top =? ".." then ".." :: out else rest
    end
  else e :: out.

(** The elements of the cleaned path. *)
Definition elements (p : string) : list string :=
  rev (foldl (clean_element (IsAbs p)) [] (split_slash p)).

Definition render_path (rooted : bool) (l : list string) : string :=
  if rooted then "/" +:+ String.concat "/" l
  else if (length l =? 0)%nat then "." else String.concat "/" l.

Definition Clean (p : string) : string := render_path (IsAbs p) (elements p).

(** [filepath.Join] of two elements. *)
Definition Join (a b : string) : string :=
  if a =? "" then if b =? "" then "" else Clean b else Clean (a +:+ "/" +:+ b).

Fixpoint drop_common (base targ : list string) : list string * list string :=
  match base, targ with
  | b :: base', t :: targ' => if b =? t then drop_common base' targ' else (base, targ)
  | _, _ => (base, targ)
  end.

(** [filepath.Rel]; [None] is its error. *)
Definition Rel (base targ : string) : option string :=
  if Clean base =? Clean targ then Some "."
  else if negb (Bool.eqb (IsAbs base) (IsAbs targ)) then None
  else
    let '(b, t) := drop_common (elements base) (elements targ) in
    if match b with x :: _ => x =? ".." | [] => false end then None
    else Some (String.concat "/" (replicate (length b) ".." ++ t)%list).

(** ** The containment check *)

Inductive path_error : Type :=
| ErrRuntimeProjectRootRequired
| ErrRuntimePathOutsideProject
| ErrRel.

Definition cleanRuntimeRoot (projectRoot : string) : string :=
  let root := Clean (TrimSpace projectRoot) in
  if (root =? ".") || (root =? "") then "" else root.

Definition ensureRuntimePathInsideRoot (root candidate : string) : option path_error :=
  match Rel root candidate with
  | None => Some ErrRel
  | Some rel =>
      if (rel =? "..") || String.prefix "../" rel then Some ErrRuntimePathOutsideProject else None
  end.

Definition ResolveRuntimeCWD (projectRoot cwd : string) : string :=
  let cwd := TrimSpace cwd in
  if cwd =? "" then Clean projectRoot
  else if IsAbs cwd then Clean cwd
  else Clean (Join projectRoot cwd).

Definition ResolveRuntimePath (workDir path : string) : string :=
  let path := TrimSpace path in
  if IsAbs path then Clean path else Clean (Join workDir path).

Definition ResolveRuntimeCWDInsideProject (projectRoot cwd : string)
    : result path_error string :=
  let root := cleanRuntimeRoot projectRoot in
  if root =? "" then
    if TrimSpace cwd =? "" then Ok (ResolveRuntimeCWD projectRoot cwd)
    else Err ErrRuntimeProjectRootRequired
  else
    let cwd := TrimSpace cwd in
    let candidate :=
      if negb (cwd =? "") then
        if IsAbs cwd then Clean cwd else Clean (Join root cwd)
      else root in
    match ensureRuntimePathInsideRoot root candidate with
    | Some e => Err e
    | None => Ok candidate
    end.

Definition ResolveRuntimePathInsideProject (projectRoot workDir path : string)
    : result path_error string :=
  let path := TrimSpace path in
  if path =? "" then Ok ""
  else
    let root := cleanRuntimeRoot projectRoot in
    if root =? "" then Ok (ResolveRuntimePath workDir path)
    else
      let workDir := TrimSpace workDir in
      let workDir := if workDir =? "" then root else workDir in
      let candidate := if negb (IsAbs path) then Join workDir path else path in
      let candidate := Clean candidate in
      match ensureRuntimePathInsideRoot root candidate with
      | Some e => Err e
      | None => Ok candidate
      end.

(** ** Lemmas: elements *)

(** An element between slashes. *)
Definition slash_free (e : string) : Prop := split_slash e = [e].

Lemma split_slash_not_nil s : split_slash s <> [].
Proof.
  destruct s as [|c s]; simpl; [done|]. destruct (Ascii.eqb c _); [done|].
  by destruct (split_slash s).
Qed.

Lemma split_slash_app a b : split_slash (a +:+ "/" +:+ b) = (split_slash a ++ split_slash b)%list.
Proof.
  induction a as [|c a IH]; simpl; [done|]. destruct (Ascii.eqb c _); [by rewrite IH|].
  rewrite IH. pose proof (split_slash_not_nil a) as Ha.
  by destruct (split_slash a) as [|x l].
Qed.

Lemma split_slash_free s : Forall slash_free (split_slash s).
Proof.
  induction s as [|c s IH]; simpl; [by repeat constructor|].
  destruct (Ascii.eqb c _) eqn:Hc; [by constructor|].
  pose proof (split_slash_not_nil s) as Hs. destruct (split_slash s) as [|x l]; [done|].
  inversion IH as [|? ? Hx Hl]; subst. constructor; [|done]. unfold slash_free in *. simpl.
  by rewrite Hc, Hx.
Qed.

Lemma split_slash_concat l :
  l <> [] -> Forall slash_free l -> split_slash (String.concat "/" l) = l.
Proof.
  intros Hne Hl. induction Hl as [|x l Hx Hl IH]; [done|].
  destruct l as [|y l]; [done|]. change (String.concat "/" (x :: y :: l))
    with (x +:+ "/" +:+ String.concat "/" (y :: l)).
  by rewrite split_slash_app, Hx, IH.
Qed.

(** The elements of a cleaned path: [..] only in front, and not below the root directory. *)
Definition good (e : string) : Prop := e <> "" /\ e <> "." /\ e <> ".." /\ slash_free e.
Definition cleaned (rooted : bool) (l : list string) : Prop :=
  exists n names, l = (replicate n ".." ++ names)%list /\ Forall good names /\
                  (rooted = true -> n = 0).

Lemma clean_element_cleaned rooted out e :
  cleaned rooted (rev out) -> slash_free e -> cleaned rooted (rev (clean_element rooted out e)).
Proof.
  intros (n & names & Hout & Hnames & Hn) He. unfold clean_element.
  destruct (String.eqb_spec e ""), (String.eqb_spec e "."); simpl; try by exists n, names.
  destruct (String.eqb_spec e "..") as [->|].
  - destruct names as [|x names _] using rev_ind.
    + rewrite app_nil_r in Hout. destruct n as [|n].
      * destruct out as [|y out]; [|simpl in Hout; by destruct (rev out)]. destruct rooted; [by exists 0, []|].
        by exists 1, [].
      * destruct rooted; [by specialize (Hn eq_refl)|].
        replace (S n) with (n + 1) in Hout by lia. rewrite replicate_add in Hout.
        apply (f_equal (@rev _)) in Hout. rewrite rev_involutive, rev_app_distr in Hout. simpl in Hout.
        subst out. simpl. rewrite rev_involutive. exists (S (S n)), []. split; [|done].
        rewrite app_nil_r. replace (S (S n)) with (n + 1 + 1) by lia.
        rewrite !replicate_add. done.
    + apply (f_equal (@rev _)) in Hout. rewrite rev_involutive, app_assoc, rev_app_distr in Hout.
      simpl in Hout. subst out. apply Forall_app in Hnames as [Hnames [(_ & _ & Hx & _) _]%Forall_cons].
      destruct (String.eqb_spec x ".."); [done|]. rewrite rev_involutive. by exists n, names.
  - simpl. rewrite Hout. exists n, (names ++ [e])%list. split; [by rewrite app_assoc|].
    split; [|done]. apply Forall_app. split; [done|]. by repeat constructor.
Qed.

Lemma elements_cleaned p : cleaned (IsAbs p) (elements p).
Proof.
  unfold elements. assert (cleaned (IsAbs p) (rev [])) as H by (by exists 0, []). revert H.
  generalize (@nil string) as out. pose proof (split_slash_free p) as Hp.
  induction Hp as [|e l He _ IH]; intros out Hout; [done|]. simpl.
  apply IH. by apply clean_element_cleaned.
Qed.

Lemma cleaned_slash_free rooted l : cleaned rooted l -> Forall slash_free l.
Proof.
  intros (n & names & -> & Hnames & _). apply Forall_app. split; [by apply Forall_replicate|].
  eapply Forall_impl; [exact Hnames|]. by intros e (_ & _ & _ & ?).
Qed.

(** Cleaning the elements of a clean path changes nothing. *)
Lemma foldl_cleaned rooted l :
  cleaned rooted l -> rev (foldl (clean_element rooted) [] l) = l.
Proof.
  intros (n & names & -> & Hnames & Hn). rewrite foldl_app.
  assert (foldl (clean_element rooted) [] (replicate n "..") = replicate n "..") as ->.
  { assert (forall m, (rooted = true -> n = 0) ->
      foldl (clean_element rooted) (replicate m "..") (replicate n "..") = replicate (m + n) "..")
      as H; [|by apply (H 0)].
    clear. induction n as [|n IH]; intros m Hr; simpl; [by rewrite Nat.add_0_r|].
    assert (rooted = false) as -> by (destruct rooted; [by specialize (Hr eq_refl)|done]).
    assert (clean_element false (replicate m "..") ".." = replicate (S m) "..") as ->
      by (by destruct m). rewrite IH by done. f_equal. lia. }
  assert (forall out, rev (foldl (clean_element rooted) out names) = (rev out ++ names)%list) as H.
  { clear Hn. induction Hnames as [|e names (H1 & H2 & H3 & _) _ IH]; intros out; simpl;
      [by rewrite app_nil_r|].
    unfold clean_element at 2. apply String.eqb_neq in H1 as ->, H2 as ->, H3 as ->. simpl.
    rewrite IH. simpl. by rewrite <-app_assoc. }
  rewrite H. f_equal. clear. induction n as [|n IH]; [done|]. simpl. rewrite IH.
  by rewrite <-(replicate_cons_app n "..").
Qed.

Lemma IsAbs_slash s : IsAbs (String "/" s) = true.
Proof. by destruct s. Qed.

Lemma IsAbs_render rooted l : cleaned rooted l -> IsAbs (render_path rooted l) = rooted.
Proof.
  intros (n & names & -> & Hnames & Hn). destruct rooted; [apply IsAbs_slash|]. unfold render_path.
  destruct n as [|n]; simpl; [|by destruct (_ ++ _)%list].
  destruct Hnames as [|e names (He & _ & _ & Hs) _]; [done|]. simpl.
  destruct e as [|c e]; [done|]. unfold slash_free in Hs. simpl in Hs.
  destruct (Ascii.eqb_spec c "/") as [|Hc]; [done|].
  assert (forall s, IsAbs (String c s) = false) as Hcs; [|by destruct names; apply Hcs].
  intros s. unfold IsAbs. cbn [String.prefix]. destruct (ascii_dec "/" c); [congruence|reflexivity].
Qed.

Lemma elements_render rooted l : cleaned rooted l -> elements (render_path rooted l) = l.
Proof.
  intros Hl. unfold elements. rewrite IsAbs_render by done.
  destruct (decide (l = [])) as [->|Hne]; [by destruct rooted|].
  pose proof (cleaned_slash_free _ _ Hl) as Hfree. unfold render_path. destruct rooted.
  - change ("/" +:+ String.concat "/" l) with ("" +:+ "/" +:+ String.concat "/" l).
    rewrite split_slash_app, split_slash_concat by done. exact (foldl_cleaned true l Hl).
  - destruct l as [|x l]; [done|]. cbn [length Nat.eqb]. rewrite split_slash_concat by done. by apply foldl_cleaned.
Qed.

Lemma IsAbs_Clean p : IsAbs (Clean p) = IsAbs p.
Proof. apply IsAbs_render, elements_cleaned. Qed.

Lemma elements_Clean p : elements (Clean p) = elements p.
Proof. apply elements_render, elements_cleaned. Qed.

Lemma Clean_Clean p : Clean (Clean p) = Clean p.
Proof. unfold Clean at 1. by rewrite IsAbs_Clean, elements_Clean. Qed.

Lemma Clean_nonempty p : Clean p <> "".
Proof.
  unfold Clean, render_path. intros H. destruct (IsAbs p); [done|].
  pose proof (elements_cleaned p) as Hc. destruct (elements p) as [|e l] eqn:E; [done|].
  simpl in H. assert (e <> "") as He; [|destruct l; [done|by destruct e]].
  destruct Hc as ([|n] & names & Hl & Hg & _); [|by simplify_eq/=].
  simpl in Hl. subst names. by apply Forall_cons in Hg as [(? & _) _].
Qed.

Example clean_example :
  Clean "/srv//shop/./web/../api/" = "/srv/shop/api" /\ Clean "a/../../b" = "../b" /\
  Clean "/../x" = "/x" /\ Clean "" = "." /\ Rel "/srv/shop" "/srv/web" = Some "../web".
Proof. by vm_compute. Qed.

(** ** The containment check *)

(** [candidate] is [root] or lies below it, element by element. *)
Definition under (root candidate : string) : Prop :=
  IsAbs candidate = IsAbs root /\
  exists rest, elements candidate = (elements root ++ rest)%list /\ ".." ∉ rest.

Lemma drop_common_spec base targ :
  exists c, let '(b, t) := drop_common base targ in
  base = (c ++ b)%list /\ targ = (c ++ t)%list.
Proof.
  revert targ. induction base as [|x base IH]; intros [|y targ]; simpl; try by exists [].
  destruct (String.eqb_spec x y) as [->|]; [|by exists []].
  destruct (IH targ) as (c & Hc). exists (y :: c).
  destruct (drop_common base targ) as [b t]. simpl. by destruct Hc as [-> ->].
Qed.

Lemma drop_common_prefix base rest : drop_common base (base ++ rest) = ([], rest).
Proof.
  induction base as [|x base IH]; simpl; [by destruct rest|]. by rewrite String.eqb_refl.
Qed.

(** The check of the text of a relative path looks at its first element. *)
Lemma concat_outside l :
  Forall slash_free l ->
  let rel := String.concat "/" l in
  (rel =? "..") || String.prefix "../" rel = true <-> exists l', l = ".." :: l'.
Proof.
  intros Hl. simpl. rewrite orb_true_iff, String.eqb_eq. split.
  - destruct (decide (l = [])) as [->|Hne]; [by intros [?|?]|].
    pose proof (split_slash_concat l Hne Hl) as Hs. intros [H|H].
    + rewrite H in Hs. simpl in Hs. by exists [].
    + apply String.prefix_correct in H. rewrite <-Hs.
      destruct (String.concat "/" l) as [|a [|b [|c s]]]; try done. simpl in H.
      destruct s; simplify_eq/=; eauto.
  - intros [[|x l'] ->]; [by left|]. right.
    change (String.concat "/" (".." :: x :: l')) with ("../" +:+ String.concat "/" (x :: l')).
    generalize (String.concat "/" (x :: l')). by intros [].
Qed.

(** Past the front of a clean path there is no [..]. *)
Lemma cleaned_suffix rooted l c t :
  cleaned rooted l -> l = (c ++ t)%list -> (forall t', t <> ".." :: t') -> ".." ∉ t.
Proof.
  intros (n & names & -> & Hnames & _). revert c.
  assert (".." ∉ names) as Hno.
  { intros Hin. rewrite Forall_forall in Hnames. by destruct (Hnames _ Hin) as (_ & _ & ? & _). }
  induction n as [|n IH]; intros c H Ht; simpl in H.
  - intros Hin. apply Hno. rewrite H. set_solver.
  - destruct c as [|x c]; [by destruct (Ht (replicate n ".." ++ names)%list)|].
    simplify_eq/=. by apply (IH c).
Qed.

Lemma ensure_inside_iff root candidate :
  ensureRuntimePathInsideRoot root candidate = None <-> under root candidate.
Proof.
  unfold ensureRuntimePathInsideRoot, Rel, under.
  destruct (String.eqb_spec (Clean root) (Clean candidate)) as [Heq|Hne].
  { split; [|done]. intros _. split; [by rewrite <-IsAbs_Clean, <-Heq, IsAbs_Clean|].
    exists []. split; [|by apply not_elem_of_nil].
    by rewrite <-elements_Clean, <-Heq, elements_Clean, app_nil_r. }
  destruct (Bool.eqb (IsAbs root) (IsAbs candidate)) eqn:Habs; simpl;
    [|split; [done|intros [H _]; by rewrite H, Bool.eqb_reflx in Habs]].
  apply Bool.eqb_prop in Habs.
  destruct (drop_common_spec (elements root) (elements candidate)) as (c & Hc).
  destruct (drop_common _ _) as [b t] eqn:Hd. destruct Hc as [Hb Ht].
  pose proof (elements_cleaned candidate) as Hclean.
  assert (Forall slash_free (replicate (length b) ".." ++ t)) as Hfree.
  { apply Forall_app. split; [by apply Forall_replicate|].
    apply cleaned_slash_free in Hclean. rewrite Ht in Hclean. by apply Forall_app in Hclean as [_ ?]. }
  assert (under_rest : (exists rest, elements candidate = (elements root ++ rest)%list /\ ".." ∉ rest)
    <-> b = [] /\ forall t', t <> ".." :: t').
  { split.
    - intros (rest & Hr & Hno). rewrite Hr, drop_common_prefix in Hd. simplify_eq.
      split; [done|]. intros t' ->. apply Hno. left.
    - intros [-> Hh]. exists t. rewrite app_nil_r in Hb. rewrite Hb. split; [done|].
      by eapply cleaned_suffix. }
  rewrite under_rest. pose proof (concat_outside _ Hfree) as Hout. simpl in Hout.
  destruct b as [|x b]; simpl in *.
  - destruct (_ || _) eqn:E; split; try done.
    + intros (_ & _ & H). destruct (proj1 Hout eq_refl) as (t' & Hx). by destruct (H t').
    + intros _. split; [done|]. split; [done|]. intros t' ->.
      assert (false = true) by (apply Hout; eauto). done.
  - destruct (x =? ".."); [by split; [|intros (_ & ? & _)]|].
    rewrite (proj2 Hout) by eauto. by split; [|intros (_ & ? & _)].
Qed.

(** Elements other than [..] only go further down. *)
Lemma foldl_down rooted out l :
  ".." ∉ l -> exists rest,
  rev (foldl (clean_element rooted) out l) = (rev out ++ rest)%list /\ ".." ∉ rest.
Proof.
  revert out. induction l as [|e l IH]; intros out Hl; simpl.
  - exists []. split; [by rewrite app_nil_r|apply not_elem_of_nil].
  - apply not_elem_of_cons in Hl as [He Hl]. unfold clean_element at 2.
    destruct ((e =? "") || (e =? ".")); [by apply IH|].
    destruct (String.eqb_spec e ".."); [by subst|].
    destruct (IH (e :: out) Hl) as (rest & -> & Hrest). exists (e :: rest).
    split; [simpl; by rewrite <-app_assoc|]. by apply not_elem_of_cons.
Qed.

Lemma prefix_nil s : String.prefix "" s = true.
Proof. by destruct s. Qed.

Lemma IsAbs_app a b : a <> "" -> IsAbs (a +:+ b) = IsAbs a.
Proof.
  destruct a as [|c a]; [done|]. intros _. unfold IsAbs.
  change (String c a +:+ b) with (String c (a +:+ b)).
  cbn [String.prefix]. destruct (ascii_dec "/" c); [|done]. by rewrite !prefix_nil.
Qed.

Lemma under_Join root path :
  root <> "" -> ".." ∉ split_slash path -> under root (Clean (Join root path)).
Proof.
  intros Hroot Hpath. unfold under, Join. apply String.eqb_neq in Hroot as Hr. rewrite Hr.
  rewrite Clean_Clean, IsAbs_Clean, elements_Clean, IsAbs_app by done. split; [done|].
  unfold elements. rewrite IsAbs_app by done.
  rewrite split_slash_app, foldl_app. by apply foldl_down.
Qed.

Lemma Clean_root projectRoot :
  cleanRuntimeRoot projectRoot <> "" -> Clean (cleanRuntimeRoot projectRoot) = cleanRuntimeRoot projectRoot.
Proof.
  unfold cleanRuntimeRoot. destruct (_ || _); [done|]. intros _. apply Clean_Clean.
Qed.

(** The paths of a language runtime do not leave the project: a working directory or a
    program that is accepted is a clean path that extends the elements of the root with
    elements other than [..]; and a relative working directory that does not mention [..] is
    never refused. *)
Theorem runtime_paths_contained projectRoot workDir path :
  let root := cleanRuntimeRoot projectRoot in
  root <> "" -> TrimSpace path <> "" ->
  (forall c, ResolveRuntimeCWDInsideProject projectRoot path = Ok c ->
     Clean c = c /\ under root c) /\
  (forall c, ResolveRuntimePathInsideProject projectRoot workDir path = Ok c ->
     Clean c = c /\ under root c) /\
  (IsAbs (TrimSpace path) = false -> ".." ∉ split_slash (TrimSpace path) ->
     exists c, ResolveRuntimeCWDInsideProject projectRoot path = Ok c).
Proof.
  simpl. intros Hroot Hpath. apply String.eqb_neq in Hroot as Hr, Hpath as Hp.
  unfold ResolveRuntimeCWDInsideProject, ResolveRuntimePathInsideProject. rewrite Hr, Hp. simpl.
  split; [|split].
  - intros c H. destruct (ensureRuntimePathInsideRoot _ _) eqn:E; [done|].
    apply ensure_inside_iff in E. simplify_eq. split; [|done].
    destruct (IsAbs (TrimSpace path)); apply Clean_Clean.
  - intros c H. destruct (ensureRuntimePathInsideRoot _ _) eqn:E; [done|].
    apply ensure_inside_iff in E. simplify_eq. split; [apply Clean_Clean|done].
  - intros Habs Hdots. rewrite Habs. pose proof (under_Join _ _ Hroot Hdots) as Hu.
    apply ensure_inside_iff in Hu. rewrite Hu. eauto.
Qed.

Lemma runtime_paths_contained_witness :
  ResolveRuntimeCWDInsideProject "/srv/shop" "web/./api" = Ok "/srv/shop/web/api" /\
  under "/srv/shop" "/srv/shop/web/api" /\
  ResolveRuntimeCWDInsideProject "/srv/shop" "web/../../pay" = Err ErrRuntimePathOutsideProject.
Proof.
  split; [by vm_compute|]. split; [|by vm_compute].
  destruct (runtime_paths_contained "/srv/shop" "" "web/./api") as (H & _ & _);
    [by vm_compute|by vm_compute|]. by apply H.
Defined.
