(* ===== verification/ConfigChange.v ===== *)
(** * Configuration changes: patches, their effect and their validation

    [configchange/types.go], [merge.go] and [validate.go] on projects as plain values:
    what a change is meant to do.  [ConfigHeap] has the same operations on the slices and
    maps of the program, which are shared. *)
From stdpp Require Import base strings gmap pretty list.
From Stdlib Require Import ZArith Lia Ascii.
From S2P Require Import Prelude Model OperationTypes Paths.
Local Open Scope string_scope.

(** The Unicode tables of [strings.ToLower] and [strings.ToUpper]. *)
Class UnicodeCase : Type := {
  ToLower : string -> string;
  ToUpper : string -> string;
}.

(** The scheme, the host and the host name that [url.Parse] finds. *)
Class UrlParser : Type := {
  url_parse : string -> option (string * string * string);
}.

(** ** types.go *)

Definition KindProjectUpsert := "config.project.upsert".
Definition KindServiceUpsert := "config.service.upsert".
Definition KindPipelineUpsert := "config.pipeline.upsert".

Inductive change_error : Type :=
| ErrInvalidChange
| ErrUnsupportedOperation.

Record ProjectPatch : Type := mkProjectPatch {
  ppt_Name : string;
  ppt_Variables : gmap string string;
  ppt_Environments : list Environment;
}.

Record DeploymentPatch : Type := mkDeploymentPatch {
  dpt_ID : string;
  dpt_EnvName : string;
  dpt_Location : DeployLocation;
  dpt_ControlMode : ControlMode;
  dpt_Runtime : option RuntimeConfig;
  dpt_Logs : option LogConfig;
  dpt_Web : option WebEntrypointConfig;
  dpt_CodeDebug : option CodeDebugConfig;
  dpt_Command : string;
  dpt_WorkDir : string;
  dpt_EnvFile : string;
  dpt_Env : option (gmap string string);
  dpt_HostIDs : option (list string);
  dpt_Ports : option (list Z);
  dpt_LogType : string;
  dpt_LogTarget : string;
  dpt_ExtraArgs : option (list string);
  dpt_ReadOnly : option bool;
  dpt_StartCommand : string;
  dpt_StopCommand : string;
}.

Record ServicePatch : Type := mkServicePatch {
  spt_ID : string;
  spt_Name : string;
  spt_Language : option ServiceLanguage;
  spt_Required : option bool;
  spt_Order : option Z;
  spt_Deployments : list DeploymentPatch;
}.

Record ChangeRequest : Type := mkChange {
  cr_Kind : string;
  cr_ProjectID : string;
  cr_ProjectName : string;
  cr_RootPath : string;
  cr_ApprovalToken : string;
  cr_DebugSessionID : string;
  cr_Project : option ProjectPatch;
  cr_Service : option ServicePatch;
  cr_Pipeline : option ProjectPipeline;
  cr_Delete : bool;
  cr_Remove : bool;
}.

Record ValidationResult : Type := mkValidation {
  val_OK : bool;
  val_Errors : list string;
}.

(** ** merge.go *)

(** [StableID]: 16 hexadecimal digits of the digest of the trimmed parts. *)
Definition StableID {D : Digest} (prefix : string) (parts : list string) : string :=
  prefix +:+ "_" +:+ String.substring 0 16
    (bytes_digest (String.concat "" ((fun p => TrimSpace p +:+ String (byte_of 0) "") <$> parts))).

(** The loop of [slugID]; a run of other bytes gives one dash. *)
Fixpoint slug_dashes (l : list ascii) (lastDash : bool) : list ascii :=
  match l with
  | [] => []
  | c :: rest =>
      let n := nat_of_ascii c in
      if ((97 <=? n)%nat && (n <=? 122)%nat) || ((48 <=? n)%nat && (n <=? 57)%nat)
      then c :: slug_dashes rest false
      else if lastDash then slug_dashes rest true
      else "-"%char :: slug_dashes rest true
  end.

Fixpoint drop_dashes (l : list ascii) : list ascii :=
  match l with
  | c :: rest => if Ascii.eqb c "-"%char then drop_dashes rest else l
  | [] => []
  end.

Definition slugID {D : Digest} {U : UnicodeCase} (name : string) : string :=
  let name := TrimSpace (ToLower name) in
  let out := rev (drop_dashes (rev (drop_dashes
               (slug_dashes (String.list_ascii_of_string name) false)))) in
  match out with
  | [] => StableID "pipeline" [name]
  | _ => String.string_of_list_ascii out
  end.

(** [for i, item := range items { if ... { return i } }; return -1] *)
Fixpoint find_index {A} (p : A -> bool) (l : list A) : option nat :=
  match l with
  | [] => None
  | x :: rest => if p x then Some 0 else S <$> find_index p rest
  end.

(** The test of [findEnvironmentIndex] and its siblings: by identifier if the target has
    one, by name otherwise. *)
Definition designates (targetID targetName id name : string) : bool :=
  (negb (targetID =? "") && (id =? targetID)) ||
  ((targetID =? "") && negb (targetName =? "") && (name =? targetName)).

Definition findEnvironmentIndex (items : list Environment) (target : Environment) : option nat :=
  find_index (fun x => designates (env_ID target) (env_Name target) (env_ID x) (env_Name x)) items.
Definition findServiceIndex (items : list Service) (id name : string) : option nat :=
  find_index (fun x => designates id name (svc_ID x) (svc_Name x)) items.
Definition findDeploymentIndex (items : list Deployment) (target : Deployment) : option nat :=
  find_index (fun x => designates (dep_ID target) (dep_EnvName target) (dep_ID x) (dep_EnvName x))
    items.
Definition findPipelineIndex (items : list ProjectPipeline) (id : string) : option nat :=
  find_index (fun x => pp_ID x =? id) items.

(** [overlayEnv]: the patch over the base; nil over nil is nil. *)
Definition overlayEnv (base patch : option (gmap string string)) : option (gmap string string) :=
  match base, patch with
  | None, None => None
  | _, _ => Some (default ∅ patch ∪ default ∅ base)
  end.

Definition withoutKeys (m drop : option (gmap string string)) : option (gmap string string) :=
  (fun m => m ∖ default ∅ drop) <$> m.

Definition set_runtime_env (envVars env : option (gmap string string)) (rt : RuntimeConfig)
    : RuntimeConfig :=
  {| rc_Type := rc_Type rt; rc_Command := rc_Command rt; rc_Executable := rc_Executable rt;
     rc_Args := rc_Args rt; rc_WorkingDir := rc_WorkingDir rt; rc_EnvFile := rc_EnvFile rt;
     rc_EnvVars := envVars; rc_CWD := rc_CWD rt; rc_Env := env; rc_Config := rc_Config rt;
     rc_ServiceName := rc_ServiceName rt; rc_ReleaseDir := rc_ReleaseDir rt;
     rc_CurrentDir := rc_CurrentDir rt; rc_ExecStart := rc_ExecStart rt; rc_Label := rc_Label rt;
     rc_PlistPath := rc_PlistPath rt; rc_Container := rc_Container rt; rc_Domain := rc_Domain rt |}.

Definition withRuntimeEnv (rt : option RuntimeConfig) (env : option (gmap string string))
    : option RuntimeConfig :=
  match rt with
  | None => None
  | Some rt =>
      match rc_Env rt with
      | Some _ => Some (set_runtime_env (withoutKeys (rc_EnvVars rt) env)
                                        (overlayEnv (rc_Env rt) env) rt)
      | None => Some (set_runtime_env (overlayEnv (rc_EnvVars rt) env) None rt)
      end
  end.

Definition deploymentFromPatch (patch : DeploymentPatch) : Deployment :=
  {| dep_ID := TrimSpace (dpt_ID patch); dep_EnvName := TrimSpace (dpt_EnvName patch);
     dep_Location := dpt_Location patch; dep_ControlMode := dpt_ControlMode patch;
     dep_Runtime := match dpt_Env patch with
                    | Some _ => withRuntimeEnv (dpt_Runtime patch) (dpt_Env patch)
                    | None => dpt_Runtime patch
                    end;
     dep_Logs := dpt_Logs patch; dep_Web := dpt_Web patch; dep_Ports := dpt_Ports patch;
     dep_CodeDebug := dpt_CodeDebug patch; dep_StartOnBoot := false; dep_DependsOn := [];
     dep_Readiness := None; dep_Command := dpt_Command patch; dep_WorkDir := dpt_WorkDir patch;
     dep_EnvFile := dpt_EnvFile patch; dep_Env := dpt_Env patch; dep_HostIDs := dpt_HostIDs patch;
     dep_LogType := dpt_LogType patch; dep_LogTarget := dpt_LogTarget patch;
     dep_ExtraArgs := dpt_ExtraArgs patch; dep_ReadOnly := default false (dpt_ReadOnly patch);
     dep_StartCommand := dpt_StartCommand patch; dep_StopCommand := dpt_StopCommand patch;
     dep_Status := ""; dep_PID := 0 |}.

(** [if v != "" { dep.F = v }] and [if v != nil { dep.F = v }] *)
Definition or_else (v old : string) : string := if negb (v =? "") then v else old.
Definition or_keep {A} (v old : option A) : option A :=
  match v with Some _ => v | None => old end.

Definition mergeDeployment (existing : Deployment) (patch : DeploymentPatch) : Deployment :=
  let runtime := or_keep (dpt_Runtime patch) (dep_Runtime existing) in
  {| dep_ID := dep_ID existing;
     dep_EnvName := or_else (TrimSpace (dpt_EnvName patch)) (dep_EnvName existing);
     dep_Location := or_else (dpt_Location patch) (dep_Location existing);
     dep_ControlMode := or_else (dpt_ControlMode patch) (dep_ControlMode existing);
     dep_Runtime := match dpt_Env patch with
                    | Some _ => withRuntimeEnv runtime (dpt_Env patch)
                    | None => runtime
                    end;
     dep_Logs := or_keep (dpt_Logs patch) (dep_Logs existing);
     dep_Web := or_keep (dpt_Web patch) (dep_Web existing);
     dep_Ports := or_keep (dpt_Ports patch) (dep_Ports existing);
     dep_CodeDebug := or_keep (dpt_CodeDebug patch) (dep_CodeDebug existing);
     dep_StartOnBoot := dep_StartOnBoot existing; dep_DependsOn := dep_DependsOn existing;
     dep_Readiness := dep_Readiness existing;
     dep_Command := or_else (dpt_Command patch) (dep_Command existing);
     dep_WorkDir := or_else (dpt_WorkDir patch) (dep_WorkDir existing);
     dep_EnvFile := or_else (dpt_EnvFile patch) (dep_EnvFile existing);
     dep_Env := or_keep (dpt_Env patch) (dep_Env existing);
     dep_HostIDs := or_keep (dpt_HostIDs patch) (dep_HostIDs existing);
     dep_LogType := or_else (dpt_LogType patch) (dep_LogType existing);
     dep_LogTarget := or_else (dpt_LogTarget patch) (dep_LogTarget existing);
     dep_ExtraArgs := or_keep (dpt_ExtraArgs patch) (dep_ExtraArgs existing);
     dep_ReadOnly := default (dep_ReadOnly existing) (dpt_ReadOnly patch);
     dep_StartCommand := or_else (dpt_StartCommand patch) (dep_StartCommand existing);
     dep_StopCommand := or_else (dpt_StopCommand patch) (dep_StopCommand existing);
     dep_Status := dep_Status existing; dep_PID := dep_PID existing |}.

(** ** The intended effect of [Apply], on values

    [order] is the order in which the loop over [patch.Variables] runs. *)

Definition with_project (name : string) (variables : option (gmap string string))
    (envs : list Environment) (services : list Service) (pipelines : list ProjectPipeline)
    (p : Project) : Project :=
  {| prj_ID := prj_ID p; prj_Name := name; prj_RootPath := prj_RootPath p;
     prj_ConfigFormat := prj_ConfigFormat p; prj_ConfigStaleLegacy := prj_ConfigStaleLegacy p;
     prj_SharedSecretWarnings := prj_SharedSecretWarnings p; prj_Variables := variables;
     prj_Environments := envs; prj_Services := services; prj_AINote := prj_AINote p;
     prj_AuthHint := prj_AuthHint p; prj_DebugCredentials := prj_DebugCredentials p;
     prj_HasDebugCredentials := prj_HasDebugCredentials p;
     prj_DebugCredentialHints := prj_DebugCredentialHints p; prj_Pipelines := pipelines;
     prj_EnvSelectedServiceIDs := prj_EnvSelectedServiceIDs p; prj_HomeHostID := prj_HomeHostID p;
     prj_HomeHostName := prj_HomeHostName p; prj_DataSourceBinding := prj_DataSourceBinding p |}.

Definition set_services (services : list Service) (p : Project) : Project :=
  with_project (prj_Name p) (prj_Variables p) (prj_Environments p) services (prj_Pipelines p) p.
Definition set_pipelines (pipelines : list ProjectPipeline) (p : Project) : Project :=
  with_project (prj_Name p) (prj_Variables p) (prj_Environments p) (prj_Services p) pipelines p.

(** Replace the element found, or append. *)
Definition upsert {A} (i : option nat) (x : A) (l : list A) : list A :=
  match i with
  | Some i => <[i := x]> l
  | None => (l ++ [x])%list
  end.

Definition set_variables (order : list (string * string)) (m : gmap string string)
    : gmap string string :=
  foldl (fun m kv => <[TrimSpace kv.1 := kv.2]> m) m order.

(** An empty text is replaced. *)
Definition with_default (v d : string) : string := if v =? "" then d else v.

Section Apply.
Context {D : Digest} {U : UnicodeCase}.

(** The environment as the loop stores it: its name trimmed, its identifier filled in. *)
Definition patched_environment (p : Project) (env : Environment) : Environment :=
  let name := TrimSpace (env_Name env) in
  {| env_ID := with_default (env_ID env) (StableID "env" [prj_ID p; prj_RootPath p; name]);
     env_Name := name; env_IsDev := env_IsDev env; env_Order := env_Order env;
     env_AINote := env_AINote env; env_AuthHint := env_AuthHint env |}.

Definition upsert_environment (p : Project) (envs : list Environment) (env : Environment)
    : list Environment :=
  let env := patched_environment p env in
  upsert (findEnvironmentIndex envs env) env envs.

Definition apply_project (order : list (string * string)) (p : Project)
    (patch : option ProjectPatch) : Project :=
  match patch with
  | None => p
  | Some patch =>
      with_project (or_else (TrimSpace (ppt_Name patch)) (prj_Name p))
        (Some (set_variables order (default ∅ (prj_Variables p))))
        (foldl (upsert_environment p) (prj_Environments p) (ppt_Environments patch))
        (prj_Services p) (prj_Pipelines p) p
  end.

(** The service before its deployments are looked at. *)
Definition patched_service (p : Project) (found : option Service) (patch : ServicePatch)
    : Service :=
  let name := TrimSpace (spt_Name patch) in
  let svc := default
    {| svc_ID := TrimSpace (spt_ID patch); svc_ProjectID := ""; svc_Name := name;
       svc_Required := false; svc_Order := 0; svc_AINote := ""; svc_AuthHint := "";
       svc_Language := ""; svc_Deployments := []; svc_DebugCredentials := [];
       svc_HasDebugCredentials := false; svc_DebugCredentialHints := []; svc_Status := "";
       svc_PID := 0 |} found in
  {| svc_ID := with_default (svc_ID svc)
                 (StableID "svc" [prj_ID p; prj_RootPath p; svc_Name svc]);
     svc_ProjectID := svc_ProjectID svc; svc_Name := or_else name (svc_Name svc);
     svc_Required := default (svc_Required svc) (spt_Required patch);
     svc_Order := default (svc_Order svc) (spt_Order patch);
     svc_AINote := svc_AINote svc; svc_AuthHint := svc_AuthHint svc;
     svc_Language := default (svc_Language svc) (TrimSpace <$> spt_Language patch);
     svc_Deployments := svc_Deployments svc; svc_DebugCredentials := svc_DebugCredentials svc;
     svc_HasDebugCredentials := svc_HasDebugCredentials svc;
     svc_DebugCredentialHints := svc_DebugCredentialHints svc; svc_Status := svc_Status svc;
     svc_PID := svc_PID svc |}.

Definition set_deployments (deps : list Deployment) (svc : Service) : Service :=
  {| svc_ID := svc_ID svc; svc_ProjectID := svc_ProjectID svc; svc_Name := svc_Name svc;
     svc_Required := svc_Required svc; svc_Order := svc_Order svc; svc_AINote := svc_AINote svc;
     svc_AuthHint := svc_AuthHint svc; svc_Language := svc_Language svc; svc_Deployments := deps;
     svc_DebugCredentials := svc_DebugCredentials svc;
     svc_HasDebugCredentials := svc_HasDebugCredentials svc;
     svc_DebugCredentialHints := svc_DebugCredentialHints svc; svc_Status := svc_Status svc;
     svc_PID := svc_PID svc |}.

Definition set_dep_ID (id : string) (d : Deployment) : Deployment :=
  {| dep_ID := id; dep_EnvName := dep_EnvName d; dep_Location := dep_Location d;
     dep_ControlMode := dep_ControlMode d; dep_Runtime := dep_Runtime d; dep_Logs := dep_Logs d;
     dep_Web := dep_Web d; dep_Ports := dep_Ports d; dep_CodeDebug := dep_CodeDebug d;
     dep_StartOnBoot := dep_StartOnBoot d; dep_DependsOn := dep_DependsOn d;
     dep_Readiness := dep_Readiness d; dep_Command := dep_Command d; dep_WorkDir := dep_WorkDir d;
     dep_EnvFile := dep_EnvFile d; dep_Env := dep_Env d; dep_HostIDs := dep_HostIDs d;
     dep_LogType := dep_LogType d; dep_LogTarget := dep_LogTarget d;
     dep_ExtraArgs := dep_ExtraArgs d; dep_ReadOnly := dep_ReadOnly d;
     dep_StartCommand := dep_StartCommand d; dep_StopCommand := dep_StopCommand d;
     dep_Status := dep_Status d; dep_PID := dep_PID d |}.

(** A deployment that is new to the service. *)
Definition new_deployment (p : Project) (serviceName : string) (patch : DeploymentPatch)
    : Deployment :=
  let dep := deploymentFromPatch patch in
  set_dep_ID (with_default (dep_ID dep)
    (StableID "dep" [prj_ID p; prj_RootPath p; serviceName; dep_EnvName dep])) dep.

Definition upsert_deployment (p : Project) (serviceName : string) (deps : list Deployment)
    (patch : DeploymentPatch) : list Deployment :=
  match findDeploymentIndex deps (deploymentFromPatch patch) with
  | Some i => alter (fun d => mergeDeployment d patch) i deps
  | None => (deps ++ [new_deployment p serviceName patch])%list
  end.

Definition apply_service (p : Project) (patch : option ServicePatch) : Project :=
  match patch with
  | None => p
  | Some patch =>
      let idx := findServiceIndex (prj_Services p) (TrimSpace (spt_ID patch))
                   (TrimSpace (spt_Name patch)) in
      let svc := patched_service p (idx ≫= fun i => prj_Services p !! i) patch in
      let deps := foldl (upsert_deployment p (svc_Name svc)) (svc_Deployments svc)
                    (spt_Deployments patch) in
      set_services (upsert idx (set_deployments deps svc) (prj_Services p)) p
  end.

Definition patched_pipeline (patch : ProjectPipeline) : ProjectPipeline :=
  let name := TrimSpace (pp_Name patch) in
  {| pp_ID := with_default (TrimSpace (pp_ID patch)) (slugID name); pp_Name := name;
     pp_Services := pp_Services patch; pp_ArtifactKind := pp_ArtifactKind patch;
     pp_Variables := pp_Variables patch; pp_Environments := pp_Environments patch;
     pp_Roles := pp_Roles patch; pp_SyncMode := pp_SyncMode patch;
     pp_SyncCommand := pp_SyncCommand patch; pp_Pipeline := pp_Pipeline patch |}.

Definition apply_pipeline (p : Project) (patch : option ProjectPipeline) : Project :=
  match patch with
  | None => p
  | Some patch =>
      let item := patched_pipeline patch in
      set_pipelines (upsert (findPipelineIndex (prj_Pipelines p) (pp_ID item)) item
                       (prj_Pipelines p)) p
  end.

Definition apply_change (order : list (string * string)) (p : Project) (change : ChangeRequest)
    : result change_error Project :=
  if cr_Delete change || cr_Remove change then Err ErrUnsupportedOperation
  else
    let kind := TrimSpace (cr_Kind change) in
    if kind =? KindProjectUpsert then Ok (apply_project order p (cr_Project change))
    else if kind =? KindServiceUpsert then Ok (apply_service p (cr_Service change))
    else if kind =? KindPipelineUpsert then Ok (apply_pipeline p (cr_Pipeline change))
    else Err ErrInvalidChange.
End Apply.

(** ** validate.go *)

(** The errors of a loop that carries the names seen so far. *)
Fixpoint validate_environments_from (seen : list string) (envs : list Environment)
    : list string :=
  match envs with
  | [] => []
  | env :: rest =>
      let name := TrimSpace (env_Name env) in
      if name =? "" then "environment name is required" :: validate_environments_from seen rest
      else
        ((if bool_decide (name ∈ seen) then ["environment name must be unique: " +:+ name] else [])
         ++ validate_environments_from (name :: seen) rest)%list
  end.

Definition validateEnvironments (envs : list Environment) : list string :=
  validate_environments_from [] envs.

Definition deploymentRuntimeType (dep : Deployment) : RuntimeType :=
  match dep_Runtime dep with
  | Some rt => or_else (rc_Type rt) RuntimeTypeCommand
  | None => RuntimeTypeCommand
  end.

Definition deploymentNeedsCommand (dep : Deployment) : bool :=
  negb (deploymentRuntimeType dep =? RuntimeTypeLanguage).
Definition codeDebugRuntimeSupported (dep : Deployment) : bool :=
  deploymentRuntimeType dep =? RuntimeTypeLanguage.

Definition deploymentCommand (dep : Deployment) : string :=
  match dep_Runtime dep with
  | Some rt => or_else (TrimSpace (rc_Command rt)) (TrimSpace (dep_Command dep))
  | None => TrimSpace (dep_Command dep)
  end.

(** [langruntime.StringValue] of an entry of a configuration. *)
Definition StringValue (config : list (string * any)) (key : string) : string :=
  match snd <$> List.find (fun kv => kv.1 =? key) config with
  | Some (AStr s) => TrimSpace s
  | _ => ""
  end.

Definition ConfigKeyRuntimeExecutable := "runtime_executable".

(** Whether [EscapeHatchCommand] finds a command. *)
Definition has_escape_hatch (config : list (string * any)) : bool :=
  negb (StringValue config ConfigKeyRuntimeExecutable =? "").

Definition validateDeploymentLanguageRuntimeConfig (projectRoot serviceName : string)
    (language : ServiceLanguage) (dep : Deployment) : list string :=
  match dep_Runtime dep with
  | None => []
  | Some rt =>
      if negb (deploymentRuntimeType dep =? RuntimeTypeLanguage) then []
      else
        let errs :=
          if (dep_Location dep =? LocationLocal) && (EffectiveControlMode dep =? ControlModeManaged)
          then
            let language := TrimSpace language in
            if language =? "" then
              ["service " +:+ serviceName +:+
               " language is required for local managed language runtime"]
            else if negb (Known language) then
              ["service " +:+ serviceName +:+ " language " +:+ language +:+
               " is unsupported for local managed language runtime"]
            else if (language =? LanguagePython) && (StringValue (rc_Config rt) "program" =? "") &&
                    (StringValue (rc_Config rt) "module" =? "") &&
                    negb (has_escape_hatch (rc_Config rt)) then
              ["service " +:+ serviceName +:+
               " python runtime requires program, module, or runtime_executable"]
            else []
          else [] in
        match ResolveRuntimeCWDInsideProject projectRoot (EffectiveCWD rt) with
        | Err ErrRuntimePathOutsideProject =>
            (errs ++ ["runtime.cwd must be inside project root"])%list
        | Err _ => (errs ++ ["runtime.cwd requires a valid project root"])%list
        | Ok cwd =>
            let program := StringValue (rc_Config rt) "program" in
            if program =? "" then errs
            else
              match ResolveRuntimePathInsideProject projectRoot cwd program with
              | Err ErrRuntimePathOutsideProject =>
                  (errs ++ ["runtime.config.program must be inside project root"])%list
              | Err _ => (errs ++ ["runtime.config.program requires a valid project root"])%list
              | Ok _ => errs
              end
        end
  end.

(** [strings.Trim(s, "[]")] *)
Fixpoint drop_brackets (l : list ascii) : list ascii :=
  match l with
  | c :: rest => if Ascii.eqb c "["%char || Ascii.eqb c "]"%char then drop_brackets rest else l
  | [] => []
  end.
Definition trim_brackets (s : string) : string :=
  String.string_of_list_ascii
    (rev (drop_brackets (rev (drop_brackets (String.list_ascii_of_string s))))).

Definition validateDeploymentWebConfig {P : UrlParser} (dep : Deployment) : list string :=
  match dep_Web dep with
  | None => []
  | Some web =>
      let errs := if ai_Enabled (web_AIDebug web) && negb (web_Enabled web)
                  then ["web.ai_debug requires web.enabled"] else [] in
      if negb (web_Enabled web) then errs
      else if negb (dep_Location dep =? LocationLocal) then
        (errs ++ ["web debug v1 supports local deployments only"])%list
      else
        match url_parse (TrimSpace (web_URL web)) with
        | None => (errs ++ ["web.url must be a valid http or https URL"])%list
        | Some (scheme, host, hostname) =>
            if (scheme =? "") || (host =? "") then
              (errs ++ ["web.url must be a valid http or https URL"])%list
            else
              let errs := if negb (scheme =? "http") && negb (scheme =? "https")
                          then (errs ++ ["web.url must use http or https"])%list else errs in
              let host := trim_brackets hostname in
              if negb (host =? "localhost") && negb (host =? "127.0.0.1") && negb (host =? "::1")
              then (errs ++ ["web.url must point to localhost, 127.0.0.1, or [::1]"])%list
              else errs
        end
  end.

Definition validateDeploymentCodeDebugConfig (serviceName : string) (dep : Deployment)
    : list string :=
  match dep_CodeDebug dep with
  | None => []
  | Some cfg =>
      ((if negb (Valid (cd_Policy cfg)) then
          ["service " +:+ serviceName +:+ " deployment " +:+ dep_EnvName dep +:+
           " code_debug.policy must be auto, enabled, or disabled"] else []) ++
       (if negb (dep_Location dep =? LocationLocal) ||
           negb (EffectiveControlMode dep =? ControlModeManaged) ||
           negb (codeDebugRuntimeSupported dep) then
          ["service " +:+ serviceName +:+ " deployment " +:+ dep_EnvName dep +:+
           " code_debug supports local managed language runtime deployments only"] else []) ++
       (if (cd_Mode cfg =? "") || (cd_Mode cfg =? CodeDebugModeLaunch) then []
        else ["code_debug.mode must be launch"]))%list
  end.

Fixpoint validate_ports_from (id : string) (seen : list Z) (ports : list Z) : list string :=
  match ports with
  | [] => []
  | p :: rest =>
      if (p <? 1)%Z || (65535 <? p)%Z then
        ("deployment " +:+ id +:+ ": 端口 " +:+ pretty p +:+ " 超出 1-65535")
        :: validate_ports_from id seen rest
      else if bool_decide (p ∈ seen) then
        ("deployment " +:+ id +:+ ": 端口 " +:+ pretty p +:+ " 重复声明")
        :: validate_ports_from id seen rest
      else validate_ports_from id (p :: seen) rest
  end.

Definition validateDeploymentPorts (dep : Deployment) : list string :=
  validate_ports_from (dep_ID dep) [] (default [] (dep_Ports dep)).

Definition validateRemoteRuntimeType (serviceName : string) (dep : Deployment) : list string :=
  match dep_Runtime dep with
  | None => []
  | Some rt =>
      if negb (dep_Location dep =? LocationRemote) then []
      else if (rc_Type rt =? RuntimeTypeCommand) || (rc_Type rt =? RuntimeTypeLanguage) then
        ["service " +:+ serviceName +:+ " deployment " +:+ dep_EnvName dep +:+
         ": 远端 deployment 不能使用 runtime.type=" +:+ rc_Type rt +:+
         "——该类型要求 SuperDev 自己拉起并持有进程，而下发到目标机的配置不含启动信息，结果是状态恒为未运行、端口镜像不会建立。若这台机器是你的开发机、希望由 SuperDev 直接运行该服务，请改用「归属转移」把项目归属到这台机器；若该服务由 systemd/docker/launchd 接管，请把 runtime.type 改成对应的基座类型。"]
      else []
  end.

Definition validateDeployment {P : UrlParser} (projectRoot serviceName : string)
    (language : ServiceLanguage) (dep : Deployment) (envs : list string) : list string :=
  let envName := TrimSpace (dep_EnvName dep) in
  let named := "service " +:+ serviceName +:+ " deployment " +:+ envName in
  let managed := EffectiveControlMode dep =? ControlModeManaged in
  ((if envName =? "" then ["service " +:+ serviceName +:+ " deployment env_name is required"]
    else if bool_decide (envName ∈ envs) then []
    else ["service " +:+ serviceName +:+ " deployment references unknown environment " +:+ envName])
   ++ (if (dep_Location dep =? LocationLocal) && managed && deploymentNeedsCommand dep &&
          (deploymentCommand dep =? "")
       then [named +:+ " local command is required"] else [])
   ++ (if (dep_Location dep =? LocationRemote) && managed &&
          (length (default [] (dep_HostIDs dep)) =? 0)%nat
       then [named +:+ " remote hosts are required"] else [])
   ++ (if (EffectiveControlMode dep =? ControlModeMonitor) &&
          (negb (dep_StartCommand dep =? "") || negb (dep_StopCommand dep =? ""))
       then [named +:+ " monitor mode cannot declare start or stop commands"] else [])
   ++ validateDeploymentLanguageRuntimeConfig projectRoot serviceName language dep
   ++ validateDeploymentWebConfig dep
   ++ validateDeploymentCodeDebugConfig serviceName dep
   ++ validateDeploymentPorts dep
   ++ validateRemoteRuntimeType serviceName dep)%list.

Fixpoint validate_deployments_from {P : UrlParser} (projectRoot name : string)
    (language : ServiceLanguage) (envs seen : list string) (deps : list Deployment)
    : list string :=
  match deps with
  | [] => []
  | dep :: rest =>
      let envName := TrimSpace (dep_EnvName dep) in
      ((if negb (envName =? "") && bool_decide (envName ∈ seen)
        then ["service " +:+ name +:+ " deployment env_name must be unique: " +:+ envName] else [])
       ++ validateDeployment projectRoot name language dep envs
       ++ validate_deployments_from projectRoot name language envs
            (if envName =? "" then seen else envName :: seen) rest)%list
  end.

Fixpoint validate_services_from {P : UrlParser} (projectRoot : string) (envs seen : list string)
    (services : list Service) : list string :=
  match services with
  | [] => []
  | svc :: rest =>
      let name := TrimSpace (svc_Name svc) in
      if name =? "" then
        "service name is required" :: validate_services_from projectRoot envs seen rest
      else
        ((if bool_decide (name ∈ seen) then ["service name must be unique: " +:+ name] else [])
         ++ validate_deployments_from projectRoot name (svc_Language svc) envs []
              (svc_Deployments svc)
         ++ validate_services_from projectRoot envs (name :: seen) rest)%list
  end.

Definition validateServices {P : UrlParser} (p : Project) : list string :=
  validate_services_from (prj_RootPath p) (env_Name <$> prj_Environments p) [] (prj_Services p).

Definition validatePipelineSteps (id : string) (pipeline : Pipeline) : list string :=
  (step ← (pl_Build pipeline ++ pl_Deploy pipeline ++ pl_Finally pipeline)%list;
   ((if TrimSpace (step_Name step) =? ""
     then ["pipeline " +:+ id +:+ " step name is required"] else []) ++
    (if TrimSpace (step_Type step) =? ""
     then ["pipeline " +:+ id +:+ " step " +:+ step_Name step +:+ " type is required"] else []))%list).

(** The errors on the roles come in the order of a map iteration, which nothing depends on. *)
Fixpoint validate_pipelines_from (services seen : list string) (pipelines : list ProjectPipeline)
    : list string :=
  match pipelines with
  | [] => []
  | pp :: rest =>
      let id := TrimSpace (pp_ID pp) in
      if id =? "" then
        "project pipeline id is required" :: validate_pipelines_from services seen rest
      else
        ((if TrimSpace (pp_Name pp) =? ""
          then ["project pipeline name is required: " +:+ id] else [])
         ++ (if bool_decide (id ∈ seen) then ["project pipeline id must be unique: " +:+ id] else [])
         ++ (serviceName ← pp_Services pp;
             if bool_decide (serviceName ∈ services) then []
             else ["pipeline " +:+ id +:+ " references unknown service " +:+ serviceName])
         ++ (kv ← map_to_list (pp_Roles pp);
             if (role_FromService kv.2 =? "") || bool_decide (role_FromService kv.2 ∈ services)
             then []
             else ["pipeline " +:+ id +:+ " role " +:+ kv.1 +:+ " references unknown service " +:+
                   role_FromService kv.2])
         ++ validatePipelineSteps id (pp_Pipeline pp)
         ++ validate_pipelines_from services (id :: seen) rest)%list
  end.

Definition validateProjectPipelines (p : Project) : list string :=
  validate_pipelines_from (svc_Name <$> prj_Services p) [] (prj_Pipelines p).

Definition Validate {P : UrlParser} (p : Project) (change : ChangeRequest) : ValidationResult :=
  let errs :=
    ((if cr_Delete change || cr_Remove change
      then ["delete is not supported by MCP config upsert"] else []) ++
     (if TrimSpace (prj_Name p) =? "" then ["project name is required"] else []) ++
     validateEnvironments (prj_Environments p) ++ validateServices p ++
     validateProjectPipelines p)%list in
  mkValidation (length errs =? 0)%nat errs.
