(* ===== verification/ConfigValid.v ===== *)
(** * Configuration changes: what a validated project is

    [Validate] reports no error exactly for the projects described here by [project_valid]. *)
From stdpp Require Import base strings gmap list.
From Stdlib Require Import ZArith Lia.
From S2P Require Import Prelude Model OperationTypes Paths ConfigChange.
Local Open Scope string_scope.

(** ** Errors are absent *)

Lemma err_when (b : bool) (e : string) : (if b then [e] else []) = [] <-> b = false.
Proof. by destruct b. Qed.
Lemma err_unless (b : bool) (e : string) : (if b then [] else [e]) = [] <-> b = true.
Proof. by destruct b. Qed.
Lemma errs_app (a b : list string) : (a ++ b)%list = [] <-> a = [] /\ b = [].
Proof. destruct a; simpl; [tauto|]. by split; [|intros []]. Qed.
Lemma errs_mbind {A} (f : A -> list string) l : l ≫= f = [] <-> Forall (fun x => f x = []) l.
Proof.
  induction l as [|x l IH]; simpl; [by split; [constructor|]|].
  by rewrite errs_app, IH, Forall_cons.
Qed.

(** A condition that fails, as an implication. *)
Lemma or_impl1 (P Q : Prop) `{!Decision P} : (~ P \/ Q) <-> (P -> Q).
Proof. destruct (decide P); tauto. Qed.
Lemma or_impl2 (P Q R : Prop) `{!Decision P, !Decision Q} :
  ((~ P \/ ~ Q) \/ R) <-> (P -> Q -> R).
Proof. destruct (decide P), (decide Q); tauto. Qed.
Lemma or_impl3 (P Q R S : Prop) `{!Decision P, !Decision Q, !Decision R} :
  (((~ P \/ ~ Q) \/ R) \/ S) <-> (P -> Q -> ~ R -> S).
Proof. destruct (decide P), (decide Q), (decide R); tauto. Qed.

(** ** The specification *)

(** A list of names that are not blank and differ after trimming. *)
Definition distinct_names (names : list string) : Prop :=
  Forall (fun n => TrimSpace n <> "") names /\ NoDup (TrimSpace <$> names).

Definition ports_valid (ports : list Z) : Prop :=
  Forall (fun p => 1 <= p <= 65535)%Z ports /\ NoDup ports.

Section Valid.
Context {P : UrlParser}.

(** The entry point of a web deployment: local, over HTTP, on this machine. *)
Definition web_valid (dep : Deployment) (web : WebEntrypointConfig) : Prop :=
  (ai_Enabled (web_AIDebug web) = true -> web_Enabled web = true) /\
  (web_Enabled web = true ->
     dep_Location dep = LocationLocal /\
     exists scheme host hostname,
       url_parse (TrimSpace (web_URL web)) = Some (scheme, host, hostname) /\ host <> "" /\
       (scheme = "http" \/ scheme = "https") /\
       trim_brackets hostname ∈ ["localhost"; "127.0.0.1"; "::1"]).

(** The language runtime of a deployment. *)
Definition runtime_valid (root : string) (language : ServiceLanguage) (dep : Deployment)
    (rt : RuntimeConfig) : Prop :=
  (dep_Location dep = LocationLocal -> EffectiveControlMode dep = ControlModeManaged ->
     Known (TrimSpace language) = true /\
     (TrimSpace language = LanguagePython ->
        StringValue (rc_Config rt) "program" <> "" \/ StringValue (rc_Config rt) "module" <> "" \/
        has_escape_hatch (rc_Config rt) = true)) /\
  exists cwd, ResolveRuntimeCWDInsideProject root (EffectiveCWD rt) = Ok cwd /\
    (StringValue (rc_Config rt) "program" <> "" -> exists program,
       ResolveRuntimePathInsideProject root cwd (StringValue (rc_Config rt) "program") = Ok program).

Record deployment_valid (root : string) (language : ServiceLanguage) (envs : list string)
    (dep : Deployment) : Prop := {
  dv_env : TrimSpace (dep_EnvName dep) ∈ envs;
  dv_command : dep_Location dep = LocationLocal -> EffectiveControlMode dep = ControlModeManaged ->
    deploymentRuntimeType dep <> RuntimeTypeLanguage -> deploymentCommand dep <> "";
  dv_hosts : dep_Location dep = LocationRemote -> EffectiveControlMode dep = ControlModeManaged ->
    default [] (dep_HostIDs dep) <> [];
  dv_monitor : EffectiveControlMode dep = ControlModeMonitor ->
    dep_StartCommand dep = "" /\ dep_StopCommand dep = "";
  dv_runtime : forall rt, dep_Runtime dep = Some rt ->
    deploymentRuntimeType dep = RuntimeTypeLanguage -> runtime_valid root language dep rt;
  dv_web : forall web, dep_Web dep = Some web -> web_valid dep web;
  dv_debug : forall cfg, dep_CodeDebug dep = Some cfg ->
    Valid (cd_Policy cfg) = true /\ dep_Location dep = LocationLocal /\
    EffectiveControlMode dep = ControlModeManaged /\
    deploymentRuntimeType dep = RuntimeTypeLanguage /\ cd_Mode cfg ∈ [""; CodeDebugModeLaunch];
  dv_ports : ports_valid (default [] (dep_Ports dep));
  dv_remote : forall rt, dep_Runtime dep = Some rt -> dep_Location dep = LocationRemote ->
    rc_Type rt <> RuntimeTypeCommand /\ rc_Type rt <> RuntimeTypeLanguage;
}.

Record service_valid (root : string) (envs : list string) (svc : Service) : Prop := {
  sv_envs : distinct_names (dep_EnvName <$> svc_Deployments svc);
  sv_deployments : Forall (deployment_valid root (svc_Language svc) envs) (svc_Deployments svc);
}.

Record pipeline_valid (services : list string) (pp : ProjectPipeline) : Prop := {
  plv_name : TrimSpace (pp_Name pp) <> "";
  plv_services : Forall (fun s => s ∈ services) (pp_Services pp);
  plv_roles : map_Forall (fun _ r => role_FromService r <> "" -> role_FromService r ∈ services)
                (pp_Roles pp);
  plv_steps : Forall (fun s => TrimSpace (step_Name s) <> "" /\ TrimSpace (step_Type s) <> "")
    (pl_Build (pp_Pipeline pp) ++ pl_Deploy (pp_Pipeline pp) ++ pl_Finally (pp_Pipeline pp))%list;
}.

(** The environments of the deployments are compared with the names as they are stored. *)
Record project_valid (p : Project) : Prop := {
  pv_name : TrimSpace (prj_Name p) <> "";
  pv_envs : distinct_names (env_Name <$> prj_Environments p);
  pv_services : distinct_names (svc_Name <$> prj_Services p);
  pv_service : Forall (service_valid (prj_RootPath p) (env_Name <$> prj_Environments p))
                 (prj_Services p);
  pv_pipelines : distinct_names (pp_ID <$> prj_Pipelines p);
  pv_pipeline : Forall (pipeline_valid (svc_Name <$> prj_Services p)) (prj_Pipelines p);
}.
(** ** Proofs *)

(** The loops carry the names seen; the head of a list of names against the rest. *)
Lemma distinct_names_cons n l :
  distinct_names (n :: l) <->
  TrimSpace n <> "" /\ TrimSpace n ∉ (TrimSpace <$> l) /\ distinct_names l.
Proof. unfold distinct_names. simpl. rewrite Forall_cons, NoDup_cons. tauto. Qed.

Lemma seen_cons (n : string) seen l :
  Forall (fun m => TrimSpace m ∉ n :: seen) l <->
  n ∉ (TrimSpace <$> l) /\ Forall (fun m => TrimSpace m ∉ seen) l.
Proof.
  induction l as [|m l IH]; [split; [split; [apply not_elem_of_nil|constructor]|constructor]|].
  rewrite fmap_cons, !Forall_cons, !not_elem_of_cons, IH. split; naive_solver.
Qed.

Lemma seen_nil (l : list string) : Forall (fun m => TrimSpace m ∉ []) l <-> True.
Proof. split; [done|]. intros _. apply Forall_true. intros m. apply not_elem_of_nil. Qed.

Lemma environments_nil seen envs :
  validate_environments_from seen envs = [] <->
  distinct_names (env_Name <$> envs) /\
  Forall (fun n => TrimSpace n ∉ seen) (env_Name <$> envs).
Proof.
  revert seen. induction envs as [|env envs IH]; intros seen; simpl.
  { split; [|done]. intros _. split; [split|]; constructor. }
  rewrite distinct_names_cons, Forall_cons.
  destruct (String.eqb_spec (TrimSpace (env_Name env)) "") as [He|He]; [naive_solver|].
  rewrite errs_app, err_when, bool_decide_eq_false, IH, seen_cons. tauto.
Qed.

Lemma ports_nil id seen ports :
  validate_ports_from id seen ports = [] <-> ports_valid ports /\ Forall (fun p => p ∉ seen) ports.
Proof.
  revert seen. unfold ports_valid. induction ports as [|p ports IH]; intros seen; simpl.
  { split; [|done]. intros _. repeat constructor. }
  rewrite !Forall_cons, NoDup_cons. destruct ((p <? 1)%Z || (65535 <? p)%Z) eqn:Hp.
  { split; [done|]. intros ((? & _) & _). lia. }
  case_bool_decide as Hs; [naive_solver|]. rewrite IH.
  assert (Forall (fun q => q ∉ p :: seen) ports <-> p ∉ ports /\ Forall (fun q => q ∉ seen) ports)
    as ->; [|split; intros; destruct_and!; repeat split; auto; lia].
  clear. induction ports as [|q ports IH]; [split; [|constructor]|].
  { intros _. split; [apply not_elem_of_nil|constructor]. }
  rewrite !Forall_cons, !not_elem_of_cons, IH. naive_solver.
Qed.

Lemma steps_nil id pl :
  validatePipelineSteps id pl = [] <->
  Forall (fun s => TrimSpace (step_Name s) <> "" /\ TrimSpace (step_Type s) <> "")
    (pl_Build pl ++ pl_Deploy pl ++ pl_Finally pl)%list.
Proof.
  unfold validatePipelineSteps. rewrite errs_mbind. apply Forall_iff. intros s.
  rewrite errs_app, !err_when, !String.eqb_neq. done.
Qed.

Lemma pipelines_nil services seen pipelines :
  validate_pipelines_from services seen pipelines = [] <->
  distinct_names (pp_ID <$> pipelines) /\ Forall (pipeline_valid services) pipelines /\
  Forall (fun n => TrimSpace n ∉ seen) (pp_ID <$> pipelines).
Proof.
  revert seen. induction pipelines as [|pp pipelines IH]; intros seen; simpl.
  { split; [|done]. intros _. repeat split; constructor. }
  rewrite distinct_names_cons, !Forall_cons.
  destruct (String.eqb_spec (TrimSpace (pp_ID pp)) "") as [He|He]; [naive_solver|].
  assert (pipeline_valid services pp <->
    TrimSpace (pp_Name pp) <> "" /\ Forall (fun s => s ∈ services) (pp_Services pp) /\
    map_Forall (fun _ r => role_FromService r <> "" -> role_FromService r ∈ services)
      (pp_Roles pp) /\ validatePipelineSteps (TrimSpace (pp_ID pp)) (pp_Pipeline pp) = []) as ->.
  { rewrite steps_nil. split; [intros []; done|]. intros (? & ? & ? & ?). by split. }
  rewrite !errs_app, !errs_mbind, !err_when, String.eqb_neq, bool_decide_eq_false, IH, seen_cons.
  assert (forall l, Forall (fun s : string => (if bool_decide (s ∈ services) then []
      else ["pipeline " +:+ TrimSpace (pp_ID pp) +:+ " references unknown service " +:+ s]) = []) l
    <-> Forall (fun s => s ∈ services) l) as ->.
  { intros l. apply Forall_iff. intros s. by rewrite err_unless, bool_decide_eq_true. }
  rewrite map_Forall_to_list.
  assert (forall l : list (string * ProjectPipelineRole), Forall (fun kv =>
      (if (role_FromService kv.2 =? "") || bool_decide (role_FromService kv.2 ∈ services) then []
       else ["pipeline " +:+ TrimSpace (pp_ID pp) +:+ " role " +:+ kv.1 +:+
             " references unknown service " +:+ role_FromService kv.2]) = []) l
    <-> Forall (uncurry (fun _ r => role_FromService r <> "" -> role_FromService r ∈ services)) l) as ->.
  { intros l. apply Forall_iff. intros [k r]. simpl.
    rewrite err_unless, orb_true_iff, String.eqb_eq, bool_decide_eq_true.
    destruct (decide (role_FromService r = "")); naive_solver. }
  tauto.
Qed.

Lemma web_nil dep :
  validateDeploymentWebConfig dep = [] <->
  (forall web, dep_Web dep = Some web -> web_valid dep web).
Proof.
  unfold validateDeploymentWebConfig, web_valid. destruct (dep_Web dep) as [web|]; [|naive_solver].
  trans (web_valid dep web); [|unfold web_valid; naive_solver]. unfold web_valid.
  destruct (web_Enabled web); simpl; [|rewrite err_when; destruct (ai_Enabled _); naive_solver].
  rewrite andb_false_r. destruct (String.eqb_spec (dep_Location dep) LocationLocal) as [Hl|];
    simpl; [|naive_solver].
  rewrite Hl. destruct (url_parse _) as [[[scheme host] hostname]|] eqn:Hu; [|naive_solver].
  trans (host <> "" /\ (scheme = "http" \/ scheme = "https") /\
         trim_brackets hostname ∈ ["localhost"; "127.0.0.1"; "::1"]); [|naive_solver].
  rewrite !elem_of_cons, elem_of_nil.
  destruct (String.eqb_spec scheme "") as [->|], (String.eqb_spec host ""); simpl;
    [naive_solver..|].
  destruct (String.eqb_spec scheme "http"), (String.eqb_spec scheme "https"),
    (String.eqb_spec (trim_brackets hostname) "localhost"),
    (String.eqb_spec (trim_brackets hostname) "127.0.0.1"),
    (String.eqb_spec (trim_brackets hostname) "::1"); simpl; tauto || (split; [done|tauto]).
Qed.

Lemma debug_nil name dep :
  validateDeploymentCodeDebugConfig name dep = [] <->
  (forall cfg, dep_CodeDebug dep = Some cfg ->
    Valid (cd_Policy cfg) = true /\ dep_Location dep = LocationLocal /\
    EffectiveControlMode dep = ControlModeManaged /\
    deploymentRuntimeType dep = RuntimeTypeLanguage /\ cd_Mode cfg ∈ [""; CodeDebugModeLaunch]).
Proof.
  unfold validateDeploymentCodeDebugConfig, codeDebugRuntimeSupported.
  destruct (dep_CodeDebug dep) as [cfg|]; [|naive_solver].
  rewrite !errs_app, !err_when, err_unless, !orb_false_iff, !negb_false_iff, orb_true_iff,
    !String.eqb_eq. set_solver.
Qed.

(** The rules of the language itself. *)
Lemma language_rules name language dep rt :
  (if (dep_Location dep =? LocationLocal) && (EffectiveControlMode dep =? ControlModeManaged)
   then
     let language := TrimSpace language in
     if language =? "" then
       ["service " +:+ name +:+ " language is required for local managed language runtime"]
     else if negb (Known language) then
       ["service " +:+ name +:+ " language " +:+ language +:+
        " is unsupported for local managed language runtime"]
     else if (language =? LanguagePython) && (StringValue (rc_Config rt) "program" =? "") &&
             (StringValue (rc_Config rt) "module" =? "") && negb (has_escape_hatch (rc_Config rt))
     then ["service " +:+ name +:+
           " python runtime requires program, module, or runtime_executable"]
     else []
   else []) = [] <->
  (dep_Location dep = LocationLocal -> EffectiveControlMode dep = ControlModeManaged ->
     Known (TrimSpace language) = true /\
     (TrimSpace language = LanguagePython ->
        StringValue (rc_Config rt) "program" <> "" \/ StringValue (rc_Config rt) "module" <> "" \/
        has_escape_hatch (rc_Config rt) = true)).
Proof.
  cbv zeta. destruct (String.eqb_spec (dep_Location dep) LocationLocal); [|naive_solver].
  destruct (String.eqb_spec (EffectiveControlMode dep) ControlModeManaged); [|naive_solver].
  simpl. destruct (String.eqb_spec (TrimSpace language) "") as [->|]; [naive_solver|].
  destruct (Known (TrimSpace language)); simpl; [|naive_solver].
  destruct (String.eqb_spec (TrimSpace language) LanguagePython); simpl; [|naive_solver].
  destruct (String.eqb_spec (StringValue (rc_Config rt) "program") ""); simpl; [|naive_solver].
  destruct (String.eqb_spec (StringValue (rc_Config rt) "module") ""); simpl; [|naive_solver].
  destruct (has_escape_hatch (rc_Config rt)); naive_solver.
Qed.

Lemma runtime_nil root name language dep :
  validateDeploymentLanguageRuntimeConfig root name language dep = [] <->
  (forall rt, dep_Runtime dep = Some rt -> deploymentRuntimeType dep = RuntimeTypeLanguage ->
     runtime_valid root language dep rt).
Proof.
  unfold validateDeploymentLanguageRuntimeConfig.
  destruct (dep_Runtime dep) as [rt|]; [|naive_solver].
  destruct (String.eqb_spec (deploymentRuntimeType dep) RuntimeTypeLanguage); simpl;
    [|naive_solver].
  trans (runtime_valid root language dep rt); [|naive_solver]. unfold runtime_valid.
  rewrite <-(language_rules name). cbv zeta.
  match goal with |- _ <-> (?e = [] /\ _) => generalize e; intros errs end.
  destruct (ResolveRuntimeCWDInsideProject _ _) as [cwd|err];
    [|destruct err; rewrite errs_app; naive_solver].
  destruct (String.eqb_spec (StringValue (rc_Config rt) "program") "").
  { split; [intros ->; split; [done|]; by exists cwd|by intros [? _]]. }
  destruct (ResolveRuntimePathInsideProject _ _ _) as [program|err] eqn:Hp.
  - split; [intros ->; split; [done|]; exists cwd; split; [done|]; eauto|by intros [? _]].
  - trans False; [destruct err; rewrite errs_app; naive_solver|]. split; [done|].
    intros (_ & c & [= <-] & H). destruct (H n) as [? ?]. congruence.
Qed.

Lemma remote_nil name dep :
  validateRemoteRuntimeType name dep = [] <->
  (forall rt, dep_Runtime dep = Some rt -> dep_Location dep = LocationRemote ->
    rc_Type rt <> RuntimeTypeCommand /\ rc_Type rt <> RuntimeTypeLanguage).
Proof.
  unfold validateRemoteRuntimeType. destruct (dep_Runtime dep) as [rt|]; [|naive_solver].
  destruct (String.eqb_spec (dep_Location dep) LocationRemote); simpl; [|naive_solver].
  rewrite err_when, orb_false_iff, !String.eqb_neq. split; [by intros ? ? [= <-] _|intros H; by apply H].
Qed.

Lemma deployment_nil root name language dep envs :
  validateDeployment root name language dep envs = [] <->
  TrimSpace (dep_EnvName dep) <> "" /\ deployment_valid root language envs dep.
Proof.
  assert (deployment_valid root language envs dep <->
    TrimSpace (dep_EnvName dep) ∈ envs /\
    (dep_Location dep = LocationLocal -> EffectiveControlMode dep = ControlModeManaged ->
      deploymentRuntimeType dep <> RuntimeTypeLanguage -> deploymentCommand dep <> "") /\
    (dep_Location dep = LocationRemote -> EffectiveControlMode dep = ControlModeManaged ->
      default [] (dep_HostIDs dep) <> []) /\
    (EffectiveControlMode dep = ControlModeMonitor ->
      dep_StartCommand dep = "" /\ dep_StopCommand dep = "") /\
    validateDeploymentLanguageRuntimeConfig root name language dep = [] /\
    validateDeploymentWebConfig dep = [] /\ validateDeploymentCodeDebugConfig name dep = [] /\
    validateDeploymentPorts dep = [] /\ validateRemoteRuntimeType name dep = []) as ->.
  { unfold validateDeploymentPorts.
    rewrite runtime_nil, web_nil, debug_nil, remote_nil, ports_nil.
    assert (Forall (fun p => p ∉ []) (default [] (dep_Ports dep)) <-> True) as ->
      by (split; [done|intros _; apply Forall_true; intros ?; apply not_elem_of_nil]).
    split; [intros []; tauto|]. intros (? & ? & ? & ? & ? & ? & ? & [? _] & ?). by split. }
  unfold validateDeployment, deploymentNeedsCommand. rewrite !errs_app, !err_when.
  rewrite !andb_false_iff, !negb_false_iff, orb_false_iff, !negb_false_iff, !String.eqb_eq,
    !String.eqb_neq, Nat.eqb_neq.
  assert (default [] (dep_HostIDs dep) <> [] <-> length (default [] (dep_HostIDs dep)) <> 0) as ->
    by (destruct (default [] (dep_HostIDs dep)); simpl; split; done || lia).
  destruct (String.eqb_spec (TrimSpace (dep_EnvName dep)) ""); [naive_solver|].
  rewrite err_unless, bool_decide_eq_true.
  rewrite or_impl3, or_impl2, or_impl1 by apply _. tauto.
Qed.

Lemma deployments_nil root name language envs seen deps :
  validate_deployments_from root name language envs seen deps = [] <->
  distinct_names (dep_EnvName <$> deps) /\ Forall (deployment_valid root language envs) deps /\
  Forall (fun n => TrimSpace n ∉ seen) (dep_EnvName <$> deps).
Proof.
  revert seen. induction deps as [|dep deps IH]; intros seen; simpl.
  { split; [|done]. intros _. repeat split; constructor. }
  rewrite !errs_app, err_when, deployment_nil, IH, distinct_names_cons, !Forall_cons.
  destruct (String.eqb_spec (TrimSpace (dep_EnvName dep)) ""); simpl; [tauto|].
  rewrite seen_cons, bool_decide_eq_false. tauto.
Qed.

Lemma services_nil root envs seen services :
  validate_services_from root envs seen services = [] <->
  distinct_names (svc_Name <$> services) /\ Forall (service_valid root envs) services /\
  Forall (fun n => TrimSpace n ∉ seen) (svc_Name <$> services).
Proof.
  revert seen. induction services as [|svc services IH]; intros seen; simpl.
  { split; [|done]. intros _. repeat split; constructor. }
  rewrite distinct_names_cons, !Forall_cons.
  destruct (String.eqb_spec (TrimSpace (svc_Name svc)) "") as [He|He]; [naive_solver|].
  rewrite !errs_app, err_when, bool_decide_eq_false, deployments_nil, IH, seen_nil, seen_cons.
  assert (service_valid root envs svc <-> distinct_names (dep_EnvName <$> svc_Deployments svc) /\
    Forall (deployment_valid root (svc_Language svc) envs) (svc_Deployments svc)) as ->
    by (split; [by intros []|by intros []; split]).
  tauto.
Qed.

(** The whole validation, from its parts. *)
Lemma Validate_spec p change :
  let v := Validate p change in
  (val_OK v = true <-> val_Errors v = []) /\
  (val_Errors v = [] <-> cr_Delete change = false /\ cr_Remove change = false /\ project_valid p).
Proof.
  simpl. split; [by rewrite Nat.eqb_eq, length_zero_iff_nil|].
  unfold validateEnvironments, validateServices, validateProjectPipelines.
  rewrite !errs_app, !err_when, orb_false_iff, String.eqb_neq, environments_nil, services_nil,
    pipelines_nil, !seen_nil.
  split; [intros; destruct_and!; do 2 (split; [done|]); by split|]. intros (? & ? & []). tauto.
Qed.

(** C21: [Validate] reports no error exactly for the projects of [project_valid], when the request
    asks for no deletion; its verdict is that it found none.  In such a project the name is not
    blank; the names of the environments, the names of the services and the identifiers of the
    pipelines are not blank and differ after trimming; so do the environments of the deployments of
    a service, each of which is an environment of the project; each pipeline has a name, its
    services and the services its roles refer to are services of the project, and its steps have a
    name and a type.  Each deployment has the command, hosts, ports, runtime inside the project, web
    entry point on this machine and debugger settings that its location and mode ask for or allow
    ([deployment_valid]).  That is all: neither the [DependsOn] of a deployment nor the environments
    of a pipeline are looked at. *)
Theorem Validate_exact p change :
  let v := Validate p change in
  (val_OK v = true <-> val_Errors v = []) /\
  (val_Errors v = [] <-> cr_Delete change = false /\ cr_Remove change = false /\ project_valid p).
Proof. apply Validate_spec. Qed.
End Valid.
