(* ===== verification/ConfigPlan.v ===== *)
(** * Configuration changes: their difference and their plan

    [configchange/diff.go] and [plan.go], with the JSON documents a fingerprint of a change
    is computed from: the struct tags of [configchange/types.go] and [model/model.go]. *)
From stdpp Require Import base strings gmap pretty list.
From Stdlib Require Import ZArith Lia Ascii.
From S2P Require Import Prelude Model OperationTypes Paths ConfigChange.
Local Open Scope string_scope.

(** ** JSON *)

(** A field with [omitempty]; [zero] says whether its value is left out. *)
Definition omit (name : string) (zero : bool) (v : json) : list (string * json) :=
  if zero then [] else [(name, v)].

Definition omit_bool (name : string) (b : bool) : list (string * json) :=
  omit name (negb b) (JBool b).
Definition omit_int (name : string) (z : Z) : list (string * json) :=
  omit name (z =? 0)%Z (JInt z).
Definition omit_list {A} (name : string) (f : A -> json) (l : list A) : list (string * json) :=
  omit name (length l =? 0)%nat (JArr (f <$> l)).
(** A pointer. *)
Definition omit_opt {A} (name : string) (f : A -> json) (v : option A) : list (string * json) :=
  match v with Some x => [(name, f x)] | None => [] end.

Definition gmap_json {A} (f : A -> json) (m : gmap string A) : json :=
  json_map (map_to_list (f <$> m)).
Definition omit_map {A} (name : string) (f : A -> json) (m : gmap string A)
    : list (string * json) :=
  omit name (bool_decide (m = ∅)) (gmap_json f m).

Definition null : json := JRaw "null".

Fixpoint any_json (a : any) : json :=
  match a with
  | ANil => null
  | ABool b => JBool b
  | AInt z => JInt z
  | AFloat text => JRaw text
  | AStr s => JStr s
  | AList l => JArr (any_json <$> l)
  | AMap m => json_map ((fun kv => (kv.1, any_json kv.2)) <$> m)
  end.

Definition omit_anys (name : string) (m : list (string * any)) : list (string * json) :=
  omit name (length m =? 0)%nat (json_map ((fun kv => (kv.1, any_json kv.2)) <$> m)).

Definition environment_json (e : Environment) : json :=
  JObj ([("id", JStr (env_ID e)); ("name", JStr (env_Name e)); ("is_dev", JBool (env_IsDev e));
         ("order", JInt (env_Order e))] ++
        omitempty "ai_note" (env_AINote e) ++ omitempty "auth_hint" (env_AuthHint e)).

Definition runtime_json (r : RuntimeConfig) : json :=
  JObj ([("type", JStr (rc_Type r))] ++ omitempty "command" (rc_Command r) ++
        omitempty "executable" (rc_Executable r) ++ omit_list "args" JStr (rc_Args r) ++
        omitempty "working_dir" (rc_WorkingDir r) ++ omitempty "env_file" (rc_EnvFile r) ++
        omit_map "env_vars" JStr (default ∅ (rc_EnvVars r)) ++ omitempty "cwd" (rc_CWD r) ++
        omit_map "env" JStr (default ∅ (rc_Env r)) ++ omit_anys "config" (rc_Config r) ++
        omitempty "service_name" (rc_ServiceName r) ++ omitempty "release_dir" (rc_ReleaseDir r) ++
        omitempty "current_dir" (rc_CurrentDir r) ++ omitempty "exec_start" (rc_ExecStart r) ++
        omitempty "label" (rc_Label r) ++ omitempty "plist_path" (rc_PlistPath r) ++
        omitempty "container" (rc_Container r) ++ omitempty "domain" (rc_Domain r)).

Definition log_json (l : LogConfig) : json :=
  JObj ([("type", JStr (lc_Type l))] ++ omitempty "target" (lc_Target l) ++
        omitempty "path" (lc_Path l) ++ omitempty "command" (lc_Command l) ++
        omit_list "extra_args" JStr (lc_ExtraArgs l)).

(** The two structs inside are not left out. *)
Definition web_json (w : WebEntrypointConfig) : json :=
  JObj ([("enabled", JBool (web_Enabled w))] ++ omitempty "url" (web_URL w) ++
        omitempty "default_path" (web_DefaultPath w) ++
        [("readiness", JObj (omitempty "type" (wr_Type (web_Readiness w)) ++
                             omit_int "timeout_seconds" (wr_TimeoutSeconds (web_Readiness w))));
         ("ai_debug", JObj [("enabled", JBool (ai_Enabled (web_AIDebug w)))])]).

Definition code_debug_json (c : CodeDebugConfig) : json :=
  JObj (omitempty "policy" (cd_Policy c) ++ omitempty "mode" (cd_Mode c) ++
        omitempty "adapter_command" (cd_AdapterCommand c) ++
        omit_list "adapter_args" JStr (cd_AdapterArgs c) ++
        omit_bool "stop_on_entry" (cd_StopOnEntry c)).

Definition step_json (s : Step) : json :=
  JObj ([("name", JStr (step_Name s)); ("type", JStr (step_Type s))] ++
        omit_list "needs" JStr (step_Needs s) ++ omit_list "roles" JStr (step_Roles s) ++
        omitempty "run_if" (step_RunIf s) ++ omitempty "concurrency" (step_Concurrency s) ++
        omit_int "retries" (step_Retries s) ++ omitempty "retry_delay" (step_RetryDelay s) ++
        omit_anys "with" (step_With s)).

Definition pipeline_json (p : Pipeline) : json :=
  JObj (omit_map "variables" JStr (pl_Variables p) ++
        omit_map "roles" strings_json (pl_Roles p) ++ omit_list "build" step_json (pl_Build p) ++
        omit_list "deploy" step_json (pl_Deploy p) ++ omit_list "finally" step_json (pl_Finally p)).

Definition role_json (r : ProjectPipelineRole) : json :=
  JObj (omitempty "from_service" (role_FromService r) ++ omit_list "hosts" JStr (role_Hosts r) ++
        omit_map "environments" strings_json (role_Environments r)).

Definition project_pipeline_json (p : ProjectPipeline) : json :=
  JObj ([("id", JStr (pp_ID p)); ("name", JStr (pp_Name p))] ++
        omit_list "services" JStr (pp_Services p) ++
        omitempty "artifact_kind" (pp_ArtifactKind p) ++
        omit_map "variables" JStr (pp_Variables p) ++
        omit_map "environments" (fun m => JObj (omit_map "variables" JStr m)) (pp_Environments p) ++
        omit_map "roles" role_json (pp_Roles p) ++ omitempty "sync_mode" (pp_SyncMode p) ++
        omitempty "sync_command" (pp_SyncCommand p) ++
        [("pipeline", pipeline_json (pp_Pipeline p))]).

Definition project_patch_json (p : ProjectPatch) : json :=
  JObj (omitempty "name" (ppt_Name p) ++ omit_map "variables" JStr (ppt_Variables p) ++
        omit_list "environments" environment_json (ppt_Environments p)).

Definition deployment_patch_json (p : DeploymentPatch) : json :=
  JObj (omitempty "id" (dpt_ID p) ++ omitempty "env_name" (dpt_EnvName p) ++
        omitempty "location" (dpt_Location p) ++ omitempty "control_mode" (dpt_ControlMode p) ++
        omit_opt "runtime" runtime_json (dpt_Runtime p) ++ omit_opt "logs" log_json (dpt_Logs p) ++
        omit_opt "web" web_json (dpt_Web p) ++
        omit_opt "code_debug" code_debug_json (dpt_CodeDebug p) ++
        omitempty "command" (dpt_Command p) ++ omitempty "work_dir" (dpt_WorkDir p) ++
        omitempty "env_file" (dpt_EnvFile p) ++ omit_map "env" JStr (default ∅ (dpt_Env p)) ++
        omit_list "host_ids" JStr (default [] (dpt_HostIDs p)) ++
        omit_list "ports" JInt (default [] (dpt_Ports p)) ++ omitempty "log_type" (dpt_LogType p) ++
        omitempty "log_target" (dpt_LogTarget p) ++
        omit_list "extra_args" JStr (default [] (dpt_ExtraArgs p)) ++
        omit_opt "read_only" JBool (dpt_ReadOnly p) ++
        omitempty "start_command" (dpt_StartCommand p) ++
        omitempty "stop_command" (dpt_StopCommand p)).

Definition service_patch_json (p : ServicePatch) : json :=
  JObj (omitempty "id" (spt_ID p) ++ omitempty "name" (spt_Name p) ++
        omit_opt "language" JStr (spt_Language p) ++ omit_opt "required" JBool (spt_Required p) ++
        omit_opt "order" JInt (spt_Order p) ++
        omit_list "deployments" deployment_patch_json (spt_Deployments p)).

Definition change_json (c : ChangeRequest) : json :=
  JObj ([("kind", JStr (cr_Kind c))] ++ omitempty "project_id" (cr_ProjectID c) ++
        omitempty "project_name" (cr_ProjectName c) ++ omitempty "root_path" (cr_RootPath c) ++
        omitempty "approval_token" (cr_ApprovalToken c) ++
        omitempty "debug_session_id" (cr_DebugSessionID c) ++
        omit_opt "project" project_patch_json (cr_Project c) ++
        omit_opt "service" service_patch_json (cr_Service c) ++
        omit_opt "pipeline" project_pipeline_json (cr_Pipeline c) ++
        omit_bool "delete" (cr_Delete c) ++ omit_bool "remove" (cr_Remove c)).

(** ** diff.go *)

(** [None] is a field that is left out; the value of a nil map is [null]. *)
Record DiffEntry : Type := mkDiff {
  de_Path : string;
  de_Before : option json;
  de_After : option json;
}.

Definition diff_entry_json (d : DiffEntry) : json :=
  JObj ([("path", JStr (de_Path d))] ++ omit_opt "before" id (de_Before d) ++
        omit_opt "after" id (de_After d)).

(** A nil slice is [null]. *)
Definition diff_json (l : list DiffEntry) : json :=
  match l with [] => null | _ => JArr (diff_entry_json <$> l) end.

(** The entry when two values differ. *)
Definition diff_when (changed : bool) (path : string) (before after : json) : list DiffEntry :=
  if changed then [mkDiff path (Some before) (Some after)] else [].

Definition diff_string (path before after : string) : list DiffEntry :=
  diff_when (negb (before =? after)) path (JStr before) (JStr after).

(** [strings.Contains] *)
Definition Contains (s sub : string) : bool :=
  match String.index 0 sub s with Some _ => true | None => false end.

Definition secret_parts : list string :=
  ["TOKEN"; "SECRET"; "PASSWORD"; "PASSWD"; "KEY"; "AUTH"; "COOKIE"; "SESSION"].

Definition isSecretKey {U : UnicodeCase} (key : string) : bool :=
  let upper := ToUpper key in existsb (Contains upper) secret_parts.

Definition redacted {U : UnicodeCase} (key value : string) : json :=
  JStr (if isSecretKey key then "[redacted]" else value).

Definition diffStringMap {U : UnicodeCase} (prefix : string) (before after : gmap string string)
    : list DiffEntry :=
  key ← sort_strings (map_to_list (before ∪ after)).*1;
  diff_when (negb (default "" (before !! key) =? default "" (after !! key)))
    (prefix +:+ "." +:+ key) (redacted key (default "" (before !! key)))
    (redacted key (default "" (after !! key))).

(** A map filled by a loop: the last element with the key. *)
Definition last_named {A} (f : A -> string) (name : string) (l : list A) : option A :=
  List.find (fun x => f x =? name) (rev l).

Definition diffEnvironments (before after : list Environment) : list DiffEntry :=
  env ← after;
  let path := "environments[" +:+ env_Name env +:+ "]" in
  match last_named env_Name (env_Name env) before with
  | None => [mkDiff path None (Some (environment_json env))]
  | Some prev =>
      (diff_when (negb (Bool.eqb (env_IsDev prev) (env_IsDev env))) (path +:+ ".is_dev")
         (JBool (env_IsDev prev)) (JBool (env_IsDev env)) ++
       diff_when (negb (env_Order prev =? env_Order env)%Z) (path +:+ ".order")
         (JInt (env_Order prev)) (JInt (env_Order env)))%list
  end.

Definition serviceSummary (svc : Service) : json :=
  json_map [("id", JStr (svc_ID svc)); ("name", JStr (svc_Name svc));
            ("deployment_count", JInt (Z.of_nat (length (svc_Deployments svc))))].

Definition deploymentSummary (dep : Deployment) : json :=
  json_map [("id", JStr (dep_ID dep)); ("env_name", JStr (dep_EnvName dep));
            ("location", JStr (dep_Location dep));
            ("control_mode", JStr (EffectiveControlMode dep))].

Definition codeDebugSummary (cfg : option CodeDebugConfig) : json :=
  match cfg with
  | None => null
  | Some cfg =>
      json_map (omitempty "policy" (cd_Policy cfg) ++ omitempty "mode" (cd_Mode cfg) ++
                omitempty "adapter_command" (cd_AdapterCommand cfg) ++
                omit_list "adapter_args" JStr (cd_AdapterArgs cfg) ++
                omit_bool "stop_on_entry" (cd_StopOnEntry cfg))
  end.

Definition diffDeployments (serviceName : string) (before after : list Deployment)
    : list DiffEntry :=
  dep ← after;
  let path := "services[" +:+ serviceName +:+ "].deployments[" +:+ dep_EnvName dep +:+ "]" in
  match last_named dep_EnvName (dep_EnvName dep) before with
  | None => [mkDiff path None (Some (deploymentSummary dep))]
  | Some prev =>
      (diff_string (path +:+ ".runtime.command") (deploymentCommand prev) (deploymentCommand dep) ++
       diff_string (path +:+ ".location") (dep_Location prev) (dep_Location dep) ++
       diff_when
         (bool_decide (codeDebugSummary (dep_CodeDebug prev) <> codeDebugSummary (dep_CodeDebug dep)))
         (path +:+ ".code_debug") (codeDebugSummary (dep_CodeDebug prev))
         (codeDebugSummary (dep_CodeDebug dep)))%list
  end.

Definition diffServices (before after : list Service) : list DiffEntry :=
  svc ← after;
  let path := "services[" +:+ svc_Name svc +:+ "]" in
  match last_named svc_Name (svc_Name svc) before with
  | None => [mkDiff path None (Some (serviceSummary svc))]
  | Some prev =>
      (diff_when (negb (Bool.eqb (svc_Required prev) (svc_Required svc))) (path +:+ ".required")
         (JBool (svc_Required prev)) (JBool (svc_Required svc)) ++
       diffDeployments (svc_Name svc) (svc_Deployments prev) (svc_Deployments svc))%list
  end.

Definition diffPipelines (before after : list ProjectPipeline) : list DiffEntry :=
  item ← after;
  let path := "pipelines[" +:+ pp_ID item +:+ "]" in
  match last_named pp_ID (pp_ID item) before with
  | None => [mkDiff path None (Some (JStr (pp_Name item)))]
  | Some prev =>
      let p := pp_Pipeline prev in
      let q := pp_Pipeline item in
      (diff_string (path +:+ ".name") (pp_Name prev) (pp_Name item) ++
       diff_when (negb (length (pl_Build p) =? length (pl_Build q))%nat ||
                  negb (length (pl_Deploy p) =? length (pl_Deploy q))%nat ||
                  negb (length (pl_Finally p) =? length (pl_Finally q))%nat)
         (path +:+ ".pipeline") (JStr "changed") (JStr "changed"))%list
  end.

Definition Diff {U : UnicodeCase} (before after : Project) : list DiffEntry :=
  (diff_string "name" (prj_Name before) (prj_Name after) ++
   diffStringMap "variables" (default ∅ (prj_Variables before)) (default ∅ (prj_Variables after)) ++
   diffEnvironments (prj_Environments before) (prj_Environments after) ++
   diffServices (prj_Services before) (prj_Services after) ++
   diffPipelines (prj_Pipelines before) (prj_Pipelines after))%list.

(** ** plan.go *)

Definition targetSummary (project : Project) (change : ChangeRequest) : string :=
  if cr_Kind change =? KindServiceUpsert then
    match cr_Service change with
    | Some s => prj_Name project +:+ "/service " +:+ spt_Name s
    | None => prj_Name project
    end
  else if cr_Kind change =? KindPipelineUpsert then
    match cr_Pipeline change with
    | Some p => prj_Name project +:+ "/pipeline " +:+ pp_ID p
    | None => prj_Name project
    end
  else prj_Name project.

Definition onlyProjectNameOrVariables (change : ChangeRequest) : bool :=
  match cr_Project change with
  | Some p => (length (ppt_Environments p) =? 0)%nat
  | None => false
  end.

Definition normalizedChange (c : ChangeRequest) : ChangeRequest :=
  {| cr_Kind := cr_Kind c; cr_ProjectID := cr_ProjectID c; cr_ProjectName := cr_ProjectName c;
     cr_RootPath := cr_RootPath c; cr_ApprovalToken := ""; cr_DebugSessionID := "";
     cr_Project := cr_Project c; cr_Service := cr_Service c; cr_Pipeline := cr_Pipeline c;
     cr_Delete := cr_Delete c; cr_Remove := cr_Remove c |}.

Section Plan.
Context {D : Digest} {U : UnicodeCase}.

Definition expectedEffects (change : ChangeRequest) (project : Project) : list string :=
  if cr_Kind change =? KindProjectUpsert then
    ["update project configuration " +:+ prj_Name project]
  else
    match (if cr_Kind change =? KindServiceUpsert then cr_Service change else None),
          (if cr_Kind change =? KindPipelineUpsert then cr_Pipeline change else None) with
    | Some s, _ => ["upsert service " +:+ spt_Name s]
    | None, Some p =>
        ["update project pipeline " +:+
         (if pp_ID p =? "" then slugID (pp_Name p) else pp_ID p)]
    | None, None => ["update project configuration"]
    end.

(** [newPlanID] *)
Definition config_plan_id (kind projectID : string) : string :=
  "op_" +:+ String.substring 0 16 (bytes_digest (kind +:+ ":" +:+ projectID)).

Definition fingerprint_parts (kind : string) (target : Target) (change : ChangeRequest)
    (diff : list DiffEntry) (effects : list string) (denied : bool) : json :=
  json_map [("kind", JStr kind); ("target", target_json target);
            ("change", change_json (normalizedChange change)); ("diff", diff_json diff);
            ("expected_effects", strings_json effects); ("denied", JBool denied)].

Definition config_target (p : Project) : Target :=
  {| ProjectID := prj_ID p; ProjectName := prj_Name p; EnvName := ""; ServiceID := "";
     ServiceName := ""; DeploymentID := ""; HostID := ""; TemplatePath := ""; TemplateDigest := "";
     PipelineID := ""; ArtifactVersion := ""; DebugSessionID := ""; RequestOrigin := "";
     PairingCode := "" |}.

(** [configchange.Plan]; [now] is what [time.Now] gives. *)
Definition config_plan (now : time) (after : Project) (change : ChangeRequest)
    (diff : list DiffEntry) (v : ValidationResult) : Plan :=
  let target := config_target after in
  let effects := expectedEffects change after in
  let risk := if (cr_Kind change =? KindProjectUpsert) && onlyProjectNameOrVariables change
              then RiskMedium else RiskHigh in
  {| plan_ID := config_plan_id (cr_Kind change) (prj_ID after);
     plan_Kind := cr_Kind change;
     plan_Target := target;
     plan_TargetSummary := targetSummary after change;
     plan_RiskLevel := if val_OK v then risk else RiskCritical;
     plan_RequiresApproval := val_OK v;
     plan_Denied := negb (val_OK v);
     plan_Reasons := if val_OK v then [] else val_Errors v;
     plan_ExpectedEffects := effects;
     plan_Checks := [mkCheck "config_validation" (if val_OK v then "passed" else "failed")
       (if val_OK v then "config change validation passed"
        else "config change validation failed")];
     plan_Fingerprint := stableFingerprint
       (fingerprint_parts (cr_Kind change) target change diff effects (negb (val_OK v)));
     plan_CreatedAt := now;
     plan_ExpiresAt := time_add now DefaultPlanTTL |}.
End Plan.

(** ** Theorems: what a fingerprint of a change fixes

    Two documents built from the same fields agree field by field. *)

(** All fields of the list have the name, and there is at most one. *)
Definition keyed (n : string) (l : list (string * json)) : Prop := l = [] \/ exists v, l = [(n, v)].

Lemma keyed_omit n z v : keyed n (omit n z v).
Proof. destruct z; [by left|right; by eexists]. Qed.
Lemma keyed_omitempty n v : keyed n (omitempty n v).
Proof. unfold omitempty. destruct (v =? ""); [by left|right; by eexists]. Qed.
Lemma keyed_omit_opt {A} n (f : A -> json) v : keyed n (omit_opt n f v).
Proof. destruct v; [right; by eexists|by left]. Qed.
Lemma keyed_field n v : keyed n [(n, v)].
Proof. right. by eexists. Qed.

(** Names that occur among the fields. *)
Definition names_in (ns : list string) (l : list (string * json)) : Prop :=
  Forall (fun kv => kv.1 ∈ ns) l.

Lemma names_in_nil : names_in [] [].
Proof. constructor. Qed.
Lemma names_in_app n ns a r : keyed n a -> names_in ns r -> names_in (n :: ns) (a ++ r).
Proof.
  intros Ha Hr. apply Forall_app. split.
  - destruct Ha as [->|[v ->]]; [constructor|]. apply Forall_singleton. left.
  - eapply Forall_impl; [exact Hr|]. intros kv H. by right.
Qed.

Lemma keyed_app_inj n ns a b r s :
  keyed n a -> keyed n b -> names_in ns r -> names_in ns s -> n ∉ ns ->
  (a ++ r = b ++ s)%list -> a = b /\ r = s.
Proof.
  intros Ha Hb Hr Hs Hn H.
  destruct Ha as [->|[v ->]], Hb as [->|[w ->]]; simpl in H; [done|..|by simplify_eq].
  - subst r. apply Forall_cons in Hr as [Hr _]. done.
  - subst s. apply Forall_cons in Hs as [Hs _]. done.
Qed.

Create HintDb json.
#[export] Hint Resolve keyed_omit keyed_omitempty keyed_omit_opt keyed_field : json.
#[export] Hint Extern 1 (keyed _ (omit_bool _ _)) => apply keyed_omit : json.
#[export] Hint Extern 1 (keyed _ (omit_int _ _)) => apply keyed_omit : json.
#[export] Hint Extern 1 (keyed _ (omit_list _ _ _)) => apply keyed_omit : json.
#[export] Hint Extern 1 (keyed _ (omit_map _ _ _)) => apply keyed_omit : json.

Ltac solve_names := repeat (apply names_in_app; [by eauto with json|]); apply names_in_nil.

(** Splits an equation between two documents with the same fields; the last field must be
    followed by an empty list. *)
Ltac split_fields H :=
  repeat (eapply keyed_app_inj in H;
          [let E := fresh "E" in destruct H as [E H]
          |by eauto with json|by eauto with json|solve_names|solve_names
          |refine (bool_decide_unpack _ _); vm_compute; exact I]).

Lemma omitempty_inj n v w : omitempty n v = omitempty n w -> v = w.
Proof.
  unfold omitempty. destruct (String.eqb_spec v ""), (String.eqb_spec w ""); congruence.
Qed.
Lemma omit_opt_inj {A} n (f : A -> json) v w : omit_opt n f v = omit_opt n f w -> f <$> v = f <$> w.
Proof. destruct v, w; simpl; congruence. Qed.
Lemma omit_bool_inj n b c : omit_bool n b = omit_bool n c -> b = c.
Proof. by destruct b, c. Qed.
Lemma omit_list_inj {A} n (f : A -> json) l k : omit_list n f l = omit_list n f k -> f <$> l = f <$> k.
Proof. unfold omit_list, omit. destruct l, k; simpl; congruence. Qed.

Lemma JStr_inj_list (l k : list string) : JStr <$> l = JStr <$> k -> l = k.
Proof. intros H. apply strings_json_inj. unfold strings_json. by rewrite H. Qed.
Lemma JInt_inj_list (l k : list Z) : JInt <$> l = JInt <$> k -> l = k.
Proof.
  revert k. induction l as [|x l IH]; intros [|y k] H; simplify_eq/=; [done|]. f_equal. auto.
Qed.

Lemma gmap_JStr_inj (m m' : gmap string string) :
  gmap_json JStr m = gmap_json JStr m' -> m = m'.
Proof.
  unfold gmap_json, json_map. intros [= H].
  assert (JStr <$> m = JStr <$> m') as Hm.
  { apply map_to_list_inj. etrans; [symmetry; apply (SliceStable_perm (fun a b => String.ltb a.1 b.1))|].
    rewrite H. apply SliceStable_perm. }
  apply map_eq. intros i. apply (f_equal (.!! i)) in Hm. rewrite !lookup_fmap in Hm.
  destruct (m !! i), (m' !! i); simpl in Hm; congruence.
Qed.

Lemma omit_map_JStr_inj n m m' : omit_map n JStr m = omit_map n JStr m' -> m = m'.
Proof.
  unfold omit_map, omit. do 2 case_bool_decide; intros Heq; try discriminate; [congruence|].
  apply gmap_JStr_inj. congruence.
Qed.

(** The values behind equal fields. *)
Lemma JBool_fmap_inj (a b : option bool) : JBool <$> a = JBool <$> b -> a = b.
Proof. destruct a, b; simpl; congruence. Qed.
Lemma JInt_fmap_inj (a b : option Z) : JInt <$> a = JInt <$> b -> a = b.
Proof. destruct a, b; simpl; congruence. Qed.
Lemma JStr_fmap_inj (a b : option string) : JStr <$> a = JStr <$> b -> a = b.
Proof. destruct a, b; simpl; congruence. Qed.

Lemma option_fmap_Forall2 {A} (f : A -> json) (R : A -> A -> Prop) (a b : option A) :
  (forall x y, f x = f y -> R x y) -> f <$> a = f <$> b -> option_Forall2 R a b.
Proof. intros HR H. destruct a, b; simplify_eq/=; constructor. by apply HR. Qed.
Lemma list_fmap_Forall2 {A} (f : A -> json) (R : A -> A -> Prop) (l k : list A) :
  (forall x y, f x = f y -> R x y) -> f <$> l = f <$> k -> Forall2 R l k.
Proof.
  intros HR. revert k. induction l as [|x l IH]; intros [|y k] H; simplify_eq/=; constructor; auto.
Qed.

Ltac read_fields :=
  repeat match goal with
  | E : omitempty _ _ = omitempty _ _ |- _ => apply omitempty_inj in E
  | E : omit_bool _ _ = omit_bool _ _ |- _ => apply omit_bool_inj in E
  | E : omit_opt _ _ _ = omit_opt _ _ _ |- _ => apply omit_opt_inj in E
  | E : omit_map _ JStr _ = omit_map _ JStr _ |- _ => apply omit_map_JStr_inj in E
  | E : omit_list _ JStr _ = omit_list _ JStr _ |- _ =>
      apply omit_list_inj, JStr_inj_list in E
  | E : omit_list _ JInt _ = omit_list _ JInt _ |- _ =>
      apply omit_list_inj, JInt_inj_list in E
  | E : omit_list _ _ _ = omit_list _ _ _ |- _ => apply omit_list_inj in E
  | E : JBool <$> _ = JBool <$> _ |- _ => apply JBool_fmap_inj in E
  | E : JInt <$> _ = JInt <$> _ |- _ => apply JInt_fmap_inj in E
  | E : JStr <$> _ = JStr <$> _ |- _ => apply JStr_fmap_inj in E
  end.

(** Patches of a deployment that ask for the same, except that a list or a map that is given
    but empty is not told from one that is absent. *)
Record deployment_patch_same (p q : DeploymentPatch) : Prop := {
  dps_texts : dpt_ID p = dpt_ID q /\ dpt_EnvName p = dpt_EnvName q /\
    dpt_Location p = dpt_Location q /\ dpt_ControlMode p = dpt_ControlMode q /\
    dpt_Command p = dpt_Command q /\ dpt_WorkDir p = dpt_WorkDir q /\
    dpt_EnvFile p = dpt_EnvFile q /\ dpt_LogType p = dpt_LogType q /\
    dpt_LogTarget p = dpt_LogTarget q /\ dpt_StartCommand p = dpt_StartCommand q /\
    dpt_StopCommand p = dpt_StopCommand q /\ dpt_ReadOnly p = dpt_ReadOnly q;
  dps_configs : runtime_json <$> dpt_Runtime p = runtime_json <$> dpt_Runtime q /\
    log_json <$> dpt_Logs p = log_json <$> dpt_Logs q /\
    web_json <$> dpt_Web p = web_json <$> dpt_Web q /\
    code_debug_json <$> dpt_CodeDebug p = code_debug_json <$> dpt_CodeDebug q;
  dps_lists : default ∅ (dpt_Env p) = default ∅ (dpt_Env q) /\
    default [] (dpt_HostIDs p) = default [] (dpt_HostIDs q) /\
    default [] (dpt_Ports p) = default [] (dpt_Ports q) /\
    default [] (dpt_ExtraArgs p) = default [] (dpt_ExtraArgs q);
}.

Lemma deployment_patch_json_inj p q :
  deployment_patch_json p = deployment_patch_json q -> deployment_patch_same p q.
Proof.
  unfold deployment_patch_json. intros [= H].
  rewrite <-(app_nil_r (omitempty "stop_command" (dpt_StopCommand p))) in H.
  rewrite <-(app_nil_r (omitempty "stop_command" (dpt_StopCommand q))) in H.
  split_fields H. read_fields. by split; split_and!.
Qed.

Record service_patch_same (p q : ServicePatch) : Prop := {
  sps_fields : spt_ID p = spt_ID q /\ spt_Name p = spt_Name q /\
    spt_Language p = spt_Language q /\ spt_Required p = spt_Required q /\
    spt_Order p = spt_Order q;
  sps_deployments : Forall2 deployment_patch_same (spt_Deployments p) (spt_Deployments q);
}.

Lemma service_patch_json_inj p q :
  service_patch_json p = service_patch_json q -> service_patch_same p q.
Proof.
  unfold service_patch_json. intros [= H].
  rewrite <-(app_nil_r (omit_list _ _ (spt_Deployments p))) in H.
  rewrite <-(app_nil_r (omit_list _ _ (spt_Deployments q))) in H.
  split_fields H. read_fields. split; [by split_and!|].
  eapply list_fmap_Forall2; [apply deployment_patch_json_inj|done].
Qed.

(** Changes that ask for the same; a pipeline and the environments of a project are compared
    as documents. *)
Record change_same (c d : ChangeRequest) : Prop := {
  chs_target : cr_Kind c = cr_Kind d /\ cr_ProjectID c = cr_ProjectID d /\
    cr_ProjectName c = cr_ProjectName d /\ cr_RootPath c = cr_RootPath d /\
    cr_Delete c = cr_Delete d /\ cr_Remove c = cr_Remove d;
  chs_project : option_Forall2 (fun p q => ppt_Name p = ppt_Name q /\
      ppt_Variables p = ppt_Variables q /\
      environment_json <$> ppt_Environments p = environment_json <$> ppt_Environments q)
    (cr_Project c) (cr_Project d);
  chs_service : option_Forall2 service_patch_same (cr_Service c) (cr_Service d);
  chs_pipeline : project_pipeline_json <$> cr_Pipeline c = project_pipeline_json <$> cr_Pipeline d;
}.

Lemma project_patch_json_inj p q :
  project_patch_json p = project_patch_json q ->
  ppt_Name p = ppt_Name q /\ ppt_Variables p = ppt_Variables q /\
  environment_json <$> ppt_Environments p = environment_json <$> ppt_Environments q.
Proof.
  unfold project_patch_json. intros [= H].
  rewrite <-(app_nil_r (omit_list _ _ (ppt_Environments p))) in H.
  rewrite <-(app_nil_r (omit_list _ _ (ppt_Environments q))) in H.
  split_fields H. by read_fields.
Qed.

Lemma change_json_inj c d :
  change_json (normalizedChange c) = change_json (normalizedChange d) -> change_same c d.
Proof.
  unfold change_json. intros [= Hk H]. cbn [normalizedChange cr_Kind cr_ProjectID cr_ProjectName
    cr_RootPath cr_ApprovalToken cr_DebugSessionID cr_Project cr_Service cr_Pipeline cr_Delete
    cr_Remove] in *.
  rewrite <-(app_nil_r (omit_bool _ (cr_Remove c))) in H.
  rewrite <-(app_nil_r (omit_bool _ (cr_Remove d))) in H.
  split_fields H. read_fields. split.
  - by split_and!.
  - eapply option_fmap_Forall2; [apply project_patch_json_inj|done].
  - eapply option_fmap_Forall2; [apply service_patch_json_inj|done].
  - done.
Qed.

(** The document of a fingerprint, field by field. *)
Lemma fingerprint_parts_inj k t c d e b k' t' c' d' e' b' :
  fingerprint_parts k t c d e b = fingerprint_parts k' t' c' d' e' b' ->
  k = k' /\ t = t' /\ change_same c c' /\ diff_json d = diff_json d' /\ e = e' /\ b = b'.
Proof.
  unfold fingerprint_parts. intros H.
  assert (change_json (normalizedChange c) = change_json (normalizedChange c') /\ b = b' /\
    diff_json d = diff_json d' /\ strings_json e = strings_json e' /\ k = k' /\
    target_json t = target_json t') as (H1 & -> & H3 & H4 & -> & H6).
  { revert H. generalize (change_json (normalizedChange c)) (change_json (normalizedChange c'))
      (diff_json d) (diff_json d') (strings_json e) (strings_json e') (target_json t)
      (target_json t'). intros. by injection H. }
  split_and!; [done|by apply target_json_inj|by apply change_json_inj|done|by apply strings_json_inj|done].
Qed.

(** The change with other credentials of the request. *)
Definition with_credentials (token session : string) (c : ChangeRequest) : ChangeRequest :=
  {| cr_Kind := cr_Kind c; cr_ProjectID := cr_ProjectID c; cr_ProjectName := cr_ProjectName c;
     cr_RootPath := cr_RootPath c; cr_ApprovalToken := token; cr_DebugSessionID := session;
     cr_Project := cr_Project c; cr_Service := cr_Service c; cr_Pipeline := cr_Pipeline c;
     cr_Delete := cr_Delete c; cr_Remove := cr_Remove c |}.

(** An approval of a configuration change is an approval of that change: two plans with
    the same fingerprint are for the same project and ask for the same patch (except that a
    list or map given as empty is not told from an absent one), with the same visible
    difference and the same verdict of the validation; the fingerprint does not depend on the
    time, the approval token or the debug session, so that an approved request can be sent
    again with its token. *)
Theorem config_fingerprint_binds {D : Digest} {U : UnicodeCase} `{!CollisionFree D}
    now now' p p' c c' d d' v v' token session :
  plan_Fingerprint (config_plan now p c d v) = plan_Fingerprint (config_plan now' p' c' d' v') ->
  prj_ID p = prj_ID p' /\ prj_Name p = prj_Name p' /\ change_same c c' /\
  diff_json d = diff_json d' /\ val_OK v = val_OK v' /\
  plan_Fingerprint (config_plan now' p (with_credentials token session c) d v) =
    plan_Fingerprint (config_plan now p c d v).
Proof.
  intros H. apply stableFingerprint_inj, fingerprint_parts_inj in H
    as (_ & Ht & Hc & Hd & _ & Hv).
  apply (f_equal negb) in Hv. rewrite !negb_involutive in Hv.
  injection Ht as Hid Hname. split_and!; first [done|reflexivity].
Qed.

(** ** Theorems: the difference *)

Lemma diff_string_same path v : diff_string path v v = [].
Proof. unfold diff_string. by rewrite String.eqb_refl. Qed.

Lemma mbind_nil {A B} (f : A -> list B) l : (forall x, x ∈ l -> f x = []) -> l ≫= f = [].
Proof.
  intros H. induction l as [|x l IH]; [done|]. simpl. rewrite H by (by left).
  apply IH. intros y Hy. apply H. by right.
Qed.

(** With distinct names the last element of a name is the element itself. *)
Lemma last_named_NoDup {A} (f : A -> string) l x :
  NoDup (f <$> l) -> x ∈ l -> last_named f (f x) l = Some x.
Proof.
  intros Hnd Hx. unfold last_named. destruct (List.find _ (rev l)) as [y|] eqn:Hf.
  - apply List.find_some in Hf as [Hy Hfy]. apply String.eqb_eq in Hfy.
    apply in_rev, list_elem_of_In in Hy. f_equal.
    apply list_elem_of_lookup in Hx as [i Hi], Hy as [j Hj].
    assert (i = j) as ->; [|congruence].
    eapply NoDup_lookup; [exact Hnd|rewrite list_lookup_fmap, Hi; done|].
    by rewrite list_lookup_fmap, Hj, <-Hfy.
  - apply (List.find_none _ _ ) with (x := x) in Hf; [by rewrite String.eqb_refl in Hf|].
    apply in_rev. rewrite rev_involutive. by apply list_elem_of_In.
Qed.

(** No two elements that a loop of [Diff] keys by name share it. *)
Record distinct_keys (p : Project) : Prop := {
  dk_envs : NoDup (env_Name <$> prj_Environments p);
  dk_services : NoDup (svc_Name <$> prj_Services p);
  dk_deployments : Forall (fun s => NoDup (dep_EnvName <$> svc_Deployments s)) (prj_Services p);
  dk_pipelines : NoDup (pp_ID <$> prj_Pipelines p);
}.

Section Diff.
Context {U : UnicodeCase}.

Lemma Diff_same p : distinct_keys p -> Diff p p = [].
Proof.
  intros [He Hs Hd Hp]. unfold Diff. rewrite diff_string_same.
  assert (diffStringMap "variables" (default ∅ (prj_Variables p)) (default ∅ (prj_Variables p)) = [])
    as -> by (apply mbind_nil; intros; by rewrite String.eqb_refl).
  assert (diffEnvironments (prj_Environments p) (prj_Environments p) = []) as ->.
  { apply mbind_nil. intros e Hin. rewrite (last_named_NoDup env_Name) by done.
    by rewrite Bool.eqb_reflx, Z.eqb_refl. }
  assert (diffServices (prj_Services p) (prj_Services p) = []) as ->.
  { apply mbind_nil. intros s Hin. rewrite (last_named_NoDup svc_Name) by done.
    rewrite Bool.eqb_reflx. simpl. apply mbind_nil. intros d Hind.
    rewrite Forall_forall in Hd. cbv zeta. rewrite (last_named_NoDup dep_EnvName) by auto.
    rewrite !diff_string_same. unfold diff_when. by rewrite bool_decide_eq_false_2 by auto. }
  apply mbind_nil. intros i Hin. cbv zeta. rewrite (last_named_NoDup pp_ID) by done.
  rewrite diff_string_same, !Nat.eqb_refl. done.
Qed.

(** The path of an entry that is not about a variable. *)
Definition other_path (path : string) : Prop := String.prefix "variables." path = false.

Lemma diff_when_elem b path x y d : d ∈ diff_when b path x y -> de_Path d = path.
Proof. destruct b; [|by rewrite elem_of_nil]. by intros ->%list_elem_of_singleton. Qed.

(** Entries outside the variables have other paths. *)
Lemma Diff_paths before after d :
  d ∈ Diff before after -> other_path (de_Path d) \/
  d ∈ diffStringMap "variables" (default ∅ (prj_Variables before))
        (default ∅ (prj_Variables after)).
Proof.
  unfold Diff, other_path. rewrite !elem_of_app. intros [H|[H|[H|[H|H]]]]; [|by right|..]; left.
  - by apply diff_when_elem in H as ->.
  - apply list_elem_of_bind in H as (e & H & _). destruct (last_named _ _ _).
    + by apply elem_of_app in H as [->%diff_when_elem| ->%diff_when_elem].
    + by apply list_elem_of_singleton in H as ->.
  - apply list_elem_of_bind in H as (s & H & _). destruct (last_named _ _ _).
    + apply elem_of_app in H as [->%diff_when_elem|H]; [done|].
      apply list_elem_of_bind in H as (dep & H & _). destruct (last_named _ _ _).
      * by repeat apply elem_of_app in H as [H|H]; apply diff_when_elem in H as ->.
      * by apply list_elem_of_singleton in H as ->.
    + by apply list_elem_of_singleton in H as ->.
  - apply list_elem_of_bind in H as (e & H & _). destruct (last_named _ _ _).
    + by apply elem_of_app in H as [->%diff_when_elem| ->%diff_when_elem].
    + by apply list_elem_of_singleton in H as ->.
Qed.

Lemma prefix_app a s t : String.prefix (a +:+ s) (a +:+ t) = String.prefix s t.
Proof.
  induction a as [|c a IH]; [done|]. simpl. by destruct (Ascii.ascii_dec c c).
Qed.

Lemma append_inj_l a s t : a +:+ s = a +:+ t -> s = t.
Proof. induction a as [|c a IH]; [done|]. simpl. intros [= H]. auto. Qed.

(** The difference that is shown to whoever approves a change is complete on variables and
    tells no secret: a variable has an entry exactly if its value changes, an entry of a
    variable whose name looks like that of a secret carries no value, and every other entry of
    a variable carries both values. *)
Theorem diff_variables before after key :
  let b := default "" (default ∅ (prj_Variables before) !! key) in
  let a := default "" (default ∅ (prj_Variables after) !! key) in
  (b <> a <-> exists d, d ∈ Diff before after /\ de_Path d = "variables." +:+ key) /\
  (forall d, d ∈ Diff before after -> de_Path d = "variables." +:+ key ->
     de_Before d = Some (redacted key b) /\ de_After d = Some (redacted key a)).
Proof.
  simpl. set (mb := default ∅ (prj_Variables before)). set (ma := default ∅ (prj_Variables after)).
  assert (Hentry : forall d, d ∈ Diff before after -> de_Path d = "variables." +:+ key ->
    default "" (mb !! key) <> default "" (ma !! key) /\
    de_Before d = Some (redacted key (default "" (mb !! key))) /\
    de_After d = Some (redacted key (default "" (ma !! key)))).
  { intros d [Hp|Hd]%Diff_paths Hpath.
    - exfalso. unfold other_path in Hp. rewrite Hpath in Hp.
      change "variables." with ("variables." +:+ "") in Hp at 1.
      rewrite prefix_app in Hp. by destruct key.
    - apply list_elem_of_bind in Hd as (k & Hd & Hk). fold mb ma in Hd.
      assert (k = key) as ->.
      { apply diff_when_elem in Hd. rewrite Hpath in Hd. by apply (append_inj_l "variables."). }
      destruct (String.eqb_spec (default "" (mb !! key)) (default "" (ma !! key)));
        [by apply elem_of_nil in Hd|]. by apply list_elem_of_singleton in Hd as ->. }
  split; [|naive_solver]. split; [|intros (d & Hd & Hpath); by apply (Hentry d)].
  intros Hne.
  assert (key ∈ sort_strings (map_to_list (mb ∪ ma)).*1) as Hkey.
  { apply SliceStable_elem, list_elem_of_fmap.
    assert (is_Some ((mb ∪ ma) !! key)) as [v Hv].
    { apply lookup_union_is_Some. destruct (mb !! key), (ma !! key); eauto. done. }
    exists (key, v). split; [done|]. by apply elem_of_map_to_list. }
  exists (mkDiff ("variables." +:+ key) (Some (redacted key (default "" (mb !! key))))
    (Some (redacted key (default "" (ma !! key))))).
  split; [|done]. unfold Diff. rewrite !elem_of_app. right. left.
  apply list_elem_of_bind. exists key. split; [|done]. fold mb ma.
  apply String.eqb_neq in Hne. rewrite Hne. by apply list_elem_of_singleton.
Qed.
End Diff.

(** ** Examples and a gap *)

Definition map_bytes (f : nat -> nat) (s : string) : string :=
  String.string_of_list_ascii
    ((fun c => byte_of (f (nat_of_ascii c))) <$> String.list_ascii_of_string s).

Definition ascii_case : UnicodeCase :=
  {| ToLower := map_bytes (fun n => if (65 <=? n)%nat && (n <=? 90)%nat then n + 32 else n);
     ToUpper := map_bytes (fun n => if (97 <=? n)%nat && (n <=? 122)%nat then n - 32 else n) |}.

Definition empty_patch (id : string) : DeploymentPatch :=
  {| dpt_ID := id; dpt_EnvName := ""; dpt_Location := ""; dpt_ControlMode := "";
     dpt_Runtime := None; dpt_Logs := None; dpt_Web := None; dpt_CodeDebug := None;
     dpt_Command := ""; dpt_WorkDir := ""; dpt_EnvFile := ""; dpt_Env := None;
     dpt_HostIDs := None; dpt_Ports := None; dpt_LogType := ""; dpt_LogTarget := "";
     dpt_ExtraArgs := None; dpt_ReadOnly := None; dpt_StartCommand := ""; dpt_StopCommand := "" |}.

Definition set_patch_ports (ports : option (list Z)) (p : DeploymentPatch) : DeploymentPatch :=
  {| dpt_ID := dpt_ID p; dpt_EnvName := dpt_EnvName p; dpt_Location := dpt_Location p;
     dpt_ControlMode := dpt_ControlMode p; dpt_Runtime := dpt_Runtime p; dpt_Logs := dpt_Logs p;
     dpt_Web := dpt_Web p; dpt_CodeDebug := dpt_CodeDebug p; dpt_Command := dpt_Command p;
     dpt_WorkDir := dpt_WorkDir p; dpt_EnvFile := dpt_EnvFile p; dpt_Env := dpt_Env p;
     dpt_HostIDs := dpt_HostIDs p; dpt_Ports := ports; dpt_LogType := dpt_LogType p;
     dpt_LogTarget := dpt_LogTarget p; dpt_ExtraArgs := dpt_ExtraArgs p;
     dpt_ReadOnly := dpt_ReadOnly p; dpt_StartCommand := dpt_StartCommand p;
     dpt_StopCommand := dpt_StopCommand p |}.

Definition service_change (name : string) (deps : list DeploymentPatch) : ChangeRequest :=
  {| cr_Kind := KindServiceUpsert; cr_ProjectID := "p1"; cr_ProjectName := ""; cr_RootPath := "";
     cr_ApprovalToken := ""; cr_DebugSessionID := ""; cr_Project := None;
     cr_Service := Some (mkServicePatch "" name None None None deps); cr_Pipeline := None;
     cr_Delete := false; cr_Remove := false |}.

Lemma config_fingerprint_binds_witness :
  let v := mkValidation true [] in
  let p := example_project [] [] in
  let c := service_change "web" [set_patch_ports (Some [8080%Z]) (empty_patch "d1")] in
  let c' := with_credentials "tok" "" c in
  change_same c c' /\ plan_RequiresApproval (@config_plan identity_digest ascii_case 7%Z p c [] v) = true.
Proof.
  cbv zeta. split; [|reflexivity].
  apply (@config_fingerprint_binds identity_digest ascii_case identity_digest_collision_free
    0%Z 1%Z (example_project [] []) (example_project [] []) _ _ [] [] (mkValidation true [])
    (mkValidation true []) "" ""). reflexivity.
Defined.

(** What an approval does not tell apart: "leave the ports alone" and "remove all ports" are
    the same document, so that the token of an approval of the first lets the second pass. *)
Theorem fingerprint_ignores_clearing {D : Digest} {U : UnicodeCase} :
  let dep := example_deployment "d1" "dev" LocationLocal false in
  let dep := {| dep_ID := dep_ID dep; dep_EnvName := dep_EnvName dep;
     dep_Location := dep_Location dep; dep_ControlMode := ""; dep_Runtime := None;
     dep_Logs := None; dep_Web := None; dep_Ports := Some [8080%Z]; dep_CodeDebug := None;
     dep_StartOnBoot := false; dep_DependsOn := []; dep_Readiness := None; dep_Command := "make";
     dep_WorkDir := ""; dep_EnvFile := ""; dep_Env := None; dep_HostIDs := None;
     dep_LogType := ""; dep_LogTarget := ""; dep_ExtraArgs := None; dep_ReadOnly := false;
     dep_StartCommand := ""; dep_StopCommand := ""; dep_Status := ""; dep_PID := 0 |} in
  let p := example_project [example_environment "e1" "dev" true] [example_service "s1" "web" [dep]] in
  let keep := service_change "web" [empty_patch "d1"] in
  let clear := service_change "web" [set_patch_ports (Some []) (empty_patch "d1")] in
  let ports r := match r with
    | Ok q => (fun s => dep_Ports <$> svc_Deployments s) <$> prj_Services q
    | Err _ => [] end in
  ports (apply_change [] p keep) = [[Some [8080%Z]]] /\
  ports (apply_change [] p clear) = [[Some []]] /\
  (forall now d v, plan_Fingerprint (config_plan now p keep d v) =
                   plan_Fingerprint (config_plan now p clear d v)).
Proof. by repeat split. Qed.
