(* ===== verification/Slices.v ===== *)
(** * Go slices: shared arrays

    A slice is an array on the heap and a length; its capacity is the length of the array.
    Copying a struct copies its slices, not their arrays: this is how two values of a program
    come to share elements.  Slices of this program start at the first element of their array. *)
From stdpp Require Import base gmap list.
From Stdlib Require Import Lia.
From S2P Require Import Prelude.

Abbreviation addr := nat (only parsing).

Record slice : Type := mkSlice {
  sl_addr : addr;
  sl_len : nat;
}.

(** The arrays of one element type. *)
Abbreviation arrays A := (gmap addr (list A)).

Section Slices.
Context {A : Type}.
Implicit Types (h : arrays A) (s : slice).

Definition array h (a : addr) : list A := default [] (h !! a).

(** The elements of a slice. *)
Definition elems h s : list A := take (sl_len s) (array h (sl_addr s)).

(** [s[i] = x] *)
Definition set_elem h s (i : nat) (x : A) : arrays A :=
  <[sl_addr s := <[i := x]> (array h (sl_addr s))]> h.

(** [append(s, x)]: in place when the array has room, otherwise in a new array of the
    capacity that the runtime chooses; [fresh] is its address, [spare] the elements beyond. *)
Definition append_elem (fresh : addr) (spare : list A) h s (x : A) : arrays A * slice :=
  let l := array h (sl_addr s) in
  if (sl_len s <? length l)%nat
  then (<[sl_addr s := <[sl_len s := x]> l]> h, mkSlice (sl_addr s) (S (sl_len s)))
  else (<[fresh := elems h s ++ x :: spare]> h, mkSlice fresh (S (length (elems h s)))).

(** The slice lies within its array. *)
Definition slice_ok h s : Prop := sl_len s <= length (array h (sl_addr s)).

Lemma length_elems h s : slice_ok h s -> length (elems h s) = sl_len s.
Proof. unfold slice_ok, elems. rewrite length_take. lia. Qed.

Lemma array_insert h a l : array (<[a := l]> h) a = l.
Proof. unfold array. by rewrite lookup_insert_eq. Qed.
Lemma array_insert_ne h a b l : a <> b -> array (<[a := l]> h) b = array h b.
Proof. unfold array. intros. by rewrite lookup_insert_ne. Qed.

(** A write is seen through every slice of the array that reaches the element ... *)
Lemma elems_set h s t i x :
  sl_addr t = sl_addr s -> elems (set_elem h s i x) t = <[i := x]> (elems h t).
Proof.
  intros Ha. unfold elems, set_elem. rewrite Ha, array_insert.
  apply list_eq. intros j. destruct (decide (j < sl_len t)).
  - rewrite lookup_take_lt by done. destruct (decide (i = j)) as [->|].
    + destruct (decide (j < length (array h (sl_addr s)))) as [Hl|Hl].
      * rewrite list_lookup_insert_eq by done. rewrite list_lookup_insert_eq; [done|].
        rewrite length_take. lia.
      * rewrite lookup_ge_None_2 by (rewrite length_insert; lia).
        symmetry. apply lookup_ge_None_2. rewrite length_insert, length_take. lia.
    + rewrite !list_lookup_insert_ne by done. by rewrite lookup_take_lt.
  - rewrite lookup_take_ge by lia. symmetry. apply lookup_ge_None_2.
    rewrite length_insert, length_take. lia.
Qed.

(** ... and through no slice of another one. *)
Lemma elems_set_ne h s t i x :
  sl_addr t <> sl_addr s -> elems (set_elem h s i x) t = elems h t.
Proof. intros Ha. unfold elems, set_elem. by rewrite array_insert_ne. Qed.

Lemma append_elem_elems fresh spare h s x :
  slice_ok h s ->
  let '(h', s') := append_elem fresh spare h s x in
  elems h' s' = elems h s ++ [x] /\ slice_ok h' s'.
Proof.
  intros Hok. unfold append_elem. destruct (Nat.ltb_spec (sl_len s) (length (array h (sl_addr s)))).
  - unfold elems, slice_ok. simpl. rewrite array_insert, length_insert. split; [|lia].
    rewrite (take_S_r _ _ x) by (by rewrite list_lookup_insert_eq).
    by rewrite take_insert_ge by lia.
  - unfold elems at 1. unfold slice_ok. simpl. rewrite array_insert.
    rewrite length_app. simpl. split; [|lia].
    rewrite take_app, Nat.sub_succ_l, Nat.sub_diag by lia. simpl.
    rewrite take_ge by lia. done.
Qed.

(** Appending does not change what another slice sees below the length of this one. *)
Lemma append_elem_other fresh spare h s x t :
  (sl_addr t = sl_addr s -> sl_len t <= sl_len s) -> sl_addr t <> fresh ->
  elems (append_elem fresh spare h s x).1 t = elems h t.
Proof.
  intros Hlen Hfresh. unfold append_elem, elems.
  destruct (Nat.ltb_spec (sl_len s) (length (array h (sl_addr s)))); simpl.
  - destruct (decide (sl_addr t = sl_addr s)) as [Ha|].
    + rewrite Ha, array_insert. apply take_insert_ge. specialize (Hlen Ha). lia.
    + by rewrite array_insert_ne.
  - by rewrite array_insert_ne.
Qed.
End Slices.

(** A loop that assigns the elements of a slice in turn, from [i] on. *)
Section Loops.
Context {A : Type}.
Implicit Types (m : arrays A) (s t : slice).

Fixpoint set_from m s (i : nat) (l : list A) : arrays A :=
  match l with
  | [] => m
  | x :: l => set_from (set_elem m s i x) s (S i) l
  end.
Definition set_elems m s (l : list A) : arrays A := set_from m s 0 l.

Lemma set_from_other m s t i l :
  sl_addr t <> sl_addr s -> elems (set_from m s i l) t = elems m t.
Proof.
  intros Ha. revert m i. induction l as [|x l IH]; intros m i; [done|].
  simpl. by rewrite IH, elems_set_ne.
Qed.

Lemma set_from_same m s i l :
  elems (set_from m s i l) s = list_inserts i l (elems m s).
Proof.
  revert m i. induction l as [|x l IH]; intros m i; [done|]. simpl.
  rewrite IH, elems_set by done. by rewrite list_insert_inserts_lt by lia.
Qed.

Lemma set_from_ok m s t i l : slice_ok m t -> slice_ok (set_from m s i l) t.
Proof.
  revert m i. induction l as [|x l IH]; intros m i H; [done|]. simpl. apply IH.
  unfold slice_ok, set_elem in *. destruct (decide (sl_addr s = sl_addr t)) as [E|].
  - by rewrite <-E, array_insert, length_insert, E.
  - by rewrite array_insert_ne.
Qed.

Lemma set_elems_same m s l : length l = length (elems m s) -> elems (set_elems m s l) s = l.
Proof.
  intros Hl. unfold set_elems. rewrite set_from_same. apply list_eq. intros j.
  destruct (decide (j < length l)) as [Hj|Hj].
  - rewrite list_lookup_inserts by lia. by rewrite Nat.sub_0_r.
  - rewrite list_lookup_inserts_ge by lia. by rewrite !lookup_ge_None_2 by lia.
Qed.

(** Nothing is written through a slice without elements. *)
Lemma set_elems_nil_addr m s l a :
  (l <> [] -> sl_addr s <> a) -> set_elems m s l !! a = m !! a.
Proof.
  unfold set_elems. generalize 0. revert m. induction l as [|x l IH]; intros m i H; [done|].
  simpl. rewrite IH; [|intros; by apply H]. unfold set_elem. rewrite lookup_insert_ne; [done|].
  by apply H.
Qed.
End Loops.
