(* ===== verification/ConfigHeap.v ===== *)
(** * Configuration changes on shared slices (configchange/merge.go, api/server.go)

    A project is copied by value: its slices and its map of variables are those of the
    original.  Here [Apply] and the two functions that follow it in a preview run on a heap of
    arrays, as the program does, and [view] is what a holder of a project sees. *)
From stdpp Require Import base strings gmap pretty list.
From Stdlib Require Import ZArith Lia.
From S2P Require Import Prelude Model OperationTypes Paths ConfigChange ConfigPlan Slices.
Local Open Scope string_scope.

(** ** The heap *)

(** A service without its deployments, and the slice of them. *)
Record RService : Type := mkRService {
  rs_svc : Service;
  rs_deps : slice;
}.

(** A pipeline without its roles, and the address of their map. *)
Record RPipeline : Type := mkRPipeline {
  rp_pl : ProjectPipeline;
  rp_roles : addr;
}.

(** A project without what it refers to; [None] is a nil map. *)
Record RProject : Type := mkRProject {
  rj_prj : Project;
  rj_vars : option addr;
  rj_envs : slice;
  rj_svcs : slice;
  rj_pipes : slice;
}.

(** [h_next] is the next free address; address 0 is that of the nil slices. *)
Record heap : Type := mkHeap {
  h_vars : gmap addr (gmap string string);
  h_roles : gmap addr (gmap string (list string));
  h_envs : arrays Environment;
  h_svcs : arrays RService;
  h_deps : arrays Deployment;
  h_pipes : arrays RPipeline;
  h_next : addr;
}.

Definition nil_slice : slice := mkSlice 0 0.

Definition set_h_vars (m : gmap addr (gmap string string)) (h : heap) : heap :=
  mkHeap m (h_roles h) (h_envs h) (h_svcs h) (h_deps h) (h_pipes h) (h_next h).
Definition set_h_roles (m : gmap addr (gmap string (list string))) (h : heap) : heap :=
  mkHeap (h_vars h) m (h_envs h) (h_svcs h) (h_deps h) (h_pipes h) (h_next h).
Definition set_h_envs (m : arrays Environment) (h : heap) : heap :=
  mkHeap (h_vars h) (h_roles h) m (h_svcs h) (h_deps h) (h_pipes h) (h_next h).
Definition set_h_svcs (m : arrays RService) (h : heap) : heap :=
  mkHeap (h_vars h) (h_roles h) (h_envs h) m (h_deps h) (h_pipes h) (h_next h).
Definition set_h_deps (m : arrays Deployment) (h : heap) : heap :=
  mkHeap (h_vars h) (h_roles h) (h_envs h) (h_svcs h) m (h_pipes h) (h_next h).
Definition set_h_pipes (m : arrays RPipeline) (h : heap) : heap :=
  mkHeap (h_vars h) (h_roles h) (h_envs h) (h_svcs h) (h_deps h) m (h_next h).
(** An address that nothing else uses. *)
Definition bump (h : heap) : heap :=
  mkHeap (h_vars h) (h_roles h) (h_envs h) (h_svcs h) (h_deps h) (h_pipes h) (S (h_next h)).

(** ** What a holder of a project sees *)

Definition view_service (h : heap) (s : RService) : Service :=
  set_deployments (elems (h_deps h) (rs_deps s)) (rs_svc s).

Definition set_roles (roles : gmap string (list string)) (p : ProjectPipeline)
    : ProjectPipeline :=
  let q := pp_Pipeline p in
  {| pp_ID := pp_ID p; pp_Name := pp_Name p; pp_Services := pp_Services p;
     pp_ArtifactKind := pp_ArtifactKind p; pp_Variables := pp_Variables p;
     pp_Environments := pp_Environments p; pp_Roles := pp_Roles p; pp_SyncMode := pp_SyncMode p;
     pp_SyncCommand := pp_SyncCommand p;
     pp_Pipeline := {| pl_Variables := pl_Variables q; pl_Roles := roles; pl_Build := pl_Build q;
                       pl_Deploy := pl_Deploy q; pl_Finally := pl_Finally q |} |}.

Definition roles_at (h : heap) (a : addr) : gmap string (list string) := default ∅ (h_roles h !! a).
Definition view_pipeline (h : heap) (p : RPipeline) : ProjectPipeline :=
  set_roles (roles_at h (rp_roles p)) (rp_pl p).

Definition vars_at (h : heap) (a : addr) : gmap string string := default ∅ (h_vars h !! a).

Definition view (h : heap) (p : RProject) : Project :=
  with_project (prj_Name (rj_prj p)) (vars_at h <$> rj_vars p)
    (elems (h_envs h) (rj_envs p))
    (view_service h <$> elems (h_svcs h) (rj_svcs p))
    (view_pipeline h <$> elems (h_pipes h) (rj_pipes p)) (rj_prj p).

(** ** merge.go

    [grow n] is the number of elements that the runtime adds to an array of [n] when it has to
    be copied.  They are never read before they are written; the model repeats the new
    element in them. *)
Section Apply.
Context {D : Digest} {U : UnicodeCase} (grow : nat -> nat).

Definition append_env (h : heap) (s : slice) (x : Environment) : heap * slice :=
  let '(m, s') := append_elem (h_next h) (replicate (grow (sl_len s)) x) (h_envs h) s x in
  (bump (set_h_envs m h), s').
Definition append_svc (h : heap) (s : slice) (x : RService) : heap * slice :=
  let '(m, s') := append_elem (h_next h) (replicate (grow (sl_len s)) x) (h_svcs h) s x in
  (bump (set_h_svcs m h), s').
Definition append_dep (h : heap) (s : slice) (x : Deployment) : heap * slice :=
  let '(m, s') := append_elem (h_next h) (replicate (grow (sl_len s)) x) (h_deps h) s x in
  (bump (set_h_deps m h), s').
Definition append_pipe (h : heap) (s : slice) (x : RPipeline) : heap * slice :=
  let '(m, s') := append_elem (h_next h) (replicate (grow (sl_len s)) x) (h_pipes h) s x in
  (bump (set_h_pipes m h), s').

Definition rename (name : string) (p : Project) : Project :=
  with_project name (prj_Variables p) (prj_Environments p) (prj_Services p) (prj_Pipelines p) p.

(** [project.Environments[idx] = env], or [append]. *)
Definition put_environment (base : Project) (hs : heap * slice) (env : Environment)
    : heap * slice :=
  let '(h, s) := hs in
  let env := patched_environment base env in
  match findEnvironmentIndex (elems (h_envs h) s) env with
  | Some i => (set_h_envs (set_elem (h_envs h) s i env) h, s)
  | None => append_env h s env
  end.

(** The map of variables, made if it is nil. *)
Definition own_variables (h : heap) (v : option addr) : heap * addr :=
  match v with
  | Some a => (h, a)
  | None => (bump (set_h_vars (<[h_next h := ∅]> (h_vars h)) h), h_next h)
  end.

Definition applyProject (order : list (string * string)) (h : heap) (p : RProject)
    (patch : option ProjectPatch) : heap * RProject :=
  match patch with
  | None => (h, p)
  | Some patch =>
      let base := rename (or_else (TrimSpace (ppt_Name patch)) (prj_Name (rj_prj p))) (rj_prj p) in
      let '(h, a) := own_variables h (rj_vars p) in
      let h := set_h_vars (<[a := set_variables order (vars_at h a)]> (h_vars h)) h in
      let '(h, envs) := foldl (put_environment base) (h, rj_envs p) (ppt_Environments patch) in
      (h, mkRProject base (Some a) envs (rj_svcs p) (rj_pipes p))
  end.

(** [svc.Deployments[depIdx] = mergeDeployment(...)], or [append]. *)
Definition put_deployment (base : Project) (serviceName : string) (hs : heap * slice)
    (patch : DeploymentPatch) : heap * slice :=
  let '(h, s) := hs in
  let deps := elems (h_deps h) s in
  match findDeploymentIndex deps (deploymentFromPatch patch) with
  | Some i =>
      match deps !! i with
      | Some d => (set_h_deps (set_elem (h_deps h) s i (mergeDeployment d patch)) h, s)
      | None => (h, s)
      end
  | None => append_dep h s (new_deployment base serviceName patch)
  end.

Definition applyService (h : heap) (p : RProject) (patch : option ServicePatch)
    : heap * RProject :=
  match patch with
  | None => (h, p)
  | Some patch =>
      let services := elems (h_svcs h) (rj_svcs p) in
      let idx := findServiceIndex (rs_svc <$> services) (TrimSpace (spt_ID patch))
                   (TrimSpace (spt_Name patch)) in
      let found := idx ≫= fun i => services !! i in
      let svc := patched_service (rj_prj p) (rs_svc <$> found) patch in
      let '(h, deps) := foldl (put_deployment (rj_prj p) (svc_Name svc))
                          (h, from_option rs_deps nil_slice found) (spt_Deployments patch) in
      let svc := mkRService svc deps in
      match idx with
      | Some i => (set_h_svcs (set_elem (h_svcs h) (rj_svcs p) i svc) h, p)
      | None =>
          let '(h, svcs) := append_svc h (rj_svcs p) svc in
          (h, mkRProject (rj_prj p) (rj_vars p) (rj_envs p) svcs (rj_pipes p))
      end
  end.

(** [roles] is the map of roles of the decoded request: the stored pipeline shares it. *)
Definition applyPipeline (roles : addr) (h : heap) (p : RProject)
    (patch : option ProjectPipeline) : heap * RProject :=
  match patch with
  | None => (h, p)
  | Some patch =>
      let item := mkRPipeline (patched_pipeline patch) roles in
      match findPipelineIndex (rp_pl <$> elems (h_pipes h) (rj_pipes p)) (pp_ID (rp_pl item)) with
      | Some i => (set_h_pipes (set_elem (h_pipes h) (rj_pipes p) i item) h, p)
      | None =>
          let '(h, pipes) := append_pipe h (rj_pipes p) item in
          (h, mkRProject (rj_prj p) (rj_vars p) (rj_envs p) (rj_svcs p) pipes)
      end
  end.

Definition Apply (order : list (string * string)) (roles : addr) (h : heap) (p : RProject)
    (change : ChangeRequest) : heap * result change_error RProject :=
  if cr_Delete change || cr_Remove change then (h, Err ErrUnsupportedOperation)
  else
    let kind := TrimSpace (cr_Kind change) in
    if kind =? KindProjectUpsert then
      let '(h, q) := applyProject order h p (cr_Project change) in (h, Ok q)
    else if kind =? KindServiceUpsert then
      let '(h, q) := applyService h p (cr_Service change) in (h, Ok q)
    else if kind =? KindPipelineUpsert then
      let '(h, q) := applyPipeline roles h p (cr_Pipeline change) in (h, Ok q)
    else (h, Err ErrInvalidChange).
End Apply.

(** ** Well-formed heaps

    Nothing is stored at address 0, and the slices of a project lie within their arrays, below
    the next free address.  Two services do not share their deployments. *)
Record heap_ok (h : heap) : Prop := {
  ho_next : 0 < h_next h;
  ho_deps : h_deps h !! 0 = None;
}.

Definition slice_at {A} (m : arrays A) (next : addr) (s : slice) : Prop :=
  slice_ok m s /\ sl_addr s < next.

Record project_ok (h : heap) (p : RProject) : Prop := {
  po_envs : slice_at (h_envs h) (h_next h) (rj_envs p);
  po_svcs : slice_at (h_svcs h) (h_next h) (rj_svcs p);
  po_pipes : slice_at (h_pipes h) (h_next h) (rj_pipes p);
  po_vars : forall a, rj_vars p = Some a -> a < h_next h;
  po_deps : Forall (fun s => slice_at (h_deps h) (h_next h) (rs_deps s))
              (elems (h_svcs h) (rj_svcs p));
  po_apart : forall i j s t, elems (h_svcs h) (rj_svcs p) !! i = Some s ->
    elems (h_svcs h) (rj_svcs p) !! j = Some t -> i <> j ->
    sl_addr (rs_deps s) = sl_addr (rs_deps t) -> sl_addr (rs_deps s) = 0;
}.

(** The request as the program sees it: the roles of its pipeline are in the heap. *)
Definition view_change (h : heap) (roles : addr) (c : ChangeRequest) : ChangeRequest :=
  {| cr_Kind := cr_Kind c; cr_ProjectID := cr_ProjectID c; cr_ProjectName := cr_ProjectName c;
     cr_RootPath := cr_RootPath c; cr_ApprovalToken := cr_ApprovalToken c;
     cr_DebugSessionID := cr_DebugSessionID c; cr_Project := cr_Project c;
     cr_Service := cr_Service c; cr_Pipeline := set_roles (roles_at h roles) <$> cr_Pipeline c;
     cr_Delete := cr_Delete c; cr_Remove := cr_Remove c |}.

(** ** Lemmas *)

Lemma find_index_lookup {A} (p : A -> bool) l i :
  find_index p l = Some i -> exists x, l !! i = Some x /\ p x = true.
Proof.
  revert i. induction l as [|x l IH]; intros i H; simpl in H; [done|].
  destruct (p x) eqn:Hp; [simplify_eq; by exists x|].
  destruct (find_index p l) as [j|]; simplify_eq/=. by apply IH.
Qed.

Lemma find_index_fmap {A B} (p : B -> bool) (f : A -> B) l :
  find_index p (f <$> l) = find_index (fun x => p (f x)) l.
Proof.
  induction l as [|x l IH]; [done|]. csimpl. by rewrite IH.
Qed.

Lemma alter_as_insert {A} (f : A -> A) (l : list A) i x :
  l !! i = Some x -> alter f i l = <[i := f x]> l.
Proof.
  intros H. apply list_eq. intros j. destruct (decide (i = j)) as [->|].
  - rewrite list_lookup_alter_eq, H. simpl. symmetry. apply list_lookup_insert_eq.
    by apply lookup_lt_is_Some; eexists.
  - by rewrite list_lookup_alter_ne, list_lookup_insert_ne.
Qed.

Lemma insert_fmap_ext {A B} (f g : A -> B) (l : list A) i y :
  (forall j x, j <> i -> l !! j = Some x -> f x = g x) ->
  <[i := y]> (f <$> l) = <[i := y]> (g <$> l).
Proof.
  intros H. apply list_eq. intros j. destruct (decide (i = j)) as [->|Hne].
  - destruct (decide (j < length l)).
    + rewrite !list_lookup_insert_eq by by rewrite length_fmap. done.
    + rewrite !lookup_ge_None_2 by (rewrite length_insert, length_fmap; lia). done.
  - rewrite !list_lookup_insert_ne by done. rewrite !list_lookup_fmap.
    destruct (l !! j) eqn:Hl; [|done]. simpl. f_equal. eauto.
Qed.

(** The parts of the heap that a step on one kind of array leaves alone. *)
Lemma append_at {A} fresh spare (m : arrays A) s x :
  slice_at m fresh s ->
  let '(m', s') := append_elem fresh spare m s x in
  elems m' s' = (elems m s ++ [x])%list /\ slice_at m' (S fresh) s' /\
  (sl_addr s' = sl_addr s \/ sl_addr s' = fresh) /\
  (forall t, sl_addr t < fresh -> sl_addr t <> sl_addr s -> elems m' t = elems m t).
Proof.
  intros [Hok Haddr]. pose proof (append_elem_elems fresh spare m s x Hok) as H.
  pose proof (fun t H1 H2 => append_elem_other fresh spare m s x t H1 H2) as Hother.
  destruct (append_elem fresh spare m s x) as [m' s'] eqn:E. destruct H as [He Hok'].
  assert (sl_addr s' = sl_addr s \/ sl_addr s' = fresh) as Ha.
  { unfold append_elem in E. destruct (_ <? _)%nat; simplify_eq/=; auto. }
  split; [done|]. split; [split; [done|destruct Ha as [-> | ->]; lia]|]. split; [done|].
  intros t Ht Hne. apply Hother; [done|lia].
Qed.

(** Nothing is written at address 0. *)
Lemma append_at_0 {A} fresh spare (m : arrays A) s x :
  m !! 0 = None -> 0 < fresh -> (append_elem fresh spare m s x).1 !! 0 = None.
Proof.
  intros H0 Hf. unfold append_elem.
  destruct (Nat.ltb_spec (sl_len s) (length (array m (sl_addr s)))) as [Hl|]; simpl.
  - rewrite lookup_insert_ne; [done|]. intros Ha. unfold array in Hl. rewrite Ha, H0 in Hl.
    simpl in Hl. lia.
  - rewrite lookup_insert_ne; [done|lia].
Qed.

Lemma set_elem_ok {A} (m : arrays A) s t i x : slice_ok m t -> slice_ok (set_elem m s i x) t.
Proof.
  unfold slice_ok, set_elem. intros H. destruct (decide (sl_addr s = sl_addr t)) as [E|].
  - by rewrite <-E, array_insert, length_insert, E.
  - by rewrite array_insert_ne.
Qed.

Lemma append_elem_ok {A} fresh spare (m : arrays A) s x t :
  sl_addr t <> fresh -> slice_ok m t -> slice_ok (append_elem fresh spare m s x).1 t.
Proof.
  unfold append_elem, slice_ok. intros Hf H. destruct (_ <? _)%nat; simpl.
  - destruct (decide (sl_addr s = sl_addr t)) as [E|].
    + by rewrite <-E, array_insert, length_insert, E.
    + by rewrite array_insert_ne.
  - rewrite array_insert_ne; [done|congruence].
Qed.

(** ** [Apply] does what is intended, for the value it returns *)

Section Refinement.
Context {D : Digest} {U : UnicodeCase} (grow : nat -> nat).

(** The deployments: the slice of one service changes, the others do not. *)
Lemma put_deployment_spec base name h s patch :
  heap_ok h -> slice_at (h_deps h) (h_next h) s ->
  let '(h', s') := put_deployment grow base name (h, s) patch in
  elems (h_deps h') s' = upsert_deployment base name (elems (h_deps h) s) patch /\
  heap_ok h' /\ slice_at (h_deps h') (h_next h') s' /\
  (sl_addr s' = sl_addr s \/ h_next h <= sl_addr s') /\ h_next h <= h_next h' /\
  (forall t, slice_at (h_deps h) (h_next h) t -> sl_addr t <> sl_addr s \/ sl_addr t = 0 ->
     elems (h_deps h') t = elems (h_deps h) t /\ slice_ok (h_deps h') t) /\
  h' = mkHeap (h_vars h) (h_roles h) (h_envs h) (h_svcs h) (h_deps h') (h_pipes h) (h_next h').
Proof.
  intros [Hnext H0] Hs. unfold put_deployment, upsert_deployment.
  assert (forall t, sl_addr t = 0 -> elems (h_deps h) t = []) as Hnil.
  { intros t Ht. unfold elems, array. rewrite Ht, H0. by destruct (sl_len t). }
  destruct (findDeploymentIndex _ _) as [i|] eqn:Hi.
  - apply find_index_lookup in Hi as (d & Hd & _). rewrite Hd. simpl.
    assert (sl_addr s <> 0) as Hne by (intros Ha; rewrite (Hnil _ Ha) in Hd; done).
    split; [by rewrite elems_set, (alter_as_insert _ _ _ _ Hd)|].
    split; [split; [done|simpl; unfold set_elem; by rewrite lookup_insert_ne]|].
    split; [split; [apply set_elem_ok|]; apply Hs|].
    split; [by left|]. split; [lia|]. split; [|by destruct h].
    intros t [Ht _] Hor. split; [|by apply set_elem_ok]. apply elems_set_ne. destruct Hor; congruence.
  - unfold append_dep. pose proof (append_at (h_next h) (replicate (grow (sl_len s))
      (new_deployment base name patch)) (h_deps h) s (new_deployment base name patch) Hs) as Happ.
    pose proof (append_at_0 (h_next h) (replicate (grow (sl_len s)) (new_deployment base name patch))
      (h_deps h) s (new_deployment base name patch) H0 Hnext) as H0'.
    pose proof (fun t => append_elem_ok (h_next h) (replicate (grow (sl_len s))
      (new_deployment base name patch)) (h_deps h) s (new_deployment base name patch) t) as Hok.
    destruct (append_elem _ _ _ _ _) as [m s'] eqn:E. simpl in *.
    destruct Happ as (He & Hs' & Ha & Hother).
    split; [done|]. split; [split; [simpl; lia|done]|]. split; [done|].
    split; [destruct Ha as [-> | ->]; auto|]. split; [lia|]. split; [|done].
    intros t [Ht Hlt] Hor. split; [|by apply Hok; [lia|]].
    destruct (decide (sl_addr t = sl_addr s)) as [Heq|Hne]; [|by apply Hother].
    destruct Hor as [?|Hz]; [done|]. rewrite (Hnil _ Hz).
    unfold elems, array. rewrite Hz, H0'. by destruct (sl_len t).
Qed.

Lemma put_deployments_spec base name patches h s :
  heap_ok h -> slice_at (h_deps h) (h_next h) s ->
  let '(h', s') := foldl (put_deployment grow base name) (h, s) patches in
  elems (h_deps h') s' = foldl (upsert_deployment base name) (elems (h_deps h) s) patches /\
  heap_ok h' /\ slice_at (h_deps h') (h_next h') s' /\
  (sl_addr s' = sl_addr s \/ h_next h <= sl_addr s') /\ h_next h <= h_next h' /\
  (forall t, slice_at (h_deps h) (h_next h) t -> sl_addr t <> sl_addr s \/ sl_addr t = 0 ->
     elems (h_deps h') t = elems (h_deps h) t /\ slice_ok (h_deps h') t) /\
  h' = mkHeap (h_vars h) (h_roles h) (h_envs h) (h_svcs h) (h_deps h') (h_pipes h) (h_next h').
Proof.
  revert h s. induction patches as [|patch patches IH]; intros h s Hh Hs.
  { simpl. split_and!; try done; [by left|by intros t []|by destruct h]. }
  cbn [foldl]. pose proof (put_deployment_spec base name h s patch Hh Hs) as H1.
  destruct (put_deployment grow base name (h, s) patch) as [h1 s1].
  destruct H1 as (E1 & Hh1 & Hs1 & Ha1 & Hn1 & Ht1 & Hfr1).
  specialize (IH h1 s1 Hh1 Hs1).
  destruct (foldl (put_deployment grow base name) (h1, s1) patches) as [h2 s2].
  destruct IH as (E2 & Hh2 & Hs2 & Ha2 & Hn2 & Ht2 & Hfr2).
  split; [by rewrite E2, E1|]. do 2 (split; [done|]).
  split; [destruct Ha2 as [-> | ?]; [done|right; lia]|]. split; [lia|].
  split; [|by rewrite Hfr2, Hfr1].
  intros t Ht Hor. destruct (Ht1 t Ht Hor) as [<- Hok1].
  apply Ht2; [split; [done|destruct Ht; lia]|].
  destruct Hor as [Hne|]; [|by right]. left. destruct Ht as [_ Hlt].
  destruct Ha1 as [-> | ?]; [done|lia].
Qed.

Lemma put_environments_spec base envs h s :
  0 < h_next h -> slice_at (h_envs h) (h_next h) s ->
  let '(h', s') := foldl (put_environment grow base) (h, s) envs in
  elems (h_envs h') s' = foldl (upsert_environment base) (elems (h_envs h) s) envs /\
  slice_at (h_envs h') (h_next h') s' /\ h_next h <= h_next h' /\
  h' = mkHeap (h_vars h) (h_roles h) (h_envs h') (h_svcs h) (h_deps h) (h_pipes h) (h_next h').
Proof.
  revert h s. induction envs as [|env envs IH]; intros h s Hn Hs.
  { simpl. split_and!; try done; apply Hs || by destruct h. }
  assert (let '(h', s') := put_environment grow base (h, s) env in
    elems (h_envs h') s' = upsert_environment base (elems (h_envs h) s) env /\
    slice_at (h_envs h') (h_next h') s' /\ h_next h <= h_next h' /\
    h' = mkHeap (h_vars h) (h_roles h) (h_envs h') (h_svcs h) (h_deps h) (h_pipes h) (h_next h'))
    as H1.
  { unfold put_environment, upsert_environment. destruct (findEnvironmentIndex _ _) as [i|].
    - simpl. split; [by rewrite elems_set|].
      split; [split; [apply set_elem_ok|]; apply Hs|]. split; [lia|by destruct h].
    - unfold append_env. pose proof (append_at (h_next h) (replicate (grow (sl_len s))
        (patched_environment base env)) (h_envs h) s (patched_environment base env) Hs) as Happ.
      destruct (append_elem _ _ _ _ _) as [m s']. destruct Happ as (He & Hs' & _).
      split; [done|]. split; [done|]. split; [simpl; lia|done]. }
  cbn [foldl]. destruct (put_environment grow base (h, s) env) as [h1 s1].
  destruct H1 as (E1 & Hs1 & Hn1 & Hfr1). assert (0 < h_next h1) as Hpos by lia.
  specialize (IH h1 s1 Hpos Hs1).
  destruct (foldl (put_environment grow base) (h1, s1) envs) as [h2 s2].
  destruct IH as (E2 & Hs2 & Hn2 & Hfr2).
  split; [by rewrite E2, E1|]. split; [done|]. split; [lia|]. by rewrite Hfr2, Hfr1.
Qed.

(** What follows only from the parts that an operation leaves alone. *)
Lemma slice_at_mono {A} (m : arrays A) n n' s : n <= n' -> slice_at m n s -> slice_at m n' s.
Proof. intros Hn [? ?]. split; [done|lia]. Qed.

Lemma project_ok_mono h h' p q :
  heap_ok h -> project_ok h p -> h_next h <= h_next h' ->
  h_svcs h' = h_svcs h -> h_deps h' = h_deps h -> rj_svcs q = rj_svcs p ->
  slice_at (h_envs h') (h_next h') (rj_envs q) -> slice_at (h_pipes h') (h_next h') (rj_pipes q) ->
  (forall a, rj_vars q = Some a -> a < h_next h') ->
  heap_ok h' /\ project_ok h' q.
Proof.
  intros [Hn H0] [He Hs Hp Hv Hd Ha] Hle Hsv Hdp Hq He' Hp' Hv'. split.
  - split; [lia|by rewrite Hdp].
  - split; rewrite ?Hsv, ?Hdp, ?Hq; try done; [by eapply slice_at_mono|].
    eapply Forall_impl; [exact Hd|]. intros s. by apply slice_at_mono.
Qed.

Lemma applyProject_spec order h p patch :
  heap_ok h -> project_ok h p ->
  let '(h', q) := applyProject grow order h p patch in
  view h' q = apply_project order (view h p) patch /\ heap_ok h' /\ project_ok h' q.
Proof.
  intros Hh Hp. destruct patch as [patch|]; [|done]. unfold applyProject.
  set (base := rename _ _). destruct (own_variables h (rj_vars p)) as [h1 a] eqn:Ev.
  assert (h_next h <= h_next h1 /\ a < h_next h1 /\
    vars_at h1 a = default ∅ (vars_at h <$> rj_vars p) /\
    h1 = mkHeap (h_vars h1) (h_roles h) (h_envs h) (h_svcs h) (h_deps h) (h_pipes h) (h_next h1))
    as (Hn1 & Ha1 & Hv1 & Hfr1).
  { pose proof (po_vars _ _ Hp) as Hv. unfold own_variables in Ev.
    destruct (rj_vars p) as [b|]; simplify_eq/=.
    - split_and!; try done; auto. by destruct h1.
    - split_and!; try done; try lia. unfold vars_at. simpl. by rewrite lookup_insert_eq. }
  set (h2 := set_h_vars _ h1).
  pose proof (put_environments_spec base (ppt_Environments patch) h2 (rj_envs p)) as He.
  destruct (foldl _ _ _) as [h3 envs]. destruct He as (Ee & Hs3 & Hn3 & Hfr3).
  { simpl. destruct Hh. lia. }
  { simpl. rewrite Hfr1. simpl. eapply slice_at_mono; [exact Hn1|apply Hp]. }
  simpl in Hn3.
  assert (h_svcs h3 = h_svcs h /\ h_deps h3 = h_deps h /\ h_pipes h3 = h_pipes h)
    as (Hsvc & Hdep & Hpip) by (rewrite Hfr3; subst h2; simpl; by rewrite Hfr1).
  split.
  - unfold view, apply_project. simpl. rewrite Ee. subst h2. rewrite Hfr3, Hfr1. simpl.
    unfold vars_at in Hv1. unfold view_pipeline, view_service, roles_at, vars_at. simpl.
    rewrite lookup_insert_eq. simpl. by rewrite Hv1.
  - eapply project_ok_mono; [exact Hh|exact Hp|..]; simpl.
    + lia.
    + done.
    + done.
    + done.
    + done.
    + rewrite Hpip. eapply slice_at_mono; [|apply Hp]. lia.
    + intros b [= <-]. lia.
Qed.

Lemma applyPipeline_spec roles h p patch :
  heap_ok h -> project_ok h p ->
  let '(h', q) := applyPipeline grow roles h p patch in
  view h' q = apply_pipeline (view h p) (set_roles (roles_at h roles) <$> patch) /\
  heap_ok h' /\ project_ok h' q.
Proof.
  intros Hh Hp. destruct patch as [patch|]; [|done]. unfold applyPipeline.
  change (set_roles (roles_at h roles) <$> Some patch) with (Some (set_roles (roles_at h roles) patch)).
  unfold apply_pipeline. cbv zeta.
  assert (findPipelineIndex (prj_Pipelines (view h p))
      (pp_ID (patched_pipeline (set_roles (roles_at h roles) patch))) =
    findPipelineIndex (rp_pl <$> elems (h_pipes h) (rj_pipes p))
      (pp_ID (rp_pl (mkRPipeline (patched_pipeline patch) roles)))) as ->
    by (unfold findPipelineIndex; simpl prj_Pipelines; by rewrite !find_index_fmap).
  destruct (findPipelineIndex _ _) as [i|] eqn:Hi.
  - split.
    + unfold view, set_pipelines. simpl. rewrite elems_set by done. by rewrite list_fmap_insert.
    + eapply project_ok_mono; [exact Hh|exact Hp|done..|apply Hp| |apply Hp].
      simpl. split; [apply set_elem_ok|]; apply Hp.
  - unfold append_pipe. set (item := mkRPipeline _ _).
    pose proof (append_at (h_next h) (replicate (grow (sl_len (rj_pipes p))) item) (h_pipes h)
      (rj_pipes p) item (po_pipes _ _ Hp)) as Happ.
    destruct (append_elem _ _ _ _ _) as [m s']. destruct Happ as (He & Hs' & _).
    split.
    + unfold view, set_pipelines. simpl. rewrite He, fmap_app. done.
    + eapply project_ok_mono; [exact Hh|exact Hp|simpl; lia|done..| |done|].
      * simpl. eapply slice_at_mono; [|apply Hp]. lia.
      * simpl. intros a Ha. pose proof (po_vars _ _ Hp a Ha). lia.
Qed.

(** The services of the project but [i], after a step on the deployments of service [i]. *)
Lemma view_services_other h h' p deps i :
  project_ok h p -> h_deps h !! 0 = None ->
  (forall t, slice_at (h_deps h) (h_next h) t -> sl_addr t <> sl_addr deps \/ sl_addr t = 0 ->
     elems (h_deps h') t = elems (h_deps h) t) ->
  (forall s, i = Some s -> exists x, elems (h_svcs h) (rj_svcs p) !! s = Some x /\ rs_deps x = deps) ->
  (i = None -> sl_addr deps = 0) ->
  forall j x, Some j <> i -> elems (h_svcs h) (rj_svcs p) !! j = Some x ->
  view_service h' x = view_service h x.
Proof.
  intros Hp H0 Ht Hi Hnone j x Hj Hx. unfold view_service. f_equal.
  pose proof (po_deps _ _ Hp) as Hd. rewrite Forall_lookup in Hd.
  apply Ht; [by eapply Hd|].
  destruct (decide (sl_addr (rs_deps x) = sl_addr deps)) as [E|]; [right|by left].
  destruct i as [i|]; [|by rewrite E, Hnone].
  destruct (Hi i eq_refl) as (y & Hy & <-).
  eapply (po_apart _ _ Hp j i); [done|done|congruence|done].
Qed.

(** The services after an upsert: one of them is new, and its deployments are those of the
    service it replaces or in a new array. *)
Lemma services_ok h h' p L k new deps :
  project_ok h p -> h_next h <= h_next h' ->
  slice_at (h_deps h') (h_next h') (rs_deps new) ->
  (sl_addr (rs_deps new) = sl_addr deps \/ h_next h <= sl_addr (rs_deps new)) ->
  (forall t, slice_at (h_deps h) (h_next h) t -> sl_addr t <> sl_addr deps \/ sl_addr t = 0 ->
     slice_ok (h_deps h') t) ->
  (forall j s, L !! j = Some s -> (j = k /\ s = new) \/
     (j <> k /\ elems (h_svcs h) (rj_svcs p) !! j = Some s /\
      (sl_addr (rs_deps s) = sl_addr deps -> sl_addr (rs_deps s) = 0))) ->
  Forall (fun s => slice_at (h_deps h') (h_next h') (rs_deps s)) L /\
  (forall i j s t, L !! i = Some s -> L !! j = Some t -> i <> j ->
     sl_addr (rs_deps s) = sl_addr (rs_deps t) -> sl_addr (rs_deps s) = 0).
Proof.
  intros Hp Hn Hnew Haddr Ht HL.
  pose proof (po_deps _ _ Hp) as Hd. rewrite Forall_lookup in Hd. split.
  - rewrite Forall_lookup. intros j s Hs. destruct (HL j s Hs) as [[_ ->]|(_ & Hj & H0)]; [done|].
    destruct (Hd j s Hj) as [Hok Hlt]. split; [|lia]. apply Ht; [by split|].
    destruct (decide (sl_addr (rs_deps s) = sl_addr deps)); auto.
  - intros i j s t Hs Ht' Hij E.
    destruct (HL i s Hs) as [[-> ->]|(Hi & Hsi & Hs0)], (HL j t Ht') as [[-> ->]|(Hj & Htj & Ht0)].
    + done.
    + destruct (Hd j t Htj) as [_ Hlt]. destruct Haddr as [Ha|Ha]; [|lia].
      rewrite E. apply Ht0. congruence.
    + destruct (Hd i s Hsi) as [_ Hlt]. destruct Haddr as [Ha|Ha]; [|lia]. apply Hs0. congruence.
    + by eapply (po_apart _ _ Hp i j).
Qed.

(** A project whose services alone changed. *)
Lemma view_set_services h h2 p q L :
  h_vars h2 = h_vars h -> h_envs h2 = h_envs h -> h_pipes h2 = h_pipes h ->
  h_roles h2 = h_roles h -> rj_prj q = rj_prj p -> rj_vars q = rj_vars p ->
  rj_envs q = rj_envs p -> rj_pipes q = rj_pipes p ->
  view_service h2 <$> elems (h_svcs h2) (rj_svcs q) = L ->
  view h2 q = set_services L (view h p).
Proof.
  intros Hv He Hp Hr Hq1 Hq2 Hq3 Hq4 HL. unfold view, view_pipeline, roles_at, vars_at.
  by rewrite Hv, He, Hp, Hr, Hq1, Hq2, Hq3, Hq4, HL.
Qed.

Lemma applyService_spec h p patch :
  heap_ok h -> project_ok h p ->
  let '(h', q) := applyService grow h p patch in
  view h' q = apply_service (view h p) patch /\ heap_ok h' /\ project_ok h' q.
Proof.
  intros Hh Hp. destruct patch as [patch|]; [|done]. unfold applyService, apply_service. cbv zeta.
  set (services := elems (h_svcs h) (rj_svcs p)).
  change (prj_Services (view h p)) with (view_service h <$> services).
  assert (findServiceIndex (view_service h <$> services) (TrimSpace (spt_ID patch))
      (TrimSpace (spt_Name patch)) =
    findServiceIndex (rs_svc <$> services) (TrimSpace (spt_ID patch)) (TrimSpace (spt_Name patch)))
    as -> by (unfold findServiceIndex; by rewrite !find_index_fmap).
  set (idx := findServiceIndex _ _ _). set (found := idx ≫= fun i => services !! i).
  assert (Hfound : forall i, idx = Some i -> exists x, services !! i = Some x /\ found = Some x).
  { intros i Hi. destruct (find_index_lookup _ _ _ Hi) as (x & Hx & _).
    apply list_lookup_fmap_Some in Hx as (y & -> & Hy). exists y. split; [done|].
    subst found. by rewrite Hi. }
  assert (Hnone : idx = None -> found = None) by (intros Hi; subst found; by rewrite Hi).
  assert ((idx ≫= fun i => (view_service h <$> services) !! i) = view_service h <$> found) as ->.
  { destruct idx as [i|]; [|by rewrite Hnone]. destruct (Hfound i eq_refl) as (x & Hx & ->). simpl.
    by rewrite list_lookup_fmap, Hx. }
  set (svc := patched_service (rj_prj p) (rs_svc <$> found) patch).
  set (svc' := patched_service (view h p) (view_service h <$> found) patch).
  assert (svc_Name svc = svc_Name svc') as Hname by (subst svc svc'; by destruct found).
  assert (forall l, set_deployments l svc = set_deployments l svc') as Hsvc
    by (intros l; subst svc svc'; by destruct found).
  set (deps := from_option rs_deps nil_slice found).
  assert (svc_Deployments svc' = elems (h_deps h) deps) as Hd0.
  { subst svc' deps. destruct found; [done|]. simpl. unfold elems, array. simpl.
    destruct Hh as [_ ->]. done. }
  assert (slice_at (h_deps h) (h_next h) deps) as Hdeps.
  { subst deps. destruct idx as [i|]; [|rewrite Hnone by done].
    - destruct (Hfound i eq_refl) as (x & Hx & ->). simpl.
      pose proof (po_deps _ _ Hp) as Hd. rewrite Forall_lookup in Hd. by eapply Hd.
    - simpl. split; [unfold slice_ok; simpl; lia|simpl; apply Hh]. }
  pose proof (put_deployments_spec (rj_prj p) (svc_Name svc) (spt_Deployments patch) h deps Hh Hdeps)
    as Hput.
  destruct (foldl _ _ _) as [h1 deps'] eqn:E1.
  destruct Hput as (Ed & Hh1 & Hdeps' & Ha & Hn & Ht & Hfr).
  assert (foldl (upsert_deployment (view h p) (svc_Name svc')) (svc_Deployments svc')
            (spt_Deployments patch) = elems (h_deps h1) deps') as ->
    by (rewrite Ed, Hd0, Hname; done).
  assert (Hother : forall j x, Some j <> idx -> services !! j = Some x ->
    view_service h1 x = view_service h x).
  { eapply (view_services_other h h1 p deps); [done|apply Hh|intros; by apply Ht|..].
    - intros i Hi. destruct (Hfound i Hi) as (x & Hx & Hf). exists x. split; [done|].
      subst deps. by rewrite Hf.
    - intros Hi. subst deps. by rewrite Hnone. }
  assert (Hsv1 : h_svcs h1 = h_svcs h) by by rewrite Hfr.
  assert (Hen1 : h_envs h1 = h_envs h) by by rewrite Hfr.
  assert (Hpi1 : h_pipes h1 = h_pipes h) by by rewrite Hfr.
  assert (Hro1 : h_roles h1 = h_roles h) by by rewrite Hfr.
  assert (Hva1 : h_vars h1 = h_vars h) by by rewrite Hfr.
  assert (Hold : forall j x, Some j <> idx -> services !! j = Some x ->
    sl_addr (rs_deps x) = sl_addr deps -> sl_addr (rs_deps x) = 0).
  { intros j x Hj Hx E. destruct idx as [i|].
    - destruct (Hfound i eq_refl) as (y & Hy & Hf). subst deps. rewrite Hf in E.
      eapply (po_apart _ _ Hp j i); [done|done|congruence|done].
    - rewrite E. subst deps. by rewrite Hnone. }
  assert (Hgood : forall h2 q L k, h_deps h2 = h_deps h1 -> h_envs h2 = h_envs h1 ->
    h_pipes h2 = h_pipes h1 -> h_next h1 <= h_next h2 ->
    rj_envs q = rj_envs p -> rj_pipes q = rj_pipes p -> rj_vars q = rj_vars p ->
    slice_at (h_svcs h2) (h_next h2) (rj_svcs q) -> elems (h_svcs h2) (rj_svcs q) = L ->
    (forall j s, L !! j = Some s -> (j = k /\ s = mkRService svc deps') \/
      (j <> k /\ services !! j = Some s /\ Some j <> idx)) ->
    heap_ok h2 /\ project_ok h2 q).
  { intros h2 q L k Hd2 He2 Hp2 Hn2 Hqe Hqp Hqv Hqs HL HLk.
    destruct (services_ok h h2 p L k (mkRService svc deps') deps) as [Hfor Hap]; [done|lia|..].
    - rewrite Hd2. eapply slice_at_mono; [exact Hn2|done].
    - done.
    - intros t Hta Hor. rewrite Hd2. by apply Ht.
    - intros j x Hx. destruct (HLk j x Hx) as [?|(? & ? & ?)]; [by left|right].
      split_and!; [done|done|by apply (Hold j x)].
    - split; [split; [destruct Hh1; lia|rewrite Hd2; apply Hh1]|].
      split; rewrite ?Hqe, ?Hqp, ?Hqv, ?He2, ?Hp2, ?Hen1, ?Hpi1, ?HL; try done.
      + eapply slice_at_mono; [|apply Hp]. lia.
      + eapply slice_at_mono; [|apply Hp]. lia.
      + intros a Hva. pose proof (po_vars _ _ Hp a Hva). lia. }
  rewrite <-Hsvc. destruct idx as [i|] eqn:Hidx.
  - destruct (Hfound i eq_refl) as (x & Hx & Hf).
    assert (elems (set_elem (h_svcs h1) (rj_svcs p) i (mkRService svc deps')) (rj_svcs p) =
      <[i := mkRService svc deps']> services) as Hel by (by rewrite elems_set, Hsv1).
    split.
    + apply view_set_services; try done. simpl. rewrite Hel, list_fmap_insert.
      rewrite (insert_fmap_ext _ (view_service h)); [done|]. intros j y Hj Hy.
      apply (Hother j y); [congruence|done].
    + apply (Hgood _ p (<[i := mkRService svc deps']> services) i); try done.
      * simpl. split; [apply set_elem_ok; rewrite Hsv1; apply Hp|].
        pose proof (proj2 (po_svcs _ _ Hp)). lia.
      * intros j y Hy. apply list_lookup_insert_Some in Hy as [(-> & <- & _)|[Hj Hy]]; [by left|].
        right. split_and!; [done|done|congruence].
  - unfold append_svc.
    assert (slice_at (h_svcs h1) (h_next h1) (rj_svcs p)) as Hs1
      by (rewrite Hsv1; eapply slice_at_mono; [exact Hn|apply Hp]).
    pose proof (append_at (h_next h1) (replicate (grow (sl_len (rj_svcs p))) (mkRService svc deps'))
      (h_svcs h1) (rj_svcs p) (mkRService svc deps') Hs1) as Happ.
    destruct (append_elem _ _ _ _ _) as [m s']. destruct Happ as (He & Hs' & _).
    rewrite Hsv1 in He. fold services in He. split.
    + apply view_set_services; try done. simpl. rewrite He, fmap_app. f_equal.
      apply list_fmap_ext. intros j y Hy. by apply (Hother j y).
    + apply (Hgood _ (mkRProject (rj_prj p) (rj_vars p) (rj_envs p) s' (rj_pipes p))
        (services ++ [mkRService svc deps'])%list (length services)); try done; [simpl; lia|].
      intros j y Hy. apply lookup_app_Some in Hy as [Hy|[Hl Hy]].
      * right. split_and!; [|done|done]. apply lookup_lt_Some in Hy. lia.
      * apply list_lookup_singleton_Some in Hy as [Hz <-]. left. split; [lia|done].
Qed.
(** The three kinds of request together. *)
Lemma Apply_spec order roles h p change :
  heap_ok h -> project_ok h p ->
  let '(h', r) := Apply grow order roles h p change in
  map_result (view h') r = apply_change order (view h p) (view_change h roles change) /\
  heap_ok h' /\ (forall q, r = Ok q -> project_ok h' q).
Proof.
  intros Hh Hp. unfold Apply, apply_change. simpl cr_Delete. simpl cr_Remove. simpl cr_Kind.
  destruct (cr_Delete change || cr_Remove change); [done|].
  destruct (_ =? _).
  { pose proof (applyProject_spec order h p (cr_Project change) Hh Hp) as H.
    destruct (applyProject _ _ _ _) as [h' q]. destruct H as (E & Hh' & Hq). simpl. rewrite E.
    split_and!; [done|done|by intros ? [= <-]]. }
  destruct (_ =? _).
  { pose proof (applyService_spec h p (cr_Service change) Hh Hp) as H.
    destruct (applyService _ _ _) as [h' q]. destruct H as (E & Hh' & Hq). simpl. rewrite E.
    split_and!; [done|done|by intros ? [= <-]]. }
  destruct (_ =? _); [|done].
  pose proof (applyPipeline_spec roles h p (cr_Pipeline change) Hh Hp) as H.
  destruct (applyPipeline _ _ _ _) as [h' q]. destruct H as (E & Hh' & Hq). simpl. rewrite E.
  split_and!; [done|done|by intros ? [= <-]].
Qed.

(** C20: the configuration change computes what is intended, although it writes through shared
    slices and maps: the project that [Apply] returns, read in the heap that it leaves, is the
    merge of the request into the project that was given; the errors are the same, and no slice
    of the result is left dangling or shared between two services. *)
Theorem Apply_refines order roles h p change :
  heap_ok h -> project_ok h p ->
  let '(h', r) := Apply grow order roles h p change in
  map_result (view h') r = apply_change order (view h p) (view_change h roles change) /\
  heap_ok h' /\ (forall q, r = Ok q -> project_ok h' q).
Proof. apply Apply_spec. Qed.
End Refinement.

(** ** What the program that gave the project sees

    [previewConfigChangeRequest] passes a project of the agent's list and keeps it as the
    project before the change, for [Diff]. *)
Section Original.
Context {D : Digest} {U : UnicodeCase} (grow : nat -> nat).

(** The request updates a service or a pipeline that exists. *)
Definition updates_existing (p : Project) (c : ChangeRequest) : Prop :=
  cr_Delete c || cr_Remove c = false /\
  ((TrimSpace (cr_Kind c) = KindServiceUpsert /\ exists patch, cr_Service c = Some patch /\
      findServiceIndex (prj_Services p) (TrimSpace (spt_ID patch)) (TrimSpace (spt_Name patch))
        <> None) \/
   (TrimSpace (cr_Kind c) = KindPipelineUpsert /\ exists patch, cr_Pipeline c = Some patch /\
      findPipelineIndex (prj_Pipelines p) (pp_ID (patched_pipeline patch)) <> None)).

Lemma applyService_existing h p patch :
  findServiceIndex (prj_Services (view h p)) (TrimSpace (spt_ID patch))
    (TrimSpace (spt_Name patch)) <> None ->
  (applyService grow h p (Some patch)).2 = p.
Proof.
  change (prj_Services (view h p)) with (view_service h <$> elems (h_svcs h) (rj_svcs p)).
  intros H. unfold applyService. cbv zeta.
  assert (findServiceIndex (rs_svc <$> elems (h_svcs h) (rj_svcs p)) (TrimSpace (spt_ID patch))
    (TrimSpace (spt_Name patch)) <> None) as H'
    by (revert H; unfold findServiceIndex; by rewrite !find_index_fmap).
  destruct (foldl _ _ _). by destruct (findServiceIndex (rs_svc <$> _) _ _).
Qed.

Lemma applyPipeline_existing roles h p patch :
  findPipelineIndex (prj_Pipelines (view h p)) (pp_ID (patched_pipeline patch)) <> None ->
  (applyPipeline grow roles h p (Some patch)).2 = p.
Proof.
  change (prj_Pipelines (view h p)) with (view_pipeline h <$> elems (h_pipes h) (rj_pipes p)).
  intros H. unfold applyPipeline. cbv zeta.
  assert (findPipelineIndex (rp_pl <$> elems (h_pipes h) (rj_pipes p))
    (pp_ID (rp_pl (mkRPipeline (patched_pipeline patch) roles))) <> None) as H'
    by (revert H; unfold findPipelineIndex; by rewrite !find_index_fmap).
  by destruct (findPipelineIndex (rp_pl <$> _) _).
Qed.

(** An update of an existing service or pipeline edits the project that it was given: what
    [Apply] returns is that very value, and its elements in the shared arrays are those of the
    merge. *)
Lemma Apply_edits_the_original order roles h p change :
  heap_ok h -> project_ok h p -> updates_existing (view h p) change ->
  exists h', Apply grow order roles h p change = (h', Ok p) /\
    apply_change order (view h p) (view_change h roles change) = Ok (view h' p).
Proof.
  intros Hh Hp (Hdel & Hex). pose proof (Apply_spec grow order roles h p change Hh Hp) as Hspec.
  assert ((Apply grow order roles h p change).2 = Ok p) as E.
  { unfold Apply. rewrite Hdel. destruct Hex as [(-> & patch & -> & H)|(-> & patch & -> & H)].
    - apply applyService_existing in H. cbn [String.eqb].
      change (KindServiceUpsert =? KindProjectUpsert) with false.
      rewrite String.eqb_refl. destruct (applyService _ _ _ _) as [? ?]. by f_equal/=.
    - apply (applyPipeline_existing roles) in H.
      change (KindPipelineUpsert =? KindProjectUpsert) with false.
      change (KindPipelineUpsert =? KindServiceUpsert) with false.
      rewrite String.eqb_refl. destruct (applyPipeline _ _ _ _ _) as [? ?]. by f_equal/=. }
  destruct (Apply grow order roles h p change) as [h' r]. simpl in E. subst r.
  destruct Hspec as (Hv & _). exists h'. split; [done|]. by rewrite <-Hv.
Qed.

(** A new service is not seen through the project that was given, unless another request
    writes to the same spare capacity. *)
Lemma applyService_new_keeps h p patch :
  heap_ok h -> project_ok h p ->
  findServiceIndex (prj_Services (view h p)) (TrimSpace (spt_ID patch))
    (TrimSpace (spt_Name patch)) = None ->
  view (applyService grow h p (Some patch)).1 p = view h p.
Proof.
  change (prj_Services (view h p)) with (view_service h <$> elems (h_svcs h) (rj_svcs p)).
  intros Hh Hp Hnone. unfold applyService. cbv zeta.
  assert (findServiceIndex (rs_svc <$> elems (h_svcs h) (rj_svcs p)) (TrimSpace (spt_ID patch))
    (TrimSpace (spt_Name patch)) = None) as ->
    by (revert Hnone; unfold findServiceIndex; by rewrite !find_index_fmap).
  set (svc := patched_service _ _ _).
  assert (slice_at (h_deps h) (h_next h) nil_slice) as Hnil
    by (split; [unfold slice_ok; simpl; lia|apply Hh]).
  pose proof (put_deployments_spec grow (rj_prj p) (svc_Name svc) (spt_Deployments patch) h
    nil_slice Hh Hnil) as Hput. simpl from_option.
  destruct (foldl _ _ _) as [h1 deps]. destruct Hput as (_ & _ & _ & _ & Hn & Ht & Hfr).
  unfold append_svc. set (x := mkRService svc deps).
  pose proof (append_elem_other (h_next h1) (replicate (grow (sl_len (rj_svcs p))) x) (h_svcs h1)
    (rj_svcs p) x (rj_svcs p)) as Ho.
  destruct (append_elem _ _ _ _ _) as [m s']. simpl in *.
  transitivity (set_services (prj_Services (view h p)) (view h p)); [|by destruct (view h p)].
  apply view_set_services; try first [done|by simpl; rewrite Hfr]. simpl.
  rewrite Ho; [|lia|pose proof (proj2 (po_svcs _ _ Hp)); lia].
  replace (h_svcs h1) with (h_svcs h) by by rewrite Hfr.
  apply list_fmap_ext. intros j y Hy. unfold view_service. simpl. f_equal.
  pose proof (po_deps _ _ Hp) as Hd. rewrite Forall_lookup in Hd.
  apply Ht; [by eapply Hd|]. simpl. lia.
Qed.
End Original.

(** ** An example, and a race *)

Definition example_RService : RService := mkRService (example_service "s1" "web" []) (mkSlice 1 1).
(** One service in an array with room for another one. *)
Definition example_heap : heap :=
  mkHeap ∅ ∅ ∅ {[2 := [example_RService; example_RService]]}
    {[1 := [example_deployment "d1" "dev" LocationLocal false]]} ∅ 3.
Definition example_RProject : RProject :=
  mkRProject (example_project [] []) None nil_slice (mkSlice 2 1) nil_slice.

Lemma example_heap_ok : heap_ok example_heap.
Proof. by split; [vm_compute; lia|]. Qed.

Lemma example_project_ok : project_ok example_heap example_RProject.
Proof.
  split; try (by split; vm_compute; lia).
  - done.
  - repeat constructor; vm_compute; lia.
  - intros [|i] [|j] s t; vm_compute; done.
Qed.

Definition example_Apply : heap -> RProject -> ChangeRequest -> heap * result change_error RProject :=
  @Apply identity_digest ascii_case (fun n => n) [] 0.

Lemma Apply_refines_witness :
  let c := service_change "web" [set_patch_ports (Some [8080%Z]) (empty_patch "d1")] in
  let '(h', r) := example_Apply example_heap example_RProject c in
  map_result (view h') r =
    @apply_change identity_digest ascii_case [] (view example_heap example_RProject)
      (view_change example_heap 0 c) /\
  heap_ok h' /\ (forall q, r = Ok q -> project_ok h' q).
Proof.
  exact (@Apply_refines identity_digest ascii_case (fun n => n) [] 0 example_heap example_RProject
    (service_change "web" [set_patch_ports (Some [8080%Z]) (empty_patch "d1")])
    example_heap_ok example_project_ok).
Defined.

(** The ports of the deployments of a project, and the names of its services. *)
Definition ports_of (p : Project) : list (list (option (list Z))) :=
  (fun s => dep_Ports <$> svc_Deployments s) <$> prj_Services p.
Definition names_of (p : Project) : list string := svc_Name <$> prj_Services p.

Lemma Apply_edits_the_original_example :
  let c := service_change "web" [set_patch_ports (Some [8080%Z]) (empty_patch "d1")] in
  exists h', example_Apply example_heap example_RProject c = (h', Ok example_RProject) /\
    ports_of (view example_heap example_RProject) = [[None]] /\
    ports_of (view h' example_RProject) = [[Some [8080%Z]]].
Proof.
  cbv zeta.
  destruct (@Apply_edits_the_original identity_digest ascii_case (fun n => n) [] 0 example_heap
    example_RProject (service_change "web" [set_patch_ports (Some [8080%Z]) (empty_patch "d1")])
    example_heap_ok example_project_ok) as (h' & H & Hv).
  { split; [reflexivity|]. left. split; [reflexivity|]. eexists. split; [reflexivity|].
    vm_compute. discriminate. }
  exists h'. split; [exact H|]. split; [vm_compute; reflexivity|].
  apply (f_equal (fun r => match r with Ok q => ports_of q | Err _ => [] end)) in Hv.
  etransitivity; [symmetry; exact Hv|]. vm_compute. reflexivity.
Defined.

(** Two requests that start from the same project, each for a new service: the second writes
    its service into the slot that the first one uses.  Whoever was allowed to save "api" now
    saves "db". *)
Theorem spare_capacity_race :
  let '(h1, r1) := example_Apply example_heap example_RProject (service_change "api" []) in
  let '(h2, r2) := example_Apply h1 example_RProject (service_change "db" []) in
  match r1 with
  | Ok p => names_of (view h1 p) = ["web"; "api"] /\ names_of (view h2 p) = ["web"; "db"]
  | Err _ => False
  end.
Proof. vm_compute. by split. Qed.
