(* ===== verification/Identities.v ===== *)
(** * Identities of projects (api/server.go)

    Projects and deployments are global identities of the running agent: [assignIDsAvoiding]
    fills in those that are missing and replaces those that another project already has (a
    copied directory brings the identifiers of the original).  The identifiers drawn at random
    are a stream; the loops are given on values and, as the program runs them, on the shared
    slices of [ConfigHeap]. *)
From stdpp Require Import base strings gmap list pretty.
From Stdlib Require Import ZArith Lia.
From S2P Require Import Prelude Model ConfigChange Slices ConfigHeap.
Local Open Scope string_scope.

(** ** Sets of identities *)

Record projectIdentitySet : Type := mkIdentitySet {
  projectIDs : gset string;
  deploymentIDs : gset string;
}.

Definition newProjectIdentitySet : projectIdentitySet := mkIdentitySet ∅ ∅.

(** The empty identifier is no identity. *)
Definition add_id (id : string) (s : gset string) : gset string :=
  if id =? "" then s else {[id]} ∪ s.
Definition has_id (id : string) (s : gset string) : bool :=
  if id =? "" then false else bool_decide (id ∈ s).

Definition addProjectID (id : string) (s : projectIdentitySet) : projectIdentitySet :=
  mkIdentitySet (add_id id (projectIDs s)) (deploymentIDs s).

(** The deployments of a project, in the order of its services. *)
Definition all_deployments (p : Project) : list Deployment :=
  prj_Services p ≫= svc_Deployments.

Definition addProject (s : projectIdentitySet) (p : Project) : projectIdentitySet :=
  let s := addProjectID (prj_ID p) s in
  mkIdentitySet (projectIDs s)
    (foldl (fun ids d => add_id (dep_ID d) ids) (deploymentIDs s) (all_deployments p)).

Definition projectIdentitySetExcludingRootPath (projects : list Project) (rootPath : string)
    : projectIdentitySet :=
  foldl (fun used p =>
      if negb (rootPath =? "") && (prj_RootPath p =? rootPath) then used else addProject used p)
    newProjectIdentitySet projects.

(** ** Fresh identifiers

    [uuid k] is the answer of the [k]-th call of [uuid.NewString]. *)
Section Identities.
Variable uuid : nat -> string.

(** The loop that draws until it meets an identifier that is not in use. *)
Fixpoint uniqueUUID (fuel : nat) (used : gset string) (k : nat) : option (string * nat) :=
  match fuel with
  | 0 => None
  | S fuel =>
      let id := uuid k in
      if has_id id used then uniqueUUID fuel used (S k) else Some (id, S k)
  end.

Definition draw_id (used : gset string) (k : nat) : option (string * nat) :=
  uniqueUUID (S (size used)) used k.

(** An identifier is kept unless it is empty or in use. *)
Definition assign_id (used : gset string) (id : string) (k : nat) : option (string * nat) :=
  if id =? "" then draw_id used k
  else if has_id id used then draw_id used k else Some (id, k).

(** The loop over the deployments of one service. *)
Fixpoint assign_deployments (used : gset string) (k : nat) (deps : list Deployment)
    : option (gset string * nat * list Deployment) :=
  match deps with
  | [] => Some (used, k, [])
  | d :: rest =>
      '(id, k) ← assign_id used (dep_ID d) k;
      '(used, k, rest) ← assign_deployments (add_id id used) k rest;
      Some (used, k, set_dep_ID id d :: rest)
  end.

(** [ID] and [ProjectID] of a service; the identifiers of services are not compared. *)
Definition set_service_ids (id projectID : string) (s : Service) : Service :=
  {| svc_ID := id; svc_ProjectID := projectID; svc_Name := svc_Name s;
     svc_Required := svc_Required s; svc_Order := svc_Order s; svc_AINote := svc_AINote s;
     svc_AuthHint := svc_AuthHint s; svc_Language := svc_Language s;
     svc_Deployments := svc_Deployments s; svc_DebugCredentials := svc_DebugCredentials s;
     svc_HasDebugCredentials := svc_HasDebugCredentials s;
     svc_DebugCredentialHints := svc_DebugCredentialHints s; svc_Status := svc_Status s;
     svc_PID := svc_PID s |}.

Definition service_id (id : string) (k : nat) : string * nat :=
  if id =? "" then (uuid k, S k) else (id, k).

Fixpoint assign_services (projectID : string) (used : gset string) (k : nat)
    (svcs : list Service) : option (gset string * nat * list Service) :=
  match svcs with
  | [] => Some (used, k, [])
  | s :: rest =>
      let '(id, k) := service_id (svc_ID s) k in
      '(used, k, deps) ← assign_deployments used k (svc_Deployments s);
      '(used, k, rest) ← assign_services projectID used k rest;
      Some (used, k, set_deployments deps (set_service_ids id projectID s) :: rest)
  end.

Definition set_prj_ID (id : string) (p : Project) : Project :=
  {| prj_ID := id; prj_Name := prj_Name p; prj_RootPath := prj_RootPath p;
     prj_ConfigFormat := prj_ConfigFormat p; prj_ConfigStaleLegacy := prj_ConfigStaleLegacy p;
     prj_SharedSecretWarnings := prj_SharedSecretWarnings p; prj_Variables := prj_Variables p;
     prj_Environments := prj_Environments p; prj_Services := prj_Services p;
     prj_AINote := prj_AINote p; prj_AuthHint := prj_AuthHint p;
     prj_DebugCredentials := prj_DebugCredentials p;
     prj_HasDebugCredentials := prj_HasDebugCredentials p;
     prj_DebugCredentialHints := prj_DebugCredentialHints p; prj_Pipelines := prj_Pipelines p;
     prj_EnvSelectedServiceIDs := prj_EnvSelectedServiceIDs p; prj_HomeHostID := prj_HomeHostID p;
     prj_HomeHostName := prj_HomeHostName p; prj_DataSourceBinding := prj_DataSourceBinding p |}.

(** The intended effect of [assignIDsAvoiding], on values. *)
Definition assign_ids (used : projectIdentitySet) (k : nat) (p : Project)
    : option (projectIdentitySet * nat * Project) :=
  '(id, k) ← assign_id (projectIDs used) (prj_ID p) k;
  let used := addProjectID id used in
  '(deps, k, svcs) ← assign_services id (deploymentIDs used) k (prj_Services p);
  Some (mkIdentitySet (projectIDs used) deps, k, set_services svcs (set_prj_ID id p)).

(** The same loops on the heap: the services and deployments are written where they are. *)
Fixpoint assign_services_heap (projectID : string) (m : arrays Deployment) (used : gset string)
    (k : nat) (svcs : list RService)
    : option (arrays Deployment * gset string * nat * list RService) :=
  match svcs with
  | [] => Some (m, used, k, [])
  | s :: rest =>
      let '(id, k) := service_id (svc_ID (rs_svc s)) k in
      '(used, k, deps) ← assign_deployments used k (elems m (rs_deps s));
      let m := set_elems m (rs_deps s) deps in
      '(m, used, k, rest) ← assign_services_heap projectID m used k rest;
      Some (m, used, k, mkRService (set_service_ids id projectID (rs_svc s)) (rs_deps s) :: rest)
  end.

Definition assignIDsAvoiding (used : projectIdentitySet) (k : nat) (h : heap) (p : RProject)
    : option (projectIdentitySet * nat * heap * RProject) :=
  '(id, k) ← assign_id (projectIDs used) (prj_ID (rj_prj p)) k;
  let used := addProjectID id used in
  '(m, deps, k, svcs) ← assign_services_heap id (h_deps h) (deploymentIDs used) k
                          (elems (h_svcs h) (rj_svcs p));
  Some (mkIdentitySet (projectIDs used) deps, k,
        set_h_svcs (set_elems (h_svcs h) (rj_svcs p) svcs) (set_h_deps m h),
        mkRProject (set_prj_ID id (rj_prj p)) (rj_vars p) (rj_envs p) (rj_svcs p) (rj_pipes p)).

(** ** The draws end *)

Lemma uniqueUUID_None fuel used k :
  uniqueUUID fuel used k = None -> forall i, i < fuel -> uuid (k + i) ∈ used.
Proof.
  revert k. induction fuel as [|fuel IH]; intros k H i Hi; [lia|]. simpl in H.
  destruct (has_id (uuid k) used) eqn:Hh; [|done].
  destruct i as [|i].
  - rewrite Nat.add_0_r. unfold has_id in Hh. destruct (_ =? _); [done|].
    by apply bool_decide_eq_true in Hh.
  - rewrite Nat.add_succ_r. apply (IH (S k)); [done|lia].
Qed.

(** A generator that does not repeat itself meets an unused identifier after at most one more
    draw than there are identifiers in use. *)
Lemma draw_id_total `{!Inj (=) (=) uuid} used k : is_Some (draw_id used k).
Proof.
  unfold draw_id. destruct (uniqueUUID _ used k) as [r|] eqn:H; [by exists r|exfalso].
  pose proof (uniqueUUID_None _ _ _ H) as Hin.
  set (drawn := list_to_set (uuid <$> seq k (S (size used))) : gset string).
  assert (size drawn = S (size used)) as Hsize.
  { unfold drawn. rewrite size_list_to_set; [by rewrite length_fmap, length_seq|].
    apply NoDup_fmap_2; [done|]. apply NoDup_seq. }
  assert (drawn ⊆ used) as Hsub.
  { intros x [j [-> Hj%elem_of_seq]]%elem_of_list_to_set%list_elem_of_fmap.
    replace j with (k + (j - k)) by lia. apply Hin. lia. }
  apply subseteq_size in Hsub. lia.
Qed.

Lemma uniqueUUID_Some fuel used k id k' :
  uniqueUUID fuel used k = Some (id, k') -> has_id id used = false /\ k < k' /\ id = uuid (k' - 1).
Proof.
  revert k. induction fuel as [|fuel IH]; intros k H; [done|]. simpl in H.
  destruct (has_id (uuid k) used) eqn:Hh.
  - apply IH in H as (? & ? & ?). split_and!; [done|lia|done].
  - simplify_eq. split_and!; [done|lia|f_equal; lia].
Qed.

(** ** What is assigned *)

Lemma elem_of_add_id x id s : id <> "" -> x ∈ add_id id s <-> x = id \/ x ∈ s.
Proof. intros H. unfold add_id. apply String.eqb_neq in H as ->. set_solver. Qed.

Lemma has_id_false id s : id <> "" -> has_id id s = false <-> id ∉ s.
Proof.
  intros H. unfold has_id. apply String.eqb_neq in H as ->. by rewrite bool_decide_eq_false.
Qed.

Context (uuid_nonempty : forall k, uuid k <> "").

Lemma assign_id_spec used id k id' k' :
  assign_id used id k = Some (id', k') ->
  id' <> "" /\ id' ∉ used /\ (id <> "" -> id ∉ used -> id' = id).
Proof.
  intros H.
  assert (forall r, draw_id used k = Some (r, k') -> r <> "" /\ r ∉ used) as Hfresh.
  { intros r (Hh & _ & Hr)%uniqueUUID_Some. assert (r <> "") by (subst; auto).
    split; [done|]. by apply has_id_false in Hh. }
  unfold assign_id in H. destruct (String.eqb_spec id ""); [split_and!; [by apply Hfresh..|done]|].
  destruct (has_id id used) eqn:Hh.
  - split_and!; [by apply Hfresh..|]. intros _ Hin. by apply has_id_false in Hin; [congruence|].
  - simplify_eq. split_and!; [done| |done]. by apply has_id_false in Hh.
Qed.

(** Deployments with their new identifiers. *)
Definition renamed (ds es : list Deployment) : Prop :=
  Forall2 (fun d e => e = set_dep_ID (dep_ID e) d) ds es.

(** The identifiers of a list are new: they differ, none is empty or in use. *)
Definition new_ids (used : gset string) (ds : list Deployment) : Prop :=
  NoDup (dep_ID <$> ds) /\ Forall (fun d => dep_ID d <> "" /\ dep_ID d ∉ used) ds.

Lemma set_dep_ID_same d : set_dep_ID (dep_ID d) d = d.
Proof. by destruct d. Qed.

Lemma new_ids_cons used d ds :
  new_ids used (d :: ds) <-> dep_ID d <> "" /\ dep_ID d ∉ used /\ new_ids (add_id (dep_ID d) used) ds.
Proof.
  unfold new_ids. csimpl. rewrite NoDup_cons, Forall_cons, list_elem_of_fmap.
  split.
  - intros ((Hnin & Hnd) & (H1 & H2) & Hall). split_and!; try done.
    rewrite Forall_forall in Hall |- *. intros e He. destruct (Hall e He). split; [done|].
    rewrite elem_of_add_id by done. intros [Heq|]; [|done]. apply Hnin. by exists e.
  - intros (H1 & H2 & Hnd & Hall). rewrite Forall_forall in Hall.
    split_and!; try done.
    + intros (e & Heq & He). destruct (Hall e He) as [_ Hn]. apply Hn.
      rewrite elem_of_add_id by done. by left.
    + apply Forall_forall. intros e He. destruct (Hall e He) as [? Hn]. split; [done|].
      rewrite elem_of_add_id in Hn by done. tauto.
Qed.

Lemma new_ids_app used ds es :
  new_ids used (ds ++ es)%list <->
  new_ids used ds /\ new_ids (foldl (fun ids d => add_id (dep_ID d) ids) used ds) es.
Proof.
  revert used. induction ds as [|d ds IH]; intros used; simpl.
  - unfold new_ids at 2. simpl. split; [|tauto]. intros H. split_and!; [constructor..|done].
  - rewrite !new_ids_cons, IH. tauto.
Qed.

Lemma assign_deployments_spec used k deps used' k' out :
  assign_deployments used k deps = Some (used', k', out) ->
  renamed deps out /\ new_ids used out /\
  used' = foldl (fun ids d => add_id (dep_ID d) ids) used out /\
  (new_ids used deps -> out = deps).
Proof.
  revert used k used' k' out. induction deps as [|d deps IH]; intros used k used' k' out H.
  { simpl in H. simplify_eq. split_and!; [constructor|by split; constructor|done..]. }
  simpl in H. destruct (assign_id used (dep_ID d) k) as [[id k1]|] eqn:E1; [|done]. simpl in H.
  destruct (assign_deployments (add_id id used) k1 deps) as [[[u2 k2] rest]|] eqn:E2; [|done].
  simplify_eq/=. apply assign_id_spec in E1 as (Hne & Hnew & Hkeep).
  apply IH in E2 as (Hren & Hids & -> & Hsame).
  split_and!; [by constructor|by apply new_ids_cons|done|].
  intros (H1 & H2 & H3)%new_ids_cons. rewrite (Hkeep H1 H2) in *.
  by rewrite (Hsame H3), set_dep_ID_same.
Qed.

Lemma assign_services_spec pid used k svcs used' k' out :
  assign_services pid used k svcs = Some (used', k', out) ->
  Forall2 (fun s t => t = set_deployments (svc_Deployments t) (set_service_ids (svc_ID t) pid s) /\
             renamed (svc_Deployments s) (svc_Deployments t) /\
             (svc_ID s <> "" -> svc_ID t = svc_ID s)) svcs out /\
  new_ids used (out ≫= svc_Deployments) /\
  used' = foldl (fun ids d => add_id (dep_ID d) ids) used (out ≫= svc_Deployments) /\
  (new_ids used (svcs ≫= svc_Deployments) ->
     svc_Deployments <$> out = svc_Deployments <$> svcs).
Proof.
  revert used k used' k' out. induction svcs as [|s svcs IH]; intros used k used' k' out H.
  { simpl in H. simplify_eq. split_and!; [constructor|by split; constructor|done..]. }
  simpl in H. destruct (service_id (svc_ID s) k) as [id k1] eqn:E0.
  destruct (assign_deployments used k1 (svc_Deployments s)) as [[[u2 k2] deps]|] eqn:E1; [|done].
  simpl in H. destruct (assign_services pid u2 k2 svcs) as [[[u3 k3] rest]|] eqn:E2; [|done].
  simplify_eq/=. apply assign_deployments_spec in E1 as (Hren & Hids & -> & Hsame).
  apply IH in E2 as (Hall & Hrest & -> & Hkeep).
  split_and!.
  - constructor; [|done]. split_and!; [done|done|]. intros Hid. unfold service_id in E0.
    apply String.eqb_neq in Hid. rewrite Hid in E0. by simplify_eq/=.
  - by apply new_ids_app.
  - by rewrite foldl_app.
  - rewrite new_ids_app. intros [H1 H2]. rewrite (Hsame H1) in *. f_equal. by apply Hkeep.
Qed.

(** ** The heap *)

Lemma assign_deployments_length used k deps used' k' out :
  assign_deployments used k deps = Some (used', k', out) -> length out = length deps.
Proof.
  revert used k used' k' out. induction deps as [|d deps IH]; intros used k used' k' out H; simpl in H.
  { by simplify_eq. }
  destruct (assign_id used (dep_ID d) k) as [[id k1]|]; [|done]. simpl in H.
  destruct (assign_deployments (add_id id used) k1 deps) as [[[u2 k2] rest]|] eqn:E2; [|done].
  simplify_eq/=. by rewrite (IH _ _ _ _ _ E2).
Qed.

Definition view_svc (m : arrays Deployment) (s : RService) : Service :=
  set_deployments (elems m (rs_deps s)) (rs_svc s).

Lemma view_service_svc h : view_service h = view_svc (h_deps h).
Proof. done. Qed.

(** Services that do not share their deployments. *)
Definition apart (svcs : list RService) : Prop :=
  forall i j s t, svcs !! i = Some s -> svcs !! j = Some t -> i <> j ->
    sl_addr (rs_deps s) = sl_addr (rs_deps t) -> sl_addr (rs_deps s) = 0.

Lemma apart_cons s svcs :
  apart (s :: svcs) -> apart svcs /\
  (forall t, t ∈ svcs -> sl_addr (rs_deps s) = sl_addr (rs_deps t) -> sl_addr (rs_deps s) = 0).
Proof.
  intros H. split.
  - intros i j t u Ht Hu Hij. by apply (H (S i) (S j)); [..|congruence].
  - intros t [j Hj]%list_elem_of_lookup E. by apply (H 0 (S j) s t).
Qed.

(** Elements of other slices, when nothing is stored at address 0. *)
Lemma set_elems_apart (m : arrays Deployment) s t l :
  m !! 0 = None -> length l = length (elems m s) ->
  (sl_addr t = sl_addr s -> sl_addr t = 0) -> elems (set_elems m s l) t = elems m t.
Proof.
  intros H0 Hl Ht. destruct (decide (sl_addr t = sl_addr s)) as [E|]; [|by apply set_from_other].
  assert (elems m s = []) as Hnil.
  { unfold elems, array. rewrite <-E, Ht, H0 by done. by destruct (sl_len s). }
  rewrite Hnil in Hl. by destruct l.
Qed.

Lemma set_elems_0 (m : arrays Deployment) s l :
  m !! 0 = None -> length l = length (elems m s) -> set_elems m s l !! 0 = None.
Proof.
  intros H0 Hl. rewrite set_elems_nil_addr; [done|]. intros Hne E. apply Hne.
  apply length_zero_iff_nil. rewrite Hl. unfold elems, array. rewrite E, H0.
  by destruct (sl_len s).
Qed.

Lemma assign_services_heap_spec pid m used k svcs :
  m !! 0 = None -> apart svcs ->
  match assign_services_heap pid m used k svcs with
  | Some (m', u', k', out) =>
      assign_services pid used k (view_svc m <$> svcs) = Some (u', k', view_svc m' <$> out) /\
      m' !! 0 = None /\ rs_deps <$> out = rs_deps <$> svcs /\
      (forall t, (forall s, s ∈ svcs -> sl_addr t = sl_addr (rs_deps s) -> sl_addr t = 0) ->
         elems m' t = elems m t) /\
      (forall t, slice_ok m t -> slice_ok m' t)
  | None => assign_services pid used k (view_svc m <$> svcs) = None
  end.
Proof.
  revert m used k. induction svcs as [|s svcs IH]; intros m used k H0 Hap; [done|].
  apply apart_cons in Hap as [Hap Hs]. csimpl.
  destruct (service_id (svc_ID (rs_svc s)) k) as [id k1].
  destruct (assign_deployments used k1 (elems m (rs_deps s))) as [[[u2 k2] deps]|] eqn:E1; [|done].
  simpl. apply assign_deployments_length in E1 as Hl.
  set (m1 := set_elems m (rs_deps s) deps).
  assert (forall t, (sl_addr t = sl_addr (rs_deps s) -> sl_addr t = 0) ->
    elems m1 t = elems m t) as Hm1 by (intros t Ht; by apply set_elems_apart).
  assert (view_svc m <$> svcs = view_svc m1 <$> svcs) as ->.
  { apply list_fmap_ext. intros i t Hi. unfold view_svc. rewrite Hm1; [done|].
    intros E. rewrite E. symmetry in E. apply (Hs t); [by apply list_elem_of_lookup; eauto|done]. }
  specialize (IH m1 u2 k2 (set_elems_0 _ _ _ H0 Hl) Hap).
  destruct (assign_services_heap pid m1 u2 k2 svcs) as [[[[m' u3] k3] rest]|] eqn:E2; simpl;
    [|by rewrite IH].
  destruct IH as (-> & H0' & Hdeps & Hframe & Hok). csimpl. split_and!.
  - assert (elems m' (rs_deps s) = deps) as Hds.
    { rewrite Hframe by (by intros t Ht E; apply (Hs t)). by apply set_elems_same. }
    do 2 f_equal. unfold view_svc. simpl. by rewrite Hds.
  - done.
  - by rewrite Hdeps.
  - intros t Ht. rewrite Hframe; [|intros u Hu; by apply Ht; right]. apply Hm1, Ht. by left.
  - intros t Ht. apply Hok. by apply set_from_ok.
Qed.

(** The assignment on the heap is the one on values, and the project stays well-formed. *)
Lemma assignIDsAvoiding_spec used k h p :
  heap_ok h -> project_ok h p ->
  match assignIDsAvoiding used k h p with
  | Some (used', k', h', q) =>
      assign_ids used k (view h p) = Some (used', k', view h' q) /\ heap_ok h' /\
      project_ok h' q /\ h_roles h' = h_roles h /\ rj_pipes q = rj_pipes p /\
      h_pipes h' = h_pipes h
  | None => assign_ids used k (view h p) = None
  end.
Proof.
  intros Hh Hp. unfold assignIDsAvoiding, assign_ids. simpl.
  destruct (assign_id _ _ _) as [[id k1]|]; [|done]. simpl.
  pose proof (assign_services_heap_spec id (h_deps h) (deploymentIDs used) k1
    (elems (h_svcs h) (rj_svcs p)) (ho_deps _ Hh) (po_apart _ _ Hp)) as H.
  rewrite view_service_svc.
  destruct (assign_services_heap _ _ _ _ _) as [[[[m u] k2] out]|]; simpl; [|by rewrite H].
  destruct H as (-> & H0 & Hdeps & _ & Hok). simpl.
  assert (length out = length (elems (h_svcs h) (rj_svcs p))) as Hl
    by (by apply (f_equal length) in Hdeps; rewrite !length_fmap in Hdeps).
  assert (elems (set_elems (h_svcs h) (rj_svcs p) out) (rj_svcs p) = out) as Hout
    by by apply set_elems_same.
  split_and!; try done.
  - unfold view. simpl. by rewrite Hout.
  - split; [apply Hh|done].
  - split; simpl; rewrite ?Hout; try apply Hp.
    + split; [apply set_from_ok|]; apply Hp.
    + pose proof (po_deps _ _ Hp) as Hd.
      apply (Forall_fmap rs_deps (slice_at (h_deps h) (h_next h))) in Hd.
      apply (Forall_fmap rs_deps (slice_at m (h_next h))).
      rewrite Hdeps. eapply Forall_impl; [exact Hd|]. intros t [Ht ?]. split; [by apply Hok|done].
    + intros i j s t Hs Ht. apply (list_lookup_fmap_Some_2 rs_deps) in Hs, Ht.
      rewrite Hdeps, list_lookup_fmap in Hs, Ht.
      apply fmap_Some in Hs as (s0 & Hs & ->), Ht as (t0 & Ht & ->).
      by apply (po_apart _ _ Hp i j).
Qed.

(** The identities of the result, on values. *)
Lemma assign_ids_spec used k p used' k' q :
  assign_ids used k p = Some (used', k', q) ->
  prj_ID q <> "" /\ prj_ID q ∉ projectIDs used /\
  new_ids (deploymentIDs used) (all_deployments q) /\
  renamed (all_deployments p) (all_deployments q) /\
  used' = addProject used q /\
  (prj_ID p <> "" -> prj_ID p ∉ projectIDs used -> prj_ID q = prj_ID p) /\
  (new_ids (deploymentIDs used) (all_deployments p) -> all_deployments q = all_deployments p).
Proof.
  unfold assign_ids, all_deployments. intros H.
  destruct (assign_id _ _ _) as [[id k1]|] eqn:E1; [|done]. simpl in H.
  destruct (assign_services _ _ _ _) as [[[u2 k2] svcs]|] eqn:E2; [|done]. simplify_eq/=.
  apply assign_id_spec in E1 as (Hne & Hnew & Hkeep).
  apply assign_services_spec in E2 as (Hall & Hids & -> & Hsame).
  split_and!; try done.
  - clear -Hall. induction Hall as [|s t ss ts (_ & Hr & _) _ IH]; [constructor|].
    simpl. by apply Forall2_app.
  - intros Hn. apply Hsame in Hn. clear -Hn. revert svcs Hn.
    generalize (prj_Services p). intros l. induction l as [|s l IH]; intros [|t svcs] Hn; try done.
    simplify_eq/=. f_equal; [congruence|by apply IH].
Qed.

(** The identities that the agent gives to a project are globally unique: after the
    assignment, read where it was written in the shared slices, the project has an identifier
    that no other project has, its deployments have non-empty identifiers that differ from each
    other and from those of every other project, nothing else of the deployments changes, and
    identifiers that were already unique are kept. *)
Theorem assignIDsAvoiding_unique used k h p used' k' h' q :
  heap_ok h -> project_ok h p -> assignIDsAvoiding used k h p = Some (used', k', h', q) ->
  let before := view h p in
  let after := view h' q in
  prj_ID after <> "" /\ prj_ID after ∉ projectIDs used /\
  new_ids (deploymentIDs used) (all_deployments after) /\
  renamed (all_deployments before) (all_deployments after) /\
  used' = addProject used after /\
  (prj_ID before <> "" -> prj_ID before ∉ projectIDs used -> prj_ID after = prj_ID before) /\
  (new_ids (deploymentIDs used) (all_deployments before) ->
     all_deployments after = all_deployments before).
Proof.
  intros Hh Hp E. pose proof (assignIDsAvoiding_spec used k h p Hh Hp) as H. rewrite E in H.
  destruct H as (H & _). simpl. by apply assign_ids_spec in H.
Qed.

Lemma assign_ids_total `{!Inj (=) (=) uuid} used k p : is_Some (assign_ids used k p).
Proof.
  assert (forall u id j, is_Some (assign_id u id j)) as Hid.
  { intros u id j. unfold assign_id. pose proof (draw_id_total u j).
    destruct (_ =? _); [done|]. by destruct (has_id _ _). }
  assert (forall ds u j, is_Some (assign_deployments u j ds)) as Hdeps.
  { induction ds as [|d ds IH]; intros u j; [by eexists|]. simpl.
    destruct (Hid u (dep_ID d) j) as [[i j1] ->]. simpl.
    destruct (IH (add_id i u) j1) as [[[u2 j2] rest] ->]. by eexists. }
  assert (forall ss pid u j, is_Some (assign_services pid u j ss)) as Hsvcs.
  { induction ss as [|s ss IH]; intros pid u j; [by eexists|]. simpl.
    destruct (service_id (svc_ID s) j) as [i j1].
    destruct (Hdeps (svc_Deployments s) u j1) as [[[u2 j2] deps] ->]. simpl.
    destruct (IH pid u2 j2) as [[[u3 j3] rest] ->]. by eexists. }
  unfold assign_ids. destruct (Hid (projectIDs used) (prj_ID p) k) as [[i j1] ->]. simpl.
  destruct (Hsvcs (prj_Services p) i (deploymentIDs used) j1) as [[[u2 j2] svcs] ->]. by eexists.
Qed.

(** The assignment of identities ends: each loop that draws identifiers meets an unused
    one after finitely many draws, if the generator does not repeat itself, so that a result
    exists for every project, every heap and every set of identities in use. *)
Theorem assignIDsAvoiding_terminates `{!Inj (=) (=) uuid} used k h p :
  heap_ok h -> project_ok h p -> is_Some (assignIDsAvoiding used k h p).
Proof.
  intros Hh Hp. pose proof (assignIDsAvoiding_spec used k h p Hh Hp) as H.
  destruct (assignIDsAvoiding used k h p) as [r|]; [by exists r|].
  destruct (assign_ids_total used k (view h p)) as [r Hr]. congruence.
Qed.
End Identities.

(** ** An example: a copied project *)

Definition example_uuid (k : nat) : string := "u" +:+ pretty k.

Lemma example_uuid_nonempty k : example_uuid k <> "".
Proof. done. Qed.
Global Instance example_uuid_inj : Inj (=) (=) example_uuid.
Proof. intros k j H. unfold example_uuid in H. simpl in H. injection H as H. by apply (inj (pretty (A:=nat))). Qed.

(** The identities of the example are those of another project, as after a copy. *)
Definition copied : projectIdentitySet := mkIdentitySet {["p1"]} {["d1"; "u1"]}.

Lemma assignIDsAvoiding_unique_witness :
  exists used' h' q,
    assignIDsAvoiding example_uuid copied 0 example_heap example_RProject =
      Some (used', 3, h', q) /\
    prj_ID (view h' q) = "u0" /\ (dep_ID <$> all_deployments (view h' q)) = ["u2"] /\
    new_ids (deploymentIDs copied) (all_deployments (view h' q)).
Proof.
  destruct (assignIDsAvoiding example_uuid copied 0 example_heap example_RProject)
    as [[[[u k] h'] q]|] eqn:E; [|exfalso; vm_compute in E; discriminate].
  destruct (assignIDsAvoiding_unique example_uuid example_uuid_nonempty _ _ _ _ _ _ _ _
    example_heap_ok example_project_ok E) as (_ & _ & H & _).
  exists u, h', q. vm_compute in E. injection E as <- <- <- <-.
  split_and!; [vm_compute; reflexivity..|exact H].
Defined.

Lemma assignIDsAvoiding_terminates_witness :
  is_Some (assignIDsAvoiding example_uuid copied 0 example_heap example_RProject).
Proof.
  exact (assignIDsAvoiding_terminates example_uuid copied 0 example_heap example_RProject
    example_heap_ok example_project_ok).
Defined.
