(* ===== verification/ConfigFlow.v ===== *)
(** * Preview and application of a configuration change (api/handler_config_changes.go)

    The handlers resolve the project, merge the request into it, fill in identities, resolve
    host names, validate, compare, plan, and ask the gate; only then is the project saved.
    They run on the heap of [ConfigHeap]: the project before the change is a value that shares
    its slices with the list of projects of the agent. *)
From stdpp Require Import base strings gmap list pretty.
From Stdlib Require Import ZArith Lia.
From S2P Require Import Prelude Model OperationTypes OperationPolicy ApprovalStore AuditStore.
From S2P Require Import GraceStore Settings Gate Paths ConfigChange ConfigValid ConfigPlan Slices ConfigHeap Identities.
Local Open Scope string_scope.

(** ** References to hosts (api/host_reference_validation.go) *)

Definition knownRemoteHostIDs (hosts : list Host) : gset string :=
  foldl (fun known h => if TrimSpace (hst_ID h) =? "" then known else {[hst_ID h]} ∪ known)
    ∅ hosts.

(** The identifiers of the hosts that have a name; a later host of the same name wins. *)
Definition idByName (hosts : list Host) : gmap string string :=
  foldl (fun m h =>
      if TrimSpace (hst_ID h) =? "" then m
      else if TrimSpace (hst_Name h) =? "" then m
      else <[TrimSpace (hst_Name h) := hst_ID h]> m) ∅ hosts.

Definition resolve_ref (hosts : list Host) (ref : string) : string :=
  let ref := TrimSpace ref in
  if bool_decide (ref ∈ knownRemoteHostIDs hosts) then ref
  else default ref (idByName hosts !! ref).

(** The loop over the references of one role, with the identifiers seen so far. *)
Fixpoint normalize_refs (hosts : list Host) (seen : gset string) (refs : list string)
    : list string :=
  match refs with
  | [] => []
  | ref :: rest =>
      let id := resolve_ref hosts ref in
      if (id =? "") || bool_decide (id ∈ seen) then normalize_refs hosts seen rest
      else id :: normalize_refs hosts ({[id]} ∪ seen) rest
  end.

(** The maps of roles are written where they are. *)
Definition normalizePipelineRoleHosts (hosts : list Host) (h : heap) (p : RProject) : heap :=
  foldl (fun h pl =>
      set_h_roles (alter (fmap (normalize_refs hosts ∅)) (rp_roles pl) (h_roles h)) h)
    h (elems (h_pipes h) (rj_pipes p)).

Definition host_errors (known : gset string) (serviceName : string) (dep : Deployment)
    : list string :=
  let envName := or_else (TrimSpace (dep_EnvName dep)) (dep_ID dep) in
  default [] (dep_HostIDs dep) ≫= fun id =>
    let hostID := TrimSpace id in
    if hostID =? "" then
      ["service " +:+ serviceName +:+ " deployment " +:+ envName +:+
       " references empty remote host"]
    else if bool_decide (hostID ∈ known) then []
    else ["service " +:+ serviceName +:+ " deployment " +:+ envName +:+
          " references unknown remote host " +:+ hostID].

Definition remoteHostReferenceErrors (p : Project) (known : gset string) : list string :=
  prj_Services p ≫= fun svc =>
    let serviceName := or_else (TrimSpace (svc_Name svc)) (svc_ID svc) in
    svc_Deployments svc ≫= fun dep =>
      if dep_Location dep =? LocationRemote then host_errors known serviceName dep else [].

(** ** The state and the inputs of the handlers *)

(** What [config.Loader.Load] answers; a project that was read lives in new arrays. *)
Inductive load_outcome : Type :=
| LoadNotFound
| LoadFails (message : string)
| Loaded (alloc : heap -> heap * RProject).

(** What saving a project needs from the disk: the outcomes of [Loader.Save] and
    [registry.Add], and what [DetectFormat], [HasStaleLegacy] and the scan of the shared layer
    then answer. *)
Record SaveEnv : Type := mkSaveEnv {
  sv_saved : option string;
  sv_format : string;
  sv_stale : bool;
  sv_warnings : list SuspectEntry;
  sv_registered : option string;
}.

Record FlowEnv : Type := mkFlowEnv {
  fe_load : load_outcome;
  fe_hosts : string + list Host;        (** [ListHosts]; [inl] is an error *)
  fe_now : time;
  fe_order : list (string * string);    (** the iteration over the variables of the patch *)
  fe_roles : addr;                      (** the map of roles of the decoded request *)
}.

(** The projects of the agent and the heap they live in. *)
Record CState : Type := mkCState {
  cs_heap : heap;
  cs_projects : list RProject;
}.

Record PreviewResult : Type := mkPreview {
  pr_Kind : string;
  pr_TargetSummary : string;
  pr_Diff : list DiffEntry;
  pr_Validation : ValidationResult;
  pr_Plan : Plan;
  pr_Project : RProject;
}.

Definition StatusBadRequest : Z := 400.
Definition StatusNotFound : Z := 404.
Definition StatusInternalServerError : Z := 500.

(** [filepath.Base]: the last element that is not empty. *)
Definition Base (path : string) : string :=
  if path =? "" then "."
  else default "/" (last (List.filter (fun e => negb (e =? "")) (split_slash path))).

(** ** The handlers *)
Section Handlers.
Context {D : Digest} {U : UnicodeCase} {P : UrlParser} (uuid : nat -> string) (grow : nat -> nat).

Definition used_elsewhere (h : heap) (projects : list RProject) (rootPath : string)
    : projectIdentitySet :=
  projectIdentitySetExcludingRootPath (view h <$> projects) rootPath.

(** The first project of the list that the request designates. *)
Definition find_project (req : ChangeRequest) (projects : list RProject) : option RProject :=
  let projectID := TrimSpace (cr_ProjectID req) in
  let projectName := TrimSpace (cr_ProjectName req) in
  let rootPath := TrimSpace (cr_RootPath req) in
  List.find (fun p =>
      ((projectID =? "") || (prj_ID (rj_prj p) =? projectID)) &&
      ((projectName =? "") || (prj_Name (rj_prj p) =? projectName)) &&
      (negb (projectID =? "") || (rootPath =? "") || (prj_RootPath (rj_prj p) =? rootPath)))
    projects.

(** A project for a directory without configuration. *)
Definition skeleton (rootPath : string) : RProject :=
  mkRProject
    {| prj_ID := StableID "project" [rootPath]; prj_Name := Base rootPath;
       prj_RootPath := rootPath; prj_ConfigFormat := ""; prj_ConfigStaleLegacy := false;
       prj_SharedSecretWarnings := []; prj_Variables := None; prj_Environments := [];
       prj_Services := []; prj_AINote := ""; prj_AuthHint := ""; prj_DebugCredentials := [];
       prj_HasDebugCredentials := false; prj_DebugCredentialHints := []; prj_Pipelines := [];
       prj_EnvSelectedServiceIDs := ∅; prj_HomeHostID := ""; prj_HomeHostName := "";
       prj_DataSourceBinding := None |}
    None nil_slice nil_slice nil_slice.

(** A reply: [inl] is an HTTP error.  The outer option is the fuel of the draws, which
    [assignIDsAvoiding_terminates] shows to be enough; [k] counts the draws. *)
Definition resolveConfigChangeProject (fe : FlowEnv) (st : CState) (req : ChangeRequest) (k : nat)
    : option (heap * nat * (Z * string + RProject)) :=
  let h := cs_heap st in
  match find_project req (cs_projects st) with
  | Some p => Some (h, k, inr p)
  | None =>
      let rootPath := TrimSpace (cr_RootPath req) in
      if (rootPath =? "") || negb (TrimSpace (cr_Kind req) =? KindProjectUpsert) then
        Some (h, k, inl (StatusNotFound, "project not found"))
      else
        match fe_load fe with
        | LoadFails message =>
            Some (h, k, inl (StatusBadRequest, "failed to load project config: " +:+ message))
        | outcome =>
            let '(h, p) := match outcome with
                           | Loaded alloc => alloc h
                           | _ => (h, skeleton rootPath)
                           end in
            let used := used_elsewhere h (cs_projects st) (prj_RootPath (rj_prj p)) in
            '(_, k, h, p) ← assignIDsAvoiding uuid used k h p;
            Some (h, k, inr p)
        end
  end.

Definition set_root (root : string) (p : RProject) : RProject :=
  let q := rj_prj p in
  mkRProject
    {| prj_ID := prj_ID q; prj_Name := prj_Name q; prj_RootPath := root;
       prj_ConfigFormat := prj_ConfigFormat q; prj_ConfigStaleLegacy := prj_ConfigStaleLegacy q;
       prj_SharedSecretWarnings := prj_SharedSecretWarnings q;
       prj_Variables := prj_Variables q; prj_Environments := prj_Environments q;
       prj_Services := prj_Services q; prj_AINote := prj_AINote q; prj_AuthHint := prj_AuthHint q;
       prj_DebugCredentials := prj_DebugCredentials q;
       prj_HasDebugCredentials := prj_HasDebugCredentials q;
       prj_DebugCredentialHints := prj_DebugCredentialHints q; prj_Pipelines := prj_Pipelines q;
       prj_EnvSelectedServiceIDs := prj_EnvSelectedServiceIDs q;
       prj_HomeHostID := prj_HomeHostID q; prj_HomeHostName := prj_HomeHostName q;
       prj_DataSourceBinding := prj_DataSourceBinding q |}
    (rj_vars p) (rj_envs p) (rj_svcs p) (rj_pipes p).

(** The result of the validation with the references to hosts. *)
Definition validate_all (hosts : list Host) (p : Project) (req : ChangeRequest)
    : ValidationResult :=
  let errors := (val_Errors (Validate p req) ++
                 remoteHostReferenceErrors p (knownRemoteHostIDs hosts))%list in
  mkValidation (length errors =? 0)%nat errors.

(** From the merged project on: identities, hosts, validation, difference and plan. *)
Definition finish_preview (fe : FlowEnv) (projects : list RProject) (req : ChangeRequest)
    (before after : RProject) (h : heap) (k : nat)
    : option (heap * nat * (Z * string + PreviewResult)) :=
  let after := if prj_RootPath (rj_prj after) =? ""
               then set_root (prj_RootPath (rj_prj before)) after else after in
  let used := used_elsewhere h projects (prj_RootPath (rj_prj after)) in
  '(_, k, h, after) ← assignIDsAvoiding uuid used k h after;
  match fe_hosts fe with
  | inl e => Some (h, k, inl (StatusInternalServerError, "failed to load hosts: " +:+ e))
  | inr hosts =>
      let h := normalizePipelineRoleHosts hosts h after in
      let validation := validate_all hosts (view h after) req in
      let diff := Diff (view h before) (view h after) in
      let plan := config_plan (fe_now fe) (view h after) req diff validation in
      Some (h, k, inr (mkPreview (cr_Kind req) (plan_TargetSummary plan) diff validation plan after))
  end.

Definition previewConfigChangeRequest (fe : FlowEnv) (st : CState) (req : ChangeRequest) (k : nat)
    : option (heap * nat * (Z * string + PreviewResult)) :=
  '(h, k, resolved) ← resolveConfigChangeProject fe st req k;
  match resolved with
  | inl e => Some (h, k, inl e)
  | inr before =>
      let '(h, merged) := Apply grow (fe_order fe) (fe_roles fe) h before req in
      match merged with
      | Ok after => finish_preview fe (cs_projects st) req before after h k
      | Err ErrUnsupportedOperation => finish_preview fe (cs_projects st) req before before h k
      | Err ErrInvalidChange => Some (h, k, inl (StatusBadRequest, "invalid config change"))
      end
  end.
End Handlers.

(** ** Saving *)

Definition set_format (sv : SaveEnv) (p : RProject) : RProject :=
  let q := rj_prj p in
  mkRProject
    {| prj_ID := prj_ID q; prj_Name := prj_Name q; prj_RootPath := prj_RootPath q;
       prj_ConfigFormat := sv_format sv; prj_ConfigStaleLegacy := sv_stale sv;
       prj_SharedSecretWarnings := sv_warnings sv;
       prj_Variables := prj_Variables q; prj_Environments := prj_Environments q;
       prj_Services := prj_Services q; prj_AINote := prj_AINote q; prj_AuthHint := prj_AuthHint q;
       prj_DebugCredentials := prj_DebugCredentials q;
       prj_HasDebugCredentials := prj_HasDebugCredentials q;
       prj_DebugCredentialHints := prj_DebugCredentialHints q; prj_Pipelines := prj_Pipelines q;
       prj_EnvSelectedServiceIDs := prj_EnvSelectedServiceIDs q;
       prj_HomeHostID := prj_HomeHostID q; prj_HomeHostName := prj_HomeHostName q;
       prj_DataSourceBinding := prj_DataSourceBinding q |}
    (rj_vars p) (rj_envs p) (rj_svcs p) (rj_pipes p).

(** The project replaces the first one with its identifier, or is appended. *)
Definition put_project (p : RProject) (projects : list RProject) : list RProject :=
  upsert (find_index (fun q => prj_ID (rj_prj q) =? prj_ID (rj_prj p)) projects) p projects.

(** The first component is what was written to disk, if anything. *)
Definition saveConfigChangeProject (sv : SaveEnv) (st : CState) (p : RProject)
    : option Project * CState * (string + RProject) :=
  match sv_saved sv with
  | Some e => (None, st, inl e)
  | None =>
      let written := Some (view (cs_heap st) p) in
      let p := set_format sv p in
      match sv_registered sv with
      | Some e => (written, st, inl e)
      | None => (written, mkCState (cs_heap st) (put_project p (cs_projects st)), inr p)
      end
  end.

Inductive config_reply : Type :=
| CError (status : Z) (message : string)
| CForbidden (reply : gate_reply)
| CApplied (preview : PreviewResult) (saved : RProject).

(** [e] and [r] are the inputs of the gate and the headers of the request; [w] is the world of
    the audit record of a failure. *)
Definition applyConfigChange {D : Digest} {U : UnicodeCase} {P : UrlParser}
    (uuid : nat -> string) (grow : nat -> nat) (e : Env) (r : OpRequest) (w : World)
    (fe : FlowEnv) (sv : SaveEnv) (app : App) (st : CState) (req : ChangeRequest) (k : nat)
    : option (App * CState * nat * option Project * config_reply) :=
  '(h, k, preview) ← previewConfigChangeRequest uuid grow fe st req k;
  let st := mkCState h (cs_projects st) in
  match preview with
  | inl (status, message) => Some (app, st, k, None, CError status message)
  | inr preview =>
      match authorizeOperation e app r (pr_Plan preview) with
      | (app, Allowed approval) =>
          let '(written, st, saved) := saveConfigChangeProject sv st (pr_Project preview) in
          match saved with
          | inl message =>
              Some (appendOperationExecutionFailure w app (pr_Plan preview) approval
                      "failed to save config change", st, k, written,
                    CError StatusInternalServerError
                      ("failed to save config change: " +:+ message))
          | inr q => Some (app, st, k, written, CApplied preview q)
          end
      | (app, reply) => Some (app, st, k, None, CForbidden reply)
      end
  end.

(** ** Theorems: what is saved *)

Lemma authorizeOperation_not_denied {D : Digest} e app r plan app' oa :
  authorizeOperation e app r plan = (app', Allowed oa) -> plan_Denied plan = false.
Proof.
  unfold authorizeOperation. intros H.
  destruct (applyApprovalPolicy_shape plan (loadApprovalPolicy (e_settings e) app)) as [Hd _].
  rewrite Hd in H. by destruct (plan_Denied plan).
Qed.

Lemma config_plan_denied {D : Digest} {U : UnicodeCase} now p c d v :
  plan_Denied (config_plan now p c d v) = negb (val_OK v).
Proof. reflexivity. Qed.

(** Every reference of a remote deployment is a host that is registered. *)
Definition hosts_known (hosts : list Host) (p : Project) : Prop :=
  forall svc dep id, svc ∈ prj_Services p -> dep ∈ svc_Deployments svc ->
    dep_Location dep = LocationRemote -> id ∈ default [] (dep_HostIDs dep) ->
    TrimSpace id ∈ knownRemoteHostIDs hosts.

Lemma mbind_nil_inv {A B} (f : A -> list B) l x : l ≫= f = [] -> x ∈ l -> f x = [].
Proof.
  intros H Hx. destruct (f x) as [|y ys] eqn:E; [done|].
  assert (y ∈ l ≫= f) as Hy; [|rewrite H in Hy; by apply elem_of_nil in Hy].
  apply list_elem_of_bind. exists x. rewrite E. by split; [left|].
Qed.

Lemma remoteHostReferenceErrors_nil hosts p :
  remoteHostReferenceErrors p (knownRemoteHostIDs hosts) = [] -> hosts_known hosts p.
Proof.
  intros H svc dep id Hs Hd Hloc Hid. unfold remoteHostReferenceErrors in H.
  pose proof (mbind_nil_inv _ _ svc H Hs) as H1. cbv beta zeta in H1.
  pose proof (mbind_nil_inv _ _ dep H1 Hd) as H2. cbv beta zeta in H2.
  rewrite Hloc, String.eqb_refl in H2. unfold host_errors in H2. cbv zeta in H2.
  pose proof (mbind_nil_inv _ _ id H2 Hid) as H3. cbv beta zeta in H3.
  destruct (_ =? _); [done|]. by destruct (decide (TrimSpace id ∈ knownRemoteHostIDs hosts));
    [|rewrite bool_decide_eq_false_2 in H3].
Qed.

(** What a preview that succeeds has computed. *)
Lemma finish_preview_inr {D : Digest} {U : UnicodeCase} {P : UrlParser} uuid fe projects req before
    after h k h' k' pv :
  finish_preview uuid fe projects req before after h k = Some (h', k', inr pv) ->
  exists hosts, fe_hosts fe = inr hosts /\
    pr_Validation pv = validate_all hosts (view h' (pr_Project pv)) req /\
    pr_Diff pv = Diff (view h' before) (view h' (pr_Project pv)) /\
    pr_Plan pv =
      config_plan (fe_now fe) (view h' (pr_Project pv)) req (pr_Diff pv) (pr_Validation pv).
Proof.
  unfold finish_preview. intros H.
  destruct (assignIDsAvoiding _ _ _ _ _) as [[[[u k1] h1] q]|]; [|done]. simpl in H.
  destruct (fe_hosts fe) as [e|hosts]; [done|]. simplify_eq. by exists hosts.
Qed.

Lemma preview_inr {D : Digest} {U : UnicodeCase} {P : UrlParser} uuid grow fe st req k h' k' pv :
  previewConfigChangeRequest uuid grow fe st req k = Some (h', k', inr pv) ->
  exists before after h1 k1 h2 k2,
    resolveConfigChangeProject uuid fe st req k = Some (h2, k2, inr before) /\
    finish_preview uuid fe (cs_projects st) req before after h1 k1 = Some (h', k', inr pv).
Proof.
  unfold previewConfigChangeRequest. intros H.
  destruct (resolveConfigChangeProject _ _ _ _ _) as [[[h1 k1] [err|before]]|]; [done| |done].
  simpl in H. destruct (Apply grow (fe_order fe) (fe_roles fe) h1 before req) as [h2 [after|[|]]];
    [|done|]; by eexists _, _, _, _, _, _.
Qed.

(** C22: a configuration is written to disk only if the request asks for no deletion, the project
    [q] that is written is well-formed ([project_valid]), and every host that a remote deployment of
    [q] names is registered (the hosts of pipeline roles are not checked).  And the gate let a plan
    through that was not denied and is the plan of [q] itself: made of the request, of the verdict
    of the validation of [q], and of the difference between [q] and the project that the request
    resolves to, as that project reads when the change has been applied ([preview_hides_edits] tells
    what this misses).  The reply shows this plan, this verdict and this difference. *)
Theorem saved_config_validated {D : Digest} {U : UnicodeCase} {P : UrlParser}
    uuid grow e r w fe sv app st req k app' st' k' q reply :
  applyConfigChange uuid grow e r w fe sv app st req k = Some (app', st', k', Some q, reply) ->
  cr_Delete req = false /\ cr_Remove req = false /\ project_valid q /\
  exists hosts h0 k0 before app1 approval,
    fe_hosts fe = inr hosts /\ hosts_known hosts q /\
    resolveConfigChangeProject uuid fe st req k = Some (h0, k0, inr before) /\
    let validation := validate_all hosts q req in
    let diff := Diff (view (cs_heap st') before) q in
    let plan := config_plan (fe_now fe) q req diff validation in
    authorizeOperation e app r plan = (app1, Allowed approval) /\ plan_Denied plan = false /\
    forall preview saved, reply = CApplied preview saved ->
      pr_Plan preview = plan /\ pr_Validation preview = validation /\ pr_Diff preview = diff.
Proof.
  unfold applyConfigChange. intros H.
  destruct (previewConfigChangeRequest _ _ _ _ _ _) as [[[h k1] [[status msg]|pv]]|] eqn:Hpv;
    [done| |done]. simpl in H.
  destruct (authorizeOperation e app r (pr_Plan pv)) as [app1 [approval| |]] eqn:Hgate; [|done..].
  assert (q = view h (pr_Project pv) /\ cs_heap st' = h /\
    forall preview saved, reply = CApplied preview saved -> preview = pv) as (Hq & Hh & Hreply).
  { unfold saveConfigChangeProject in H. destruct (sv_saved sv); [done|].
    destruct (sv_registered sv); simplify_eq/=; split_and!; try done. by intros ? ? [= ->]. }
  rewrite Hh. clear H Hh. pose proof (authorizeOperation_not_denied _ _ _ _ _ _ Hgate) as Hden.
  apply preview_inr in Hpv as (before & after & h1 & k2 & h0 & k0 & Hres & Hfin).
  apply finish_preview_inr in Hfin as (hosts & Hhosts & Hval & Hdiff & Hplan).
  rewrite <-Hq in Hval, Hdiff, Hplan. clear Hq.
  assert (val_OK (pr_Validation pv) = true) as Hok
    by (by rewrite Hplan, config_plan_denied, negb_false_iff in Hden).
  rewrite Hval in Hok. apply Nat.eqb_eq, length_zero_iff_nil, app_eq_nil in Hok as [Hv Hr].
  apply (proj1 (proj2 (Validate_spec _ _))) in Hv as (Hdel & Hrem & Hvalid).
  split_and!; [done..|]. exists hosts, h0, k0, before, app1, approval. cbv zeta.
  rewrite <-Hval, <-Hdiff, <-Hplan.
  split_and!; [done|by apply remoteHostReferenceErrors_nil|done..|].
  intros preview saved ->%Hreply. by split_and!.
Qed.

(** ** Theorems: what a preview does to the live configuration *)

(** Two projects on the same slices. *)
Definition same_slices (p q : RProject) : Prop :=
  prj_Name (rj_prj q) = prj_Name (rj_prj p) /\ rj_vars q = rj_vars p /\ rj_envs q = rj_envs p /\
  rj_svcs q = rj_svcs p /\ rj_pipes q = rj_pipes p.

Lemma same_slices_ok h p q : same_slices p q -> project_ok h p -> project_ok h q.
Proof. intros (_ & Hv & He & Hs & Hp) []. by split; rewrite ?Hv, ?He, ?Hs, ?Hp. Qed.

Lemma same_slices_Diff {U : UnicodeCase} h p q :
  same_slices p q -> distinct_keys (view h p) -> Diff (view h p) (view h q) = [].
Proof.
  intros (Hn & Hv & He & Hs & Hp) Hk. etransitivity; [|exact (Diff_same _ Hk)].
  unfold Diff, view. simpl. by rewrite Hn, Hv, He, Hs, Hp.
Qed.

Lemma assignIDsAvoiding_slices uuid used k h p used' k' h' q :
  assignIDsAvoiding uuid used k h p = Some (used', k', h', q) -> same_slices p q.
Proof.
  unfold assignIDsAvoiding. intros H.
  destruct (assign_id _ _ _ _) as [[id k1]|]; [|done]. simpl in H.
  destruct (assign_services_heap _ _ _ _ _ _) as [[[[m u] k2] out]|]; [|done]. by simplify_eq/=.
Qed.

(** Host names are resolved in the maps of roles only. *)
Lemma normalizePipelineRoleHosts_frame hosts h p :
  normalizePipelineRoleHosts hosts h p =
    set_h_roles (h_roles (normalizePipelineRoleHosts hosts h p)) h.
Proof.
  unfold normalizePipelineRoleHosts. generalize (elems (h_pipes h) (rj_pipes p)). intros l.
  revert h. induction l as [|pl l IH]; intros h; [by destruct h|]. simpl. by rewrite IH.
Qed.

Lemma normalize_all_deployments hosts h p q :
  all_deployments (view (normalizePipelineRoleHosts hosts h p) q) = all_deployments (view h q).
Proof. by rewrite normalizePipelineRoleHosts_frame. Qed.

(** A preview of an update of a live service or pipeline is not a preview: after it, the
    project in the agent's list has the deployments of the merged project, although nothing
    was validated, approved or saved, and the difference that the preview reports is empty
    because the project "before" is read through the same slices. *)
Theorem preview_hides_edits {D : Digest} {U : UnicodeCase} {P : UrlParser} uuid grow fe st req k
    p h' k' pv :
  (forall j, uuid j <> "") ->
  heap_ok (cs_heap st) -> project_ok (cs_heap st) p ->
  find_project req (cs_projects st) = Some p -> updates_existing (view (cs_heap st) p) req ->
  previewConfigChangeRequest uuid grow fe st req k = Some (h', k', inr pv) ->
  (exists merged,
     apply_change (fe_order fe) (view (cs_heap st) p)
       (view_change (cs_heap st) (fe_roles fe) req) = Ok merged /\
     renamed (all_deployments merged) (all_deployments (view h' p))) /\
  (distinct_keys (view h' p) -> pr_Diff pv = []).
Proof.
  intros Huuid Hh Hp Hfind Hup H. unfold previewConfigChangeRequest, resolveConfigChangeProject in H.
  rewrite Hfind in H. simpl in H.
  pose proof (Apply_spec grow (fe_order fe) (fe_roles fe) _ p req Hh Hp) as Hspec.
  destruct (Apply_edits_the_original grow (fe_order fe) (fe_roles fe) _ p req Hh Hp Hup)
    as (h1 & E & Hmerged). rewrite E in H, Hspec. simpl in H.
  destruct Hspec as (_ & Hh1 & Hp1). specialize (Hp1 p eq_refl).
  unfold finish_preview in H.
  set (p1 := if _ =? _ then _ else _) in H.
  assert (same_slices p p1) as Hsl by (subst p1; by destruct (_ =? _)).
  pose proof (same_slices_ok _ _ _ Hsl Hp1) as Hok1.
  destruct (assignIDsAvoiding uuid _ k h1 p1) as [[[[u k2] h2] q]|] eqn:Ea; [|done]. simpl in H.
  pose proof (assignIDsAvoiding_slices _ _ _ _ _ _ _ _ _ Ea) as Hsl2.
  pose proof (assignIDsAvoiding_spec uuid (used_elsewhere h1 (cs_projects st) (prj_RootPath (rj_prj p1)))
    k h1 p1 Hh1 Hok1) as Hids.
  rewrite Ea in Hids. destruct Hids as (Hids & _).
  apply (assign_ids_spec uuid Huuid) in Hids as (_ & _ & _ & Hren & _).
  destruct (fe_hosts fe) as [err|hosts]; [done|]. simplify_eq.
  split.
  - exists (view h1 p). split; [done|]. rewrite normalize_all_deployments.
    destruct Hsl as (_ & _ & _ & E1 & _), Hsl2 as (_ & _ & _ & E2 & _).
    revert Hren. unfold all_deployments, view. simpl. by rewrite E2, E1.
  - intros Hk. apply same_slices_Diff; [|done]. revert Hsl Hsl2. unfold same_slices. clear.
    intuition congruence.
Qed.

(** ** Theorems: every request is answered *)

Lemma skeleton_ok {D : Digest} h root : heap_ok h -> project_ok h (skeleton root).
Proof.
  intros Hh. assert (forall A (m : arrays A), slice_at m (h_next h) nil_slice) as Hnil
    by (split; [unfold slice_ok; simpl; lia|apply Hh]).
  by split; try apply Hnil; try by constructor.
Qed.

Lemma find_project_elem req projects p : find_project req projects = Some p -> p ∈ projects.
Proof. intros [H _]%List.find_some. by apply list_elem_of_In. Qed.

(** What the loader reads is well-formed. *)
Definition load_ok (h : heap) (o : load_outcome) : Prop :=
  forall alloc, o = Loaded alloc -> heap_ok (alloc h).1 /\ project_ok (alloc h).1 (alloc h).2.

(** The project a request is about, if there is one, is well-formed. *)
Lemma resolve_total {D : Digest} uuid `{!Inj (=) (=) uuid} fe st req k :
  heap_ok (cs_heap st) -> Forall (project_ok (cs_heap st)) (cs_projects st) ->
  load_ok (cs_heap st) (fe_load fe) ->
  exists h k' r, resolveConfigChangeProject uuid fe st req k = Some (h, k', r) /\
    heap_ok h /\ (forall p, r = inr p -> project_ok h p).
Proof.
  intros Hh Hps Hload. unfold resolveConfigChangeProject.
  destruct (find_project req (cs_projects st)) as [p|] eqn:Hf.
  { apply find_project_elem in Hf. rewrite Forall_forall in Hps.
    eexists _, _, _. split; [done|]. split; [done|]. intros q [= <-]. by apply Hps. }
  destruct (_ || _); [by eexists _, _, _|].
  assert (forall h p used, heap_ok h -> project_ok h p -> exists h1 k' r,
    ('(_, k, h, p) ← assignIDsAvoiding uuid used k h p; Some (h, k, inr (A := Z * string) p)) =
      Some (h1, k', r) /\ heap_ok h1 /\ (forall p, r = inr p -> project_ok h1 p)) as Hassign.
  { intros h p used Hh1 Hp1. pose proof (assignIDsAvoiding_spec uuid used k h p Hh1 Hp1) as H.
    destruct (assignIDsAvoiding uuid used k h p) as [[[[u k1] h1] q]|].
    - destruct H as (_ & Hh2 & Hq & _). eexists _, _, _. split; [done|]. split; [done|].
      by intros ? [= <-].
    - destruct (assign_ids_total uuid used k (view h p)). congruence. }
  destruct (fe_load fe) as [|message|alloc] eqn:Hl; [|by eexists _, _, _|].
  - apply Hassign; [done|by apply skeleton_ok].
  - destruct (Hload alloc eq_refl) as [H1 H2]. destruct (alloc (cs_heap st)) as [h p].
    by apply Hassign.
Qed.

Lemma Apply_Err {D : Digest} {U : UnicodeCase} grow order roles h p req h' e :
  Apply grow order roles h p req = (h', Err e) -> h' = h.
Proof.
  unfold Apply. destruct (_ || _); [by intros [= <- _]|].
  repeat (destruct (_ =? _); [by destruct (_ : heap * RProject)|]). by intros [= <- _].
Qed.

(** Every preview ends with a reply: the loops that draw identifiers terminate, whatever
    the request asks for and whatever the loader and the host list answer, on any well-formed
    heap, if the generator of identifiers does not repeat itself. *)
Theorem previewConfigChangeRequest_terminates {D : Digest} {U : UnicodeCase} {P : UrlParser}
    uuid `{!Inj (=) (=) uuid} grow fe st req k :
  heap_ok (cs_heap st) -> Forall (project_ok (cs_heap st)) (cs_projects st) ->
  load_ok (cs_heap st) (fe_load fe) ->
  is_Some (previewConfigChangeRequest uuid grow fe st req k).
Proof.
  intros Hh Hps Hload. unfold previewConfigChangeRequest.
  destruct (resolve_total uuid fe st req k Hh Hps Hload) as (h & k1 & r & -> & Hh1 & Hr). simpl.
  destruct r as [err|p]; [by eexists|]. specialize (Hr p eq_refl).
  assert (forall q h2, heap_ok h2 -> project_ok h2 q ->
    is_Some (finish_preview uuid fe (cs_projects st) req p q h2 k1)) as Hfinish.
  { intros q h2 Hh2 Hq. unfold finish_preview. set (q1 := if _ =? _ then _ else _).
    assert (project_ok h2 q1) as Hq1
      by (apply (same_slices_ok h2 q); [subst q1; by destruct (_ =? _)|done]).
    pose proof (assignIDsAvoiding_spec uuid (used_elsewhere h2 (cs_projects st) (prj_RootPath (rj_prj q1)))
      k1 h2 q1 Hh2 Hq1) as H.
    destruct (assignIDsAvoiding uuid _ k1 h2 q1) as [[[[u k2] h3] q2]|]; simpl;
      [destruct (fe_hosts fe); by eexists|].
    destruct (assign_ids_total uuid (used_elsewhere h2 (cs_projects st) (prj_RootPath (rj_prj q1))) k1
      (view h2 q1)). congruence. }
  pose proof (Apply_spec grow (fe_order fe) (fe_roles fe) h p req Hh1 Hr) as Hspec.
  pose proof (Apply_Err grow (fe_order fe) (fe_roles fe) h p req) as Herr.
  destruct (Apply grow (fe_order fe) (fe_roles fe) h p req) as [h2 [q|[|]]]; [|by eexists|];
    destruct Hspec as (_ & Hh2 & Hq).
  - apply Hfinish; [done|by apply Hq].
  - rewrite (Herr h2 _ eq_refl) in *. by apply Hfinish.
Qed.

(** ** Examples *)

Section Examples.
Local Instance flow_digest : Digest := identity_digest.
Local Instance flow_case : UnicodeCase := ascii_case.
Local Instance flow_urls : UrlParser := {| url_parse := fun _ => None |}.

Definition flow_env (load : load_outcome) : FlowEnv :=
  mkFlowEnv load (inr []) 7 [] 0.
Definition save_env : SaveEnv := mkSaveEnv None "split" false [] None.

(** One project without services, and one with the service of [example_heap]. *)
Definition bare_project : RProject :=
  mkRProject (example_project [] []) None nil_slice nil_slice nil_slice.
Definition bare_state : CState := mkCState example_heap [bare_project].
Definition service_state : CState := mkCState example_heap [example_RProject].

Definition project_change (root id name : string) (envs : list Environment) : ChangeRequest :=
  {| cr_Kind := KindProjectUpsert; cr_ProjectID := id; cr_ProjectName := ""; cr_RootPath := root;
     cr_ApprovalToken := ""; cr_DebugSessionID := "";
     cr_Project := Some (mkProjectPatch name ∅ envs); cr_Service := None; cr_Pipeline := None;
     cr_Delete := false; cr_Remove := false |}.

(** A gate with a grace window for the project. *)
Definition grace_app : App :=
  mkApp (mkApprovalFileStore 10 Missing) (mkAuditFileStore 100 Missing)
    (Content [{| gr_ProjectID := "p1"; gr_GrantedBy := "me"; gr_GrantedFrom := "a1";
                 gr_CreatedAt := 0; gr_ExpiresAt := 100 |}])
    Missing None.

Lemma saved_config_validated_witness :
  exists app' st' k' q reply,
    applyConfigChange example_uuid (fun n => n) (gate_env (gate_world 5)) (gate_request "")
      (gate_world 5) (flow_env LoadNotFound) save_env grace_app bare_state
      (project_change "" "p1" "store" [example_environment "" "dev" true]) 0
      = Some (app', st', k', Some q, reply) /\
    prj_Name q = "store" /\ project_valid q.
Proof.
  eexists _, _, _, _, _. split; [vm_compute; reflexivity|]. split; [reflexivity|].
  edestruct (saved_config_validated example_uuid (fun n => n) (gate_env (gate_world 5))
    (gate_request "") (gate_world 5) (flow_env LoadNotFound) save_env grace_app bare_state
    (project_change "" "p1" "store" [example_environment "" "dev" true]) 0)
    as (_ & _ & H & _); [vm_compute; reflexivity|exact H].
Defined.

Lemma preview_hides_edits_witness :
  let req := service_change "web" [set_patch_ports (Some [8080%Z]) (empty_patch "d1")] in
  exists h' k' pv,
    previewConfigChangeRequest example_uuid (fun n => n) (flow_env LoadNotFound) service_state req 0
      = Some (h', k', inr pv) /\
    ports_of (view example_heap example_RProject) = [[None]] /\
    ports_of (view h' example_RProject) = [[Some [8080%Z]]] /\ pr_Diff pv = [].
Proof.
  cbv zeta. eexists _, _, _. split; [vm_compute; reflexivity|].
  do 2 (split; [vm_compute; reflexivity|]).
  edestruct (preview_hides_edits example_uuid (fun n => n) (flow_env LoadNotFound) service_state
    (service_change "web" [set_patch_ports (Some [8080%Z]) (empty_patch "d1")]) 0 example_RProject)
    as [_ H]; [exact example_uuid_nonempty|exact example_heap_ok|exact example_project_ok|
    reflexivity| |vm_compute; reflexivity|].
  - split; [reflexivity|]. left. split; [reflexivity|]. eexists. split; [reflexivity|].
    vm_compute. discriminate.
  - apply H. split; apply (bool_decide_unpack _); vm_compute; exact I.
Defined.

Lemma previewConfigChangeRequest_terminates_witness :
  is_Some (previewConfigChangeRequest example_uuid (fun n => n) (flow_env LoadNotFound)
    service_state (service_change "api" []) 0).
Proof.
  apply (previewConfigChangeRequest_terminates example_uuid (fun n => n) (flow_env LoadNotFound)
    service_state (service_change "api" []) 0 example_heap_ok); [|by intros ?].
  constructor; [exact example_project_ok|constructor].
Defined.

(** A directory that was copied brings the identifier of the original project.  Each request
    about it draws a new one, so that the plan that is approved and the plan of the request
    that brings the token never have the same fingerprint: the change cannot be applied. *)
Definition copied_load : load_outcome :=
  Loaded (fun h => (h, set_root "/srv/copy" bare_project)).

Theorem copied_project_unapprovable :
  let preview := previewConfigChangeRequest example_uuid (fun n => n) (flow_env copied_load) in
  let req := project_change "/srv/copy" "" "store" [example_environment "" "dev" true] in
  match preview bare_state req 0 with
  | Some (h1, k1, inr pv1) =>
      match preview (mkCState h1 [bare_project]) req k1 with
      | Some (_, _, inr pv2) =>
          plan_RequiresApproval (pr_Plan pv1) = true /\
          plan_Fingerprint (pr_Plan pv1) <> plan_Fingerprint (pr_Plan pv2)
      | _ => False
      end
  | _ => False
  end.
Proof. vm_compute. split; [done|]. intros H. discriminate H. Qed.
End Examples.
