(* ===== verification/LocalConfig.v ===== *)
(** * The files of a project's configuration (config/loader.go, config/localfile.go, config/paths.go)

    A project is stored in two files: [project.yaml], which is committed and shared, and
    [local.yaml], which stays on the machine and is the only copy of the values it holds,
    secrets among them.  [mergeLocal] lays the second over the first when a project is loaded;
    [splitOwnership] takes a merged project apart again when it is saved.

    What YAML does to a document is what the tags of the documents say: an empty map, list or
    string of an [omitempty] field is not written and is missing when it is read, and the fields
    that only the running system has are not in the file.  The text of the files is not
    modelled. *)
From stdpp Require Import base strings gmap list.
From Stdlib Require Import ZArith Lia.
From S2P Require Import Prelude Model Paths ConfigChange.
Local Open Scope string_scope.

(** ** Paths (config/paths.go, config/loader.go) *)

Definition RelativizePath (path root : string) : string :=
  if path =? "" then ""
  else if negb (IsAbs path) then Clean path
  else match Rel root path with
       | None => path
       | Some rel => if (rel =? "..") || String.prefix "../" rel then path else rel
       end.

Definition resolveWorkDir (workingDir rootPath : string) : string :=
  if negb (workingDir =? "") && negb (IsAbs workingDir) then Join rootPath workingDir
  else workingDir.

(** ** local.yaml *)

(** The overrides of one deployment; an absent list or map and an empty one are the same
    document. *)
Record depOverrideYAML : Type := mkOverride {
  ov_WorkingDir : string;
  ov_EnvFile : string;
  ov_Hosts : list string;
  ov_EnvVars : gmap string string;
}.

Record localYAML : Type := mkLocal {
  lf_Variables : gmap string string;
  lf_Deployments : gmap string depOverrideYAML;
}.

Definition isEmpty (lf : localYAML) : bool :=
  bool_decide (lf_Variables lf = ∅) && (size (lf_Deployments lf) =? 0)%nat.

Definition overrideKey (svc : Service) (envName : string) : string :=
  (if svc_ID svc =? "" then svc_Name svc else svc_ID svc) +:+ "/" +:+ envName.

(** ** The three carriers of environment variables *)

(** A nil map reads as an empty one. *)
Definition kv (m : option (gmap string string)) : gmap string string := default ∅ m.

Definition deploymentEnvView (dep : Deployment) : gmap string string :=
  match dep_Runtime dep with
  | None => kv (dep_Env dep)
  | Some rt => kv (EffectiveEnv rt) ∪ (kv (rc_EnvVars rt) ∪ kv (dep_Env dep))
  end.

Definition stripEnvKeys (m : option (gmap string string)) (owned : gmap string string)
    : option (gmap string string) := (fun m => m ∖ owned) <$> m.

Definition stripRuntimeEnvKeys (rt : option RuntimeConfig) (owned : gmap string string)
    : option RuntimeConfig :=
  (fun rt => set_runtime_env (stripEnvKeys (rc_EnvVars rt) owned)
               (stripEnvKeys (rc_Env rt) owned) rt) <$> rt.

(** ** Loading *)

(** Keys are added to a map, which is made if it is nil and there is something to add. *)
Definition add_vars (vars : gmap string string) (m : option (gmap string string))
    : option (gmap string string) :=
  if (size vars =? 0)%nat then m else Some (vars ∪ kv m).

Definition mergeRuntimeEnv (env : gmap string string) (rt : RuntimeConfig) : RuntimeConfig :=
  if (size env =? 0)%nat then rt
  else match rc_Env rt with
       | Some e => set_runtime_env (rc_EnvVars rt) (Some (env ∪ e)) rt
       | None => set_runtime_env (Some (env ∪ kv (rc_EnvVars rt))) None rt
       end.

Definition set_machine (workDir envFile : string) (hosts : option (list string))
    (env : option (gmap string string)) (rt : option RuntimeConfig) (d : Deployment)
    : Deployment :=
  {| dep_ID := dep_ID d; dep_EnvName := dep_EnvName d; dep_Location := dep_Location d;
     dep_ControlMode := dep_ControlMode d; dep_Runtime := rt; dep_Logs := dep_Logs d;
     dep_Web := dep_Web d; dep_Ports := dep_Ports d; dep_CodeDebug := dep_CodeDebug d;
     dep_StartOnBoot := dep_StartOnBoot d; dep_DependsOn := dep_DependsOn d;
     dep_Readiness := dep_Readiness d; dep_Command := dep_Command d; dep_WorkDir := workDir;
     dep_EnvFile := envFile; dep_Env := env; dep_HostIDs := hosts; dep_LogType := dep_LogType d;
     dep_LogTarget := dep_LogTarget d; dep_ExtraArgs := dep_ExtraArgs d;
     dep_ReadOnly := dep_ReadOnly d; dep_StartCommand := dep_StartCommand d;
     dep_StopCommand := dep_StopCommand d; dep_Status := dep_Status d; dep_PID := dep_PID d |}.

(** The overrides laid over a deployment.  When the loader has given the deployment the map of its
    runtime ([shares]), what is added to the one is in the other. *)
Definition merge_override (root : string) (shares : bool) (o : depOverrideYAML) (dep : Deployment)
    : Deployment :=
  let env := ov_EnvVars o in
  let share rt := if shares then set_runtime_env (add_vars env (rc_EnvVars rt)) (rc_Env rt) rt else rt in
  set_machine
    (if ov_WorkingDir o =? "" then dep_WorkDir dep else resolveWorkDir (ov_WorkingDir o) root)
    (if ov_EnvFile o =? "" then dep_EnvFile dep else resolveWorkDir (ov_EnvFile o) root)
    (if (length (ov_Hosts o) =? 0)%nat then dep_HostIDs dep else Some (ov_Hosts o))
    (add_vars env (dep_Env dep))
    ((fun rt => mergeRuntimeEnv env (share rt)) <$> dep_Runtime dep) dep.

Definition merge_deployment (root : string) (lf : localYAML) (svc : Service) (shares : bool)
    (dep : Deployment) : Deployment :=
  match lf_Deployments lf !! overrideKey svc (dep_EnvName dep) with
  | None => dep
  | Some o => merge_override root shares o dep
  end.

Definition merge_service (root : string) (lf : localYAML) (shares : nat -> bool) (svc : Service)
    : Service :=
  set_deployments (imap (fun di => merge_deployment root lf svc (shares di)) (svc_Deployments svc)) svc.

Definition set_vars (vars : option (gmap string string)) (p : Project) : Project :=
  with_project (prj_Name p) vars (prj_Environments p) (prj_Services p) (prj_Pipelines p) p.

(** [shares] says of the deployment at a place whether it has the map of its runtime. *)
Definition mergeLocal (shares : nat -> nat -> bool) (p : Project) (lf : localYAML) : Project :=
  set_services (imap (fun si => merge_service (prj_RootPath p) lf (shares si)) (prj_Services p))
    (set_vars (add_vars (lf_Variables lf) (prj_Variables p)) p).

(** ** Saving *)

(** What the machine layer keeps of a deployment it has an override for. *)
Definition new_override (root : string) (o : depOverrideYAML) (dep : Deployment)
    : depOverrideYAML :=
  {| ov_WorkingDir := if ov_WorkingDir o =? "" then "" else RelativizePath (dep_WorkDir dep) root;
     ov_EnvFile := if ov_EnvFile o =? "" then "" else RelativizePath (dep_EnvFile dep) root;
     ov_Hosts := if (length (ov_Hosts o) =? 0)%nat then [] else default [] (dep_HostIDs dep);
     ov_EnvVars := filter (fun kv => is_Some (ov_EnvVars o !! kv.1)) (deploymentEnvView dep) |}.

(** What the shared layer keeps of it. *)
Definition shared_deployment (o : depOverrideYAML) (dep : Deployment) : Deployment :=
  let owned := ov_EnvVars o in
  set_machine
    (if ov_WorkingDir o =? "" then dep_WorkDir dep else "")
    (if ov_EnvFile o =? "" then dep_EnvFile dep else "")
    (if (length (ov_Hosts o) =? 0)%nat then dep_HostIDs dep else None)
    (if (size owned =? 0)%nat then dep_Env dep else stripEnvKeys (dep_Env dep) owned)
    (if (size owned =? 0)%nat then dep_Runtime dep else stripRuntimeEnvKeys (dep_Runtime dep) owned)
    dep.

Definition override_empty (o : depOverrideYAML) : bool :=
  (ov_WorkingDir o =? "") && (ov_EnvFile o =? "") && (length (ov_Hosts o) =? 0)%nat &&
  (size (ov_EnvVars o) =? 0)%nat.

Definition split_deployment (lf : localYAML) (svc : Service) (dep : Deployment) : Deployment :=
  match lf_Deployments lf !! overrideKey svc (dep_EnvName dep) with
  | None => dep
  | Some o => shared_deployment o dep
  end.

Definition split_service (lf : localYAML) (svc : Service) : Service :=
  set_deployments (split_deployment lf svc <$> svc_Deployments svc) svc.

(** The deployments with their keys, in the order of the loops. *)
Definition keyed_deployments (p : Project) : list (string * Deployment) :=
  prj_Services p ≫= fun svc =>
    (fun dep => (overrideKey svc (dep_EnvName dep), dep)) <$> svc_Deployments svc.

(** One turn of the loop on the new overrides: a later deployment of the same key wins. *)
Definition put_override (root : string) (lf : localYAML) (m : gmap string depOverrideYAML)
    (kd : string * Deployment) : gmap string depOverrideYAML :=
  match lf_Deployments lf !! kd.1 with
  | None => m
  | Some o =>
      let o' := new_override root o kd.2 in
      if override_empty o' then m else <[kd.1 := o']> m
  end.

(** Overrides that no deployment matches are carried over. *)
Definition carryOverOrphans (lf : localYAML) (p : Project) (m : gmap string depOverrideYAML)
    : gmap string depOverrideYAML :=
  filter (fun kv => kv.1 ∉ (keyed_deployments p).*1) (lf_Deployments lf) ∪ m.

Definition splitOwnership (p : Project) (lf : localYAML) : Project * localYAML :=
  let root := prj_RootPath p in
  let shared :=
    if (size (lf_Variables lf) =? 0)%nat then p
    else set_vars (Some (kv (prj_Variables p) ∖ lf_Variables lf)) p in
  let variables :=
    if (size (lf_Variables lf) =? 0)%nat then ∅
    else filter (fun kv => is_Some (lf_Variables lf !! kv.1)) (kv (prj_Variables p)) in
  if (size (lf_Deployments lf) =? 0)%nat then (shared, mkLocal variables ∅)
  else
    (set_services (split_service lf <$> prj_Services p) shared,
     mkLocal variables
       (carryOverOrphans lf p (foldl (put_override root lf) ∅ (keyed_deployments p)))).

(** ** The main file (config/loader.go)

    A document is a project with what the file holds: relative paths, no empty map or list
    ([omitempty]) and no field of the running system. *)

Definition yaml_map (m : option (gmap string string)) : option (gmap string string) :=
  m ≫= fun m => if (size m =? 0)%nat then None else Some m.
Definition yaml_list {A} (l : option (list A)) : option (list A) :=
  l ≫= fun l => match l with [] => None | _ => Some l end.

Definition set_runtime_paths (f : string -> string) (rt : RuntimeConfig) : RuntimeConfig :=
  {| rc_Type := rc_Type rt; rc_Command := rc_Command rt; rc_Executable := rc_Executable rt;
     rc_Args := rc_Args rt; rc_WorkingDir := f (rc_WorkingDir rt); rc_EnvFile := f (rc_EnvFile rt);
     rc_EnvVars := rc_EnvVars rt; rc_CWD := f (rc_CWD rt); rc_Env := rc_Env rt;
     rc_Config := rc_Config rt; rc_ServiceName := rc_ServiceName rt; rc_ReleaseDir := rc_ReleaseDir rt;
     rc_CurrentDir := rc_CurrentDir rt; rc_ExecStart := rc_ExecStart rt; rc_Label := rc_Label rt;
     rc_PlistPath := rc_PlistPath rt; rc_Container := rc_Container rt; rc_Domain := rc_Domain rt |}.

Definition relativizeRuntime (root : string) (rt : RuntimeConfig) : RuntimeConfig :=
  set_runtime_paths (fun p => RelativizePath p root) rt.
Definition yaml_runtime (rt : RuntimeConfig) : RuntimeConfig :=
  set_runtime_env (yaml_map (rc_EnvVars rt)) (yaml_map (rc_Env rt)) rt.

(** One element of [deploymentsToYAML], written to the file. *)
Definition deploymentToYAML (root : string) (d : Deployment) : Deployment :=
  {| dep_ID := dep_ID d; dep_EnvName := dep_EnvName d;
     dep_Location := if dep_Location d =? LocationRemote then "remote" else "local";
     dep_ControlMode := dep_ControlMode d;
     dep_Runtime := (fun rt => yaml_runtime (relativizeRuntime root rt)) <$> dep_Runtime d;
     dep_Logs := dep_Logs d; dep_Web := dep_Web d; dep_Ports := yaml_list (dep_Ports d);
     dep_CodeDebug := dep_CodeDebug d; dep_StartOnBoot := dep_StartOnBoot d;
     dep_DependsOn := dep_DependsOn d; dep_Readiness := dep_Readiness d; dep_Command := dep_Command d;
     dep_WorkDir := RelativizePath (dep_WorkDir d) root; dep_EnvFile := RelativizePath (dep_EnvFile d) root;
     dep_Env := yaml_map (dep_Env d); dep_HostIDs := yaml_list (dep_HostIDs d);
     dep_LogType := dep_LogType d; dep_LogTarget := dep_LogTarget d;
     dep_ExtraArgs := yaml_list (dep_ExtraArgs d); dep_ReadOnly := dep_ReadOnly d;
     dep_StartCommand := dep_StartCommand d; dep_StopCommand := dep_StopCommand d;
     dep_Status := ""; dep_PID := 0 |}.

(** A field that is not given is taken from the runtime or the logs, if there are any. *)
Definition or_from {A} (x : string) (f : A -> string) (o : option A) : string :=
  if x =? "" then match o with Some y => f y | None => x end else x.

(** One turn of the loop of [deploymentsFromYAML]. *)
Definition deploymentFromYAML (root : string) (d : Deployment) : Deployment :=
  let rt := set_runtime_paths (fun p => resolveWorkDir p root) <$> dep_Runtime d in
  {| dep_ID := dep_ID d; dep_EnvName := dep_EnvName d;
     dep_Location := if dep_Location d =? "remote" then LocationRemote else LocationLocal;
     dep_ControlMode := dep_ControlMode d; dep_Runtime := rt; dep_Logs := dep_Logs d;
     dep_Web := dep_Web d; dep_Ports := dep_Ports d; dep_CodeDebug := dep_CodeDebug d;
     dep_StartOnBoot := dep_StartOnBoot d; dep_DependsOn := dep_DependsOn d;
     dep_Readiness := dep_Readiness d; dep_Command := or_from (dep_Command d) rc_Command rt;
     dep_WorkDir := or_from (resolveWorkDir (dep_WorkDir d) root)
                      (fun rt => resolveWorkDir (rc_WorkingDir rt) root) rt;
     dep_EnvFile := or_from (resolveWorkDir (dep_EnvFile d) root)
                      (fun rt => resolveWorkDir (rc_EnvFile rt) root) rt;
     dep_Env := match dep_Env d, rt with None, Some rt => rc_EnvVars rt | m, _ => m end;
     dep_HostIDs := dep_HostIDs d;
     dep_LogType := or_from (dep_LogType d) lc_Type (dep_Logs d);
     dep_LogTarget := or_from (dep_LogTarget d) lc_Target (dep_Logs d);
     dep_ExtraArgs := match dep_ExtraArgs d, dep_Logs d with
                      | None, Some l => yaml_list (Some (lc_ExtraArgs l))
                      | a, _ => a
                      end;
     dep_ReadOnly := dep_ReadOnly d; dep_StartCommand := dep_StartCommand d;
     dep_StopCommand := dep_StopCommand d; dep_Status := ""; dep_PID := 0 |}.

(** The deployment gets the map of its runtime, not a copy. *)
Definition shares_env (d : Deployment) : bool :=
  match dep_Env d, dep_Runtime d with
  | None, Some rt => match rc_EnvVars rt with Some _ => true | None => false end
  | _, _ => false
  end.

(** One element of [servicesToYAML], and [serviceFromYAML]. *)
Definition map_service (f : Deployment -> Deployment) (s : Service) : Service :=
  {| svc_ID := svc_ID s; svc_ProjectID := ""; svc_Name := svc_Name s; svc_Required := svc_Required s;
     svc_Order := svc_Order s; svc_AINote := svc_AINote s; svc_AuthHint := svc_AuthHint s;
     svc_Language := svc_Language s; svc_Deployments := f <$> svc_Deployments s;
     svc_DebugCredentials := svc_DebugCredentials s; svc_HasDebugCredentials := false;
     svc_DebugCredentialHints := []; svc_Status := ""; svc_PID := 0 |}.
Definition serviceToYAML (root : string) : Service -> Service := map_service (deploymentToYAML root).
Definition serviceFromYAML (root : string) : Service -> Service := map_service (deploymentFromYAML root).

(** [buildRawConfig] for the split format, written to [project.yaml]. *)
Definition buildRawConfig (p : Project) (root : string) : Project :=
  set_services (serviceToYAML root <$> prj_Services p) (set_vars (yaml_map (prj_Variables p)) p).

(** [readMainConfig]: fields that are not in the file are empty. *)
Definition readMainConfig (root : string) (doc : Project) : Project :=
  {| prj_ID := prj_ID doc; prj_Name := prj_Name doc; prj_RootPath := root; prj_ConfigFormat := "";
     prj_ConfigStaleLegacy := false; prj_SharedSecretWarnings := [];
     prj_Variables := prj_Variables doc; prj_Environments := prj_Environments doc;
     prj_Services := serviceFromYAML root <$> prj_Services doc; prj_AINote := prj_AINote doc;
     prj_AuthHint := prj_AuthHint doc; prj_DebugCredentials := prj_DebugCredentials doc;
     prj_HasDebugCredentials := false; prj_DebugCredentialHints := [];
     prj_Pipelines := prj_Pipelines doc; prj_EnvSelectedServiceIDs := ∅; prj_HomeHostID := "";
     prj_HomeHostName := ""; prj_DataSourceBinding := prj_DataSourceBinding doc |}.

Definition shared_maps (doc : Project) (si di : nat) : bool :=
  match prj_Services doc !! si ≫= fun svc => svc_Deployments svc !! di with
  | Some d => shares_env d
  | None => false
  end.

(** [saveSplitProject]: the two documents that are written, from the machine layer on the disk.
    [None] is a local file that is removed. *)
Definition saveSplitProject (p : Project) (root : string) (lf : localYAML)
    : Project * option localYAML :=
  let '(shared, updated) := splitOwnership p lf in
  (buildRawConfig shared root, if isEmpty updated then None else Some updated).

Definition no_local : localYAML := mkLocal ∅ ∅.

(** [Load] of the split format, as far as the two files decide: the marks of the format, the scan
    for secrets and the detection of the language of a service that has none are left out. *)
Definition load_split (root : string) (doc : Project) (lf : option localYAML) : Project :=
  mergeLocal (shared_maps doc) (readMainConfig root doc) (default no_local lf).

(** ** Paths survive *)

(** Two texts of one path. *)
Definition same_path (a b : string) : Prop := a = b \/ (a <> "" /\ b <> "" /\ Clean a = Clean b).

Lemma foldl_good rooted names out :
  Forall good names -> rev (foldl (clean_element rooted) out names) = (rev out ++ names)%list.
Proof.
  intros H. revert out. induction H as [|e names (H1 & H2 & H3 & _) _ IH]; intros out; simpl;
    [by rewrite app_nil_r|].
  unfold clean_element at 2. apply String.eqb_neq in H1 as ->, H2 as ->, H3 as ->. simpl.
  rewrite IH. simpl. by rewrite <-app_assoc.
Qed.

Lemma cleaned_rooted l : cleaned true l -> Forall good l.
Proof. intros (n & names & -> & Hg & Hn). by rewrite (Hn eq_refl). Qed.

(** A path that starts at the root of the file system is found again. *)
Lemma resolve_relativize root w :
  IsAbs root = true -> IsAbs w = true -> same_path (resolveWorkDir (RelativizePath w root) root) w.
Proof.
  intros Hroot Hw. assert (w <> "") as Hne by (by intros ->).
  assert (resolveWorkDir w root = w) as Hkeep by (unfold resolveWorkDir; by rewrite Hw, andb_false_r).
  assert (Hroot_ne : root =? "" = false) by (by destruct root).
  unfold RelativizePath. apply String.eqb_neq in Hne as Hne'. rewrite Hne', Hw. simpl.
  unfold Rel. destruct (String.eqb_spec (Clean root) (Clean w)) as [Heq|Hneq].
  { right. change (resolveWorkDir _ root) with (Join root "."). unfold Join. rewrite Hroot_ne.
    split_and!; [apply Clean_nonempty|done|]. rewrite Clean_Clean, <-Heq. unfold Clean at 1.
    rewrite IsAbs_app by (by apply String.eqb_neq). unfold elements.
    rewrite split_slash_app, foldl_app. by rewrite IsAbs_app by (by apply String.eqb_neq). }
  rewrite Hroot, Hw. simpl.
  destruct (drop_common_spec (elements root) (elements w)) as (c & Hc).
  destruct (drop_common _ _) as [b t]. destruct Hc as [Hb Ht].
  destruct (match b with x :: _ => x =? ".." | [] => false end); [left; exact Hkeep|].
  pose proof (elements_cleaned w) as Hg. rewrite Hw in Hg. apply cleaned_rooted in Hg.
  assert (Forall good t) as Hgt by (rewrite Ht in Hg; by apply Forall_app in Hg as [_ ?]).
  assert (Forall slash_free (replicate (length b) ".." ++ t)) as Hfree.
  { apply Forall_app. split; [by apply Forall_replicate|].
    eapply Forall_impl; [exact Hgt|]. by intros e (_ & _ & _ & ?). }
  pose proof (concat_outside _ Hfree) as Hout. simpl in Hout.
  destruct (_ || _) eqn:E; [left; exact Hkeep|].
  destruct b as [|x b]; [|exfalso; assert (false = true); [apply Hout; simpl; eauto|done]].
  simpl in *. rewrite app_nil_r in Hb. subst c. right.
  assert (t <> []) as Htne.
  { intros ->. rewrite app_nil_r in Ht. apply Hneq. unfold Clean. by rewrite Hroot, Hw, Ht. }
  assert (cleaned false t) as Hct by (by exists 0, t).
  assert (String.concat "/" t = render_path false t) as Er by (by destruct t).
  assert (IsAbs (String.concat "/" t) = false) as Habs by (by rewrite Er, IsAbs_render).
  assert (String.concat "/" t <> "") as Hcne.
  { intros E'. rewrite Er in E'. pose proof (elements_render _ _ Hct) as Hr. rewrite E' in Hr. done. }
  unfold resolveWorkDir. apply String.eqb_neq in Hcne as Hcne'. rewrite Hcne', Habs. simpl.
  unfold Join. rewrite Hroot_ne. split_and!; [apply Clean_nonempty|done|].
  rewrite Clean_Clean. unfold Clean. rewrite IsAbs_app by (by apply String.eqb_neq).
  rewrite Hroot, Hw. f_equal. rewrite Ht. unfold elements.
  rewrite IsAbs_app by (by apply String.eqb_neq).
  rewrite split_slash_app, foldl_app, split_slash_concat by
    (done || (eapply Forall_impl; [exact Hgt|]; by intros e (_ & _ & _ & ?))).
  by rewrite foldl_good.
Qed.

(** ** What the shared layer does not contain *)

Lemma kv_strip m owned : kv (stripEnvKeys m owned) = kv m ∖ owned.
Proof.
  destruct m as [m|]; [done|]. simpl. apply map_eq. intros k.
  rewrite lookup_difference, lookup_empty. by destruct (owned !! k).
Qed.

Lemma EffectiveEnv_strip owned rt :
  kv (EffectiveEnv (set_runtime_env (stripEnvKeys (rc_EnvVars rt) owned)
                      (stripEnvKeys (rc_Env rt) owned) rt)) = kv (EffectiveEnv rt) ∖ owned.
Proof. unfold EffectiveEnv. simpl. destruct (rc_Env rt); simpl; [done|]. apply kv_strip. Qed.

(** The values of the keys that the machine layer owns are in none of the three carriers. *)
Lemma shared_env o dep k :
  is_Some (ov_EnvVars o !! k) -> deploymentEnvView (shared_deployment o dep) !! k = None.
Proof.
  intros [v Hk]. assert (size (ov_EnvVars o) <> 0) as Hs.
  { intros H%map_size_empty_inv. by rewrite H, lookup_empty in Hk. }
  unfold shared_deployment, deploymentEnvView. simpl. apply Nat.eqb_neq in Hs as ->.
  assert (forall m : gmap string string, (m ∖ ov_EnvVars o) !! k = None) as Hnone.
  { intros m. apply lookup_difference_None. right. by exists v. }
  destruct (dep_Runtime dep) as [rt|]; simpl; rewrite ?EffectiveEnv_strip, ?kv_strip; [|apply Hnone].
  by rewrite !lookup_union_None, !Hnone.
Qed.

Lemma split_services p lf :
  prj_Services (splitOwnership p lf).1 =
    if (size (lf_Deployments lf) =? 0)%nat then prj_Services p
    else split_service lf <$> prj_Services p.
Proof. unfold splitOwnership. by destruct (_ =? 0)%nat, (_ =? 0)%nat. Qed.

(** What belongs to the machine stays on the machine: no variable and no environment
    variable that [local.yaml] owns is left, under any of the names it can be stored under, in
    the project that is written to the shared file, nor an overridden path or list of hosts;
    and nothing else is taken from it. *)
Theorem local_values_stay_local p lf :
  let shared := (splitOwnership p lf).1 in
  (forall k, kv (prj_Variables shared) !! k =
     match lf_Variables lf !! k with Some _ => None | None => kv (prj_Variables p) !! k end) /\
  (forall i j svc dep, prj_Services p !! i = Some svc -> svc_Deployments svc !! j = Some dep ->
     exists svc' dep', prj_Services shared !! i = Some svc' /\ svc_Deployments svc' !! j = Some dep' /\
       match lf_Deployments lf !! overrideKey svc (dep_EnvName dep) with
       | None => dep' = dep
       | Some o =>
           (forall k, is_Some (ov_EnvVars o !! k) -> deploymentEnvView dep' !! k = None) /\
           (forall k, ov_EnvVars o !! k = None ->
              deploymentEnvView dep' !! k = deploymentEnvView dep !! k) /\
           (ov_WorkingDir o <> "" -> dep_WorkDir dep' = "") /\
           (ov_EnvFile o <> "" -> dep_EnvFile dep' = "") /\
           (ov_Hosts o <> [] -> dep_HostIDs dep' = None)
       end).
Proof.
  simpl. split.
  { intros k. assert (prj_Variables (splitOwnership p lf).1 =
      if (size (lf_Variables lf) =? 0)%nat then prj_Variables p
      else Some (kv (prj_Variables p) ∖ lf_Variables lf)) as ->
      by (unfold splitOwnership; by destruct (_ =? 0)%nat, (_ =? 0)%nat).
    destruct (Nat.eqb_spec (size (lf_Variables lf)) 0) as [->%map_size_empty_inv|]; [done|].
    simpl. rewrite lookup_difference. by destruct (lf_Variables lf !! k). }
  intros i j svc dep Hi Hj. rewrite split_services.
  destruct (Nat.eqb_spec (size (lf_Deployments lf)) 0) as [->%map_size_empty_inv|].
  { exists svc, dep. by rewrite lookup_empty. }
  exists (split_service lf svc), (split_deployment lf svc dep).
  rewrite list_lookup_fmap, Hi. simpl. rewrite list_lookup_fmap, Hj. do 2 (split; [done|]).
  unfold split_deployment. destruct (lf_Deployments lf !! _) as [o|]; [|done].
  split; [intros k; apply shared_env|]. split; [|simpl; split_and!].
  - intros k Hk. unfold shared_deployment, deploymentEnvView. simpl.
    destruct (size (ov_EnvVars o) =? 0)%nat; [done|].
    assert (forall m : gmap string string, (m ∖ ov_EnvVars o) !! k = m !! k) as Hd
      by (intros m; by rewrite lookup_difference, Hk).
    destruct (dep_Runtime dep) as [rt|]; simpl; rewrite ?EffectiveEnv_strip, ?kv_strip; [|apply Hd].
    by rewrite !lookup_union, !Hd.
  - intros ->%String.eqb_neq. done.
  - intros ->%String.eqb_neq. done.
  - by destruct (ov_Hosts o).
Qed.

(** ** Saving and loading again *)

(** What one file alone gives back of a deployment: saved and loaded without a machine layer. *)
Definition reread (root : string) (dep : Deployment) : Deployment :=
  deploymentFromYAML root (deploymentToYAML root dep).

(** Runtimes that differ in their environments only. *)
Definition same_runtime (a b : option RuntimeConfig) : Prop :=
  match a, b with
  | Some a, Some b => a = set_runtime_env (rc_EnvVars a) (rc_Env a) b
  | None, None => True
  | _, _ => False
  end.

(** The file keeps the carriers apart: without the keys that the machine owns, no map becomes empty
    and lets the variables of another one take its place. *)
Definition carriers_apart (owned : gmap string string) (dep : Deployment) : Prop :=
  forall rt, dep_Runtime dep = Some rt ->
    (kv (dep_Env dep) ∖ owned = ∅ -> kv (rc_EnvVars rt) ∖ owned = ∅) /\
    (forall env, rc_Env rt = Some env -> env ∖ owned = ∅ -> kv (rc_EnvVars rt) ∖ owned = ∅).

(** [a] is [dep], saved and loaded, where the machine owns the variables [owned]. *)
Record restored (root : string) (owned : gmap string string) (a dep : Deployment) : Prop := {
  rs_rest : a = set_machine (dep_WorkDir (reread root dep)) (dep_EnvFile (reread root dep))
                  (dep_HostIDs (reread root dep)) (dep_Env a) (dep_Runtime a) (reread root dep);
  rs_runtime : same_runtime (dep_Runtime a) (dep_Runtime (reread root dep));
  rs_view : deploymentEnvView a = deploymentEnvView dep;
  rs_owned : forall k, is_Some (owned !! k) ->
    kv (dep_Env a) !! k = deploymentEnvView dep !! k /\
    (forall rt, dep_Runtime a = Some rt -> kv (EffectiveEnv rt) !! k = deploymentEnvView dep !! k);
  rs_others : carriers_apart owned dep -> forall k, owned !! k = None ->
    kv (dep_Env a) !! k = kv (dep_Env dep) !! k /\
    (forall rt rt', dep_Runtime a = Some rt -> dep_Runtime dep = Some rt' ->
       kv (EffectiveEnv rt) !! k = kv (EffectiveEnv rt') !! k);
}.

Lemma kv_add_vars f m : kv (add_vars f m) = f ∪ kv m.
Proof.
  unfold add_vars. destruct (Nat.eqb_spec (size f) 0) as [->%map_size_empty_inv|]; [|done].
  by rewrite map_empty_union.
Qed.

Lemma EffectiveEnv_merge f rt :
  kv (EffectiveEnv (mergeRuntimeEnv f rt)) = f ∪ kv (EffectiveEnv rt).
Proof.
  unfold mergeRuntimeEnv.
  destruct (Nat.eqb_spec (size f) 0) as [->%map_size_empty_inv|]; [by rewrite map_empty_union|].
  unfold EffectiveEnv. by destruct (rc_Env rt).
Qed.

(** The values kept by the machine layer and the rest, laid over each other. *)
Lemma owned_restore (owned m view : gmap string string) :
  (forall k, is_Some (owned !! k) -> m !! k = view !! k) ->
  filter (fun kv => is_Some (owned !! kv.1)) view ∪ (m ∖ owned) = m.
Proof.
  intros H. apply map_eq. intros k. rewrite lookup_union, lookup_difference, map_lookup_filter.
  destruct (owned !! k) as [v|] eqn:Hk.
  - rewrite (H k) by by exists v. destruct (view !! k); [|done]. simpl.
    rewrite option_guard_True by by exists v. done.
  - destruct (view !! k); simpl; [rewrite option_guard_False by (by rewrite Hk; intros [])|];
      by destruct (m !! k).
Qed.

Lemma set_machine_same d :
  set_machine (dep_WorkDir d) (dep_EnvFile d) (dep_HostIDs d) (dep_Env d) (dep_Runtime d) d = d.
Proof. by destruct d. Qed.

Lemma kv_yaml m : kv (yaml_map m) = kv m.
Proof.
  destruct m as [m|]; [|done]. unfold yaml_map. simpl.
  destruct (Nat.eqb_spec (size m) 0) as [->%map_size_empty_inv|]; done.
Qed.

(** The maps of a deployment after the file, before the overrides. *)
Definition reread_env (env : option (gmap string string)) (rt : option RuntimeConfig)
    : option (gmap string string) :=
  match yaml_map env, rt with None, Some rt => yaml_map (rc_EnvVars rt) | m, _ => m end.

Lemma reread_Env root d : dep_Env (reread root d) = reread_env (dep_Env d) (dep_Runtime d).
Proof. unfold reread, reread_env. simpl. by destruct (yaml_map (dep_Env d)), (dep_Runtime d). Qed.

Lemma kv_reread_env env rt :
  kv (reread_env env rt) =
    match rt with
    | Some rt => if decide (kv env = ∅) then kv (rc_EnvVars rt) else kv env
    | None => kv env
    end.
Proof.
  unfold reread_env. destruct env as [m|]; simpl.
  - destruct (Nat.eqb_spec (size m) 0) as [->%map_size_empty_inv|Hs]; simpl.
    + destruct rt; [|done]. by rewrite decide_True, kv_yaml.
    + destruct rt; [|done]. rewrite decide_False; [done|]. intros ->. by rewrite map_size_empty in Hs.
  - destruct rt; [|done]. by rewrite decide_True, kv_yaml.
Qed.

(** The effective environment of a runtime after the file. *)
Lemma kv_reread_effective vars env rt :
  rc_EnvVars rt = yaml_map vars -> rc_Env rt = yaml_map env ->
  kv (EffectiveEnv rt) = if decide (kv env = ∅) then kv vars else kv env.
Proof.
  intros Hv He. unfold EffectiveEnv. rewrite Hv, He. destruct env as [m|]; simpl; [|by rewrite decide_True, kv_yaml].
  destruct (Nat.eqb_spec (size m) 0) as [->%map_size_empty_inv|Hs]; simpl.
  - by rewrite decide_True, kv_yaml.
  - rewrite decide_False; [done|]. intros ->. by rewrite map_size_empty in Hs.
Qed.

(** The overrides of the environment laid over a runtime. *)
Definition override_runtime (shares : bool) (f : gmap string string) (rt : RuntimeConfig) : RuntimeConfig :=
  mergeRuntimeEnv f
    (if shares then set_runtime_env (add_vars f (rc_EnvVars rt)) (rc_Env rt) rt else rt).

Lemma override_effective sh f rt :
  kv (EffectiveEnv (override_runtime sh f rt)) = f ∪ kv (EffectiveEnv rt).
Proof.
  unfold override_runtime. rewrite EffectiveEnv_merge. destruct sh; [|done].
  unfold EffectiveEnv. simpl. destruct (rc_Env rt); [done|]. rewrite kv_add_vars.
  by rewrite (assoc_L (∪)), (idemp_L (∪) f).
Qed.

Lemma override_vars sh f rt :
  kv (rc_EnvVars (override_runtime sh f rt)) = kv (rc_EnvVars rt) \/
  kv (rc_EnvVars (override_runtime sh f rt)) = f ∪ kv (rc_EnvVars rt).
Proof.
  unfold override_runtime, mergeRuntimeEnv.
  destruct sh, (Nat.eqb_spec (size f) 0) as [->%map_size_empty_inv|]; simpl;
    rewrite ?kv_add_vars, ?map_empty_union; auto; destruct (rc_Env rt); simpl; rewrite ?kv_add_vars; auto.
  right. by rewrite (assoc_L (∪)), (idemp_L (∪) f).
Qed.

Lemma override_shape sh f rt :
  override_runtime sh f rt =
    set_runtime_env (rc_EnvVars (override_runtime sh f rt)) (rc_Env (override_runtime sh f rt)) rt.
Proof.
  unfold override_runtime, mergeRuntimeEnv.
  destruct sh, (size f =? 0)%nat; simpl; try (by destruct rt); by destruct (rc_Env rt), rt.
Qed.

(** The view of a deployment with a runtime, key by key. *)
Lemma view_lookup dep rt k :
  dep_Runtime dep = Some rt ->
  deploymentEnvView dep !! k = kv (rc_Env rt) !! k ∪ (kv (rc_EnvVars rt) !! k ∪ kv (dep_Env dep) !! k).
Proof.
  intros Hrt. unfold deploymentEnvView, EffectiveEnv. rewrite Hrt, !lookup_union.
  destruct (rc_Env rt); simpl; [done|].
  by destruct (kv (rc_EnvVars rt) !! k), (kv (dep_Env dep) !! k).
Qed.

(** The carriers of what is shared of a deployment. *)
Lemma kv_shared_env o dep : kv (dep_Env (shared_deployment o dep)) = kv (dep_Env dep) ∖ ov_EnvVars o.
Proof.
  simpl. destruct (Nat.eqb_spec (size (ov_EnvVars o)) 0) as [->%map_size_empty_inv|]; [|apply kv_strip].
  apply map_eq. intros k. by rewrite lookup_difference, lookup_empty.
Qed.

Lemma shared_runtime o dep rt :
  dep_Runtime dep = Some rt -> exists vars env,
    dep_Runtime (shared_deployment o dep) = Some (set_runtime_env vars env rt) /\
    kv vars = kv (rc_EnvVars rt) ∖ ov_EnvVars o /\ kv env = kv (rc_Env rt) ∖ ov_EnvVars o.
Proof.
  intros Hrt. simpl. rewrite Hrt.
  destruct (Nat.eqb_spec (size (ov_EnvVars o)) 0) as [->%map_size_empty_inv|]; simpl.
  - exists (rc_EnvVars rt), (rc_Env rt). split; [by destruct rt|].
    split; apply map_eq; intros k; by rewrite lookup_difference, lookup_empty.
  - eexists _, _. split; [done|]. split; apply kv_strip.
Qed.

Lemma filter_owned_lookup (owned view : gmap string string) k :
  filter (fun kv => is_Some (owned !! kv.1)) view !! k =
    match owned !! k with Some _ => view !! k | None => None end.
Proof.
  rewrite map_lookup_filter. destruct (view !! k) as [v|]; simpl; [|by destruct (owned !! k)].
  destruct (owned !! k) eqn:E; case_guard as H; simpl in *; rewrite ?E in H; try done.
  by destruct H.
Qed.

(** ** One deployment *)

Lemma resolve_nonempty w root : w <> "" -> resolveWorkDir w root <> "".
Proof.
  intros Hw. unfold resolveWorkDir. destruct (negb _ && negb _); [|done]. unfold Join.
  destruct (root =? ""); [|apply Clean_nonempty]. destruct (String.eqb_spec w ""); [done|apply Clean_nonempty].
Qed.

Section Restore.
Context (root : string) (o : depOverrideYAML) (dep : Deployment).

Let owned := ov_EnvVars o.
Let view := deploymentEnvView dep.
Let back := reread root (shared_deployment o dep).
Let after := merge_override root (shares_env (deploymentToYAML root (shared_deployment o dep)))
               (new_override root o dep) back.
Let f := filter (fun kv => is_Some (owned !! kv.1)) view.

Lemma after_env k :
  kv (dep_Env after) !! k = f !! k ∪ kv (reread_env (dep_Env (shared_deployment o dep))
                                            (dep_Runtime (shared_deployment o dep))) !! k.
Proof.
  unfold after, merge_override. cbn [dep_Env set_machine]. cbv zeta. rewrite kv_add_vars, lookup_union.
  unfold back. by rewrite reread_Env.
Qed.

(** The environments of a runtime that comes back. *)
Lemma after_runtime rt :
  dep_Runtime dep = Some rt ->
  let vars := kv (rc_EnvVars rt) ∖ owned in
  let env := kv (rc_Env rt) ∖ owned in
  let denv := kv (dep_Env dep) ∖ owned in
  exists rt', dep_Runtime after = Some rt' /\
    same_runtime (Some rt') (dep_Runtime (reread root dep)) /\
    kv (EffectiveEnv rt') = f ∪ (if decide (env = ∅) then vars else env) /\
    (kv (rc_EnvVars rt') = vars \/ kv (rc_EnvVars rt') = f ∪ vars) /\
    kv (dep_Env after) = f ∪ (if decide (denv = ∅) then vars else denv).
Proof.
  intros Hrt. cbv zeta. destruct (shared_runtime o dep rt Hrt) as (vars & env & Hs & Hv & He).
  change (ov_EnvVars o) with owned in Hv, He.
  set (rt1 := set_runtime_paths (fun p => resolveWorkDir p root)
    (yaml_runtime (relativizeRuntime root (set_runtime_env vars env rt)))).
  assert (dep_Runtime back = Some rt1) as Hback
    by (unfold back, reread, deploymentToYAML, deploymentFromYAML; cbn [dep_Runtime]; by rewrite Hs).
  assert (dep_Runtime after = Some (override_runtime (shares_env (deploymentToYAML root
    (shared_deployment o dep))) f rt1)) as Hafter.
  { unfold after, merge_override. cbn [dep_Runtime set_machine]. by rewrite Hback. }
  eexists. split; [exact Hafter|]. rewrite override_effective.
  rewrite (kv_reread_effective vars env rt1), He, Hv by done.
  split_and!; [|done| |].
  - rewrite override_shape. unfold reread, deploymentToYAML, deploymentFromYAML. cbn [dep_Runtime].
    by rewrite Hrt.
  - assert (kv (rc_EnvVars rt1) = kv vars) as E by (unfold rt1; simpl; apply kv_yaml).
    rewrite <-Hv, <-E. apply override_vars.
  - apply map_eq. intros k. rewrite after_env, lookup_union. f_equal.
    rewrite kv_reread_env, Hs, kv_shared_env. change (ov_EnvVars o) with owned. by rewrite <-Hv.
Qed.

Lemma after_bare : dep_Runtime dep = None -> dep_Runtime after = None /\
  kv (dep_Env after) = f ∪ (kv (dep_Env dep) ∖ owned).
Proof.
  intros Hrt. assert (dep_Runtime (shared_deployment o dep) = None) as Hs
    by (simpl; rewrite Hrt; by destruct (_ =? 0)%nat).
  split.
  - unfold after, merge_override, back, reread, deploymentToYAML, deploymentFromYAML.
    cbn [dep_Runtime set_machine]. by rewrite Hs.
  - apply map_eq. intros k. rewrite after_env, lookup_union. f_equal.
    by rewrite kv_reread_env, Hs, kv_shared_env.
Qed.

Lemma f_owned k v : owned !! k = Some v -> f !! k = view !! k.
Proof. intros Hk. unfold f. by rewrite filter_owned_lookup, Hk. Qed.
Lemma f_other k : owned !! k = None -> f !! k = None.
Proof. intros Hk. unfold f. by rewrite filter_owned_lookup, Hk. Qed.
Lemma rest_owned (m : gmap string string) k v : owned !! k = Some v -> (m ∖ owned) !! k = None.
Proof. intros Hk. by rewrite lookup_difference, Hk. Qed.
Lemma rest_other (m : gmap string string) k : owned !! k = None -> (m ∖ owned) !! k = m !! k.
Proof. intros Hk. by rewrite lookup_difference, Hk. Qed.

(** A map that is replaced by another one when it is empty. *)
Lemma fallback_lookup (m n : gmap string string) k :
  (if decide (m = ∅) then n else m) !! k = m !! k \/
  ((if decide (m = ∅) then n else m) !! k = n !! k /\ m !! k = None).
Proof. destruct (decide (m = ∅)) as [->|]; [right|by left]. by rewrite lookup_empty. Qed.

Lemma after_view : deploymentEnvView after = view.
Proof.
  apply map_eq. intros k. destruct (dep_Runtime dep) as [rt|] eqn:Hrt.
  2: { destruct (after_bare Hrt) as [Hra Hea].
       unfold deploymentEnvView at 1. rewrite Hra, Hea, lookup_union.
       destruct (owned !! k) as [v|] eqn:Hk.
       - rewrite (f_owned k v Hk), (rest_owned _ k v Hk). by destruct (view !! k).
       - rewrite (f_other k Hk), (rest_other _ k Hk), (left_id_L None (∪)).
         unfold view, deploymentEnvView. by rewrite Hrt. }
  destruct (after_runtime rt Hrt) as (rt' & Hra & _ & Heff & Hvars & Henv).
  unfold deploymentEnvView. rewrite Hra, !lookup_union, Heff, Henv, !lookup_union.
  assert (view !! k = kv (rc_Env rt) !! k ∪ (kv (rc_EnvVars rt) !! k ∪ kv (dep_Env dep) !! k))
    as Hview by (by apply view_lookup).
  pose proof (fallback_lookup (kv (rc_Env rt) ∖ owned) (kv (rc_EnvVars rt) ∖ owned) k) as F1.
  pose proof (fallback_lookup (kv (dep_Env dep) ∖ owned) (kv (rc_EnvVars rt) ∖ owned) k) as F2.
  assert (kv (rc_EnvVars rt') !! k = (kv (rc_EnvVars rt) ∖ owned) !! k \/
    kv (rc_EnvVars rt') !! k = f !! k ∪ (kv (rc_EnvVars rt) ∖ owned) !! k) as F3
    by (destruct Hvars as [->| ->]; [by left|right; by rewrite lookup_union]).
  destruct (owned !! k) as [v|] eqn:Hk.
  - rewrite !(rest_owned _ k v Hk), (f_owned k v Hk) in *. fold view.
    destruct F1 as [->|[-> _]], F2 as [->|[-> _]], F3 as [->| ->]; by destruct (view !! k).
  - rewrite !(rest_other _ k Hk), (f_other k Hk) in *. fold view. rewrite Hview, !(left_id_L None (∪)).
    assert (kv (rc_EnvVars rt') !! k = kv (rc_EnvVars rt) !! k) as ->
      by (destruct F3 as [->| ->]; [done|by rewrite (left_id_L None (∪))]).
    destruct F1 as [->|[-> ->]], F2 as [->|[-> ->]];
      by destruct (kv (rc_Env rt) !! k), (kv (rc_EnvVars rt) !! k), (kv (dep_Env dep) !! k).
Qed.

Lemma after_owned k : is_Some (owned !! k) ->
  kv (dep_Env after) !! k = view !! k /\
  (forall rt, dep_Runtime after = Some rt -> kv (EffectiveEnv rt) !! k = view !! k).
Proof.
  intros [v Hk]. destruct (dep_Runtime dep) as [rt|] eqn:Hrt.
  2: { destruct (after_bare Hrt) as [-> ->]. rewrite lookup_union, (f_owned k v Hk), (rest_owned _ k v Hk).
       split; [by destruct (view !! k)|done]. }
  destruct (after_runtime rt Hrt) as (rt' & -> & _ & Heff & _ & ->).
  assert (forall m n : gmap string string,
    (f ∪ (if decide (m ∖ owned = ∅) then n ∖ owned else m ∖ owned)) !! k = view !! k) as H.
  { intros m n. rewrite lookup_union, (f_owned k v Hk).
    destruct (fallback_lookup (m ∖ owned) (n ∖ owned) k) as [->|[-> _]];
      rewrite (rest_owned _ k v Hk); by destruct (view !! k). }
  split; [apply H|]. intros rt0 [= <-]. rewrite Heff. apply H.
Qed.

Lemma after_others : carriers_apart owned dep -> forall k, owned !! k = None ->
  kv (dep_Env after) !! k = kv (dep_Env dep) !! k /\
  (forall rt rt', dep_Runtime after = Some rt -> dep_Runtime dep = Some rt' ->
     kv (EffectiveEnv rt) !! k = kv (EffectiveEnv rt') !! k).
Proof.
  intros Hap k Hk. destruct (dep_Runtime dep) as [rt|] eqn:Hrt.
  2: { destruct (after_bare Hrt) as [_ ->].
       by rewrite lookup_union, (f_other k Hk), (rest_other _ k Hk), (left_id_L None (∪)). }
  destruct (after_runtime rt Hrt) as (rt1 & -> & _ & Heff & _ & ->). destruct (Hap rt Hrt) as [H1 H2].
  assert (forall m n : gmap string string, (m ∖ owned = ∅ -> n ∖ owned = ∅) ->
    (f ∪ (if decide (m ∖ owned = ∅) then n ∖ owned else m ∖ owned)) !! k = m !! k) as H.
  { intros m n Hmn. rewrite lookup_union, (f_other k Hk), (left_id_L None (∪)).
    destruct (decide (m ∖ owned = ∅)) as [E|]; [|by apply rest_other].
    rewrite (Hmn E), <-(rest_other m k Hk). by rewrite E. }
  split; [by apply H|]. intros rt0 rt' [= <-] [= <-]. rewrite Heff. unfold EffectiveEnv.
  destruct (rc_Env rt) as [env|]; [by apply H, H2|]. simpl.
  rewrite lookup_union, (f_other k Hk), (left_id_L None (∪)).
  rewrite decide_True by (apply map_eq; intros k'; by rewrite lookup_difference, lookup_empty; destruct (owned !! k')).
  by apply rest_other.
Qed.

(** The fields of the runtime that a deployment falls back on are not those of the machine. *)
Lemma or_from_shared x g :
  (forall rt vars env, g (set_runtime_env vars env rt) = g rt) ->
  or_from x g ((fun rt => set_runtime_paths (fun p => resolveWorkDir p root)
      (yaml_runtime (relativizeRuntime root rt))) <$> dep_Runtime (shared_deployment o dep)) =
  or_from x g ((fun rt => set_runtime_paths (fun p => resolveWorkDir p root)
      (yaml_runtime (relativizeRuntime root rt))) <$> dep_Runtime dep).
Proof.
  intros Hg. destruct (dep_Runtime dep) as [rt|] eqn:Hrt.
  - destruct (shared_runtime o dep rt Hrt) as (vars & env & -> & _). unfold or_from. csimpl.
    destruct (x =? ""); [|done].
    transitivity (g (set_runtime_env (yaml_map vars) (yaml_map env) (set_runtime_paths
      (fun p => resolveWorkDir p root) (yaml_runtime (relativizeRuntime root rt))))); [done|apply Hg].
  - cbn [shared_deployment dep_Runtime set_machine]. rewrite Hrt. by destruct (_ =? 0)%nat.
Qed.

Lemma saved_path own w g :
  (forall rt vars env, g (set_runtime_env vars env rt) = g rt) ->
  let fallback d := (fun rt => set_runtime_paths (fun p => resolveWorkDir p root)
      (yaml_runtime (relativizeRuntime root rt))) <$> dep_Runtime d in
  let own' := if own =? "" then "" else RelativizePath w root in
  (if own' =? ""
   then or_from (resolveWorkDir (RelativizePath (if own =? "" then w else "") root) root) g
          (fallback (shared_deployment o dep))
   else resolveWorkDir own' root) =
  or_from (resolveWorkDir (RelativizePath w root) root) g (fallback dep).
Proof.
  intros Hg. cbv zeta. rewrite (or_from_shared _ g Hg).
  destruct (own =? ""); [done|]. destruct (String.eqb_spec (RelativizePath w root) "") as [->|Hne]; [done|].
  unfold or_from. by rewrite (proj2 (String.eqb_neq _ _) (resolve_nonempty _ root Hne)).
Qed.

Lemma after_restored : restored root owned after dep.
Proof.
  split; [| |apply after_view|apply after_owned|apply after_others].
  - unfold after at 1, merge_override. cbv zeta.
    assert (forall W F H E R, set_machine W F H E R back = set_machine W F H E R (reread root dep)) as ->.
    { intros. unfold back, reread, deploymentFromYAML, deploymentToYAML, set_machine.
      cbn -[shared_deployment]. f_equal. rewrite <-!option_fmap_compose.
      apply (or_from_shared (dep_Command dep) rc_Command). done. }
    f_equal.
    + etransitivity; [|etransitivity; [exact (saved_path (ov_WorkingDir o) (dep_WorkDir dep)
        (fun rt => resolveWorkDir (rc_WorkingDir rt) root) ltac:(done))|]].
      * unfold back, reread, deploymentFromYAML, deploymentToYAML. cbn -[shared_deployment RelativizePath].
        by rewrite <-option_fmap_compose.
      * unfold reread, deploymentFromYAML, deploymentToYAML. cbn -[RelativizePath].
        by rewrite <-option_fmap_compose.
    + etransitivity; [|etransitivity; [exact (saved_path (ov_EnvFile o) (dep_EnvFile dep)
        (fun rt => resolveWorkDir (rc_EnvFile rt) root) ltac:(done))|]].
      * unfold back, reread, deploymentFromYAML, deploymentToYAML. cbn -[shared_deployment RelativizePath].
        by rewrite <-option_fmap_compose.
      * unfold reread, deploymentFromYAML, deploymentToYAML. cbn -[RelativizePath].
        by rewrite <-option_fmap_compose.
    + unfold back, reread, deploymentFromYAML, deploymentToYAML. cbn.
      destruct (ov_Hosts o); simpl; [done|]. by destruct (dep_HostIDs dep) as [[|? ?]|].
  - destruct (dep_Runtime dep) as [rt|] eqn:Hrt.
    + destruct (after_runtime rt Hrt) as (rt' & -> & Hs & _). exact Hs.
    + destruct (after_bare Hrt) as [-> _]. unfold reread, deploymentFromYAML, deploymentToYAML. cbn.
      by rewrite Hrt.
Qed.
End Restore.

(** The new overrides, key by key. *)
Lemma put_overrides_lookup root lf l m key :
  NoDup l.*1 ->
  foldl (put_override root lf) m l !! key =
    match list_find (fun kd => kd.1 = key) l with
    | Some (_, (_, dep)) =>
        match lf_Deployments lf !! key with
        | Some o => if override_empty (new_override root o dep) then m !! key
                    else Some (new_override root o dep)
        | None => m !! key
        end
    | None => m !! key
    end.
Proof.
  revert m. induction l as [|[k d] l IH]; intros m Hnd; [done|].
  csimpl in Hnd. apply NoDup_cons in Hnd as [Hk Hnd]. simpl. rewrite IH by done.
  destruct (decide (k = key)) as [->|Hne].
  - rewrite (proj2 (list_find_None _ _)).
    + unfold put_override. simpl. destruct (lf_Deployments lf !! key); [|done].
      destruct (override_empty _); [done|]. by rewrite lookup_insert_eq.
    + apply Forall_forall. intros [k' d'] Hin E. simpl in E. subst k'. apply Hk.
      apply list_elem_of_fmap. by exists (key, d').
  - assert (put_override root lf m (k, d) !! key = m !! key) as ->.
    { unfold put_override. simpl. destruct (lf_Deployments lf !! k); [|done].
      destruct (override_empty _); [done|]. by rewrite lookup_insert_ne. }
    by destruct (list_find _ l) as [[? [? ?]]|].
Qed.

(** The override that is saved for a deployment of the project. *)
Lemma saved_override p lf key dep o :
  NoDup (keyed_deployments p).*1 -> (key, dep) ∈ keyed_deployments p ->
  lf_Deployments lf !! key = Some o ->
  lf_Deployments (splitOwnership p lf).2 !! key =
    let o' := new_override (prj_RootPath p) o dep in
    if override_empty o' then None else Some o'.
Proof.
  intros Hnd Hin Ho. unfold splitOwnership.
  assert (size (lf_Deployments lf) <> 0) as ->%Nat.eqb_neq.
  { intros H%map_size_empty_inv. by rewrite H, lookup_empty in Ho. }
  simpl. unfold carryOverOrphans. rewrite lookup_union_r.
  - rewrite put_overrides_lookup by done.
    apply list_elem_of_lookup in Hin as Hin'. destruct Hin' as [i Hi].
    destruct (list_find (fun kd => kd.1 = key) (keyed_deployments p)) as [[j [k d]]|] eqn:Hf.
    + apply list_find_Some in Hf as (Hj & Hk & _). simpl in Hk. subst k.
      assert (i = j) as ->.
      { eapply NoDup_lookup; [exact Hnd|..]; rewrite list_lookup_fmap; [by rewrite Hi|by rewrite Hj]. }
      rewrite Hi in Hj. simplify_eq. by rewrite Ho, lookup_empty.
    + apply list_find_None in Hf. rewrite Forall_forall in Hf. by destruct (Hf _ Hin).
  - apply map_lookup_filter_None. right. intros v _ Hn. apply Hn, list_elem_of_fmap.
    by exists (key, dep).
Qed.

(** No override appears that was not there. *)
Lemma saved_override_None p lf key :
  lf_Deployments lf !! key = None -> lf_Deployments (splitOwnership p lf).2 !! key = None.
Proof.
  intros Hn. unfold splitOwnership. destruct (_ =? 0)%nat; simpl; [apply lookup_empty|].
  unfold carryOverOrphans. rewrite lookup_union_None. split.
  { apply map_lookup_filter_None. by left. }
  assert (forall l m, m !! key = None -> foldl (put_override (prj_RootPath p) lf) m l !! key = None)
    as H; [|by apply H].
  induction l as [|[k d] l IH]; intros m Hm; [done|]. simpl. apply IH. unfold put_override. simpl.
  destruct (lf_Deployments lf !! k) eqn:E; [|done]. destruct (override_empty _); [done|].
  rewrite lookup_insert_ne; [done|congruence].
Qed.

Lemma keyed_deployments_elem p svc dep :
  svc ∈ prj_Services p -> dep ∈ svc_Deployments svc ->
  (overrideKey svc (dep_EnvName dep), dep) ∈ keyed_deployments p.
Proof.
  intros Hs Hd. apply list_elem_of_bind. exists svc. split; [|done].
  apply list_elem_of_fmap. by exists dep.
Qed.

Lemma split_variables p lf :
  prj_Variables (splitOwnership p lf).1 =
    (if (size (lf_Variables lf) =? 0)%nat then prj_Variables p
     else Some (kv (prj_Variables p) ∖ lf_Variables lf)) /\
  lf_Variables (splitOwnership p lf).2 =
    (if (size (lf_Variables lf) =? 0)%nat then ∅
     else filter (fun kv => is_Some (lf_Variables lf !! kv.1)) (kv (prj_Variables p))) /\
  prj_RootPath (splitOwnership p lf).1 = prj_RootPath p.
Proof. unfold splitOwnership. by destruct (_ =? 0)%nat, (_ =? 0)%nat. Qed.

Lemma merge_empty root sh o d : override_empty o = true -> merge_override root sh o d = d.
Proof.
  unfold override_empty, merge_override.
  intros (((-> & ->)%andb_prop & ->)%andb_prop & Hs)%andb_prop. unfold add_vars, mergeRuntimeEnv.
  rewrite Hs. assert ((fun rt => if sh then set_runtime_env (rc_EnvVars rt) (rc_Env rt) rt else rt) <$>
    dep_Runtime d = dep_Runtime d) as -> by (destruct (dep_Runtime d) as [[]|], sh; done).
  apply set_machine_same.
Qed.

Definition no_override : depOverrideYAML := mkOverride "" "" [] ∅.

Lemma reread_restored root dep : restored root ∅ (reread root dep) dep.
Proof.
  pose proof (after_restored root no_override dep) as H.
  assert (shared_deployment no_override dep = dep) as E by (unfold shared_deployment; apply set_machine_same).
  rewrite E, merge_empty in H; [exact H|]. unfold override_empty. simpl.
  assert (filter (fun kv => is_Some ((∅ : gmap string string) !! kv.1)) (deploymentEnvView dep) = ∅) as ->; [|done].
  apply map_eq. intros k. by rewrite filter_owned_lookup, !lookup_empty.
Qed.

Lemma reread_path root w g x :
  IsAbs root = true -> IsAbs w = true ->
  same_path (or_from (resolveWorkDir (RelativizePath w root) root) g (x : option RuntimeConfig)) w.
Proof.
  intros Hroot Hw. pose proof (resolve_relativize root w Hroot Hw) as Hs. unfold or_from.
  destruct (String.eqb_spec (resolveWorkDir (RelativizePath w root) root) "") as [E|]; [|done].
  exfalso. rewrite E in Hs. destruct Hs as [<-|[Hs _]]; [done|by apply Hs].
Qed.

Lemma local_kept u : default no_local (if isEmpty u then None else Some u) = u.
Proof.
  unfold isEmpty. destruct (bool_decide _ && _) eqn:E; [|done].
  apply andb_prop in E as [Hv%bool_decide_eq_true Hd%Nat.eqb_eq%map_size_empty_inv].
  destruct u; simpl in *. by subst.
Qed.

Lemma set_deployments_same svc : set_deployments (svc_Deployments svc) svc = svc.
Proof. by destruct svc. Qed.

Lemma fmap_same {A} (f : A -> A) (l : list A) : (forall x, f x = x) -> f <$> l = l.
Proof. intros H. induction l as [|x l IH]; [done|]. csimpl. by rewrite H, IH. Qed.

Lemma split_services_all p lf :
  prj_Services (splitOwnership p lf).1 = split_service lf <$> prj_Services p.
Proof.
  rewrite split_services. destruct (Nat.eqb_spec (size (lf_Deployments lf)) 0) as [E|]; [|done].
  apply map_size_empty_inv in E. symmetry. apply fmap_same. intros svc.
  unfold split_service. rewrite fmap_same; [apply set_deployments_same|].
  intros dep. unfold split_deployment. by rewrite E, lookup_empty.
Qed.

(** The variables of a deployment that the machine owns. *)
Definition owned_env (lf : localYAML) (svc : Service) (dep : Deployment) : gmap string string :=
  match lf_Deployments lf !! overrideKey svc (dep_EnvName dep) with Some o => ov_EnvVars o | None => ∅ end.

(** [a] is what comes back of the deployment [dep]. *)
Record comes_back (root : string) (lf : localYAML) (svc : Service) (a dep : Deployment) : Prop := {
  cb_restored : restored root (owned_env lf svc dep) a dep;
  cb_hosts : default [] (dep_HostIDs a) = default [] (dep_HostIDs dep);
  cb_dir : IsAbs root = true -> IsAbs (dep_WorkDir dep) = true -> same_path (dep_WorkDir a) (dep_WorkDir dep);
  cb_file : IsAbs root = true -> IsAbs (dep_EnvFile dep) = true -> same_path (dep_EnvFile a) (dep_EnvFile dep);
}.

Lemma restored_comes_back root lf svc a dep :
  restored root (owned_env lf svc dep) a dep -> comes_back root lf svc a dep.
Proof.
  intros H. pose proof (rs_rest _ _ _ _ H) as E. split; [exact H|..].
  - rewrite E. cbn. by destruct (dep_HostIDs dep) as [[|? ?]|].
  - intros Hroot Hw. rewrite E. cbn -[RelativizePath]. by apply reread_path.
  - intros Hroot Hw. rewrite E. cbn -[RelativizePath]. by apply reread_path.
Qed.

(** What is written for a deployment and laid together again. *)
Lemma deployment_comes_back p lf svc dep sh :
  NoDup (keyed_deployments p).*1 -> svc ∈ prj_Services p -> dep ∈ svc_Deployments svc ->
  let root := prj_RootPath p in
  sh = shares_env (deploymentToYAML root (split_deployment lf svc dep)) ->
  comes_back root lf svc
    (merge_deployment root (splitOwnership p lf).2 svc sh (reread root (split_deployment lf svc dep))) dep.
Proof.
  intros Hnd Hsvc Hdep root ->. apply restored_comes_back.
  pose proof (keyed_deployments_elem p svc dep Hsvc Hdep) as Hin.
  unfold owned_env, merge_deployment, split_deployment. set (key := overrideKey svc (dep_EnvName dep)) in *.
  destruct (lf_Deployments lf !! key) as [o|] eqn:Ho.
  - change (overrideKey svc (dep_EnvName (reread root (shared_deployment o dep)))) with key.
    rewrite (saved_override p lf key dep o) by done. cbv zeta. fold root.
    pose proof (after_restored root o dep) as Hrt.
    destruct (override_empty _) eqn:Hemp; [|done]. by rewrite merge_empty in Hrt.
  - change (overrideKey svc (dep_EnvName (reread root dep))) with key.
    rewrite saved_override_None by done. apply reread_restored.
Qed.

(** C23: saving a project into its two files and loading them gives back the variables and the
    services with their deployments, whichever values belong to the machine ([lf] is the machine
    layer on the disk; the deployments have different keys in it).  For every deployment, the
    environment as the three carriers show it together, the hosts and, when they are absolute, the
    paths are the same; every carrier that is read has the values that the machine owns; and every
    other field is what a single file would give back.  The carriers one by one are the same too,
    unless taking out what the machine owns, or writing a map that is empty, leaves nothing of a
    map that hid another ([carriers_apart]; [emptied_env_unshadows] shows what happens then). *)
Theorem save_load_roundtrip p lf :
  NoDup (keyed_deployments p).*1 ->
  let root := prj_RootPath p in
  let files := saveSplitProject p root lf in
  let q := load_split root files.1 files.2 in
  kv (prj_Variables q) = kv (prj_Variables p) /\
  Forall2 (fun a svc => a = set_deployments (svc_Deployments a) (map_service id svc) /\
             Forall2 (comes_back root lf svc) (svc_Deployments a) (svc_Deployments svc))
    (prj_Services q) (prj_Services p).
Proof.
  intros Hnd root. destruct (split_variables p lf) as (Ev & El & Er).
  pose proof (split_services_all p lf) as Es.
  pose proof (fun svc dep sh => deployment_comes_back p lf svc dep sh Hnd) as Hback. cbv zeta in Hback.
  fold root in Hback. unfold saveSplitProject.
  destruct (splitOwnership p lf) as [shared local]. simpl in Ev, El, Er, Es, Hback. cbv zeta.
  unfold load_split. cbn [fst snd]. rewrite local_kept. split.
  - simpl. rewrite kv_add_vars, kv_yaml, Ev, El.
    destruct (Nat.eqb_spec (size (lf_Variables lf)) 0); [by rewrite map_empty_union|].
    by apply owned_restore.
  - simpl. rewrite Es. apply Forall2_lookup. intros i.
    rewrite list_lookup_imap, !list_lookup_fmap.
    destruct (prj_Services p !! i) as [svc|] eqn:Hi; simpl; constructor. split; [done|].
    apply Forall2_lookup. intros j. simpl. rewrite list_lookup_imap, !list_lookup_fmap.
    destruct (svc_Deployments svc !! j) as [dep|] eqn:Hj; simpl; constructor.
    apply (Hback svc dep); [by eapply list_elem_of_lookup_2..|].
    unfold shared_maps. simpl. rewrite Es, !list_lookup_fmap, Hi. simpl. by rewrite !list_lookup_fmap, Hj.
Qed.

(** ** Examples and gaps *)

Definition example_override : depOverrideYAML :=
  mkOverride "dev/web" "" [] {["TOKEN" := "s3cret"]}.
Definition example_local : localYAML :=
  mkLocal {["DB" := "local"]} {["s1/dev" := example_override]}.

Definition base_deployment : Deployment :=
  set_machine "/srv/team" "" None (Some {["MODE" := "dev"]}) None
    (example_deployment "d1" "dev" LocationLocal false).
Definition loaded_project : Project :=
  mergeLocal (fun _ _ => false) (example_project [] [example_service "s1" "web" [base_deployment]])
    example_local.

Lemma local_values_stay_local_witness :
  exists svc dep, prj_Services (splitOwnership loaded_project example_local).1 !! 0 = Some svc /\
    svc_Deployments svc !! 0 = Some dep /\ deploymentEnvView dep !! "TOKEN" = None.
Proof.
  destruct (local_values_stay_local loaded_project example_local) as [_ H].
  edestruct (H 0 0) as (svc & dep & H1 & H2 & H3); [reflexivity..|].
  exists svc, dep. split; [exact H1|]. split; [exact H2|]. apply H3. by exists "s3cret".
Defined.

Definition example_files : Project * option localYAML :=
  saveSplitProject loaded_project (prj_RootPath loaded_project) example_local.
Definition example_reloaded : Project :=
  load_split (prj_RootPath loaded_project) example_files.1 example_files.2.

Lemma save_load_roundtrip_witness :
  kv (prj_Variables example_reloaded) = kv (prj_Variables loaded_project) /\
  (prj_Services example_reloaded ≫= fun svc =>
     (fun d => (dep_WorkDir d, kv (dep_Env d))) <$> svc_Deployments svc) =
    [("/srv/shop/dev/web", {["TOKEN" := "s3cret"; "MODE" := "dev"]})].
Proof.
  split; [|by vm_compute]. apply (save_load_roundtrip loaded_project example_local).
  repeat constructor; set_solver.
Defined.

(** Saving on a machine that overrides a path removes the path of the team from the shared
    file: it is cleared there, not kept. *)
Theorem save_erases_shared_path :
  let dirs p := prj_Services p ≫= fun svc => dep_WorkDir <$> svc_Deployments svc in
  dirs (example_project [] [example_service "s1" "web" [base_deployment]]) = ["/srv/team"] /\
  dirs loaded_project = ["/srv/shop/dev/web"] /\
  dirs (splitOwnership loaded_project example_local).1 = [""].
Proof. vm_compute. by split_and!. Qed.

(** A runtime whose [env] holds secrets of the machine only loses it to the file, and with it
    the variables of [env_vars] that it hid come back. *)
Theorem emptied_env_unshadows rt :
  rc_Env rt = Some {["TOKEN" := "s3cret"]} -> rc_EnvVars rt = Some {["MODE" := "old"]} ->
  let o := mkOverride "" "" [] {["TOKEN" := "s3cret"]} in
  let reload rt := mergeRuntimeEnv (ov_EnvVars o) (yaml_runtime rt) in
  kv (EffectiveEnv rt) !! "MODE" = None /\
  (fun rt => kv (EffectiveEnv (reload rt)) !! "MODE") <$>
    stripRuntimeEnvKeys (Some rt) (ov_EnvVars o) = Some (Some "old").
Proof.
  intros He Hv. split; [unfold EffectiveEnv; by rewrite He|].
  unfold stripRuntimeEnvKeys. csimpl. rewrite He, Hv. by vm_compute.
Qed.
