(* ===== verification/PortMirror.v ===== *)
(** * Port mirrors (portmirror/manager.go)

    The manager keeps local ports forwarded to the machines where services run.  One goroutine
    reconciles: it computes the mirrors that the last frame of node states calls for, drops
    what is no longer expected and establishes what is missing, with a cooldown after a
    failure.  Tunnels and the lookup of the process that holds a port are inputs; the
    forwards that exist are part of the state. *)
From stdpp Require Import base strings gmap list sorting.
From Stdlib Require Import ZArith Lia.
From S2P Require Import Prelude Model.
Local Open Scope string_scope.

(** ** Node states: the fields that the manager reads (nodetransport.NodeStatus,
    model.InstanceStatus) *)

Definition HealthRunning := "running".
Definition HealthHealthy := "healthy".
Definition HealthRestarting := "restarting".

Record InstanceStatus : Type := mkInstance {
  is_ServiceName : string;
  is_DeploymentID : string;
  is_Health : string;
  is_Ports : list Z;
}.

Record NodeStatus : Type := mkNode {
  ns_HostID : string;
  ns_Name : string;
  ns_Deployments : list InstanceStatus;
}.

(** ** The state *)

Definition MirrorStatePending := "pending".
Definition MirrorStateActive := "active".
Definition MirrorStateConflict := "conflict".
Definition MirrorStateFailed := "failed".

Definition errCodeConflict := "port_mirror_conflict".
Definition errCodeDuplicate := "duplicate_port_declaration".

Definition defaultCooldown : duration := (30 * second)%Z.

(** Host, deployment and port. *)
Definition mirrorKey : Type := string * string * Z.
(** Host and port: one forward. *)
Definition fwdKey : Type := string * Z.

Definition key_host (k : mirrorKey) : string := k.1.1.
Definition key_deployment (k : mirrorKey) : string := k.1.2.
Definition key_port (k : mirrorKey) : Z := k.2.
Definition key_fwd (k : mirrorKey) : fwdKey := (key_host k, key_port k).

Record Occupier : Type := mkOccupier {
  oc_PID : Z;
  oc_Name : string;
  oc_StartedAt : time;
  oc_ManagedDeploymentID : string;
}.

(** The identity of an entry is its key in the map. *)
Record mirrorEntry : Type := mkEntry {
  en_hostName : string;
  en_serviceName : string;
  en_state : string;
  en_errCode : string;
  en_occupier : option Occupier;
  en_lastAttempt : time;
  en_forwardUp : bool;
  en_updatedAt : time;
}.

Record expInfo : Type := mkExp {
  ex_hostName : string;
  ex_serviceName : string;
  ex_duplicate : bool;
}.

(** [mi_forwards]: the forwards that the tunnels hold, each a listener on the local port. *)
Record Mirror : Type := mkMirror {
  mi_entries : gmap mirrorKey mirrorEntry;
  mi_forwards : gset fwdKey;
}.

Inductive forward_result : Type :=
| FwdOk
| FwdBusy
| FwdError (code : string).

(** The inputs of a round.  [me_connect]: what connecting to a host ends with, the empty code
    for success; [me_forward]: what the host and the local port allow. *)
Record MirrorEnv : Type := mkMirrorEnv {
  me_now : time;
  me_frame : list NodeStatus;
  me_hosts : list Host;
  me_known : option (gset string);
  me_retries : gset fwdKey;
  me_connect : string -> string;
  me_forward : string -> Z -> forward_result;
  me_occupier : Z -> option Occupier;
}.

(** ** The expected mirrors *)

(** [lessKey]: host, port, deployment. *)
Definition lessKey (a b : mirrorKey) : bool :=
  if negb (key_host a =? key_host b) then String.ltb (key_host a) (key_host b)
  else if negb (key_port a =? key_port b)%Z then (key_port a <? key_port b)%Z
  else String.ltb (key_deployment a) (key_deployment b).

Definition isRunningHealth (h : string) : bool :=
  (h =? HealthRunning) || (h =? HealthHealthy) || (h =? HealthRestarting).

Definition hostDisplayName (h : Host) (n : NodeStatus) : string :=
  if negb (hst_Name h =? "") then hst_Name h else ns_Name n.

(** Hosts by identifier; a later one of the same identifier wins. *)
Definition hosts_by_id (hosts : list Host) : gmap string Host :=
  foldl (fun m h => <[hst_ID h := h]> m) ∅ hosts.

(** A candidate: its key, the name of its host and that of its service. *)
Definition cand : Type := mirrorKey * (string * string).

Definition instance_cands (known : option (gset string)) (n : NodeStatus) (h : Host)
    (inst : InstanceStatus) : list cand :=
  let managed := match known with
                 | None => true
                 | Some ids => bool_decide (is_DeploymentID inst ∈ ids)
                 end in
  if negb managed then []
  else if negb (isRunningHealth (is_Health inst)) then []
  else
    (fun p => ((ns_HostID n, is_DeploymentID inst, p), (hostDisplayName h n, is_ServiceName inst)))
      <$> List.filter (fun p => negb (p <=? 0)%Z) (is_Ports inst).

Definition node_cands (hosts : gmap string Host) (known : option (gset string)) (n : NodeStatus)
    : list cand :=
  match hosts !! ns_HostID n with
  | None => []
  | Some h => if negb (hst_DevMachineMode h) then [] else ns_Deployments n ≫= instance_cands known n h
  end.

Definition cands (e : MirrorEnv) : list cand :=
  me_frame e ≫= node_cands (hosts_by_id (me_hosts e)) (me_known e).

Definition cand_less (a b : cand) : bool := lessKey a.1 b.1.

(** One candidate: the first of a forward wins it. *)
Definition expect (st : gmap mirrorKey expInfo * gset fwdKey) (c : cand)
    : gmap mirrorKey expInfo * gset fwdKey :=
  let '(expected, claimed) := st in
  let '(k, (hostName, serviceName)) := c in
  match expected !! k with
  | Some _ => st
  | None =>
      (<[k := mkExp hostName serviceName (bool_decide (key_fwd k ∈ claimed))]> expected,
       {[key_fwd k]} ∪ claimed)
  end.

Definition computeExpected (e : MirrorEnv) : gmap mirrorKey expInfo :=
  (foldl expect (∅, ∅) (SliceStable cand_less (cands e))).1.

(** ** Reconciling *)

(** [Tunnels.EnsureForward]: a forward that exists is kept; a local port has one listener. *)
Definition EnsureForward (e : MirrorEnv) (forwards : gset fwdKey) (k : fwdKey)
    : gset fwdKey * forward_result :=
  if bool_decide (k ∈ forwards) then (forwards, FwdOk)
  else if bool_decide (set_Exists (fun f => f.2 = k.2) forwards) then (forwards, FwdBusy)
  else match me_forward e k.1 k.2 with
       | FwdOk => ({[k]} ∪ forwards, FwdOk)
       | r => (forwards, r)
       end.

Definition DropForward (forwards : gset fwdKey) (k : fwdKey) : gset fwdKey := forwards ∖ {[k]}.

Definition drop_if (up : bool) (forwards : gset fwdKey) (k : fwdKey) : gset fwdKey :=
  if up then DropForward forwards k else forwards.

Definition with_status (state code : string) (occ : option Occupier) (last : time) (up : bool)
    (updated : time) (en : mirrorEntry) : mirrorEntry :=
  mkEntry (en_hostName en) (en_serviceName en) state code occ last up updated.

(** A retry forgets the failure of every entry of the forward. *)
Definition retry_entry (retries : gset fwdKey) (k : mirrorKey) (en : mirrorEntry) : mirrorEntry :=
  if bool_decide (key_fwd k ∈ retries) then
    if (en_state en =? MirrorStateConflict) || (en_state en =? MirrorStateFailed)
    then with_status MirrorStatePending "" None 0%Z (en_forwardUp en) (en_updatedAt en) en
    else with_status (en_state en) (en_errCode en) (en_occupier en) 0%Z (en_forwardUp en)
           (en_updatedAt en) en
  else en.

Definition applyRetries (retries : gset fwdKey) (m : Mirror) : Mirror :=
  mkMirror (map_imap (fun k en => Some (retry_entry retries k en)) (mi_entries m)) (mi_forwards m).

Definition teardownUnexpected (expected : gmap mirrorKey expInfo) (m : Mirror) : Mirror :=
  let gone := filter (fun ke => expected !! ke.1 = None) (mi_entries m) in
  mkMirror (filter (fun ke => is_Some (expected !! ke.1)) (mi_entries m))
    (map_fold (fun k en forwards => drop_if (en_forwardUp en) forwards (key_fwd k))
       (mi_forwards m) gone).

Definition isDue (now : time) (en : option mirrorEntry) : bool :=
  match en with
  | None => true
  | Some en =>
      if (en_state en =? MirrorStateActive) || (en_state en =? MirrorStatePending) then true
      else if (en_state en =? MirrorStateConflict) || (en_state en =? MirrorStateFailed)
      then (defaultCooldown <=? time_sub now (en_lastAttempt en))%Z
      else true
  end.

(** The hosts that some due mirror needs, with the code of the connection. *)
Definition connect_codes (e : MirrorEnv) (expected : gmap mirrorKey expInfo)
    (entries : gmap mirrorKey mirrorEntry) : gmap string string :=
  map_fold (fun k info codes =>
      if ex_duplicate info then codes
      else if isDue (me_now e) (entries !! k)
      then <[key_host k := me_connect e (key_host k)]> codes else codes) ∅ expected.

Definition ensureEntry (now : time) (info : expInfo) (en : option mirrorEntry) : mirrorEntry :=
  match en with
  | None => mkEntry (ex_hostName info) (ex_serviceName info) MirrorStatePending "" None 0%Z false now
  | Some en =>
      mkEntry (ex_hostName info) (ex_serviceName info) (en_state en) (en_errCode en)
        (en_occupier en) (en_lastAttempt en) (en_forwardUp en) (en_updatedAt en)
  end.

(** The three outcomes of an entry, with the forwards they leave. *)
Definition markDuplicate (now : time) (k : mirrorKey) (en : mirrorEntry) (forwards : gset fwdKey)
    : mirrorEntry * gset fwdKey :=
  let forwards := drop_if (en_forwardUp en) forwards (key_fwd k) in
  let en := with_status (en_state en) (en_errCode en) (en_occupier en) (en_lastAttempt en) false
              (en_updatedAt en) en in
  if (en_state en =? MirrorStateFailed) && (en_errCode en =? errCodeDuplicate)
  then (en, forwards)
  else (with_status MirrorStateFailed errCodeDuplicate None now false now en, forwards).

Definition markConnectFailed (now : time) (code : string) (k : mirrorKey) (en : mirrorEntry)
    (forwards : gset fwdKey) : mirrorEntry * gset fwdKey :=
  (with_status MirrorStateFailed code None now false now en,
   drop_if (en_forwardUp en) forwards (key_fwd k)).

Definition attemptForward (e : MirrorEnv) (k : mirrorKey) (en : mirrorEntry)
    (forwards : gset fwdKey) : mirrorEntry * gset fwdKey :=
  let now := me_now e in
  let '(forwards, r) := EnsureForward e forwards (key_fwd k) in
  (match r with
   | FwdOk =>
       with_status MirrorStateActive "" None now true
         (if en_state en =? MirrorStateActive then en_updatedAt en else now) en
   | FwdBusy =>
       with_status MirrorStateConflict errCodeConflict (me_occupier e (key_port k)) now false
         (if en_state en =? MirrorStateConflict then en_updatedAt en else now) en
   | FwdError code =>
       with_status MirrorStateFailed code None now false
         (if negb (en_state en =? MirrorStateFailed) || negb (en_errCode en =? code) then now
          else en_updatedAt en) en
   end, forwards).

(** One expected mirror, on its entry. *)
Definition converge_entry (e : MirrorEnv) (codes : gmap string string) (k : mirrorKey)
    (info : expInfo) (en : mirrorEntry) (forwards : gset fwdKey) : mirrorEntry * gset fwdKey :=
  if ex_duplicate info then markDuplicate (me_now e) k en forwards
  else if negb (isDue (me_now e) (Some en)) then (en, forwards)
  else match codes !! key_host k with
       | Some code =>
           if negb (code =? "") then markConnectFailed (me_now e) code k en forwards
           else attemptForward e k en forwards
       | None => attemptForward e k en forwards
       end.

Definition converge_key (e : MirrorEnv) (codes : gmap string string)
    (m : Mirror) (ki : mirrorKey * expInfo) : Mirror :=
  let '(k, info) := ki in
  let en := ensureEntry (me_now e) info (mi_entries m !! k) in
  let '(en, forwards) := converge_entry e codes k info en (mi_forwards m) in
  mkMirror (<[k := en]> (mi_entries m)) forwards.

Definition sorted_keys (expected : gmap mirrorKey expInfo) : list (mirrorKey * expInfo) :=
  SliceStable (fun a b => lessKey a.1 b.1) (map_to_list expected).

Definition converge (e : MirrorEnv) (expected : gmap mirrorKey expInfo) (m : Mirror) : Mirror :=
  let codes := connect_codes e expected (mi_entries m) in
  foldl (converge_key e codes) m (sorted_keys expected).

Definition reconcile (e : MirrorEnv) (m : Mirror) : Mirror :=
  let m := applyRetries (me_retries e) m in
  let expected := computeExpected e in
  converge e expected (teardownUnexpected expected m).

(** [Close]: every forward is taken down. *)
Definition teardownAll (m : Mirror) : Mirror :=
  mkMirror ∅ (map_fold (fun k en forwards => drop_if (en_forwardUp en) forwards (key_fwd k))
                (mi_forwards m) (mi_entries m)).

(** What happens to a manager: a round, tunnels that go down with their forwards, [Close]. *)
Inductive mirror_step : Mirror -> Mirror -> Prop :=
| step_round e m : mirror_step m (reconcile e m)
| step_lost lost m : mirror_step m (mkMirror (mi_entries m) (mi_forwards m ∖ lost))
| step_close m : mirror_step m (teardownAll m).

Definition mirror_init : Mirror := mkMirror ∅ ∅.

(** [buildSnapshot]: what [Statuses] reports. *)
Record MirrorStatus : Type := mkMirrorStatus {
  mst_Key : mirrorKey;
  mst_HostName : string;
  mst_ServiceName : string;
  mst_State : string;
  mst_Error : string;
  mst_Occupier : option Occupier;
  mst_UpdatedAt : time;
}.

Definition buildSnapshot (m : Mirror) : list MirrorStatus :=
  SliceStable (fun a b => lessKey (mst_Key a) (mst_Key b))
    ((fun ke => let '(k, en) := ke in
        mkMirrorStatus k (en_hostName en) (en_serviceName en) (en_state en) (en_errCode en)
          (en_occupier en) (en_updatedAt en)) <$> map_to_list (mi_entries m)).

(** ** The order of the keys *)

Definition key_le (a b : mirrorKey) : Prop := lessKey b a = false.

Lemma ltb_false_le a b : String.ltb b a = false <-> String.le a b.
Proof.
  unfold String.le, String.leb, String.ltb. rewrite (String.compare_antisym a b).
  by destruct (String.compare b a).
Qed.

Lemma ltb_true_le a b : String.ltb a b = true -> String.le a b /\ a <> b.
Proof.
  intros H. split.
  - unfold String.le, String.leb. unfold String.ltb in H. by destruct (String.compare a b).
  - intros ->. unfold String.ltb in H. pose proof (String.compare_antisym b b) as Hb.
    by destruct (String.compare b b).
Qed.

Lemma key_le_spec a b :
  key_le a b <->
  String.le (key_host a) (key_host b) /\
  (key_host a = key_host b ->
   (key_port a <= key_port b)%Z /\
   (key_port a = key_port b -> String.le (key_deployment a) (key_deployment b))).
Proof.
  unfold key_le, lessKey. destruct (String.eqb_spec (key_host b) (key_host a)) as [Eh|Eh]; simpl.
  - rewrite Eh. destruct (Z.eqb_spec (key_port b) (key_port a)) as [Ep|Ep]; simpl.
    + rewrite Ep, ltb_false_le. split; [intros H|naive_solver].
      split; [reflexivity|]. intros _. split; [lia|done].
    + rewrite Z.ltb_ge. split; [intros H|naive_solver].
      split; [reflexivity|]. intros _. split; [done|lia].
  - rewrite ltb_false_le. split; [intros H; split; [done|congruence]|naive_solver].
Qed.

#[global] Instance key_le_trans : Transitive key_le.
Proof.
  intros a b c. rewrite !key_le_spec. intros [Hab Hab'] [Hbc Hbc']. split; [by etrans|].
  intros E. assert (key_host a = key_host b) as Eab.
  { apply (anti_symm String.le); [done|]. by rewrite E. }
  destruct (Hab' Eab) as [Hp Hd], (Hbc' ltac:(congruence)) as [Hp' Hd']. split; [lia|].
  intros Ep. etrans; [apply Hd|apply Hd']; lia.
Qed.

#[global] Instance key_le_antisymm : AntiSymm (=) key_le.
Proof.
  intros [[h d] p] [[h' d'] p']. rewrite !key_le_spec. intros [H1 H1'] [H2 H2'].
  assert (h = h') as -> by by apply (anti_symm String.le).
  destruct (H1' eq_refl) as [Hp Hd], (H2' eq_refl) as [Hp' Hd']. unfold key_port in *; simpl in *.
  assert (p = p') as -> by lia. f_equal. f_equal.
  apply (anti_symm String.le); [by apply Hd|by apply Hd'].
Qed.

Lemma lessKey_le a b : lessKey a b = true -> key_le a b.
Proof.
  rewrite key_le_spec. unfold lessKey.
  destruct (String.eqb_spec (key_host a) (key_host b)) as [Eh|Eh]; simpl.
  - destruct (Z.eqb_spec (key_port a) (key_port b)) as [Ep|Ep]; simpl.
    + intros [H ?]%ltb_true_le. rewrite Eh. split; [reflexivity|]. intros _. split; [lia|done].
    + intros H%Z.ltb_lt. rewrite Eh. split; [reflexivity|]. intros _. split; lia.
  - intros [H ?]%ltb_true_le. done.
Qed.

Lemma sorted_by_key {A} (key : A -> mirrorKey) (l : list A) :
  StronglySorted (fun a b => key_le (key a) (key b))
    (SliceStable (fun a b => lessKey (key a) (key b)) l).
Proof.
  apply SliceStable_sorted; [intros ???; apply key_le_trans| |done].
  intros x y. apply lessKey_le.
Qed.

(** ** What is expected *)

(** After the candidates [seen], in order: the keys seen, the forwards claimed, and the first
    of each forward as its winner. *)
Record expect_inv (seen : list cand) (st : gmap mirrorKey expInfo * gset fwdKey) : Prop := {
  ei_none : forall k, st.1 !! k = None <-> (forall c, c ∈ seen -> c.1 <> k);
  ei_some : forall k info, st.1 !! k = Some info ->
    (k, (ex_hostName info, ex_serviceName info)) ∈ seen /\
    (ex_duplicate info = false <-> (forall c, c ∈ seen -> key_fwd c.1 = key_fwd k -> key_le k c.1));
  ei_claimed : forall f, f ∈ st.2 <-> (exists c, c ∈ seen /\ key_fwd c.1 = f);
  ei_winner : forall f, f ∈ st.2 ->
    exists k info, st.1 !! k = Some info /\ ex_duplicate info = false /\ key_fwd k = f;
}.

Lemma expect_inv_nil : expect_inv [] (∅, ∅).
Proof. split; simpl; set_solver. Qed.

Lemma expect_inv_seen seen st c :
  expect_inv seen st -> is_Some (st.1 !! c.1) -> (forall c', c' ∈ seen -> key_le c'.1 c.1) ->
  expect_inv (seen ++ [c]) st.
Proof.
  intros [Hn Hs Hc Hw] [info0 Hk] Hle.
  assert (exists c', c' ∈ seen /\ c'.1 = c.1) as (c' & Hc' & E).
  { apply Hs in Hk as [Hk _]. by eexists. }
  split.
  - intros k. rewrite Hn. set_solver.
  - intros k info Hk'. destruct (Hs _ _ Hk') as [Hin ->]. split; [set_solver|].
    split; [|intros H x Hx; apply H; set_solver].
    intros H x [Hx| ->%list_elem_of_singleton]%elem_of_app Ex; [by apply H|].
    rewrite <- E. apply H; [done|by rewrite E].
  - intros f. rewrite Hc. set_solver.
  - done.
Qed.

Lemma expect_inv_new seen st k hostName serviceName :
  expect_inv seen st -> st.1 !! k = None -> (forall c', c' ∈ seen -> key_le c'.1 k) ->
  expect_inv (seen ++ [(k, (hostName, serviceName))])
    (<[k := mkExp hostName serviceName (bool_decide (key_fwd k ∈ st.2))]> st.1,
     {[key_fwd k]} ∪ st.2).
Proof.
  intros [Hn Hs Hc Hw] Hk Hle. pose proof (proj1 (Hn k) Hk) as Hnew. split; simpl.
  - intros k'. rewrite lookup_insert_None, Hn. set_solver.
  - intros k' info [[<- <-]|[Hne Hk']]%lookup_insert_Some; simpl.
    + split; [set_solver|]. rewrite bool_decide_eq_false, Hc. split.
      * intros H x [Hx| ->%list_elem_of_singleton]%elem_of_app Ex; [by destruct H; exists x|simpl].
        apply key_le_spec. split; [reflexivity|]. intros _. split; [lia|done].
      * intros H (x & Hx & Ex). apply (Hnew x Hx).
        apply (anti_symm key_le); [by apply Hle|apply H; set_solver].
    + destruct (Hs _ _ Hk') as [Hin ->]. split; [set_solver|].
      split; [|intros H x Hx; apply H; set_solver].
      intros H x [Hx| ->%list_elem_of_singleton]%elem_of_app Ex; [by apply H|].
      apply (Hle _ Hin).
  - intros f. rewrite elem_of_union, elem_of_singleton, Hc. set_solver.
  - intros f Hf. destruct (decide (f ∈ st.2)) as [Hin|Hin].
    + destruct (Hw f Hin) as (k' & info & Hk' & Hd & E). exists k', info.
      rewrite lookup_insert_ne by congruence. done.
    + assert (f = key_fwd k) as -> by set_solver. eexists k, _.
      rewrite lookup_insert_eq. split; [done|]. split; [|done].
      by apply bool_decide_eq_false.
Qed.

Lemma foldl_expect seen rest st :
  StronglySorted (fun a b : cand => key_le a.1 b.1) (seen ++ rest) -> expect_inv seen st ->
  expect_inv (seen ++ rest) (foldl expect st rest).
Proof.
  revert seen st. induction rest as [|c rest IH]; intros seen st Hsorted Hinv; simpl.
  { by rewrite app_nil_r. }
  assert (forall c', c' ∈ seen -> key_le c'.1 c.1) as Hle.
  { intros c' Hc'. apply StronglySorted_app in Hsorted as [Hle _].
    apply (Hle c' c); set_solver. }
  replace (seen ++ c :: rest)%list with ((seen ++ [c]) ++ rest)%list in *
    by by rewrite <- app_assoc.
  apply IH; [done|]. unfold expect. destruct st as [expected claimed], c as [k [hn sn]].
  destruct (expected !! k) eqn:E.
  - by apply expect_inv_seen.
  - by apply expect_inv_new with (st := (expected, claimed)).
Qed.

Lemma computeExpected_inv e :
  exists claimed, expect_inv (SliceStable cand_less (cands e)) (computeExpected e, claimed).
Proof.
  unfold computeExpected.
  pose proof (foldl_expect [] (SliceStable cand_less (cands e)) (∅, ∅)
    (sorted_by_key fst (cands e)) expect_inv_nil) as H.
  destruct (foldl _ _ _) as [expected claimed]. by exists claimed.
Qed.

Lemma computeExpected_none e k :
  computeExpected e !! k = None <-> (forall c, c ∈ cands e -> c.1 <> k).
Proof.
  destruct (computeExpected_inv e) as [claimed [Hn _ _ _]]. simpl in Hn. rewrite Hn.
  by setoid_rewrite SliceStable_elem.
Qed.

Lemma computeExpected_some e k info :
  computeExpected e !! k = Some info ->
  (k, (ex_hostName info, ex_serviceName info)) ∈ cands e /\
  (ex_duplicate info = false <->
     (forall c, c ∈ cands e -> key_fwd c.1 = key_fwd k -> key_le k c.1)).
Proof.
  destruct (computeExpected_inv e) as [claimed [_ Hs _ _]]. simpl in Hs. intros H.
  apply Hs in H. by setoid_rewrite SliceStable_elem in H.
Qed.

Lemma computeExpected_winner e c :
  c ∈ cands e ->
  exists k info, computeExpected e !! k = Some info /\ ex_duplicate info = false /\
    key_fwd k = key_fwd c.1.
Proof.
  destruct (computeExpected_inv e) as [claimed [_ _ Hc Hw]]. simpl in *. intros H.
  apply Hw, Hc. exists c. by rewrite SliceStable_elem.
Qed.

(** The deployment of two winners of a forward is the same. *)
Lemma winner_unique e k k' info info' :
  computeExpected e !! k = Some info -> computeExpected e !! k' = Some info' ->
  ex_duplicate info = false -> ex_duplicate info' = false -> key_fwd k = key_fwd k' -> k = k'.
Proof.
  intros H H' Hd Hd' E. apply computeExpected_some in H as [Hin Hm], H' as [Hin' Hm'].
  apply (anti_symm key_le); [eapply (proj1 Hm Hd _ Hin')|eapply (proj1 Hm' Hd' _ Hin)]; done.
Qed.

(** ** Invariant *)

(** An entry is up exactly when it is active, a forward has an entry that is up, and a local
    port has one forward. *)
Record mirror_inv (m : Mirror) : Prop := {
  mv_up : forall k en, mi_entries m !! k = Some en ->
    (en_forwardUp en = true <-> en_state en = MirrorStateActive);
  mv_owned : forall f, f ∈ mi_forwards m ->
    exists k en, mi_entries m !! k = Some en /\ en_forwardUp en = true /\ key_fwd k = f;
  mv_ports : forall f g, f ∈ mi_forwards m -> g ∈ mi_forwards m -> f.2 = g.2 -> f = g;
}.

Lemma mirror_inv_init : mirror_inv mirror_init.
Proof. split; simpl; set_solver. Qed.

Definition entry_ok (en : mirrorEntry) : Prop :=
  en_forwardUp en = true <-> en_state en = MirrorStateActive.

Lemma retry_entry_ok retries k en : entry_ok en -> entry_ok (retry_entry retries k en).
Proof.
  unfold entry_ok, retry_entry. case_bool_decide; [|done].
  destruct (String.eqb_spec (en_state en) MirrorStateConflict) as [E|E];
    [|destruct (String.eqb_spec (en_state en) MirrorStateFailed) as [E'|E']]; simpl; [| |done].
  - rewrite E. intros ->. split; discriminate.
  - rewrite E'. intros ->. split; discriminate.
Qed.

Lemma retry_entry_up retries k en : en_forwardUp (retry_entry retries k en) = en_forwardUp en.
Proof. unfold retry_entry. case_bool_decide; [|done]. by destruct (_ || _). Qed.

Lemma applyRetries_lookup retries m k :
  mi_entries (applyRetries retries m) !! k = retry_entry retries k <$> mi_entries m !! k.
Proof. simpl. rewrite map_lookup_imap. by destruct (mi_entries m !! k). Qed.

Lemma applyRetries_inv retries m : mirror_inv m -> mirror_inv (applyRetries retries m).
Proof.
  intros [Hup Howned Hports]. split; [| |done].
  - intros k en. rewrite applyRetries_lookup. intros (en0 & H0 & ->)%fmap_Some_1.
    by eapply retry_entry_ok, Hup.
  - intros f (k & en & Hk & Hen & E)%Howned. exists k, (retry_entry retries k en).
    by rewrite applyRetries_lookup, Hk, retry_entry_up.
Qed.

(** Dropping the forwards of the entries that are up. *)
Lemma drop_all_spec (gone : gmap mirrorKey mirrorEntry) forwards f :
  f ∈ map_fold (fun k en forwards => drop_if (en_forwardUp en) forwards (key_fwd k)) forwards gone
  <-> f ∈ forwards /\
      (forall k en, gone !! k = Some en -> en_forwardUp en = true -> key_fwd k <> f).
Proof.
  revert gone. apply (map_fold_weak_ind (fun fs g => f ∈ fs <-> f ∈ forwards /\
      (forall k en, g !! k = Some en -> en_forwardUp en = true -> key_fwd k <> f))).
  - split; [|tauto]. intros H. split; [done|]. intros ??. by rewrite lookup_empty.
  - intros k en g fs Hk IH. unfold drop_if, DropForward.
    assert ((forall k0 en0, <[k := en]> g !! k0 = Some en0 -> en_forwardUp en0 = true ->
               key_fwd k0 <> f) <->
            (en_forwardUp en = true -> key_fwd k <> f) /\
            (forall k0 en0, g !! k0 = Some en0 -> en_forwardUp en0 = true -> key_fwd k0 <> f)) as ->.
    { split; [|intros [H1 H2] k0 en0 [[<- <-]|[_ H]]%lookup_insert_Some; eauto].
      intros H. split; [intros Hu; by apply (H k en); [apply lookup_insert_eq|]|].
      intros k0 en0 H0. apply H. rewrite lookup_insert_ne; [done|congruence]. }
    destruct (en_forwardUp en) eqn:Eup.
    + rewrite elem_of_difference, elem_of_singleton, IH. naive_solver.
    + rewrite IH. naive_solver.
Qed.

Lemma teardownUnexpected_lookup expected m k en :
  mi_entries (teardownUnexpected expected m) !! k = Some en <->
  mi_entries m !! k = Some en /\ is_Some (expected !! k).
Proof. simpl. by rewrite map_lookup_filter_Some. Qed.

Lemma teardownUnexpected_forwards expected m f :
  f ∈ mi_forwards (teardownUnexpected expected m) <->
  f ∈ mi_forwards m /\
  (forall k en, mi_entries m !! k = Some en -> expected !! k = None -> en_forwardUp en = true ->
     key_fwd k <> f).
Proof.
  simpl. rewrite drop_all_spec. setoid_rewrite map_lookup_filter_Some. simpl. naive_solver.
Qed.

Lemma teardownUnexpected_inv expected m :
  mirror_inv m -> mirror_inv (teardownUnexpected expected m).
Proof.
  intros [Hup Howned Hports]. split.
  - intros k en [H _]%teardownUnexpected_lookup. by eapply Hup.
  - intros f [Hf Hgone]%teardownUnexpected_forwards.
    destruct (Howned f Hf) as (k & en & Hk & Hen & E). exists k, en.
    rewrite teardownUnexpected_lookup. split; [|done]. split; [done|].
    destruct (expected !! k) eqn:Ex; [by eexists|]. by destruct (Hgone k en).
  - intros f g [Hf _]%teardownUnexpected_forwards [Hg _]%teardownUnexpected_forwards. by apply Hports.
Qed.

(** ** One expected mirror *)

Lemma EnsureForward_spec e forwards k forwards' r :
  EnsureForward e forwards k = (forwards', r) ->
  (r = FwdOk /\ forwards' = {[k]} ∪ forwards /\
     (k ∈ forwards \/ forall f, f ∈ forwards -> f.2 <> k.2)) \/
  (r <> FwdOk /\ forwards' = forwards /\ k ∉ forwards).
Proof.
  unfold EnsureForward. case_bool_decide as Hin.
  { intros [= <- <-]. left. split; [done|]. split; [set_solver|by left]. }
  case_bool_decide as Hport; [intros [= <- <-]; by right|].
  destruct (me_forward e k.1 k.2); intros [= <- <-]; [left|by right..].
  split; [done|]. split; [done|]. right. intros f Hf E. apply Hport. by exists f.
Qed.

(** What a mirror does to the forwards: only its own changes, and one that is there without the
    entry being up was there before. *)
Lemma converge_entry_forwards e codes k info en forwards en' forwards' :
  converge_entry e codes k info en forwards = (en', forwards') ->
  (forall f, f <> key_fwd k -> f ∈ forwards' <-> f ∈ forwards) /\
  (key_fwd k ∈ forwards' -> en_forwardUp en' = false ->
     key_fwd k ∈ forwards /\ en_forwardUp en = false) /\
  (key_fwd k ∈ forwards' -> key_fwd k ∈ forwards \/ forall f, f ∈ forwards -> f.2 <> key_port k).
Proof.
  assert (forall up f, f ∈ drop_if up forwards (key_fwd k) <->
            f ∈ forwards /\ (up = true -> f <> key_fwd k)) as Hdrop.
  { intros [] f; unfold drop_if, DropForward; set_solver. }
  assert (attemptForward e k en forwards = (en', forwards') ->
    (forall f, f <> key_fwd k -> f ∈ forwards' <-> f ∈ forwards) /\
    (key_fwd k ∈ forwards' -> en_forwardUp en' = false ->
       key_fwd k ∈ forwards /\ en_forwardUp en = false) /\
    (key_fwd k ∈ forwards' -> key_fwd k ∈ forwards \/ forall f, f ∈ forwards -> f.2 <> key_port k))
    as Hattempt.
  { unfold attemptForward. destruct (EnsureForward _ _ _) as [fs r] eqn:E. intros [= <- <-].
    apply EnsureForward_spec in E as [(-> & -> & Hp)|(Hr & -> & Hk)].
    - simpl. split; [set_solver|]. split; [done|]. by intros _.
    - split; [done|]. split; [done|]. by left. }
  unfold converge_entry, markDuplicate, markConnectFailed.
  destruct (ex_duplicate info); [destruct (_ && _)|destruct (isDue _ _); [destruct (codes !! _) as [code|];
    [destruct (code =? "")|]|]]; simpl; [| |done| |done|].
  1-3: intros [= <- <-]; simpl; setoid_rewrite Hdrop; destruct (en_forwardUp en); naive_solver.
  intros [= <- <-]. naive_solver.
Qed.

Lemma converge_entry_duplicate e codes k info en forwards :
  ex_duplicate info = true ->
  en_forwardUp (converge_entry e codes k info en forwards).1 = false /\
  en_state (converge_entry e codes k info en forwards).1 = MirrorStateFailed /\
  en_errCode (converge_entry e codes k info en forwards).1 = errCodeDuplicate.
Proof.
  intros Hd. unfold converge_entry. rewrite Hd. unfold markDuplicate. cbn [en_state en_errCode with_status].
  destruct (String.eqb_spec (en_state en) MirrorStateFailed); [|done].
  by destruct (String.eqb_spec (en_errCode en) errCodeDuplicate).
Qed.

Lemma converge_entry_ok e codes k info en forwards :
  entry_ok en -> entry_ok (converge_entry e codes k info en forwards).1.
Proof.
  intros Hen. destruct (ex_duplicate info) eqn:Hd.
  { destruct (converge_entry_duplicate e codes k info en forwards Hd) as (Hu & Hs & _).
    unfold entry_ok. rewrite Hu, Hs. by split. }
  assert (entry_ok (attemptForward e k en forwards).1) as Hattempt.
  { unfold attemptForward. destruct (EnsureForward _ _ _) as [fs []]; by split. }
  unfold converge_entry, markConnectFailed. rewrite Hd.
  destruct (isDue _ _); [|done]. destruct (codes !! _) as [code|]; [|done].
  by destruct (code =? "").
Qed.

Lemma ensureEntry_ok now info en :
  (forall en', en = Some en' -> entry_ok en') -> entry_ok (ensureEntry now info en).
Proof. destruct en; intros H; [by apply (H _ eq_refl)|]. by split. Qed.

Lemma ensureEntry_up now info en :
  en_forwardUp (ensureEntry now info en) = from_option en_forwardUp false en.
Proof. by destruct en. Qed.

Lemma converge_key_inv e codes m ki : mirror_inv m -> mirror_inv (converge_key e codes m ki).
Proof.
  intros [Hup Howned Hports]. destruct ki as [k info]. unfold converge_key.
  set (en0 := ensureEntry (me_now e) info (mi_entries m !! k)).
  assert (entry_ok en0) as Hen0 by (apply ensureEntry_ok; intros en'; apply Hup).
  pose proof (converge_entry_ok e codes k info en0 (mi_forwards m) Hen0) as Hok.
  destruct (converge_entry _ _ _ _ _ _) as [en fs] eqn:E. simpl in Hok.
  apply converge_entry_forwards in E as (Hother & Hown & Hport). split; simpl.
  - intros k' en' [[<- <-]|[_ H]]%lookup_insert_Some; [done|by eapply Hup].
  - intros f Hf. destruct (decide (f = key_fwd k)) as [->|Hne].
    + destruct (en_forwardUp en) eqn:Eup.
      { exists k, en. by rewrite lookup_insert_eq. }
      destruct (Hown Hf eq_refl) as [Hf0 Hdown].
      destruct (Howned _ Hf0) as (k' & en' & Hk' & Hen' & E). exists k', en'.
      rewrite lookup_insert_ne; [done|]. intros <-. unfold en0 in Hdown.
      rewrite ensureEntry_up, Hk' in Hdown. simpl in Hdown. congruence.
    + rewrite (Hother f Hne) in Hf. destruct (Howned _ Hf) as (k' & en' & Hk' & Hen' & E).
      exists k', en'. rewrite lookup_insert_ne; [done|]. congruence.
  - assert (forall g, g ∈ fs -> g <> key_fwd k -> key_fwd k ∈ fs -> g.2 <> key_port k) as Hd.
    { intros g Hg Hne Hin E. rewrite (Hother g Hne) in Hg.
      destruct (Hport Hin) as [H|H]; [|by apply (H g)].
      apply Hne, Hports; done. }
    intros f g Hf Hg E. destruct (decide (f = key_fwd k)) as [->|Hf'], (decide (g = key_fwd k)) as [->|Hg'];
      [done| | |].
    + by destruct (Hd g).
    + by destruct (Hd f).
    + apply Hports; [by apply Hother|by apply Hother|done].
Qed.

Lemma converge_inv e expected m : mirror_inv m -> mirror_inv (converge e expected m).
Proof.
  unfold converge. generalize (connect_codes e expected (mi_entries m)) as codes.
  generalize (sorted_keys expected) as l. intros l codes. revert m.
  induction l as [|ki l IH]; intros m Hm; [done|]. cbn [foldl]. by apply IH, converge_key_inv.
Qed.

Lemma reconcile_inv e m : mirror_inv m -> mirror_inv (reconcile e m).
Proof. intros H. by apply converge_inv, teardownUnexpected_inv, applyRetries_inv. Qed.

Lemma teardownAll_forwards m : mirror_inv m -> mi_forwards (teardownAll m) = ∅.
Proof.
  intros [_ Howned _]. apply set_eq. intros f. simpl. rewrite drop_all_spec. split; [|set_solver].
  intros [(k & en & Hk & Hen & E)%Howned H]. by destruct (H k en).
Qed.

Lemma mirror_step_inv m m' : mirror_step m m' -> mirror_inv m -> mirror_inv m'.
Proof.
  intros [e m1|lost m1|m1] H; [by apply reconcile_inv| |].
  - destruct H as [Hup Howned Hports]. split; simpl; [done|set_solver|set_solver].
  - pose proof (teardownAll_forwards m1 H) as E. split.
    + intros ??. simpl. by rewrite lookup_empty.
    + rewrite E. set_solver.
    + rewrite E. set_solver.
Qed.

Lemma mirror_steps_inv m m' : rtc mirror_step m m' -> mirror_inv m -> mirror_inv m'.
Proof. induction 1; eauto using mirror_step_inv. Qed.

Lemma reachable_inv m : rtc mirror_step mirror_init m -> mirror_inv m.
Proof. intros H. by apply (mirror_steps_inv _ _ H), mirror_inv_init. Qed.

(** ** A round, entry by entry *)

Lemma sorted_keys_elem expected k info :
  (k, info) ∈ sorted_keys expected <-> expected !! k = Some info.
Proof. unfold sorted_keys. by rewrite SliceStable_elem, elem_of_map_to_list. Qed.

Lemma sorted_keys_nodup expected : NoDup (sorted_keys expected).*1.
Proof. unfold sorted_keys. rewrite SliceStable_perm. apply NoDup_fst_map_to_list. Qed.

Lemma converge_key_lookup_ne e codes m ki k :
  k <> ki.1 -> mi_entries (converge_key e codes m ki) !! k = mi_entries m !! k.
Proof.
  destruct ki as [k' info]. simpl. intros H. destruct (converge_entry _ _ _ _ _ _). simpl.
  by rewrite lookup_insert_ne.
Qed.

Lemma foldl_converge_lookup_ne e codes l m k :
  k ∉ l.*1 -> mi_entries (foldl (converge_key e codes) m l) !! k = mi_entries m !! k.
Proof.
  revert m. induction l as [|ki l IH]; intros m Hk; [done|]. cbn [foldl]. cbn in Hk.
  rewrite IH by set_solver. apply converge_key_lookup_ne. set_solver.
Qed.

(** An expected mirror is settled once, on the entry it had before the round. *)
Lemma foldl_converge_lookup e codes l m k info :
  NoDup l.*1 -> (k, info) ∈ l ->
  exists fs, mi_entries (foldl (converge_key e codes) m l) !! k =
    Some (converge_entry e codes k info (ensureEntry (me_now e) info (mi_entries m !! k)) fs).1.
Proof.
  revert m. induction l as [|ki l IH]; intros m Hnd Hin; [by apply not_elem_of_nil in Hin|].
  cbn [foldl]. cbn in Hnd. apply NoDup_cons in Hnd as [Hki Hnd].
  apply elem_of_cons in Hin as [<-|Hin].
  - exists (mi_forwards m). rewrite foldl_converge_lookup_ne by done. unfold converge_key.
    destruct (converge_entry _ _ _ _ _ _). simpl. by rewrite lookup_insert_eq.
  - destruct (IH (converge_key e codes m ki) Hnd Hin) as [fs ->]. exists fs.
    rewrite converge_key_lookup_ne; [done|]. intros ->. apply Hki.
    by apply (list_elem_of_fmap_2 fst) in Hin.
Qed.

Lemma reconcile_lookup e m k info :
  computeExpected e !! k = Some info ->
  exists codes fs, mi_entries (reconcile e m) !! k =
    Some (converge_entry e codes k info
            (ensureEntry (me_now e) info (retry_entry (me_retries e) k <$> mi_entries m !! k)) fs).1.
Proof.
  intros Hk. unfold reconcile, converge.
  set (m1 := teardownUnexpected _ _).
  destruct (foldl_converge_lookup e (connect_codes e (computeExpected e) (mi_entries m1))
    (sorted_keys (computeExpected e)) m1 k info (sorted_keys_nodup _)) as [fs ->];
    [by apply sorted_keys_elem|].
  exists (connect_codes e (computeExpected e) (mi_entries m1)), fs.
  assert (mi_entries m1 !! k = retry_entry (me_retries e) k <$> mi_entries m !! k) as ->; [|done].
  rewrite <- applyRetries_lookup. apply option_eq. intros en. unfold m1.
  rewrite teardownUnexpected_lookup, Hk. naive_solver.
Qed.

Lemma reconcile_dom e m : dom (mi_entries (reconcile e m)) = dom (computeExpected e).
Proof.
  apply set_eq. intros k. rewrite !elem_of_dom. split.
  - intros [en H]. destruct (computeExpected e !! k) eqn:E; [done|]. exfalso. revert H.
    unfold reconcile, converge. rewrite foldl_converge_lookup_ne.
    + intros [_ [? H]]%teardownUnexpected_lookup. congruence.
    + intros [[k' info] [-> H]]%list_elem_of_fmap. apply sorted_keys_elem in H. simpl in E. congruence.
  - intros [info H]. destruct (reconcile_lookup e m k info H) as (codes & fs & ->). by eexists.
Qed.

Lemma reconcile_up_winner e m k en :
  mi_entries (reconcile e m) !! k = Some en -> en_forwardUp en = true ->
  exists info, computeExpected e !! k = Some info /\ ex_duplicate info = false.
Proof.
  intros H Hup. assert (is_Some (computeExpected e !! k)) as [info Hk].
  { apply elem_of_dom. rewrite <- (reconcile_dom e m). by apply elem_of_dom. }
  exists info. split; [done|]. destruct (ex_duplicate info) eqn:Hd; [|done].
  destruct (reconcile_lookup e m k info Hk) as (codes & fs & E). rewrite H in E. injection E as ->.
  destruct (converge_entry_duplicate e codes k info
    (ensureEntry (me_now e) info (retry_entry (me_retries e) k <$> mi_entries m !! k)) fs Hd). congruence.
Qed.

(** ** Rounds in which everything works *)

(** Every machine is reachable, every local port is free, and no two machines are expected on
    one local port. *)
Record all_ok (e : MirrorEnv) : Prop := {
  ok_connect : forall h, me_connect e h = "";
  ok_forward : forall h p, me_forward e h p = FwdOk;
  ok_ports : forall k k', is_Some (computeExpected e !! k) -> is_Some (computeExpected e !! k') ->
    key_port k = key_port k' -> key_host k = key_host k';
}.

(** Forwards of expected mirrors only. *)
Definition forwards_expected (e : MirrorEnv) (forwards : gset fwdKey) : Prop :=
  forall f, f ∈ forwards -> exists k, is_Some (computeExpected e !! k) /\ key_fwd k = f.

Definition codes_ok (codes : gmap string string) : Prop :=
  forall h code, codes !! h = Some code -> code = "".

Lemma connect_codes_ok e expected entries :
  (forall h, me_connect e h = "") -> codes_ok (connect_codes e expected entries).
Proof.
  intros Hc. unfold connect_codes. revert expected.
  apply (map_fold_weak_ind (fun codes _ => codes_ok codes)).
  - intros h code. by rewrite lookup_empty.
  - intros k info m codes _ IH. destruct (ex_duplicate info); [done|].
    destruct (isDue _ _); [|done]. intros h code [[_ <-]|[_ H]]%lookup_insert_Some; [done|].
    by apply IH in H.
Qed.

Lemma EnsureForward_ok e forwards k :
  all_ok e -> forwards_expected e forwards -> is_Some (computeExpected e !! k) ->
  EnsureForward e forwards (key_fwd k) = ({[key_fwd k]} ∪ forwards, FwdOk).
Proof.
  intros Hok Hf Hk. unfold EnsureForward. case_bool_decide as Hin; [f_equal; set_solver|].
  rewrite bool_decide_eq_false_2.
  - by rewrite (ok_forward e Hok).
  - intros (f & Hff & E). destruct (Hf f Hff) as (k' & Hk' & <-). apply Hin.
    assert (key_fwd k = key_fwd k') as ->; [|done]. unfold key_fwd in *. simpl in *.
    rewrite (ok_ports e Hok k k' Hk Hk'), E; done.
Qed.

Lemma converge_entry_winner e codes k info en forwards :
  all_ok e -> codes_ok codes -> forwards_expected e forwards -> computeExpected e !! k = Some info ->
  ex_duplicate info = false -> isDue (me_now e) (Some en) = true ->
  en_state (converge_entry e codes k info en forwards).1 = MirrorStateActive /\
  (converge_entry e codes k info en forwards).2 = {[key_fwd k]} ∪ forwards.
Proof.
  intros Hok Hcodes Hf Hk Hd Hdue. unfold converge_entry. rewrite Hd, Hdue. simpl.
  assert (en_state (attemptForward e k en forwards).1 = MirrorStateActive /\
    (attemptForward e k en forwards).2 = {[key_fwd k]} ∪ forwards) as Ha.
  { unfold attemptForward. by rewrite EnsureForward_ok by eauto. }
  destruct (codes !! key_host k) as [code|] eqn:E; [|done].
  by rewrite (Hcodes _ _ E).
Qed.

Lemma converge_entry_down e codes k info en forwards :
  ex_duplicate info = true -> en_forwardUp en = false ->
  (converge_entry e codes k info en forwards).2 = forwards.
Proof.
  intros Hd Hu. unfold converge_entry, markDuplicate. rewrite Hd, Hu. simpl. by destruct (_ && _).
Qed.

Section RoundOk.
Context (e : MirrorEnv) (codes : gmap string string) (Hok : all_ok e) (Hcodes : codes_ok codes).

Let settle (m : Mirror) (k : mirrorKey) (info : expInfo) : mirrorEntry :=
  ensureEntry (me_now e) info (mi_entries m !! k).

Lemma converge_key_expected m k info :
  computeExpected e !! k = Some info -> forwards_expected e (mi_forwards m) ->
  forwards_expected e (mi_forwards (converge_key e codes m (k, info))).
Proof.
  intros Hk Hf f. unfold converge_key. destruct (converge_entry _ _ _ _ _ _) as [en fs] eqn:E.
  apply converge_entry_forwards in E as (Hother & _). simpl. intros Hin.
  destruct (decide (f = key_fwd k)) as [->|Hne]; [by exists k|]. apply Hf. by apply Hother.
Qed.

Lemma foldl_converge_active l m :
  forwards_expected e (mi_forwards m) -> NoDup l.*1 ->
  (forall k info, (k, info) ∈ l -> computeExpected e !! k = Some info) ->
  (forall k info, (k, info) ∈ l -> ex_duplicate info = false ->
     isDue (me_now e) (Some (settle m k info)) = true) ->
  forall k info, (k, info) ∈ l -> ex_duplicate info = false ->
  exists en, mi_entries (foldl (converge_key e codes) m l) !! k = Some en /\
    en_state en = MirrorStateActive.
Proof using Hok Hcodes.
  revert m. induction l as [|[k0 i0] l IH]; intros m Hf Hnd He Hdue k info Hin Hd;
    [by apply not_elem_of_nil in Hin|].
  cbn [foldl]. cbn in Hnd. apply NoDup_cons in Hnd as [Hk0 Hnd].
  pose proof (converge_key_expected m k0 i0 (He _ _ (list_elem_of_here _ _)) Hf) as Hf'.
  apply elem_of_cons in Hin as [[= -> ->]|Hin].
  - rewrite foldl_converge_lookup_ne by done. unfold converge_key.
    destruct (converge_entry_winner e codes k0 i0 (settle m k0 i0) (mi_forwards m)) as [Hs _];
      [done..|by apply He, list_elem_of_here|done|by apply Hdue; [apply list_elem_of_here|]|].
    unfold settle in Hs. destruct (converge_entry _ _ _ _ _ _). simpl in *.
    rewrite lookup_insert_eq. by eexists.
  - apply IH with (info := info); [done|done| | |done|done].
    + intros k' i' H'. by apply He, list_elem_of_further.
    + intros k' i' H' Hd'. unfold settle. rewrite converge_key_lookup_ne.
      * by apply Hdue; [apply list_elem_of_further|].
      * intros ->. by apply (list_elem_of_fmap_2 fst) in H'.
Qed.

Lemma foldl_converge_forwards l m :
  forwards_expected e (mi_forwards m) -> NoDup l.*1 ->
  (forall k info, (k, info) ∈ l -> computeExpected e !! k = Some info) ->
  (forall k info, (k, info) ∈ l -> ex_duplicate info = false ->
     isDue (me_now e) (Some (settle m k info)) = true) ->
  (forall k info, (k, info) ∈ l -> ex_duplicate info = true ->
     en_forwardUp (settle m k info) = false) ->
  forall f, f ∈ mi_forwards (foldl (converge_key e codes) m l) <->
    f ∈ mi_forwards m \/ exists k info, (k, info) ∈ l /\ ex_duplicate info = false /\ key_fwd k = f.
Proof using Hok Hcodes.
  revert m. induction l as [|[k0 i0] l IH]; intros m Hf Hnd He Hdue Hdown f; [set_solver|].
  cbn [foldl]. cbn in Hnd. apply NoDup_cons in Hnd as [Hk0 Hnd].
  pose proof (list_elem_of_here (k0, i0) l) as H0.
  pose proof (converge_key_expected m k0 i0 (He _ _ H0) Hf) as Hf'.
  assert (forall k i, (k, i) ∈ l ->
    settle (converge_key e codes m (k0, i0)) k i = settle m k i) as Hsettle.
  { intros k i H. unfold settle. rewrite converge_key_lookup_ne; [done|].
    intros ->. by apply (list_elem_of_fmap_2 fst) in H. }
  rewrite IH; [|done|done| | |].
  - assert (mi_forwards (converge_key e codes m (k0, i0)) =
      if ex_duplicate i0 then mi_forwards m else {[key_fwd k0]} ∪ mi_forwards m) as ->.
    { unfold converge_key. fold (settle m k0 i0). destruct (ex_duplicate i0) eqn:Hd.
      - pose proof (converge_entry_down e codes k0 i0 (settle m k0 i0) (mi_forwards m) Hd
          (Hdown _ _ H0 Hd)). by destruct (converge_entry _ _ _ _ _ _).
      - destruct (converge_entry_winner e codes k0 i0 (settle m k0 i0) (mi_forwards m) Hok Hcodes Hf
          (He _ _ H0) Hd (Hdue _ _ H0 Hd)) as [_ Hw]. by destruct (converge_entry _ _ _ _ _ _). }
    setoid_rewrite elem_of_cons. destruct (ex_duplicate i0) eqn:Hd.
    + split; [intros [H|(k & i & H & Hi & E)]; [by left|right; by eauto 6]|].
      intros [H|(k & i & [[= -> ->]|H] & Hi & E)]; [by left|congruence|right; by eauto].
    + rewrite elem_of_union, elem_of_singleton. split.
      * intros [[->|H]|(k & i & H & Hi & E)]; [right; by eauto 6|by left|right; by eauto 6].
      * intros [H|(k & i & [[= -> ->]|H] & Hi & E)]; [auto|auto|right; by eauto].
  - intros k i H. by apply He, list_elem_of_further.
  - intros k i H. rewrite (Hsettle k i H). by apply Hdue, list_elem_of_further.
  - intros k i H. rewrite (Hsettle k i H). by apply Hdown, list_elem_of_further.
Qed.
End RoundOk.

Lemma isDue_ensure now info en :
  (forall en', en = Some en' -> isDue now (Some en') = true) ->
  isDue now (Some (ensureEntry now info en)) = true.
Proof. destruct en as [en|]; [|done]. intros H. by apply (H en). Qed.

Lemma retry_entry_due now retries k en :
  isDue now (Some en) = true -> isDue now (Some (retry_entry retries k en)) = true.
Proof.
  unfold retry_entry. case_bool_decide; [|done]. unfold isDue.
  destruct (String.eqb_spec (en_state en) MirrorStateConflict) as [E|E]; [done|].
  destruct (String.eqb_spec (en_state en) MirrorStateFailed) as [E'|E']; [done|]. simpl.
  apply String.eqb_neq in E, E'. rewrite E, E'. by destruct (_ || _).
Qed.

(** A round from a state that satisfies the invariant, when nothing is cooling down. *)
Lemma reconcile_ok e m :
  all_ok e -> mirror_inv m ->
  (forall k info en, computeExpected e !! k = Some info -> ex_duplicate info = false ->
     mi_entries m !! k = Some en -> isDue (me_now e) (Some en) = true) ->
  (forall k info, computeExpected e !! k = Some info -> ex_duplicate info = false ->
     exists en, mi_entries (reconcile e m) !! k = Some en /\ en_state en = MirrorStateActive) /\
  ((forall k info en, computeExpected e !! k = Some info -> ex_duplicate info = true ->
      mi_entries m !! k = Some en -> en_forwardUp en = false) ->
   forall f, f ∈ mi_forwards (reconcile e m) <->
     exists k info, computeExpected e !! k = Some info /\ ex_duplicate info = false /\ key_fwd k = f).
Proof.
  intros Hok Hinv Hdue. unfold reconcile, converge.
  set (expected := computeExpected e). set (m1 := teardownUnexpected _ _).
  set (codes := connect_codes _ _ _).
  assert (codes_ok codes) as Hcodes by apply connect_codes_ok, Hok.
  assert (mirror_inv m1) as [_ Howned _] by by apply teardownUnexpected_inv, applyRetries_inv.
  assert (forall k info, expected !! k = Some info ->
    mi_entries m1 !! k = retry_entry (me_retries e) k <$> mi_entries m !! k) as Hm1.
  { intros k info Hk. rewrite <- applyRetries_lookup. apply option_eq. intros en. unfold m1.
    rewrite teardownUnexpected_lookup, Hk. naive_solver. }
  assert (forwards_expected e (mi_forwards m1)) as Hf.
  { intros f (k & en & Hk & _ & E)%Howned. exists k.
    by apply teardownUnexpected_lookup in Hk as [_ Hk]. }
  assert (forall k info, (k, info) ∈ sorted_keys expected -> ex_duplicate info = false ->
    isDue (me_now e) (Some (ensureEntry (me_now e) info (mi_entries m1 !! k))) = true) as Hdue1.
  { intros k info Hk%sorted_keys_elem Hd. rewrite (Hm1 _ _ Hk). apply isDue_ensure.
    intros en (en0 & H0 & ->)%fmap_Some_1. by eapply retry_entry_due, Hdue. }
  pose proof (sorted_keys_nodup expected) as Hnd. split.
  - intros k info Hk Hd.
    apply (foldl_converge_active e codes Hok Hcodes (sorted_keys expected) m1 Hf Hnd)
      with (info := info); [|done|by apply sorted_keys_elem|done].
    intros k' i'. by rewrite sorted_keys_elem.
  - intros Hdown f.
    rewrite (foldl_converge_forwards e codes Hok Hcodes (sorted_keys expected) m1 Hf Hnd).
    + setoid_rewrite sorted_keys_elem. split; [|by right]. intros [Hin|H]; [|done].
      destruct (Howned f Hin) as (k & en & Hk & Hup & <-).
      pose proof (proj1 (teardownUnexpected_lookup _ _ _ _) Hk) as [_ [info Hinfo]].
      exists k, info. split; [done|]. split; [|done]. destruct (ex_duplicate info) eqn:Hd; [|done].
      rewrite (Hm1 _ _ Hinfo) in Hk. apply fmap_Some_1 in Hk as (en0 & H0 & ->).
      rewrite retry_entry_up in Hup. by rewrite (Hdown _ _ _ Hinfo Hd H0) in Hup.
    + intros k info. by rewrite sorted_keys_elem.
    + done.
    + intros k info Hk%sorted_keys_elem Hd. rewrite ensureEntry_up, (Hm1 _ _ Hk).
      destruct (mi_entries m !! k) as [en|] eqn:E; [|done]. simpl. rewrite retry_entry_up. eauto.
Qed.

(** ** Theorems *)

Lemma instance_cands_elem known n h inst c :
  c ∈ instance_cands known n h inst <->
  (forall ids, known = Some ids -> is_DeploymentID inst ∈ ids) /\
  isRunningHealth (is_Health inst) = true /\
  exists p, p ∈ is_Ports inst /\ (0 < p)%Z /\
    c = ((ns_HostID n, is_DeploymentID inst, p), (hostDisplayName h n, is_ServiceName inst)).
Proof.
  unfold instance_cands.
  assert ((forall ids, known = Some ids -> is_DeploymentID inst ∈ ids) <->
    match known with None => true | Some ids => bool_decide (is_DeploymentID inst ∈ ids) end = true)
    as ->.
  { destruct known as [ids|]; [|naive_solver]. rewrite bool_decide_eq_true. naive_solver. }
  destruct (match known with None => true | Some ids => _ end); simpl; [|set_solver].
  destruct (isRunningHealth _); simpl; [|set_solver].
  rewrite list_elem_of_fmap. split.
  - intros (p & -> & Hp). rewrite list_elem_of_In, filter_In, <- list_elem_of_In in Hp.
    destruct Hp as [Hp Hpos]. split; [done|]. split; [done|]. exists p. split; [done|].
    split; [bool_prop; lia|done].
  - intros (_ & _ & p & Hp & Hpos & ->). exists p. split; [done|].
    rewrite list_elem_of_In, filter_In, <- list_elem_of_In. split; [done|].
    apply negb_true_iff, Z.leb_gt. lia.
Qed.

(** What calls for a mirror: a node of the frame, on a machine in developer mode, runs an
    instance of a known deployment that declares the port. *)
Definition called_for (e : MirrorEnv) (k : mirrorKey) (names : string * string) : Prop :=
  exists n h inst,
    n ∈ me_frame e /\ hosts_by_id (me_hosts e) !! ns_HostID n = Some h /\
    hst_DevMachineMode h = true /\ inst ∈ ns_Deployments n /\
    (forall ids, me_known e = Some ids -> is_DeploymentID inst ∈ ids) /\
    isRunningHealth (is_Health inst) = true /\ key_port k ∈ is_Ports inst /\ (0 < key_port k)%Z /\
    k = (ns_HostID n, is_DeploymentID inst, key_port k) /\
    names = (hostDisplayName h n, is_ServiceName inst).

Lemma cands_elem e k names : (k, names) ∈ cands e <-> called_for e k names.
Proof.
  unfold cands, called_for. rewrite list_elem_of_bind. split.
  - intros (n & Hc & Hn). unfold node_cands in Hc.
    destruct (hosts_by_id _ !! _) as [h|] eqn:Eh; [|by apply not_elem_of_nil in Hc].
    destruct (hst_DevMachineMode h) eqn:Ed; simpl in Hc; [|by apply not_elem_of_nil in Hc].
    apply list_elem_of_bind in Hc as (inst & (Hk & Hr & p & Hp & Hpos & [= -> ->])%instance_cands_elem & Hi).
    exists n, h, inst. done.
  - intros (n & h & inst & Hn & Hh & Hd & Hi & Hk & Hr & Hp & Hpos & E & ->). exists n. split; [|done].
    unfold node_cands. rewrite Hh, Hd. simpl. apply list_elem_of_bind. exists inst. split; [|done].
    apply instance_cands_elem. split; [done|]. split; [done|]. exists (key_port k).
    split; [done|]. split; [done|]. by rewrite E at 1.
Qed.

(** The mirrors that [computeExpected] calls for are exactly the running instances of known
    deployments on machines in developer mode, each positive port they declare; and of the
    deployments that declare one port of one machine exactly one wins it, the one whose
    identifier is least, whatever the order of the frame. *)
Theorem computeExpected_exact e :
  (forall k, is_Some (computeExpected e !! k) <-> exists names, called_for e k names) /\
  (forall k info, computeExpected e !! k = Some info ->
     called_for e k (ex_hostName info, ex_serviceName info) /\
     (ex_duplicate info = false <->
      forall k' names, called_for e k' names -> key_fwd k' = key_fwd k ->
        String.le (key_deployment k) (key_deployment k'))) /\
  (forall k names, called_for e k names ->
     exists! w, key_fwd w = key_fwd k /\
       exists info, computeExpected e !! w = Some info /\ ex_duplicate info = false).
Proof.
  split; [|split].
  - intros k. split.
    + intros [info H%computeExpected_some]. eexists. apply cands_elem, H.
    + intros [names H%cands_elem]. destruct (computeExpected e !! k) eqn:E; [done|].
      by destruct (proj1 (computeExpected_none e k) E _ H).
  - intros k info [H ->]%computeExpected_some. rewrite cands_elem in H. split; [done|]. split.
    + intros Hm k' names H'%cands_elem E. destruct (proj1 (key_le_spec k k') (Hm _ H' E)) as [_ Hle].
      unfold key_fwd in E. injection E as Eh Ep. apply Hle; done.
    + intros Hm [k' names] H' E. change (key_le k k'). apply key_le_spec. simpl in E. unfold key_fwd in E.
      injection E as Eh Ep. rewrite Eh, Ep. split; [done|]. intros _. split; [lia|]. intros _.
      apply (Hm k' names); [by apply cands_elem|]. unfold key_fwd. by rewrite Eh, Ep.
  - intros k names H%cands_elem. destruct (computeExpected_winner e _ H) as (w & info & Hw & Hd & E).
    exists w. split; [by eauto|]. intros w' (E' & info' & Hw' & Hd').
    eapply winner_unique; [done..|]. simpl in E. congruence.
Qed.

(** C28: whatever rounds have run and whatever tunnels have gone down: a local port has one
    forward, and every forward belongs to an entry that reports it as active.  A round keeps an
    entry for exactly the expected mirrors and reports a forward only for the winner of its
    port, so no two deployments of a machine are active on one port; and [Close] leaves no
    forward. *)
Theorem mirrors_safe m :
  rtc mirror_step mirror_init m ->
  (forall f g, f ∈ mi_forwards m -> g ∈ mi_forwards m -> f.2 = g.2 -> f = g) /\
  (forall f, f ∈ mi_forwards m ->
     exists k en, mi_entries m !! k = Some en /\ en_state en = MirrorStateActive /\ key_fwd k = f) /\
  (forall e, dom (mi_entries (reconcile e m)) = dom (computeExpected e)) /\
  (forall e k en, mi_entries (reconcile e m) !! k = Some en -> en_state en = MirrorStateActive ->
     (exists info, computeExpected e !! k = Some info /\ ex_duplicate info = false) /\
     forall k' en', mi_entries (reconcile e m) !! k' = Some en' ->
       en_state en' = MirrorStateActive -> key_fwd k' = key_fwd k -> k' = k) /\
  mi_forwards (teardownAll m) = ∅.
Proof.
  intros Hm%reachable_inv. split; [apply Hm|]. split.
  { intros f (k & en & Hk & Hup & E)%(mv_owned m Hm). exists k, en. split; [done|].
    split; [by apply (mv_up m Hm k en)|done]. }
  split; [intros e; apply reconcile_dom|]. split; [|by apply teardownAll_forwards].
  intros e k en Hk Hs. pose proof (reconcile_inv e m Hm) as [Hup _ _].
  apply (Hup k en Hk) in Hs. destruct (reconcile_up_winner e m k en Hk Hs) as (info & Hi & Hd).
  split; [by eauto|]. intros k' en' Hk' Hs' E. apply (Hup k' en' Hk') in Hs'.
  destruct (reconcile_up_winner e m k' en' Hk' Hs') as (info' & Hi' & Hd').
  by eapply winner_unique.
Qed.

(** C29: two rounds repair everything, when both rounds find the same mirrors expected, every
    machine can be connected to and every local port can be opened in both, no two machines are
    expected on one local port, and no winner is cooling down in the first.  Then, from any
    state that the manager can be in, the second round ends with exactly the forwards of the
    winners; it reports each winner as active and each of the other deployments of its machine
    on that port as a duplicate, also when tunnels went down in between.  Two machines on one
    local port do not converge: the second stays in conflict ([two_machines_one_port]). *)
Theorem mirrors_converge m e1 e2 lost :
  rtc mirror_step mirror_init m -> all_ok e1 -> all_ok e2 ->
  computeExpected e1 = computeExpected e2 ->
  (forall k info en, computeExpected e1 !! k = Some info -> ex_duplicate info = false ->
     mi_entries m !! k = Some en -> isDue (me_now e1) (Some en) = true) ->
  let m1 := reconcile e1 m in
  let m2 := reconcile e2 (mkMirror (mi_entries m1) (mi_forwards m1 ∖ lost)) in
  (forall f, f ∈ mi_forwards m2 <->
     exists k info, computeExpected e2 !! k = Some info /\ ex_duplicate info = false /\ key_fwd k = f) /\
  (forall k info, computeExpected e2 !! k = Some info ->
     exists en, mi_entries m2 !! k = Some en /\
       if ex_duplicate info then en_state en = MirrorStateFailed /\ en_errCode en = errCodeDuplicate
       else en_state en = MirrorStateActive).
Proof.
  intros Hm%reachable_inv Hok1 Hok2 Hexp Hdue m1 m2.
  destruct (reconcile_ok e1 m Hok1 Hm Hdue) as [Hactive _].
  pose proof (reconcile_inv e1 m Hm) as Hm1.
  destruct (reconcile_ok e2 (mkMirror (mi_entries m1) (mi_forwards m1 ∖ lost)) Hok2) as [H1 H2].
  { by apply (mirror_step_inv m1); [constructor|]. }
  { simpl. intros k info en Hk Hd Hen. rewrite <- Hexp in Hk.
    destruct (Hactive k info Hk Hd) as (en' & Hen' & Hs). unfold m1 in Hen.
    rewrite Hen in Hen'. injection Hen' as ->. unfold isDue. by rewrite Hs. }
  split.
  - apply H2. simpl. intros k info en Hk Hd Hen. rewrite <- Hexp in Hk.
    destruct (en_forwardUp en) eqn:Hup; [|done].
    destruct (reconcile_up_winner e1 m k en Hen Hup) as (info' & Hi' & Hd'). congruence.
  - intros k info Hk. destruct (ex_duplicate info) eqn:Hd; [|by apply (H1 k info)].
    destruct (reconcile_lookup e2 (mkMirror (mi_entries m1) (mi_forwards m1 ∖ lost)) k info Hk)
      as (codes & fs & E). eexists. split; [exact E|]. by apply converge_entry_duplicate.
Qed.

(** ** On a concrete machine *)

Module Example.

Definition dev : Host :=
  {| hst_ID := "h1"; hst_Name := "dev"; hst_PublicIP := ""; hst_PrivateIP := ""; hst_Tags := [];
     hst_SSHHost := ""; hst_SSHPort := 22%Z; hst_SSHUser := ""; hst_SSHPassword := "";
     hst_SSHPrivateKey := ""; hst_SSHHostKeyFingerprint := ""; hst_DevMachineMode := true;
     hst_PendingTunnelInvalidationRevision := "" |}.

Definition running (id : string) (ports : list Z) : InstanceStatus :=
  mkInstance id id HealthRunning ports.

(** The machine [h1] runs the instances, everything works. *)
Definition env (now : time) (insts : list InstanceStatus) : MirrorEnv :=
  mkMirrorEnv now [mkNode "h1" "" insts] [dev] None ∅ (fun _ => "") (fun _ _ => FwdOk) (fun _ => None).

Definition one : MirrorEnv := env 100 [running "b" [80%Z]].
Definition two : MirrorEnv := env 200 [running "b" [80%Z; 81%Z]; running "a" [80%Z]].

Lemma two_ok now : all_ok (env now [running "b" [80%Z; 81%Z]; running "a" [80%Z]]).
Proof.
  split; [done..|]. intros k k' [info H%computeExpected_some] [info' H'%computeExpected_some] _.
  destruct H as [(n & h & i & Hn & _ & _ & _ & _ & _ & _ & _ & -> & _)%cands_elem _].
  destruct H' as [(n' & h' & i' & Hn' & _ & _ & _ & _ & _ & _ & _ & -> & _)%cands_elem _].
  simpl in Hn, Hn'. set_solver.
Qed.

Definition after_one : Mirror := reconcile one mirror_init.

Lemma after_one_reachable : rtc mirror_step mirror_init after_one.
Proof. apply rtc_once. constructor. Qed.
End Example.

Lemma mirrors_safe_witness :
  mi_forwards (teardownAll Example.after_one) = ∅ /\
  mi_forwards Example.after_one = {[("h1", 80%Z)]}.
Proof.
  split; [|by vm_compute].
  apply (mirrors_safe Example.after_one Example.after_one_reachable).
Defined.

(** The deployment [b] has the port; then [a] takes it over and [b] gets another one.  The
    tunnel goes down between the two rounds. *)
Lemma mirrors_converge_witness :
  let m1 := reconcile Example.two Example.after_one in
  let e2 := Example.env 300 [Example.running "b" [80%Z; 81%Z]; Example.running "a" [80%Z]] in
  let m2 := reconcile e2 (mkMirror (mi_entries m1) (mi_forwards m1 ∖ {[("h1", 81%Z)]})) in
  ("h1", 80%Z) ∈ mi_forwards m2 /\ ("h1", 81%Z) ∈ mi_forwards m2.
Proof.
  pose proof (mirrors_converge Example.after_one Example.two
    (Example.env 300 [Example.running "b" [80%Z; 81%Z]; Example.running "a" [80%Z]]) {[("h1", 81%Z)]}
    Example.after_one_reachable (Example.two_ok _) (Example.two_ok _) eq_refl) as H.
  destruct H as [H _].
  - intros k info en Hk Hd Hen. change (mi_entries Example.after_one) with
      ({[("h1", "b", 80%Z) := mkEntry "dev" "b" MirrorStateActive "" None 100%Z true 100%Z]}
       : gmap mirrorKey mirrorEntry) in Hen.
    by apply lookup_singleton_Some in Hen as [_ <-].
  - split; apply H.
    + exists ("h1", "a", 80%Z), (mkExp "dev" "a" false). split; [by vm_compute|done].
    + exists ("h1", "b", 81%Z), (mkExp "dev" "b" false). split; [by vm_compute|done].
Defined.

(** One round is not enough when the winner of a port changes: the new winner, whose key comes
    first, finds the forward in place and is reported active; then the old winner, now a
    duplicate, takes the forward down. *)
Example demoted_loser_drops_winner :
  let m := reconcile Example.two Example.after_one in
  en_state <$> mi_entries m !! ("h1", "a", 80%Z) = Some MirrorStateActive /\
  en_forwardUp <$> mi_entries m !! ("h1", "a", 80%Z) = Some true /\
  mi_forwards m = {[("h1", 81%Z)]}.
Proof. by vm_compute. Qed.

(** Two machines with a service on one port: the second never gets it. *)
Example two_machines_one_port :
  let other := {| hst_ID := "h2"; hst_Name := "ci"; hst_PublicIP := ""; hst_PrivateIP := "";
     hst_Tags := []; hst_SSHHost := ""; hst_SSHPort := 22%Z; hst_SSHUser := ""; hst_SSHPassword := "";
     hst_SSHPrivateKey := ""; hst_SSHHostKeyFingerprint := ""; hst_DevMachineMode := true;
     hst_PendingTunnelInvalidationRevision := "" |} in
  let e now := mkMirrorEnv now
    [mkNode "h1" "" [Example.running "a" [80%Z]]; mkNode "h2" "" [Example.running "b" [80%Z]]]
    [Example.dev; other] None ∅ (fun _ => "") (fun _ _ => FwdOk) (fun _ => None) in
  let m := reconcile (e (200 * second)%Z) (reconcile (e 100%Z) mirror_init) in
  en_state <$> mi_entries m !! ("h1", "a", 80%Z) = Some MirrorStateActive /\
  en_state <$> mi_entries m !! ("h2", "b", 80%Z) = Some MirrorStateConflict.
Proof. by vm_compute. Qed.
