(* ===== verification/HostKeys.v ===== *)
(** * Host-key pins and SSH dialling (tunnel/tunnel.go, [SSHDialer] of tunnel/manager.go)

    A pin is an OpenSSH fingerprint: "SHA256:" and the unpadded base64 text of a digest.  It is
    checked before any connection, compared with the key that the machine presents, and turned
    into an identity, the digest of the pin, that can be shown.  The SSH library and the network
    are the class [SSH]; base64 is written out. *)
From stdpp Require Import base strings list.
From Stdlib Require Import Ascii ZArith Lia.
From S2P Require Import Prelude OperationTypes Model.
Local Open Scope string_scope.

(** ** encoding/base64: RawStdEncoding.Strict() *)

Definition b64_value (c : ascii) : option Z :=
  let n := Z.of_nat (nat_of_ascii c) in
  if ((65 <=? n) && (n <=? 90))%Z then Some (n - 65)%Z
  else if ((97 <=? n) && (n <=? 122))%Z then Some (n - 71)%Z
  else if ((48 <=? n) && (n <=? 57))%Z then Some (n + 4)%Z
  else if (n =? 43)%Z then Some 62%Z
  else if (n =? 47)%Z then Some 63%Z
  else None.

Definition b64_char (v : Z) : ascii :=
  byte_of (Z.to_nat (if (v <? 26)%Z then v + 65 else if (v <? 52)%Z then v + 71
                     else if (v <? 62)%Z then v - 4 else if (v =? 62)%Z then 43 else 47)%Z).

(** Three bytes in four values; unused bits of the last value are zero. *)
Fixpoint b64_values (bs : list Z) : list Z :=
  match bs with
  | a :: b :: c :: bs =>
      (a / 4 :: a mod 4 * 16 + b / 16 :: b mod 16 * 4 + c / 64 :: c mod 64 :: b64_values bs)%Z
  | [a; b] => [a / 4; a mod 4 * 16 + b / 16; b mod 16 * 4]%Z
  | [a] => [a / 4; a mod 4 * 16]%Z
  | [] => []
  end.

Fixpoint b64_bytes (vs : list Z) : option (list Z) :=
  match vs with
  | a :: b :: c :: d :: vs =>
      bs ← b64_bytes vs; Some (a * 4 + b / 16 :: b mod 16 * 16 + c / 4 :: c mod 4 * 64 + d :: bs)%Z
  | [a; b; c] =>
      if (c mod 4 =? 0)%Z then Some [a * 4 + b / 16; b mod 16 * 16 + c / 4]%Z else None
  | [a; b] => if (b mod 16 =? 0)%Z then Some [a * 4 + b / 16]%Z else None
  | [_] => None
  | [] => Some []
  end.

Definition EncodeToString (bs : list Z) : string :=
  String.string_of_list_ascii (b64_char <$> b64_values bs).

(** Line breaks are skipped. *)
Definition DecodeString (s : string) : option (list Z) :=
  let chars := List.filter (fun c => negb (Ascii.eqb c (byte_of 10) || Ascii.eqb c (byte_of 13)))
                 (String.list_ascii_of_string s) in
  mapM b64_value chars ≫= b64_bytes.

(** ** Pins *)

Inductive ssh_error : Type :=
| ErrHostKeyFingerprintRequired
| ErrHostKeyFingerprintInvalid
| ErrHostKeyMismatch
| ErrLocalPortBusy
| errTunnelClosed
| errManagerClosed
| errConnectionAttemptInvalidated
| errTunnelDialFailed
| sshConnectionError (cause : ssh_error)
| OtherError (msg : string).

(** [errors.Is] sees through the wrapping. *)
Fixpoint PublicError (err : ssh_error) : string :=
  match err with
  | ErrHostKeyFingerprintRequired => "ssh_host_key_pin_required"
  | ErrHostKeyFingerprintInvalid => "ssh_host_key_pin_invalid"
  | ErrHostKeyMismatch => "ssh_host_key_mismatch"
  | sshConnectionError cause => PublicError cause
  | _ => "ssh_connection_failed"
  end.

Definition pin_prefix := "SHA256:".

(** [strings.HasPrefix] and [strings.TrimPrefix]: what follows the prefix, if the string has it. *)
Definition CutPrefix (p s : string) : option string :=
  String.string_of_list_ascii <$>
    strip_prefix (String.list_ascii_of_string p) (String.list_ascii_of_string s).

Definition CanonicalHostKeyFingerprint (raw : string) : result ssh_error string :=
  let fingerprint := TrimSpace raw in
  if fingerprint =? "" then Err ErrHostKeyFingerprintRequired
  else if negb (fingerprint =? raw) then Err ErrHostKeyFingerprintInvalid
  else
    match CutPrefix pin_prefix fingerprint with
    | None => Err ErrHostKeyFingerprintInvalid
    | Some encoded =>
        match DecodeString encoded with
        | None => Err ErrHostKeyFingerprintInvalid
        | Some digest =>
            if negb (length digest =? 32)%nat || negb (EncodeToString digest =? encoded)
            then Err ErrHostKeyFingerprintInvalid
            else Ok fingerprint
        end
    end.

Section Identity.
Context `{D : Digest}.

Definition HostKeyIdentitySHA256 (fingerprint : string) : result ssh_error string :=
  rbind (CanonicalHostKeyFingerprint fingerprint) (fun canonical => Ok (bytes_digest canonical)).
End Identity.

Record HostKeyEvidence : Type := mkEvidence {
  hke_Verified : bool;
  hke_IdentitySHA256 : string;
}.

(** The zero value: nothing is known. *)
Definition no_evidence : HostKeyEvidence := mkEvidence false "".

(** ** Credentials and the client configuration *)

Record Target : Type := mkTarget {
  tg_HostID : string;
  tg_SSHHost : string;
  tg_SSHPort : Z;
  tg_SSHUser : string;
  tg_SSHPassword : string;
  tg_SSHPrivateKey : string;
  tg_SSHHostKeyFingerprint : string;
  tg_RemoteAgentPort : Z;
  tg_LocalPort : Z;
}.

Record Credentials : Type := mkCredentials {
  crd_User : string;
  crd_Password : string;
  crd_PrivateKey : string;
  crd_HostKeyFingerprint : string;
}.

Definition CredentialsFromTarget (t : Target) : Credentials :=
  mkCredentials (tg_SSHUser t) (tg_SSHPassword t) (TrimSpace (tg_SSHPrivateKey t))
    (tg_SSHHostKeyFingerprint t).

(** A key is preferred to a password. *)
Inductive AuthMethod : Type :=
| PublicKeys (key : string)
| Password (password : string).

Record ClientConfig : Type := mkClientConfig {
  cc_User : string;
  cc_Auth : list AuthMethod;
  cc_Expected : string;   (** the pin of [HostKeyCallback] *)
}.

(** golang.org/x/crypto/ssh and the network: the keys, whether a private key can be parsed, the
    key that an address presents and what follows the handshake, [None] for success. *)
Class SSH : Type := {
  PublicKey : Type;
  FingerprintSHA256 : PublicKey -> string;
  ParsePrivateKey : string -> bool;
}.

Record network {L : SSH} : Type := mkNetwork {
  net_present : string -> Z -> option PublicKey;
  net_login : string -> Z -> ClientConfig -> option string;
  net_listen : Z -> option Z;                  (** the local port, [None] when it is not free *)
}.
Arguments network : clear implicits.

Section Dial.
Context `{D : Digest} {L : SSH}.

Definition BuildClientConfigWithHostKeyEvidence (c : Credentials) : result ssh_error ClientConfig :=
  rbind (CanonicalHostKeyFingerprint (crd_HostKeyFingerprint c)) (fun fingerprint =>
  if crd_User c =? "" then Err (OtherError "user is required")
  else if negb (crd_PrivateKey c =? "") then
    if ParsePrivateKey (crd_PrivateKey c)
    then Ok (mkClientConfig (crd_User c) [PublicKeys (crd_PrivateKey c)] fingerprint)
    else Err (OtherError "parse private key")
  else if negb (crd_Password c =? "")
  then Ok (mkClientConfig (crd_User c) [Password (crd_Password c)] fingerprint)
  else Err (OtherError "at least one of PrivateKey or Password is required")).

(** [HostKeyVerifier.verify]: the evidence that the callback records. *)
Definition verify (expected : string) (key : PublicKey) : result ssh_error HostKeyEvidence :=
  let actual := FingerprintSHA256 key in
  match HostKeyIdentitySHA256 actual with
  | Err _ => Err ErrHostKeyFingerprintInvalid
  | Ok identity =>
      if negb (actual =? expected) then Err ErrHostKeyMismatch else Ok (mkEvidence true identity)
  end.

(** [DialSSHClient]: the library calls [verify] with the key before it logs in. *)
Definition DialSSHClient (n : network L) (addr : string) (port : Z) (cfg : ClientConfig)
    : result ssh_error HostKeyEvidence :=
  match net_present n addr port with
  | None => Err (sshConnectionError (OtherError "dial"))
  | Some key =>
      match verify (cc_Expected cfg) key with
      | Err e => Err (sshConnectionError e)
      | Ok evidence =>
          match net_login n addr port cfg with
          | Some msg => Err (sshConnectionError (OtherError msg))
          | None => Ok evidence
          end
      end
  end.

Definition DefaultSSHPort : Z := 22.

(** [SSHDialer.Dial]: the local port and the evidence. *)
Definition SSHDialer_Dial (n : network L) (t : Target) : result ssh_error (Z * HostKeyEvidence) :=
  if tg_HostID t =? "" then Err (OtherError "host id is required")
  else if tg_SSHHost t =? "" then Err (OtherError "ssh host is required")
  else
    rbind (BuildClientConfigWithHostKeyEvidence (CredentialsFromTarget t)) (fun cfg =>
    let sshPort := if (tg_SSHPort t =? 0)%Z then DefaultSSHPort else tg_SSHPort t in
    rbind (DialSSHClient n (tg_SSHHost t) sshPort cfg) (fun evidence =>
    match net_listen n (tg_LocalPort t) with
    | None => Err (OtherError "listen local")
    | Some port =>
        if negb (hke_Verified evidence) then Err ErrHostKeyMismatch else Ok (port, evidence)
    end)).
End Dial.

(** ** base64 *)

Definition b64_range : list Z := Z.of_nat <$> seq 0 64.

Lemma b64_range_elem v : (0 <= v < 64)%Z <-> v ∈ b64_range.
Proof.
  unfold b64_range. rewrite list_elem_of_fmap. split.
  - intros H. exists (Z.to_nat v). rewrite elem_of_seq. lia.
  - intros (n & -> & H%elem_of_seq). lia.
Qed.

(** A fact about every value, by computation. *)
Lemma b64_all (P : Z -> bool) : forallb P b64_range = true -> forall v, (0 <= v < 64)%Z -> P v = true.
Proof. rewrite forallb_forall. intros H v Hv%b64_range_elem. by apply H, list_elem_of_In. Qed.

Lemma b64_value_char v : (0 <= v < 64)%Z -> b64_value (b64_char v) = Some v.
Proof.
  intros H. apply (bool_decide_eq_true (b64_value (b64_char v) = Some v)). revert v H.
  apply (b64_all (fun v => bool_decide (b64_value (b64_char v) = Some v))). by vm_compute.
Qed.

Definition is_byte (b : Z) : Prop := (0 <= b < 256)%Z.

(** Lists of bytes three at a time. *)
Lemma three_ind {A} (P : list A -> Prop) :
  P [] -> (forall a, P [a]) -> (forall a b, P [a; b]) ->
  (forall a b c l, P l -> P (a :: b :: c :: l)) -> forall l, P l.
Proof.
  intros H0 H1 H2 H3. fix IH 1. intros [|a [|b [|c l]]]; [done|done|done|].
  apply H3, IH.
Qed.

Lemma b64_values_range bs : Forall is_byte bs -> Forall (fun v => (0 <= v < 64)%Z) (b64_values bs).
Proof.
  unfold is_byte. induction bs as [|a|a b|a b c bs IH] using three_ind; cbn [b64_values];
    rewrite ?Forall_cons; [constructor|..].
  1-3: intros H; decompose [and] H; repeat split; try constructor; try (by apply IH);
    Z.div_mod_to_equations; lia.
Qed.

Lemma b64_bytes_values bs : Forall is_byte bs -> b64_bytes (b64_values bs) = Some bs.
Proof.
  unfold is_byte. induction bs as [|a|a b|a b c bs IH] using three_ind; cbn [b64_values b64_bytes];
    rewrite ?Forall_cons; [done|..].
  - intros [H _]. replace (a mod 4 * 16 mod 16)%Z with 0%Z by (rewrite Z.mod_mul; lia).
    simpl. f_equal. f_equal. Z.div_mod_to_equations. lia.
  - intros (H & H' & _). replace (b mod 16 * 4 mod 4)%Z with 0%Z by (rewrite Z.mod_mul; lia).
    simpl. f_equal. f_equal; [|f_equal]; Z.div_mod_to_equations; lia.
  - intros (Ha & Hb & Hc & H). rewrite (IH H). simpl.
    f_equal. f_equal; [|f_equal; [|f_equal]]; Z.div_mod_to_equations; lia.
Qed.

Lemma b64_value_range c v : b64_value c = Some v -> (0 <= v < 64)%Z.
Proof.
  unfold b64_value. intros H.
  repeat match type of H with context [if ?b then _ else _] => destruct b eqn:? end;
    simplify_eq; bool_prop; lia.
Qed.

Lemma b64_bytes_range vs bs :
  Forall (fun v => (0 <= v < 64)%Z) vs -> b64_bytes vs = Some bs -> Forall is_byte bs.
Proof.
  unfold is_byte. revert vs bs. fix IH 1. intros [|a [|b [|c [|d vs]]]] bs Hvs; cbn [b64_bytes].
  - intros [= <-]. constructor.
  - done.
  - destruct (_ =? _)%Z eqn:E; [|done]. intros [= <-]. rewrite !Forall_cons in Hvs. rewrite !Forall_cons.
    split; [|constructor]. bool_prop. Z.div_mod_to_equations. lia.
  - destruct (_ =? _)%Z eqn:E; [|done]. intros [= <-]. rewrite !Forall_cons in Hvs. rewrite !Forall_cons.
    bool_prop. split; [|split; [|constructor]]; Z.div_mod_to_equations; lia.
  - destruct (b64_bytes vs) as [bs'|] eqn:E; [|done]. simpl. intros [= <-].
    rewrite !Forall_cons in Hvs. rewrite !Forall_cons. destruct Hvs as (Ha & Hb & Hc & Hd & Hvs).
    specialize (IH vs bs' Hvs E).
    split; [|split; [|split; [|done]]]; Z.div_mod_to_equations; lia.
Qed.

Lemma mapM_b64_range cs vs : mapM b64_value cs = Some vs -> Forall (fun v => (0 <= v < 64)%Z) vs.
Proof.
  revert vs. induction cs as [|c cs IH]; simpl; [intros vs [= <-]; constructor|].
  intros vs (v & Hv & (vs' & Hvs' & [= <-])%bind_Some)%bind_Some.
  constructor; [by eapply b64_value_range|by apply IH].
Qed.

Lemma Decode_bytes s bs : DecodeString s = Some bs -> Forall is_byte bs.
Proof.
  unfold DecodeString. intros (vs & Hvs & H)%bind_Some. eapply b64_bytes_range; [|done].
  by eapply mapM_b64_range.
Qed.

Lemma Decode_Encode bs : Forall is_byte bs -> DecodeString (EncodeToString bs) = Some bs.
Proof.
  intros Hbs. unfold DecodeString, EncodeToString.
  rewrite String.list_ascii_of_string_of_list_ascii.
  pose proof (b64_values_range bs Hbs) as Hvs. rewrite <- (b64_bytes_values bs Hbs).
  assert (mapM b64_value (List.filter (fun c => negb (Ascii.eqb c (byte_of 10) || Ascii.eqb c (byte_of 13)))
    (b64_char <$> b64_values bs)) = Some (b64_values bs)) as ->; [|done].
  induction Hvs as [|v vs Hv Hvs IH]; [done|]. cbn [fmap list_fmap List.filter].
  rewrite (b64_all (fun v => negb (Ascii.eqb (b64_char v) (byte_of 10) || Ascii.eqb (b64_char v) (byte_of 13))))
    by (by vm_compute || done).
  cbn. rewrite b64_value_char by done. simpl. cbn in IH. by rewrite IH.
Qed.

(** ** Pins *)

Lemma ascii_of_string_app s t :
  String.list_ascii_of_string (s +:+ t) =
  (String.list_ascii_of_string s ++ String.list_ascii_of_string t)%list.
Proof. induction s as [|c s IH]; [done|]. simpl. by rewrite IH. Qed.

Lemma CutPrefix_Some p s s' : CutPrefix p s = Some s' <-> s = p +:+ s'.
Proof.
  unfold CutPrefix. split.
  - intros (l & Hl & ->)%fmap_Some. apply strip_prefix_app in Hl.
    rewrite <- (String.string_of_list_ascii_of_string s), Hl.
    rewrite <- (String.string_of_list_ascii_of_string (p +:+ _)), ascii_of_string_app.
    by rewrite String.list_ascii_of_string_of_list_ascii.
  - intros ->. rewrite ascii_of_string_app, strip_prefix_self. simpl.
    by rewrite String.string_of_list_ascii_of_string.
Qed.

(** No code point of white space begins or ends with a character of the text of a pin. *)
Lemma b64_char_solid v :
  (0 <= v < 64)%Z ->
  Forall (fun p => head p <> Some (b64_char v)) (space_encodings ++ (@rev ascii <$> space_encodings))%list.
Proof.
  intros H. apply Forall_forall. intros p Hp. revert v H.
  assert (forall v, (0 <= v < 64)%Z ->
    forallb (fun p => bool_decide (head p <> Some (b64_char v)))
      (space_encodings ++ (@rev ascii <$> space_encodings))%list = true) as H.
  { apply (b64_all (fun v => forallb (fun p => bool_decide (head p <> Some (b64_char v)))
      (space_encodings ++ (@rev ascii <$> space_encodings))%list)). by vm_compute. }
  intros v Hv. specialize (H v Hv). rewrite forallb_forall in H.
  apply (bool_decide_eq_true (head p <> Some (b64_char v))). by apply H, list_elem_of_In.
Qed.

Lemma strip_solid (ps : list (list ascii)) c l :
  [] ∉ ps -> Forall (fun p => head p <> Some c) ps -> strip_any ps (c :: l) = None.
Proof.
  intros Hn Hp. apply strip_any_None. intros [|d p] l' Hin E; [done|].
  rewrite Forall_forall in Hp. specialize (Hp _ Hin). simplify_eq/=.
Qed.

Lemma TrimSpace_solid v w l :
  (0 <= v < 64)%Z -> (0 <= w < 64)%Z ->
  TrimSpace (String.string_of_list_ascii (b64_char v :: l ++ [b64_char w])) =
  String.string_of_list_ascii (b64_char v :: l ++ [b64_char w]).
Proof.
  intros Hv Hw. unfold TrimSpace. rewrite String.list_ascii_of_string_of_list_ascii.
  pose proof (b64_char_solid v Hv) as [Hv' _]%Forall_app.
  pose proof (b64_char_solid w Hw) as [_ Hw']%Forall_app. f_equal.
  unfold trim_left. rewrite trim_left_fuel_id by (by apply strip_solid; [apply space_encodings_nonempty|]).
  apply trim_right_id. rewrite app_comm_cons, rev_app_distr.
  by apply strip_solid; [apply rev_space_encodings_nonempty|].
Qed.

(** The text of a non-empty digest ends with a character of the alphabet. *)
Lemma Encode_last bs :
  Forall is_byte bs -> bs <> [] ->
  exists l v, (0 <= v < 64)%Z /\ String.list_ascii_of_string (EncodeToString bs) = (l ++ [b64_char v])%list.
Proof.
  intros Hbs Hne. pose proof (b64_values_range bs Hbs) as Hvs. unfold EncodeToString.
  rewrite String.list_ascii_of_string_of_list_ascii.
  destruct (b64_values bs) as [|v vs _] eqn:E using rev_ind.
  { by destruct bs as [|? [|? [|? ?]]]. }
  apply Forall_app in Hvs as [_ Hv]. apply Forall_cons in Hv as [Hv _].
  exists (b64_char <$> vs), v. by rewrite fmap_app.
Qed.

Lemma pin_trimmed bs :
  Forall is_byte bs -> bs <> [] ->
  TrimSpace (pin_prefix +:+ EncodeToString bs) = pin_prefix +:+ EncodeToString bs.
Proof.
  intros Hbs Hne. destruct (Encode_last bs Hbs Hne) as (l & v & Hv & E).
  rewrite <- (String.string_of_list_ascii_of_string (pin_prefix +:+ _)), ascii_of_string_app, E.
  change (String.list_ascii_of_string pin_prefix) with
    (b64_char 18 :: String.list_ascii_of_string "HA256:").
  rewrite <- app_comm_cons, app_assoc. apply TrimSpace_solid; lia.
Qed.

Lemma CanonicalHostKeyFingerprint_spec raw f :
  CanonicalHostKeyFingerprint raw = Ok f <->
  f = raw /\ exists digest, length digest = 32%nat /\ Forall is_byte digest /\
    raw = pin_prefix +:+ EncodeToString digest.
Proof.
  unfold CanonicalHostKeyFingerprint. split.
  - destruct (String.eqb_spec (TrimSpace raw) ""); [done|].
    destruct (String.eqb_spec (TrimSpace raw) raw) as [->|]; [simpl|done].
    destruct (CutPrefix pin_prefix raw) as [encoded|] eqn:Ec; [|done].
    apply CutPrefix_Some in Ec as ->.
    destruct (DecodeString encoded) as [digest|] eqn:Ed; [|done].
    destruct (Nat.eqb_spec (length digest) 32); [simpl|done].
    destruct (String.eqb_spec (EncodeToString digest) encoded) as [<-|]; [simpl|done].
    intros [= <-]. split; [done|]. exists digest. split; [done|]. split; [by eapply Decode_bytes|done].
  - intros (-> & digest & Hlen & Hb & ->).
    rewrite pin_trimmed by (done || by intros ->).
    destruct (String.eqb_spec (pin_prefix +:+ EncodeToString digest) ""); [done|].
    rewrite String.eqb_refl. simpl negb. cbn iota.
    replace (CutPrefix pin_prefix (pin_prefix +:+ EncodeToString digest)) with
      (Some (EncodeToString digest)) by (by symmetry; apply CutPrefix_Some).
    rewrite Decode_Encode by done. by rewrite Hlen, String.eqb_refl.
Qed.

Section Theorems.
Context `{D : Digest} {L : SSH}.

Lemma HostKeyIdentity_spec pin identity :
  HostKeyIdentitySHA256 pin = Ok identity <->
  CanonicalHostKeyFingerprint pin = Ok pin /\ identity = bytes_digest pin.
Proof.
  unfold HostKeyIdentitySHA256, rbind. destruct (CanonicalHostKeyFingerprint pin) as [f|] eqn:E.
  - pose proof (proj1 (proj1 (CanonicalHostKeyFingerprint_spec _ _) E)) as ->. naive_solver.
  - naive_solver.
Qed.

Lemma HostKeyIdentity_error pin e :
  HostKeyIdentitySHA256 pin = Err e <-> CanonicalHostKeyFingerprint pin = Err e.
Proof.
  unfold HostKeyIdentitySHA256, rbind. destruct (CanonicalHostKeyFingerprint pin); naive_solver.
Qed.

Lemma verify_ok expected key evidence :
  verify expected key = Ok evidence ->
  FingerprintSHA256 key = expected /\ hke_Verified evidence = true /\
  HostKeyIdentitySHA256 expected = Ok (hke_IdentitySHA256 evidence).
Proof.
  unfold verify. destruct (HostKeyIdentitySHA256 (FingerprintSHA256 key)) as [i|] eqn:E; [|done].
  destruct (String.eqb_spec (FingerprintSHA256 key) expected) as [<-|]; [|done].
  by intros [= <-].
Qed.

Lemma BuildClientConfig_ok c cfg :
  BuildClientConfigWithHostKeyEvidence c = Ok cfg ->
  CanonicalHostKeyFingerprint (crd_HostKeyFingerprint c) = Ok (cc_Expected cfg) /\
  cc_Expected cfg = crd_HostKeyFingerprint c /\ cc_Auth cfg <> [].
Proof.
  unfold BuildClientConfigWithHostKeyEvidence, rbind.
  destruct (CanonicalHostKeyFingerprint _) as [f|] eqn:E; [|done].
  pose proof (proj1 (proj1 (CanonicalHostKeyFingerprint_spec _ _) E)) as ->.
  repeat case_match; intros; simplify_eq; done.
Qed.

(** The pins that are accepted are exactly the texts "SHA256:" followed by the unpadded
    base64 of 32 bytes, and they are accepted as they are; the base64 text determines the bytes;
    and two accepted pins of one identity are the same pin, when the digest has no collisions. *)
Theorem canonical_pins :
  (forall raw f, CanonicalHostKeyFingerprint raw = Ok f <->
     f = raw /\ exists digest, length digest = 32%nat /\ Forall is_byte digest /\
       raw = pin_prefix +:+ EncodeToString digest) /\
  (forall bs, Forall is_byte bs -> DecodeString (EncodeToString bs) = Some bs) /\
  (CollisionFree D ->
     forall p q i, HostKeyIdentitySHA256 p = Ok i -> HostKeyIdentitySHA256 q = Ok i -> p = q).
Proof.
  split; [apply CanonicalHostKeyFingerprint_spec|]. split; [apply Decode_Encode|].
  intros ? p q i [_ ->]%HostKeyIdentity_spec [_ H]%HostKeyIdentity_spec.
  by apply bytes_digest_inj in H.
Qed.

(** A connection is dialled only for an accepted pin, whatever the network does; and a
    connection that is made was verified: the machine presented a key of exactly that pin, some
    way to log in was configured, and the evidence carries the identity of the pin. *)
Theorem SSHDialer_pinned (t : Target) :
  (forall e, CanonicalHostKeyFingerprint (tg_SSHHostKeyFingerprint t) = Err e ->
     tg_HostID t <> "" -> tg_SSHHost t <> "" -> forall n, SSHDialer_Dial n t = Err e) /\
  (forall n port evidence, SSHDialer_Dial n t = Ok (port, evidence) ->
     hke_Verified evidence = true /\
     HostKeyIdentitySHA256 (tg_SSHHostKeyFingerprint t) = Ok (hke_IdentitySHA256 evidence) /\
     exists sshPort key, net_present n (tg_SSHHost t) sshPort = Some key /\
       FingerprintSHA256 key = tg_SSHHostKeyFingerprint t /\
       net_listen n (tg_LocalPort t) = Some port).
Proof.
  unfold SSHDialer_Dial. split.
  - intros e He Hid Hhost n. apply String.eqb_neq in Hid, Hhost. rewrite Hid, Hhost.
    unfold BuildClientConfigWithHostKeyEvidence. simpl. by rewrite He.
  - intros n port evidence. destruct (tg_HostID t =? ""); [done|]. destruct (tg_SSHHost t =? ""); [done|].
    destruct (BuildClientConfigWithHostKeyEvidence _) as [cfg|] eqn:Ec; [simpl|done].
    apply BuildClientConfig_ok in Ec as (_ & Hexp & _). simpl in Hexp.
    set (p := if (tg_SSHPort t =? 0)%Z then _ else _). unfold DialSSHClient.
    destruct (net_present n (tg_SSHHost t) p) as [key|] eqn:Ek; [|done].
    destruct (verify (cc_Expected cfg) key) as [ev|] eqn:Ev; [|done].
    destruct (net_login n _ p cfg); [done|]. simpl.
    destruct (net_listen n (tg_LocalPort t)) as [lp|] eqn:El; [|done].
    apply verify_ok in Ev as (Hf & Hv & Hi). rewrite Hv. simpl. intros [= <- <-].
    rewrite Hexp in *. split; [done|]. split; [done|]. by exists p, key.
Qed.
End Theorems.
