(* ===== verification/Tunnels.v ===== *)
(** * The tunnels of the machines (tunnel/manager.go)

    The manager keeps at most one connection per machine.  Its methods are cut at their locks:
    what a method does while it holds the lock is one function, and goroutines that are between
    two locks run in any order.  A connection is dialled outside the lock; a generation number
    per machine tells whether its result may still be published. *)
From stdpp Require Import base strings gmap list.
From Stdlib Require Import ZArith Lia.
From S2P Require Import Prelude OperationTypes Model HostKeys.
Local Open Scope string_scope.

(** ** The state *)

Definition StatusDisconnected := "disconnected".
Definition StatusConnecting := "connecting".
Definition StatusConnected := "connected".
Definition StatusFailed := "failed".

(** [cn_id] tells connections apart. *)
Record Conn : Type := mkConn {
  cn_id : nat;
  cn_port : Z;
  cn_hostKey : HostKeyEvidence;
}.

(** [ca_id] stands for the pointer and its channel [done]. *)
Record connectAttempt : Type := mkAttempt {
  ca_id : nat;
  ca_generation : Z;
}.

Record Event : Type := mkEvent {
  ev_HostID : string;
  ev_Status : string;
  ev_Err : string;
}.

(** [tm_events]: what [emitLocked] has offered to the subscribers, latest first. *)
Record Manager : Type := mkManager {
  tm_conns : gmap string Conn;
  tm_status : gmap string string;
  tm_errors : gmap string string;
  tm_hostKeys : gmap string HostKeyEvidence;
  tm_connecting : gmap string connectAttempt;
  tm_generation : gmap string Z;
  tm_closed : bool;
  tm_events : list Event;
}.

Definition NewManager : Manager := mkManager ∅ ∅ ∅ ∅ ∅ ∅ false [].

(** A uint64, zero when there is none. *)
Definition generation (h : string) (m : Manager) : Z := default 0%Z (tm_generation m !! h).
Definition gen_next (g : Z) : Z := ((g + 1) mod 2 ^ 64)%Z.
Definition bump (h : string) (gens : gmap string Z) : gmap string Z :=
  <[h := gen_next (default 0%Z (gens !! h))]> gens.

Definition emitLocked (h status msg : string) (events : list Event) : list Event :=
  mkEvent h status msg :: events.

(** ** What the methods do under the lock *)

(** [Disconnect], with the connection to close. *)
Definition Disconnect_locked (h : string) (m : Manager) : Manager * option Conn :=
  if tm_closed m then (m, None)
  else (mkManager (delete h (tm_conns m)) (<[h := StatusDisconnected]> (tm_status m))
          (delete h (tm_errors m)) (delete h (tm_hostKeys m)) (tm_connecting m)
          (bump h (tm_generation m)) false (emitLocked h StatusDisconnected "" (tm_events m)),
        tm_conns m !! h).

(** [MarkFailed] *)
Definition MarkFailed_locked (h errMsg : string) (m : Manager) : Manager * option Conn :=
  if tm_closed m then (m, None)
  else (mkManager (delete h (tm_conns m)) (<[h := StatusFailed]> (tm_status m))
          (if errMsg =? "" then delete h (tm_errors m) else <[h := errMsg]> (tm_errors m))
          (delete h (tm_hostKeys m)) (tm_connecting m)
          (bump h (tm_generation m)) false (emitLocked h StatusFailed errMsg (tm_events m)),
        tm_conns m !! h).

(** [Close]: the generations of the machines that are being dialled move on. *)
Definition CloseAll_locked (m : Manager) : Manager * list Conn :=
  if tm_closed m then (m, [])
  else (mkManager ∅ ∅ ∅ ∅ (tm_connecting m)
          (map_fold (fun h _ gens => bump h gens) (tm_generation m) (tm_connecting m))
          true (tm_events m),
        (map_to_list (tm_conns m)).*2).

(** [c.hostKey.Verified && c.hostKey.IdentitySHA256 == desiredHostKeyIdentity] *)
Definition proves (identity : string) (c : Conn) : bool :=
  hke_Verified (cn_hostKey c) && (hke_IdentitySHA256 (cn_hostKey c) =? identity).

(** The second lock of [EnsureConnected]. *)
Inductive entered : Type :=
| Entered_closed
| Entered_reuse (c : Conn)
| Entered_wait (a : connectAttempt) (replaced : option Conn)
| Entered_dial (a : connectAttempt) (replaced : option Conn).

(** A connection that was made for another pin is taken out. *)
Definition replace_conn (h identity : string) (m : Manager) : Manager * option Conn :=
  match tm_conns m !! h with
  | None => (m, None)
  | Some c =>
      (mkManager (delete h (tm_conns m)) (tm_status m) (delete h (tm_errors m))
         (delete h (tm_hostKeys m)) (tm_connecting m) (bump h (tm_generation m)) (tm_closed m)
         (tm_events m), Some c)
  end.

(** Somebody is dialling already, or this caller does. *)
Definition enter_fresh (h : string) (fresh : nat) (m : Manager) (replaced : option Conn)
    : Manager * entered :=
  match tm_connecting m !! h with
  | Some a => (m, Entered_wait a replaced)
  | None =>
      let a := mkAttempt fresh (generation h m) in
      (mkManager (tm_conns m) (<[h := StatusConnecting]> (tm_status m)) (tm_errors m)
         (tm_hostKeys m) (<[h := a]> (tm_connecting m)) (tm_generation m) (tm_closed m)
         (emitLocked h StatusConnecting "" (tm_events m)),
       Entered_dial a replaced)
  end.

Definition enter_locked (h identity : string) (fresh : nat) (m : Manager) : Manager * entered :=
  if tm_closed m then (m, Entered_closed)
  else
    match tm_conns m !! h with
    | Some c =>
        if proves identity c then (m, Entered_reuse c)
        else let '(m, replaced) := replace_conn h identity m in enter_fresh h fresh m replaced
    | None => enter_fresh h fresh m None
    end.

(** The third lock, of a caller whose wait is over; [None] tells it to start again. *)
Definition wake_locked (h identity : string) (a : connectAttempt) (m : Manager)
    : option (result ssh_error Z) :=
  if tm_closed m then Some (Err errManagerClosed)
  else if negb (ca_generation a =? generation h m)%Z then Some (Err errConnectionAttemptInvalidated)
  else match tm_conns m !! h with
       | Some c => if proves identity c then Some (Ok (cn_port c)) else None
       | None => Some (Err errTunnelDialFailed)
       end.

(** The last lock: the result of the attempt is published, unless it is too late.  Second
    component: the connection that nobody will have; third: what the caller gets. *)
Definition publish_locked (h : string) (a : connectAttempt) (r : result ssh_error Conn) (m : Manager)
    : Manager * option Conn * result ssh_error Z :=
  let connecting :=
    match tm_connecting m !! h with
    | Some current => if (ca_id current =? ca_id a)%nat then delete h (tm_connecting m)
                      else tm_connecting m
    | None => tm_connecting m
    end in
  if tm_closed m || negb (generation h m =? ca_generation a)%Z then
    (mkManager (tm_conns m) (tm_status m) (tm_errors m) (tm_hostKeys m) connecting
       (tm_generation m) (tm_closed m) (tm_events m),
     match r with Ok c => Some c | Err _ => None end,
     Err (if tm_closed m then errManagerClosed else errConnectionAttemptInvalidated))
  else
    match r with
    | Err e =>
        (mkManager (tm_conns m) (<[h := StatusFailed]> (tm_status m))
           (<[h := PublicError e]> (tm_errors m)) (delete h (tm_hostKeys m)) connecting
           (tm_generation m) (tm_closed m) (emitLocked h StatusFailed (PublicError e) (tm_events m)),
         None, Err e)
    | Ok c =>
        (mkManager (<[h := c]> (tm_conns m)) (<[h := StatusConnected]> (tm_status m))
           (delete h (tm_errors m)) (<[h := cn_hostKey c]> (tm_hostKeys m)) connecting
           (tm_generation m) (tm_closed m) (emitLocked h StatusConnected "" (tm_events m)),
         None, Ok (cn_port c))
    end.

(** The queries. *)
Definition Status (h : string) (m : Manager) : string := default StatusDisconnected (tm_status m !! h).
Definition ErrorOf (h : string) (m : Manager) : string := default "" (tm_errors m !! h).
Definition LocalPort (h : string) (m : Manager) : Z :=
  from_option cn_port 0%Z (tm_conns m !! h).
Definition HostKeyEvidenceOf (h : string) (m : Manager) : HostKeyEvidence :=
  default no_evidence (tm_hostKeys m !! h).

(** ** Goroutines *)

(** Where a goroutine is in its call. *)
Inductive goroutine : Type :=
| GStart (t : Target)                                    (** [EnsureConnected], first lock *)
| GMark (h : string) (errMsg : string) (r : result ssh_error Z)  (** [MarkFailed] *)
| GEnter (t : Target) (identity : string)                (** second lock *)
| GWait (t : Target) (identity : string) (a : connectAttempt)
| GDial (t : Target) (identity : string) (a : connectAttempt)
| GPublish (t : Target) (identity : string) (a : connectAttempt) (r : result ssh_error Conn)
                                                         (** the last lock *)
| GClose (c : Conn) (k : goroutine)                      (** a connection to close, then [k] *)
| GSignal (a : connectAttempt) (r : result ssh_error Z)  (** [close(attempt.done)] *)
| GDisconnect (h : string)
| GCloseAll
| GReturn (r : result ssh_error Z).

(** [w_open]: the connections that are open; [w_done]: the attempts whose channel is closed. *)
Record World : Type := mkWorld {
  w_mgr : Manager;
  w_pool : gmap nat goroutine;
  w_next : nat;
  w_open : gset nat;
  w_done : gset nat;
}.

Definition close_then (c : option Conn) (k : goroutine) : goroutine :=
  match c with Some c => GClose c k | None => k end.

Definition nothing : result ssh_error Z := Ok 0%Z.

Inductive action : Type :=
| ACall (t : Target)                   (** somebody calls [EnsureConnected] *)
| ADisconnect (h : string)
| AMarkFailed (h errMsg : string)
| ACloseAll
| AStep (g : nat)                      (** a goroutine does its next step *)
| ADial (g : nat) (r : result ssh_error (Z * HostKeyEvidence)).   (** a dialler returns *)

Section Exec.
Context `{D : Digest}.

Definition spawn (k : goroutine) (w : World) : World :=
  mkWorld (w_mgr w) (<[w_next w := k]> (w_pool w)) (S (w_next w)) (w_open w) (w_done w).

(** Goroutine [g] goes on as [k], with the manager [m]. *)
Definition go_on (g : nat) (k : goroutine) (m : Manager) (w : World) : World :=
  mkWorld m (<[g := k]> (w_pool w)) (w_next w) (w_open w) (w_done w).

(** The next step of a goroutine; [None] when it cannot take one. *)
Definition go_next (g : nat) (k : goroutine) (w : World) : option World :=
  let m := w_mgr w in
  match k with
  | GStart t =>
      if tm_closed m then Some (go_on g (GReturn (Err errManagerClosed)) m w)
      else Some (go_on g (match HostKeyIdentitySHA256 (tg_SSHHostKeyFingerprint t) with
                          | Err e => GMark (tg_HostID t) (PublicError e) (Err e)
                          | Ok identity => GEnter t identity
                          end) m w)
  | GMark h errMsg r =>
      let '(m, c) := MarkFailed_locked h errMsg m in Some (go_on g (close_then c (GReturn r)) m w)
  | GEnter t identity =>
      let '(m, r) := enter_locked (tg_HostID t) identity (w_next w) m in
      let k := match r with
               | Entered_closed => GReturn (Err errManagerClosed)
               | Entered_reuse c => GReturn (Ok (cn_port c))
               | Entered_wait a replaced => close_then replaced (GWait t identity a)
               | Entered_dial a replaced => close_then replaced (GDial t identity a)
               end in
      Some (mkWorld m (<[g := k]> (w_pool w)) (S (w_next w)) (w_open w) (w_done w))
  | GWait t identity a =>
      if bool_decide (ca_id a ∈ w_done w) then
        Some (go_on g (match wake_locked (tg_HostID t) identity a m with
                       | Some r => GReturn r
                       | None => GStart t
                       end) m w)
      else None
  | GDial _ _ _ => None
  | GPublish t _ a r =>
      let '(m, c, r) := publish_locked (tg_HostID t) a r m in Some (go_on g (close_then c (GSignal a r)) m w)
  | GClose c k =>
      Some (mkWorld m (<[g := k]> (w_pool w)) (w_next w) (w_open w ∖ {[cn_id c]}) (w_done w))
  | GSignal a r =>
      Some (mkWorld m (<[g := GReturn r]> (w_pool w)) (w_next w) (w_open w) ({[ca_id a]} ∪ w_done w))
  | GDisconnect h =>
      let '(m, c) := Disconnect_locked h m in Some (go_on g (close_then c (GReturn nothing)) m w)
  | GCloseAll =>
      let '(m, cs) := CloseAll_locked m in Some (go_on g (foldr GClose (GReturn nothing) cs) m w)
  | GReturn _ => None
  end.

(** The dialler's result is checked against the pin once more. *)
Definition dialled (g : nat) (t : Target) (identity : string) (a : connectAttempt)
    (r : result ssh_error (Z * HostKeyEvidence)) (w : World) : World :=
  match r with
  | Err e => go_on g (GPublish t identity a (Err e)) (w_mgr w) w
  | Ok (port, evidence) =>
      let c := mkConn (w_next w) port evidence in
      mkWorld (w_mgr w)
        (<[g := if proves identity c then GPublish t identity a (Ok c)
                else GClose c (GPublish t identity a (Err ErrHostKeyMismatch))]> (w_pool w))
        (S (w_next w)) ({[cn_id c]} ∪ w_open w) (w_done w)
  end.

Definition exec (act : action) (w : World) : option World :=
  match act with
  | ACall t => Some (spawn (GStart t) w)
  | ADisconnect h => Some (spawn (GDisconnect h) w)
  | AMarkFailed h errMsg => Some (spawn (GMark h errMsg nothing) w)
  | ACloseAll => Some (spawn GCloseAll w)
  | AStep g => w_pool w !! g ≫= (fun k => go_next g k w)
  | ADial g r =>
      match w_pool w !! g with
      | Some (GDial t identity a) => Some (dialled g t identity a r w)
      | _ => None
      end
  end.

Definition initial : World := mkWorld NewManager ∅ 0 ∅ ∅.

Inductive wstep : World -> World -> Prop :=
| wstep_exec act w w' : exec act w = Some w' -> wstep w w'.

Fixpoint exec_all (acts : list action) (w : World) : option World :=
  match acts with
  | [] => Some w
  | act :: acts => exec act w ≫= exec_all acts
  end.
End Exec.

(** ** What a goroutine is responsible for *)

(** The attempt that it makes, with the machine. *)
Fixpoint flight (k : goroutine) : list (string * connectAttempt) :=
  match k with
  | GDial t _ a | GPublish t _ a _ => [(tg_HostID t, a)]
  | GClose _ k => flight k
  | _ => []
  end.

(** The connections that it will publish or close. *)
Fixpoint held (k : goroutine) : list nat :=
  match k with
  | GPublish _ _ _ (Ok c) => [cn_id c]
  | GClose c k => cn_id c :: held k
  | _ => []
  end.

(** The attempt whose end it will signal. *)
Fixpoint signals (k : goroutine) : list nat :=
  match k with
  | GDial _ _ a | GPublish _ _ a _ | GSignal a _ => [ca_id a]
  | GClose _ k => signals k
  | _ => []
  end.

(** The attempt that it waits for. *)
Fixpoint waits (k : goroutine) : list nat :=
  match k with
  | GWait _ _ a => [ca_id a]
  | GClose _ k => waits k
  | _ => []
  end.

(** The identity it asks for is that of its pin, and a connection it publishes was verified. *)
Fixpoint wf_goroutine `{D : Digest} (k : goroutine) : Prop :=
  match k with
  | GEnter t identity | GWait t identity _ | GDial t identity _ =>
      HostKeyIdentitySHA256 (tg_SSHHostKeyFingerprint t) = Ok identity
  | GPublish t identity _ r =>
      HostKeyIdentitySHA256 (tg_SSHHostKeyFingerprint t) = Ok identity /\
      match r with Ok c => proves identity c = true | Err _ => True end
  | GClose _ k => wf_goroutine k
  | _ => True
  end.

Definition collect {A} (f : goroutine -> list A) (pool : gmap nat goroutine) : list A :=
  map_to_list pool ≫= (fun gk => f gk.2).

Lemma collect_insert {A} (f : goroutine -> list A) pool g k :
  pool !! g = None -> collect f (<[g := k]> pool) ≡ₚ (f k ++ collect f pool)%list.
Proof. intros H. unfold collect. by rewrite map_to_list_insert. Qed.

Lemma collect_lookup {A} (f : goroutine -> list A) pool g k :
  pool !! g = Some k -> collect f pool ≡ₚ (f k ++ collect f (delete g pool))%list.
Proof.
  intros H. rewrite <- (insert_delete_id pool g k H) at 1. apply collect_insert, lookup_delete_eq.
Qed.

Lemma collect_update {A} (f : goroutine -> list A) pool g k :
  collect f (<[g := k]> pool) ≡ₚ (f k ++ collect f (delete g pool))%list.
Proof. rewrite <- insert_delete_eq. apply collect_insert, lookup_delete_eq. Qed.

Lemma collect_elem {A} (f : goroutine -> list A) pool x :
  x ∈ collect f pool <-> exists g k, pool !! g = Some k /\ x ∈ f k.
Proof.
  unfold collect. rewrite list_elem_of_bind. split.
  - intros ([g k] & Hx & Hin). apply elem_of_map_to_list in Hin. eauto.
  - intros (g & k & Hk & Hx). exists (g, k). by rewrite elem_of_map_to_list.
Qed.

Lemma close_then_flight c k : flight (close_then c k) = flight k.
Proof. by destruct c. Qed.
Lemma close_then_signals c k : signals (close_then c k) = signals k.
Proof. by destruct c. Qed.
Lemma close_then_waits c k : waits (close_then c k) = waits k.
Proof. by destruct c. Qed.
Lemma close_then_wf `{D : Digest} c k : wf_goroutine (close_then c k) <-> wf_goroutine k.
Proof. by destruct c. Qed.
Lemma close_then_held c k : held (close_then c k) = (option_list (cn_id <$> c) ++ held k)%list.
Proof. by destruct c. Qed.

(** ** The invariant of the manager *)

Record mgr_inv (m : Manager) : Prop := {
  mi_conn : forall h c, tm_conns m !! h = Some c ->
    hke_Verified (cn_hostKey c) = true /\ tm_hostKeys m !! h = Some (cn_hostKey c) /\
    tm_status m !! h = Some StatusConnected /\ tm_connecting m !! h = None;
  mi_keys : forall h key, tm_hostKeys m !! h = Some key -> is_Some (tm_conns m !! h);
  mi_connected : forall h, tm_status m !! h = Some StatusConnected -> is_Some (tm_conns m !! h);
  mi_connecting : forall h, tm_status m !! h = Some StatusConnecting ->
    exists a, tm_connecting m !! h = Some a /\ ca_generation a = generation h m;
  mi_closed : tm_closed m = true -> tm_conns m = ∅ /\ tm_status m = ∅ /\ tm_hostKeys m = ∅;
}.

Lemma NewManager_inv : mgr_inv NewManager.
Proof. split; simpl; intros *; rewrite ?lookup_empty; done. Qed.

Lemma generation_bump_ne h h' gens :
  h <> h' -> default 0%Z (bump h gens !! h') = default 0%Z (gens !! h').
Proof. intros H. unfold bump. by rewrite lookup_insert_ne. Qed.

(** A machine that is taken out, as [Disconnect] and [MarkFailed] do. *)
Lemma out_inv m h status errors events :
  mgr_inv m -> tm_closed m = false -> status <> StatusConnected -> status <> StatusConnecting ->
  mgr_inv (mkManager (delete h (tm_conns m)) (<[h := status]> (tm_status m)) errors
             (delete h (tm_hostKeys m)) (tm_connecting m) (bump h (tm_generation m)) false events).
Proof.
  intros [Hc Hk Hs Hcg _] Hcl H1 H2. split; simpl; [| | | |done].
  - intros h' c [Hne H]%lookup_delete_Some. rewrite lookup_delete_ne, lookup_insert_ne by done.
    by apply Hc.
  - intros h' key [Hne H]%lookup_delete_Some. rewrite lookup_delete_ne by done. eauto.
  - intros h' [[_ E]|[Hne H]]%lookup_insert_Some; [done|]. rewrite lookup_delete_ne by done. eauto.
  - intros h' [[_ E]|[Hne H]]%lookup_insert_Some; [done|]. unfold generation. simpl.
    rewrite generation_bump_ne by done. eauto.
Qed.

Lemma Disconnect_inv h m : mgr_inv m -> mgr_inv (Disconnect_locked h m).1.
Proof.
  intros H. unfold Disconnect_locked. destruct (tm_closed m) eqn:E; [done|]. by apply out_inv.
Qed.

Lemma MarkFailed_inv h msg m : mgr_inv m -> mgr_inv (MarkFailed_locked h msg m).1.
Proof.
  intros H. unfold MarkFailed_locked. destruct (tm_closed m) eqn:E; [done|]. by apply out_inv.
Qed.

Lemma Close_inv m : mgr_inv m -> mgr_inv (CloseAll_locked m).1.
Proof.
  intros H. unfold CloseAll_locked. destruct (tm_closed m) eqn:E; [done|].
  split; simpl; intros *; rewrite ?lookup_empty; done.
Qed.

(** The second lock, case by case.  A machine with a connection is not being dialled, so a
    caller that waits has replaced nothing. *)
Lemma enter_spec h identity fresh m m' r :
  mgr_inv m -> enter_locked h identity fresh m = (m', r) ->
  mgr_inv m' /\
  match r with
  | Entered_closed => m' = m
  | Entered_reuse c => m' = m /\ tm_conns m !! h = Some c /\ proves identity c = true
  | Entered_wait a replaced => m' = m /\ replaced = None /\ tm_connecting m !! h = Some a
  | Entered_dial a replaced =>
      ca_id a = fresh /\ tm_connecting m !! h = None /\ replaced = tm_conns m !! h /\
      tm_conns m' = delete h (tm_conns m) /\ tm_connecting m' = <[h := a]> (tm_connecting m)
  end.
Proof.
  intros Hm. unfold enter_locked. destruct (tm_closed m) eqn:Hcl; [by intros [= <- <-]|].
  assert (forall m0, mgr_inv m0 -> tm_closed m0 = false -> tm_conns m0 !! h = None ->
    tm_connecting m0 !! h = None ->
    mgr_inv (mkManager (tm_conns m0) (<[h := StatusConnecting]> (tm_status m0)) (tm_errors m0)
      (tm_hostKeys m0) (<[h := mkAttempt fresh (generation h m0)]> (tm_connecting m0))
      (tm_generation m0) (tm_closed m0) (emitLocked h StatusConnecting "" (tm_events m0)))) as Hdial.
  { intros m0 [Hc Hk Hs Hcg _] Hcl0 Hn Hnc. split; simpl; [| | | |by rewrite Hcl0].
    - intros h' c H. assert (h <> h') by congruence. rewrite !lookup_insert_ne by done. by apply Hc.
    - done.
    - intros h' [[_ E]|[_ H]]%lookup_insert_Some; [done|by apply Hs].
    - intros h' [[<- _]|[Hne H]]%lookup_insert_Some.
      + rewrite lookup_insert_eq. by eexists.
      + rewrite lookup_insert_ne by done. by apply Hcg. }
  destruct (tm_conns m !! h) as [c|] eqn:Ec.
  - destruct (proves identity c) eqn:Ep; [intros [= <- <-]; done|].
    destruct (mi_conn m Hm h c Ec) as (_ & _ & _ & Hnc).
    unfold replace_conn. rewrite Ec. unfold enter_fresh. cbn [tm_connecting]. rewrite Hnc.
    intros [= <- <-]. split; [|done]. rewrite Hcl.
    set (m0 := mkManager _ (tm_status m) _ _ _ _ _ _).
    assert (mgr_inv (mkManager (tm_conns m0) (<[h := StatusConnecting]> (tm_status m0)) (tm_errors m0)
      (tm_hostKeys m0) (<[h := mkAttempt fresh (generation h m0)]> (tm_connecting m0))
      (tm_generation m0) (tm_closed m0) (emitLocked h StatusConnecting "" (tm_events m0)))) as H.
    { destruct (out_inv m h StatusDisconnected (tm_errors m) (tm_events m) Hm Hcl) as [H1 H2 H3 H4 H5];
        [done..|].
      split; simpl in *; [| | | |done].
      - intros h' c' H. assert (h <> h') by (intros ->; by rewrite lookup_delete_eq in H).
        destruct (H1 h' c' H) as (? & ? & Hst & ?). rewrite !lookup_insert_ne in * by done. done.
      - done.
      - intros h' [[_ E]|[Hne H]]%lookup_insert_Some; [done|]. apply H3.
        by rewrite lookup_insert_ne.
      - intros h' [[<- _]|[Hne H]]%lookup_insert_Some.
        + rewrite lookup_insert_eq. by eexists.
        + destruct (H4 h') as (a & Ha & E); [by rewrite lookup_insert_ne|].
          rewrite lookup_insert_ne by done. by eexists. }
    exact H.
  - unfold enter_fresh. destruct (tm_connecting m !! h) as [a|] eqn:Ea; [by intros [= <- <-]|].
    intros [= <- <-]. split; [by apply Hdial|]. rewrite delete_id by done. done.
Qed.

(** The last lock. *)
Lemma publish_spec t identity a r m m' c res :
  mgr_inv m -> tm_connecting m !! tg_HostID t = Some a ->
  (forall c, r = Ok c -> proves identity c = true) ->
  publish_locked (tg_HostID t) a r m = (m', c, res) ->
  mgr_inv m' /\ tm_connecting m' = delete (tg_HostID t) (tm_connecting m) /\
  ((tm_conns m' = tm_conns m /\ c = match r with Ok c => Some c | Err _ => None end /\
      exists e, res = Err e) \/
   (exists cn, r = Ok cn /\ c = None /\ res = Ok (cn_port cn) /\
      tm_conns m !! tg_HostID t = None /\
      tm_conns m' = <[tg_HostID t := cn]> (tm_conns m) /\
      tm_closed m = false /\ ca_generation a = generation (tg_HostID t) m)).
Proof.
  set (h := tg_HostID t). intros Hm Ha Hr. unfold publish_locked. rewrite Ha, Nat.eqb_refl.
  destruct Hm as [Hc Hk Hs Hcg Hcl].
  assert (tm_conns m !! h = None) as Hn.
  { destruct (tm_conns m !! h) as [c0|] eqn:E; [|done]. destruct (Hc h c0 E) as (_ & _ & _ & H). congruence. }
  destruct (tm_closed m || negb (generation h m =? ca_generation a)%Z) eqn:Einv.
  - intros [= <- <- <-]. split; [|split; [done|left; split; [done|split; [done|by eexists]]]].
    split; simpl; [|done|done| |done].
    + intros h' c' H. destruct (Hc h' c' H) as (? & ? & ? & ?). rewrite lookup_delete_ne by congruence. done.
    + intros h' H. destruct (Hcg h' H) as (a' & Ha' & E). destruct (decide (h = h')) as [<-|Hne].
      * rewrite Ha in Ha'. injection Ha' as <-. rewrite E in Einv. unfold generation in Einv.
        rewrite Z.eqb_refl in Einv. apply orb_true_iff in Einv as [Hc'|]; [|done].
        destruct (Hcl Hc') as (_ & E' & _). by rewrite E', lookup_empty in H.
      * rewrite lookup_delete_ne by done. by eexists.
  - apply orb_false_iff in Einv as [Ecl Egen]. apply negb_false_iff, Z.eqb_eq in Egen.
    destruct r as [cn|e]; intros [= <- <- <-].
    + assert (hke_Verified (cn_hostKey cn) = true) as Hv.
      { specialize (Hr cn eq_refl). unfold proves in Hr. by apply andb_true_iff in Hr as [? _]. }
      split; [|split; [done|right; exists cn; done]].
      split; simpl; [| | | |by rewrite Ecl].
      * intros h' c' [[<- <-]|[Hne H]]%lookup_insert_Some.
        { by rewrite !lookup_insert_eq, lookup_delete_eq. }
        rewrite !lookup_insert_ne, lookup_delete_ne by done. by apply Hc.
      * intros h' key [[<- <-]|[Hne H]]%lookup_insert_Some; [by rewrite lookup_insert_eq|].
        rewrite lookup_insert_ne by done. eauto.
      * intros h' [[<- _]|[Hne H]]%lookup_insert_Some; [by rewrite lookup_insert_eq|].
        rewrite lookup_insert_ne by done. eauto.
      * intros h' [[_ E]|[Hne H]]%lookup_insert_Some; [done|]. rewrite lookup_delete_ne by done.
        by apply Hcg.
    + split; [|split; [done|left; split; [done|split; [done|by eexists]]]].
      split; simpl; [| | | |by rewrite Ecl].
      * intros h' c' H. assert (h <> h') by congruence.
        rewrite !lookup_insert_ne, !lookup_delete_ne by done. by apply Hc.
      * intros h' key [Hne H]%lookup_delete_Some. eauto.
      * intros h' [[_ E]|[Hne H]]%lookup_insert_Some; [done|]. eauto.
      * intros h' [[_ E]|[Hne H]]%lookup_insert_Some; [done|]. rewrite lookup_delete_ne by done.
        by apply Hcg.
Qed.

(** ** The invariant of the world *)

Definition conn_ids (m : Manager) : list nat := cn_id <$> (map_to_list (tm_conns m)).*2.

(** Who is responsible for which connection: the manager or a goroutine. *)
Definition owned (w : World) : list nat := (conn_ids (w_mgr w) ++ collect held (w_pool w))%list.

Record world_inv `{D : Digest} (w : World) : Prop := {
  wi_mgr : mgr_inv (w_mgr w);
  wi_wf : forall g k, w_pool w !! g = Some k -> wf_goroutine k;
  wi_flight : collect flight (w_pool w) ≡ₚ map_to_list (tm_connecting (w_mgr w));
  wi_waits : forall i, i ∈ collect waits (w_pool w) ->
    i ∈ w_done w \/ i ∈ collect signals (w_pool w);
  wi_nodup : NoDup (owned w);
  wi_open : forall i, i ∈ w_open w <-> i ∈ owned w;
  wi_fresh : forall i, i ∈ owned w -> (i < w_next w)%nat;
  wi_pool : forall g k, w_pool w !! g = Some k -> (g < w_next w)%nat;
}.

(** A machine that is being dialled is dialled by a goroutine, which signals the end. *)
Lemma connecting_flight `{D : Digest} w h a :
  world_inv w -> tm_connecting (w_mgr w) !! h = Some a ->
  exists g k, w_pool w !! g = Some k /\ (h, a) ∈ flight k.
Proof.
  intros Hw Ha. apply collect_elem. rewrite (wi_flight w Hw). by apply elem_of_map_to_list.
Qed.

Lemma flight_connecting `{D : Digest} w g k h a :
  world_inv w -> w_pool w !! g = Some k -> (h, a) ∈ flight k ->
  tm_connecting (w_mgr w) !! h = Some a.
Proof.
  intros Hw Hg Hf. apply elem_of_map_to_list. rewrite <- (wi_flight w Hw). apply collect_elem. eauto.
Qed.

Lemma flight_signals k h a : (h, a) ∈ flight k -> ca_id a ∈ signals k.
Proof. induction k; simpl; set_solver. Qed.

Lemma connecting_signals `{D : Digest} w h a :
  world_inv w -> tm_connecting (w_mgr w) !! h = Some a -> ca_id a ∈ collect signals (w_pool w).
Proof.
  intros Hw Ha. destruct (connecting_flight w h a Hw Ha) as (g & k & Hg & Hf).
  apply collect_elem. exists g, k. split; [done|]. by eapply flight_signals.
Qed.

Lemma conn_open `{D : Digest} w h c :
  world_inv w -> tm_conns (w_mgr w) !! h = Some c -> cn_id c ∈ w_open w.
Proof.
  intros Hw Hc. apply (wi_open w Hw). unfold owned, conn_ids. apply elem_of_app. left.
  apply list_elem_of_fmap. exists c. split; [done|]. apply list_elem_of_fmap. exists (h, c).
  by rewrite elem_of_map_to_list.
Qed.

Lemma collect_empty {A} (f : goroutine -> list A) : collect f ∅ = [].
Proof. unfold collect. by rewrite map_to_list_empty. Qed.

Lemma initial_inv `{D : Digest} : world_inv initial.
Proof.
  assert (owned initial = []) as Eo.
  { unfold owned, conn_ids. simpl. by rewrite collect_empty, map_to_list_empty. }
  split; rewrite ?Eo; simpl; rewrite ?collect_empty, ?map_to_list_empty.
  - apply NewManager_inv.
  - intros *. by rewrite lookup_empty.
  - done.
  - by intros i ?%elem_of_nil.
  - constructor.
  - set_solver.
  - by intros i ?%elem_of_nil.
  - intros *. by rewrite lookup_empty.
Qed.

Lemma spawn_inv `{D : Digest} k w :
  world_inv w -> flight k = [] -> held k = [] -> waits k = [] -> wf_goroutine k ->
  world_inv (spawn k w).
Proof.
  intros [Hm Hwf Hf Hw Hnd Ho Hfr Hp] Ek Eh Ew Hk.
  assert (w_pool w !! w_next w = None) as Hn.
  { destruct (w_pool w !! w_next w) eqn:E; [|done]. apply Hp in E. lia. }
  assert (owned (spawn k w) ≡ₚ owned w) as Hown.
  { unfold owned. simpl. by rewrite collect_insert, Eh by done. }
  split; simpl.
  - done.
  - intros g k' [[<- <-]|[_ H]]%lookup_insert_Some; [done|eauto].
  - by rewrite collect_insert, Ek by done.
  - intros i. rewrite collect_insert, Ew by done. intros [H|H]%Hw; [by left|right].
    rewrite collect_insert, elem_of_app by done. by right.
  - by rewrite Hown.
  - intros i. by rewrite Hown.
  - intros i. rewrite Hown. intros H%Hfr. lia.
  - intros g k' [[<- <-]|[_ H%Hp]]%lookup_insert_Some; lia.
Qed.

(** A goroutine goes on: what its step must respect.  [new] are the connections that it opens,
    [gone] those that it closes. *)
Lemma go_inv `{D : Digest} w g k k' m' next' open' done' new gone :
  world_inv w -> w_pool w !! g = Some k ->
  mgr_inv m' -> wf_goroutine k' -> (w_next w <= next')%nat ->
  (forall X, (flight k ++ X)%list ≡ₚ map_to_list (tm_connecting (w_mgr w)) ->
     (flight k' ++ X)%list ≡ₚ map_to_list (tm_connecting m')) ->
  (forall i, i ∈ signals k -> i ∈ signals k' \/ i ∈ done') -> w_done w ⊆ done' ->
  (forall i, i ∈ waits k' -> i ∈ waits k \/ i ∈ collect signals (w_pool w)) ->
  (gone ++ conn_ids m' ++ held k')%list ≡ₚ (new ++ conn_ids (w_mgr w) ++ held k)%list ->
  NoDup new -> (forall i, i ∈ new -> w_next w <= i < next')%nat ->
  (forall i, i ∈ open' <-> (i ∈ w_open w \/ i ∈ new) /\ i ∉ gone) ->
  world_inv (mkWorld m' (<[g := k']> (w_pool w)) next' open' done').
Proof.
  intros [Hm Hwf Hf Hw Hnd Ho Hfr Hp] Hg Hm' Hk' Hnext Hflight Hsig Hdone Hwait Hown Hnew Hnewb Hopen.
  set (w' := mkWorld _ _ _ _ _).
  assert ((gone ++ owned w')%list ≡ₚ (new ++ owned w)%list) as Hperm.
  { unfold owned. simpl. rewrite collect_update, (collect_lookup held _ _ _ Hg).
    rewrite !(assoc_L (++)) in *. by rewrite Hown. }
  assert (NoDup (new ++ owned w)%list) as Hnd0.
  { apply NoDup_app. split; [done|]. split; [|done]. intros i Hi Hi'.
    apply Hnewb in Hi. apply Hfr in Hi'. lia. }
  rewrite <- Hperm in Hnd0. apply NoDup_app in Hnd0 as (_ & Hdisj & Hnd').
  assert (forall i, i ∈ owned w' <-> (i ∈ new \/ i ∈ owned w) /\ i ∉ gone) as Hiff.
  { intros i. rewrite <- elem_of_app, <- Hperm, elem_of_app. naive_solver. }
  assert (forall i, i ∈ collect signals (w_pool w) -> i ∈ done' \/ i ∈ collect signals (w_pool w')) as Hs.
  { intros i. simpl. rewrite collect_update, (collect_lookup signals _ _ _ Hg), !elem_of_app.
    intros [H|H]; [destruct (Hsig i H)|]; auto. }
  split; simpl.
  - done.
  - intros g' k0 [[<- <-]|[_ H]]%lookup_insert_Some; [done|eauto].
  - rewrite collect_update. apply Hflight. by rewrite <- (collect_lookup flight _ _ _ Hg).
  - intros i. rewrite collect_update, elem_of_app. intros Hi.
    assert (i ∈ collect waits (w_pool w) \/ i ∈ collect signals (w_pool w)) as [H|H].
    { rewrite (collect_lookup waits _ _ _ Hg), elem_of_app. destruct Hi as [Hi|Hi]; [|auto].
      destruct (Hwait i Hi); auto. }
    + apply Hw in H as [H|H]; [by left; apply Hdone|by apply Hs].
    + by apply Hs.
  - done.
  - intros i. rewrite Hopen, Hiff, Ho. naive_solver.
  - intros i [[H|H] _]%Hiff; [apply Hnewb in H|apply Hfr in H]; lia.
  - intros g' k0 [[<- _]|[_ H]]%lookup_insert_Some; [apply Hp in Hg; lia|apply Hp in H; lia].
Qed.

(** A step that neither opens nor closes a connection and makes no new wait. *)
Lemma go_on_inv `{D : Digest} w g k k' m' :
  world_inv w -> w_pool w !! g = Some k -> mgr_inv m' -> wf_goroutine k' ->
  (forall X, (flight k ++ X)%list ≡ₚ map_to_list (tm_connecting (w_mgr w)) ->
     (flight k' ++ X)%list ≡ₚ map_to_list (tm_connecting m')) ->
  (forall i, i ∈ signals k -> i ∈ signals k') -> waits k' = [] ->
  (conn_ids m' ++ held k')%list ≡ₚ (conn_ids (w_mgr w) ++ held k)%list ->
  world_inv (go_on g k' m' w).
Proof.
  intros Hw Hg Hm Hk Hf Hs Hwait Hown.
  apply (go_inv w g k k' m' (w_next w) (w_open w) (w_done w) [] []); simpl; try done.
  - auto.
  - rewrite Hwait. set_solver.
  - constructor.
  - set_solver.
  - set_solver.
Qed.

Lemma conn_ids_delete (m : Manager) h c conns :
  tm_conns m !! h = Some c -> conns = delete h (tm_conns m) ->
  conn_ids m ≡ₚ cn_id c :: (cn_id <$> (map_to_list conns).*2).
Proof.
  intros H ->. unfold conn_ids. by rewrite <- (map_to_list_delete _ _ _ H).
Qed.

(** Taking a machine out hands its connection to the goroutine. *)
Lemma conn_ids_out m m' h :
  tm_conns m' = delete h (tm_conns m) ->
  (conn_ids m' ++ option_list (cn_id <$> tm_conns m !! h))%list ≡ₚ conn_ids m.
Proof.
  intros E. destruct (tm_conns m !! h) as [c|] eqn:Ec; simpl.
  - rewrite (conn_ids_delete m h c _ Ec E). unfold conn_ids. by rewrite (comm (++)).
  - rewrite app_nil_r. unfold conn_ids. by rewrite E, delete_id.
Qed.

Lemma foldr_close cs :
  flight (foldr GClose (GReturn nothing) cs) = [] /\
  signals (foldr GClose (GReturn nothing) cs) = [] /\
  waits (foldr GClose (GReturn nothing) cs) = [] /\
  held (foldr GClose (GReturn nothing) cs) = cn_id <$> cs.
Proof. induction cs as [|c cs (E1 & E2 & E3 & E4)]; [done|]. simpl. by rewrite E1, E2, E3, E4. Qed.

Lemma foldr_close_wf `{D : Digest} cs : wf_goroutine (foldr GClose (GReturn nothing) cs).
Proof. by induction cs. Qed.

Lemma Disconnect_conns h m m' c :
  Disconnect_locked h m = (m', c) -> mgr_inv m ->
  tm_connecting m' = tm_connecting m /\
  (conn_ids m' ++ option_list (cn_id <$> c))%list ≡ₚ conn_ids m.
Proof.
  unfold Disconnect_locked. destruct (tm_closed m); intros [= <- <-] _; (split; [done|]).
  - by rewrite app_nil_r.
  - by apply conn_ids_out.
Qed.

Lemma MarkFailed_conns h msg m m' c :
  MarkFailed_locked h msg m = (m', c) -> mgr_inv m ->
  tm_connecting m' = tm_connecting m /\
  (conn_ids m' ++ option_list (cn_id <$> c))%list ≡ₚ conn_ids m.
Proof.
  unfold MarkFailed_locked. destruct (tm_closed m); intros [= <- <-] _; (split; [done|]).
  - by rewrite app_nil_r.
  - by apply conn_ids_out.
Qed.

Lemma Close_conns m m' cs :
  CloseAll_locked m = (m', cs) ->
  tm_connecting m' = tm_connecting m /\ (conn_ids m' ++ (cn_id <$> cs))%list ≡ₚ conn_ids m.
Proof.
  unfold CloseAll_locked. destruct (tm_closed m); intros [= <- <-]; (split; [done|]).
  - by rewrite app_nil_r.
  - unfold conn_ids. simpl. by rewrite map_to_list_empty.
Qed.

Section Steps.
Context `{D : Digest}.

Lemma enter_step_inv w g t identity w' :
  world_inv w -> w_pool w !! g = Some (GEnter t identity) ->
  go_next g (GEnter t identity) w = Some w' -> world_inv w'.
Proof.
  intros Hw Hg. pose proof (wi_wf w Hw _ _ Hg) as Hid. simpl in Hid. unfold go_next.
  destruct (enter_locked (tg_HostID t) identity (w_next w) (w_mgr w)) as [m' r] eqn:E.
  destruct (enter_spec _ _ _ _ _ _ (wi_mgr w Hw) E) as [Hm Hr]. intros [= <-].
  destruct r as [|c|a replaced|a replaced].
  - subst m'. apply (go_inv w g _ _ _ _ _ _ [] [] Hw Hg); simpl; try done; try lia; try set_solver.
    constructor.
  - destruct Hr as [-> _].
    apply (go_inv w g _ _ _ _ _ _ [] [] Hw Hg); simpl; try done; try lia; try set_solver. constructor.
  - destruct Hr as (-> & -> & Ha). simpl.
    apply (go_inv w g _ _ _ _ _ _ [] [] Hw Hg); simpl; try done; try lia; try set_solver; [|constructor].
    intros i ->%list_elem_of_singleton. right. by eapply connecting_signals.
  - destruct Hr as (_ & Hn & -> & Hconns & Hconn).
    apply (go_inv w g _ _ _ _ _ _ [] [] Hw Hg); simpl; try done; try lia; try set_solver.
    + by rewrite close_then_wf.
    + intros X HX. rewrite close_then_flight, Hconn, map_to_list_insert by done. simpl. by rewrite HX.
    + intros i. rewrite close_then_waits. by intros ?%elem_of_nil.
    + rewrite close_then_held. simpl. rewrite !app_nil_r. by apply conn_ids_out.
    + constructor.
Qed.

Lemma publish_step_inv w g t identity a r w' :
  world_inv w -> w_pool w !! g = Some (GPublish t identity a r) ->
  go_next g (GPublish t identity a r) w = Some w' -> world_inv w'.
Proof.
  intros Hw Hg. pose proof (wi_wf w Hw _ _ Hg) as [Hid Hr]. unfold go_next.
  assert (tm_connecting (w_mgr w) !! tg_HostID t = Some a) as Ha
      by (eapply flight_connecting; [done|done|simpl; set_solver]).
  destruct (publish_locked (tg_HostID t) a r (w_mgr w)) as [[m' c] res] eqn:E. intros [= <-].
  assert (forall c, r = Ok c -> proves identity c = true) as Hr' by (by intros ? ->).
  destruct (publish_spec t identity a r _ _ _ _ (wi_mgr w Hw) Ha Hr' E) as (Hm & Hcon & Hcase).
  apply go_on_inv with (k := GPublish t identity a r); [done|done|done| | | | |].
  - by rewrite close_then_wf.
  - intros X HX. rewrite close_then_flight, Hcon. simpl in *.
    rewrite <- (map_to_list_delete _ _ _ Ha) in HX. by apply (inj (cons _)) in HX.
  - rewrite close_then_signals. simpl. set_solver.
  - by rewrite close_then_waits.
  - rewrite close_then_held. simpl. rewrite app_nil_r.
    destruct Hcase as [(Hc & -> & _)|(cn & -> & -> & _ & Hn & Hc & _)]; unfold conn_ids; rewrite Hc.
    + by destruct r.
    + rewrite map_to_list_insert by done. simpl. by rewrite app_nil_r, (comm (++)).
Qed.

Lemma go_next_inv w g k w' :
  world_inv w -> w_pool w !! g = Some k -> go_next g k w = Some w' -> world_inv w'.
Proof.
  intros Hw Hg Hs. pose proof (wi_mgr w Hw) as Hm. pose proof (wi_wf w Hw _ _ Hg) as Hk.
  destruct k as [t|h msg r|t identity|t identity a| |t identity a r|c k|a r|h| |r]; try done.
  - simpl in Hs. destruct (tm_closed (w_mgr w)); injection Hs as <-.
    + by apply (go_on_inv w g (GStart t)).
    + destruct (HostKeyIdentitySHA256 _) eqn:E; by apply (go_on_inv w g (GStart t)).
  - simpl in Hs. destruct (MarkFailed_locked h msg (w_mgr w)) as [m' c] eqn:E. injection Hs as <-.
    destruct (MarkFailed_conns _ _ _ _ _ E Hm) as [Hc Hids].
    apply (go_on_inv w g (GMark h msg r) _ _ Hw Hg).
    + pose proof (MarkFailed_inv h msg _ Hm) as H. by rewrite E in H.
    + by rewrite close_then_wf.
    + intros X. by rewrite close_then_flight, Hc.
    + rewrite close_then_signals. simpl. set_solver.
    + by rewrite close_then_waits.
    + rewrite close_then_held. simpl. by rewrite !app_nil_r.
  - by eapply enter_step_inv.
  - simpl in Hs. case_bool_decide; [|done]. injection Hs as <-.
    destruct (wake_locked _ _ _ _); by apply (go_on_inv w g (GWait t identity a)).
  - by eapply publish_step_inv.
  - injection Hs as <-.
    apply (go_inv w g (GClose c k) k _ _ _ _ [] [cn_id c] Hw Hg); simpl; try done; try lia; try set_solver.
    + rewrite Permutation_middle. done.
    + constructor.
  - injection Hs as <-.
    apply (go_inv w g (GSignal a r) _ _ _ _ _ [] [] Hw Hg); simpl; try done; try lia; try set_solver.
    constructor.
  - simpl in Hs. destruct (Disconnect_locked h (w_mgr w)) as [m' c] eqn:E. injection Hs as <-.
    destruct (Disconnect_conns _ _ _ _ E Hm) as [Hc Hids].
    apply (go_on_inv w g (GDisconnect h) _ _ Hw Hg).
    + pose proof (Disconnect_inv h _ Hm) as H. by rewrite E in H.
    + by rewrite close_then_wf.
    + intros X. by rewrite close_then_flight, Hc.
    + rewrite close_then_signals. simpl. set_solver.
    + by rewrite close_then_waits.
    + rewrite close_then_held. simpl. by rewrite !app_nil_r.
  - simpl in Hs. destruct (CloseAll_locked (w_mgr w)) as [m' cs] eqn:E. injection Hs as <-.
    destruct (Close_conns _ _ _ E) as [Hc Hids]. destruct (foldr_close cs) as (E1 & E2 & E3 & E4).
    apply (go_on_inv w g GCloseAll _ _ Hw Hg).
    + pose proof (Close_inv _ Hm) as H. by rewrite E in H.
    + apply foldr_close_wf.
    + intros X. by rewrite E1, Hc.
    + set_solver.
    + done.
    + simpl. by rewrite E4, app_nil_r.
Qed.

Lemma dialled_inv w g t identity a r :
  world_inv w -> w_pool w !! g = Some (GDial t identity a) ->
  world_inv (dialled g t identity a r w).
Proof.
  intros Hw Hg. pose proof (wi_mgr w Hw) as Hm. pose proof (wi_wf w Hw _ _ Hg) as Hid. simpl in Hid.
  destruct r as [[port ev]|e]; unfold dialled.
  - set (c := mkConn _ _ _).
    apply (go_inv w g (GDial t identity a) _ _ _ _ _ [cn_id c] [] Hw Hg);
      destruct (proves identity c) eqn:Ep; simpl; try done; try lia; try set_solver;
      try (by rewrite app_nil_r, (comm (++))); try (by apply NoDup_singleton).
  - by apply (go_on_inv w g (GDial t identity a)).
Qed.

Lemma exec_inv act w w' : exec act w = Some w' -> world_inv w -> world_inv w'.
Proof.
  destruct act as [t|h|h msg| |g|g r]; simpl; intros H Hw.
  1-4: injection H as <-; by apply spawn_inv.
  - apply bind_Some in H as (k & Hg & Hs). by eapply go_next_inv.
  - destruct (w_pool w !! g) as [[]|] eqn:Hg; try done. injection H as <-. by apply dialled_inv.
Qed.

Lemma wsteps_inv w w' : rtc wstep w w' -> world_inv w -> world_inv w'.
Proof. induction 1 as [|? ? ? [act ? ? H] _ IH]; [done|]. intros Hw. by eapply IH, exec_inv. Qed.

Lemma reachable_world w : rtc wstep initial w -> world_inv w.
Proof. intros H. by apply (wsteps_inv _ _ H), initial_inv. Qed.
End Steps.

(** ** Generations *)

Definition gens_ok (m : Manager) : Prop := forall h, (0 <= generation h m < 2 ^ 64)%Z.

Lemma gen_next_range g : (0 <= gen_next g < 2 ^ 64)%Z.
Proof. unfold gen_next. apply Z.mod_pos_bound. lia. Qed.

Lemma gen_next_ne g : gen_next g <> g.
Proof. unfold gen_next. intros H. Z.div_mod_to_equations. lia. Qed.

(** A generation stays or moves to the next. *)
Definition gen_moves (m m' : Manager) : Prop :=
  forall h, generation h m' = generation h m \/ generation h m' = gen_next (generation h m).

Lemma gen_moves_same m m' : tm_generation m' = tm_generation m -> gen_moves m m'.
Proof. intros E h. unfold generation. rewrite E. by left. Qed.

Lemma gen_moves_bump m m' h : tm_generation m' = bump h (tm_generation m) -> gen_moves m m'.
Proof.
  intros E h'. unfold generation. rewrite E. destruct (decide (h = h')) as [<-|Hne].
  - right. unfold bump. by rewrite lookup_insert_eq.
  - left. by apply generation_bump_ne.
Qed.

Lemma bump_all_spec (con : gmap string connectAttempt) gens h :
  default 0%Z (map_fold (fun h _ gens => bump h gens) gens con !! h) =
  if decide (is_Some (con !! h)) then gen_next (default 0%Z (gens !! h)) else default 0%Z (gens !! h).
Proof.
  revert con. apply (map_fold_weak_ind (fun r con => default 0%Z (r !! h) =
    if decide (is_Some (con !! h)) then gen_next (default 0%Z (gens !! h)) else default 0%Z (gens !! h))).
  - rewrite decide_False; [done|]. rewrite lookup_empty. by intros [? ?].
  - intros h' a con r Hn IH. destruct (decide (h' = h)) as [->|Hne].
    + unfold bump. rewrite lookup_insert_eq. simpl. rewrite IH, Hn, lookup_insert_eq.
      rewrite (decide_False (P := is_Some None)) by (by intros [? ?]). by rewrite decide_True.
    + rewrite generation_bump_ne, IH by done. by rewrite lookup_insert_ne.
Qed.

Section Generations.
Context `{D : Digest}.

Lemma enter_gen h identity fresh m : gen_moves m (enter_locked h identity fresh m).1.
Proof.
  unfold enter_locked. destruct (tm_closed m); [by apply gen_moves_same|].
  destruct (tm_conns m !! h) as [c|] eqn:Ec.
  - destruct (proves identity c); [by apply gen_moves_same|]. unfold replace_conn. rewrite Ec.
    unfold enter_fresh. simpl. destruct (tm_connecting m !! h); by apply (gen_moves_bump _ _ h).
  - unfold enter_fresh. destruct (tm_connecting m !! h); by apply gen_moves_same.
Qed.

Lemma publish_gen h a r m m' c res :
  publish_locked h a r m = (m', c, res) -> tm_generation m' = tm_generation m.
Proof. unfold publish_locked. repeat case_match; intros; simplify_eq; done. Qed.

Lemma exec_gen act w w' : exec act w = Some w' -> gen_moves (w_mgr w) (w_mgr w').
Proof.
  destruct act as [t|h|h msg| |g|g r]; simpl; intros H.
  1-4: injection H as <-; by apply gen_moves_same.
  - apply bind_Some in H as (k & Hg & Hs).
    destruct k as [t|h msg r|t identity|t identity a| |t identity a r|c k|a r|h| |r]; simpl in Hs; try done.
    + destruct (tm_closed _); injection Hs as <-; by apply gen_moves_same.
    + unfold MarkFailed_locked in Hs. destruct (tm_closed _); injection Hs as <-;
        [by apply gen_moves_same|by apply (gen_moves_bump _ _ h)].
    + pose proof (enter_gen (tg_HostID t) identity (w_next w) (w_mgr w)) as Hm.
      destruct (enter_locked _ _ _ _). by injection Hs as <-.
    + case_bool_decide; [|done]. injection Hs as <-. by apply gen_moves_same.
    + destruct (publish_locked _ _ _ _) as [[m' c] res] eqn:E. injection Hs as <-.
      apply gen_moves_same. by eapply publish_gen.
    + injection Hs as <-. by apply gen_moves_same.
    + injection Hs as <-. by apply gen_moves_same.
    + unfold Disconnect_locked in Hs. destruct (tm_closed _); injection Hs as <-;
        [by apply gen_moves_same|by apply (gen_moves_bump _ _ h)].
    + unfold CloseAll_locked in Hs. destruct (tm_closed _); injection Hs as <-; [by apply gen_moves_same|].
      intros h. unfold generation. simpl. rewrite bump_all_spec. case_decide; auto.
  - destruct (w_pool w !! g) as [[]|]; try done. injection H as <-.
    destruct r as [[port ev]|e]; by apply gen_moves_same.
Qed.

Lemma wsteps_gens w w' : rtc wstep w w' -> gens_ok (w_mgr w) -> gens_ok (w_mgr w').
Proof.
  induction 1 as [|w1 w2 w3 [act ? ? H] _ IH]; [done|]. intros Hw. apply IH. intros h.
  destruct (exec_gen _ _ _ H h) as [->| ->]; [apply Hw|apply gen_next_range].
Qed.

Lemma reachable_gens w : rtc wstep initial w -> gens_ok (w_mgr w).
Proof.
  intros H. apply (wsteps_gens _ _ H). intros h. unfold generation. simpl. rewrite lookup_empty.
  simpl. lia.
Qed.

(** A run in which the generation of [h] moves [n] times. *)
Inductive run (h : string) : nat -> World -> World -> Prop :=
| run_nil w : run h 0 w w
| run_cons act w w' w'' n :
    exec act w = Some w' -> run h n w' w'' ->
    run h ((if decide (generation h (w_mgr w') = generation h (w_mgr w)) then 0 else 1) + n)%nat w w''.

Lemma run_generation h n w w' :
  run h n w w' -> (0 <= generation h (w_mgr w) < 2 ^ 64)%Z ->
  generation h (w_mgr w') = ((generation h (w_mgr w) + Z.of_nat n) mod 2 ^ 64)%Z.
Proof.
  induction 1 as [w|act w w' w'' n He _ IH]; intros Hr.
  - rewrite Z.add_0_r, Z.mod_small; done.
  - destruct (exec_gen _ _ _ He h) as [E|E].
    + rewrite decide_True by done. rewrite IH by (by rewrite E). by rewrite E.
    + rewrite decide_False by (rewrite E; apply gen_next_ne).
      rewrite IH by (rewrite E; apply gen_next_range). rewrite E. unfold gen_next.
      rewrite Zplus_mod_idemp_l. f_equal. lia.
Qed.

Lemma run_steps h n w w' : run h n w w' -> rtc wstep w w'.
Proof. induction 1; [done|]. eapply rtc_l; [by econstructor|done]. Qed.
End Generations.

(** ** Every call returns *)

(** An attempt is signalled by one goroutine, once. *)
Record sig_inv (w : World) : Prop := {
  si_nodup : NoDup (collect signals (w_pool w));
  si_done : forall i, i ∈ collect signals (w_pool w) -> i ∉ w_done w;
  si_fresh : forall i, i ∈ collect signals (w_pool w) \/ i ∈ w_done w -> (i < w_next w)%nat;
}.

Lemma sig_same w g k k' m' next' open' :
  sig_inv w -> w_pool w !! g = Some k -> signals k' = signals k -> (w_next w <= next')%nat ->
  sig_inv (mkWorld m' (<[g := k']> (w_pool w)) next' open' (w_done w)).
Proof.
  intros [Hnd Hd Hf] Hg E Hn.
  assert (collect signals (<[g := k']> (w_pool w)) ≡ₚ collect signals (w_pool w)) as Hp.
  { by rewrite collect_update, E, <- (collect_lookup _ _ _ _ Hg). }
  split; simpl.
  - by rewrite Hp.
  - intros i. rewrite Hp. apply Hd.
  - intros i. rewrite Hp. intros H%Hf. lia.
Qed.

Section Signals.
Context `{D : Digest}.

Lemma go_next_signals w g k w' :
  world_inv w -> sig_inv w -> w_pool w !! g = Some k -> go_next g k w = Some w' -> sig_inv w'.
Proof.
  intros Hw Hsi Hg Hs.
  destruct k as [t|h msg r|t identity|t identity a| |t identity a r|c k|a r|h| |r]; try done; simpl in Hs.
  - destruct (tm_closed _); injection Hs as <-; [by eapply sig_same|].
    destruct (HostKeyIdentitySHA256 _); by eapply sig_same.
  - destruct (MarkFailed_locked _ _ _) as [m' c]. injection Hs as <-.
    eapply sig_same; [done|done|by rewrite close_then_signals|done].
  - destruct (enter_locked _ _ _ _) as [m' r] eqn:E. injection Hs as <-.
    destruct (enter_spec _ _ _ _ _ _ (wi_mgr w Hw) E) as [_ Hr].
    destruct r as [|c|a replaced|a replaced].
    + eapply sig_same; [done|done|done|simpl; lia].
    + eapply sig_same; [done|done|done|simpl; lia].
    + eapply sig_same; [done|done|by rewrite close_then_signals|simpl; lia].
    + destruct Hr as (Ea & _). destruct Hsi as [Hnd Hd Hf].
      assert (collect signals (<[g := close_then replaced (GDial t identity a)]> (w_pool w)) ≡ₚ
        ca_id a :: collect signals (w_pool w)) as Hp.
      { rewrite collect_update, close_then_signals, (collect_lookup signals _ _ _ Hg). done. }
      split; simpl.
      * rewrite Hp. constructor; [|done]. intros H. specialize (Hf _ (or_introl H)). lia.
      * intros i. rewrite Hp. intros [->|H]%elem_of_cons; [|by apply Hd].
        intros H. specialize (Hf _ (or_intror H)). lia.
      * intros i. rewrite Hp, elem_of_cons. intros [[->|H]|H]; [lia| |];
          [specialize (Hf _ (or_introl H))|specialize (Hf _ (or_intror H))]; lia.
  - case_bool_decide; [|done]. injection Hs as <-.
    destruct (wake_locked _ _ _ _); by eapply sig_same.
  - destruct (publish_locked _ _ _ _) as [[m' c] res]. injection Hs as <-.
    eapply sig_same; [done|done|by rewrite close_then_signals|done].
  - injection Hs as <-. by eapply sig_same.
  - injection Hs as <-. destruct Hsi as [Hnd Hd Hf].
    rewrite (collect_lookup signals _ _ _ Hg) in Hnd. simpl in Hnd. apply NoDup_cons in Hnd as [Ha Hnd].
    assert (forall i, i ∈ collect signals (delete g (w_pool w)) -> i ∈ collect signals (w_pool w)) as Hin.
    { intros i Hi. rewrite (collect_lookup signals _ _ _ Hg). by right. }
    assert (ca_id a ∈ collect signals (w_pool w)) as Hin'.
    { rewrite (collect_lookup signals _ _ _ Hg). by left. }
    split; simpl; rewrite ?collect_update; simpl.
    + done.
    + intros i. rewrite collect_update. simpl. intros H [->%elem_of_singleton|H']%elem_of_union; [done|].
      by apply (Hd i); [apply Hin|].
    + intros i. rewrite collect_update. simpl. intros [H|[->%elem_of_singleton|H]%elem_of_union];
        apply Hf; auto.
  - destruct (Disconnect_locked _ _) as [m' c]. injection Hs as <-.
    eapply sig_same; [done|done|by rewrite close_then_signals|done].
  - destruct (CloseAll_locked _) as [m' cs]. injection Hs as <-.
    eapply sig_same; [done|done|by destruct (foldr_close cs) as (_ & -> & _)|done].
Qed.

Lemma exec_sig act w w' : exec act w = Some w' -> world_inv w -> sig_inv w -> sig_inv w'.
Proof.
  assert (forall k, signals k = [] -> world_inv w -> sig_inv w -> sig_inv (spawn k w)) as Hspawn.
  { intros k Ek Hw [Hnd Hd Hf].
    assert (w_pool w !! w_next w = None) as Hn.
    { destruct (w_pool w !! w_next w) eqn:E; [|done]. apply (wi_pool w Hw) in E. lia. }
    assert (collect signals (w_pool (spawn k w)) ≡ₚ collect signals (w_pool w)) as Hp.
    { simpl. by rewrite collect_insert, Ek by done. }
    split; [by rewrite Hp|intros i; rewrite Hp; apply Hd|].
    intros i. rewrite Hp. intros H%Hf. simpl. lia. }
  destruct act as [t|h|h msg| |g|g r]; simpl; intros H Hw Hsi.
  1-4: injection H as <-; by apply Hspawn.
  - apply bind_Some in H as (k & Hg & Hs). by eapply go_next_signals.
  - destruct (w_pool w !! g) as [[]|] eqn:Hg; try done. injection H as <-.
    destruct r as [[port ev]|e]; unfold dialled; [|by eapply sig_same].
    eapply sig_same; [done|done| |lia]. by destruct (proves _ _).
Qed.

Lemma wsteps_sig w w' : rtc wstep w w' -> world_inv w -> sig_inv w -> sig_inv w'.
Proof.
  induction 1 as [|? ? ? [act ? ? H] _ IH]; [done|]. intros Hw Hsi.
  apply IH; [by eapply exec_inv|by eapply exec_sig].
Qed.

Lemma reachable_sig w : rtc wstep initial w -> sig_inv w.
Proof.
  intros H. apply (wsteps_sig _ _ H initial_inv). split; simpl; rewrite collect_empty.
  - constructor.
  - by intros i ?%elem_of_nil.
  - intros i. set_solver.
Qed.
End Signals.

Definition busy (k : goroutine) : nat := match k with GReturn _ => 0 | _ => 1 end.

(** How many steps a goroutine may still take on its own. *)
Fixpoint rank (done : gset nat) (k : goroutine) : nat :=
  match k with
  | GReturn _ => 0
  | GSignal _ _ | GCloseAll => 1
  | GMark _ _ _ | GDisconnect _ => 2
  | GClose _ k => S (rank done k)
  | GPublish _ _ _ _ => 5
  | GDial _ _ _ => 7
  | GEnter _ _ => 9
  | GStart _ => 10
  | GWait _ _ a => if decide (ca_id a ∈ done) then 11 else 0
  end.

Definition weigh (f : goroutine -> nat) (pool : gmap nat goroutine) : nat :=
  map_fold (fun _ k n => (f k + n)%nat) 0%nat pool.

(** The signal of an attempt may send every waiter back to the start; it also ends a call. *)
Definition potential (w : World) : nat :=
  11 * (weigh busy (w_pool w) * weigh busy (w_pool w)) + weigh (rank (w_done w)) (w_pool w) +
  2 * size (tm_conns (w_mgr w)).

Lemma weigh_insert f pool g k : pool !! g = None -> weigh f (<[g := k]> pool) = (f k + weigh f pool)%nat.
Proof. intros H. unfold weigh. rewrite map_fold_insert_L; [done|intros; lia|done]. Qed.

Lemma weigh_lookup f pool g k : pool !! g = Some k -> weigh f pool = (f k + weigh f (delete g pool))%nat.
Proof.
  intros H. rewrite <- (insert_delete_id pool g k H) at 1. apply weigh_insert, lookup_delete_eq.
Qed.

Lemma weigh_update f pool g k : weigh f (<[g := k]> pool) = (f k + weigh f (delete g pool))%nat.
Proof. rewrite <- insert_delete_eq. apply weigh_insert, lookup_delete_eq. Qed.

(** A signal lets the ranks of the others grow by at most 11 each. *)
Lemma rank_grows done i k : (rank ({[i]} ∪ done) k <= rank done k + 11 * busy k)%nat.
Proof.
  assert (forall k, rank ({[i]} ∪ done) k <= rank done k + 11)%nat as H.
  { induction k0; simpl; try lia. repeat case_decide; set_solver by lia. }
  destruct k; simpl; try lia; [|specialize (H k); lia]. repeat case_decide; set_solver by lia.
Qed.

Lemma weigh_grows done i pool :
  (weigh (rank ({[i]} ∪ done)) pool <= weigh (rank done) pool + 11 * weigh busy pool)%nat.
Proof.
  induction pool as [|g k pool Hg IH] using map_ind; [done|].
  rewrite !weigh_insert by done. pose proof (rank_grows done i k). lia.
Qed.

(** A step that signals nothing. *)
Lemma potential_go w g k k' m' next' open' :
  w_pool w !! g = Some k -> busy k = 1%nat ->
  (rank (w_done w) k' + 2 * size (tm_conns m') < rank (w_done w) k + 2 * size (tm_conns (w_mgr w)))%nat ->
  (potential (mkWorld m' (<[g := k']> (w_pool w)) next' open' (w_done w)) < potential w)%nat.
Proof.
  intros Hg Hb Hr. unfold potential. simpl. rewrite !weigh_update.
  rewrite (weigh_lookup busy _ _ _ Hg), (weigh_lookup (rank _) _ _ _ Hg), Hb.
  assert (busy k' <= 1)%nat by (destruct k'; simpl; lia). nia.
Qed.

Lemma size_out (conns : gmap string Conn) h :
  (size (delete h conns) + length (option_list (conns !! h)) = size conns)%nat.
Proof.
  destruct (conns !! h) as [c|] eqn:E; simpl.
  - rewrite map_size_delete_Some by (by eexists). assert (size conns <> 0)%nat; [|lia].
    intros ->%map_size_empty_inv. by rewrite lookup_empty in E.
  - rewrite delete_id by done. lia.
Qed.

Lemma close_then_rank done c k : rank done (close_then c k) = (length (option_list c) + rank done k)%nat.
Proof. by destruct c. Qed.

Lemma foldr_close_rank done cs : rank done (foldr GClose (GReturn nothing) cs) = length cs.
Proof. induction cs as [|c cs IH]; [done|]. simpl. by rewrite IH. Qed.

Section Termination.
Context `{D : Digest}.

Lemma go_next_potential w g k w' :
  world_inv w -> sig_inv w -> w_pool w !! g = Some k -> go_next g k w = Some w' ->
  (potential w' < potential w)%nat.
Proof.
  intros Hw Hsi Hg Hs. pose proof (wi_mgr w Hw) as Hm.
  destruct k as [t|h msg r|t identity|t identity a| |t identity a r|c k|a r|h| |r]; try done; simpl in Hs.
  - destruct (tm_closed _); injection Hs as <-; [(eapply potential_go; [done|done|simpl; lia])|].
    destruct (HostKeyIdentitySHA256 _); (eapply potential_go; [done|done|simpl; lia]).
  - unfold MarkFailed_locked in Hs. destruct (tm_closed _); injection Hs as <-;
      (eapply potential_go; [done|done|]); simpl; [lia|].
    pose proof (size_out (tm_conns (w_mgr w)) h). rewrite close_then_rank. simpl. lia.
  - destruct (enter_locked _ _ _ _) as [m' r] eqn:E. injection Hs as <-.
    destruct (enter_spec _ _ _ _ _ _ Hm E) as [_ Hr].
    eapply potential_go; [done|done|]. destruct r as [|c|a replaced|a replaced].
    + subst m'. simpl. lia.
    + destruct Hr as [-> _]. simpl. lia.
    + destruct Hr as (-> & -> & Ha). simpl. rewrite decide_False; [lia|]. apply (si_done w Hsi). by eapply connecting_signals.
    + destruct Hr as (_ & _ & -> & -> & _). rewrite close_then_rank. simpl.
      pose proof (size_out (tm_conns (w_mgr w)) (tg_HostID t)). lia.
  - case_bool_decide; [|done]. injection Hs as <-. eapply potential_go; [done|done|].
    simpl. rewrite decide_True by done. destruct (wake_locked _ _ _ _); simpl; lia.
  - assert (tm_connecting (w_mgr w) !! tg_HostID t = Some a) as Ha
      by (eapply flight_connecting; [done|done|simpl; set_solver]).
    pose proof (wi_wf w Hw _ _ Hg) as [Hid Hr].
    destruct (publish_locked _ _ _ _) as [[m' c] res] eqn:E. injection Hs as <-.
    assert (forall c, r = Ok c -> proves identity c = true) as Hr' by (by intros ? ->).
    destruct (publish_spec t identity a r _ _ _ _ Hm Ha Hr' E) as (_ & _ & Hcase).
    eapply potential_go; [done|done|]. rewrite close_then_rank. simpl.
    destruct Hcase as [(Hc & -> & _)|(cn & -> & -> & _ & Hn & Hc & _)]; rewrite Hc.
    + destruct r; simpl; lia.
    + rewrite map_size_insert_None by done. simpl. lia.
  - injection Hs as <-. eapply potential_go; [done|done|simpl; lia].
  - injection Hs as <-. unfold potential. simpl. rewrite !weigh_update.
    rewrite (weigh_lookup busy _ _ _ Hg), (weigh_lookup (rank _) _ _ _ Hg). simpl.
    pose proof (weigh_grows (w_done w) (ca_id a) (delete g (w_pool w))). nia.
  - unfold Disconnect_locked in Hs. destruct (tm_closed _); injection Hs as <-;
      (eapply potential_go; [done|done|]); simpl; [lia|].
    pose proof (size_out (tm_conns (w_mgr w)) h). rewrite close_then_rank. simpl. lia.
  - unfold CloseAll_locked in Hs. destruct (tm_closed _); injection Hs as <-;
      (eapply potential_go; [done|done|]); [simpl; lia|]. rewrite foldr_close_rank. simpl.
    rewrite length_fmap, length_map_to_list, map_size_empty. lia.
Qed.
End Termination.

(** ** Theorems *)

(** What a goroutine has decided to return. *)
Fixpoint answer (k : goroutine) : option (result ssh_error Z) :=
  match k with
  | GReturn r | GSignal _ r => Some r
  | GClose _ k => answer k
  | _ => None
  end.

(** The target of the call of [EnsureConnected] that a goroutine serves. *)
Fixpoint target (k : goroutine) : option Target :=
  match k with
  | GStart t | GEnter t _ | GWait t _ _ | GDial t _ _ | GPublish t _ _ _ => Some t
  | GClose _ k => target k
  | _ => None
  end.

Lemma answer_close_then c k : answer (close_then c k) = answer k.
Proof. by destruct c. Qed.

(** The steps on which a goroutine decides to return a port. *)
Lemma go_next_answer `{D : Digest} w g k w' t k' p :
  world_inv w -> w_pool w !! g = Some k -> go_next g k w = Some w' ->
  target k = Some t -> answer k = None -> w_pool w' !! g = Some k' -> answer k' = Some (Ok p) ->
  exists c identity, HostKeyIdentitySHA256 (tg_SSHHostKeyFingerprint t) = Ok identity /\
    tm_conns (w_mgr w') !! tg_HostID t = Some c /\ cn_port c = p /\ proves identity c = true.
Proof.
  intros Hw Hg Hs Ht Ha Hg' Ha'. pose proof (wi_wf w Hw _ _ Hg) as Hk. pose proof (wi_mgr w Hw) as Hm.
  assert (forall k0 m, w' = go_on g k0 m w -> k' = k0) as Hgo.
  { intros k0 m ->. simpl in Hg'. rewrite lookup_insert_eq in Hg'. by injection Hg' as <-. }
  destruct k as [t0|h msg r|t0 identity|t0 identity a| |t0 identity a r|c k|a r|h| |r]; try done; simpl in Hs.
  - destruct (tm_closed _); injection Hs as <-; rewrite (Hgo _ _ eq_refl) in Ha'; [done|].
    by destruct (HostKeyIdentitySHA256 _).
  - injection Ht as ->. destruct (enter_locked _ _ _ _) as [m' r] eqn:E. injection Hs as <-.
    destruct (enter_spec _ _ _ _ _ _ Hm E) as [_ Hr]. simpl in Hg'. rewrite lookup_insert_eq in Hg'.
    injection Hg' as <-. destruct r as [|c|a replaced|a replaced]; rewrite ?answer_close_then in Ha'; try done.
    destruct Hr as (-> & Hc & Hp). injection Ha' as <-. by exists c, identity.
  - injection Ht as ->. case_bool_decide; [|done]. injection Hs as <-.
    rewrite (Hgo _ _ eq_refl) in Ha'. unfold wake_locked in Ha'.
    destruct (tm_closed _); [done|]. destruct (negb _); [done|].
    destruct (tm_conns (w_mgr w) !! tg_HostID t) as [c|] eqn:Ec; [|done].
    destruct (proves identity c) eqn:Ep; [|done]. injection Ha' as <-. by exists c, identity.
  - injection Ht as ->. destruct Hk as [Hid Hr].
    assert (tm_connecting (w_mgr w) !! tg_HostID t = Some a) as Hca
      by (eapply flight_connecting; [done|done|simpl; set_solver]).
    destruct (publish_locked _ _ _ _) as [[m' c] res] eqn:E. injection Hs as <-.
    rewrite (Hgo _ _ eq_refl), answer_close_then in Ha'. injection Ha' as ->.
    assert (forall c, r = Ok c -> proves identity c = true) as Hr' by (by intros ? ->).
    destruct (publish_spec t identity a r _ _ _ _ Hm Hca Hr' E) as (_ & _ & [(_ & _ & e & [=])|H]).
    destruct H as (cn & -> & _ & [= ->] & _ & Hc & _). exists cn, identity. simpl. rewrite Hc, lookup_insert_eq.
    by split; [|split; [|split; [|apply Hr']]].
  - injection Hs as <-. simpl in *. rewrite lookup_insert_eq in Hg'. injection Hg' as <-. congruence.
Qed.

Section Theorems.
Context `{D : Digest}.

(** Whatever calls run side by side and whatever the dialler returns: the connection that is
    kept for a machine is open, was verified, and is the one whose evidence is shown; a machine
    is reported as connected, and evidence is shown for it, only while it has a connection; and a
    machine that is reported as connecting is being dialled by a goroutine, for its current
    generation. *)
Theorem tunnels_verified w :
  rtc wstep initial w ->
  (forall h c, tm_conns (w_mgr w) !! h = Some c ->
     cn_id c ∈ w_open w /\ hke_Verified (cn_hostKey c) = true /\
     HostKeyEvidenceOf h (w_mgr w) = cn_hostKey c /\ Status h (w_mgr w) = StatusConnected) /\
  (forall h, (Status h (w_mgr w) = StatusConnected <-> is_Some (tm_conns (w_mgr w) !! h)) /\
     (hke_Verified (HostKeyEvidenceOf h (w_mgr w)) = true <-> is_Some (tm_conns (w_mgr w) !! h))) /\
  (forall h, Status h (w_mgr w) = StatusConnecting ->
     exists g k a, w_pool w !! g = Some k /\ (h, a) ∈ flight k /\
       ca_generation a = generation h (w_mgr w)).
Proof.
  intros Hw%reachable_world. pose proof (wi_mgr w Hw) as Hm. unfold HostKeyEvidenceOf, Status.
  assert (forall h c, tm_conns (w_mgr w) !! h = Some c ->
     cn_id c ∈ w_open w /\ hke_Verified (cn_hostKey c) = true /\
     default no_evidence (tm_hostKeys (w_mgr w) !! h) = cn_hostKey c /\
     default StatusDisconnected (tm_status (w_mgr w) !! h) = StatusConnected) as Hconn.
  { intros h c Hc. destruct (mi_conn _ Hm h c Hc) as (Hv & -> & -> & _). split; [|done].
    by eapply conn_open. }
  split; [done|]. split.
  - intros h. split; split.
    + destruct (tm_status (w_mgr w) !! h) as [s|] eqn:E; [simpl; intros ->|done].
      by apply (mi_connected _ Hm).
    + intros [c Hc]. by apply (Hconn h c).
    + destruct (tm_hostKeys (w_mgr w) !! h) as [key|] eqn:E; [|done]. intros _. by eapply (mi_keys _ Hm).
    + intros [c Hc]. destruct (Hconn h c Hc) as (_ & Hv & -> & _). done.
  - intros h. destruct (tm_status (w_mgr w) !! h) as [s|] eqn:E; [simpl; intros ->|done].
    destruct (mi_connecting _ Hm h E) as (a & Ha & Hgen).
    destruct (connecting_flight w h a Hw Ha) as (g & k & Hg & Hf). by exists g, k, a.
Qed.

(** C30: a caller gets the port of a tunnel to its own pin.  At the step at which a goroutine
    decides to return a port to a caller, the manager keeps, for the machine of the caller's
    target, an open connection with that port whose verified identity is that of the target's
    pin. *)
Theorem answered_port_pinned w act w' g k k' t p :
  rtc wstep initial w -> exec act w = Some w' ->
  w_pool w !! g = Some k -> target k = Some t -> answer k = None ->
  w_pool w' !! g = Some k' -> answer k' = Some (Ok p) ->
  exists c, tm_conns (w_mgr w') !! tg_HostID t = Some c /\ cn_port c = p /\ cn_id c ∈ w_open w' /\
    hke_Verified (cn_hostKey c) = true /\
    HostKeyIdentitySHA256 (tg_SSHHostKeyFingerprint t) = Ok (hke_IdentitySHA256 (cn_hostKey c)).
Proof.
  intros Hr He Hg Ht Ha Hg' Ha'. pose proof (reachable_world w Hr) as Hw.
  assert (exists c identity, HostKeyIdentitySHA256 (tg_SSHHostKeyFingerprint t) = Ok identity /\
    tm_conns (w_mgr w') !! tg_HostID t = Some c /\ cn_port c = p /\ proves identity c = true)
    as (c & identity & Hid & Hc & Hp & Hv).
  { assert (forall k0, w' = spawn k0 w -> False) as Hspawn.
    { intros k0 ->. simpl in Hg'. rewrite lookup_insert_ne in Hg'.
      - rewrite Hg in Hg'. injection Hg' as <-. congruence.
      - apply (wi_pool w Hw) in Hg. lia. }
    destruct act as [t0|h|h msg| |g0|g0 r]; simpl in He.
    1-4: injection He as <-; by destruct (Hspawn _ eq_refl).
    - apply bind_Some in He as (k0 & Hg0 & Hs). destruct (decide (g0 = g)) as [->|Hne].
      + rewrite Hg in Hg0. injection Hg0 as <-. by eapply go_next_answer.
      + assert (w_pool w' !! g = w_pool w !! g) as E; [|congruence].
        clear -Hs Hne. destruct k0; simpl in Hs; repeat case_match; simplify_eq; simpl;
          by rewrite lookup_insert_ne.
    - destruct (w_pool w !! g0) as [[]|] eqn:Hg0; try done. injection He as <-.
      destruct (decide (g0 = g)) as [->|Hne].
      + unfold dialled in Hg'. destruct r as [[port ev]|e]; simpl in Hg'; rewrite lookup_insert_eq in Hg';
          injection Hg' as <-; [|done]. by destruct (proves _ _).
      + assert (w_pool (dialled g0 t0 identity a r w) !! g = w_pool w !! g) as E; [|congruence].
        unfold dialled. destruct r as [[port ev]|e]; simpl; by rewrite lookup_insert_ne. }
  exists c. split; [done|]. split; [done|].
  split.
  - eapply conn_open; [|done]. by eapply exec_inv.
  - unfold proves in Hv. apply andb_true_iff in Hv as [Hv Hi%String.eqb_eq]. by rewrite Hi.
Qed.

Lemma publish_dropped t a r m :
  tm_connecting m !! tg_HostID t = Some a -> ca_generation a <> generation (tg_HostID t) m ->
  exists m' e, publish_locked (tg_HostID t) a r m =
      (m', match r with Ok c => Some c | Err _ => None end, Err e) /\
    tm_conns m' = tm_conns m /\ tm_status m' = tm_status m /\ tm_hostKeys m' = tm_hostKeys m.
Proof.
  intros Ha Hne. unfold publish_locked. rewrite Ha, Nat.eqb_refl.
  assert ((generation (tg_HostID t) m =? ca_generation a)%Z = false) as ->.
  { apply Z.eqb_neq. congruence. }
  rewrite orb_true_r. by eexists _, _.
Qed.

(** C31: the result of a dial that was overtaken is never published.  When [Disconnect] or
    [MarkFailed] of a machine runs while the machine is being dialled, its generation moves; and
    when it has moved, though fewer than 2^64 times, the dialler's result leaves connections,
    states and evidence as they are, the caller gets an error, and a connection that was made
    goes to a goroutine that closes it. *)
Theorem late_result_dropped h n w w' g t identity a r w'' :
  rtc wstep initial w -> tm_connecting (w_mgr w) !! h = Some a ->
  ca_generation a = generation h (w_mgr w) -> tg_HostID t = h ->
  run h n w w' -> (0 < n)%nat -> (Z.of_nat n < 2 ^ 64)%Z ->
  w_pool w' !! g = Some (GPublish t identity a r) -> exec (AStep g) w' = Some w'' ->
  (exists e, w_pool w'' !! g = Some match r with
                                    | Ok c => GClose c (GSignal a (Err e))
                                    | Err _ => GSignal a (Err e)
                                    end) /\
  tm_conns (w_mgr w'') = tm_conns (w_mgr w') /\ tm_status (w_mgr w'') = tm_status (w_mgr w') /\
  tm_hostKeys (w_mgr w'') = tm_hostKeys (w_mgr w') /\
  (forall g0 k0 w0, (k0 = GDisconnect h \/ exists msg res, k0 = GMark h msg res) ->
     tm_closed (w_mgr w) = false -> go_next g0 k0 w = Some w0 ->
     generation h (w_mgr w0) <> generation h (w_mgr w)).
Proof.
  intros Hr Ha Hgen Ht Hrun Hpos Hlt Hg He. subst h.
  pose proof (reachable_gens w Hr (tg_HostID t)) as Hrange.
  pose proof (run_generation _ _ _ _ Hrun Hrange) as Hgen'.
  assert (world_inv w') as Hw'.
  { apply (wsteps_inv w); [by eapply run_steps|by apply reachable_world]. }
  assert (tm_connecting (w_mgr w') !! tg_HostID t = Some a) as Ha'
    by (eapply flight_connecting; [done|done|simpl; set_solver]).
  destruct (publish_dropped t a r (w_mgr w') Ha') as (m' & e & E & Hc & Hs & Hk).
  { rewrite Hgen, Hgen'. intros H. Z.div_mod_to_equations. lia. }
  simpl in He. rewrite Hg in He. simpl in He. rewrite E in He. injection He as <-. simpl.
  split; [|split; [done|split; [done|split; [done|]]]].
  - exists e. rewrite lookup_insert_eq. by destruct r.
  - intros g0 k0 w0 Hk0 Hcl Hs0. destruct Hk0 as [->|(msg & res & ->)]; simpl in Hs0.
    + unfold Disconnect_locked in Hs0. rewrite Hcl in Hs0. injection Hs0 as <-.
      unfold generation at 1, bump. simpl. rewrite lookup_insert_eq. apply gen_next_ne.
    + unfold MarkFailed_locked in Hs0. rewrite Hcl in Hs0. injection Hs0 as <-.
      unfold generation at 1, bump. simpl. rewrite lookup_insert_eq. apply gen_next_ne.
Qed.

(** What the goroutines do on their own: their steps, and the diallers' results. *)
Definition istep (w w' : World) : Prop :=
  (exists g, exec (AStep g) w = Some w') \/ (exists g r, exec (ADial g r) w = Some w').

Lemma istep_exec w w' : istep w w' -> exists act, exec act w = Some w'.
Proof. intros [[g H]|(g & r & H)]; by eexists. Qed.

Lemma istep_wstep w w' : istep w w' -> wstep w w'.
Proof. intros [act H]%istep_exec. by econstructor. Qed.

Lemma istep_potential w w' :
  istep w w' -> world_inv w -> sig_inv w -> (potential w' < potential w)%nat.
Proof.
  intros [[g H]|(g & r & H)] Hw Hsi; simpl in H.
  - apply bind_Some in H as (k & Hg & Hs). by eapply go_next_potential.
  - destruct (w_pool w !! g) as [[]|] eqn:Hg; try done. injection H as <-.
    unfold dialled. destruct r as [[port ev]|e]; (eapply potential_go; [done|done|]); simpl; [|lia].
    destruct (proves _ _); simpl; lia.
Qed.

Lemma istep_enabled w g k :
  world_inv w -> w_pool w !! g = Some k -> busy k = 1%nat -> exists w', istep w w'.
Proof.
  intros Hw Hg Hb.
  assert (forall g k, w_pool w !! g = Some k -> busy k = 1%nat -> waits k = [] \/ flight k <> [] \/ signals k <> [] ->
    exists w', istep w w') as Hgo.
  { clear g k Hg Hb. intros g k Hg Hb Hnw.
    assert ((exists t i a, k = GDial t i a) \/ (exists w', go_next g k w = Some w') \/
      exists t i a, k = GWait t i a) as [(t & i & a & ->)|[[w' Hs]|(t & i & a & ->)]].
    { destruct k; simpl in *; try done; eauto 6; right; left; repeat case_match; eauto. }
    - eexists. right. exists g, (Err errTunnelClosed). simpl. by rewrite Hg.
    - exists w'. left. exists g. simpl. by rewrite Hg.
    - by destruct Hnw as [|[|]]. }
  destruct (waits k) as [|i l] eqn:Ew; [by eapply Hgo; [..|left]|].
  destruct k as [| | |t identity a| | |c k| | | |]; try done.
  - assert (ca_id a ∈ collect waits (w_pool w)) as Hi.
    { apply collect_elem. exists g. eexists. split; [done|]. simpl. set_solver. }
    apply (wi_waits w Hw) in Hi as [Hd|(g' & k' & Hg' & Hs')%collect_elem].
    + eexists. left. exists g. simpl. rewrite Hg. simpl. by rewrite bool_decide_eq_true_2.
    + apply (Hgo g' k' Hg'); [destruct k'; try done; by apply elem_of_nil in Hs'|]. right. right.
      intros E. rewrite E in Hs'. by apply elem_of_nil in Hs'.
  - eexists. left. exists g. simpl. by rewrite Hg.
Qed.

Lemma isteps_bounded n w w' :
  nsteps istep n w w' -> world_inv w -> sig_inv w -> (n + potential w' <= potential w)%nat.
Proof.
  induction 1 as [|n w1 w2 w3 H _ IH]; [lia|]. intros Hw Hsi.
  pose proof (istep_potential _ _ H Hw Hsi). apply istep_exec in H as [act He].
  assert (n + potential w3 <= potential w2)%nat; [|lia].
  apply IH; [by eapply exec_inv|by eapply exec_sig].
Qed.

(** C32: every call returns, in any order of the steps and whatever the dialler returns: the
    goroutines take at most [potential] steps unless somebody calls again, and they can go on as
    long as one of them has not returned.  When all have, the connections that are open are
    those that the manager keeps; none, once it is closed. *)
Theorem every_call_returns w :
  rtc wstep initial w ->
  (forall n w', nsteps istep n w w' -> (n <= potential w)%nat) /\
  (forall w', rtc istep w w' -> (forall w'', ~ istep w' w'') ->
     (forall g k, w_pool w' !! g = Some k -> exists r, k = GReturn r) /\
     (forall i, i ∈ w_open w' <-> exists h c, tm_conns (w_mgr w') !! h = Some c /\ cn_id c = i) /\
     (tm_closed (w_mgr w') = true -> w_open w' = ∅)).
Proof.
  intros Hr. pose proof (reachable_world w Hr) as Hw. pose proof (reachable_sig w Hr) as Hsi. split.
  - intros n w' H. pose proof (isteps_bounded n w w' H Hw Hsi). lia.
  - intros w' Hsteps Hstuck. assert (world_inv w') as Hw'.
    { apply (wsteps_inv w); [|done]. eapply rtc_subrel; [|done]. intros ? ?. apply istep_wstep. }
    assert (forall g k, w_pool w' !! g = Some k -> exists r, k = GReturn r) as Hret.
    { intros g k Hg. destruct (decide (busy k = 1%nat)) as [Hb|Hb]; [|by destruct k; try done; eexists].
      destruct (istep_enabled w' g k Hw' Hg Hb) as [w'' H]. by apply Hstuck in H. }
    assert (forall i, i ∈ w_open w' <-> exists h c, tm_conns (w_mgr w') !! h = Some c /\ cn_id c = i) as Hopen.
    { intros i. split.
      - intros [H|(g & k & Hg & Hh)%collect_elem]%(wi_open w' Hw')%elem_of_app.
        + apply list_elem_of_fmap in H as (c & -> & ([h c'] & -> & Hc)%list_elem_of_fmap).
          apply elem_of_map_to_list in Hc. by exists h, c'.
        + destruct (Hret g k Hg) as [r ->]. by apply elem_of_nil in Hh.
      - intros (h & c & Hc & <-). by eapply conn_open. }
    split; [done|]. split; [done|]. intros Hcl. apply set_eq. intros i. rewrite Hopen.
    destruct (mi_closed _ (wi_mgr w' Hw') Hcl) as (-> & _). split; [|set_solver].
    intros (h & c & Hc & _). by rewrite lookup_empty in Hc.
Qed.
End Theorems.

(** ** A concrete run *)

Module Example.
Local Instance example_digest : Digest := identity_digest.

Definition pin : string := pin_prefix +:+ EncodeToString (replicate 32 7%Z).
Definition t : Target := mkTarget "h1" "10.0.0.1" 22 "dev" "secret" "" pin 0 0.
Definition evidence : HostKeyEvidence := mkEvidence true (bytes_digest pin).

Definition after (acts : list action) : World := default initial (exec_all acts initial).

Lemma exec_all_steps acts w w' : exec_all acts w = Some w' -> rtc wstep w w'.
Proof.
  revert w. induction acts as [|act acts IH]; intros w; simpl; [by intros [= ->]|].
  intros (w1 & H1 & H)%bind_Some. eapply rtc_l; [by econstructor|by apply IH].
Qed.

Lemma after_reachable acts : exec_all acts initial = Some (after acts) -> rtc wstep initial (after acts).
Proof. apply exec_all_steps. Qed.

(** How often the generation of [h] moves. *)
Fixpoint moves (h : string) (acts : list action) (w : World) : nat :=
  match acts with
  | [] => 0
  | act :: acts =>
      match exec act w with
      | None => 0
      | Some w' =>
          (if decide (generation h (w_mgr w') = generation h (w_mgr w)) then 0 else 1) +
          moves h acts w'
      end
  end.

Lemma exec_all_run h acts w w' : exec_all acts w = Some w' -> run h (moves h acts w) w w'.
Proof.
  revert w. induction acts as [|act acts IH]; intros w; simpl; [intros [= ->]; constructor|].
  intros (w1 & H1 & H)%bind_Some. rewrite H1. econstructor; [done|by apply IH].
Qed.

(** A call that is dialling. *)
Definition dialling : list action := [ACall t; AStep 0; AStep 0].
(** Its result is there. *)
Definition dialled_acts : list action := (dialling ++ [ADial 0 (Ok (5000%Z, evidence))])%list.
Definition published : list action := (dialled_acts ++ [AStep 0])%list.
Definition attempt : connectAttempt := mkAttempt 1 0.
End Example.
#[local] Existing Instance Example.example_digest.

Lemma tunnels_verified_witness :
  let w := Example.after Example.published in
  rtc (@wstep Example.example_digest) initial w /\
  Status "h1" (w_mgr w) = StatusConnected /\
  hke_Verified (HostKeyEvidenceOf "h1" (w_mgr w)) = true.
Proof.
  intros w. assert (rtc (@wstep Example.example_digest) initial w) as Hr.
  { apply (Example.after_reachable Example.published). by vm_compute. }
  split; [done|]. destruct (tunnels_verified w Hr) as (_ & H & _).
  assert (is_Some (tm_conns (w_mgr w) !! "h1")) as Hc by (vm_compute; by eexists).
  split; apply H, Hc.
Defined.

Lemma answered_port_pinned_witness :
  exists c, tm_conns (w_mgr (Example.after Example.published)) !! "h1" = Some c /\
    cn_port c = 5000%Z /\ hke_Verified (cn_hostKey c) = true.
Proof.
  destruct (answered_port_pinned (Example.after Example.dialled_acts) (AStep 0)
    (Example.after Example.published) 0
    (GPublish Example.t (bytes_digest Example.pin) Example.attempt
       (Ok (mkConn 2 5000 Example.evidence)))
    (GSignal Example.attempt (Ok 5000%Z)) Example.t 5000%Z) as (c & Hc & Hp & _ & Hv & _).
  - apply (Example.after_reachable Example.dialled_acts). by vm_compute.
  - by vm_compute.
  - by vm_compute.
  - done.
  - done.
  - by vm_compute.
  - done.
  - exists c. split; [exact Hc|]. split; [exact Hp|exact Hv].
Defined.

(** [Disconnect] overtakes the dialler. *)
Lemma late_result_dropped_witness :
  let acts := (Example.dialling ++ [ADisconnect "h1"; AStep 2; ADial 0 (Ok (5000%Z, Example.evidence))])%list in
  let w := Example.after acts in
  let w' := default initial (exec (AStep 0) w) in
  tm_conns (w_mgr w') = tm_conns (w_mgr w) /\ tm_conns (w_mgr w) = ∅.
Proof.
  intros acts w w'. split; [|by vm_compute].
  assert (run "h1" 1 (Example.after Example.dialling) w) as Hrun.
  { apply (Example.exec_all_run "h1"
      [ADisconnect "h1"; AStep 2; ADial 0 (Ok (5000%Z, Example.evidence))] (Example.after Example.dialling)).
    by vm_compute. }
  apply (late_result_dropped "h1" 1 (Example.after Example.dialling) w 0 Example.t
    (bytes_digest Example.pin) Example.attempt (Ok (mkConn 3 5000 Example.evidence)) w').
  - apply (Example.after_reachable Example.dialling). by vm_compute.
  - by vm_compute.
  - by vm_compute.
  - done.
  - exact Hrun.
  - lia.
  - lia.
  - by vm_compute.
  - by vm_compute.
Defined.

Lemma every_call_returns_witness :
  let w := Example.after Example.dialling in
  rtc (@wstep Example.example_digest) initial w /\ potential w = 18%nat /\
  forall n w', nsteps istep n w w' -> (n <= 18)%nat.
Proof.
  intros w. assert (rtc (@wstep Example.example_digest) initial w) as Hr.
  { apply (Example.after_reachable Example.dialling). by vm_compute. }
  split; [done|]. assert (potential w = 18%nat) as E by (by vm_compute). split; [done|].
  rewrite <- E. apply (every_call_returns w Hr).
Defined.
