(* ===== verification/Templates.v ===== *)
(** * Pipeline templates: variables and includes (template/vars.go, expand.go, template.go)

    A step of type [include] stands for the steps of a template.  [ExpandSteps] replaces it: the
    template's variables are rendered, its steps are expanded in turn, named after the include
    and linked to what comes before and after it.  The library of templates is the argument
    [Resolve]; [TemplateStore] models it. *)
From stdpp Require Import base list strings gmap pretty relations.
From Stdlib Require Import Ascii ZArith Lia.
From S2P Require Import Prelude Model PipelinePlan PipelineVars.
Local Open Scope string_scope.

(** ** Values as text: [fmt.Sprint]

    A float is carried as the text that [%v] gives for it. *)

Definition show_bool (b : bool) : string := if b then "true" else "false".

Fixpoint Sprint (v : any) : string :=
  match v with
  | ANil => "<nil>"
  | ABool b => show_bool b
  | AInt z => pretty z
  | AFloat text => text
  | AStr s => s
  | AList l => "[" +:+ String.concat " " (Sprint <$> l) +:+ "]"
  | AMap m =>
      "map[" +:+ String.concat " "
        ((fun kv => kv.1 +:+ ":" +:+ kv.2)
           <$> SliceStable (fun a b => String.ltb a.1 b.1) ((fun kv => (kv.1, Sprint kv.2)) <$> m))
        +:+ "]"
  end.

Definition stringifyTemplateVarValue (v : any) : string :=
  match v with ANil => "" | AStr s => s | _ => Sprint v end.

Definition templateVarValueNonEmpty (v : any) : bool := negb (stringifyTemplateVarValue v =? "").

(** The text of an integer that has become a float64: from 10^6 on with an exponent.  Exact
    below 2^53. *)
Fixpoint strip_zeros (l : list ascii) : list ascii :=
  match l with
  | "0"%char :: l => strip_zeros l
  | _ => l
  end.

Definition float_text (z : Z) : string :=
  let digits := chars (pretty (Z.abs z)) in
  let exponent := (length digits - 1)%nat in
  let mantissa := rev (strip_zeros (rev digits)) in
  (if (z <? 0)%Z then "-" else "") +:+
  String.string_of_list_ascii
    (match mantissa with
     | d :: (_ :: _) => d :: "."%char :: tail mantissa
     | _ => mantissa
     end ++ chars "e+" ++ (if (exponent <? 10)%nat then ["0"%char] else []) ++ chars (pretty exponent))%list.

(** What a value is after [json.Marshal] and [json.Unmarshal]: numbers are float64. *)
Fixpoint json_copy (v : any) : any :=
  match v with
  | AInt z => if (Z.abs z <? 1000000)%Z then AInt z else AFloat (float_text z)
  | AList l => AList (json_copy <$> l)
  | AMap m => AMap ((fun kv => (kv.1, json_copy kv.2)) <$> m)
  | _ => v
  end.

(** ** Rendering of [${vars.name}] *)

(** [ReplaceAllStringFunc]: [m] gives the replacement of a match at the head of the text and
    what follows it.  A match is not empty: the length of the text is enough fuel. *)
Fixpoint replace_all (fuel : nat) (m : list ascii -> option (list ascii * list ascii))
    (l : list ascii) : list ascii :=
  match fuel with
  | O => l
  | S fuel =>
      match m l with
      | Some (replacement, rest) => replacement ++ replace_all fuel m rest
      | None =>
          match l with
          | [] => []
          | c :: l => c :: replace_all fuel m l
          end
      end
  end%list.

Definition ReplaceAll (m : list ascii -> option (list ascii * list ascii)) (s : string) : string :=
  String.string_of_list_ascii (replace_all (String.length s) m (chars s)).

Definition vars_open := "${vars.".

(** [templateVarRef] at the head: the name and what follows. *)
Definition match_vars (l : list ascii) : option (list ascii * list ascii) :=
  match strip_prefix (chars vars_open) l with
  | None => None
  | Some l =>
      match span name_char l with
      | (c :: name, "}"%char :: rest) => Some (c :: name, rest)
      | _ => None
      end
  end.

(** [templateVarDefaultRef] at the head: the name, the default and what follows. *)
Definition match_default (l : list ascii) : option (list ascii * list ascii * list ascii) :=
  match strip_prefix (chars vars_open) l with
  | None => None
  | Some l =>
      match span name_char l with
      | (c :: name, ":"%char :: "-"%char :: l) =>
          match span (fun c => negb (Ascii.eqb c "}"%char)) l with
          | (default, _ :: rest) => Some (c :: name, default, rest)
          | _ => None
          end
      | _ => None
      end
  end.

Definition var_of (vars : gmap string any) (name : list ascii) : option any :=
  vars !! String.string_of_list_ascii name.

Definition replacePlainTemplateVars (s : string) (vars : gmap string any) : string :=
  ReplaceAll (fun l =>
    '(name, rest) ← match_vars l;
    Some (match var_of vars name with
          | Some v => chars (stringifyTemplateVarValue v)
          | None => (chars vars_open ++ name ++ ["}"%char])%list
          end, rest)) s.

Definition replace_defaults (s : string) (vars : gmap string any) : string :=
  ReplaceAll (fun l =>
    '(name, text, rest) ← match_default l;
    Some (match var_of vars name with
          | Some v => if templateVarValueNonEmpty v then chars (stringifyTemplateVarValue v) else text
          | None => text
          end, rest)) s.

Definition renderTemplateString (s : string) (vars : gmap string any) : string :=
  replacePlainTemplateVars (replace_defaults (replacePlainTemplateVars s vars) vars) vars.

Definition renderTemplateStringSlice (values : list string) (vars : gmap string any) : list string :=
  (fun s => renderTemplateString s vars) <$> values.

(** A text that is one reference keeps the value of the variable. *)
Definition renderTemplateStringValue (s : string) (vars : gmap string any) : any :=
  match match_vars (chars s) with
  | Some (name, []) =>
      match var_of vars name with
      | Some (AStr text) => AStr (renderTemplateString text vars)
      | Some v => v
      | None => AStr (renderTemplateString s vars)
      end
  | _ => AStr (renderTemplateString s vars)
  end.

Fixpoint renderTemplateValue (vars : gmap string any) (v : any) : any :=
  match v with
  | AStr s => renderTemplateStringValue s vars
  | AList l => AList (renderTemplateValue vars <$> l)
  | AMap m => AMap ((fun kv => (kv.1, renderTemplateValue vars kv.2)) <$> m)
  | _ => v
  end.

Definition renderTemplateMap (values : list (string * any)) (vars : gmap string any)
    : list (string * any) :=
  (fun kv => (kv.1, renderTemplateValue vars kv.2)) <$> values.

(** The copy of the step goes through JSON. *)
Definition RenderStepTemplateVars (step : Step) (vars : gmap string any) : Step :=
  {| step_Name := renderTemplateString (step_Name step) vars;
     step_Type := renderTemplateString (step_Type step) vars;
     step_Needs := renderTemplateStringSlice (step_Needs step) vars;
     step_Roles := renderTemplateStringSlice (step_Roles step) vars;
     step_RunIf := renderTemplateString (step_RunIf step) vars;
     step_Concurrency := renderTemplateString (step_Concurrency step) vars;
     step_Retries := step_Retries step;
     step_RetryDelay := renderTemplateString (step_RetryDelay step) vars;
     step_With := renderTemplateMap ((fun kv => (kv.1, json_copy kv.2)) <$> step_With step) vars |}.

(** ** Templates *)

Record Input : Type := {
  in_Label : string;
  in_Type : string;
  in_Required : bool;
  in_Default : string;
  in_Description : string;
  in_Options : list string;
}.

Record Template : Type := {
  tpl_ID : string;
  tpl_Name : string;
  tpl_Description : string;
  tpl_Category : string;
  tpl_Version : string;
  tpl_Inputs : gmap string Input;
  tpl_Steps : list Step;
}.

Record VersionedTemplate : Type := mkVersioned {
  vt_Source : string;
  vt_Template : Template;
  vt_Digest : string;
}.

Definition ValidCategory (category : string) : bool :=
  (category =? "build") || (category =? "deploy") || (category =? "cleanup") || (category =? "general").

(** [Validate] of a template; [None] when it is valid. *)
Definition validate_template (t : Template) : option string :=
  if tpl_ID t =? "" then Some "id is required"
  else if tpl_Name t =? "" then Some "name is required"
  else if tpl_Version t =? "" then Some "version is required"
  else if negb (tpl_Category t =? "") && negb (ValidCategory (tpl_Category t))
  then Some "category must be one of build, deploy, cleanup, general"
  else match tpl_Steps t with [] => Some "steps is required" | _ => None end.

(** ** Expansion *)

Inductive expand_error : Type :=
| ErrIncludeDepth
| ErrIncludeCycle (key : string)
| ErrResolve (msg : string)
| ErrTemplateInvalid (msg : string)
| ErrTemplateDigest.

Definition with_value (k : string) (step : Step) : option any :=
  snd <$> List.find (fun kv => kv.1 =? k) (step_With step).

(** [step.With[k].(string)] *)
Definition with_string (k : string) (step : Step) : string :=
  match with_value k step with Some (AStr s) => s | _ => "" end.

Definition is_include (step : Step) : bool := step_Type step =? "include".

Definition set_links (name : string) (needs : list string) (s : Step) : Step :=
  {| step_Name := name; step_Type := step_Type s; step_Needs := needs; step_Roles := step_Roles s;
     step_RunIf := step_RunIf s; step_Concurrency := step_Concurrency s;
     step_Retries := step_Retries s; step_RetryDelay := step_RetryDelay s;
     step_With := step_With s |}.

Definition set_roles (roles : list string) (s : Step) : Step :=
  {| step_Name := step_Name s; step_Type := step_Type s; step_Needs := step_Needs s;
     step_Roles := roles; step_RunIf := step_RunIf s; step_Concurrency := step_Concurrency s;
     step_Retries := step_Retries s; step_RetryDelay := step_RetryDelay s;
     step_With := step_With s |}.

Definition relinkNeeds (needs : list string) (leaves : gmap string (list string)) : list string :=
  needs ≫= (fun dep => default [dep] (leaves !! dep)).

Definition dependedOnSet (steps : list Step) : gset string := list_to_set (steps ≫= step_Needs).

Definition renderPipelineValue (vars : gmap string string) (v : any) : any :=
  renderInterfaceValue vars v.

Definition includeVars (step : Step) (pipelineVars : gmap string string) : gmap string any :=
  let base := AStr <$> pipelineVars in
  match with_value "vars" step with
  | Some (AMap m) => foldl (fun out kv => <[kv.1 := renderPipelineValue pipelineVars kv.2]> out) base m
  | _ => base
  end.

(** The steps of a template, rendered for an include. *)
Definition rendered_steps (include : Step) (pipelineVars : gmap string string) (t : Template)
    : list Step :=
  (fun s =>
     let rs := RenderStepTemplateVars s (includeVars include pipelineVars) in
     match step_Roles rs, step_Roles include with
     | [], _ :: _ => set_roles (step_Roles include) rs
     | _, _ => rs
     end) <$> tpl_Steps t.

Definition namespaced (include : string) (name : string) : string := include +:+ "." +:+ name.

(** A step of the expansion of an include: entry steps take over the needs of the include. *)
Definition namespace_step (include : Step) (leaves : gmap string (list string)) (s : Step) : Step :=
  set_links (namespaced (step_Name include) (step_Name s))
    match step_Needs s with
    | [] => relinkNeeds (step_Needs include) leaves
    | needs => namespaced (step_Name include) <$> needs
    end s.

(** The names of the steps that no other step needs. *)
Definition namespaced_leaves (include : string) (nested : list Step) : list string :=
  namespaced include <$>
    List.filter (fun name => negb (bool_decide (name ∈ dependedOnSet nested))) (step_Name <$> nested).

Section Expand.
Context (Resolve : string -> string -> string -> result string VersionedTemplate).
Context (pipelineVars : gmap string string).

(** The template of an include, checked. *)
Definition resolve_include (step : Step) : result expand_error Template :=
  let uri := with_string "template" step in
  let version := with_string "version" step in
  let digest := with_string "digest" step in
  match Resolve uri version digest with
  | Err msg => Err (ErrResolve msg)
  | Ok t =>
      match validate_template (vt_Template t) with
      | Some msg => Err (ErrTemplateInvalid msg)
      | None =>
          if negb (digest =? "") && negb (vt_Digest t =? digest) then Err ErrTemplateDigest
          else Ok (vt_Template t)
      end
  end.

Definition include_key (step : Step) : string :=
  with_string "template" step +:+ "@" +:+ with_string "version" step.

(** [nested]: the expansion of the template's steps.  [leaves]: for each include so far, the
    steps that end it. *)
Fixpoint expand_list (nested : gset string -> list Step -> result expand_error (list Step))
    (stack : gset string) (leaves : gmap string (list string)) (steps : list Step)
    : result expand_error (list Step) :=
  match steps with
  | [] => Ok []
  | step :: steps =>
      if negb (is_include step) then
        rbind (expand_list nested stack leaves steps) (fun out =>
        Ok (set_links (step_Name step) (relinkNeeds (step_Needs step) leaves) step :: out))
      else
        let key := include_key step in
        if bool_decide (key ∈ stack) then Err (ErrIncludeCycle key)
        else
          rbind (resolve_include step) (fun t =>
          rbind (nested ({[key]} ∪ stack) (rendered_steps step pipelineVars t)) (fun inner =>
          rbind (expand_list nested stack
                   (<[step_Name step := namespaced_leaves (step_Name step) inner]> leaves) steps)
            (fun out => Ok ((namespace_step step leaves <$> inner) ++ out)%list)))
  end.

(** [levels]: how many levels may still be entered. *)
Fixpoint expandSteps (levels : nat) (stack : gset string) (steps : list Step)
    : result expand_error (list Step) :=
  match levels with
  | O => Err ErrIncludeDepth
  | S levels => expand_list (expandSteps levels) stack ∅ steps
  end.

Definition ExpandSteps (steps : list Step) (maxDepth : Z) : result expand_error (list Step) :=
  expandSteps (Z.to_nat (maxDepth + 1)) ∅ steps.
End Expand.

Definition maxIncludeDepth : Z := 5.

(** [expandDeploymentPipeline]: the three phases of a pipeline. *)
Definition expandDeploymentPipeline
    (Resolve : string -> string -> string -> result string VersionedTemplate) (p : Pipeline)
    : result expand_error Pipeline :=
  rbind (ExpandSteps Resolve (pl_Variables p) (pl_Build p) maxIncludeDepth) (fun build =>
  rbind (ExpandSteps Resolve (pl_Variables p) (pl_Deploy p) maxIncludeDepth) (fun deploy =>
  rbind (ExpandSteps Resolve (pl_Variables p) (pl_Finally p) maxIncludeDepth) (fun finally =>
  Ok {| pl_Variables := pl_Variables p; pl_Roles := pl_Roles p;
        pl_Build := build; pl_Deploy := deploy; pl_Finally := finally |}))).

(** ** Rendering, on concrete texts *)

Example render_default :
  renderTemplateString "${vars.output:-${vars.dir}/app} ${name} ${vars.unknown}"
    {["dir" := AStr "/tmp"]} = "/tmp/app ${name} ${vars.unknown}".
Proof. by vm_compute. Qed.

(** A number that was given in a template, and so went through JSON, is rendered with an
    exponent from a million on; the same number given in a pipeline is not. *)
Example nested_number_rendered :
  renderTemplateString "${vars.n}" {["n" := json_copy (AInt 1000000)]} = "1e+06" /\
  renderTemplateString "${vars.n}" {["n" := AInt 1000000]} = "1000000" /\
  renderTemplateString "${vars.n}" {["n" := json_copy (AInt 1234500)]} = "1.2345e+06".
Proof. by vm_compute. Qed.

(** ** Well-formed lists of steps *)

Definition dot : ascii := ".".

Definition dot_free (s : string) : Prop := dot ∉ chars s.

(** Every need names an earlier step, or one of [seen]. *)
Fixpoint ordered_from (seen : list string) (steps : list Step) : Prop :=
  match steps with
  | [] => True
  | s :: steps => step_Needs s ⊆ seen /\ ordered_from (seen ++ [step_Name s]) steps
  end.

Abbreviation names := (fmap step_Name).

Record well_formed (steps : list Step) : Prop := {
  wf_nodup : NoDup (names steps);
  wf_dot_free : Forall dot_free (names steps);
  wf_ordered : ordered_from [] steps;
}.

Lemma ordered_from_app seen a b :
  ordered_from seen (a ++ b) <-> ordered_from seen a /\ ordered_from (seen ++ names a) b.
Proof.
  revert seen. induction a as [|s a IH]; intros seen; simpl; [rewrite app_nil_r; tauto|].
  rewrite IH, <- app_assoc. tauto.
Qed.

Lemma ordered_from_weaken seen seen' steps :
  seen ⊆ seen' -> ordered_from seen steps -> ordered_from seen' steps.
Proof.
  revert seen seen'. induction steps as [|s steps IH]; intros seen seen' H; simpl; [done|].
  intros [Hn Ho]. split; [set_solver|]. eapply IH; [|done]. set_solver.
Qed.

Lemma ordered_lookup seen steps i s d :
  ordered_from seen steps -> steps !! i = Some s -> d ∈ step_Needs s ->
  d ∈ seen \/ exists j s', (j < i)%nat /\ steps !! j = Some s' /\ step_Name s' = d.
Proof.
  revert seen i. induction steps as [|s0 steps IH]; intros seen i; [done|]. intros [Hn Ho] Hi Hd.
  destruct i as [|i]; simpl in Hi; [injection Hi as ->; left; by apply Hn|].
  destruct (IH _ _ Ho Hi Hd) as [H|(j & s' & Hj & Hs' & E)].
  - apply elem_of_app in H as [H| ->%list_elem_of_singleton]; [by left|].
    right. exists 0%nat, s0. split; [lia|done].
  - right. exists (S j), s'. split; [lia|done].
Qed.

(** ** Dependencies *)

Definition depends (steps : list Step) (x y : string) : Prop :=
  exists s, s ∈ steps /\ step_Name s = x /\ y ∈ step_Needs s.

Lemma depends_mono steps steps' x y : steps ⊆ steps' -> depends steps x y -> depends steps' x y.
Proof. intros H (s & Hs & E). exists s. split; [by apply H|done]. Qed.

Lemma rtc_depends_mono steps steps' x y :
  steps ⊆ steps' -> rtc (depends steps) x y -> rtc (depends steps') x y.
Proof. intros H. apply rtc_subrel. intros ? ?. by apply depends_mono. Qed.

Lemma names_lookup_inj steps i j s s' :
  NoDup (names steps) -> steps !! i = Some s -> steps !! j = Some s' ->
  step_Name s = step_Name s' -> i = j.
Proof.
  intros Hnd Hi Hj E. eapply (NoDup_lookup (names steps) i j (step_Name s)); [done|..];
    rewrite list_lookup_fmap; [by rewrite Hi|by rewrite Hj, E].
Qed.

(** Every step is needed, in some steps, by one that nobody needs. *)
Lemma leaf_reaches steps i s :
  NoDup (names steps) -> ordered_from [] steps -> steps !! i = Some s ->
  exists l, l ∈ names steps /\ l ∉ dependedOnSet steps /\ rtc (depends steps) l (step_Name s).
Proof.
  intros Hnd Ho. remember (length steps - i)%nat as n eqn:En. revert i s En.
  induction n as [n IH] using lt_wf_ind. intros i s -> Hi.
  destruct (decide (step_Name s ∈ dependedOnSet steps)) as [Hd|Hd].
  - unfold dependedOnSet in Hd. apply elem_of_list_to_set, list_elem_of_bind in Hd as (s' & Hn & Hs').
    apply list_elem_of_lookup in Hs' as [k Hk].
    destruct (ordered_lookup [] steps k s' _ Ho Hk Hn) as [H%elem_of_nil|(j & s'' & Hj & Hs'' & E)]; [done|].
    assert (j = i) as -> by by eapply names_lookup_inj.
    pose proof (lookup_lt_Some _ _ _ Hk).
    destruct (IH (length steps - k)%nat ltac:(lia) k s' eq_refl Hk) as (l & Hl & Hl' & Hr).
    exists l. split; [done|]. split; [done|]. eapply rtc_r; [done|]. exists s'.
    split; [by eapply list_elem_of_lookup_2|done].
  - exists (step_Name s). split; [|split; [done|reflexivity]].
    apply list_elem_of_fmap_2. by eapply list_elem_of_lookup_2.
Qed.

(** Every step needs, in some steps, one that needs nothing. *)
Lemma reaches_entry steps i s :
  ordered_from [] steps -> steps !! i = Some s ->
  exists e, e ∈ steps /\ step_Needs e = [] /\ rtc (depends steps) (step_Name s) (step_Name e).
Proof.
  intros Ho. revert s. induction i as [i IH] using lt_wf_ind. intros s Hi.
  destruct (step_Needs s) as [|d needs] eqn:En.
  - exists s. split; [by eapply list_elem_of_lookup_2|]. by split.
  - assert (d ∈ step_Needs s) as Hd by (rewrite En; by left).
    destruct (ordered_lookup [] steps i s d Ho Hi Hd) as [H%elem_of_nil|(j & s' & Hj & Hs' & E)]; [done|].
    destruct (IH j Hj s' Hs') as (e & He & Hne & Hr). exists e. split; [done|]. split; [done|].
    eapply rtc_l; [|by rewrite E in Hr]. exists s. split; [by eapply list_elem_of_lookup_2|done].
Qed.

(** ** One include *)

Lemma namespaced_inj p : Inj (=) (=) (namespaced p).
Proof. intros x y H. unfold namespaced in H. by apply (inj (String.app p)), (inj (String.app ".")) in H. Qed.

Section Include.
Context (include : Step) (leaves : gmap string (list string)) (inner : list Step).
Let p := step_Name include.
Let group := namespace_step include leaves <$> inner.

Lemma group_names : names group = namespaced p <$> names inner.
Proof. unfold group. rewrite <- !list_fmap_compose. by apply list_fmap_ext. Qed.

Lemma group_depends x y :
  depends inner x y -> depends group (namespaced p x) (namespaced p y).
Proof.
  intros (s & Hs & <- & Hy). exists (namespace_step include leaves s).
  split; [by apply list_elem_of_fmap_2|]. split; [done|]. simpl.
  destruct (step_Needs s) as [|d needs] eqn:E; [by apply elem_of_nil in Hy|].
  by apply (list_elem_of_fmap_2 (namespaced p) (d :: needs)).
Qed.

Lemma group_rtc x y :
  rtc (depends inner) x y -> rtc (depends group) (namespaced p x) (namespaced p y).
Proof. induction 1; [done|]. eapply rtc_l; [by apply group_depends|done]. Qed.

Lemma group_leaf f :
  NoDup (names inner) -> ordered_from [] inner -> f ∈ names group ->
  exists l, l ∈ namespaced_leaves p inner /\ rtc (depends group) l f.
Proof.
  intros Hnd Ho. rewrite group_names. intros (x & -> & (s & -> & Hs)%list_elem_of_fmap)%list_elem_of_fmap.
  apply list_elem_of_lookup in Hs as [i Hi].
  destruct (leaf_reaches inner i s Hnd Ho Hi) as (l & Hl & Hl' & Hr).
  exists (namespaced p l). split; [|by apply group_rtc].
  apply list_elem_of_fmap_2, list_elem_of_In, filter_In. split; [by apply list_elem_of_In|].
  by rewrite bool_decide_eq_false_2.
Qed.

Lemma group_entry b :
  ordered_from [] inner -> b ∈ group ->
  exists e, e ∈ group /\ step_Needs e = relinkNeeds (step_Needs include) leaves /\
    rtc (depends group) (step_Name b) (step_Name e).
Proof.
  intros Ho (s & -> & Hs)%list_elem_of_fmap. apply list_elem_of_lookup in Hs as [i Hi].
  destruct (reaches_entry inner i s Ho Hi) as (e & He & Hn & Hr).
  exists (namespace_step include leaves e). split; [by apply list_elem_of_fmap_2|].
  split; [simpl; by rewrite Hn|]. by apply group_rtc.
Qed.

Lemma group_ordered seen out :
  relinkNeeds (step_Needs include) leaves ⊆ out -> ordered_from seen inner ->
  ordered_from (out ++ (namespaced p <$> seen)) group.
Proof.
  unfold group. intros Hr. revert seen. induction inner as [|s steps IH]; intros seen; simpl; [done|].
  intros [Hn Ho]. split.
  - destruct (step_Needs s) as [|d needs]; [set_solver|].
    intros x (y & -> & Hy)%(list_elem_of_fmap (namespaced p) (d :: needs)). apply elem_of_app. right.
    by apply list_elem_of_fmap_2, Hn.
  - specialize (IH _ Ho). rewrite fmap_app, app_assoc in IH. exact IH.
Qed.

Lemma namespaced_leaves_names : namespaced_leaves p inner ⊆ names group.
Proof.
  rewrite group_names. intros x (y & -> & Hy)%list_elem_of_fmap.
  apply list_elem_of_fmap_2. apply list_elem_of_In, filter_In in Hy as [Hy _]. by apply list_elem_of_In.
Qed.
End Include.

(** ** A list of steps and the groups it expands to *)

(** What the expansion of the steps of a template satisfies. *)
Record expansion_ok (out : list Step) : Prop := {
  eo_nodup : NoDup (names out);
  eo_ordered : ordered_from [] out;
  eo_plain : Forall (fun s => is_include s = false) out;
  eo_nonempty : out <> [];
}.

Inductive expanded : gmap string (list string) -> list Step -> list (list Step) -> Prop :=
| expanded_nil leaves : expanded leaves [] []
| expanded_plain leaves s steps groups :
    is_include s = false -> expanded leaves steps groups ->
    expanded leaves (s :: steps)
      ([set_links (step_Name s) (relinkNeeds (step_Needs s) leaves) s] :: groups)
| expanded_include leaves s inner steps groups :
    is_include s = true -> expansion_ok inner ->
    expanded (<[step_Name s := namespaced_leaves (step_Name s) inner]> leaves) steps groups ->
    expanded leaves (s :: steps) ((namespace_step s leaves <$> inner) :: groups).

Section ExpandLemmas.
Context (Resolve : string -> string -> string -> result string VersionedTemplate).
Context (pipelineVars : gmap string string).

(** The templates of the library are well-formed once rendered. *)
Definition templates_well_formed : Prop :=
  forall include t, resolve_include Resolve include = Ok t ->
    well_formed (rendered_steps include pipelineVars t).

Lemma resolve_include_nonempty include t :
  resolve_include Resolve include = Ok t -> rendered_steps include pipelineVars t <> [].
Proof.
  unfold resolve_include. destruct (Resolve _ _ _) as [vt|]; [|done].
  destruct (validate_template (vt_Template vt)) eqn:E; [done|].
  destruct (_ && _); [done|]. intros [= <-]. unfold rendered_steps, validate_template in *.
  repeat case_match; done.
Qed.

Lemma expand_list_expanded nested stack leaves steps out :
  templates_well_formed ->
  (forall stack steps out, nested stack steps = Ok out -> well_formed steps -> steps <> [] ->
     expansion_ok out) ->
  expand_list Resolve pipelineVars nested stack leaves steps = Ok out ->
  exists groups, out = concat groups /\ expanded leaves steps groups.
Proof.
  intros Ht Hnested. revert leaves out. induction steps as [|s steps IH]; intros leaves out; simpl.
  { intros [= <-]. exists []. split; [done|constructor]. }
  destruct (is_include s) eqn:Ei; simpl.
  - case_bool_decide; [done|]. destruct (resolve_include Resolve s) as [t|] eqn:Et; [simpl|done].
    destruct (nested _ _) as [inner|] eqn:En; [simpl|done].
    destruct (expand_list _ _ _ _ _ steps) as [out'|] eqn:Eo; [simpl|done]. intros [= <-].
    destruct (IH _ _ Eo) as (groups & -> & Hg). eexists (_ :: groups). split; [done|].
    constructor; [done| |done]. eapply Hnested; [done|by apply Ht|by apply resolve_include_nonempty].
  - destruct (expand_list _ _ _ _ _ steps) as [out'|] eqn:Eo; [simpl|done]. intros [= <-].
    destruct (IH _ _ Eo) as (groups & -> & Hg). eexists ([_] :: groups). split; [done|].
    by constructor.
Qed.
End ExpandLemmas.

(** The part of a name before its first dot: which step of the list it comes from. *)
Fixpoint before_dot (l : list ascii) : list ascii :=
  match l with
  | [] => []
  | c :: l => if Ascii.eqb c dot then [] else c :: before_dot l
  end.

Lemma before_dot_free l : dot ∉ l -> before_dot l = l.
Proof.
  induction l as [|c l IH]; simpl; [done|]. intros H.
  destruct (Ascii.eqb_spec c dot) as [->|]; [set_solver|]. f_equal. apply IH. set_solver.
Qed.

Lemma before_dot_app l k : dot ∉ l -> before_dot (l ++ dot :: k) = l.
Proof.
  induction l as [|c l IH]; simpl; [done|]. intros H.
  destruct (Ascii.eqb_spec c dot) as [->|]; [set_solver|]. f_equal. apply IH. set_solver.
Qed.

Lemma chars_app s t : chars (s +:+ t) = (chars s ++ chars t)%list.
Proof. induction s as [|c s IH]; [done|]. simpl. by rewrite IH. Qed.

Lemma chars_inj s t : chars s = chars t -> s = t.
Proof.
  intros H. rewrite <- (String.string_of_list_ascii_of_string s), H.
  apply String.string_of_list_ascii_of_string.
Qed.

Lemma namespaced_before p x : dot_free p -> before_dot (chars (namespaced p x)) = chars p.
Proof. intros H. unfold namespaced. rewrite !chars_app. by apply before_dot_app. Qed.

(** The names of a group come from its step. *)
Lemma expanded_origin leaves steps groups n :
  expanded leaves steps groups -> Forall dot_free (names steps) -> n ∈ names (concat groups) ->
  exists s, s ∈ steps /\ before_dot (chars n) = chars (step_Name s).
Proof.
  induction 1 as [|leaves s steps groups Hs _ IH|leaves s inner steps groups Hs Hi _ IH];
    cbn [fmap list_fmap concat]; [by intros _ ?%elem_of_nil|..];
    rewrite Forall_cons, fmap_app, elem_of_app; intros [Hd Hds] [H|H].
  - apply list_elem_of_singleton in H as ->. exists s. split; [by left|]. by apply before_dot_free.
  - destruct (IH Hds H) as (s' & Hs' & E). exists s'. split; [by right|done].
  - rewrite group_names in H. apply list_elem_of_fmap in H as (x & -> & _). exists s.
    split; [by left|]. by apply namespaced_before.
  - destruct (IH Hds H) as (s' & Hs' & E). exists s'. split; [by right|done].
Qed.

Lemma expanded_nodup leaves steps groups :
  expanded leaves steps groups -> Forall dot_free (names steps) -> NoDup (names steps) ->
  NoDup (names (concat groups)).
Proof.
  induction 1 as [|leaves s steps groups Hs Hx IH|leaves s inner steps groups Hs Hi Hx IH];
    cbn [fmap list_fmap concat]; [by intros _ _; constructor|..];
    rewrite Forall_cons, NoDup_cons, fmap_app, NoDup_app; intros [Hd Hds] [Hn Hnd];
    (split; [|split; [|by apply IH]]).
  - apply NoDup_singleton.
  - intros n ->%list_elem_of_singleton (s' & Hs' & E)%(expanded_origin _ _ _ _ Hx Hds).
    simpl in E. rewrite before_dot_free in E by done. apply chars_inj in E. apply Hn. rewrite E.
    by apply list_elem_of_fmap_2.
  - rewrite group_names. apply (NoDup_fmap_2 _), Hi. 
  - intros n. rewrite group_names. intros (x & -> & _)%list_elem_of_fmap.
    intros (s' & Hs' & E)%(expanded_origin _ _ _ _ Hx Hds).
    rewrite namespaced_before in E by done. apply chars_inj in E. apply Hn. rewrite E.
    by apply list_elem_of_fmap_2.
Qed.

Lemma relink_in leaves needs seen out :
  needs ⊆ seen -> (forall d, d ∈ seen -> default [d] (leaves !! d) ⊆ out) ->
  relinkNeeds needs leaves ⊆ out.
Proof.
  intros Hn Hl x (d & Hx & Hd)%list_elem_of_bind. by apply (Hl d (Hn d Hd)).
Qed.

Lemma expanded_ordered leaves steps groups seen out :
  expanded leaves steps groups -> ordered_from seen steps -> NoDup (names steps) ->
  (forall d, d ∈ names steps -> leaves !! d = None) ->
  (forall d, d ∈ seen -> default [d] (leaves !! d) ⊆ out) ->
  ordered_from out (concat groups).
Proof.
  intros H. revert seen out.
  induction H as [|leaves s steps groups Hs _ IH|leaves s inner steps groups Hs Hi _ IH];
    intros seen out; cbn [fmap list_fmap concat ordered_from]; [done|..];
    rewrite NoDup_cons; intros [Hn Ho] [Hns Hnd] Hfree Hseen;
    pose proof (relink_in _ _ _ _ Hn Hseen) as Hr.
  - simpl. split; [done|]. apply (IH (seen ++ [step_Name s])%list); [done|done| |].
    + intros d Hd. apply Hfree. by right.
    + intros d [Hd| ->%list_elem_of_singleton]%elem_of_app.
      * intros x Hx%(Hseen d Hd). set_solver.
      * rewrite Hfree by left. simpl. set_solver.
  - rewrite ordered_from_app. split.
    + pose proof (group_ordered s leaves inner [] out Hr (eo_ordered _ Hi)) as H.
      by rewrite app_nil_r in H.
    + apply (IH (seen ++ [step_Name s])%list); [done|done| |].
      * intros d Hd. rewrite lookup_insert_ne; [apply Hfree; by right|]. by intros <-.
      * intros d Hd. destruct (decide (d = step_Name s)) as [->|Hne].
        { rewrite lookup_insert_eq. simpl. intros x Hx. apply elem_of_app. right.
          by apply (namespaced_leaves_names s leaves inner). }
        rewrite lookup_insert_ne by done.
        apply elem_of_app in Hd as [Hd| ->%list_elem_of_singleton]; [|done].
        intros x Hx%(Hseen d Hd). set_solver.
Qed.

Lemma expanded_plain_steps leaves steps groups :
  expanded leaves steps groups -> Forall (fun s => is_include s = false) (concat groups).
Proof.
  induction 1 as [|leaves s steps groups Hs _ IH|leaves s inner steps groups Hs Hi _ IH];
    cbn [concat]; [constructor|constructor; done|].
  apply Forall_app. split; [|done]. apply Forall_fmap. apply (eo_plain _ Hi).
Qed.

Lemma expanded_nonempty leaves steps groups :
  expanded leaves steps groups -> steps <> [] -> concat groups <> [].
Proof.
  intros [|leaves' s steps' groups' _ _|leaves' s inner steps' groups' _ Hi _]; [done|done|].
  intros _ H. apply app_eq_nil in H as [H _]. apply fmap_nil_inv in H. by apply (eo_nonempty _ Hi).
Qed.

Lemma expanded_ok steps groups :
  expanded ∅ steps groups -> well_formed steps -> steps <> [] -> expansion_ok (concat groups).
Proof.
  intros H [Hnd Hd Ho] Hne. split.
  - by eapply expanded_nodup.
  - eapply expanded_ordered; [done|done|done| |].
    + intros d _. apply lookup_empty.
    + intros d Hin. by apply elem_of_nil in Hin.
  - by eapply expanded_plain_steps.
  - by eapply expanded_nonempty.
Qed.

(** ** What a dependency between two steps becomes *)

(** The group of a step, for the leaves known before it. *)
Definition group_of (leaves : gmap string (list string)) (s : Step) (g : list Step) : Prop :=
  (is_include s = false /\ g = [set_links (step_Name s) (relinkNeeds (step_Needs s) leaves) s]) \/
  (is_include s = true /\ exists inner, expansion_ok inner /\ g = namespace_step s leaves <$> inner).

(** The names that stand for a step in the needs of later ones. *)
Definition exits (s : Step) (g : list Step) (l : list string) : Prop :=
  (is_include s = false /\ names g = [step_Name s] /\ l = [step_Name s]) \/
  (is_include s = true /\ exists leaves inner, expansion_ok inner /\
     g = namespace_step s leaves <$> inner /\ l = namespaced_leaves (step_Name s) inner).

Lemma expanded_lookup leaves steps groups j t g :
  expanded leaves steps groups -> NoDup (names steps) ->
  (forall d, d ∈ names steps -> leaves !! d = None) ->
  steps !! j = Some t -> groups !! j = Some g ->
  exists leaves', group_of leaves' t g /\
    (forall d, d ∉ names steps -> leaves' !! d = leaves !! d) /\
    (forall i s gi, (i < j)%nat -> steps !! i = Some s -> groups !! i = Some gi ->
       exits s gi (default [step_Name s] (leaves' !! step_Name s))).
Proof.
  intros H. revert j. induction H as [|leaves s steps groups Hs Hx IH|leaves s inner steps groups Hs Hi Hx IH];
    intros j; [done|..]; cbn [fmap list_fmap]; rewrite NoDup_cons; intros [Hn Hnd] Hfree.
  - destruct j as [|j]; cbn; intros Ht Hg.
    + injection Ht as <-. injection Hg as <-. exists leaves. split; [by left|]. split; [done|].
      intros i ? ? ?. lia.
    + destruct (IH j Hnd (fun d Hd => Hfree d ltac:(by right)) Ht Hg) as (leaves' & Hg' & Hout & Hbefore).
      exists leaves'. split; [done|]. split; [intros d Hd; apply Hout; set_solver|].
      intros [|i] s' gi Hij; cbn; intros Hs' Hgi; [|apply (Hbefore i); [lia|done..]].
      injection Hs' as <-. injection Hgi as <-. rewrite Hout, Hfree by (done || by left).
      by left.
  - destruct j as [|j]; cbn; intros Ht Hg.
    + injection Ht as <-. injection Hg as <-. exists leaves. split; [right; eauto|]. split; [done|].
      intros i ? ? ?. lia.
    + destruct (IH j Hnd) as (leaves' & Hg' & Hout & Hbefore); [|done|done|].
      { intros d Hd. rewrite lookup_insert_ne; [apply Hfree; by right|]. by intros <-. }
      exists leaves'. split; [done|]. split.
      { intros d Hd. rewrite Hout by set_solver. rewrite lookup_insert_ne; [done|set_solver]. }
      intros [|i] s' gi Hij; cbn; intros Hs' Hgi; [|apply (Hbefore i); [lia|done..]].
      injection Hs' as <-. injection Hgi as <-. rewrite Hout, lookup_insert_eq by done.
      right. split; [done|]. by exists leaves, inner.
Qed.

Lemma exits_reach s g l f :
  exits s g l -> f ∈ names g -> exists x, x ∈ l /\ rtc (depends g) x f.
Proof.
  intros [(_ & E & ->)|(_ & leaves & inner & Hi & -> & ->)] Hf.
  - rewrite E in Hf. exists f. by split.
  - apply group_leaf; [apply Hi|apply Hi|done].
Qed.

Lemma group_of_entry leaves t g b :
  group_of leaves t g -> b ∈ g ->
  exists e, e ∈ g /\ step_Needs e = relinkNeeds (step_Needs t) leaves /\
    rtc (depends g) (step_Name b) (step_Name e).
Proof.
  intros [(_ & ->)|(_ & inner & Hi & ->)] Hb.
  - exists b. split; [done|]. apply list_elem_of_singleton in Hb as ->. done.
  - apply group_entry; [apply Hi|done].
Qed.

(** A need of one step of the list makes everything it expands to depend on everything that the
    step it names expands to. *)
Lemma expanded_depends steps groups i j s t gi gj a b :
  expanded ∅ steps groups -> NoDup (names steps) -> (i < j)%nat ->
  steps !! i = Some s -> steps !! j = Some t -> groups !! i = Some gi -> groups !! j = Some gj ->
  step_Name s ∈ step_Needs t -> a ∈ gj -> b ∈ gi ->
  tc (depends (concat groups)) (step_Name a) (step_Name b).
Proof.
  intros H Hnd Hij Hs Ht Hgi Hgj Hneed Ha Hb.
  destruct (expanded_lookup ∅ steps groups j t gj H Hnd) as (leaves & Hg & _ & Hbefore);
    [by intros d _; apply lookup_empty|done|done|].
  pose proof (Hbefore i s gi Hij Hs Hgi) as Hexit.
  destruct (exits_reach _ _ _ (step_Name b) Hexit) as (x & Hx & Hr); [by apply list_elem_of_fmap_2|].
  destruct (group_of_entry _ _ _ a Hg Ha) as (e & He & Hne & Hr').
  assert (forall g k, groups !! k = Some g -> g ⊆ concat groups) as Hsub.
  { intros g k Hk y Hy. apply list_elem_of_In, in_concat. exists g.
    split; apply list_elem_of_In; [by eapply list_elem_of_lookup_2|done]. }
  eapply tc_rtc_l; [by eapply rtc_depends_mono, Hr'; eapply Hsub|].
  eapply tc_rtc_r; [|by eapply rtc_depends_mono, Hr; eapply Hsub].
  apply tc_once. exists e. split; [by eapply Hsub|]. split; [done|]. rewrite Hne.
  apply list_elem_of_bind. by exists (step_Name s).
Qed.

Section ExpandTheorems.
Context (Resolve : string -> string -> string -> result string VersionedTemplate).
Context (pipelineVars : gmap string string).

Lemma expandSteps_ok levels stack steps out :
  templates_well_formed Resolve pipelineVars ->
  expandSteps Resolve pipelineVars levels stack steps = Ok out -> well_formed steps -> steps <> [] ->
  expansion_ok out.
Proof.
  intros Ht. revert stack steps out. induction levels as [|levels IH]; intros stack steps out; [done|].
  simpl. intros H Hwf Hne.
  destruct (expand_list_expanded _ _ _ _ _ _ _ Ht IH H) as (groups & -> & Hg).
  by apply (expanded_ok steps).
Qed.

Lemma ExpandSteps_expanded steps maxDepth out :
  templates_well_formed Resolve pipelineVars ->
  ExpandSteps Resolve pipelineVars steps maxDepth = Ok out ->
  exists groups, out = concat groups /\ expanded ∅ steps groups.
Proof.
  intros Ht. unfold ExpandSteps. destruct (Z.to_nat _) as [|levels]; [done|]. simpl. intros H.
  by apply (expand_list_expanded _ _ _ _ _ _ _ Ht
    (fun stack steps out => expandSteps_ok levels stack steps out Ht)) in H.
Qed.

Lemma expanded_length leaves steps groups :
  expanded leaves steps groups -> length groups = length steps.
Proof. induction 1; simpl; congruence. Qed.

(** C33: an expansion runs what the pipeline says, in the order it says.  When the names of the
    steps are distinct and without dots and every step needs only earlier ones, in the pipeline
    and in the templates once they are rendered, the result of [ExpandSteps] contains no include,
    its names are distinct, and every need names an earlier step; each step becomes a non-empty
    group of steps; and when a step needs another, everything the first becomes depends,
    directly or not, on everything that the second becomes. *)
Theorem ExpandSteps_order steps maxDepth out :
  templates_well_formed Resolve pipelineVars -> well_formed steps ->
  ExpandSteps Resolve pipelineVars steps maxDepth = Ok out ->
  NoDup (names out) /\ ordered_from [] out /\ Forall (fun s => is_include s = false) out /\
  exists groups, out = concat groups /\ length groups = length steps /\
    (forall i g, groups !! i = Some g -> g <> []) /\
    (forall i j s t gi gj a b,
       steps !! i = Some s -> steps !! j = Some t -> groups !! i = Some gi -> groups !! j = Some gj ->
       step_Name s ∈ step_Needs t -> a ∈ gj -> b ∈ gi ->
       tc (depends out) (step_Name a) (step_Name b)).
Proof.
  intros Ht Hwf H. destruct (ExpandSteps_expanded steps maxDepth out Ht H) as (groups & -> & Hg).
  destruct Hwf as [Hnd Hdot Ho]. split; [by eapply expanded_nodup|]. split.
  { eapply expanded_ordered; [done|done|done| |].
    - intros d _. apply lookup_empty.
    - intros d Hd. by apply elem_of_nil in Hd. }
  split; [by eapply expanded_plain_steps|]. exists groups. split; [done|].
  split; [by eapply expanded_length|]. split.
  - intros i g Hi. destruct (lookup_lt_is_Some_2 steps i) as [s Hs].
    { rewrite <- (expanded_length _ _ _ Hg). by eapply lookup_lt_Some. }
    destruct (expanded_lookup ∅ steps groups i s g Hg Hnd) as (leaves & Hgo & _);
      [by intros d _; apply lookup_empty|done|done|].
    destruct Hgo as [(_ & ->)|(_ & inner & Hin & ->)]; [done|].
    intros E%fmap_nil_inv. by apply (eo_nonempty _ Hin).
  - intros i j s t gi gj a b Hs Hst Hgi Hgj Hneed.
    destruct (ordered_lookup [] steps j t _ Ho Hst Hneed) as [E%elem_of_nil|(k & s' & Hk & Hs' & E)]; [done|].
    assert (k = i) as -> by by eapply names_lookup_inj.
    intros Ha Hb. by apply (expanded_depends steps groups i j s t gi gj a b).
Qed.
End ExpandTheorems.
