(* ===== verification/TemplateStore.v ===== *)
(** * The library of pipeline templates (template/store.go)

    Published versions and drafts are YAML files below a directory of the user and one of the
    project.  The file system maps cleaned paths to contents; a template is read back as it was
    written.  Built-in templates are part of the program. *)
From stdpp Require Import base list strings gmap.
From Stdlib Require Import Ascii ZArith Lia.
From S2P Require Import Prelude Model OperationTypes Paths PipelinePlan PipelineVars Templates.
Local Open Scope string_scope.

(** ** Paths *)

(** [filepath.Join] *)
Definition JoinAll (l : list string) : string :=
  match List.filter (fun e => negb (e =? "")) l with
  | [] => ""
  | l => Clean (String.concat "/" l)
  end.

Definition TrimSuffix (suffix s : string) : string :=
  match strip_prefix (rev (chars suffix)) (rev (chars s)) with
  | Some rest => String.string_of_list_ascii (rev rest)
  | None => s
  end.

Definition normalizeSource (source : string) : string :=
  let source := TrimSpace (TrimSuffix "://" source) in
  if source =? "" then "user" else source.

(** Source and identifier. *)
Definition parseTemplateURI (uri : string) : string * string :=
  match index_of (chars "://") (chars uri) with
  | None => ("user", TrimSpace uri)
  | Some i =>
      (normalizeSource (String.string_of_list_ascii (take i (chars uri))),
       TrimSpace (String.string_of_list_ascii (drop (i + 3) (chars uri))))
  end.

(** ** The store *)

(** A file that cannot be read, one that is no template, and one that is. *)
Inductive template_file : Type :=
| Unreadable
| NotYAML
| Doc (t : Template).

(** What writing a file comes to: nothing is written, part of it, or all. *)
Inductive write_outcome : Type := WriteFails | WriteTorn | WriteOk.

Record TemplateStore : Type := mkTemplateStore {
  ts_baseDir : string;
  ts_builtin : gmap string Template;
  ts_projectDir : string;
}.

Abbreviation files := (gmap string template_file) (only parsing).

Definition write (o : write_outcome) (path : string) (t : Template) (fs : files) : files * bool :=
  match o with
  | WriteFails => (fs, false)
  | WriteTorn => (<[path := NotYAML]> fs, false)
  | WriteOk => (<[path := Doc t]> fs, true)
  end.

Definition rootForSource (s : TemplateStore) (source : string) : string :=
  if normalizeSource source =? "project" then
    if negb (ts_projectDir s =? "") then JoinAll [ts_projectDir s; ".superdev"; "templates"]
    else JoinAll [ts_baseDir s; "project_templates"]
  else JoinAll [ts_baseDir s; "templates"; "user"].

Definition published_path (s : TemplateStore) (source id version : string) : string :=
  JoinAll [rootForSource s source; "versions"; id; version +:+ ".yaml"].

Definition draft_path (s : TemplateStore) (source id : string) : string :=
  JoinAll [rootForSource s source; "drafts"; id +:+ ".yaml"].

(** [Digest] of a template, by its YAML text. *)
Definition yaml_digest `{D : Digest} (yaml_Marshal : Template -> string) (t : Template) : string :=
  "sha256:" +:+ bytes_digest (yaml_Marshal t).

(** What follows holds for any digest. *)
Section Store.
Context (TemplateDigest : Template -> string).
Context (s : TemplateStore).

Definition writePublished (o : write_outcome) (source : string) (t : Template) (fs : files)
    : files * result string VersionedTemplate :=
  let digest := TemplateDigest t in
  let path := published_path s source (tpl_ID t) (tpl_Version t) in
  match fs !! path with
  | Some (Doc got) =>
      (fs, if TemplateDigest got =? digest
           then Ok (mkVersioned (normalizeSource source) got digest)
           else Err "already exists with different digest")
  | Some NotYAML => (fs, Err "yaml")
  | Some Unreadable => (fs, Err "read")
  | None =>
      let '(fs, ok) := write o path t fs in
      (fs, if ok then Ok (mkVersioned (normalizeSource source) t digest) else Err "write")
  end.

(** [ImportFile], of a file that was read from anywhere. *)
Definition ImportFile (o : write_outcome) (doc : template_file) (fs : files)
    : files * result string VersionedTemplate :=
  match doc with
  | Unreadable => (fs, Err "read")
  | NotYAML => (fs, Err "yaml")
  | Doc t =>
      match validate_template t with
      | Some msg => (fs, Err msg)
      | None => writePublished o "user" t fs
      end
  end.

Definition SaveDraft (o : write_outcome) (source : string) (t : Template) (fs : files)
    : files * option string :=
  match validate_template t with
  | Some msg => (fs, Some msg)
  | None =>
      let '(fs, ok) := write o (draft_path s source (tpl_ID t)) t fs in
      (fs, if ok then None else Some "write")
  end.

Definition with_version (version : string) (t : Template) : Template :=
  {| tpl_ID := tpl_ID t; tpl_Name := tpl_Name t; tpl_Description := tpl_Description t;
     tpl_Category := tpl_Category t; tpl_Version := version; tpl_Inputs := tpl_Inputs t;
     tpl_Steps := tpl_Steps t |}.

Definition PublishDraft (o : write_outcome) (source id version : string) (fs : files)
    : files * result string VersionedTemplate :=
  match fs !! draft_path s source id with
  | None | Some Unreadable => (fs, Err "read")
  | Some NotYAML => (fs, Err "yaml")
  | Some (Doc t) =>
      let t := with_version version t in
      match validate_template t with
      | Some msg => (fs, Err msg)
      | None => writePublished o source t fs
      end
  end.

(** The checks of [Resolve] on the template that was found. *)
Definition check_resolved (source version digest : string) (t : Template)
    : result string VersionedTemplate :=
  match validate_template t with
  | Some msg => Err msg
  | None =>
      if negb (version =? "") && negb (tpl_Version t =? version) then Err "version mismatch"
      else if negb (digest =? "") && negb (TemplateDigest t =? digest) then Err "digest mismatch"
      else Ok (mkVersioned source t (TemplateDigest t))
  end.

Definition Resolve (fs : files) (uri version digest : string) : result string VersionedTemplate :=
  let '(source, id) := parseTemplateURI uri in
  if id =? "" then Err "invalid uri"
  else if source =? "builtin" then
    match ts_builtin s !! id with
    | None => Err "builtin template not found"
    | Some t => check_resolved source version digest t
    end
  else
    match fs !! published_path s source id version with
    | None | Some Unreadable => Err "read"
    | Some NotYAML => Err "yaml"
    | Some (Doc t) => check_resolved source version digest t
    end.

(** [PreviewYAML]: nothing is written. *)
Definition PreviewYAML (doc : template_file) : option Template * string * list string :=
  match doc with
  | Doc t =>
      match validate_template t with
      | Some msg => (Some t, "", [msg])
      | None => (Some t, TemplateDigest t, [])
      end
  | _ => (None, "", ["yaml"])
  end.

(** What changes the files. *)
Inductive store_step : files -> files -> Prop :=
| step_import o doc fs : store_step fs (ImportFile o doc fs).1
| step_draft o source t fs : good (tpl_ID t) -> store_step fs (SaveDraft o source t fs).1
| step_publish o source id version fs : store_step fs (PublishDraft o source id version fs).1.
End Store.

(** ** Paths that are apart *)

Lemma elements_snoc r e :
  r <> "" -> good e -> elements (r +:+ "/" +:+ e) = (elements r ++ [e])%list.
Proof.
  intros Hr (H1 & H2 & H3 & He). unfold elements. rewrite IsAbs_app by done.
  rewrite split_slash_app, foldl_app, He. simpl. unfold clean_element at 1.
  apply String.eqb_neq in H1 as ->, H2 as ->, H3 as ->. done.
Qed.

Lemma good_nonempty e : good e -> (e =? "") = false.
Proof. intros (H & _). by apply String.eqb_neq. Qed.

Lemma string_app_assoc (a b c : string) : a +:+ (b +:+ c) = (a +:+ b) +:+ c.
Proof.
  induction a as [|x a IH]; [done|].
  change (String x (a +:+ (b +:+ c)) = String x ((a +:+ b) +:+ c)). by rewrite IH.
Qed.

Lemma JoinAll_two r a b :
  r <> "" -> good a -> good b -> elements (JoinAll [r; a; b]) = (elements r ++ [a; b])%list.
Proof.
  intros Hr Ha Hb. unfold JoinAll. cbn [List.filter].
  apply String.eqb_neq in Hr as Hr'. rewrite Hr', !good_nonempty by done. cbn [negb].
  rewrite elements_Clean. change (String.concat "/" [r; a; b]) with (r +:+ "/" +:+ (a +:+ "/" +:+ b)).
  rewrite (string_app_assoc "/" a), (string_app_assoc r ("/" +:+ a)).
  rewrite elements_snoc; [|by destruct r|done]. rewrite elements_snoc by done.
  by rewrite <- app_assoc.
Qed.

Lemma JoinAll_good l :
  l <> [] -> Forall good l -> JoinAll l <> "" /\ elements (JoinAll l) = l.
Proof.
  intros Hne Hl. unfold JoinAll.
  assert (List.filter (fun e => negb (e =? "")) l = l) as ->.
  { clear Hne. induction Hl as [|e l He _ IH]; [done|]. simpl. by rewrite good_nonempty, IH. }
  destruct l as [|e l]; [done|]. split; [apply Clean_nonempty|].
  rewrite elements_Clean. change (String.concat "/" (e :: l)) with (render_path false (e :: l)).
  apply elements_render. by exists 0%nat, (e :: l).
Qed.

Lemma JoinAll_one r a :
  r <> "" -> good a -> JoinAll [r; a] <> "" /\ elements (JoinAll [r; a]) = (elements r ++ [a])%list.
Proof.
  intros Hr Ha. unfold JoinAll. cbn [List.filter].
  apply String.eqb_neq in Hr as Hr'. rewrite Hr', (good_nonempty a Ha). cbn [negb].
  split; [apply Clean_nonempty|]. rewrite elements_Clean. by apply elements_snoc.
Qed.

(** The last element of a root. *)
Lemma root_last s source :
  rootForSource s source <> "" /\
  exists l e, elements (rootForSource s source) = (l ++ [e])%list /\ e <> "versions".
Proof.
  assert (forall d a b, good a -> good b -> b <> "versions" ->
    JoinAll [d; a; b] <> "" /\ exists l e, elements (JoinAll [d; a; b]) = (l ++ [e])%list /\ e <> "versions") as H3.
  { intros d a b Ha Hb Hne. destruct (String.eqb_spec d "") as [->|Hd].
    - change (JoinAll [""; a; b]) with (JoinAll [a; b]).
      destruct (JoinAll_good [a; b]) as [Hj ->];
        [done|constructor; [done|constructor; [done|constructor]]|].
      split; [done|]. by exists [a], b.
    - split.
      + unfold JoinAll. cbn [List.filter]. apply String.eqb_neq in Hd as ->. apply Clean_nonempty.
      + exists (elements d ++ [a])%list, b. rewrite JoinAll_two, <- app_assoc by done. done. }
  unfold rootForSource. destruct (_ =? _); [destruct (negb _)|]; [by apply H3| |by apply H3].
  destruct (String.eqb_spec (ts_baseDir s) "") as [->|Hd];
    [by split; [|exists [], "project_templates"]|].
  destruct (JoinAll_one (ts_baseDir s) "project_templates" Hd) as [Hj ->]; [done|].
  split; [done|]. by exists (elements (ts_baseDir s)), "project_templates".
Qed.

Lemma good_yaml e : slash_free e -> good (e +:+ ".yaml").
Proof.
  intros He. repeat split.
  - by destruct e.
  - by destruct e as [|? [|? ?]].
  - by destruct e as [|? [|? [|? ?]]].
  - unfold slash_free in *. induction e as [|c e IH]; [done|].
    change (String c e +:+ ".yaml") with (String c (e +:+ ".yaml")). simpl in *.
    destruct (Ascii.eqb c "/"); [discriminate He|].
    destruct (split_slash e) as [|x l] eqn:E; [by apply split_slash_not_nil in E|]. injection He as -> ->.
    by rewrite IH.
Qed.

(** A draft is no published version. *)
Lemma draft_not_published s source source' id id' version :
  good id -> good id' -> slash_free version ->
  draft_path s source id <> published_path s source' id' version.
Proof.
  intros Hid Hid' Hv H. apply (f_equal elements) in H. unfold draft_path, published_path in H.
  destruct (root_last s source) as [Hr (l & e & Er & Hne)].
  destruct (root_last s source') as [Hr' _].
  rewrite JoinAll_two in H; [|done|done|by apply good_yaml, Hid].
  assert (elements (JoinAll [rootForSource s source'; "versions"; id'; version +:+ ".yaml"]) =
    (elements (rootForSource s source') ++ ["versions"; id'; version +:+ ".yaml"])%list) as E.
  { unfold JoinAll. cbn [List.filter]. apply String.eqb_neq in Hr' as Hr''.
    rewrite Hr'', (good_nonempty id' Hid'), (good_nonempty _ (good_yaml version Hv)).
    change (negb ("versions" =? "")) with true. cbn [negb].
    rewrite elements_Clean.
    change (String.concat "/" [rootForSource s source'; "versions"; id'; version +:+ ".yaml"])
      with (rootForSource s source' +:+ "/" +:+ ("versions" +:+ "/" +:+ (id' +:+ "/" +:+ (version +:+ ".yaml")))).
    rewrite (string_app_assoc "/" "versions"), (string_app_assoc (rootForSource s source')).
    rewrite (string_app_assoc "/" id'), (string_app_assoc (_ +:+ ("/" +:+ "versions"))).
    rewrite elements_snoc; [|by destruct (rootForSource s source')|by apply good_yaml].
    rewrite elements_snoc; [|by destruct (rootForSource s source')|done].
    rewrite elements_snoc by done. by rewrite <- !app_assoc. }
  rewrite E, Er in H. rewrite <- app_assoc in H. cbn [app] in H.
  change (l ++ [e; "drafts"; id +:+ ".yaml"])%list with (l ++ [e; "drafts"] ++ [id +:+ ".yaml"])%list in H.
  change (elements (rootForSource s source') ++ ["versions"; id'; version +:+ ".yaml"])%list
    with (elements (rootForSource s source') ++ ["versions"; id'] ++ [version +:+ ".yaml"])%list in H.
  rewrite !app_assoc in H. apply app_inj_tail in H as [H _].
  change (l ++ [e; "drafts"])%list with (l ++ [e] ++ ["drafts"])%list in H.
  change (elements (rootForSource s source') ++ ["versions"; id'])%list
    with (elements (rootForSource s source') ++ ["versions"] ++ [id'])%list in H.
  rewrite !app_assoc in H. apply app_inj_tail in H as [H _]. by apply app_inj_tail in H as [_ H].
Qed.

(** ** Published versions stay *)

Section Immutable.
Context (TemplateDigest : Template -> string) (s : TemplateStore).

Lemma writePublished_keeps o source t fs path c :
  fs !! path = Some c -> (writePublished TemplateDigest s o source t fs).1 !! path = Some c.
Proof.
  intros Hc. unfold writePublished.
  destruct (fs !! published_path s source (tpl_ID t) (tpl_Version t)) as [[| |]|] eqn:E; [done..|].
  destruct o; simpl; [done|..]; rewrite lookup_insert_ne; congruence.
Qed.

Lemma store_step_keeps fs fs' source id version c :
  store_step TemplateDigest s fs fs' -> good id -> slash_free version ->
  fs !! published_path s source id version = Some c ->
  fs' !! published_path s source id version = Some c.
Proof.
  intros [o doc fs0|o src t fs0 Ht|o src id0 v0 fs0] Hid Hv Hc.
  - unfold ImportFile. destruct doc as [| |t]; [done|done|].
    destruct (validate_template t); [done|]. by apply writePublished_keeps.
  - unfold SaveDraft. destruct (validate_template t); [done|].
    pose proof (draft_not_published s src source _ _ _ Ht Hid Hv) as Hne.
    destruct o; simpl; [done|..]; by rewrite lookup_insert_ne.
  - unfold PublishDraft. destruct (fs0 !! draft_path s src id0) as [[| |t]|]; [done|done| |done].
    destruct (validate_template _); [done|]. by apply writePublished_keeps.
Qed.

(** C34: a published version whose identifier is one path element and whose version has no slash
    never changes.  Whatever is imported and published (with any identifier), whatever drafts
    with an identifier that is one path element are saved, and whether or not the writes succeed:
    the file of such a version, once it exists, keeps its contents, and [Resolve] of its URI,
    with any digest, keeps its result.  The code checks none of these names: without the
    condition on the draft's name a draft overwrites a version ([draft_overwrites_published]),
    and without the one on the version's a published version lies among the drafts
    ([published_among_drafts]). *)
Theorem published_immutable fs fs' uri source id version c :
  rtc (store_step TemplateDigest s) fs fs' ->
  parseTemplateURI uri = (source, id) -> good id -> slash_free version ->
  fs !! published_path s source id version = Some c ->
  fs' !! published_path s source id version = Some c /\
  forall digest, Resolve TemplateDigest s fs' uri version digest =
                 Resolve TemplateDigest s fs uri version digest.
Proof.
  intros Hsteps Huri Hid Hv Hc.
  assert (fs' !! published_path s source id version = Some c) as Hc'.
  { induction Hsteps as [|fs0 fs1 fs2 H _ IH]; [done|]. apply IH. by eapply store_step_keeps. }
  split; [done|]. intros digest. unfold Resolve. by rewrite Huri, Hc, Hc'.
Qed.

Lemma Resolve_digest fs uri version digest vt :
  Resolve TemplateDigest s fs uri version digest = Ok vt ->
  vt_Digest vt = TemplateDigest (vt_Template vt).
Proof.
  unfold Resolve, check_resolved. destruct (parseTemplateURI uri) as [source id]. intros H.
  repeat case_match; simplify_eq; done.
Qed.
End Immutable.

(** ** Includes that are locked by a digest *)

Lemma rbind_Ok {E A B} (r : result E A) (k : A -> result E B) b :
  rbind r k = Ok b <-> exists a, r = Ok a /\ k a = Ok b.
Proof. destruct r; simpl; naive_solver. Qed.

(** Every include names the digest of its template. *)
Definition pinned (steps : list Step) : Prop :=
  Forall (fun st => is_include st = true -> with_string "digest" st <> "") steps.

Section Pinned.
Context (TemplateDigest : Template -> string).
Context (R1 R2 : string -> string -> string -> result string VersionedTemplate).
Context (pipelineVars : gmap string string).
Context (H1 : forall u v d vt, R1 u v d = Ok vt -> vt_Digest vt = TemplateDigest (vt_Template vt)).
Context (H2 : forall u v d vt, R2 u v d = Ok vt -> vt_Digest vt = TemplateDigest (vt_Template vt)).
Context (Hdigest : forall i1 i2 t1 t2, resolve_include R1 i1 = Ok t1 -> resolve_include R2 i2 = Ok t2 ->
  TemplateDigest t1 = TemplateDigest t2 -> t1 = t2).
Context (Htemplates : forall include t, resolve_include R1 include = Ok t ->
  pinned (rendered_steps include pipelineVars t)).

Lemma resolve_pinned include t1 t2 :
  with_string "digest" include <> "" ->
  resolve_include R1 include = Ok t1 -> resolve_include R2 include = Ok t2 -> t1 = t2.
Proof using All.
  intros Hd Ht1 Ht2. apply (Hdigest _ _ _ _ Ht1 Ht2). revert Ht1 Ht2.
  apply String.eqb_neq in Hd. unfold resolve_include. rewrite Hd. cbn [negb andb].
  destruct (R1 _ _ _) as [v1|] eqn:E1; [|done]. destruct (R2 _ _ _) as [v2|] eqn:E2; [|done].
  destruct (validate_template (vt_Template v1)); [done|].
  destruct (validate_template (vt_Template v2)); [by destruct (negb _)|].
  destruct (String.eqb_spec (vt_Digest v1) (with_string "digest" include)) as [Ed1|]; [simpl|done].
  destruct (String.eqb_spec (vt_Digest v2) (with_string "digest" include)) as [Ed2|]; [simpl|done].
  intros [= <-] [= <-]. rewrite <- (H1 _ _ _ _ E1), <- (H2 _ _ _ _ E2). congruence.
Qed.

Lemma expand_list_pinned n1 n2 stack leaves steps o1 o2 :
  (forall stack steps o1 o2, n1 stack steps = Ok o1 -> n2 stack steps = Ok o2 -> pinned steps -> o1 = o2) ->
  pinned steps ->
  expand_list R1 pipelineVars n1 stack leaves steps = Ok o1 ->
  expand_list R2 pipelineVars n2 stack leaves steps = Ok o2 -> o1 = o2.
Proof using All.
  intros Hn. revert leaves o1 o2. induction steps as [|st steps IH]; intros leaves o1 o2 Hp; simpl;
    [congruence|]. apply Forall_cons in Hp as [Hst Hp]. destruct (is_include st) eqn:Ei; simpl.
  - case_bool_decide; [done|].
    intros (t1 & E1 & (i1 & En1 & (r1 & Er1 & [= <-])%rbind_Ok)%rbind_Ok)%rbind_Ok.
    intros (t2 & E2 & (i2 & En2 & (r2 & Er2 & [= <-])%rbind_Ok)%rbind_Ok)%rbind_Ok.
    assert (t1 = t2) as <- by (eapply resolve_pinned; [by apply Hst|done|done]).
    assert (i1 = i2) as <- by (eapply Hn; [done|done|by eapply Htemplates]).
    f_equal. by eapply IH.
  - intros (r1 & Er1 & [= <-])%rbind_Ok (r2 & Er2 & [= <-])%rbind_Ok. f_equal. by eapply IH.
Qed.

Lemma expandSteps_pinned levels stack steps o1 o2 :
  pinned steps -> expandSteps R1 pipelineVars levels stack steps = Ok o1 ->
  expandSteps R2 pipelineVars levels stack steps = Ok o2 -> o1 = o2.
Proof using All.
  revert stack steps o1 o2. induction levels as [|levels IH]; intros stack steps o1 o2 Hp; [done|].
  simpl. apply expand_list_pinned; [|done]. intros ???? ? ? ?. by eapply IH.
Qed.
End Pinned.

(** A pipeline whose includes are locked by digests, in the pipeline and in the templates it
    uses, expands to the same steps with any library: other directories, other built-in
    templates, other files, as long as no two templates of the libraries have one digest. *)
Theorem digests_lock_expansion (TemplateDigest : Template -> string) s1 fs1 s2 fs2 vars steps depth o1 o2 :
  (forall i1 i2 t1 t2, resolve_include (Resolve TemplateDigest s1 fs1) i1 = Ok t1 ->
     resolve_include (Resolve TemplateDigest s2 fs2) i2 = Ok t2 ->
     TemplateDigest t1 = TemplateDigest t2 -> t1 = t2) ->
  pinned steps ->
  (forall include t, resolve_include (Resolve TemplateDigest s1 fs1) include = Ok t ->
     pinned (rendered_steps include vars t)) ->
  ExpandSteps (Resolve TemplateDigest s1 fs1) vars steps depth = Ok o1 ->
  ExpandSteps (Resolve TemplateDigest s2 fs2) vars steps depth = Ok o2 -> o1 = o2.
Proof.
  intros Hinj Hp Ht. unfold ExpandSteps.
  by apply (expandSteps_pinned TemplateDigest); [apply Resolve_digest|apply Resolve_digest|..].
Qed.

(** ** A concrete library *)

Module Example.
Definition step (name type : string) (needs : list string) (args : list (string * any)) : Step :=
  {| step_Name := name; step_Type := type; step_Needs := needs; step_Roles := []; step_RunIf := "";
     step_Concurrency := ""; step_Retries := 0; step_RetryDelay := ""; step_With := args |}.

Definition template (id version : string) (steps : list Step) : Template :=
  {| tpl_ID := id; tpl_Name := id; tpl_Description := ""; tpl_Category := "build";
     tpl_Version := version; tpl_Inputs := ∅; tpl_Steps := steps |}.

Definition go : Template :=
  template "go" "1.0" [step "compile" "shell" [] []; step "test" "shell" ["compile"] []].

(** A digest that tells the templates of the example apart. *)
Local Instance library_digest : Digest := identity_digest.
Definition digest : Template -> string := yaml_digest (fun t => tpl_ID t +:+ tpl_Version t).

Definition library (base : string) : TemplateStore :=
  mkTemplateStore base {["go" := go]} "/srv/shop".

Definition resolver (base : string) := Resolve digest (library base) ∅.

Definition include (name : string) (needs : list string) : Step :=
  step name "include" needs
    [("template", AStr "builtin://go"); ("version", AStr "1.0"); ("digest", AStr (digest go))].

Definition pipeline : list Step :=
  [step "prepare" "shell" [] []; include "build" ["prepare"]; step "ship" "shell" ["build"] []].

Definition expansion : list Step :=
  match ExpandSteps (resolver "/data") ∅ pipeline 5 with Ok out => out | Err _ => [] end.

Lemma resolve_go base i t : resolve_include (resolver base) i = Ok t -> t = go.
Proof.
  unfold resolve_include, resolver, Resolve. destruct (parseTemplateURI _) as [source id].
  destruct (id =? ""); [done|]. destruct (source =? "builtin"); [|by rewrite lookup_empty].
  destruct (ts_builtin (library base) !! id) as [t0|] eqn:E; [|done].
  change (({["go" := go]} : gmap string Template) !! id = Some t0) in E.
  apply lookup_singleton_Some in E as [_ <-]. unfold check_resolved.
  repeat case_match; intros; simplify_eq; done.
Qed.

Lemma go_rendered i vars :
  names (rendered_steps i vars go) = ["compile"; "test"] /\
  step_Needs <$> rendered_steps i vars go = [[]; ["compile"]] /\
  is_include <$> rendered_steps i vars go = [false; false].
Proof. unfold rendered_steps. cbn. destruct (step_Roles i); done. Qed.

Lemma dot_free_check s : forallb (fun c => negb (Ascii.eqb c dot)) (chars s) = true -> dot_free s.
Proof.
  rewrite forallb_forall. intros H Hd. apply list_elem_of_In, H in Hd. by rewrite Ascii.eqb_refl in Hd.
Qed.

Lemma go_well_formed i vars : well_formed (rendered_steps i vars go).
Proof.
  destruct (go_rendered i vars) as (En & Ed & _).
  destruct (rendered_steps i vars go) as [|a [|b [|? ?]]]; try done. cbn in En, Ed.
  injection En as E1 E2. injection Ed as D1 D2. split; cbn; rewrite ?E1, ?E2, ?D1, ?D2.
  - by apply (bool_decide_unpack (NoDup ["compile"; "test"])).
  - constructor; [by apply dot_free_check|constructor; [by apply dot_free_check|constructor]].
  - set_solver.
Qed.

Lemma go_pinned i vars : pinned (rendered_steps i vars go).
Proof.
  destruct (go_rendered i vars) as (_ & _ & Ei).
  destruct (rendered_steps i vars go) as [|a [|b [|? ?]]]; try done. cbn in Ei.
  injection Ei as E1 E2. repeat constructor; congruence.
Qed.

Lemma pipeline_well_formed : well_formed pipeline.
Proof.
  split; cbn.
  - by apply (bool_decide_unpack (NoDup ["prepare"; "build"; "ship"])).
  - repeat (constructor; [by apply dot_free_check|]). constructor.
  - set_solver.
Qed.
End Example.

Lemma ExpandSteps_order_witness :
  names Example.expansion = ["prepare"; "build.compile"; "build.test"; "ship"] /\
  step_Needs <$> Example.expansion = [[]; ["prepare"]; ["build.compile"]; ["build.test"]] /\
  ordered_from [] Example.expansion.
Proof.
  split; [by vm_compute|]. split; [by vm_compute|].
  apply (ExpandSteps_order (Example.resolver "/data") ∅ Example.pipeline 5 Example.expansion).
  - intros i t ->%Example.resolve_go. apply Example.go_well_formed.
  - apply Example.pipeline_well_formed.
  - by vm_compute.
Defined.

Lemma digests_lock_expansion_witness :
  ExpandSteps (Example.resolver "/elsewhere") ∅ Example.pipeline 5 = Ok Example.expansion.
Proof.
  assert (exists o, ExpandSteps (Example.resolver "/elsewhere") ∅ Example.pipeline 5 = Ok o) as [o E].
  { eexists. by vm_compute. }
  rewrite E. f_equal. symmetry.
  apply (digests_lock_expansion Example.digest (Example.library "/data") ∅ (Example.library "/elsewhere") ∅
    ∅ Example.pipeline 5).
  - intros i1 i2 t1 t2 ->%Example.resolve_go ->%Example.resolve_go. done.
  - repeat constructor; done.
  - intros i t ->%Example.resolve_go. apply Example.go_pinned.
  - by vm_compute.
  - exact E.
Defined.

Lemma published_immutable_witness :
  let s := Example.library "/data" in
  let fs := (ImportFile Example.digest s WriteOk (Doc Example.go) ∅).1 in
  let fs' := (ImportFile Example.digest s WriteOk
                (Doc (Example.template "go" "1.0" [Example.step "x" "shell" [] []])) fs).1 in
  fs' !! published_path s "user" "go" "1.0" = Some (Doc Example.go).
Proof.
  intros s fs fs'.
  apply (published_immutable Example.digest s fs fs' "user://go" "user" "go" "1.0" (Doc Example.go)).
  - apply rtc_once. apply (step_import Example.digest s WriteOk
      (Doc (Example.template "go" "1.0" [Example.step "x" "shell" [] []])) fs).
  - by vm_compute.
  - repeat split; by vm_compute.
  - by vm_compute.
  - by vm_compute.
Defined.

(** An include that comes after a step that needs it is not linked: the step keeps a need that
    names nothing. *)
Example later_include_unlinked :
  match ExpandSteps (Example.resolver "/data") ∅
          [Example.step "ship" "shell" ["build"] []; Example.include "build" []] 5 with
  | Ok out => (fun st => (step_Name st, step_Needs st)) <$> out
  | Err _ => []
  end = [("ship", ["build"]); ("build.compile", []); ("build.test", ["build.compile"])].
Proof. by vm_compute. Qed.

(** The identifier of an imported template is not checked: its file can be outside the library. *)
Example imported_outside_library :
  let s := Example.library "/data" in
  (ImportFile Example.digest s WriteOk
     (Doc (Example.template "../../../../../home/dev/.config" "x" [Example.step "a" "shell" [] []])) ∅).1 !!
    "/home/dev/.config/x.yaml" <> None.
Proof. by vm_compute. Qed.

(** Nor is that of a draft, which can take the place of a published version. *)
Example draft_overwrites_published :
  let s := Example.library "/data" in
  let fs := (ImportFile Example.digest s WriteOk (Doc Example.go) ∅).1 in
  let t := Example.template "../versions/go/1.0" "1.0" [Example.step "x" "shell" [] []] in
  (SaveDraft s WriteOk "user" t fs).1 !! published_path s "user" "go" "1.0" = Some (Doc t).
Proof. by vm_compute. Qed.

(** A version that is imported with the identifier [../drafts] is a file among the drafts, which
    the draft of that name overwrites. *)
Example published_among_drafts :
  let s := Example.library "/data" in
  let t := Example.template "../drafts" "x" [Example.step "a" "shell" [] []] in
  let d := Example.template "x" "1" [Example.step "b" "shell" [] []] in
  let fs := (ImportFile Example.digest s WriteOk (Doc t) ∅).1 in
  fs !! published_path s "user" "../drafts" "x" = Some (Doc t) /\
  good (tpl_ID d) /\
  (SaveDraft s WriteOk "user" d fs).1 !! published_path s "user" "../drafts" "x" = Some (Doc d).
Proof. split; [by vm_compute|]. split; [repeat split; by vm_compute|by vm_compute]. Qed.
