(* ===== verification/Rely.v ===== *)
(** * Goroutines on shared state

    Methods that take a lock several times, and the goroutines they start, as programs of
    atomic sections ([Programs]).  A system is a state and the programs that run on it; any of
    them makes the next step.  [keeps] is a rely-guarantee condition on a program: whatever
    its environment does within [R], its own steps stay within [G], where all of them preserve
    an invariant [I].  [advance_inv] turns the conditions of the programs into an invariant of
    the system, for operations that exclude each other and any number of helpers beside them. *)
From stdpp Require Import base list relations.
From Stdlib Require Import Lia.
From S2P Require Import Prelude Programs.

Section Sections.
Context {State World Goroutine : Type}.

(** What a program does in one step: an atomic section, whose outcome may depend on the world
    outside; to wait until the state lets it go on; to start a goroutine. *)
Inductive atom : Type :=
| Atomic {A : Type} (f : World -> State -> State * A)
| Await {A : Type} (ready : State -> option A)
| Go (g : Goroutine).

Definition atom_answer (a : atom) : Type :=
  match a with @Atomic A _ => A | @Await A _ => A | Go _ => unit end.

#[local] Abbreviation program := (@prog atom atom_answer).

Definition exec (w : World) (a : atom) (s : State) : option (State * atom_answer a) :=
  match a with
  | Atomic f => Some (f w s)
  | Await ready => x ← ready s; Some (s, x)
  | Go _ => Some (s, tt)
  end.

Definition forks (a : atom) : list Goroutine := match a with Go g => [g] | _ => [] end.

Definition atomically {A} (f : World -> State -> State * A) : program A := call (Atomic f).
Definition await {A} (ready : State -> option A) : program A := call (Await ready).
Definition go (g : Goroutine) : program unit := call (Go g).

(** ** Rely and guarantee *)

Fixpoint keeps {A} (I : State -> Prop) (R G : State -> State -> Prop) (F : Goroutine -> State -> Prop)
    (p : program A) (Q : A -> State -> Prop) (s : State) : Prop :=
  match p with
  | Done x => forall s', R s s' -> I s' -> Q x s'
  | Act a k => forall w s1 s2 x, R s s1 -> I s1 -> exec w a s1 = Some (s2, x) ->
      I s2 /\ G s1 s2 /\ Forall (fun g => F g s2) (forks a) /\ keeps I R G F (k x) Q s2
  end.

Section Rules.
Context (I : State -> Prop) (R G : State -> State -> Prop) (F : Goroutine -> State -> Prop) `{!PreOrder R}.

Lemma keeps_rely {A} (p : program A) Q s s' :
  keeps I R G F p Q s -> R s s' -> keeps I R G F p Q s'.
Proof.
  destruct p as [x|a k]; simpl; intros H Hs; [intros t Ht; apply H; by etransitivity|].
  intros w s1 s2 x H1. apply H. by etransitivity.
Qed.

Lemma keeps_mono {A} (p : program A) (Q Q' : A -> State -> Prop) s :
  keeps I R G F p Q s -> (forall x t, I t -> Q x t -> Q' x t) -> keeps I R G F p Q' s.
Proof.
  intros H HQ. revert s H. induction p as [x|a k IH]; simpl; intros s H; [auto|].
  intros w s1 s2 x H1 H2 H3. specialize (H _ _ _ _ H1 H2 H3) as (? & ? & ? & ?). auto.
Qed.

Lemma keeps_bind {A B} (p : program A) (f : A -> program B) Q s :
  I s -> keeps I R G F p (fun x t => keeps I R G F (f x) Q t) s -> keeps I R G F (bind p f) Q s.
Proof.
  revert s. induction p as [x|a k IH]; simpl; intros s Hs H; [by apply H|].
  intros w s1 s2 x H1 H2 H3. specialize (H _ _ _ _ H1 H2 H3) as (? & ? & ? & ?). auto.
Qed.

Lemma keeps_atomically {A} (f : World -> State -> State * A) Q s :
  (forall w s1, R s s1 -> I s1 -> let '(s2, x) := f w s1 in
     I s2 /\ G s1 s2 /\ forall t, R s2 t -> I t -> Q x t) ->
  keeps I R G F (atomically f) Q s.
Proof.
  intros H w s1 s2 x H1 HI H2. simpl in H2. specialize (H w s1 H1 HI).
  destruct (f w s1) as [s2' x']. simplify_eq. destruct H as (? & ? & ?). simpl. auto.
Qed.

Lemma keeps_await {A} (ready : State -> option A) Q s :
  (forall t, G t t) ->
  (forall t x, R s t -> I t -> ready t = Some x -> forall t', R t t' -> I t' -> Q x t') ->
  keeps I R G F (await ready) Q s.
Proof.
  intros Hg H w s1 s2 x H1 HI H2. simpl in x, H2. destruct (ready s1) as [y|] eqn:E; [|done].
  simplify_eq/=. split_and!; try done. intros t. by apply H.
Qed.

Lemma keeps_go g Q s :
  (forall t, G t t) -> (forall t, R s t -> I t -> F g t /\ Q tt t) -> keeps I R G F (go g) Q s.
Proof.
  intros Hg H w s1 s2 x H1 HI H2. simpl in H2. simplify_eq.
  split_and!; try done; [constructor; [by apply H|done]|].
  intros t Ht HIt. apply H; [by etransitivity|done].
Qed.

(** What the environment and the program itself preserve. *)
Lemma keeps_preserves {A} (p : program A) (P : State -> Prop) Q s :
  (forall t u, P t -> R t u -> P u) -> (forall t u, G t u -> R t u) ->
  keeps I R G F p Q s -> P s -> keeps I R G F p (fun _ => P) s.
Proof.
  intros HP HG. revert s. induction p as [x|a k IH]; simpl; intros s H Hs.
  - intros t Ht _. by eapply HP.
  - intros w s1 s2 x H1 H2 H3. destruct (H _ _ _ _ H1 H2 H3) as (? & ? & ? & ?).
    split_and!; try done. apply IH; [done|]. eapply HP; [|by apply HG]. by eapply HP.
Qed.
End Rules.

(** ** Systems

    Programs come with a flag: operations exclude each other, helpers run beside them. *)
Context (body : Goroutine -> program unit).

Record thread : Type := Thread { th_op : bool; th_prog : program unit }.

Definition finished (t : thread) : bool :=
  match th_prog t with Done _ => true | Act _ _ => false end.

Definition config : Type := State * list thread.

(** No operation is under way. *)
Definition idle (c : config) : bool := forallb (fun t => negb (th_op t) || finished t) c.2.

Definition helpers (gs : list Goroutine) : list thread := Thread false ∘ body <$> gs.

(** Program [i] makes a step; nothing happens when it has ended or has to wait. *)
Definition advance (i : nat) (w : World) (c : config) : config :=
  match c.2 !! i with
  | Some (Thread op (Act a k)) =>
      match exec w a c.1 with
      | Some (s, x) => (s, <[i := Thread op (k x)]> c.2 ++ helpers (forks a))
      | None => c
      end
  | _ => c
  end.

Section Soundness.
(** Helpers rely on little and guarantee much; operations the other way round. *)
Context (I : State -> Prop) (Weak Strong : State -> State -> Prop) (Idle : State -> Prop).
Context (F : Goroutine -> State -> Prop) `{!PreOrder Weak, !PreOrder Strong}.
Hypothesis Strong_Weak : forall s t, Strong s t -> Weak s t.
Hypothesis Idle_Strong : forall s t, Idle s -> Strong s t -> I t -> Idle t.

Definition helper_ok {A} (p : program A) (s : State) : Prop :=
  keeps I Weak Strong F p (fun _ _ => True) s.
Definition op_ok (p : program unit) (s : State) : Prop :=
  keeps I Strong Weak F p (fun _ => Idle) s.

(** A goroutine that may be started is a helper. *)
Hypothesis F_helper : forall g s, F g s -> helper_ok (body g) s.

(** Within an operation, a program that behaves like a helper preserves what an operation may
    rely on. *)
Lemma keeps_helper {A} (p : program A) (P : State -> Prop) s :
  (forall t u, P t -> Strong t u -> I u -> P u) ->
  helper_ok p s -> P s -> keeps I Strong Weak F p (fun _ => P) s.
Proof.
  intros HP. unfold helper_ok. revert s. induction p as [x|a k IH]; simpl; intros s H Hs.
  - intros t. by apply HP.
  - intros w s1 s2 x H1 HI H2.
    destruct (H w s1 s2 x) as (HI2 & HG & HF & Hk); [by apply Strong_Weak|done|done|].
    split_and!; try done; [by apply Strong_Weak|]. apply IH; [done|].
    eapply HP; [|done|done]. by eapply HP.
Qed.

Definition thread_ok (s : State) (t : thread) : Prop :=
  if th_op t then finished t = false -> op_ok (th_prog t) s else helper_ok (th_prog t) s.

(** At most one operation is under way, and every program keeps its condition. *)
Definition inv (c : config) : Prop :=
  I c.1 /\ Forall (thread_ok c.1) c.2 /\
  (forall i j t u, c.2 !! i = Some t -> c.2 !! j = Some u -> th_op t = true -> th_op u = true ->
     finished t = false -> finished u = false -> i = j) /\
  (idle c = true -> Idle c.1).

Lemma thread_ok_rely s t th :
  thread_ok s th -> Weak s t -> (th_op th = true -> finished th = false -> Strong s t) ->
  thread_ok t th.
Proof.
  unfold thread_ok, op_ok, helper_ok. destruct (th_op th); intros H Hh Ho.
  - intros Hf. eapply keeps_rely; eauto.
  - eapply keeps_rely; eauto.
Qed.

Lemma idle_spec c :
  idle c = true <-> forall i t, c.2 !! i = Some t -> th_op t = true -> finished t = true.
Proof.
  unfold idle. rewrite forallb_forall. split.
  - intros H i t Hi Hop. apply list_elem_of_lookup_2, list_elem_of_In, H in Hi.
    rewrite Hop in Hi. by destruct (finished t).
  - intros H t (i & Hi)%list_elem_of_In%list_elem_of_lookup_1.
    destruct (th_op t) eqn:Hop; [|done]. by rewrite (H i t Hi Hop).
Qed.

(** A change of the state that neither helpers nor operations can mind. *)
Lemma inv_outside s t ths : inv (s, ths) -> Strong s t -> I t -> inv (t, ths).
Proof.
  intros (HI & H & Hone & Hi) Ho HIt. pose proof (Strong_Weak _ _ Ho) as Hh. split_and!; simpl in *; [done|..].
  - eapply Forall_impl; [exact H|]. intros th Hth. by eapply thread_ok_rely.
  - exact Hone.
  - intros Hidle. eapply Idle_Strong; [by apply Hi|done|done].
Qed.

Lemma inv_begin_helper s ths p : inv (s, ths) -> helper_ok p s -> inv (s, ths ++ [Thread false p]).
Proof.
  intros (HI & H & Hone & Hi) Hp. split_and!; simpl in *; [done|..].
  - apply Forall_app. split; [done|]. by constructor.
  - intros i j t u Hti Huj Ht Hu. apply lookup_app_Some in Hti as [Hti|[_ Hti]];
      [|apply list_lookup_singleton_Some in Hti as [_ <-]; done].
    apply lookup_app_Some in Huj as [Huj|[_ Huj]];
      [|apply list_lookup_singleton_Some in Huj as [_ <-]; done]. by apply (Hone i j t u).
  - intros Hidle. apply Hi. unfold idle in *. simpl in *. rewrite forallb_app in Hidle.
    by apply andb_prop in Hidle as [? _].
Qed.

Lemma inv_begin_op s ths p :
  inv (s, ths) -> idle (s, ths) = true -> (Idle s -> op_ok p s) ->
  inv (s, ths ++ [Thread true p]).
Proof.
  intros (HI & H & Hone & Hi) Hidle Hp. split_and!; simpl in *; [done|..].
  - apply Forall_app. split; [done|]. constructor; [|done]. intros _. by apply Hp, Hi.
  - intros i j t u Hti Huj Ht Hu Hft Hfu.
    pose proof (proj1 (idle_spec _) Hidle) as Hsp. simpl in Hsp.
    apply lookup_app_Some in Hti as [Hti|[Hi' Hti]];
      [by rewrite (Hsp i t Hti Ht) in Hft|].
    apply lookup_app_Some in Huj as [Huj|[Hj' Huj]];
      [by rewrite (Hsp j u Huj Hu) in Hfu|].
    apply list_lookup_singleton_Some in Hti as [? _], Huj as [? _]. lia.
  - intros _. by apply Hi.
Qed.

(** A step keeps the flags, and no program that had ended runs again. *)
Lemma one_op_advance ths i op (a : atom) k (p : program unit) gs :
  (forall j l t u, ths !! j = Some t -> ths !! l = Some u -> th_op t = true -> th_op u = true ->
     finished t = false -> finished u = false -> j = l) ->
  ths !! i = Some (Thread op (Act a k)) ->
  forall j l t u, (<[i := Thread op p]> ths ++ helpers gs) !! j = Some t ->
    (<[i := Thread op p]> ths ++ helpers gs) !! l = Some u ->
    th_op t = true -> th_op u = true -> finished t = false -> finished u = false -> j = l.
Proof.
  intros Hone E. assert (forall j t, (<[i := Thread op p]> ths ++ helpers gs) !! j = Some t ->
    th_op t = true -> finished t = false ->
    exists t', ths !! j = Some t' /\ th_op t' = true /\ finished t' = false) as H.
  { intros j t [Hj|[_ Hj]]%lookup_app_Some Ht Hf.
    - destruct (decide (i = j)) as [<-|Hne].
      + rewrite list_lookup_insert_eq in Hj by (by eapply lookup_lt_Some). simplify_eq. eauto.
      + rewrite list_lookup_insert_ne in Hj by done. eauto.
    - apply list_elem_of_lookup_2, list_elem_of_fmap in Hj as (g & -> & _). done. }
  intros j l t u Hj Hl Ht Hu Hft Hfu.
  destruct (H _ _ Hj Ht Hft) as (t' & ? & ? & ?), (H _ _ Hl Hu Hfu) as (u' & ? & ? & ?).
  by apply (Hone j l t' u').
Qed.

Lemma advance_inv i w c : inv c -> inv (advance i w c).
Proof.
  destruct c as [s ths]. intros (HI & H & Hone & Hi). unfold advance. simpl in *.
  destruct (ths !! i) as [[op [x|a k]]|] eqn:E; [done| |done].
  destruct (exec w a s) as [[s' x]|] eqn:Ex; [|done].
  pose proof (Forall_lookup_1 _ _ _ _ H E) as Hth. unfold thread_ok in Hth. simpl in Hth.
  assert (i < length ths) as Hlen by (by eapply lookup_lt_Some).
  assert (I s' /\ Weak s s' /\ (op = false -> Strong s s') /\
    Forall (fun g => F g s') (forks a) /\
    thread_ok s' (Thread op (k x)) /\ (op = true -> finished (Thread true (k x)) = true -> Idle s'))
    as (HI' & HW & HS & Hforks & Hk & Hdone).
  { destruct op; simpl in *.
    - specialize (Hth eq_refl) as Hp. simpl in Hp.
      destruct (Hp w s s' x) as (HI' & HG & HF & Hk); [reflexivity|done|done|].
      split_and!; try done; [by intros _|]. intros _ Hfin.
      destruct (k x) as [y|]; [|done]. by apply Hk.
    - destruct (Hth w s s' x) as (HI' & HG & HF & Hk); [reflexivity|done|done|].
      split_and!; try done. by apply Strong_Weak. }
  split_and!; simpl; [done|..].
  - apply Forall_app. split.
    + apply Forall_lookup. intros j t Hj. destruct (decide (i = j)) as [<-|Hne].
      * rewrite list_lookup_insert_eq in Hj by done. by simplify_eq.
      * rewrite list_lookup_insert_ne in Hj by done.
        eapply thread_ok_rely; [by eapply Forall_lookup_1|done|]. intros Hop Hf.
        destruct op; [|auto]. destruct Hne. by apply (Hone i j (Thread true (Act a k)) t).
    + apply Forall_fmap. eapply Forall_impl; [exact Hforks|]. intros g. apply F_helper.
  - by eapply one_op_advance.
  - intros Hidle. destruct op.
    + apply Hdone; [done|]. apply (proj1 (idle_spec _) Hidle i); [|done]. simpl.
      rewrite lookup_app_l by (by rewrite length_insert). by apply list_lookup_insert_eq.
    + eapply Idle_Strong; [|by apply HS|done]. apply Hi, idle_spec. simpl. intros j t Hj Ht.
      apply (proj1 (idle_spec _) Hidle j t); [|done]. simpl.
      rewrite lookup_app_l by (rewrite length_insert; by eapply lookup_lt_Some).
      rewrite list_lookup_insert_ne; [done|]. intros <-. by simplify_eq.
Qed.
End Soundness.
End Sections.

(** Programs on a state, given what the world decides and the goroutines they can start. *)
Abbreviation program State World Goroutine :=
  (@prog (@atom State World Goroutine) (@atom_answer State World Goroutine)).
