(* ===== verification/Process.v ===== *)
(** * Processes of deployments (process/manager.go, reconcile.go, runner.go, launchd.go)

    The manager starts a deployment's command in a process group of its own, watches it, stops
    it, and keeps a status for it.  Its methods take the lock several times; they are programs
    whose atomic sections are what runs under a lock, and any number of them run side by side
    with the goroutines that wait for processes to end ([Rely]).  The kernel is part of the
    state: groups of processes that are alive, that were sent a signal, whose leader has ended.
    Unix is modelled ([platform_unix.go], [exitdetails_unix.go]). *)
From stdpp Require Import base strings gmap list pretty.
From Stdlib Require Import ZArith Lia Ascii.
From S2P Require Import Prelude Model Paths ConfigPlan Programs Rely.
Local Open Scope string_scope.
Local Open Scope prog_scope.

(** ** exitinfo.go *)

(** [r.buf] has [sr_cap] cells; [sr_start] is the oldest line. *)
Record stderrRing : Type := mkRing {
  sr_buf : list string;
  sr_cap : nat;
  sr_start : nat;
  sr_size : nat;
}.

Definition newStderrRing (capacity : Z) : stderrRing :=
  let capacity := if (capacity <=? 0)%Z then 1%Z else capacity in
  mkRing (replicate (Z.to_nat capacity) "") (Z.to_nat capacity) 0 0.

Definition push (line : string) (r : stderrRing) : stderrRing :=
  let idx := ((sr_start r + sr_size r) mod sr_cap r)%nat in
  let buf := <[idx := line]> (sr_buf r) in
  if (sr_size r <? sr_cap r)%nat then mkRing buf (sr_cap r) (sr_start r) (S (sr_size r))
  else mkRing buf (sr_cap r) (S (sr_start r) mod sr_cap r)%nat (sr_size r).

Definition tail (r : stderrRing) : list string :=
  (fun i => default "" (sr_buf r !! ((sr_start r + i) mod sr_cap r)%nat)) <$> seq 0 (sr_size r).

Definition ExitReasonExited := "exited".
Definition ExitReasonSignaled := "signaled".
Definition ExitReasonStartFailed := "start_failed".

Record ExitInfo : Type := mkExitInfo {
  ei_Reason : string;
  ei_ExitCode : Z;
  ei_Signaled : bool;
  ei_Signal : string;
  ei_Error : string;
  ei_StderrTail : list string;
}.

Definition ExitInfo_zero : ExitInfo := mkExitInfo "" 0 false "" "" [].

(** What [Process.Wait] returns: an error, and the state of the process unless there is none:
    the signal that ended it, if one did, and its exit code. *)
Record wait_result : Type := mkWait {
  wr_err : option string;
  wr_state : option (option string * Z);
}.

(** [signaledInfo] of [exitdetails_unix.go] *)
Definition signaledInfo (state : option string * Z) : bool * string * Z :=
  match state with
  | (Some signal, code) => (true, signal, code)
  | (None, code) => (false, "", code)
  end.

Definition buildExitInfo (w : wait_result) (stderrTail : list string) : ExitInfo :=
  let error := default "" (wr_err w) in
  match wr_state w with
  | None => mkExitInfo ExitReasonExited (-1) false "" error stderrTail
  | Some state =>
      let '(signaled, signal, exitCode) := signaledInfo state in
      if signaled then mkExitInfo ExitReasonSignaled exitCode true signal error stderrTail
      else mkExitInfo ExitReasonExited exitCode false "" error stderrTail
  end.

(** ** The state: runners, process groups, the manager *)

(** [ProcessSpec]; [RunnerConfig] has the same fields and the callbacks. *)
Record ProcessSpec : Type := mkSpec {
  ps_Command : string;
  ps_PreRun : option (list string);
  ps_Argv : list string;
  ps_WorkDir : string;
  ps_Env : option (gmap string string);
  ps_EnvFile : string;
}.

(** A [Runner]; [rn_id] is what its callbacks have captured, [rn_pid] the process of [cmd]. *)
Record Runner : Type := mkRunner {
  rn_cfg : ProcessSpec;
  rn_id : string;
  rn_pid : option Z;
  rn_running : bool;
  rn_exitCode : Z;
  rn_exited : bool;
  rn_exitInfo : ExitInfo;
  rn_group : option Z;
  rn_stderr : stderrRing;
}.

Definition NewRunner (cfg : ProcessSpec) (id : string) : Runner :=
  mkRunner cfg id None false 0 false ExitInfo_zero None (newStderrRing 100).

(** A process group that a runner has started; what has become of it: whether a process of it
    is left, whether it was sent SIGKILL, whether the kernel refused to send it. *)
Record Group : Type := mkGroup {
  g_pgid : Z;
  g_alive : bool;
  g_signalled : bool;
  g_refused : bool;
  g_leader : option wait_result;
}.

Definition StatusStopped := "".
Definition StatusStarting := "starting".
Definition StatusRunning := "running".
Definition StatusFailed := "failed".

(** Runners are numbered; [pm_runners] has the number of a deployment's runner. *)
Record Manager : Type := mkManager {
  pm_runners : gmap string nat;
  pm_status : gmap string string;
  pm_generations : gmap string Z;
  pm_runtimes : gmap string RuntimeType;
  pm_launchdDeps : gmap string Deployment;
  pm_readiness : gmap string ReadinessProbe;
  pm_backgrounded : gmap string bool;
  pm_notify : bool;                         (** [onStatusChange] is set *)
  pm_runID : string;
  pm_logSeq : Z;
}.

Definition NewManager : Manager := mkManager ∅ ∅ ∅ ∅ ∅ ∅ ∅ false "" 0.

(** What leaves the manager: rows for [onLog] and calls of [onStatusChange]. *)
Inductive output : Type :=
| Logged (e : LogEntry)
| Notified (id st : string)
| Ran (name : string) (args : list string).  (** a program run to its end *)

Record sys : Type := mkSys {
  y_mgr : Manager;
  y_runners : list Runner;
  y_groups : gmap nat Group;                (** by the number of the runner *)
  y_out : list output;                      (** latest last *)
}.

(** The world at one step: the clock, process groups of others, how a start ends, programs
    run to completion and probes. *)
Record start_world : Type := mkStart {
  st_preLook : option string;               (** error of [LookPath] for the pre-run step *)
  st_preRun : option string;                (** its output if it fails *)
  st_look : option string;                  (** error of [LookPath] for the command *)
  st_pipes : option string;
  st_spawn : result string Z;               (** the process, or why it cannot start *)
  st_stdout : list string;                  (** what it is going to write *)
  st_stderr : list string;
}.

Record world : Type := mkWorld {
  w_now : time;
  w_foreign : Z -> bool;
  w_noperm : Z -> bool;                     (** sending to this group ends in EPERM *)
  w_start : start_world;
  w_launchctl : option (string * string);   (** output and error if [launchctl] fails *)
  w_home : option string;
  w_probe : option string;                  (** why the probe fails *)
  w_order : list string -> list string;     (** in which a map is ranged over *)
}.

Inductive goroutine : Type :=
| GWait (id : string) (r : nat) (gen : Z)
| GScan (id : string) (r : nat) (stream : string) (lines : list string)
| GReadiness (id : string) (gen : Z) (probe : ReadinessProbe).

Abbreviation prog := (program sys world goroutine).

Definition with_mgr (m : Manager) (s : sys) : sys :=
  mkSys m (y_runners s) (y_groups s) (y_out s).
Definition emit_out (o : output) (s : sys) : sys :=
  mkSys (y_mgr s) (y_runners s) (y_groups s) (y_out s ++ [o])%list.
Definition with_runner (r : nat) (f : Runner -> Runner) (s : sys) : sys :=
  mkSys (y_mgr s) (alter f r (y_runners s)) (y_groups s) (y_out s).

(** A section under [m.mu] that needs the manager alone. *)
Definition locked {A} (f : Manager -> Manager * A) : prog A :=
  atomically (fun _ s => let '(m, x) := f (y_mgr s) in (with_mgr m s, x)).
(** A section under [r.mu] that only reads. *)
Definition reading {A} (f : world -> sys -> A) : prog A := atomically (fun w s => (s, f w s)).
Definition send (o : output) : prog unit := atomically (fun _ s => (emit_out o s, tt)).

(** ** runner.go

    [Start] holds [r.mu] from its first line to its last: it is one section, although the
    pre-run step and the start of the process take time. *)

Definition set_started (pid : Z) (r : Runner) : Runner :=
  mkRunner (rn_cfg r) (rn_id r) (Some pid) true 0 false (rn_exitInfo r) (Some pid) (rn_stderr r).

Definition set_exit (exited : bool) (info : ExitInfo) (r : Runner) : Runner :=
  mkRunner (rn_cfg r) (rn_id r) (rn_pid r) (rn_running r) (rn_exitCode r) exited info
    (rn_group r) (rn_stderr r).

(** The evidence of a start that failed. *)
Definition start_failed (error : string) (r : Runner) : Runner :=
  set_exit true (mkExitInfo ExitReasonStartFailed (-1) false "" error (tail (rn_stderr r))) r.

(** How the steps before the process end: an error for the caller and, unless it is an error
    of a pipe, evidence. *)
Definition before_start (cfg : ProcessSpec) (w : start_world) : option (string * option string) :=
  let pre :=
    match ps_PreRun cfg with
    | Some (_ :: _) =>
        match st_preLook w with
        | Some err => Some ("pre-run failed: " +:+ err, Some err)
        | None =>
            match st_preRun w with
            | Some out =>
                let output := TrimSpace out in
                Some ("pre-run failed: " +:+ output, Some output)
            | None => None
            end
        end
    | _ => None
    end in
  match pre with
  | Some e => Some e
  | None =>
      match (match ps_Argv cfg with [] => None | _ => st_look w end) with
      | Some err => Some (err, Some err)
      | None => match st_pipes w with Some err => Some (err, None) | None => None end
      end
  end.

(** The second component is the error, or what the two scanners are going to read.  A runner is
    started once; what a second start does is left open by the code, and nothing here. *)
Definition Start_locked (r : nat) (w : world) (s : sys)
    : sys * (option string * (list string * list string)) :=
  match y_runners s !! r with
  | None => (s, (None, ([], [])))
  | Some runner =>
      match before_start (rn_cfg runner) (w_start w) with
      | Some (err, evidence) =>
          (match evidence with Some e => with_runner r (start_failed e) s | None => s end,
           (Some err, ([], [])))
      | None =>
          match st_spawn (w_start w) with
          | Err err => (with_runner r (start_failed err) s, (Some err, ([], [])))
          | Ok pid =>
              match y_groups s !! r with
              | Some _ => (s, (None, ([], [])))
              | None =>
                  let s := with_runner r (set_started pid) s in
                  (mkSys (y_mgr s) (y_runners s)
                     (<[r := mkGroup pid true false false None]> (y_groups s)) (y_out s),
                   (None, (st_stdout (w_start w), st_stderr (w_start w))))
              end
          end
      end
  end.

(** [Start]: the goroutines that scan the output and wait for the process are its last step. *)
Definition Runner_Start (id : string) (r : nat) (gen : Z) : prog (option string) :=
  let! (err, (stdout, stderr)) := atomically (Start_locked r) in
  match err with
  | Some e => Done (Some e)
  | None =>
      let! _ := go (GScan id r "stdout" stdout) in
      let! _ := go (GScan id r "stderr" stderr) in
      let! _ := go (GWait id r gen) in
      Done None
  end.

(** [groupRef.kill]: a group that is alive is sent SIGKILL, unless the kernel refuses it. *)
Definition send_kill (noperm : bool) (g : Group) : Group :=
  if noperm then mkGroup (g_pgid g) (g_alive g) (g_signalled g) true (g_leader g)
  else mkGroup (g_pgid g) (g_alive g) true (g_refused g) (g_leader g).

Definition kill_group (w : world) (pgid : Z) (s : sys) : sys :=
  mkSys (y_mgr s) (y_runners s)
    ((fun g => if (g_pgid g =? pgid)%Z && g_alive g then send_kill (w_noperm w pgid) g else g)
       <$> y_groups s)
    (y_out s).

Definition group_of (r : nat) (s : sys) : option Z :=
  match y_runners s !! r with Some runner => rn_group runner | None => None end.

(** [Stop].  An error of [kill] is written to the agent's own log, and nothing else is made of
    it.  Without a group the leader alone would be killed, which shows when it ends. *)
Definition Runner_Stop (r : nat) : prog unit :=
  let! group := reading (fun _ s => group_of r s) in
  match group with
  | Some pgid => atomically (fun w s => (kill_group w pgid s, tt))
  | None => Done tt
  end.

(** [groupRef.alive]: the number may by now belong to somebody else's group. *)
Definition group_alive (w : world) (s : sys) (pgid : Z) : bool :=
  existsb (fun g => (g_pgid g =? pgid)%Z && g_alive g) ((map_to_list (y_groups s)).*2)
  || w_foreign w pgid.

Definition ProcessGroupAlive (r : nat) (w : world) (s : sys) : bool :=
  match group_of r s with
  | Some pgid => group_alive w s pgid
  | None => false
  end.

Definition ProcessGroupID (r : nat) (s : sys) : Z := default 0%Z (group_of r s).

Definition Runner_PID (r : nat) (s : sys) : Z := default 0%Z (match y_runners s !! r with Some x => rn_pid x | None => None end).

Definition Runner_ExitInfo (r : nat) (s : sys) : option ExitInfo :=
  match y_runners s !! r with
  | Some runner => if rn_exited runner then Some (rn_exitInfo runner) else None
  | None => None
  end.

Definition IsRunning (r : Runner) : bool := bool_decide (is_Some (rn_pid r)) && rn_running r.

Definition ExitCode (r : Runner) : Z :=
  if bool_decide (is_Some (rn_pid r)) && negb (rn_running r) then rn_exitCode r else 0%Z.

(** What the goroutine of [Start] records when [Wait] has returned. *)
Definition record_exit (info : ExitInfo) (r : Runner) : Runner :=
  mkRunner (rn_cfg r) (rn_id r) (rn_pid r) false (ei_ExitCode info) true info
    (rn_group r) (rn_stderr r).

(** ** manager.go: the sections under [m.mu] *)

Definition set_runners (v : gmap string nat) (m : Manager) : Manager :=
  mkManager v (pm_status m) (pm_generations m) (pm_runtimes m) (pm_launchdDeps m) (pm_readiness m)
    (pm_backgrounded m) (pm_notify m) (pm_runID m) (pm_logSeq m).
Definition set_status (id st : string) (m : Manager) : Manager :=
  mkManager (pm_runners m) (<[id := st]> (pm_status m)) (pm_generations m) (pm_runtimes m)
    (pm_launchdDeps m) (pm_readiness m) (pm_backgrounded m) (pm_notify m) (pm_runID m) (pm_logSeq m).
Definition set_generations (v : gmap string Z) (m : Manager) : Manager :=
  mkManager (pm_runners m) (pm_status m) v (pm_runtimes m) (pm_launchdDeps m) (pm_readiness m)
    (pm_backgrounded m) (pm_notify m) (pm_runID m) (pm_logSeq m).
Definition set_runtime (id : string) (t : RuntimeType) (m : Manager) : Manager :=
  mkManager (pm_runners m) (pm_status m) (pm_generations m) (<[id := t]> (pm_runtimes m))
    (pm_launchdDeps m) (pm_readiness m) (pm_backgrounded m) (pm_notify m) (pm_runID m) (pm_logSeq m).
Definition set_launchd (id : string) (d : Deployment) (m : Manager) : Manager :=
  mkManager (pm_runners m) (pm_status m) (pm_generations m) (pm_runtimes m)
    (<[id := d]> (pm_launchdDeps m)) (pm_readiness m) (pm_backgrounded m) (pm_notify m)
    (pm_runID m) (pm_logSeq m).
Definition set_readiness (v : gmap string ReadinessProbe) (m : Manager) : Manager :=
  mkManager (pm_runners m) (pm_status m) (pm_generations m) (pm_runtimes m) (pm_launchdDeps m) v
    (pm_backgrounded m) (pm_notify m) (pm_runID m) (pm_logSeq m).
Definition set_backgrounded (id : string) (m : Manager) : Manager :=
  mkManager (pm_runners m) (pm_status m) (pm_generations m) (pm_runtimes m) (pm_launchdDeps m)
    (pm_readiness m) (<[id := true]> (pm_backgrounded m)) (pm_notify m) (pm_runID m) (pm_logSeq m).
Definition set_logSeq (v : Z) (m : Manager) : Manager :=
  mkManager (pm_runners m) (pm_status m) (pm_generations m) (pm_runtimes m) (pm_launchdDeps m)
    (pm_readiness m) (pm_backgrounded m) (pm_notify m) (pm_runID m) v.

(** The deletions that [Reconcile] and a start make when a runner has gone... *)
Definition forget_runner (id : string) (m : Manager) : Manager :=
  mkManager (delete id (pm_runners m)) (pm_status m) (pm_generations m)
    (delete id (pm_runtimes m)) (delete id (pm_launchdDeps m)) (pm_readiness m)
    (delete id (pm_backgrounded m)) (pm_notify m) (pm_runID m) (pm_logSeq m).
(** ... and those of a stop, of an exit and of a failed start. *)
Definition forget (id : string) (m : Manager) : Manager :=
  set_readiness (delete id (pm_readiness m)) (forget_runner id m).

(** A missing entry reads as the zero value. *)
Definition status_of (id : string) (m : Manager) : string := default "" (pm_status m !! id).
Definition generation_of (id : string) (m : Manager) : Z := default 0%Z (pm_generations m !! id).

Definition tracks (m : Manager) (id : string) (r : nat) : bool :=
  bool_decide (pm_runners m !! id = Some r).

Definition setStatus (id st : string) : prog unit :=
  let! (cb, prev) := locked (fun m => (set_status id st m, (pm_notify m, status_of id m))) in
  if cb && negb (prev =? st) then send (Notified id st) else Done tt.

Definition setReadiness (id : string) (p : option ReadinessProbe) : prog unit :=
  locked (fun m => (set_readiness (match p with
    | None => delete id (pm_readiness m)
    | Some p => <[id := p]> (pm_readiness m)
    end) m, tt)).

(** An int64. *)
Definition seq_next (n : Z) : Z := ((n + 1 + 2 ^ 63) mod 2 ^ 64 - 2 ^ 63)%Z.

(** [emitLog], and the row that [OnLine] makes of a line. *)
Definition log_row (id level stream message : string) : prog unit :=
  let! runID := locked (fun m => (m, pm_runID m)) in
  let! (n, now) := atomically (fun w s =>
    let n := seq_next (pm_logSeq (y_mgr s)) in
    (with_mgr (set_logSeq n (y_mgr s)) s, (n, w_now w))) in
  send (Logged (mkLogEntry n id "" runID now level message stream 0 "" 0 None)).

Definition emitLog (id level stream message : string) : prog unit :=
  log_row id level stream message.

(** A uint64. *)
Definition gen_next (g : Z) : Z := ((g + 1) mod 2 ^ 64)%Z.

Definition bumpGeneration (id : string) : prog Z :=
  locked (fun m => let g := gen_next (generation_of id m) in
    (set_generations (<[id := g]> (pm_generations m)) m, g)).

Definition generation (id : string) : prog Z := locked (fun m => (m, generation_of id m)).

Definition recordRuntime (id : string) (t : RuntimeType) : prog unit :=
  locked (fun m => (set_runtime id t m, tt)).

Definition recordLaunchdDeployment (dep : Deployment) : prog unit :=
  locked (fun m => (set_launchd (dep_ID dep) dep (set_runtime (dep_ID dep) RuntimeTypeLaunchd m), tt)).

Definition emitStartFailure (id : string) (info : ExitInfo) : prog unit :=
  emitLog id "ERROR" "stderr" ("启动失败: " +:+ ei_Error info).

Fixpoint each {A} (f : A -> prog unit) (l : list A) : prog unit :=
  match l with
  | [] => Done tt
  | x :: l => let! _ := f x in each f l
  end.

Definition emitExitFailure (id : string) (info : ExitInfo) : prog unit :=
  let! _ := emitLog id "ERROR" "stderr"
    (if ei_Signaled info then "进程被信号终止：" +:+ ei_Signal info
     else "进程异常退出，退出码 " +:+ pretty (ei_ExitCode info)) in
  each (fun line => emitLog id "ERROR" "stderr" ("  | " +:+ line)) (ei_StderrTail info).

(** ** reconcile.go *)

Record ReconcileResult : Type := mkReconcile {
  rr_ID : string;
  rr_PGID : Z;
  rr_Corrected : bool;
  rr_Status : string;
  rr_ExitInfo : ExitInfo;
  rr_HasExitInfo : bool;
}.

Definition uncorrected (id : string) (pgid : Z) : ReconcileResult :=
  mkReconcile id pgid false "" ExitInfo_zero false.

Definition reconcileDeadStatus (current : string) (info : option ExitInfo) (backgrounded : bool)
    : string :=
  if backgrounded then StatusFailed
  else if current =? StatusStopped then StatusStopped
  else match info with
       | Some i => if (ei_Reason i =? ExitReasonExited) && (ei_ExitCode i =? 0)%Z
                   then StatusStopped else StatusFailed
       | None => StatusFailed
       end.

Definition emitReconcileCorrection (id status : string) (info : option ExitInfo) : prog unit :=
  let no_evidence :=
    if status =? StatusFailed
    then emitLog id "ERROR" "stderr" "对账检测到进程组已退出，状态已纠正为 failed"
    else emitLog id "INFO" "stdout" "对账检测到进程组已退出，状态已纠正为 stopped" in
  match info with
  | Some i => if (status =? StatusFailed) && (ei_Signaled i || negb (ei_ExitCode i =? 0)%Z)
              then emitExitFailure id i else no_evidence
  | None => no_evidence
  end.

(** The group is alive: the section that says so. *)
Definition reconcile_alive (id : string) (r : nat) (_ : world) (s : sys) : sys * unit :=
  let m := y_mgr s in
  if tracks m id r && negb (status_of id m =? StatusStarting) then
    let m := set_status id StatusRunning m in
    (with_mgr (match Runner_ExitInfo r s with Some _ => set_backgrounded id m | None => m end) s, tt)
  else (s, tt).

(** The group is dead: the section that clears it away, with the new status. *)
Definition reconcile_dead (id : string) (r : nat) (info : option ExitInfo) (backgrounded : bool)
    (m : Manager) : Manager * option string :=
  if tracks m id r then
    let status := reconcileDeadStatus (status_of id m) info
                    (backgrounded || default false (pm_backgrounded m !! id)) in
    (set_status id status (forget_runner id m), Some status)
  else (m, None).

Definition Reconcile (id : string) : prog ReconcileResult :=
  let! (r, backgrounded) :=
    locked (fun m => (m, (pm_runners m !! id, default false (pm_backgrounded m !! id)))) in
  match r with
  | None => Done (uncorrected id 0)
  | Some r =>
      let! pgid := reading (fun _ => ProcessGroupID r) in
      if (pgid =? 0)%Z then Done (uncorrected id 0)
      else
        let! alive := reading (ProcessGroupAlive r) in
        if alive : bool then
          let! _ := atomically (reconcile_alive id r) in
          Done (uncorrected id pgid)
        else
          let! info := reading (fun _ => Runner_ExitInfo r) in
          let! status := locked (reconcile_dead id r info backgrounded) in
          match status with
          | None => Done (uncorrected id pgid)
          | Some status =>
              let! _ := emitReconcileCorrection id status info in
              Done (mkReconcile id pgid true status (default ExitInfo_zero info)
                      (bool_decide (is_Some info)))
          end
  end.

(** The keys of the map, in the order in which the world ranges over it. *)
Definition runner_ids : prog (list string) :=
  reading (fun w s => w_order w (map_to_list (pm_runners (y_mgr s))).*1).

Fixpoint reconcile_each (ids : list string) : prog (list ReconcileResult) :=
  match ids with
  | [] => Done []
  | id :: ids =>
      let! res := Reconcile id in
      let! results := reconcile_each ids in
      Done (if rr_Corrected res then res :: results else results)
  end.

Definition ReconcileAll : prog (list ReconcileResult) :=
  let! ids := runner_ids in reconcile_each ids.

(** ** launchd.go *)

(** The machine: its operating system, the user, and [DetectLevel] of [logparse/level.go],
    which guesses a level from the words of a line. *)
Class Machine := {
  GOOS : string;
  Getuid : Z;
  DetectLevel : string -> string;
}.

Section Machine.
Context {M : Machine}.

Definition launchdDomain : string := "gui/" +:+ pretty Getuid.

Definition launchd_no_label := "launchd label 不能为空".

Definition launchdTarget (label : string) : result string string :=
  let label := TrimSpace label in
  if label =? "" then Err launchd_no_label else Ok (launchdDomain +:+ "/" +:+ label).

Definition launchdRuntime (dep : Deployment) : result string RuntimeConfig :=
  match dep_Runtime dep with
  | Some rc =>
      if negb (rc_Type rc =? RuntimeTypeLaunchd) then Err "deployment runtime 不是 launchd"
      else if TrimSpace (rc_Label rc) =? "" then Err launchd_no_label
      else Ok rc
  | None => Err "deployment runtime 不是 launchd"
  end.

Abbreviation launchdCommand := (string * list string)%type (only parsing).

Definition expandHomePath (home : option string) (path : string) : string :=
  if negb (path =? "~") && negb (String.prefix "~/" path) then path
  else match home with
       | None => path
       | Some home =>
           if path =? "~" then home
           else Join home (String.substring 2 (String.length path - 2) path)
       end.

Definition launchdStartCommands (home : option string) (dep : Deployment)
    : result string (list launchdCommand * launchdCommand) :=
  (let? rc := launchdRuntime dep in
   let? target := launchdTarget (rc_Label rc) in
   let plistPath := TrimSpace (rc_PlistPath rc) in
   let bootstrap :=
     if plistPath =? "" then []
     else [("launchctl", ["bootstrap"; launchdDomain; expandHomePath home plistPath])] in
   Ok (bootstrap, ("launchctl", ["kickstart"; "-k"; target])))%go.

Definition launchdStopCommand (dep : Deployment) : result string launchdCommand :=
  (let? rc := launchdRuntime dep in
   let? target := launchdTarget (rc_Label rc) in
   Ok ("launchctl", ["bootout"; target]))%go.

Definition isAlreadyBootstrapped (message : string) : bool :=
  Contains message "Bootstrap failed: 5" || Contains message "Service is already loaded" ||
  Contains message "service already loaded".

Definition runLaunchdCommand (cmd : launchdCommand) : prog (option string) :=
  atomically (fun w s => (emit_out (Ran cmd.1 cmd.2) s,
    match w_launchctl w with
    | Some (out, err) => Some (cmd.1 +:+ " " +:+ String.concat " " cmd.2 +:+ " 失败: " +:+
                               TrimSpace out +:+ ": " +:+ err)
    | None => None
    end)).

(** The commands before the last one may find that their work has been done. *)
Fixpoint run_bootstrap (cmds : list launchdCommand) (last : launchdCommand) : prog (option string) :=
  match cmds with
  | [] => runLaunchdCommand last
  | cmd :: cmds =>
      let! err := runLaunchdCommand cmd in
      match err with
      | Some e => if isAlreadyBootstrapped e then run_bootstrap cmds last else Done (Some e)
      | None => run_bootstrap cmds last
      end
  end.

Definition not_macOS := "launchd 仅支持 macOS".

Definition runLaunchdStart (dep : Deployment) : prog (option string) :=
  if negb (GOOS =? "darwin") then Done (Some not_macOS)
  else
    let! home := reading (fun w _ => w_home w) in
    match launchdStartCommands home dep with
    | Err e => Done (Some e)
    | Ok (bootstrap, kickstart) => run_bootstrap bootstrap kickstart
    end.

Definition runLaunchdStop (dep : Deployment) : prog (option string) :=
  if negb (GOOS =? "darwin") then Done (Some not_macOS)
  else match launchdStopCommand dep with
       | Err e => Done (Some e)
       | Ok cmd => runLaunchdCommand cmd
       end.

(** [strings.ReplaceAll] of one character. *)
Fixpoint replace_char (c : ascii) (new s : string) : string :=
  match s with
  | EmptyString => EmptyString
  | String d s =>
      if Ascii.eqb c d then new +:+ replace_char c new s else String d (replace_char c new s)
  end.

Definition double_quote : ascii := ascii_of_nat 34.
Definition quoted (s : string) : string := String double_quote (s +:+ String double_quote "").

Definition shellSingleQuote (value : string) : string :=
  "'" +:+ replace_char "'"%char "'\''" value +:+ "'".

Definition macOSLogStreamCommand (target : string) : string :=
  let escaped := replace_char double_quote (String "\"%char (String double_quote "")) target in
  let predicate := "subsystem == " +:+ quoted escaped +:+ " OR process == " +:+ quoted escaped +:+
                   " OR eventMessage CONTAINS[c] " +:+ quoted escaped in
  "log stream --style compact --predicate " +:+ shellSingleQuote predicate.

(** ** manager.go: the methods *)

Definition SetRunID (runID : string) : prog unit :=
  locked (fun m => (mkManager (pm_runners m) (pm_status m) (pm_generations m) (pm_runtimes m)
    (pm_launchdDeps m) (pm_readiness m) (pm_backgrounded m) (pm_notify m) runID (pm_logSeq m), tt)).

Definition SetOnStatusChange (cb : bool) : prog unit :=
  locked (fun m => (mkManager (pm_runners m) (pm_status m) (pm_generations m) (pm_runtimes m)
    (pm_launchdDeps m) (pm_readiness m) (pm_backgrounded m) cb (pm_runID m) (pm_logSeq m), tt)).

(** What [Stop] and the launchd branch of [StopDeployment] have in common. *)
Definition stop_runner (id : string) : prog unit :=
  let! _ := bumpGeneration id in
  let! r := locked (fun m => (forget id m, pm_runners m !! id)) in
  let! _ := match r with Some r => Runner_Stop r | None => Done tt end in
  setStatus id StatusStopped.

Definition Stop (id : string) : prog unit := stop_runner id.

Definition StopAll : prog unit := let! ids := runner_ids in each Stop ids.

Definition IsActive (id : string) : prog bool :=
  locked (fun m => (m,
    (status_of id m =? StatusStarting) || (status_of id m =? StatusRunning) ||
    bool_decide (is_Some (pm_runners m !! id)))).

Definition Status (id : string) : prog string :=
  locked (fun m => (m, match pm_status m !! id with Some st => st | None => StatusStopped end)).

(** [PID], [DeploymentPGID], [DeploymentArgv], [DeploymentStderrTail]: a question to the
    runner, once the lock of the manager is released. *)
Definition ask_runner {A} (id : string) (zero : A) (f : nat -> sys -> A) : prog A :=
  let! r := locked (fun m => (m, pm_runners m !! id)) in
  match r with Some r => reading (fun _ => f r) | None => Done zero end.

Definition PID (id : string) : prog Z := ask_runner id 0%Z Runner_PID.
Definition DeploymentPGID (id : string) : prog Z := ask_runner id 0%Z ProcessGroupID.
Definition DeploymentArgv (id : string) : prog (list string) :=
  ask_runner id [] (fun r s => match y_runners s !! r with
    | Some runner => ps_Argv (rn_cfg runner) | None => [] end).
Definition DeploymentStderrTail (id : string) : prog (list string) :=
  ask_runner id [] (fun r s => match y_runners s !! r with
    | Some runner => tail (rn_stderr runner) | None => [] end).

(** [RunningPIDs] asks the runners while it holds the lock. *)
Definition running_pids (s : sys) : gmap string Z :=
  map_imap (fun id r =>
    let st := status_of id (y_mgr s) in
    if negb (st =? StatusRunning) && negb (st =? StatusStarting) then None
    else let pid := Runner_PID r s in if (0 <? pid)%Z then Some pid else None)
    (pm_runners (y_mgr s)).
Definition RunningPIDs : prog (gmap string Z) := reading (fun _ => running_pids).

(** *** Starting *)

Inductive start_error : Type :=
| EmptyCommand (id workDir : string)
| StartError (message : string).

(** A runner for [id] that is alive, or that has not started yet, makes the start superfluous;
    a dead one is cleared away. *)
Definition start_check (id : string) (w : world) (s : sys) : sys * bool :=
  let m := y_mgr s in
  if status_of id m =? StatusStarting then (s, true)
  else match pm_runners m !! id with
       | Some old => if ProcessGroupAlive old w s then (s, true)
                     else (with_mgr (forget_runner id m) s, false)
       | None => (s, false)
       end.

(** [NewRunner]; the runner is entered in a section of its own, the next one. *)
Definition new_runner (spec : ProcessSpec) (id : string) (_ : world) (s : sys) : sys * nat :=
  (mkSys (y_mgr s) (y_runners s ++ [NewRunner spec id])%list (y_groups s) (y_out s),
   length (y_runners s)).

Definition start_failure (id : string) (r : nat) (m : Manager) : Manager * unit :=
  (if tracks m id r then set_status id StatusFailed (forget id m) else m, tt).

Definition startByID (id : string) (spec : ProcessSpec) : prog (option start_error) :=
  if (TrimSpace (ps_Command spec) =? "") && bool_decide (ps_Argv spec = [])
  then Done (Some (EmptyCommand id (ps_WorkDir spec)))
  else
    let! _ := Reconcile id in
    let! skip := atomically (start_check id) in
    if skip : bool then Done None
    else
      let! _ := setStatus id StatusStarting in
      let! gen := bumpGeneration id in
      let! r := atomically (new_runner spec id) in
      let! _ := locked (fun m => (set_runners (<[id := r]> (pm_runners m)) m, tt)) in
      let! err := Runner_Start id r gen in
      match err with
      | Some err =>
          let! evidence := reading (fun _ => Runner_ExitInfo r) in
          let info := default (mkExitInfo ExitReasonStartFailed (-1) false "" err []) evidence in
          let! _ := locked (start_failure id r) in
          let! _ := emitStartFailure id info in
          Done (Some (StartError err))
      | None =>
          let! alive := reading (ProcessGroupAlive r) in
          if alive : bool then
            let! probe := locked (fun m => (m, pm_readiness m !! id)) in
            let! _ := match probe with
                      | None => setStatus id StatusRunning
                      | Some probe => go (GReadiness id gen probe)
                      end in
            Done None
          else Done None
      end.

(** [deploymentToSpec] *)
Definition deploymentToSpec (dep : Deployment) : ProcessSpec :=
  if dep_Location dep =? LocationRemote then mkSpec (dep_StartCommand dep) None [] "" None ""
  else
    let argv :=
      match dep_Runtime dep with
      | Some rc => if (rc_Type rc =? RuntimeTypeCommand) && negb (rc_Executable rc =? "")
                   then rc_Executable rc :: rc_Args rc else []
      | None => []
      end in
    mkSpec (dep_Command dep) None argv (dep_WorkDir dep) (dep_Env dep) (dep_EnvFile dep).

Definition runtimeTypeOf (dep : Deployment) : RuntimeType :=
  match dep_Runtime dep with
  | Some rc => if negb (rc_Type rc =? "") then rc_Type rc else RuntimeTypeCommand
  | None => RuntimeTypeCommand
  end.

Definition LogKindMacOSLog := "macos_log".

Definition startLaunchdDeployment (dep : Deployment) : prog (option start_error) :=
  let id := dep_ID dep in
  let! _ := setStatus id StatusStarting in
  let! err := runLaunchdStart dep in
  match err with
  | Some e =>
      let! _ := setStatus id StatusFailed in
      let! _ := emitLog id "ERROR" "stderr" ("启动 launchd 服务失败: " +:+ e) in
      Done (Some (StartError e))
  | None =>
      let! _ := recordLaunchdDeployment dep in
      let target := match dep_Logs dep with
                    | Some l => if lc_Type l =? LogKindMacOSLog then lc_Target l else ""
                    | None => ""
                    end in
      if negb (target =? "") then
        let! err := startByID id (mkSpec (macOSLogStreamCommand target) None [] "" None "") in
        match err with
        | Some e =>
            let! _ := setStatus id StatusFailed in
            let! _ := emitLog id "ERROR" "stderr" ("启动 macOS 日志采集失败: " +:+
              match e with
              | StartError m => m
              | EmptyCommand _ _ => ""  (* not with this command *)
              end) in
            Done (Some e)
        | None => let! _ := recordLaunchdDeployment dep in Done None
        end
      else
        let! _ := setStatus id StatusRunning in
        let! _ := emitLog id "INFO" "stdout" "launchd 服务已启动" in
        Done None
  end.

Definition StartDeployment (dep : Deployment) : prog (option start_error) :=
  if IsReadOnly dep then Done None
  else
    let! _ := setReadiness (dep_ID dep) (dep_Readiness dep) in
    if bool_decide (rc_Type <$> dep_Runtime dep = Some RuntimeTypeLaunchd)
    then startLaunchdDeployment dep
    else
      let! err := startByID (dep_ID dep) (deploymentToSpec dep) in
      match err with
      | Some e => Done (Some e)
      | None => let! _ := recordRuntime (dep_ID dep) (runtimeTypeOf dep) in Done None
      end.

Definition StartDeploymentSpec (dep : Deployment) (spec : ProcessSpec) : prog (option start_error) :=
  if IsReadOnly dep then Done None
  else
    let! _ := setReadiness (dep_ID dep) (dep_Readiness dep) in
    let! err := startByID (dep_ID dep) spec in
    match err with
    | Some e => Done (Some e)
    | None => let! _ := recordRuntime (dep_ID dep) (runtimeTypeOf dep) in Done None
    end.

Definition StartProcess (id : string) (spec : ProcessSpec) : prog (option start_error) :=
  let! _ := setReadiness id None in startByID id spec.

Definition StopDeployment (id : string) : prog unit :=
  let! (runtimeType, dep) := locked (fun m => (m,
    (default "" (pm_runtimes m !! id), pm_launchdDeps m !! id))) in
  if runtimeType =? RuntimeTypeLaunchd then
    let! err := match dep with
                | Some dep => runLaunchdStop dep
                | None => Done (Some (if negb (GOOS =? "darwin") then not_macOS
                                      else "deployment runtime 不是 launchd"))
                end in
    let! _ := match err with
              | Some e => emitLog id "ERROR" "stderr" ("停止 launchd 服务失败: " +:+ e)
              | None => Done tt
              end in
    stop_runner id
  else Stop id.

Definition RestartDeployment (dep : Deployment) : prog (option start_error) :=
  let! _ := StopDeployment (dep_ID dep) in StartDeployment dep.

(** ** The goroutines *)

Definition awaitReadiness (id : string) (gen : Z) (probe : ReadinessProbe) : prog unit :=
  let! err := reading (fun w _ => w_probe w) in
  let! now := generation id in
  if negb (now =? gen)%Z then Done tt
  else match err with
       | Some e =>
           let! _ := setStatus id StatusFailed in
           emitLog id "ERROR" "stderr" ("就绪探测失败: " +:+ e)
       | None =>
           let! r := locked (fun m => (m, pm_runners m !! id)) in
           match r with
           | None => Done tt
           | Some r =>
               let! alive := reading (ProcessGroupAlive r) in
               if alive : bool then setStatus id StatusRunning else Done tt
           end
       end.

(** The section of [handleRunnerExit] under the lock; [Some failed] when the runner has gone. *)
Definition exit_locked (id : string) (r : nat) (groupAlive : bool) (info : ExitInfo)
    (m : Manager) : Manager * option bool :=
  if negb (tracks m id r) then (m, None)
  else if groupAlive then
    (set_backgrounded id (match pm_readiness m !! id with
       | None => set_status id StatusRunning m
       | Some _ => m
       end), None)
  else
    let failed := negb (ei_ExitCode info =? 0)%Z || ei_Signaled info in
    (set_status id (if failed then StatusFailed else StatusStopped) (forget id m), Some failed).

Definition handleRunnerExit (id : string) (r : nat) (gen : Z) (info : ExitInfo) : prog unit :=
  let! now := generation id in
  if negb (now =? gen)%Z then Done tt
  else
    let! groupAlive := reading (ProcessGroupAlive r) in
    let! failed := locked (exit_locked id r groupAlive info) in
    match failed with
    | Some true => emitExitFailure id info
    | _ => Done tt
    end.

(** The goroutine that [Runner.Start] leaves behind.  [drainOutput] waits for the scanners, or
    for a while: what they have read by then is the tail of the evidence. *)
Definition wait_process (id : string) (r : nat) (gen : Z) : prog unit :=
  let! result := await (fun s => match y_groups s !! r with Some g => g_leader g | None => None end) in
  let! lines := reading (fun _ s => match y_runners s !! r with
                  | Some runner => tail (rn_stderr runner) | None => [] end) in
  let info := buildExitInfo result lines in
  let! _ := atomically (fun _ s => (with_runner r (record_exit info) s, tt)) in
  handleRunnerExit id r gen info.

Definition push_stderr (line : string) (r : Runner) : Runner :=
  mkRunner (rn_cfg r) (rn_id r) (rn_pid r) (rn_running r) (rn_exitCode r) (rn_exited r)
    (rn_exitInfo r) (rn_group r) (push line (rn_stderr r)).

(** [scanLines] with the callback [OnLine] of [startByID]. *)
Definition scan_line (id : string) (r : nat) (stream line : string) : prog unit :=
  let! _ := if stream =? "stderr"
            then atomically (fun _ s => (with_runner r (push_stderr line) s, tt))
            else Done tt in
  log_row id (DetectLevel line) stream line.

Definition scanLines (id : string) (r : nat) (stream : string) (lines : list string) : prog unit :=
  each (scan_line id r stream) lines.

Definition body (g : goroutine) : prog unit :=
  match g with
  | GWait id r gen => wait_process id r gen
  | GScan id r stream lines => scanLines id r stream lines
  | GReadiness id gen probe => awaitReadiness id gen probe
  end.

(** ** The agent at work

    Requests arrive, programs make steps, and processes end. *)

Inductive request : Type :=
| QStart (dep : Deployment)
| QStartSpec (dep : Deployment) (spec : ProcessSpec)
| QStartProcess (id : string) (spec : ProcessSpec)
| QStop (id : string)
| QStopDeployment (id : string)
| QRestart (dep : Deployment)
| QStopAll
| QReconcile (id : string)
| QReconcileAll
| QSetRunID (runID : string)
| QSetOnStatusChange (cb : bool).

Definition ignore {A} (p : prog A) : prog unit := let! _ := p in Done tt.

Definition serve (q : request) : prog unit :=
  match q with
  | QStart dep => ignore (StartDeployment dep)
  | QStartSpec dep spec => ignore (StartDeploymentSpec dep spec)
  | QStartProcess id spec => ignore (StartProcess id spec)
  | QStop id => Stop id
  | QStopDeployment id => StopDeployment id
  | QRestart dep => ignore (RestartDeployment dep)
  | QStopAll => StopAll
  | QReconcile id => ignore (Reconcile id)
  | QReconcileAll => ignore ReconcileAll
  | QSetRunID runID => SetRunID runID
  | QSetOnStatusChange cb => SetOnStatusChange cb
  end.

Inductive tick : Type :=
| Request (q : request)
| Next (i : nat) (w : world)
| Reaped (r : nat) (result : wait_result)   (** the leader of a group ends *)
| Ended (r : nat).                          (** nothing of the group is left *)

(** A group cannot end before its leader has been waited for. *)
Definition change_group (r : nat) (f : Group -> option Group) (s : sys) : sys :=
  mkSys (y_mgr s) (y_runners s)
    (match y_groups s !! r with
     | Some g => match f g with Some g => <[r := g]> (y_groups s) | None => y_groups s end
     | None => y_groups s
     end) (y_out s).

Definition reap (result : wait_result) (g : Group) : option Group :=
  match g_leader g with
  | None => Some (mkGroup (g_pgid g) (g_alive g) (g_signalled g) (g_refused g) (Some result))
  | Some _ => None
  end.

Definition end_group (g : Group) : option Group :=
  match g_leader g with
  | None => None
  | Some _ => Some (mkGroup (g_pgid g) false (g_signalled g) (g_refused g) (g_leader g))
  end.

(** Does a request start or stop processes of [id]? *)
Definition concerns (id : string) (q : request) : bool :=
  match q with
  | QStart dep | QStartSpec dep _ | QRestart dep => dep_ID dep =? id
  | QStartProcess x _ | QStop x | QStopDeployment x => x =? id
  | QStopAll => true
  | QReconcile _ | QReconcileAll | QSetRunID _ | QSetOnStatusChange _ => false
  end.

Abbreviation state := (@config sys world goroutine) (only parsing).

(** The requests that concern [id] are marked as operations. *)
Definition tick_step (id : string) (t : tick) (c : state) : state :=
  match t with
  | Request q => (c.1, c.2 ++ [Thread (concerns id q) (serve q)])%list
  | Next i w => advance body i w c
  | Reaped r result => (change_group r (reap result) c.1, c.2)
  | Ended r => (change_group r end_group c.1, c.2)
  end.

Definition run_ticks (id : string) (ticks : list tick) (c : state) : state :=
  fold_left (fun c t => tick_step id t c) ticks c.

(** No request that concerns [id] arrives while another one is under way. *)
Fixpoint one_at_a_time (id : string) (ticks : list tick) (c : state) : bool :=
  match ticks with
  | [] => true
  | t :: ticks =>
      match t with Request q => negb (concerns id q) || idle c | _ => true end
      && one_at_a_time id ticks (tick_step id t c)
  end.

Definition initial : state := (mkSys NewManager [] ∅ [], []).
End Machine.
