(* ===== verification/ProcessTheorems.v ===== *)
(** * Processes of deployments: what the methods do when they run alone

    The ring of stderr lines, the quoting of shell commands, and starts and stops without
    interference. *)
From stdpp Require Import base strings gmap list.
From Stdlib Require Import ZArith Lia Ascii.
From S2P Require Import Prelude Model Programs Rely Process.
Local Open Scope list_scope.
Local Open Scope prog_scope.

(** ** The ring of stderr lines *)

(** The ring has seen [l]: its cells hold the last lines, each at its number modulo the size. *)
Definition ring_of (l : list string) (r : stderrRing) : Prop :=
  length (sr_buf r) = sr_cap r /\ 0 < sr_cap r /\
  sr_size r = min (sr_cap r) (length l) /\
  sr_start r = (length l - sr_size r) mod sr_cap r /\
  forall j, length l - sr_size r <= j < length l -> sr_buf r !! (j mod sr_cap r) = l !! j.

Lemma ring_of_new n : ring_of [] (newStderrRing n).
Proof.
  unfold ring_of, newStderrRing. simpl. rewrite length_replicate, Nat.Div0.mod_0_l.
  destruct (Z.leb_spec n 0); split_and!; try done; lia.
Qed.

(** Two lines of the window do not share a cell. *)
Lemma cells_apart c j n : 0 < c -> j < n -> n < j + c -> j mod c <> n mod c.
Proof.
  intros Hc Hj Hn E. pose proof (Nat.div_mod j c). pose proof (Nat.div_mod n c).
  assert (n - j = c * (n / c - j / c)) as Hd by nia.
  destruct (n / c - j / c) as [|k]; nia.
Qed.

Lemma ring_of_push l r line : ring_of l r -> ring_of (l ++ [line]) (push line r).
Proof.
  intros (Hlen & Hcap & Hsize & Hstart & Hcells).
  assert ((sr_start r + sr_size r) mod sr_cap r = length l mod sr_cap r) as Hidx.
  { rewrite Hstart, Nat.Div0.add_mod_idemp_l. f_equal. lia. }
  assert (forall j, length l - sr_size r <= j < length l -> sr_cap r + j <> length l ->
    <[length l mod sr_cap r := line]> (sr_buf r) !! (j mod sr_cap r) = (l ++ [line]) !! j) as Hold.
  { intros j Hj Hne. rewrite lookup_app_l by lia.
    rewrite list_lookup_insert_ne; [by apply Hcells|].
    intros E. apply (cells_apart (sr_cap r) j (length l)); lia. }
  assert (<[length l mod sr_cap r := line]> (sr_buf r) !! (length l mod sr_cap r) = (l ++ [line]) !! length l) as Hnew.
  { rewrite list_lookup_insert_eq, lookup_app_r, Nat.sub_diag; [done|lia|].
    rewrite Hlen. by apply Nat.mod_upper_bound; lia. }
  unfold push. rewrite Hidx. destruct (Nat.ltb_spec (sr_size r) (sr_cap r)) as [Hlt|Hge];
    unfold ring_of; simpl; rewrite length_insert, length_app; simpl; split_and!; try lia.
  - rewrite Hstart. f_equal. lia.
  - intros j Hj. destruct (decide (j = length l)) as [->|?]; [done|apply Hold; lia].
  - rewrite Hstart. rewrite <-Nat.add_1_l, Nat.Div0.add_mod_idemp_r. f_equal. lia.
  - intros j Hj. destruct (decide (j = length l)) as [->|?]; [done|apply Hold; lia].
Qed.

Lemma ring_of_pushes lines r l :
  ring_of l r -> ring_of (l ++ lines) (foldl (fun r line => push line r) r lines).
Proof.
  revert r l. induction lines as [|x lines IH]; intros r l H; simpl; [by rewrite app_nil_r|].
  rewrite cons_middle, app_assoc. by apply IH, ring_of_push.
Qed.

Lemma tail_last l r : ring_of l r -> tail r = drop (length l - sr_cap r) l.
Proof.
  intros (Hlen & Hcap & Hsize & Hstart & Hcells). unfold tail. apply list_eq. intros i.
  rewrite list_lookup_fmap, lookup_drop. destruct (decide (i < sr_size r)) as [Hi|Hi].
  - rewrite lookup_seq_lt by done. simpl. rewrite Hstart, Nat.Div0.add_mod_idemp_l.
    rewrite Hcells by lia. replace (length l - sr_cap r + i) with (length l - sr_size r + i) by lia.
    destruct (lookup_lt_is_Some_2 l (length l - sr_size r + i)) as [x Hx]; [lia|]. by rewrite Hx.
  - rewrite lookup_seq_ge by lia. simpl. symmetry. apply lookup_ge_None. lia.
Qed.

(** The evidence of an exit has the last lines of stderr: whatever has been written, and
    however much of it, the tail of a ring of capacity [n] is the last [n] lines, oldest first
    (the last line for a capacity that is not positive). *)
Theorem stderr_tail_last n lines :
  tail (foldl (fun r line => push line r) (newStderrRing n) lines) =
  drop (length lines - Z.to_nat (Z.max 1 n)) lines.
Proof.
  rewrite (tail_last lines).
  - f_equal. f_equal. assert (forall r, sr_cap (foldl (fun r line => push line r) r lines) = sr_cap r) as ->.
    { induction lines as [|x lines IH]; intros r; simpl; [done|]. rewrite IH. unfold push. by destruct (_ <? _). }
    unfold newStderrRing. simpl. destruct (Z.leb_spec n 0); f_equal; lia.
  - apply (ring_of_pushes lines _ []), ring_of_new.
Qed.

(** ** Programs that run alone *)

Fixpoint solo {A} (w : world) (p : prog A) (s : sys) : option (sys * A) :=
  match p with
  | Done x => Some (s, x)
  | Act a k => y ← exec w a s; solo w (k y.2) y.1
  end.

(** Run alone, the program ends, with [Q]. *)
Definition alone {A} (w : world) (p : prog A) (Q : A -> sys -> Prop) (s : sys) : Prop :=
  exists s' x, solo w p s = Some (s', x) /\ Q x s'.

Lemma solo_bind {A B} w (p : prog A) (f : A -> prog B) s :
  solo w (bind p f) s = (y ← solo w p s; solo w (f y.2) y.1).
Proof.
  revert s. induction p as [x|a k IH]; intros s; simpl; [done|].
  destruct (exec w a s) as [[s' y]|]; simpl; [apply IH|done].
Qed.

Section Alone.
Context (w : world).

Lemma alone_bind {A B} (p : prog A) (f : A -> prog B) Q s :
  alone w p (fun x t => alone w (f x) Q t) s -> alone w (bind p f) Q s.
Proof.
  intros (t & x & Hp & u & y & Hf & HQ). exists u, y. split; [|done]. by rewrite solo_bind, Hp.
Qed.

Lemma alone_mono {A} (p : prog A) (P Q : A -> sys -> Prop) s :
  alone w p P s -> (forall x t, P x t -> Q x t) -> alone w p Q s.
Proof. intros (t & x & Hp & HP) H. exists t, x. auto. Qed.

Lemma alone_done {A} (x : A) (Q : A -> sys -> Prop) s : Q x s -> alone w (Done x : prog A) Q s.
Proof. intros HQ. by exists s, x. Qed.

Lemma alone_atomically {A} (f : world -> sys -> sys * A) (Q : A -> sys -> Prop) s :
  Q (f w s).2 (f w s).1 -> alone w (atomically f) Q s.
Proof. intros HQ. exists (f w s).1, (f w s).2. split; [|done]. simpl. by destruct (f w s). Qed.

Lemma alone_locked {A} (f : Manager -> Manager * A) (Q : A -> sys -> Prop) s :
  Q (f (y_mgr s)).2 (with_mgr (f (y_mgr s)).1 s) -> alone w (locked f) Q s.
Proof. intros HQ. apply alone_atomically. revert HQ. by destruct (f (y_mgr s)). Qed.

Lemma alone_go g (Q : unit -> sys -> Prop) s : Q tt s -> alone w (go g : prog unit) Q s.
Proof. intros HQ. by exists s, tt. Qed.

(** What the outside gets to see is left open. *)
Lemma alone_setStatus id st (Q : unit -> sys -> Prop) s :
  (forall out, Q tt (mkSys (set_status id st (y_mgr s)) (y_runners s) (y_groups s) out)) ->
  alone w (setStatus id st) Q s.
Proof.
  intros HQ. apply alone_bind, alone_locked. simpl.
  destruct (_ && _); [apply alone_atomically, HQ|apply alone_done, HQ].
Qed.

Lemma alone_emitLog id level stream message (Q : unit -> sys -> Prop) s :
  (forall n out, Q tt (mkSys (set_logSeq n (y_mgr s)) (y_runners s) (y_groups s) out)) ->
  alone w (emitLog id level stream message) Q s.
Proof.
  intros HQ. apply alone_bind, alone_locked, alone_bind, alone_atomically, alone_atomically. apply HQ.
Qed.

(** A runner is new, and its number has not been used. *)
Lemma alone_Runner_Start id r gen cfg rn s (Q : option string -> sys -> Prop) :
  y_runners s !! r = Some rn -> rn_cfg rn = cfg -> y_groups s !! r = None ->
  match before_start cfg (w_start w), st_spawn (w_start w) with
  | None, Ok pid => Q None (mkSys (y_mgr s) (alter (set_started pid) r (y_runners s))
      (<[r := mkGroup pid true false false None]> (y_groups s)) (y_out s))
  | _, _ => forall err runners, Q (Some err) (mkSys (y_mgr s) runners (y_groups s) (y_out s))
  end ->
  alone w (Runner_Start id r gen) Q s.
Proof.
  intros Hr <- Hg HQ. apply alone_bind, alone_atomically. unfold Start_locked. rewrite Hr.
  destruct (before_start _ _) as [[err evidence]|].
  - apply alone_done. destruct evidence; [apply HQ|]. destruct s. apply HQ.
  - destruct (st_spawn _) as [pid|err]; [|apply alone_done, HQ]. rewrite Hg.
    by apply alone_bind, alone_go, alone_bind, alone_go, alone_bind, alone_go, alone_done.
Qed.

Lemma with_mgr_id s : with_mgr (y_mgr s) s = s.
Proof. by destruct s. Qed.

Lemma alone_Reconcile_none id (Q : ReconcileResult -> sys -> Prop) s :
  pm_runners (y_mgr s) !! id = None -> Q (uncorrected id 0) s -> alone w (Reconcile id) Q s.
Proof.
  intros Hn HQ. apply alone_bind, alone_locked. cbn [fst snd]. rewrite Hn, with_mgr_id.
  by apply alone_done.
Qed.

(** The other deployments keep their runners and their status. *)
Definition others_kept (id : string) (m m' : Manager) : Prop :=
  forall x, x <> id -> pm_runners m' !! x = pm_runners m !! x /\ status_of x m' = status_of x m.

(** The two ends of [startByID], after [Runner.Start]. *)
Lemma alone_failed_rest id r err s (Q : option start_error -> sys -> Prop) :
  pm_runners (y_mgr s) !! id = Some r ->
  (forall m out, others_kept id (y_mgr s) m -> pm_runners m !! id = None ->
     status_of id m = StatusFailed ->
     Q (Some (StartError err)) (mkSys m (y_runners s) (y_groups s) out)) ->
  alone w (let! evidence := reading (fun _ => Runner_ExitInfo r) in
    let! _ := locked (start_failure id r) in
    let! _ := emitStartFailure id
      (default (mkExitInfo ExitReasonStartFailed (-1) false EmptyString err []) evidence) in
    Done (Some (StartError err))) Q s.
Proof.
  intros Hr HQ. apply alone_bind, alone_atomically, alone_bind, alone_locked. cbn [fst snd].
  unfold start_failure, tracks. rewrite bool_decide_true by done.
  apply alone_bind, alone_emitLog. intros n out. apply alone_done, HQ.
  - intros x Hx. unfold status_of. simpl. by rewrite lookup_delete_ne, lookup_insert_ne.
  - simpl. apply lookup_delete_eq.
  - unfold status_of. simpl. by rewrite lookup_insert_eq.
Qed.

Lemma alone_started_rest id r gen pid s (Q : option start_error -> sys -> Prop) :
  group_of r s = Some pid -> y_groups s !! r = Some (mkGroup pid true false false None) ->
  (forall m out, others_kept id (y_mgr s) m -> pm_runners m = pm_runners (y_mgr s) ->
     status_of id m = match pm_readiness (y_mgr s) !! id with
                      | None => StatusRunning | Some _ => status_of id (y_mgr s) end ->
     Q None (mkSys m (y_runners s) (y_groups s) out)) ->
  alone w (let! alive := reading (ProcessGroupAlive r) in
    if alive : bool then
      let! probe := locked (fun m => (m, pm_readiness m !! id)) in
      let! _ := match probe with
                | None => setStatus id StatusRunning
                | Some probe => go (GReadiness id gen probe)
                end in
      Done None
    else Done None) Q s.
Proof.
  intros Hg Hr HQ. apply alone_bind, alone_atomically. cbn [fst snd].
  replace (ProcessGroupAlive r w s) with true; [|symmetry].
  - apply alone_bind, alone_locked. cbn [fst snd]. rewrite with_mgr_id. apply alone_bind.
    destruct (pm_readiness (y_mgr s) !! id) eqn:E.
    + apply alone_go, alone_done. destruct s as [m rs gs out]. by apply HQ.
    + apply alone_setStatus. intros out. apply alone_done, HQ; [|done|].
      * intros x Hx. unfold status_of. simpl. by rewrite lookup_insert_ne.
      * unfold status_of. simpl. by rewrite lookup_insert_eq.
  - unfold ProcessGroupAlive, group_alive. rewrite Hg. apply orb_true_intro. left.
    apply existsb_exists. exists (mkGroup pid true false false None). simpl. rewrite Z.eqb_refl.
    split; [|done]. apply list_elem_of_In, list_elem_of_fmap. exists (r, mkGroup pid true false false None).
    split; [done|]. by apply elem_of_map_to_list.
Qed.

(** C36: a start, when nothing else runs: of a deployment without a runner, with a command, that
    is not being started already.  If the pre-run step, the look-up of the command and the
    process succeed, there is a new runner with a live process group, and the status is
    "running", or "starting" when a readiness probe is configured.  Otherwise the caller gets
    an error, no runner is left and the status is "failed".  The other deployments keep
    their runners, their status and their processes. *)
Theorem start_alone id spec s :
  pm_runners (y_mgr s) !! id = None -> status_of id (y_mgr s) <> StatusStarting ->
  y_groups s !! length (y_runners s) = None ->
  TrimSpace (ps_Command spec) <> EmptyString \/ ps_Argv spec <> [] ->
  let r := length (y_runners s) in
  alone w (startByID id spec) (fun err t =>
    others_kept id (y_mgr s) (y_mgr t) /\
    match before_start spec (w_start w), st_spawn (w_start w) with
    | None, Ok pid =>
        err = None /\ pm_runners (y_mgr t) !! id = Some r /\
        y_groups t = <[r := mkGroup pid true false false None]> (y_groups s) /\
        status_of id (y_mgr t) =
          match pm_readiness (y_mgr s) !! id with None => StatusRunning | Some _ => StatusStarting end
    | _, _ =>
        (exists message, err = Some (StartError message)) /\ pm_runners (y_mgr t) !! id = None /\
        y_groups t = y_groups s /\ status_of id (y_mgr t) = StatusFailed
    end) s.
Proof.
  intros Hn Hst Hg Hcmd r. unfold startByID.
  replace (_ && _) with false; [|symmetry; apply andb_false_iff;
    destruct Hcmd as [?%String.eqb_neq|?]; [by left|right; by apply bool_decide_false]].
  match goal with |- alone _ _ ?Q _ => set (post := Q) end.
  apply alone_bind, alone_Reconcile_none; [done|]. apply alone_bind, alone_atomically.
  unfold start_check. rewrite (proj2 (String.eqb_neq _ _) Hst), Hn. cbn [fst snd].
  apply alone_bind, alone_setStatus. intros out. apply alone_bind, alone_locked. cbn [fst snd].
  apply alone_bind, alone_atomically, alone_bind, alone_locked.
  cbn [with_mgr new_runner y_mgr y_groups y_runners y_out fst snd]. fold r.
  match goal with |- context [set_runners ?a ?b] => set (m' := set_runners a b) end.
  assert (others_kept id (y_mgr s) m') as Hm'.
  { intros x Hx. unfold status_of. simpl. by rewrite !lookup_insert_ne. }
  assert (pm_runners m' !! id = Some r) as Hr' by apply lookup_insert_eq.
  assert (forall m, others_kept id m' m -> others_kept id (y_mgr s) m) as Htr.
  { intros m H x Hx. destruct (H x Hx) as (-> & ->). by apply Hm'. }
  assert (status_of id m' = StatusStarting) as Hst' by (unfold status_of; simpl; by rewrite lookup_insert_eq).
  apply alone_bind, (alone_Runner_Start _ _ _ spec (NewRunner spec id));
    [cbn; by rewrite lookup_app_r, Nat.sub_diag|done|done|].
  destruct (before_start spec (w_start w)) as [e|] eqn:Eb.
  - intros err runners. apply alone_failed_rest; [done|]. intros m out' Hk Hno Hf.
    split_and!; [by apply Htr|by eexists|done..].
  - destruct (st_spawn (w_start w)) as [pid|e] eqn:Es.
    + apply (alone_started_rest _ _ _ pid).
      * unfold group_of. cbn. by rewrite list_lookup_alter_eq, lookup_app_r, Nat.sub_diag.
      * apply lookup_insert_eq.
      * intros m out' Hk Hrun Hf. split_and!; [by apply Htr|done|by cbn [y_mgr]; rewrite Hrun|done|].
        cbn [y_mgr with_mgr] in Hf. by rewrite Hst' in Hf.
    + intros err runners. apply alone_failed_rest; [done|]. intros m out' Hk Hno Hf.
      split_and!; [by apply Htr|by eexists|done..].
Qed.
End Alone.
