(* ===== verification/ProcessSafety.v ===== *)
(** * Processes of deployments: what is stopped is stopped

    The invariant of the process manager for one deployment whose starts and stops do not
    overlap, while everything else runs as it likes: exits, reconciliations, readiness probes,
    output, and the operations on other deployments. *)
From stdpp Require Import base strings gmap list relations.
From Stdlib Require Import ZArith Lia.
From S2P Require Import Prelude Model Programs Rely Process.
Local Open Scope string_scope.
Local Open Scope prog_scope.

(** ** Facts about states *)

(** Runners and groups agree. *)
Definition wf (s : sys) : Prop := forall r, group_of r s = g_pgid <$> y_groups s !! r.

Definition owned (id : string) (r : nat) (s : sys) : Prop :=
  rn_id <$> y_runners s !! r = Some id.
Definition live (r : nat) (s : sys) : Prop :=
  exists g, y_groups s !! r = Some g /\ g_alive g = true /\ g_signalled g = false /\ g_refused g = false.
Definition dead (r : nat) (s : sys) : Prop :=
  exists g, y_groups s !! r = Some g /\ g_alive g = false.

(** What becomes of a group: it ends, it is sent a signal or the signal is refused, its leader
    is waited for. *)
Definition group_step (g g' : Group) : Prop :=
  g_pgid g' = g_pgid g /\ (g_alive g' = true -> g_alive g = true) /\
  (g_signalled g = true -> g_signalled g' = true) /\
  (g_refused g = true -> g_refused g' = true).

(** What every step of every program respects. *)
Definition mono (s t : sys) : Prop :=
  (forall r id, owned id r s -> owned id r t) /\
  (forall r g, y_groups s !! r = Some g -> exists g', y_groups t !! r = Some g' /\ group_step g g').

(** What the steps respect that do not belong to a start or a stop of [id]: they start nothing
    for it, they drop its runner only when the group is dead, and only then do they say that
    it has stopped. *)
Definition calm (id : string) (s t : sys) : Prop :=
  (forall r, is_Some (y_groups t !! r) -> is_Some (y_groups s !! r) \/ exists x, owned x r t /\ x <> id) /\
  (pm_runners (y_mgr t) !! id = pm_runners (y_mgr s) !! id \/
   exists r, pm_runners (y_mgr s) !! id = Some r /\ dead r t /\ pm_runners (y_mgr t) !! id = None) /\
  (status_of id (y_mgr t) = StatusStopped ->
   status_of id (y_mgr s) = StatusStopped \/
   (is_Some (pm_runners (y_mgr s) !! id) /\ pm_runners (y_mgr t) !! id = None)).

Definition strong (id : string) (s t : sys) : Prop := mono s t /\ calm id s t.

(** No start or stop of [id] is under way. *)
Definition settled (id : string) (s : sys) : Prop :=
  wf s /\
  (forall r, owned id r s -> live r s -> pm_runners (y_mgr s) !! id = Some r) /\
  (forall r, pm_runners (y_mgr s) !! id = Some r ->
     status_of id (y_mgr s) <> StatusStopped /\ is_Some (y_groups s !! r)).

#[export] Instance group_step_preorder : PreOrder group_step.
Proof.
  split; [by intros g; repeat split|].
  intros g h k (E1 & A1 & S1 & R1) (E2 & A2 & S2 & R2). split_and!; [congruence|..]; auto.
Qed.

#[export] Instance mono_preorder : PreOrder mono.
Proof.
  split.
  - intros s. split; [done|]. intros r g Hg. exists g. by split.
  - intros s t u (O1 & G1) (O2 & G2). split; [auto|].
    intros r g (g' & (g'' & ? & ?)%G2 & ?)%G1. exists g''. split; [done|]. by etransitivity.
Qed.

Lemma dead_mono s t r : mono s t -> dead r s -> dead r t.
Proof.
  intros (_ & HG) (g & Hg & Ha). destruct (HG _ _ Hg) as (g' & Hg' & _ & Hal & _). exists g'.
  split; [done|]. destruct (g_alive g'); [|done]. rewrite Hal in Ha by done. done.
Qed.

Lemma live_not_dead r s : live r s -> dead r s -> False.
Proof. intros (g & Hg & Ha & _) (g' & Hg' & Ha'). simplify_eq. congruence. Qed.

Lemma started_mono s t r : mono s t -> is_Some (y_groups s !! r) -> is_Some (y_groups t !! r).
Proof. intros (_ & HG) (g & Hg). destruct (HG _ _ Hg) as (g' & ? & _). eauto. Qed.

Lemma calm_refl id s : calm id s s.
Proof. split_and!; auto. Qed.

Lemma owned_unique id x r s : owned id r s -> owned x r s -> x = id.
Proof. unfold owned. congruence. Qed.

(** The owner of a runner that has started does not change. *)
Lemma owned_back id s t r :
  wf s -> mono s t -> is_Some (y_groups s !! r) -> owned id r t -> owned id r s.
Proof.
  intros Hs (HO & _) [g Hg] Ht. specialize (Hs r). rewrite Hg in Hs.
  unfold owned, group_of in *. destruct (y_runners s !! r) as [x|] eqn:E; [|done]. simpl.
  specialize (HO r (rn_id x)). unfold owned in HO. rewrite E in HO. specialize (HO eq_refl). congruence.
Qed.

Lemma calm_trans id s t u : mono t u -> calm id s t -> calm id t u -> calm id s u.
Proof.
  intros Hm (A1 & B1 & C1) (A2 & B2 & C2). split_and!.
  - intros r [[?|(x & ? & ?)]%A1|]%A2; [by left| |by right].
    right. exists x. split; [by apply Hm|done].
  - destruct B2 as [->|(r & Hr & Hd & Hn)].
    + destruct B1 as [B1|(r & Hr & Hd & Hn)]; [by left|]. right. exists r. split_and!; try done.
      by eapply dead_mono.
    + right. exists r. destruct B1 as [B1|(r' & Hr' & Hd' & Hn')]; [|congruence].
      rewrite <-B1. done.
  - intros Hs. destruct (C2 Hs) as [Ht|(Ht & Hn)].
    + destruct (C1 Ht) as [|(Hsome & Hnone)]; [by left|]. right. split; [done|].
      destruct B2 as [->|(r & Hr & _)]; congruence.
    + right. split; [|done]. destruct B1 as [<-|(r & Hr & _ & Hn')]; [done|].
      rewrite Hn' in Ht. by destruct Ht.
Qed.

#[export] Instance strong_preorder id : PreOrder (strong id).
Proof.
  split; [intros s; split; [reflexivity|apply calm_refl]|].
  intros s t u (M1 & C1) (M2 & C2). split; [by etransitivity|by eapply (calm_trans id s t)].
Qed.

Lemma live_back id s t r :
  wf s -> mono s t -> calm id s t -> owned id r t -> live r t -> owned id r s /\ live r s.
Proof.
  intros Hs Hm (HA & _) Ho (g' & Hg' & Ha & Hsig & Href).
  destruct (HA r) as [[g Hg]|(x & Hx & Hne)]; [by eexists| |by destruct Hne; eapply owned_unique].
  split; [by eapply owned_back; eauto|]. destruct Hm as (_ & HG).
  destruct (HG _ _ Hg) as (g'' & Hg'' & _ & Hal & Hsi & Hre). simplify_eq.
  exists g. split_and!; [done|auto|..].
  - destruct (g_signalled g); [|done]. by rewrite Hsi in Hsig.
  - destruct (g_refused g); [|done]. by rewrite Hre in Href.
Qed.

(** ** Assertions that operations on [id] may rely on *)

Definition nothing_live (id : string) (s : sys) : Prop :=
  wf s /\ forall r, owned id r s -> live r s -> False.

(** The deployment has no runner, and none of its processes is left. *)
Definition clear (id : string) (s : sys) : Prop :=
  nothing_live id s /\ pm_runners (y_mgr s) !! id = None.

Definition clear_starting (id : string) (s : sys) : Prop :=
  clear id s /\ status_of id (y_mgr s) <> StatusStopped.

(** A stop has [r] in hand: at most its group is left. *)
Definition in_hand (id : string) (ro : option nat) (s : sys) : Prop :=
  wf s /\ pm_runners (y_mgr s) !! id = None /\ (forall r, owned id r s -> live r s -> ro = Some r).

(** A start has entered [r], which has not started. *)
Definition entered (id : string) (r : nat) (s : sys) : Prop :=
  nothing_live id s /\ owned id r s /\ y_groups s !! r = None /\
  pm_runners (y_mgr s) !! id = Some r /\ status_of id (y_mgr s) <> StatusStopped.

Lemma nothing_live_strong id s t :
  nothing_live id s -> strong id s t -> wf t -> nothing_live id t.
Proof.
  intros (Hs & H) (Hm & Hc) Hwf. split; [done|]. intros r Ho Hl.
  destruct (live_back id s t r) as [??]; eauto.
Qed.

Lemma no_runner_strong id s t :
  strong id s t -> pm_runners (y_mgr s) !! id = None -> pm_runners (y_mgr t) !! id = None.
Proof. intros Ht Hn. destruct Ht as (_ & _ & [->|(r & ? & _)] & _); congruence. Qed.

Lemma clear_strong id s t : clear id s -> strong id s t -> wf t -> clear id t.
Proof.
  intros (Hl & Hn) Ht Hwf. split; [by eapply nothing_live_strong|]. by eapply no_runner_strong.
Qed.

Lemma clear_starting_strong id s t :
  clear_starting id s -> strong id s t -> wf t -> clear_starting id t.
Proof.
  intros (Hc & Hst) Ht Hwf. split; [by eapply clear_strong|]. destruct Hc as ((Hs & _) & Hn).
  destruct Ht as (_ & _ & _ & HC). intros [?|(Hsome & _)]%HC; [done|].
  rewrite Hn in Hsome. by destruct Hsome.
Qed.

Lemma in_hand_strong id ro s t : in_hand id ro s -> strong id s t -> wf t -> in_hand id ro t.
Proof.
  intros (Hs & Hn & H) Ht Hwf. pose proof (no_runner_strong _ _ _ Ht Hn) as Hn'.
  destruct Ht as (Hm & Hc). split_and!; [done|done|].
  intros r Ho Hl. destruct (live_back id s t r) as [??]; eauto.
Qed.

Lemma entered_strong id r s t : entered id r s -> strong id s t -> wf t -> entered id r t.
Proof.
  intros (Hl & Ho & Hg & Hr & Hst) Ht Hwf.
  pose proof (nothing_live_strong _ _ _ Hl Ht Hwf) as Hl'. destruct Ht as (Hm & HA & HB & HC).
  assert (owned id r t) as Ho' by (by apply Hm).
  assert (y_groups t !! r = None) as Hg'.
  { apply eq_None_not_Some. intros [Hsome|(x & Hx & Hne)]%HA.
    - rewrite Hg in Hsome. by destruct Hsome.
    - by destruct Hne; eapply owned_unique. }
  destruct HB as [HB|(r' & ? & (g & ? & _) & _)]; [|congruence].
  split_and!; [done|done|done|congruence|]. intros [?|(_ & ?)]%HC; [done|]. congruence.
Qed.

Lemma settled_strong id s t : settled id s -> strong id s t -> wf t -> settled id t.
Proof.
  intros (Hs & Hl & Hr) (Hm & Hc) Hwf. split_and!; [done| |].
  - intros r Ho Hlt. destruct (live_back id s t r) as [Hos Hls]; [done..|].
    pose proof (Hl r Hos Hls) as Hsome. destruct Hc as (_ & [->|(r' & ? & Hd & _)] & _); [done|].
    simplify_eq. by destruct (live_not_dead _ _ Hlt Hd).
  - intros r Hrt. destruct Hc as (_ & [HB|(r' & ? & ? & ?)] & HC); [|congruence].
    rewrite HB in Hrt. destruct (Hr r Hrt) as (Hst & Hg).
    split; [|by eapply started_mono]. intros [?|(_ & ?)]%HC; [done|]. congruence.
Qed.

Lemma clear_settled id s : clear id s -> settled id s.
Proof.
  intros ((Hs & Hl) & Hn). split_and!; [done|intros r Ho Hr; by destruct (Hl r Ho Hr)|].
  intros r Hr. congruence.
Qed.

(** ** Steps *)

Lemma wf_same s t :
  y_groups t = y_groups s -> (forall r, group_of r t = group_of r s) -> wf s -> wf t.
Proof. intros Hg Hr Hs r. rewrite Hg, Hr. apply Hs. Qed.

Lemma mono_same s t :
  y_groups t = y_groups s -> (forall r id, owned id r s -> owned id r t) -> mono s t.
Proof. intros Hg Hr. split; [done|]. intros r g. rewrite Hg. exists g. by split. Qed.

(** A step of a helper for [id]. *)
Definition fine (id : string) (s t : sys) : Prop := (wf s -> wf t) /\ strong id s t.

Lemma fine_refl id s : fine id s s.
Proof. split; [done|reflexivity]. Qed.

(** A step that changes the manager alone. *)
Lemma fine_mgr id s t :
  y_groups t = y_groups s -> y_runners t = y_runners s ->
  pm_runners (y_mgr t) !! id = pm_runners (y_mgr s) !! id ->
  (status_of id (y_mgr t) = StatusStopped -> status_of id (y_mgr s) = StatusStopped) ->
  fine id s t.
Proof.
  intros Hg Hr Hm Hst. split.
  - apply wf_same; [done|]. intros r. unfold group_of. by rewrite Hr.
  - split; [apply mono_same; [done|]; unfold owned; by rewrite Hr|].
    repeat split; [|by left|auto]. intros r. rewrite Hg. by left.
Qed.

Lemma group_of_alter r r' f s :
  (forall x, rn_group (f x) = rn_group x) -> group_of r' (with_runner r f s) = group_of r' s.
Proof.
  intros Hf. unfold group_of, with_runner. simpl. destruct (decide (r = r')) as [<-|Hne].
  - rewrite list_lookup_alter_eq. destruct (y_runners s !! r); simpl; auto.
  - by rewrite list_lookup_alter_ne.
Qed.

Lemma owned_alter r r' f id s :
  (forall x, rn_id (f x) = rn_id x) -> owned id r' (with_runner r f s) <-> owned id r' s.
Proof.
  intros Hf. unfold owned, with_runner. simpl. destruct (decide (r = r')) as [<-|Hne].
  - rewrite list_lookup_alter_eq. destruct (y_runners s !! r); simpl; [by rewrite Hf|done].
  - by rewrite list_lookup_alter_ne.
Qed.

(** A step that changes what a runner knows, not its group. *)
Lemma fine_with_runner id r f s :
  (forall x, rn_group (f x) = rn_group x) -> (forall x, rn_id (f x) = rn_id x) ->
  fine id s (with_runner r f s).
Proof.
  intros Hg Hid. split.
  - apply wf_same; [done|]. intros r'. by apply group_of_alter.
  - split; [|repeat split; auto]. apply mono_same; [done|]. intros r' id' Ho. by apply owned_alter.
Qed.

Lemma alive_false_dead r w s :
  wf s -> is_Some (y_groups s !! r) -> ProcessGroupAlive r w s = false -> dead r s.
Proof.
  intros Hs (g & Hg) Ha. exists g. split; [done|]. unfold ProcessGroupAlive in Ha.
  rewrite (Hs r), Hg in Ha. simpl in Ha. unfold group_alive in Ha.
  apply orb_false_elim in Ha as (Ha & _). destruct (g_alive g) eqn:E; [|done].
  assert (existsb (fun g0 => (g_pgid g0 =? g_pgid g)%Z && g_alive g0)
    ((map_to_list (y_groups s)).*2) = true) as Ht; [|congruence].
  apply existsb_exists. exists g. rewrite Z.eqb_refl, E. split; [|done].
  apply list_elem_of_In, list_elem_of_fmap. exists (r, g). split; [done|]. by apply elem_of_map_to_list.
Qed.

(** ** Programs that start and stop nothing for [id] *)

(** Goroutines may be started at any time. *)
Definition anything : goroutine -> sys -> Prop := fun _ s => wf s.

Abbreviation helps id p s := (helper_ok wf mono (strong id) anything p s).
Definition quiet {A} (id : string) (p : prog A) : Prop := forall s, wf s -> helps id p s.

Section Quiet.
Context (id : string).

Lemma quiet_done {A} (x : A) : quiet id (Done x : prog A).
Proof. by intros s. Qed.

Lemma quiet_bind {A B} (p : prog A) (f : A -> prog B) :
  quiet id p -> (forall x, quiet id (f x)) -> quiet id (bind p f).
Proof.
  intros Hp Hf s Hs. apply keeps_bind; [apply _|done|].
  eapply keeps_mono; [by apply Hp|]. intros x t Ht _. by apply Hf.
Qed.

Lemma quiet_atomically {A} (f : world -> sys -> sys * A) :
  (forall w s, fine id s (f w s).1) -> quiet id (atomically f).
Proof.
  intros H s _. apply keeps_atomically. intros w t _ Ht. destruct (H w t) as (? & ?).
  destruct (f w t). simpl in *. auto.
Qed.

Lemma quiet_reading {A} (f : world -> sys -> A) : quiet id (reading f).
Proof. apply quiet_atomically. intros w s. apply fine_refl. Qed.

Lemma quiet_go g : quiet id (go g : prog unit).
Proof. intros s _. apply keeps_go; [apply _|reflexivity|done]. Qed.

Lemma quiet_locked {A} (f : Manager -> Manager * A) :
  (forall m, pm_runners (f m).1 !! id = pm_runners m !! id /\
     (status_of id (f m).1 = StatusStopped -> status_of id m = StatusStopped)) ->
  quiet id (locked f).
Proof.
  intros H. apply quiet_atomically. intros _ s. destruct (H (y_mgr s)) as (H1 & H2).
  destruct (f (y_mgr s)) as [m x]. by apply fine_mgr.
Qed.

Lemma quiet_if {A} (b : bool) (p q : prog A) : quiet id p -> quiet id q -> quiet id (if b then p else q).
Proof. by destruct b. Qed.

Lemma quiet_each {A} (f : A -> prog unit) l : (forall x, quiet id (f x)) -> quiet id (each f l).
Proof. intros H. induction l; simpl; auto using quiet_done, quiet_bind. Qed.

Lemma quiet_ignore {A} (p : prog A) : quiet id p -> quiet id (ignore p).
Proof. intros H. apply quiet_bind; [done|]. intros _. apply quiet_done. Qed.

Lemma quiet_send o : quiet id (send o).
Proof. apply quiet_atomically. intros _ s. by apply fine_mgr. Qed.
End Quiet.

Create HintDb quiet.
#[export] Hint Resolve quiet_done quiet_reading quiet_go quiet_if quiet_each quiet_ignore
  quiet_send : quiet.

(** Take a program apart; what is left are its sections. *)
Ltac quiet_step :=
  match goal with
  | |- quiet _ (bind _ _) => apply quiet_bind
  | |- forall _, _ => intros ?
  | |- quiet _ (if _ then _ else _) => apply quiet_if
  | |- quiet _ (match ?x with _ => _ end) => destruct x
  | |- quiet _ _ => solve [auto with quiet nocore]
  end.
Ltac quiet := repeat quiet_step.

Section Helpers.
Context {M : Machine} (id : string).

Lemma quiet_setStatus x st : x <> id \/ st <> StatusStopped -> quiet id (setStatus x st).
Proof.
  intros Hx. unfold setStatus. quiet. apply quiet_locked. intros m. split; [done|].
  unfold status_of. simpl. destruct (decide (x = id)) as [->|Hne].
  - rewrite lookup_insert_eq. destruct Hx as [Hx|Hx]; [by destruct Hx|]. by intros ?%Hx.
  - by rewrite lookup_insert_ne.
Qed.

Lemma quiet_log_row x level stream message : quiet id (log_row x level stream message).
Proof.
  unfold log_row. quiet; [by apply quiet_locked|].
  apply quiet_atomically. intros w s. by apply fine_mgr.
Qed.

Lemma quiet_bumpGeneration x : quiet id (bumpGeneration x).
Proof. by apply quiet_locked. Qed.

Lemma quiet_generation x : quiet id (generation x).
Proof. by apply quiet_locked. Qed.

Lemma quiet_setReadiness x p : quiet id (setReadiness x p).
Proof. by apply quiet_locked. Qed.

Lemma quiet_recordRuntime x t : quiet id (recordRuntime x t).
Proof. by apply quiet_locked. Qed.

Lemma quiet_recordLaunchdDeployment dep : quiet id (recordLaunchdDeployment dep).
Proof. by apply quiet_locked. Qed.

#[local] Hint Resolve quiet_log_row quiet_bumpGeneration quiet_generation quiet_setReadiness
  quiet_recordRuntime quiet_recordLaunchdDeployment : quiet.

Lemma quiet_emitLog x level stream message : quiet id (emitLog x level stream message).
Proof. unfold emitLog. quiet. Qed.

#[local] Hint Resolve quiet_emitLog : quiet.

Lemma quiet_emitExitFailure x info : quiet id (emitExitFailure x info).
Proof. unfold emitExitFailure. quiet. Qed.

#[local] Hint Resolve quiet_emitExitFailure : quiet.

Lemma quiet_emitReconcileCorrection x status info :
  quiet id (emitReconcileCorrection x status info).
Proof. unfold emitReconcileCorrection. cbv zeta. quiet. Qed.

(** What a helper has learnt stays true. *)
Lemma helps_bind {A B} (p : prog A) (f : A -> prog B) (P : A -> sys -> Prop) s :
  wf s -> keeps wf mono (strong id) anything p P s ->
  (forall x t, wf t -> P x t -> helps id (f x) t) -> helps id (bind p f) s.
Proof.
  intros Hs Hp Hf. apply keeps_bind; [apply _|done|]. eapply keeps_mono; [apply Hp|].
  intros x t Ht HP. by apply Hf.
Qed.

Lemma learns {A} (f : world -> sys -> A) (P : A -> sys -> Prop) s :
  (forall w t, mono s t -> wf t -> P (f w t) t) ->
  (forall x t u, P x t -> mono t u -> P x u) ->
  keeps wf mono (strong id) anything (reading f) P s.
Proof.
  intros H Hst. apply keeps_atomically. intros w t Hm Ht. split_and!; [done|reflexivity|].
  intros u Hu _. eapply Hst; [|done]. by apply H.
Qed.

Lemma started_kept {A} (p : prog A) r s :
  quiet id p -> wf s -> is_Some (y_groups s !! r) ->
  keeps wf mono (strong id) anything p (fun _ t => is_Some (y_groups t !! r)) s.
Proof.
  intros Hp Hs Hg. eapply (keeps_preserves _ _ _ _ p (fun t => is_Some (y_groups t !! r)));
    [| |by apply Hp|done].
  - intros t u ? ?. by eapply started_mono.
  - by intros t u [? _].
Qed.

(** [ProcessGroupAlive] says no: the group is dead, for good. *)
Lemma learns_dead r s :
  is_Some (y_groups s !! r) ->
  keeps wf mono (strong id) anything (reading (ProcessGroupAlive r))
    (fun alive t => alive = false -> dead r t) s.
Proof.
  intros Hg. apply learns.
  - intros w t Hm Ht Ha. eapply alive_false_dead; [done| |done]. by eapply started_mono.
  - intros x t u H Hm Hx. eapply dead_mono; eauto.
Qed.

(** A section that drops the runner of [x] if its group is dead. *)
Lemma helps_drop {A} x r (f : Manager -> Manager * A) s :
  dead r s ->
  (forall m, (f m).1 = m \/
     (pm_runners m !! x = Some r /\ exists st, (f m).1 = set_status x st (forget_runner x m)) \/
     (pm_runners m !! x = Some r /\ exists st, (f m).1 = set_status x st (forget x m))) ->
  helps id (locked f) s.
Proof.
  intros Hd Hf. apply keeps_atomically. intros _ t Hm Ht. specialize (Hf (y_mgr t)).
  destruct (f (y_mgr t)) as [m' a]. simpl in *.
  split; [by eapply wf_same|]. split; [|done]. split; [by apply mono_same|].
  split; [by left|].
  assert (m' = y_mgr t \/ (pm_runners (y_mgr t) !! x = Some r /\
    pm_runners m' = delete x (pm_runners (y_mgr t)) /\
    exists st, pm_status m' = <[x := st]> (pm_status (y_mgr t)))) as [->|(Hr & Hdel & st & Hst)].
  { destruct Hf as [->|[(Hr & st & ->)|(Hr & st & ->)]]; [by left|right|right]; simpl; eauto. }
  - split; [by left|auto].
  - destruct (decide (x = id)) as [->|Hne].
    + split; [|right]; simpl; rewrite Hdel, lookup_delete_eq; [|eauto].
      right. exists r. split_and!; [done| |done]. by eapply dead_mono.
    + unfold status_of. simpl. rewrite Hdel, Hst, lookup_delete_ne, lookup_insert_ne by done. auto.
Qed.

#[local] Hint Resolve quiet_emitReconcileCorrection : quiet.

Lemma fine_reconcile_alive x r w s : fine id s (reconcile_alive x r w s).1.
Proof.
  unfold reconcile_alive. destruct (tracks _ x r && _) eqn:E; [|apply fine_refl].
  apply andb_prop in E as [_ Hst]. apply negb_true_iff, String.eqb_neq in Hst.
  apply fine_mgr; [done|done| |]; [by destruct (Runner_ExitInfo r s)|].
  assert (forall st, StatusRunning = st -> st = StatusStopped -> False) as Hne by (intros st <-; discriminate).
  intros Hs. destruct (decide (x = id)) as [->|Hx].
  - exfalso. eapply Hne; [|exact Hs].
    destruct (Runner_ExitInfo r s); unfold status_of; simpl; by rewrite lookup_insert_eq.
  - destruct (Runner_ExitInfo r s); unfold status_of in *; simpl in *; by rewrite lookup_insert_ne in Hs.
Qed.

Lemma quiet_Reconcile x : quiet id (Reconcile x).
Proof.
  unfold Reconcile. apply quiet_bind; [by apply quiet_locked|]. intros ([r|] & bg); [|quiet].
  intros s Hs. eapply helps_bind; [done| |].
  { apply (learns _ (fun pgid t => pgid <> 0%Z -> is_Some (y_groups t !! r))).
    - intros w t _ Ht Hp. unfold ProcessGroupID in Hp. rewrite (Ht r) in Hp.
      destruct (y_groups t !! r); [by eexists|done].
    - intros p t u Hp Hm ?. eapply started_mono; eauto. }
  intros pgid t Ht Hp. destruct (Z.eqb_spec pgid 0) as [->|Hne]; [by apply quiet_done|].
  eapply helps_bind; [done|by apply learns_dead, Hp|]. intros alive u Hu Hd.
  destruct alive.
  - revert u Hu Hd. cut (quiet id (let! _ := atomically (reconcile_alive x r) in
      Done (uncorrected x pgid))); [intros Hq u Hu _; by apply Hq|].
    quiet. apply quiet_atomically. intros w v. apply fine_reconcile_alive.
  - specialize (Hd eq_refl). eapply helps_bind; [done| |].
    { apply (learns _ (fun _ v => dead r v)); [intros; by eapply dead_mono|].
      intros _ v v' ? ?. by eapply dead_mono. }
    intros info v Hv Hdv. apply keeps_bind; [apply _|done|]. eapply keeps_mono.
    { apply (helps_drop x r _ v); [done|]. intros m. unfold reconcile_dead, tracks.
      destruct (bool_decide_reflect (pm_runners m !! x = Some r)); simpl; eauto 6. }
    intros status w Hw _. revert w Hw. change (quiet id (match status with
      | None => Done (uncorrected x pgid)
      | Some status => let! _ := emitReconcileCorrection x status info in
          Done (mkReconcile x pgid true status (default ExitInfo_zero info)
                  (bool_decide (is_Some info))) end)). quiet.
Qed.

#[local] Hint Resolve quiet_Reconcile : quiet.

Lemma quiet_runner_ids : quiet id runner_ids.
Proof. apply quiet_reading. Qed.

Lemma quiet_ReconcileAll : quiet id ReconcileAll.
Proof.
  unfold ReconcileAll. apply quiet_bind; [apply quiet_runner_ids|]. intros ids.
  induction ids; cbn [reconcile_each]; quiet.
Qed.

Lemma quiet_handleRunnerExit x r gen info s :
  wf s -> is_Some (y_groups s !! r) -> helps id (handleRunnerExit x r gen info) s.
Proof.
  intros Hs Hg. unfold handleRunnerExit. eapply helps_bind; [done| |].
  { by apply started_kept, Hg; [apply quiet_generation|]. }
  intros now t Ht Hgt. destruct (negb _); [by apply quiet_done|].
  eapply helps_bind; [done|by apply learns_dead|]. intros alive u Hu Hd.
  destruct alive.
  - revert u Hu Hd. cut (quiet id (let! failed := locked (exit_locked x r true info) in
      match failed with Some true => emitExitFailure x info | _ => Done tt end));
      [intros Hq u Hu _; by apply Hq|].
    quiet. apply quiet_locked. intros m. unfold exit_locked. destruct (tracks m x r); [|done].
    simpl. destruct (pm_readiness m !! x); [done|]. split; [done|]. unfold status_of. simpl.
    destruct (decide (x = id)) as [->|Hne]; [by rewrite lookup_insert_eq|by rewrite lookup_insert_ne].
  - apply keeps_bind; [apply _|done|]. eapply keeps_mono.
    { apply (helps_drop x r _ u); [by apply Hd|]. intros m. unfold exit_locked, tracks.
      destruct (bool_decide_reflect (pm_runners m !! x = Some r)); simpl; [|by left].
      right. right. split; [done|]. eauto. }
    intros failed v Hv _. revert v Hv. change (quiet id (match failed with
      | Some true => emitExitFailure x info | _ => Done tt end)). quiet.
Qed.

Lemma quiet_wait_process x r gen : quiet id (wait_process x r gen).
Proof.
  intros s Hs. unfold wait_process. eapply helps_bind; [done| |].
  { instantiate (1 := fun _ t => is_Some (y_groups t !! r)).
    apply keeps_await; [reflexivity|]. intros t result _ _ Hr u Hm _.
    eapply started_mono; [done|]. by destruct (y_groups t !! r). }
  intros result t Ht Hg. eapply helps_bind; [done|by apply started_kept, Hg; [apply quiet_reading|]|].
  intros lines u Hu Hgu. cbv zeta. eapply helps_bind; [done| |].
  { apply started_kept, Hgu; [|done]. apply quiet_atomically. intros w v. by apply fine_with_runner. }
  intros ? v Hv Hgv. by apply quiet_handleRunnerExit.
Qed.

Lemma quiet_body g : quiet id (body g).
Proof.
  destruct g as [x r gen|x r stream lines|x gen probe]; simpl.
  - apply quiet_wait_process.
  - apply quiet_each. intros line. unfold scan_line. quiet.
    apply quiet_atomically. intros w s. by apply fine_with_runner.
  - unfold awaitReadiness. quiet; try (by apply quiet_locked); by apply quiet_setStatus; right.
Qed.

(** *** Starting and stopping other deployments *)

Lemma fine_kill_group w pgid s : fine id s (kill_group w pgid s).
Proof.
  assert (forall r g, y_groups s !! r = Some g ->
    exists g', y_groups (kill_group w pgid s) !! r = Some g' /\ group_step g g') as HG.
  { intros r g Hg. unfold kill_group. simpl. rewrite lookup_fmap, Hg. simpl. eexists. split; [done|].
    unfold send_kill. by repeat case_match; repeat split. }
  split; [|split; [by split|]].
  - intros Hs r. unfold kill_group, group_of. simpl. rewrite lookup_fmap.
    change (match y_runners s !! r with Some x => rn_group x | None => None end) with (group_of r s).
    rewrite (Hs r). destruct (y_groups s !! r); simpl; [|done]. unfold send_kill. by repeat case_match.
  - repeat split; [|by left|auto]. intros r. unfold kill_group. simpl. rewrite lookup_fmap, fmap_is_Some.
    by left.
Qed.

Lemma quiet_Runner_Stop r : quiet id (Runner_Stop r).
Proof.
  unfold Runner_Stop. quiet. apply quiet_atomically. intros w s. apply fine_kill_group.
Qed.

Lemma fine_new_runner spec x w s : fine id s (new_runner spec x w s).1.
Proof.
  unfold new_runner. simpl. split; [|split].
  - intros Hs r. specialize (Hs r). unfold group_of in *. simpl.
    destruct (decide (r = length (y_runners s))) as [->|Hne].
    + rewrite lookup_app_r, Nat.sub_diag by done. simpl.
      by rewrite (lookup_ge_None_2 (y_runners s)) in Hs by done.
    + rewrite <-Hs. destruct (decide (r < length (y_runners s))) as [Hlt|Hge].
      * by rewrite lookup_app_l.
      * rewrite !lookup_ge_None_2; [done|lia|rewrite length_app; simpl; lia].
  - apply mono_same; [done|]. unfold owned. simpl. intros r y Hr.
    destruct (y_runners s !! r) eqn:E; [|done]. by rewrite (lookup_app_l_Some _ _ _ _ E).
  - repeat split; auto.
Qed.

(** The first section of [Start]: it starts the processes of [r], or fails, unless [r] has
    been started before. *)
Lemma Start_locked_cases r w s :
  (fine id s (Start_locked r w s).1 /\
   (owned id r s -> y_groups s !! r = None -> is_Some (Start_locked r w s).2.1)) \/
  (exists pid, y_groups s !! r = None /\ is_Some (y_runners s !! r) /\
     (Start_locked r w s).1 = mkSys (y_mgr s) (alter (set_started pid) r (y_runners s))
       (<[r := mkGroup pid true false false None]> (y_groups s)) (y_out s) /\
     (Start_locked r w s).2.1 = None).
Proof.
  unfold Start_locked, owned.
  destruct (y_runners s !! r) as [runner|] eqn:E; [|left; split; [apply fine_refl|done]].
  destruct (before_start _ _) as [[err evidence]|].
  { left. destruct evidence; simpl; (split; [|eauto]); [by apply fine_with_runner|apply fine_refl]. }
  destruct (st_spawn _) as [pid|err].
  - destruct (y_groups s !! r) eqn:Eg; [left; split; [apply fine_refl|done]|].
    right. exists pid. simpl. eauto.
  - left. split; [by apply fine_with_runner|]. simpl. eauto.
Qed.

(** A group has started: the state before and after it. *)
Lemma started_step s r pid :
  let t := mkSys (y_mgr s) (alter (set_started pid) r (y_runners s))
             (<[r := mkGroup pid true false false None]> (y_groups s)) (y_out s) in
  y_groups s !! r = None -> is_Some (y_runners s !! r) -> (wf s -> wf t) /\ mono s t.
Proof.
  intros t Hg [x Hx]. split.
  - intros Hs r'. specialize (Hs r'). unfold group_of in *. simpl.
    destruct (decide (r = r')) as [<-|Hne].
    + by rewrite list_lookup_alter_eq, Hx, lookup_insert_eq.
    + by rewrite list_lookup_alter_ne, lookup_insert_ne.
  - split.
    + intros r' y Hr. unfold owned in *. simpl. destruct (decide (r = r')) as [<-|Hne].
      * rewrite list_lookup_alter_eq, Hx. by rewrite Hx in Hr.
      * by rewrite list_lookup_alter_ne.
    + intros r' g Hr. exists g. split; [|done]. simpl. rewrite lookup_insert_ne; [done|congruence].
Qed.

Lemma quiet_Runner_Start x r gen s :
  x <> id -> wf s -> owned x r s -> helps id (Runner_Start x r gen) s.
Proof.
  intros Hx Hs Ho. unfold Runner_Start. apply keeps_bind; [apply _|done|].
  eapply (keeps_mono _ _ _ _ _ (fun _ _ => True)); [|intros res t Ht _; revert t Ht; change (quiet id (let (err, p) := res in
    let (stdout, stderr) := p in match err with
    | Some e => Done (Some e)
    | None => let! _ := go (GScan x r "stdout" stdout) in
              let! _ := go (GScan x r "stderr" stderr) in
              let! _ := go (GWait x r gen) in Done None
    end)); quiet].
  apply keeps_atomically. intros w t Hm Ht.
  destruct (Start_locked_cases r w t) as [((Hwf & Hst) & _)|(pid & Hg & Hr & Heq & _)];
    destruct (Start_locked r w t) as [u y]; simpl in *; [by split_and!; auto|].
  destruct (started_step t r pid Hg Hr) as (Hwf & Hmo). rewrite <-Heq in *.
  split; [by apply Hwf|]. split; [|done]. split; [done|].
  assert (y_mgr u = y_mgr t) as Em by (by rewrite Heq). unfold calm. rewrite Em.
  split_and!; [|by left|by left]. intros r' Hr'. destruct (decide (r' = r)) as [->|Hne].
  - right. exists x. split; [|done]. apply Hmo. by apply Hm.
  - left. rewrite Heq in Hr'. simpl in Hr'. by rewrite lookup_insert_ne in Hr'.
Qed.

Lemma fine_start_check x w s : x <> id -> fine id s (start_check x w s).1.
Proof.
  intros Hx. unfold start_check. destruct (_ =? _); [apply fine_refl|].
  destruct (pm_runners _ !! x) as [old|]; [|apply fine_refl].
  destruct (ProcessGroupAlive old w s); [apply fine_refl|].
  apply fine_mgr; [done|done| |done]. simpl. by rewrite lookup_delete_ne.
Qed.

Lemma quiet_emitStartFailure x info : quiet id (emitStartFailure x info).
Proof. unfold emitStartFailure. quiet. Qed.

#[local] Hint Resolve quiet_emitStartFailure : quiet.

Lemma quiet_startByID x spec : x <> id -> quiet id (startByID x spec).
Proof.
  intros Hx. unfold startByID. apply quiet_if; [quiet|]. apply quiet_bind; [apply quiet_Reconcile|].
  intros _. apply quiet_bind.
  { apply quiet_atomically. intros w s. by apply fine_start_check. }
  intros skip. apply quiet_if; [quiet|].
  apply quiet_bind; [apply quiet_setStatus; by left|]. intros _. apply quiet_bind; [quiet|].
  intros gen s Hs. eapply helps_bind; [done| |].
  { instantiate (1 := fun r t => owned x r t). apply keeps_atomically. intros w t _ Ht.
    destruct (fine_new_runner spec x w t) as (Hwf & Hst).
    split; [by apply Hwf|]. split; [done|]. intros u [Hu _] _. apply Hu.
    unfold owned. simpl. by rewrite lookup_app_r, Nat.sub_diag. }
  intros r t Ht Ho. eapply helps_bind; [done| |].
  { apply (keeps_preserves _ _ _ _ _ (fun u => owned x r u) (fun _ _ => True)).
    - intros u v Hu [Hv _]. by apply Hv.
    - by intros u v [? _].
    - eapply quiet_locked; [|done]. intros m. simpl. by rewrite lookup_insert_ne.
    - done. }
  intros ? u Hu Hou. apply keeps_bind; [apply _|done|]. eapply keeps_mono; [by apply quiet_Runner_Start|].
  intros err v Hv _. revert v Hv. destruct err as [err|].
  - change (quiet id (let! evidence := reading (fun _ => Runner_ExitInfo r) in
      let! _ := locked (start_failure x r) in
      let! _ := emitStartFailure x
        (default (mkExitInfo ExitReasonStartFailed (-1) false "" err []) evidence) in
      Done (Some (StartError err)))). quiet.
    apply quiet_locked. intros m. unfold start_failure, tracks.
    destruct (bool_decide _); simpl; [|done]. unfold status_of. simpl.
    by rewrite lookup_delete_ne, lookup_insert_ne.
  - change (quiet id (let! alive := reading (ProcessGroupAlive r) in
      if alive : bool then
        let! probe := locked (fun m => (m, pm_readiness m !! x)) in
        let! _ := match probe with
                  | None => setStatus x StatusRunning
                  | Some probe => go (GReadiness x gen probe)
                  end in
        Done None
      else Done (None : option start_error))). quiet; [by apply quiet_locked|].
    apply quiet_setStatus. by left.
Qed.

Lemma quiet_stop_runner x : x <> id -> quiet id (stop_runner x).
Proof.
  intros Hx. unfold stop_runner. quiet.
  - apply quiet_locked. intros m. simpl. by rewrite lookup_delete_ne.
  - apply quiet_Runner_Stop.
  - apply quiet_setStatus. by left.
Qed.

Lemma quiet_runLaunchdCommand cmd : quiet id (runLaunchdCommand cmd).
Proof. apply quiet_atomically. intros w s. by apply fine_mgr. Qed.

Lemma quiet_runLaunchdStart dep : quiet id (runLaunchdStart dep).
Proof.
  unfold runLaunchdStart. quiet. generalize dependent p. generalize dependent l.
  induction l; intros; cbn [run_bootstrap]; quiet; auto using quiet_runLaunchdCommand.
Qed.

Lemma quiet_runLaunchdStop dep : quiet id (runLaunchdStop dep).
Proof. unfold runLaunchdStop. quiet. apply quiet_runLaunchdCommand. Qed.

(** ** Operations on [id] *)

(** An assertion that the environment of an operation respects. *)
Definition stable (P : sys -> Prop) : Prop := forall s t, P s -> strong id s t -> wf t -> P t.

Abbreviation does p Q s := (keeps wf (strong id) mono anything p Q s).

Lemma does_bind {A B} (p : prog A) (f : A -> prog B) (P : A -> sys -> Prop) Q s :
  wf s -> does p P s -> (forall x t, wf t -> P x t -> does (f x) Q t) -> does (bind p f) Q s.
Proof.
  intros Hs Hp Hf. apply keeps_bind; [apply _|done|]. eapply keeps_mono; [apply Hp|].
  intros x t Ht HP. by apply Hf.
Qed.

Lemma does_done {A} (x : A) (Q : A -> sys -> Prop) s : stable (Q x) -> Q x s -> does (Done x : prog A) Q s.
Proof. intros HQ Hs t Ht Hwf. by eapply HQ. Qed.

Lemma does_quiet {A} (p : prog A) (P : sys -> Prop) s :
  stable P -> quiet id p -> wf s -> P s -> does p (fun _ => P) s.
Proof.
  intros HP Hp Hs HPs. eapply keeps_helper; [by intros t u [? _]|exact HP|by apply Hp|done].
Qed.

Lemma does_atomically {A} (f : world -> sys -> sys * A) (P : sys -> Prop) (Q : A -> sys -> Prop) s :
  stable P -> (forall x, stable (Q x)) -> P s ->
  (forall w t, wf t -> P t -> wf (f w t).1 /\ mono t (f w t).1 /\ Q (f w t).2 (f w t).1) ->
  does (atomically f) Q s.
Proof.
  intros HP HQ Hs H. apply keeps_atomically. intros w t Ht Hwf.
  destruct (H w t) as (H1 & H2 & H3); [done|by eapply HP|]. destruct (f w t) as [u x]. simpl in *.
  split_and!; [done|done|]. intros v Hv Hwfv. by eapply HQ.
Qed.

(** A section that leaves runners and groups alone. *)
Lemma does_locked {A} (f : Manager -> Manager * A) (P : sys -> Prop) (Q : A -> sys -> Prop) s :
  stable P -> (forall x, stable (Q x)) -> P s ->
  (forall t, wf t -> P t -> Q (f (y_mgr t)).2 (with_mgr (f (y_mgr t)).1 t)) ->
  does (locked f) Q s.
Proof.
  intros HP HQ Hs H. eapply does_atomically; [exact HP|done|done|]. intros _ t Ht HPt.
  specialize (H t Ht HPt). destruct (f (y_mgr t)) as [m x]. simpl in *.
  split_and!; [by eapply wf_same|by apply mono_same|done].
Qed.

Lemma settled_stable : stable (settled id). Proof. intros s t. apply settled_strong. Qed.
Lemma clear_stable : stable (clear id). Proof. intros s t. apply clear_strong. Qed.
Lemma clear_starting_stable : stable (clear_starting id).
Proof. intros s t. apply clear_starting_strong. Qed.
Lemma in_hand_stable r : stable (in_hand id r). Proof. intros s t. apply in_hand_strong. Qed.
Lemma entered_stable r : stable (entered id r). Proof. intros s t. apply entered_strong. Qed.
#[local] Hint Resolve settled_stable clear_stable clear_starting_stable in_hand_stable
  entered_stable : quiet.

(** *** Stop *)

Lemma op_kill r s : in_hand id (Some r) s -> does (Runner_Stop r) (fun _ => clear id) s.
Proof.
  intros Hs. unfold Runner_Stop.
  eapply (does_bind _ _ (fun group t => match group with
    | None => clear id t
    | Some pgid => in_hand id (Some r) t /\ exists g, y_groups t !! r = Some g /\ g_pgid g = pgid
    end)); [apply Hs| |].
  - eapply does_atomically; [apply (in_hand_stable (Some r))| |done|].
    + intros [pgid|]; [|apply clear_stable]. intros t u (Ht & g & Hg & Hp) Hu Hwf.
      split; [by eapply in_hand_strong|]. destruct Hu as ((_ & HG) & _).
      destruct (HG _ _ Hg) as (g' & ? & ? & _). exists g'. split; [done|]. congruence.
    + intros _ t Ht (Hwf & Hn & Hl). simpl. split_and!; [done|reflexivity|]. rewrite (Ht r).
      destruct (y_groups t !! r) as [g|] eqn:Hg; simpl; [by split; [split_and!|eauto]|].
      split; [|done]. split; [done|]. intros r' Ho Hlive. specialize (Hl r' Ho Hlive). simplify_eq.
      destruct Hlive as (g & ? & _). congruence.
  - intros [pgid|] t Ht HP; [|apply does_done; [apply clear_stable|done]].
    eapply (does_atomically _ (fun t => in_hand id (Some r) t /\ exists g, y_groups t !! r = Some g /\
      g_pgid g = pgid)); [| |done|].
    + intros u v (Hu & g & Hg & Hp) Hv Hwf. split; [by eapply in_hand_strong|].
      destruct Hv as ((_ & HG) & _). destruct (HG _ _ Hg) as (g' & ? & ? & _). exists g'.
      split; [done|]. congruence.
    + intros _. apply clear_stable.
    + intros w u Hu ((_ & Hn & Hl) & g & Hg & Hp). destruct (fine_kill_group w pgid u) as (Hwf & Hm & Hc).
      simpl. split_and!; [by apply Hwf|done|]. split; [|done]. split; [by apply Hwf|].
      intros r' Ho Hlive. destruct (live_back id u _ r' Hu Hm Hc Ho Hlive) as (Ho' & Hl').
      specialize (Hl r' Ho' Hl'). simplify_eq. destruct Hlive as (g' & Hg' & Ha & Hsig & Href).
      unfold kill_group, send_kill in Hg'. simpl in Hg'. rewrite lookup_fmap, Hg in Hg'. simpl in Hg'.
      rewrite Z.eqb_refl in Hg'. simpl in Hg'. destruct (g_alive g) eqn:E; [destruct (w_noperm w (g_pgid g))|]; simplify_eq/=; congruence.
Qed.

Lemma op_setStatus st (P Q : sys -> Prop) s :
  stable P -> stable Q -> wf s -> P s ->
  (forall t, wf t -> P t -> Q (with_mgr (set_status id st (y_mgr t)) t)) ->
  does (setStatus id st) (fun _ => Q) s.
Proof.
  intros HP HQ Hwf Hs H. unfold setStatus. eapply (does_bind _ _ (fun _ => Q)); [done| |].
  - by apply (does_locked _ P).
  - intros [cb prev] t Ht HQt. apply does_quiet; [done| |done|done]. quiet.
Qed.

Lemma op_stop_runner s : settled id s -> does (stop_runner id) (fun _ => settled id) s.
Proof.
  intros Hs. unfold stop_runner. assert (wf s) as Hwf by apply Hs.
  eapply (does_bind _ _ (fun _ => settled id)); [done|apply does_quiet; eauto with quiet|].
  intros _ t Ht Hst.
  eapply (does_bind _ _ (fun ro => in_hand id ro)); [done| |].
  { eapply does_locked; [apply settled_stable| |done|]; [eauto with quiet|].
    intros u Hu (_ & Hl & _). simpl. split_and!; [by eapply wf_same| |].
    - simpl. by rewrite lookup_delete_eq.
    - intros r Ho Hlive. by apply Hl. }
  intros ro u Hu Hin. eapply (does_bind _ _ (fun _ => clear id)); [done| |].
  { destruct ro as [r|]; [by apply op_kill|]. apply does_done; [apply clear_stable|].
    destruct Hin as (_ & Hn & Hl). split; [|done]. split; [done|]. intros r Ho Hlive.
    by specialize (Hl r Ho Hlive). }
  intros _ v Hv Hc. eapply op_setStatus; [apply clear_stable|apply settled_stable|done|done|].
  intros z Hz ((? & Hz') & Hn). apply clear_settled. split; [|done]. split; [by eapply wf_same|].
  intros r Ho Hlive. by destruct (Hz' r).
Qed.

(** *** Start *)

(** The new runner exists; nobody else knows it. *)
Definition fresh (r : nat) (s : sys) : Prop :=
  clear_starting id s /\ owned id r s /\ y_groups s !! r = None.

Lemma fresh_stable r : stable (fresh r).
Proof.
  intros s t (Hc & Ho & Hg) Ht Hwf. split; [by eapply clear_starting_strong|].
  destruct Ht as (Hm & HA & _). assert (owned id r t) as Ho' by (by apply Hm). split; [done|].
  apply eq_None_not_Some. intros [Hsome|(x & Hx & Hne)]%HA.
  - rewrite Hg in Hsome. by destruct Hsome.
  - by destruct Hne; eapply owned_unique.
Qed.
#[local] Hint Resolve fresh_stable : quiet.

Lemma check_settled w s :
  settled id s ->
  if (start_check id w s).2 then settled id (start_check id w s).1 else clear id (start_check id w s).1.
Proof.
  intros (Hs & Hl & Hr). unfold start_check. destruct (_ =? _); [done|].
  destruct (pm_runners (y_mgr s) !! id) as [old|] eqn:E; simpl.
  - destruct (ProcessGroupAlive old w s) eqn:Ea; simpl; [by split_and!; rewrite ?E|].
    destruct (Hr old eq_refl) as (_ & Hg). pose proof (alive_false_dead _ _ _ Hs Hg Ea) as Hd.
    split; [|simpl; by rewrite lookup_delete_eq]. split; [by eapply wf_same|].
    intros r Ho Hlive. specialize (Hl r Ho Hlive). simplify_eq. by destruct (live_not_dead r s).
  - split; [|done]. split; [done|]. intros r Ho Hlive. by specialize (Hl r Ho Hlive).
Qed.

Lemma op_Runner_Start r gen s :
  entered id r s ->
  does (Runner_Start id r gen)
    (fun err t => match err with Some _ => entered id r t | None => settled id t end) s.
Proof.
  intros Hs. assert (wf s) as Hwf by apply Hs. unfold Runner_Start.
  eapply (does_bind _ _ (fun res t => match res.1 with
    | Some _ => entered id r t | None => settled id t end)); [done| |].
  - eapply (does_atomically _ (entered id r)); [apply entered_stable| |done|].
    { intros [[err|] ?]; [apply entered_stable|apply settled_stable]. }
    intros w t Ht He. destruct (Start_locked_cases r w t) as [((Hwf' & Hst) & Herr)|(pid & Hg & Hr & Heq & Hn)];
      destruct (Start_locked r w t) as [u res]; simpl in *.
    + split_and!; [by apply Hwf'|apply Hst|].
      destruct Herr as [err ->]; [apply He..|]. eapply entered_strong; [done|done|by apply Hwf'].
    + destruct (started_step t r pid Hg Hr) as (Hwf' & Hmo). rewrite <-Heq in *.
      split_and!; [by apply Hwf'|done|]. rewrite Hn.
      destruct He as ((_ & Hl) & Ho & _ & Hrun & Hst). rewrite Heq in *. clear Heq.
      split_and!; [by apply Hwf'| |].
      * intros r' Ho' (g & Hgr & Ha & Hsig). simpl. destruct (decide (r' = r)) as [->|Hne]; [done|].
        exfalso. apply (Hl r').
        -- unfold owned in *. simpl in Ho'. by rewrite list_lookup_alter_ne in Ho'.
        -- simpl in Hgr. rewrite lookup_insert_ne in Hgr by done. by exists g.
      * simpl. intros r' Hr'. split; [done|]. assert (r' = r) as -> by congruence.
        rewrite lookup_insert_eq. by eexists.
  - intros [[err|] [stdout stderr]] t Ht HP; simpl in HP.
    + by apply does_done; [apply entered_stable|].
    + eapply does_bind; [done|apply (does_quiet _ (settled id)); eauto with quiet|]. intros ? u Hu HPu.
      eapply does_bind; [done|apply (does_quiet _ (settled id)); eauto with quiet|]. intros ? v Hv HPv.
      eapply does_bind; [done|apply (does_quiet _ (settled id)); eauto with quiet|]. intros ? z Hz HPz.
      by apply does_done; [apply settled_stable|].
Qed.

Lemma op_startByID spec s :
  settled id s -> does (startByID id spec) (fun _ => settled id) s.
Proof.
  intros Hs. assert (wf s) as Hwf by apply Hs. unfold startByID.
  destruct (_ && _); [by apply does_done; [apply settled_stable|]|].
  eapply (does_bind _ _ (fun _ => settled id)); [done|apply does_quiet; eauto with quiet|].
  intros _ t Ht HPt.
  eapply (does_bind _ _ (fun skip u => if skip : bool then settled id u else clear id u)); [done| |].
  { eapply (does_atomically _ (settled id)); [apply settled_stable| |done|].
    - intros []; [apply settled_stable|apply clear_stable].
    - intros w u Hu HPu. pose proof (check_settled w u HPu) as Hc.
      unfold start_check in *. destruct (_ =? _); [by split_and!; try reflexivity|].
      destruct (pm_runners _ !! id); [|by split_and!; try reflexivity].
      destruct (ProcessGroupAlive _ w u); [by split_and!; try reflexivity|].
      split_and!; [by eapply wf_same|by apply mono_same|done]. }
  intros skip u Hu HPu. destruct skip; [by apply does_done; [apply settled_stable|]|].
  eapply (does_bind _ _ (fun _ => clear_starting id)); [done| |].
  { eapply op_setStatus; [apply clear_stable|apply clear_starting_stable|done|done|].
    intros v Hv ((? & Hl) & Hn). split; [split; [|done]; split; [by eapply wf_same|done]|].
    unfold status_of. simpl. by rewrite lookup_insert_eq. }
  intros _ v Hv HPv. eapply (does_bind _ _ (fun _ => clear_starting id)); [done| |].
  { apply does_quiet; eauto with quiet. }
  intros gen v' Hv' HPv'. eapply (does_bind _ _ (fun r => fresh r)); [done| |].
  { eapply (does_atomically _ (clear_starting id)); [eauto with quiet..|done|].
    intros w x Hx HPx. destruct (fine_new_runner spec id w x) as (Hwfx & Hst).
    split_and!; [by apply Hwfx|apply Hst|]. split_and!.
    - eapply clear_starting_strong; [done|done|by apply Hwfx].
    - unfold owned. simpl. by rewrite lookup_app_r, Nat.sub_diag.
    - simpl. specialize (Hx (length (y_runners x))). unfold group_of in Hx.
      rewrite lookup_ge_None_2 in Hx by done. by destruct (y_groups x !! _). }
  intros r y Hy HPy. eapply (does_bind _ _ (fun _ => entered id r)); [done| |].
  { eapply (does_locked _ (fresh r)); [eauto with quiet..|done|].
    intros z Hz ((((_ & Hl) & Hn) & Hst) & Ho & Hg). split_and!; [|done|done| |done].
    - split; [by eapply wf_same|done].
    - simpl. by rewrite lookup_insert_eq. }
  intros _ z Hz HPz. eapply does_bind; [done|by apply op_Runner_Start|].
  intros [err|] z' Hz' HPz'.
  - eapply (does_bind _ _ (fun _ => entered id r)); [done|by apply does_quiet; eauto with quiet|].
    intros evidence a Ha HPa. cbv zeta. eapply (does_bind _ _ (fun _ => settled id)); [done| |].
    { eapply (does_locked _ (entered id r)); [eauto with quiet..|done|].
      intros b Hb ((_ & Hl) & Ho & Hg & Hr & Hst). apply clear_settled.
      unfold start_failure, tracks. rewrite bool_decide_true by done.
      split; [split; [by eapply wf_same|done]|]. simpl. by rewrite lookup_delete_eq. }
    intros _ b Hb HPb. apply does_quiet; eauto with quiet. quiet.
  - apply does_quiet; [apply settled_stable| |done|done]. quiet; [by apply quiet_locked|].
    apply quiet_setStatus. by right.
Qed.

(** *** The methods built on these two *)

Definition good {A} (p : prog A) : Prop :=
  forall s, wf s -> settled id s -> does p (fun _ => settled id) s.

Lemma good_quiet {A} (p : prog A) : quiet id p -> good p.
Proof. intros Hp s Hs Hset. by apply does_quiet; [apply settled_stable|..]. Qed.

Lemma good_bind {A B} (p : prog A) (f : A -> prog B) :
  good p -> (forall x, good (f x)) -> good (bind p f).
Proof.
  intros Hp Hf s Hs Hset. eapply (does_bind _ _ (fun _ => settled id)); [done|by apply Hp|].
  intros x t Ht HPt. by apply Hf.
Qed.

(** A property of programs that starts and stops of [x] have, and with them all methods that
    concern [x]. *)
Section Methods.
Context (x : string) (K : forall A, prog A -> Prop).
Arguments K {A} _.
Hypothesis K_quiet : forall A (p : prog A), quiet id p -> K p.
Hypothesis K_bind : forall A B (p : prog A) (f : A -> prog B), K p -> (forall y, K (f y)) -> K (bind p f).
Hypothesis K_start : forall spec, K (startByID x spec).
Hypothesis K_stop : K (stop_runner x).

Ltac methods :=
  repeat match goal with
  | |- K (bind _ _) => apply K_bind
  | |- forall _, _ => intros ?
  | |- K (if ?b then _ else _) => destruct b
  | |- K (match ?y with _ => _ end) => destruct y
  | |- K _ => first [apply K_start | apply K_stop
              | apply K_quiet; first [apply quiet_runLaunchdStart | apply quiet_runLaunchdStop
                | apply quiet_setStatus; by right | by apply quiet_locked | solve [auto with quiet]]]
  end.

Lemma K_startLaunchdDeployment dep : dep_ID dep = x -> K (startLaunchdDeployment dep).
Proof. intros E. unfold startLaunchdDeployment. cbv zeta. rewrite E. methods. Qed.

Lemma K_StartDeployment dep : dep_ID dep = x -> K (StartDeployment dep).
Proof.
  intros E. unfold StartDeployment. destruct (IsReadOnly dep); [methods|]. apply K_bind; [methods|].
  intros _. destruct (bool_decide _); [by apply K_startLaunchdDeployment|]. rewrite E. methods.
Qed.

Lemma K_StartDeploymentSpec dep spec : dep_ID dep = x -> K (StartDeploymentSpec dep spec).
Proof. intros E. unfold StartDeploymentSpec. rewrite E. methods. Qed.

Lemma K_StartProcess spec : K (StartProcess x spec).
Proof. unfold StartProcess. methods. Qed.

Lemma K_StopDeployment : K (StopDeployment x).
Proof. unfold StopDeployment, Stop. methods. Qed.

Lemma K_RestartDeployment dep : dep_ID dep = x -> K (RestartDeployment dep).
Proof.
  intros E. unfold RestartDeployment. rewrite E. apply K_bind; [apply K_StopDeployment|].
  intros _. by apply K_StartDeployment.
Qed.

Lemma K_ignore {A} (p : prog A) : K p -> K (ignore p).
Proof. intros Hp. unfold ignore. methods. done. Qed.
End Methods.

Lemma quiet_serve q : concerns id q = false -> quiet id (serve q).
Proof.
  assert (forall x, (x =? id) = false -> x <> id) as Hne by (by intros x ?%String.eqb_neq).
  destruct q as [dep|dep spec|x spec|x|x|dep| |x| |runID|cb]; simpl; intros Hq.
  - apply quiet_ignore, (K_StartDeployment (dep_ID dep)); eauto using quiet_bind, quiet_startByID.
  - apply quiet_ignore, (K_StartDeploymentSpec (dep_ID dep)); eauto using quiet_bind, quiet_startByID.
  - apply quiet_ignore, K_StartProcess; eauto using quiet_bind, quiet_startByID.
  - apply quiet_stop_runner. auto.
  - apply K_StopDeployment; eauto using quiet_bind, quiet_stop_runner.
  - apply quiet_ignore, (K_RestartDeployment (dep_ID dep));
      eauto using quiet_bind, quiet_startByID, quiet_stop_runner.
  - done.
  - quiet.
  - apply quiet_ignore, quiet_ReconcileAll.
  - by apply quiet_locked.
  - by apply quiet_locked.
Qed.

Lemma good_Stop x : good (Stop x).
Proof.
  destruct (decide (x = id)) as [->|Hne]; [intros s _; apply op_stop_runner|].
  by apply good_quiet, quiet_stop_runner.
Qed.

Lemma good_serve q : concerns id q = true -> good (serve q).
Proof.
  assert (forall spec, good (startByID id spec)) as Hstart by (intros spec s _; apply op_startByID).
  assert (good (stop_runner id)) as Hstop by apply good_Stop.
  assert (forall A (p : prog A), good p -> good (ignore p)) as Hig.
  { intros A p Hp. by apply (K_ignore (@good)); eauto using good_quiet, good_bind. }
  destruct q as [dep|dep spec|x spec|x|x|dep| |x| |runID|cb]; simpl; try done; intros Hq;
    try apply String.eqb_eq in Hq as E.
  - apply Hig, (K_StartDeployment id); eauto using good_quiet, good_bind.
  - apply Hig, (K_StartDeploymentSpec id); eauto using good_quiet, good_bind.
  - subst x. apply Hig, K_StartProcess; eauto using good_quiet, good_bind.
  - apply good_Stop.
  - subst x. apply K_StopDeployment; eauto using good_quiet, good_bind.
  - apply Hig, (K_RestartDeployment id); eauto using good_quiet, good_bind.
  - unfold StopAll. apply good_bind; [apply good_quiet, quiet_runner_ids|]. intros ids.
    induction ids as [|y ids IH]; cbn [each]; [by apply good_quiet, quiet_done|].
    apply good_bind; [apply good_Stop|]. intros _. exact IH.
Qed.
End Helpers.

(** ** The theorem *)

Section Runs.
Context {M : Machine} (id : string).

(** What happens to processes by themselves. *)
Lemma fine_change_group r f s :
  (forall g g', f g = Some g' -> group_step g g') -> fine id s (change_group r f s).
Proof.
  intros Hf. unfold change_group. destruct (y_groups s !! r) as [g|] eqn:Hg;
    [destruct (f g) as [g'|] eqn:Hf'|];
    try (apply fine_mgr; done).
  specialize (Hf g g' Hf').
  assert (forall r0 h, y_groups s !! r0 = Some h ->
    exists h', <[r := g']> (y_groups s) !! r0 = Some h' /\ group_step h h') as HG.
  { intros r0 h Hh. destruct (decide (r = r0)) as [<-|Hne].
    - rewrite lookup_insert_eq. simplify_eq. eauto.
    - rewrite lookup_insert_ne by done. exists h. by split. }
  split; [|split; [by split|]].
  - intros Hs r0. specialize (Hs r0). unfold group_of in *. simpl. rewrite Hs.
    destruct (decide (r = r0)) as [<-|Hne]; [|by rewrite lookup_insert_ne].
    rewrite lookup_insert_eq, Hg. simpl. f_equal. symmetry. apply Hf.
  - repeat split; [|by left|auto]. intros r0. simpl. left.
    destruct (decide (r = r0)) as [<-|Hne]; [by eexists|]. by rewrite lookup_insert_ne in *.
Qed.

Definition run_inv : @config sys world goroutine -> Prop :=
  inv wf mono (strong id) (settled id) anything.

Lemma tick_inv t c :
  run_inv c -> match t with Request q => negb (concerns id q) || idle c | _ => true end = true ->
  run_inv (tick_step id t c).
Proof.
  intros Hc Hok. destruct c as [s ths]. destruct t as [q|i w|r result|r]; simpl in *.
  - assert (wf s) as Hs by (by destruct Hc). destruct (concerns id q) eqn:E; simpl in Hok.
    + apply inv_begin_op; [exact Hc|exact Hok|]. intros Hset. by apply good_serve.
    + apply inv_begin_helper; [exact Hc|]. by apply quiet_serve.
  - apply advance_inv; [apply _|apply _|by intros ? ? [? _]|..|exact Hc].
    + intros t u ? ? ?. by eapply settled_strong.
    + intros g t Ht. by apply quiet_body.
  - destruct (fine_change_group r (reap result) s) as (Hwf & Hst).
    { intros g g' Hg. unfold reap in Hg. destruct (g_leader g); simplify_eq. by repeat split. }
    eapply inv_outside; [apply _|apply _|by intros ? ? [? _]|..|exact Hc|exact Hst|].
    2: by apply Hwf; destruct Hc.
    intros t u ? ? ?. by eapply settled_strong.
  - destruct (fine_change_group r end_group s) as (Hwf & Hst).
    { intros g g' Hg. unfold end_group in Hg. destruct (g_leader g); simplify_eq. by repeat split. }
    eapply inv_outside; [apply _|apply _|by intros ? ? [? _]|..|exact Hc|exact Hst|].
    2: by apply Hwf; destruct Hc.
    intros t u ? ? ?. by eapply settled_strong.
Qed.

Lemma run_ticks_inv ticks c :
  run_inv c -> one_at_a_time id ticks c = true -> run_inv (run_ticks id ticks c).
Proof.
  unfold run_ticks. revert c. induction ticks as [|t ticks IH]; simpl; intros c Hc Hok; [done|].
  apply andb_prop in Hok as [Ht Hok]. apply IH; [by apply tick_inv|done].
Qed.

Lemma nothing_started_inv : run_inv initial.
Proof.
  split_and!; simpl; [done|done|by intros i j t u Hi|]. intros _. by split_and!.
Qed.

(** C35: what is stopped is stopped: if the requests to start and stop a deployment come one at a
    time, then in every state in which none of them is under way, however exits, reconciliations,
    readiness probes and the requests for other deployments have been interleaved, a process
    group of the deployment that is alive, was not sent SIGKILL, and for which the kernel has
    not refused it, belongs to the runner that the manager tracks, and the deployment is not
    reported as stopped.  A group whose signal the kernel refused (EPERM) is left out because
    there the code fails: [Stop] drops the error with the runner and reports "stopped"
    ([refused_kill_forgotten]). *)
Theorem stopped_means_stopped ticks :
  one_at_a_time id ticks initial = true ->
  let c := run_ticks id ticks initial in
  idle c = true ->
  forall r runner g, y_runners c.1 !! r = Some runner -> rn_id runner = id ->
    y_groups c.1 !! r = Some g -> g_alive g = true -> g_signalled g = false ->
    g_refused g = false ->
    pm_runners (y_mgr c.1) !! id = Some r /\ status_of id (y_mgr c.1) <> StatusStopped.
Proof.
  intros Hok c Hidle r runner g Hr Hid Hg Ha Hs Href.
  pose proof (run_ticks_inv ticks initial nothing_started_inv Hok) as (_ & _ & _ & Hset).
  destruct (Hset Hidle) as (_ & Hl & Ht).
  assert (pm_runners (y_mgr c.1) !! id = Some r) as Htr.
  { apply Hl; [|by exists g]. unfold owned. subst c. rewrite Hr. simpl. by rewrite Hid. }
  split; [done|]. by apply (Ht r).
Qed.
End Runs.
