(* ===== verification/ProcessRaces.v ===== *)
(** * Processes of deployments: runs

    Concrete runs of the process manager: a start and a stop as they should be, and runs in
    which the sections of the methods meet in an unlucky order. *)
From stdpp Require Import base strings gmap list.
From Stdlib Require Import ZArith.
From S2P Require Import Prelude Model Programs Rely Process ProcessTheorems ProcessSafety.
Local Open Scope string_scope.
Local Open Scope list_scope.

#[local] Instance linux : Machine :=
  {| GOOS := "linux"; Getuid := 1000; DetectLevel := fun _ => "INFO" |}.

Definition spawns (pid : Z) (stdout stderr : list string) : start_world :=
  mkStart None None None None (Ok pid) stdout stderr.

(** A world in which a start creates process [pid], and the readiness probe answers [probe]. *)
Definition usual (pid : Z) (probe : option string) : world :=
  mkWorld 1000 (fun _ => false) (fun _ => false) (spawns pid [] []) None (Some "/home/dev") probe (fun l => l).

Definition steps (i n : nat) (w : world) : list tick := replicate n (Next i w).

Definition example_deployment (readiness : option ReadinessProbe) : Deployment :=
  {| dep_ID := "api"; dep_EnvName := "dev"; dep_Location := LocationLocal; dep_ControlMode := "";
     dep_Runtime := None; dep_Logs := None; dep_Web := None; dep_Ports := None;
     dep_CodeDebug := None; dep_StartOnBoot := false; dep_DependsOn := [];
     dep_Readiness := readiness; dep_Command := "go run ."; dep_WorkDir := "/srv/api";
     dep_EnvFile := ""; dep_Env := None; dep_HostIDs := None; dep_LogType := "";
     dep_LogTarget := ""; dep_ExtraArgs := None; dep_ReadOnly := false; dep_StartCommand := "";
     dep_StopCommand := ""; dep_Status := ""; dep_PID := 0 |}.

Definition start_api : tick := Request (QStart (example_deployment None)).

Definition no_group (g : option Group) : bool :=
  match g with Some g => negb (g_alive g) | None => true end.

(** What an operator and the kernel see of "api": status, runner, and the groups that are alive
    and were not killed. *)
Definition seen (c : @config sys world goroutine) : string * option nat * list nat :=
  (status_of "api" (y_mgr c.1), pm_runners (y_mgr c.1) !! "api",
   (map_to_list (filter (fun x : nat * Group => g_alive x.2 = true /\ g_signalled x.2 = false)
      (y_groups c.1))).*1).

(** The deployment's requests came one at a time and have ended; what is seen. *)
Definition play (ticks : list tick) : bool * (string * option nat * list nat) :=
  let c := run_ticks "api" ticks initial in
  (one_at_a_time "api" ticks initial && idle c, seen c).


Definition clean_exit : wait_result := mkWait None (Some (None, 0%Z)).
Definition crash : wait_result := mkWait None (Some (None, 1%Z)).

Definition w7 : world := usual 7 None.
Definition w8 : world := usual 8 None.
Definition refused : world := usual 7 (Some "refused").

Definition example_probe : ReadinessProbe :=
  {| rp_Type := "http"; rp_Target := "http://localhost"; rp_TimeoutSeconds := 0 |}.
Definition start_probed : tick := Request (QStart (example_deployment (Some example_probe))).

(** The process of runner 0 ends, and nothing is left of its group. *)
Definition dies (result : wait_result) : list tick := [Reaped 0 result; Ended 0].

(** A start, a crash, a second start and a stop. *)
Definition ordinary : list tick :=
  start_api :: steps 0 20 w7 ++ dies crash ++ steps 3 20 w7 ++
  start_api :: steps 4 20 w8 ++ Request (QStop "api") :: steps 8 20 w8.

Example ordinary_run :
  play (take 21 ordinary) = (true, ("running", Some 0, [0])) /\
  play (take 43 ordinary) = (true, ("failed", None, [])) /\
  play (take 64 ordinary) = (true, ("running", Some 1, [1])) /\
  play ordinary = (true, ("", None, [])).
Proof. by vm_compute. Qed.

Lemma stopped_means_stopped_witness :
  let c := run_ticks "api" (take 64 ordinary) initial in
  one_at_a_time "api" (take 64 ordinary) initial = true /\ idle c = true /\
  pm_runners (y_mgr c.1) !! "api" = Some 1 /\ status_of "api" (y_mgr c.1) <> StatusStopped.
Proof.
  intros c. assert (one_at_a_time "api" (take 64 ordinary) initial = true) as Hok by (by vm_compute).
  assert (idle c = true) as Hidle by (by vm_compute). split; [exact Hok|]. split; [exact Hidle|].
  refine (stopped_means_stopped "api" (take 64 ordinary) Hok Hidle 1
    (mkRunner (deploymentToSpec (example_deployment None)) "api" (Some 8%Z) true 0 false ExitInfo_zero
       (Some 8%Z) (newStderrRing 100)) (mkGroup 8 true false false None) _ _ _ _ _ _); vm_compute; reflexivity.
Defined.

(** ** Runs that go wrong *)

(** A process that crashes right after it was found alive, and before the start has written
    "running", is reported as running from then on: the exit is recorded first, its runner
    is gone, and the reconciliation of runners that exist never looks at it again.  No second
    request is involved. *)
Theorem crash_reported_running :
  play (start_api :: steps 0 12 w7 ++ dies crash ++ steps 3 20 w7 ++ steps 0 20 w7 ++
        Request QReconcileAll :: steps 4 30 w7) = (true, ("running", None, [])).
Proof. by vm_compute. Qed.

(** Two starts that overlap both find nothing running: the second runner takes the place of
    the first, whose processes no stop reaches any more. *)
Theorem concurrent_starts_leak :
  let both := start_api :: steps 0 3 w7 ++ start_api :: steps 1 20 w8 ++ steps 0 20 w7 in
  seen (run_ticks "api" both initial) = ("running", Some 1, [1; 0]) /\
  seen (run_ticks "api" (both ++ Request (QStop "api") :: steps 8 20 w8) initial) = ("", None, [0]).
Proof. by vm_compute. Qed.

(** A stop between the entry of a runner and the start of its process finds nothing to kill;
    the process is started all the same, untracked, and a second stop does not reach it. *)
Theorem stop_overtaken_by_start :
  seen (run_ticks "api" (start_api :: steps 0 7 w7 ++ Request (QStop "api") :: steps 1 20 w7 ++
    steps 0 20 w7 ++ Request (QStop "api") :: steps 5 20 w7) initial) = ("", None, [0]).
Proof. by vm_compute. Qed.

(** A readiness probe that has failed is forgotten by the next reconciliation: the status turns
    from "failed" to "running" because the process is alive, and nothing has become ready. *)
Theorem failed_probe_forgotten :
  let failed := start_probed :: steps 0 20 w7 ++ steps 4 10 refused in
  play failed = (true, ("failed", Some 0, [0])) /\
  play (failed ++ Request QReconcileAll :: steps 5 10 w7) = (true, ("running", Some 0, [0])).
Proof. by vm_compute. Qed.

(** A probe compares the generation and writes the status in two sections: the verdict on a
    process that was stopped in between falls on its successor, which has no probe. *)
Theorem stale_probe_fails_successor :
  play (start_probed :: steps 0 20 w7 ++ steps 4 2 refused ++ Request (QStop "api") :: steps 5 20 w7 ++
        start_api :: steps 6 20 w8 ++ steps 4 10 refused) = (true, ("failed", Some 1, [1])).
Proof. by vm_compute. Qed.

(** The kernel refuses to kill the group, whose processes run as another user: the stop forgets
    the runner and reports the deployment as stopped, its processes go on, and no later stop
    tries again. *)
Theorem refused_kill_forgotten :
  let w := mkWorld 1000 (fun _ => false) (fun pgid => (pgid =? 7)%Z) (spawns 7 [] []) None
             (Some "/home/dev") None (fun l => l) in
  let stop n := Request (QStop "api") :: steps n 20 w in
  let once := run_ticks "api" (start_api :: steps 0 20 w ++ stop 4) initial in
  let twice := run_ticks "api" (start_api :: steps 0 20 w ++ stop 4 ++ stop 5) initial in
  idle once = true /\ seen once = ("", None, [0]) /\
  y_groups once.1 !! 0 = Some (mkGroup 7 true false true None) /\
  idle twice = true /\ y_groups twice.1 = y_groups once.1.
Proof. vm_compute. split_and!; reflexivity. Qed.

(** A reconciliation that comes between the end of a process and the record of its exit has no
    evidence and calls a clean exit a failure. *)
Theorem clean_exit_reported_failed :
  play (start_api :: steps 0 20 w7 ++ dies clean_exit ++ steps 3 20 w7) = (true, ("", None, [])) /\
  play (start_api :: steps 0 20 w7 ++ dies clean_exit ++ Request QReconcileAll :: steps 4 30 w7 ++
        steps 3 20 w7) = (true, ("failed", None, [])).
Proof. by vm_compute. Qed.

(** The callback hears of "starting" and "running", and not of a crash. *)
Theorem crash_not_notified :
  let c := run_ticks "api" (Request (QSetOnStatusChange true) :: steps 0 1 w7 ++
             start_api :: steps 1 20 w7 ++ dies crash ++ steps 4 20 w7) initial in
  status_of "api" (y_mgr c.1) = StatusFailed /\
  List.filter (fun o => match o with Notified _ _ => true | _ => false end) (y_out c.1) =
    [Notified "api" StatusStarting; Notified "api" StatusRunning].
Proof. by vm_compute. Qed.

(** ** launchd *)

#[local] Definition macos : Machine :=
  {| GOOS := "darwin"; Getuid := 501; DetectLevel := fun _ => "INFO" |}.

Definition launchd_deployment : Deployment :=
  {| dep_ID := "api"; dep_EnvName := "dev"; dep_Location := LocationLocal; dep_ControlMode := "";
     dep_Runtime := Some {| rc_Type := RuntimeTypeLaunchd; rc_Command := ""; rc_Executable := "";
       rc_Args := []; rc_WorkingDir := ""; rc_EnvFile := ""; rc_EnvVars := None; rc_CWD := "";
       rc_Env := None; rc_Config := []; rc_ServiceName := ""; rc_ReleaseDir := "";
       rc_CurrentDir := ""; rc_ExecStart := ""; rc_Label := "com.example.api";
       rc_PlistPath := "~/api.plist"; rc_Container := ""; rc_Domain := "" |};
     dep_Logs := Some {| lc_Type := LogKindMacOSLog; lc_Target := "api"; lc_Path := "";
       lc_Command := ""; lc_ExtraArgs := [] |};
     dep_Web := None; dep_Ports := None; dep_CodeDebug := None; dep_StartOnBoot := false;
     dep_DependsOn := []; dep_Readiness := None; dep_Command := ""; dep_WorkDir := "";
     dep_EnvFile := ""; dep_Env := None; dep_HostIDs := None; dep_LogType := "";
     dep_LogTarget := ""; dep_ExtraArgs := None; dep_ReadOnly := false; dep_StartCommand := "";
     dep_StopCommand := ""; dep_Status := ""; dep_PID := 0 |}.

(** The start of a launchd service with logs writes "starting" and then calls [startByID] for
    the log stream, which returns at once because the deployment is starting: the logs are not
    collected, and the deployment never leaves "starting". *)
Theorem launchd_logs_never_start :
  let c := run_ticks (M := macos) "api" (Request (QStart launchd_deployment) :: steps 0 40 w7)
             initial in
  idle c = true /\ seen c = ("starting", None, []) /\
  y_out c.1 =
    [Ran "launchctl" ["bootstrap"; "gui/501"; "/home/dev/api.plist"];
     Ran "launchctl" ["kickstart"; "-k"; "gui/501/com.example.api"]].
Proof. by vm_compute. Qed.

(** ** A start that runs alone *)

Lemma start_alone_witness :
  pm_runners (y_mgr initial.1) !! "api" = None /\
  alone w7 (startByID "api" (deploymentToSpec (example_deployment None)))
    (fun err t => err = None /\ pm_runners (y_mgr t) !! "api" = Some 0 /\
       status_of "api" (y_mgr t) = StatusRunning) initial.1.
Proof.
  split; [reflexivity|].
  refine (alone_mono w7 _ _ _ _ (start_alone w7 "api" (deploymentToSpec (example_deployment None))
    initial.1 eq_refl _ eq_refl (or_introl _)) _); [discriminate|discriminate|].
  intros err t (_ & He & Hr & _ & Hs). auto.
Defined.
