(* ===== verification/Heaps.v ===== *)
(** * container/heap

    The binary heap of Go's standard library on a list, with the sift loops as they are, and
    what [Init], [Push] and [Pop] promise: the same elements, the least one at the root. *)
From stdpp Require Import base list.
From Stdlib Require Import Lia.
From S2P Require Import Prelude.

Section Heap.
Context {A : Type} (less : A -> A -> bool).

Definition swap (i j : nat) (l : list A) : list A :=
  match l !! i, l !! j with
  | Some a, Some b => <[i := b]> (<[j := a]> l)
  | _, _ => l
  end.

Definition less_at (l : list A) (i j : nat) : bool :=
  match l !! i, l !! j with Some a, Some b => less a b | _, _ => false end.

Definition parent (j : nat) : nat := (j - 1) / 2.

(** The loops of [up] and [down]; an index decreases, or grows up to the length. *)
Fixpoint up (fuel j : nat) (l : list A) : list A :=
  match fuel with
  | O => l
  | S fuel =>
      let i := parent j in
      if (i =? j) || negb (less_at l j i) then l else up fuel i (swap i j l)
  end.

Fixpoint down (fuel i n : nat) (l : list A) : list A :=
  match fuel with
  | O => l
  | S fuel =>
      let j1 := 2 * i + 1 in
      if n <=? j1 then l
      else
        let j := if (j1 + 1 <? n) && less_at l (j1 + 1) j1 then j1 + 1 else j1 in
        if negb (less_at l j i) then l else down fuel j n (swap i j l)
  end.

Definition Init (l : list A) : list A :=
  let n := length l in
  foldr (fun i l => down n i n l) l (seq 0 (n / 2)).

Definition Push (x : A) (l : list A) : list A := up (S (length l)) (length l) (l ++ [x]).

(** The element that [Pop] takes off is at the end of the list by then. *)
Definition Pop (l : list A) : list A * option A :=
  let n := length l - 1 in
  let l := down n 0 n (swap 0 n l) in
  (take n l, l !! n).

(** ** The order *)

Definition le (a b : A) : Prop := less b a = false.

Hypothesis le_trans : forall a b c, le a b -> le b c -> le a c.
Hypothesis less_le : forall a b, less a b = true -> le a b.

Lemma le_refl a : le a a.
Proof. unfold le. destruct (less a a) eqn:E; [|done]. pose proof (less_le _ _ E). unfold le in *. congruence. Qed.

(** ** swap *)

Lemma swap_length i j l : length (swap i j l) = length l.
Proof. unfold swap. destruct (l !! i), (l !! j); by rewrite ?length_insert. Qed.

Lemma swap_lookup i j k l :
  i < length l -> j < length l ->
  swap i j l !! k = if decide (k = i) then l !! j else if decide (k = j) then l !! i else l !! k.
Proof.
  intros Hi Hj. unfold swap.
  destruct (lookup_lt_is_Some_2 l i Hi) as [a Ha], (lookup_lt_is_Some_2 l j Hj) as [b Hb].
  rewrite Ha, Hb. destruct (decide (k = i)) as [->|Hki].
  - rewrite list_lookup_insert_eq by (by rewrite length_insert). done.
  - rewrite list_lookup_insert_ne by done. destruct (decide (k = j)) as [->|Hkj].
    + by rewrite list_lookup_insert_eq.
    + by rewrite list_lookup_insert_ne.
Qed.

Lemma swap_Permutation i j l : swap i j l ≡ₚ l.
Proof.
  destruct (decide (i < length l /\ j < length l)) as [[Hi Hj]|Hn].
  - apply Permutation_inj. split; [apply swap_length|].
    exists (fun k => if decide (k = i) then j else if decide (k = j) then i else k). split.
    + intros x y. repeat case_decide; lia.
    + intros k. rewrite swap_lookup by done. by repeat case_decide.
  - unfold swap. destruct (l !! i) eqn:Ei, (l !! j) eqn:Ej; try done.
    apply lookup_lt_Some in Ei, Ej. lia.
Qed.

(** ** Heaps *)

(** The order between [j] and its parent. *)
Definition ok_at (l : list A) (i j : nat) : Prop :=
  forall a b, l !! i = Some a -> l !! j = Some b -> le a b.

(** Among the first [n] elements, below [s]. *)
Definition heap_from (s n : nat) (l : list A) : Prop :=
  forall j, 0 < j < n -> s <= parent j -> ok_at l (parent j) j.
Definition is_heap (l : list A) : Prop := heap_from 0 (length l) l.

(** A heap except that [i] may be greater than its children. *)
Definition sinking (s n i : nat) (l : list A) : Prop :=
  (forall j, 0 < j < n -> s <= parent j -> parent j <> i -> ok_at l (parent j) j) /\
  (forall j, 0 < j < n -> parent j = i -> 0 < i -> s <= parent i -> ok_at l (parent i) j).

(** A heap except that [j] may be less than its parent. *)
Definition rising (n j : nat) (l : list A) : Prop :=
  (forall k, 0 < k < n -> k <> j -> ok_at l (parent k) k) /\
  (forall k, 0 < k < n -> parent k = j -> 0 < j -> ok_at l (parent j) k).

Lemma parent_lt j : 0 < j -> parent j < j.
Proof. intros. unfold parent. pose proof (Nat.Div0.div_le_upper_bound (j - 1) 2 (j - 1)). lia. Qed.

Lemma parent_children j i : 0 < j -> parent j = i <-> j = 2 * i + 1 \/ j = 2 * i + 2.
Proof.
  intros Hj. unfold parent. pose proof (Nat.div_mod (j - 1) 2).
  pose proof (Nat.mod_upper_bound (j - 1) 2). lia.
Qed.

Lemma less_at_spec l i j : less_at l i j = false -> ok_at l j i.
Proof. intros H a b Ha Hb. unfold less_at in H. by rewrite Ha, Hb in H. Qed.

Lemma less_at_true l i j : less_at l i j = true -> ok_at l i j.
Proof. intros H a b Ha Hb. unfold less_at in H. rewrite Ha, Hb in H. auto. Qed.

Lemma less_at_lt l i j : less_at l i j = true -> i < length l /\ j < length l.
Proof.
  unfold less_at. destruct (l !! i) eqn:Ei; [|done]. destruct (l !! j) eqn:Ej; [|done].
  intros _. split; by eapply lookup_lt_Some.
Qed.

Lemma ok_at_trans l i j k : j < length l -> ok_at l i j -> ok_at l j k -> ok_at l i k.
Proof.
  intros Hj H1 H2 a c Ha Hc. destruct (lookup_lt_is_Some_2 l j Hj) as [b Hb]. eauto.
Qed.

(** The order after a swap, from the order before it. *)
Lemma ok_at_swap i j l x y :
  i < length l -> j < length l ->
  ok_at l (if decide (x = i) then j else if decide (x = j) then i else x)
    (if decide (y = i) then j else if decide (y = j) then i else y) ->
  ok_at (swap i j l) x y.
Proof.
  intros Hi Hj H a b. rewrite !swap_lookup by done.
  intros Ha Hb. apply H; by repeat case_decide.
Qed.

(** ** Sifting *)

Lemma down_step s n i j l :
  n <= length l -> s <= i -> 0 < j < n -> parent j = i -> less_at l j i = true ->
  (forall k, 0 < k < n -> parent k = i -> ok_at l j k) ->
  sinking s n i l -> sinking s n j (swap i j l).
Proof.
  intros Hn Hs Hj Hp Hlt Hmin (H1 & H2).
  assert (i < j) as Hij by (rewrite <-Hp; apply parent_lt; lia).
  split.
  - intros k Hk Hsk Hne. pose proof (parent_lt k). apply ok_at_swap; [lia..|].
    destruct (decide (k = j)) as [->|Hkj].
    + rewrite Hp. repeat case_decide; try lia. by apply less_at_true.
    + repeat case_decide; try lia; [by apply Hmin|subst k; apply H2; lia|apply H1; lia].
  - intros k Hk Hpk _ _. pose proof (parent_lt k). apply ok_at_swap; [lia..|].
    rewrite Hp. repeat case_decide; try lia. rewrite <-Hpk. apply H1; lia.
Qed.

Lemma down_heap s n fuel i l :
  n <= length l -> s <= i -> n - i <= fuel -> sinking s n i l -> heap_from s n (down fuel i n l).
Proof.
  revert i l. induction fuel as [|fuel IH]; intros i l Hn Hs Hfuel H.
  - intros j Hj Hsj. apply H; [done..|]. pose proof (parent_lt j). lia.
  - cbn [down]. destruct (Nat.leb_spec n (2 * i + 1)) as [Hle|Hlt].
    { intros j Hj Hsj. apply H; [done..|]. intros E. apply parent_children in E; lia. }
    set (j := if _ && _ then _ else _).
    assert (0 < j < n /\ parent j = i /\
      forall k, 0 < k < n -> parent k = i -> ok_at l j k) as (Hj & Hp & Hmin).
    { assert (forall k, 0 < k -> parent k = i -> k = 2 * i + 1 \/ k = 2 * i + 2) as Hch
        by (intros k ? ?; by apply parent_children).
      subst j. destruct (Nat.ltb_spec (2 * i + 1 + 1) n) as [Hlt2|Hge]; cbn [andb].
      - destruct (less_at l (2 * i + 1 + 1) (2 * i + 1)) eqn:E.
        + split; [lia|]. split; [apply parent_children; lia|].
          intros k Hk [->| ->]%Hch; [by apply less_at_true| |lia].
          replace (2 * i + 2) with (2 * i + 1 + 1) by lia. intros a b Ha Hb. simplify_eq. apply le_refl.
        + split; [lia|]. split; [apply parent_children; lia|].
          intros k Hk [->| ->]%Hch; [intros a b Ha Hb; simplify_eq; apply le_refl| |lia].
          replace (2 * i + 2) with (2 * i + 1 + 1) by lia. by apply less_at_spec.
      - split; [lia|]. split; [apply parent_children; lia|].
        intros k Hk [->| ->]%Hch; [intros a b Ha Hb; simplify_eq; apply le_refl|lia|lia]. }
    assert (i < j) by (rewrite <-Hp; apply parent_lt; lia).
    destruct (less_at l j i) eqn:E; simpl.
    + apply IH; [by rewrite swap_length|lia|lia|]. by eapply down_step.
    + apply less_at_spec in E. intros k Hk Hsk. destruct (decide (parent k = i)) as [Ep|Ep].
      * rewrite Ep. eapply ok_at_trans; [|exact E|by apply Hmin]. lia.
      * by apply H.
Qed.

Lemma up_step n j l :
  n <= length l -> 0 < j < n -> less_at l j (parent j) = true ->
  rising n j l -> rising n (parent j) (swap (parent j) j l).
Proof.
  intros Hn Hj Hlt (H1 & H2). set (i := parent j). assert (i < j) as Hij by (apply parent_lt; lia).
  apply less_at_true in Hlt. fold i in Hlt.
  assert (forall k, 0 < k < n -> k <> j -> parent k = i -> ok_at l j k) as Hsib.
  { intros k Hk Hkj E. apply (ok_at_trans l j i k); [lia|done|]. rewrite <-E. by apply H1. }
  split.
  - intros k Hk Hki. pose proof (parent_lt k). apply ok_at_swap; [lia..|].
    destruct (decide (k = j)) as [->|Hkj].
    + fold i. repeat case_decide; try lia. done.
    + repeat case_decide; try done; [by apply Hsib|apply H2; lia|by apply H1].
  - intros k Hk Hpk Hi0. pose proof (parent_lt k). pose proof (parent_lt i).
    assert (ok_at l (parent i) i) as Hpi by (apply H1; lia).
    apply ok_at_swap; [lia..|]. repeat case_decide; try lia; [done|].
    apply (ok_at_trans l (parent i) i k); [lia|done|]. rewrite <-Hpk. by apply H1.
Qed.

Lemma up_heap n fuel j l :
  n <= length l -> j < n -> j < fuel -> rising n j l -> heap_from 0 n (up fuel j l).
Proof.
  revert j l. induction fuel as [|fuel IH]; intros j l Hn Hj Hfuel H; [lia|]. cbn [up].
  destruct (Nat.eqb_spec (parent j) j) as [E|E]; simpl.
  { assert (j = 0) as -> by (destruct j; [done|]; pose proof (parent_lt (S j)); lia).
    intros k Hk _. apply H; [done|lia]. }
  assert (0 < j) by (destruct j; [done|lia]). pose proof (parent_lt j).
  destruct (less_at l j (parent j)) eqn:El; simpl.
  - apply IH; [by rewrite swap_length|lia|lia|]. by apply up_step.
  - apply less_at_spec in El. intros k Hk _. destruct (decide (k = j)) as [->|Hne]; [done|].
    by apply H.
Qed.

(** ** The elements *)

Lemma down_Permutation fuel i n l : down fuel i n l ≡ₚ l.
Proof.
  revert i l. induction fuel as [|fuel IH]; intros i l; [done|]. cbn [down].
  destruct (n <=? _); [done|]. destruct (negb _); [done|]. by rewrite IH, swap_Permutation.
Qed.

Lemma up_Permutation fuel j l : up fuel j l ≡ₚ l.
Proof.
  revert j l. induction fuel as [|fuel IH]; intros j l; [done|]. cbn [up].
  destruct (_ || _); [done|]. by rewrite IH, swap_Permutation.
Qed.

(** The last cell, beyond the part that is sifted, is left alone. *)
Lemma down_beyond fuel i n l k : n <= length l -> n <= k -> down fuel i n l !! k = l !! k.
Proof.
  revert i l. induction fuel as [|fuel IH]; intros i l Hn Hk; [done|]. cbn [down].
  destruct (Nat.leb_spec n (2 * i + 1)) as [|Hlt]; [done|]. set (j := if _ && _ then _ else _).
  assert (j < n) as Hj.
  { subst j. destruct (Nat.ltb_spec (2 * i + 1 + 1) n); cbn [andb]; [|lia]. destruct (less_at _ _ _); lia. }
  destruct (negb _); [done|]. rewrite IH by (by rewrite ?swap_length).
  rewrite swap_lookup, !decide_False by lia. done.
Qed.

(** ** Init, Push, Pop *)

Lemma heap_root_least l x y : is_heap l -> l !! 0 = Some x -> y ∈ l -> le x y.
Proof.
  intros H Hx (j & Hj)%list_elem_of_lookup_1. revert y Hj.
  induction (lt_wf j) as [j _ IH]; intros y Hy. destruct (decide (j = 0)) as [->|Hne].
  - simplify_eq. apply le_refl.
  - assert (0 < j < length l) as Hlt by (apply lookup_lt_Some in Hy; lia).
    pose proof (parent_lt j). destruct (lookup_lt_is_Some_2 l (parent j)) as [z Hz]; [lia|].
    apply (le_trans _ z); [by apply (IH (parent j)); [lia|]|]. by eapply (H j Hlt); [lia|..].
Qed.

Lemma Init_spec l : Init l ≡ₚ l /\ is_heap (Init l).
Proof.
  unfold Init. set (n := length l).
  assert (forall m, m <= n / 2 ->
    let l' := foldr (fun i l => down n i n l) l (seq m (n / 2 - m)) in
    l' ≡ₚ l /\ heap_from m n l') as H.
  { intros m Hm. remember (n / 2 - m) as d eqn:Hd. revert m Hm Hd.
    induction d as [|d IH]; intros m Hm Hd; simpl.
    - split; [done|]. intros j Hj Hsj. exfalso.
      pose proof (Nat.div_mod (j - 1) 2). pose proof (Nat.div_mod n 2).
      pose proof (Nat.mod_upper_bound (j - 1) 2). pose proof (Nat.mod_upper_bound n 2).
      unfold parent in Hsj. lia.
    - destruct (IH (S m)) as (Hperm & Hheap); [lia..|]. split; [by rewrite down_Permutation|].
      apply down_heap; [|done|lia|].
      + by rewrite Hperm.
      + split.
        * intros j Hj Hsj Hne. apply Hheap; [done|lia].
        * intros j Hj Hpj H0 Hpm. pose proof (parent_lt m). lia. }
  destruct (H 0) as (Hperm & Hheap); [lia|]. rewrite Nat.sub_0_r in Hperm, Hheap. split; [done|].
  unfold is_heap. rewrite (Permutation_length Hperm). exact Hheap.
Qed.

Lemma Push_spec x l : is_heap l -> Push x l ≡ₚ x :: l /\ is_heap (Push x l).
Proof.
  intros H. unfold Push. split.
  { rewrite up_Permutation. symmetry. apply Permutation_cons_append. }
  unfold is_heap. rewrite (Permutation_length (up_Permutation _ _ _)), length_app. cbn [length].
  apply up_heap; [rewrite length_app; cbn [length]; lia|lia|lia|]. split.
  - intros k Hk Hne. pose proof (parent_lt k). intros a b.
    rewrite !lookup_app_l by lia. apply H; lia.
  - intros k Hk Hp. pose proof (parent_lt k). lia.
Qed.

Lemma Pop_spec l :
  is_heap l -> l <> [] ->
  exists x, (Pop l).2 = Some x /\ x :: (Pop l).1 ≡ₚ l /\ is_heap (Pop l).1 /\ forall y, y ∈ l -> le x y.
Proof.
  intros H Hne. destruct l as [|x l0] eqn:El; [done|]. rewrite <-El in *. clear Hne.
  assert (l !! 0 = Some x) as Hx by (by rewrite El). unfold Pop. cbn [fst snd].
  set (n := length l - 1). assert (length l = S n) as Hlen by (subst n; rewrite El; simpl; lia).
  set (l' := down n 0 n (swap 0 n l)).
  assert (l' ≡ₚ l) as Hperm by (unfold l'; by rewrite down_Permutation, swap_Permutation).
  assert (length l' = S n) as Hlen' by (by rewrite Hperm).
  assert (l' !! n = Some x) as Hn.
  { unfold l'. rewrite down_beyond by (rewrite ?swap_length; lia).
    rewrite swap_lookup by lia. case_decide as E; [|by rewrite decide_True].
    rewrite E in *. done. }
  exists x. split_and!; [done| | |].
  - rewrite <-Hperm at 1. rewrite <-(take_drop n l') at 2.
    rewrite (drop_S _ _ _ Hn), drop_ge by lia. apply Permutation_cons_append.
  - assert (heap_from 0 n l') as Hheap.
    { apply down_heap; [rewrite swap_length; lia|done|lia|]. split; [|lia].
      intros j Hj _ Hp. pose proof (parent_lt j). apply ok_at_swap; [lia..|].
      rewrite (decide_False (P := parent j = 0)), (decide_False (P := parent j = n)),
        (decide_False (P := j = 0)), (decide_False (P := j = n)) by lia. apply H; lia. }
    intros j Hj _. rewrite length_take in Hj. pose proof (parent_lt j). intros a b.
    rewrite !lookup_take_lt by lia. apply Hheap; lia.
  - intros y. by apply heap_root_least.
Qed.
End Heap.
