(* ===== verification/Pages.v ===== *)
(** * Pages of a sorted selection

    What a query with ORDER BY, a cursor and LIMIT returns, as a part of the whole selection in
    its order: the elements after, or before, the element that the cursor names. *)
From stdpp Require Import base list sorting.
From Stdlib Require Import ZArith Lia Sorted.
From S2P Require Import Prelude.

(** A comparison function as [sort.Slice] and ORDER BY expect it. *)
Class WeakOrder {A} (less : A -> A -> bool) : Prop := {
  wo_trans a b c : less b a = false -> less c b = false -> less c a = false;
  wo_asym a b : less a b = true -> less b a = false;
}.

Section Pages.
Context {A : Type} (less : A -> A -> bool) {W : WeakOrder less}.

(** Strictly ascending. *)
Definition ascending (l : list A) : Prop := StronglySorted (fun a b => less a b = true) l.

(** No two elements of the list are equivalent. *)
Definition distinct (l : list A) : Prop :=
  NoDup l /\ forall a b, a ∈ l -> b ∈ l -> less a b = false -> less b a = false -> a = b.

#[export] Instance desc_order : WeakOrder (fun a b => less b a).
Proof. split; [intros a b c H1 H2; by eapply wo_trans|intros a b H; by eapply wo_asym]. Qed.

Lemma wo_irrefl a : less a a = false.
Proof. destruct (less a a) eqn:E; [|done]. by rewrite (wo_asym _ _ E) in E. Qed.

Lemma ascending_sort l : distinct l -> ascending (SliceStable less l).
Proof.
  intros [Hnd Hd].
  assert (StronglySorted (fun a b => less b a = false) (SliceStable less l)) as Hs.
  { apply SliceStable_sorted; [intros a b c; apply wo_trans|apply wo_asym|done]. }
  assert (NoDup (SliceStable less l)) as Hn by (by rewrite SliceStable_perm).
  assert (forall x, x ∈ SliceStable less l -> x ∈ l) as Hi by (intros x; by rewrite SliceStable_perm).
  revert Hn Hi. induction Hs as [|x k Hs IH Hx]; intros Hn Hi; [constructor|].
  apply NoDup_cons in Hn as [Hxk Hn]. constructor.
  - apply IH; [done|]. intros y Hy. apply Hi. by right.
  - apply Forall_forall. intros y Hy. eapply Forall_forall in Hx; [|done].
    destruct (less x y) eqn:E; [done|]. exfalso. apply Hxk.
    rewrite (Hd x y); [done|apply Hi; by left|apply Hi; by right|done..].
Qed.

Lemma ascending_unique l k : ascending l -> ascending k -> l ≡ₚ k -> l = k.
Proof.
  apply StronglySorted_unique_strong. intros a b _ _ Hab Hba. by rewrite (wo_asym _ _ Hab) in Hba.
Qed.

Lemma ascending_app l k : ascending (l ++ k) ->
  ascending l /\ ascending k /\ forall a b, a ∈ l -> b ∈ k -> less a b = true.
Proof.
  unfold ascending. intros H. induction l as [|x l IH]; simpl in *.
  - split_and!; [constructor|done|]. intros a b Ha. by apply elem_of_nil in Ha.
  - inversion H as [|? ? Hs Hx]; subst. destruct (IH Hs) as (H1 & H2 & H3).
    rewrite Forall_app in Hx. destruct Hx as [Hx1 Hx2]. split_and!; [by constructor|done|].
    intros a b [->|Ha]%elem_of_cons Hb; [by eapply Forall_forall in Hx2|by apply H3].
Qed.

Lemma filter_all (p : A -> bool) l : (forall x, x ∈ l -> p x = true) -> List.filter p l = l.
Proof.
  induction l as [|x l IH]; intros H; simpl; [done|]. rewrite H by left. f_equal. apply IH.
  intros y Hy. apply H. by right.
Qed.

Lemma filter_none (p : A -> bool) l : (forall x, x ∈ l -> p x = false) -> List.filter p l = [].
Proof.
  induction l as [|x l IH]; intros H; simpl; [done|]. rewrite H by left. apply IH.
  intros y Hy. apply H. by right.
Qed.

Lemma filter_perm (p : A -> bool) l k : l ≡ₚ k -> List.filter p l ≡ₚ List.filter p k.
Proof.
  induction 1 as [|x l k _ IH|x y l|l k m _ IH1 _ IH2]; simpl; [done| | |by etrans].
  - destruct (p x); [by constructor|done].
  - destruct (p x), (p y); try done. constructor.
Qed.

Lemma filter_and (p q : A -> bool) l :
  List.filter (fun x => p x && q x) l = List.filter q (List.filter p l).
Proof.
  induction l as [|x l IH]; simpl; [done|]. destruct (p x); simpl; [|done].
  destruct (q x); by rewrite IH.
Qed.

(** The part of a strictly ascending list after, and before, one of its elements. *)
Lemma filter_after l k c : ascending l -> l !! k = Some c -> List.filter (less c) l = drop (S k) l.
Proof.
  intros Hl Hk. rewrite <-(take_drop_middle l k c Hk) in Hl |- *.
  apply ascending_app in Hl as (_ & H2 & H3). inversion H2 as [|? ? _ Hc]; subst.
  assert (length (take k l) = k) as Hlen by (rewrite length_take; apply lookup_lt_Some in Hk; lia).
  rewrite List.filter_app, (filter_none _ (take k l)).
  2: { intros x Hx. apply wo_asym, H3; [done|by left]. }
  simpl. rewrite wo_irrefl, filter_all.
  2: { intros x Hx. by eapply Forall_forall in Hc. }
  rewrite drop_app_ge, Hlen by lia. by replace (S k - k) with 1 by lia.
Qed.

Lemma filter_before l k c :
  ascending l -> l !! k = Some c -> List.filter (fun x => less x c) l = take k l.
Proof.
  intros Hl Hk. rewrite <-(take_drop_middle l k c Hk) in Hl |- *.
  apply ascending_app in Hl as (_ & H2 & H3). inversion H2 as [|? ? _ Hc]; subst.
  assert (length (take k l) = k) as Hlen by (rewrite length_take; apply lookup_lt_Some in Hk; lia).
  rewrite List.filter_app, (filter_all _ (take k l)).
  2: { intros x Hx. apply H3; [done|by left]. }
  simpl. rewrite wo_irrefl, filter_none.
  2: { intros x Hx. apply wo_asym. by eapply Forall_forall in Hc. }
  rewrite app_nil_r. symmetry. apply take_app_length'. by rewrite Hlen.
Qed.

Lemma ascending_filter (p : A -> bool) l : ascending l -> ascending (List.filter p l).
Proof.
  induction 1 as [|x l Hs IH Hx]; simpl; [constructor|]. destruct (p x); [|done].
  constructor; [done|]. apply Forall_forall. intros y Hy. apply (proj1 (Forall_forall _ _) Hx).
  apply list_elem_of_In, filter_In in Hy as [Hy _]. by apply list_elem_of_In.
Qed.

Lemma distinct_filter (p : A -> bool) l : distinct l -> distinct (List.filter p l).
Proof.
  intros [Hn Hd]. split.
  - apply NoDup_ListNoDup, List.NoDup_filter. by apply NoDup_ListNoDup.
  - intros a b Ha Hb. apply list_elem_of_In, filter_In in Ha as [Ha _], Hb as [Hb _].
    apply Hd; by apply list_elem_of_In.
Qed.

Lemma sort_filter (p : A -> bool) l :
  distinct l -> SliceStable less (List.filter p l) = List.filter p (SliceStable less l).
Proof.
  intros Hd. apply ascending_unique.
  - by apply ascending_sort, distinct_filter.
  - by apply ascending_filter, ascending_sort.
  - rewrite SliceStable_perm. apply filter_perm. by rewrite SliceStable_perm.
Qed.

Lemma filter_ext_elem (p q : A -> bool) l :
  (forall x, x ∈ l -> p x = q x) -> List.filter p l = List.filter q l.
Proof.
  induction l as [|x l IH]; intros H; simpl; [done|]. rewrite (H x) by left.
  rewrite IH; [done|]. intros y Hy. apply H. by right.
Qed.
End Pages.

Section Select.
Context {A : Type} (less : A -> A -> bool) {W : WeakOrder less} (p : A -> bool) (rows : list A).

(** The whole selection in its order. *)
Definition selection : list A := SliceStable less (List.filter p rows).

Lemma select_after (q : A -> bool) k c :
  distinct less (List.filter p rows) -> selection !! k = Some c ->
  (forall r, r ∈ rows -> q r = p r && less c r) ->
  SliceStable less (List.filter q rows) = drop (S k) selection.
Proof.
  intros Hd Hk Hq. rewrite (filter_ext_elem q (fun r => p r && less c r)) by done.
  rewrite filter_and, sort_filter by done. apply filter_after; [done| |done].
  by apply ascending_sort.
Qed.

Lemma select_before (q : A -> bool) k c :
  distinct less (List.filter p rows) -> selection !! k = Some c ->
  (forall r, r ∈ rows -> q r = p r && less r c) ->
  SliceStable less (List.filter q rows) = take k selection.
Proof.
  intros Hd Hk Hq. rewrite (filter_ext_elem q (fun r => p r && less r c)) by done.
  rewrite filter_and, sort_filter by done. apply filter_before; [done| |done].
  by apply ascending_sort.
Qed.
End Select.

Lemma rev_ascending {A} (less : A -> A -> bool) l :
  ascending (fun a b => less b a) l -> ascending less (rev l).
Proof.
  unfold ascending. induction 1 as [|x l Hs IH Hx]; simpl; [constructor|].
  assert (forall k, StronglySorted (fun a b => less a b = true) k ->
    Forall (fun b => less b x = true) k ->
    StronglySorted (fun a b => less a b = true) (k ++ [x])) as H.
  { induction 1 as [|y k Hk IHk Hy]; intros Hf; simpl; [by repeat constructor|].
    apply Forall_cons in Hf as [Hyx Hf]. constructor; [by apply IHk|].
    apply Forall_app. split; [done|by constructor]. }
  apply H; [done|]. by rewrite <-Permutation_rev.
Qed.

(** ORDER BY ... DESC is the selection backwards. *)
Lemma sort_desc {A} (less : A -> A -> bool) {W : WeakOrder less} l :
  distinct less l -> SliceStable (fun a b => less b a) l = rev (SliceStable less l).
Proof.
  intros Hd. rewrite <-(rev_involutive (SliceStable (fun a b => less b a) l)). f_equal.
  apply (ascending_unique less).
  - apply rev_ascending. apply (ascending_sort (fun a b => less b a)). destruct Hd as [Hn Hd].
    split; [done|]. intros a b Ha Hb H1 H2. by apply Hd.
  - by apply ascending_sort.
  - rewrite <-Permutation_rev, !SliceStable_perm. done.
Qed.

(** The last [n] elements, from the selection backwards. *)
Lemma rev_take_rev {A} n (l : list A) : rev (take n (rev l)) = drop (length l - n) l.
Proof. rewrite firstn_rev. by rewrite rev_involutive. Qed.

(** The rows before the cursor, backwards: what ORDER BY ... DESC LIMIT cuts off at the front. *)
Lemma select_desc {A} (less : A -> A -> bool) {W : WeakOrder less} (p q : A -> bool) rows k c :
  distinct less (List.filter p rows) -> selection less p rows !! k = Some c ->
  (forall r, r ∈ rows -> q r = p r && less r c) ->
  SliceStable (fun a b => less b a) (List.filter q rows) = rev (take k (selection less p rows)).
Proof.
  intros Hd Hk Hq. rewrite <-(select_before less p rows q k c) by done. apply sort_desc; [done|].
  rewrite (filter_ext_elem q (fun r => p r && less r c)) by done. rewrite filter_and.
  by apply distinct_filter.
Qed.

Lemma StronglySorted_sublist {A} (R : A -> A -> Prop) l k :
  l `sublist_of` k -> StronglySorted R k -> StronglySorted R l.
Proof.
  induction 1 as [|x l k Hs IH|x l k Hs IH]; intros HS; [done| |].
  - inversion HS as [|? ? HS' Hx]; subst. constructor; [by apply IH|].
    apply Forall_forall. intros y Hy. apply (proj1 (Forall_forall _ _) Hx).
    by eapply elem_of_sublist.
  - inversion HS; subst. by apply IH.
Qed.

Lemma StronglySorted_app_intro {A} (R : A -> A -> Prop) l l' :
  StronglySorted R l -> StronglySorted R l' -> (forall x y, x ∈ l -> y ∈ l' -> R x y) ->
  StronglySorted R (l ++ l').
Proof.
  induction 1 as [|x l Hs IH Hx]; intros Hl' HR; simpl; [done|]. constructor.
  - apply IH; [done|]. intros y z Hy. apply HR. by right.
  - apply Forall_app. split; [done|]. apply Forall_forall. intros y. apply HR. by left.
Qed.
