(* ===== verification/LogStore.v ===== *)
(** * The table of log entries

    The table [log_entries] of the agent's SQLite database, as the statements of
    store/store.go treat it: the batches that the log buffer writes, the queries that page
    through it and the two ways in which rows are removed. *)
From stdpp Require Import base strings gmap list.
From Stdlib Require Import ZArith Lia Sorted.
From S2P Require Import Prelude Model.
Local Open Scope string_scope.

(** ** Rows *)

(** A row of [log_entries]; [None] is NULL. *)
Record LogRow : Type := mkLogRow {
  row_id : Z;
  row_deployment : string;
  row_run : string;
  row_timestamp : time;
  row_level : string;
  row_message : string;
  row_stream : string;
  row_repeat : Z;
  row_fold : string;
  row_seq : option Z;
  row_last_seen : option time;
}.

(** The rows in the order of their ids, and the last id that AUTOINCREMENT has given. *)
Record LogTable : Type := mkLogTable { lt_rows : list LogRow; lt_last : Z }.

Definition empty_table : LogTable := {| lt_rows := []; lt_last := 0 |}.

(** The conversion [int64(seq)]. *)
Definition to_int64 (n : Z) : Z := if (n <? 2 ^ 63)%Z then n else (n - 2 ^ 64)%Z.

Definition nullableSeq (seq : Z) : option Z := if (seq =? 0)%Z then None else Some (to_int64 seq).

Definition scanLogEntry (r : LogRow) : LogEntry :=
  {| log_ID := row_id r; log_DeploymentID := row_deployment r; log_SourceID := "";
     log_RunID := row_run r; log_Timestamp := row_timestamp r; log_Level := row_level r;
     log_Message := row_message r; log_Stream := row_stream r; log_RepeatCount := row_repeat r;
     log_FoldKey := row_fold r;
     log_Seq := match row_seq r with Some n => if (0 <? n)%Z then n else 0%Z | None => 0%Z end;
     log_LastSeenAt := row_last_seen r |}.

(** ** AppendBatch *)

Definition stored_count (e : LogEntry) : Z :=
  if (log_RepeatCount e <=? 0)%Z then 1%Z else log_RepeatCount e.

Definition new_row (id : Z) (e : LogEntry) : LogRow :=
  {| row_id := id; row_deployment := log_DeploymentID e; row_run := log_RunID e;
     row_timestamp := log_Timestamp e; row_level := log_Level e; row_message := log_Message e;
     row_stream := log_Stream e; row_repeat := stored_count e; row_fold := log_FoldKey e;
     row_seq := nullableSeq (log_Seq e); row_last_seen := Some (log_Timestamp e) |}.

(** The partial unique index on (run_id, fold_key), and the one on (deployment_id, seq). *)
Definition fold_conflict (e : LogEntry) (r : LogRow) : bool :=
  negb (log_FoldKey e =? "") && (row_run r =? log_RunID e) && (row_fold r =? log_FoldKey e).
Definition seq_conflict (e : LogEntry) (r : LogRow) : bool :=
  match nullableSeq (log_Seq e), row_seq r with
  | Some n, Some m => (row_deployment r =? log_DeploymentID e) && (n =? m)%Z
  | _, _ => false
  end.

(** [DO UPDATE SET repeat_count = excluded.repeat_count, last_seen_at = excluded.last_seen_at] *)
Definition do_update (e : LogEntry) (r : LogRow) : LogRow :=
  {| row_id := row_id r; row_deployment := row_deployment r; row_run := row_run r;
     row_timestamp := row_timestamp r; row_level := row_level r; row_message := row_message r;
     row_stream := row_stream r; row_repeat := stored_count e; row_fold := row_fold r;
     row_seq := row_seq r; row_last_seen := Some (log_Timestamp e) |}.

(** One INSERT: a conflict with the index that ON CONFLICT names updates the row, one with the
    other index is an error. *)
Definition insert_entry (e : LogEntry) (t : LogTable) : option LogTable :=
  if existsb (fold_conflict e) (lt_rows t) then
    Some {| lt_rows := (fun r => if fold_conflict e r then do_update e r else r) <$> lt_rows t;
            lt_last := lt_last t |}
  else if existsb (seq_conflict e) (lt_rows t) then None
  else Some {| lt_rows := lt_rows t ++ [new_row (lt_last t + 1) e]; lt_last := (lt_last t + 1)%Z |}.

Fixpoint insert_all (es : list LogEntry) (t : LogTable) : option LogTable :=
  match es with
  | [] => Some t
  | e :: es => insert_entry e t ≫= insert_all es
  end.

(** [AppendBatch]: one transaction, which an error rolls back. The flag is whether it succeeded. *)
Definition AppendBatch (es : list LogEntry) (t : LogTable) : LogTable * bool :=
  match insert_all es t with Some t' => (t', true) | None => (t, false) end.

(** ** Queries *)

(** [SELECT ... WHERE p ORDER BY ... LIMIT limit], for a positive limit. *)
Definition select (p : LogRow -> bool) (less : LogRow -> LogRow -> bool) (limit : Z) (t : LogTable)
    : list LogRow :=
  take (Z.to_nat limit) (SliceStable less (List.filter p (lt_rows t))).

(** [n <? m] for a column that may be NULL. *)
Definition col_lt (c : option Z) (m : Z) : bool :=
  match c with Some n => (n <? m)%Z | None => false end.

(** [COALESCE(seq, id)] *)
Definition seq_or_id (r : LogRow) : Z := default (row_id r) (row_seq r).

(** The orders (timestamp, id) and (timestamp, COALESCE(seq, id)). *)
Definition by_time (key : LogRow -> Z) (a b : LogRow) : bool :=
  (row_timestamp a <? row_timestamp b)%Z ||
  ((row_timestamp a =? row_timestamp b)%Z && (key a <? key b)%Z).
Definition desc {A} (less : A -> A -> bool) (a b : A) : bool := less b a.

Record FetchParams : Type := mkFetchParams {
  ftp_DeploymentID : string;
  ftp_RunID : string;
  ftp_Limit : Z;
  ftp_BeforeSeq : Z;
  ftp_BeforeTime : option time;
}.

Definition fetch_where (p : FetchParams) (r : LogRow) : bool :=
  ((ftp_DeploymentID p =? "") || (row_deployment r =? ftp_DeploymentID p)) &&
  ((ftp_RunID p =? "") || (row_run r =? ftp_RunID p)) &&
  (negb (0 <? ftp_BeforeSeq p)%Z || col_lt (row_seq r) (to_int64 (ftp_BeforeSeq p))) &&
  match ftp_BeforeTime p with Some t => (row_timestamp r <? t)%Z | None => true end.

(** [Fetch]. Rows with the same key come in the order of their ids here. *)
Definition Fetch (p : FetchParams) (t : LogTable) : list LogEntry :=
  let limit := if (ftp_Limit p <=? 0)%Z then 1000%Z else ftp_Limit p in
  scanLogEntry <$> rev (select (fetch_where p) (key_greater seq_or_id) limit t).

Record SearchParams : Type := mkSearchParams {
  srp_DeploymentIDs : list string;
  srp_Query : string;
  srp_Limit : Z;
  srp_Before : Z;
  srp_CursorTime : option time;
  srp_CursorID : Z;
  srp_From : option time;
  srp_To : option time;
}.

Record SearchResult : Type := mkSearchResult {
  srr_Entries : list LogEntry;
  srr_Total : Z;
  srr_DeploymentCounts : gmap string Z;
  srr_HasMore : bool;
}.

Section Search.
(** SQLite's [LOWER(message) LIKE LOWER(pattern)]. *)
Context (like : string -> string -> bool).

Definition search_base (p : SearchParams) (r : LogRow) : bool :=
  existsb (String.eqb (row_deployment r)) (srp_DeploymentIDs p) &&
  like (row_message r) ("%" ++ TrimSpace (srp_Query p) ++ "%") &&
  match srp_From p with Some t => (t <=? row_timestamp r)%Z | None => true end &&
  match srp_To p with Some t => (row_timestamp r <=? t)%Z | None => true end.

Definition search_where (p : SearchParams) (r : LogRow) : bool :=
  search_base p r &&
  (negb (0 <? srp_Before p)%Z || (row_id r <? srp_Before p)%Z) &&
  match srp_CursorTime p with
  | Some t =>
      time_is_zero t || (t <? row_timestamp r)%Z ||
      ((row_timestamp r =? t)%Z && (srp_CursorID p <? row_id r)%Z)
  | None => true
  end.

(** [SELECT deployment_id, COUNT( * ) ... GROUP BY deployment_id] *)
Definition count_by_deployment (rows : list LogRow) : gmap string Z :=
  foldr (fun r m => <[row_deployment r := (default 0 (m !! row_deployment r) + 1)%Z]> m) ∅ rows.

(** The last line of a paging query: one row more than the page is asked for. *)
Definition page {A} (limit : Z) (rows : list A) : list A * bool :=
  if (limit <? Z.of_nat (length rows))%Z then (take (Z.to_nat limit) rows, true) else (rows, false).

(** [Search], without errors of the database and with no write between its two queries. *)
Definition Search (p : SearchParams) (t : LogTable) : SearchResult :=
  if bool_decide (srp_DeploymentIDs p = []) || (TrimSpace (srp_Query p) =? "") then
    {| srr_Entries := []; srr_Total := 0; srr_DeploymentCounts := ∅; srr_HasMore := false |}
  else
    let limit := if (srp_Limit p <=? 0)%Z then 1000%Z else srp_Limit p in
    let found := List.filter (search_base p) (lt_rows t) in
    let '(rows, more) := page limit (select (search_where p) (by_time row_id) (limit + 1) t) in
    {| srr_Entries := scanLogEntry <$> rows; srr_Total := Z.of_nat (length found);
       srr_DeploymentCounts := count_by_deployment found; srr_HasMore := more |}.
End Search.

(** ** Contexts *)

Definition defaultContextLimitPerDeployment : Z := 1000.

Record ContextParams : Type := mkContextParams {
  ctp_TargetID : Z;
  ctp_TargetDeploymentID : string;
  ctp_DeploymentIDs : list string;
  ctp_Before : duration;
  ctp_After : duration;
  ctp_LimitPerDeployment : Z;
}.

Record ContextResult : Type := mkContextResult {
  ctr_TargetID : Z;
  ctr_AnchorTime : time;
  ctr_ItemsByDeployment : gmap string (list LogEntry);
}.

Definition fetchContextHalfWindow (dep : string) (from to : time) (limit : Z) (beforeAnchor : bool)
    (t : LogTable) : list LogEntry :=
  if beforeAnchor then
    scanLogEntry <$> rev (select
      (fun r => (row_deployment r =? dep) && (from <=? row_timestamp r)%Z && (row_timestamp r <? to)%Z)
      (desc (by_time row_id)) limit t)
  else
    scanLogEntry <$> select
      (fun r => (row_deployment r =? dep) && (from <=? row_timestamp r)%Z && (row_timestamp r <=? to)%Z)
      (by_time row_id) limit t.

Definition fetchContextWindow (targetID : Z) (anchor : time) (deps : list string)
    (before after : duration) (limit : Z) (t : LogTable) : ContextResult :=
  let before := if (before <=? 0)%Z then (30 * second)%Z else before in
  let after := if (after <=? 0)%Z then (30 * second)%Z else after in
  let limit := if (limit <=? 0)%Z then defaultContextLimitPerDeployment else limit in
  let from := time_add anchor (- before) in
  let to := time_add anchor after in
  let beforeLimit := (limit / 2)%Z in
  let afterLimit := (limit - beforeLimit)%Z in
  let window dep :=
    ((if (0 <? beforeLimit)%Z then fetchContextHalfWindow dep from anchor beforeLimit true t else []) ++
     (if (0 <? afterLimit)%Z then fetchContextHalfWindow dep anchor to afterLimit false t else []))%list in
  {| ctr_TargetID := targetID; ctr_AnchorTime := anchor;
     ctr_ItemsByDeployment := foldl (fun m dep => <[dep := window dep]> m) ∅ deps |}.

(** [FetchContext]; [None] is [ErrLogEntryNotFound]. *)
Definition FetchContext (p : ContextParams) (t : LogTable) : option ContextResult :=
  if (ctp_TargetID p <=? 0)%Z || bool_decide (ctp_DeploymentIDs p = []) then None
  else
    let target r :=
      (row_id r =? ctp_TargetID p)%Z &&
      (if negb (ctp_TargetDeploymentID p =? "") then row_deployment r =? ctp_TargetDeploymentID p
       else existsb (String.eqb (row_deployment r)) (ctp_DeploymentIDs p)) in
    match List.find target (lt_rows t) with
    | None => None
    | Some r => Some (fetchContextWindow (ctp_TargetID p) (row_timestamp r) (ctp_DeploymentIDs p)
                        (ctp_Before p) (ctp_After p) (ctp_LimitPerDeployment p) t)
    end.

(** [FetchContextAt] *)
Definition FetchContextAt (anchor : time) (deps : list string) (before after : duration) (limit : Z)
    (t : LogTable) : option ContextResult :=
  if time_is_zero anchor || bool_decide (deps = []) then None
  else Some (fetchContextWindow 0 anchor deps before after limit t).

Inductive ContextPageDirection : Type :=
| ContextPageBefore
| ContextPageAfter
| ContextPageOther (s : string).

Record ContextPageParams : Type := mkContextPageParams {
  cpp_DeploymentID : string;
  cpp_CursorTime : time;
  cpp_CursorSeq : Z;
  cpp_Direction : ContextPageDirection;
  cpp_Limit : Z;
}.

(** Whether the row is before or after the cursor. *)
Definition before_cursor (at_ : time) (seq : Z) (r : LogRow) : bool :=
  (row_timestamp r <? at_)%Z || ((row_timestamp r =? at_)%Z && (seq_or_id r <? seq)%Z).
Definition after_cursor (at_ : time) (seq : Z) (r : LogRow) : bool :=
  (at_ <? row_timestamp r)%Z || ((row_timestamp r =? at_)%Z && (seq <? seq_or_id r)%Z).

(** [FetchContextPage]: the entries and whether there are more. *)
Definition FetchContextPage (p : ContextPageParams) (t : LogTable)
    : result string (list LogEntry * bool) :=
  if (cpp_DeploymentID p =? "") || time_is_zero (cpp_CursorTime p) then Ok ([], false)
  else
    let limit := if (cpp_Limit p <=? 0)%Z then 200%Z else cpp_Limit p in
    let cursorSeq := to_int64 (cpp_CursorSeq p) in
    let of_deployment r := row_deployment r =? cpp_DeploymentID p in
    match cpp_Direction p with
    | ContextPageBefore =>
        let '(rows, more) := page limit
          (select (fun r => of_deployment r && before_cursor (cpp_CursorTime p) cursorSeq r)
             (desc (by_time seq_or_id)) (limit + 1) t) in
        Ok (scanLogEntry <$> rev rows, more)
    | ContextPageAfter =>
        let '(rows, more) := page limit
          (select (fun r => of_deployment r && after_cursor (cpp_CursorTime p) cursorSeq r)
             (by_time seq_or_id) (limit + 1) t) in
        Ok (scanLogEntry <$> rows, more)
    | ContextPageOther s => Err ("invalid context page direction: " ++ s)
    end.

(** [SeqWatermarks] *)
Definition SeqWatermarks (t : LogTable) : gmap string Z :=
  foldr (fun r m =>
    match row_seq r with
    | Some n => <[row_deployment r := match m !! row_deployment r with
                                      | Some k => Z.max n k | None => n end]> m
    | None => m
    end) ∅ (lt_rows t).

(** ** Retention *)

Definition day : duration := (24 * 60 * minute)%Z.

(** [DeleteOlderThan] *)
Definition DeleteOlderThan (now : time) (days : Z) (t : LogTable) : LogTable :=
  {| lt_rows := List.filter (fun r => negb (row_timestamp r <? now - days * day)%Z) (lt_rows t);
     lt_last := lt_last t |}.

Definition deleteBatchSize : nat := 100.

(** [DeleteToMaxBytes]: [size n] is what [SizeBytes] measures in round [n]. The result is the
    table and the number of rows that were deleted; [None] is a loop that has not ended. *)
Fixpoint delete_rounds (fuel : nat) (size : nat -> Z) (round : nat) (maxBytes : Z) (total : nat)
    (t : LogTable) : option (LogTable * nat) :=
  match fuel with
  | O => None
  | S fuel =>
      if (size round <=? maxBytes)%Z then Some (t, total)
      else
        let n := length (take deleteBatchSize (lt_rows t)) in
        let t := {| lt_rows := drop deleteBatchSize (lt_rows t); lt_last := lt_last t |} in
        if n =? 0 then Some (t, total)
        else delete_rounds fuel size (S round) maxBytes (total + n) t
  end%nat.

Definition DeleteToMaxBytes (fuel : nat) (size : nat -> Z) (maxBytes : Z) (t : LogTable)
    : option (LogTable * nat) :=
  if (maxBytes <=? 0)%Z then Some (t, 0) else delete_rounds fuel size 0 maxBytes 0 t.

(** [runOnce] of the cleaner, when the database does not fail. *)
Definition runOnce (fuel : nat) (now : time) (days : Z) (size : nat -> Z) (maxBytes : Z) (t : LogTable)
    : option LogTable :=
  fst <$> DeleteToMaxBytes fuel size maxBytes (DeleteOlderThan now days t).
