(* ===== verification/LogStoreTheorems.v ===== *)
(** * Theorems on the table of log entries

    The table keeps its unique indexes and ids; a batch leaves one row per fold key with the
    count of its last entry; the paging queries return consecutive parts of one sequence; the
    size limit removes the oldest rows and ends. *)
From stdpp Require Import base strings gmap list sorting.
From Stdlib Require Import ZArith Lia Sorted.
From S2P Require Import Prelude Model Pages LogStore.
Local Open Scope string_scope.
Local Open Scope list_scope.

(** ** Writing *)

(** The ids ascend up to the last one given, and the unique indexes hold. *)
Record table_ok (t : LogTable) : Prop := {
  tk_ids : StronglySorted Z.lt (row_id <$> lt_rows t);
  tk_last : Forall (fun r => 0 < row_id r <= lt_last t)%Z (lt_rows t);
  tk_nonneg : (0 <= lt_last t)%Z;
  tk_fold : forall r r', r ∈ lt_rows t -> r' ∈ lt_rows t -> row_fold r <> "" ->
    row_run r = row_run r' -> row_fold r = row_fold r' -> r = r';
  tk_seq : forall r r' n, r ∈ lt_rows t -> r' ∈ lt_rows t ->
    row_deployment r = row_deployment r' -> row_seq r = Some n -> row_seq r' = Some n -> r = r';
}.

(** All that an update of the row leaves alone. *)
Definition row_identity (r : LogRow) : LogRow :=
  {| row_id := row_id r; row_deployment := row_deployment r; row_run := row_run r;
     row_timestamp := row_timestamp r; row_level := row_level r; row_message := row_message r;
     row_stream := row_stream r; row_repeat := 0; row_fold := row_fold r; row_seq := row_seq r;
     row_last_seen := None |}.

Definition updated (e : LogEntry) (r : LogRow) : LogRow :=
  if fold_conflict e r then do_update e r else r.

Lemma existsb_spec {A} (p : A -> bool) l : existsb p l = true <-> exists x, x ∈ l /\ p x = true.
Proof. rewrite existsb_exists. by setoid_rewrite list_elem_of_In. Qed.

Lemma existsb_false {A} (p : A -> bool) l : existsb p l = false <-> forall x, x ∈ l -> p x = false.
Proof.
  rewrite <-not_true_iff_false, existsb_spec. split.
  - intros H x Hx. destruct (p x) eqn:E; [|done]. exfalso. eauto.
  - intros H (x & Hx & E). by rewrite H in E.
Qed.

Lemma fold_conflict_spec e r :
  fold_conflict e r = true <->
  log_FoldKey e <> "" /\ row_run r = log_RunID e /\ row_fold r = log_FoldKey e.
Proof.
  unfold fold_conflict. rewrite !andb_true_iff, negb_true_iff, String.eqb_neq, !String.eqb_eq. tauto.
Qed.

Lemma seq_conflict_spec e r :
  seq_conflict e r = true <->
  exists n, nullableSeq (log_Seq e) = Some n /\ row_seq r = Some n /\
    row_deployment r = log_DeploymentID e.
Proof.
  unfold seq_conflict. destruct (nullableSeq _) as [n|], (row_seq r) as [m|]; split;
    try (intros (k & ? & ? & ?); congruence); try done.
  - rewrite andb_true_iff, String.eqb_eq, Z.eqb_eq. intros [? ->]. by exists m.
  - intros (k & ? & ? & E). simplify_eq. rewrite E, String.eqb_refl. simpl. apply Z.eqb_refl.
Qed.

Lemma updated_identity e r : row_identity (updated e r) = row_identity r.
Proof. unfold updated. by destruct (fold_conflict e r). Qed.

Lemma updated_all_identity e (rows : list LogRow) : row_identity <$> (updated e <$> rows) = row_identity <$> rows.
Proof. rewrite <-list_fmap_compose. apply list_fmap_ext. intros i r _. apply updated_identity. Qed.

(** The two successful cases of an INSERT. *)
Lemma insert_entry_cases e t t' :
  insert_entry e t = Some t' ->
  ((exists r, r ∈ lt_rows t /\ fold_conflict e r = true) /\
   lt_rows t' = updated e <$> lt_rows t /\ lt_last t' = lt_last t) \/
  ((forall r, r ∈ lt_rows t -> fold_conflict e r = false /\ seq_conflict e r = false) /\
   lt_rows t' = lt_rows t ++ [new_row (lt_last t + 1) e] /\ lt_last t' = (lt_last t + 1)%Z)%list.
Proof.
  unfold insert_entry. destruct (existsb (fold_conflict e) (lt_rows t)) eqn:Ef; intros H.
  - left. simplify_eq/=. split; [by apply existsb_spec|done].
  - destruct (existsb (seq_conflict e) (lt_rows t)) eqn:Es; simplify_eq/=. right.
    rewrite existsb_false in Ef, Es. split; [auto|done].
Qed.

Lemma identity_fields r r' : row_identity r = row_identity r' ->
  row_id r = row_id r' /\ row_deployment r = row_deployment r' /\ row_run r = row_run r' /\
  row_fold r = row_fold r' /\ row_seq r = row_seq r'.
Proof. intros H. by injection H. Qed.

Lemma StronglySorted_snoc {A} (R : A -> A -> Prop) l x :
  StronglySorted R l -> Forall (fun y => R y x) l -> StronglySorted R (l ++ [x]).
Proof.
  induction 1 as [|y l Hs IH Hy]; intros Hf; simpl; [by repeat constructor|].
  apply Forall_cons in Hf as [Hyx Hf]. constructor; [by apply IH|].
  apply Forall_app. split; [done|by constructor].
Qed.

(** The conditions depend on what an update leaves alone. *)
Lemma table_ok_updated e t t' :
  table_ok t -> lt_rows t' = updated e <$> lt_rows t -> lt_last t' = lt_last t -> table_ok t'.
Proof.
  intros [H1 H2 H3 H4 H5] Er El.
  assert (forall r, r ∈ lt_rows t' -> exists r0, r0 ∈ lt_rows t /\ r = updated e r0 /\
    row_identity r = row_identity r0) as Hin.
  { intros r. rewrite Er. intros (r0 & -> & Hr0)%list_elem_of_fmap. exists r0.
    by rewrite updated_identity. }
  split; rewrite ?El; [| |done| |].
  - assert (row_id <$> lt_rows t' = row_id <$> lt_rows t) as ->; [|done].
    rewrite Er, <-list_fmap_compose. apply list_fmap_ext. intros i r _.
    unfold compose, updated. by destruct (fold_conflict e r).
  - apply Forall_forall. intros r (r0 & Hr0 & -> & (E & _)%identity_fields)%Hin. rewrite E.
    by apply (proj1 (Forall_forall _ _) H2).
  - intros r r' (r0 & Hr0 & -> & (_ & _ & E1 & E2 & _)%identity_fields)%Hin
      (r0' & Hr0' & -> & (_ & _ & E1' & E2' & _)%identity_fields)%Hin Hne Hrun Hfold.
    by rewrite (H4 r0 r0') by congruence.
  - intros r r' n (r0 & Hr0 & -> & (_ & E1 & _ & _ & E2)%identity_fields)%Hin
      (r0' & Hr0' & -> & (_ & E1' & _ & _ & E2')%identity_fields)%Hin Hdep Hn Hn'.
    by rewrite (H5 r0 r0' n) by congruence.
Qed.

Lemma insert_entry_ok e t t' : table_ok t -> insert_entry e t = Some t' -> table_ok t'.
Proof.
  intros Hok [(_ & Er & El)|(Hno & Er & El)]%insert_entry_cases; [by eapply table_ok_updated|].
  destruct Hok as [H1 H2 H3 H4 H5]. rewrite Forall_forall in H2. split; rewrite ?Er, ?El.
  - rewrite fmap_app. apply StronglySorted_snoc; [done|]. simpl. apply Forall_fmap, Forall_forall.
    intros r Hr. simpl. apply H2 in Hr. lia.
  - apply Forall_app. split; [|repeat constructor; simpl; lia]. apply Forall_forall.
    intros r Hr. apply H2 in Hr. lia.
  - lia.
  - intros r r' [Hr|Hr%list_elem_of_singleton]%elem_of_app [Hr'|Hr'%list_elem_of_singleton]%elem_of_app
      Hne Hrun Hfold; subst; simpl in *; [by apply H4| | |done].
    + destruct (Hno r Hr) as [Hf _]. assert (fold_conflict e r = true); [|congruence].
      apply fold_conflict_spec. split_and!; congruence.
    + destruct (Hno r' Hr') as [Hf _]. assert (fold_conflict e r' = true); [|congruence].
      apply fold_conflict_spec. split_and!; congruence.
  - intros r r' n [Hr|Hr%list_elem_of_singleton]%elem_of_app [Hr'|Hr'%list_elem_of_singleton]%elem_of_app
      Hdep Hn Hn'; subst; simpl in *; [by eapply H5| | |done].
    + destruct (Hno r Hr) as [_ Hs]. assert (seq_conflict e r = true); [|congruence].
      apply seq_conflict_spec. eauto.
    + destruct (Hno r' Hr') as [_ Hs]. assert (seq_conflict e r' = true); [|congruence].
      apply seq_conflict_spec. eauto.
Qed.

Lemma insert_all_ok es t t' : table_ok t -> insert_all es t = Some t' -> table_ok t'.
Proof.
  revert t. induction es as [|e es IH]; intros t Hok; simpl; [by intros [= <-]|].
  destruct (insert_entry e t) as [t1|] eqn:E; simpl; [|done]. intros H.
  eapply IH; [|exact H]. by eapply insert_entry_ok.
Qed.

Lemma AppendBatch_ok es t : table_ok t -> table_ok (AppendBatch es t).1.
Proof.
  intros Hok. unfold AppendBatch. destruct (insert_all es t) eqn:E; [|done].
  by eapply insert_all_ok.
Qed.

(** The entries of a batch that concern a row, and the row after them. *)
Definition entries_for (es : list LogEntry) (r : LogRow) : list LogEntry :=
  List.filter (fun e => fold_conflict e r) es.
Definition settled_row (es : list LogEntry) (r : LogRow) : LogRow :=
  match last (entries_for es r) with Some e => do_update e r | None => r end.

Lemma fold_conflict_identity e r r' :
  row_identity r = row_identity r' -> fold_conflict e r = fold_conflict e r'.
Proof. intros (_ & _ & E1 & E2 & _)%identity_fields. unfold fold_conflict. by rewrite E1, E2. Qed.

Lemma entries_for_identity es r r' :
  row_identity r = row_identity r' -> entries_for es r = entries_for es r'.
Proof.
  intros H. unfold entries_for. apply filter_ext. intros e. by apply fold_conflict_identity.
Qed.

Lemma settled_identity es r : row_identity (settled_row es r) = row_identity r.
Proof. unfold settled_row. by destruct (last (entries_for es r)). Qed.

Lemma settled_cons e es r : settled_row (e :: es) r = settled_row es (updated e r).
Proof.
  unfold settled_row. rewrite (entries_for_identity es (updated e r) r) by apply updated_identity.
  unfold entries_for. simpl. unfold updated. destruct (fold_conflict e r) eqn:E; [|done].
  rewrite last_cons. by destruct (last (List.filter _ es)).
Qed.

Lemma insert_all_rows es t t' :
  insert_all es t = Some t' ->
  exists tail, lt_rows t' = (settled_row es <$> lt_rows t) ++ tail /\
    forall r, r ∈ tail -> exists e id, e ∈ es /\ row_identity r = row_identity (new_row id e).
Proof.
  revert t. induction es as [|e es IH]; intros t; simpl.
  { intros [= <-]. exists []. rewrite app_nil_r. split; [symmetry; apply list_fmap_id|].
    intros r Hr. by apply elem_of_nil in Hr. }
  destruct (insert_entry e t) as [t1|] eqn:E; simpl; [|done]. intros H.
  destruct (IH t1 H) as (tail & Er & Htail).
  assert (settled_row (e :: es) <$> lt_rows t = settled_row es <$> (updated e <$> lt_rows t)) as ->.
  { rewrite <-list_fmap_compose. apply list_fmap_ext. intros i r _. apply settled_cons. }
  apply insert_entry_cases in E as [(_ & E & _)|(Hno & E & _)].
  - exists tail. split; [by rewrite Er, E|]. intros r (e' & id & He & Hr)%Htail.
    exists e', id. split; [by right|done].
  - exists (settled_row es (new_row (lt_last t + 1) e) :: tail). split.
    + rewrite Er, E, fmap_app, <-app_assoc. f_equal. f_equal.
      rewrite <-(list_fmap_id (lt_rows t)) at 1. apply list_fmap_ext. intros i r Hr.
      unfold updated. destruct (Hno r) as [-> _]; [by eapply list_elem_of_lookup_2|done].
    + intros r [->|(e' & id & He & Hr)%Htail]%elem_of_cons.
      * exists e, (lt_last t + 1)%Z. split; [by left|apply settled_identity].
      * exists e', id. split; [by right|done].
Qed.

Lemma conflict_new_row id e : log_FoldKey e <> "" -> fold_conflict e (new_row id e) = true.
Proof. intros H. by apply fold_conflict_spec. Qed.

Lemma entries_for_nil es r e : entries_for es r = [] -> e ∈ es -> fold_conflict e r = false.
Proof.
  intros H He. destruct (fold_conflict e r) eqn:E; [|done]. exfalso.
  assert (e ∈ entries_for es r) as Hin; [|rewrite H in Hin; by apply elem_of_nil in Hin].
  apply list_elem_of_In, filter_In. split; [by apply list_elem_of_In|done].
Qed.

Lemma insert_all_counts es t t' r e :
  insert_all es t = Some t' -> r ∈ lt_rows t' -> last (entries_for es r) = Some e ->
  row_repeat r = stored_count e /\ row_last_seen r = Some (log_Timestamp e).
Proof.
  revert t. induction es as [|e0 es IH]; intros t; simpl; [done|].
  destruct (insert_entry e0 t) as [t1|] eqn:E; simpl; [|done]. intros H Hr Hlast.
  destruct (last (entries_for es r)) as [e1|] eqn:El.
  { assert (e = e1) as ->; [|by eapply IH].
    destruct (fold_conflict e0 r); [|congruence].
    change (List.filter _ es) with (entries_for es r) in Hlast. rewrite last_cons, El in Hlast.
    by simplify_eq. }
  apply last_None in El. change (List.filter _ es) with (entries_for es r) in Hlast.
  rewrite El in Hlast. destruct (fold_conflict e0 r) eqn:Ec; simplify_eq/=.
  destruct (insert_all_rows _ _ _ H) as (tail & Er & Htail). rewrite Er in Hr.
  pose proof Ec as (Hk & Hrun & Hfold)%fold_conflict_spec.
  apply elem_of_app in Hr as [(r1 & -> & Hr1)%list_elem_of_fmap|(e2 & id & He2 & Hid)%Htail].
  - rewrite (entries_for_identity es _ r1) in El by apply settled_identity.
    rewrite (fold_conflict_identity e _ r1) in Ec by apply settled_identity.
    unfold settled_row. rewrite El. simpl.
    apply insert_entry_cases in E as [(_ & E & _)|(Hno & E & _)]; rewrite E in Hr1.
    + apply list_elem_of_fmap in Hr1 as (r0 & -> & _).
      rewrite (fold_conflict_identity e _ r0) in Ec by apply updated_identity.
      unfold updated. by rewrite Ec.
    + apply elem_of_app in Hr1 as [Hr1|Hr1%list_elem_of_singleton]; [|by subst].
      destruct (Hno r1 Hr1). congruence.
  - exfalso. pose proof (entries_for_nil _ _ _ El He2) as Hc.
    rewrite (fold_conflict_identity e2 r (new_row id e2) Hid), conflict_new_row in Hc; [done|].
    apply identity_fields in Hid as (_ & _ & _ & Hf & _). simpl in Hf. congruence.
Qed.

Lemma insert_all_present es t t' e :
  insert_all es t = Some t' -> e ∈ es -> log_FoldKey e <> "" ->
  exists r, r ∈ lt_rows t' /\ fold_conflict e r = true.
Proof.
  revert t. induction es as [|e0 es IH]; intros t; simpl; [by intros _ ?%elem_of_nil|].
  destruct (insert_entry e0 t) as [t1|] eqn:E; simpl; [|done]. intros H He Hk.
  apply elem_of_cons in He as [->|He]; [|by eapply IH].
  assert (exists r, r ∈ lt_rows t1 /\ fold_conflict e0 r = true) as (r & Hr & Hc).
  { apply insert_entry_cases in E as [((r & Hr & Hc) & E & _)|(Hno & E & _)]; rewrite E.
    - exists (updated e0 r). split; [by apply list_elem_of_fmap_2|].
      by rewrite (fold_conflict_identity e0 _ r) by apply updated_identity.
    - exists (new_row (lt_last t + 1) e0). split; [|by apply conflict_new_row].
      apply elem_of_app. right. by left. }
  destruct (insert_all_rows _ _ _ H) as (tail & Er & _).
  exists (settled_row es r). split.
  - rewrite Er. apply elem_of_app. left. by apply list_elem_of_fmap_2.
  - by rewrite (fold_conflict_identity e0 _ r) by apply settled_identity.
Qed.

(** When the entries agree on what identifies a row, and no other row has their number, the
    batch is accepted. *)
Definition agree (es : list LogEntry) : Prop :=
  forall e e' id, e ∈ es -> e' ∈ es ->
    seq_conflict e (new_row id e') = true -> fold_conflict e (new_row id e') = true.
Definition no_clash (es : list LogEntry) (t : LogTable) : Prop :=
  forall e r, e ∈ es -> r ∈ lt_rows t -> seq_conflict e r = true -> fold_conflict e r = true.

Lemma seq_conflict_identity e r r' :
  row_identity r = row_identity r' -> seq_conflict e r = seq_conflict e r'.
Proof. intros (_ & E1 & _ & _ & E2)%identity_fields. unfold seq_conflict. by rewrite E1, E2. Qed.

Lemma insert_all_total es t : agree es -> no_clash es t -> is_Some (insert_all es t).
Proof.
  revert t. induction es as [|e es IH]; intros t Ha Hc; simpl; [by eexists|].
  assert (agree es) as Ha' by (intros x y id Hx Hy; apply Ha; by right).
  unfold insert_entry. destruct (existsb (fold_conflict e) (lt_rows t)) eqn:Ef; simpl.
  - apply IH; [done|]. intros x r Hx (r0 & -> & Hr0)%list_elem_of_fmap. fold (updated e r0).
    rewrite (seq_conflict_identity x _ r0), (fold_conflict_identity x _ r0) by apply updated_identity.
    apply Hc; [by right|done].
  - replace (existsb (seq_conflict e) (lt_rows t)) with false.
    2: { symmetry. apply existsb_false. intros r Hr. destruct (seq_conflict e r) eqn:E; [|done].
         rewrite existsb_false in Ef. rewrite <-(Ef r Hr). symmetry. apply Hc; [by left|done..]. }
    simpl. apply IH; [done|]. intros x r Hx [Hr| ->%list_elem_of_singleton]%elem_of_app.
    + apply Hc; [by right|done].
    + apply Ha; [by right|by left].
Qed.

(** ** Paging *)

Ltac order_bool :=
  repeat match goal with
  | H : (_ || _) = false |- _ => apply orb_false_iff in H as [? ?]
  | H : (_ || _) = true |- _ => apply orb_true_iff in H as [?|?]
  | H : (_ && _) = true |- _ => apply andb_true_iff in H as [? ?]
  | H : (_ && _) = false |- _ => apply andb_false_iff in H as [?|?]
  end.

#[export] Instance by_time_order key : WeakOrder (by_time key).
Proof.
  unfold by_time. split.
  - intros a b c H1 H2. apply orb_false_iff. rewrite andb_false_iff. order_bool; lia.
  - intros a b H. apply orb_false_iff. rewrite andb_false_iff. order_bool; lia.
Qed.

#[export] Instance key_greater_order {A} (key : A -> Z) : WeakOrder (key_greater key).
Proof. unfold key_greater. split; intros; lia. Qed.

#[export] Instance key_less_order {A} (key : A -> Z) : WeakOrder (key_less key).
Proof. unfold key_less. split; intros; lia. Qed.

Lemma by_time_equal key a b :
  by_time key a b = false -> by_time key b a = false ->
  row_timestamp a = row_timestamp b /\ key a = key b.
Proof. unfold by_time. intros H1 H2. order_bool; lia. Qed.

Lemma StronglySorted_lt_NoDup l : StronglySorted Z.lt l -> NoDup l.
Proof.
  induction 1 as [|x l _ IH Hx]; constructor; [|done]. intros Hin.
  apply (proj1 (Forall_forall _ _) Hx) in Hin. lia.
Qed.

Lemma table_ids_NoDup t : table_ok t -> NoDup (row_id <$> lt_rows t).
Proof. intros H. by apply StronglySorted_lt_NoDup, tk_ids. Qed.

Lemma NoDup_fmap_inj {A B} (f : A -> B) l x y :
  NoDup (f <$> l) -> x ∈ l -> y ∈ l -> f x = f y -> x = y.
Proof.
  induction l as [|z l IH]; simpl; [by intros _ ?%elem_of_nil|].
  intros [Hz Hn]%NoDup_cons Hx Hy E.
  apply elem_of_cons in Hx as [->|Hx], Hy as [->|Hy]; [done| | |by apply IH];
    exfalso; apply Hz; [rewrite E|rewrite <-E]; by apply list_elem_of_fmap_2.
Qed.

(** Rows are told apart by their ids, and those of a deployment by their numbers. *)
Lemma distinct_by_id t : table_ok t -> distinct (by_time row_id) (lt_rows t).
Proof.
  intros Hok. pose proof (table_ids_NoDup t Hok) as Hn. split; [by eapply NoDup_fmap_1|].
  intros a b Ha Hb H1 H2. destruct (by_time_equal _ _ _ H1 H2). by eapply NoDup_fmap_inj.
Qed.

Definition of_deployment (dep : string) (r : LogRow) : bool := (row_deployment r =? dep)%string.

(** All rows of the deployment have been numbered by the log buffer. *)
Definition numbered (dep : string) (t : LogTable) : Prop :=
  forall r, r ∈ lt_rows t -> row_deployment r = dep ->
    exists n, row_seq r = Some n /\ (0 < n < 2 ^ 63)%Z.

Lemma same_seq t dep a b :
  table_ok t -> numbered dep t -> a ∈ List.filter (of_deployment dep) (lt_rows t) ->
  b ∈ List.filter (of_deployment dep) (lt_rows t) -> seq_or_id a = seq_or_id b -> a = b.
Proof.
  intros Hok Hnum [Ha Hda]%list_elem_of_In%filter_In [Hb Hdb]%list_elem_of_In%filter_In E.
  apply list_elem_of_In in Ha, Hb. apply String.eqb_eq in Hda, Hdb.
  destruct (Hnum a Ha Hda) as (n & En & _), (Hnum b Hb Hdb) as (m & Em & _).
  unfold seq_or_id in E. rewrite En, Em in E. simpl in E. subst m.
  apply (tk_seq t Hok a b n); congruence.
Qed.

Lemma filter_NoDup {A} (p : A -> bool) l : NoDup l -> NoDup (List.filter p l).
Proof. intros H. apply NoDup_ListNoDup, List.NoDup_filter. by apply NoDup_ListNoDup. Qed.

Lemma distinct_by_seq t dep :
  table_ok t -> numbered dep t ->
  distinct (by_time seq_or_id) (List.filter (of_deployment dep) (lt_rows t)) /\
  distinct (key_less seq_or_id) (List.filter (of_deployment dep) (lt_rows t)).
Proof.
  intros Hok Hnum. pose proof (distinct_by_id t Hok) as [Hn _]. split; (split; [by apply filter_NoDup|]);
    intros a b Ha Hb H1 H2; apply (same_seq t dep); try done.
  - by destruct (by_time_equal _ _ _ H1 H2).
  - unfold key_less in *. lia.
Qed.

Lemma page_take {A} limit (l : list A) :
  (0 <= limit)%Z ->
  page limit (take (Z.to_nat (limit + 1)) l) =
    (take (Z.to_nat limit) l, (limit <? Z.of_nat (length l))%Z).
Proof.
  intros H. unfold page. rewrite length_take.
  destruct (Z.ltb_spec limit (Z.of_nat (length l))).
  - rewrite (proj2 (Z.ltb_lt _ _)) by lia. by rewrite take_take, Nat.min_l by lia.
  - rewrite (proj2 (Z.ltb_ge _ _)) by lia. by rewrite !take_ge by lia.
Qed.

(** Where the cursor of a search stands: after the first [k] of the rows that match. *)
Definition cursor_after (found : list LogRow) (p : SearchParams) (k : nat) : Prop :=
  match k with
  | O => default 0%Z (srp_CursorTime p) = 0%Z
  | S j => exists r, found !! j = Some r /\ row_timestamp r <> 0%Z /\
      srp_CursorTime p = Some (row_timestamp r) /\ srp_CursorID p = row_id r
  end.

Lemma search_rows like p t k :
  table_ok t -> srp_Before p = 0%Z ->
  let found := selection (by_time row_id) (search_base like p) (lt_rows t) in
  cursor_after found p k ->
  SliceStable (by_time row_id) (List.filter (search_where like p) (lt_rows t)) = drop k found.
Proof.
  intros Hok Hb found Hc. destruct k as [|j].
  - rewrite drop_0. unfold found, selection. f_equal. apply filter_ext. intros r.
    unfold search_where. rewrite Hb. simpl. simpl in Hc.
    destruct (srp_CursorTime p) as [ct|]; simpl in *; subst; by rewrite ?andb_true_r.
  - destruct Hc as (c & Hc & Hz & Ht & Hid). apply (select_after _ _ _ _ j c).
    + by apply distinct_filter, distinct_by_id.
    + done.
    + intros r _. unfold search_where. rewrite Hb, Ht, Hid. simpl. rewrite andb_true_r. f_equal.
      unfold by_time, time_is_zero. rewrite (proj2 (Z.eqb_neq _ _) Hz). simpl.
      by rewrite (Z.eqb_sym (row_timestamp c)).
Qed.

Lemma Search_page like p t k :
  table_ok t -> srp_DeploymentIDs p <> [] -> TrimSpace (srp_Query p) <> ""%string ->
  (0 < srp_Limit p)%Z -> srp_Before p = 0%Z ->
  let found := selection (by_time row_id) (search_base like p) (lt_rows t) in
  cursor_after found p k ->
  srr_Entries (Search like p t) = scanLogEntry <$> take (Z.to_nat (srp_Limit p)) (drop k found) /\
  srr_HasMore (Search like p t) = (srp_Limit p <? Z.of_nat (length found - k))%Z /\
  srr_Total (Search like p t) = Z.of_nat (length found).
Proof.
  intros Hok Hd Hq Hl Hb found Hc. unfold Search. rewrite bool_decide_false by done.
  rewrite (proj2 (String.eqb_neq _ _) Hq). simpl. rewrite (proj2 (Z.leb_gt _ _) Hl).
  unfold select. rewrite (search_rows like p t k Hok Hb Hc).
  rewrite page_take by lia. fold found. simpl. rewrite length_drop. split_and!; [done..|].
  unfold found, selection. by rewrite SliceStable_length.
Qed.

(** The page before position [k], from the query that goes backwards. *)
Lemma back_page {A} limit k (l : list A) :
  (0 <= limit)%Z -> k <= length l ->
  rev (take (Z.to_nat limit) (rev (take k l))) = drop (k - Z.to_nat limit) (take k l).
Proof. intros H Hk. rewrite rev_take_rev, length_take. by rewrite Nat.min_l by lia. Qed.

(** The number of a row of the selection, as the cursor passes it. *)
Lemma cursor_seq less t dep k c n :
  numbered dep t -> selection less (of_deployment dep) (lt_rows t) !! k = Some c ->
  row_seq c = Some n -> to_int64 n = n /\ (0 < n)%Z /\ seq_or_id c = n.
Proof.
  intros Hnum Hk Hn. assert (c ∈ lt_rows t /\ row_deployment c = dep) as [Hc Hcd].
  { apply list_elem_of_lookup_2, SliceStable_elem, list_elem_of_In, filter_In in Hk as [Hc Hd'].
    split; [by apply list_elem_of_In|by apply String.eqb_eq]. }
  destruct (Hnum c Hc Hcd) as (m & Em & Hm). simplify_eq. unfold to_int64, seq_or_id.
  rewrite (proj2 (Z.ltb_lt _ _)), Hn by lia. split_and!; [done|lia|done].
Qed.

Lemma FetchContextPage_after t dep k c limit n :
  table_ok t -> numbered dep t -> dep <> ""%string -> (0 < limit)%Z ->
  let all := selection (by_time seq_or_id) (of_deployment dep) (lt_rows t) in
  all !! k = Some c -> row_timestamp c <> 0%Z -> row_seq c = Some n ->
  FetchContextPage (mkContextPageParams dep (row_timestamp c) n ContextPageAfter limit) t =
    Ok (scanLogEntry <$> take (Z.to_nat limit) (drop (S k) all),
        (limit <? Z.of_nat (length all - S k))%Z).
Proof.
  intros Hok Hnum Hdep Hl all Hk Hz Hn. destruct (distinct_by_seq t dep Hok Hnum) as [Hd _].
  destruct (cursor_seq _ _ _ _ _ _ Hnum Hk Hn) as (Hint & _ & Hs).
  unfold FetchContextPage. simpl. unfold time_is_zero.
  rewrite (proj2 (String.eqb_neq _ _) Hdep), (proj2 (Z.eqb_neq _ _) Hz). simpl.
  rewrite (proj2 (Z.leb_gt _ _)) by lia. unfold select. rewrite Hint.
  rewrite (select_after (by_time seq_or_id) (of_deployment dep) _ _ k c Hd Hk).
  2: { intros r _. unfold after_cursor, by_time, of_deployment. f_equal.
       by rewrite (Z.eqb_sym (row_timestamp c)), Hs. }
  rewrite page_take by lia. fold all. by rewrite length_drop.
Qed.

Lemma FetchContextPage_before t dep k c limit n :
  table_ok t -> numbered dep t -> dep <> ""%string -> (0 < limit)%Z ->
  let all := selection (by_time seq_or_id) (of_deployment dep) (lt_rows t) in
  all !! k = Some c -> row_timestamp c <> 0%Z -> row_seq c = Some n ->
  FetchContextPage (mkContextPageParams dep (row_timestamp c) n ContextPageBefore limit) t =
    Ok (scanLogEntry <$> drop (k - Z.to_nat limit) (take k all), (limit <? Z.of_nat k)%Z).
Proof.
  intros Hok Hnum Hdep Hl all Hk Hz Hn. destruct (distinct_by_seq t dep Hok Hnum) as [Hd _].
  destruct (cursor_seq _ _ _ _ _ _ Hnum Hk Hn) as (Hint & _ & Hs).
  pose proof (lookup_lt_Some _ _ _ Hk) as Hlt.
  unfold FetchContextPage. simpl. unfold time_is_zero.
  rewrite (proj2 (String.eqb_neq _ _) Hdep), (proj2 (Z.eqb_neq _ _) Hz). simpl.
  rewrite (proj2 (Z.leb_gt _ _)) by lia. unfold select. rewrite Hint.
  unfold desc. rewrite (select_desc (by_time seq_or_id) (of_deployment dep) _ _ k c Hd Hk).
  2: { intros r _. unfold before_cursor, by_time, of_deployment. by rewrite Hs. }
  rewrite page_take by lia. fold all.
  rewrite back_page by lia. by rewrite <-Permutation_rev, length_take, Nat.min_l by lia.
Qed.

Lemma Fetch_before t dep k c limit n :
  table_ok t -> numbered dep t -> dep <> ""%string -> (0 < limit)%Z ->
  let all := selection (key_less seq_or_id) (of_deployment dep) (lt_rows t) in
  all !! k = Some c -> row_seq c = Some n ->
  Fetch (mkFetchParams dep "" limit n None) t =
    scanLogEntry <$> drop (k - Z.to_nat limit) (take k all).
Proof.
  intros Hok Hnum Hdep Hl all Hk Hn. destruct (distinct_by_seq t dep Hok Hnum) as [_ Hd].
  destruct (cursor_seq _ _ _ _ _ _ Hnum Hk Hn) as (Hint & Hpos & Hs).
  pose proof (lookup_lt_Some _ _ _ Hk) as Hlt.
  unfold Fetch. simpl. rewrite (proj2 (Z.leb_gt _ _)) by lia. unfold select.
  change (key_greater seq_or_id) with (fun a b => key_less seq_or_id b a).
  rewrite (select_desc (key_less seq_or_id) (of_deployment dep) _ _ k c Hd Hk).
  - fold all. by rewrite back_page by lia.
  - intros r Hr. unfold fetch_where, of_deployment, key_less. simpl.
    rewrite (proj2 (String.eqb_neq _ _) Hdep), (proj2 (Z.ltb_lt _ _) Hpos), Hint, Hs. simpl.
    rewrite !andb_true_r. destruct (String.eqb_spec (row_deployment r) dep) as [E|]; [|done].
    destruct (Hnum r Hr E) as (m & Em & _). unfold col_lt, seq_or_id. by rewrite Em.
Qed.

Lemma Fetch_last t dep limit :
  table_ok t -> numbered dep t -> dep <> ""%string -> (0 < limit)%Z ->
  let all := selection (key_less seq_or_id) (of_deployment dep) (lt_rows t) in
  Fetch (mkFetchParams dep "" limit 0 None) t =
    scanLogEntry <$> drop (length all - Z.to_nat limit) all.
Proof.
  intros Hok Hnum Hdep Hl all. destruct (distinct_by_seq t dep Hok Hnum) as [_ Hd].
  unfold Fetch. simpl. rewrite (proj2 (Z.leb_gt _ _)) by lia. unfold select.
  change (key_greater seq_or_id) with (fun a b => key_less seq_or_id b a).
  rewrite (filter_ext_elem _ (of_deployment dep)).
  - rewrite (sort_desc (key_less seq_or_id) _ Hd). fold (selection (key_less seq_or_id) (of_deployment dep) (lt_rows t)).
    fold all. by rewrite rev_take_rev.
  - intros r _. unfold fetch_where. simpl.
    rewrite (proj2 (String.eqb_neq _ _) Hdep). simpl. by rewrite !andb_true_r.
Qed.

(** Reading the log of a deployment backwards, a page at a time, as the desktop does: the next
    page ends before the first row of the last one, until a page is empty. *)
Fixpoint read_back (fuel : nat) (dep : string) (limit before : Z) (t : LogTable)
    : option (list (list LogEntry)) :=
  match fuel with
  | O => None
  | S fuel =>
      match Fetch (mkFetchParams dep "" limit before None) t with
      | [] => Some []
      | (e :: _) as es => cons es <$> read_back fuel dep limit (log_Seq e) t
      end
  end.

Lemma read_back_from t dep limit fuel k before :
  table_ok t -> numbered dep t -> dep <> ""%string -> (0 < limit)%Z ->
  let all := selection (key_less seq_or_id) (of_deployment dep) (lt_rows t) in
  k < fuel -> k <= length all ->
  Fetch (mkFetchParams dep "" limit before None) t =
    scanLogEntry <$> drop (k - Z.to_nat limit) (take k all) ->
  exists pages, read_back fuel dep limit before t = Some pages /\
    concat (rev pages) = scanLogEntry <$> take k all.
Proof.
  intros Hok Hnum Hdep Hl all. revert k before.
  induction fuel as [|fuel IH]; intros k before Hk Hle HF; [lia|]. cbn [read_back]. rewrite HF.
  destruct (decide (k = 0)) as [->|Hne].
  { rewrite take_0, drop_nil. simpl. by exists []. }
  set (j := k - Z.to_nat limit). assert (j < k) as Hj by (unfold j; lia).
  destruct (lookup_lt_is_Some_2 all j) as [c Hc]; [lia|].
  assert (drop j (take k all) = c :: drop (S j) (take k all)) as E.
  { apply drop_S. by rewrite lookup_take_lt. }
  destruct (Hnum c) as (n & En & Hn).
  { apply list_elem_of_lookup_2, SliceStable_elem, list_elem_of_In, filter_In in Hc as [Hc _].
    by apply list_elem_of_In. }
  { apply list_elem_of_lookup_2, SliceStable_elem, list_elem_of_In, filter_In in Hc as [_ Hc].
    by apply String.eqb_eq. }
  rewrite E. cbn [fmap list_fmap]. cbn [scanLogEntry log_Seq]. rewrite En, (proj2 (Z.ltb_lt _ _)) by lia.
  destruct (IH j n) as (pages & -> & Hp); [lia|lia|by apply (Fetch_before t dep j c)|].
  simpl. eexists. split; [done|]. simpl. rewrite concat_app, Hp. simpl. rewrite app_nil_r.
  change (scanLogEntry c :: (scanLogEntry <$> drop (S j) (take k all))) with
    (scanLogEntry <$> c :: drop (S j) (take k all)).
  rewrite <-E, <-fmap_app. f_equal.
  rewrite <-(take_drop j (take k all)) at 2. by rewrite take_take, Nat.min_l by lia.
Qed.

(** ** Retention *)

Lemma delete_rounds_spec fuel size max t round total :
  length (lt_rows t) < fuel ->
  exists n, delete_rounds fuel size round max total t =
      Some ({| lt_rows := drop n (lt_rows t); lt_last := lt_last t |}, total + n) /\
    n <= length (lt_rows t) /\
    (n = length (lt_rows t) \/ exists k, n = k * deleteBatchSize /\ (size (round + k)%nat <= max)%Z).
Proof.
  revert t round total. induction fuel as [|fuel IH]; intros t round total Hf; [lia|].
  cbn [delete_rounds]. destruct (Z.leb_spec (size round) max).
  { exists 0. rewrite drop_0, Nat.add_0_r. destruct t. split_and!; [done|lia|]. right. exists 0.
    by rewrite Nat.add_0_r. }
  rewrite length_take. destruct (Nat.eqb_spec (deleteBatchSize `min` length (lt_rows t)) 0) as [E|E].
  { assert (length (lt_rows t) = 0) as El by (unfold deleteBatchSize in E; lia). exists 0.
    rewrite drop_0, Nat.add_0_r. destruct t as [[|r rows] last]; [|done]. split_and!; auto. }
  edestruct (IH {| lt_rows := drop deleteBatchSize (lt_rows t); lt_last := lt_last t |} (S round))
    as (n & Er & Hn & Hc).
  { cbn [lt_rows]. rewrite length_drop. unfold deleteBatchSize in *. lia. }
  rewrite Er. cbn [lt_rows lt_last] in *. rewrite length_drop in Hn, Hc. rewrite drop_drop.
  destruct (decide (length (lt_rows t) <= deleteBatchSize)) as [Hs|Hs].
  - exists (length (lt_rows t)). split_and!; [|lia|by left]. rewrite Nat.min_r by lia.
    f_equal. f_equal; [|lia]. f_equal. by rewrite !drop_ge by lia.
  - exists (deleteBatchSize + n). rewrite Nat.min_l by lia. split_and!; [by rewrite Nat.add_assoc|lia|].
    destruct Hc as [->|(k & -> & Hk)]; [left; lia|]. right. exists (S k).
    split; [simpl; lia|]. by rewrite Nat.add_succ_r.
Qed.

(** Removing rows keeps the table in order. *)
Lemma table_ok_sublist t t' :
  table_ok t -> lt_rows t' `sublist_of` lt_rows t -> lt_last t' = lt_last t -> table_ok t'.
Proof.
  intros [H1 H2 H3 H4 H5] Hs El.
  assert (forall r, r ∈ lt_rows t' -> r ∈ lt_rows t) as Hin by (intros r Hr; by eapply elem_of_sublist).
  split; rewrite ?El; [| |done| |].
  - eapply StronglySorted_sublist; [|exact H1]. by apply fmap_sublist.
  - apply Forall_forall. intros r Hr. apply (proj1 (Forall_forall _ _) H2). auto.
  - intros r r' Hr Hr'. apply H4; auto.
  - intros r r' n Hr Hr'. apply H5; auto.
Qed.

Lemma filter_sublist {A} (p : A -> bool) l : List.filter p l `sublist_of` l.
Proof. induction l as [|x l IH]; simpl; [done|]. destruct (p x); by constructor. Qed.

Lemma DeleteOlderThan_ok now days t : table_ok t -> table_ok (DeleteOlderThan now days t).
Proof. intros H. by eapply table_ok_sublist; [exact H|apply filter_sublist|]. Qed.

Lemma DeleteToMaxBytes_ok fuel size max t t' n :
  length (lt_rows t) < fuel -> table_ok t -> DeleteToMaxBytes fuel size max t = Some (t', n) -> table_ok t'.
Proof.
  intros Hf Hok. unfold DeleteToMaxBytes. destruct (max <=? 0)%Z; [by intros [= <- _]|].
  destruct (delete_rounds_spec fuel size max t 0 0 Hf) as (k & -> & _). intros [= <- _].
  eapply table_ok_sublist; [exact Hok|apply sublist_drop|done].
Qed.

(** ** Watermarks *)

Lemma SeqWatermarks_spec t dep :
  match SeqWatermarks t !! dep with
  | Some k =>
      (exists r, r ∈ lt_rows t /\ row_deployment r = dep /\ row_seq r = Some k) /\
      (forall r n, r ∈ lt_rows t -> row_deployment r = dep -> row_seq r = Some n -> (n <= k)%Z)
  | None => forall r, r ∈ lt_rows t -> row_deployment r = dep -> row_seq r = None
  end.
Proof.
  unfold SeqWatermarks. induction (lt_rows t) as [|r rows IH]; simpl.
  { rewrite lookup_empty. by intros r ?%elem_of_nil. }
  destruct (row_seq r) as [n|] eqn:En.
  2: { destruct (foldr _ _ _ !! dep) as [k|].
       - destruct IH as ((r0 & Hr0 & E0 & Ek) & Hmax). split; [exists r0; split; [by right|done]|].
         intros r' n [->|Hr']%elem_of_cons Hd Hn; [congruence|by eapply Hmax].
       - intros r' [->|Hr']%elem_of_cons Hd; [done|by apply IH]. }
  destruct (decide (row_deployment r = dep)) as [<-|Hne].
  - rewrite lookup_insert_eq. destruct (foldr _ _ _ !! row_deployment r) as [k|].
    + destruct IH as ((r0 & Hr0 & E0 & Ek) & Hmax). split.
      * destruct (Z.max_spec n k) as [[_ ->]|[_ ->]].
        -- exists r0. split; [by right|done].
        -- exists r. split; [by left|done].
      * intros r' m [->|Hr']%elem_of_cons Hd Hm; [simplify_eq; lia|].
        pose proof (Hmax r' m Hr' Hd Hm). lia.
    + split; [exists r; split; [by left|done]|].
      intros r' m [->|Hr']%elem_of_cons Hd Hm; [by simplify_eq|].
      rewrite IH in Hm by done. done.
  - rewrite lookup_insert_ne by done. destruct (foldr _ _ _ !! dep) as [k|].
    + destruct IH as ((r0 & Hr0 & E0 & Ek) & Hmax). split; [exists r0; split; [by right|done]|].
      intros r' m [->|Hr']%elem_of_cons Hd Hm; [done|by eapply Hmax].
    + intros r' [->|Hr']%elem_of_cons Hd; [done|by apply IH].
Qed.

(** ** What the parts add up to *)

(** C38: reading the log of a deployment backwards in pages of any positive size, each page ending
    before the number of the first row of the page before it, returns every row of the deployment
    exactly once and in the order of their numbers, and it ends after at most as many pages as
    there are rows; so does [FetchContextPage] in each step, in both directions, for the order by
    time and number, with [HasMore] telling whether rows are left. *)
Theorem paging_reads_log t dep limit :
  table_ok t -> numbered dep t -> dep <> ""%string -> (0 < limit)%Z ->
  let all := selection (key_less seq_or_id) (of_deployment dep) (lt_rows t) in
  let timed := selection (by_time seq_or_id) (of_deployment dep) (lt_rows t) in
  (exists pages, read_back (S (length all)) dep limit 0 t = Some pages /\
     concat (rev pages) = scanLogEntry <$> all) /\
  forall k c n, timed !! k = Some c -> row_timestamp c <> 0%Z -> row_seq c = Some n ->
    FetchContextPage (mkContextPageParams dep (row_timestamp c) n ContextPageAfter limit) t =
      Ok (scanLogEntry <$> take (Z.to_nat limit) (drop (S k) timed),
          (limit <? Z.of_nat (length timed - S k))%Z) /\
    FetchContextPage (mkContextPageParams dep (row_timestamp c) n ContextPageBefore limit) t =
      Ok (scanLogEntry <$> drop (k - Z.to_nat limit) (take k timed), (limit <? Z.of_nat k)%Z).
Proof.
  intros Hok Hnum Hdep Hl all timed. split.
  - destruct (read_back_from t dep limit (S (length all)) (length all) 0 Hok Hnum Hdep Hl)
      as (pages & H1 & H2); [unfold all; lia|done| |].
    + rewrite Fetch_last by done. by rewrite take_ge by done.
    + exists pages. split; [done|]. by rewrite take_ge in H2 by done.
  - intros k c n Hk Hz Hn. split; [by apply FetchContextPage_after|by apply FetchContextPage_before].
Qed.

(** A batch that is accepted leaves the table in order, the earlier rows in place with all but
    their count and time of last occurrence, and for every fold key in the batch exactly one row
    of its run, whose count and time are those of the last entry with that key; a batch that is
    refused leaves the table as it was. *)
Theorem AppendBatch_last_version es t t' b :
  table_ok t -> AppendBatch es t = (t', b) ->
  table_ok t' /\ (b = false -> t' = t) /\
  (b = true ->
    row_identity <$> lt_rows t `prefix_of` row_identity <$> lt_rows t' /\
    forall e, e ∈ es -> log_FoldKey e <> ""%string ->
      exists r x, r ∈ lt_rows t' /\ fold_conflict e r = true /\
        (forall r', r' ∈ lt_rows t' -> fold_conflict e r' = true -> r' = r) /\
        last (List.filter (fun x => fold_conflict x r) es) = Some x /\
        row_repeat r = stored_count x /\ row_last_seen r = Some (log_Timestamp x)).
Proof.
  intros Hok. unfold AppendBatch. destruct (insert_all es t) as [t1|] eqn:E; intros [= <- <-].
  2: { split_and!; [done|done|]. by intros. }
  pose proof (insert_all_ok _ _ _ Hok E) as Hok'. split_and!; [done|done|]. intros _. split.
  - destruct (insert_all_rows _ _ _ E) as (tail & -> & _). rewrite fmap_app.
    exists (row_identity <$> tail). f_equal. rewrite <-list_fmap_compose. apply list_fmap_ext.
    intros i r _. apply settled_identity.
  - intros e He Hk. destruct (insert_all_present es t t1 e E He Hk) as (r & Hr & Hc).
    destruct (last (entries_for es r)) as [x|] eqn:Ex.
    2: { apply last_None in Ex. rewrite (entries_for_nil es r e) in Hc; done. }
    exists r, x. split_and!; [done|done| |exact Ex|by eapply insert_all_counts..].
    apply fold_conflict_spec in Hc as (_ & Hrun & Hfold).
    intros r' Hr' (_ & Hrun' & Hfold')%fold_conflict_spec. apply (tk_fold _ Hok'); congruence.
Qed.

(** The removal of old rows ends whatever sizes the database reports from round to round, even
    if none of them is smaller than the one before: it removes the rows with the smallest ids, in
    batches, until the size is under the limit or no row is left, and says how many it removed;
    without a limit it removes nothing. *)
Theorem size_limit_ends fuel size max t :
  length (lt_rows t) < fuel ->
  exists n, DeleteToMaxBytes fuel size max t =
      Some ({| lt_rows := drop n (lt_rows t); lt_last := lt_last t |}, n) /\
    n <= length (lt_rows t) /\ ((max <= 0)%Z -> n = 0) /\
    ((0 < max)%Z -> n = length (lt_rows t) \/
       exists k, n = k * deleteBatchSize /\ (size k <= max)%Z).
Proof.
  intros Hf. unfold DeleteToMaxBytes. destruct (Z.leb_spec max 0) as [Hm|Hm].
  - exists 0. rewrite drop_0. destruct t. split_and!; [done|lia|done|lia].
  - destruct (delete_rounds_spec fuel size max t 0 0 Hf) as (n & E & Hn & Hc). rewrite E.
    exists n. split_and!; [done|done|lia|done].
Qed.

(** ** A table *)

Definition example_entry (dep msg run key : string) (n : Z) (ts : time) (seq : Z) : LogEntry :=
  {| log_ID := 0; log_DeploymentID := dep; log_SourceID := ""; log_RunID := run;
     log_Timestamp := ts; log_Level := "INFO"; log_Message := msg; log_Stream := "stdout";
     log_RepeatCount := n; log_FoldKey := key; log_Seq := seq; log_LastSeenAt := None |}.

Lemma empty_table_ok : table_ok empty_table.
Proof.
  split; simpl; [constructor|constructor|lia|..].
  - by intros r r' ?%elem_of_nil.
  - by intros r r' n ?%elem_of_nil.
Qed.

Definition example_batch : list LogEntry :=
  [example_entry "api" "listening" "r1" "fr1:1" 1 second 1;
   example_entry "web" "ready" "r2" "fr2:2" 1 second 1;
   example_entry "api" "retry" "r1" "fr1:3" 1 (2 * second) 2;
   example_entry "api" "retry" "r1" "fr1:3" 4 (3 * second) 2;
   example_entry "api" "done" "r1" "fr1:4" 1 (3 * second) 3].

Definition example_table : LogTable := (AppendBatch example_batch empty_table).1.

Lemma example_table_ok : table_ok example_table.
Proof. apply (AppendBatch_ok example_batch), empty_table_ok. Qed.

Example read_back_ex :
  (fun pages => (fun e => (log_Message e, log_RepeatCount e)) <$> concat (rev pages)) <$>
    read_back 4 "api" 2 0 example_table =
  Some [("listening", 1%Z); ("retry", 4%Z); ("done", 1%Z)]%string.
Proof. by vm_compute. Qed.

Lemma example_numbered : numbered "api" example_table.
Proof.
  intros r Hr _.
  assert (forallb (fun r => match row_seq r with
    | Some n => (0 <? n)%Z && (n <? 2 ^ 63)%Z | None => false end) (lt_rows example_table) = true)
    as H by (by vm_compute).
  rewrite forallb_forall in H. apply list_elem_of_In, H in Hr. destruct (row_seq r) as [n|]; [|done].
  exists n. apply andb_true_iff in Hr as [H1 H2]. split; [done|lia].
Qed.

Lemma paging_reads_log_witness :
  exists pages, read_back 4 "api" 2 0 example_table = Some pages /\ length (concat (rev pages)) = 3.
Proof.
  destruct (paging_reads_log example_table "api" 2) as [(pages & H1 & H2) _].
  - exact example_table_ok.
  - exact example_numbered.
  - done.
  - lia.
  - exists pages. split; [exact H1|]. rewrite H2. reflexivity.
Defined.

Lemma AppendBatch_last_version_witness :
  exists r, r ∈ lt_rows example_table /\ row_run r = "r1"%string /\ row_repeat r = 4%Z.
Proof.
  destruct (AppendBatch_last_version example_batch empty_table example_table true empty_table_ok)
    as (_ & _ & H).
  - vm_compute. reflexivity.
  - destruct (H eq_refl) as [_ H2].
    destruct (H2 (example_entry "api" "retry" "r1" "fr1:3" 1 (2 * second) 2)) as (r & x & Hr & Hc & _ & Hl & Hn & _).
    + do 2 right. left.
    + done.
    + apply fold_conflict_spec in Hc as (_ & Hrun & Hfold). exists r. split; [exact Hr|]. split; [exact Hrun|].
      rewrite Hn. unfold fold_conflict in Hl. rewrite Hrun, Hfold in Hl. vm_compute in Hl.
      injection Hl as <-. reflexivity.
Defined.

Lemma size_limit_ends_witness :
  exists n, DeleteToMaxBytes 6 (fun _ => 100%Z) 50 example_table =
    Some ({| lt_rows := drop n (lt_rows example_table); lt_last := 4 |}, n) /\ n = 4.
Proof.
  destruct (size_limit_ends 6 (fun _ => 100%Z) 50 example_table) as (n & H1 & _ & _ & H2).
  - vm_compute. lia.
  - exists n. split; [exact H1|]. destruct H2 as [->|(k & _ & Hk)]; [lia|reflexivity|lia].
Defined.
