(* ===== verification/LogFlow.v ===== *)
(** * From the log buffer to the table

    A process takes up the watermarks of the table, numbers its rows from there, and its batches
    bring the table to hold one row per row of the log, with the right count. *)
From stdpp Require Import base strings gmap list.
From Stdlib Require Import ZArith Lia.
From S2P Require Import Prelude Model Channels LogParse LogFold LogBuffer LogHistory LogTheorems Pages LogStore LogStoreTheorems.
Local Open Scope string_scope.
Local Open Scope list_scope.

(** The batches of a process in the order of their calls; [None] when one is refused. *)
Fixpoint AppendBatches (batches : list (list LogEntry)) (t : LogTable) : option LogTable :=
  match batches with
  | [] => Some t
  | es :: batches =>
      match AppendBatch es t with
      | (t', true) => AppendBatches batches t'
      | _ => None
      end
  end.

Lemma insert_all_app es es' t : insert_all (es ++ es') t = insert_all es t ≫= insert_all es'.
Proof.
  revert t. induction es as [|e es IH]; intros t; simpl; [done|].
  destruct (insert_entry e t); simpl; [apply IH|done].
Qed.

Lemma AppendBatches_concat batches t : AppendBatches batches t = insert_all (concat batches) t.
Proof.
  revert t. induction batches as [|es batches IH]; intros t; simpl; [done|].
  rewrite insert_all_app. unfold AppendBatch. by destruct (insert_all es t).
Qed.

(** ** The runs of the lines *)

Section Runs.
Context (run_of : string -> string).

(** Every line belongs to the one run of its deployment. *)
Definition of_run (e : LogEntry) : Prop := log_RunID e = run_of (log_DeploymentID e).

Definition lines_of_run (acts : list action) : Prop :=
  forall a, a ∈ acts -> match a with AAppend _ e => of_run e | _ => True end.

Record session_log (lg : Log) : Prop := {
  sn_rows : forall r, r ∈ lg_rows lg -> (1 <= log_RepeatCount r)%Z;
  sn_given : forall x, x ∈ lg_given lg -> of_run x;
}.

Definition session_lanes (b : Buffer) : Prop :=
  forall dep lane, ft_lanes (b_fold b) !! dep = Some lane ->
    of_run (lane_rep lane).

Lemma observe_session epoch k e t :
  (forall dep lane, ft_lanes t !! dep = Some lane -> of_run (lane_rep lane)) -> of_run e ->
  forall dep lane, ft_lanes (observe epoch k e t).1 !! dep = Some lane -> of_run (lane_rep lane).
Proof.
  intros H He dep lane. unfold observe.
  assert (forall l, of_run (lane_rep l) -> <[log_DeploymentID e := l]> (ft_lanes t) !! dep = Some lane ->
    of_run (lane_rep lane)) as Hins.
  { intros l Hl. destruct (decide (log_DeploymentID e = dep)) as [<-|Hne].
    - rewrite lookup_insert_eq. by intros [= <-].
    - rewrite lookup_insert_ne by done. apply H. }
  destruct (ft_lanes t !! log_DeploymentID e) as [l|]; [destruct (_ && _)|];
    try destruct (ft_nextSeq t); simpl; by apply Hins.
Qed.

Lemma close_lanes_session p deps t :
  (forall dep lane, ft_lanes t !! dep = Some lane -> of_run (lane_rep lane)) ->
  (forall dep lane, ft_lanes (close_lanes p deps t).1 !! dep = Some lane -> of_run (lane_rep lane)) /\
  (forall x, x ∈ (close_lanes p deps t).2 -> of_run x).
Proof.
  revert t. induction deps as [|d deps IH]; intros t H; simpl.
  { split; [done|]. by intros x ?%elem_of_nil. }
  destruct (ft_lanes t !! d) as [l|] eqn:El; [destruct (p l)|]; [|by apply IH..].
  destruct (IH (with_lanes (delete d (ft_lanes t)) t)) as [H1 H2].
  { intros dep lane. simpl. intros [_ Hl]%lookup_delete_Some. by eapply H. }
  destruct (close_lanes p deps _) as [t' closed]. simpl in *. split; [done|].
  intros x [->|Hx]%elem_of_cons; [by eapply H|by apply H2].
Qed.

Lemma filter_session (q : LogEntry -> bool) l :
  (forall x, x ∈ l -> of_run x) -> forall x, x ∈ List.filter q l -> of_run x.
Proof. intros H x [Hx _]%list_elem_of_In%filter_In. apply H. by apply list_elem_of_In. Qed.

Lemma spec_close_session q deps given lg :
  session_log lg -> (forall x, x ∈ given -> of_run x) -> session_log (spec_close q deps given lg).
Proof.
  intros [H1 H2] Hg. split; [done|]. simpl. intros x [Hx|Hx]%elem_of_app; auto.
Qed.

Lemma spec_append_session epoch k node e lg :
  session_log lg -> of_run e -> session_log (spec_append epoch k node e lg).
Proof.
  intros [H1 H2] He. assert (of_run (fill_source node e)) as He'.
  { unfold fill_source. by destruct (_ && _). }
  unfold spec_append. generalize dependent (fill_source node e). clear e He. intros e He.
  assert (session_log (spec_new epoch k e lg)) as Hn.
  { split; simpl; intros x [Hx| ->%list_elem_of_singleton]%elem_of_app; auto. done. }
  unfold spec_line. destruct (last_row _ _) as [row|] eqn:El; [|done]. destruct (_ && _); [|done].
  pose proof (H1 row (last_row_Some _ _ _ El)) as Hrow.
  destruct (last_row_lookup _ _ _ El) as (i & Hi & Hup). split; simpl.
  - intros r. rewrite Hup. intros [j Hj]%list_elem_of_lookup.
    apply list_lookup_insert_Some in Hj as [(_ & <- & _)|[_ Hj%list_elem_of_lookup_2]]; [simpl; lia|auto].
  - intros x [Hx| ->%list_elem_of_singleton]%elem_of_app; auto.
Qed.

Lemma exec_session epoch a s s' lg :
  exec epoch a s = Some s' -> match a with AAppend _ e => of_run e | _ => True end ->
  session_lanes (sys_buf s) -> session_log lg ->
  session_lanes (sys_buf s') /\ session_log (spec_action epoch a (sys_buf s) lg).
Proof.
  assert (forall s, session_lanes (sys_buf s) -> session_lanes (sys_buf (begin_flush s))) as Hbf.
  { intros s0 H. unfold begin_flush, flush_take. by destruct (b_pending (sys_buf s0)). }
  destruct a as [k e|g| |now deps|deps|id|id|c|d]; simpl; intros H Hrun HL HG; simplify_eq.
  - split; [|by apply spec_append_session].
    destruct (Append_locked epoch k e (sys_buf s)) as [[[[b' ev] l] f]|] eqn:E; simplify_eq/=.
    assert (of_run (fill_source (b_nodeID (sys_buf s)) e)) as He.
    { unfold fill_source. by destruct (_ && _). }
    pose proof (observe_session epoch k _ _ HL He) as Ho.
    unfold Append_locked, append_row in E. destruct (observe _ _ _ _) as [t obs]. simpl in Ho.
    unfold session_lanes. by repeat case_match; simplify_eq/=.
  - split; [|done]. destruct (sys_running s !! g) as [[ev [|c chans] f|batch]|] eqn:Eg; simplify_eq; try done.
    + destruct f; simplify_eq; [by apply Hbf|done].
    + destruct (push ev c (sys_buf s)) as [b|] eqn:Ep; [|by destruct f].
      apply push_subs in Ep as [chs ->]. by destruct f; simplify_eq/=.
  - split; [by apply Hbf|done].
  - unfold sweepFolds, sweep. destruct (close_lanes_session (fun lane =>
      (ft_window (b_fold (sys_buf s)) <=? time_sub now (lane_lastSeen lane))%Z) deps _ HL) as [H1 H2].
    destruct (close_lanes _ deps _) as [t closed]. simpl in *. split; [done|].
    apply spec_close_session; [done|]. by apply filter_session.
  - destruct (close_lanes_session (fun _ => true) deps _ HL) as [H1 H2].
    unfold closeAll. split.
    + apply Hbf. simpl. unfold Close_locked, closeAll. by destruct (close_lanes _ deps _) as [t closed].
    + apply spec_close_session; [done|]. by apply filter_session.
  - done.
  - split; [|done]. unfold Unsubscribe in H. by destruct (unsubscribe _ _ _) as [[subs chans]|]; simplify_eq/=.
  - split; [|done]. by destruct (b_chans (sys_buf s) !! c).
  - split; [done|]. destruct HG. by split.
Qed.

Lemma exec_all_session epoch acts s s' lg :
  exec_all epoch acts s = Some s' -> lines_of_run acts ->
  session_lanes (sys_buf s) -> session_log lg -> session_log (spec_all epoch acts s lg).
Proof.
  revert s lg. induction acts as [|a acts IH]; intros s lg H Hr HL HG; cbn [exec_all spec_all] in *; [done|].
  destruct (exec epoch a s) as [s1|] eqn:E; [|done].
  destruct (exec_session epoch a s s1 lg E) as [HL' HG']; [by apply Hr; left|done..|].
  apply IH; [done| |done..]. intros b Hb. apply Hr. by right.
Qed.
End Runs.

(** ** The fold keys of a session *)

(** The runs that lines belong to; "" is no run. *)
Definition runs_of (acts : list action) : list string :=
  omap (fun a => match a with AAppend _ e => Some (log_RunID e) | _ => None end) acts.

(** The key of every row was made for a line of its deployment. *)
Definition made (epoch : string) (acts : list action) (rows : list LogEntry) : Prop :=
  forall r, r ∈ rows -> exists k e, AAppend k e ∈ acts /\ log_DeploymentID e = log_DeploymentID r /\
    log_FoldKey r = nextFoldKey epoch k (log_RunID e).

Lemma spec_append_made epoch acts k node e lg :
  AAppend k e ∈ acts -> made epoch acts (lg_rows lg) ->
  made epoch acts (lg_rows (spec_append epoch k node e lg)).
Proof.
  intros He H. unfold spec_append. set (e' := fill_source node e).
  assert (log_DeploymentID e' = log_DeploymentID e /\ log_RunID e' = log_RunID e) as [Hd Hrun]
    by (unfold e', fill_source; by destruct (_ && _)).
  assert (made epoch acts (lg_rows (spec_new epoch k e' lg))) as Hn.
  { simpl. intros r [Hr| ->%list_elem_of_singleton]%elem_of_app; [by apply H|].
    exists k, e. simpl. by rewrite Hd, Hrun. }
  unfold spec_line. destruct (last_row _ _) as [row|] eqn:El; [|done]. destruct (_ && _); [|done].
  destruct (last_row_lookup _ _ _ El) as (i & Hi & Hup). simpl. rewrite Hup.
  intros r [j Hj]%list_elem_of_lookup.
  apply list_lookup_insert_Some in Hj as [(_ & <- & _)|[_ Hj%list_elem_of_lookup_2]]; [|by apply H].
  apply (H row). by apply list_elem_of_lookup_2 in Hi.
Qed.

Lemma spec_all_made epoch acts0 acts s lg :
  acts ⊆ acts0 -> made epoch acts0 (lg_rows lg) ->
  made epoch acts0 (lg_rows (spec_all epoch acts s lg)).
Proof.
  revert s lg. induction acts as [|a acts IH]; intros s lg Hsub H; cbn [spec_all]; [done|].
  destruct (exec epoch a s) as [s1|]; [|done]. apply IH; [set_solver|].
  destruct a; try done. apply spec_append_made; [set_solver|done].
Qed.

(** A table that processes with the given epochs have written, of lines of the given runs: a
    row with a fold key has one that such a process made for the row's run. *)
Record written (epochs runs : list string) (t : LogTable) : Prop := {
  wr_keys : forall w, w ∈ lt_rows t -> row_fold w = "" \/
    exists epoch k, epoch ∈ epochs /\ (0 <= k)%Z /\ row_fold w = nextFoldKey epoch k (row_run w);
  wr_runs : forall w, w ∈ lt_rows t -> row_run w = "" \/ row_run w ∈ runs;
}.

(** A new process gives no line a key that is in the table. *)
Lemma written_no_conflict epochs runs t epoch acts x k e w :
  written epochs runs t -> epoch ∉ epochs ->
  (forall run, run ∈ runs_of acts -> run = "" \/ run ∉ runs) ->
  AAppend k e ∈ acts -> (0 <= k)%Z -> log_RunID x = log_RunID e ->
  log_FoldKey x = nextFoldKey epoch k (log_RunID e) -> w ∈ lt_rows t -> fold_conflict x w = false.
Proof.
  intros [Hkeys Hruns] Hnew Hfresh He Hk Hrun Hkey Hw.
  destruct (fold_conflict x w) eqn:E; [exfalso|done].
  apply fold_conflict_spec in E as (_ & Er & Ef).
  assert (log_RunID e ∈ runs_of acts) as Hin.
  { apply list_elem_of_omap. by exists (AAppend k e). }
  destruct (Hfresh _ Hin) as [He0|Hno].
  - destruct (Hkeys w Hw) as [H0|(epoch' & k' & Hep & Hk' & H0)].
    + rewrite H0, Hkey in Ef. by apply (nextFoldKey_nonempty epoch k (log_RunID e)).
    + rewrite Ef, Hkey, Er, Hrun, He0 in H0. apply nextFoldKey_epoch in H0 as ->; done.
  - destruct (Hruns w Hw) as [H0|H0]; [|apply Hno; congruence].
    destruct (Hkeys w Hw) as [H1|(epoch' & k' & Hep & Hk' & H1)].
    + rewrite H1, Hkey in Ef. by apply (nextFoldKey_nonempty epoch k (log_RunID e)).
    + assert (log_RunID e = "") as He0 by congruence.
      rewrite Ef, Hkey, H0, He0 in H1. apply nextFoldKey_epoch in H1 as ->; done.
Qed.

(** What a process adds with its own keys. *)
Lemma written_grows epochs runs t epoch news t' tail :
  written epochs runs t -> lt_rows t' = lt_rows t ++ tail ->
  (forall w, w ∈ tail -> (exists k, (0 <= k)%Z /\ row_fold w = nextFoldKey epoch k (row_run w)) /\
     row_run w ∈ news) ->
  written (epoch :: epochs) (news ++ runs) t'.
Proof.
  intros [Hkeys Hruns] Er Htail. split; rewrite Er; intros w [Hw|Hw]%elem_of_app.
  - destruct (Hkeys w Hw) as [?|(ep & k & ? & ? & ?)]; [by left|]. right. exists ep, k.
    split; [by right|done].
  - destruct (Htail w Hw) as [(k & ? & ?) _]. right. exists epoch, k. split; [left|done].
  - destruct (Hruns w Hw) as [?|?]; [by left|]. right. apply elem_of_app. by right.
  - right. apply elem_of_app. left. by apply Htail.
Qed.

Lemma made_nil epoch acts : made epoch acts [].
Proof. by intros r ?%elem_of_nil. Qed.

(** The key of a row, when the lines of a deployment belong to one run. *)
Lemma row_key epoch run_of acts rows r :
  fresh_keys acts -> lines_of_run run_of acts -> made epoch acts rows -> r ∈ rows ->
  exists k e, AAppend k e ∈ acts /\ (0 <= k)%Z /\ log_RunID e = run_of (log_DeploymentID r) /\
    log_FoldKey r = nextFoldKey epoch k (log_RunID e) /\ log_RunID e ∈ runs_of acts.
Proof.
  intros [_ HF] Hrun Hmade (k & e & He & Hd & Hk)%Hmade. exists k, e.
  rewrite Forall_forall in HF. split_and!; [done| | |done|].
  - apply HF, list_elem_of_omap. by exists (AAppend k e).
  - rewrite <-Hd. by apply (Hrun _ He).
  - apply list_elem_of_omap. by exists (AAppend k e).
Qed.

(** ** The numbers of a session *)

(** The watermarks leave room for the lines below 2^63. *)
Definition room (marks : gmap string Z) (acts : list action) : Prop :=
  forall dep, (0 <= default 0 (marks !! dep))%Z /\
    (default 0 (marks !! dep) + Z.of_nat (lines dep acts) < 2 ^ 63)%Z.

Lemma total_length dep rows :
  (forall r, r ∈ rows -> (1 <= log_RepeatCount r)%Z) ->
  (Z.of_nat (length (rows_of dep rows)) <= total dep rows)%Z.
Proof.
  unfold total, rows_of. intros H. induction rows as [|r rows IH]; [done|]. simpl.
  assert (1 <= log_RepeatCount r)%Z by (apply H; by left).
  assert (forall r, r ∈ rows -> 1 <= log_RepeatCount r)%Z by (intros x Hx; apply H; by right).
  destruct (dep =? log_DeploymentID r)%string; simpl; specialize (IH ltac:(done)); lia.
Qed.

Lemma session_numbers marks n acts lg :
  room marks acts -> (forall dep, n dep = lines dep acts) -> log_ok marks n lg ->
  (forall r, r ∈ lg_rows lg -> (1 <= log_RepeatCount r)%Z) ->
  forall r, r ∈ lg_rows lg ->
    (default 0 (marks !! log_DeploymentID r) < log_Seq r < 2 ^ 63)%Z /\
    forall r', r' ∈ lg_rows lg -> log_DeploymentID r = log_DeploymentID r' ->
      log_Seq r = log_Seq r' -> r = r'.
Proof.
  intros Hroom Hn [HT _ HS] Hpos r Hr. set (dep := log_DeploymentID r).
  destruct (Hroom dep) as [Hm Hb]. pose proof (total_length dep _ Hpos) as Hlen.
  rewrite HT, Hn in Hlen.
  assert (forall x, x ∈ lg_rows lg -> log_DeploymentID x = dep -> x ∈ rows_of dep (lg_rows lg)) as Hin.
  { intros x Hx E. apply list_elem_of_In, filter_In. split; [by apply list_elem_of_In|].
    by rewrite E, String.eqb_refl. }
  assert (forall i : nat, i < length (rows_of dep (lg_rows lg)) ->
    ((default 0 (marks !! dep) + 1 + Z.of_nat i) mod 2 ^ 64 = default 0 (marks !! dep) + 1 + Z.of_nat i)%Z)
    as Hmod by (intros i Hi; apply Z.mod_small; lia).
  pose proof (HS dep) as E. split.
  - assert (log_Seq r ∈ log_Seq <$> rows_of dep (lg_rows lg)) as Hs by (apply list_elem_of_fmap_2; auto).
    rewrite E in Hs. apply list_elem_of_fmap in Hs as (i & -> & Hi%elem_of_seq).
    rewrite Hmod by lia. lia.
  - intros r' Hr' Hd Hs. apply (NoDup_fmap_inj log_Seq (rows_of dep (lg_rows lg))); auto.
    rewrite E. apply NoDup_alt. intros i j x Hi Hj.
    apply list_lookup_fmap_Some in Hi as (i' & -> & [-> Hi]%lookup_seq).
    apply list_lookup_fmap_Some in Hj as (j' & Ej & [-> Hj]%lookup_seq).
    rewrite !Hmod in Ej by lia. lia.
Qed.

Lemma find_rev_filter {A} (p : A -> bool) l : List.find p (rev l) = last (List.filter p l).
Proof.
  induction l as [|x l IH] using rev_ind; [done|].
  rewrite rev_app_distr, List.filter_app. simpl. destruct (p x); [by rewrite last_snoc|].
  by rewrite app_nil_r.
Qed.

(** What a row of the table says of a row of the log. *)
Record entry_of (run_of : string -> string) (r : LogEntry) (w : LogRow) : Prop := {
  eo_deployment : row_deployment w = log_DeploymentID r;
  eo_run : row_run w = run_of (log_DeploymentID r);
  eo_fold : row_fold w = log_FoldKey r;
  eo_seq : row_seq w = Some (log_Seq r);
  eo_repeat : row_repeat w = log_RepeatCount r;
  eo_last_seen : row_last_seen w = Some (log_Timestamp r);
}.

(** *** The entries of a session against its rows *)

Section Session.
Context (run_of : string -> string) (rows given : list LogEntry) (marks : gmap string Z) (t : LogTable).
Hypothesis t_ok : table_ok t.
Hypothesis from_table : marks = SeqWatermarks t.
Hypothesis keys : NoDup (log_FoldKey <$> rows).
Hypothesis nonempty : forall r, r ∈ rows -> log_FoldKey r <> ""%string.
Hypothesis counts : forall r, r ∈ rows -> (1 <= log_RepeatCount r)%Z.
Hypothesis numbers : forall r, r ∈ rows ->
  (0 <= default 0 (marks !! log_DeploymentID r) < log_Seq r)%Z /\ (log_Seq r < 2 ^ 63)%Z /\
  forall r', r' ∈ rows -> log_DeploymentID r = log_DeploymentID r' -> log_Seq r = log_Seq r' -> r = r'.
Hypothesis given_run : forall x, x ∈ given -> of_run run_of x.
Hypothesis given_row : forall x, x ∈ given -> exists r, r ∈ rows /\ version_of x r.
Hypothesis given_last : forall r, r ∈ rows ->
  exists x, last_given (log_FoldKey r) given = Some x /\ current x r.
Hypothesis fresh : forall x r, x ∈ given -> r ∈ lt_rows t -> fold_conflict x r = false.

Lemma row_nullableSeq r : r ∈ rows -> nullableSeq (log_Seq r) = Some (log_Seq r).
Proof using numbers.
  intros Hr. destruct (numbers r Hr) as ([H0 H1] & H2 & _). unfold nullableSeq, to_int64.
  rewrite (proj2 (Z.eqb_neq _ _)), (proj2 (Z.ltb_lt _ _)) by lia. done.
Qed.

Lemma given_agree : agree given.
Proof using numbers given_run given_row nonempty from_table.
  intros x y id Hx Hy (n & Ex & Ey & Hd)%seq_conflict_spec. simpl in *.
  destruct (given_row x Hx) as (r & Hr & Hxr & Hkx & Hsx), (given_row y Hy) as (r' & Hr' & Hyr & Hky & Hsy).
  rewrite Hsx, row_nullableSeq in Ex by done. rewrite Hsy, row_nullableSeq in Ey by done. simplify_eq.
  destruct (numbers r Hr) as (_ & _ & Huniq).
  assert (r = r') as <- by (apply Huniq; congruence).
  apply fold_conflict_spec. simpl. split_and!.
  - rewrite Hkx. by apply nonempty.
  - rewrite (given_run x Hx), (given_run y Hy). congruence.
  - congruence.
Qed.

Lemma given_no_clash : no_clash given t.
Proof using numbers given_row from_table.
  intros x w Hx Hw (n & Ex & Ew & Hd)%seq_conflict_spec. exfalso.
  destruct (given_row x Hx) as (r & Hr & Hxr & Hkx & Hsx).
  rewrite Hsx, row_nullableSeq in Ex by done. simplify_eq.
  destruct (numbers r Hr) as ([_ H1] & _).
  pose proof (SeqWatermarks_spec t (log_DeploymentID r)) as Hm.
  destruct (SeqWatermarks t !! log_DeploymentID r) as [k|]; simpl in *.
  - destruct Hm as [_ Hmax]. assert (log_Seq r <= k)%Z by (eapply Hmax; [done|congruence|done]). lia.
  - rewrite (Hm w) in Ew; [done|done|congruence].
Qed.

Lemma session_stored :
  exists tail, insert_all given t = Some {| lt_rows := lt_rows t ++ tail; lt_last := lt_last
      (default t (insert_all given t)) |} /\
    (forall r, r ∈ rows -> exists w, w ∈ tail /\ entry_of run_of r w) /\
    (forall w, w ∈ tail -> exists r, r ∈ rows /\ entry_of run_of r w).
Proof using All.
  destruct (insert_all_total given t given_agree given_no_clash) as [t' Et].
  destruct (insert_all_rows _ _ _ Et) as (tail & Er & Htail).
  assert (settled_row given <$> lt_rows t = lt_rows t) as Hold.
  { rewrite <-(list_fmap_id (lt_rows t)) at 2. apply list_fmap_ext. intros i w Hw%list_elem_of_lookup_2.
    unfold settled_row. assert (entries_for given w = []) as ->; [|done].
    apply filter_none. intros x Hx. by apply fresh. }
  rewrite Hold in Er. rewrite Et. simpl. exists tail. split; [by rewrite <-Er; destruct t'|].
  assert (forall w, w ∈ tail -> exists r, r ∈ rows /\ entry_of run_of r w) as Hrow.
  { intros w Hw. destruct (Htail w Hw) as (x & id & Hx & Hid).
    apply identity_fields in Hid as (_ & Hd & Hrun & Hf & Hs). simpl in *.
    destruct (given_row x Hx) as (r & Hr & Hxr & Hkx & Hsx).
    destruct (given_last r Hr) as (y & Hlast & Hv & Hc & Hts). exists r. split; [done|].
    assert (row_repeat w = stored_count y /\ row_last_seen w = Some (log_Timestamp y)) as [Hn Hl].
    { eapply insert_all_counts; [exact Et|rewrite Er; apply elem_of_app; by right|].
      rewrite <-Hlast. unfold last_given, entries_for. rewrite find_rev_filter. f_equal.
      apply filter_ext_elem. intros z Hz. unfold fold_conflict. rewrite Hf, Hkx, Hrun.
      destruct (given_row z Hz) as (r' & Hr' & Hzd & Hzk & _).
      destruct (String.eqb_spec (log_FoldKey r) (log_FoldKey z)) as [E|E]; [|by rewrite andb_false_r].
      assert (r = r') as <- by (eapply NoDup_fmap_inj; [exact keys|done..|congruence]).
      rewrite (given_run x Hx), (given_run z Hz), Hzd, Hxr, String.eqb_refl, andb_true_r.
      rewrite andb_true_r. apply negb_true_iff, String.eqb_neq. rewrite <-E. by apply nonempty. }
    pose proof (counts r Hr). split; try congruence.
    - rewrite Hrun, (given_run x Hx). congruence.
    - rewrite Hs, Hsx. by apply row_nullableSeq.
    - rewrite Hn. unfold stored_count. rewrite Hc, (proj2 (Z.leb_gt _ _)) by lia. done. }
  split; [|done]. intros r Hr. destruct (given_last r Hr) as (y & Hlast & Hv & Hc & Hts).
  apply last_given_Some in Hlast as [Hy Hk].
  destruct (insert_all_present given t t' y Et Hy) as (w & Hw & Hcf).
  { rewrite Hk. by apply nonempty. }
  rewrite Er in Hw. apply elem_of_app in Hw as [Hw|Hw].
  { by rewrite fresh in Hcf. }
  exists w. split; [done|]. destruct (Hrow w Hw) as (r' & Hr' & He).
  apply fold_conflict_spec in Hcf as (_ & _ & Hf).
  assert (r = r') as <-; [|done]. eapply NoDup_fmap_inj; [exact keys|done..|].
  rewrite <-(eo_fold _ _ _ He). congruence.
Qed.
End Session.

(** C37: a process that starts from the watermarks of a table and writes what its log buffer gives
    it, one batch at a time, has every batch accepted, however the entries are cut into batches:
    the old rows are left as they are, and behind them there is exactly one row for each row of
    the log, with its deployment, number and fold key, its present count and the time of its last
    line.  The conditions: the old rows were written by processes with other epochs, a run other
    than "" has no rows in the table yet, the numbers stay below 2^63, and the lines of a
    deployment all belong to one run ([fold_crosses_runs] shows what happens otherwise).  The
    new table is then one that this process has written too, so that the next one can go on
    from it. *)
Theorem log_reaches_table epochs runs epoch M node acts t s run_of batches :
  0 < M -> fresh_keys acts -> table_ok t -> room (SeqWatermarks t) acts ->
  lines_of_run run_of acts ->
  run epoch true M node (SeqWatermarks t) acts = Some s ->
  one_writer epoch acts (initial (New true M node (SeqWatermarks t))) = true ->
  written epochs runs t -> epoch ∉ epochs ->
  (forall run, run ∈ runs_of acts -> run = "" \/ run ∉ runs) -> concat batches = queued s ->
  let rows := lg_rows (log_of epoch true M node (SeqWatermarks t) acts) in
  exists t' tail, AppendBatches batches t = Some t' /\ table_ok t' /\
    written (epoch :: epochs) (runs_of acts ++ runs) t' /\ lt_rows t' = lt_rows t ++ tail /\
    (forall r, r ∈ rows -> exists w, w ∈ tail /\ entry_of run_of r w) /\
    (forall w, w ∈ tail -> exists r, r ∈ rows /\ entry_of run_of r w).
Proof.
  intros HM Hfresh Hok Hroom Hrun H Hone Hwr Hepoch Hruns Hbatches rows. set (marks := SeqWatermarks t) in *.
  set (lg := log_of epoch true M node marks acts) in *.
  destruct (run_ok _ _ _ _ _ _ _ HM Hfresh H) as [used HS].
  destruct Hfresh as [HN HF].
  destruct (exec_all_given epoch M acts HM [] (initial (New true M node marks)) s (initial_log marks))
    as ([HL HA] & _ & HO); [by apply initial_ok| |done|by rewrite app_nil_r|done..|].
  { split; intros x Hx; by apply elem_of_nil in Hx. }
  specialize (HO Hone eq_refl). fold lg in HO.
  assert (session_log run_of lg) as [Hpos Hgiven].
  { apply (exec_all_session run_of epoch acts _ s); [done|done| |].
    - intros dep lane. simpl. by rewrite lookup_empty.
    - split; simpl; by intros x ?%elem_of_nil. }
  assert (log_ok marks (fun dep => lines dep acts) lg) as Hlog.
  { apply (spec_all_ok epoch marks acts (fun _ => 0) _ s); [|done].
    split; intros d; [done| |done]. simpl. f_equal. lia. }
  pose proof (session_numbers marks _ acts lg Hroom (fun _ => eq_refl) Hlog Hpos) as Hnum.
  assert (made epoch acts rows) as Hmade by (by apply spec_all_made, made_nil).
  pose proof (fun r => row_key epoch run_of acts rows r (conj HN HF) Hrun Hmade) as Hkey.
  pose proof (so_rep _ _ _ _ _ HS) as HR.
  destruct (session_stored run_of rows (queued s) marks t Hok) as (tail & Et & H1 & H2); try done.
  - by eapply rows_keys.
  - intros r Hr. by apply (ro_nonempty _ _ _ _ (re_ring _ _ _ _ _ HR)).
  - intros r Hr. destruct (Hnum r Hr) as [[Hm Hlt] Hu]. destruct (Hroom (log_DeploymentID r)). split_and!; auto.
  - intros x. rewrite HO. apply Hgiven.
  - intros x. rewrite HO. intros Hx. destruct (HA x Hx) as (r & ? & ? & _). by exists r.
  - intros r Hr. rewrite HO. by apply HL.
  - rewrite HO. intros x w Hx Hw. destruct (HA x Hx) as (r & Hr & (Hd & Hk & _) & _).
    destruct (Hkey r Hr) as (k & e & He & H0 & He' & Hrk & _).
    assert (log_RunID x = log_RunID e) by (rewrite He', (Hgiven x Hx); congruence).
    eapply (written_no_conflict epochs runs t epoch acts x k e); [done..|congruence|done].
  - eexists _, tail. rewrite AppendBatches_concat, Hbatches. split; [exact Et|].
    split; [by eapply insert_all_ok|]. split; [|done]. eapply (written_grows _ _ t); [done|reflexivity|].
    intros w (r & Hr & He)%H2. destruct (Hkey r Hr) as (k & e & _ & H0 & He' & Hrk & Hin).
    rewrite (eo_fold _ _ _ He), (eo_run _ _ _ He), <-He'. split; [by exists k|done].
Qed.

(** ** A session *)

Lemma lines_le dep acts : lines dep acts <= length acts.
Proof. unfold lines. apply List.filter_length_le. Qed.

(** A table with one row of an earlier session. *)
Definition earlier : LogTable :=
  (AppendBatch [set_fold 2 "fold-run:1" 10 (line "api" "bye" "old-run" 0)] empty_table).1.

Lemma earlier_ok : table_ok earlier.
Proof. apply AppendBatch_ok, empty_table_ok. Qed.

Definition row_summary (w : LogRow) : string * string * Z * option Z :=
  (row_deployment w, row_message w, row_repeat w, row_seq w).

Example session_ex :
  match run "k" true 2 "node" (SeqWatermarks earlier) example_acts with
  | Some s => (fun t => row_summary <$> lt_rows t) <$> AppendBatches [queued s] earlier
  | None => None
  end = Some [("api", "bye", 2, Some 10); ("api", "boom count=1", 3, Some 11);
              ("web", "ready", 1, Some 1); ("api", "bye", 1, Some 12)]%Z.
Proof. by vm_compute. Qed.

(** What an earlier process has written. *)
Lemma earlier_written : written ["j"] ["old-run"] earlier.
Proof.
  split; intros w Hw; apply list_elem_of_singleton in Hw as ->; right; [|left].
  exists "j", 1%Z. split; [left|]. split; [lia|by vm_compute].
Qed.

Lemma example_room : room (SeqWatermarks earlier) example_acts.
Proof.
  intros dep. pose proof (lines_le dep example_acts) as Hl.
  assert (length example_acts = 6) as Hlen by done.
  assert (0 <= default 0 (SeqWatermarks earlier !! dep) <= 10)%Z; [|lia].
  assert (SeqWatermarks earlier = <["api" := 10%Z]> ∅) as -> by (by vm_compute).
  destruct (decide (dep = "api")) as [->|Hne].
  - rewrite lookup_insert_eq. simpl. lia.
  - rewrite lookup_insert_ne by done. rewrite lookup_empty. simpl. lia.
Qed.

Lemma example_one_run : lines_of_run (fun _ => "") example_acts.
Proof.
  assert (Forall (fun a => match a with AAppend _ e => of_run (fun _ => "") e | _ => True end) example_acts)
    as H by (by repeat constructor).
  rewrite Forall_forall in H. exact H.
Qed.

Lemma log_reaches_table_witness :
  exists s t' tail, run "k" true 2 "node" (SeqWatermarks earlier) example_acts = Some s /\
    AppendBatches [take 2 (queued s); drop 2 (queued s)] earlier = Some t' /\ table_ok t' /\
    lt_rows t' = lt_rows earlier ++ tail.
Proof.
  destruct (run "k" true 2 "node" (SeqWatermarks earlier) example_acts) as [s|] eqn:E.
  2: { vm_compute in E. discriminate E. }
  destruct (log_reaches_table ["j"] ["old-run"] "k" 2 "node" example_acts earlier s (fun _ => "")
    [take 2 (queued s); drop 2 (queued s)]) as (t' & tail & H1 & H2 & _ & H3 & _).
  - lia.
  - exact example_fresh.
  - exact earlier_ok.
  - exact example_room.
  - exact example_one_run.
  - exact E.
  - vm_compute. reflexivity.
  - exact earlier_written.
  - intros H. apply list_elem_of_singleton in H. discriminate H.
  - intros run H. left.
    revert run H. apply Forall_forall. repeat constructor.
  - cbn [concat]. rewrite app_nil_r. apply take_drop.
  - exists s, t', tail. split; [reflexivity|]. split; [exact H1|]. split; [exact H2|exact H3].
Defined.

(** A process and the one after it, which starts to count its keys again: with another epoch its
    line gets a row of its own; with the same one it would have updated the old row. *)
Example restart_needs_epoch :
  let life epoch message t :=
    match run epoch true 2 "node" (SeqWatermarks t) [AAppend 1 (line "api" message "" 0)] with
    | Some s => AppendBatches [queued s] t
    | None => None
    end in
  let lives e1 e2 := (fun t => row_summary <$> lt_rows t) <$>
    (life e1 "ready" empty_table ≫= life e2 "failed") in
  lives "j" "k" = Some [("api", "ready", 1, Some 1); ("api", "failed", 1, Some 2)]%Z /\
  lives "j" "j" = Some [("api", "ready", 1, Some 1)]%Z.
Proof. by vm_compute. Qed.

(** The table refuses the batch in which a line of a new run was folded into the row of the old
    one, and with it the lines of other deployments; the buffer does not offer it again. *)
Theorem folded_run_loses_batch :
  exists s, run "k" true 2 "" ∅ [AAppend 1 (line "api" "listening" "run-1" 0);
      AAppend 2 (line "api" "listening" "run-2" second); AAppend 3 (line "web" "ready" "run-3" second)] = Some s /\
    (exists x, x ∈ b_pending (sys_buf s) /\ log_DeploymentID x = "web") /\
    AppendBatch (b_pending (sys_buf s)) empty_table = (empty_table, false).
Proof.
  eexists. split; [vm_compute; reflexivity|]. split; [|by vm_compute].
  eexists. split; [do 2 right; left|done].
Qed.

(** The other order of the batches, which overlapping flushes can produce, leaves the row with the
    count of the earlier batch. *)
Theorem overtaken_batch_lowers_count :
  exists s, run "k" true 2 "" ∅ [AAppend 1 (line "api" "boom" "" 0); AContinue 0; AFlush;
      AAppend 2 (line "api" "boom" "" second); AContinue 2; AFlush; AContinue 3; AContinue 1] = Some s /\
    b_pending (sys_buf s) = [] /\ sys_running s = ∅ /\
    (fun t => row_repeat <$> lt_rows t) <$> AppendBatches [sys_written s] empty_table = Some [1%Z] /\
    log_RepeatCount <$> lg_rows (log_of "k" true 2 "" ∅ [AAppend 1 (line "api" "boom" "" 0); AContinue 0; AFlush;
      AAppend 2 (line "api" "boom" "" second); AContinue 2; AFlush; AContinue 3; AContinue 1]) = [2%Z].
Proof. eexists. split; [vm_compute; reflexivity|]. split_and!; vm_compute; reflexivity. Qed.

(** Numbers are not kept when retention takes the last rows of a deployment: a process that
    starts then counts from 1 again. *)
Theorem retention_forgets_numbers :
  exists now, DeleteOlderThan now 7 earlier = {| lt_rows := []; lt_last := 1 |} /\
    SeqWatermarks earlier !! "api" = Some 10%Z /\
    SeqWatermarks (DeleteOlderThan now 7 earlier) !! "api" = None.
Proof. exists (8 * day)%Z. by vm_compute. Qed.
