(* ===== verification/LogBackends.v ===== *)
(** * Log backends

    The package logbackend: reading the log of a deployment from the table of this agent, from
    the HTTP interface of another one, or from several backends merged. *)
From stdpp Require Import base strings pretty gmap list.
From Stdlib Require Import ZArith Lia Ascii.
From S2P Require Import Prelude Model LogStore.
Local Open Scope string_scope.
Local Open Scope list_scope.

(** ** Cursors *)

(** [Cursor]: a position; the zero value is none. *)
Record Cursor : Type := mkCursor { cur_Time : time; cur_ID : string }.
Definition no_cursor : Cursor := {| cur_Time := 0; cur_ID := "" |}.

Definition encodeSQLiteCursor (n : Z) : string := if (n =? 0)%Z then "" else pretty n.

(** [strconv.ParseInt(s, 10, 64)] accepts what [Atoi] accepts. *)
Definition decodeSQLiteCursor (id : string) : Z :=
  if (id =? "")%string then 0%Z else default 0%Z (Atoi id).

(** [strconv.ParseUint(s, 10, 64)] *)
Definition ParseUint (s : string) : option Z :=
  if (s =? "")%string then None
  else n ← digits_value 0 (String.list_ascii_of_string s); if (n <? 2 ^ 64)%Z then Some n else None.

Definition decodeSQLiteCursorUint (id : string) : Z :=
  if (id =? "")%string then 0%Z else default 0%Z (ParseUint id).

Definition encodeLogEntrySeqCursor (seq rowid : Z) : string :=
  if (0 <? seq)%Z then pretty seq else encodeSQLiteCursor rowid.

(** ** The interface *)

Record QueryFilter : Type := mkQueryFilter {
  qf_DeploymentID : string;
  qf_RunID : string;
  qf_Limit : Z;
  qf_Before : Cursor;
  qf_BeforeTime : time;
}.

Record SearchQuery : Type := mkSearchQuery {
  sq_Text : string;
  sq_DeploymentIDs : list string;
  sq_Limit : Z;
  sq_Cursor : Cursor;
  sq_From : time;
  sq_To : time;
}.

Record ContextQuery : Type := mkContextQuery {
  cq_TargetID : Z;
  cq_DeploymentID : string;
  cq_Before : duration;
  cq_After : duration;
}.

Record ContextPageQuery : Type := mkContextPageQuery {
  cpq_DeploymentID : string;
  cpq_Cursor : Cursor;
  cpq_Direction : ContextPageDirection;
  cpq_Limit : Z;
}.

(** The result of [Context] for one deployment. *)
Record BackendContext : Type := mkBackendContext {
  bc_TargetID : Z;
  bc_AnchorTime : time;
  bc_Items : list LogEntry;
}.

Definition ErrLogContextNotFound : string := "log context anchor not found".

(** [LogBackend]; the last two are optional capabilities ([ContextReader], [ContextPageReader]). *)
Record LogBackend : Type := mkLogBackend {
  be_Query : QueryFilter -> result string (list LogEntry * Cursor);
  be_Search : SearchQuery -> result string (list LogEntry * Cursor * bool);
  be_Context : option (ContextQuery -> result string BackendContext);
  be_ContextPage : option (ContextPageQuery -> result string (list LogEntry * bool));
}.

(** The cursor of the first entry of a page, and of the last one. *)
Definition cursor_of_first (entries : list LogEntry) : Cursor :=
  match entries with
  | [] => no_cursor
  | first :: _ => {| cur_Time := log_Timestamp first;
                     cur_ID := encodeLogEntrySeqCursor (log_Seq first) (log_ID first) |}
  end.
Definition cursor_of_last (entries : list LogEntry) : Cursor :=
  match last entries with
  | None => no_cursor
  | Some e => {| cur_Time := log_Timestamp e; cur_ID := encodeSQLiteCursor (log_ID e) |}
  end.

Definition some_time (t : time) : option time := if time_is_zero t then None else Some t.

(** ** The table of this agent *)

Section SQLite.
Context (like : string -> string -> bool) (t : LogTable).

(** [Query], [Search], [Context] and [ContextPage] of [SQLiteBackend]. *)
Definition SQLite_Query (f : QueryFilter) : result string (list LogEntry * Cursor) :=
  let entries := Fetch {| ftp_DeploymentID := qf_DeploymentID f; ftp_RunID := qf_RunID f;
    ftp_Limit := qf_Limit f; ftp_BeforeSeq := decodeSQLiteCursorUint (cur_ID (qf_Before f));
    ftp_BeforeTime := some_time (qf_BeforeTime f) |} t in
  Ok (entries, cursor_of_first entries).

Definition SQLite_Search (q : SearchQuery) : result string (list LogEntry * Cursor * bool) :=
  let r := Search like {| srp_DeploymentIDs := sq_DeploymentIDs q; srp_Query := sq_Text q;
    srp_Limit := sq_Limit q; srp_Before := 0; srp_CursorTime := some_time (cur_Time (sq_Cursor q));
    srp_CursorID := decodeSQLiteCursor (cur_ID (sq_Cursor q));
    srp_From := some_time (sq_From q); srp_To := some_time (sq_To q) |} t in
  Ok (srr_Entries r, cursor_of_last (srr_Entries r), srr_HasMore r).

Definition SQLite_Context (q : ContextQuery) : result string BackendContext :=
  match FetchContext {| ctp_TargetID := cq_TargetID q; ctp_TargetDeploymentID := "";
    ctp_DeploymentIDs := [cq_DeploymentID q]; ctp_Before := cq_Before q; ctp_After := cq_After q;
    ctp_LimitPerDeployment := 0 |} t with
  | None => Err ErrLogContextNotFound
  | Some r => Ok {| bc_TargetID := ctr_TargetID r; bc_AnchorTime := ctr_AnchorTime r;
                    bc_Items := default [] (ctr_ItemsByDeployment r !! cq_DeploymentID q) |}
  end.

Definition SQLite_ContextPage (q : ContextPageQuery) : result string (list LogEntry * bool) :=
  FetchContextPage {| cpp_DeploymentID := cpq_DeploymentID q; cpp_CursorTime := cur_Time (cpq_Cursor q);
    cpp_CursorSeq := decodeSQLiteCursorUint (cur_ID (cpq_Cursor q));
    cpp_Direction := cpq_Direction q; cpp_Limit := cpq_Limit q |} t.

Definition SQLiteBackend : LogBackend :=
  {| be_Query := SQLite_Query; be_Search := SQLite_Search; be_Context := Some SQLite_Context;
     be_ContextPage := Some SQLite_ContextPage |}.
End SQLite.

(** ** Another agent *)

(** What a request to another agent comes back with: an error of the transport, or a status and
    a body, which may not decode. *)
Definition response (A : Type) : Type := result string (Z * result string A).

(** The parameters of the requests, as [url.Values] holds them: [""] is a missing one.  Times are
    not written out. *)
Record LogsParams : Type := mkLogsParams {
  lp_deployment : string;
  lp_limit : string;
  lp_before : string;
}.
Record LogSearchParams : Type := mkLogSearchParams {
  lsp_project : string;
  lsp_deployments : list string;
  lsp_q : string;
  lsp_query : string;
  lsp_limit : string;
  lsp_cursor_time : option time;
  lsp_cursor_id : string;
  lsp_from : option time;
  lsp_to : option time;
}.
Record LogContextParams : Type := mkLogContextParams {
  lcp_deployment : string;
  lcp_id : string;
  lcp_before_ms : string;
  lcp_after_ms : string;
}.
Record LogPageParams : Type := mkLogPageParams {
  lpp_project : string;
  lpp_deployment : string;
  lpp_direction : ContextPageDirection;
  lpp_cursor_time : time;
  lpp_cursor_id : string;
  lpp_limit : string;
}.

Record LogSearchReply : Type := mkLogSearchReply {
  lsr_items : list LogEntry;
  lsr_total : Z;
  lsr_has_more : bool;
}.

(** An agent as its transport shows it: the four requests on logs. *)
Record NodeApi : Type := mkNodeApi {
  na_logs : LogsParams -> response (list LogEntry);
  na_search : LogSearchParams -> response LogSearchReply;
  na_context : LogContextParams -> response (Z * time * gmap string (list LogEntry));
  na_page : LogPageParams -> response (list LogEntry * bool);
}.

Definition ok_status (status : Z) : bool := (Z.quot status 100 =? 2)%Z.

Definition remoteContextFallbackLimit : Z := 5000.

Definition positive_text (n : Z) : string := if (0 <? n)%Z then pretty n else "".

(** [compareLogCursor] *)
Definition compareLogCursor (e : LogEntry) (at_ : time) (id : Z) : Z :=
  if time_before (log_Timestamp e) at_ then -1
  else if time_after (log_Timestamp e) at_ then 1
  else if (log_ID e <? id)%Z then -1
  else if (id <? log_ID e)%Z then 1 else 0.

(** The order of the entries of a page: by time, then by id. *)
Definition entry_before (a b : LogEntry) : bool :=
  if (log_Timestamp a =? log_Timestamp b)%Z then (log_ID a <? log_ID b)%Z
  else time_before (log_Timestamp a) (log_Timestamp b).

Section Remote.
Context (node : NodeApi) (deploymentID : string).

Definition Remote_Query (f : QueryFilter) : result string (list LogEntry * Cursor) :=
  match na_logs node {| lp_deployment := deploymentID; lp_limit := positive_text (qf_Limit f);
    lp_before := if (cur_ID (qf_Before f) =? "")%string then ""
                 else pretty (decodeSQLiteCursor (cur_ID (qf_Before f))) |} with
  | Err e => Err e
  | Ok (status, body) =>
      if negb (ok_status status) then Err ("remote /api/logs returned " +:+ pretty status)
      else map_result (fun entries => (entries, cursor_of_first entries)) body
  end.

Definition Remote_Search (q : SearchQuery) : result string (list LogEntry * Cursor * bool) :=
  match na_search node {| lsp_project := ""; lsp_deployments := [deploymentID]; lsp_q := sq_Text q;
    lsp_query := ""; lsp_limit := positive_text (sq_Limit q);
    lsp_cursor_time := some_time (cur_Time (sq_Cursor q));
    lsp_cursor_id := if time_is_zero (cur_Time (sq_Cursor q)) then ""
                     else pretty (decodeSQLiteCursor (cur_ID (sq_Cursor q)));
    lsp_from := some_time (sq_From q); lsp_to := some_time (sq_To q) |} with
  | Err e => Err e
  | Ok (status, body) =>
      if negb (ok_status status) then Err ("remote /api/log-search returned " +:+ pretty status)
      else map_result (fun r => (lsr_items r, cursor_of_last (lsr_items r), lsr_has_more r)) body
  end.

(** [contextFromLogPage]: for agents without the request on contexts. *)
Definition contextFromLogPage (q : ContextQuery) : result string BackendContext :=
  match na_logs node {| lp_deployment := deploymentID; lp_limit := pretty remoteContextFallbackLimit;
    lp_before := pretty (cq_TargetID q + remoteContextFallbackLimit)%Z |} with
  | Err e => Err e
  | Ok (status, body) =>
      if negb (ok_status status) then Err ("remote /api/logs fallback returned " +:+ pretty status)
      else
        match body with
        | Err e => Err e
        | Ok entries =>
            match List.find (fun e => (log_ID e =? cq_TargetID q)%Z) entries with
            | None => Err ErrLogContextNotFound
            | Some target =>
                let anchor := log_Timestamp target in
                let lower := time_add anchor (- cq_Before q) in
                let upper := time_add anchor (cq_After q) in
                Ok {| bc_TargetID := cq_TargetID q; bc_AnchorTime := anchor;
                      bc_Items := List.filter (fun e => negb (time_before (log_Timestamp e) lower ||
                        time_after (log_Timestamp e) upper)) entries |}
            end
        end
  end.

Definition milliseconds (d : duration) : Z := Z.quot d millisecond.

Definition Remote_Context (q : ContextQuery) : result string BackendContext :=
  let window d := if (0 <? d)%Z then pretty (milliseconds d) else "" in
  match na_context node {| lcp_deployment := deploymentID; lcp_id := pretty (cq_TargetID q);
    lcp_before_ms := window (cq_Before q); lcp_after_ms := window (cq_After q) |} with
  | Err e => Err e
  | Ok (status, body) =>
      if (status =? 404)%Z || (status =? 400)%Z || (status =? 405)%Z then contextFromLogPage q
      else if negb (ok_status status) then Err ("remote /api/logs/context returned " +:+ pretty status)
      else map_result (fun '(id, anchor, items) =>
             {| bc_TargetID := id; bc_AnchorTime := anchor;
                bc_Items := default [] (items !! deploymentID) |}) body
  end.

(** [contextPageFromLogPage]. The sort is [sort.Slice] on distinct ids. *)
Definition contextPageFromLogPage (q : ContextPageQuery) : result string (list LogEntry * bool) :=
  let limit := if (cpq_Limit q <=? 0)%Z then 200%Z else cpq_Limit q in
  let cursorID := decodeSQLiteCursor (cur_ID (cpq_Cursor q)) in
  if time_is_zero (cur_Time (cpq_Cursor q)) || (cur_ID (cpq_Cursor q) =? "")%string then Ok ([], false)
  else if (cursorID <=? 0)%Z then Ok ([], false)
  else
    let page_before (before : Z) (keep : Z -> bool) (older : bool) :=
      match na_logs node {| lp_deployment := deploymentID; lp_limit := pretty remoteContextFallbackLimit;
        lp_before := pretty before |} with
      | Err e => Err e
      | Ok (status, body) =>
          if negb (ok_status status) then Err ("remote /api/logs page fallback returned " +:+ pretty status)
          else map_result (fun entries =>
            let filtered := SliceStable entry_before
              (List.filter (fun e => keep (compareLogCursor e (cur_Time (cpq_Cursor q)) cursorID)) entries) in
            let n := Z.of_nat (length filtered) in
            if (limit <? n)%Z then
              ((if older then drop (Z.to_nat (n - limit)) filtered else take (Z.to_nat limit) filtered), true)
            else (filtered, false)) body
      end in
    match cpq_Direction q with
    | ContextPageAfter => page_before (cursorID + remoteContextFallbackLimit)%Z (fun c => (0 <? c)%Z) false
    | ContextPageBefore => page_before cursorID (fun c => (c <? 0)%Z) true
    | ContextPageOther s => Err ("invalid context page direction: " +:+ s)
    end.

Definition Remote_ContextPage (q : ContextPageQuery) : result string (list LogEntry * bool) :=
  match na_page node {| lpp_project := ""; lpp_deployment := deploymentID; lpp_direction := cpq_Direction q;
    lpp_cursor_time := cur_Time (cpq_Cursor q);
    lpp_cursor_id := pretty (decodeSQLiteCursor (cur_ID (cpq_Cursor q)));
    lpp_limit := positive_text (cpq_Limit q) |} with
  | Err e => Err e
  | Ok (status, body) =>
      if (status =? 404)%Z || (status =? 400)%Z || (status =? 405)%Z then contextPageFromLogPage q
      else if negb (ok_status status) then Err ("remote /api/logs/context/page returned " +:+ pretty status)
      else body
  end.

Definition RemoteAgentBackend : LogBackend :=
  {| be_Query := Remote_Query; be_Search := Remote_Search; be_Context := Some Remote_Context;
     be_ContextPage := Some Remote_ContextPage |}.
End Remote.

(** ** Several backends *)

Definition defaultLimit : Z := 1000.

Record federatedCursorState : Type := mkFederatedCursorState {
  fc_Cursor : Cursor;
  fc_Exhausted : bool;
}.
Definition no_state : federatedCursorState := {| fc_Cursor := no_cursor; fc_Exhausted := false |}.

(** [lessLogEntry] of the package: ids as strings. *)
Definition less_federated (a b : LogEntry) : bool :=
  if (log_Timestamp a =? log_Timestamp b)%Z
  then String.ltb (encodeSQLiteCursor (log_ID a)) (encodeSQLiteCursor (log_ID b))
  else time_before (log_Timestamp a) (log_Timestamp b).

Record federatedMergedItem : Type := mkMergedItem { fm_child : nat; fm_entry : LogEntry }.

Section Federated.
(** [sort.Slice] may put equivalent items in any order. *)
Context (sort_slice : (federatedMergedItem -> federatedMergedItem -> bool) ->
           list federatedMergedItem -> list federatedMergedItem).

Definition less_item (a b : federatedMergedItem) : bool := less_federated (fm_entry a) (fm_entry b).

Definition all_items (results : list (list LogEntry)) : list federatedMergedItem :=
  concat (imap (fun child entries => mkMergedItem child <$> entries) results).

Definition mergeLatestFederatedResults (results : list (list LogEntry)) (limit : Z)
    : list federatedMergedItem :=
  let all := sort_slice less_item (all_items results) in
  let n := Z.of_nat (length all) in
  if (0 <? limit)%Z && (limit <? n)%Z then drop (Z.to_nat (n - limit)) all else all.

(** [emittedCount] and [oldestEmitted] after the merged items. *)
Definition emitted_of (child : nat) (items : list federatedMergedItem) : list LogEntry :=
  fm_entry <$> List.filter (fun it => fm_child it =? child)%nat items.
Definition oldest_of (entries : list LogEntry) : option LogEntry :=
  foldl (fun current e => match current with
                          | None => Some e
                          | Some c => Some (if less_federated e c then e else c)
                          end) None entries.

(** A step of [nextFederatedCursorStates]: the state of a child that returned [entries], of which
    [emitted] are in the page. *)
Definition next_state (state : federatedCursorState) (entries emitted : list LogEntry) (limit : Z)
    : federatedCursorState :=
  if fc_Exhausted state then state
  else match emitted, entries with
       | [], [] => {| fc_Cursor := no_cursor; fc_Exhausted := true |}
       | [], _ => state
       | _, _ =>
           if (length emitted =? length entries)%nat && (Z.of_nat (length entries) <? limit)%Z
           then {| fc_Cursor := no_cursor; fc_Exhausted := true |}
           else match oldest_of emitted with
                | Some o => {| fc_Cursor := {| cur_Time := log_Timestamp o;
                                 cur_ID := encodeLogEntrySeqCursor (log_Seq o) (log_ID o) |};
                               fc_Exhausted := false |}
                | None => state
                end
       end.

(** What the cursor of a page carries for the children: [None] is a cursor that is not a federated
    one.  A state without position that is not exhausted is left out, which reads back the same. *)
Definition federated_cursor : Type := option (gmap nat federatedCursorState).

(** [Query]: the entries, and the states of the children for the next page, when the page is not
    empty.  [Before] is [cursor], or the plain cursor [legacy] when that is [None].  Every child is
    asked, if it is not exhausted, and an error counts as no entries. *)
Definition child_state (cursor : federated_cursor) (legacy : Cursor) (i : nat) : federatedCursorState :=
  match cursor with
  | Some states => default no_state (states !! i)
  | None => {| fc_Cursor := legacy; fc_Exhausted := false |}
  end.

Definition with_before (c : Cursor) (f : QueryFilter) : QueryFilter :=
  {| qf_DeploymentID := qf_DeploymentID f; qf_RunID := qf_RunID f; qf_Limit := qf_Limit f;
     qf_Before := c; qf_BeforeTime := qf_BeforeTime f |}.

Definition child_entries (cursor : federated_cursor) (f : QueryFilter) (i : nat) (b : LogBackend)
    : list LogEntry :=
  let state := child_state cursor (qf_Before f) i in
  if fc_Exhausted state then []
  else match be_Query b (with_before (fc_Cursor state) f) with
       | Ok (entries, _) => entries
       | Err _ => []
       end.

Definition Federated_Query (children : list LogBackend) (cursor : federated_cursor) (f : QueryFilter)
    : list LogEntry * federated_cursor :=
  let results := imap (child_entries cursor f) children in
  let limit := if (qf_Limit f <=? 0)%Z then defaultLimit else qf_Limit f in
  let merged := mergeLatestFederatedResults results limit in
  let next := list_to_map (imap (fun i entries =>
    (i, next_state (child_state cursor (qf_Before f) i) entries (emitted_of i merged) limit)) results) in
  (fm_entry <$> merged, match merged with [] => None | _ => Some next end).

Definition Federated_Search (sort_entries : list LogEntry -> list LogEntry) (children : list LogBackend)
    (q : SearchQuery) : list LogEntry * Cursor * bool :=
  let results := (fun b => match be_Search b q with
                           | Ok (entries, _, more) => (entries, more)
                           | Err _ => ([], false)
                           end) <$> children in
  let all := sort_entries (concat (fst <$> results)) in
  let more := existsb snd results in
  let limit := if (sq_Limit q <=? 0)%Z then defaultLimit else sq_Limit q in
  let '(all, more) := if (limit <? Z.of_nat (length all))%Z then (take (Z.to_nat limit) all, true)
                      else (all, more) in
  (all, cursor_of_last all, more).
End Federated.

(** ** Numbers as text *)

Lemma digits_pretty z :
  (0 <= z)%Z -> digits_value 0 (String.list_ascii_of_string (pretty z)) = Some z /\ pretty z <> "".
Proof.
  intros H0. assert (exists x, z = Z.of_N x /\ pretty z = pretty x) as (x & -> & ->).
  { destruct z as [|p|p]; [by exists 0%N|by exists (Npos p)|lia]. }
  unfold pretty, pretty_N. case_decide as Hx; [by subst|].
  destruct (digits_value_pretty x ""%string) as [k Hk]. split.
  - by rewrite Hk.
  - intros He. specialize (Hk 0%Z). rewrite He in Hk. simpl in Hk. injection Hk. lia.
Qed.

Lemma ParseUint_pretty n : (0 <= n < 2 ^ 64)%Z -> ParseUint (pretty n) = Some n.
Proof.
  intros [H0 H1]. destruct (digits_pretty n H0) as [Hd Hne]. unfold ParseUint.
  rewrite (proj2 (String.eqb_neq _ _) Hne), Hd. simpl. by rewrite (proj2 (Z.ltb_lt _ _) H1).
Qed.

Definition is_digit (c : ascii) : Prop := digit_value c <> None.

Lemma digits_value_digits acc l n : digits_value acc l = Some n -> Forall is_digit l.
Proof.
  revert acc. induction l as [|c l IH]; intros acc; simpl; [constructor|].
  destruct (digit_value c) eqn:E; [|done]. intros H. constructor; [unfold is_digit; congruence|by eapply IH].
Qed.

Lemma strip_any_digit c l : is_digit c ->
  strip_any space_encodings (c :: l) = None /\ strip_any (@rev ascii <$> space_encodings) (c :: l) = None.
Proof.
  unfold is_digit. destruct c as [[] [] [] [] [] [] [] []]; intros H; try (by exfalso; apply H);
    split; reflexivity.
Qed.

Lemma TrimSpace_digits s : Forall is_digit (String.list_ascii_of_string s) -> TrimSpace s = s.
Proof.
  intros H. rewrite <-(String.string_of_list_ascii_of_string s) at 2. unfold TrimSpace. f_equal.
  generalize dependent (String.list_ascii_of_string s). intros l H.
  assert (trim_left l = l) as ->.
  { unfold trim_left. destruct l as [|c l]; [done|]. apply trim_left_fuel_id.
    apply Forall_cons in H as [H _]. exact (proj1 (strip_any_digit c l H)). }
  unfold trim_right. assert (Forall is_digit (rev l)) as Hr by (by apply Forall_rev).
  rewrite <-(rev_involutive l) at 3. f_equal. destruct (rev l) as [|c k]; [by destruct (length l)|].
  apply trim_left_fuel_id. apply Forall_cons in Hr as [Hr _]. exact (proj2 (strip_any_digit c k Hr)).
Qed.

Lemma TrimSpace_pretty z : (0 <= z)%Z -> TrimSpace (pretty z) = pretty z.
Proof.
  intros H. destruct (digits_pretty z H) as [Hd _]. apply TrimSpace_digits. by eapply digits_value_digits.
Qed.

Lemma pretty_nonempty z : (0 <= z)%Z -> (pretty z =? "")%string = false.
Proof. intros H. apply String.eqb_neq. by apply digits_pretty. Qed.
