(* ===== verification/LogQueries.v ===== *)
(** * The HTTP interface to logs

    The handlers of api/handler_logs.go, api/handler_log_search.go and
    api/handler_deployment_logs.go, over the table of the agent and the backends of its
    deployments; what other agents ask with is the same interface. *)
From stdpp Require Import base strings pretty gmap list.
From Stdlib Require Import ZArith Lia.
From S2P Require Import Prelude Model LogStore LogBackends.
Local Open Scope string_scope.
Local Open Scope list_scope.
Local Open Scope go_scope.

(** ** Parameters *)

Definition defaultSearchLimit : Z := 1000.
Definition maxSearchLimit : Z := 5000.
Definition defaultContextMS : Z := 30000.
Definition maxContextMS : Z := 300000.
Definition defaultPageLimit : Z := 200.
Definition maxPageLimit : Z := 1000.
Definition maxLimit : Z := 5000.

Definition parseBoundedInt (raw : string) (fallback max : Z) : Z :=
  if (raw =? "")%string then fallback
  else match Atoi raw with
       | Some value =>
           if (value <=? 0)%Z then fallback else if (max <? value)%Z then max else value
       | None => fallback
       end.

Definition searchQueryText (q query : string) : string :=
  let text := TrimSpace q in if negb (text =? "")%string then text else TrimSpace query.

(** A reply: an error with its status, or a body. *)
Inductive reply (A : Type) : Type :=
| JsonError (status : Z) (msg : string)
| JsonOK (body : A).
Arguments JsonError {A} status msg.
Arguments JsonOK {A} body.

(** What the client of the handler sees. *)
Definition to_response {A} (r : reply A) : response A :=
  match r with
  | JsonError status msg => Ok (status, Err "body of an error")
  | JsonOK body => Ok (200%Z, Ok body)
  end.

(** [fetchLogs]; a [run] parameter is not sent by other agents. *)
Definition fetchLogs (run : string) (q : LogsParams) (t : LogTable) : reply (list LogEntry) :=
  let limit :=
    if (lp_limit q =? "")%string then 0%Z
    else match Atoi (lp_limit q) with
         | Some n => if (0 <? n)%Z then Z.min n maxLimit else 0%Z
         | None => 0%Z
         end in
  let before := if (lp_before q =? "")%string then 0%Z else default 0%Z (ParseUint (lp_before q)) in
  JsonOK (Fetch {| ftp_DeploymentID := lp_deployment q; ftp_RunID := run; ftp_Limit := limit;
                   ftp_BeforeSeq := before; ftp_BeforeTime := None |} t).

(** ** The scope of a project *)

Record projectLogSearchScope : Type := mkScope {
  sc_all : list string;
  sc_local : list string;
  sc_remote : list string;
}.

Definition splitLogSearchScope (ids : list string) (remoteByID : gmap string bool)
    : projectLogSearchScope :=
  let remote id := default false (remoteByID !! id) in
  {| sc_all := ids; sc_local := List.filter (fun id => negb (remote id)) ids;
     sc_remote := List.filter remote ids |}.

(** The loop over the services: [aliases], [remoteByID] and [allIDs]. *)
Definition scope_service (acc : gmap string (list string) * gmap string bool * list string)
    (service : Service) : gmap string (list string) * gmap string bool * list string :=
  let '(aliases, remoteByID, allIDs) := acc in
  match svc_Deployments service with
  | [] => (<[svc_ID service := [svc_ID service]]> aliases, remoteByID, allIDs ++ [svc_ID service])
  | deps =>
      let '(aliases, remoteByID) := foldl (fun '(aliases, remoteByID) d =>
        (<[dep_ID d := [dep_ID d]]> aliases,
         <[dep_ID d := (dep_Location d =? LocationRemote)%string]> remoteByID)) (aliases, remoteByID) deps in
      (<[svc_ID service := dep_ID <$> deps]> aliases, remoteByID, allIDs ++ (dep_ID <$> deps))
  end.

(** The requested ids, expanded, each once. *)
Fixpoint add_unseen (ids : list string) (seen : list string) : list string :=
  match ids with
  | [] => seen
  | id :: ids =>
      add_unseen ids (if existsb (String.eqb id) seen then seen else seen ++ [id])
  end.

Definition project_scope (project : Project) (requested : list string) : projectLogSearchScope :=
  let '(aliases, remoteByID, allIDs) := foldl scope_service (∅, ∅, []) (prj_Services project) in
  match requested with
  | [] => splitLogSearchScope allIDs remoteByID
  | _ => splitLogSearchScope
           (add_unseen (concat ((fun id => default [] (aliases !! id)) <$> requested)) []) remoteByID
  end.

(** [entries[i].DeploymentID = deploymentID]: what another agent calls the deployment is not shown. *)
Definition set_deployment (dep : string) (e : LogEntry) : LogEntry :=
  {| log_ID := log_ID e; log_DeploymentID := dep; log_SourceID := log_SourceID e;
     log_RunID := log_RunID e; log_Timestamp := log_Timestamp e; log_Level := log_Level e;
     log_Message := log_Message e; log_Stream := log_Stream e; log_RepeatCount := log_RepeatCount e;
     log_FoldKey := log_FoldKey e; log_Seq := log_Seq e; log_LastSeenAt := log_LastSeenAt e |}.

Section App.
Context (like : string -> string -> bool) (t : LogTable).
Context (findProject : string -> option Project) (backends : gmap string LogBackend).

Definition App_projectLogSearchScope (projectID : string) (requested : list string)
    : option projectLogSearchScope :=
  project ← findProject projectID; Some (project_scope project requested).

(** [projectDeploymentIDs] *)
Definition projectDeploymentIDs (projectID : string) (requested : list string) : option (list string) :=
  sc_all <$> App_projectLogSearchScope projectID requested.

(** ** Search *)

Definition errInvalidCursorID : string := "invalid cursor id".

Definition parseStoreCursorID (cursorTime : option time) (cursorIDText : string) : result string Z :=
  match cursorTime with
  | None => Ok 0%Z
  | Some _ =>
      match Atoi cursorIDText with
      | Some n => if (n <=? 0)%Z then Err errInvalidCursorID else Ok n
      | None => Err errInvalidCursorID
      end
  end.

Definition add_counts (counts : gmap string Z) (m : gmap string Z) : gmap string Z :=
  union_with (fun a b => Some (a + b)%Z) counts m.

Definition count_total (m : gmap string Z) : Z := map_fold (fun _ n acc => n + acc)%Z 0%Z m.

(** [searchDeploymentBackends]: the entries, their number by deployment and whether there are more. *)
Fixpoint searchDeploymentBackends (deps : list string) (text : string) (limit : Z) (cursor : Cursor)
    : result string (list LogEntry * gmap string Z * bool) :=
  match deps with
  | [] => Ok ([], ∅, false)
  | dep :: deps =>
      match backends !! dep with
      | None => Err ("log backend not found for deployment " +:+ dep)
      | Some backend =>
          match be_Search backend {| sq_Text := text; sq_DeploymentIDs := [dep]; sq_Limit := limit;
                  sq_Cursor := cursor; sq_From := 0; sq_To := 0 |} with
          | Err e => Err e
          | Ok (entries, _, more) =>
              match searchDeploymentBackends deps text limit cursor with
              | Err e => Err e
              | Ok (items, counts, more') =>
                  Ok (map (set_deployment dep) entries ++ items,
                      add_counts {[ dep := Z.of_nat (length entries) ]} counts, more || more')
              end
          end
      end
  end.

(** [searchProjectLogs]; [sort] is [sort.Slice] by time and id. *)
Definition searchProjectLogs (sort : list LogEntry -> list LogEntry) (text : string) (limit : Z)
    (cursorTime : option time) (cursorIDText : string) (scope : projectLogSearchScope)
    : result string LogSearchReply :=
  let? (items, counts, more) :=
    match sc_local scope with
    | [] => Ok ([], ∅, false)
    | local =>
        let? cursorID := parseStoreCursorID cursorTime cursorIDText in
        let r := Search like {| srp_DeploymentIDs := local; srp_Query := text; srp_Limit := limit;
          srp_Before := 0; srp_CursorTime := cursorTime; srp_CursorID := cursorID; srp_From := None;
          srp_To := None |} t in
        Ok (srr_Entries r, srr_DeploymentCounts r, srr_HasMore r)
    end in
  let? (items', counts', more') := searchDeploymentBackends (sc_remote scope) text limit
    {| cur_Time := default 0%Z cursorTime; cur_ID := cursorIDText |} in
  let all := sort (items ++ items') in
  let total := (count_total counts + count_total counts')%Z in
  if (limit <? Z.of_nat (length all))%Z
  then Ok {| lsr_items := take (Z.to_nat limit) all; lsr_total := total; lsr_has_more := true |}
  else Ok {| lsr_items := all; lsr_total := total; lsr_has_more := more || more' |}.

(** [searchLogs]; [lsp_cursor_time] is a time that parses.  [from] and [to] are not looked at. *)
Definition searchLogs (sort : list LogEntry -> list LogEntry) (q : LogSearchParams) : reply LogSearchReply :=
  let text := searchQueryText (lsp_q q) (lsp_query q) in
  let cursorIDText := TrimSpace (lsp_cursor_id q) in
  let limit := parseBoundedInt (lsp_limit q) defaultSearchLimit maxSearchLimit in
  if (text =? "")%string then JsonError 400 "q is required"
  else
    let scope :=
      if negb (lsp_project q =? "")%string
      then match App_projectLogSearchScope (lsp_project q) (lsp_deployments q) with
           | None => JsonError 404 "project not found"
           | Some scope => JsonOK scope
           end
      else match lsp_deployments q with
           | [] => JsonError 400 "project or deployment is required"
           | deps => JsonOK {| sc_all := deps; sc_local := deps; sc_remote := [] |}
           end in
    match scope with
    | JsonError status msg => JsonError status msg
    | JsonOK scope =>
        if bool_decide (lsp_cursor_time q <> None) && (cursorIDText =? "")%string
        then JsonError 400 "cursor_id is required"
        else if bool_decide (lsp_cursor_time q = None) && negb (lsp_cursor_id q =? "")%string
        then JsonError 400 "cursor_time is required"
        else
          match sc_remote scope with
          | _ :: _ =>
              match searchProjectLogs sort text limit (lsp_cursor_time q) cursorIDText scope with
              | Ok r => JsonOK r
              | Err e => if (e =? errInvalidCursorID)%string then JsonError 400 "cursor_id is required"
                         else JsonError 500 ("failed to search logs: " +:+ e)
              end
          | [] =>
              match parseStoreCursorID (lsp_cursor_time q) cursorIDText with
              | Err _ => JsonError 400 "cursor_id is required"
              | Ok cursorID =>
                  let r := Search like {| srp_DeploymentIDs := sc_all scope; srp_Query := text;
                    srp_Limit := limit; srp_Before := 0; srp_CursorTime := lsp_cursor_time q;
                    srp_CursorID := cursorID; srp_From := None; srp_To := None |} t in
                  JsonOK {| lsr_items := srr_Entries r; lsr_total := srr_Total r;
                            lsr_has_more := srr_HasMore r |}
              end
          end
    end.

(** ** Contexts *)

(** [logContextDeploymentIDs]; the error is the status. *)
Definition logContextDeploymentIDs (projectID : string) (requested : list string)
    : result Z (list string) :=
  if negb (projectID =? "")%string then
    match projectDeploymentIDs projectID requested with Some ids => Ok ids | None => Err 404%Z end
  else match requested with [] => Err 400%Z | _ => Ok requested end.

(** [fetchBackendLogContext] *)
Definition fetchBackendLogContext (dep : string) (targetID : Z) (before after : duration)
    : result string BackendContext :=
  match backends !! dep ≫= be_Context with
  | None => Err ErrLogContextNotFound
  | Some read =>
      map_result (fun r => {| bc_TargetID := bc_TargetID r; bc_AnchorTime := bc_AnchorTime r;
                              bc_Items := map (set_deployment dep) (bc_Items r) |})
        (read {| cq_TargetID := targetID; cq_DeploymentID := dep; cq_Before := before; cq_After := after |})
  end.

(** [contextItemsAroundBackendAnchor] *)
Definition contextItemsAroundBackendAnchor (anchor : time) (deps : list string) (before after : duration)
    : gmap string (list LogEntry) :=
  let empty := foldl (fun m dep => <[dep := []]> m) ∅ deps in
  match FetchContextAt anchor deps before after 0 t with
  | None => empty
  | Some r => ctr_ItemsByDeployment r ∪ empty
  end.

Record logContextResponse : Type := mkLogContextResponse {
  lcr_TargetID : Z;
  lcr_AnchorTime : time;
  lcr_ItemsByDeployment : gmap string (list LogEntry);
}.

(** The loop of [fetchBackendLogContextForScope]: the first of the deployments whose backend knows
    the entry. *)
Fixpoint first_backend_context (targets deps : list string) (targetID : Z)
    (before after : duration) : result string (option logContextResponse) :=
  match targets with
  | [] => Ok None
  | dep :: targets =>
      match fetchBackendLogContext dep targetID before after with
      | Err e => if (e =? ErrLogContextNotFound)%string
                 then first_backend_context targets deps targetID before after
                 else Err (dep +:+ ": " +:+ e)
      | Ok r =>
          Ok (Some {| lcr_TargetID := bc_TargetID r; lcr_AnchorTime := bc_AnchorTime r;
                      lcr_ItemsByDeployment := <[dep := bc_Items r]>
                        (contextItemsAroundBackendAnchor (bc_AnchorTime r) deps before after) |})
      end
  end.

Definition fetchBackendLogContextForScope (deps : list string) (target : string) (targetID : Z)
    (before after : duration) : result string (option logContextResponse) :=
  first_backend_context (if negb (target =? "")%string then [target] else deps) deps targetID before after.

(** [fetchLogContext] *)
Definition fetchLogContext (projectID id : string) (requested : list string) (target before_ms after_ms : string)
    : reply logContextResponse :=
  match Atoi id with
  | None => JsonError 400 "id is required"
  | Some targetID =>
      if (targetID <=? 0)%Z then JsonError 400 "id is required"
      else
        match logContextDeploymentIDs projectID requested with
        | Err status => JsonError status (if (status =? 400)%Z then "project or deployment is required"
                                          else "project not found")
        | Ok deps =>
            let target := TrimSpace target in
            if negb (target =? "")%string && negb (existsb (String.eqb target) deps)
            then JsonError 404 "deployment not found"
            else
              let before := (parseBoundedInt before_ms defaultContextMS maxContextMS * millisecond)%Z in
              let after := (parseBoundedInt after_ms defaultContextMS maxContextMS * millisecond)%Z in
              match FetchContext {| ctp_TargetID := targetID; ctp_TargetDeploymentID := target;
                      ctp_DeploymentIDs := deps; ctp_Before := before; ctp_After := after;
                      ctp_LimitPerDeployment := 0 |} t with
              | Some r => JsonOK {| lcr_TargetID := ctr_TargetID r; lcr_AnchorTime := ctr_AnchorTime r;
                                    lcr_ItemsByDeployment := ctr_ItemsByDeployment r |}
              | None =>
                  match fetchBackendLogContextForScope deps target targetID before after with
                  | Err e => JsonError 500 ("failed to fetch backend log context: " +:+ e)
                  | Ok (Some r) => JsonOK r
                  | Ok None => JsonError 404 "log entry not found"
                  end
              end
        end
  end.

(** ** Context pages *)

(** [fetchLogContextPageForDeployment] *)
Definition fetchLogContextPageForDeployment (dep : string) (at_ : time) (cursorID : Z)
    (dir : ContextPageDirection) (limit : Z) : result string (list LogEntry * bool) :=
  match backends !! dep ≫= be_ContextPage with
  | Some read =>
      map_result (fun '(entries, more) =>
        (map (set_deployment dep) entries, more))
        (read {| cpq_DeploymentID := dep; cpq_Cursor := {| cur_Time := at_; cur_ID := pretty cursorID |};
                 cpq_Direction := dir; cpq_Limit := limit |})
  | None =>
      FetchContextPage {| cpp_DeploymentID := dep; cpp_CursorTime := at_; cpp_CursorSeq := cursorID;
        cpp_Direction := dir; cpp_Limit := limit |} t
  end.

(** [fetchLogContextPage] *)
Definition fetchLogContextPage (q : LogPageParams) : reply (list LogEntry * bool) :=
  if (lpp_project q =? "")%string then JsonError 400 "project is required"
  else if (lpp_deployment q =? "")%string then JsonError 400 "deployment is required"
  else
    match lpp_direction q with
    | ContextPageOther _ => JsonError 400 "direction must be before or after"
    | dir =>
        match Atoi (lpp_cursor_id q) with
        | None => JsonError 400 "cursor_id is required"
        | Some cursorID =>
            if (cursorID <? 0)%Z then JsonError 400 "cursor_id is required"
            else
              match projectDeploymentIDs (lpp_project q) [lpp_deployment q] with
              | None => JsonError 404 "project not found"
              | Some [dep] =>
                  match fetchLogContextPageForDeployment dep (lpp_cursor_time q) cursorID dir
                          (parseBoundedInt (lpp_limit q) defaultPageLimit maxPageLimit) with
                  | Ok r => JsonOK r
                  | Err e => JsonError 500 ("failed to fetch log context page: " +:+ e)
                  end
              | Some _ => JsonError 404 "deployment not found"
              end
        end
    end.

(** ** One deployment *)

(** [fetchDeploymentLogs]; [beforeTime] is a time that parses, or 0. *)
Definition fetchDeploymentLogs (depID run limit before : string) (beforeTime : time)
    : reply (list LogEntry * Cursor) :=
  match backends !! depID with
  | None => JsonError 404 "deployment not found"
  | Some backend =>
      match be_Query backend {| qf_DeploymentID := depID; qf_RunID := run;
              qf_Limit := parseBoundedInt limit 1000 maxLimit;
              qf_Before := {| cur_Time := 0; cur_ID := before |}; qf_BeforeTime := beforeTime |} with
      | Ok r => JsonOK r
      | Err e => JsonError 500 ("failed to fetch logs: " +:+ e)
      end
  end.

(** [searchDeploymentLogs]; [cursorTime] is a time that parses. *)
Definition searchDeploymentLogs (depID q query limit : string) (cursorTime : option time)
    (cursorID : string) : reply (list LogEntry * Cursor * bool) :=
  match backends !! depID with
  | None => JsonError 404 "deployment not found"
  | Some backend =>
      let text := searchQueryText q query in
      if (text =? "")%string then JsonError 400 "q is required"
      else if bool_decide (cursorTime <> None) && (TrimSpace cursorID =? "")%string
      then JsonError 400 "cursor_id is required"
      else
        match be_Search backend {| sq_Text := text; sq_DeploymentIDs := [];
                sq_Limit := parseBoundedInt limit defaultSearchLimit maxSearchLimit;
                sq_Cursor := match cursorTime with
                             | Some at_ => {| cur_Time := at_; cur_ID := TrimSpace cursorID |}
                             | None => no_cursor
                             end; sq_From := 0; sq_To := 0 |} with
        | Ok r => JsonOK r
        | Err e => JsonError 500 ("failed to search logs: " +:+ e)
        end
  end.
End App.

(** ** What another agent sees *)

(** The requests of [RemoteAgentBackend] and of the remote search, answered by an agent. *)
Definition map_reply {A B} (f : A -> B) (r : reply A) : reply B :=
  match r with JsonError status msg => JsonError status msg | JsonOK a => JsonOK (f a) end.

Definition agent_api (like : string -> string -> bool) (sort : list LogEntry -> list LogEntry)
    (findProject : string -> option Project) (backends : gmap string LogBackend) (t : LogTable) : NodeApi :=
  {| na_logs := fun p => to_response (fetchLogs "" p t);
     na_search := fun p => to_response (searchLogs like t findProject backends sort p);
     na_context := fun p => to_response (map_reply
       (fun r => (lcr_TargetID r, lcr_AnchorTime r, lcr_ItemsByDeployment r))
       (fetchLogContext t findProject backends "" (lcp_id p) [lcp_deployment p] ""
          (lcp_before_ms p) (lcp_after_ms p)));
     na_page := fun p => to_response (fetchLogContextPage t findProject backends p) |}.
