(* ===== verification/LogMerge.v ===== *)
(** * Merging sorted logs

    [MergeStreams] of api/remote_search_merge.go: a heap of streams, from which the least entry
    is taken until the page is full. *)
From stdpp Require Import base strings list sorting.
From Stdlib Require Import ZArith Lia Sorted.
From S2P Require Import Prelude Model Pages Heaps.
Local Open Scope string_scope.
Local Open Scope list_scope.

(** [lessLogEntry]: by time, then by id. *)
Definition lessLogEntry (a b : LogEntry) : bool :=
  if (log_Timestamp a =? log_Timestamp b)%Z then (log_ID a <? log_ID b)%Z
  else time_before (log_Timestamp a) (log_Timestamp b).

Record MergeItem : Type := mkMergeItem { mi_HostID : string; mi_Entry : LogEntry }.

(** [mergeHeapItem]; [mh_cursor] is the index of the next entry of the slice. *)
Record mergeHeapItem : Type := mkMergeHeapItem {
  mh_hostID : string;
  mh_entry : LogEntry;
  mh_slice : list LogEntry;
  mh_cursor : nat;
}.

(** [mergeHeap.Less] *)
Definition mergeLess (a b : mergeHeapItem) : bool := lessLogEntry (mh_entry a) (mh_entry b).

Definition heap_item (hs : string * list LogEntry) : option mergeHeapItem :=
  match hs.2 with
  | [] => None
  | e :: _ => Some {| mh_hostID := hs.1; mh_entry := e; mh_slice := hs.2; mh_cursor := 1 |}
  end.

(** The loop, for [n] more items: the least item leaves the heap and, if its stream has another
    entry, comes back with that. *)
Fixpoint merge_loop (n : nat) (h : list mergeHeapItem) : list MergeItem :=
  match n with
  | O => []
  | S n =>
      match Pop mergeLess h with
      | (h, Some item) =>
          {| mi_HostID := mh_hostID item; mi_Entry := mh_entry item |} ::
          merge_loop n
            match mh_slice item !! mh_cursor item with
            | Some e =>
                Push mergeLess {| mh_hostID := mh_hostID item; mh_entry := e;
                                  mh_slice := mh_slice item; mh_cursor := S (mh_cursor item) |} h
            | None => h
            end
      | (_, None) => []
      end
  end.

(** [MergeStreams]; [streams] are the entries of the map in the order of the iteration. *)
Definition MergeStreams (streams : list (string * list LogEntry)) (limit : Z) : list MergeItem :=
  if (limit <=? 0)%Z then []
  else merge_loop (Z.to_nat limit) (Init mergeLess (omap heap_item streams)).

(** ** What the merge promises *)

#[export] Instance lessLogEntry_order : WeakOrder lessLogEntry.
Proof.
  unfold lessLogEntry, time_before. split.
  - intros a b c H1 H2. repeat match goal with
      | H : context [if ?b then _ else _] |- _ => destruct b eqn:?
      | |- context [if ?b then _ else _] => destruct b eqn:? end; lia.
  - intros a b H. rewrite (Z.eqb_sym (log_Timestamp b)).
    destruct (log_Timestamp a =? log_Timestamp b)%Z eqn:E; lia.
Qed.

#[export] Instance mergeLess_order : WeakOrder mergeLess.
Proof.
  unfold mergeLess. split.
  - intros a b c. apply wo_trans.
  - intros a b. apply wo_asym.
Qed.

Definition entry_le (a b : LogEntry) : Prop := lessLogEntry b a = false.

#[export] Instance entry_le_preorder : PreOrder entry_le.
Proof.
  split; [intros a; apply (wo_irrefl lessLogEntry)|].
  intros a b c. apply (wo_trans (less := lessLogEntry)).
Qed.

(** The entries of a host in a merged list. *)
Definition from_host (host : string) (items : list MergeItem) : list LogEntry :=
  mi_Entry <$> List.filter (fun it => mi_HostID it =? host)%string items.

(** What is left of the stream of an item. *)
Definition remaining (it : mergeHeapItem) : list LogEntry := mh_entry it :: drop (mh_cursor it) (mh_slice it).

Definition sorted_item (it : mergeHeapItem) : Prop := StronglySorted entry_le (remaining it).

Definition step_item (it : mergeHeapItem) : option mergeHeapItem :=
  e ← mh_slice it !! mh_cursor it;
  Some {| mh_hostID := mh_hostID it; mh_entry := e; mh_slice := mh_slice it; mh_cursor := S (mh_cursor it) |}.

Definition stream_heap (h : list mergeHeapItem) : Prop :=
  is_heap mergeLess h /\ NoDup (mh_hostID <$> h) /\ Forall sorted_item h.

Lemma remaining_step it :
  remaining it = mh_entry it :: match step_item it with Some it' => remaining it' | None => [] end.
Proof.
  unfold remaining, step_item. destruct (mh_slice it !! mh_cursor it) as [e|] eqn:E; simpl.
  - by rewrite (drop_S _ _ _ E).
  - apply lookup_ge_None in E. by rewrite drop_ge.
Qed.

Definition left_over (h : list mergeHeapItem) : nat := sum_list (length ∘ remaining <$> h).

Lemma sum_list_perm (l k : list nat) : l ≡ₚ k -> sum_list l = sum_list k.
Proof. induction 1; simpl; lia. Qed.

(** One turn of the loop. *)
Lemma pop_push h :
  stream_heap h -> h <> [] ->
  exists it h', Pop mergeLess h = (h', Some it) /\ it ∈ h /\
    (forall x e, x ∈ h -> e ∈ remaining x -> entry_le (mh_entry it) e) /\
    let h1 := match step_item it with Some it' => Push mergeLess it' h' | None => h' end in
    stream_heap h1 /\ S (left_over h1) = left_over h /\
    (forall x, x ∈ h1 <-> step_item it = Some x \/ (x ∈ h /\ mh_hostID x <> mh_hostID it)).
Proof.
  intros (Hh & Hn & Hs) Hne.
  destruct (Pop_spec mergeLess ltac:(intros ???; apply wo_trans) ltac:(apply wo_asym) h Hh Hne)
    as (it & E1 & Hp & Hh' & Hleast).
  destruct (Pop mergeLess h) as [h' o]. simpl in *. subst o. exists it, h'.
  assert (it ∈ h) as Hit by (rewrite <-Hp; by left).
  assert (NoDup (mh_hostID <$> (it :: h'))) as Hn' by (by rewrite Hp).
  cbn [fmap list_fmap] in Hn'. apply NoDup_cons in Hn' as [Hnot Hn'].
  assert (Forall sorted_item (it :: h')) as Hs' by (by rewrite Hp).
  apply Forall_cons in Hs' as [Hsi Hs'].
  assert (forall x, x ∈ h <-> x = it \/ x ∈ h') as Hel by (intros x; by rewrite <-Hp, elem_of_cons).
  assert (forall x, x ∈ h' <-> x ∈ h /\ mh_hostID x <> mh_hostID it) as Hel'.
  { intros x. rewrite Hel. split.
    - intros Hx. split; [by right|]. intros E. apply Hnot. rewrite <-E. by apply list_elem_of_fmap_2.
    - intros [[->|?] ?]; done. }
  assert (left_over h = length (remaining it) + left_over h') as El.
  { unfold left_over. rewrite <-(sum_list_perm _ _ (fmap_Permutation (length ∘ remaining) _ _ Hp)). done. }
  split; [done|]. split; [done|]. split.
  - intros x e Hx He. rewrite Forall_forall in Hs.
    transitivity (mh_entry x); [apply (Hleast x Hx)|].
    specialize (Hs x Hx). unfold sorted_item, remaining in *.
    apply elem_of_cons in He as [->|He]; [done|]. inversion Hs as [|? ? _ Hf]; subst.
    by apply (proj1 (Forall_forall _ _) Hf).
  - rewrite El, (remaining_step it). unfold sorted_item in Hsi. rewrite (remaining_step it) in Hsi.
    destruct (step_item it) as [it'|] eqn:Es; cbn zeta.
    + destruct (Push_spec mergeLess ltac:(intros ???; apply wo_trans) ltac:(apply wo_asym) it' h' Hh')
        as [Hp1 Hh1].
      assert (mh_hostID it' = mh_hostID it) as Eh.
      { unfold step_item in Es. destruct (_ !! _); simplify_eq/=. done. }
      split_and!; [split_and!; [done| |]| |].
      * rewrite Hp1. cbn [fmap list_fmap]. rewrite Eh. by constructor.
      * rewrite Hp1. constructor; [|done]. by inversion Hsi.
      * unfold left_over. rewrite (sum_list_perm _ _ (fmap_Permutation (length ∘ remaining) _ _ Hp1)).
        reflexivity.
      * intros x. rewrite Hp1, elem_of_cons, Hel'. split; [intros [->|?]|intros [[= ->]|?]]; auto.
    + split_and!; [done|simpl; lia|]. intros x. rewrite Hel'. split; [auto|]. by intros [?|?].
Qed.

(** The first [k] entries of a stream are in the output, and all that is in the output comes
    before the others. *)
Definition merged_upto (out : list MergeItem) (host : string) (l : list LogEntry) : Prop :=
  let k := length (from_host host out) in
  from_host host out = take k l /\
  forall e e', e ∈ mi_Entry <$> out -> e' ∈ drop k l -> entry_le e e'.

Record merge_of (out : list MergeItem) (n : nat) (streams : list (string * list LogEntry)) : Prop := {
  mg_sorted : StronglySorted entry_le (mi_Entry <$> out);
  mg_length : length out = n `min` sum_list (length ∘ snd <$> streams);
  mg_hosts : forall it, it ∈ out -> mi_HostID it ∈ streams.*1;
  mg_upto : forall host l, (host, l) ∈ streams -> merged_upto out host l;
}.

Lemma from_host_cons host it out :
  from_host host (it :: out) =
    (if (mi_HostID it =? host)%string then [mi_Entry it] else []) ++ from_host host out.
Proof. unfold from_host. simpl. by destruct (_ =? _)%string. Qed.

Lemma from_host_elem it out : it ∈ out -> mi_Entry it ∈ from_host (mi_HostID it) out.
Proof.
  intros H. apply list_elem_of_fmap_2, list_elem_of_In, filter_In.
  split; [by apply list_elem_of_In|apply String.eqb_refl].
Qed.

Lemma from_host_nil host out :
  (forall it, it ∈ out -> mi_HostID it <> host) -> from_host host out = [].
Proof.
  intros H. unfold from_host. rewrite filter_none; [done|]. intros it Hit.
  apply String.eqb_neq. auto.
Qed.

(** The streams that a heap stands for. *)
Definition stream_of (it : mergeHeapItem) : string * list LogEntry := (mh_hostID it, remaining it).

Lemma merge_least out n h b :
  merge_of out n (stream_of <$> h) ->
  (forall x e, x ∈ h -> e ∈ remaining x -> entry_le b e) ->
  forall e, e ∈ mi_Entry <$> out -> entry_le b e.
Proof.
  intros [_ _ H3 H4] Hb e (it & -> & Hit)%list_elem_of_fmap.
  pose proof (H3 it Hit) as Hin. rewrite <-list_fmap_compose in Hin.
  apply list_elem_of_fmap in Hin as (x & Ex & Hx).
  destruct (H4 (mh_hostID x) (remaining x)) as [E _].
  { change (mh_hostID x, remaining x) with (stream_of x). by apply list_elem_of_fmap_2. }
  pose proof (from_host_elem it out Hit) as He. rewrite Ex in He. unfold stream_of in He. simpl in He.
  rewrite E in He. apply (Hb x); [done|]. by eapply elem_of_take_1 || (eapply elem_of_sublist; [exact He|apply sublist_take]).
Qed.

Lemma step_item_host it it' : step_item it = Some it' -> mh_hostID it' = mh_hostID it.
Proof. unfold step_item. destruct (_ !! _); simpl; [|done]. by intros [= <-]. Qed.

Lemma merge_loop_spec n h : stream_heap h -> merge_of (merge_loop n h) n (stream_of <$> h).
Proof.
  revert h. induction n as [|n IH]; intros h Hh.
  { split; simpl; [constructor|done|by intros it ?%elem_of_nil|].
    intros host l _. split; [done|]. by intros e e' ?%elem_of_nil. }
  destruct (decide (h = [])) as [->|Hne].
  { split; simpl; [constructor|done|by intros it ?%elem_of_nil|by intros host l ?%elem_of_nil]. }
  destruct (pop_push h Hh Hne) as (it & h' & EP & Hit & Hleast & Hh1 & Hlen & Hel).
  cbn [merge_loop]. rewrite EP.
  assert (match mh_slice it !! mh_cursor it with
    | Some e => Push mergeLess {| mh_hostID := mh_hostID it; mh_entry := e;
                  mh_slice := mh_slice it; mh_cursor := S (mh_cursor it) |} h'
    | None => h' end = match step_item it with Some it' => Push mergeLess it' h' | None => h' end) as ->.
  { unfold step_item. by destruct (_ !! _). }
  set (h1 := match step_item it with Some it' => _ | None => _ end) in *.
  pose proof (IH h1 Hh1) as HM. set (out := merge_loop n h1) in *.
  assert (forall x, x ∈ h -> mh_hostID x = mh_hostID it -> x = it) as Huniq.
  { intros x Hx E. destruct Hh as (_ & Hn & _). apply list_elem_of_lookup in Hx as [i Hi], Hit as [j Hj].
    assert (i = j) as ->; [|by simplify_eq].
    apply (NoDup_lookup (mh_hostID <$> h) i j (mh_hostID it) Hn);
      rewrite list_lookup_fmap, ?Hi, ?Hj; simpl; by rewrite ?E. }
  assert (forall e, e ∈ mi_Entry <$> out -> entry_le (mh_entry it) e) as Hmin.
  { apply (merge_least _ _ _ _ HM). intros x e [Hx|[Hx _]]%Hel He; [|by eapply Hleast].
    apply (Hleast it); [done|]. rewrite remaining_step, Hx. by right. }
  split.
  - cbn [fmap list_fmap]. constructor; [apply HM|]. by apply Forall_forall.
  - cbn [length]. rewrite (mg_length _ _ _ HM). rewrite <-!list_fmap_compose.
    change (sum_list (length ∘ snd ∘ stream_of <$> h1)) with (left_over h1).
    change (sum_list (length ∘ snd ∘ stream_of <$> h)) with (left_over h). lia.
  - rewrite <-list_fmap_compose. intros x [->|Hx]%elem_of_cons.
    + by apply list_elem_of_fmap_2 with (f := fst ∘ stream_of).
    + apply (mg_hosts _ _ _ HM) in Hx. rewrite <-list_fmap_compose in Hx.
      apply list_elem_of_fmap in Hx as (y & Ey & [Hy|[Hy _]]%Hel).
      * simpl in Ey. rewrite (step_item_host _ _ Hy) in Ey. rewrite Ey.
        by apply list_elem_of_fmap_2 with (f := fst ∘ stream_of).
      * rewrite Ey. by apply list_elem_of_fmap_2 with (f := fst ∘ stream_of).
  - intros host l (x & [= -> ->] & Hx)%list_elem_of_fmap. unfold merged_upto.
    rewrite from_host_cons. cbn [mi_HostID mi_Entry].
    destruct (String.eqb_spec (mh_hostID it) (mh_hostID x)) as [E|E].
    + rewrite (Huniq x Hx) by done. cbn [app length].
      rewrite remaining_step. cbn [take drop].
      destruct (step_item it) as [it'|] eqn:Es.
      * destruct (mg_upto _ _ _ HM (mh_hostID it') (remaining it')) as [E1 E2].
        { change (mh_hostID it', remaining it') with (stream_of it').
          apply list_elem_of_fmap_2, Hel. by left. }
        rewrite (step_item_host _ _ Es) in E1, E2. split; [f_equal; exact E1|].
        intros e e' [->|He]%elem_of_cons He'; [|by apply E2].
        apply (Hleast it); [done|]. rewrite remaining_step, Es. right.
        by eapply elem_of_sublist; [exact He'|apply sublist_drop].
      * rewrite from_host_nil; [split; [done|]; by intros e e' _ ?%elem_of_nil|].
        intros y Hy. apply (mg_hosts _ _ _ HM) in Hy. rewrite <-list_fmap_compose in Hy.
        apply list_elem_of_fmap in Hy as (z & -> & [?|[_ ?]]%Hel); done.
    + destruct (mg_upto _ _ _ HM (mh_hostID x) (remaining x)) as [E1 E2].
      { change (mh_hostID x, remaining x) with (stream_of x). apply list_elem_of_fmap_2, Hel.
        right. split; [done|congruence]. }
      cbn [app]. split; [exact E1|]. intros e e' [->|He]%elem_of_cons He'; [|by apply E2].
      apply (Hleast x); [done|]. by eapply elem_of_sublist; [exact He'|apply sublist_drop].
Qed.

Lemma merge_of_perm out n streams streams' :
  streams ≡ₚ streams' -> merge_of out n streams -> merge_of out n streams'.
Proof.
  intros Hp [H1 H2 H3 H4]. split; [done| | |].
  - by rewrite <-(sum_list_perm _ _ (fmap_Permutation (length ∘ snd) _ _ Hp)).
  - intros it. rewrite <-Hp. apply H3.
  - intros host l. rewrite <-Hp. apply H4.
Qed.

Definition nonempty_streams (streams : list (string * list LogEntry)) : list (string * list LogEntry) :=
  List.filter (fun hs => match hs.2 with [] => false | _ => true end) streams.

Lemma heap_items streams : stream_of <$> omap heap_item streams = nonempty_streams streams.
Proof.
  unfold nonempty_streams. induction streams as [|[host [|e l]] streams IH]; [done|done|].
  simpl. f_equal. exact IH.
Qed.

Lemma nonempty_streams_elem streams host l :
  (host, l) ∈ nonempty_streams streams <-> (host, l) ∈ streams /\ l <> [].
Proof.
  unfold nonempty_streams. rewrite !list_elem_of_In, filter_In. simpl.
  destruct l; split; intros [? H]; try done; by split.
Qed.

Lemma nonempty_streams_hosts streams : (nonempty_streams streams).*1 `sublist_of` streams.*1.
Proof.
  apply fmap_sublist. unfold nonempty_streams. induction streams as [|x l IH]; simpl; [done|].
  destruct x.2; by constructor.
Qed.

Lemma merge_of_nonempty out n streams :
  NoDup streams.*1 -> merge_of out n (nonempty_streams streams) -> merge_of out n streams.
Proof.
  intros Hn [H1 H2 H3 H4]. split; [done| | |].
  - rewrite H2. f_equal. unfold nonempty_streams. clear.
    induction streams as [|[host [|e l]] streams IH]; [done|done|].
    simpl. f_equal. f_equal. exact IH.
  - intros it Hit%H3. eapply elem_of_sublist; [exact Hit|apply nonempty_streams_hosts].
  - intros host l Hl. destruct (decide (l = [])) as [->|Hne].
    2: { apply H4. by apply nonempty_streams_elem. }
    unfold merged_upto. rewrite from_host_nil; [by split; [done|intros e e' _ ?%elem_of_nil]|].
    intros it Hit%H3 Ei. rewrite Ei in Hit. apply list_elem_of_fmap in Hit as ([host' l'] & E & Hl'). simpl in E. subst host'.
    apply nonempty_streams_elem in Hl' as [Hl' Hne].
    apply list_elem_of_lookup in Hl as [i Hi], Hl' as [j Hj].
    assert (i = j) as ->; [|by simplify_eq].
    apply (NoDup_lookup streams.*1 i j host Hn); rewrite list_lookup_fmap, ?Hi, ?Hj; done.
Qed.

(** The merge of streams that are sorted, for distinct hosts: sorted, as long as the limit and the
    streams allow, and cut at one point of the common order. *)
Lemma MergeStreams_spec streams limit :
  NoDup streams.*1 -> (forall host l, (host, l) ∈ streams -> StronglySorted entry_le l) ->
  merge_of (MergeStreams streams limit) (Z.to_nat limit) streams.
Proof.
  intros Hn Hs. unfold MergeStreams. destruct (Z.leb_spec limit 0) as [Hl|Hl].
  { replace (Z.to_nat limit) with 0 by lia. split; [constructor|done|by intros it ?%elem_of_nil|].
    intros host l _. split; [done|]. by intros e e' ?%elem_of_nil. }
  destruct (Init_spec mergeLess ltac:(intros ???; apply wo_trans) ltac:(apply wo_asym)
    (omap heap_item streams)) as [Hp Hh].
  apply merge_of_nonempty; [done|]. rewrite <-heap_items.
  apply (merge_of_perm _ _ (stream_of <$> Init mergeLess (omap heap_item streams))).
  { by apply fmap_Permutation. }
  apply merge_loop_spec. split; [done|].
  assert (NoDup (mh_hostID <$> omap heap_item streams)) as HN.
  { change (NoDup (fst ∘ stream_of <$> omap heap_item streams)).
    rewrite list_fmap_compose, heap_items. eapply sublist_NoDup; [exact Hn|apply nonempty_streams_hosts]. }
  split; [by rewrite (fmap_Permutation mh_hostID _ _ Hp)|].
  apply Forall_forall. intros it. rewrite Hp. intros Hit. unfold sorted_item.
  assert (stream_of it ∈ nonempty_streams streams) as Hin.
  { rewrite <-heap_items. by apply list_elem_of_fmap_2. }
  apply nonempty_streams_elem in Hin as [Hin _]. by eapply Hs.
Qed.
