(* ===== verification/RemoteSearch.v ===== *)
(** * Search across agents

    The handlers of api/handler_remote_search.go: the hosts of a log source, or the services of a
    project, are asked at once, the answers merged, and a cursor for each host handed out. *)
From stdpp Require Import base strings pretty gmap list.
From Stdlib Require Import ZArith Lia.
From S2P Require Import Prelude Model LogStore LogBackends LogQueries LogMerge.
Local Open Scope string_scope.
Local Open Scope list_scope.
Local Open Scope go_scope.

(** [LogSource] *)
Record LogSource : Type := mkLogSource {
  ls_ID : string;
  ls_Name : string;
  ls_Type : string;
  ls_HostIDs : list string;
  ls_Tags : list string;
  ls_ExtraArgs : list string;
  ls_ProjectID : string;
  ls_ServiceID : string;
}.

(** ** Cursors *)

(** [HostCursor] and its zero value; a [MergeCursor] is a map of them. *)
Record HostCursor : Type := mkHostCursor {
  hc_CursorTime : time;
  hc_CursorID : Z;
  hc_Exhausted : bool;
}.
Definition zero_cursor : HostCursor := {| hc_CursorTime := 0; hc_CursorID := 0; hc_Exhausted := false |}.
Definition exhausted_cursor : HostCursor := {| hc_CursorTime := 0; hc_CursorID := 0; hc_Exhausted := true |}.

Definition cursor_at (cursors : gmap string HostCursor) (host : string) : HostCursor :=
  default zero_cursor (cursors !! host).

(** The maps [emittedCount] and [lastEmitted]. *)
Definition count_emitted (merged : list MergeItem) : gmap string nat :=
  foldl (fun m it => <[mi_HostID it := S (default 0 (m !! mi_HostID it))]> m) ∅ merged.
Definition last_emitted (merged : list MergeItem) : gmap string LogEntry :=
  foldl (fun m it => <[mi_HostID it := mi_Entry it]> m) ∅ merged.

(** The body of the loop of [buildNextMergeCursor] for a host that has not failed; the cases of a
    host without entry in [lastEmitted] do not occur. *)
Definition next_host_cursor (old : HostCursor) (entries : list LogEntry) (count : nat)
    (last_entry : option LogEntry) (limit : Z) : HostCursor * bool :=
  if hc_Exhausted old then (old, false)
  else match count, entries with
       | O, [] => (exhausted_cursor, false)
       | O, _ => (old, true)
       | _, _ =>
           if (count =? length entries)%nat && (Z.of_nat (length entries) <? limit)%Z
           then (exhausted_cursor, false)
           else ({| hc_CursorTime := default 0%Z (log_Timestamp <$> last_entry);
                    hc_CursorID := default 0%Z (log_ID <$> last_entry); hc_Exhausted := false |}, true)
       end.

(** [buildNextMergeCursor], over the ids of the hosts: the next cursor and [hasMore]. *)
Definition buildNextMergeCursor (hosts : list string) (old : gmap string HostCursor)
    (streams : gmap string (list LogEntry)) (failed : list string) (merged : list MergeItem) (limit : Z)
    : gmap string HostCursor * bool :=
  let emittedCount := count_emitted merged in
  let lastEmitted := last_emitted merged in
  foldl (fun '(next, hasMore) host =>
    if existsb (String.eqb host) failed then (next, hasMore)
    else
      let '(c, more) := next_host_cursor (cursor_at old host) (default [] (streams !! host))
        (default 0 (emittedCount !! host)) (lastEmitted !! host) limit in
      (<[host := c]> next, hasMore || more))
    (∅, negb (bool_decide (failed = []))) hosts.

(** ** One host *)

Definition selectHostsForGroup (hostIDs : list string) (group : string) (hostByID : gmap string Host)
    : list Host :=
  omap (fun id => h ← hostByID !! id;
    if (group =? "all")%string || existsb (String.eqb group) (hst_Tags h) then Some h else None) hostIDs.

Definition remoteSearchDefaultLim : Z := 200.
Definition remoteSearchMaxLim : Z := 1000.

Definition remoteSearchLimit (v : string) : Z :=
  let limit :=
    if negb (v =? "")%string
    then match Atoi v with
         | Some n => if (0 <? n)%Z then n else remoteSearchDefaultLim
         | None => remoteSearchDefaultLim
         end
    else remoteSearchDefaultLim in
  if (remoteSearchMaxLim <? limit)%Z then remoteSearchMaxLim else limit.

(** [fetchOneHost]: the entries and the total. *)
Definition fetchOneHost (node : NodeApi) (serviceID query : string) (limit : Z) (hc : HostCursor)
    (from to : option time) : result string (list LogEntry * Z) :=
  let zero := time_is_zero (hc_CursorTime hc) in
  match na_search node {| lsp_project := ""; lsp_deployments := [serviceID]; lsp_q := query;
    lsp_query := query; lsp_limit := pretty limit;
    lsp_cursor_time := if zero then None else Some (hc_CursorTime hc);
    lsp_cursor_id := if zero then "" else pretty (hc_CursorID hc);
    lsp_from := from; lsp_to := to |} with
  | Err e => Err e
  | Ok (status, body) =>
      if negb (ok_status status) then Err "remote returned non-2xx"
      else map_result (fun r => (lsr_items r, lsr_total r)) body
  end.

(** ** A page of the search *)

Record remoteSearchResponse : Type := mkRemoteSearchResponse {
  rsp_Entries : list MergeItem;
  rsp_TotalByHost : gmap string Z;
  rsp_HostsFailed : list string;
  rsp_NextCursor : gmap string HostCursor;
  rsp_HasMore : bool;
}.

(** What is not determined: the order in which the answers arrive, and that of the iteration over
    the map of streams. *)
Record Schedule : Type := mkSchedule {
  sd_arrival : list Host -> list Host;
  sd_range : gmap string (list LogEntry) -> list (string * list LogEntry);
}.

Section Page.
Context (fetch : string -> HostCursor -> result string (list LogEntry * Z)).

(** The maps [streams] and [totals] and the list [failed] after the answers. *)
Definition gather (sd : Schedule) (relevant : list Host) (cursor : gmap string HostCursor)
    : gmap string (list LogEntry) * gmap string Z * list string :=
  let exhausted h := hc_Exhausted (cursor_at cursor (hst_ID h)) in
  let acc := foldl (fun '(streams, totals) h =>
      (<[hst_ID h := []]> streams, <[hst_ID h := 0%Z]> totals))
    (∅, ∅) (List.filter exhausted relevant) in
  foldl (fun '(streams, totals, failed) h =>
      match fetch (hst_ID h) (cursor_at cursor (hst_ID h)) with
      | Ok (entries, total) => (<[hst_ID h := entries]> streams, <[hst_ID h := total]> totals, failed)
      | Err _ => (streams, totals, failed ++ [hst_ID h])
      end)
    (acc.1, acc.2, []) (sd_arrival sd (List.filter (fun h => negb (exhausted h)) relevant)).

(** The part of [remoteLogSearch] after the hosts are known. *)
Definition search_page (sd : Schedule) (relevant : list Host) (cursor : gmap string HostCursor)
    (limit : Z) : remoteSearchResponse :=
  let '(streams, totals, failed) := gather sd relevant cursor in
  let failed := sort_strings failed in
  let merged := MergeStreams (sd_range sd streams) limit in
  let old := foldl (fun m h => <[hst_ID h := cursor_at cursor (hst_ID h)]> m) ∅ relevant in
  let '(next, more) := buildNextMergeCursor (hst_ID <$> relevant) old streams failed merged limit in
  {| rsp_Entries := merged; rsp_TotalByHost := totals; rsp_HostsFailed := failed;
     rsp_NextCursor := next; rsp_HasMore := more |}.
End Page.

Definition host_map (hosts : list Host) : gmap string Host :=
  foldl (fun m h => <[hst_ID h := h]> m) ∅ hosts.

(** [remoteLogSearch] without a project. [cursor] is the decoded cursor, [None] one that does not
    decode; [collector_id] is [collector.CollectorID], a hash. *)
Definition remoteLogSearch (nodes : string -> NodeApi) (collector_id : string -> string -> string)
    (sd : Schedule) (logSources : result string (list LogSource)) (hosts : result string (list Host))
    (logSourceID group q query limit : string) (cursor : option (gmap string HostCursor))
    (from to : option time) : reply remoteSearchResponse :=
  let query := searchQueryText q query in
  if (logSourceID =? "")%string || (group =? "")%string
  then JsonError 400 "log_source_id and group are required"
  else
    let limit := remoteSearchLimit limit in
    match cursor, logSources with
    | None, _ => JsonError 400 "invalid cursor"
    | _, Err e => JsonError 500 e
    | Some cursor, Ok logSources =>
        match List.find (fun s => (ls_ID s =? logSourceID)%string) logSources with
        | None => JsonError 404 "log source not found"
        | Some source =>
            match hosts with
            | Err e => JsonError 500 e
            | Ok hosts =>
                let relevant := selectHostsForGroup (ls_HostIDs source) group (host_map hosts) in
                match relevant with
                | [] => JsonOK {| rsp_Entries := []; rsp_TotalByHost := ∅; rsp_HostsFailed := [];
                                  rsp_NextCursor := ∅; rsp_HasMore := false |}
                | _ =>
                    JsonOK (search_page
                      (fun host hc => fetchOneHost (nodes host) (collector_id (ls_Name source) (ls_Type source))
                         query limit hc from to) sd relevant cursor limit)
                end
            end
        end
    end.

(** ** The services of a project *)

Record remoteProjectNode : Type := mkProjectNode {
  pn_HostID : string;
  pn_HostName : string;
  pn_Status : string;
  pn_Count : Z;
  pn_Error : string;
}.

Record remoteProjectEntryItem : Type := mkProjectEntry {
  pe_Key : string;
  pe_ID : Z;
  pe_ServiceID : string;
  pe_LogSourceID : string;
  pe_HostID : string;
  pe_HostName : string;
  pe_RunID : string;
  pe_Timestamp : time;
  pe_Level : string;
  pe_Message : string;
  pe_Stream : string;
}.

Record remoteProjectServiceColumn : Type := mkProjectColumn {
  pc_ServiceID : string;
  pc_ServiceName : string;
  pc_Status : string;
  pc_ResultCount : Z;
  pc_NodeCount : Z;
  pc_Nodes : list remoteProjectNode;
  pc_Entries : list remoteProjectEntryItem;
}.

Record remoteProjectFailure : Type := mkProjectFailure {
  pf_ServiceID : string;
  pf_HostID : string;
  pf_Kind : string;
  pf_Message : string;
}.

Record remoteProjectTarget : Type := mkProjectTarget {
  pt_serviceID : string;
  pt_serviceName : string;
  pt_logSource : LogSource;
  pt_host : Host;
}.

Record remoteProjectTargetResult : Type := mkTargetResult {
  tr_target : remoteProjectTarget;
  tr_cursor : HostCursor;
  tr_answer : result string (list LogEntry);
}.

Record remoteProjectSearchResponse : Type := mkProjectResponse {
  ps_Query : string;
  ps_Status : string;
  ps_ServiceColumns : list remoteProjectServiceColumn;
  ps_Failures : list remoteProjectFailure;
  ps_NextCursor : gmap string HostCursor;
  ps_HasMore : bool;
}.

Definition remoteProjectCursorKey (t : remoteProjectTarget) : string :=
  pt_serviceID t +:+ "/" +:+ ls_ID (pt_logSource t) +:+ "/" +:+ hst_ID (pt_host t).

Definition remoteProjectEntryCursorKey (e : remoteProjectEntryItem) : string :=
  pe_ServiceID e +:+ "/" +:+ pe_LogSourceID e +:+ "/" +:+ pe_HostID e.

(** The text of [context.DeadlineExceeded]. *)
Definition deadlineExceeded : string := "context deadline exceeded".

(** [strings.Contains] *)
Fixpoint contains (s sub : string) : bool :=
  String.prefix sub s || match s with EmptyString => false | String _ s => contains s sub end.

Definition remoteProjectErrorKind (err : string) : string :=
  if contains err deadlineExceeded then "timeout" else "failed".

Definition remoteProjectEntry (t : remoteProjectTarget) (e : LogEntry) : remoteProjectEntryItem :=
  {| pe_Key := remoteProjectCursorKey t +:+ ":" +:+ pretty (log_ID e); pe_ID := log_ID e;
     pe_ServiceID := pt_serviceID t; pe_LogSourceID := ls_ID (pt_logSource t);
     pe_HostID := hst_ID (pt_host t); pe_HostName := hst_Name (pt_host t); pe_RunID := log_RunID e;
     pe_Timestamp := log_Timestamp e; pe_Level := log_Level e; pe_Message := log_Message e;
     pe_Stream := log_Stream e |}.

Definition count_status (status : string) (nodes : list remoteProjectNode) : nat :=
  length (List.filter (fun n => pn_Status n =? status)%string nodes).

Definition remoteProjectColumnStatus (nodes : list remoteProjectNode) : string :=
  let successNodes := count_status "success" nodes in
  let timeoutNodes := count_status "timeout" nodes in
  if (successNodes =? 0)%nat && (timeoutNodes =? length nodes)%nat then "timeout"
  else if (successNodes =? 0)%nat then "failed"
  else if (successNodes <? length nodes)%nat then "partial_failed"
  else "success".

Definition remoteProjectSearchStatus (successfulTargets : nat) (failures : list remoteProjectFailure)
    : string :=
  if (successfulTargets =? 0)%nat then "failed"
  else match failures with [] => "success" | _ => "partial_failed" end.

Definition stringSet (values : list string) : gset string :=
  list_to_set (List.filter (fun v => negb (v =? "")%string) (TrimSpace <$> values)).

Fixpoint serviceIndex (order : list string) (serviceID : string) : nat :=
  match order with
  | [] => 0
  | item :: order => if (item =? serviceID)%string then 0 else S (serviceIndex order serviceID)
  end.

(** [remoteProjectSearchTargets]: the targets and the order of the services. *)
Definition allowed (s : gset string) (x : string) : bool :=
  bool_decide (s = ∅) || bool_decide (x ∈ s).

Definition remoteProjectSearchTargets (project : option Project) (projectID group : string)
    (serviceFilter hostFilter : list string) (logSources : result string (list LogSource))
    (hosts : result string (list Host)) : result string (list remoteProjectTarget * list string) :=
  match project with
  | None => Ok ([], [])
  | Some project =>
      let serviceNames : gmap string string :=
        foldl (fun m s => <[svc_ID s := svc_Name s]> m) ∅ (prj_Services project) in
      let? logSources := logSources in
      let? hosts := hosts in
      Ok (foldl (fun '(targets, order) ls =>
        if negb (ls_ProjectID ls =? projectID)%string || (ls_ServiceID ls =? "")%string ||
           negb (allowed (stringSet serviceFilter) (ls_ServiceID ls))
        then (targets, order)
        else match serviceNames !! ls_ServiceID ls with
             | None => (targets, order)
             | Some name =>
                 (targets ++ map (fun h => {| pt_serviceID := ls_ServiceID ls; pt_serviceName := name;
                                              pt_logSource := ls; pt_host := h |})
                    (List.filter (fun h => allowed (stringSet hostFilter) (hst_ID h))
                       (selectHostsForGroup (ls_HostIDs ls) group (host_map hosts))),
                  if existsb (String.eqb (ls_ServiceID ls)) order then order
                  else order ++ [ls_ServiceID ls])
             end) ([], []) logSources)
  end.

Section Project.
(** [sort.Slice]: equivalent elements may come in any order. *)
Context (sort_slice : forall A, (A -> A -> bool) -> list A -> list A).

Definition target_less (order : list string) (a b : remoteProjectTargetResult) : bool :=
  if (pt_serviceID (tr_target a) =? pt_serviceID (tr_target b))%string
  then String.ltb (hst_ID (pt_host (tr_target a))) (hst_ID (pt_host (tr_target b)))
  else (serviceIndex order (pt_serviceID (tr_target a)) <?
        serviceIndex order (pt_serviceID (tr_target b)))%nat.

Definition item_less (a b : remoteProjectEntryItem) : bool :=
  if (pe_Timestamp a =? pe_Timestamp b)%Z then (pe_ID a <? pe_ID b)%Z
  else time_before (pe_Timestamp a) (pe_Timestamp b).

Definition node_of (r : remoteProjectTargetResult) : remoteProjectNode :=
  let h := pt_host (tr_target r) in
  match tr_answer r with
  | Ok entries => mkProjectNode (hst_ID h) (hst_Name h) "success" (Z.of_nat (length entries)) ""
  | Err e => mkProjectNode (hst_ID h) (hst_Name h) (remoteProjectErrorKind e) 0 e
  end.

(** The column of a service, from the sorted results. *)
Definition column_of (limit : Z) (results : list remoteProjectTargetResult) (serviceID : string)
    : remoteProjectServiceColumn :=
  let mine := List.filter (fun r => pt_serviceID (tr_target r) =? serviceID)%string results in
  let nodes := node_of <$> mine in
  let entries := sort_slice _ item_less (concat ((fun r =>
    match tr_answer r with
    | Ok entries => remoteProjectEntry (tr_target r) <$> entries
    | Err _ => []
    end) <$> mine)) in
  let entries := if (limit <? Z.of_nat (length entries))%Z then take (Z.to_nat limit) entries else entries in
  {| pc_ServiceID := serviceID;
     pc_ServiceName := default "" (pt_serviceName ∘ tr_target <$> last mine);
     pc_Status := remoteProjectColumnStatus nodes;
     pc_ResultCount := Z.of_nat (length entries); pc_NodeCount := Z.of_nat (length nodes);
     pc_Nodes := nodes; pc_Entries := entries |}.

Definition failure_of (r : remoteProjectTargetResult) : option remoteProjectFailure :=
  match tr_answer r with
  | Ok _ => None
  | Err e => Some {| pf_ServiceID := pt_serviceID (tr_target r); pf_HostID := hst_ID (pt_host (tr_target r));
                     pf_Kind := remoteProjectErrorKind e; pf_Message := e |}
  end.

(** A returned entry, as the cursor is built from it. *)
Definition returned_item (e : remoteProjectEntryItem) : MergeItem :=
  {| mi_HostID := remoteProjectEntryCursorKey e;
     mi_Entry := {| log_ID := pe_ID e; log_DeploymentID := pe_ServiceID e; log_SourceID := "";
       log_RunID := pe_RunID e; log_Timestamp := pe_Timestamp e; log_Level := pe_Level e;
       log_Message := pe_Message e; log_Stream := pe_Stream e; log_RepeatCount := 0;
       log_FoldKey := ""; log_Seq := 0; log_LastSeenAt := None |} |}.

Definition buildRemoteProjectSearchResponse (query : string) (serviceOrder : list string)
    (results : list remoteProjectTargetResult) (limit : Z) : remoteProjectSearchResponse :=
  let results := sort_slice _ (target_less serviceOrder) results in
  let key r := remoteProjectCursorKey (tr_target r) in
  let old := foldl (fun m r => <[key r := tr_cursor r]> m) ∅ results in
  let streams := foldl (fun m r =>
    match tr_answer r with Ok entries => <[key r := entries]> m | Err _ => m end) ∅ results in
  let failed := omap (fun r => match tr_answer r with Ok _ => None | Err _ => Some (key r) end) results in
  let failures := omap failure_of results in
  let columns := column_of limit results <$> serviceOrder in
  let returned := returned_item <$> concat (pc_Entries <$> columns) in
  let '(next, more) := buildNextMergeCursor (key <$> results) old streams failed returned limit in
  {| ps_Query := query;
     ps_Status := remoteProjectSearchStatus (length results - length failed) failures;
     ps_ServiceColumns := columns; ps_Failures := failures; ps_NextCursor := next; ps_HasMore := more |}.

(** [remoteProjectLogSearch]; [arrival] is the order in which the answers arrive. *)
Definition remoteProjectLogSearch (nodes : string -> NodeApi) (collector_id : string -> string -> string)
    (arrival : list remoteProjectTargetResult -> list remoteProjectTargetResult)
    (project : option Project) (logSources : result string (list LogSource)) (hosts : result string (list Host))
    (projectID group q query limit : string) (cursor : option (gmap string HostCursor))
    (services hostIDs : list string) (from to : option time) : reply remoteProjectSearchResponse :=
  let query := searchQueryText q query in
  if (group =? "")%string then JsonError 400 "group is required"
  else if (query =? "")%string then JsonError 400 "query is required"
  else
    let limit := remoteSearchLimit limit in
    match cursor with
    | None => JsonError 400 "invalid cursor"
    | Some cursor =>
        match remoteProjectSearchTargets project projectID group services hostIDs logSources hosts with
        | Err e => JsonError 500 e
        | Ok (_, []) =>
            JsonOK {| ps_Query := query; ps_Status := "failed"; ps_ServiceColumns := []; ps_Failures := [];
                      ps_NextCursor := ∅; ps_HasMore := false |}
        | Ok (targets, order) =>
            let results := arrival ((fun t =>
              let hc := cursor_at cursor (remoteProjectCursorKey t) in
              {| tr_target := t; tr_cursor := hc;
                 tr_answer := map_result fst (fetchOneHost (nodes (hst_ID (pt_host t)))
                   (collector_id (ls_Name (pt_logSource t)) (ls_Type (pt_logSource t))) query limit hc from to) |})
              <$> targets) in
            JsonOK (buildRemoteProjectSearchResponse query order results limit)
        end
    end.
End Project.
