(* ===== verification/RemotePages.v ===== *)
(** * The pages of a search across agents

    Following the cursor that each page hands out, as long as it says that there is more, goes
    through the matching entries of all hosts exactly once and in order. *)
From stdpp Require Import base strings pretty gmap list sorting.
From Stdlib Require Import ZArith Lia Sorted.
From S2P Require Import Prelude Model Pages LogStore LogStoreTheorems LogBackends LogQueries LogMerge RemoteSearch.
Local Open Scope string_scope.
Local Open Scope list_scope.

(** ** What a host promises *)

(** The cursor after the first [k] entries of a log. *)
Definition at_position (l : list LogEntry) (hc : HostCursor) (k : nat) : Prop :=
  hc_Exhausted hc = false /\
  match k with
  | O => hc_CursorTime hc = 0%Z
  | S j => exists e, l !! j = Some e /\ hc_CursorTime hc = log_Timestamp e /\ hc_CursorID hc = log_ID e
  end.

(** The hosts answer a page of their log, which is sorted. *)
Class AnswersPages (fetch : string -> HostCursor -> result string (list LogEntry * Z)) (limit : Z)
    (ids : list string) (log : string -> list LogEntry) : Prop := {
  ap_positive : (0 < limit)%Z;
  ap_sorted h : h ∈ ids -> StronglySorted entry_le (log h);
  ap_page h hc k : h ∈ ids -> at_position (log h) hc k ->
    exists total, fetch h hc = Ok (take (Z.to_nat limit) (drop k (log h)), total);
}.

Record fair (sd : Schedule) : Prop := {
  fr_arrival l : sd_arrival sd l ≡ₚ l;
  fr_range m : sd_range sd m ≡ₚ map_to_list m;
}.

(** ** Maps built in a loop *)

Lemma count_emitted_spec merged host :
  default 0 (count_emitted merged !! host) = length (from_host host merged).
Proof.
  unfold count_emitted. induction merged as [|it merged IH] using rev_ind; [done|].
  rewrite foldl_snoc. unfold from_host in *. rewrite List.filter_app, fmap_app, length_app, <-IH. simpl.
  destruct (String.eqb_spec (mi_HostID it) host) as [->|Hne]; simpl.
  - rewrite lookup_insert_eq. simpl. lia.
  - rewrite lookup_insert_ne by done. lia.
Qed.

Lemma last_emitted_spec merged host : last_emitted merged !! host = last (from_host host merged).
Proof.
  unfold last_emitted. induction merged as [|it merged IH] using rev_ind; [done|].
  rewrite foldl_snoc. unfold from_host in *. rewrite List.filter_app, fmap_app. simpl.
  destruct (String.eqb_spec (mi_HostID it) host) as [->|Hne]; simpl.
  - by rewrite lookup_insert_eq, last_snoc.
  - by rewrite lookup_insert_ne, app_nil_r by done.
Qed.

Lemma cursors_lookup {A B} (key : A -> string) (f : string -> B) (l : list A) (m : gmap string B) x :
  foldl (fun m a => <[key a := f (key a)]> m) m l !! x =
    if decide (x ∈ key <$> l) then Some (f x) else m !! x.
Proof.
  revert m. induction l as [|a l IH]; intros m; cbn [foldl fmap list_fmap].
  { by rewrite decide_False by (by intros ?%elem_of_nil). }
  rewrite IH. destruct (decide (x ∈ key <$> l)) as [Hin|Hin].
  - by rewrite decide_True by (by right).
  - destruct (decide (x = key a)) as [->|Hne].
    + rewrite lookup_insert_eq, decide_True by (by left). done.
    + rewrite lookup_insert_ne by done.
      rewrite decide_False; [done|]. by intros [?|?]%elem_of_cons.
Qed.

(** ** What is left after a page *)

Lemma from_host_length host out : length (from_host host out) <= length out.
Proof. unfold from_host. rewrite length_fmap. apply List.filter_length_le. Qed.

(** A page as long as what it shows of one host shows nothing else. *)
Lemma from_host_all host out :
  length out <= length (from_host host out) -> from_host host out = mi_Entry <$> out.
Proof.
  unfold from_host. rewrite length_fmap. intros H. f_equal.
  induction out as [|it out IH]; [done|]. simpl in *.
  pose proof (List.filter_length_le (fun it => mi_HostID it =? host)%string out).
  destruct (_ =? _)%string; simpl in H; [f_equal; apply IH; lia|lia].
Qed.

(** All that is left of a host comes after the page, though the page only knows the next [n]
    entries of the host. *)
Lemma merged_rest out host n rest :
  StronglySorted entry_le rest -> length out <= n -> merged_upto out host (take n rest) ->
  forall e e', e ∈ mi_Entry <$> out -> e' ∈ drop (length (from_host host out)) rest -> entry_le e e'.
Proof.
  intros Hs Hn [E Hle] e e' He He'. set (j := length (from_host host out)) in *.
  rewrite <-(take_drop (n - j) (drop j rest)) in He'. apply elem_of_app in He' as [He'|He'].
  { apply (Hle e e' He). by rewrite skipn_firstn_comm. }
  rewrite drop_drop in He'. apply list_elem_of_lookup in He' as [i Hi]. rewrite lookup_drop in Hi.
  pose proof (lookup_lt_Some _ _ _ Hi) as Hlt. destruct (decide (j < n)) as [Hj|Hj].
  - destruct (lookup_lt_is_Some_2 rest j) as [z Hz]; [lia|].
    transitivity z.
    + apply (Hle e z He). apply (list_elem_of_lookup_2 _ 0). rewrite lookup_drop, Nat.add_0_r.
      by rewrite lookup_take_lt.
    + apply (StronglySorted_drop_split entry_le (S j) rest z e' Hs).
      * apply (list_elem_of_lookup_2 _ j). by rewrite lookup_take_lt by lia.
      * apply (list_elem_of_lookup_2 _ (j + (n - j) + i - S j)). rewrite lookup_drop, <-Hi. f_equal. lia.
  - rewrite <-(from_host_all host out), E, take_take in He by (fold j; lia).
    apply (StronglySorted_drop_split entry_le j rest e e' Hs).
    + eapply elem_of_sublist; [exact He|]. rewrite Nat.min_l by (unfold j in *; pose proof (from_host_length host out); lia).
      done.
    + apply (list_elem_of_lookup_2 _ (n - j + i)). rewrite lookup_drop, <-Hi. f_equal. lia.
Qed.

Lemma sum_list_zero (l : list nat) x : sum_list l = 0 -> x ∈ l -> x = 0.
Proof.
  intros H Hx. induction Hx as [x l|x y l _ IH]; simpl in H; [lia|]. apply IH. lia.
Qed.

(** ** One page *)

Section Pages.
Context {fetch limit ids log} {AP : AnswersPages fetch limit ids log}.
Context (relevant : list Host) (ids_relevant : hst_ID <$> relevant = ids).

(** The cursor says how much of each log has been returned. *)
Definition consumed (cursor : gmap string HostCursor) (k : string -> nat) : Prop :=
  forall h, h ∈ ids -> k h <= length (log h) /\
    ((hc_Exhausted (cursor_at cursor h) = true /\ k h = length (log h)) \/
     at_position (log h) (cursor_at cursor h) (k h)).

Definition next_entries (k : string -> nat) (h : string) : list LogEntry :=
  take (Z.to_nat limit) (drop (k h) (log h)).

Lemma gather_exhausted (l : list Host) (s : gmap string (list LogEntry)) (t : gmap string Z) x :
  (foldl (fun '(streams, totals) h =>
      (<[hst_ID h := []]> streams, <[hst_ID h := 0%Z]> totals)) (s, t) l).1 !! x =
    if decide (x ∈ hst_ID <$> l) then Some ([] : list LogEntry) else s !! x.
Proof.
  rewrite <-(cursors_lookup hst_ID (fun _ => []) l s x). revert s t.
  induction l as [|h l IH]; intros s t; simpl; [done|]. apply IH.
Qed.

Lemma gather_answers cursor (page : string -> list LogEntry) (l : list Host) (s : gmap string (list LogEntry)) (t : gmap string Z) f :
  (forall h, h ∈ l -> exists total, fetch (hst_ID h) (cursor_at cursor (hst_ID h)) = Ok (page (hst_ID h), total)) ->
  exists s' t', foldl (fun '(streams, totals, failed) h =>
      match fetch (hst_ID h) (cursor_at cursor (hst_ID h)) with
      | Ok (entries, total) => (<[hst_ID h := entries]> streams, <[hst_ID h := total]> totals, failed)
      | Err _ => (streams, totals, failed ++ [hst_ID h])
      end) (s, t, f) l = (s', t', f) /\
    forall x, s' !! x = if decide (x ∈ hst_ID <$> l) then Some (page x) else s !! x.
Proof.
  intros H. exists (foldl (fun m a => <[hst_ID a := page (hst_ID a)]> m) s l).
  assert (forall x, foldl (fun m a => <[hst_ID a := page (hst_ID a)]> m) s l !! x =
    if decide (x ∈ hst_ID <$> l) then Some (page x) else s !! x) as Hx by (intros x; apply cursors_lookup).
  enough (exists t', foldl (fun '(streams, totals, failed) h =>
      match fetch (hst_ID h) (cursor_at cursor (hst_ID h)) with
      | Ok (entries, total) => (<[hst_ID h := entries]> streams, <[hst_ID h := total]> totals, failed)
      | Err _ => (streams, totals, failed ++ [hst_ID h])
      end) (s, t, f) l = (foldl (fun m a => <[hst_ID a := page (hst_ID a)]> m) s l, t', f))
    as [t' E] by eauto.
  clear Hx. revert s t. induction l as [|h l IH]; intros s t; simpl; [by eexists|].
  destruct (H h) as [total ->]; [by left|]. apply IH. intros h' Hh'. apply H. by right.
Qed.

Lemma gather_spec sd cursor k :
  fair sd -> consumed cursor k ->
  exists streams totals, gather fetch sd relevant cursor = (streams, totals, []) /\
    forall x, streams !! x = if decide (x ∈ ids) then Some (next_entries k x) else None.
Proof using AP ids_relevant.
  intros Hsd Hc. unfold gather. set (exhausted := fun h => hc_Exhausted (cursor_at cursor (hst_ID h))).
  set (acc := foldl _ (∅, ∅) _).
  assert (forall x, acc.1 !! x = if decide (x ∈ hst_ID <$> List.filter exhausted relevant) then Some [] else None)
    as Hacc by (intros x; unfold acc; by rewrite gather_exhausted, lookup_empty).
  destruct (gather_answers cursor (next_entries k)
    (sd_arrival sd (List.filter (fun h => negb (exhausted h)) relevant)) acc.1 acc.2 [])
    as (s' & t' & E & Hs).
  { intros h. rewrite (fr_arrival _ Hsd). rewrite list_elem_of_In, filter_In, <-list_elem_of_In.
    intros [Hh He%negb_true_iff]. assert (hst_ID h ∈ ids) as Hin.
    { rewrite <-ids_relevant. by apply list_elem_of_fmap_2. }
    apply ap_page; [done|]. destruct (Hc _ Hin) as [_ [[He' _]|?]]; [|done].
    unfold exhausted in He. congruence. }
  exists s', t'. split; [exact E|]. intros x. rewrite Hs, Hacc.
  assert (x ∈ hst_ID <$> sd_arrival sd (List.filter (fun h => negb (exhausted h)) relevant) <->
    x ∈ ids /\ hc_Exhausted (cursor_at cursor x) = false) as Hlive.
  { rewrite (fmap_Permutation hst_ID _ _ (fr_arrival _ Hsd _)), <-ids_relevant, !list_elem_of_fmap.
    setoid_rewrite list_elem_of_In. setoid_rewrite filter_In. setoid_rewrite negb_true_iff.
    unfold exhausted. naive_solver. }
  assert (x ∈ hst_ID <$> List.filter exhausted relevant <->
    x ∈ ids /\ hc_Exhausted (cursor_at cursor x) = true) as Hdone.
  { rewrite <-ids_relevant, !list_elem_of_fmap. setoid_rewrite list_elem_of_In.
    setoid_rewrite filter_In. unfold exhausted. naive_solver. }
  destruct (decide (x ∈ ids)) as [Hin|Hin].
  - destruct (hc_Exhausted (cursor_at cursor x)) eqn:Ex.
    + rewrite decide_False by (rewrite Hlive; naive_solver).
      rewrite decide_True by (by apply Hdone). f_equal. unfold next_entries.
      destruct (Hc x Hin) as [_ [[_ ->]|[? _]]]; [|congruence]. by rewrite drop_all, take_nil.
    + by rewrite decide_True by (by apply Hlive).
  - rewrite decide_False by (rewrite Hlive; naive_solver).
    by rewrite decide_False by (rewrite Hdone; naive_solver).
Qed.

(** The loop of [buildNextMergeCursor], when no host has failed. *)
Lemma next_cursor_spec old streams merged (l : list string) :
  let step h := next_host_cursor (cursor_at old h) (default [] (streams !! h))
    (length (from_host h merged)) (last (from_host h merged)) limit in
  let r := buildNextMergeCursor l old streams [] merged limit in
  (forall h, h ∈ l -> cursor_at r.1 h = (step h).1) /\ (r.2 = false <-> forall h, h ∈ l -> (step h).2 = false).
Proof.
  intros step r.
  set (body := fun '((next, hasMore) : gmap string HostCursor * bool) host =>
      let '(c, more) := next_host_cursor (cursor_at old host) (default [] (streams !! host))
        (default 0 (count_emitted merged !! host)) (last_emitted merged !! host) limit in
      (<[host := c]> next, hasMore || more)).
  assert (r = foldl body (∅, false) l) as Er.
  { unfold r, buildNextMergeCursor. by rewrite bool_decide_true. }
  assert (forall (l : list string) acc,
    let r := foldl body acc l in
    (forall h, cursor_at r.1 h = if decide (h ∈ l) then (step h).1 else cursor_at acc.1 h) /\
    (r.2 = false <-> acc.2 = false /\ forall h, h ∈ l -> (step h).2 = false)) as H.
  { clear r Er. intros l'. induction l' as [|h l' IH]; intros [next more]; cbn zeta; cbn [foldl].
    { split; [intros h; by rewrite decide_False by (by intros ?%elem_of_nil)|].
      split; [intros ->; split; [done|by intros h ?%elem_of_nil]|by intros [? _]]. }
    unfold body at 2 4. rewrite count_emitted_spec, last_emitted_spec. fold (step h).
    destruct (step h) as [c m] eqn:Es. destruct (IH (<[h := c]> next, more || m)) as [H1 H2].
    simpl in H1, H2. split.
    - intros x. rewrite H1. destruct (decide (x ∈ l')) as [Hx|Hx].
      + by rewrite decide_True by (by right).
      + destruct (decide (x = h)) as [->|Hne].
        * rewrite decide_True by (by left). unfold cursor_at. by rewrite lookup_insert_eq, Es.
        * rewrite decide_False by (by intros [?|?]%elem_of_cons). unfold cursor_at.
          by rewrite lookup_insert_ne.
    - rewrite H2, orb_false_iff. split.
      + intros [[-> ->] Hl]. split; [done|]. intros x [->|Hx]%elem_of_cons; [by rewrite Es|auto].
      + simpl. intros [-> Hl]. pose proof (Hl h (list_elem_of_here _ _)) as Hm. rewrite Es in Hm.
        split; [done|]. intros x Hx. apply Hl. by right. }
  specialize (H l (∅, false)). cbn zeta in H. rewrite <-Er in H. destruct H as [H1 H2]. split.
  - intros h Hh. rewrite H1. by rewrite decide_True.
  - rewrite H2. simpl. tauto.
Qed.

(** How the cursor of a host moves over the [j] entries of it that the page shows. *)
Lemma next_host_position h old k j :
  h ∈ ids -> k <= length (log h) ->
  (hc_Exhausted old = true /\ k = length (log h)) \/ at_position (log h) old k ->
  let entries := take (Z.to_nat limit) (drop k (log h)) in
  j <= length entries ->
  let r := next_host_cursor old entries j (last (take j entries)) limit in
  k + j <= length (log h) /\
  ((hc_Exhausted r.1 = true /\ k + j = length (log h)) \/ at_position (log h) r.1 (k + j)) /\
  (r.2 = false -> k + j = length (log h)) /\ (r.2 = true -> entries <> []).
Proof using AP.
  intros Hh Hk Hc entries Hj r. pose proof (ap_positive (AnswersPages := AP)) as Hl.
  assert (length entries = Z.to_nat limit `min` (length (log h) - k)) as Elen.
  { unfold entries. by rewrite length_take, length_drop. }
  unfold r, next_host_cursor. destruct (hc_Exhausted old) eqn:Ex.
  { destruct Hc as [[_ ->]|[? _]]; [|congruence].
    split; [lia|]. split; [left; split; [done|lia]|]. split; [lia|done]. }
  destruct Hc as [[? _]|Hc]; [congruence|]. destruct j as [|j].
  - destruct entries as [|e entries'] eqn:Ee; simpl in *.
    + split; [lia|]. split; [left; split; [done|lia]|]. split; [lia|done].
    + rewrite Nat.add_0_r. split; [done|]. split; [by right|]. by split.
  - destruct entries as [|e entries'] eqn:Ee; [simpl in Hj; lia|]. rewrite <-Ee in *.
    destruct (Nat.eqb_spec (S j) (length entries)) as [Ej|Ej]; simpl;
      [destruct (Z.ltb_spec (Z.of_nat (length entries)) limit) as [Hlt|Hge]; simpl|];
      [split; [lia|]; split; [left; split; [done|lia]|]; split; [lia|done]| |].
    all: split; [lia|]; split; [|split; [done|by rewrite Ee]].
    all: right; rewrite Nat.add_succ_r; split; [done|].
    all: destruct (lookup_lt_is_Some_2 (take (S j) entries) j) as [x Hx]; [rewrite length_take; lia|].
    all: rewrite last_lookup, length_take, Nat.min_l by lia; simpl; rewrite Hx; simpl.
    all: exists x; split; [|done]; rewrite lookup_take_lt in Hx by lia; unfold entries in Hx.
    all: rewrite lookup_take_lt, lookup_drop in Hx by lia; exact Hx.
Qed.

(** The merge of the streams in whatever order they are visited. *)
Lemma merge_range sd streams k :
  fair sd -> (forall x, streams !! x = if decide (x ∈ ids) then Some (next_entries k x) else None) ->
  (forall h l, (h, l) ∈ sd_range sd streams <-> h ∈ ids /\ l = next_entries k h) /\
  merge_of (MergeStreams (sd_range sd streams) limit) (Z.to_nat limit) (sd_range sd streams).
Proof using AP.
  intros Hsd Hst.
  assert (forall h l, (h, l) ∈ sd_range sd streams <-> h ∈ ids /\ l = next_entries k h) as Hrange.
  { intros h l. rewrite (fr_range _ Hsd), elem_of_map_to_list, Hst.
    destruct (decide (h ∈ ids)); (split; [by intros [= ->]|by intros [? ->]]). }
  split; [done|]. apply MergeStreams_spec.
  - rewrite (fmap_Permutation fst _ _ (fr_range _ Hsd streams)). apply NoDup_fst_map_to_list.
  - intros h l [Hh ->]%Hrange. unfold next_entries.
    eapply StronglySorted_sublist; [|by apply (ap_sorted (AnswersPages := AP) h)].
    etrans; [apply sublist_take|apply sublist_drop].
Qed.

Lemma search_page_spec sd cursor k :
  NoDup ids -> fair sd -> consumed cursor k ->
  let r := search_page fetch sd relevant cursor limit in
  let out := rsp_Entries r in
  let k' h := k h + length (from_host h out) in
  rsp_HostsFailed r = [] /\ consumed (rsp_NextCursor r) k' /\
  (rsp_HasMore r = false -> forall h, h ∈ ids -> k' h = length (log h)) /\
  (rsp_HasMore r = true -> out <> []) /\
  StronglySorted entry_le (mi_Entry <$> out) /\
  (forall it, it ∈ out -> mi_HostID it ∈ ids) /\
  (forall h, h ∈ ids -> from_host h out = take (length (from_host h out)) (drop (k h) (log h))) /\
  (forall h e e', h ∈ ids -> e ∈ mi_Entry <$> out -> e' ∈ drop (k' h) (log h) -> entry_le e e').
Proof using AP ids_relevant.
  intros Hn Hsd Hc r. pose proof (ap_positive (AnswersPages := AP)) as Hl.
  destruct (gather_spec sd cursor k Hsd Hc) as (streams & totals & Eg & Hst).
  unfold r, search_page. rewrite Eg. change (sort_strings []) with (@nil string).
  set (old := foldl _ ∅ relevant). set (merged := MergeStreams _ limit).
  destruct (buildNextMergeCursor _ old streams [] merged limit) as [next more] eqn:En.
  cbn [rsp_Entries rsp_HostsFailed rsp_NextCursor rsp_HasMore].
  rewrite ids_relevant in En. destruct (next_cursor_spec old streams merged ids) as [Hnext Hmore].
  rewrite En in Hnext, Hmore. cbn [fst snd] in Hnext, Hmore.
  assert (forall h, h ∈ ids -> cursor_at old h = cursor_at cursor h) as Hold.
  { intros h Hh. unfold cursor_at at 1. unfold old.
    rewrite (cursors_lookup hst_ID (cursor_at cursor) relevant ∅ h), ids_relevant.
    by rewrite decide_True. }
  destruct (merge_range sd streams k Hsd Hst) as [Hrange HM]. fold merged in HM.
  destruct HM as [HM1 HM2 HM3 HM4].
  assert (forall h, h ∈ ids -> merged_upto merged h (next_entries k h)) as Hupto.
  { intros h Hh. apply HM4. by apply Hrange. }
  assert (forall h, h ∈ ids -> length (from_host h merged) <= length (next_entries k h)) as Hlen.
  { intros h Hh. destruct (Hupto h Hh) as [E _]. rewrite E, length_take at 1. lia. }
  assert (forall h, h ∈ ids -> streams !! h = Some (next_entries k h)) as Hst'.
  { intros h Hh. by rewrite Hst, decide_True. }
  assert (forall h, h ∈ ids -> let j := length (from_host h merged) in
    let s := next_host_cursor (cursor_at old h) (default [] (streams !! h)) j (last (from_host h merged)) limit in
    k h + j <= length (log h) /\
    ((hc_Exhausted s.1 = true /\ k h + j = length (log h)) \/ at_position (log h) s.1 (k h + j)) /\
    (s.2 = false -> k h + j = length (log h)) /\ (s.2 = true -> next_entries k h <> [])) as Hpos.
  { intros h Hh. cbn zeta. rewrite Hold, Hst' by done. simpl.
    destruct (Hc h Hh) as [Hk Hkc]. destruct (Hupto h Hh) as [E _].
    assert (last (from_host h merged) = last (take (length (from_host h merged)) (next_entries k h)))
      as -> by (f_equal; exact E).
    apply (next_host_position h (cursor_at cursor h) (k h)); auto. }
  split; [done|]. split.
  { intros h Hh. destruct (Hpos h Hh) as (H1 & H2 & _). rewrite Hnext by done. by split. }
  split.
  { intros E h Hh. apply (Hpos h Hh). by apply Hmore. }
  split.
  { intros E Hout. rewrite Hout in HM2. simpl in HM2.
    assert (more = false); [|congruence]. apply Hmore. intros h Hh.
    destruct (Hpos h Hh) as (_ & _ & _ & H4). apply not_true_iff_false. intros Et. apply (H4 Et).
    assert ((h, next_entries k h) ∈ sd_range sd streams) as Hin by (by apply Hrange).
    apply length_zero_iff_nil. apply (list_elem_of_fmap_2 (length ∘ snd)) in Hin.
    eapply sum_list_zero; [|exact Hin]. lia. }
  split; [done|]. split.
  { intros it Hit%HM3. apply list_elem_of_fmap in Hit as ([h l] & -> & [Hh _]%Hrange). done. }
  split.
  - intros h Hh. destruct (Hupto h Hh) as [E _]. pose proof (Hlen h Hh) as Hle. rewrite E at 1.
    unfold next_entries in *. rewrite length_take in Hle. rewrite take_take, Nat.min_l by lia. done.
  - intros h e e' Hh He He'. rewrite <-drop_drop in He'.
    apply (merged_rest merged h (Z.to_nat limit) (drop (k h) (log h))); [|lia|by apply Hupto|done..].
    eapply StronglySorted_sublist; [apply sublist_drop|by apply (ap_sorted (AnswersPages := AP) h)].
Qed.

(** *** All pages *)

(** Asking for pages with the cursor of the page before, as long as there is more; [sds] are the
    schedules of the pages.  [None] is a search that has not ended after [fuel] pages. *)
Fixpoint search_all (fuel : nat) (sds : nat -> Schedule) (cursor : gmap string HostCursor)
    : option (list remoteSearchResponse) :=
  match fuel with
  | O => None
  | S fuel =>
      let r := search_page fetch (sds 0) relevant cursor limit in
      if rsp_HasMore r then cons r <$> search_all fuel (fun n => sds (S n)) (rsp_NextCursor r)
      else Some [r]
  end.

(** The entries that have not been returned. *)
Definition left_of (k : string -> nat) : nat := sum_list_with (fun h => length (log h) - k h) ids.

Lemma left_of_step k k' :
  (forall h, h ∈ ids -> k h <= k' h) -> (exists h, h ∈ ids /\ k h < k' h /\ k' h <= length (log h)) ->
  left_of k' < left_of k.
Proof using Type.
  clear. unfold left_of. intros Hle (x & Hx & Hlt & Hlen). induction ids as [|h l IH]; [by apply elem_of_nil in Hx|].
  simpl. assert (forall l, (forall h, h ∈ l -> k h <= k' h) ->
    sum_list_with (fun h => length (log h) - k' h) l <= sum_list_with (fun h => length (log h) - k h) l) as Hmono.
  { clear. intros l Hle. induction l as [|h l IH]; [done|]. simpl.
    assert (k h <= k' h) by (apply Hle; by left).
    assert (forall h, h ∈ l -> k h <= k' h) as Hl by (intros x Hx; apply Hle; by right).
    specialize (IH Hl). lia. }
  assert (forall h, h ∈ l -> k h <= k' h) as Hl by (intros y Hy; apply Hle; by right).
  assert (k h <= k' h) by (apply Hle; by left). specialize (Hmono l Hl).
  apply elem_of_cons in Hx as [->|Hx]; [lia|]. specialize (IH Hl Hx). lia.
Qed.

Lemma from_host_app host out out' : from_host host (out ++ out') = from_host host out ++ from_host host out'.
Proof. unfold from_host. by rewrite List.filter_app, fmap_app. Qed.

Definition all_entries (pages : list remoteSearchResponse) : list MergeItem := concat (rsp_Entries <$> pages).

(** The pages from a cursor that stands after [k] entries of each host. *)
Lemma search_all_spec fuel sds cursor k :
  NoDup ids -> (forall n, fair (sds n)) -> consumed cursor k -> left_of k < fuel ->
  exists pages, search_all fuel sds cursor = Some pages /\ length pages <= S (left_of k) /\
    (forall r, r ∈ pages -> rsp_HostsFailed r = []) /\
    StronglySorted entry_le (mi_Entry <$> all_entries pages) /\
    (forall it, it ∈ all_entries pages -> mi_HostID it ∈ ids) /\
    (forall h, h ∈ ids -> from_host h (all_entries pages) = drop (k h) (log h)).
Proof using AP ids_relevant.
  intros Hn. revert sds cursor k. induction fuel as [|fuel IH]; intros sds cursor k Hsd Hc Hf; [lia|].
  cbn [search_all]. set (r := search_page fetch (sds 0) relevant cursor limit).
  destruct (search_page_spec (sds 0) cursor k Hn (Hsd 0) Hc) as (Hfail & Hc' & Hlast & Hmore & Hsort & Hin & Hfrom & Hrest).
  fold r in Hfail, Hc', Hlast, Hmore, Hsort, Hin, Hfrom, Hrest. set (out := rsp_Entries r) in *.
  set (k' := fun h => k h + length (from_host h out)) in *.
  destruct (rsp_HasMore r) eqn:Em.
  - specialize (Hmore eq_refl). assert (left_of k' < left_of k) as Hdec.
    { apply left_of_step; [intros h _; unfold k'; lia|]. destruct out as [|it out'] eqn:Eo; [done|].
      exists (mi_HostID it). assert (mi_HostID it ∈ ids) as Hit by (apply Hin; by left).
      split; [done|]. split; [|by apply Hc']. unfold k'. rewrite from_host_cons, String.eqb_refl. simpl. lia. }
    destruct (IH (fun n => sds (S n)) (rsp_NextCursor r) k') as (pages & -> & H1 & H2 & H3 & H4 & H5);
      [intros n; apply Hsd|done|lia|].
    exists (r :: pages). simpl. split; [done|]. split; [lia|].
    assert (all_entries (r :: pages) = out ++ all_entries pages) as -> by done. split_and!.
    + intros x [->|Hx]%elem_of_cons; auto.
    + rewrite fmap_app. apply StronglySorted_app_intro; [done|done|].
      intros e e' He (it & -> & Hit)%list_elem_of_fmap. apply (Hrest (mi_HostID it) e); [by apply H4|done|].
      fold (k' (mi_HostID it)). rewrite <-(H5 _ (H4 _ Hit)). by apply from_host_elem.
    + intros it [Hit|Hit]%elem_of_app; auto.
    + intros h Hh. rewrite from_host_app, (H5 h Hh), (Hfrom h Hh) at 1. unfold k'.
      rewrite <-drop_drop. apply take_drop.
  - exists [r]. split; [done|]. split; [simpl; lia|].
    assert (all_entries [r] = out) as -> by (apply app_nil_r). split_and!; [|done|done|].
    + intros x ->%list_elem_of_singleton. done.
    + intros h Hh. rewrite (Hfrom h Hh). specialize (Hlast eq_refl h Hh). unfold k' in Hlast.
      apply take_ge. rewrite length_drop. lia.
Qed.

End Pages.

(** ** Agents answer pages *)

Lemma less_scan a b : lessLogEntry (scanLogEntry a) (scanLogEntry b) = by_time row_id a b.
Proof.
  unfold lessLogEntry, by_time, time_before. simpl.
  destruct (Z.eqb_spec (row_timestamp a) (row_timestamp b)) as [E|E]; simpl.
  - rewrite E, Z.ltb_irrefl. done.
  - by rewrite orb_false_r.
Qed.

Lemma scan_sorted l : ascending (by_time row_id) l -> StronglySorted entry_le (scanLogEntry <$> l).
Proof.
  unfold ascending. induction 1 as [|r l Hs IH Hr]; simpl; [constructor|]. constructor; [done|].
  apply Forall_fmap, Forall_forall. intros x Hx. eapply Forall_forall in Hr; [|exact Hx].
  unfold compose, entry_le. apply wo_asym. by rewrite less_scan.
Qed.

Section Agents.
Context (like : string -> string -> bool) (sort : list LogEntry -> list LogEntry).
Context (projects : string -> string -> option Project) (backends : string -> gmap string LogBackend).
Context (tables : string -> LogTable) (service query : string) (limit : Z).
Context (from to : option time).

Definition agents (host : string) : NodeApi :=
  agent_api like sort (projects host) (backends host) (tables host).

Definition host_params : SearchParams :=
  {| srp_DeploymentIDs := [service]; srp_Query := query; srp_Limit := limit; srp_Before := 0;
     srp_CursorTime := None; srp_CursorID := 0; srp_From := None; srp_To := None |}.

(** The rows of a host that match the query, in order. *)
Definition matching_rows (host : string) : list LogRow :=
  selection (by_time row_id) (search_base like host_params) (lt_rows (tables host)).
Definition matching (host : string) : list LogEntry := scanLogEntry <$> matching_rows host.

Definition ask (host : string) (hc : HostCursor) : result string (list LogEntry * Z) :=
  fetchOneHost (agents host) service query limit hc from to.

(** The tables are in order, and their rows have a time and an id that fits. *)
Definition tables_ok : Prop :=
  forall host, table_ok (tables host) /\ (lt_last (tables host) <= max_int64)%Z /\
    forall r, r ∈ lt_rows (tables host) -> row_timestamp r <> 0%Z.

Context (tables_good : tables_ok) (limit_range : (0 < limit <= remoteSearchMaxLim)%Z).
Context (query_text : TrimSpace query = query) (query_nonempty : query <> "").

Lemma agent_search cursorTime cursorID k host :
  (match cursorTime with Some _ => (0 < cursorID <= max_int64)%Z | None => cursorID = 0%Z end) ->
  cursor_after (matching_rows host) {| srp_DeploymentIDs := [service]; srp_Query := query; srp_Limit := limit;
     srp_Before := 0; srp_CursorTime := cursorTime; srp_CursorID := cursorID; srp_From := None;
     srp_To := None |} k ->
  exists r, na_search (agents host) {| lsp_project := ""; lsp_deployments := [service]; lsp_q := query;
      lsp_query := query; lsp_limit := pretty limit; lsp_cursor_time := cursorTime;
      lsp_cursor_id := match cursorTime with Some _ => pretty cursorID | None => "" end; lsp_from := from; lsp_to := to |}
    = Ok (200%Z, Ok r) /\
    lsr_items r = take (Z.to_nat limit) (drop k (matching host)).
Proof using tables_good limit_range query_text query_nonempty.
  intros Hid Hc. unfold agents, agent_api. cbn [na_search]. unfold searchLogs.
  cbn [lsp_project lsp_deployments lsp_q lsp_query lsp_limit lsp_cursor_time lsp_cursor_id].
  assert (searchQueryText query query = query) as ->.
  { unfold searchQueryText. rewrite query_text. by rewrite (proj2 (String.eqb_neq _ _) query_nonempty). }
  rewrite (proj2 (String.eqb_neq _ _) query_nonempty). cbn [negb String.eqb sc_remote sc_all].
  assert (parseBoundedInt (pretty limit) defaultSearchLimit maxSearchLimit = limit) as ->.
  { unfold parseBoundedInt, maxSearchLimit, remoteSearchMaxLim in *. rewrite pretty_nonempty by lia.
    rewrite Atoi_pretty by (unfold max_int64; lia). rewrite (proj2 (Z.leb_gt _ _)) by lia.
    by rewrite (proj2 (Z.ltb_ge _ _)) by lia. }
  assert (TrimSpace (match cursorTime with Some _ => pretty cursorID | None => "" end) = match cursorTime with Some _ => pretty cursorID | None => "" end)
    as -> by (destruct cursorTime; [apply TrimSpace_pretty; lia|done]).
  assert (parseStoreCursorID cursorTime (match cursorTime with Some _ => pretty cursorID | None => "" end) = Ok cursorID) as ->.
  { unfold parseStoreCursorID. destruct cursorTime; [|by subst]. rewrite Atoi_pretty by lia.
    by rewrite (proj2 (Z.leb_gt _ _)) by lia. }
  assert ((bool_decide (cursorTime <> None) && ((match cursorTime with Some _ => pretty cursorID | None => "" end) =? "")) = false)%string
    as ->.
  { destruct cursorTime; [|done]. rewrite pretty_nonempty by lia. apply andb_false_r. }
  assert ((bool_decide (cursorTime = None) && negb ((match cursorTime with Some _ => pretty cursorID | None => "" end) =? "")) = false)%string
    as ->.
  { destruct cursorTime; [by rewrite bool_decide_false|]. by rewrite andb_false_r. }
  cbn [to_response]. eexists. split; [reflexivity|]. cbn [lsr_items].
  destruct (tables_good host) as (Hok & _).
  edestruct (Search_page like) as (-> & _); [exact Hok|done| |simpl; lia|done|exact Hc|].
  { simpl. by rewrite query_text. }
  cbn [srp_Limit]. unfold matching. by rewrite fmap_take, fmap_drop.
Qed.

(** Every agent keeps the promise, whatever time range is asked for. *)
Lemma agents_answer ids : AnswersPages ask limit ids matching.
Proof using tables_good limit_range query_text query_nonempty.
  split; [lia| |].
  - intros h _. apply scan_sorted. unfold matching_rows. apply ascending_sort; [apply _|].
    apply distinct_filter, distinct_by_id. apply tables_good.
  - intros h hc k _ [_ Hk]. unfold ask, fetchOneHost. unfold time_is_zero. destruct k as [|j].
    + rewrite Hk, Z.eqb_refl. destruct (agent_search None 0 0 h) as (r & -> & E); [done|done|].
      simpl. exists (lsr_total r). by rewrite E.
    + destruct Hk as (e & He & -> & ->). unfold matching in He.
      apply list_lookup_fmap_Some in He as (row & -> & Hrow). cbn [scanLogEntry log_Timestamp log_ID].
      assert (row ∈ lt_rows (tables h)) as Hin.
      { apply list_elem_of_lookup_2, SliceStable_elem, list_elem_of_In, filter_In in Hrow as [Hrow _].
        by apply list_elem_of_In. }
      destruct (tables_good h) as (Hok & Hmax & Hts). specialize (Hts row Hin).
      pose proof (proj1 (Forall_forall _ _) (tk_last _ Hok) row Hin) as Hid. simpl in Hid.
      rewrite (proj2 (Z.eqb_neq _ _) Hts).
      destruct (agent_search (Some (row_timestamp row)) (row_id row) (S j) h) as (r & -> & E); [lia| |].
      { exists row. by split_and!. }
      simpl. exists (lsr_total r). by rewrite E.
Qed.
End Agents.

(** C39: a search across agents misses nothing and repeats nothing: asked again with the cursor of
    the page before until no more is announced, with hosts that all answer and whose tables stay as
    they are, it ends after at most as many pages as there are matches, and one; the pages together
    are sorted by time and id, and what they show of each host are exactly the matches in its table,
    each once -- for every order in which the answers arrive and the streams are visited.  The answers
    are those of [searchLogs] and [Store.Search], and the merge is the heap of [MergeStreams]. *)
Theorem search_pages_complete like sort projects backends tables service query limit from to relevant sds :
  tables_ok tables -> (0 < limit <= remoteSearchMaxLim)%Z ->
  TrimSpace query = query -> query <> ""%string ->
  NoDup (hst_ID <$> relevant) -> (forall n, fair (sds n)) ->
  let ids := hst_ID <$> relevant in
  let found := matching like tables service query limit in
  let total := sum_list_with (fun h => length (found h)) ids in
  exists pages,
    search_all (fetch := ask like sort projects backends tables service query limit from to)
      (limit := limit) relevant (S total) sds ∅ = Some pages /\
    length pages <= S total /\
    (forall r, r ∈ pages -> rsp_HostsFailed r = []) /\
    StronglySorted entry_le (mi_Entry <$> all_entries pages) /\
    (forall it, it ∈ all_entries pages -> mi_HostID it ∈ ids) /\
    (forall h, h ∈ ids -> from_host h (all_entries pages) = found h).
Proof.
  intros Ht Hl Hq Hne Hn Hsd ids found total.
  pose proof (agents_answer like sort projects backends tables service query limit from to Ht Hl Hq Hne ids) as HA.
  assert (left_of (ids := ids) (log := found) (fun _ => 0) = total) as E.
  { unfold left_of, total. clearbody found. clear. generalize ids. intros l.
    induction l as [|h l IH]; [done|]. simpl. rewrite IH. lia. }
  destruct (search_all_spec relevant eq_refl (S total) sds ∅ (fun _ => 0) Hn Hsd)
    as (pages & H1 & H2 & H3 & H4 & H5 & H6).
  - intros h _. split; [lia|]. right. split; [done|]. unfold cursor_at. by rewrite lookup_empty.
  - exact (proj2 (Nat.lt_succ_r _ _) (Nat.eq_le_incl _ _ E)).
  - exists pages. split; [exact H1|]. split; [rewrite <-E; exact H2|]. split_and!; [done..|].
    intros h Hh. rewrite (H6 h Hh). apply drop_0.
Qed.
