(* ===== verification/RemoteExamples.v ===== *)
(** * Searches across agents: examples

    A search over two agents, and what goes wrong: a host that fails for a page, a project whose
    log sources are read through, a service without hosts, a time range, and the search of one
    deployment. *)
From stdpp Require Import base strings pretty gmap list sorting.
From Stdlib Require Import ZArith Lia Sorted.
From S2P Require Import Prelude Model Pages LogStore LogStoreTheorems LogBackends LogQueries LogMerge RemoteSearch RemotePages.
Local Open Scope string_scope.
Local Open Scope list_scope.

Definition example_host (id : string) : Host :=
  {| hst_ID := id; hst_Name := id; hst_PublicIP := ""; hst_PrivateIP := ""; hst_Tags := ["prod"];
     hst_SSHHost := ""; hst_SSHPort := 22; hst_SSHUser := ""; hst_SSHPassword := "";
     hst_SSHPrivateKey := ""; hst_SSHHostKeyFingerprint := ""; hst_DevMachineMode := false;
     hst_PendingTunnelInvalidationRevision := "" |}.

Definition table_of (entries : list (string * Z)) : LogTable :=
  (AppendBatch (imap (fun i e => example_entry "svc" e.1 "" "" 1 e.2 (Z.of_nat (S i))) entries) empty_table).1.

Definition example_tables (host : string) : LogTable :=
  if (host =? "a")%string then table_of [("a1", 1%Z); ("a3", 3%Z); ("a5", 5%Z)]
  else if (host =? "b")%string then table_of [("b2", 2%Z); ("b4", 4%Z)]
  else empty_table.

Definition any_message (_ _ : string) : bool := true.

Definition plain : Schedule := {| sd_arrival := id; sd_range := map_to_list |}.

Lemma plain_fair : fair plain.
Proof. by split. Qed.

Definition no_projects (_ _ : string) : option Project := None.
Definition no_backends (_ : string) : gmap string LogBackend := ∅.

Definition example_ask (host : string) (hc : HostCursor) : result string (list LogEntry * Z) :=
  ask any_message (SliceStable lessLogEntry) no_projects no_backends example_tables "svc" "boom" 2 None None host hc.

Definition shown (r : remoteSearchResponse) : list (string * string) :=
  (fun it => (mi_HostID it, log_Message (mi_Entry it))) <$> rsp_Entries r.

Example search_all_ex :
  option_map (map shown)
    (search_all (fetch := example_ask) (limit := 2) [example_host "a"; example_host "b"] 6 (fun _ => plain) ∅) =
  Some [[("a", "a1"); ("b", "b2")]; [("a", "a3"); ("b", "b4")]; [("a", "a5")]].
Proof. by vm_compute. Qed.

Lemma table_of_ok entries : table_ok (table_of entries).
Proof. apply AppendBatch_ok, empty_table_ok. Qed.

Definition rows_good (t : LogTable) : bool :=
  (lt_last t <=? max_int64)%Z && forallb (fun r => negb (row_timestamp r =? 0)%Z) (lt_rows t).

Lemma rows_good_spec t : rows_good t = true ->
  (lt_last t <= max_int64)%Z /\ forall r, r ∈ lt_rows t -> row_timestamp r <> 0%Z.
Proof.
  intros [H1 H2]%andb_prop. split; [lia|]. intros r Hr%list_elem_of_In.
  rewrite forallb_forall in H2. apply H2, negb_true_iff, Z.eqb_neq in Hr. done.
Qed.

Lemma example_tables_ok : tables_ok example_tables.
Proof.
  intros host. unfold example_tables.
  destruct (_ =? "a")%string; [|destruct (_ =? "b")%string];
    (split; [first [apply table_of_ok|apply empty_table_ok]|apply rows_good_spec; vm_compute; reflexivity]).
Qed.

Lemma search_pages_complete_witness :
  exists pages, search_all (fetch := example_ask) (limit := 2) [example_host "a"; example_host "b"] 6
      (fun _ => plain) ∅ = Some pages /\
    from_host "a" (all_entries pages) =
      matching any_message example_tables "svc" "boom" 2 "a".
Proof.
  destruct (search_pages_complete any_message (SliceStable lessLogEntry) no_projects no_backends
    example_tables "svc" "boom" 2 None None [example_host "a"; example_host "b"] (fun _ => plain))
    as (pages & H1 & _ & _ & _ & _ & H6).
  - exact example_tables_ok.
  - unfold remoteSearchMaxLim. lia.
  - vm_compute. reflexivity.
  - discriminate.
  - apply (bool_decide_eq_true_1 (NoDup _)). vm_compute. reflexivity.
  - intros n. exact plain_fair.
  - exists pages. split; [exact H1|]. apply H6. left.
Defined.

(** ** A host that fails once *)

(** [fetch], except that host "a" does not answer. *)
Definition without_a (host : string) (hc : HostCursor) : result string (list LogEntry * Z) :=
  if (host =? "a")%string then Err "context deadline exceeded" else example_ask host hc.

(** Three pages in a row, the second without host "a": it is left out of the cursor of that page,
    though its own was handed in, and the third page starts it from the beginning again. *)
Theorem failed_host_restarts :
  exists r1 r2 r3,
    r1 = search_page example_ask plain [example_host "a"; example_host "b"] ∅ 2 /\
    r2 = search_page without_a plain [example_host "a"; example_host "b"] (rsp_NextCursor r1) 2 /\
    r3 = search_page example_ask plain [example_host "a"; example_host "b"] (rsp_NextCursor r2) 2 /\
    is_Some (rsp_NextCursor r1 !! "a") /\ rsp_HostsFailed r2 = ["a"] /\ rsp_HasMore r2 = true /\
    rsp_NextCursor r2 !! "a" = None /\
    shown r1 = [("a", "a1"); ("b", "b2")] /\ shown r3 = [("a", "a1"); ("a", "a3")].
Proof.
  eexists _, _, _. split; [reflexivity|]. split; [reflexivity|]. split; [reflexivity|].
  split; [vm_compute; by eexists|]. repeat split; by vm_compute.
Qed.

(** ** The search of a project *)

Definition example_source (id host : string) : LogSource :=
  {| ls_ID := id; ls_Name := "svc"; ls_Type := ""; ls_HostIDs := [host]; ls_Tags := []; ls_ExtraArgs := [];
     ls_ProjectID := "p"; ls_ServiceID := id |}.

Definition target (id host : string) : remoteProjectTarget :=
  {| pt_serviceID := id; pt_serviceName := id; pt_logSource := example_source id host;
     pt_host := example_host host |}.

(** What [remoteProjectLogSearch] makes of the targets, with the cursor of the page before. *)
Definition project_page (targets : list remoteProjectTarget) (cursor : gmap string HostCursor) (limit : Z)
    : remoteProjectSearchResponse :=
  buildRemoteProjectSearchResponse (@SliceStable) "boom" (pt_serviceID <$> targets)
    ((fun t => let hc := cursor_at cursor (remoteProjectCursorKey t) in
       {| tr_target := t; tr_cursor := hc;
          tr_answer := map_result fst (ask any_message (SliceStable lessLogEntry) no_projects no_backends
            example_tables "svc" "boom" limit None None (hst_ID (pt_host t)) hc) |}) <$> targets) limit.

Definition columns (r : remoteProjectSearchResponse) : list (string * list string) :=
  (fun c => (pc_ServiceID c, pe_Message <$> pc_Entries c)) <$> ps_ServiceColumns r.

(** The log of "b" is exhausted by the first page, and the cursor says so; the second page asks for
    it all the same, without a position, and shows it again. *)
Theorem project_search_repeats_exhausted :
  exists r1 r2, r1 = project_page [target "api" "a"; target "web" "b"] ∅ 3 /\
    r2 = project_page [target "api" "a"; target "web" "b"] (ps_NextCursor r1) 3 /\
    ps_HasMore r1 = true /\
    hc_Exhausted (cursor_at (ps_NextCursor r1) "web/web/b") = true /\
    columns r1 = [("api", ["a1"; "a3"; "a5"]); ("web", ["b2"; "b4"])] /\
    columns r2 = [("api", []); ("web", ["b2"; "b4"])].
Proof.
  eexists _, _. split; [reflexivity|]. split; [reflexivity|]. repeat split; by vm_compute.
Qed.

(** A service none of whose hosts is in the group is reported as timed out. *)
Theorem service_without_hosts_times_out :
  remoteProjectColumnStatus [] = "timeout" /\
  pc_Status <$> ps_ServiceColumns (buildRemoteProjectSearchResponse (@SliceStable) "boom" ["api"] [] 3) =
    ["timeout"].
Proof. by vm_compute. Qed.

(** ** Ranges and deployments *)

(** The answer of an agent does not depend on the time range that the search passes on. *)
Theorem search_range_ignored like sort projects backends t project deps q query limit at_ cid from to from' to' :
  searchLogs like t projects backends sort (mkLogSearchParams project deps q query limit at_ cid from to) =
  searchLogs like t projects backends sort (mkLogSearchParams project deps q query limit at_ cid from' to') /\
  exists r, searchLogs any_message (example_tables "a") (no_projects "") ∅ id
      (mkLogSearchParams "" ["svc"] "boom" "" "" None "" (Some 100%Z) None) = JsonOK r /\
    log_Timestamp <$> lsr_items r = [1; 3; 5]%Z.
Proof. split; [reflexivity|]. eexists. split; [vm_compute; reflexivity|]. by vm_compute. Qed.

(** The search of one deployment of this agent finds nothing, whatever its table holds: the handler
    does not pass on the deployment, and [Store.Search] without deployments is empty. *)
Theorem deployment_search_finds_nothing like t backends dep q query limit at_ id :
  backends !! dep = Some (SQLiteBackend like t) ->
  match searchDeploymentLogs backends dep q query limit at_ id with
  | JsonOK (entries, _, more) => entries = [] /\ more = false
  | JsonError status _ => status = 400%Z
  end.
Proof.
  intros Hb. unfold searchDeploymentLogs. rewrite Hb.
  destruct (_ =? "")%string; [done|]. by destruct (_ && _).
Qed.

Lemma deployment_search_finds_nothing_witness :
  match searchDeploymentLogs {["svc" := SQLiteBackend any_message (example_tables "a")]} "svc" "boom" "" "" None "" with
  | JsonOK (entries, _, more) => entries = [] /\ more = false
  | JsonError status _ => status = 400%Z
  end.
Proof.
  apply (deployment_search_finds_nothing any_message (example_tables "a")). apply lookup_singleton_eq.
Defined.
