(* ===== verification/FederatedPages.v ===== *)
(** * History from several backends

    Following the cursor of [FederatedBackend.Query] goes through the logs of all children exactly
    once and in the order of time, as long as the entries of a child have different times; and
    what happens otherwise. *)
From stdpp Require Import base strings pretty gmap list sorting.
From Stdlib Require Import ZArith Lia Sorted.
From S2P Require Import Prelude Model Pages LogStore LogStoreTheorems LogBackends LogQueries LogMerge.
Local Open Scope string_scope.
Local Open Scope list_scope.

(** ** What a child promises *)

Definition earlier (a b : LogEntry) : Prop := (log_Timestamp a < log_Timestamp b)%Z.
Definition not_later (a b : LogEntry) : Prop := (log_Timestamp a <= log_Timestamp b)%Z.

#[export] Instance not_later_preorder : PreOrder not_later.
Proof. unfold not_later. split; [intros a; lia|intros a b c; lia]. Qed.

(** The cursor before the entry at [k], or no cursor at the end of the log. *)
Definition before_position (log : list LogEntry) (c : Cursor) (k : nat) : Prop :=
  (k = length log /\ c = no_cursor) \/
  (exists e, log !! k = Some e /\ cur_ID c = encodeLogEntrySeqCursor (log_Seq e) (log_ID e)).

(** The backend pages backwards through a log in which time passes. *)
Class PagesBack (b : LogBackend) (f : QueryFilter) (log : list LogEntry) : Prop := {
  pb_times : StronglySorted earlier log;
  pb_page c k : before_position log c k ->
    exists next, be_Query b (with_before c f) =
      Ok (drop (k - Z.to_nat (qf_Limit f)) (take k log), next);
}.

(** ** Lists of children *)

Lemma concat_fmap_app {A} (g h : nat -> list A) l :
  concat ((fun i => g i ++ h i) <$> l) ≡ₚ concat (g <$> l) ++ concat (h <$> l).
Proof.
  induction l as [|i l IH]; simpl; [done|]. rewrite IH. rewrite <-!app_assoc. apply Permutation_app_head.
  rewrite (app_assoc (h i)), (Permutation_app_comm (h i)), <-app_assoc. done.
Qed.

Lemma concat_fmap_ext {A} (g h : nat -> list A) l :
  (forall i, i ∈ l -> g i = h i) -> concat (g <$> l) = concat (h <$> l).
Proof.
  intros H. f_equal. apply list_fmap_ext. intros i x Hx. apply H. by eapply list_elem_of_lookup_2.
Qed.

Lemma concat_fmap_nil {A} (l : list nat) : concat ((fun _ => @nil A) <$> l) = [].
Proof. by induction l. Qed.

Lemma concat_single {A} (c : nat) (x : A) l :
  NoDup l -> c ∈ l -> concat ((fun i => if (c =? i)%nat then [x] else []) <$> l) = [x].
Proof.
  induction l as [|i l IH]; [by intros _ ?%elem_of_nil|]. intros [Hi Hn]%NoDup_cons Hc. simpl.
  destruct (Nat.eqb_spec c i) as [->|Hne].
  - simpl. f_equal. rewrite (concat_fmap_ext _ (fun _ => [])); [apply concat_fmap_nil|].
    intros j Hj. destruct (Nat.eqb_spec i j) as [->|]; [done|done].
  - simpl. apply IH; [done|]. by apply elem_of_cons in Hc as [?|?].
Qed.

Lemma emitted_app i items items' : emitted_of i (items ++ items') = emitted_of i items ++ emitted_of i items'.
Proof. unfold emitted_of. by rewrite List.filter_app, fmap_app. Qed.

Lemma emitted_perm i items items' : items ≡ₚ items' -> emitted_of i items ≡ₚ emitted_of i items'.
Proof. intros H. unfold emitted_of. by apply fmap_Permutation, filter_perm. Qed.

Lemma emitted_elem it items : it ∈ items -> fm_entry it ∈ emitted_of (fm_child it) items.
Proof.
  intros H. apply list_elem_of_fmap_2, list_elem_of_In, filter_In.
  split; [by apply list_elem_of_In|apply Nat.eqb_refl].
Qed.

Lemma emitted_elem_inv i e items : e ∈ emitted_of i items -> mkMergedItem i e ∈ items.
Proof.
  intros ([c x] & -> & [Hin E]%list_elem_of_In%filter_In)%list_elem_of_fmap.
  simpl in *. apply Nat.eqb_eq in E as ->. by apply list_elem_of_In.
Qed.

(** The entries of a list of items, child by child. *)
Lemma items_by_child n items :
  (forall it, it ∈ items -> fm_child it < n) ->
  fm_entry <$> items ≡ₚ concat ((fun i => emitted_of i items) <$> seq 0 n).
Proof.
  induction items as [|it items IH]; intros H.
  { rewrite (concat_fmap_ext _ (fun _ => [])) by done. by rewrite concat_fmap_nil. }
  assert (fm_child it < n) as Hit by (apply H; by left).
  rewrite (concat_fmap_ext _ (fun i => (if (fm_child it =? i)%nat then [fm_entry it] else []) ++ emitted_of i items)).
  - rewrite concat_fmap_app, concat_single; [|apply NoDup_seq|apply elem_of_seq; lia]. simpl.
    f_equiv. apply IH. intros x Hx. apply H. by right.
  - intros i _. unfold emitted_of. simpl. by destruct (_ =? _)%nat.
Qed.

Lemma emitted_all_items (results : nat -> list LogEntry) n i :
  emitted_of i (all_items (results <$> seq 0 n)) = if decide (i < n) then results i else [].
Proof.
  unfold all_items. assert (forall (l : list (list LogEntry)) s,
    emitted_of i (concat (imap (fun child entries => mkMergedItem (s + child) <$> entries) l)) =
    if decide (s <= i < s + length l) then default [] (l !! (i - s)) else []) as H.
  { induction l as [|entries l IH]; intros s; simpl.
    { by rewrite decide_False by lia. }
    rewrite emitted_app.
    assert (imap ((fun child entries => mkMergedItem (s + child) <$> entries) ∘ S) l =
      imap (fun child entries => mkMergedItem (S s + child) <$> entries) l) as ->.
    { apply imap_ext. intros j x _. unfold compose. by rewrite Nat.add_succ_r. }
    rewrite IH, Nat.add_0_r.
    assert (emitted_of i (mkMergedItem s <$> entries) = if decide (s = i) then entries else []) as ->.
    { unfold emitted_of. destruct (decide (s = i)) as [->|Hne].
      - rewrite filter_all.
        + rewrite <-list_fmap_compose. apply list_fmap_id.
        + intros it (e & -> & _)%list_elem_of_fmap. apply Nat.eqb_refl.
      - rewrite filter_none; [done|]. intros it (e & -> & _)%list_elem_of_fmap. by apply Nat.eqb_neq. }
    destruct (decide (s = i)) as [->|Hne].
    - rewrite (decide_False (P := S i <= i < S i + length l)), decide_True by lia.
      rewrite Nat.sub_diag. apply app_nil_r.
    - destruct (decide (S s <= i < S s + length l)) as [Hi|Hi].
      + rewrite decide_True by lia. replace (i - s) with (S (i - S s)) by lia. done.
      + by rewrite decide_False by lia. }
  specialize (H (results <$> seq 0 n) 0). simpl in H. rewrite H, length_fmap, length_seq, Nat.sub_0_r.
  destruct (decide (i < n)) as [Hi|Hi].
  - rewrite decide_True by lia. by rewrite list_lookup_fmap, lookup_seq_lt by lia.
  - by rewrite decide_False by lia.
Qed.

Lemma emitted_lookup i results : emitted_of i (all_items results) = default [] (results !! i).
Proof.
  assert (results = (fun j => default [] (results !! j)) <$> seq 0 (length results)) as E.
  { apply list_eq. intros j. rewrite list_lookup_fmap. destruct (decide (j < length results)) as [Hj|Hj].
    - rewrite lookup_seq_lt by done. simpl. by destruct (lookup_lt_is_Some_2 results j Hj) as [x ->].
    - rewrite lookup_seq_ge, lookup_ge_None_2 by lia. done. }
  rewrite E at 1. rewrite emitted_all_items. case_decide; [done|]. by rewrite lookup_ge_None_2 by lia.
Qed.

Lemma all_items_child (results : nat -> list LogEntry) n it :
  it ∈ all_items (results <$> seq 0 n) -> fm_child it < n.
Proof.
  intros H%emitted_elem. rewrite emitted_all_items in H.
  destruct (decide (fm_child it < n)); [done|]. by apply elem_of_nil in H.
Qed.

(** ** One page *)

Lemma less_federated_time a b : less_federated b a = false -> not_later a b.
Proof.
  unfold less_federated, not_later, time_before.
  destruct (Z.eqb_spec (log_Timestamp b) (log_Timestamp a)); lia.
Qed.

(** Sorted by time, a list whose times differ is determined by its elements. *)
Lemma sorted_by_time l l' :
  StronglySorted not_later l -> StronglySorted earlier l' -> l ≡ₚ l' -> l = l'.
Proof.
  intros Hl Hl' HP. apply (StronglySorted_unique_strong not_later); [|done| |done].
  - intros a b Ha Hb H1 H2. rewrite HP in Ha. apply list_elem_of_lookup in Ha as [i Hi].
    apply list_elem_of_lookup in Hb as [j Hj].
    assert (forall i j a b, l' !! i = Some a -> l' !! j = Some b -> i < j -> earlier a b) as Hs.
    { clear -Hl'. induction Hl' as [|x l Hs IH Hx]; intros i j a b Hi Hj Hij; [done|].
      destruct i as [|i], j as [|j]; simpl in *; [lia| |lia|eapply (IH i j); [done..|lia]].
      simplify_eq. apply (proj1 (Forall_forall _ _) Hx). by eapply list_elem_of_lookup_2. }
    unfold not_later, earlier in *. destruct (lt_eq_lt_dec i j) as [[Hij| ->]|Hij].
    + pose proof (Hs i j a b Hi Hj Hij). lia.
    + congruence.
    + pose proof (Hs j i b a Hj Hi Hij). lia.
  - clear -Hl'. induction Hl' as [|x l Hs IH Hx]; constructor; [done|].
    eapply Forall_impl; [exact Hx|]. unfold earlier, not_later. intros y. lia.
Qed.

Lemma oldest_sorted e l : StronglySorted earlier (e :: l) -> oldest_of (e :: l) = Some e.
Proof.
  unfold oldest_of. simpl. intros H. inversion H as [|? ? _ Hx]; subst. clear H.
  induction l as [|x l IH]; [done|]. apply Forall_cons in Hx as [Hx Hl]. simpl.
  assert (less_federated x e = false) as ->; [|by apply IH].
  unfold less_federated, earlier, time_before in *.
  destruct (Z.eqb_spec (log_Timestamp x) (log_Timestamp e)); lia.
Qed.

Lemma imap_seq {A B} (g : nat -> A -> B) (h : nat -> A) n :
  imap g (h <$> seq 0 n) = (fun i => g i (h i)) <$> seq 0 n.
Proof.
  apply list_eq. intros i. rewrite list_lookup_imap, !list_lookup_fmap.
  destruct (decide (i < n)) as [Hi|Hi].
  - by rewrite lookup_seq_lt.
  - by rewrite lookup_seq_ge by lia.
Qed.

Lemma lookup_numbered {A} (g : nat -> A) n i :
  (list_to_map ((fun i => (i, g i)) <$> seq 0 n) : gmap nat A) !! i = if decide (i < n) then Some (g i) else None.
Proof.
  destruct (decide (i < n)) as [Hi|Hi].
  - apply elem_of_list_to_map_1.
    + rewrite <-list_fmap_compose. unfold compose. simpl. rewrite list_fmap_id. apply NoDup_seq.
    + apply list_elem_of_fmap. exists i. split; [done|]. apply elem_of_seq. lia.
  - apply not_elem_of_list_to_map_1. rewrite <-list_fmap_compose. unfold compose. simpl. rewrite list_fmap_id.
    rewrite elem_of_seq. lia.
Qed.

(** The part of a child in the latest items: the end of what it returned. *)
Lemma emitted_suffix i items m entries :
  StronglySorted (fun a b => less_item b a = false) items -> emitted_of i items ≡ₚ entries ->
  StronglySorted earlier entries ->
  let j := length (emitted_of i (drop m items)) in
  j <= length entries /\
  emitted_of i (drop m items) = drop (length entries - j) entries /\
  emitted_of i (take m items) = take (length entries - j) entries.
Proof.
  intros Hs HP He j.
  assert (emitted_of i items = entries) as E.
  { apply sorted_by_time; [|done|done]. unfold emitted_of.
    clear -Hs. induction Hs as [|x l Hs IH Hx]; simpl; [constructor|].
    destruct (_ =? _)%nat; [|done]. simpl. constructor; [done|]. apply Forall_fmap, Forall_forall.
    intros y [Hy _]%list_elem_of_In%filter_In. apply less_federated_time.
    apply (proj1 (Forall_forall _ _) Hx). by apply list_elem_of_In. }
  rewrite <-(take_drop m items), emitted_app in E. rewrite <-E, length_app. fold j.
  split; [lia|]. replace (length (emitted_of i (take m items)) + j - j) with
    (length (emitted_of i (take m items))) by lia.
  by rewrite drop_app_length, take_app_length.
Qed.

Section Page.
Context (sort_slice : (federatedMergedItem -> federatedMergedItem -> bool) ->
           list federatedMergedItem -> list federatedMergedItem).
Context (sort_perm : forall l, sort_slice less_item l ≡ₚ l).
Context (sort_sorted : forall l, StronglySorted (fun a b => less_item b a = false) (sort_slice less_item l)).
Context (n : nat) (children : nat -> LogBackend) (logs : nat -> list LogEntry) (f : QueryFilter).
Context (limit_positive : (0 < qf_Limit f)%Z) (no_before : qf_Before f = no_cursor).
Context (pages_back : forall i, i < n -> PagesBack (children i) f (logs i)).

(** The states say how much of each log is left, at the front. *)
Definition remains (cursor : federated_cursor) (k : nat -> nat) : Prop :=
  forall i, i < n -> k i <= length (logs i) /\
    let st := child_state cursor (qf_Before f) i in
    (fc_Exhausted st = true /\ k i = 0) \/
    (fc_Exhausted st = false /\ before_position (logs i) (fc_Cursor st) (k i)).

Definition returned (k : nat -> nat) (i : nat) : list LogEntry :=
  drop (k i - Z.to_nat (qf_Limit f)) (take (k i) (logs i)).

Lemma child_entries_spec cursor k i :
  remains cursor k -> i < n -> child_entries cursor f i (children i) = returned k i.
Proof using pages_back.
  intros Hr Hi. destruct (Hr i Hi) as [_ Hst]. unfold child_entries, returned. cbn zeta in Hst.
  destruct Hst as [[-> ->]|[-> Hp]]; [by rewrite take_0, drop_nil|].
  destruct (pb_page (PagesBack := pages_back i Hi) _ _ Hp) as [next E]. by rewrite E.
Qed.

Lemma returned_sorted k i : i < n -> StronglySorted earlier (returned k i).
Proof using pages_back.
  intros Hi. eapply StronglySorted_sublist; [|apply (pb_times (PagesBack := pages_back i Hi))].
  unfold returned. etrans; [apply sublist_drop|apply sublist_take].
Qed.

Lemma returned_length k i : i < n -> k i <= length (logs i) ->
  length (returned k i) = Z.to_nat (qf_Limit f) `min` k i.
Proof. intros Hi Hk. unfold returned. rewrite length_drop, length_take. lia. Qed.

(** How the state of a child moves when [j] of its entries are in the page. *)
Lemma next_state_remains st i k j :
  i < n -> k <= length (logs i) ->
  (fc_Exhausted st = true /\ k = 0) \/ (fc_Exhausted st = false /\ before_position (logs i) (fc_Cursor st) k) ->
  let entries := drop (k - Z.to_nat (qf_Limit f)) (take k (logs i)) in
  j <= length entries ->
  let st' := next_state st entries (drop (length entries - j) entries) (qf_Limit f) in
  (fc_Exhausted st' = true /\ k - j = 0) \/
  (fc_Exhausted st' = false /\ before_position (logs i) (fc_Cursor st') (k - j)).
Proof using pages_back limit_positive.
  intros Hi Hk Hst entries Hj st'.
  assert (length entries = Z.to_nat (qf_Limit f) `min` k) as Hlen.
  { unfold entries. rewrite length_drop, length_take. lia. }
  unfold st', next_state. destruct Hst as [[Ex ->]|[Ex Hp]]; rewrite Ex; [left; split; [done|lia]|].
  destruct (drop (length entries - j) entries) as [|e emitted] eqn:Ee.
  { apply (f_equal length) in Ee. rewrite length_drop in Ee. simpl in Ee.
    destruct entries as [|e entries'] eqn:E; simpl in *; [left; split; [done|lia]|].
    right. split; [done|]. assert (j = 0) as -> by lia. by rewrite Nat.sub_0_r. }
  assert (length (e :: emitted) = j) as Hje.
  { rewrite <-Ee, length_drop. lia. }
  destruct entries as [|e0 entries'] eqn:E; [by rewrite drop_nil in Ee|]. rewrite <-E in *.
  rewrite Hje. destruct (Nat.eqb_spec j (length entries)) as [Hjl|Hjl]; simpl;
    [destruct (Z.ltb_spec (Z.of_nat (length entries)) (qf_Limit f)) as [Hlt|Hge]|]; [left; split; [done|lia]| |].
  all: rewrite oldest_sorted; [|rewrite <-Ee; eapply StronglySorted_sublist;
         [apply sublist_drop|unfold entries; eapply StronglySorted_sublist;
           [|apply (pb_times (PagesBack := pages_back i Hi))]; etrans; [apply sublist_drop|apply sublist_take]]].
  all: right; split; [done|]; right; exists e; split; [|done].
  all: assert (drop (length entries - j) entries !! 0 = Some e) as H0 by (by rewrite Ee).
  all: rewrite lookup_drop in H0; unfold entries in H0; rewrite lookup_drop, lookup_take_lt in H0
         by (unfold entries in *; simpl in Hje; lia).
  all: rewrite <-H0; f_equal; unfold entries in *; simpl in Hje; lia.
Qed.

Definition latest (k : nat -> nat) : list federatedMergedItem :=
  let all := sort_slice less_item (all_items (returned k <$> seq 0 n)) in
  drop (length all - Z.to_nat (qf_Limit f)) all.

Lemma merge_latest k :
  mergeLatestFederatedResults sort_slice (returned k <$> seq 0 n) (qf_Limit f) = latest k.
Proof using limit_positive.
  unfold mergeLatestFederatedResults, latest. set (all := sort_slice _ _).
  rewrite (proj2 (Z.ltb_lt _ _)) by lia. simpl.
  destruct (Z.ltb_spec (qf_Limit f) (Z.of_nat (length all))).
  - f_equal. lia.
  - by replace (length all - Z.to_nat (qf_Limit f)) with 0 by lia.
Qed.

(** The items of a page, child by child, and what is left behind. *)
Lemma latest_emitted k i :
  i < n ->
  let j := length (emitted_of i (latest k)) in
  let rest := take (length (sort_slice less_item (all_items (returned k <$> seq 0 n))) - Z.to_nat (qf_Limit f))
    (sort_slice less_item (all_items (returned k <$> seq 0 n))) in
  j <= length (returned k i) /\
  emitted_of i (latest k) = drop (length (returned k i) - j) (returned k i) /\
  emitted_of i rest = take (length (returned k i) - j) (returned k i).
Proof using pages_back sort_perm sort_sorted.
  intros Hi. apply emitted_suffix; [apply sort_sorted| |by apply returned_sorted].
  rewrite (emitted_perm i _ _ (sort_perm _)), emitted_all_items. by rewrite decide_True.
Qed.

Lemma latest_child k it : it ∈ latest k -> fm_child it < n.
Proof using sort_perm.
  intros H. apply (all_items_child (returned k)). rewrite <-(sort_perm (all_items _)).
  eapply elem_of_sublist; [exact H|apply sublist_drop].
Qed.

Lemma latest_length k : length (latest k) <= Z.to_nat (qf_Limit f).
Proof. unfold latest. rewrite length_drop. lia. Qed.

Lemma latest_sorted k : StronglySorted not_later (fm_entry <$> latest k).
Proof using sort_sorted.
  assert (StronglySorted (fun a b => less_item b a = false) (latest k)) as H.
  { eapply StronglySorted_sublist; [apply sublist_drop|apply sort_sorted]. }
  induction H as [|x l Hs IH Hx]; simpl; constructor; [done|].
  apply Forall_fmap. eapply Forall_impl; [exact Hx|]. intros y. apply less_federated_time.
Qed.

(** What remains of a child after the page. *)
Definition left_after (k : nat -> nat) (i : nat) : nat := k i - length (emitted_of i (latest k)).

Lemma emitted_log k i :
  i < n -> k i <= length (logs i) ->
  length (emitted_of i (latest k)) <= k i /\
  emitted_of i (latest k) = drop (left_after k i) (take (k i) (logs i)).
Proof using pages_back sort_perm sort_sorted limit_positive.
  intros Hi Hk. destruct (latest_emitted k i Hi) as (Hj & E & _). rewrite returned_length in Hj, E by done.
  split; [lia|]. rewrite E at 1. unfold returned, left_after. rewrite drop_drop. f_equal. lia.
Qed.

(** Nothing that remains is later than what the page shows. *)
Lemma rest_not_later k i e y :
  i < n -> k i <= length (logs i) -> e ∈ take (left_after k i) (logs i) ->
  y ∈ fm_entry <$> latest k -> not_later e y.
Proof using pages_back sort_perm sort_sorted limit_positive.
  intros Hi Hk He Hy. destruct (latest_emitted k i Hi) as (Hj & E & Erest).
  set (j := length (emitted_of i (latest k))) in *. pose proof (returned_length k i Hi Hk) as Hlen.
  assert (forall z, z ∈ take (length (returned k i) - j) (returned k i) -> not_later z y) as Hprefix.
  { intros z Hz. rewrite <-Erest in Hz. apply emitted_elem_inv in Hz.
    apply list_elem_of_fmap in Hy as (it & -> & Hit).
    apply (less_federated_time z). change (less_item it (mkMergedItem i z) = false).
    by eapply (StronglySorted_drop_split (fun a b => less_item b a = false)); [apply sort_sorted|..]. }
  set (p := k i - Z.to_nat (qf_Limit f)).
  assert (take (left_after k i) (logs i) =
    take p (logs i) ++ take (length (returned k i) - j) (returned k i)) as Es.
  { unfold returned at 2. rewrite skipn_firstn_comm, take_take.
    rewrite <-(take_drop p (take (left_after k i) (logs i))). unfold left_after. fold j.
    rewrite take_take. f_equal; [f_equal; lia|]. rewrite skipn_firstn_comm. f_equal. lia. }
  rewrite Es in He. apply elem_of_app in He as [He|He]; [|by apply Hprefix].
  assert (0 < p) as Hp by (destruct p; [by apply elem_of_nil in He|lia]).
  assert (forall z, z ∈ returned k i -> earlier e z) as Hbefore.
  { intros z Hz. unfold returned in Hz. fold p in Hz.
    apply (StronglySorted_drop_split earlier p (logs i) e z); [apply (pb_times (PagesBack := pages_back i Hi))|done|].
    rewrite skipn_firstn_comm in Hz. eapply elem_of_sublist; [exact Hz|apply sublist_take]. }
  destruct (decide (j < length (returned k i))) as [Hlt|Hge].
  - destruct (lookup_lt_is_Some_2 (returned k i) 0) as [z Hz]; [lia|].
    transitivity z.
    + assert (earlier e z) as Hez by (apply Hbefore; by eapply list_elem_of_lookup_2).
      unfold earlier, not_later in *. lia.
    + apply Hprefix. apply (list_elem_of_lookup_2 _ 0). by rewrite lookup_take_lt by lia.
  - apply list_elem_of_fmap in Hy as (it & -> & Hit).
    assert (fm_child it = i) as Ei.
    { destruct (decide (fm_child it = i)) as [|Hne]; [done|exfalso].
      pose proof (latest_length k) as HL. assert (j < length (latest k)); [|lia].
      unfold j, emitted_of. rewrite length_fmap. clear -Hit Hne. induction (latest k) as [|x l IH]; [by apply elem_of_nil in Hit|].
      simpl. pose proof (List.filter_length_le (fun it => fm_child it =? i)%nat l).
      apply elem_of_cons in Hit as [<-|Hit]; [rewrite (proj2 (Nat.eqb_neq _ _) Hne); lia|].
      specialize (IH Hit). destruct (_ =? _)%nat; simpl; lia. }
    pose proof (emitted_elem it _ Hit) as Hin. rewrite Ei, E in Hin.
    assert (earlier e (fm_entry it)) as Hlt.
    { apply Hbefore. eapply elem_of_sublist; [exact Hin|apply sublist_drop]. }
    unfold earlier, not_later in *. lia.
Qed.

Lemma Federated_Query_page cursor k :
  remains cursor k ->
  exists next, Federated_Query sort_slice (children <$> seq 0 n) cursor f = (fm_entry <$> latest k, next) /\
    (latest k <> [] -> remains next (left_after k)) /\
    (latest k = [] -> forall i, i < n -> k i = 0).
Proof using pages_back sort_perm sort_sorted limit_positive.
  intros Hr. unfold Federated_Query. rewrite imap_seq.
  assert ((fun i => child_entries cursor f i (children i)) <$> seq 0 n = returned k <$> seq 0 n) as Er.
  { apply list_fmap_ext. intros i x [-> Hx]%lookup_seq. by apply child_entries_spec. }
  rewrite Er, (proj2 (Z.leb_gt _ _)) by lia. rewrite merge_latest, imap_seq.
  eexists. split; [reflexivity|]. split.
  - intros Hne. destruct (latest k) as [|it items] eqn:El; [done|]. rewrite <-El. clear Hne it items El.
    intros i Hi. destruct (Hr i Hi) as [Hk Hst]. split; [unfold left_after; lia|].
    unfold child_state at 1. rewrite lookup_numbered, decide_True by done. cbn [default from_option id].
    destruct (latest_emitted k i Hi) as (Hj & E & _). unfold left_after.
    pose proof (next_state_remains (child_state cursor (qf_Before f) i) i (k i) _ Hi Hk Hst Hj) as Hn.
    cbn zeta in Hn. fold (returned k i) in Hn. rewrite <-E in Hn. exact Hn.
  - intros E i Hi. destruct (Hr i Hi) as [Hk _]. destruct (decide (k i = 0)) as [|Hne]; [done|exfalso].
    apply (f_equal length) in E. unfold latest in E. rewrite length_drop, (Permutation_length (sort_perm _)) in E.
    assert (0 < length (all_items (returned k <$> seq 0 n))); [|simpl in E; lia].
    destruct (lookup_lt_is_Some_2 (returned k i) 0) as [e He]; [rewrite returned_length by done; lia|].
    assert (e ∈ emitted_of i (all_items (returned k <$> seq 0 n))) as Hin.
    { rewrite emitted_all_items, decide_True by done. by eapply list_elem_of_lookup_2. }
    apply emitted_elem_inv in Hin. destruct (all_items _); [by apply elem_of_nil in Hin|simpl; lia].
Qed.

(** *** All pages *)

(** Reading backwards until a page is empty; the first element is the latest page. *)
Fixpoint read_history (fuel : nat) (cursor : federated_cursor) : option (list (list LogEntry)) :=
  match fuel with
  | O => None
  | S fuel =>
      match Federated_Query sort_slice (children <$> seq 0 n) cursor f with
      | ([], _) => Some []
      | (entries, next) => cons entries <$> read_history fuel next
      end
  end.

Lemma take_after k i :
  i < n -> k i <= length (logs i) ->
  take (k i) (logs i) = take (left_after k i) (logs i) ++ emitted_of i (latest k).
Proof using pages_back sort_perm sort_sorted limit_positive.
  intros Hi Hk. destruct (emitted_log k i Hi Hk) as [Hj ->].
  rewrite <-(take_drop (left_after k i) (take (k i) (logs i))) at 1. rewrite take_take.
  f_equal. f_equal. unfold left_after. lia.
Qed.

Lemma read_history_spec fuel cursor k :
  remains cursor k -> length (concat ((fun i => take (k i) (logs i)) <$> seq 0 n)) < fuel ->
  exists pages, read_history fuel cursor = Some pages /\
    length pages <= length (concat ((fun i => take (k i) (logs i)) <$> seq 0 n)) /\
    StronglySorted not_later (concat (rev pages)) /\
    concat (rev pages) ≡ₚ concat ((fun i => take (k i) (logs i)) <$> seq 0 n).
Proof using pages_back sort_perm sort_sorted limit_positive.
  revert cursor k. induction fuel as [|fuel IH]; intros cursor k Hr Hf; [lia|]. cbn [read_history].
  destruct (Federated_Query_page cursor k Hr) as (next & -> & Hnext & Hend).
  destruct (latest k) as [|it items] eqn:El.
  { exists []. split; [done|]. simpl. split; [lia|]. split; [constructor|].
    rewrite (concat_fmap_ext _ (fun _ => [])); [by rewrite concat_fmap_nil|].
    intros i Hi%elem_of_seq. by rewrite (Hend eq_refl) by lia. }
  rewrite <-El in *. specialize (Hnext ltac:(by rewrite El)).
  assert (concat ((fun i => take (k i) (logs i)) <$> seq 0 n) ≡ₚ
    concat ((fun i => take (left_after k i) (logs i)) <$> seq 0 n) ++ (fm_entry <$> latest k)) as HP.
  { rewrite (items_by_child n) by (apply latest_child). rewrite <-concat_fmap_app.
    rewrite (concat_fmap_ext _ (fun i => take (left_after k i) (logs i) ++ emitted_of i (latest k))); [done|].
    intros i Hi%elem_of_seq. apply take_after; [lia|]. apply Hr. lia. }
  assert (0 < length (latest k)) as Hpos by (rewrite El; simpl; lia).
  pose proof (Permutation_length HP) as HL. rewrite length_app, length_fmap in HL. rewrite HL in Hf |- *.
  destruct (IH next (left_after k) Hnext) as (pages & E & H1 & H2 & H3); [lia|].
  destruct (fm_entry <$> latest k) as [|e es] eqn:Ee; [by rewrite El in Ee|]. rewrite E. rewrite <-Ee.
  exists ((fm_entry <$> latest k) :: pages). split; [done|]. cbn [length rev].
  rewrite concat_app. simpl. rewrite app_nil_r. split; [lia|]. split.
  - apply StronglySorted_app_intro; [done|apply latest_sorted|]. intros x y Hx Hy. rewrite H3 in Hx.
    apply list_elem_of_In, in_concat in Hx as (l & Hl & Hx). apply list_elem_of_In in Hl, Hx.
    apply list_elem_of_fmap in Hl as (i & -> & Hi%elem_of_seq).
    apply (rest_not_later k i); [lia|apply Hr; lia|done|done].
  - rewrite H3, Ee. symmetry. exact HP.
Qed.
End Page.

(** ** The backends that page backwards *)

Definition log_rows (dep : string) (t : LogTable) : list LogRow :=
  selection (key_less seq_or_id) (of_deployment dep) (lt_rows t).

Definition first_query (dep : string) (limit : Z) : QueryFilter :=
  {| qf_DeploymentID := dep; qf_RunID := ""; qf_Limit := limit; qf_Before := no_cursor; qf_BeforeTime := 0 |}.

(** A table in order, whose rows of the deployment are numbered and in which time passes. *)
Record log_table (dep : string) (t : LogTable) : Prop := {
  gt_ok : table_ok t;
  gt_numbered : numbered dep t;
  gt_named : dep <> "";
  gt_times : StronglySorted earlier (scanLogEntry <$> log_rows dep t);
}.

Lemma row_cursor dep t k e :
  log_table dep t -> (scanLogEntry <$> log_rows dep t) !! k = Some e ->
  exists c n, log_rows dep t !! k = Some c /\ row_seq c = Some n /\ (0 < n < 2 ^ 63)%Z /\
    encodeLogEntrySeqCursor (log_Seq e) (log_ID e) = pretty n.
Proof.
  intros [Hok Hnum Hdep _] (c & -> & Hk)%list_lookup_fmap_Some. pose proof Hk as Hc.
  apply list_elem_of_lookup_2, SliceStable_elem, list_elem_of_In, filter_In in Hc as [Hc Hd].
  destruct (Hnum c (proj2 (list_elem_of_In _ _) Hc)) as (n & Hn & Hb); [by apply String.eqb_eq|].
  exists c, n. split_and!; [done|done|lia|lia|]. unfold encodeLogEntrySeqCursor. simpl.
  rewrite Hn, (proj2 (Z.ltb_lt 0 n)) by lia. by rewrite (proj2 (Z.ltb_lt 0 n)) by lia.
Qed.

Lemma decode_pretty n : (0 < n < 2 ^ 63)%Z -> decodeSQLiteCursorUint (pretty n) = n.
Proof.
  intros H. unfold decodeSQLiteCursorUint. by rewrite pretty_nonempty, ParseUint_pretty by lia.
Qed.

(** A query for what is before a position in the log of a table. *)
Lemma Fetch_position dep t limit c k :
  log_table dep t -> (0 < limit)%Z -> before_position (scanLogEntry <$> log_rows dep t) c k ->
  Fetch (mkFetchParams dep "" limit (decodeSQLiteCursorUint (cur_ID c)) None) t =
    drop (k - Z.to_nat limit) (take k (scanLogEntry <$> log_rows dep t)).
Proof.
  intros Hg Hl [[-> ->]|(e & He & ->)].
  - destruct Hg. rewrite take_ge, length_fmap by done. rewrite <-fmap_drop. by apply Fetch_last.
  - destruct (row_cursor dep t k e Hg He) as (r & n & Hr & Hn & Hb & ->). rewrite decode_pretty by done.
    destruct Hg. rewrite <-fmap_take, <-fmap_drop. by apply (Fetch_before t dep k r limit n).
Qed.

#[export] Instance SQLite_pages_back like dep t limit :
  log_table dep t -> (0 < limit)%Z ->
  PagesBack (SQLiteBackend like t) (first_query dep limit) (scanLogEntry <$> log_rows dep t).
Proof.
  intros Hg Hl. split; [apply gt_times, Hg|]. intros c k Hc. eexists.
  cbn [be_Query SQLiteBackend]. unfold SQLite_Query. cbn -[Fetch].
  by rewrite (Fetch_position dep t limit c k).
Qed.

(** Another agent answers the same, for a limit that its handler accepts. *)
#[export] Instance Remote_pages_back like sort projects backends dep t dep' limit :
  log_table dep t -> (0 < limit <= maxLimit)%Z ->
  PagesBack (RemoteAgentBackend (agent_api like sort projects backends t) dep) (first_query dep' limit)
    (scanLogEntry <$> log_rows dep t).
Proof.
  unfold maxLimit. intros Hg Hl. split; [apply gt_times, Hg|]. intros c k Hc. eexists.
  cbn [be_Query RemoteAgentBackend]. unfold Remote_Query, agent_api. cbn [na_logs qf_Limit with_before qf_Before first_query].
  unfold to_response, fetchLogs. cbn [lp_limit lp_before lp_deployment ok_status]. unfold positive_text, maxLimit.
  rewrite (proj2 (Z.ltb_lt 0 limit)), pretty_nonempty, Atoi_pretty by (unfold max_int64; lia).
  rewrite (proj2 (Z.ltb_lt 0 limit)), Z.min_l by lia.
  assert (forall s, s = (if (cur_ID c =? "")%string then ""%string else pretty (decodeSQLiteCursor (cur_ID c))) ->
    (if (s =? "")%string then 0%Z else default 0%Z (ParseUint s)) = decodeSQLiteCursorUint (cur_ID c)) as Hb.
  { intros s ->. destruct Hc as [[_ ->]|(e & He & ->)]; [done|].
    destruct (row_cursor dep t k e Hg He) as (r & n & _ & _ & Hn & ->). rewrite decode_pretty by done.
    unfold decodeSQLiteCursor. rewrite !pretty_nonempty, Atoi_pretty by (unfold max_int64; lia). cbn [default from_option id].
    by rewrite pretty_nonempty, ParseUint_pretty by lia. }
  rewrite (Hb _ eq_refl). simpl ok_status. cbn [negb map_result].
  rewrite (Fetch_position dep t limit c k) by (done || lia). reflexivity.
Qed.

(** C40: reading the history of a deployment from several backends, each page handing back the
    cursor of the page before it, ends after at most as many pages as there are entries, and the
    pages hold the entries of all backends exactly once and, from the last page to the first, in
    the order of time.  It needs of every backend that it pages backwards through a log in which
    time passes, which the table of this agent and the interface of another agent do. *)
Theorem federated_history_complete sort_slice n children logs f :
  (forall l, sort_slice less_item l ≡ₚ l) ->
  (forall l, StronglySorted (fun a b => less_item b a = false) (sort_slice less_item l)) ->
  (0 < qf_Limit f)%Z -> qf_Before f = no_cursor ->
  (forall i, i < n -> PagesBack (children i) f (logs i)) ->
  let whole := concat (logs <$> seq 0 n) in
  exists pages,
    read_history sort_slice n children f (S (length whole)) None = Some pages /\
    length pages <= length whole /\
    StronglySorted not_later (concat (rev pages)) /\ concat (rev pages) ≡ₚ whole.
Proof.
  intros Hp Hs Hl Hb Hc whole.
  assert (concat ((fun i => take (length (logs i)) (logs i)) <$> seq 0 n) = whole) as E.
  { apply concat_fmap_ext. intros i _. by rewrite take_ge. }
  rewrite <-E. apply (read_history_spec sort_slice Hp Hs n children logs f Hl Hc); [|lia].
  intros i Hi. split; [done|]. right. split; [done|]. left. by rewrite <-Hb.
Qed.

(** ** Examples *)

Definition stable (less : federatedMergedItem -> federatedMergedItem -> bool) := SliceStable less.


Lemma string_ltb_false s s' : String.ltb s' s = false <-> String.le s s'.
Proof.
  unfold String.ltb, String.le, String.leb. rewrite (String.compare_antisym s s').
  destruct (String.compare s' s); simpl; naive_solver.
Qed.

Lemma less_item_false a b : less_item b a = false <->
  (log_Timestamp (fm_entry a) < log_Timestamp (fm_entry b))%Z \/
  log_Timestamp (fm_entry a) = log_Timestamp (fm_entry b) /\
  String.le (encodeSQLiteCursor (log_ID (fm_entry a))) (encodeSQLiteCursor (log_ID (fm_entry b))).
Proof.
  unfold less_item, less_federated, time_before. rewrite <-string_ltb_false.
  destruct (Z.eqb_spec (log_Timestamp (fm_entry b)) (log_Timestamp (fm_entry a))) as [->|Hne];
    [naive_solver lia|]. rewrite Z.ltb_ge. lia.
Qed.

#[export] Instance not_less_item_trans : Transitive (fun a b => less_item b a = false).
Proof.
  intros a b c. rewrite !less_item_false. intros [H1|[H1 H1']] [H2|[H2 H2']]; [left; lia..|].
  right. split; [lia|]. by etrans.
Qed.

Lemma stable_sorted l : StronglySorted (fun a b => less_item b a = false) (stable less_item l).
Proof.
  apply SliceStable_sorted; [apply _| |done]. intros a b H. rewrite less_item_false.
  unfold less_item, less_federated, time_before in H. destruct (Z.eqb_spec (log_Timestamp (fm_entry a)) (log_Timestamp (fm_entry b))).
  - right. split; [done|]. unfold String.ltb in H. unfold String.le, String.leb. by destruct (String.compare _ _).
  - left. lia.
Qed.

(** The logs of two agents, the first one's in the table at hand. *)
Definition history_table (entries : list (string * Z)) : LogTable :=
  (AppendBatch (imap (fun i e => example_entry "svc" e.1 "" "" 1 e.2 (Z.of_nat (S i))) entries) empty_table).1.

Definition no_match (_ _ : string) : bool := false.

Definition here : LogTable := history_table [("a1", 1%Z); ("a4", 4%Z); ("a5", 5%Z)].
Definition there : LogTable := history_table [("b2", 2%Z); ("b4", 4%Z)].

Definition other_agent (t : LogTable) : LogBackend :=
  RemoteAgentBackend (agent_api no_match id (fun _ => None) ∅ t) "svc".

Definition example_children (i : nat) : LogBackend :=
  if (i =? 0)%nat then SQLiteBackend no_match here else other_agent there.

Definition example_logs (i : nat) : list LogEntry :=
  scanLogEntry <$> log_rows "svc" (if (i =? 0)%nat then here else there).

Example read_history_ex :
  option_map (map (map log_Message)) (read_history (@stable) 2 example_children (first_query "svc" 2) 4 None) =
  Some [["b4"; "a5"]; ["b2"; "a4"]; ["a1"]].
Proof. by vm_compute. Qed.

Lemma history_table_good entries :
  forallb (fun r => match row_seq r with Some n => (0 <? n)%Z && (n <? 2 ^ 63)%Z | None => false end)
    (lt_rows (history_table entries)) = true ->
  StronglySorted earlier (scanLogEntry <$> log_rows "svc" (history_table entries)) ->
  log_table "svc" (history_table entries).
Proof.
  intros H Hs. split; [apply AppendBatch_ok, empty_table_ok| |done|done].
  intros r Hr _. rewrite forallb_forall in H. apply list_elem_of_In, H in Hr.
  destruct (row_seq r) as [n|]; [|done]. exists n. apply andb_true_iff in Hr as [H1 H2]. split; [done|lia].
Qed.

Lemma here_good : log_table "svc" here.
Proof.
  apply history_table_good; [by vm_compute|]. vm_compute. repeat constructor.
Qed.

Lemma there_good : log_table "svc" there.
Proof.
  apply history_table_good; [by vm_compute|]. vm_compute. repeat constructor.
Qed.

Lemma federated_history_complete_witness :
  exists pages, read_history (@stable) 2 example_children (first_query "svc" 2) 6 None = Some pages /\
    concat (rev pages) ≡ₚ example_logs 0 ++ example_logs 1.
Proof.
  destruct (federated_history_complete (@stable) 2 example_children example_logs (first_query "svc" 2))
    as (pages & H1 & _ & _ & H4).
  - intros l. apply SliceStable_perm.
  - exact stable_sorted.
  - reflexivity.
  - reflexivity.
  - intros i Hi. destruct i as [|[|i]]; [|clear Hi|lia].
    + apply SQLite_pages_back; [exact here_good|reflexivity].
    + apply Remote_pages_back; [exact there_good|split; [reflexivity|discriminate]].
  - exists pages. split; [exact H1|]. rewrite H4. vm_compute. reflexivity.
Defined.

(** ** A child that fails once *)

(** A child whose query fails while another one has entries counts as exhausted in the cursor of
    the page, so that no later page asks it again, whatever it would answer. *)
Theorem failed_child_given_up sort_slice children cursor f f' i b b' e :
  (forall l, sort_slice less_item l ≡ₚ l) ->
  children !! i = Some b -> be_Query b (with_before (fc_Cursor (child_state cursor (qf_Before f) i)) f) = Err e ->
  (Federated_Query sort_slice children cursor f).1 <> [] ->
  child_entries (Federated_Query sort_slice children cursor f).2 f' i b' = [].
Proof.
  intros Hp Hi He. unfold Federated_Query.
  set (results := imap (child_entries cursor f) children).
  set (limit := if (qf_Limit f <=? 0)%Z then defaultLimit else qf_Limit f).
  set (merged := mergeLatestFederatedResults sort_slice results limit). cbn [fst snd].
  destruct merged as [|it items] eqn:Em; [done|]. intros _. rewrite <-Em.
  assert (results !! i = Some []) as Hr.
  { unfold results. rewrite list_lookup_imap, Hi. simpl. unfold child_entries. rewrite He. by destruct (fc_Exhausted _). }
  assert (emitted_of i merged = []) as Hm.
  { assert (emitted_of i (sort_slice less_item (all_items results)) = []) as H.
    { apply Permutation_nil. rewrite (emitted_perm i _ _ (Hp _)).
      by rewrite emitted_lookup, Hr. }
    unfold merged, mergeLatestFederatedResults. destruct (_ && _); [|done].
    match goal with |- emitted_of i (drop ?m ?l) = [] =>
      rewrite <-(take_drop m l), emitted_app in H; by apply app_eq_nil in H as [_ H] end. }
  unfold child_entries. cbn [child_state].
  assert ((list_to_map (imap (fun i entries => (i, next_state (child_state cursor (qf_Before f) i) entries
    (emitted_of i merged) limit)) results) : gmap nat federatedCursorState) !! i =
    Some (next_state (child_state cursor (qf_Before f) i) [] [] limit)) as ->.
  { apply elem_of_list_to_map_1.
    - rewrite fmap_imap. apply NoDup_alt. intros j j' x. rewrite !list_lookup_imap. unfold compose. simpl.
      intros (? & _ & ->)%fmap_Some (? & _ & ?)%fmap_Some. done.
    - apply list_elem_of_lookup. exists i. rewrite list_lookup_imap, Hr. simpl. by rewrite Hm. }
  simpl. unfold next_state. by destruct (fc_Exhausted (child_state cursor (qf_Before f) i)) eqn:E; simpl; rewrite ?E.
Qed.

(** An agent that cannot be reached for the second page: its older entries are never shown. *)
Definition broken : LogBackend :=
  {| be_Query _ := Err "context deadline exceeded"; be_Search _ := Err "context deadline exceeded";
     be_Context := None; be_ContextPage := None |}.

Lemma failed_child_given_up_witness :
  exists r1 r2 r3,
    r1 = Federated_Query (@stable) [SQLiteBackend no_match here; other_agent there] None (first_query "svc" 2) /\
    r2 = Federated_Query (@stable) [SQLiteBackend no_match here; broken] r1.2 (first_query "svc" 2) /\
    r3 = Federated_Query (@stable) [SQLiteBackend no_match here; other_agent there] r2.2 (first_query "svc" 2) /\
    log_Message <$> r1.1 = ["b4"; "a5"] /\ log_Message <$> r2.1 = ["a1"; "a4"] /\ r3.1 = [] /\
    child_entries r2.2 (first_query "svc" 2) 1 (other_agent there) = [].
Proof.
  eexists _, _, _. split; [reflexivity|]. split; [reflexivity|]. split; [reflexivity|].
  split; [by vm_compute|]. split; [by vm_compute|]. split; [by vm_compute|].
  eapply failed_child_given_up; [intros l; apply SliceStable_perm|reflexivity|reflexivity|].
  vm_compute. discriminate.
Defined.

(** ** Entries of one time *)

(** Two entries of one time, with the ids 9 and 10: the merge takes the texts of the ids in order,
    the page ends between them on the wrong side, and the later one is in no page. *)
Theorem tied_entries_lost :
  exists pages,
    let tied := history_table (imap (fun i m => (m, Z.min 9 (Z.of_nat (S i))))
      ["m1"; "m2"; "m3"; "m4"; "m5"; "m6"; "m7"; "m8"; "m9"; "m10"]) in
    let children i := if (i =? 0)%nat then SQLiteBackend no_match tied else other_agent (history_table [("b", 10%Z)]) in
    read_history (@stable) 2 children (first_query "svc" 2) 12 None = Some pages /\
    log_Message <$> concat (rev pages) = ["m1"; "m2"; "m3"; "m4"; "m5"; "m6"; "m7"; "m8"; "m9"; "b"] /\
    log_Message <$> Fetch (mkFetchParams "svc" "" 1 0 None) tied = ["m10"].
Proof. eexists. cbn zeta. split; [vm_compute; reflexivity|]. by vm_compute. Qed.

(** ** Pages around an entry of another agent *)

(** The request for a page names no project, which the handler of the other agent refuses: the
    backend always falls back to the pages of the log. *)
Theorem remote_page_falls_back like sort projects backends t dep q :
  Remote_ContextPage (agent_api like sort projects backends t) dep q =
  contextPageFromLogPage (agent_api like sort projects backends t) dep q.
Proof. reflexivity. Qed.
