(* ===== verification/Ingress.v ===== *)
(** * Public entries: declarations (agent/ingress/model.go, cert_deployment.go)

    The records of declarations, DNS records, certificates and what was put in place; the
    validation of a declaration, the value of its DNS records and the choice of a certificate. *)
From stdpp Require Import base strings gmap list.
From Stdlib Require Import ZArith Lia Ascii.
From S2P Require Import Prelude Model ConfigChange Paths.
Local Open Scope string_scope.

(** ** Records *)

Definition ProviderManual : string := "manual".
Definition ProviderACME : string := "acme".
Definition RecordA : string := "A".

Record SourceHint : Type := mkSourceHint {
  sh_EnvName : string;
  sh_PipelineID : string;
  sh_Role : string;
  sh_Service : string;
}.

Record ProxyConfig : Type := mkProxyConfig { px_Provider : string; px_HostIDs : list string }.
Record Upstream : Type := mkUpstream { up_HostID : string; up_IP : string; up_Port : Z }.
Record LocationOption : Type := mkLocationOption { lo_Path : string; lo_Raw : string }.
Record ProxyOptions : Type := mkProxyOptions {
  po_Websocket : bool;
  po_ProxyTimeout : duration;
  po_ExtraLocations : list LocationOption;
  po_RawTemplate : string;
}.
Record TLSConfig : Type := mkTLSConfig { tls_Enabled : bool; tls_CertID : string }.

(** [Record] of the package. *)
Record DnsRecord : Type := mkDnsRecord {
  rec_ID : string;
  rec_Type : string;
  rec_Name : string;
  rec_Value : string;
  rec_TTL : Z;
}.
Record DNSConfig : Type := mkDNSConfig { dns_Provider : string; dns_Records : list DnsRecord }.

Record Ingress : Type := mkIngress {
  ing_ID : string;
  ing_ProjectID : string;
  ing_Name : string;
  ing_Domain : string;
  ing_SourceHint : SourceHint;
  ing_Proxy : ProxyConfig;
  ing_Upstreams : list Upstream;
  ing_ProxyOptions : ProxyOptions;
  ing_TLS : TLSConfig;
  ing_DNS : DNSConfig;
  ing_CreatedAt : time;
  ing_UpdatedAt : time;
}.

Record RecordResult : Type := mkRecordResult {
  rr_Record : DnsRecord;
  rr_Changed : bool;
  rr_Manual : bool;
  rr_Instructions : list string;
}.

Record Certificate : Type := mkCertificate {
  crt_Domain : string;
  crt_CertPEM : string;
  crt_KeyPEM : string;
  crt_Issuer : string;
  crt_ObtainedAt : time;
  crt_ExpiresAt : time;
  crt_Provider : string;
}.

Record CertDeployment : Type := mkCertDeployment {
  cd_HostID : string;
  cd_CertPath : string;
  cd_KeyPath : string;
  cd_PostDeployCommand : string;
  cd_SourceType : string;
  cd_SourceID : string;
  cd_Status : string;
  cd_LastError : string;
  cd_DeployedAt : time;
}.

Definition CertificateIssuerACME : string := "acme".
Definition CertificateIssuerManual : string := "manual".
Definition CertPending : string := "pending".
Definition CertActive : string := "active".
Definition CertFailed : string := "failed".
Definition CertDeploymentSucceeded : string := "succeeded".
Definition CertDeploymentFailed : string := "failed".

Record ManagedCertificate : Type := mkManagedCertificate {
  mc_ID : string;
  mc_Domains : list string;
  mc_Issuer : string;
  mc_DNSProvider : string;
  mc_Status : string;
  mc_Material : option Certificate;
  mc_Deployments : list CertDeployment;
  mc_LastError : string;
  mc_AutoRenew : bool;
  mc_CreatedAt : time;
  mc_UpdatedAt : time;
}.

Record ACMEAccount : Type := mkACMEAccount {
  acc_Email : string;
  acc_DirectoryURL : string;
  acc_UpdatedAt : time;
}.

Record RenderedConfig : Type := mkRenderedConfig {
  rc_Domain : string;
  rc_Filename : string;
  rc_Content : string;
  rc_Certificate : option Certificate;
}.

Record HostState : Type := mkHostState {
  hs_HostID : string;
  hs_ConfigPath : string;
  hs_CertPaths : list string;
  hs_CertDeployment : option CertDeployment;
}.

Record AppliedState : Type := mkAppliedState {
  as_IngressID : string;
  as_Records : list DnsRecord;
  as_Hosts : list HostState;
  as_UpdatedAt : time;
}.

Record OrphanConfig : Type := mkOrphanConfig { oc_HostID : string; oc_Path : string; oc_Domain : string }.
Record OrphanReport : Type := mkOrphanReport { or_Configs : list OrphanConfig; or_Records : list DnsRecord }.

Record DNSValueDecision : Type := mkDecision {
  dv_OK : bool;
  dv_Value : string;
  dv_RequiresInput : bool;
  dv_RequiresConfirmation : bool;
  dv_Message : string;
}.

(** ** Validation *)

Definition blank (s : string) : bool := TrimSpace s =? "".

(** The first upstream without an address or a port. *)
Fixpoint upstream_error (l : list Upstream) : option string :=
  match l with
  | [] => None
  | u :: l =>
      if blank (up_IP u) then Some "upstream.ip is required"
      else if (up_Port u <=? 0)%Z then Some "upstream.port is required"
      else upstream_error l
  end.

(** [Ingress.Validate]; [None] is nil. *)
Definition Ingress_Validate (i : Ingress) : option string :=
  if blank (ing_ProjectID i) then Some "project_id is required"
  else if blank (ing_Domain i) then Some "domain is required"
  else if blank (px_Provider (ing_Proxy i)) then Some "proxy.provider is required"
  else match px_HostIDs (ing_Proxy i) with
  | [] => Some "at least one proxy host is required"
  | _ =>
  match ing_Upstreams i with
  | [] => Some "at least one upstream is required"
  | ups =>
  match upstream_error ups with
  | Some e => Some e
  | None =>
  if blank (po_RawTemplate (ing_ProxyOptions i)) then Some "raw_template is required"
  else if blank (dns_Provider (ing_DNS i)) then Some "dns.provider is required"
  else match dns_Records (ing_DNS i) with
  | [] => Some "at least one dns record is required"
  | _ =>
      if tls_Enabled (ing_TLS i) && blank (tls_CertID (ing_TLS i)) then Some "tls.cert_id is required"
      else None
  end end end end.

(** ** DNS values *)

(** [net.ParseIP], which gives 16 bytes, and [IP.String]. *)
Class IpText : Type := {
  ParseIP : string -> option (list Z);
  IP_String : list Z -> string;
}.

(** [IP.To4] *)
Definition To4 (ip : list Z) : option (list Z) :=
  if bool_decide (take 12 ip = replicate 10 0%Z ++ [255; 255]%Z)%list then Some (drop 12 ip) else None.

Definition byte_at (ip : list Z) (i : nat) : Z := default 0%Z (ip !! i).

Definition IsPrivate (ip : list Z) : bool :=
  match To4 ip with
  | Some ip4 =>
      (byte_at ip4 0 =? 10)%Z ||
      ((byte_at ip4 0 =? 172)%Z && (Z.land (byte_at ip4 1) 240 =? 16)%Z) ||
      ((byte_at ip4 0 =? 192)%Z && (byte_at ip4 1 =? 168)%Z)
  | None => (Z.land (byte_at ip 0) 254 =? 252)%Z
  end.
Definition IsLoopback (ip : list Z) : bool :=
  match To4 ip with
  | Some ip4 => (byte_at ip4 0 =? 127)%Z
  | None => bool_decide (ip = replicate 15 0%Z ++ [1%Z])%list
  end.
Definition IsUnspecified (ip : list Z) : bool :=
  bool_decide (To4 ip = Some (replicate 4 0%Z)) || bool_decide (ip = replicate 16 0%Z).
Definition IsLinkLocalUnicast (ip : list Z) : bool :=
  match To4 ip with
  | Some ip4 => (byte_at ip4 0 =? 169)%Z && (byte_at ip4 1 =? 254)%Z
  | None => (byte_at ip 0 =? 254)%Z && (Z.land (byte_at ip 1) 192 =? 128)%Z
  end.
Definition IsMulticast (ip : list Z) : bool :=
  match To4 ip with
  | Some ip4 => (Z.land (byte_at ip4 0) 240 =? 224)%Z
  | None => (byte_at ip 0 =? 255)%Z
  end.

Definition isPublicIP (ip : list Z) : bool :=
  negb (IsPrivate ip) && negb (IsLoopback ip) && negb (IsUnspecified ip) &&
  negb (IsLinkLocalUnicast ip) && negb (IsMulticast ip).

(** [byID[id]], where a later host replaces an earlier one. *)
Definition host_by_id (hosts : list Host) (id : string) : option Host :=
  List.find (fun h => hst_ID h =? id) (rev hosts).

Definition needs_input (msg : string) : DNSValueDecision :=
  {| dv_OK := false; dv_Value := ""; dv_RequiresInput := true; dv_RequiresConfirmation := false;
     dv_Message := msg |}.
Definition value_is (value : string) (confirm : bool) : DNSValueDecision :=
  {| dv_OK := true; dv_Value := value; dv_RequiresInput := false; dv_RequiresConfirmation := confirm;
     dv_Message := "" |}.

Definition ResolveDNSRecordValue `{IpText} (i : Ingress) (hosts : list Host) : DNSValueDecision :=
  let inferred :=
    match px_HostIDs (ing_Proxy i) with
    | [id] =>
        match host_by_id hosts id with
        | None => needs_input "dns.record.value is required because host was not found"
        | Some h =>
            match ParseIP (TrimSpace (hst_PublicIP h)) with
            | Some ip =>
                if isPublicIP ip then value_is (IP_String ip) true
                else needs_input "dns.record.value is required because host address is not a public IP"
            | None => needs_input "dns.record.value is required because host address is not a public IP"
            end
        end
    | _ => needs_input "dns.record.value is required for multiple hosts"
    end in
  match dns_Records (ing_DNS i) with
  | r :: _ => if negb (blank (rec_Value r)) then value_is (TrimSpace (rec_Value r)) false else inferred
  | [] => inferred
  end.

Definition WithDefaults (r : DnsRecord) (domain value : string) : DnsRecord :=
  {| rec_ID := rec_ID r;
     rec_Type := if rec_Type r =? "" then RecordA else rec_Type r;
     rec_Name := if rec_Name r =? "" then domain else rec_Name r;
     rec_Value := if rec_Value r =? "" then value else rec_Value r;
     rec_TTL := if (rec_TTL r =? 0)%Z then 300%Z else rec_TTL r |}.

(** The loop of [resolveDNSRecords] (service.go): the records that remain, whether the next one is
    the first, the result so far and the decision. *)
Fixpoint resolve_records `{IpText} (i : Ingress) (hosts : list Host) (records : list DnsRecord)
    (first : bool) (out : list DnsRecord) (decision : DNSValueDecision)
    : result DNSValueDecision (list DnsRecord * DNSValueDecision) :=
  match records with
  | [] => Ok (out, decision)
  | r :: records =>
      let next value decision :=
        let r := WithDefaults r (ing_Domain i) value in
        let decision := if first && (dv_Value decision =? "")
          then {| dv_OK := dv_OK decision; dv_Value := rec_Value r;
                  dv_RequiresInput := dv_RequiresInput decision;
                  dv_RequiresConfirmation := dv_RequiresConfirmation decision;
                  dv_Message := dv_Message decision |}
          else decision in
        resolve_records i hosts records false (out ++ [r])%list decision in
      if blank (rec_Value r) then
        let inferred := ResolveDNSRecordValue i hosts in
        if dv_OK inferred then next (dv_Value inferred) inferred else Err inferred
      else next (TrimSpace (rec_Value r)) decision
  end.

(** [resolveDNSRecords]; an error carries the decision. *)
Definition resolveDNSRecords `{IpText} (i : Ingress) (hosts : list Host)
    : result DNSValueDecision (list DnsRecord * DNSValueDecision) :=
  match dns_Records (ing_DNS i) with
  | [] => Err (needs_input "at least one dns record is required")
  | records => resolve_records i hosts records true [] (value_is "" false)
  end.

Definition with_records (records : list DnsRecord) (i : Ingress) : Ingress :=
  {| ing_ID := ing_ID i; ing_ProjectID := ing_ProjectID i; ing_Name := ing_Name i;
     ing_Domain := ing_Domain i; ing_SourceHint := ing_SourceHint i; ing_Proxy := ing_Proxy i;
     ing_Upstreams := ing_Upstreams i; ing_ProxyOptions := ing_ProxyOptions i; ing_TLS := ing_TLS i;
     ing_DNS := {| dns_Provider := dns_Provider (ing_DNS i); dns_Records := records |};
     ing_CreatedAt := ing_CreatedAt i; ing_UpdatedAt := ing_UpdatedAt i |}.

(** [recordKey]; the two parts are joined by a NUL, which neither has. *)
Definition recordKey (r : DnsRecord) : string := rec_Type r ++ String "000" (rec_Name r).

Definition declaredRecordKeys (declared : list Ingress) : list string :=
  concat ((fun i => (fun r => recordKey (WithDefaults r (ing_Domain i) (rec_Value r))) <$>
    dns_Records (ing_DNS i)) <$> declared).

(** ** Certificates *)

(** [strings.TrimSuffix(s, suffix)], if [s] has the suffix. *)
Definition cut_suffix (suffix s : string) : option string :=
  let k := String.length s - String.length suffix in
  if (String.length suffix <=? String.length s)%nat && (String.substring k (String.length suffix) s =? suffix)
  then Some (String.substring 0 k s) else None.

Definition wildcardMatchesDomain (pattern domain : string) : bool :=
  match pattern with
  | String "*" (String "." suffix) =>
      if (suffix =? "") || (domain =? suffix) then false
      else match cut_suffix (String "." suffix) domain with
           | None => false
           | Some front =>
               negb (front =? "") && negb (existsb (Ascii.eqb ".") (String.list_ascii_of_string front))
           end
  | _ => false
  end.

Definition MatchCertificate `{UnicodeCase} (domain : string) (certs : list ManagedCertificate)
    : option ManagedCertificate :=
  let lower s := ToLower (TrimSpace s) in
  if lower domain =? "" then None
  else
    let active := List.filter (fun c => mc_Status c =? CertActive) certs in
    match List.find (fun c => existsb (fun d => lower d =? lower domain) (mc_Domains c)) active with
    | Some c => Some c
    | None => List.find (fun c => existsb (fun d => wildcardMatchesDomain (lower d) (lower domain)) (mc_Domains c)) active
    end.

Definition normalizedDomains (domains : list string) : list string :=
  List.filter (fun d => negb (d =? "")) (TrimSpace <$> domains).

Definition primaryDomain (c : ManagedCertificate) : string :=
  match normalizedDomains (mc_Domains c) with
  | d :: _ => d
  | [] => match mc_Material c with Some m => TrimSpace (crt_Domain m) | None => "" end
  end.

(** ** Where certificates go *)

Record CertificateDeploymentRequest : Type := mkDeploymentRequest {
  dr_HostID : string;
  dr_CertPath : string;
  dr_KeyPath : string;
  dr_PostDeployCommand : string;
  dr_SourceType : string;
  dr_SourceID : string;
}.

Definition defaultCertDeploymentRoot : string := "/etc/superdev/ingress/certs".

Definition DefaultCertificateDeploymentPaths (domain : string) : string * string :=
  let certDir := Join defaultCertDeploymentRoot (TrimSpace domain) in
  (Join certDir "fullchain.pem", Join certDir "privkey.pem").

Definition normalizeDeploymentRequest (r : CertificateDeploymentRequest) (domain : string)
    : CertificateDeploymentRequest :=
  let paths := DefaultCertificateDeploymentPaths domain in
  {| dr_HostID := TrimSpace (dr_HostID r);
     dr_CertPath := if blank (dr_CertPath r) then paths.1 else TrimSpace (dr_CertPath r);
     dr_KeyPath := if blank (dr_KeyPath r) then paths.2 else TrimSpace (dr_KeyPath r);
     dr_PostDeployCommand := TrimSpace (dr_PostDeployCommand r);
     dr_SourceType := TrimSpace (dr_SourceType r);
     dr_SourceID := TrimSpace (dr_SourceID r) |}.

Definition deploymentRequestFromRecord (d : CertDeployment) : CertificateDeploymentRequest :=
  {| dr_HostID := cd_HostID d; dr_CertPath := cd_CertPath d; dr_KeyPath := cd_KeyPath d;
     dr_PostDeployCommand := cd_PostDeployCommand d; dr_SourceType := cd_SourceType d;
     dr_SourceID := cd_SourceID d |}.

(** The first request for each host. *)
Fixpoint normalized_from (requests : list CertificateDeploymentRequest) (domain : string)
    (seen : list string) : list CertificateDeploymentRequest :=
  match requests with
  | [] => []
  | r :: requests =>
      let r := normalizeDeploymentRequest r domain in
      if (dr_HostID r =? "") || existsb (String.eqb (dr_HostID r)) seen
      then normalized_from requests domain seen
      else r :: normalized_from requests domain (dr_HostID r :: seen)
  end.
Definition normalizedDeploymentRequests (requests : list CertificateDeploymentRequest) (domain : string)
    : list CertificateDeploymentRequest := normalized_from requests domain [].

Definition or_else (s d : string) : string := if s =? "" then d else s.

Definition normalizeSuccessfulDeployment (now : time) (hostID : string) (r : CertificateDeploymentRequest)
    (d : CertDeployment) : CertDeployment :=
  {| cd_HostID := hostID; cd_CertPath := or_else (cd_CertPath d) (dr_CertPath r);
     cd_KeyPath := or_else (cd_KeyPath d) (dr_KeyPath r);
     cd_PostDeployCommand := dr_PostDeployCommand r; cd_SourceType := dr_SourceType r;
     cd_SourceID := dr_SourceID r; cd_Status := CertDeploymentSucceeded; cd_LastError := "";
     cd_DeployedAt := if time_is_zero (cd_DeployedAt d) then now else cd_DeployedAt d |}.

Definition failedDeployment (now : time) (r : CertificateDeploymentRequest) (cause : string) : CertDeployment :=
  {| cd_HostID := dr_HostID r; cd_CertPath := dr_CertPath r; cd_KeyPath := dr_KeyPath r;
     cd_PostDeployCommand := dr_PostDeployCommand r; cd_SourceType := dr_SourceType r;
     cd_SourceID := dr_SourceID r; cd_Status := CertDeploymentFailed; cd_LastError := cause;
     cd_DeployedAt := now |}.

Definition deployments_by_host (l : list CertDeployment) : gmap string CertDeployment :=
  foldl (fun m d => <[cd_HostID d := d]> m) ∅ l.

(** [sortedDeployments]: by the keys of the map. *)
Definition sortedDeployments (m : gmap string CertDeployment) : list CertDeployment :=
  omap (fun k => m !! k) (sort_strings (fst <$> map_to_list m)).
