(* ===== verification/IngressStore.v ===== *)
(** * Public entries: the files (agent/ingress/store.go, the handlers of api/handler_ingress.go)

    Declarations with what was put in place, DNS providers with their secrets, and certificates
    with the ACME account, in three JSON files that are written in place. *)
From stdpp Require Import base strings gmap list.
From Stdlib Require Import ZArith Lia.
From S2P Require Import Prelude Model Ingress.
Local Open Scope string_scope.

Record DNSProviderConfig : Type := mkDNSProviderConfig {
  dp_ID : string;
  dp_Name : string;
  dp_Type : string;
  dp_ZoneID : string;
  dp_Secrets : gmap string string;
}.

Record fileStoreData : Type := mkFileStoreData {
  fsd_Ingresses : list Ingress;
  fsd_States : list AppliedState;
}.
Record certStoreData : Type := mkCertStoreData {
  csd_Account : ACMEAccount;
  csd_Certificates : list ManagedCertificate;
}.

(** [FileStore]: the files behind its three paths. *)
Record FileStore : Type := mkFileStore {
  fs_ingress : file fileStoreData;
  fs_providers : file (list DNSProviderConfig);
  fs_certs : file certStoreData;
}.

(** What writing a file does; [ChmodFailed] is an error after the new content is in place. *)
Inductive write_outcome : Type := Written | NotWritten | Torn | ChmodFailed.

Definition write_file {S} (o : write_outcome) (old : file S) (st : S) : file S * bool :=
  match o with
  | Written => (Content st, true)
  | NotWritten => (old, false)
  | Torn => (Corrupt, false)
  | ChmodFailed => (Content st, false)
  end.

(** The clock, the next random identifier, whether the file can be read, and its write. *)
Record Env : Type := mkEnv {
  en_now : time;
  en_id : string;
  en_read : bool;
  en_write : write_outcome;
}.

Definition ErrStoreRead : string := "read ingress store".
Definition ErrStoreWrite : string := "write ingress store".

(** [loadData], [loadProviderData] and [loadCertData]. *)
Definition load_file {S} (zero : S) (e : Env) (f : file S) : result string S :=
  match f with
  | Missing => Ok zero
  | Content st => if en_read e then Ok st else Err ErrStoreRead
  | Empty | Corrupt => Err ErrStoreRead
  end.

Definition no_account : ACMEAccount := {| acc_Email := ""; acc_DirectoryURL := ""; acc_UpdatedAt := 0 |}.
Definition loadData (e : Env) (s : FileStore) : result string fileStoreData :=
  load_file (mkFileStoreData [] []) e (fs_ingress s).
Definition loadProviderData (e : Env) (s : FileStore) : result string (list DNSProviderConfig) :=
  load_file [] e (fs_providers s).
Definition loadCertData (e : Env) (s : FileStore) : result string certStoreData :=
  load_file (mkCertStoreData no_account []) e (fs_certs s).

Definition saved {A} (ok : bool) (x : A) : result string A := if ok then Ok x else Err ErrStoreWrite.

Definition saveData {A} (e : Env) (d : fileStoreData) (x : A) (s : FileStore) : FileStore * result string A :=
  let '(f, ok) := write_file (en_write e) (fs_ingress s) d in
  (mkFileStore f (fs_providers s) (fs_certs s), saved ok x).
Definition saveProviderData {A} (e : Env) (d : list DNSProviderConfig) (x : A) (s : FileStore)
    : FileStore * result string A :=
  let '(f, ok) := write_file (en_write e) (fs_providers s) d in
  (mkFileStore (fs_ingress s) f (fs_certs s), saved ok x).
Definition saveCertData {A} (e : Env) (d : certStoreData) (x : A) (s : FileStore) : FileStore * result string A :=
  let '(f, ok) := write_file (en_write e) (fs_certs s) d in
  (mkFileStore (fs_ingress s) (fs_providers s) f, saved ok x).

(** A method that reads, and one that reads and writes. *)
Definition reading {A B} (r : result string A) (k : A -> B) : result string B := map_result k r.
Definition updating {A B} (s : FileStore) (r : result string A) (k : A -> FileStore * result string B)
    : FileStore * result string B :=
  match r with Ok x => k x | Err e => (s, Err e) end.

(** ** Lists with keys *)

Definition find_key {A} (key : A -> string) (id : string) (l : list A) : option A :=
  List.find (fun x => key x =? id) l.

(** The loop of the upserts: the first element with the key is replaced by [f] of it, and if there
    is none, [x] goes to the end. *)
Fixpoint put_key {A} (key : A -> string) (f : A -> A) (x : A) (id : string) (l : list A) : list A :=
  match l with
  | [] => [x]
  | y :: l => if key y =? id then f y :: l else y :: put_key key f x id l
  end.

Definition drop_key {A} (key : A -> string) (id : string) (l : list A) : list A :=
  List.filter (fun x => negb (key x =? id)) l.

(** ** Declarations *)

Definition ListIngress (e : Env) (s : FileStore) : result string (list Ingress) :=
  reading (loadData e s) fsd_Ingresses.

Definition ListIngressByProject (e : Env) (projectID : string) (s : FileStore) : result string (list Ingress) :=
  reading (ListIngress e s) (List.filter (fun i => ing_ProjectID i =? projectID)).

Definition GetIngress (e : Env) (id : string) (s : FileStore) : result string (option Ingress) :=
  reading (loadData e s) (fun d => find_key ing_ID id (fsd_Ingresses d)).

Definition with_identity (id : string) (created updated : time) (i : Ingress) : Ingress :=
  {| ing_ID := id; ing_ProjectID := ing_ProjectID i; ing_Name := ing_Name i;
     ing_Domain := ing_Domain i; ing_SourceHint := ing_SourceHint i; ing_Proxy := ing_Proxy i;
     ing_Upstreams := ing_Upstreams i; ing_ProxyOptions := ing_ProxyOptions i; ing_TLS := ing_TLS i;
     ing_DNS := ing_DNS i; ing_CreatedAt := created; ing_UpdatedAt := updated |}.

(** The creation time that an entry keeps. *)
Definition created_at (own existing : time) : time := if time_is_zero own then existing else own.

Definition UpsertIngress (e : Env) (i : Ingress) (s : FileStore) : FileStore * result string Ingress :=
  updating s (loadData e s) (fun d =>
    let now := en_now e in
    let i := if ing_ID i =? "" then with_identity (en_id e) now now i
             else with_identity (ing_ID i) (ing_CreatedAt i) now i in
    let replace y := with_identity (ing_ID i) (created_at (ing_CreatedAt i) (ing_CreatedAt y)) now i in
    let i' := match find_key ing_ID (ing_ID i) (fsd_Ingresses d) with Some y => replace y | None => i end in
    saveData e (mkFileStoreData (put_key ing_ID replace i (ing_ID i) (fsd_Ingresses d)) (fsd_States d)) i' s).

Definition DeleteIngress (e : Env) (id : string) (s : FileStore) : FileStore * result string unit :=
  updating s (loadData e s) (fun d =>
    saveData e (mkFileStoreData (drop_key ing_ID id (fsd_Ingresses d)) (fsd_States d)) tt s).

(** ** What was put in place *)

Definition with_updated (now : time) (st : AppliedState) : AppliedState :=
  {| as_IngressID := as_IngressID st; as_Records := as_Records st; as_Hosts := as_Hosts st;
     as_UpdatedAt := now |}.

Definition SaveState (e : Env) (st : AppliedState) (s : FileStore) : FileStore * result string unit :=
  updating s (loadData e s) (fun d =>
    let st := with_updated (en_now e) st in
    saveData e (mkFileStoreData (fsd_Ingresses d)
      (put_key as_IngressID (fun _ => st) st (as_IngressID st) (fsd_States d))) tt s).

Definition GetState (e : Env) (id : string) (s : FileStore) : result string (option AppliedState) :=
  reading (loadData e s) (fun d => find_key as_IngressID id (fsd_States d)).

Definition ListStates (e : Env) (s : FileStore) : result string (list AppliedState) :=
  reading (loadData e s) fsd_States.

(** ** DNS providers *)

Definition ListDNSProviders (e : Env) (s : FileStore) : result string (list DNSProviderConfig) :=
  loadProviderData e s.

Definition GetDNSProvider (e : Env) (id : string) (s : FileStore) : result string (option DNSProviderConfig) :=
  reading (loadProviderData e s) (find_key dp_ID id).

Definition with_provider_id (id : string) (secrets : gmap string string) (c : DNSProviderConfig) : DNSProviderConfig :=
  {| dp_ID := id; dp_Name := dp_Name c; dp_Type := dp_Type c; dp_ZoneID := dp_ZoneID c; dp_Secrets := secrets |}.

Definition UpsertDNSProvider (e : Env) (c : DNSProviderConfig) (s : FileStore)
    : FileStore * result string DNSProviderConfig :=
  let c := with_provider_id (if dp_ID c =? "" then en_id e else dp_ID c) (dp_Secrets c) c in
  updating s (loadProviderData e s) (fun l =>
    let replace y := with_provider_id (dp_ID c)
      (if bool_decide (dp_Secrets c = ∅) then dp_Secrets y else dp_Secrets c) c in
    let c' := match find_key dp_ID (dp_ID c) l with Some y => replace y | None => c end in
    saveProviderData e (put_key dp_ID replace c (dp_ID c) l) c' s).

Definition DeleteDNSProvider (e : Env) (id : string) (s : FileStore) : FileStore * result string unit :=
  updating s (loadProviderData e s) (fun l => saveProviderData e (drop_key dp_ID id l) tt s).

(** ** Certificates *)

Definition with_material (m : option Certificate) (c : ManagedCertificate) : ManagedCertificate :=
  {| mc_ID := mc_ID c; mc_Domains := mc_Domains c; mc_Issuer := mc_Issuer c;
     mc_DNSProvider := mc_DNSProvider c; mc_Status := mc_Status c; mc_Material := m;
     mc_Deployments := mc_Deployments c; mc_LastError := mc_LastError c;
     mc_AutoRenew := mc_AutoRenew c; mc_CreatedAt := mc_CreatedAt c; mc_UpdatedAt := mc_UpdatedAt c |}.

Definition without_key (m : Certificate) : Certificate :=
  {| crt_Domain := crt_Domain m; crt_CertPEM := crt_CertPEM m; crt_KeyPEM := "";
     crt_Issuer := crt_Issuer m; crt_ObtainedAt := crt_ObtainedAt m; crt_ExpiresAt := crt_ExpiresAt m;
     crt_Provider := crt_Provider m |}.

(** [redactCertificateMaterial] and, in the handlers, [redactManagedCertificate]. *)
Definition redactCertificateMaterial (c : ManagedCertificate) : ManagedCertificate :=
  with_material (without_key <$> mc_Material c) c.

Definition ListCertificates (e : Env) (s : FileStore) : result string (list ManagedCertificate) :=
  reading (loadCertData e s) (fun d => redactCertificateMaterial <$> csd_Certificates d).

Definition GetCertificate (e : Env) (id : string) (s : FileStore) : result string (option ManagedCertificate) :=
  reading (loadCertData e s) (fun d => find_key mc_ID id (csd_Certificates d)).

Definition with_cert_identity (id : string) (created updated : time) (c : ManagedCertificate) : ManagedCertificate :=
  {| mc_ID := id; mc_Domains := mc_Domains c; mc_Issuer := mc_Issuer c;
     mc_DNSProvider := mc_DNSProvider c; mc_Status := mc_Status c; mc_Material := mc_Material c;
     mc_Deployments := mc_Deployments c; mc_LastError := mc_LastError c;
     mc_AutoRenew := mc_AutoRenew c; mc_CreatedAt := created; mc_UpdatedAt := updated |}.

Definition UpsertCertificate (e : Env) (c : ManagedCertificate) (s : FileStore)
    : FileStore * result string ManagedCertificate :=
  updating s (loadCertData e s) (fun d =>
    let now := en_now e in
    let c := if mc_ID c =? "" then with_cert_identity (en_id e) now now c
             else with_cert_identity (mc_ID c) (mc_CreatedAt c) now c in
    let replace y := with_cert_identity (mc_ID c) (created_at (mc_CreatedAt c) (mc_CreatedAt y)) now c in
    let fresh := with_cert_identity (mc_ID c) (created_at (mc_CreatedAt c) now) now c in
    let c' := match find_key mc_ID (mc_ID c) (csd_Certificates d) with Some y => replace y | None => fresh end in
    saveCertData e (mkCertStoreData (csd_Account d)
      (put_key mc_ID replace fresh (mc_ID c) (csd_Certificates d))) c' s).

Definition DeleteCertificate (e : Env) (id : string) (s : FileStore) : FileStore * result string unit :=
  updating s (loadCertData e s) (fun d =>
    saveCertData e (mkCertStoreData (csd_Account d) (drop_key mc_ID id (csd_Certificates d))) tt s).

Definition GetACMEAccount (e : Env) (s : FileStore) : result string ACMEAccount :=
  reading (loadCertData e s) csd_Account.

Definition SaveACMEAccount (e : Env) (a : ACMEAccount) (s : FileStore) : FileStore * result string unit :=
  updating s (loadCertData e s) (fun d =>
    saveCertData e (mkCertStoreData
      {| acc_Email := acc_Email a; acc_DirectoryURL := acc_DirectoryURL a; acc_UpdatedAt := en_now e |}
      (csd_Certificates d)) tt s).

(** ** Handlers of the declarations of a project

    An error is a status with a text.  A handler that reads and then writes takes two
    environments. *)

Definition http_error : Type := Z * string.
Definition ingress_not_found : http_error := (404%Z, "ingress not found").

Definition http_result {A} (r : result string A) : result http_error A :=
  match r with Ok x => Ok x | Err e => Err (500%Z, e) end.

Definition with_project (projectID : string) (i : Ingress) : Ingress :=
  {| ing_ID := ing_ID i; ing_ProjectID := projectID; ing_Name := ing_Name i;
     ing_Domain := ing_Domain i; ing_SourceHint := ing_SourceHint i; ing_Proxy := ing_Proxy i;
     ing_Upstreams := ing_Upstreams i; ing_ProxyOptions := ing_ProxyOptions i; ing_TLS := ing_TLS i;
     ing_DNS := ing_DNS i; ing_CreatedAt := ing_CreatedAt i; ing_UpdatedAt := ing_UpdatedAt i |}.
Definition with_id (id : string) (i : Ingress) : Ingress := with_identity id (ing_CreatedAt i) (ing_UpdatedAt i) i.

Definition projectIngressForRequest (e : Env) (projectID ingressID : string) (s : FileStore)
    : result http_error Ingress :=
  match GetIngress e ingressID s with
  | Err msg => Err (500%Z, msg)
  | Ok None => Err ingress_not_found
  | Ok (Some i) => if negb (ing_ProjectID i =? projectID) then Err ingress_not_found else Ok i
  end.

Definition createProjectIngress (e : Env) (projectID : string) (i : Ingress) (s : FileStore)
    : FileStore * result http_error Ingress :=
  let '(s, r) := UpsertIngress e (with_project projectID i) s in (s, http_result r).

Definition updateProjectIngress (e e' : Env) (projectID ingressID : string) (i : Ingress) (s : FileStore)
    : FileStore * result http_error Ingress :=
  match projectIngressForRequest e projectID ingressID s with
  | Err x => (s, Err x)
  | Ok _ =>
      let '(s, r) := UpsertIngress e' (with_project projectID (with_id ingressID i)) s in (s, http_result r)
  end.

Definition deleteProjectIngress (e e' : Env) (projectID ingressID : string) (s : FileStore)
    : FileStore * result http_error unit :=
  match projectIngressForRequest e projectID ingressID s with
  | Err x => (s, Err x)
  | Ok _ => let '(s, r) := DeleteIngress e' ingressID s in (s, http_result r)
  end.

(** ** The methods as one type *)

(** The methods of the interface [Store] by the type of what they return. *)
Inductive store_call : Type -> Type :=
| CListIngress : store_call (list Ingress)
| CListIngressByProject (projectID : string) : store_call (list Ingress)
| CGetIngress (id : string) : store_call (option Ingress)
| CUpsertIngress (i : Ingress) : store_call Ingress
| CDeleteIngress (id : string) : store_call unit
| CSaveState (st : AppliedState) : store_call unit
| CGetState (id : string) : store_call (option AppliedState)
| CListStates : store_call (list AppliedState)
| CListDNSProviders : store_call (list DNSProviderConfig)
| CGetDNSProvider (id : string) : store_call (option DNSProviderConfig)
| CUpsertDNSProvider (c : DNSProviderConfig) : store_call DNSProviderConfig
| CDeleteDNSProvider (id : string) : store_call unit
| CListCertificates : store_call (list ManagedCertificate)
| CGetCertificate (id : string) : store_call (option ManagedCertificate)
| CUpsertCertificate (c : ManagedCertificate) : store_call ManagedCertificate
| CDeleteCertificate (id : string) : store_call unit
| CGetACMEAccount : store_call ACMEAccount
| CSaveACMEAccount (a : ACMEAccount) : store_call unit.

Definition exec_store {A} (c : store_call A) (e : Env) (s : FileStore) : FileStore * result string A :=
  match c in store_call A return FileStore * result string A with
  | CListIngress => (s, ListIngress e s)
  | CListIngressByProject projectID => (s, ListIngressByProject e projectID s)
  | CGetIngress id => (s, GetIngress e id s)
  | CUpsertIngress i => UpsertIngress e i s
  | CDeleteIngress id => DeleteIngress e id s
  | CSaveState st => SaveState e st s
  | CGetState id => (s, GetState e id s)
  | CListStates => (s, ListStates e s)
  | CListDNSProviders => (s, ListDNSProviders e s)
  | CGetDNSProvider id => (s, GetDNSProvider e id s)
  | CUpsertDNSProvider c => UpsertDNSProvider e c s
  | CDeleteDNSProvider id => DeleteDNSProvider e id s
  | CListCertificates => (s, ListCertificates e s)
  | CGetCertificate id => (s, GetCertificate e id s)
  | CUpsertCertificate c => UpsertCertificate e c s
  | CDeleteCertificate id => DeleteCertificate e id s
  | CGetACMEAccount => (s, GetACMEAccount e s)
  | CSaveACMEAccount a => SaveACMEAccount e a s
  end.
