(* ===== verification/IngressStoreTheorems.v ===== *)
(** * Public entries: what the files hold

    The store of declarations and certificates as maps by identifier, the scope of a project in its
    handlers, and what is never shown. *)
From stdpp Require Import base strings gmap list.
From Stdlib Require Import ZArith Lia.
From S2P Require Import Prelude Model Ingress IngressStore.
Local Open Scope string_scope.

(** ** Lists with keys *)

Section Keys.
Context {A : Type} (key : A -> string).

Definition by_key (l : list A) : gmap string A := list_to_map ((fun x => (key x, x)) <$> l).

Lemma lookup_by_key l id : by_key l !! id = find_key key id l.
Proof.
  induction l as [|x l IH]; [done|]. unfold by_key, find_key in *. simpl.
  destruct (String.eqb_spec (key x) id) as [->|Hne].
  - by rewrite lookup_insert_eq.
  - by rewrite lookup_insert_ne.
Qed.

Lemma find_key_spec id l x : find_key key id l = Some x -> x ∈ l /\ key x = id.
Proof.
  unfold find_key. intros [Hx E]%List.find_some. split; [by apply list_elem_of_In|by apply String.eqb_eq].
Qed.

Lemma by_key_put f x id l :
  (forall y, key y = id -> key (f y) = id) -> key x = id ->
  by_key (put_key key f x id l) =
    <[id := match find_key key id l with Some y => f y | None => x end]> (by_key l).
Proof.
  intros Hf Hx. apply map_eq. intros id'. rewrite lookup_by_key, lookup_insert, lookup_by_key.
  induction l as [|y l IH]; simpl.
  - unfold find_key. simpl. rewrite Hx. destruct (String.eqb_spec id id') as [->|Hne];
      [by rewrite decide_True|by rewrite decide_False].
  - unfold find_key in *. simpl. destruct (String.eqb_spec (key y) id) as [E|E]; simpl.
    + rewrite (Hf y E), E. destruct (String.eqb_spec id id') as [->|Hne];
        [by rewrite decide_True|by rewrite decide_False].
    + destruct (String.eqb_spec (key y) id') as [<-|Hne]; [by rewrite decide_False|]. apply IH.
Qed.

Lemma by_key_drop id l : by_key (drop_key key id l) = delete id (by_key l).
Proof.
  apply map_eq. intros id'. rewrite lookup_by_key, lookup_delete, lookup_by_key.
  induction l as [|y l IH]; simpl; [by destruct (decide (id = id'))|].
  unfold find_key, drop_key in *. simpl. destruct (String.eqb_spec (key y) id) as [<-|E]; simpl.
  - rewrite IH. destruct (String.eqb_spec (key y) id') as [<-|Hne]; [by rewrite !decide_True|done].
  - destruct (String.eqb_spec (key y) id') as [<-|Hne]; [by rewrite decide_False|]. apply IH.
Qed.

Lemma find_key_fresh id l : find_key key id l = None -> id ∉ (key <$> l).
Proof.
  intros H (x & -> & Hx)%list_elem_of_fmap. unfold find_key in H.
  eapply List.find_none in H; [|by apply list_elem_of_In]. by rewrite String.eqb_refl in H.
Qed.

Lemma keys_put f x id l :
  (forall y, key y = id -> key (f y) = id) -> key x = id ->
  key <$> put_key key f x id l =
    ((key <$> l) ++ match find_key key id l with Some _ => [] | None => [id] end)%list.
Proof.
  intros Hf Hx. unfold find_key. induction l as [|y l IH]; simpl; [by rewrite Hx|].
  destruct (String.eqb_spec (key y) id) as [E|E]; simpl.
  - by rewrite (Hf y E), E, app_nil_r.
  - f_equal. exact IH.
Qed.

Lemma NoDup_put f x id l :
  (forall y, key y = id -> key (f y) = id) -> key x = id ->
  NoDup (key <$> l) -> NoDup (key <$> put_key key f x id l).
Proof.
  intros Hf Hx Hl. rewrite keys_put by done.
  destruct (find_key key id l) eqn:E; [by rewrite app_nil_r|]. apply NoDup_app. split_and!; [done| |].
  - intros k Hk ->%list_elem_of_singleton. by eapply find_key_fresh.
  - by apply NoDup_singleton.
Qed.

Lemma NoDup_keys_filter (p : A -> bool) l : NoDup (key <$> l) -> NoDup (key <$> List.filter p l).
Proof.
  induction l as [|x l IH]; simpl; [done|]. intros [Hx Hl]%NoDup_cons.
  destruct (p x); simpl; [|by apply IH]. apply NoDup_cons. split; [|by apply IH].
  intros (y & E & [Hy _]%list_elem_of_In%List.filter_In)%list_elem_of_fmap. apply Hx. rewrite E.
  by apply list_elem_of_fmap_2, list_elem_of_In.
Qed.

(** The elements of the list are the entries of the map, each once. *)
Definition lists (l : list A) (m : gmap string A) : Prop := by_key l = m /\ NoDup (key <$> l).

Lemma lists_filter (P : A -> Prop) `{!forall x, Decision (P x)} (p : A -> bool) l m :
  (forall x, p x = true <-> P x) -> lists l m ->
  lists (List.filter p l) (filter (fun kx => P kx.2) m).
Proof.
  intros Hp [<- Hl]. split; [|by apply NoDup_keys_filter].
  induction l as [|x l IH]; simpl; [symmetry; apply (map_filter_empty (fun kx : string * A => P kx.2))|].
  apply NoDup_cons in Hl as [Hx Hl]. unfold by_key in *. simpl.
  assert (list_to_map (M := gmap string A) ((fun x => (key x, x)) <$> l) !! key x = None) as Hn.
  { apply not_elem_of_list_to_map_1. rewrite <-list_fmap_compose. by unfold compose; simpl. }
  destruct (p x) eqn:E.
  - rewrite map_filter_insert_True by (simpl; by apply Hp). simpl. f_equal. exact (IH Hl).
  - rewrite map_filter_insert_False by (simpl; rewrite <-Hp; congruence).
    rewrite delete_id by done. exact (IH Hl).
Qed.

Lemma lists_fmap (f : A -> A) l m : (forall x, key (f x) = key x) -> lists l m -> lists (f <$> l) (f <$> m).
Proof.
  intros Hf [<- Hl]. split.
  - unfold by_key. induction l as [|x l IH]; simpl; [by rewrite fmap_empty|].
    rewrite fmap_insert, Hf. f_equal. apply IH. by apply NoDup_cons in Hl as [].
  - rewrite <-list_fmap_compose. erewrite list_fmap_ext; [exact Hl|]. intros i x _. apply Hf.
Qed.
End Keys.

(** ** The store as maps *)

(** What a file holds, if it can be parsed. *)
Definition holds {S} (zero : S) (f : file S) : option S :=
  match f with Missing => Some zero | Content st => Some st | Empty | Corrupt => None end.

Definition declarations (s : FileStore) : option (gmap string Ingress) :=
  (fun d => by_key ing_ID (fsd_Ingresses d)) <$> holds (mkFileStoreData [] []) (fs_ingress s).
Definition states (s : FileStore) : option (gmap string AppliedState) :=
  (fun d => by_key as_IngressID (fsd_States d)) <$> holds (mkFileStoreData [] []) (fs_ingress s).
Definition providers (s : FileStore) : option (gmap string DNSProviderConfig) :=
  by_key dp_ID <$> holds [] (fs_providers s).
Definition certificates (s : FileStore) : option (gmap string ManagedCertificate) :=
  (fun d => by_key mc_ID (csd_Certificates d)) <$> holds (mkCertStoreData no_account []) (fs_certs s).
Definition account (s : FileStore) : option ACMEAccount :=
  csd_Account <$> holds (mkCertStoreData no_account []) (fs_certs s).

(** The abstract store. *)
Record IngressSpec : Type := mkSpec {
  sp_declarations : gmap string Ingress;
  sp_states : gmap string AppliedState;
  sp_providers : gmap string DNSProviderConfig;
  sp_certificates : gmap string ManagedCertificate;
  sp_account : ACMEAccount;
}.

(** No two entries of a list have one identifier. *)
Definition distinct (s : FileStore) : Prop :=
  (forall d, holds (mkFileStoreData [] []) (fs_ingress s) = Some d ->
     NoDup (ing_ID <$> fsd_Ingresses d) /\ NoDup (as_IngressID <$> fsd_States d)) /\
  (forall p, holds [] (fs_providers s) = Some p -> NoDup (dp_ID <$> p)) /\
  (forall c, holds (mkCertStoreData no_account []) (fs_certs s) = Some c ->
     NoDup (mc_ID <$> csd_Certificates c)).

Definition shows (s : FileStore) (a : IngressSpec) : Prop :=
  declarations s = Some (sp_declarations a) /\ states s = Some (sp_states a) /\
  providers s = Some (sp_providers a) /\ certificates s = Some (sp_certificates a) /\
  account s = Some (sp_account a) /\ distinct s.

Definition on_declarations (f : gmap string Ingress -> gmap string Ingress) (a : IngressSpec) : IngressSpec :=
  mkSpec (f (sp_declarations a)) (sp_states a) (sp_providers a) (sp_certificates a) (sp_account a).
Definition on_states (f : gmap string AppliedState -> gmap string AppliedState) (a : IngressSpec) : IngressSpec :=
  mkSpec (sp_declarations a) (f (sp_states a)) (sp_providers a) (sp_certificates a) (sp_account a).
Definition on_providers (f : gmap string DNSProviderConfig -> gmap string DNSProviderConfig) (a : IngressSpec)
    : IngressSpec :=
  mkSpec (sp_declarations a) (sp_states a) (f (sp_providers a)) (sp_certificates a) (sp_account a).
Definition on_certificates (f : gmap string ManagedCertificate -> gmap string ManagedCertificate) (a : IngressSpec)
    : IngressSpec :=
  mkSpec (sp_declarations a) (sp_states a) (sp_providers a) (f (sp_certificates a)) (sp_account a).
Definition with_account (x : ACMEAccount) (a : IngressSpec) : IngressSpec :=
  mkSpec (sp_declarations a) (sp_states a) (sp_providers a) (sp_certificates a) x.

(** An identifier that was not given is drawn. *)
Definition id_or_new (e : Env) (id : string) : string := if id =? "" then en_id e else id.

(** The time of creation: now for a new identifier, the given one, or that of the entry before. *)
Definition creation (e : Env) (id : string) (own : time) (old : option time) (fallback : time) : time :=
  if id =? "" then created_at (en_now e) (default 0%Z old)
  else match old with Some t => created_at own t | None => fallback end.

Definition saved_ingress (e : Env) (i : Ingress) (m : gmap string Ingress) : Ingress :=
  let id := id_or_new e (ing_ID i) in
  with_identity id (creation e (ing_ID i) (ing_CreatedAt i) (ing_CreatedAt <$> m !! id) (ing_CreatedAt i)) (en_now e) i.
Definition saved_certificate (e : Env) (c : ManagedCertificate) (m : gmap string ManagedCertificate)
    : ManagedCertificate :=
  let id := id_or_new e (mc_ID c) in
  with_cert_identity id (creation e (mc_ID c) (mc_CreatedAt c) (mc_CreatedAt <$> m !! id)
    (created_at (mc_CreatedAt c) (en_now e))) (en_now e) c.
Definition saved_provider (e : Env) (c : DNSProviderConfig) (m : gmap string DNSProviderConfig) : DNSProviderConfig :=
  let id := id_or_new e (dp_ID c) in
  with_provider_id id (match m !! id with
    | Some old => if bool_decide (dp_Secrets c = ∅) then dp_Secrets old else dp_Secrets c
    | None => dp_Secrets c
    end) c.

(** What each method promises of the store and of what it returns.  The order of a list is not
    promised; a list of certificates shows them without their private keys. *)
Definition spec_step {A} (c : store_call A) (e : Env) (a : IngressSpec) : IngressSpec * (A -> Prop) :=
  match c in store_call A return IngressSpec * (A -> Prop) with
  | CListIngress => (a, fun l => lists ing_ID l (sp_declarations a))
  | CListIngressByProject projectID =>
      (a, fun l => lists ing_ID l (filter (fun kx => ing_ProjectID kx.2 = projectID) (sp_declarations a)))
  | CListStates => (a, fun l => lists as_IngressID l (sp_states a))
  | CListDNSProviders => (a, fun l => lists dp_ID l (sp_providers a))
  | CListCertificates => (a, fun l => lists mc_ID l (redactCertificateMaterial <$> sp_certificates a))
  | CGetIngress id => (a, eq (sp_declarations a !! id))
  | CUpsertIngress i =>
      let i' := saved_ingress e i (sp_declarations a) in (on_declarations <[ing_ID i' := i']> a, eq i')
  | CDeleteIngress id => (on_declarations (delete id) a, eq tt)
  | CSaveState st => (on_states <[as_IngressID st := with_updated (en_now e) st]> a, eq tt)
  | CGetState id => (a, eq (sp_states a !! id))
  | CGetDNSProvider id => (a, eq (sp_providers a !! id))
  | CUpsertDNSProvider c =>
      let c' := saved_provider e c (sp_providers a) in (on_providers <[dp_ID c' := c']> a, eq c')
  | CDeleteDNSProvider id => (on_providers (delete id) a, eq tt)
  | CGetCertificate id => (a, eq (sp_certificates a !! id))
  | CUpsertCertificate c =>
      let c' := saved_certificate e c (sp_certificates a) in (on_certificates <[mc_ID c' := c']> a, eq c')
  | CDeleteCertificate id => (on_certificates (delete id) a, eq tt)
  | CGetACMEAccount => (a, eq (sp_account a))
  | CSaveACMEAccount x =>
      (with_account {| acc_Email := acc_Email x; acc_DirectoryURL := acc_DirectoryURL x;
                       acc_UpdatedAt := en_now e |} a, eq tt)
  end.

(** An environment without errors of files. *)
Definition healthy (e : Env) : Prop := en_read e = true /\ en_write e = Written.

Lemma load_holds {S} (zero : S) e f st : healthy e -> holds zero f = Some st -> load_file zero e f = Ok st.
Proof. intros [Hr _]. unfold load_file. destruct f; simpl; try done; intros [= ->]; by rewrite ?Hr. Qed.

(** ** What is never shown *)

(** A certificate of a list has no private key. *)
Lemma ListCertificates_redacted e s l c m :
  ListCertificates e s = Ok l -> c ∈ l -> mc_Material c = Some m -> crt_KeyPEM m = "".
Proof.
  unfold ListCertificates, reading, map_result. destruct (loadCertData e s) as [d|]; simpl; [|done].
  intros [= <-] (c0 & -> & _)%list_elem_of_fmap. simpl. by destruct (mc_Material c0) as [m0|]; simpl; intros [= <-].
Qed.

(** What the files hold, as the abstract store. *)
Lemma shows_inv s a :
  shows s a ->
  exists d p c,
    holds (mkFileStoreData [] []) (fs_ingress s) = Some d /\ holds [] (fs_providers s) = Some p /\
    holds (mkCertStoreData no_account []) (fs_certs s) = Some c /\
    lists ing_ID (fsd_Ingresses d) (sp_declarations a) /\
    lists as_IngressID (fsd_States d) (sp_states a) /\ lists dp_ID p (sp_providers a) /\
    lists mc_ID (csd_Certificates c) (sp_certificates a) /\ csd_Account c = sp_account a.
Proof.
  intros (H1 & H2 & H3 & H4 & H5 & D1 & D2 & D3).
  unfold declarations, states, providers, certificates, account in *.
  apply fmap_Some in H1 as (d & Hd & H1). rewrite Hd in H2. injection H2 as H2.
  apply fmap_Some in H3 as (p & Hp & H3). apply fmap_Some in H4 as (c & Hc & H4). rewrite Hc in H5.
  injection H5 as H5. destruct (D1 d Hd), a. exists d, p, c. simpl in *. subst.
  split_and!; try done; (split; [done|auto]).
Qed.

Lemma shows_intro s d p c a :
  holds (mkFileStoreData [] []) (fs_ingress s) = Some d -> holds [] (fs_providers s) = Some p ->
  holds (mkCertStoreData no_account []) (fs_certs s) = Some c ->
  lists ing_ID (fsd_Ingresses d) (sp_declarations a) ->
  lists as_IngressID (fsd_States d) (sp_states a) -> lists dp_ID p (sp_providers a) ->
  lists mc_ID (csd_Certificates c) (sp_certificates a) -> csd_Account c = sp_account a ->
  shows s a.
Proof.
  intros Hd Hp Hc [L1 N1] [L2 N2] [L3 N3] [L4 N4] L5.
  unfold shows, distinct, declarations, states, providers, certificates, account.
  rewrite Hd, Hp, Hc. simpl. rewrite L1, L2, L3, L4, L5.
  split_and!; [done..| | |]; by intros ? [= <-].
Qed.

Section Healthy.
Context (e : Env) (Hh : healthy e).

Lemma saveData_healthy {A} d (x : A) s :
  saveData e d x s = (mkFileStore (Content d) (fs_providers s) (fs_certs s), Ok x).
Proof using Hh. unfold saveData. destruct Hh as [_ ->]. done. Qed.
Lemma saveProviderData_healthy {A} d (x : A) s :
  saveProviderData e d x s = (mkFileStore (fs_ingress s) (Content d) (fs_certs s), Ok x).
Proof using Hh. unfold saveProviderData. destruct Hh as [_ ->]. done. Qed.
Lemma saveCertData_healthy {A} d (x : A) s :
  saveCertData e d x s = (mkFileStore (fs_ingress s) (fs_providers s) (Content d), Ok x).
Proof using Hh. unfold saveCertData. destruct Hh as [_ ->]. done. Qed.
End Healthy.

(** The entry that an upsert leaves, and the list around it. *)
Lemma put_saved {A} (key : A -> string) (l : list A) m f x (y : A) id :
  lists key l m ->
  y = match find_key key id l with Some z => f z | None => x end -> key y = id ->
  (forall z, key (f z) = id) -> key x = id ->
  lists key (put_key key f x id l) (<[key y := y]> m).
Proof.
  intros [<- Hl] -> Hy Hf Hx. split; [|by apply NoDup_put].
  rewrite by_key_put; [by rewrite Hy|by intros ? _|done].
Qed.

Lemma drop_lists {A} (key : A -> string) (l : list A) m id :
  lists key l m -> lists key (drop_key key id l) (delete id m).
Proof. intros [<- Hl]. split; [apply by_key_drop|by apply NoDup_keys_filter]. Qed.

Lemma lists_lookup {A} (key : A -> string) (l : list A) m id :
  lists key l m -> m !! id = find_key key id l.
Proof. intros [<- _]. apply lookup_by_key. Qed.

(** The entry that each upsert returns is the one that is saved. *)
Lemma created_at_now now old : created_at now old = if time_is_zero now then old else now.
Proof. done. Qed.

Lemma creation_cases e id own old fallback :
  creation e id own old fallback =
    if id =? "" then created_at (en_now e) (default 0%Z old)
    else match old with Some t => created_at own t | None => fallback end.
Proof. done. Qed.

Lemma created_zero now : created_at now 0 = now.
Proof. unfold created_at, time_is_zero. by destruct (Z.eqb_spec now 0) as [->|]. Qed.
Lemma created_same now : created_at now now = now.
Proof. unfold created_at. by destruct (time_is_zero now). Qed.

Lemma saved_ingress_spec e i l m :
  lists ing_ID l m ->
  let i0 := if ing_ID i =? "" then with_identity (en_id e) (en_now e) (en_now e) i
            else with_identity (ing_ID i) (ing_CreatedAt i) (en_now e) i in
  let f y := with_identity (ing_ID i0) (created_at (ing_CreatedAt i0) (ing_CreatedAt y)) (en_now e) i0 in
  let i' := match find_key ing_ID (ing_ID i0) l with Some y => f y | None => i0 end in
  i' = saved_ingress e i m /\
  lists ing_ID (put_key ing_ID f i0 (ing_ID i0) l) (<[ing_ID i' := i']> m).
Proof.
  intros Hl i0 f i'. assert (ing_ID i' = ing_ID i0) as Ei by (unfold i'; by destruct (find_key _ _ _)).
  split; [|by apply put_saved].
  unfold i', f, i0, saved_ingress, id_or_new. rewrite creation_cases, (lists_lookup _ _ _ _ Hl).
  destruct (ing_ID i =? ""); cbn [ing_ID with_identity]; destruct (find_key _ _ _); simpl; try done.
  by rewrite created_zero.
Qed.

Lemma saved_certificate_spec e c l m :
  lists mc_ID l m ->
  let c0 := if mc_ID c =? "" then with_cert_identity (en_id e) (en_now e) (en_now e) c
            else with_cert_identity (mc_ID c) (mc_CreatedAt c) (en_now e) c in
  let f y := with_cert_identity (mc_ID c0) (created_at (mc_CreatedAt c0) (mc_CreatedAt y)) (en_now e) c0 in
  let fresh := with_cert_identity (mc_ID c0) (created_at (mc_CreatedAt c0) (en_now e)) (en_now e) c0 in
  let c' := match find_key mc_ID (mc_ID c0) l with Some y => f y | None => fresh end in
  c' = saved_certificate e c m /\
  lists mc_ID (put_key mc_ID f fresh (mc_ID c0) l) (<[mc_ID c' := c']> m).
Proof.
  intros Hl c0 f fresh c'. assert (mc_ID c' = mc_ID c0) as Ei by (unfold c'; by destruct (find_key _ _ _)).
  split; [|by apply put_saved].
  unfold c', f, fresh, c0, saved_certificate, id_or_new. rewrite creation_cases, (lists_lookup _ _ _ _ Hl).
  destruct (mc_ID c =? ""); cbn [mc_ID with_cert_identity]; destruct (find_key _ _ _); simpl; try done.
  by rewrite created_zero, created_same.
Qed.

Lemma saved_provider_spec e p l m :
  lists dp_ID l m ->
  let p0 := with_provider_id (if dp_ID p =? "" then en_id e else dp_ID p) (dp_Secrets p) p in
  let f y := with_provider_id (dp_ID p0)
    (if bool_decide (dp_Secrets p0 = ∅) then dp_Secrets y else dp_Secrets p0) p0 in
  let p' := match find_key dp_ID (dp_ID p0) l with Some y => f y | None => p0 end in
  p' = saved_provider e p m /\
  lists dp_ID (put_key dp_ID f p0 (dp_ID p0) l) (<[dp_ID p' := p']> m).
Proof.
  intros Hl p0 f p'. assert (dp_ID p' = dp_ID p0) as Ei by (unfold p'; by destruct (find_key _ _ _)).
  split; [|by apply put_saved].
  unfold p', f, p0, saved_provider, id_or_new. rewrite (lists_lookup _ _ _ _ Hl). cbn [dp_ID with_provider_id].
  by destruct (find_key _ _ _).
Qed.

Lemma saved_state_spec now st l m :
  lists as_IngressID l m ->
  let st' := with_updated now st in
  lists as_IngressID (put_key as_IngressID (fun _ => st') st' (as_IngressID st') l)
    (<[as_IngressID st := st']> m).
Proof.
  intros Hl st'. change (as_IngressID st) with (as_IngressID st').
  eapply put_saved; [done|by destruct (find_key _ _ _)|done..].
Qed.

(** A call in a healthy environment does what the specification says. *)
Lemma exec_store_spec {A} (c : store_call A) e s a :
  healthy e -> shows s a ->
  exists s' x, exec_store c e s = (s', Ok x) /\ shows s' (spec_step c e a).1 /\ (spec_step c e a).2 x.
Proof.
  intros Hh Hs. destruct (shows_inv s a Hs) as (d & p & t & Hd & Hp & Ht & L1 & L2 & L3 & L4 & L5).
  pose proof (load_holds _ e _ _ Hh Hd) as Ld. pose proof (load_holds _ e _ _ Hh Hp) as Lp.
  pose proof (load_holds _ e _ _ Hh Ht) as Lt.
  destruct c as [|pid|id|i|id|st|id| | |id|q|id| |id|ct|id| |x]; cbn [exec_store spec_step fst snd];
    unfold ListIngressByProject, ListIngress, GetIngress, UpsertIngress, DeleteIngress, SaveState,
      GetState, ListStates, ListDNSProviders, GetDNSProvider,
      UpsertDNSProvider, DeleteDNSProvider, ListCertificates, GetCertificate, UpsertCertificate,
      DeleteCertificate, GetACMEAccount, SaveACMEAccount, loadData, loadProviderData, loadCertData;
    rewrite ?Ld, ?Lp, ?Lt; cbn [updating reading map_result rbind];
    rewrite ?saveData_healthy, ?saveProviderData_healthy, ?saveCertData_healthy by done;
    eexists _, _; (split; [reflexivity|]).
  all: try (split; [exact Hs|first [exact L1|exact L2|exact L3|exact L5
    |by apply lists_lookup|by symmetry|by apply lists_fmap
    |refine (lists_filter ing_ID (fun i => ing_ProjectID i = pid) _ _ _ _ L1);
      intros; apply String.eqb_eq]]).
  all: unfold on_declarations, on_states, on_providers, on_certificates, with_account;
    cbn -[by_key put_key with_updated lists].
  all: try destruct (saved_ingress_spec e i _ _ L1) as [E1 E2].
  all: try destruct (saved_provider_spec e q _ _ L3) as [E1 E2].
  all: try destruct (saved_certificate_spec e ct _ _ L4) as [E1 E2].
  all: split; [|first [exact (eq_sym E1)|done]].
  all: first [eapply shows_intro; [reflexivity|exact Hp|exact Ht|..]
             |eapply shows_intro; [exact Hd|reflexivity|exact Ht|..]
             |eapply shows_intro; [exact Hd|exact Hp|reflexivity|..]];
    cbn -[by_key put_key with_updated lists]; try done; try (by apply drop_lists);
    try (by apply saved_state_spec).
  all: rewrite E1 in E2; exact E2.
Qed.

(** ** Errors of files *)

Definition heal (e : Env) : Env := mkEnv (en_now e) (en_id e) true Written.

Lemma heal_healthy e : healthy (heal e).
Proof. done. Qed.

Lemma spec_heal {A} (c : store_call A) e a : spec_step c (heal e) a = spec_step c e a.
Proof. by destruct c. Qed.

(** A call whose write does not tear behaves as in a healthy environment, or fails and leaves the
    files alone, or fails after it has written them. *)
Lemma exec_outcomes {A} (c : store_call A) e s :
  en_write e <> Torn ->
  exec_store c e s = exec_store c (heal e) s \/
  (exists msg, exec_store c e s = (s, Err msg)) \/
  (exists msg, exec_store c e s = ((exec_store c (heal e) s).1, Err msg)).
Proof.
  intros Ht.
  destruct c as [|pid|id|i|id|st|id| | |id|q|id| |id|ct|id| |x]; cbn [exec_store];
    unfold ListIngressByProject, ListStates, ListDNSProviders, ListIngress, GetIngress, UpsertIngress, DeleteIngress, SaveState, GetState, GetDNSProvider,
      UpsertDNSProvider, DeleteDNSProvider, ListCertificates, GetCertificate, UpsertCertificate,
      DeleteCertificate, GetACMEAccount, SaveACMEAccount, loadData, loadProviderData, loadCertData,
      load_file, saveData, saveProviderData, saveCertData.
  all: destruct s as [fi fp fc]; cbn [fs_ingress fs_providers fs_certs heal en_read en_now en_id en_write].
  all: try destruct fi; try destruct fp; try destruct fc; cbn [updating reading map_result rbind].
  all: try (left; reflexivity).
  all: destruct (en_read e); cbn [updating reading map_result rbind]; try (right; left; by eexists).
  all: try (left; reflexivity).
  all: destruct (en_write e); [left; reflexivity|right; left; by eexists|done|right; right; by eexists].
Qed.

(** C27: the three files, when they parse and no list in them has an identifier twice (which every
    method keeps so), implement four maps and the ACME account: every method of the store does to
    them what [spec_step] says. Reading is a lookup by identifier, and a list holds every entry once (those of
    the project that is asked for; certificates without their private keys). Saving is an insertion
    under an identifier, which a new entry is given and an old one keeps, together with its time of
    creation if the caller brings none and, for a provider that is saved without them, its secrets.
    Deleting is a deletion, and nothing else changes. A method that returns an error, of reading or
    of a write that does not tear the file, has done nothing, or all that it was to do. *)
Theorem ingress_store_refines_maps {A} (c : store_call A) e s a s' r :
  en_write e <> Torn -> shows s a -> exec_store c e s = (s', r) ->
  match r with
  | Ok x => shows s' (spec_step c e a).1 /\ (spec_step c e a).2 x
  | Err _ => shows s' a \/ shows s' (spec_step c e a).1
  end.
Proof.
  intros Ht Hs Hx. destruct (exec_store_spec c (heal e) s a (heal_healthy e) Hs) as (s1 & x & E & H1 & H2).
  rewrite spec_heal in H1, H2. destruct (exec_outcomes c e s Ht) as [H|[[msg H]|[msg H]]]; rewrite H in Hx.
  - rewrite E in Hx. by injection Hx as <- <-.
  - injection Hx as <- <-. by left.
  - rewrite E in Hx. injection Hx as <- <-. by right.
Qed.

Definition example_store : FileStore :=
  {| fs_ingress := Missing; fs_providers := Missing;
     fs_certs := Content (mkCertStoreData no_account [mkManagedCertificate "c" ["a.dev"] CertificateIssuerACME "cf"
       CertActive None [] "" true 1 1]) |}.
Definition example_spec : IngressSpec :=
  mkSpec ∅ ∅ ∅ {["c" := mkManagedCertificate "c" ["a.dev"] CertificateIssuerACME "cf" CertActive None [] "" true 1 1]}
    no_account.

(** Deleting a certificate, and an upsert after which the write reports an error. *)
Lemma ingress_store_refines_maps_witness :
  shows example_store example_spec /\
  shows (exec_store (CDeleteCertificate "c") (mkEnv 7 "new" true Written) example_store).1
    (on_certificates (delete "c") example_spec) /\
  (let i := mkIngress "" "p" "" "a.dev" (mkSourceHint "" "" "" "") (mkProxyConfig "" []) []
              (mkProxyOptions false 0 [] "") (mkTLSConfig false "") (mkDNSConfig "" []) 0 0 in
   let e := mkEnv 7 "new" true ChmodFailed in
   let s := (exec_store (CUpsertIngress i) e example_store).1 in
   shows s example_spec \/ shows s (spec_step (CUpsertIngress i) e example_spec).1).
Proof.
  assert (shows example_store example_spec) as Hs.
  { eapply shows_intro; [done|done|done|..|done]; (split; [by vm_compute|repeat constructor; set_solver]). }
  split; [exact Hs|]. split.
  - exact (proj1 (ingress_store_refines_maps (CDeleteCertificate "c") (mkEnv 7 "new" true Written)
      example_store example_spec _ (Ok tt) ltac:(discriminate) Hs eq_refl)).
  - intros i e s. exact (ingress_store_refines_maps (CUpsertIngress i) e
      example_store example_spec s (Err ErrStoreWrite) ltac:(discriminate) Hs eq_refl).
Defined.
