(* ===== verification/IngressService.v ===== *)
(** * Public entries: putting a declaration in place (agent/ingress/service.go)

    The service owns no state. Each of its methods is a program that calls the store, the lookup of
    hosts, and the DNS, proxy and certificate providers, which act between two of its calls; a
    provider is known by its name in the registry. The store and the registry are given, so the checks that
    they are there are left out; a result is a value or an error, never both. *)
From stdpp Require Import base strings gmap list.
From Stdlib Require Import ZArith Lia.
From S2P Require Import Prelude Programs Model Ingress IngressStore.
Local Open Scope string_scope.

(** ** Calls *)

Inductive action : Type :=
| AStore {A : Type} (c : store_call A)
| AHosts (ids : list string)
| ANow
| ADNS (name : string)
| AProxy (name : string)
| ACert (name : string)
| AEnsureRecord (dns : string) (r : DnsRecord)
| AListRecords (dns domain : string)
| ARemoveRecord (dns : string) (r : DnsRecord)
| ARender (proxy : string) (i : Ingress) (cert : option Certificate)
| AApplyProxy (proxy : string) (host : Host) (cfg : RenderedConfig)
| ADetect (proxy : string) (host : Host) (declared : list Ingress)
| ARemoveConfig (proxy : string) (host : Host) (orphan : OrphanConfig)
| AObtain (cert : string) (domains : list string) (dns : string)
| ARenew (cert : string) (old : Certificate) (domains : list string) (dns : string)
| ADeploy (host : Host) (material : Certificate) (r : CertificateDeploymentRequest).

Abbreviation res := (result string).

Definition answer (a : action) : Type :=
  match a with
  | @AStore A _ => res A
  | AHosts _ => res (list Host)
  | ANow => time
  | ADNS _ | AProxy _ | ACert _ | ARemoveRecord _ _ | ARemoveConfig _ _ _ => res unit
  | AEnsureRecord _ _ => res RecordResult
  | AListRecords _ _ => res (list DnsRecord)
  | ARender _ _ _ => res RenderedConfig
  | AApplyProxy _ _ _ => res HostState
  | ADetect _ _ _ => res (list OrphanConfig)
  | AObtain _ _ _ | ARenew _ _ _ _ => res Certificate
  | ADeploy _ _ _ => res CertDeployment
  end.

Abbreviation prog := (@Programs.prog action answer).
Abbreviation event := (@Programs.event action answer).
Abbreviation trace := (list event).

Definition ask (a : action) : prog (answer a) := @Programs.call action answer a.
Definition store {A} (c : store_call A) : prog (res A) := ask (AStore c).

(** [if err != nil { return ..., err }] *)
Definition try_prog {A B} (p : prog (res A)) (k : A -> prog (res B)) : prog (res B) :=
  bind p (fun r => match r with Ok x => k x | Err e => Done (Err e) end).
Definition fails {A} (e : string) : prog (res A) := Done (Err e).
Definition returns {A} (x : A) : prog (res A) := Done (Ok x).

Declare Scope ingress_scope.
Notation "'try!' x ':=' p 'in' k" := (try_prog p (fun x => k))
  (at level 10, x pattern, p at level 100, k at level 200) : ingress_scope.
Local Open Scope ingress_scope.

(** A call for each element, in order, until one fails. *)
Fixpoint for_each {A B} (f : A -> prog (res B)) (l : list A) : prog (res (list B)) :=
  match l with
  | [] => returns []
  | x :: l => try! y := f x in try! ys := for_each f l in returns (y :: ys)
  end.

Section Service.
Context `{IpText}.

Definition loadIngress (id : string) : prog (res Ingress) :=
  try! found := store (CGetIngress id) in
  match found with
  | None => fails ("ingress " ++ id ++ " not found")
  | Some i => returns i
  end.

(** ** Preview *)

Record PreviewResult : Type := mkPreviewResult {
  pv_Ingress : Ingress;
  pv_DNSRecord : option DnsRecord;
  pv_DNSRecords : list DnsRecord;
  pv_DNSValueDecision : DNSValueDecision;
  pv_RenderedConfigByHost : gmap string string;
  pv_ManualInstructions : list string;
}.

Definition not_ready (d : DNSValueDecision) : string := "dns record value is not ready: " ++ dv_Message d.

Definition Preview (i : Ingress) : prog (res PreviewResult) :=
  match Ingress_Validate i with
  | Some e => fails e
  | None =>
  try! hosts := ask (AHosts (px_HostIDs (ing_Proxy i))) in
  match resolveDNSRecords i hosts with
  | Err d => fails (not_ready d)
  | Ok (records, decision) =>
  let i := with_records records i in
  let dns := dns_Provider (ing_DNS i) in
  try! instructions :=
    (if dns =? ProviderManual then
       try! _ := ask (ADNS dns) in
       try! results := for_each (fun r => ask (AEnsureRecord dns r)) records in
       returns (concat (rr_Instructions <$> results))
     else returns []) in
  let proxy := px_Provider (ing_Proxy i) in
  try! _ := ask (AProxy proxy) in
  try! rendered := ask (ARender proxy i None) in
  returns {| pv_Ingress := i; pv_DNSRecord := head records; pv_DNSRecords := records;
             pv_DNSValueDecision := decision;
             pv_RenderedConfigByHost :=
               foldl (fun m h => <[hst_ID h := rc_Content rendered]> m) ∅ hosts;
             pv_ManualInstructions := instructions |}
  end end.

(** ** Apply *)

Definition certificate_not_ready (id : string) : string := "证书 " ++ id ++ " 尚未就绪，请先在 SSL 管理页申请".

(** The certificate that the entry uses: its material and its record. *)
Definition load_tls (i : Ingress) : prog (res (option (Certificate * ManagedCertificate))) :=
  if tls_Enabled (ing_TLS i) then
    let id := tls_CertID (ing_TLS i) in
    if blank id then fails "tls.cert_id is required"
    else
      try! found := store (CGetCertificate id) in
      match found with
      | None => fails ("certificate " ++ id ++ " not found")
      | Some managed =>
          match mc_Material managed with
          | Some material =>
              if negb (mc_Status managed =? CertActive) then fails (certificate_not_ready id)
              else returns (Some (material, managed))
          | None => fails (certificate_not_ready id)
          end
      end
  else returns None.

Definition ingress_source : string := "ingress".

(** The deployments of the certificate after the hosts have been configured. *)
Fixpoint note_deployments (ingressID : string) (states : list HostState) (m : gmap string CertDeployment)
    : prog (gmap string CertDeployment) :=
  match states with
  | [] => Done m
  | hs :: states =>
      match hs_CertDeployment hs with
      | Some d =>
          bind (if time_is_zero (cd_DeployedAt d) then ask ANow else Done (cd_DeployedAt d)) (fun at_ =>
            note_deployments ingressID states (<[hs_HostID hs :=
              {| cd_HostID := hs_HostID hs; cd_CertPath := cd_CertPath d; cd_KeyPath := cd_KeyPath d;
                 cd_PostDeployCommand := cd_PostDeployCommand d; cd_SourceType := ingress_source;
                 cd_SourceID := ingressID; cd_Status := CertDeploymentSucceeded; cd_LastError := "";
                 cd_DeployedAt := at_ |}]> m))
      | None =>
          match hs_CertPaths hs with
          | cert :: key :: _ =>
              bind (ask ANow) (fun at_ => note_deployments ingressID states (<[hs_HostID hs :=
                {| cd_HostID := hs_HostID hs; cd_CertPath := cert; cd_KeyPath := key;
                   cd_PostDeployCommand := ""; cd_SourceType := ingress_source;
                   cd_SourceID := ingressID; cd_Status := CertDeploymentSucceeded; cd_LastError := "";
                   cd_DeployedAt := at_ |}]> m))
          | _ => note_deployments ingressID states m
          end
      end
  end.

Definition with_deployments (l : list CertDeployment) (c : ManagedCertificate) : ManagedCertificate :=
  {| mc_ID := mc_ID c; mc_Domains := mc_Domains c; mc_Issuer := mc_Issuer c;
     mc_DNSProvider := mc_DNSProvider c; mc_Status := mc_Status c; mc_Material := mc_Material c;
     mc_Deployments := l; mc_LastError := mc_LastError c; mc_AutoRenew := mc_AutoRenew c;
     mc_CreatedAt := mc_CreatedAt c; mc_UpdatedAt := mc_UpdatedAt c |}.

(** The part of [Apply] that changes things: [i] has its records resolved. *)
Definition converge (i : Ingress) (hosts : list Host) (records : list DnsRecord)
    (tls : option (Certificate * ManagedCertificate)) : prog (res AppliedState) :=
  let dns := dns_Provider (ing_DNS i) in
  let proxy := px_Provider (ing_Proxy i) in
  try! _ := ask (ADNS dns) in
  try! results := for_each (fun r => ask (AEnsureRecord dns r)) records in
  try! _ := ask (AProxy proxy) in
  try! rendered := ask (ARender proxy i (fst <$> tls)) in
  try! states := for_each (fun h => ask (AApplyProxy proxy h rendered)) hosts in
  try! _ :=
    match tls with
    | None => returns tt
    | Some (_, managed) =>
        bind (note_deployments (ing_ID i) states (deployments_by_host (mc_Deployments managed)))
          (fun m => try! _ := store (CUpsertCertificate (with_deployments (sortedDeployments m) managed)) in
                    returns tt)
    end in
  let state := {| as_IngressID := ing_ID i; as_Records := rr_Record <$> results; as_Hosts := states;
                  as_UpdatedAt := 0 |} in
  try! _ := store (CSaveState state) in
  returns state.

(** [Apply]; [confirmed] is [opts.ConfirmedDNSValue]. *)
Definition Apply (ingressID confirmed : string) : prog (res AppliedState) :=
  try! i := loadIngress ingressID in
  match Ingress_Validate i with
  | Some e => fails e
  | None =>
  try! hosts := ask (AHosts (px_HostIDs (ing_Proxy i))) in
  match resolveDNSRecords i hosts with
  | Err d => fails (not_ready d)
  | Ok (records, decision) =>
  if dv_RequiresConfirmation decision && negb (TrimSpace confirmed =? dv_Value decision)
  then fails ("confirmed_dns_value must match inferred DNS value " ++ dv_Value decision)
  else
  let i := with_records records i in
  try! tls := load_tls i in
  converge i hosts records tls
  end end.

(** ** What is left over *)

(** The hosts of the declaration and those it was applied to. *)
Definition operation_ids (i : Ingress) (st : option AppliedState) : list string :=
  foldl (fun ids hs => if (hs_HostID hs =? "") || existsb (String.eqb (hs_HostID hs)) ids
                       then ids else (ids ++ [hs_HostID hs])%list)
    (px_HostIDs (ing_Proxy i)) (match st with Some st => as_Hosts st | None => [] end).

Definition operationHosts (i : Ingress) : prog (res (list Host)) :=
  try! st := store (CGetState (ing_ID i)) in ask (AHosts (operation_ids i st)).

Definition DetectOrphans (ingressID : string) : prog (res OrphanReport) :=
  try! i := loadIngress ingressID in
  try! declared := store CListIngress in
  try! hosts := operationHosts i in
  let proxy := px_Provider (ing_Proxy i) in
  try! _ := ask (AProxy proxy) in
  try! configs := for_each (fun h => ask (ADetect proxy h declared)) hosts in
  let dns := dns_Provider (ing_DNS i) in
  try! _ := ask (ADNS dns) in
  try! records := ask (AListRecords dns (ing_Domain i)) in
  returns {| or_Configs := concat configs;
             or_Records := List.filter (fun r =>
               negb (existsb (String.eqb (recordKey r)) (declaredRecordKeys declared))) records |}.

Definition RemoveOrphans (ingressID : string) (report : OrphanReport) : prog (res unit) :=
  try! i := loadIngress ingressID in
  try! hosts := operationHosts i in
  let proxy := px_Provider (ing_Proxy i) in
  try! _ := ask (AProxy proxy) in
  try! _ := for_each (fun o =>
    match host_by_id hosts (oc_HostID o) with
    | None => fails ("host " ++ oc_HostID o ++ " not found for orphan config")
    | Some h => ask (ARemoveConfig proxy h o)
    end) (or_Configs report) in
  let dns := dns_Provider (ing_DNS i) in
  try! _ := ask (ADNS dns) in
  try! _ := for_each (fun r => ask (ARemoveRecord dns r)) (or_Records report) in
  returns tt.
End Service.
