(* ===== verification/CertService.v ===== *)
(** * Public entries: certificates (agent/ingress/certservice.go, certmanager.go)

    Issuing, renewing, deploying and choosing managed certificates, and the round of the manager
    that renews them in time, as programs of the calls of [IngressService]. *)
From stdpp Require Import base strings gmap list.
From Stdlib Require Import ZArith Lia.
From S2P Require Import Prelude Programs Model ConfigChange Ingress IngressStore IngressService.
Local Open Scope string_scope.
Local Open Scope ingress_scope.

(** ** The records *)

Definition with_status (status err : string) (c : ManagedCertificate) : ManagedCertificate :=
  {| mc_ID := mc_ID c; mc_Domains := mc_Domains c; mc_Issuer := mc_Issuer c;
     mc_DNSProvider := mc_DNSProvider c; mc_Status := status; mc_Material := mc_Material c;
     mc_Deployments := mc_Deployments c; mc_LastError := err; mc_AutoRenew := mc_AutoRenew c;
     mc_CreatedAt := mc_CreatedAt c; mc_UpdatedAt := mc_UpdatedAt c |}.

(** [cert.Material = &material; cert.Status = CertActive; cert.LastError = ""] *)
Definition activated (m : Certificate) (c : ManagedCertificate) : ManagedCertificate :=
  with_status CertActive "" (with_material (Some m) c).

(** ** Operations *)

Definition loadCertificate (id : string) : prog (res ManagedCertificate) :=
  try! found := store (CGetCertificate id) in
  match found with
  | None => fails ("certificate " ++ id ++ " not found")
  | Some c => returns c
  end.

(** [markCertificateFailed]: the error is the cause, or that of the store. *)
Definition markCertificateFailed {A} (c : ManagedCertificate) (cause : string) : prog (res A) :=
  try! _ := store (CUpsertCertificate (with_status CertFailed cause c)) in fails cause.

(** A call whose error marks the certificate as failed. *)
Definition or_mark {A B} (c : ManagedCertificate) (p : prog (res A)) (k : A -> prog (res B)) : prog (res B) :=
  bind p (fun r => match r with Ok x => k x | Err e => markCertificateFailed c e end).

Definition Issue (certID : string) : prog (res ManagedCertificate) :=
  try! c := loadCertificate certID in
  try! c := store (CUpsertCertificate (with_status CertPending "" c)) in
  if negb (mc_Issuer c =? CertificateIssuerACME) then fails "only acme certificates can be issued"
  else
    match normalizedDomains (mc_Domains c) with
    | [] => markCertificateFailed c "certificate domains are required"
    | domains =>
        or_mark c (ask (ADNS (mc_DNSProvider c))) (fun _ =>
        or_mark c (ask (ACert ProviderACME)) (fun _ =>
        or_mark c (ask (AObtain ProviderACME domains (mc_DNSProvider c))) (fun material =>
        store (CUpsertCertificate (activated material c)))))
    end.

(** The loop of [Deploy]: the deployments so far, and the material. *)
Fixpoint deploy_each (c : ManagedCertificate) (material : Certificate) (hosts : list Host)
    (requests : list CertificateDeploymentRequest) (m : gmap string CertDeployment)
    : prog (res ManagedCertificate) :=
  match requests with
  | [] => store (CUpsertCertificate (with_deployments (sortedDeployments m) c))
  | r :: requests =>
      match host_by_id hosts (dr_HostID r) with
      | None => fails ("host " ++ dr_HostID r ++ " not found")
      | Some host =>
          bind (ask (ADeploy host material r)) (fun answer =>
            match answer with
            | Err e =>
                bind (ask ANow) (fun now =>
                  try! _ := store (CUpsertCertificate (with_deployments
                    (sortedDeployments (<[dr_HostID r := failedDeployment now r e]> m)) c)) in
                  fails e)
            | Ok d =>
                bind (if time_is_zero (cd_DeployedAt d) then ask ANow else Done (cd_DeployedAt d)) (fun now =>
                  deploy_each c material hosts requests
                    (<[hst_ID host := normalizeSuccessfulDeployment now (hst_ID host) r d]> m))
            end)
      end
  end.

Definition Deploy (certID : string) (requests : list CertificateDeploymentRequest)
    : prog (res ManagedCertificate) :=
  try! c := loadCertificate certID in
  match mc_Material c with
  | Some material =>
      if negb (mc_Status c =? CertActive) then fails ("certificate " ++ certID ++ " is not active")
      else
        match normalizedDeploymentRequests requests (primaryDomain c) with
        | [] => fails "certificate deployment targets are required"
        | requests =>
            try! hosts := ask (AHosts (dr_HostID <$> requests)) in
            deploy_each c material hosts requests (deployments_by_host (mc_Deployments c))
        end
  | None => fails ("certificate " ++ certID ++ " is not active")
  end.

Definition Renew (certID : string) : prog (res ManagedCertificate) :=
  try! c := loadCertificate certID in
  if negb (mc_Issuer c =? CertificateIssuerACME) then fails "only acme certificates can be renewed"
  else
    match mc_Material c with
    | None => fails ("certificate " ++ certID ++ " has no material")
    | Some old =>
        match normalizedDomains (mc_Domains c) with
        | [] => markCertificateFailed c "certificate domains are required"
        | domains =>
            or_mark c (ask (ADNS (mc_DNSProvider c))) (fun _ =>
            or_mark c (ask (ACert ProviderACME)) (fun _ =>
            or_mark c (ask (ARenew ProviderACME old domains (mc_DNSProvider c))) (fun material =>
            try! c := store (CUpsertCertificate (activated material c)) in
            match mc_Deployments c with
            | [] => returns c
            | ds => Deploy (mc_ID c) (deploymentRequestFromRecord <$> ds)
            end)))
        end
    end.

Definition Match `{UnicodeCase} (domain : string) : prog (res (option ManagedCertificate)) :=
  try! certs := store CListCertificates in
  returns (MatchCertificate domain (List.filter (fun c => mc_Status c =? CertActive) certs)).

(** ** The round of the manager *)

Definition renewal_due (now : time) (renewBefore : duration) (c : ManagedCertificate) : bool :=
  (mc_Status c =? CertActive) && (mc_Issuer c =? CertificateIssuerACME) && mc_AutoRenew c &&
  match mc_Material c with
  | Some m => (time_sub (crt_ExpiresAt m) now <? renewBefore)%Z
  | None => false
  end.

(** The loop of [RunOnce], which an error ends. *)
Fixpoint renew_each (now : time) (renewBefore : duration) (certs : list ManagedCertificate) : prog (res unit) :=
  match certs with
  | [] => returns tt
  | c :: certs =>
      if renewal_due now renewBefore c
      then try! _ := Renew (mc_ID c) in renew_each now renewBefore certs
      else renew_each now renewBefore certs
  end.

Definition RunOnce (now : time) (renewBefore : duration) : prog (res unit) :=
  try! certs := store CListCertificates in renew_each now renewBefore certs.
