(* ===== verification/IngressTheorems.v ===== *)
(** * Public entries: what the service does to the outside

    Properties of the traces of [IngressService], for every sequence of answers and hence whatever
    else happens between its calls. *)
From stdpp Require Import base strings gmap list.
From Stdlib Require Import ZArith Lia.
From S2P Require Import Prelude Programs Model Ingress IngressStore IngressService.
Local Open Scope string_scope.
Local Open Scope ingress_scope.

(** ** Rules *)

Lemma wp_try {A B} (p : prog (res A)) (k : A -> prog (res B)) tr Q :
  wp (try_prog p k) tr Q <->
  wp p tr (fun r tr' => match r with Ok x => wp (k x) tr' Q | Err e => Q (Err e) tr' end).
Proof.
  unfold try_prog. rewrite wp_bind. split; apply wp_mono; by intros [x|e] tr'.
Qed.

Lemma wp_returns {A} (x : A) tr (Q : res A -> trace -> Prop) : Q (Ok x) tr -> wp (returns x) tr Q.
Proof. done. Qed.
Lemma wp_fails {A} (e : string) tr (Q : res A -> trace -> Prop) : Q (Err e) tr -> wp (fails e) tr Q.
Proof. done. Qed.

(** The loop rule: [I] holds of what has been done, its results and the trace. *)
Lemma wp_for_each {A B} (f : A -> prog (res B)) (I : list A -> list B -> trace -> Prop) l tr Q :
  I [] [] tr ->
  (forall before x after ys tr', l = (before ++ x :: after)%list -> I before ys tr' ->
     wp (f x) tr' (fun r tr'' => match r with
       | Ok y => I (before ++ [x])%list (ys ++ [y])%list tr''
       | Err e => Q (Err e) tr''
       end)) ->
  (forall ys tr', I l ys tr' -> Q (Ok ys) tr') ->
  wp (for_each f l) tr Q.
Proof.
  intros H0 Hstep Hend.
  assert (forall rest before ys tr', l = (before ++ rest)%list -> I before ys tr' ->
    wp (for_each f rest) tr' (fun r tr'' => match r with
      | Ok zs => I l (ys ++ zs)%list tr'' | Err e => Q (Err e) tr'' end)) as H.
  { induction rest as [|x rest IH]; intros before ys tr' Hl HI; cbn [for_each].
    { rewrite app_nil_r in Hl. subst before. cbn [wp returns]. by rewrite app_nil_r. }
    apply wp_try. eapply wp_mono; [|by eapply Hstep]. intros [y|e] tr'' Hy; [|done].
    apply wp_try. eapply wp_mono; [|apply (IH (before ++ [x])%list (ys ++ [y])%list); [by rewrite <-app_assoc|done]].
    intros [zs|e] tr3 Hz; [|done]. cbn [wp returns]. by rewrite <-app_assoc in Hz. }
  eapply wp_mono; [|apply (H l [] [] tr eq_refl H0)]. intros [zs|e] tr'; [|done]. apply Hend.
Qed.

(** ** Calls that change something *)

Definition writes {A} (c : store_call A) : bool :=
  match c with
  | CListIngress | CListIngressByProject _ | CGetIngress _ | CGetState _ | CListStates
  | CListDNSProviders | CGetDNSProvider _ | CListCertificates
  | CGetCertificate _ | CGetACMEAccount => false
  | _ => true
  end.

Definition changes (a : action) : bool :=
  match a with
  | AStore c => writes c
  | AHosts _ | ANow | ADNS _ | AProxy _ | ACert _ | AListRecords _ _ | ARender _ _ _ | ADetect _ _ _ => false
  | _ => true
  end.

Definition happened (tr : trace) (a : action) (x : answer a) : Prop := Ev a x ∈ tr.

Lemma happened_app tr tr' a x : happened tr a x -> happened (tr ++ tr') a x.
Proof. intros H. apply elem_of_app. by left. Qed.
Lemma happened_last tr a x : happened (tr ++ [Ev a x])%list a x.
Proof. apply elem_of_app. right. by left. Qed.
#[local] Hint Resolve happened_app happened_last : core.

(** A deployment that a host has reported, in the name of the entry. *)
Definition noted (ingressID : string) (states : list HostState) (d : CertDeployment) : Prop :=
  exists hs, hs ∈ states /\ cd_HostID d = hs_HostID hs /\ cd_SourceType d = ingress_source /\
    cd_SourceID d = ingressID /\ cd_Status d = CertDeploymentSucceeded /\ cd_LastError d = "" /\
    match hs_CertDeployment hs with
    | Some r => cd_CertPath d = cd_CertPath r /\ cd_KeyPath d = cd_KeyPath r
    | None => exists rest, hs_CertPaths hs = cd_CertPath d :: cd_KeyPath d :: rest
    end.

(** ** What the hosts report *)

Section Noted.
Context (ingressID : string) (known : list CertDeployment).

Definition accounted (states : list HostState) (m : gmap string CertDeployment) : Prop :=
  map_Forall (fun _ d => d ∈ known \/ noted ingressID states d) m.

Lemma deployments_by_host_accounted : accounted [] (deployments_by_host known).
Proof.
  assert (forall l (m : gmap string CertDeployment), map_Forall (fun _ d => d ∈ known) m -> (forall d, d ∈ l -> d ∈ known) ->
    map_Forall (fun _ d => d ∈ known) (foldl (fun m d => <[cd_HostID d := d]> m) m l)) as H.
  { induction l as [|d l IH]; intros m Hm Hl; simpl; [done|]. apply IH; [|set_solver].
    apply map_Forall_insert_2; [set_solver|done]. }
  eapply map_Forall_impl; [apply (H known ∅); [apply map_Forall_empty|done]|]. intros k d Hd. by left.
Qed.

(** Only calls of the clock, and each deployment is accounted for. *)
Lemma note_deployments_accounted (Q : gmap string CertDeployment -> trace -> Prop) seen states m tr :
  accounted seen m ->
  (forall m' tr', accounted (seen ++ states) m' ->
     (exists times, tr' = (tr ++ (Ev ANow <$> times))%list) -> Q m' tr') ->
  wp (note_deployments ingressID states m) tr Q.
Proof.
  revert seen m tr. induction states as [|hs states IH]; intros seen m tr Hm HQ; cbn [note_deployments].
  { cbn [wp]. apply HQ; [by rewrite app_nil_r|]. exists []. by rewrite app_nil_r. }
  assert (accounted (seen ++ [hs]) m) as Hm'.
  { eapply map_Forall_impl; [exact Hm|]. intros k d [Hd|(h & Hh & Hd)]; [by left|right].
    exists h. split; [set_solver|done]. }
  assert (forall d, noted ingressID [hs] d -> forall times : list time,
    wp (note_deployments ingressID states (<[hs_HostID hs := d]> m)) (tr ++ (Ev ANow <$> times)) Q) as Hnew.
  { intros d (h & Hh & Hd) times. apply (IH (seen ++ [hs])%list).
    - apply map_Forall_insert_2; [|done]. right. exists h. split; [set_solver|done].
    - intros m' tr' Ha [times' ->]. apply HQ; [by rewrite <-app_assoc in Ha|].
      exists (times ++ times')%list. by rewrite fmap_app, app_assoc. }
  assert (wp (note_deployments ingressID states m) tr Q) as Hold.
  { apply (IH (seen ++ [hs])%list); [done|]. intros m' tr' Ha Ht. apply HQ; [by rewrite <-app_assoc in Ha|done]. }
  destruct (hs_CertDeployment hs) as [d|] eqn:Ed.
  - apply wp_bind. destruct (time_is_zero (cd_DeployedAt d)).
    + cbn [wp ask call]. intros now. refine (Hnew _ _ [now]). exists hs. rewrite Ed. split_and!; [by left|done..].
    + cbn [wp]. specialize (Hnew {| cd_HostID := hs_HostID hs; cd_CertPath := cd_CertPath d;
        cd_KeyPath := cd_KeyPath d; cd_PostDeployCommand := cd_PostDeployCommand d;
        cd_SourceType := ingress_source; cd_SourceID := ingressID; cd_Status := CertDeploymentSucceeded;
        cd_LastError := ""; cd_DeployedAt := cd_DeployedAt d |} ltac:(exists hs; rewrite Ed; split_and!; [by left|done..]) []).
      by rewrite fmap_nil, app_nil_r in Hnew.
  - destruct (hs_CertPaths hs) as [|cert [|key rest]] eqn:Ep; [done..|].
    cbn [bind ask call wp]. intros now.
    refine (Hnew _ _ [now]). exists hs. rewrite Ed. split_and!; [by left|done..|by exists rest].
Qed.

Lemma sorted_accounted states m :
  accounted states m -> Forall (fun d => d ∈ known \/ noted ingressID states d) (sortedDeployments m).
Proof.
  intros Hm. apply Forall_forall. intros d (k & _ & Hk)%list_elem_of_omap. by apply (Hm k).
Qed.
End Noted.

(** ** Apply *)

Section Apply.
Context `{IpText} (id confirmed : string).

(** What was read and checked before anything is changed. *)
Record checked (tr : trace) (i : Ingress) (hosts : list Host) (records : list DnsRecord)
    (tls : option (Certificate * ManagedCertificate)) : Prop := {
  ch_read : happened tr (AStore (CGetIngress id)) (Ok (Some i));
  ch_valid : Ingress_Validate i = None;
  ch_hosts : happened tr (AHosts (px_HostIDs (ing_Proxy i))) (Ok hosts);
  ch_records : exists decision, resolveDNSRecords i hosts = Ok (records, decision) /\
    (dv_RequiresConfirmation decision = true -> TrimSpace confirmed = dv_Value decision);
  ch_tls : match tls with
    | None => tls_Enabled (ing_TLS i) = false
    | Some (material, managed) =>
        tls_Enabled (ing_TLS i) = true /\
        happened tr (AStore (CGetCertificate (tls_CertID (ing_TLS i)))) (Ok (Some managed)) /\
        mc_Status managed = CertActive /\ mc_Material managed = Some material
    end;
}.

Lemma checked_app tr tr' i hosts records tls :
  checked tr i hosts records tls -> checked (tr ++ tr')%list i hosts records tls.
Proof. intros [H1 H2 H3 H4 H5]. split; eauto. destruct tls as [[m c]|]; [|done]. naive_solver. Qed.

Section Checked.
Context (i : Ingress) (hosts : list Host) (records : list DnsRecord)
  (tls : option (Certificate * ManagedCertificate)).

(** All records have been put in place. *)
Definition resolved (tr : trace) (results : list RecordResult) : Prop :=
  Forall2 (fun r y => happened tr (AEnsureRecord (dns_Provider (ing_DNS i)) r) (Ok y)) records results.
(** All hosts run the configuration that was rendered with the certificate. *)
Definition configured (tr : trace) (states : list HostState) : Prop :=
  exists cfg, happened tr (ARender (px_Provider (ing_Proxy i)) (with_records records i) (fst <$> tls)) (Ok cfg) /\
  Forall2 (fun h st => happened tr (AApplyProxy (px_Provider (ing_Proxy i)) h cfg) (Ok st)) hosts states.

(** When a call may be made. *)
Definition allowed_call (before : trace) (a : action) : Prop :=
  match a with
  | AEnsureRecord dns r => dns = dns_Provider (ing_DNS i) /\ r ∈ records
  | AApplyProxy proxy h cfg =>
      proxy = px_Provider (ing_Proxy i) /\ h ∈ hosts /\ (exists results, resolved before results) /\
      happened before (ARender proxy (with_records records i) (fst <$> tls)) (Ok cfg)
  | AStore (CUpsertCertificate c) =>
      exists material managed, tls = Some (material, managed) /\
        c = with_deployments (mc_Deployments c) managed /\
        exists states, configured before states /\
          Forall (fun d => d ∈ mc_Deployments managed \/ noted (ing_ID i) states d) (mc_Deployments c)
  | AStore (CSaveState st) =>
      as_IngressID st = ing_ID i /\ configured before (as_Hosts st) /\
      exists results, resolved before results /\ as_Records st = rr_Record <$> results
  | _ => False
  end.
End Checked.

Definition allowed (before : trace) (e : event) : Prop :=
  match e with
  | Ev a _ => changes a = true -> exists i hosts records tls,
      checked before i hosts records tls /\ allowed_call i hosts records tls before a
  end.

Lemma allowed_quiet tr a x : safe allowed tr -> changes a = false -> safe allowed (tr ++ [Ev a x])%list.
Proof. intros Hs Ha. apply safe_snoc. split; [done|]. simpl. by rewrite Ha. Qed.

Lemma resolved_app i records tr tr' results :
  resolved i records tr results -> resolved i records (tr ++ tr')%list results.
Proof. intros Hr. eapply Forall2_impl; [exact Hr|eauto]. Qed.
Lemma configured_app i hosts records tls tr tr' states :
  configured i hosts records tls tr states -> configured i hosts records tls (tr ++ tr')%list states.
Proof. intros (cfg & H1 & H2). exists cfg. split; [by apply happened_app|]. eapply Forall2_impl; [exact H2|eauto]. Qed.

Lemma safe_changes i hosts records tls tr a x :
  safe allowed tr -> checked tr i hosts records tls -> allowed_call i hosts records tls tr a ->
  safe allowed (tr ++ [Ev a x])%list.
Proof. intros Hs Hc Ha. apply safe_snoc. split; [done|]. intros _. by exists i, hosts, records, tls. Qed.

Lemma allowed_quiets tr (evs : list event) :
  safe allowed tr -> Forall (fun e => match e with Ev a _ => changes a = false end) evs ->
  safe allowed (tr ++ evs)%list.
Proof.
  intros Hs He. revert tr Hs. induction He as [|[a x] evs Ha He IH]; intros tr Hs; [by rewrite app_nil_r|].
  rewrite cons_middle, (assoc_L app). by apply IH, allowed_quiet.
Qed.

(** What a successful [Apply] has done. *)
Definition applied (i : Ingress) (hosts : list Host) (records : list DnsRecord)
    (tls : option (Certificate * ManagedCertificate)) (tr : trace) (st : AppliedState) : Prop :=
  checked tr i hosts records tls /\ as_IngressID st = ing_ID i /\
  (exists results, resolved i records tr results /\ as_Records st = rr_Record <$> results) /\
  configured i hosts records tls tr (as_Hosts st) /\
  (forall material managed, tls = Some (material, managed) -> exists l c,
     happened tr (AStore (CUpsertCertificate (with_deployments l managed))) (Ok c)) /\
  happened tr (AStore (CSaveState st)) (Ok tt).

Definition apply_post (r : res AppliedState) (tr : trace) : Prop :=
  safe allowed tr /\
  match r with
  | Ok st => exists i hosts records tls, applied i hosts records tls tr st
  | Err _ => True
  end.

Lemma apply_failed (e : string) tr : safe allowed tr -> apply_post (Err e) tr.
Proof. done. Qed.

#[local] Hint Resolve checked_app resolved_app configured_app allowed_quiet apply_failed : core.

(** The end of [converge]. *)
Lemma save_post i hosts records tls results states tr :
  safe allowed tr -> checked tr i hosts records tls -> resolved i records tr results ->
  configured i hosts records tls tr states ->
  (forall material managed, tls = Some (material, managed) -> exists l c,
     happened tr (AStore (CUpsertCertificate (with_deployments l managed))) (Ok c)) ->
  let state := {| as_IngressID := ing_ID i; as_Records := rr_Record <$> results; as_Hosts := states;
                  as_UpdatedAt := 0 |} in
  wp (try! _ := store (CSaveState state) in returns state) tr apply_post.
Proof.
  intros Hs Hc Hr Hg Ht state. apply wp_try. cbn [store ask wp]. intros x.
  assert (safe allowed (tr ++ [Ev (AStore (CSaveState state)) x])%list) as Hs'.
  { eapply safe_changes; [done..|]. split_and!; [done..|]. by exists results. }
  destruct x as [[]|e]; cbn [wp returns]; [|by apply apply_failed].
  split; [done|]. exists i, hosts, records, tls.
  split_and!; [by apply checked_app|done|exists results; split; [by apply resolved_app|done]
    |by apply configured_app| |by apply happened_last].
  intros m c E. destruct (Ht m c E) as (l & c' & Hl). exists l, c'. by apply happened_app.
Qed.

Lemma converge_post i hosts records tls tr :
  safe allowed tr -> checked tr i hosts records tls ->
  wp (converge (with_records records i) hosts records tls) tr apply_post.
Proof.
  intros Hs Hc. unfold converge. cbn [with_records ing_DNS ing_Proxy ing_ID dns_Provider].
  apply wp_try. cbn [ask wp call]. intros [[]|e]; [|apply apply_failed; eauto].
  apply wp_try, (wp_for_each _ (fun before results tr' =>
    safe allowed tr' /\ checked tr' i hosts records tls /\
    Forall2 (fun r y => happened tr' (AEnsureRecord (dns_Provider (ing_DNS i)) r) (Ok y)) before results)).
  { split_and!; eauto. }
  { intros before r after results tr1 Hl (Hs1 & Hc1 & Hr1). cbn [ask wp call]. intros y.
    assert (safe allowed (tr1 ++ [Ev (AEnsureRecord (dns_Provider (ing_DNS i)) r) y])%list) as Hs2.
    { eapply safe_changes; [done..|]. split; [done|]. rewrite Hl. set_solver. }
    destruct y as [y|e]; [|by apply apply_failed]. split_and!; eauto.
    apply Forall2_app; [eapply Forall2_impl; eauto|]. constructor; [apply happened_last|done]. }
  clear tr Hs Hc. intros results tr (Hs & Hc & Hr). fold (resolved i records tr results) in Hr.
  apply wp_try. cbn [ask wp call]. intros [[]|e]; [|apply apply_failed; eauto].
  apply wp_try. cbn [ask wp call]. intros [cfg|e]; [|by apply apply_failed; eauto].
  set (proxy := px_Provider (ing_Proxy i)).
  apply wp_try, (wp_for_each _ (fun before states tr' =>
    safe allowed tr' /\ checked tr' i hosts records tls /\ resolved i records tr' results /\
    happened tr' (ARender proxy (with_records records i) (fst <$> tls)) (Ok cfg) /\
    Forall2 (fun h st => happened tr' (AApplyProxy proxy h cfg) (Ok st)) before states)).
  { split_and!; eauto. }
  { clear tr Hs Hc Hr. intros before h after states tr Hl (Hs & Hc & Hr & Hg & Hb). cbn [ask wp call]. intros y.
    assert (safe allowed (tr ++ [Ev (AApplyProxy proxy h cfg) y])%list) as Hs2.
    { eapply safe_changes; [done..|]. split_and!; [done|rewrite Hl; set_solver|by exists results|done]. }
    destruct y as [y|e]; [|by apply apply_failed]. split_and!; eauto.
    apply Forall2_app; [eapply Forall2_impl; eauto|]. constructor; [apply happened_last|done]. }
  clear tr Hs Hc Hr. intros states tr (Hs & Hc & Hr & Hg & Hb).
  assert (configured i hosts records tls tr states) as Hcfg by (by exists cfg).
  apply wp_try. destruct tls as [[material managed]|]; [|by apply (save_post i hosts records None)].
  apply wp_bind, (note_deployments_accounted _ (mc_Deployments managed) _ [] states);
    [apply deployments_by_host_accounted|].
  intros m tr' Hm [times ->]. apply wp_try. cbn [store ask wp call]. intros x.
  assert (safe allowed (tr ++ (Ev ANow <$> times))%list) as Hs1.
  { apply allowed_quiets; [done|]. by apply Forall_fmap, Forall_true. }
  assert (safe allowed ((tr ++ (Ev ANow <$> times)) ++
    [Ev (AStore (CUpsertCertificate (with_deployments (sortedDeployments m) managed))) x])%list) as Hs2.
  { eapply safe_changes; [done|eauto|]. exists material, managed. split_and!; [done..|].
    exists states. split; [eauto|]. by apply (sorted_accounted _ _ _ m). }
  destruct x as [c|e]; cbn [wp returns]; [|by apply apply_failed].
  apply (save_post i hosts records (Some (material, managed))); eauto. intros m0 c0 [= <- <-]. exists (sortedDeployments m), c. apply happened_last.
Qed.

(** C24: nothing is changed before everything that can be checked has been. [Apply] touches no
    record, host, certificate or state unless the declaration it read is valid, its hosts were
    found, its records have values, an inferred value was confirmed with just that value, and the
    certificate it names is active with material. Then records come first; no host is configured
    before all of them are in place, and each with what was rendered for this certificate; the
    certificate gets deployments reported by these hosts only, and the applied state is saved when
    all hosts run the configuration. A success means that all of this was done, whatever acts
    between the calls. *)
Theorem Apply_sound : wp (Apply id confirmed) [] apply_post.
Proof.
  unfold Apply, loadIngress. apply wp_try, wp_try. cbn [store ask wp call].
  intros [[i|]|e]; [apply wp_returns|by eauto using wp_fails, safe_nil..].
  destruct (Ingress_Validate i) as [msg|] eqn:Hv; [by eauto using wp_fails, safe_nil|].
  apply wp_try. cbn [ask wp call]. intros [hosts|e]; [|by eauto using safe_nil].
  destruct (resolveDNSRecords i hosts) as [[records decision]|d] eqn:Er; [|by eauto 10 using wp_fails, safe_nil].
  destruct (dv_RequiresConfirmation decision && negb (TrimSpace confirmed =? dv_Value decision)) eqn:Ec;
    [by eauto 10 using wp_fails, safe_nil|].
  match goal with |- wp _ ?t _ => set (tr := t) end.
  assert (safe allowed tr) as Hs by (unfold tr; eauto using safe_nil).
  assert (forall tls, match tls with
    | None => tls_Enabled (ing_TLS i) = false
    | Some (material, managed) => tls_Enabled (ing_TLS i) = true /\ mc_Status managed = CertActive /\
        mc_Material managed = Some material
    end -> forall evs, match tls with
    | None => True
    | Some (_, managed) =>
        happened (tr ++ evs) (AStore (CGetCertificate (tls_CertID (ing_TLS i)))) (Ok (Some managed))
    end -> checked (tr ++ evs) i hosts records tls) as Hc.
  { intros tls Ht evs Hg. split; [by unfold tr; eauto..| |by destruct tls as [[??]|]; naive_solver].
    exists decision. split; [done|]. intros Hd. rewrite Hd in Ec. simpl in Ec.
    by destruct (String.eqb_spec (TrimSpace confirmed) (dv_Value decision)). }
  clearbody tr. apply wp_try. unfold load_tls.
  cbn [with_records ing_TLS]. destruct (tls_Enabled (ing_TLS i)) eqn:Et.
  2: { apply wp_returns, converge_post; [done|]. specialize (Hc None eq_refl [] I). by rewrite app_nil_r in Hc. }
  destruct (blank _); [by eauto using wp_fails|]. apply wp_try. cbn [store ask wp call].
  intros [[c|]|e]; [|by eauto using wp_fails..].
  destruct (mc_Material c) as [m|] eqn:Em; [|by eauto using wp_fails].
  destruct (String.eqb_spec (mc_Status c) CertActive) as [Ea|]; cbn [negb]; [|by eauto using wp_fails].
  apply wp_returns, converge_post; [by eauto|]. by apply (Hc (Some (m, c))); [|apply happened_last].
Qed.
End Apply.

(** ** Orphans *)

Definition quiet (e : event) : Prop := match e with Ev a _ => changes a = false end.

(** What an event removes or tries to, and the answer of the provider. *)
Definition removal (e : event) : option ((OrphanConfig + DnsRecord) * res unit) :=
  match e with
  | Ev (ARemoveConfig _ _ o) x => Some (inl o, x)
  | Ev (ARemoveRecord _ r) x => Some (inr r, x)
  | _ => None
  end.
Definition removals (tr : trace) : list ((OrphanConfig + DnsRecord) * res unit) := omap removal tr.
(** Removals that succeeded. *)
Definition removed (l : list (OrphanConfig + DnsRecord)) : list ((OrphanConfig + DnsRecord) * res unit) :=
  (fun x => (x, Ok tt)) <$> l.
Definition confirmed_removals (report : OrphanReport) : list (OrphanConfig + DnsRecord) :=
  ((inl <$> or_Configs report) ++ (inr <$> or_Records report))%list.

Lemma removals_snoc tr e : removals (tr ++ [e]) = (removals tr ++ match removal e with Some x => [x] | None => [] end)%list.
Proof. unfold removals. rewrite omap_app. simpl. by destruct (removal e). Qed.

Section Remove.
Context `{IpText} (id : string) (report : OrphanReport).

(** A configuration is removed from its own host, one of those of the declaration, and both
    kinds by the providers of the declaration. *)
Definition removable (before : trace) (e : event) : Prop :=
  match e with
  | Ev (ARemoveConfig proxy h o) _ => exists i st hosts,
      happened before (AStore (CGetIngress id)) (Ok (Some i)) /\ proxy = px_Provider (ing_Proxy i) /\
      happened before (AStore (CGetState (ing_ID i))) (Ok st) /\
      happened before (AHosts (operation_ids i st)) (Ok hosts) /\ h ∈ hosts /\ hst_ID h = oc_HostID o
  | Ev (ARemoveRecord dns r) _ => exists i,
      happened before (AStore (CGetIngress id)) (Ok (Some i)) /\ dns = dns_Provider (ing_DNS i)
  | Ev a _ => changes a = false
  end.

(** After a success all of the report was removed.  After an error, [before] was removed, and either
    nothing else was tried or the removal of the next item was refused with that very error. *)
Definition remove_post (r : res unit) (tr : trace) : Prop :=
  safe removable tr /\
  match r with
  | Ok _ => removals tr = removed (confirmed_removals report)
  | Err e => exists before after, confirmed_removals report = (before ++ after)%list /\
      (removals tr = removed before \/
       exists x, head after = Some x /\ removals tr = (removed before ++ [(x, Err e)])%list)
  end.

Lemma removable_quiet tr a x : safe removable tr -> changes a = false -> safe removable (tr ++ [Ev a x])%list.
Proof. intros Hs Ha. apply safe_snoc. split; [done|]. by destruct a. Qed.

Lemma removals_quiet tr a x : changes a = false -> removals (tr ++ [Ev a x])%list = removals tr.
Proof. intros Ha. rewrite removals_snoc. by destruct a; simpl in *; rewrite ?app_nil_r. Qed.

(** Before the first removal. *)
Lemma remove_none (e : string) tr : safe removable tr -> removals tr = [] -> remove_post (Err e) tr.
Proof. intros Hs Hr. split; [done|]. exists [], (confirmed_removals report). auto. Qed.

Lemma operation_ids_spec i st hid :
  hid ∈ operation_ids i st ->
  hid ∈ px_HostIDs (ing_Proxy i) \/ exists s hs, st = Some s /\ hs ∈ as_Hosts s /\ hs_HostID hs = hid.
Proof.
  assert (forall l ids, hid ∈ foldl (fun ids hs => if (hs_HostID hs =? "") || existsb (String.eqb (hs_HostID hs)) ids
    then ids else (ids ++ [hs_HostID hs])%list) ids l -> hid ∈ ids \/ exists hs, hs ∈ l /\ hs_HostID hs = hid) as Hf.
  { induction l as [|hs l IH]; intros ids; simpl; [by left|]. intros [Hi|(h & Hh & E)]%IH; [|set_solver].
    case_match; [by left|]. apply elem_of_app in Hi as [Hi|Hi]; [by left|right; exists hs; set_solver]. }
  unfold operation_ids. intros [Hi|(hs & Hh & E)]%Hf; [by left|right].
  destruct st as [s|]; [by exists s, hs|set_solver].
Qed.

Lemma host_by_id_spec hosts hid h : host_by_id hosts hid = Some h -> h ∈ hosts /\ hst_ID h = hid.
Proof.
  unfold host_by_id. intros [Hin E]%List.find_some. apply List.in_rev, list_elem_of_In in Hin.
  split; [done|by apply String.eqb_eq].
Qed.

Lemma confirmed_configs before after :
  or_Configs report = (before ++ after)%list ->
  confirmed_removals report =
    ((inl <$> before) ++ (inl <$> after) ++ (inr <$> or_Records report))%list.
Proof. unfold confirmed_removals. intros ->. by rewrite fmap_app, <-app_assoc. Qed.

Lemma removed_snoc l x : removed (l ++ [x])%list = (removed l ++ [(x, Ok tt)])%list.
Proof. unfold removed. by rewrite fmap_app. Qed.

(** A removal that is refused ends it. *)
Lemma remove_refused e before x after tr :
  safe removable tr -> confirmed_removals report = (before ++ x :: after)%list ->
  removals tr = (removed before ++ [(x, Err e)])%list -> remove_post (Err e) tr.
Proof. intros Hs Hl Hr. split; [done|]. exists before, (x :: after). eauto. Qed.

Lemma remove_stopped e before after tr :
  safe removable tr -> confirmed_removals report = (before ++ after)%list ->
  removals tr = removed before -> remove_post (Err e) tr.
Proof. intros Hs Hl Hr. split; [done|]. eauto. Qed.

(** The second half of [RemoveOrphans]. *)
Lemma remove_records i tr :
  safe removable tr -> happened tr (AStore (CGetIngress id)) (Ok (Some i)) ->
  removals tr = removed (inl <$> or_Configs report) ->
  wp (try! _ := ask (ADNS (dns_Provider (ing_DNS i))) in
      try! _ := for_each (fun r => ask (ARemoveRecord (dns_Provider (ing_DNS i)) r)) (or_Records report) in
      returns tt) tr remove_post.
Proof.
  intros Hs Hi Hr.
  apply wp_try. cbn [ask wp call]. intros x.
  assert (safe removable (tr ++ [Ev (ADNS (dns_Provider (ing_DNS i))) x])%list) as Hs1 by (by apply removable_quiet).
  assert (removals (tr ++ [Ev (ADNS (dns_Provider (ing_DNS i))) x])%list = removed (inl <$> or_Configs report)) as Hr1
    by (by rewrite removals_quiet).
  destruct x as [[]|e]; [|by eapply remove_stopped].
  apply wp_try, (wp_for_each _ (fun before _ tr' =>
    safe removable tr' /\ happened tr' (AStore (CGetIngress id)) (Ok (Some i)) /\
    removals tr' = removed ((inl <$> or_Configs report) ++ (inr <$> before))%list)).
  { split_and!; [done|eauto|]. by rewrite fmap_nil, app_nil_r. }
  { clear tr Hs Hr Hi Hs1 Hr1. intros before r after _ tr Hl (Hs & Hi & Hr). cbn [ask wp call]. intros y.
    match goal with |- context[(tr ++ [?e])%list] => set (ev := e) end.
    assert (safe removable (tr ++ [ev])%list) as Hs1 by (apply safe_snoc; split; [done|by exists i]).
    assert (removals (tr ++ [ev])%list =
      (removed ((inl <$> or_Configs report) ++ (inr <$> before)) ++ [(inr r, y)])%list) as Hr1
      by (by rewrite removals_snoc, Hr).
    destruct y as [[]|e].
    - split_and!; [done|eauto|]. by rewrite Hr1, <-removed_snoc, <-app_assoc, fmap_app.
    - eapply remove_refused; [done| |exact Hr1]. unfold confirmed_removals.
      by rewrite Hl, fmap_app, <-app_assoc. }
  clear. intros _ tr (Hs & _ & Hr). apply wp_returns. by split; [|rewrite Hr].
Qed.

(** C26: only what the user has confirmed is removed. The configurations and then the records of the
    given report are removed in their order, each configuration from the host it names, which is a
    host of the declaration or one it was applied to, by the providers of the declaration. The first
    removal that is refused ends it, and its error is the result; every removal before it succeeded;
    a success means that the removal of every item of the report succeeded; and nothing else is
    changed. *)
Theorem RemoveOrphans_exact : wp (RemoveOrphans id report) [] remove_post.
Proof.
  unfold RemoveOrphans, loadIngress. apply wp_try, wp_try. cbn [store ask wp call].
  assert (forall x, safe removable ([] ++ [Ev (AStore (CGetIngress id)) x])%list) as H1.
  { intros x. by apply removable_quiet; [apply safe_nil|]. }
  intros [[i|]|e]; [apply wp_returns|by apply wp_fails, remove_none|by apply remove_none].
  unfold operationHosts. apply wp_try, wp_try. cbn [store ask wp call].
  intros [st|e]; [|by apply remove_none; [apply removable_quiet|]]. intros [hosts|e];
    [|by apply remove_none; [do 2 (apply removable_quiet; [|done])|]].
  apply wp_try. cbn [ask wp call]. intros x.
  match goal with |- context[match x with Ok _ => wp _ ?t _ | Err _ => _ end] => set (tr := t) end.
  assert (safe removable tr) as Hs by (do 3 (apply removable_quiet; [|done]); apply H1).
  assert (removals tr = []) as Hr by (unfold tr; by rewrite !removals_snoc).
  assert (happened tr (AStore (CGetIngress id)) (Ok (Some i))) as Hi by (unfold tr, happened; set_solver).
  assert (happened tr (AStore (CGetState (ing_ID i))) (Ok st)) as Ht by (unfold tr, happened; set_solver).
  assert (happened tr (AHosts (operation_ids i st)) (Ok hosts)) as Hh by (unfold tr, happened; set_solver).
  clearbody tr. destruct x as [[]|e]; [|by apply remove_none].
  apply wp_try, (wp_for_each _ (fun before _ tr' =>
    safe removable tr' /\ happened tr' (AStore (CGetIngress id)) (Ok (Some i)) /\
    happened tr' (AStore (CGetState (ing_ID i))) (Ok st) /\
    happened tr' (AHosts (operation_ids i st)) (Ok hosts) /\ removals tr' = removed (inl <$> before))).
  { by rewrite Hr. }
  { clear tr Hs Hr Hi Ht Hh. intros before o after _ tr Hl (Hs & Hi & Ht & Hh & Hr).
    destruct (host_by_id hosts (oc_HostID o)) as [h|] eqn:Eh.
    2: { apply wp_fails. eapply remove_stopped; [done|by apply confirmed_configs|done]. }
    apply host_by_id_spec in Eh as [Ein Eid]. cbn [ask wp call]. intros y.
    match goal with |- context[(tr ++ [?e])%list] => set (ev := e) end.
    assert (safe removable (tr ++ [ev])%list) as Hs1.
    { apply safe_snoc. split; [done|]. by exists i, st, hosts. }
    assert (removals (tr ++ [ev])%list = (removed (inl <$> before) ++ [(inl o, y)])%list) as Hr1
      by (by rewrite removals_snoc, Hr).
    destruct y as [[]|e]; [split_and!; eauto; by rewrite Hr1, fmap_app, <-removed_snoc|].
    eapply remove_refused; [done| |exact Hr1]. by rewrite (confirmed_configs before (o :: after)). }
  clear tr Hs Hr Hi Ht Hh. intros _ tr (Hs & Hi & _ & _ & Hr). by apply remove_records.
Qed.
End Remove.

(** Looking for orphans changes nothing, and no record that any declaration asks for is reported. *)
Lemma DetectOrphans_declared `{IpText} id :
  wp (DetectOrphans id) [] (fun r tr => Forall quiet tr /\
    match r with
    | Err _ => True
    | Ok report => exists declared, happened tr (AStore CListIngress) (Ok declared) /\
        forall i r r', i ∈ declared -> r ∈ dns_Records (ing_DNS i) -> r' ∈ or_Records report ->
          recordKey r' <> recordKey (WithDefaults r (ing_Domain i) (rec_Value r))
    end).
Proof.
  assert (forall tr a x, Forall quiet tr -> changes a = false -> Forall quiet (tr ++ [Ev a x])%list) as Hq
    by (intros; apply Forall_app; auto).
  assert (Forall quiet []) as H0 by constructor.
  unfold DetectOrphans, loadIngress, operationHosts. apply wp_try, wp_try. cbn [store ask wp call].
  intros [[i|]|e]; [apply wp_returns|apply wp_fails; by auto|by auto 20].
  apply wp_try. cbn [store ask wp call]. intros [declared|e]; [|by auto 20].
  apply wp_try, wp_try. cbn [store ask wp call]. intros [st|e]; [|by auto 20].
  intros [hosts|e]; [|by auto 20]. apply wp_try. cbn [ask wp call]. intros [[]|e]; [|by auto 20].
  match goal with |- wp _ ?t _ => set (tr := t) end.
  assert (Forall quiet tr) as Hs by (unfold tr; auto 20).
  assert (happened tr (AStore CListIngress) (Ok declared)) as Hd by (unfold tr, happened; set_solver).
  clearbody tr. apply wp_try, (wp_for_each _ (fun _ _ tr' =>
    Forall quiet tr' /\ happened tr' (AStore CListIngress) (Ok declared))); [done| |].
  { intros before h after ys tr1 _ [Hs1 Hd1]. cbn [ask wp call]. intros [y|e]; eauto. }
  clear tr Hs Hd. intros configs tr [Hs Hd]. apply wp_try. cbn [ask wp call]. intros [[]|e]; [|by auto 20].
  apply wp_try. cbn [ask wp call]. intros [records|e]; [|by auto 20]. apply wp_returns. split; [by auto|].
  exists declared. split; [eauto|]. intros i' r r' Hi Hr Hr' E. simpl in Hr'.
  apply list_elem_of_In, List.filter_In in Hr' as [_ Hn]. apply negb_true_iff in Hn.
  enough (existsb (String.eqb (recordKey r')) (declaredRecordKeys declared) = true) by congruence.
  apply existsb_exists. exists (recordKey r'). split; [|apply String.eqb_refl].
  rewrite E. apply List.in_concat. eexists.
  split; [by apply list_elem_of_In, (list_elem_of_fmap_2 _ _ i')|]. apply list_elem_of_In.
  by apply (list_elem_of_fmap_2 (fun r => recordKey (WithDefaults r (ing_Domain i') (rec_Value r)))).
Qed.
