(* ===== verification/CertTheorems.v ===== *)
(** * Public entries: what happens to certificates

    Properties of the traces of [CertService] for every sequence of answers. *)
From stdpp Require Import base strings gmap list.
From Stdlib Require Import ZArith Lia.
From S2P Require Import Prelude Programs Model Ingress IngressStore IngressService IngressTheorems CertService.
Local Open Scope string_scope.
Local Open Scope ingress_scope.

Definition got (tr : trace) (id : string) (c : ManagedCertificate) : Prop :=
  happened tr (AStore (CGetCertificate id)) (Ok (Some c)).
Definition stored (tr : trace) (c : ManagedCertificate) : Prop :=
  exists c', happened tr (AStore (CUpsertCertificate c')) (Ok c).
(** A version of a certificate that the store has given. *)
Definition known (tr : trace) (c : ManagedCertificate) : Prop := (exists id, got tr id c) \/ stored tr c.

(** Material that the issuer has given for these domains. *)
Definition obtained (tr : trace) (domains : list string) (m : Certificate) : Prop :=
  exists dns, happened tr (AObtain ProviderACME domains dns) (Ok m) \/
    exists old, happened tr (ARenew ProviderACME old domains dns) (Ok m).

(** [c], which is saved, is [c0] but for its status, its deployments and material from the issuer. *)
Definition succeeds (tr : trace) (c0 c : ManagedCertificate) : Prop :=
  mc_ID c = mc_ID c0 /\ mc_Domains c = mc_Domains c0 /\ mc_Issuer c = mc_Issuer c0 /\
  mc_DNSProvider c = mc_DNSProvider c0 /\ mc_AutoRenew c = mc_AutoRenew c0 /\
  (mc_Material c = mc_Material c0 /\ (mc_Status c = CertActive -> mc_Status c0 = CertActive) \/
   mc_Issuer c0 = CertificateIssuerACME /\ mc_Status c = CertActive /\
     exists m, mc_Material c = Some m /\ obtained tr (normalizedDomains (mc_Domains c0)) m).

(** What is asked of the issuer belongs to an ACME certificate. *)
Definition asks_for (c0 : ManagedCertificate) (provider : string) (domains : list string) (dns : string) : Prop :=
  provider = ProviderACME /\ mc_Issuer c0 = CertificateIssuerACME /\
  domains = normalizedDomains (mc_Domains c0) /\ domains <> [] /\ dns = mc_DNSProvider c0.

Lemma got_app tr tr' id c : got tr id c -> got (tr ++ tr') id c.
Proof. apply happened_app. Qed.
Lemma stored_certificate_app tr tr' c : stored tr c -> stored (tr ++ tr') c.
Proof. intros [c' H]. exists c'. by apply happened_app. Qed.
Lemma known_app tr tr' c : known tr c -> known (tr ++ tr') c.
Proof. intros [[id H]|H]; [left; exists id; by apply got_app|right; by apply stored_certificate_app]. Qed.
Lemma obtained_app tr tr' ds m : obtained tr ds m -> obtained (tr ++ tr') ds m.
Proof. intros [dns [H|[old H]]]; exists dns; [left|right; exists old]; by apply happened_app. Qed.

Lemma with_status_succeeds tr status err c :
  status <> CertActive -> succeeds tr c (with_status status err c).
Proof. intros Hne. split_and!; [done..|]. by left. Qed.
Lemma with_deployments_succeeds tr l c : succeeds tr c (with_deployments l c).
Proof. split_and!; [done..|]. by left. Qed.
Lemma activated_succeeds tr m c :
  mc_Issuer c = CertificateIssuerACME -> obtained tr (normalizedDomains (mc_Domains c)) m ->
  succeeds tr c (activated m c).
Proof. intros Hi Ho. split_and!; [done..|]. right. split_and!; [done..|]. by exists m. Qed.

Section Certificates.
(** Which certificates may be renewed. *)
Context (may_renew : trace -> string -> Prop)
  (may_renew_app : forall tr tr' id, may_renew tr id -> may_renew (tr ++ tr')%list id).

Definition cert_allowed (before : trace) (e : event) : Prop :=
  match e with
  | Ev (AStore (CUpsertCertificate c)) _ => exists c0, known before c0 /\ succeeds before c0 c
  | Ev (AObtain provider domains dns) _ => exists c0, known before c0 /\ asks_for c0 provider domains dns
  | Ev (ARenew provider old domains dns) _ => exists id c0,
      may_renew before id /\ got before id c0 /\ asks_for c0 provider domains dns /\ mc_Material c0 = Some old
  | Ev (ADeploy host material r) _ => exists c0, known before c0 /\ mc_Status c0 = CertActive /\
      mc_Material c0 = Some material /\ hst_ID host = dr_HostID r
  | Ev a _ => changes a = false
  end.

Definition cert_post (r : res ManagedCertificate) (tr : trace) : Prop :=
  safe cert_allowed tr /\ match r with Ok c => stored tr c | Err _ => True end.

Lemma cert_err (e : string) tr : safe cert_allowed tr -> cert_post (Err e) tr.
Proof. done. Qed.
Lemma cert_quiet tr a x : safe cert_allowed tr -> changes a = false -> safe cert_allowed (tr ++ [Ev a x])%list.
Proof. intros Hs Ha. apply safe_snoc. split; [done|]. destruct a as [A c| | | | | | | | | | | | | | |]; try done. by destruct c. Qed.

#[local] Hint Resolve cert_err cert_quiet known_app stored_certificate_app got_app obtained_app : core.

(** Saving a certificate, and what comes after. *)
Lemma wp_save c0 c tr (Q : res ManagedCertificate -> trace -> Prop) :
  safe cert_allowed tr -> known tr c0 -> succeeds tr c0 c ->
  (forall x tr', safe cert_allowed tr' -> tr `prefix_of` tr' ->
     match x with Ok c' => stored tr' c' | Err _ => True end -> Q x tr') ->
  wp (store (CUpsertCertificate c)) tr Q.
Proof.
  intros Hs Hk Hc HQ. cbn [store ask wp call]. intros x. apply HQ.
  - apply safe_snoc. split; [done|]. by exists c0.
  - by eexists.
  - destruct x as [c'|e]; [|done]. exists c. apply happened_last.
Qed.

Lemma wp_marked c cause tr : safe cert_allowed tr -> known tr c -> wp (markCertificateFailed c cause) tr cert_post.
Proof.
  intros Hs Hk. unfold markCertificateFailed. apply wp_try, (wp_save c); [done..|by apply with_status_succeeds|].
  intros [c'|e] tr' Hs' _ _; [apply wp_fails|]; by apply cert_err.
Qed.

Lemma wp_or_mark {A} c (p : prog (res A)) (k : A -> prog (res ManagedCertificate)) tr :
  wp p tr (fun x tr' => match x with
    | Ok y => wp (k y) tr' cert_post
    | Err _ => safe cert_allowed tr' /\ known tr' c
    end) ->
  wp (or_mark c p k) tr cert_post.
Proof.
  intros Hp. apply wp_bind. eapply wp_mono; [|exact Hp]. intros [y|e] tr'; [done|]. intros [Hs Hk].
  by apply wp_marked.
Qed.

Lemma wp_load id tr (k : ManagedCertificate -> prog (res ManagedCertificate)) :
  safe cert_allowed tr ->
  (forall c tr', safe cert_allowed tr' -> tr `prefix_of` tr' -> got tr' id c -> wp (k c) tr' cert_post) ->
  wp (try_prog (loadCertificate id) k) tr cert_post.
Proof.
  intros Hs Hk. unfold loadCertificate. apply wp_try, wp_try. cbn [store ask wp call].
  intros [[c|]|e]; [apply wp_returns, Hk|apply wp_fails|]; [by auto|by eexists|apply happened_last|by auto..].
Qed.

Lemma got_known tr id c : got tr id c -> known tr c.
Proof. left. by exists id. Qed.
#[local] Hint Resolve got_known : core.

Lemma Issue_post id tr : safe cert_allowed tr -> wp (Issue id) tr cert_post.
Proof.
  intros Hs. unfold Issue. apply wp_load; [done|]. intros c0 tr' Hs' _ Hg. clear tr Hs. rename tr' into tr, Hs' into Hs.
  apply wp_try, (wp_save c0); [done|by eauto|by apply with_status_succeeds|].
  intros [c|e] tr' Hs' _ Hk; [|by auto]. clear tr Hs Hg. rename tr' into tr, Hs' into Hs.
  destruct (String.eqb_spec (mc_Issuer c) CertificateIssuerACME) as [Ei|]; cbn [negb]; [|by apply wp_fails].
  assert (known tr c) as Hc by (by right).
  destruct (normalizedDomains (mc_Domains c)) as [|d ds] eqn:Ed; [by apply wp_marked|].
  apply wp_or_mark. cbn [ask wp call]. intros [[]|e]; [|by auto].
  apply wp_or_mark. cbn [ask wp call]. intros [[]|e]; [|by auto].
  apply wp_or_mark. cbn [ask wp call]. intros x.
  match goal with |- context[match x with Ok _ => wp _ ?t _ | Err _ => _ end] => assert (safe cert_allowed t) as Hs' end.
  { apply safe_snoc. split; [by auto|]. exists c. split; [by auto|]. by split_and!. }
  destruct x as [m|e]; [|by auto]. apply (wp_save c); [done|by auto| |by auto].
  apply activated_succeeds; [done|]. rewrite Ed. eexists. left. apply happened_last.
Qed.

Lemma deploy_each_post c material hosts requests m tr :
  safe cert_allowed tr -> known tr c -> mc_Status c = CertActive -> mc_Material c = Some material ->
  wp (deploy_each c material hosts requests m) tr cert_post.
Proof.
  intros Hs Hk Ha Hm. revert m tr Hs Hk. induction requests as [|r requests IH]; intros m tr Hs Hk; cbn [deploy_each].
  { apply (wp_save c); [done..|by apply with_deployments_succeeds|by auto]. }
  destruct (host_by_id hosts (dr_HostID r)) as [h|] eqn:Eh; [|by apply wp_fails].
  apply host_by_id_spec in Eh as [_ Eh]. apply wp_bind. cbn [ask wp call]. intros x.
  assert (safe cert_allowed (tr ++ [Ev (ADeploy h material r) x])%list) as Hs'
    by (apply safe_snoc; split; [done|by exists c]).
  destruct x as [d|e].
  - apply wp_bind. destruct (time_is_zero (cd_DeployedAt d)); [cbn [ask wp call]; intros now|cbn [wp]]; by apply IH; auto.
  - apply wp_bind. cbn [ask wp call]. intros now.
    apply wp_try, (wp_save c); [by auto..|by apply with_deployments_succeeds|].
    intros [c'|e'] tr' Hs1 _ _; [apply wp_fails|]; by apply cert_err.
Qed.

Lemma Deploy_post id requests tr : safe cert_allowed tr -> wp (Deploy id requests) tr cert_post.
Proof.
  intros Hs. unfold Deploy. apply wp_load; [done|]. intros c tr' Hs' _ Hg. clear tr Hs. rename tr' into tr, Hs' into Hs.
  destruct (mc_Material c) as [m|] eqn:Em; [|by apply wp_fails].
  destruct (String.eqb_spec (mc_Status c) CertActive) as [Ea|]; cbn [negb]; [|by apply wp_fails].
  destruct (normalizedDeploymentRequests requests (primaryDomain c)) as [|r rs]; [by apply wp_fails|].
  apply wp_try. cbn [ask wp call]. intros [hosts|e]; [|by auto]. apply deploy_each_post; eauto.
Qed.

Lemma Renew_post id tr : safe cert_allowed tr -> may_renew tr id -> wp (Renew id) tr cert_post.
Proof using may_renew_app.
  intros Hs Hr. unfold Renew. apply wp_load; [done|]. intros c tr' Hs' [t ->] Hg.
  apply (may_renew_app _ t) in Hr. revert Hs' Hg Hr. generalize (tr ++ t)%list as tr1. clear tr t Hs.
  intros tr Hs Hg Hr.
  destruct (String.eqb_spec (mc_Issuer c) CertificateIssuerACME) as [Ei|]; cbn [negb]; [|by apply wp_fails].
  assert (known tr c) as Hc by (by eapply got_known).
  destruct (mc_Material c) as [old|] eqn:Em; [|by apply wp_fails].
  destruct (normalizedDomains (mc_Domains c)) as [|d ds] eqn:Ed; [by apply wp_marked; eauto|].
  apply wp_or_mark. cbn [ask wp call]. intros [[]|e]; [|by split; auto].
  apply wp_or_mark. cbn [ask wp call]. intros [[]|e]; [|by split; auto].
  apply wp_or_mark. cbn [ask wp call]. intros x.
  match goal with |- context[match x with Ok _ => wp _ ?t _ | Err _ => _ end] => assert (safe cert_allowed t) as Hs' end.
  { apply safe_snoc. split; [by auto|]. exists id, c. do 2 (split; [by auto|]). by split_and!. }
  destruct x as [m|e]; [|by split; auto]. apply wp_try, (wp_save c); [done|by auto| |].
  { apply activated_succeeds; [done|]. rewrite Ed. eexists. right. eexists. apply happened_last. }
  intros [c'|e] tr' Hs1 _ Hk; [|by auto].
  destruct (mc_Deployments c'); [by apply wp_returns|by apply Deploy_post].
Qed.
End Certificates.

(** ** The round of the manager *)

(** The issuer has given new material for the certificate, and it was saved. *)
Definition renewed (tr : trace) (id : string) : Prop :=
  exists c old m c', got tr id c /\
    happened tr (ARenew ProviderACME old (normalizedDomains (mc_Domains c)) (mc_DNSProvider c)) (Ok m) /\
    happened tr (AStore (CUpsertCertificate (activated m c))) (Ok c').

Lemma renewed_app tr tr' id : renewed tr id -> renewed (tr ++ tr') id.
Proof.
  intros (c & old & m & c' & H1 & H2 & H3). exists c, old, m, c'.
  split_and!; [by apply got_app|by apply happened_app..].
Qed.

Definition if_ok {A} (P : trace -> Prop) (r : res A) (tr : trace) : Prop :=
  match r with Ok _ => P tr | Err _ => True end.

Lemma marked_fails {A} c cause tr P : wp (markCertificateFailed (A := A) c cause) tr (if_ok P).
Proof. unfold markCertificateFailed. apply wp_try. cbn [store ask wp call]. by intros [c'|e]. Qed.

Lemma wp_or_mark_ok {A B} c (p : prog (res A)) (k : A -> prog (res B)) tr P :
  wp p tr (fun x tr' => match x with Ok y => wp (k y) tr' (if_ok P) | Err _ => True end) ->
  wp (or_mark c p k) tr (if_ok P).
Proof.
  intros Hp. apply wp_bind. eapply wp_mono; [|exact Hp]. intros [y|e] tr'; [done|]. intros _. apply marked_fails.
Qed.

Lemma Renew_renews id tr : wp (Renew id) tr (if_ok (fun tr' => renewed tr' id)).
Proof.
  unfold Renew, loadCertificate. apply wp_try, wp_try. cbn [store ask wp call].
  intros [[c|]|e]; [apply wp_returns|by apply wp_fails|done].
  destruct (negb _); [by apply wp_fails|]. destruct (mc_Material c) as [old|]; [|by apply wp_fails].
  destruct (normalizedDomains (mc_Domains c)) as [|d ds] eqn:Ed; [apply marked_fails|].
  apply wp_or_mark_ok. cbn [ask wp call]. intros [[]|e]; [|done].
  apply wp_or_mark_ok. cbn [ask wp call]. intros [[]|e]; [|done].
  apply wp_or_mark_ok. cbn [ask wp call]. intros [m|e]; [|done].
  apply wp_try. cbn [store ask wp call]. intros [c'|e]; [|done].
  match goal with |- wp ?p ?t _ => assert (renewed t id) as Hr; [|revert Hr; generalize t as tr1; intros tr1 Hr] end.
  { exists c, old, m, c'. rewrite Ed. unfold got, happened. split_and!; set_solver. }
  eapply wp_mono; [|apply wp_extends]. intros [r|e] tr2 [t ->]; [|done]. by apply renewed_app.
Qed.

Section Round.
Context (now : time) (renewBefore : duration).

Definition due_certificate (tr : trace) (id : string) : Prop :=
  exists certs c, happened tr (AStore CListCertificates) (Ok certs) /\ c ∈ certs /\ mc_ID c = id /\
    renewal_due now renewBefore c = true.

Lemma due_app tr tr' id : due_certificate tr id -> due_certificate (tr ++ tr')%list id.
Proof. intros (certs & c & H1 & H2). exists certs, c. split; [by apply happened_app|done]. Qed.

Lemma renew_each_post certs l tr :
  safe (cert_allowed due_certificate) tr -> happened tr (AStore CListCertificates) (Ok certs) -> l ⊆ certs ->
  wp (renew_each now renewBefore l) tr (fun r tr' => safe (cert_allowed due_certificate) tr' /\
    tr `prefix_of` tr' /\
    (r = Ok tt -> forall c, c ∈ l -> renewal_due now renewBefore c = true -> renewed tr' (mc_ID c))).
Proof.
  revert tr. induction l as [|c l IH]; intros tr Hs Hl Hin; cbn [renew_each].
  { apply wp_returns. split_and!; [done..|set_solver]. }
  destruct (renewal_due now renewBefore c) eqn:Hd.
  2: { eapply wp_mono; [|apply IH; [done..|set_solver]]. intros r tr' (H1 & H2 & H3).
       split_and!; [done..|]. intros -> c' [->|Hc']%elem_of_cons Hd'; [congruence|by apply H3]. }
  apply wp_try.
  assert (due_certificate tr (mc_ID c)) as Hdue by (exists certs, c; set_solver).
  eapply wp_mono; [|exact (wp_and _ _ _ _ (wp_and _ _ _ _ (Renew_post _ due_app _ _ Hs Hdue) (Renew_renews _ tr))
    (wp_extends _ tr))].
  intros r tr' [[[Hs' _] Hr] [t ->]]. destruct r as [c'|e]; [|by split_and!; [|eexists|]].
  eapply wp_mono; [|apply IH; [done|by apply happened_app|set_solver]]. intros r tr' (H1 & [t' ->] & H3).
  split_and!; [done|exists (t ++ t')%list; by rewrite app_assoc|].
  intros -> c1 [->|Hc1]%elem_of_cons Hd1; [by apply renewed_app|by apply H3].
Qed.

Lemma RunOnce_post :
  wp (RunOnce now renewBefore) [] (fun r tr => safe (cert_allowed due_certificate) tr /\
    (r = Ok tt -> exists certs, happened tr (AStore CListCertificates) (Ok certs) /\
       forall c, c ∈ certs -> renewal_due now renewBefore c = true -> renewed tr (mc_ID c))).
Proof.
  unfold RunOnce. apply wp_try. cbn [store ask wp call]. intros x.
  assert (safe (cert_allowed due_certificate) ([] ++ [Ev (AStore CListCertificates) x])%list) as Hs
    by (apply cert_quiet; [apply safe_nil|done]).
  destruct x as [certs|e]; [|done].
  eapply wp_mono; [|apply (renew_each_post certs certs); [done|apply happened_last|done]].
  intros r tr (H1 & [t ->] & H3). split; [done|]. intros ->. exists certs.
  split; [apply happened_app, happened_last|by apply H3].
Qed.
End Round.

(** C25: the operations on certificates keep them. Whatever acts in between, they save nothing but a
    version of a certificate that the store has given, with its identifier, domains, issuer and
    choices: its material is unchanged or was just obtained for these domains, only then can it
    become active, and the issuer is asked for ACME certificates alone. Hosts get the material
    of an active certificate and nothing else, at the host that was asked for. Only [Renew] and the
    round of the manager renew, the latter only what is due in the list it has read, and if the
    round succeeds, everything that is due has been renewed and saved. *)
Theorem certificates_kept id requests now renewBefore :
  wp (Issue id) [] (cert_post (fun _ _ => False)) /\
  wp (Deploy id requests) [] (cert_post (fun _ _ => False)) /\
  wp (Renew id) [] (fun r tr => cert_post (fun _ id' => id' = id) r tr /\ if_ok (fun tr => renewed tr id) r tr) /\
  wp (RunOnce now renewBefore) [] (fun r tr => safe (cert_allowed (due_certificate now renewBefore)) tr /\
    (r = Ok tt -> exists certs, happened tr (AStore CListCertificates) (Ok certs) /\
       forall c, c ∈ certs -> renewal_due now renewBefore c = true -> renewed tr (mc_ID c))).
Proof.
  split_and!.
  - apply Issue_post, safe_nil.
  - apply Deploy_post, safe_nil.
  - apply wp_and; [|apply Renew_renews]. by apply Renew_post; [|apply safe_nil|].
  - apply RunOnce_post.
Qed.
