(* ===== verification/IngressHandlers.v ===== *)
(** * Public entries: handlers (agent/ingress/infer.go, agent/api/handler_ingress.go,
    handler_ingress_certs.go, ingress_app.go)

    The defaults that are inferred for a declaration, the hosts of the service, and the handlers
    that call the services, as programs. A request that cannot be decoded is not modelled; the
    decoded body is an argument, and a response without content is [tt]. *)
From stdpp Require Import base strings gmap list.
From Stdlib Require Import ZArith Lia.
From S2P Require Import Prelude Programs Model PipelineVars ConfigChange ConfigPlan HostKeys Ingress IngressStore IngressService CertService.
Local Open Scope string_scope.
Local Open Scope ingress_scope.

(** ** Defaults *)

Record InferRequest : Type := mkInferRequest {
  iq_EnvName : string;
  iq_PipelineID : string;
  iq_Role : string;
  iq_ProxyHostIDs : list string;
  iq_Domain : string;
  iq_RecordType : string;
}.
Record InferResult : Type := mkInferResult {
  ir_Upstreams : list Upstream;
  ir_DNSRecords : list DnsRecord;
  ir_Warnings : list string;
  ir_RequiresPortInput : bool;
}.

(** The address and the warning. *)
Definition publicAddress (h : Host) : string * string :=
  if negb (blank (hst_PublicIP h)) then (TrimSpace (hst_PublicIP h), "")
  else ("", "host " ++ hst_ID h ++ " has no public_ip").
Definition privateAddress (h : Host) : string * string :=
  if negb (blank (hst_PrivateIP h)) then (TrimSpace (hst_PrivateIP h), "")
  else ("", "host " ++ hst_ID h ++ " has no private_ip").

Definition warned (warning : string) (l : list string) : list string :=
  if warning =? "" then l else (l ++ [warning])%list.

Inductive infer_error : Type :=
| InferPipeline (e : resolve_error)
| InferText (msg : string).

Fixpoint infer_upstreams (hosts : list Host) (ids : list string) (out : InferResult) : result infer_error InferResult :=
  match ids with
  | [] => Ok out
  | id :: ids =>
      match host_by_id hosts id with
      | None => Err (InferText ("host " ++ id ++ " not found"))
      | Some h =>
          let '(ip, warning) := privateAddress h in
          infer_upstreams hosts ids
            {| ir_Upstreams := ir_Upstreams out ++ [mkUpstream (hst_ID h) ip 0];
               ir_DNSRecords := ir_DNSRecords out; ir_Warnings := warned warning (ir_Warnings out);
               ir_RequiresPortInput := ir_RequiresPortInput out |}
      end
  end.

Fixpoint infer_records (hosts : list Host) (recordType domain : string) (ids : list string) (out : InferResult)
    : result infer_error InferResult :=
  match ids with
  | [] => Ok out
  | id :: ids =>
      match host_by_id hosts id with
      | None => Err (InferText ("proxy host " ++ id ++ " not found"))
      | Some h =>
          let '(value, warning) := publicAddress h in
          infer_records hosts recordType domain ids
            {| ir_Upstreams := ir_Upstreams out;
               ir_DNSRecords := ir_DNSRecords out ++ [mkDnsRecord "" recordType domain value 300];
               ir_Warnings := warned warning (ir_Warnings out);
               ir_RequiresPortInput := ir_RequiresPortInput out |}
      end
  end.

Definition InferDefaults (join : string -> string -> string) (order : nat -> list string)
    (project : Project) (hosts : list Host) (req : InferRequest) : result infer_error InferResult :=
  match ResolveProjectPipeline join order
    {| pr_Project := project; pr_PipelineID := iq_PipelineID req; pr_EnvName := iq_EnvName req;
       pr_RunVariables := ∅; pr_ServiceNames := []; pr_Preview := true |} with
  | Err e => Err (InferPipeline e)
  | Ok resolved =>
      match pl_Roles (rp_Pipeline resolved) !! iq_Role req with
      | None => Err (InferText ("role " ++ iq_Role req ++ " not found"))
      | Some ids =>
          let recordType := if iq_RecordType req =? "" then RecordA else iq_RecordType req in
          rbind (infer_upstreams hosts ids (mkInferResult [] [] [] true))
            (infer_records hosts recordType (iq_Domain req) (iq_ProxyHostIDs req))
      end
  end.

(** ** The hosts of the service *)

Definition ingressSelfHost (id name : string) : Host :=
  {| hst_ID := id; hst_Name := name; hst_PublicIP := ""; hst_PrivateIP := ""; hst_Tags := [];
     hst_SSHHost := "127.0.0.1"; hst_SSHPort := DefaultSSHPort; hst_SSHUser := ""; hst_SSHPassword := "";
     hst_SSHPrivateKey := ""; hst_SSHHostKeyFingerprint := ""; hst_DevMachineMode := false;
     hst_PendingTunnelInvalidationRevision := "" |}.

(** [lookupIngressHosts]: [stored] are the hosts of the remote store. *)
Fixpoint lookup_hosts (nodeID displayName : string) (stored : list Host) (ids : list string) (hosts : list Host)
    : res (list Host) :=
  match ids with
  | [] => Ok hosts
  | rawID :: ids =>
      let id := TrimSpace rawID in
      if id =? "" then lookup_hosts nodeID displayName stored ids hosts
      else if (id =? "self") || (id =? nodeID)
      then lookup_hosts nodeID displayName stored ids (hosts ++ [ingressSelfHost id displayName])%list
      else match host_by_id stored id with
           | None => Err ("host " ++ id ++ " not found")
           | Some h => lookup_hosts nodeID displayName stored ids (hosts ++ [h])%list
           end
  end.
Definition lookupIngressHosts (nodeID displayName : string) (stored : res (list Host)) (ids : list string)
    : res (list Host) :=
  rbind stored (fun stored => lookup_hosts nodeID displayName stored ids []).

(** ** Errors *)

(** [ingressErrorStatus]; the text of a wrapped [ErrProviderNotFound] has "not found" in it. *)
Definition ingressErrorStatus (msg : string) : Z :=
  if Contains msg "not found" then 404%Z
  else if Contains msg "is required" || Contains msg "cannot" || Contains msg "must match" ||
          Contains msg "not ready" || Contains msg "certificate" || Contains msg "证书" ||
          Contains msg "acme account email is required" || Contains msg "unsupported"
  then 400%Z else 500%Z.

Abbreviation reply := (result http_error).

(** What a handler makes of an error of the store, and of the services. *)
Definition or_500 {A B} (p : prog (res A)) (k : A -> prog (reply B)) : prog (reply B) :=
  bind p (fun r => match r with Ok x => k x | Err e => Done (Err (500%Z, e)) end).
Definition or_status {A} (p : prog (res A)) : prog (reply A) :=
  bind p (fun r => Done (match r with Ok x => Ok x | Err e => Err (ingressErrorStatus e, e) end)).
Definition replies {A} (x : A) : prog (reply A) := Done (Ok x).
Definition refuses {A} (status : Z) (msg : string) : prog (reply A) := Done (Err (status, msg)).

(** ** Declarations of a project *)

(** [projectIngressForRequest] before a handler goes on. *)
Definition in_project {A} (projectID ingressID : string) (k : Ingress -> prog (reply A)) : prog (reply A) :=
  or_500 (store (CGetIngress ingressID)) (fun found =>
    match found with
    | None => refuses 404 "ingress not found"
    | Some i => if negb (ing_ProjectID i =? projectID) then refuses 404 "ingress not found" else k i
    end).

Section Project.
Context `{IpText} (projectID ingressID : string).

Definition previewProjectIngress : prog (reply PreviewResult) :=
  in_project projectID ingressID (fun i => or_status (Preview i)).
Definition applyProjectIngress (confirmedDNSValue : string) : prog (reply AppliedState) :=
  in_project projectID ingressID (fun _ => or_status (Apply ingressID confirmedDNSValue)).
Definition detectProjectIngressOrphans : prog (reply OrphanReport) :=
  in_project projectID ingressID (fun _ => or_status (DetectOrphans ingressID)).
Definition removeProjectIngressOrphans (configs : list OrphanConfig) (records : list DnsRecord) : prog (reply unit) :=
  in_project projectID ingressID (fun _ =>
    or_status (RemoveOrphans ingressID {| or_Configs := configs; or_Records := records |})).
End Project.

(** ** Certificates *)

Record certificateCreateRequest : Type := mkCertificateCreateRequest {
  ccr_Domains : list string;
  ccr_Issuer : string;
  ccr_DNSProvider : string;
  ccr_AutoRenew : bool;
  ccr_Material : option Certificate;
}.
Record certificateDeployTargetRequest : Type := mkCertificateDeployTarget {
  ctr_HostID : string;
  ctr_CertPath : string;
  ctr_KeyPath : string;
  ctr_PostDeployCommand : string;
}.
Record certificateDeployRequest : Type := mkCertificateDeployRequest {
  cdr_HostIDs : list string;
  cdr_CertPath : string;
  cdr_KeyPath : string;
  cdr_PostDeployCommand : string;
  cdr_Deployments : list certificateDeployTargetRequest;
}.

Definition normalizeStringList (items : list string) : list string :=
  List.filter (fun s => negb (s =? "")) (TrimSpace <$> items).

Definition certificateDeploymentRequests (req : certificateDeployRequest) : list CertificateDeploymentRequest :=
  match cdr_Deployments req with
  | [] =>
      (fun hostID =>
        {| dr_HostID := hostID; dr_CertPath := TrimSpace (cdr_CertPath req);
           dr_KeyPath := TrimSpace (cdr_KeyPath req);
           dr_PostDeployCommand := TrimSpace (cdr_PostDeployCommand req);
           dr_SourceType := "manual"; dr_SourceID := "" |}) <$> normalizeStringList (cdr_HostIDs req)
  | ds =>
      (fun d =>
        {| dr_HostID := TrimSpace (ctr_HostID d); dr_CertPath := TrimSpace (ctr_CertPath d);
           dr_KeyPath := TrimSpace (ctr_KeyPath d);
           dr_PostDeployCommand := TrimSpace (ctr_PostDeployCommand d);
           dr_SourceType := "manual"; dr_SourceID := "" |}) <$> ds
  end.

(** Given material with its domain and provider filled in. *)
Definition manual_material (domain : string) (m : Certificate) : Certificate :=
  {| crt_Domain := if blank (crt_Domain m) then domain else crt_Domain m;
     crt_CertPEM := crt_CertPEM m; crt_KeyPEM := crt_KeyPEM m; crt_Issuer := crt_Issuer m;
     crt_ObtainedAt := crt_ObtainedAt m; crt_ExpiresAt := crt_ExpiresAt m;
     crt_Provider := if blank (crt_Provider m) then CertificateIssuerManual else crt_Provider m |}.

Definition new_certificate (req : certificateCreateRequest) (domains : list string) (issuer status : string)
    (material : option Certificate) : ManagedCertificate :=
  {| mc_ID := ""; mc_Domains := domains; mc_Issuer := issuer; mc_DNSProvider := TrimSpace (ccr_DNSProvider req);
     mc_Status := status; mc_Material := material; mc_Deployments := []; mc_LastError := "";
     mc_AutoRenew := ccr_AutoRenew req; mc_CreatedAt := 0; mc_UpdatedAt := 0 |}.

Definition save_certificate (c : ManagedCertificate) : prog (reply ManagedCertificate) :=
  or_500 (store (CUpsertCertificate c)) (fun saved => replies (redactCertificateMaterial saved)).

Definition createIngressCertificate (req : certificateCreateRequest) : prog (reply ManagedCertificate) :=
  match normalizeStringList (ccr_Domains req) with
  | [] => refuses 400 "domains is required"
  | (domain :: _) as domains =>
      let issuer := if ccr_Issuer req =? "" then CertificateIssuerACME else ccr_Issuer req in
      if issuer =? CertificateIssuerManual then
        match ccr_Material req with
        | None => refuses 400 "manual certificate material is required"
        | Some m =>
            if blank (crt_CertPEM m) || blank (crt_KeyPEM m)
            then refuses 400 "manual certificate material is required"
            else save_certificate (new_certificate req domains issuer CertActive (Some (manual_material domain m)))
        end
      else save_certificate (new_certificate req domains issuer CertPending (ccr_Material req))
  end.

Definition listIngressCertificates : prog (reply (list ManagedCertificate)) := or_500 (store CListCertificates) replies.

Definition getIngressCertificate (id : string) : prog (reply ManagedCertificate) :=
  or_500 (store (CGetCertificate id)) (fun found =>
    match found with
    | None => refuses 404 "certificate not found"
    | Some c => replies (redactCertificateMaterial c)
    end).

Definition deleteIngressCertificate (id : string) : prog (reply unit) :=
  or_500 (store (CDeleteCertificate id)) replies.

(** The response comes with the program that runs in the background after it. *)
Definition issueIngressCertificate (id : string) : prog (reply (ManagedCertificate * prog (res ManagedCertificate))) :=
  or_500 (store (CGetCertificate id)) (fun found =>
    match found with
    | None => refuses 404 "certificate not found"
    | Some c =>
        or_500 (store (CUpsertCertificate (with_status CertPending "" c))) (fun c =>
          replies (redactCertificateMaterial c, Issue id))
    end).

Definition redacted (p : prog (reply ManagedCertificate)) : prog (reply ManagedCertificate) :=
  bind p (fun r => Done (map_result redactCertificateMaterial r)).
Definition renewIngressCertificate (id : string) : prog (reply ManagedCertificate) := redacted (or_status (Renew id)).
Definition deployIngressCertificate (id : string) (req : certificateDeployRequest) : prog (reply ManagedCertificate) :=
  redacted (or_status (Deploy id (certificateDeploymentRequests req))).
Definition matchIngressCertificate `{UnicodeCase} (domain : string) : prog (reply ManagedCertificate) :=
  or_500 (Match domain) (fun found =>
    match found with
    | None => refuses 404 "certificate not found"
    | Some c => replies (redactCertificateMaterial c)
    end).

Definition getIngressACMEAccount : prog (reply ACMEAccount) := or_500 (store CGetACMEAccount) replies.
Definition saveIngressACMEAccount (account : ACMEAccount) : prog (reply ACMEAccount) :=
  or_500 (store (CSaveACMEAccount {| acc_Email := TrimSpace (acc_Email account);
    acc_DirectoryURL := TrimSpace (acc_DirectoryURL account); acc_UpdatedAt := acc_UpdatedAt account |}))
    (fun _ => or_500 (store CGetACMEAccount) replies).

(** No handler answers with a private key, but for the list, which the store redacts
    ([ListCertificates_redacted]). *)
Definition no_key (c : ManagedCertificate) : Prop :=
  match mc_Material c with Some m => crt_KeyPEM m = "" | None => True end.

Lemma redactCertificateMaterial_no_key c : no_key (redactCertificateMaterial c).
Proof. unfold no_key. simpl. by destruct (mc_Material c). Qed.

Definition keyless (r : reply ManagedCertificate) : Prop := match r with Ok c => no_key c | Err _ => True end.

Lemma wp_or_500 {A B} (p : prog (res A)) (k : A -> prog (reply B)) tr Q :
  (forall e tr', Q (Err (500%Z, e)) tr') -> (forall x tr', wp (k x) tr' Q) -> wp (or_500 p k) tr Q.
Proof.
  intros He Hk. apply wp_bind. eapply (wp_mono _ _ (fun _ _ => True)); [|by revert tr; induction p; simpl; auto].
  intros [x|e] tr' _; [apply Hk|apply He].
Qed.

Lemma redacted_keyless p tr : wp (redacted p) tr (fun r _ => keyless r).
Proof.
  apply wp_bind. eapply (wp_mono _ _ (fun _ _ => True)); [|by revert tr; induction p; simpl; auto].
  intros [c|e] tr' _; simpl; [apply redactCertificateMaterial_no_key|done].
Qed.

Lemma certificate_handlers_keyless `{UnicodeCase} id req dreq domain :
  wp (createIngressCertificate req) [] (fun r _ => keyless r) /\
  wp (getIngressCertificate id) [] (fun r _ => keyless r) /\
  wp (issueIngressCertificate id) [] (fun r _ => match r with Ok (c, _) => no_key c | Err _ => True end) /\
  wp (renewIngressCertificate id) [] (fun r _ => keyless r) /\
  wp (deployIngressCertificate id dreq) [] (fun r _ => keyless r) /\
  wp (matchIngressCertificate domain) [] (fun r _ => keyless r).
Proof.
  pose proof redactCertificateMaterial_no_key as Hn.
  assert (forall c, wp (save_certificate c) [] (fun r _ => keyless r)) as Hs
    by (intros c; apply wp_or_500; [done|intros x tr'; apply Hn]).
  split_and!.
  - unfold createIngressCertificate. repeat case_match; try done; apply Hs.
  - apply wp_or_500; [done|]. intros [c|] tr'; [apply Hn|done].
  - apply wp_or_500; [done|]. intros [c|] tr'; [|done]. apply wp_or_500; [done|]. intros x tr2. apply Hn.
  - apply redacted_keyless.
  - apply redacted_keyless.
  - apply wp_or_500; [done|]. intros [c|] tr'; [apply Hn|done].
Qed.

(** ** What is inferred *)

Lemma host_by_id_key hosts id h : host_by_id hosts id = Some h -> hst_ID h = id.
Proof. unfold host_by_id. intros [_ E]%List.find_some. by apply String.eqb_eq. Qed.

Lemma infer_upstreams_spec hosts ids out r :
  infer_upstreams hosts ids out = Ok r ->
  ir_DNSRecords r = ir_DNSRecords out /\ ir_RequiresPortInput r = ir_RequiresPortInput out /\
  exists ups, ir_Upstreams r = (ir_Upstreams out ++ ups)%list /\
    Forall2 (fun id u => exists h, host_by_id hosts id = Some h /\
      u = mkUpstream id (TrimSpace (hst_PrivateIP h)) 0) ids ups.
Proof.
  revert out. induction ids as [|id ids IH]; intros out; cbn [infer_upstreams].
  { intros [= <-]. split_and!; [done..|]. exists []. by rewrite app_nil_r. }
  destruct (host_by_id hosts id) as [h|] eqn:Eh; [|done]. destruct (privateAddress h) as [ip w] eqn:Ep.
  intros (H1 & H2 & ups & H3 & H4)%IH. simpl in *. split_and!; [done..|].
  exists (mkUpstream (hst_ID h) ip 0 :: ups). split; [by rewrite H3, <-app_assoc|].
  constructor; [|done]. exists h. split; [done|]. rewrite (host_by_id_key _ _ _ Eh). f_equal.
  unfold privateAddress, blank in Ep. destruct (String.eqb_spec (TrimSpace (hst_PrivateIP h)) "") as [E|E];
    injection Ep as <- _; [done|done].
Qed.

Lemma infer_records_spec hosts rt domain ids out r :
  infer_records hosts rt domain ids out = Ok r ->
  ir_Upstreams r = ir_Upstreams out /\ ir_RequiresPortInput r = ir_RequiresPortInput out /\
  exists recs, ir_DNSRecords r = (ir_DNSRecords out ++ recs)%list /\
    Forall2 (fun id x => exists h, host_by_id hosts id = Some h /\
      x = mkDnsRecord "" rt domain (TrimSpace (hst_PublicIP h)) 300) ids recs.
Proof.
  revert out. induction ids as [|id ids IH]; intros out; cbn [infer_records].
  { intros [= <-]. split_and!; [done..|]. exists []. by rewrite app_nil_r. }
  destruct (host_by_id hosts id) as [h|] eqn:Eh; [|done]. destruct (publicAddress h) as [ip w] eqn:Ep.
  intros (H1 & H2 & recs & H3 & H4)%IH. simpl in *. split_and!; [done..|].
  exists (mkDnsRecord "" rt domain ip 300 :: recs). split; [by rewrite H3, <-app_assoc|].
  constructor; [|done]. exists h. split; [done|]. f_equal.
  unfold publicAddress, blank in Ep. destruct (String.eqb_spec (TrimSpace (hst_PublicIP h)) "") as [E|E];
    injection Ep as <- _; [done|done].
Qed.

(** One upstream for each host of the role, with its private address and no port, and one record
    for each proxy host, with its public address, in their orders. *)
Lemma InferDefaults_shape join order project hosts req r :
  InferDefaults join order project hosts req = Ok r ->
  ir_RequiresPortInput r = true /\
  (exists ids, Forall2 (fun id u => exists h, host_by_id hosts id = Some h /\
     u = mkUpstream id (TrimSpace (hst_PrivateIP h)) 0) ids (ir_Upstreams r)) /\
  Forall2 (fun id x => exists h, host_by_id hosts id = Some h /\
    x = mkDnsRecord "" (if iq_RecordType req =? "" then RecordA else iq_RecordType req) (iq_Domain req)
          (TrimSpace (hst_PublicIP h)) 300) (iq_ProxyHostIDs req) (ir_DNSRecords r).
Proof.
  unfold InferDefaults. destruct (ResolveProjectPipeline _ _ _) as [rp|]; [|done].
  destruct (pl_Roles _ !! _) as [ids|]; [|done].
  destruct (infer_upstreams hosts ids _) as [o|] eqn:Eu; [|done]. cbn [rbind]. intros Er.
  apply infer_upstreams_spec in Eu as (H1 & H2 & ups & H3 & H4).
  apply infer_records_spec in Er as (H5 & H6 & recs & H7 & H8). simpl in *.
  split_and!; [by rewrite H6, H2| |by rewrite H7, H1]. exists ids. by rewrite H5, H3.
Qed.
