(* ===== verification/IngressExamples.v ===== *)
(** * Public entries: what goes wrong

    Runs of the programs on concrete files, in which the program does not do what it means to. *)
From stdpp Require Import base strings gmap list.
From Stdlib Require Import ZArith Lia Ascii.
From S2P Require Import Prelude Programs Model ConfigChange ConfigPlan Ingress IngressStore IngressService CertService IngressHandlers.
Local Open Scope string_scope.
Local Open Scope ingress_scope.

(** ** A world *)

(** The answers of the outside: the issuer gives [w_issued], the hosts of [w_refusing] refuse
    certificates, and [w_meanwhile] happens to the files while a proxy is configured. *)
Record World : Type := mkWorld {
  w_now : time;
  w_hosts : list string;
  w_issued : res Certificate;
  w_refusing : list string;
  w_meanwhile : FileStore -> FileStore;
}.

Definition plain_host (publicIP id : string) : Host :=
  {| hst_ID := id; hst_Name := id; hst_PublicIP := publicIP; hst_PrivateIP := ""; hst_Tags := []; hst_SSHHost := "";
     hst_SSHPort := 22; hst_SSHUser := ""; hst_SSHPassword := ""; hst_SSHPrivateKey := "";
     hst_SSHHostKeyFingerprint := ""; hst_DevMachineMode := false; hst_PendingTunnelInvalidationRevision := "" |}.

Definition deployed (r : CertificateDeploymentRequest) : CertDeployment :=
  {| cd_HostID := dr_HostID r; cd_CertPath := dr_CertPath r; cd_KeyPath := dr_KeyPath r; cd_PostDeployCommand := "";
     cd_SourceType := ""; cd_SourceID := ""; cd_Status := ""; cd_LastError := ""; cd_DeployedAt := 0 |}.

(** The state is the files and the material on the hosts. *)
Definition outside : Type := FileStore * gmap string Certificate.

Definition act (w : World) (a : action) (s : outside) : outside * answer a :=
  match a return outside * answer a with
  | @AStore A c => let '(f, r) := exec_store c (mkEnv (w_now w) "new" true Written) s.1 in ((f, s.2), r)
  | AHosts ids => (s, lookupIngressHosts "node" "node" (Ok (plain_host "9.9.9.9" <$> w_hosts w)) ids)
  | ANow => (s, w_now w)
  | ADNS _ | AProxy _ | ACert _ => (s, Ok tt)
  | AEnsureRecord _ r => (s, Ok (mkRecordResult r true false []))
  | AListRecords _ _ => (s, Ok [])
  | ARemoveRecord _ _ => (s, Ok tt)
  | ARender _ i c => (s, Ok (mkRenderedConfig (ing_Domain i) "" "" c))
  | AApplyProxy _ h cfg =>
      ((w_meanwhile w s.1, match rc_Certificate cfg with Some c => <[hst_ID h := c]> s.2 | None => s.2 end),
       Ok (mkHostState (hst_ID h) "" [] None))
  | ADetect _ _ _ => (s, Ok [])
  | ARemoveConfig _ _ _ => (s, Ok tt)
  | AObtain _ _ _ | ARenew _ _ _ _ => (s, w_issued w)
  | ADeploy h m r =>
      if existsb (String.eqb (hst_ID h)) (w_refusing w) then (s, Err "refused")
      else ((s.1, <[hst_ID h := m]> s.2), Ok (deployed r))
  end.

Definition does {A} (w : World) (p : prog A) (s : outside) : outside * A := run (act w) p s.

Definition material (key : string) (expires : time) : Certificate :=
  {| crt_Domain := "a.dev"; crt_CertPEM := key; crt_KeyPEM := key; crt_Issuer := "";
     crt_ObtainedAt := 0; crt_ExpiresAt := expires; crt_Provider := "" |}.
Definition deployment (host : string) : CertDeployment :=
  {| cd_HostID := host; cd_CertPath := "/c"; cd_KeyPath := "/k"; cd_PostDeployCommand := ""; cd_SourceType := "manual";
     cd_SourceID := ""; cd_Status := CertDeploymentSucceeded; cd_LastError := ""; cd_DeployedAt := 1 |}.
Definition certificate (issuer : string) (m : Certificate) (hosts : list string) : ManagedCertificate :=
  {| mc_ID := "c"; mc_Domains := ["a.dev"]; mc_Issuer := issuer; mc_DNSProvider := "cf"; mc_Status := CertActive;
     mc_Material := Some m; mc_Deployments := deployment <$> hosts; mc_LastError := ""; mc_AutoRenew := true;
     mc_CreatedAt := 1; mc_UpdatedAt := 1 |}.
Definition files (ingresses : list Ingress) (applied : list AppliedState) (c : ManagedCertificate) : FileStore :=
  {| fs_ingress := Content (mkFileStoreData ingresses applied); fs_providers := Missing;
     fs_certs := Content (mkCertStoreData no_account [c]) |}.
Definition certificate_of (s : outside) : option ManagedCertificate :=
  match GetCertificate (mkEnv 0 "" true Written) "c" s.1 with Ok c => c | Err _ => None end.

Definition day : duration := (24 * 60 * minute)%Z.
Definition good_world (now : time) (hosts : list string) (m : Certificate) : World := mkWorld now hosts (Ok m) [] id.

(** ** Certificates *)

(** Asking for an uploaded certificate is refused, but takes it out of use: its status is saved as
    pending before the issuer is checked. *)
Lemma issue_spoils_manual :
  let before := (files [] [] (certificate CertificateIssuerManual (material "k" 9) []), ∅) in
  let after := does (good_world 5 [] (material "new" 9)) (Issue "c") before in
  after.2 = Err "only acme certificates can be issued" /\
  mc_Status <$> certificate_of before = Some CertActive /\
  mc_Status <$> certificate_of after.1 = Some CertPending.
Proof. vm_compute. done. Qed.

(** A renewal that fails once is not tried again: the failure is saved as the status, and the next
    rounds renew active certificates only, although the material is still valid. *)
Lemma failed_renewal_not_retried :
  let before := (files [] [] (certificate CertificateIssuerACME (material "k" (20 * day)) []), ∅) in
  let failing := mkWorld 5 [] (Err "timeout") [] id in
  let s1 := does failing (RunOnce 5 (30 * day)) before in
  let s2 := does (good_world (5 + day) [] (material "new" (90 * day))) (RunOnce (5 + day) (30 * day)) s1.1 in
  s1.2 = Err "timeout" /\ s2.2 = Ok tt /\ s2.1 = s1.1 /\
  mc_Status <$> certificate_of s2.1 = Some CertFailed /\
  (certificate_of s2.1 ≫= mc_Material) = Some (material "k" (20 * day)).
Proof. vm_compute. done. Qed.

(** When one host refuses the renewed certificate, it and the hosts after it keep the old one, which
    expires: the new one is not due for long, so no round comes back to them, and the records of the
    hosts that were not tried say that all went well. *)
Lemma partial_redeploy_forgotten :
  let old := material "old" (20 * day) in let new := material "new" (90 * day) in
  let before := (files [] [] (certificate CertificateIssuerACME old ["h1"; "h2"]),
                 <["h1" := old]> (<["h2" := old]> ∅)) in
  let s1 := does (mkWorld 5 ["h1"; "h2"] (Ok new) ["h1"] id) (RunOnce 5 (30 * day)) before in
  let s2 := does (good_world (5 + day) ["h1"; "h2"] new) (RunOnce (5 + day) (30 * day)) s1.1 in
  s1.2 = Err "refused" /\ s2 = (s1.1, Ok tt) /\
  (certificate_of s2.1 ≫= mc_Material) = Some new /\
  s2.1.2 !! "h1" = Some old /\ s2.1.2 !! "h2" = Some old /\
  (fun c => cd_Status <$> mc_Deployments c) <$> certificate_of s2.1 =
    Some [CertDeploymentFailed; CertDeploymentSucceeded].
Proof. vm_compute. done. Qed.

(** ** Declarations *)

Definition declaration (id project value : string) : Ingress :=
  {| ing_ID := id; ing_ProjectID := project; ing_Name := ""; ing_Domain := "a.dev";
     ing_SourceHint := mkSourceHint "" "" "" ""; ing_Proxy := mkProxyConfig "nginx" ["h1"];
     ing_Upstreams := [mkUpstream "h1" "10.0.0.1" 80]; ing_ProxyOptions := mkProxyOptions false 0 [] "server {}";
     ing_TLS := mkTLSConfig true "c"; ing_DNS := mkDNSConfig ProviderManual [mkDnsRecord "" "" "" value 0];
     ing_CreatedAt := 1; ing_UpdatedAt := 1 |}.

(** A host with the address 9.9.9.9, whose text is not modelled further. *)
Definition nine : IpText :=
  {| ParseIP s := if s =? "9.9.9.9" then Some (replicate 10 0%Z ++ [255; 255; 9; 9; 9; 9]%Z)%list else None;
     IP_String _ := "9.9.9.9" |}.

(** [Apply] saves the certificate as it was when it began: a renewal in between is undone, and the
    new material is lost. *)
Lemma apply_undoes_renewal :
  let old := material "old" (20 * day) in let new := material "new" (90 * day) in
  let before := (files [declaration "i" "p" "1.1.1.1"] [] (certificate CertificateIssuerACME old []), ∅) in
  let renew (f : FileStore) := (does (good_world 6 ["h1"] new) (Renew "c") (f, ∅)).1.1 in
  let after := does (mkWorld 5 ["h1"] (Ok new) [] renew) (Apply (H := nine) "i" "") before in
  (exists st, after.2 = Ok st) /\ (certificate_of (renew before.1, ∅) ≫= mc_Material) = Some new /\
  (certificate_of after.1 ≫= mc_Material) = Some old.
Proof. vm_compute. split_and!; [by eexists|done..]. Qed.

(** A record value of blanks: the inferred address is confirmed, but the blanks are what the
    provider is asked to put in place. *)
Lemma blank_value_not_replaced :
  resolveDNSRecords (H := nine) (declaration "i" "p" " ") [plain_host "9.9.9.9" "h1"] =
    Ok ([mkDnsRecord "" RecordA "a.dev" " " 300], value_is "9.9.9.9" true).
Proof. vm_compute. done. Qed.

(** The validation lets manual DNS with TLS pass, which its comment excludes. *)
Lemma manual_dns_with_tls_valid : Ingress_Validate (declaration "i" "p" "1.1.1.1") = None.
Proof. reflexivity. Qed.

(** A declaration whose body names the identifier of another project's is not created but takes
    the other's place: the other project loses it. *)
Lemma create_overwrites_other_project :
  let before := files [declaration "i" "p" "1.1.1.1"] [] (certificate CertificateIssuerACME (material "k" 9) []) in
  let e := mkEnv 7 "new" true Written in
  let after := createProjectIngress e "q" (declaration "i" "q" "2.2.2.2") before in
  (exists i, after.2 = Ok i) /\
  projectIngressForRequest e "p" "i" before = Ok (declaration "i" "p" "1.1.1.1") /\
  projectIngressForRequest e "p" "i" after.1 = Err ingress_not_found.
Proof. vm_compute. split_and!; [by eexists|done..]. Qed.

(** Once a host of an applied declaration has been deleted, orphans are neither found nor removed
    until it is applied again: the hosts of the applied state must all exist. *)
Lemma deleted_host_blocks_orphans :
  let st := mkAppliedState "i" [] [mkHostState "gone" "" [] None] 1 in
  let s := (files [declaration "i" "p" "1.1.1.1"] [st] (certificate CertificateIssuerACME (material "k" 9) []), ∅) in
  let w := good_world 5 ["h1"] (material "new" 9) in
  (does w (DetectOrphans "i") s).2 = Err "host gone not found" /\
  (does w (RemoveOrphans "i" (mkOrphanReport [mkOrphanConfig "h1" "/x" "a.dev"] [])) s).2 = Err "host gone not found".
Proof. vm_compute. done. Qed.
